(* ===== verification/_CoqProject ===== *)
-Q . S2P
Prelude.v
Bitset.v
FoldedHist.v
BpCommon.v
Ras.v
RasProps.v
RasExamples.v
Ftq.v
TageHist.v
MgscHist.v
Bpu.v
BpuHist.v
BpuInv.v
BpuSteps.v
BpuProps.v
BpuExamples.v
Double.v
RegFile.v
Inst.v
Comm.v
StoreSet.v
StoreSetProps.v
StoreSetTrace.v
MemDep.v
MemDepGraph.v
MemDepInv.v
MemDepSteps.v
MemDepProps.v
CircularBuffer.v
Bytes.v
StoreBuffer.v
StoreBufferInv.v
StoreBufferView.v
StoreBufferLsq.v
StoreBufferSteps.v
StoreBufferProps.v
StoreBufferThm.v
CircularQueue.v
LsqUnit.v
LsqRead.v
LsqPipe.v
LsqOffload.v
LsqSys.v
LsqInv.v
LsqUpd.v
LsqReadOk.v
LsqCheck.v
LsqLoad.v
LsqEvents.v
LsqStore.v
LsqPop.v
LsqRetire.v
LsqThm.v
Rob.v
RobInv.v
RobProps.v
RobTrace.v
Commit.v
CommitProps.v
CommitIntake.v
CommitRun.v
Fusion.v
FusionCorrect.v
FusionLoads.v
FusionMap.v
FusionSound.v
RenameMap.v
Rename.v
RenameRefs.v
RenameInv.v
RenameGroup.v
RenameStage.v
RenameInit.v
RenameProps.v
Decode.v
DecodeLoop.v
DecodeStage.v
DecodeExamples.v
RenameExamples.v
RobExamples.v
