(* ===== verification/Prelude.v ===== *)
(** * XS-GEM5 core: a verification development

    The program is XS-GEM5, a fork of the gem5 simulator whose out-of-order core model
    follows the XiangShan RISC-V processor.  The development models how branches are
    predicted and mispredictions undone, how instructions are decoded and fused,
    renamed, kept in the reorder buffer and committed, when memory instructions may
    issue, and how loads and stores run through their pipelines and queues to memory.
    All paths below are relative to [src/GEM5/src/].

    ** The parts and their files

    A file that models code is followed by the files that prove its properties and by a
    file of concrete runs.  A component is a [Module] with the name of its file, or, for
    the store buffer and the load/store queue, the sections of its files.

    - Branch prediction, [cpu/pred/btb/].  The decoupled predictor runs ahead of fetch
      and fills a queue of fetch targets.  [BpCommon] is the data ([common.hh]), [Ras]
      the two return address stacks ([ras.cc], [uras.cc]), [Ftq] the queue ([ftq.cc]),
      [FoldedHist] the compressed histories ([folded_hist.cc]), [TageHist] how TAGE,
      ITTAGE and MicroTAGE use them ([btb_tage.cc], [btb_ittage.cc], [microtage.cc]) and
      [MgscHist] how MGSC does ([btb_mgsc.cc]), [Bpu] the predictor with its history
      manager ([decoupled_bpred.cc], [history_manager.hh]).  [Bpu.tick] is a
      cycle; [controlSquash], [nonControlSquash], [trapSquash] and [commit] are the calls
      of fetch and commit.  Proofs: [RasProps], [BpuHist], [BpuInv], [BpuSteps],
      [BpuProps].
    - Instructions.  [RegFile], [Inst] and [Comm] are the parts of [cpu/reg_class.hh],
      [cpu/o3/regfile.hh], [cpu/static_inst.hh], [cpu/o3/dyn_inst.cc] and
      [cpu/o3/comm.hh] that the stages use.
    - Fusion, [arch/riscv/insts/fusion.cc].  [Fusion] has the fused instruction classes,
      [FusionMap] the tables that say what is fused.  Proofs: [FusionCorrect],
      [FusionLoads], [FusionSound].
    - Decode, [cpu/o3/decode.cc].  [Decode] is the stage, which looks up [FusionMap].
      Proofs: [DecodeLoop], [DecodeStage].
    - Rename, [cpu/o3/rename.cc], with [rename_map.cc], [free_list.hh], [scoreboard.hh].
      [RenameMap] has the maps and free lists, [Rename] the stage.  Proofs: [RenameRefs],
      [RenameInv], [RenameGroup], [RenameStage], [RenameInit], [RenameProps].
    - Reorder buffer and commit, [cpu/o3/rob.cc] and [cpu/o3/commit.cc].  [Rob] is the
      buffer, [Commit] the part of the commit stage that drives it, [Double] the
      floating-point quotient of the squash width.  Proofs: [RobInv], [RobProps],
      [RobTrace], [CommitProps], [CommitIntake], [CommitRun].
    - Memory dependences, [cpu/o3/store_set.cc] and [cpu/o3/mem_dep_unit.cc].  [StoreSet]
      is the predictor, [MemDep] the unit that holds memory instructions back.  Proofs:
      [StoreSetProps], [StoreSetTrace], [MemDepGraph], [MemDepInv], [MemDepSteps],
      [MemDepProps].
    - Store buffer, [cpu/o3/lsq.cc] ([StoreBuffer], [StoreBufferEntry] and the part of
      [LSQ] that evicts entries).  [StoreBuffer] has the entries and the buffer,
      [StoreBufferLsq] the eviction, the retries and the flush, with the cache as events.
      Proofs: [StoreBufferInv], [StoreBufferView], [StoreBufferSteps],
      [StoreBufferProps], [StoreBufferThm].
    - Load/store queue, [cpu/o3/lsq_unit.cc], [cpu/o3/lsq_unit.hh] and [cpu/o3/lsq.cc],
      on the queues of [base/circular_queue.hh] ([CircularQueue]).  [LsqUnit] has the
      entries, insertion, commit, completion and squash, [LsqRead] the read of a load
      with forwarding and the order checks, [LsqPipe] the stages of the load and store
      pipelines and the replay queues, [LsqOffload] the way of a store to the buffer,
      [LsqSys] one thread with the store buffer, the cache and the memory as a step
      function on events.  Proofs: [LsqInv], [LsqUpd], [LsqReadOk], [LsqCheck],
      [LsqLoad], [LsqEvents], [LsqStore], [LsqPop], [LsqRetire], [LsqThm].
    - [Bitset] and [CircularBuffer] are interfaces of the Boost classes the code uses;
      [Bytes] has byte arrays and the memory.

    ** How code becomes definitions

    An operation keeps its name and becomes a function from the state it reads to the
    state it leaves, with the calls it makes on other components composed as in the
    source.  [assert], [panic] and [fatal] return [Panic]; an access out of the bounds
    of an array, or another undefined behaviour, returns [ub], so that a theorem that an
    operation returns [Ok] also says that it stays in bounds.  Integers are [Z], with
    [u64], [u32], [s32] written where the code can wrap.  Maps are [gmap], arrays and
    deques are lists.  Where instructions or entries are shared objects that one
    component changes and another reads, the objects live in a store ([MemDep]) or every
    holder is updated ([Decode], [Commit]).  Loops that are not structural have fuel,
    and the theorems show that it is enough: the folds of a history and of a path hash
    ([FoldedHist.fold_loop], [foldHash_loop]; one unit per bit), the walks of the fetch
    target queue on a squash and on a commit ([Ftq.squash_loop], [Bpu.commit_loop]; one
    per target) and the decode loop ([Decode.decode_loop]; one per instruction of the
    group).  The loops of the load/store queue ([commitLoads_loop], [squashLoads],
    [squashStores], [popCompleted], [count_offloadable], [offload_loop]) have one unit
    per entry of the queue, and each iteration removes or passes one entry.

    Code outside the repository is a class: [DynamicBitset] and [CircularBuffer] for
    Boost, [ISASem] for the execution functions that the ISA description generates,
    [SetOrder] for the order in which an unordered set is iterated.  Each has an instance
    on which the theorems are evaluated.  What the tables of the direction and target
    predictors answer is an input of [Bpu.tick], and what [commitHead] decides about the
    instruction at the head is an input of [Commit].

    ** What is shown

    - Fusion: the pairs and triples that the tables accept and the constructors build
      compute what the replaced instructions compute in sequence, on the register file
      and, for loads, on memory, except that an intermediate register (the product of a
      multiply-accumulate, the shifted value of a shift-add-load) is not written; the
      statements name the operands for which this fails, and theorems of their own show
      what happens there ([FusionSound]).  The tables do not depend on hash order
      ([FusionMap]).
    - Decode: the loop ends, does not panic when the constructors accept what the tables
      match, and passes to rename, in program order, instructions that stand for exactly
      those that came from fetch; its buffers hold whole groups; a squash removes exactly
      the instructions of its thread ([DecodeLoop], [DecodeStage]).
    - Rename: in every reachable state the reference count of each physical register is
      the number of its uses and the free lists hold the others; a group that is let in
      is renamed completely; squashing it restores the state; an eliminated move or folded
      addition leaves the map reading as the state after executing it ([RenameProps]).
    - Reorder buffer: what is inserted retires in order or is squashed, once; a squash
      removes exactly the younger instructions within the cycles its width gives;
      compressed groups obey their policy ([RobTrace]).  The commit stage stays within
      the protocol under which this is shown, accounts for every instruction that rename
      sends (retired, squashed, dropped by a squash, in the buffer or waiting), and its
      intake fits when the shares of the threads do and rename heeds the stall signals
      ([CommitRun]).
    - Branch prediction: no assertion of the predictor fails over any sequence of
      cycles, squashes, commits and fetches; thread 0 predicts within a bounded number of
      cycles; a squash rewinds the histories; folded histories are folds of the history
      they compress, for the shifts the code handles; the return address stacks predict
      nested calls that fit them and are restored exactly ([BpuProps], [FoldedHist], [RasProps], [Ftq]).
    - Memory dependences: the store sets learn a conflict after two violations, while the
      entries of the two are not retrained and their set is not full, and report only
      stores in flight; the dependence unit releases an instruction exactly when its
      producers are done, never past a barrier, cannot deadlock and never fails an
      assertion ([StoreSetTrace], [MemDepProps]).
    - Store buffer: memory seen through the buffer is the memory after the stores it
      took, in order, whatever the order in which the cache answers; a flush empties it
      ([StoreBufferThm]).
    - Load/store queue: for every interleaving of dispatch, issue, pipeline stages,
      translation and cache answers, replays, memory order violations, squashes, commit
      and writeback, no assertion fails, every load that commit releases has delivered
      the bytes that memory holds after the stores before it in program order, and the
      stores reach memory in that order ([LsqThm]).

    The example files also hold theorems that show where the code does something else
    than it means to, such as a load that is fused across a store to its address
    ([DecodeExamples]), a fused multiply-accumulate that adds a product where [x0] was
    read ([FusionSound]), a jump that the recovery of the path history forgets
    ([BpuExamples]), a squash that drops other threads' instructions ([RobExamples]) and a
    load that a store over a block boundary does not find ([LsqThm]).

    ** Assumptions of the theorems

    Sequence numbers are unique and increase in program order.  Rename sends commit the
    instructions of one thread at a time, and none to a thread that commit blocked in the
    cycle before.  The sizes of the tables
    that are indexed by a fold are powers of two, as the configurations have them.  The
    predictor is used by one thread at a time, as [scheduleThread] does.  The theorems on
    the load/store queue are for ordinary loads and stores within a cache block, with
    one virtual address for a block, load miss replay on and the stores written back at
    stage 2 or later, as the configurations have it; commit releases an instruction only
    when it is executed and no pending squash concerns it, and the cache writes a block
    only when no load has it on the bus ([LsqSys]).  What a theorem
    needs of its caller is a hypothesis in its statement, with a concrete instance after
    it.

    ** Not modelled

    - Fetch ([cpu/o3/fetch.cc]), which is mostly cache and translation traffic; the rest
      of issue, execute and writeback ([iew.cc], [inst_queue.cc], [issue_queue.cc]) apart
      from the calls of [MemDep] and the loads' and stores' pipelines.
    - In the load/store queue, the packets of loads over a block boundary, atomics and
      store conditionals (their direct way to the cache ends at an output), snoops,
      hardware transactional memory, faults, and the statistics of in-flight loads.
    - The tables of the direction and target predictors (BTBs, TAGE, ITTAGE, MicroTAGE,
      MGSC) and the value predictors: how they index and train affects performance and not the
      state modelled here.
    - In commit, interrupts, traps and the checkpoint and difftest interfaces, which talk
      to the operating system, files and a reference simulator.
    - Caches, prefetchers, memory controllers, networks, devices, other CPU models and
      other instruction sets, the Python configuration, and the build system.
    - Statistics, traces and probes of the modelled components: they do not change what
      the components do. *)

From Stdlib Require Export ZArith Lia Bool Btauto.
From stdpp Require Export base gmap list strings fin_maps.

#[global] Arguments Z.ltb : simpl never.
#[global] Arguments Z.leb : simpl never.
#[global] Arguments Z.eqb : simpl never.
#[global] Arguments Z.add : simpl never.
#[global] Arguments Z.sub : simpl never.
#[global] Arguments Z.mul : simpl never.
#[global] Arguments Z.pow : simpl never.
#[global] Arguments Z.modulo : simpl never.
#[global] Arguments Z.div : simpl never.
#[global] Arguments Z.shiftl : simpl never.
#[global] Arguments Z.shiftr : simpl never.
#[global] Arguments Z.of_nat : simpl never.
#[global] Arguments Z.to_nat : simpl never.

(** ** Errors

    [panic], [panic_if], [fatal] and [assert] stop the simulator: an
    operation that can reach one returns [res]. *)

Inductive res (A : Type) : Type :=
| Ok (a : A)
| Panic (msg : string).
Arguments Ok {A} a.
Arguments Panic {A} msg.

Definition res_bind {A B} (r : res A) (k : A → res B) : res B :=
  match r with
  | Ok a => k a
  | Panic m => Panic m
  end.

Definition assert_ (b : bool) (msg : string) : res unit :=
  if b then Ok tt else Panic msg.

Definition panic_if (b : bool) (msg : string) : res unit :=
  if b then Panic msg else Ok tt.

(** An access through an index that the C++ array does not hold. *)
Definition get_at {A} (o : option A) (msg : string) : res A :=
  match o with
  | Some a => Ok a
  | None => Panic msg
  end.

(** Behaviour the C++ standard leaves undefined: a null dereference or an access
    outside an array that no neighbouring object is known to follow. *)
Definition ub {A} : res A := Panic "undefined behaviour".

(** [l[i]] on a vector or array. *)
Definition nth_res {A} (l : list A) (i : Z) : res A :=
  if (i <? 0)%Z then ub
  else match l !! Z.to_nat i with Some a => Ok a | None => ub end.

(** [l[i] = a]. *)
Definition set_nth {A} (l : list A) (i : Z) (a : A) : res (list A) :=
  if ((0 <=? i) && (i <? Z.of_nat (length l)))%Z then Ok (<[Z.to_nat i := a]> l)
  else ub.

Fixpoint res_mapM {A B} (f : A → res B) (l : list A) : res (list B) :=
  match l with
  | [] => Ok []
  | x :: xs => res_bind (f x) (λ y, res_bind (res_mapM f xs) (λ ys, Ok (y :: ys)))
  end.

(** A [for] loop over a list, threading a state. *)
Fixpoint res_fold {A S} (f : S → A → res S) (s : S) (l : list A) : res S :=
  match l with
  | [] => Ok s
  | x :: xs => res_bind (f s x) (λ s', res_fold f s' xs)
  end.

Declare Scope gem5_scope.
Delimit Scope gem5_scope with gem5.

Notation "'let!' x := e 'in' k" := (res_bind e (fun x => k))
  (at level 10, x name, e at level 200, k at level 200,
   format "'let!'  x  :=  e  'in' '//' k") : gem5_scope.
Notation "'do!' e 'in' k" := (res_bind e (fun _ => k))
  (at level 10, e at level 200, k at level 200,
   format "'do!'  e  'in' '//' k") : gem5_scope.
Open Scope gem5_scope.

Lemma Ok_inj {A} (x y : A) : Ok x = Ok y → x = y.
Proof. congruence. Qed.

Lemma res_bind_Ok {A B} (r : res A) (k : A → res B) b :
  res_bind r k = Ok b ↔ ∃ a, r = Ok a ∧ k a = Ok b.
Proof.
  split.
  - destruct r as [a|m]; simpl; intros H; [by exists a|done].
  - by intros (a & -> & H).
Qed.

Lemma nth_res_Ok {A} (l : list A) i a :
  nth_res l i = Ok a ↔ (0 ≤ i)%Z ∧ l !! Z.to_nat i = Some a.
Proof.
  unfold nth_res, ub. destruct (Z.ltb_spec i 0).
  - split; [done|]. intros [? _]. lia.
  - destruct (l !! Z.to_nat i) as [x|]; split.
    + by intros [= <-].
    + by intros [_ [= <-]].
    + done.
    + by intros [_ ?].
Qed.

Lemma res_fold_app {A S} (f : S → A → res S) s l1 l2 :
  res_fold f s (l1 ++ l2) = res_bind (res_fold f s l1) (λ s', res_fold f s' l2).
Proof.
  revert s. induction l1 as [|x l1 IH]; intros s; simpl; [done|].
  destruct (f s x); simpl; [apply IH|done].
Qed.

(** A loop whose body always succeeds and keeps an invariant. *)
Lemma res_fold_inv {A S} (f : S → A → res S) (P : S → Prop) l s :
  P s → (∀ s x, x ∈ l → P s → ∃ s', f s x = Ok s' ∧ P s') →
  ∃ s', res_fold f s l = Ok s' ∧ P s'.
Proof.
  revert s. induction l as [|x l IH]; intros s Hs Hf; simpl; [by exists s|].
  destruct (Hf s x) as (s1 & -> & H1); [set_solver|done|]. simpl.
  apply IH; [done|]. intros s2 y Hy. apply Hf. set_solver.
Qed.

Lemma res_fold_keep {A S} (f : S → A → res S) (P : S → Prop) l s s' :
  P s → (∀ s x s', x ∈ l → P s → f s x = Ok s' → P s') → res_fold f s l = Ok s' → P s'.
Proof.
  revert s. induction l as [|x l IH]; intros s Hs Hf H; simpl in H; [by inversion H; subst|].
  apply res_bind_Ok in H as (s1 & H1 & H). eapply (IH s1); [|set_solver|done].
  eapply Hf; [|done..]. set_solver.
Qed.

Lemma res_mapM_Ok {A B} (f : A → res B) (g : A → B) l :
  (∀ x, x ∈ l → f x = Ok (g x)) → res_mapM f l = Ok (map g l).
Proof.
  induction l as [|x l IH]; intros Hf; simpl; [done|].
  rewrite Hf by set_solver. simpl. rewrite IH; [done|]. intros; apply Hf; set_solver.
Qed.

(** An access inside an array. *)
Lemma array_access {A} (l : list A) n i :
  Z.of_nat (length l) = n → (0 ≤ i < n)%Z →
  ∃ a, nth_res l i = Ok a ∧ l !! Z.to_nat i = Some a ∧
    ∀ b, set_nth l i b = Ok (<[Z.to_nat i := b]> l).
Proof.
  intros Hl Hi. destruct (lookup_lt_is_Some_2 l (Z.to_nat i)) as [a Ha]; [lia|].
  exists a. unfold nth_res, set_nth.
  destruct (Z.ltb_spec i 0), (Z.leb_spec 0 i), (Z.ltb_spec i (Z.of_nat (length l))); try lia.
  by rewrite Ha.
Qed.

Lemma set_nth_length {A} (l : list A) i a l' : set_nth l i a = Ok l' → length l' = length l.
Proof.
  unfold set_nth. destruct (_ && _); [|done]. intros [= <-]. by rewrite length_insert.
Qed.

(** [res_inv] decomposes a hypothesis [res_bind .. = Ok _]. *)
Ltac res_inv :=
  repeat match goal with
  | H : res_bind _ _ = Ok _ |- _ => apply res_bind_Ok in H as (? & ? & H)
  | H : Ok _ = Ok _ |- _ => injection H as H
  | H : Panic _ = Ok _ |- _ => discriminate H
  | H : ub = Ok _ |- _ => discriminate H
  | H : assert_ ?b _ = Ok _ |- _ => destruct b eqn:?; [clear H|discriminate H]
  | H : panic_if ?b _ = Ok _ |- _ => destruct b eqn:?; [discriminate H|clear H]
  end; simpl in *; subst.

(** Results related by a relation on the values. *)
Inductive res_rel {A} (R : A → A → Prop) : res A → res A → Prop :=
  | rr_ok a b : R a b → res_rel R (Ok a) (Ok b)
  | rr_panic m : res_rel R (Panic m) (Panic m).

Lemma res_rel_bind {A B} (R : A → A → Prop) (Q : B → B → Prop) x y f g :
  res_rel R x y → (∀ a b, R a b → res_rel Q (f a) (g b)) →
  res_rel Q (res_bind x f) (res_bind y g).
Proof. intros [a b H|m] Hf; simpl; [by apply Hf|constructor]. Qed.

(** ** Lists *)

Lemma filter_all {A} (P : A → Prop) `{∀ x, Decision (P x)} l : Forall P l → filter P l = l.
Proof. induction 1; simpl; [done|]. rewrite filter_cons_True by done. by f_equal. Qed.

Lemma filter_none {A} (P : A → Prop) `{∀ x, Decision (P x)} l :
  Forall (λ x, ¬ P x) l → filter P l = [].
Proof. induction 1; [done|]. by rewrite filter_cons_False by done. Qed.

(** The sum of [f] over a list. *)
Definition sumZ {A} (f : A → Z) (l : list A) : Z := foldr Z.add 0%Z (map f l).

Lemma sumZ_cons {A} (f : A → Z) a l : sumZ f (a :: l) = (f a + sumZ f l)%Z.
Proof. done. Qed.

Lemma sumZ_app {A} (f : A → Z) l k : sumZ f (l ++ k) = (sumZ f l + sumZ f k)%Z.
Proof. induction l as [|a l IH]; simpl; [done|]. rewrite !sumZ_cons, IH. lia. Qed.

Lemma sumZ_insert {A} (f : A → Z) l i a b :
  l !! i = Some a → sumZ f (<[i := b]> l) = (sumZ f l - f a + f b)%Z.
Proof.
  revert i. induction l as [|c l IH]; intros [|i]; simpl; try done.
  - intros [= ->]. rewrite !sumZ_cons. lia.
  - intros H%IH. rewrite !sumZ_cons, H. lia.
Qed.

Lemma sumZ_nonneg {A} (f : A → Z) l : (∀ a, 0 ≤ f a)%Z → (0 ≤ sumZ f l)%Z.
Proof. intros Hf. induction l as [|a l IH]; [done|]. rewrite sumZ_cons. specialize (Hf a). lia. Qed.

Lemma sumZ_elem {A} (f : A → Z) l a : (∀ a, 0 ≤ f a)%Z → a ∈ l → (f a ≤ sumZ f l)%Z.
Proof.
  intros Hf. induction 1 as [a l|a b l _ IH]; rewrite sumZ_cons.
  - pose proof (sumZ_nonneg f l Hf). lia.
  - specialize (Hf b). lia.
Qed.

Lemma sumZ_pointwise {A B} (f : A → Z) (g : B → Z) l k :
  (∀ i a, l !! i = Some a → ∃ b, k !! i = Some b ∧ f a ≤ g b)%Z → Forall (λ b, 0 ≤ g b)%Z k →
  (sumZ f l ≤ sumZ g k)%Z.
Proof.
  revert k. induction l as [|a l IH]; intros k Hi Hk.
  - clear Hi. induction Hk as [|b k Hb _ IH]; [done|]. rewrite sumZ_cons. simpl in *. lia.
  - destruct (Hi 0 a eq_refl) as (b & Hb & Hle). destruct k as [|b' k]; [done|]. injection Hb as ->.
    rewrite !sumZ_cons. apply Forall_cons in Hk as [_ Hk].
    assert (sumZ f l ≤ sumZ g k)%Z by (apply IH; [|done]; intros i; apply (Hi (S i))). lia.
Qed.

Lemma sumZ_replicate {A} (f : A → Z) n a : sumZ f (replicate n a) = (Z.of_nat n * f a)%Z.
Proof. induction n as [|n IH]; [done|]. simpl. rewrite sumZ_cons, IH. lia. Qed.

(** ** Fixed-width integers

    An unsigned [w]-bit value is a [Z] in [[0, 2^w)]; arithmetic wraps. *)

Definition wrapu (w z : Z) : Z := (z `mod` 2 ^ w)%Z.
Definition u64 (z : Z) : Z := wrapu 64 z.
Definition u32 (z : Z) : Z := wrapu 32 z.


(** A signed [w]-bit value: two's complement. *)
Definition wraps (w z : Z) : Z := ((z + 2 ^ (w - 1)) `mod` 2 ^ w - 2 ^ (w - 1))%Z.
Definition s32 (z : Z) : Z := wraps 32 z.
Definition s64 (z : Z) : Z := wraps 64 z.

Definition in_s (w z : Z) : Prop := (- 2 ^ (w - 1) ≤ z < 2 ^ (w - 1))%Z.

Definition in_u (w z : Z) : Prop := (0 ≤ z < 2 ^ w)%Z.

Lemma wrapu_range w z : (0 ≤ w)%Z → in_u w (wrapu w z).
Proof. intros Hw. apply Z.mod_pos_bound. lia. Qed.

Lemma wrapu_small w z : in_u w z → wrapu w z = z.
Proof. intros H. by apply Z.mod_small. Qed.

Lemma wraps_small w z : (0 < w)%Z → in_s w z → wraps w z = z.
Proof.
  unfold in_s, wraps. intros Hw H.
  assert (2 ^ w = 2 * 2 ^ (w - 1))%Z by (rewrite <- Z.pow_succ_r by lia; f_equal; lia).
  rewrite Z.mod_small; lia.
Qed.

Lemma u64_range z : in_u 64 (u64 z).
Proof. by apply wrapu_range. Qed.

Lemma u64_small z : in_u 64 z → u64 z = z.
Proof. apply wrapu_small. Qed.

Lemma u64_add_l a b : u64 (u64 a + b) = u64 (a + b).
Proof. unfold u64, wrapu. by rewrite Zplus_mod_idemp_l. Qed.

Lemma u64_add_r a b : u64 (a + u64 b) = u64 (a + b).
Proof. unfold u64, wrapu. by rewrite Zplus_mod_idemp_r. Qed.

Lemma u64_idem a : u64 (u64 a) = u64 a.
Proof. unfold u64, wrapu. by rewrite Zmod_mod. Qed.

(** ** Bits

    [rew_bits] holds the equations of [Z.testbit]; [bits_simpl] pushes
    [Z.testbit] through the bit operations, with side conditions by [lia]. *)

Create Rewrite HintDb rew_bits.
#[export] Hint Rewrite
  Z.lxor_spec Z.land_spec Z.lor_spec Z.testbit_0_l
  : rew_bits.

Lemma testbit_shiftl a n i :
  (0 ≤ n)%Z → (0 ≤ i)%Z →
  Z.testbit (Z.shiftl a n) i = (n <=? i)%Z && Z.testbit a (i - n).
Proof.
  intros Hn Hi. rewrite Z.shiftl_spec by done.
  destruct (Z.leb_spec n i) as [Hle|Hlt]; simpl; [done|].
  by rewrite Z.testbit_neg_r by lia.
Qed.

Lemma testbit_wrapu w a i :
  (0 ≤ w)%Z → (0 ≤ i)%Z →
  Z.testbit (wrapu w a) i = (i <? w)%Z && Z.testbit a i.
Proof.
  intros Hw Hi. unfold wrapu.
  destruct (Z.ltb_spec i w) as [Hlt|Hge]; simpl.
  - by apply Z.mod_pow2_bits_low.
  - by apply Z.mod_pow2_bits_high.
Qed.

Lemma testbit_ones w i :
  (0 ≤ w)%Z → (0 ≤ i)%Z → Z.testbit (2 ^ w - 1) i = (i <? w)%Z.
Proof.
  intros Hw Hi.
  replace (2 ^ w - 1)%Z with (Z.ones w) by (rewrite Z.ones_equiv; lia).
  apply Z.testbit_ones_nonneg; lia.
Qed.

Lemma testbit_pow2 n i :
  (0 ≤ n)%Z → (0 ≤ i)%Z → Z.testbit (2 ^ n) i = (n =? i)%Z.
Proof. intros Hn Hi. by apply Z.pow2_bits_eqb. Qed.

Lemma testbit_above w a i :
  in_u w a → (0 ≤ w ≤ i)%Z → Z.testbit a i = false.
Proof.
  intros Ha Hi. rewrite <- (wrapu_small w a Ha).
  rewrite testbit_wrapu by lia. by destruct (Z.ltb_spec i w); [lia|].
Qed.

(** A number whose bits at and above [w] are clear is a [w]-bit number. *)
Lemma in_u_bits w a :
  (0 ≤ w)%Z → (∀ i, (w ≤ i)%Z → Z.testbit a i = false) → in_u w a.
Proof.
  intros Hw Hbits. assert (a = wrapu w a) as ->; [|by apply wrapu_range].
  apply Z.bits_inj'. intros i Hi. rewrite testbit_wrapu by lia.
  destruct (Z.ltb_spec i w); simpl; [done|]. by apply Hbits.
Qed.

(** ** Parity of a family of bits *)

Fixpoint parity (n : nat) (f : nat → bool) : bool :=
  match n with
  | O => false
  | S m => xorb (parity m f) (f m)
  end.

Lemma parity_ext n f g :
  (∀ i, i < n → f i = g i) → parity n f = parity n g.
Proof.
  induction n as [|n IH]; intros Heq; simpl; [done|].
  rewrite IH by (intros; apply Heq; lia). by rewrite Heq by lia.
Qed.

Lemma parity_xorb n f g :
  parity n (λ i, xorb (f i) (g i)) = xorb (parity n f) (parity n g).
Proof. induction n as [|n IH]; simpl; [done|]. rewrite IH. btauto. Qed.

Lemma parity_false n f : (∀ i, i < n → f i = false) → parity n f = false.
Proof.
  intros H. induction n as [|n IH]; simpl; [done|].
  rewrite IH by (intros; apply H; lia). by rewrite H by lia.
Qed.

Lemma parity_app n m f :
  parity (n + m) f = xorb (parity n f) (parity m (λ i, f (n + i)%nat)).
Proof.
  induction m as [|m IH].
  - rewrite Nat.add_0_r. simpl. btauto.
  - rewrite Nat.add_succ_r. simpl. by rewrite IH, xorb_assoc.
Qed.

Lemma parity_S_l n f : parity (S n) f = xorb (f O) (parity n (λ i, f (S i))).
Proof. change (S n) with (1 + n)%nat. rewrite parity_app. simpl. by destruct (f O). Qed.

Lemma parity_rev n f : parity n (λ i, f (n - 1 - i)%nat) = parity n f.
Proof.
  induction n as [|n IH]; [done|].
  rewrite parity_S_l. simpl. rewrite <- IH, xorb_comm.
  replace (n - 0 - 0)%nat with n by lia. f_equal.
  apply parity_ext. intros. f_equal. lia.
Qed.

(** A parity in which at most the index [k] contributes. *)
Lemma parity_single n f k :
  k < n → (∀ i, i < n → i ≠ k → f i = false) → parity n f = f k.
Proof.
  intros Hk H. replace n with (k + (1 + (n - k - 1)))%nat by lia.
  rewrite !parity_app. simpl.
  rewrite parity_false by (intros; apply H; lia).
  rewrite parity_false by (intros; apply H; lia).
  rewrite Nat.add_0_r. btauto.
Qed.
