(* ===== verification/Bitset.v ===== *)
(** * Bitset: the interface of [boost::dynamic_bitset<>]

    The branch histories are [boost::dynamic_bitset<>] objects.  Boost is not
    part of the repository, so the development takes its bit vector as a type
    class: [DynamicBitset] lists the operations the predictors call,
    [DynamicBitsetLaws] the documented behaviour of those operations on
    positions inside the vector.  [zbitset] is an instance on which the
    theorems can be evaluated. *)

From S2P Require Import Prelude.

Class DynamicBitset (B : Type) := {
  bs_size : B → Z;
  bs_test : B → Z → bool;            (** [b[i]], read *)
  bs_shl : B → Z → B;                (** [b <<= n] *)
  bs_put : B → Z → bool → B          (** [b[i] = v] *)
}.

Class DynamicBitsetLaws (B : Type) `{DynamicBitset B} := {
  bs_size_shl b n : bs_size (bs_shl b n) = bs_size b;
  bs_size_put b i v : bs_size (bs_put b i v) = bs_size b;
  bs_test_shl b n i :
    (0 ≤ n)%Z → (0 ≤ i < bs_size b)%Z →
    bs_test (bs_shl b n) i = (n <=? i)%Z && bs_test b (i - n)%Z;
  bs_test_put b j v i :
    (0 ≤ j < bs_size b)%Z → (0 ≤ i < bs_size b)%Z →
    bs_test (bs_put b j v) i = if (i =? j)%Z then v else bs_test b i
}.

(** ** A concrete bit vector: a size and a number *)

Record zbitset := ZBitset { zb_size : Z; zb_bits : Z }.

#[export] Instance zbitset_ops : DynamicBitset zbitset := {
  bs_size := zb_size;
  bs_test b i := Z.testbit (zb_bits b) i;
  bs_shl b n :=
    ZBitset (zb_size b) (wrapu (zb_size b) (Z.shiftl (zb_bits b) n));
  bs_put b i v :=
    ZBitset (zb_size b)
      (if v then Z.setbit (zb_bits b) i else Z.clearbit (zb_bits b) i)
}.

#[export] Instance zbitset_laws : DynamicBitsetLaws zbitset.
Proof.
  split; [done|done| |].
  - intros b n i Hn Hi. simpl in *.
    rewrite testbit_wrapu, testbit_shiftl by lia.
    by destruct (Z.ltb_spec i (zb_size b)); [|lia].
  - intros b j v i Hj Hi. simpl in *. destruct v.
    + rewrite Z.setbit_eqb by lia. rewrite (Z.eqb_sym j i).
      by destruct (i =? j)%Z.
    + rewrite Z.clearbit_eqb. rewrite (Z.eqb_sym j i).
      destruct (i =? j)%Z; simpl; [by rewrite andb_false_r|].
      by rewrite andb_true_r.
Qed.

(** ** Construction and comparison *)

Class DynamicBitsetCmp (B : Type) := {
  bs_new : Z → B;                    (** the given number of zero bits *)
  bs_resize : B → Z → B;             (** [b.resize(n)] *)
  bs_eqb : B → B → bool              (** [a == b] *)
}.

Class DynamicBitsetCmpLaws (B : Type) `{DynamicBitset B, DynamicBitsetCmp B} := {
  bs_size_new n : (0 ≤ n)%Z → bs_size (bs_new n) = n;
  bs_test_new n i : (0 ≤ i < n)%Z → bs_test (bs_new n) i = false;
  bs_size_resize b n : (0 ≤ n)%Z → bs_size (bs_resize b n) = n;
  bs_test_resize b n i :
    (0 ≤ bs_size b)%Z → (0 ≤ i < n)%Z →
    bs_test (bs_resize b n) i = (i <? bs_size b)%Z && bs_test b i;
  bs_eqb_spec a b :
    bs_eqb a b = true ↔
    bs_size a = bs_size b ∧ ∀ i, (0 ≤ i < bs_size a)%Z → bs_test a i = bs_test b i
}.

#[export] Instance zbitset_cmp : DynamicBitsetCmp zbitset := {
  bs_new n := ZBitset n 0;
  bs_resize b n := ZBitset n (wrapu (zb_size b) (zb_bits b));
  bs_eqb a b :=
    (zb_size a =? zb_size b)%Z &&
    forallb (λ i, Bool.eqb (Z.testbit (zb_bits a) (Z.of_nat i)) (Z.testbit (zb_bits b) (Z.of_nat i)))
      (seq 0 (Z.to_nat (zb_size a)))
}.

#[export] Instance zbitset_cmp_laws : DynamicBitsetCmpLaws zbitset.
Proof.
  split; simpl; try done.
  - intros n i Hi. apply Z.testbit_0_l.
  - intros b n i Hb Hi. by rewrite testbit_wrapu by lia.
  - intros a b. rewrite andb_true_iff, Z.eqb_eq, forallb_forall. split.
    + intros [Hs Hf]. split; [done|]. intros i Hi.
      specialize (Hf (Z.to_nat i)). rewrite Z2Nat.id in Hf by lia.
      apply eqb_prop, Hf, in_seq. lia.
    + intros [Hs Hf]. split; [done|]. intros i [_ Hi]%in_seq. rewrite Hf by lia.
      apply eqb_reflx.
Qed.
