(* ===== verification/FoldedHist.v ===== *)
(** * FoldedHist: folded branch histories
    ([src/GEM5/src/cpu/pred/btb/folded_hist.{hh,cc}])

    A folded history keeps a long branch history compressed to [foldedLen]
    bits: bit [p] of the history is XORed into bit [p mod foldedLen].  The
    predictors update the folded value incrementally, in constant time, from
    the bits that leave the history ([DirectionFoldedHist::update],
    [PathFoldedHist::update]); [FoldedHistBase::fold] recomputes it from the
    whole history and [FoldedHistBase::check] asserts that both agree.

    The main results are that the incremental updates compute the fold of the
    shifted history, hence that [check] never fails along any sequence of
    updates; that the loops of [fold] and [foldHash] terminate; and that the
    IMLI counter saturates. *)

From S2P Require Import Prelude Bitset.

Module FoldedHist.

(** ** Hashing *)

Definition pathHashLength : Z := 15.

Definition pathHash (branchPC targetPC : Z) : Z :=
  let hash :=
    Z.lxor (u64 (Z.shiftl (Z.land (Z.shiftr branchPC 1) (2 ^ 9 - 1)) 4))
           (Z.land (Z.shiftr targetPC 2) (2 ^ 15 - 1)) in
  Z.land hash (2 ^ pathHashLength - 1).

(** [while (bitsLeft > 0)]: [None] when the fuel runs out. *)
Fixpoint foldHash_loop (fuel : nat) (foldedLen hash bitsLeft foldedHash : Z)
    : option Z :=
  if (0 <? bitsLeft)%Z then
    match fuel with
    | O => None
    | S fuel' =>
        foldHash_loop fuel' foldedLen (Z.shiftr hash foldedLen)
          (bitsLeft - foldedLen) (Z.lxor foldedHash hash)
    end
  else Some foldedHash.

Definition foldHash (hash foldedLen : Z) : option Z :=
  foldHash_loop (Z.to_nat pathHashLength) foldedLen hash pathHashLength 0.

(** ** The folded history object *)

Definition staticMaxShamtLimit : Z := 16.

Record FoldedHistBase := mkFolded {
  histLen : Z;
  foldedLen : Z;
  maxShamt : Z;
  folded : Z
}.

Definition set_folded (fh : FoldedHistBase) (v : Z) : FoldedHistBase :=
  mkFolded (histLen fh) (foldedLen fh) (maxShamt fh) v.

(** The constructor and its assertions. *)
Definition mkFoldedHist (hl fl ms : Z) : res FoldedHistBase :=
  do! assert_ (ms <=? staticMaxShamtLimit)%Z "maxShamt <= staticMaxShamtLimit" in
  do! assert_ (fl + ms <? 64)%Z "foldedLen + maxShamt < 64" in
  Ok (mkFolded hl fl ms 0).

(** The two precomputed arrays: only the first [maxShamt] cells are written. *)
Definition posHighestBitsInGhr (fh : FoldedHistBase) : list Z :=
  (λ i, histLen fh - 1 - i)%Z <$> seqZ 0 (maxShamt fh).

Definition posHighestBitsInOldFoldedHist (fh : FoldedHistBase) : list Z :=
  (λ i, (histLen fh - 1 - i) `mod` foldedLen fh)%Z <$> seqZ 0 (maxShamt fh).

(** [b << i] on a [bool]: the operand is promoted to a 32-bit [int], and the
    result converted to [uint64_t].  Counts of 32 and more are undefined in
    C++; the x86 shift takes them modulo 32. *)
Definition bool_shl (b : bool) (i : Z) : Z :=
  if b then
    let j := (i `mod` 32)%Z in
    if (j =? 31)%Z then (2 ^ 64 - 2 ^ 31)%Z else (2 ^ j)%Z
  else 0%Z.

Section Ops.
Context {B : Type} `{DynamicBitset B}.

(** One chunk of [fold]: the inner loop. *)
Definition fold_chunk (fl hl : Z) (ghr : B) (startBit : Z) : Z :=
  let chunkSize := Z.min fl (hl - startBit) in
  foldl (λ chunk i, Z.lor chunk (bool_shl (bs_test ghr (startBit + i)) i))
        0%Z (seqZ 0 chunkSize).

Fixpoint fold_loop (fuel : nat) (fl hl : Z) (ghr : B) (startBit acc : Z)
    : option Z :=
  if (startBit <? hl)%Z then
    match fuel with
    | O => None
    | S fuel' =>
        fold_loop fuel' fl hl ghr (startBit + fl)
          (Z.lxor acc (fold_chunk fl hl ghr startBit))
    end
  else Some acc.

Definition fold (fh : FoldedHistBase) (ghr : B) : option Z :=
  let foldedMask := (2 ^ foldedLen fh - 1)%Z in
  match fold_loop (Z.to_nat (histLen fh)) (foldedLen fh) (histLen fh) ghr 0 0 with
  | Some v => Some (Z.land v foldedMask)
  | None => None
  end.

(** [recover] and [check]. *)
Definition recover (fh other : FoldedHistBase) : res FoldedHistBase :=
  do! assert_ (foldedLen fh =? foldedLen other)%Z "foldedLen" in
  do! assert_ (maxShamt fh =? maxShamt other)%Z "maxShamt" in
  do! assert_ (histLen fh =? histLen other)%Z "histLen" in
  Ok (set_folded fh (folded other)).

Definition check (fh : FoldedHistBase) (ghr : B) : res unit :=
  match fold fh ghr with
  | Some expected => assert_ (folded fh =? expected)%Z "_folded == expected"
  | None => Panic "fold does not terminate"
  end.

(** Step 1 of the two updates: remove the bits that leave the history. *)
Fixpoint remove_highest (fh : FoldedHistBase) (ghr : B) (idxs : list nat)
    (temp : Z) : res Z :=
  match idxs with
  | [] => Ok temp
  | i :: idxs' =>
      let! p := get_at (posHighestBitsInGhr fh !! i) "posHighestBitsInGhr" in
      let! q := get_at (posHighestBitsInOldFoldedHist fh !! i)
                  "posHighestBitsInOldFoldedHist" in
      remove_highest fh ghr idxs' (Z.lxor temp (bool_shl (bs_test ghr p) q))
  end.

(** Step 3: copy the bits shifted out of the folded value back to its low
    positions. *)
Definition copy_back (fl : Z) (idxs : list Z) (temp : Z) : Z :=
  foldl (λ t i,
    let highBit := Z.land (Z.shiftr t (fl + i)) 1 in
    Z.lor t (u64 (Z.shiftl highBit i))) temp idxs.

Definition direction_update (fh : FoldedHistBase) (ghr : B) (shamt : Z)
    (taken : bool) : res FoldedHistBase :=
  do! assert_ (0 <=? shamt)%Z "shamt >= 0" in
  let foldedMask := (2 ^ foldedLen fh - 1)%Z in
  let temp := folded fh in
  if (histLen fh <=? shamt)%Z then
    Ok (set_folded fh (if taken then 1 else 0)%Z)
  else if (histLen fh <=? foldedLen fh)%Z then
    let temp := u64 (Z.shiftl temp shamt) in
    let temp := Z.land temp (2 ^ histLen fh - 1) in
    Ok (set_folded fh (if taken then Z.lor temp 1 else temp))
  else
    let! temp := remove_highest fh ghr (seq 0 (Z.to_nat shamt)) temp in
    let temp := u64 (Z.shiftl temp shamt) in
    let temp := copy_back (foldedLen fh) (seqZ 0 shamt) temp in
    let temp := if taken then Z.lxor temp 1 else temp in
    Ok (set_folded fh (Z.land temp foldedMask)).

Definition imli_update (fh : FoldedHistBase) (taken : bool) : res FoldedHistBase :=
  do! assert_ (histLen fh <=? foldedLen fh)%Z "foldedLen >= histLen" in
  let foldedMask := (2 ^ foldedLen fh - 1)%Z in
  let temp := folded fh in
  let temp :=
    if taken then
      let max := (2 ^ histLen fh - 1)%Z in
      if (temp <? max)%Z then (temp + 1)%Z else temp
    else 0%Z in
  Ok (set_folded fh (Z.land temp foldedMask)).

Definition path_update (fh : FoldedHistBase) (ghr : B) (shamt : Z)
    (taken : bool) (pc target : Z) : res FoldedHistBase :=
  if negb taken then Ok fh else
  let hash := pathHash pc target in
  let foldedMask := (2 ^ foldedLen fh - 1)%Z in
  let temp := folded fh in
  do! assert_ (shamt <=? foldedLen fh)%Z "shamt <= foldedLen" in
  do! assert_ (shamt <=? histLen fh)%Z "shamt <= histLen" in
  if (histLen fh <=? foldedLen fh)%Z then
    let temp := u64 (Z.shiftl temp shamt) in
    let temp := Z.lxor temp hash in
    Ok (set_folded fh (Z.land temp (2 ^ histLen fh - 1)))
  else
    do! assert_ (shamt <=? maxShamt fh)%Z "shamt <= maxShamt" in
    let! temp := remove_highest fh ghr (seq 0 (Z.to_nat shamt)) temp in
    let temp := u64 (Z.shiftl temp shamt) in
    let temp := copy_back (foldedLen fh) (seqZ 0 shamt) temp in
    let effectiveHash :=
      if (histLen fh <? pathHashLength)%Z
      then Z.land hash (2 ^ histLen fh - 1) else hash in
    match foldHash effectiveHash (foldedLen fh) with
    | Some fhash => Ok (set_folded fh (Z.land (Z.lxor temp fhash) foldedMask))
    | None => Panic "foldHash does not terminate"
    end.

(** ** The histories themselves
    ([DecoupledBPUWithBTB::histShiftIn], [pHistShiftIn]) *)

Definition histShiftIn (shamt : Z) (taken : bool) (history : B) : B :=
  if (shamt =? 0)%Z then history
  else bs_put (bs_shl history shamt) 0 taken.

Definition xor_hash_bits (idxs : list Z) (history : B) (hash : Z) : B :=
  (foldl (λ '(hist, hs) i,
     if (i <? bs_size hist)%Z then
       (bs_put hist i (xorb (Z.odd hs) (bs_test hist i)), Z.shiftr hs 1)
     else (hist, hs)) (history, hash) idxs).1.

Definition pHistShiftIn (shamt : Z) (taken : bool) (history : B)
    (pc target : Z) : B :=
  if (shamt =? 0)%Z then history
  else if taken then
    xor_hash_bits (seqZ 0 pathHashLength) (bs_shl history shamt)
      (pathHash pc target)
  else history.

End Ops.

(** ** Bits of the loops *)

(** Position [p] of the history contributes to bit [p mod fl]. *)
Definition folds_to (fl : Z) (h : nat → bool) (j : Z) (p : nat) : bool :=
  h p && (Z.of_nat p `mod` fl =? j)%Z.

Lemma testbit_bool_shl b i j :
  (0 ≤ i < 31)%Z → (0 ≤ j)%Z →
  Z.testbit (bool_shl b i) j = b && (i =? j)%Z.
Proof.
  intros Hi Hj. unfold bool_shl. destruct b; [|by rewrite Z.testbit_0_l].
  rewrite Z.mod_small by lia.
  destruct (Z.eqb_spec i 31); [lia|]. by rewrite testbit_pow2 by lia.
Qed.

Lemma folds_to_high fl h k p :
  (0 < fl ≤ k)%Z → folds_to fl h k p = false.
Proof.
  intros Hk. unfold folds_to.
  pose proof (Z.mod_pos_bound (Z.of_nat p) fl).
  destruct (Z.eqb_spec (Z.of_nat p `mod` fl) k); [lia|]. by rewrite andb_false_r.
Qed.

Lemma mod_shift_eqb q s fl j :
  (0 < fl)%Z → (0 ≤ s ≤ fl)%Z → (0 ≤ j < fl)%Z →
  ((q + s) `mod` fl =? j)%Z =
  (q `mod` fl =? if (j <? s)%Z then fl + j - s else j - s)%Z.
Proof.
  intros Hfl Hs Hj. rewrite <- Zplus_mod_idemp_l.
  pose proof (Z.mod_pos_bound q fl Hfl) as Hr.
  set (r := (q `mod` fl)%Z) in *.
  assert ((r + s) `mod` fl = if (r + s <? fl)%Z then r + s else r + s - fl)%Z as ->.
  { destruct (Z.ltb_spec (r + s) fl); [by apply Z.mod_small; lia|].
    symmetry. apply (Z.mod_unique_pos _ _ 1); lia. }
  destruct (Z.ltb_spec (r + s) fl), (Z.ltb_spec j s);
    apply eq_true_iff_eq; rewrite !Z.eqb_eq; lia.
Qed.

Section Bits.
Context {B : Type} `{DynamicBitset B}.
Implicit Types ghr : B.

(** The history as a function of the bit position. *)
Definition hist_fun ghr (p : nat) : bool := bs_test ghr (Z.of_nat p).

Lemma lor_bits_loop (f : Z → bool) (n : nat) j :
  (n ≤ 31)%nat → (0 ≤ j)%Z →
  Z.testbit (foldl (λ c i, Z.lor c (bool_shl (f i) i)) 0%Z
     (seqZ 0 (Z.of_nat n))) j
  = (j <? Z.of_nat n)%Z && f j.
Proof.
  intros Hn Hj. induction n as [|n IH].
  - simpl. rewrite Z.testbit_0_l. by destruct (Z.ltb_spec j (Z.of_nat 0)); [lia|].
  - rewrite seqZ_S, foldl_app. simpl. rewrite Z.lor_spec, IH by lia.
    rewrite Z.add_0_l, testbit_bool_shl by lia.
    destruct (Z.eqb_spec (Z.of_nat n) j) as [<-|Hne].
    + destruct (Z.ltb_spec (Z.of_nat n) (Z.of_nat n)),
        (Z.ltb_spec (Z.of_nat n) (Z.of_nat (S n))); try lia.
      by rewrite andb_true_r.
    + rewrite andb_false_r, orb_false_r.
      destruct (Z.ltb_spec j (Z.of_nat n)), (Z.ltb_spec j (Z.of_nat (S n)));
        try lia; done.
Qed.

Lemma fold_chunk_bit fl hl ghr s j :
  (0 < fl ≤ 31)%Z → (0 ≤ s < hl)%Z → (0 ≤ j)%Z →
  Z.testbit (fold_chunk fl hl ghr s) j
  = (j <? Z.min fl (hl - s))%Z && bs_test ghr (s + j).
Proof.
  intros Hfl Hs Hj. unfold fold_chunk.
  rewrite <- (Z2Nat.id (Z.min fl (hl - s))) by lia.
  by rewrite (lor_bits_loop (λ i, bs_test ghr (s + i))) by lia.
Qed.

(** The parity of one chunk is the bit at its offset. *)
Lemma parity_chunk (h : nat → bool) fl (n : nat) j :
  (0 < fl)%Z → (Z.of_nat n ≤ fl)%Z → (0 ≤ j)%Z →
  parity n (folds_to fl h j) = (j <? Z.of_nat n)%Z && h (Z.to_nat j).
Proof.
  intros Hfl Hn Hj. unfold folds_to. destruct (Z.ltb_spec j (Z.of_nat n)) as [Hlt|Hge]; simpl.
  - rewrite (parity_single _ _ (Z.to_nat j)) by
      (first [lia | intros i Hi Hne; rewrite Z.mod_small by lia;
              destruct (Z.eqb_spec (Z.of_nat i) j); [lia|by rewrite andb_false_r]]).
    rewrite Z2Nat.id, Z.mod_small, Z.eqb_refl by lia. by rewrite andb_true_r.
  - apply parity_false. intros i Hi. rewrite Z.mod_small by lia.
    destruct (Z.eqb_spec (Z.of_nat i) j); [lia|by rewrite andb_false_r].
Qed.

Lemma fold_loop_spec fl hl ghr fuel s acc :
  (0 < fl ≤ 31)%Z → (0 ≤ s)%Z → (hl - s ≤ Z.of_nat fuel)%Z →
  ∃ v, fold_loop fuel fl hl ghr s acc = Some v ∧
    ∀ j, (0 ≤ j)%Z →
      Z.testbit v j = xorb (Z.testbit acc j)
        ((j <? fl)%Z && parity (Z.to_nat (hl - s))
           (folds_to fl (λ p, bs_test ghr (s + Z.of_nat p)) j)).
Proof.
  intros Hfl. revert s acc.
  induction fuel as [|fuel IH]; intros s acc Hs Hfuel; simpl;
    destruct (Z.ltb_spec s hl) as [Hlt|Hge]; try lia.
  1,3: exists acc; split; [done|]; intros j Hj;
    replace (Z.to_nat (hl - s)) with O by lia; simpl;
    by rewrite andb_false_r, xorb_false_r.
  destruct (IH (s + fl)%Z (Z.lxor acc (fold_chunk fl hl ghr s)))
    as (v & Hv & Hbits); [lia|lia|].
  exists v. split; [done|]. intros j Hj.
  rewrite (Hbits j Hj), Z.lxor_spec, fold_chunk_bit, xorb_assoc by lia.
  f_equal. destruct (Z.le_gt_cases (hl - s) fl) as [Hlast|Hmore].
  - replace (Z.to_nat (hl - (s + fl))) with O by lia. simpl.
    rewrite andb_false_r, xorb_false_r, parity_chunk by lia.
    rewrite Z.min_r, !Z2Nat.id by lia.
    destruct (Z.ltb_spec j (hl - s)), (Z.ltb_spec j fl); try lia; done.
  - replace (Z.to_nat (hl - s))
      with (Z.to_nat fl + Z.to_nat (hl - (s + fl)))%nat by lia.
    rewrite parity_app, (parity_chunk _ fl (Z.to_nat fl)), Z.min_l by lia.
    rewrite Z2Nat.id by lia.
    destruct (Z.ltb_spec j fl); simpl; [|done].
    rewrite Z2Nat.id by lia.
    f_equal. apply parity_ext. intros i _. unfold folds_to.
    f_equal; [f_equal; lia|]. f_equal.
    rewrite Nat2Z.inj_add, Z2Nat.id by lia.
    rewrite <- (Z.mul_1_l fl) at 2. rewrite Z.add_comm, Z.mod_add by lia. done.
Qed.

(** [fold] returns, and bit [j] of its result is the parity of the history
    positions congruent to [j]. *)
Lemma fold_bits fh ghr :
  (0 < foldedLen fh ≤ 31)%Z → (0 ≤ histLen fh)%Z →
  ∃ v, fold fh ghr = Some v ∧
    ∀ j, (0 ≤ j)%Z →
      Z.testbit v j = (j <? foldedLen fh)%Z &&
        parity (Z.to_nat (histLen fh)) (folds_to (foldedLen fh) (hist_fun ghr) j).
Proof.
  intros Hfl Hhl. unfold fold.
  destruct (fold_loop_spec (foldedLen fh) (histLen fh) ghr
              (Z.to_nat (histLen fh)) 0 0) as (v & -> & Hbits); [lia|lia|lia|].
  eexists. split; [done|]. intros j Hj.
  rewrite Z.land_spec, testbit_ones, Hbits, Z.sub_0_r, Z.testbit_0_l by lia.
  destruct (j <? foldedLen fh)%Z; simpl; [|done].
  rewrite andb_true_r. by destruct (parity _ _).
Qed.

(** Equality of folds is equality of their bits. *)
Lemma fold_unique fh ghr v :
  (0 < foldedLen fh ≤ 31)%Z → (0 ≤ histLen fh)%Z →
  (∀ j, (0 ≤ j)%Z → Z.testbit v j = (j <? foldedLen fh)%Z &&
     parity (Z.to_nat (histLen fh)) (folds_to (foldedLen fh) (hist_fun ghr) j)) →
  fold fh ghr = Some v.
Proof.
  intros Hfl Hhl Hv. destruct (fold_bits fh ghr Hfl Hhl) as (w & -> & Hw).
  f_equal. apply Z.bits_inj'. intros j Hj. by rewrite Hv, Hw.
Qed.

(** *** The steps of the incremental update *)

Lemma pos_lookup fh i :
  (0 ≤ maxShamt fh)%Z → (Z.of_nat i < maxShamt fh)%Z →
  posHighestBitsInGhr fh !! i = Some (histLen fh - 1 - Z.of_nat i)%Z ∧
  posHighestBitsInOldFoldedHist fh !! i
    = Some ((histLen fh - 1 - Z.of_nat i) `mod` foldedLen fh)%Z.
Proof.
  intros Hm Hi. unfold posHighestBitsInGhr, posHighestBitsInOldFoldedHist.
  rewrite !list_lookup_fmap, (proj2 (lookup_seqZ 0 (maxShamt fh) i (Z.of_nat i)))
    by lia. done.
Qed.

Lemma remove_highest_spec fh ghr a n temp :
  (0 < foldedLen fh ≤ 31)%Z → (0 ≤ maxShamt fh)%Z →
  (Z.of_nat (a + n) ≤ maxShamt fh)%Z → (Z.of_nat (a + n) ≤ histLen fh)%Z →
  ∃ t, remove_highest fh ghr (seq a n) temp = Ok t ∧
    ∀ k, (0 ≤ k)%Z →
      Z.testbit t k = xorb (Z.testbit temp k)
        (parity n (λ i, folds_to (foldedLen fh) (hist_fun ghr) k
                          (Z.to_nat (histLen fh) - 1 - (a + i))%nat)).
Proof.
  intros Hfl Hm. revert a temp. induction n as [|n IH]; intros a temp Ha Hh.
  { exists temp. split; [done|]. intros. by rewrite xorb_false_r. }
  cbn [seq remove_highest].
  destruct (pos_lookup fh a) as [-> ->]; [lia|lia|]. cbn [get_at res_bind].
  destruct (IH (S a) (Z.lxor temp (bool_shl (bs_test ghr (histLen fh - 1 - Z.of_nat a))
    ((histLen fh - 1 - Z.of_nat a) `mod` foldedLen fh)%Z))) as (t & -> & Ht);
    [lia|lia|].
  exists t. split; [done|]. intros k Hk. rewrite (Ht k Hk).
  rewrite Z.lxor_spec, testbit_bool_shl, xorb_assoc
    by (pose proof (Z.mod_pos_bound (histLen fh - 1 - Z.of_nat a) (foldedLen fh)); lia).
  f_equal. rewrite parity_S_l. f_equal.
  - unfold folds_to, hist_fun.
    replace (Z.of_nat (Z.to_nat (histLen fh) - 1 - (a + 0)))
      with (histLen fh - 1 - Z.of_nat a)%Z by lia. done.
  - apply parity_ext. intros i _. f_equal. lia.
Qed.

Lemma copy_back_bits fl (n : nat) t j :
  (0 ≤ fl)%Z → (Z.of_nat n ≤ 64)%Z → (0 ≤ j)%Z →
  Z.testbit (copy_back fl (seqZ 0 (Z.of_nat n)) t) j
  = Z.testbit t j || ((j <? Z.of_nat n)%Z && Z.testbit t (fl + j)).
Proof.
  intros Hn H64. revert j. induction n as [|n IH]; intros j Hj.
  - simpl. destruct (Z.ltb_spec j (Z.of_nat 0)); [lia|]. by rewrite orb_false_r.
  - unfold copy_back in *. rewrite seqZ_S, foldl_app. simpl. rewrite Z.add_0_l.
    rewrite Z.lor_spec, IH by lia. unfold u64.
    rewrite testbit_wrapu, testbit_shiftl by lia.
    destruct (Z.leb_spec (Z.of_nat n) j) as [Hle|Hlt]; simpl.
    2: { rewrite andb_false_r, orb_false_r. do 2 f_equal.
         destruct (Z.ltb_spec j (Z.of_nat n)), (Z.ltb_spec j (Z.of_nat (S n)));
           try lia; done. }
    destruct (Z.eqb_spec j (Z.of_nat n)) as [->|Hne].
    + rewrite Z.sub_diag, Z.land_spec, Z.shiftr_spec, Z.add_0_l, IH by lia.
      change (Z.testbit 1 0) with true.
      destruct (Z.ltb_spec (Z.of_nat n) (Z.of_nat n)); [lia|].
      destruct (Z.ltb_spec (Z.of_nat n) 64); [|lia].
      destruct (Z.ltb_spec (Z.of_nat n) (Z.of_nat (S n))); [|lia].
      destruct (Z.ltb_spec (fl + Z.of_nat n) (Z.of_nat n)); [lia|]. simpl.
      by rewrite !orb_false_r, !andb_true_r.
    + rewrite Z.land_spec. replace (Z.testbit 1 (j - Z.of_nat n)) with false.
      2: { symmetry. apply (testbit_above 1); [split; lia|lia]. }
      rewrite !andb_false_r, orb_false_r.
      destruct (Z.ltb_spec j (Z.of_nat n)), (Z.ltb_spec j (Z.of_nat (S n)));
        try lia; done.
Qed.

(** The history that is only shifted. *)
Definition shifted (h : nat → bool) (s : nat) (p : nat) : bool :=
  (s <=? p)%nat && h (p - s)%nat.

Lemma parity_shifted fl h s hl j :
  (s ≤ hl)%nat →
  parity hl (folds_to fl (shifted h s) j)
  = parity (hl - s) (λ q, h q && ((Z.of_nat q + Z.of_nat s) `mod` fl =? j)%Z).
Proof.
  intros Hs. replace hl with (s + (hl - s))%nat at 1 by lia.
  rewrite parity_app. unfold folds_to, shifted. rewrite parity_false.
  - rewrite xorb_false_l. apply parity_ext. intros q _.
    destruct (Nat.leb_spec s (s + q)); [|lia].
    replace (s + q - s)%nat with q by lia.
    by replace (Z.of_nat (s + q)) with (Z.of_nat q + Z.of_nat s)%Z by lia.
  - intros i Hi. by destruct (Nat.leb_spec s i); [lia|].
Qed.

(** Where position [q + s] of a history of at most [2 * fl] bits folds to, when [s] is
    at least [fl]. *)
Lemma mod_shift_far q s fl j :
  (fl ≤ s)%Z → (0 ≤ q)%Z → (q + s < 2 * fl)%Z →
  ((q + s) `mod` fl =? j)%Z = (q =? fl + j - s)%Z.
Proof.
  intros Hs Hq Hlt.
  assert ((q + s) `mod` fl = q + s - fl)%Z as ->
    by (symmetry; apply (Z.mod_unique_pos _ _ 1); lia).
  apply eq_true_iff_eq. rewrite !Z.eqb_eq. lia.
Qed.

(** Steps 1 to 3 turn the fold of a history into the fold of the shifted
    history, on the bits below [foldedLen]. *)
Lemma rotate_bits fh ghr (s : nat) :
  (0 < foldedLen fh ≤ 31)%Z → (foldedLen fh < histLen fh)%Z → (Z.of_nat s ≤ histLen fh)%Z →
  (Z.of_nat s ≤ foldedLen fh ∨ histLen fh ≤ 2 * foldedLen fh)%Z →
  (Z.of_nat s ≤ maxShamt fh)%Z → (maxShamt fh ≤ 16)%Z →
  fold fh ghr = Some (folded fh) →
  ∃ t, remove_highest fh ghr (seq 0 s) (folded fh) = Ok t ∧
    ∀ j, (0 ≤ j < foldedLen fh)%Z →
      Z.testbit (copy_back (foldedLen fh) (seqZ 0 (Z.of_nat s))
                   (u64 (Z.shiftl t (Z.of_nat s)))) j
      = parity (Z.to_nat (histLen fh))
          (folds_to (foldedLen fh) (shifted (hist_fun ghr) s) j).
Proof.
  intros Hfl Hlt Hsh Hs Hm H16 Hfold.
  destruct (fold_bits fh ghr) as (v & Hv & Hbits); [lia|lia|].
  assert (v = folded fh) as -> by congruence.
  destruct (remove_highest_spec fh ghr 0 s (folded fh)) as (t & Ht & Htb);
    [lia|lia|lia|lia|].
  exists t. split; [done|].
  assert (∀ k, (0 ≤ k < foldedLen fh)%Z → Z.testbit t k =
    parity (Z.to_nat (histLen fh) - s) (folds_to (foldedLen fh) (hist_fun ghr) k))
    as Hlow.
  { intros k Hk. rewrite Htb, Hbits by lia.
    destruct (Z.ltb_spec k (foldedLen fh)); [|lia]. simpl.
    replace (Z.to_nat (histLen fh)) with (Z.to_nat (histLen fh) - s + s)%nat at 1 by lia.
    rewrite parity_app, xorb_assoc.
    rewrite <- (parity_rev s (λ i, folds_to _ _ k (_ + i)%nat)).
    match goal with |- xorb _ (xorb ?x ?y) = _ => replace y with x end.
    - by rewrite xorb_nilpotent, xorb_false_r.
    - apply parity_ext. intros i Hi. f_equal. lia. }
  assert (∀ k, (foldedLen fh ≤ k)%Z → Z.testbit t k = false) as Hhigh.
  { intros k Hk. rewrite Htb, Hbits by lia.
    destruct (Z.ltb_spec k (foldedLen fh)); [lia|]. simpl.
    apply parity_false. intros i Hi. apply folds_to_high; lia. }
  intros j Hj. rewrite copy_back_bits by lia. unfold u64.
  rewrite !testbit_wrapu, !testbit_shiftl by lia.
  rewrite parity_shifted by lia.
  destruct (Z.ltb_spec j 64), (Z.ltb_spec (foldedLen fh + j) 64); try lia. cbn [andb].
  destruct (Z.le_gt_cases (Z.of_nat s) (foldedLen fh)) as [Hle|Hfar].
  2: { rewrite (parity_ext _ _ (λ q, hist_fun ghr q && (Z.of_nat q =? foldedLen fh + j - Z.of_nat s)%Z))
         by (intros q Hq; f_equal; apply mod_shift_far; lia).
       destruct (Z.leb_spec (Z.of_nat s) j); [lia|].
       destruct (Z.ltb_spec j (Z.of_nat s)); [|lia]. cbn [andb orb].
       destruct (Z.leb_spec (Z.of_nat s) (foldedLen fh + j)) as [Hq|Hq]; cbn [andb].
       - rewrite Hlow by lia. apply parity_ext. intros q Hq'. unfold folds_to.
         by rewrite Z.mod_small by lia.
       - symmetry. apply parity_false. intros q _.
         destruct (Z.eqb_spec (Z.of_nat q) (foldedLen fh + j - Z.of_nat s)); [lia|].
         by rewrite andb_false_r. }
  rewrite (parity_ext _ _ (folds_to (foldedLen fh) (hist_fun ghr)
    (if (j <? Z.of_nat s)%Z then foldedLen fh + j - Z.of_nat s
     else j - Z.of_nat s)%Z)).
  2: { intros q _. unfold folds_to. by rewrite mod_shift_eqb by lia. }
  destruct (Z.ltb_spec j (Z.of_nat s)) as [Hjs|Hjs].
  - destruct (Z.leb_spec (Z.of_nat s) j); [lia|].
    destruct (Z.leb_spec (Z.of_nat s) (foldedLen fh + j)); [|lia]. simpl.
    by rewrite Hlow by lia.
  - destruct (Z.leb_spec (Z.of_nat s) j); [|lia]. simpl.
    by rewrite orb_false_r, Hlow by lia.
Qed.

(** A shifted history with a second family of bits XORed in. *)
Lemma parity_insert fl h s e hl j :
  parity hl (folds_to fl (λ p, xorb (shifted h s p) (e p)) j)
  = xorb (parity hl (folds_to fl (shifted h s) j)) (parity hl (folds_to fl e j)).
Proof.
  rewrite <- parity_xorb. apply parity_ext. intros p _. unfold folds_to. btauto.
Qed.

(** Without folding, a shifted history with bits inserted is the shifted
    value. *)
Lemma unfolded_bits fh ghr j :
  (0 < foldedLen fh ≤ 31)%Z → (0 ≤ histLen fh ≤ foldedLen fh)%Z → (0 ≤ j)%Z →
  fold fh ghr = Some (folded fh) →
  Z.testbit (folded fh) j = (j <? histLen fh)%Z && hist_fun ghr (Z.to_nat j).
Proof.
  intros Hfl Hhl Hj Hfold.
  destruct (fold_bits fh ghr) as (v & Hv & Hbits); [lia|lia|].
  assert (v = folded fh) as -> by congruence.
  rewrite Hbits, parity_chunk, Z2Nat.id by lia.
  destruct (Z.ltb_spec j (foldedLen fh)), (Z.ltb_spec j (histLen fh)); try lia; done.
Qed.

End Bits.

(** ** Consistency of the incremental updates *)

Section Consistency.
Context {B : Type} `{DynamicBitsetLaws B}.
Implicit Types ghr : B.

(** The configurations the predictors use: [fold] shifts [int]s, so at most 31
    folded bits; the history covers [histLen]. *)
Record wf_folded (fh : FoldedHistBase) ghr : Prop := {
  wf_foldedLen : (0 < foldedLen fh ≤ 31)%Z;
  wf_histLen : (0 < histLen fh ≤ bs_size ghr)%Z;
  wf_maxShamt : (0 ≤ maxShamt fh ≤ staticMaxShamtLimit)%Z
}.

Definition same_config (a b : FoldedHistBase) : Prop :=
  histLen a = histLen b ∧ foldedLen a = foldedLen b ∧ maxShamt a = maxShamt b.

(** [check] succeeds exactly when the folded value is the fold. *)
Definition consistent (fh : FoldedHistBase) ghr : Prop :=
  fold fh ghr = Some (folded fh).

Lemma check_consistent fh ghr : check fh ghr = Ok tt ↔ consistent fh ghr.
Proof.
  unfold check, consistent, assert_. destruct (fold fh ghr) as [v|]; [|done].
  destruct (Z.eqb_spec (folded fh) v) as [->|Hne]; split; congruence.
Qed.

Lemma fold_set_folded fh v ghr : fold (set_folded fh v) ghr = fold fh ghr.
Proof. done. Qed.

Lemma histShiftIn_fun ghr (s : Z) t (p : nat) :
  (0 ≤ s)%Z → (s = 0%Z → t = false) → (Z.of_nat p < bs_size ghr)%Z →
  hist_fun (histShiftIn s t ghr) p
  = xorb (shifted (hist_fun ghr) (Z.to_nat s) p) (t && (p =? 0)%nat).
Proof.
  intros Hs Ht Hp. unfold histShiftIn, hist_fun, shifted.
  destruct (Z.eqb_spec s 0) as [->|Hne].
  { rewrite Ht by done. simpl. rewrite xorb_false_r. f_equal. lia. }
  rewrite bs_test_put by (rewrite ?bs_size_shl; lia).
  rewrite bs_test_shl by lia.
  destruct (Z.eqb_spec (Z.of_nat p) 0), (Nat.eqb_spec p 0); try lia.
  - subst p. rewrite andb_true_r.
    by destruct (Nat.leb_spec (Z.to_nat s) 0); [lia|].
  - rewrite andb_false_r, xorb_false_r.
    destruct (Z.leb_spec s (Z.of_nat p)), (Nat.leb_spec (Z.to_nat s) p);
      try lia. simpl. f_equal. lia.
Qed.

Lemma parity_taken fl hl (t : bool) j :
  (0 < hl)%nat → (0 < fl)%Z →
  parity hl (folds_to fl (λ p, t && (p =? 0)%nat) j) = t && (0 =? j)%Z.
Proof.
  intros Hhl Hfl. rewrite (parity_single _ _ 0) by
    (first [lia | intros i Hi Hne; unfold folds_to;
     destruct (Nat.eqb_spec i 0); [done|]; by rewrite andb_false_r]).
  unfold folds_to. rewrite Z.mod_0_l by lia. simpl. by rewrite andb_true_r.
Qed.

(** Bits of the fold of [histShiftIn]. *)
Lemma histShiftIn_fold fh ghr s t v :
  wf_folded fh ghr → (0 ≤ s)%Z → (s = 0%Z → t = false) →
  (∀ j, (0 ≤ j)%Z → Z.testbit v j = (j <? foldedLen fh)%Z &&
     xorb (parity (Z.to_nat (histLen fh))
             (folds_to (foldedLen fh) (shifted (hist_fun ghr) (Z.to_nat s)) j))
          (t && (0 =? j)%Z)) →
  fold fh (histShiftIn s t ghr) = Some v.
Proof.
  intros [Hfl Hhl Hms] Hs Ht Hv. apply fold_unique; [lia|lia|].
  intros j Hj. rewrite Hv by lia. f_equal.
  rewrite <- (parity_taken (foldedLen fh) (Z.to_nat (histLen fh))) by lia.
  rewrite <- parity_insert. apply parity_ext. intros p Hp. unfold folds_to.
  by rewrite histShiftIn_fun by (done || lia).
Qed.

(** The three branches of [DirectionFoldedHist::update]. *)
Lemma fold_shift_out fh ghr s t :
  wf_folded fh ghr → (0 ≤ s)%Z → (s = 0%Z → t = false) → (histLen fh ≤ s)%Z →
  fold fh (histShiftIn s t ghr) = Some (if t then 1 else 0)%Z.
Proof.
  intros Hwf Hs Ht Hc. pose proof Hwf as [Hfl Hhl _].
  apply histShiftIn_fold; [done|lia|done|]. intros j Hj.
  rewrite parity_false.
  2: { intros i Hi. unfold folds_to, shifted.
       by destruct (Nat.leb_spec (Z.to_nat s) i); [lia|]. }
  destruct (Z.eqb_spec 0 j) as [<-|Hj0].
  - destruct (Z.ltb_spec 0 (foldedLen fh)); [|lia]. by destruct t.
  - rewrite andb_false_r. simpl. rewrite andb_false_r.
    destruct t; [|by rewrite Z.testbit_0_l].
    apply (testbit_above 1); [split; lia|lia].
Qed.

Lemma unfolded_shift_bits fh ghr s j :
  wf_folded fh ghr → consistent fh ghr → (0 ≤ s)%Z → (0 ≤ j)%Z →
  (histLen fh ≤ foldedLen fh)%Z →
  Z.testbit (Z.land (u64 (Z.shiftl (folded fh) s)) (2 ^ histLen fh - 1)) j
  = (j <? histLen fh)%Z && shifted (hist_fun ghr) (Z.to_nat s) (Z.to_nat j).
Proof.
  intros [Hfl Hhl _] Hcons Hs Hj Hc. unfold u64.
  rewrite Z.land_spec, testbit_ones, testbit_wrapu, testbit_shiftl by lia.
  destruct (Z.ltb_spec j (histLen fh)); [|by rewrite andb_false_r]. simpl.
  destruct (Z.ltb_spec j 64); [|lia]. simpl. rewrite andb_true_r.
  unfold shifted.
  destruct (Z.leb_spec s j), (Nat.leb_spec (Z.to_nat s) (Z.to_nat j)); try lia.
  simpl. rewrite (unfolded_bits fh ghr) by (done || lia).
  destruct (Z.ltb_spec (j - s) (histLen fh)); [|lia]. simpl. f_equal. lia.
Qed.

Lemma fold_shift_unfolded fh ghr s t :
  wf_folded fh ghr → consistent fh ghr →
  (0 ≤ s)%Z → (s = 0%Z → t = false) → (histLen fh ≤ foldedLen fh)%Z →
  let temp := Z.land (u64 (Z.shiftl (folded fh) s)) (2 ^ histLen fh - 1) in
  fold fh (histShiftIn s t ghr) = Some (if t then Z.lor temp 1 else temp).
Proof.
  intros Hwf Hcons Hs Ht Hc temp. subst temp. pose proof Hwf as [Hfl Hhl _].
  apply histShiftIn_fold; [done|lia|done|]. intros j Hj.
  rewrite parity_chunk, Z2Nat.id by lia.
  pose proof (unfolded_shift_bits fh ghr s j Hwf Hcons Hs Hj Hc) as Hbase.
  destruct (Z.ltb_spec j (foldedLen fh)), (Z.ltb_spec j (histLen fh)); try lia;
    destruct (Z.eqb_spec 0 j) as [<-|Hj0]; try lia;
    (destruct t; [rewrite Z.lor_spec|]; rewrite Hbase; simpl);
    rewrite ?(testbit_above 1 1 j), ?orb_false_r, ?xorb_false_r by (split; lia || lia);
    try done.
  unfold shifted. destruct (Nat.leb_spec (Z.to_nat s) (Z.to_nat 0)); [|done].
  assert (s = 0%Z) as Hs0 by lia. by specialize (Ht Hs0).
Qed.

(** The shifts [DirectionFoldedHist::update] handles: all shifts of a history that is not
    longer than the fold or than the shift; otherwise those for which the position of
    every leaving bit was precomputed and every staying bit wraps at most once. *)
Definition shift_ok (fh : FoldedHistBase) (s : Z) : Prop :=
  (0 ≤ s)%Z ∧ ((histLen fh ≤ s)%Z ∨ (histLen fh ≤ foldedLen fh)%Z ∨
    (s ≤ maxShamt fh)%Z ∧ (s ≤ foldedLen fh ∨ histLen fh ≤ 2 * foldedLen fh)%Z).

Lemma direction_update_consistent fh ghr s t :
  wf_folded fh ghr → consistent fh ghr → shift_ok fh s → (s = 0%Z → t = false) →
  ∃ fh', direction_update fh ghr s t = Ok fh' ∧ same_config fh' fh ∧
         consistent fh' (histShiftIn s t ghr).
Proof.
  intros Hwf Hcons [Hs Hsf] Ht. pose proof Hwf as [Hfl Hhl Hms].
  unfold staticMaxShamtLimit in Hms. unfold direction_update, assert_, consistent.
  destruct (Z.leb_spec 0 s); [|lia]. simpl.
  destruct (Z.leb_spec (histLen fh) s) as [Hc1|Hc1]; simpl.
  { eexists; split; [done|]; split; [done|]. rewrite fold_set_folded.
    by apply fold_shift_out; [|lia|..]. }
  destruct (Z.leb_spec (histLen fh) (foldedLen fh)) as [Hc2|Hc2]; simpl.
  { eexists; split; [done|]; split; [done|]. rewrite fold_set_folded.
    by apply fold_shift_unfolded; [..|lia| |]. }
  destruct (rotate_bits fh ghr (Z.to_nat s)) as (temp & -> & Htemp);
    [lia|lia|lia|lia|lia|unfold staticMaxShamtLimit in *; lia|done|]. simpl.
  rewrite Z2Nat.id in Htemp by lia.
  eexists; split; [done|]; split; [done|]. rewrite fold_set_folded. simpl.
  apply histShiftIn_fold; [done|lia|done|]. intros j Hj.
  rewrite Z.land_spec, testbit_ones, andb_comm by lia.
  destruct (Z.ltb_spec j (foldedLen fh)); [|done]. simpl.
  destruct t; [rewrite Z.lxor_spec|]; rewrite Htemp by lia.
  - done.
  - by rewrite xorb_false_r.
Qed.

(** *** Path histories *)

Lemma pathHash_range pc target : in_u pathHashLength (pathHash pc target).
Proof.
  unfold pathHash. apply in_u_bits; [done|]. intros i Hi.
  unfold pathHashLength in *.
  rewrite Z.land_spec, testbit_ones by lia.
  destruct (Z.ltb_spec i 15); [lia|]. by rewrite andb_false_r.
Qed.

Lemma xor_hash_bits_spec (n : nat) ghr hash :
  (0 ≤ hash)%Z →
  let r := foldl (λ '(hist, hs) i,
     if (i <? bs_size hist)%Z then
       (bs_put hist i (xorb (Z.odd hs) (bs_test hist i)), Z.shiftr hs 1)
     else (hist, hs)) (ghr, hash) (seqZ 0 (Z.of_nat n)) in
  bs_size r.1 = bs_size ghr ∧
  ((Z.of_nat n ≤ bs_size ghr)%Z → r.2 = Z.shiftr hash (Z.of_nat n)) ∧
  ∀ p, (0 ≤ p < bs_size ghr)%Z →
    bs_test r.1 p = xorb (bs_test ghr p) ((p <? Z.of_nat n)%Z && Z.testbit hash p).
Proof.
  intros Hh. induction n as [|n IH].
  { simpl. split; [done|]. split; [by rewrite Z.shiftr_0_r|]. intros p Hp.
    destruct (Z.ltb_spec p (Z.of_nat 0)); [lia|]. by rewrite xorb_false_r. }
  rewrite seqZ_S, foldl_app. simpl. rewrite Z.add_0_l.
  destruct (foldl _ _ _) as [hist hs] eqn:E. simpl in IH.
  destruct IH as (Hsz & Hhs & Hbits).
  destruct (Z.ltb_spec (Z.of_nat n) (bs_size hist)) as [Hlt|Hge]; simpl.
  - split; [by rewrite bs_size_put|]. split.
    { intros. rewrite Hhs, Z.shiftr_shiftr by lia. f_equal. lia. }
    intros p Hp. rewrite bs_test_put, Hhs, <- Z.bit0_odd, Z.shiftr_spec by lia.
    rewrite Z.add_0_l.
    destruct (Z.eqb_spec p (Z.of_nat n)) as [->|Hne].
    + rewrite Hbits by lia.
      destruct (Z.ltb_spec (Z.of_nat n) (Z.of_nat n)); [lia|].
      destruct (Z.ltb_spec (Z.of_nat n) (Z.of_nat (S n))); [|lia]. simpl.
      rewrite xorb_false_r. apply xorb_comm.
    + rewrite Hbits by lia.
      destruct (Z.ltb_spec p (Z.of_nat n)), (Z.ltb_spec p (Z.of_nat (S n)));
        try lia; done.
  - split; [done|]. split; [lia|]. intros p Hp. rewrite Hbits by lia.
    destruct (Z.ltb_spec p (Z.of_nat n)), (Z.ltb_spec p (Z.of_nat (S n)));
      try lia; done.
Qed.

Definition hash_fun (hash : Z) (p : nat) : bool :=
  (p <? 15)%nat && Z.testbit hash (Z.of_nat p).

Lemma pHistShiftIn_fun ghr s pc target (p : nat) :
  (0 < s)%Z → (Z.of_nat p < bs_size ghr)%Z →
  hist_fun (pHistShiftIn s true ghr pc target) p
  = xorb (shifted (hist_fun ghr) (Z.to_nat s) p) (hash_fun (pathHash pc target) p).
Proof.
  intros Hs Hp. unfold pHistShiftIn.
  destruct (Z.eqb_spec s 0); [lia|]. unfold xor_hash_bits, hist_fun.
  destruct (xor_hash_bits_spec 15 (bs_shl ghr s) (pathHash pc target))
    as (_ & _ & Hb); [apply pathHash_range|].
  change (Z.of_nat 15) with pathHashLength in Hb. simpl in Hb.
  rewrite Hb by (rewrite bs_size_shl; lia). rewrite bs_test_shl by lia. f_equal.
  - unfold shifted.
    destruct (Z.leb_spec s (Z.of_nat p)), (Nat.leb_spec (Z.to_nat s) p); try lia.
    simpl. f_equal. lia.
  - unfold hash_fun, pathHashLength. f_equal.
    destruct (Z.ltb_spec (Z.of_nat p) 15), (Nat.ltb_spec p 15); try lia; done.
Qed.

Lemma foldHash_loop_spec fl fuel hash bl acc :
  (0 < fl)%Z → (0 ≤ hash)%Z → (bl ≤ Z.of_nat fuel)%Z →
  (∀ p, (0 ≤ p)%Z → (bl ≤ p)%Z → Z.testbit hash p = false) →
  ∃ v, foldHash_loop fuel fl hash bl acc = Some v ∧
    ∀ j, (0 ≤ j < fl)%Z →
      Z.testbit v j = xorb (Z.testbit acc j)
        (parity (Z.to_nat bl) (folds_to fl (λ p, Z.testbit hash (Z.of_nat p)) j)).
Proof.
  intros Hfl. revert hash bl acc.
  induction fuel as [|fuel IH]; intros hash bl acc Hh Hbl Hbits; simpl;
    destruct (Z.ltb_spec 0 bl); try lia.
  1,3: exists acc; split; [done|]; intros j Hj;
    replace (Z.to_nat bl) with O by lia; by rewrite xorb_false_r.
  destruct (IH (Z.shiftr hash fl) (bl - fl)%Z (Z.lxor acc hash)) as (v & Hv & Hvb).
  { by apply Z.shiftr_nonneg. }
  { lia. }
  { intros p Hp Hlt. rewrite Z.shiftr_spec by done. apply Hbits; lia. }
  exists v. split; [done|]. intros j Hj.
  rewrite Hvb, Z.lxor_spec, xorb_assoc by done. f_equal.
  destruct (Z.le_gt_cases bl fl).
  - replace (Z.to_nat (bl - fl)) with O by lia. simpl.
    rewrite xorb_false_r, parity_chunk, !Z2Nat.id by lia.
    destruct (Z.ltb_spec j bl); [done|]. apply Hbits; lia.
  - replace (Z.to_nat bl) with (Z.to_nat fl + Z.to_nat (bl - fl))%nat by lia.
    rewrite parity_app, (parity_chunk _ fl (Z.to_nat fl)), !Z2Nat.id by lia.
    destruct (Z.ltb_spec j fl); [|lia]. simpl. f_equal.
    apply parity_ext. intros i _. unfold folds_to.
    rewrite Z.shiftr_spec by lia. rewrite Nat2Z.inj_add, Z2Nat.id by lia.
    f_equal; [f_equal; lia|]. f_equal.
    rewrite <- (Z.mul_1_l fl) at 2. by rewrite Z.add_comm, Z.mod_add by lia.
Qed.

(** [foldHash] returns, and below [fl] its bits are those of the fold. *)
Lemma foldHash_bits fl hash :
  (0 < fl)%Z → in_u pathHashLength hash →
  ∃ v, foldHash hash fl = Some v ∧
    ∀ j, (0 ≤ j < fl)%Z →
      Z.testbit v j = parity 15 (folds_to fl (λ p, Z.testbit hash (Z.of_nat p)) j).
Proof.
  intros Hfl Hh.
  destruct (foldHash_loop_spec fl 15 hash pathHashLength 0) as (v & Hv & Hb).
  - done.
  - apply Hh.
  - done.
  - intros p Hp Hlt. apply (testbit_above pathHashLength); [done|].
    unfold pathHashLength in *. lia.
  - exists v. split; [done|]. intros j Hj. rewrite Hb by done.
    by rewrite Z.testbit_0_l, xorb_false_l.
Qed.

Lemma parity_hash fl hl hash eff j :
  in_u pathHashLength hash →
  eff = (if (hl <? pathHashLength)%Z then Z.land hash (2 ^ hl - 1) else hash) →
  (0 < hl)%Z →
  parity (Z.to_nat hl) (folds_to fl (hash_fun hash) j)
  = parity 15 (folds_to fl (λ p, Z.testbit eff (Z.of_nat p)) j).
Proof.
  intros Hh -> Hhl. unfold pathHashLength. destruct (Z.ltb_spec hl 15).
  - replace 15%nat with (Z.to_nat hl + (15 - Z.to_nat hl))%nat by lia.
    rewrite parity_app. rewrite (parity_false (15 - Z.to_nat hl)), xorb_false_r.
    + apply parity_ext. intros p Hp. unfold folds_to, hash_fun. f_equal.
      rewrite Z.land_spec, testbit_ones by lia.
      destruct (Z.ltb_spec (Z.of_nat p) hl), (Nat.ltb_spec p 15); try lia.
      by rewrite andb_true_r.
    + intros p Hp. unfold folds_to. rewrite Z.land_spec, testbit_ones by lia.
      destruct (Z.ltb_spec (Z.of_nat (Z.to_nat hl + p)) hl); [lia|].
      by rewrite andb_false_r.
  - replace (Z.to_nat hl) with (15 + (Z.to_nat hl - 15))%nat by lia.
    rewrite parity_app, (parity_false (Z.to_nat hl - 15)), xorb_false_r.
    + apply parity_ext. intros p Hp. unfold folds_to, hash_fun.
      by destruct (Nat.ltb_spec p 15); [|lia].
    + intros p Hp. unfold folds_to, hash_fun.
      by destruct (Nat.ltb_spec (15 + p) 15); [lia|].
Qed.

Lemma pHistShiftIn_fold fh ghr s pc target v :
  wf_folded fh ghr → (0 < s)%Z →
  (∀ j, (0 ≤ j)%Z → Z.testbit v j = (j <? foldedLen fh)%Z &&
     xorb (parity (Z.to_nat (histLen fh))
             (folds_to (foldedLen fh) (shifted (hist_fun ghr) (Z.to_nat s)) j))
          (parity (Z.to_nat (histLen fh))
             (folds_to (foldedLen fh) (hash_fun (pathHash pc target)) j))) →
  fold fh (pHistShiftIn s true ghr pc target) = Some v.
Proof.
  intros [Hfl Hhl _] Hs Hv. apply fold_unique; [lia|lia|].
  intros j Hj. rewrite Hv by lia. f_equal.
  rewrite <- parity_insert. apply parity_ext. intros p Hp. unfold folds_to.
  by rewrite pHistShiftIn_fun by lia.
Qed.

Lemma path_unfolded fh ghr s pc target :
  wf_folded fh ghr → consistent fh ghr → (0 < s)%Z →
  (histLen fh ≤ foldedLen fh)%Z →
  fold fh (pHistShiftIn s true ghr pc target)
  = Some (Z.land (Z.lxor (u64 (Z.shiftl (folded fh) s)) (pathHash pc target))
                 (2 ^ histLen fh - 1)).
Proof.
  intros Hwf Hcons Hs Hc. pose proof Hwf as [Hfl Hhl _].
  apply pHistShiftIn_fold; [done|lia|]. intros j Hj.
  pose proof (unfolded_shift_bits fh ghr s j Hwf Hcons ltac:(lia) Hj Hc) as Hbase.
  rewrite Z.land_spec, testbit_ones in Hbase by lia.
  rewrite !parity_chunk, Z2Nat.id, Z.land_spec, Z.lxor_spec, testbit_ones by lia.
  destruct (Z.ltb_spec j (histLen fh)), (Z.ltb_spec j (foldedLen fh)); try lia;
    simpl; try (by rewrite andb_false_r).
  rewrite andb_true_r in *. simpl in Hbase. rewrite Hbase. f_equal.
  unfold hash_fun. rewrite Z2Nat.id by lia.
  destruct (Nat.ltb_spec (Z.to_nat j) 15); [done|]. simpl.
  apply (testbit_above pathHashLength); [apply pathHash_range|].
  unfold pathHashLength; lia.
Qed.

Lemma path_update_consistent fh ghr s t pc target :
  wf_folded fh ghr → consistent fh ghr →
  (0 < s ≤ maxShamt fh)%Z → (s ≤ foldedLen fh)%Z → (s ≤ histLen fh)%Z →
  ∃ fh', path_update fh ghr s t pc target = Ok fh' ∧ same_config fh' fh ∧
         consistent fh' (pHistShiftIn s t ghr pc target).
Proof.
  intros Hwf Hcons Hs Hsf Hsh. pose proof Hwf as [Hfl Hhl Hms].
  unfold path_update, assert_. destruct t; simpl.
  2: { exists fh. split; [done|]. split; [done|]. unfold pHistShiftIn.
       by destruct (s =? 0)%Z. }
  destruct (Z.leb_spec s (foldedLen fh)), (Z.leb_spec s (histLen fh)),
    (Z.leb_spec s (maxShamt fh)); try lia. simpl. unfold consistent.
  destruct (Z.leb_spec (histLen fh) (foldedLen fh)) as [Hc|Hc]; simpl.
  { eexists; split; [done|]; split; [done|]. rewrite fold_set_folded.
    by apply path_unfolded; [..|lia|]. }
  destruct (rotate_bits fh ghr (Z.to_nat s)) as (temp & -> & Htemp);
    [lia|lia|lia|lia|lia|unfold staticMaxShamtLimit in *; lia|done|]. simpl.
  rewrite Z2Nat.id in Htemp by lia.
  set (eff := if (histLen fh <? pathHashLength)%Z then _ else _).
  destruct (foldHash_bits (foldedLen fh) eff) as (fhash & -> & Hfhash); [lia| |].
  { pose proof (pathHash_range pc target) as Hr. unfold eff.
    destruct (_ <? _)%Z; [|done]. apply in_u_bits; [done|]. intros i Hi.
    rewrite Z.land_spec, (testbit_above pathHashLength); [done|done|].
    unfold pathHashLength in *; lia. }
  eexists; split; [done|]; split; [done|]. rewrite fold_set_folded.
  apply pHistShiftIn_fold; [done|lia|]. intros j Hj. simpl.
  rewrite Z.land_spec, Z.lxor_spec, testbit_ones, andb_comm by lia.
  destruct (Z.ltb_spec j (foldedLen fh)); [|done]. simpl.
  rewrite Htemp, Hfhash by lia. f_equal. symmetry.
  apply parity_hash; [apply pathHash_range|done|lia].
Qed.

Lemma fold_zero fh ghr :
  wf_folded fh ghr → (∀ p, bs_test ghr p = false) → fold fh ghr = Some 0%Z.
Proof.
  intros [Hfl Hhl _] Hz. apply fold_unique; [lia|lia|]. intros j Hj.
  rewrite Z.testbit_0_l, parity_false; [by rewrite andb_false_r|].
  intros p _. unfold folds_to, hist_fun. by rewrite Hz.
Qed.

Lemma wf_same_config fh fh' ghr ghr' :
  wf_folded fh ghr → same_config fh' fh → bs_size ghr' = bs_size ghr →
  wf_folded fh' ghr'.
Proof. intros [? ? ?] (E1 & E2 & E3) Hsz. split; rewrite ?E1, ?E2, ?E3, ?Hsz; done. Qed.

Lemma size_histShiftIn s t ghr : bs_size (histShiftIn s t ghr) = bs_size ghr.
Proof.
  unfold histShiftIn. destruct (s =? 0)%Z; [done|].
  by rewrite bs_size_put, bs_size_shl.
Qed.

Lemma size_pHistShiftIn s t ghr pc target :
  bs_size (pHistShiftIn s t ghr pc target) = bs_size ghr.
Proof.
  unfold pHistShiftIn, xor_hash_bits.
  destruct (s =? 0)%Z, t; try done.
  destruct (xor_hash_bits_spec 15 (bs_shl ghr s) (pathHash pc target))
    as (Hsz & _); [apply pathHash_range|].
  change (Z.of_nat 15) with pathHashLength in Hsz. rewrite Hsz. apply bs_size_shl.
Qed.

End Consistency.

(** ** The interface a predictor relies on

    A kind of folded history shifts the real history and updates the folded
    value; the law is that the two stay consistent. *)

Class HistoryKind (B Step : Type) := {
  hk_ok : FoldedHistBase → Step → Prop;
  hk_shift : Step → B → B;
  hk_update : FoldedHistBase → B → Step → res FoldedHistBase
}.

Class HistoryKindLaws (B Step : Type) `{DynamicBitset B, HistoryKind B Step} := {
  hk_size st (g : B) : bs_size (hk_shift st g) = bs_size g;
  hk_ok_config a b st : same_config b a → hk_ok a st → hk_ok b st;
  hk_consistent fh (g : B) st :
    wf_folded fh g → consistent fh g → hk_ok fh st →
    ∃ fh', hk_update fh g st = Ok fh' ∧ same_config fh' fh ∧
           consistent fh' (hk_shift st g)
}.

(** A run of the predictor: every branch updates the folded value from the old
    history, shifts the history and checks the result. *)
Fixpoint hk_run {B Step} `{DynamicBitset B, HistoryKind B Step}
    (fh : FoldedHistBase) (g : B) (steps : list Step) : res (FoldedHistBase * B) :=
  match steps with
  | [] => Ok (fh, g)
  | st :: rest =>
      let! fh' := hk_update fh g st in
      let g' := hk_shift st g in
      do! check fh' g' in
      hk_run fh' g' rest
  end.

Lemma hk_run_ok {B Step} `{HistoryKindLaws B Step} fh (g : B) (steps : list Step) :
  wf_folded fh g → consistent fh g → Forall (hk_ok fh) steps →
  ∃ fh' g', hk_run fh g steps = Ok (fh', g') ∧ consistent fh' g' ∧
            g' = foldl (flip hk_shift) g steps.
Proof.
  intros Hwf Hc Hok. revert fh g Hwf Hc Hok.
  induction steps as [|st rest IH]; intros fh g Hwf Hc Hok; simpl; [by exists fh, g|].
  inversion_clear Hok as [|? ? Hst Hrest].
  destruct (hk_consistent fh g st Hwf Hc Hst) as (fh' & -> & Hcfg & Hc'). simpl.
  rewrite (proj2 (check_consistent fh' (hk_shift st g)) Hc'). simpl.
  apply IH; [|done|].
  - by eapply wf_same_config; [..|apply hk_size].
  - eapply Forall_impl; [done|]. intros st'. by apply hk_ok_config.
Qed.

(** *** Instances: direction and path histories *)

Record dir_step := DirStep { ds_shamt : Z; ds_taken : bool }.
Record path_step := PathStep { ps_taken : bool; ps_pc : Z; ps_target : Z }.

#[export] Instance direction_kind {B} `{DynamicBitset B} : HistoryKind B dir_step := {
  hk_ok fh st := shift_ok fh (ds_shamt st) ∧ (ds_shamt st = 0%Z → ds_taken st = false);
  hk_shift st g := histShiftIn (ds_shamt st) (ds_taken st) g;
  hk_update fh g st := direction_update fh g (ds_shamt st) (ds_taken st)
}.

#[export] Instance direction_laws {B} `{DynamicBitsetLaws B} : HistoryKindLaws B dir_step.
Proof.
  split; simpl.
  - intros. apply size_histShiftIn.
  - intros a b st (E1 & E2 & E3). unfold shift_ok. by rewrite E1, E2, E3.
  - intros fh g st Hwf Hc (? & ?). by apply direction_update_consistent.
Qed.

(** The path history is shifted by 2 on every taken branch. *)
#[export] Instance path_kind {B} `{DynamicBitset B} : HistoryKind B path_step := {
  hk_ok fh st := (2 ≤ maxShamt fh)%Z ∧ (2 ≤ foldedLen fh)%Z ∧ (2 ≤ histLen fh)%Z;
  hk_shift st g := pHistShiftIn 2 (ps_taken st) g (ps_pc st) (ps_target st);
  hk_update fh g st := path_update fh g 2 (ps_taken st) (ps_pc st) (ps_target st)
}.

#[export] Instance path_laws {B} `{DynamicBitsetLaws B} : HistoryKindLaws B path_step.
Proof.
  split; simpl.
  - intros. apply size_pHistShiftIn.
  - intros a b st (E1 & E2 & E3). by rewrite ?E1, ?E2, ?E3.
  - intros fh g st Hwf Hc (? & ? & ?). apply path_update_consistent; try done; lia.
Qed.

(** ** Properties *)

(** C32: [FoldedHistBase::fold] returns for every configuration with at most 31
    folded bits, and bit [j] of the result is the XOR of the history bits at the
    positions below [histLen] that are congruent to [j] modulo [foldedLen]. *)
Theorem fold_is_parity {B} `{DynamicBitset B} fh (ghr : B) :
  (0 < foldedLen fh ≤ 31)%Z → (0 ≤ histLen fh)%Z →
  ∃ v, fold fh ghr = Some v ∧
    ∀ j, (0 ≤ j)%Z →
      Z.testbit v j = (j <? foldedLen fh)%Z &&
        parity (Z.to_nat (histLen fh))
          (λ p, bs_test ghr (Z.of_nat p) && (Z.of_nat p `mod` foldedLen fh =? j)%Z).
Proof. apply fold_bits. Qed.


(** C31: the same for [PathFoldedHist::update] and [pHistShiftIn], for every
    sequence of branches with arbitrary addresses. *)
Theorem path_run_check {B} `{DynamicBitsetLaws B} hl fl ms (g0 : B)
    (steps : list path_step) :
  (2 ≤ fl ≤ 31)%Z → (2 ≤ hl ≤ bs_size g0)%Z → (2 ≤ ms ≤ staticMaxShamtLimit)%Z →
  (∀ p, bs_test g0 p = false) →
  ∃ fh0 fh' g', mkFoldedHist hl fl ms = Ok fh0 ∧
    hk_run fh0 g0 steps = Ok (fh', g') ∧ fold fh' g' = Some (folded fh') ∧
    g' = foldl (λ g st, pHistShiftIn 2 (ps_taken st) g (ps_pc st) (ps_target st))
           g0 steps.
Proof.
  intros Hfl Hhl Hms Hz. exists (mkFolded hl fl ms 0).
  unfold staticMaxShamtLimit in *.
  assert (wf_folded (mkFolded hl fl ms 0) g0) as Hwf
    by (split; simpl; unfold staticMaxShamtLimit; lia).
  destruct (hk_run_ok (mkFolded hl fl ms 0) g0 steps Hwf) as (fh' & g' & Hr & Hc & Hg).
  - by apply fold_zero.
  - apply Forall_true. intros st. simpl. lia.
  - exists fh', g'. split; [|done]. unfold mkFoldedHist, assert_, staticMaxShamtLimit.
    destruct (Z.leb_spec ms 16), (Z.ltb_spec (fl + ms) 64); try lia. done.
Qed.

(** A shift by more than [foldedLen] of a history longer than [2 * foldedLen]: the update
    returns a value that is not the fold of the shifted history, and the check fails. *)
Theorem wide_shift_not_folded :
  let fh := mkFolded 17 8 16 128 in
  let g := ZBitset 64 128 in
  consistent fh g ∧ (foldedLen fh < 9 < histLen fh)%Z ∧ (2 * foldedLen fh < histLen fh)%Z ∧
  ∃ fh', direction_update fh g 9 false = Ok fh' ∧
    check fh' (histShiftIn 9 false g) = Panic "_folded == expected".
Proof.
  split; [vm_compute; reflexivity|]. split; [simpl; lia|]. split; [simpl; lia|].
  eexists. split; [vm_compute; reflexivity|vm_compute; reflexivity].
Qed.

(** The IMLI counter counts consecutive backward-taken branches, saturates
    at [2^histLen - 1] and is reset by any other outcome. *)
Theorem imli_update_saturates fh taken :
  (0 < histLen fh ≤ foldedLen fh)%Z → (0 ≤ folded fh ≤ 2 ^ histLen fh - 1)%Z →
  imli_update fh taken = Ok (set_folded fh
    (if taken then Z.min (folded fh + 1) (2 ^ histLen fh - 1) else 0%Z)).
Proof.
  intros Hl Hf. unfold imli_update, assert_.
  destruct (Z.leb_spec (histLen fh) (foldedLen fh)); [|lia]. simpl. do 2 f_equal.
  assert (2 ^ histLen fh ≤ 2 ^ foldedLen fh)%Z by (apply Z.pow_le_mono_r; lia).
  replace (2 ^ foldedLen fh - 1)%Z with (Z.ones (foldedLen fh))
    by (rewrite Z.ones_equiv; lia).
  rewrite Z.land_ones by lia. destruct taken; [|by rewrite Z.mod_0_l by lia].
  destruct (Z.ltb_spec (folded fh) (2 ^ histLen fh - 1)); rewrite Z.mod_small; lia.
Qed.

(** ** Witnesses *)

Definition zero64 : zbitset := ZBitset 64 0.

Lemma fold_is_parity_witness :
  ∃ v, fold (mkFolded 13 5 8 0) (ZBitset 20 703710) = Some v ∧ Z.testbit v 4 = true.
Proof.
  destruct (fold_is_parity (mkFolded 13 5 8 0) (ZBitset 20 703710))
    as (v & Hv & Hb); [simpl; lia|simpl; lia|].
  exists v. split; [done|]. rewrite Hb by lia. vm_compute. reflexivity.
Defined.


Lemma path_run_check_witness :
  ∃ fh0 fh' g', mkFoldedHist 40 7 2 = Ok fh0 ∧
    hk_run fh0 zero64 [PathStep true 4660 22136; PathStep false 4 8; PathStep true 100 64]
      = Ok (fh', g') ∧ fold fh' g' = Some (folded fh').
Proof.
  destruct (path_run_check 40 7 2 zero64
    [PathStep true 4660 22136; PathStep false 4 8; PathStep true 100 64])
    as (fh0 & fh' & g' & H1 & H2 & H3 & _).
  - lia.
  - simpl; lia.
  - unfold staticMaxShamtLimit; lia.
  - intros p. apply Z.testbit_0_l.
  - by exists fh0, fh', g'.
Defined.

Lemma imli_update_saturates_witness :
  imli_update (mkFolded 3 5 8 7) true = Ok (mkFolded 3 5 8 7).
Proof. apply (imli_update_saturates (mkFolded 3 5 8 7) true); simpl; lia. Defined.

End FoldedHist.
