(* ===== verification/BpCommon.v ===== *)
(** The data of the decoupled branch predictor.

    Models [src/GEM5/src/cpu/pred/btb/common.hh]: branch information, BTB entries, the
    prediction of a stage ([FullBTBPrediction]) and a fetch target, with what they
    say about the history bits of a prediction and of a squash.  Fields that only
    serve statistics and tracing are left out.  The history bit vectors are those of
    [Bitset]; [M] is the type of the data the components save with a prediction. *)
From S2P Require Import Prelude.

Module BpCommon.

(** ** Branches *)

Inductive SquashType := SQUASH_NONE | SQUASH_TRAP | SQUASH_CTRL | SQUASH_OTHER.

Inductive BranchType :=
  | BR_COND | BR_DIRECT_NORMAL | BR_DIRECT_CALL | BR_INDIRECT_NORMAL | BR_INDIRECT_RET
  | BR_INDIRECT_CALL | BR_INDIRECT_CALL_RET | BR_DIRECT_RET.

Inductive OverrideReason := NO_OVERRIDE | FALL_THRU | CONTROL_ADDR | TARGET | END | HIST_INFO.

#[export] Instance SquashType_eq_dec : EqDecision SquashType.
Proof. solve_decision. Defined.

Record BranchInfo := mkBranch {
  br_pc : Z;
  br_target : Z;
  br_resolved : bool;
  isCond : bool;
  isIndirect : bool;
  isDirect : bool;
  isCall : bool;
  isReturn : bool;
  br_size : Z
}.

Definition BranchInfo_new : BranchInfo := mkBranch 0 0 false false false false false false 0.

Definition isUncond (b : BranchInfo) : bool := negb (isCond b).
Definition br_getEnd (b : BranchInfo) : Z := u64 (br_pc b + br_size b).

Definition getType (b : BranchInfo) : res BranchType :=
  if isCond b then Ok BR_COND
  else if negb (isIndirect b) then
    if isReturn b then Panic "jal return detected!"
    else Ok (if isCall b then BR_DIRECT_CALL else BR_DIRECT_NORMAL)
  else if negb (isCall b) then
    Ok (if isReturn b then BR_INDIRECT_RET else BR_INDIRECT_NORMAL)
  else Ok (if isReturn b then BR_INDIRECT_CALL_RET else BR_INDIRECT_CALL).

Definition with_target (b : BranchInfo) (t : Z) : BranchInfo :=
  mkBranch (br_pc b) t (br_resolved b) (isCond b) (isIndirect b) (isDirect b) (isCall b)
    (isReturn b) (br_size b).

Record BTBEntry := mkEntry {
  be_info : BranchInfo;
  be_valid : bool;
  be_alwaysTaken : bool;
  be_ctr : Z;
  be_tag : Z
}.

Definition BTBEntry_new : BTBEntry := mkEntry BranchInfo_new false false 0 0.
(** The constructor from a branch. *)
Definition BTBEntry_of (b : BranchInfo) : BTBEntry := mkEntry b true true 0 0.

Definition be_pc (e : BTBEntry) : Z := br_pc (be_info e).

(** [CondTakens_find], [IndirectTakens_find]. *)
Definition find_pc {A} (l : list (Z * A)) (pc : Z) : option A :=
  option_map snd (find (λ p, p.1 =? pc)%Z l).

(** [mask] and [floorLog2] of [base/]. *)
Definition mask (n : Z) : Z := if (64 <=? n)%Z then (2 ^ 64 - 1)%Z else (2 ^ n - 1)%Z.
Definition floorLog2 (x : Z) : Z := Z.log2 x.

(** ** The prediction of a stage *)

Record FullBTBPrediction := mkPred {
  fp_tid : Z;
  bbStart : Z;
  btbEntries : list BTBEntry;
  condTakens : list (Z * bool);
  indirectTargets : list (Z * Z);
  returnTarget : Z;
  fp_predSource : Z
}.

Definition FullBTBPrediction_new : FullBTBPrediction := mkPred 0 0 [] [] [] 0 0.

(** Whether the loop of [getTakenEntry] stops at the entry. *)
Definition entry_taken (cs : list (Z * bool)) (e : BTBEntry) : bool :=
  be_valid e &&
  (if isCond (be_info e) then match find_pc cs (be_pc e) with Some t => t | None => false end
   else true).

Definition getTakenEntry (p : FullBTBPrediction) : BTBEntry :=
  match find (entry_taken (condTakens p)) (btbEntries p) with
  | Some e => e
  | None => BTBEntry_new
  end.

Definition isTaken (p : FullBTBPrediction) : bool := be_valid (getTakenEntry p).

(** The address after the block: [(a + predictWidth) & ~mask(...)]. *)
Definition next_block (a predictWidth : Z) : Z :=
  Z.land (u64 (a + predictWidth)) (Z.ldiff (2 ^ 64 - 1) (mask (floorLog2 predictWidth - 1))).

Definition getFallThrough (p : FullBTBPrediction) (predictWidth : Z) : Z :=
  next_block (bbStart p) predictWidth.

Definition getEntryTarget (p : FullBTBPrediction) (e : BTBEntry) : Z :=
  if isIndirect (be_info e) then
    if isReturn (be_info e) then returnTarget p
    else match find_pc (indirectTargets p) (be_pc e) with
         | Some t => t
         | None => br_target (be_info e)
         end
  else br_target (be_info e).

Definition getTarget (p : FullBTBPrediction) (predictWidth : Z) : Z :=
  let e := getTakenEntry p in
  if be_valid e then getEntryTarget p e else getFallThrough p predictWidth.

Definition fp_getEnd (p : FullBTBPrediction) (predictWidth : Z) : Z :=
  if isTaken p then br_getEnd (be_info (getTakenEntry p)) else getFallThrough p predictWidth.

Definition controlAddr (p : FullBTBPrediction) : Z := be_pc (getTakenEntry p).

(** [match] *)
Definition pred_match (p q : FullBTBPrediction) (predictWidth : Z) : bool * OverrideReason :=
  let a := getTakenEntry p in
  let b := getTakenEntry q in
  if negb (Bool.eqb (be_valid a) (be_valid b)) then (false, FALL_THRU)
  else if be_valid a && be_valid b then
    if negb (controlAddr p =? controlAddr q)%Z then (false, CONTROL_ADDR)
    else if negb (getTarget p predictWidth =? getTarget q predictWidth)%Z then (false, TARGET)
    else (true, NO_OVERRIDE)
  else (true, NO_OVERRIDE).

(** The loop of [getHistInfo] and [getBwHistInfo]; [bit] is what a taken branch
    contributes. *)
Fixpoint hist_loop (cs : list (Z * bool)) (bit : BTBEntry → bool) (l : list BTBEntry)
    (shamt : Z) : Z * bool :=
  match l with
  | [] => (shamt, false)
  | e :: rest =>
      if be_valid e then
        if isCond (be_info e) then
          match find_pc cs (be_pc e) with
          | Some true => ((shamt + 1)%Z, bit e)
          | _ => hist_loop cs bit rest (shamt + 1)
          end
        else (shamt, false)
      else hist_loop cs bit rest shamt
  end.

Definition getHistInfo (p : FullBTBPrediction) : Z * bool :=
  hist_loop (condTakens p) (λ _, true) (btbEntries p) 0.
Definition getBwHistInfo (p : FullBTBPrediction) : Z * bool :=
  hist_loop (condTakens p) (λ e, br_target (be_info e) <? be_pc e)%Z (btbEntries p) 0.

Definition getPHistInfo (p : FullBTBPrediction) : Z * Z * bool :=
  let e := getTakenEntry p in
  if be_valid e then (be_pc e, getEntryTarget p e, true) else (0%Z, 0%Z, false).

(** ** Fetch targets *)

Record FetchTarget (B M : Type) := mkTarget {
  ft_tid : Z;
  startPC : Z;
  predTaken : bool;
  predEndPC : Z;
  predBranchInfo : BranchInfo;
  isHit : bool;
  predBTBEntries : list BTBEntry;
  exeTaken : bool;
  exeBranchInfo : BranchInfo;
  ft_resolved : bool;
  updateEndInstPC : Z;
  updateBTBEntries : list BTBEntry;
  ft_squashType : SquashType;
  ft_squashPC : Z;
  predMetas : M;
  ft_history : B;
  ft_phistory : B;
  ft_bwhistory : B;
  ft_lhistory : list B
}.
#[global] Arguments mkTarget {B M}.
#[global] Arguments ft_tid {B M} _.
#[global] Arguments startPC {B M} _.
#[global] Arguments predTaken {B M} _.
#[global] Arguments predEndPC {B M} _.
#[global] Arguments predBranchInfo {B M} _.
#[global] Arguments isHit {B M} _.
#[global] Arguments predBTBEntries {B M} _.
#[global] Arguments exeTaken {B M} _.
#[global] Arguments exeBranchInfo {B M} _.
#[global] Arguments ft_resolved {B M} _.
#[global] Arguments updateEndInstPC {B M} _.
#[global] Arguments updateBTBEntries {B M} _.
#[global] Arguments ft_squashType {B M} _.
#[global] Arguments ft_squashPC {B M} _.
#[global] Arguments predMetas {B M} _.
#[global] Arguments ft_history {B M} _.
#[global] Arguments ft_phistory {B M} _.
#[global] Arguments ft_bwhistory {B M} _.
#[global] Arguments ft_lhistory {B M} _.

Section Target.

Context {B M : Type}.
Abbreviation Target := (FetchTarget B M).

Definition ft_getBranchInfo (t : Target) : BranchInfo :=
  if ft_resolved t then exeBranchInfo t else predBranchInfo t.
Definition getControlPC (t : Target) : Z := br_pc (ft_getBranchInfo t).
Definition getTaken (t : Target) : bool := if ft_resolved t then exeTaken t else predTaken t.

(** The valid entries of the block before the squashing instruction. *)
Definition before_squash (t : Target) (squash_pc : Z) : list BTBEntry :=
  List.filter (λ e, be_valid e && (startPC t <=? be_pc e)%Z && (be_pc e <? squash_pc)%Z)
    (predBTBEntries t).

Definition getHistInfoDuringSquash (t : Target) (squash_pc : Z) (is_cond actually_taken : bool)
    : Z * bool :=
  let shamt := Z.of_nat (length (before_squash t squash_pc)) in
  if is_cond then ((shamt + 1)%Z, actually_taken) else (shamt, false).

Definition getBwHistInfoDuringSquash (t : Target) (squash_pc : Z)
    (is_cond actually_taken : bool) (target : Z) : Z * bool :=
  let shamt := Z.of_nat (length (before_squash t squash_pc)) in
  if is_cond then ((shamt + 1)%Z, actually_taken && (target <? squash_pc)%Z)
  else (shamt, false).

Definition with_resolve (t : Target) (taken : bool) (b : BranchInfo) (resolved : bool)
    (st : SquashType) (pc : Z) : Target :=
  mkTarget (ft_tid t) (startPC t) (predTaken t) (predEndPC t) (predBranchInfo t) (isHit t)
    (predBTBEntries t) taken b resolved (updateEndInstPC t) (updateBTBEntries t) st pc
    (predMetas t) (ft_history t) (ft_phistory t) (ft_bwhistory t) (ft_lhistory t).

Definition setDefaultResolve (t : Target) : Target :=
  with_resolve t (predTaken t) (predBranchInfo t) false (ft_squashType t) (ft_squashPC t).

Definition with_update (t : Target) (endpc : Z) (es : list BTBEntry) : Target :=
  mkTarget (ft_tid t) (startPC t) (predTaken t) (predEndPC t) (predBranchInfo t) (isHit t)
    (predBTBEntries t) (exeTaken t) (exeBranchInfo t) (ft_resolved t) endpc es
    (ft_squashType t) (ft_squashPC t) (predMetas t) (ft_history t) (ft_phistory t)
    (ft_bwhistory t) (ft_lhistory t).

Definition setUpdateInstEndPC (t : Target) (predictWidth : Z) : Target :=
  with_update t
    (if bool_decide (ft_squashType t = SQUASH_NONE) then
       if exeTaken t then getControlPC t else next_block (startPC t) predictWidth
     else ft_squashPC t)
    (updateBTBEntries t).

Definition setUpdateBTBEntries (t : Target) : Target :=
  with_update t (updateEndInstPC t)
    (List.filter (λ e, be_valid e && (startPC t <=? be_pc e)%Z && (be_pc e <=? updateEndInstPC t)%Z)
       (predBTBEntries t)).

Definition mark_resolved (pc : Z) (e : BTBEntry) : BTBEntry :=
  if be_valid e && (be_pc e =? pc)%Z then
    let b := be_info e in
    mkEntry (mkBranch (br_pc b) (br_target b) true (isCond b) (isIndirect b) (isDirect b)
      (isCall b) (isReturn b) (br_size b)) (be_valid e) (be_alwaysTaken e) (be_ctr e) (be_tag e)
  else e.

Definition markBTBEntryResolved (t : Target) (pc : Z) : Target :=
  with_update t (updateEndInstPC t) (map (mark_resolved pc) (updateBTBEntries t)).

End Target.

(** ** The pseudo-random generator of the tables *)

Definition LFSR64_init : Z := 0x1234567887654321.

Definition LFSR64_next (lfsr : Z) : Z :=
  if (lfsr =? 0)%Z then 1%Z
  else
    let bit := Z.land (Z.lxor (Z.lxor (Z.lxor lfsr (Z.shiftr lfsr 1)) (Z.shiftr lfsr 3))
                              (Z.shiftr lfsr 4)) 1 in
    Z.lor (Z.shiftr lfsr 1) (Z.shiftl bit 63).

End BpCommon.
