(* ===== verification/Ras.v ===== *)
(** The return address stacks of the decoupled branch predictor.

    Models [src/GEM5/src/cpu/pred/btb/ras.hh], [ras.cc] (class [BTBRAS]) and [uras.hh],
    [uras.cc] (class [BTBuRAS]).  [BTBRAS] keeps a committed stack, whose entries
    count repeated calls to the same place, and a ring of in-flight entries linked
    into a persistent stack, so that a squash only restores pointers.  Statistics,
    tracing and debug output are left out. *)
From S2P Require Import Prelude BpCommon.
Import BpCommon.

Module Ras.

Record RasParams := { numEntries : Z; ctrWidth : Z; numInflightEntries : Z }.

Record RASEssential := mkEss { retAddr : Z; ctr : Z }.
Record RASInflightEntry := mkInflight { data : RASEssential; nos : Z }.
Record RASMeta := mkMeta { m_ssp : Z; m_sctr : Z; m_TOSR : Z; m_TOSW : Z; m_target : Z }.

Record BTBRAS := mkRAS {
  TOSW : Z;
  TOSR : Z;
  BOS : Z;
  ssp : Z;
  nsp : Z;
  sctr : Z;
  stack : list RASEssential;
  inflightStack : list RASInflightEntry
}.

Section WithParams.

Context (p : RasParams).

(** [(1 << ctrWidth) - 1] *)
Definition maxCtr : Z := s32 (s32 (Z.shiftl 1 (ctrWidth p)) - 1).

(** ** Pointers; [%] is of [unsigned] operands. *)

Definition ptrInc (ptr : Z) : Z := (u32 (ptr + 1) `mod` numEntries p)%Z.
Definition ptrDec (ptr : Z) : res Z :=
  if (0 <? ptr)%Z then Ok (ptr - 1)%Z
  else do! assert_ (ptr =? 0)%Z "ptr == 0" in Ok (u32 (numEntries p - 1)).
Definition inflightPtrInc (ptr : Z) : Z := (u32 (ptr + 1) `mod` numInflightEntries p)%Z.
Definition inflightPtrDec (ptr : Z) : res Z :=
  if (0 <? ptr)%Z then Ok (ptr - 1)%Z
  else do! assert_ (ptr =? 0)%Z "ptr == 0" in Ok (u32 (numInflightEntries p - 1)).
Definition inflightPtrPlus1 (ptr : Z) : Z := (u32 (ptr + 1) `mod` numInflightEntries p)%Z.

Definition BTBRAS_new : res BTBRAS :=
  let! tosr := inflightPtrDec 0 in
  Ok (mkRAS 0 tosr 0 0 0 0
        (replicate (Z.to_nat (numEntries p)) (mkEss 0x80000000 0))
        (replicate (Z.to_nat (numInflightEntries p)) (mkInflight (mkEss 0x80000000 0) 0))).

Definition inflightInRange (s : BTBRAS) (ptr : Z) : bool :=
  if (BOS s <? TOSW s)%Z then (BOS s <=? ptr)%Z && (ptr <? TOSW s)%Z
  else if (TOSW s <? BOS s)%Z then (ptr <? TOSW s)%Z || (BOS s <=? ptr)%Z
  else false.

(** ** The top of the stack *)

Definition getTop (s : BTBRAS) : res RASEssential :=
  if inflightInRange s (TOSR s) then
    let! e := nth_res (inflightStack s) (TOSR s) in Ok (data e)
  else nth_res (stack s) (ssp s).

(** [getTop_meta]: the top, recorded with the pointers in [meta]. *)
Definition getTop_meta (s : BTBRAS) : res RASMeta :=
  let! e := getTop s in
  Ok (mkMeta (ssp s) (sctr s) (TOSR s) (TOSW s) (retAddr e)).

(** ** The speculative stack *)

Definition push (s : BTBRAS) (a : Z) : res BTBRAS :=
  let! top := getTop s in
  let '(sp, c) :=
    if (a =? retAddr top)%Z && (sctr s <? maxCtr)%Z then (ssp s, (sctr s + 1)%Z)
    else (ptrInc (ssp s), 0%Z) in
  let! l := set_nth (inflightStack s) (TOSW s) (mkInflight (mkEss a c) (TOSR s)) in
  Ok (mkRAS (inflightPtrInc (TOSW s)) (TOSW s) (BOS s) sp (nsp s) c (stack s) l).

Definition pop (s : BTBRAS) : res BTBRAS :=
  let! tosr :=
    if inflightInRange s (TOSR s) then
      let! e := nth_res (inflightStack s) (TOSR s) in Ok (nos e)
    else Ok (TOSR s) in
  if (0 <? sctr s)%Z then
    Ok (mkRAS (TOSW s) tosr (BOS s) (ssp s) (nsp s) (sctr s - 1) (stack s) (inflightStack s))
  else
    let! sp := ptrDec (ssp s) in
    let s' := mkRAS (TOSW s) tosr (BOS s) sp (nsp s) (sctr s) (stack s) (inflightStack s) in
    let! top := getTop s' in
    Ok (mkRAS (TOSW s) tosr (BOS s) sp (nsp s) (ctr top) (stack s) (inflightStack s)).

(** ** The committed stack *)

(** A stack and its pointer: [push_stack] on [stack] and [nsp], and the [push] and
    [pop] of [BTBuRAS]. *)
Definition rle_push (st : list RASEssential) (sp a : Z) : res (list RASEssential * Z) :=
  let! tos := nth_res st sp in
  if (retAddr tos =? a)%Z && (ctr tos <? u32 maxCtr)%Z then
    let! st := set_nth st sp (mkEss (retAddr tos) (u32 (ctr tos + 1))) in Ok (st, sp)
  else
    let sp := ptrInc sp in
    let! st := set_nth st sp (mkEss a 0) in Ok (st, sp).

Definition rle_pop (st : list RASEssential) (sp : Z) : res (list RASEssential * Z) :=
  let! tos := nth_res st sp in
  if (0 <? ctr tos)%Z then
    let! st := set_nth st sp (mkEss (retAddr tos) (ctr tos - 1)) in Ok (st, sp)
  else let! sp := ptrDec sp in Ok (st, sp).

Definition with_stack (s : BTBRAS) (x : list RASEssential * Z) : BTBRAS :=
  mkRAS (TOSW s) (TOSR s) (BOS s) (ssp s) x.2 (sctr s) x.1 (inflightStack s).

Definition push_stack (s : BTBRAS) (a : Z) : res BTBRAS :=
  let! x := rle_push (stack s) (nsp s) a in Ok (with_stack s x).

Definition pop_stack (s : BTBRAS) : res BTBRAS :=
  let! x := rle_pop (stack s) (nsp s) in Ok (with_stack s x).

(** ** The interface of the predictor *)

(** [putPCHistory] fills in the return target of the stages from [delay] on. *)
Definition putPCHistory (s : BTBRAS) (delay : nat) (targets : list Z) : res (list Z * RASMeta) :=
  do! assert_ (delay <? length targets) "getDelay() < stagePreds.size()" in
  let! m := getTop_meta s in
  Ok (take delay targets ++ replicate (length targets - delay) (m_target m), m).

Definition apply_branch (s : BTBRAS) (b : BranchInfo) : res BTBRAS :=
  let! s := if isCall b then push s (u64 (br_pc b + br_size b)) else Ok s in
  if isReturn b then pop s else Ok s.

Definition specUpdateHist (s : BTBRAS) (pred : FullBTBPrediction) : res BTBRAS :=
  apply_branch s (be_info (getTakenEntry pred)).

Definition restore (s : BTBRAS) (m : RASMeta) : BTBRAS :=
  mkRAS (m_TOSW m) (m_TOSR m) (BOS s) (m_ssp m) (nsp s) (m_sctr m) (stack s) (inflightStack s).

Definition recoverHist (s : BTBRAS) (m : RASMeta) (exeTaken : bool) (b : BranchInfo)
    : res BTBRAS :=
  let s := restore s m in
  if exeTaken then apply_branch s b else Ok s.

Definition update (s : BTBRAS) (m : RASMeta) (exeTaken : bool) (b : BranchInfo) : res BTBRAS :=
  if exeTaken then
    let! top := nth_res (stack s) (nsp s) in
    let s :=
      if negb (m_ssp m =? nsp s)%Z || negb (m_sctr m =? ctr top)%Z then
        mkRAS (TOSW s) (TOSR s) (BOS s) (ssp s) (m_ssp m) (sctr s) (stack s) (inflightStack s)
      else s in
    let! s :=
      if isCall b then
        let! s := push_stack s (u64 (br_pc b + br_size b)) in
        Ok (mkRAS (TOSW s) (TOSR s) (inflightPtrPlus1 (m_TOSW m)) (ssp s) (nsp s) (sctr s)
              (stack s) (inflightStack s))
      else Ok s in
    if isReturn b then pop_stack s else Ok s
  else Ok s.

Definition getTopAddrFromMetas (m : RASMeta) : Z := m_target m.

End WithParams.

(** ** The small stack *)

Record uRASMeta := mkUMeta { u_sp : Z; u_tos : RASEssential }.

Record BTBuRAS := mkURAS {
  specSp : Z;
  nonSpecSp : Z;
  specStack : list RASEssential;
  nonSpecStack : list RASEssential
}.

Section Micro.

Context (p : RasParams).

Definition BTBuRAS_new : BTBuRAS :=
  let st := replicate (Z.to_nat (numEntries p)) (mkEss 0x80000000 0) in mkURAS 0 0 st st.

Definition u_putPCHistory (s : BTBuRAS) : res uRASMeta :=
  let! tos := nth_res (specStack s) (specSp s) in Ok (mkUMeta (specSp s) tos).

(** The target predicted for a return, and the new state. *)
Definition u_specUpdateHist (s : BTBuRAS) (b : BranchInfo) : res (BTBuRAS * Z) :=
  let! tos := nth_res (specStack s) (specSp s) in
  let! x := if isCall b then rle_push p (specStack s) (specSp s) (u64 (br_pc b + br_size b))
            else Ok (specStack s, specSp s) in
  let! x := if isReturn b then rle_pop p x.1 x.2 else Ok x in
  Ok (mkURAS x.2 (nonSpecSp s) x.1 (nonSpecStack s), retAddr tos).

Definition u_recoverHist (s : BTBuRAS) (m : uRASMeta) (exeTaken : bool) (b : BranchInfo)
    : res BTBuRAS :=
  let! st := set_nth (specStack s) (u_sp m) (u_tos m) in
  let x := (st, u_sp m) in
  let! x :=
    if exeTaken then
      let! x := if isReturn b then rle_pop p x.1 x.2 else Ok x in
      if isCall b then rle_push p x.1 x.2 (u64 (br_pc b + br_size b)) else Ok x
    else Ok x in
  Ok (mkURAS x.2 (nonSpecSp s) x.1 (nonSpecStack s)).

Definition u_update (s : BTBuRAS) (exeTaken : bool) (b : BranchInfo) : res BTBuRAS :=
  if exeTaken && (isReturn b || isCall b) then
    let x := (nonSpecStack s, nonSpecSp s) in
    let! x := if isCall b then rle_push p x.1 x.2 (u64 (br_pc b + br_size b)) else Ok x in
    let! x := if isReturn b then rle_pop p x.1 x.2 else Ok x in
    Ok (mkURAS (specSp s) x.2 (specStack s) x.1)
  else Ok s.

End Micro.
End Ras.
