(* ===== verification/RasProps.v ===== *)
(** What the return address stacks guarantee.

    Pointers stay in range whatever the order of predictions, squashes and commits;
    a squash brings back exactly the stack of the prediction it returns to; calls
    and returns that nest are predicted correctly. *)
From S2P Require Import Prelude BpCommon Ras.
Import BpCommon Ras.

Module RasProps.

Section WithParams.

Context (p : RasParams).
Abbreviation N := (numInflightEntries p).

Record ras_params_ok : Prop := {
  rp_entries : (0 < numEntries p ≤ 2 ^ 31)%Z;
  rp_inflight : (0 < numInflightEntries p ≤ 2 ^ 31)%Z
}.

Context (Hp : ras_params_ok).

(** ** Well-formed states *)

Definition slot (n i : Z) : Prop := (0 ≤ i < n)%Z.

Record ras_wf (s : BTBRAS) : Prop := {
  wf_TOSW : slot N (TOSW s);
  wf_TOSR : slot N (TOSR s);
  wf_BOS : slot N (BOS s);
  wf_ssp : slot (numEntries p) (ssp s);
  wf_nsp : slot (numEntries p) (nsp s);
  wf_stack : Z.of_nat (length (stack s)) = numEntries p;
  wf_inflight : Z.of_nat (length (inflightStack s)) = N;
  wf_nos : Forall (λ e, slot N (nos e)) (inflightStack s)
}.

Definition meta_wf (m : RASMeta) : Prop :=
  slot N (m_TOSW m) ∧ slot N (m_TOSR m) ∧ slot (numEntries p) (m_ssp m).

Lemma slot_nth {A} (l : list A) n i :
  Z.of_nat (length l) = n → slot n i →
  ∃ a, nth_res l i = Ok a ∧ l !! Z.to_nat i = Some a ∧
    ∀ b, set_nth l i b = Ok (<[Z.to_nat i := b]> l).
Proof. apply array_access. Qed.

Lemma ptrInc_slot i : slot (numEntries p) i → slot (numEntries p) (ptrInc p i).
Proof. intros _. unfold slot, ptrInc. apply Z.mod_pos_bound. apply Hp. Qed.

Lemma inflightPtrInc_slot i : slot N (inflightPtrInc p i).
Proof. unfold slot, inflightPtrInc. apply Z.mod_pos_bound. apply Hp. Qed.

Lemma ptrDec_slot i :
  slot (numEntries p) i → ∃ j, ptrDec p i = Ok j ∧ slot (numEntries p) j.
Proof.
  unfold slot, ptrDec. intros Hi. destruct (Z.ltb_spec 0 i).
  - eexists. split; [done|]. lia.
  - rewrite (proj2 (Z.eqb_eq i 0)) by lia. cbn [assert_ res_bind].
    eexists. split; [done|]. pose proof (rp_entries Hp). unfold u32.
    rewrite wrapu_small by (unfold in_u; lia). lia.
Qed.

Lemma ptrInc_val i : slot (numEntries p) i → ptrInc p i = ((i + 1) `mod` numEntries p)%Z.
Proof.
  intros [H0 H1]. pose proof (rp_entries Hp). unfold ptrInc, u32.
  rewrite wrapu_small by (unfold in_u; lia). done.
Qed.

Lemma ptrDec_Inc i : slot (numEntries p) i → ptrDec p (ptrInc p i) = Ok i.
Proof.
  intros [H0 H1]. pose proof (rp_entries Hp). rewrite ptrInc_val by done. unfold ptrDec.
  destruct (decide (i + 1 = numEntries p)%Z) as [E|E].
  - rewrite E, Z.mod_same by lia. rewrite Z.ltb_irrefl, Z.eqb_refl. cbn [assert_ res_bind].
    unfold u32. rewrite wrapu_small by (unfold in_u; lia). f_equal. lia.
  - rewrite Z.mod_small by lia. destruct (Z.ltb_spec 0 (i + 1)); [|lia]. f_equal. lia.
Qed.

Lemma getTop_ok s : ras_wf s → ∃ e, getTop s = Ok e.
Proof.
  intros Hs. unfold getTop. destruct (inflightInRange s (TOSR s)).
  - destruct (slot_nth _ _ _ (wf_inflight _ Hs) (wf_TOSR _ Hs)) as (e & -> & _). by eexists.
  - destruct (slot_nth _ _ _ (wf_stack _ Hs) (wf_ssp _ Hs)) as (e & -> & _). by eexists.
Qed.

Lemma push_ok s a : ras_wf s → ∃ s', push p s a = Ok s' ∧ ras_wf s'.
Proof.
  intros Hs. destruct (getTop_ok s Hs) as [e He]. unfold push. rewrite He. cbn [res_bind].
  destruct (slot_nth _ _ _ (wf_inflight _ Hs) (wf_TOSW _ Hs)) as (x & _ & Hx & Hset).
  destruct (_ && _); rewrite Hset; cbn [res_bind]; eexists; (split; [done|]);
    split; simpl; rewrite ?length_insert; try apply Hs; try apply inflightPtrInc_slot;
    try (apply ptrInc_slot; apply Hs); apply Forall_insert; apply Hs.
Qed.

Lemma nos_slot s i e : ras_wf s → nth_res (inflightStack s) i = Ok e → slot N (nos e).
Proof. intros Hs [_ He]%nth_res_Ok. exact (Forall_lookup_1 _ _ _ _ (wf_nos _ Hs) He). Qed.

Lemma pop_ok s : ras_wf s → ∃ s', pop p s = Ok s' ∧ ras_wf s'.
Proof.
  intros Hs. unfold pop.
  assert (∃ t, (if inflightInRange s (TOSR s) then
    let! e := nth_res (inflightStack s) (TOSR s) in Ok (nos e) else Ok (TOSR s)) = Ok t ∧ slot N t)
    as (t & -> & Ht).
  { destruct (inflightInRange s (TOSR s)); [|exists (TOSR s); split; [done|apply Hs]].
    destruct (slot_nth _ _ _ (wf_inflight _ Hs) (wf_TOSR _ Hs)) as (e & He & _).
    rewrite He. eexists. split; [done|]. by eapply nos_slot. }
  cbn [res_bind]. destruct (0 <? sctr s)%Z.
  - eexists. split; [done|]. split; simpl; try apply Hs. done.
  - destruct (ptrDec_slot (ssp s) (wf_ssp _ Hs)) as (j & -> & Hj). cbn [res_bind].
    edestruct (getTop_ok (mkRAS (TOSW s) t (BOS s) j (nsp s) (sctr s) (stack s) (inflightStack s)))
      as [e ->]; [split; simpl; try apply Hs; done|].
    cbn [res_bind]. eexists. split; [done|]. split; simpl; try apply Hs; done.
Qed.

Lemma apply_branch_ok s b : ras_wf s → ∃ s', apply_branch p s b = Ok s' ∧ ras_wf s'.
Proof.
  intros Hs. unfold apply_branch.
  assert (∃ s1, (if isCall b then push p s (u64 (br_pc b + br_size b)) else Ok s) = Ok s1 ∧ ras_wf s1)
    as (s1 & -> & H1) by (destruct (isCall b); [by apply push_ok|by exists s]).
  cbn [res_bind]. destruct (isReturn b); [by apply pop_ok|by exists s1].
Qed.

(** ** The ring of in-flight entries *)

(** Distance from the bottom, and the number of entries in use. *)
Definition off (s : BTBRAS) (i : Z) : Z := ((i - BOS s) `mod` N)%Z.
Definition used (s : BTBRAS) : Z := off s (TOSW s).

Lemma mod_window a b : slot N a → slot N b →
  ((a - b) `mod` N = if (b <=? a)%Z then a - b else a - b + N)%Z.
Proof.
  intros [Ha0 Ha1] [Hb0 Hb1]. destruct (Z.leb_spec b a).
  - apply Z.mod_small. lia.
  - rewrite <- (Z.mod_add (a - b) 1 N) by lia. rewrite Z.mul_1_l. apply Z.mod_small. lia.
Qed.

Lemma in_range_iff s i :
  ras_wf s → slot N i → inflightInRange s i = true ↔ (off s i < used s)%Z.
Proof.
  intros Hs Hi. unfold used, off. rewrite !mod_window by (done || apply Hs).
  pose proof (wf_TOSW _ Hs) as [? ?]. pose proof (wf_BOS _ Hs) as [? ?]. destruct Hi as [? ?].
  unfold inflightInRange.
  destruct (Z.ltb_spec (BOS s) (TOSW s)), (Z.ltb_spec (TOSW s) (BOS s)),
    (Z.leb_spec (BOS s) (TOSW s)), (Z.leb_spec (BOS s) i), (Z.ltb_spec i (TOSW s)); simpl;
    split; intros; (reflexivity || discriminate || lia || (exfalso; lia)).
Qed.

Lemma off_inj s i j : ras_wf s → slot N i → slot N j → off s i = off s j → i = j.
Proof.
  intros Hs Hi Hj. unfold off. rewrite !mod_window by (done || apply Hs).
  destruct Hi, Hj, (Z.leb_spec (BOS s) i), (Z.leb_spec (BOS s) j); lia.
Qed.

Lemma off_range s i : (0 ≤ off s i < N)%Z.
Proof. apply Z.mod_pos_bound. apply Hp. Qed.

Lemma used_inc s : ras_wf s →
  ((inflightPtrInc p (TOSW s) - BOS s) `mod` N = (used s + 1) `mod` N)%Z.
Proof.
  intros Hs. pose proof (wf_TOSW _ Hs) as [? ?]. pose proof (rp_inflight Hp).
  unfold inflightPtrInc, used, off, u32. rewrite wrapu_small by (unfold in_u; lia).
  rewrite Zminus_mod_idemp_l, Zplus_mod_idemp_l. f_equal. lia.
Qed.

(** ** States that behave alike

    Entries of the ring outside the range are never read. *)

Record ras_equiv (s s' : BTBRAS) : Prop := {
  eq_wf : ras_wf s;
  eq_wf' : ras_wf s';
  eq_TOSW : TOSW s' = TOSW s;
  eq_TOSR : TOSR s' = TOSR s;
  eq_BOS : BOS s' = BOS s;
  eq_ssp : ssp s' = ssp s;
  eq_nsp : nsp s' = nsp s;
  eq_sctr : sctr s' = sctr s;
  eq_stack : stack s' = stack s;
  eq_inflight : ∀ i, slot N i → inflightInRange s i = true →
    inflightStack s' !! Z.to_nat i = inflightStack s !! Z.to_nat i
}.

Lemma equiv_range s s' i :
  TOSW s' = TOSW s → BOS s' = BOS s → inflightInRange s' i = inflightInRange s i.
Proof. intros E1 E2. unfold inflightInRange. by rewrite E1, E2. Qed.

#[export] Instance ras_equiv_sym : Symmetric ras_equiv.
Proof.
  intros s s' [H1 H2 E1 E2 E3 E4 E5 E6 E7 H]. split; try done.
  intros i Hi Hr. rewrite H; [done|done|]. by rewrite <- (equiv_range s s').
Qed.

#[export] Instance ras_equiv_trans : Transitive ras_equiv.
Proof.
  intros s s' s'' [H1 H2 E1 E2 E3 E4 E5 E6 E7 H] [G1 G2 F1 F2 F3 F4 F5 F6 F7 G].
  split; try congruence. intros i Hi Hr. rewrite G, H; try done. by rewrite (equiv_range s s').
Qed.

Lemma equiv_nth s s' :
  ras_equiv s s' → inflightInRange s (TOSR s) = true →
  nth_res (inflightStack s') (TOSR s) = nth_res (inflightStack s) (TOSR s).
Proof.
  intros He Hr. unfold nth_res. rewrite (eq_inflight _ _ He); try done. apply (eq_wf _ _ He).
Qed.

#[export] Instance getTop_proper : Proper (ras_equiv ==> eq) getTop.
Proof.
  intros s s' He. unfold getTop. rewrite (equiv_range s s') by apply He.
  rewrite (eq_TOSR _ _ He). destruct (inflightInRange s (TOSR s)) eqn:Hr.
  - by rewrite (equiv_nth s s').
  - by rewrite (eq_stack _ _ He), (eq_ssp _ _ He).
Qed.

#[export] Instance getTop_meta_proper : Proper (ras_equiv ==> eq) getTop_meta.
Proof.
  intros s s' He. unfold getTop_meta. rewrite He. destruct (getTop s') as [e|]; [|done]. simpl.
  by rewrite (eq_ssp _ _ He), (eq_sctr _ _ He), (eq_TOSR _ _ He), (eq_TOSW _ _ He).
Qed.

Lemma off_grow s i n :
  ras_wf s → slot N i → (off s i < (used s + 1) `mod` N)%Z → n = TOSW s →
  (off s i < used s)%Z ∨ i = n.
Proof.
  intros Hs Hi Ho ->. pose proof (off_range s i). pose proof (off_range s (TOSW s)). fold (used s) in *.
  destruct (decide (used s + 1 = N)%Z) as [E|E].
  - rewrite E, Z.mod_same in Ho by lia. lia.
  - rewrite Z.mod_small in Ho by lia. destruct (decide (off s i = used s)) as [E'|E'].
    + right. apply (off_inj s); try done. apply Hs.
    + left. lia.
Qed.

#[export] Instance push_proper : Proper (ras_equiv ==> eq ==> res_rel ras_equiv) (push p).
Proof.
  intros s s' He a ? <-. pose proof (getTop_proper s s' He) as Et.
  destruct (push_ok s a (eq_wf _ _ He)) as (s1 & H1 & W1).
  destruct (push_ok s' a (eq_wf' _ _ He)) as (s1' & H1' & W1').
  rewrite H1, H1'. constructor. unfold push in H1, H1'. rewrite <- Et in H1'.
  destruct (getTop s) as [top|]; [|done]. cbn [res_bind] in H1, H1'.
  rewrite (eq_sctr _ _ He), (eq_ssp _ _ He), (eq_TOSW _ _ He), (eq_TOSR _ _ He) in H1'.
  destruct (if _ && _ then _ else _) as [sp c].
  destruct (slot_nth _ _ _ (wf_inflight _ (eq_wf _ _ He)) (wf_TOSW _ (eq_wf _ _ He)))
    as (x & _ & Hx & Hset).
  destruct (slot_nth _ N (TOSW s) (wf_inflight _ (eq_wf' _ _ He)) (wf_TOSW _ (eq_wf _ _ He)))
    as (x' & _ & Hx' & Hset').
  rewrite Hset in H1. rewrite Hset' in H1'. cbn [res_bind] in H1, H1'.
  injection H1 as <-. injection H1' as <-. split; simpl; try done; try apply He.
  intros i Hi Hr. apply (in_range_iff _ _ W1 Hi) in Hr. unfold used, off in Hr. simpl in Hr.
  rewrite used_inc in Hr by apply He.
  destruct (decide (Z.to_nat (TOSW s) = Z.to_nat i)) as [E|E].
  - rewrite E in *. rewrite !list_lookup_insert_eq; try done; by eapply lookup_lt_Some.
  - rewrite !list_lookup_insert_ne by done. apply He; [done|].
    apply in_range_iff; [apply He|done|].
    destruct (off_grow s i (TOSW s)) as [Hl|Hl]; try done; [apply He|]. by subst.
Qed.

#[export] Instance pop_proper : Proper (ras_equiv ==> res_rel ras_equiv) (pop p).
Proof.
  intros s s' He. destruct (pop_ok s (eq_wf _ _ He)) as (s1 & H1 & W1).
  destruct (pop_ok s' (eq_wf' _ _ He)) as (s1' & H1' & W1').
  rewrite H1, H1'. constructor. unfold pop in H1, H1'.
  rewrite (equiv_range s s'), (eq_TOSR _ _ He), (eq_sctr _ _ He), (eq_ssp _ _ He) in H1' by apply He.
  assert (∀ t, (if inflightInRange s (TOSR s) then
      let! e := nth_res (inflightStack s') (TOSR s) in Ok (nos e) else Ok t) =
    (if inflightInRange s (TOSR s) then
      let! e := nth_res (inflightStack s) (TOSR s) in Ok (nos e) else Ok t)) as E.
  { intros t. destruct (inflightInRange s (TOSR s)) eqn:Hr; [|done]. by rewrite (equiv_nth s s'). }
  rewrite E in H1'. destruct (if inflightInRange s (TOSR s) then _ else _) as [t|] eqn:Et; [|done].
  cbn [res_bind] in H1, H1'.
  assert (∀ sp c c', ras_wf (mkRAS (TOSW s) t (BOS s) sp (nsp s) c (stack s) (inflightStack s)) →
    ras_wf (mkRAS (TOSW s') t (BOS s') sp (nsp s') c' (stack s') (inflightStack s')) → c = c' →
    ras_equiv (mkRAS (TOSW s) t (BOS s) sp (nsp s) c (stack s) (inflightStack s))
      (mkRAS (TOSW s') t (BOS s') sp (nsp s') c' (stack s') (inflightStack s'))) as Heq.
  { intros sp c c' Hw Hw' <-. split; simpl; try done; apply He. }
  destruct (0 <? sctr s)%Z.
  - injection H1 as <-. injection H1' as <-. by apply Heq.
  - apply res_bind_Ok in H1 as (j & Hj & H1). rewrite Hj in H1'. cbn [res_bind] in H1'.
    apply res_bind_Ok in H1 as (top & Ht & H1). apply res_bind_Ok in H1' as (top' & Ht' & H1').
    injection H1 as <-. injection H1' as <-. apply Heq; [done|done|].
    rewrite (getTop_proper _ (mkRAS (TOSW s') t (BOS s') j (nsp s') (sctr s) (stack s') (inflightStack s')))
      in Ht; [by rewrite Ht in Ht'; injection Ht' as ->|].
    apply Heq; [| |done]; (split; simpl; (apply W1 || apply W1')).
Qed.

#[export] Instance apply_branch_proper :
  Proper (ras_equiv ==> eq ==> res_rel ras_equiv) (apply_branch p).
Proof.
  intros s s' He b ? <-. unfold apply_branch. apply (res_rel_bind ras_equiv).
  - destruct (isCall b); [by apply push_proper|by constructor].
  - intros s1 s1' H1. destruct (isReturn b); [by apply pop_proper|by constructor].
Qed.

(** ** Runs of predictions *)

(** A prediction: the top of the stack is saved, then the stack follows the branch
    the block is predicted to end with. *)
Definition predict_step (s : BTBRAS) (b : BranchInfo) : res (BTBRAS * RASMeta) :=
  let! m := getTop_meta s in
  let! s' := apply_branch p s b in
  Ok (s', m).

Fixpoint predict_run (s : BTBRAS) (l : list BranchInfo) : res (BTBRAS * list RASMeta) :=
  match l with
  | [] => Ok (s, [])
  | b :: rest =>
      let! x := predict_step s b in
      let! y := predict_run x.1 rest in
      Ok (y.1, x.2 :: y.2)
  end.

(** The return targets a run predicts. *)
Definition targets (s : BTBRAS) (l : list BranchInfo) : res (list Z) :=
  let! x := predict_run s l in Ok (map m_target x.2).

Definition calls (l : list BranchInfo) : Z := sumZ (λ b, if isCall b then 1 else 0)%Z l.

Lemma calls_nil : calls [] = 0%Z.
Proof. done. Qed.
Lemma calls_cons b l : calls (b :: l) = ((if isCall b then 1 else 0) + calls l)%Z.
Proof. done. Qed.
Lemma calls_app l k : calls (l ++ k) = (calls l + calls k)%Z.
Proof. apply sumZ_app. Qed.
Lemma calls_nonneg l : (0 ≤ calls l)%Z.
Proof. apply sumZ_nonneg. intros a. destruct (isCall a); lia. Qed.

(** What speculation leaves alone. *)
Record frame (s s' : BTBRAS) (n : Z) : Prop := {
  fr_wf : ras_wf s';
  fr_BOS : BOS s' = BOS s;
  fr_nsp : nsp s' = nsp s;
  fr_stack : stack s' = stack s;
  fr_used : used s' = (used s + n)%Z;
  fr_inflight : ∀ i, slot N i → inflightInRange s i = true →
    inflightStack s' !! Z.to_nat i = inflightStack s !! Z.to_nat i
}.

Lemma frame_refl s : ras_wf s → frame s s 0.
Proof. intros Hs. split; try done. lia. Qed.

Lemma frame_range s s' n i :
  ras_wf s → frame s s' n → (0 ≤ n)%Z → slot N i → inflightInRange s i = true →
  inflightInRange s' i = true.
Proof.
  intros Hs Hf Hn Hi Hr. apply (in_range_iff _ _ Hs Hi) in Hr.
  apply in_range_iff; [apply Hf|done|]. rewrite (fr_used _ _ _ Hf). unfold off in *.
  rewrite (fr_BOS _ _ _ Hf). lia.
Qed.

Lemma frame_trans s s' s'' n m :
  ras_wf s → frame s s' n → frame s' s'' m → (0 ≤ n)%Z → frame s s'' (n + m).
Proof.
  intros Hs H1 H2 Hn. split; try apply H2.
  - rewrite (fr_BOS _ _ _ H2). apply H1.
  - rewrite (fr_nsp _ _ _ H2). apply H1.
  - rewrite (fr_stack _ _ _ H2). apply H1.
  - rewrite (fr_used _ _ _ H2), (fr_used _ _ _ H1). lia.
  - intros i Hi Hr. rewrite (fr_inflight _ _ _ H2); [by apply H1|done|by eapply frame_range].
Qed.

(** What a push does while the ring has room. *)
Lemma push_frame s a :
  ras_wf s → (used s + 1 < N)%Z →
  ∃ s' top c sp, push p s a = Ok s' ∧ getTop s = Ok top ∧ frame s s' 1 ∧
    TOSR s' = TOSW s ∧ inflightInRange s' (TOSW s) = true ∧ sctr s' = c ∧ ssp s' = sp ∧
    inflightStack s' !! Z.to_nat (TOSW s) = Some (mkInflight (mkEss a c) (TOSR s)) ∧
    (a = retAddr top ∧ c = (sctr s + 1)%Z ∧ sp = ssp s ∨ c = 0%Z ∧ sp = ptrInc p (ssp s)).
Proof.
  intros Hs Hu. destruct (push_ok s a Hs) as (s' & Hpush & W). destruct (getTop_ok s Hs) as [top Ht].
  pose proof Hpush as E. unfold push in E. rewrite Ht in E. cbn [res_bind] in E.
  destruct (if _ && _ then _ else _) as [sp c] eqn:Esc.
  destruct (slot_nth _ _ _ (wf_inflight _ Hs) (wf_TOSW _ Hs)) as (x & _ & Hx & Hset).
  rewrite Hset in E. cbn [res_bind] in E. injection E as <-.
  pose proof (off_range s (TOSW s)) as Hr. fold (used s) in Hr.
  assert (used (mkRAS (inflightPtrInc p (TOSW s)) (TOSW s) (BOS s) sp (nsp s) c (stack s)
    (<[Z.to_nat (TOSW s):=mkInflight (mkEss a c) (TOSR s)]> (inflightStack s))) = used s + 1)%Z as Eu.
  { unfold used at 1, off at 1. simpl. rewrite used_inc by done. apply Z.mod_small. lia. }
  eexists _, top, c, sp. split; [exact Hpush|]. split; [done|]. simpl.
  split; [|split; [done|split; [|split; [done|split; [done|split]]]]].
  - split; try done. intros i Hi Hin. simpl. apply (in_range_iff _ _ Hs Hi) in Hin.
    rewrite list_lookup_insert_ne; [done|]. intros E. destruct (wf_TOSW _ Hs), Hi.
    assert (i = TOSW s) as -> by lia. unfold used in Hin. lia.
  - apply in_range_iff; [done|apply Hs|]. rewrite Eu. unfold off. simpl.
    fold (off s (TOSW s)). fold (used s). lia.
  - apply list_lookup_insert_eq. by eapply lookup_lt_Some.
  - destruct (Z.eqb_spec a (retAddr top)) as [Ea|Ea]; simpl in Esc; [|injection Esc as <- <-; by right].
    destruct (_ <? _)%Z; injection Esc as <- <-; [by left|by right].
Qed.

Lemma pop_frame s s' : ras_wf s → pop p s = Ok s' → frame s s' 0.
Proof.
  intros Hs Hpop. destruct (pop_ok s Hs) as (s1 & H1 & W). rewrite Hpop in H1. injection H1 as <-.
  unfold pop in Hpop. apply res_bind_Ok in Hpop as (t & _ & Hpop).
  destruct (0 <? sctr s)%Z; [injection Hpop as <-; split; try done; unfold used, off; simpl; lia|].
  apply res_bind_Ok in Hpop as (j & _ & Hpop). apply res_bind_Ok in Hpop as (e & _ & Hpop).
  injection Hpop as <-. split; try done. unfold used, off; simpl; lia.
Qed.

Lemma apply_frame s b s' :
  ras_wf s → (used s + calls [b] < N)%Z → apply_branch p s b = Ok s' → frame s s' (calls [b]).
Proof.
  intros Hs Hu Ha. unfold apply_branch in Ha. apply res_bind_Ok in Ha as (s1 & H1 & Ha).
  rewrite calls_cons, calls_nil in *.
  assert (frame s s1 (if isCall b then 1 else 0)) as F1.
  { destruct (isCall b); [|injection H1 as <-; by apply frame_refl].
    destruct (push_frame s (u64 (br_pc b + br_size b)) Hs ltac:(lia)) as (s2 & ? & ? & ? & E & _ & F & _).
    rewrite H1 in E. by injection E as ->. }
  destruct (isReturn b); [|by injection Ha as <-; rewrite Z.add_0_r].
  eapply frame_trans; [done|exact F1|apply pop_frame; [apply F1|done]|destruct (isCall b); lia].
Qed.

Lemma run_frame l : ∀ s,
  ras_wf s → (used s + calls l < N)%Z →
  ∃ s' ms, predict_run s l = Ok (s', ms) ∧ frame s s' (calls l).
Proof.
  induction l as [|b l IH]; intros s Hs Hu.
  - exists s, []. split; [done|by apply frame_refl].
  - cbn [predict_run]. unfold predict_step, getTop_meta.
    destruct (getTop_ok s Hs) as [e ->]. cbn [res_bind].
    destruct (apply_branch_ok s b Hs) as (s1 & H1 & W1). rewrite H1. cbn [res_bind fst snd].
    change (b :: l) with ([b] ++ l) in *. rewrite calls_app in *.
    pose proof (calls_nonneg [b]). pose proof (calls_nonneg l).
    pose proof (apply_frame s b s1 Hs ltac:(lia) H1) as F1.
    destruct (IH s1 W1) as (s2 & ms & -> & F2).
    { rewrite (fr_used _ _ _ F1). lia. }
    cbn [res_bind fst snd]. eexists _, _. split; [done|].
    eapply frame_trans; [done|exact F1|exact F2|done].
Qed.

Lemma targets_proper l : ∀ s s', ras_equiv s s' → targets s l = targets s' l.
Proof.
  induction l as [|b l IH]; intros s s' He; [done|]. unfold targets in *. cbn [predict_run].
  unfold predict_step. rewrite (getTop_meta_proper s s' He).
  destruct (getTop_meta s') as [m|]; [|done]. cbn [res_bind].
  pose proof (apply_branch_proper s s' He b b eq_refl) as Hr.
  inversion Hr as [s1 s1' H1 E1 E1'|x E1 E1']; cbn [res_bind fst snd]; [|done].
  specialize (IH s1 s1' H1). destruct (predict_run s1 l) as [[s2 ms]|], (predict_run s1' l) as [[s2' ms']|];
    cbn [res_bind fst snd] in *; try congruence. injection IH as IH. simpl. by rewrite IH.
Qed.

(** A squash restores the saved pointers; the entries they reach are intact. *)
Lemma restore_equiv s s1 n m :
  ras_wf s → frame s s1 n → (0 ≤ n)%Z → getTop_meta s = Ok m → ras_equiv (restore s1 m) s.
Proof.
  intros Hs Hf Hn Hm. unfold getTop_meta in Hm. apply res_bind_Ok in Hm as (e & _ & Hm).
  injection Hm as <-. symmetry. unfold restore. split; simpl; try done; try apply Hf.
  split; simpl; (apply Hs || apply Hf).
Qed.

(** C19: A squash brings the return address stack back exactly: whatever calls and
    returns were predicted after a block (fewer than fit the ring of in-flight
    entries), recovering with the data saved for that block makes the stack predict
    the same return targets, for ever after, as if the stack had never speculated and
    had followed the actual branch of the block. *)
Theorem ras_recover_exact s l s1 m ms taken b :
  ras_wf s → (used s + calls l < N)%Z → predict_run s l = Ok (s1, m :: ms) →
  ∃ s2 s2', recoverHist p s1 m taken b = Ok s2 ∧
    (if taken then apply_branch p s b else Ok s) = Ok s2' ∧
    ∀ rest, targets s2 rest = targets s2' rest.
Proof.
  intros Hs Hu Hrun. destruct (run_frame l s Hs Hu) as (s1' & ms' & E & F).
  rewrite Hrun in E. injection E as -> <-.
  assert (getTop_meta s = Ok m) as Hm.
  { destruct l as [|b0 l]; [done|]. cbn [predict_run] in Hrun.
    apply res_bind_Ok in Hrun as ([x m0] & Hx & Hrun). apply res_bind_Ok in Hrun as (y & _ & Hrun).
    injection Hrun as _ <- _. unfold predict_step in Hx. apply res_bind_Ok in Hx as (m1 & Hm1 & Hx).
    apply res_bind_Ok in Hx as (? & _ & Hx). by injection Hx as _ <-. }
  pose proof (calls_nonneg l) as Hn.
  pose proof (restore_equiv s s1' _ m Hs F Hn Hm) as He. unfold recoverHist. destruct taken.
  - pose proof (apply_branch_proper _ _ He b b eq_refl) as Hr.
    destruct (apply_branch_ok s b Hs) as (s2' & E2 & _). rewrite E2 in *.
    inversion Hr as [s2 ? H2 E2' E3|]; subst. exists s2, s2'. split; [done|]. split; [done|].
    intros rest. by apply targets_proper.
  - eexists _, _. split; [done|]. split; [done|]. intros rest. by apply targets_proper.
Qed.

(** ** Calls and returns that nest *)

(** A run in which every return belongs to a call of the run, with the address each
    return goes to and the depth of the nesting. *)
Inductive nested : list BranchInfo → list (option Z) → Z → Prop :=
  | ne_nil : nested [] [] 0
  | ne_plain b l e d :
      isCall b = false → isReturn b = false → nested l e d → nested (b :: l) (None :: e) d
  | ne_call b l1 e1 d1 r l2 e2 d2 :
      isCall b = true → isReturn b = false → isCall r = false → isReturn r = true →
      nested l1 e1 d1 → nested l2 e2 d2 →
      nested (b :: l1 ++ r :: l2) (None :: e1 ++ Some (u64 (br_pc b + br_size b)) :: e2)
        (Z.max (1 + d1) d2).

Definition predicts (e : option Z) (m : RASMeta) : Prop :=
  match e with Some a => m_target m = a | None => True end.

(** The counter is that of the top entry when the top is in flight. *)
Record linked (s : BTBRAS) : Prop := {
  lk_top e : inflightInRange s (TOSR s) = true →
    inflightStack s !! Z.to_nat (TOSR s) = Some e → ctr (data e) = sctr s;
  lk_sctr : (0 ≤ sctr s)%Z;
  lk_stack : Forall (λ e, 0 ≤ ctr e)%Z (stack s)
}.

(** The top is in flight, or not reached by the next [n] pushes. *)
Definition bottomed (s : BTBRAS) (n : Z) : Prop :=
  inflightInRange s (TOSR s) = true ∨ (used s + n ≤ off s (TOSR s))%Z.

Lemma predict_run_app l k : ∀ s,
  predict_run s (l ++ k) =
    let! x := predict_run s l in let! y := predict_run x.1 k in Ok (y.1, x.2 ++ y.2).
Proof.
  induction l as [|b l IH]; intros s; simpl.
  - by destruct (predict_run s k) as [[]|].
  - destruct (predict_step s b) as [[s1 m]|]; [|done]. cbn [res_bind fst snd]. rewrite IH.
    destruct (predict_run s1 l) as [[s2 ms]|]; [|done]. cbn [res_bind fst snd].
    by destruct (predict_run s2 k) as [[]|].
Qed.

Lemma bottomed_frame s s' n m :
  ras_wf s → frame s s' n → (0 ≤ n)%Z → TOSR s' = TOSR s → bottomed s (n + m) → bottomed s' m.
Proof.
  intros Hs Hf Hn E [Hr|Hr].
  - left. rewrite E. eapply frame_range; try done. apply Hs.
  - right. rewrite (fr_used _ _ _ Hf), E. unfold off in *. rewrite (fr_BOS _ _ _ Hf). lia.
Qed.

(** The return that matches a call. *)
Lemma pop_match s s2 a c sp n :
  ras_wf s → linked s → bottomed s (1 + n) → (0 ≤ n)%Z →
  frame s s2 (1 + n) → linked s2 → TOSR s2 = TOSW s → ssp s2 = sp →
  inflightInRange s2 (TOSW s) = true →
  inflightStack s2 !! Z.to_nat (TOSW s) = Some (mkInflight (mkEss a c) (TOSR s)) →
  (c = (sctr s + 1)%Z ∧ sp = ssp s ∨ c = 0%Z ∧ sp = ptrInc p (ssp s)) →
  ∃ s3, pop p s2 = Ok s3 ∧ frame s s3 (1 + n) ∧ TOSR s3 = TOSR s ∧ ssp s3 = ssp s ∧ linked s3.
Proof.
  intros Hs Hl Hb Hn Hf Hl2 Et Esp Hr He Hc. pose proof (fr_wf _ _ _ Hf) as Hs2.
  destruct (pop_ok s2 Hs2) as (s3 & Hpop & W3). exists s3. split; [done|].
  assert (frame s s3 (1 + n)) as F3.
  { replace (1 + n)%Z with (1 + n + 0)%Z by lia.
    eapply frame_trans; [done|exact Hf|by apply pop_frame|lia]. }
  split; [done|]. pose proof Hpop as E. unfold pop in E. rewrite Et, Hr in E.
  rewrite (proj2 (nth_res_Ok _ _ _) (conj (proj1 (wf_TOSW _ Hs)) He)) in E. cbn [res_bind nos] in E.
  assert (sctr s2 = c) as Ec.
  { symmetry. apply (lk_top _ Hl2 (mkInflight (mkEss a c) (TOSR s))); by rewrite Et. }
  assert (∀ e, inflightInRange s3 (TOSR s) = true →
    inflightStack s3 !! Z.to_nat (TOSR s) = Some e → ctr (data e) = sctr s) as Htop.
  { intros e Hin Hin3. assert (inflightInRange s (TOSR s) = true) as Hin0.
    { destruct Hb as [Hb|Hb]; [done|]. apply (in_range_iff _ _ W3 (wf_TOSR _ Hs)) in Hin.
      rewrite (fr_used _ _ _ F3) in Hin. unfold off in Hin, Hb. rewrite (fr_BOS _ _ _ F3) in Hin. lia. }
    rewrite (fr_inflight _ _ _ F3) in Hin3 by (done || apply Hs). by eapply lk_top. }
  rewrite Ec in E. pose proof (lk_sctr _ Hl) as H0. destruct Hc as [[-> Esp']|[-> Esp']].
  - rewrite (proj2 (Z.ltb_lt 0 (sctr s + 1))) in E by lia. injection E as <-.
    simpl in *. split; [done|]. split; [congruence|]. split; simpl; [|lia|apply Hl2].
    intros e H1 H2. rewrite (Htop e); [lia|done|done].
  - rewrite Z.ltb_irrefl, Esp, Esp', ptrDec_Inc in E by apply Hs. cbn [res_bind] in E.
    apply res_bind_Ok in E as (top & Ht & E). injection E as <-. simpl in *.
    split; [done|]. split; [done|]. unfold getTop in Ht. simpl in Ht. split; simpl; [| |apply Hl2].
    + intros e H1 H2. unfold inflightInRange in *. simpl in *. rewrite H1 in Ht.
      rewrite (proj2 (nth_res_Ok _ _ _) (conj (proj1 (wf_TOSR _ Hs)) H2)) in Ht. by injection Ht as <-.
    + match type of Ht with (if ?c then _ else _) = _ => destruct c eqn:Hin end.
      * apply res_bind_Ok in Ht as (e & [_ H2]%nth_res_Ok & Ht). injection Ht as <-.
        by rewrite (Htop e Hin H2).
      * apply nth_res_Ok in Ht as [_ Ht]. exact (Forall_lookup_1 _ _ _ _ (lk_stack _ Hl2) Ht).
Qed.

Lemma push_linked s s1 a c :
  linked s → TOSR s1 = TOSW s → sctr s1 = c → stack s1 = stack s → (0 ≤ c)%Z →
  inflightStack s1 !! Z.to_nat (TOSW s) = Some (mkInflight (mkEss a c) (TOSR s)) → linked s1.
Proof.
  intros Hl E1 E2 E3 Hc He. split; [|lia|rewrite E3; apply Hl].
  intros e _ H. rewrite E1, He in H. injection H as <-. by rewrite E2.
Qed.

Lemma nested_run l es d : nested l es d → ∀ s,
  ras_wf s → linked s → (used s + calls l < N)%Z → bottomed s (calls l) →
  ∃ s' ms, predict_run s l = Ok (s', ms) ∧ Forall2 predicts es ms ∧ frame s s' (calls l) ∧
    TOSR s' = TOSR s ∧ ssp s' = ssp s ∧ linked s'.
Proof.
  induction 1 as [|b l e d Hc Hr _ IH|b l1 e1 d1 r l2 e2 d2 Hc Hr Hcr Hrr H1 IH1 H2 IH2];
    intros s Hs Hl Hu Hb.
  - exists s, []. split; [done|]. split; [done|]. split; [by apply frame_refl|done].
  - cbn [predict_run]. unfold predict_step, getTop_meta, apply_branch.
    destruct (getTop_ok s Hs) as [top ->]. rewrite Hc, Hr. cbn [res_bind fst snd].
    rewrite calls_cons, Hc, Z.add_0_l in *.
    destruct (IH s Hs Hl Hu Hb) as (s' & ms & -> & Hms & Hrest). cbn [res_bind fst snd].
    eexists _, _. split; [done|]. split; [by constructor|done].
  - cbn [predict_run]. unfold predict_step at 1, getTop_meta at 1, apply_branch at 1.
    rewrite Hc, Hr. rewrite calls_cons, calls_app, calls_cons, Hc, Hcr, Z.add_0_l in *.
    pose proof (calls_nonneg l1). pose proof (calls_nonneg l2).
    destruct (push_frame s (u64 (br_pc b + br_size b)) Hs ltac:(lia))
      as (s1 & top & c & sp & Hpush & -> & F1 & T1 & R1 & S1 & P1 & E1 & Hmerge).
    cbn [res_bind]. rewrite Hpush. cbn [res_bind fst snd]. rewrite predict_run_app.
    pose proof (fr_wf _ _ _ F1) as Hs1. pose proof (lk_sctr _ Hl) as Hs0.
    assert (linked s1) as Hl1.
    { eapply push_linked; [exact Hl|done|exact S1|apply F1| |exact E1].
      destruct Hmerge as [(_ & -> & _)|[-> _]]; lia. }
    destruct (IH1 s1 Hs1 Hl1) as (s2 & ms1 & -> & Hms1 & F2 & T2 & P2 & Hl2).
    { rewrite (fr_used _ _ _ F1). lia. }
    { left. by rewrite T1. }
    cbn [res_bind fst snd predict_run].
    assert (frame s s2 (1 + calls l1)) as F12 by (eapply frame_trans; [done|exact F1|exact F2|lia]).
    assert (inflightInRange s2 (TOSW s) = true) as R2.
    { eapply frame_range; [exact Hs1|exact F2|lia|apply Hs|done]. }
    assert (inflightStack s2 !! Z.to_nat (TOSW s) = Some (mkInflight (mkEss (u64 (br_pc b + br_size b)) c) (TOSR s)))
      as E2 by (rewrite (fr_inflight _ _ _ F2); [done|apply Hs|done]).
    destruct (pop_match s s2 (u64 (br_pc b + br_size b)) c sp (calls l1) Hs Hl) as (s3 & Hpop & F3 & T3 & P3 & Hl3);
      try done; try congruence.
    { destruct Hb as [Hb|Hb]; [by left|right; lia]. }
    { destruct Hmerge as [(_ & ? & ?)|?]; [by left|by right]. }
    unfold predict_step, getTop_meta, getTop, apply_branch. rewrite Hcr, Hrr, T2, T1, R2.
    rewrite (proj2 (nth_res_Ok _ _ _) (conj (proj1 (wf_TOSW _ Hs)) E2)). cbn [res_bind fst snd data].
    rewrite Hpop. cbn [res_bind fst snd]. pose proof (fr_wf _ _ _ F3) as Hs3.
    destruct (IH2 s3 Hs3 Hl3) as (s4 & ms2 & -> & Hms2 & F4 & T4 & P4 & Hl4).
    { rewrite (fr_used _ _ _ F3). lia. }
    { eapply bottomed_frame; [exact Hs|exact F3|lia|done|].
      by replace (1 + calls l1 + calls l2)%Z with (1 + (calls l1 + calls l2))%Z by lia. }
    cbn [res_bind fst snd]. eexists _, _. split; [done|].
    split; [constructor; [done|]; apply Forall2_app; [done|]; by constructor|].
    split; [|by rewrite T4, P4]. rewrite Z.add_assoc. eapply frame_trans; [done|exact F3|exact F4|lia].
Qed.

Lemma nested_top l es d s :
  nested l es d → ras_wf s → linked s → (used s + calls l < N)%Z → bottomed s (calls l) →
  ∃ s' ms top top', predict_run s l = Ok (s', ms) ∧ Forall2 predicts es ms ∧
    getTop s = Ok top ∧ getTop s' = Ok top' ∧ retAddr top' = retAddr top.
Proof.
  intros Hn Hs Hl Hu Hb. pose proof (calls_nonneg l) as Hc.
  destruct (nested_run l es d Hn s Hs Hl Hu Hb) as (s' & ms & Hrun & Hms & F & T & P & _).
  destruct (getTop_ok s Hs) as [top Ht]. destruct (getTop_ok s' (fr_wf _ _ _ F)) as [top' Ht'].
  exists s', ms, top, top'. repeat (split; [done|]). unfold getTop in Ht, Ht'. rewrite T, P in Ht'.
  destruct (inflightInRange s (TOSR s)) eqn:Hr.
  - rewrite (frame_range s s' _ _ Hs F Hc (wf_TOSR _ Hs) Hr) in Ht'.
    unfold nth_res in Ht, Ht'. rewrite (fr_inflight _ _ _ F) in Ht' by (done || apply Hs). congruence.
  - assert (inflightInRange s' (TOSR s) = false) as Hr'.
    { destruct (inflightInRange s' (TOSR s)) eqn:E; [|done]. destruct Hb as [Hb|Hb]; [congruence|].
      apply (in_range_iff _ _ (fr_wf _ _ _ F) (wf_TOSR _ Hs)) in E. rewrite (fr_used _ _ _ F) in E.
      unfold off in E, Hb. rewrite (fr_BOS _ _ _ F) in E. lia. }
    rewrite Hr', (fr_stack _ _ _ F) in Ht'. congruence.
Qed.

Lemma new_wf : ∃ s, BTBRAS_new p = Ok s ∧ ras_wf s.
Proof.
  pose proof (rp_entries Hp). pose proof (rp_inflight Hp). unfold BTBRAS_new, inflightPtrDec.
  rewrite Z.ltb_irrefl, Z.eqb_refl. cbn [assert_ res_bind]. eexists. split; [done|].
  split; simpl; rewrite ?length_replicate; unfold slot, u32; try lia.
  - rewrite wrapu_small by (unfold in_u; lia). lia.
  - apply Forall_replicate. simpl. lia.
Qed.

(** A new predictor has an empty ring, and its top is reached by no push of a run of
    fewer calls than the ring has entries. *)
Lemma new_ready s : BTBRAS_new p = Ok s →
  linked s ∧ ∀ n, (n < N)%Z → (used s + n < N)%Z ∧ bottomed s n.
Proof.
  pose proof (rp_entries Hp). pose proof (rp_inflight Hp). unfold BTBRAS_new, inflightPtrDec.
  rewrite Z.ltb_irrefl, Z.eqb_refl. cbn [assert_ res_bind]. intros [= <-]. split.
  - split; simpl; [intros e Hr; discriminate Hr|done|]. by apply Forall_replicate.
  - intros n Hn. unfold bottomed, used, off. simpl. unfold u32.
    rewrite wrapu_small by (unfold in_u; lia). rewrite Z.sub_0_r, Z.mod_0_l, Z.mod_small by lia.
    split; [lia|]. right. lia.
Qed.

(** C30: Let calls and returns nest, every return belonging to a call of the run.  In a
    well-formed stack whose counter is that of its top ([linked]), when the calls of the
    run fit the free entries of the ring and do not overwrite an entry the top still
    needs ([bottomed]), every return is predicted with the return address of its call,
    whatever repeated or recursive calls lie between, and after the run the top of the
    stack is the same return address as before.  A newly constructed predictor meets
    these conditions for every run of fewer calls than the ring has entries. *)
Theorem ras_nested_calls l es d :
  nested l es d →
  (∀ s, ras_wf s → linked s → (used s + calls l < N)%Z → bottomed s (calls l) →
     ∃ s' ms top top', predict_run s l = Ok (s', ms) ∧ Forall2 predicts es ms ∧
       getTop s = Ok top ∧ getTop s' = Ok top' ∧ retAddr top' = retAddr top) ∧
  ((calls l < N)%Z → ∃ s0 s' ms, BTBRAS_new p = Ok s0 ∧ predict_run s0 l = Ok (s', ms) ∧
     Forall2 predicts es ms).
Proof.
  intros Hn. split; [intros s; by eapply nested_top|]. intros Hc. destruct new_wf as (s0 & E & Hs).
  destruct (new_ready s0 E) as [Hl Hr]. destruct (Hr _ Hc) as [Hu Hb].
  destruct (nested_top l es d s0 Hn Hs Hl Hu Hb) as (s' & ms & _ & _ & Hrun & Hms & _).
  by exists s0, s', ms.
Qed.

(** ** Every order of events *)

Lemma rle_push_ok st sp a :
  Z.of_nat (length st) = numEntries p → slot (numEntries p) sp →
  ∃ st' sp', rle_push p st sp a = Ok (st', sp') ∧ length st' = length st ∧ slot (numEntries p) sp'.
Proof.
  intros Hl Hsp. unfold rle_push. destruct (slot_nth _ _ _ Hl Hsp) as (e & -> & _ & Hset).
  cbn [res_bind]. destruct (_ && _).
  - rewrite Hset. cbn [res_bind]. eexists _, _. split; [done|]. by rewrite length_insert.
  - destruct (slot_nth _ _ _ Hl (ptrInc_slot sp Hsp)) as (e' & _ & _ & ->). cbn [res_bind].
    eexists _, _. split; [done|]. rewrite length_insert. split; [done|by apply ptrInc_slot].
Qed.

Lemma rle_pop_ok st sp :
  Z.of_nat (length st) = numEntries p → slot (numEntries p) sp →
  ∃ st' sp', rle_pop p st sp = Ok (st', sp') ∧ length st' = length st ∧ slot (numEntries p) sp'.
Proof.
  intros Hl Hsp. unfold rle_pop. destruct (slot_nth _ _ _ Hl Hsp) as (e & -> & _ & Hset).
  cbn [res_bind]. destruct (0 <? _)%Z.
  - rewrite Hset. cbn [res_bind]. eexists _, _. split; [done|]. by rewrite length_insert.
  - destruct (ptrDec_slot sp Hsp) as (j & -> & Hj). by eexists _, _.
Qed.

Lemma with_stack_wf s st sp :
  ras_wf s → length st = length (stack s) → slot (numEntries p) sp → ras_wf (with_stack s (st, sp)).
Proof. intros Hs E Hsp. split; simpl; try apply Hs; [done|]. rewrite E. apply Hs. Qed.

Lemma update_ok s m taken b :
  ras_wf s → meta_wf m → ∃ s', update p s m taken b = Ok s' ∧ ras_wf s'.
Proof.
  intros Hs (M1 & M2 & M3). unfold update. destruct taken; [|by exists s].
  destruct (slot_nth _ _ _ (wf_stack _ Hs) (wf_nsp _ Hs)) as (e & -> & _). cbn [res_bind].
  match goal with |- context [res_bind (if isCall b then res_bind (push_stack p ?x _) _ else _) _] => set (s1 := x) end.
  assert (ras_wf s1) as H1 by (unfold s1; destruct (_ || _); [split; simpl; try apply Hs; done|done]).
  clearbody s1. assert (∃ s2, (if isCall b then
      let! s0 := push_stack p s1 (u64 (br_pc b + br_size b)) in
      Ok (mkRAS (TOSW s0) (TOSR s0) (inflightPtrPlus1 p (m_TOSW m)) (ssp s0) (nsp s0) (sctr s0)
        (stack s0) (inflightStack s0)) else Ok s1) = Ok s2 ∧ ras_wf s2) as (s2 & -> & H2).
  { destruct (isCall b); [|by exists s1]. unfold push_stack.
    destruct (rle_push_ok (stack s1) (nsp s1) (u64 (br_pc b + br_size b)) (wf_stack _ H1) (wf_nsp _ H1))
      as (st & sp & -> & El & Hsp). cbn [res_bind].
    pose proof (with_stack_wf s1 st sp H1 El Hsp) as W. eexists. split; [done|].
    split; simpl; try apply W. apply inflightPtrInc_slot. }
  cbn [res_bind]. destruct (isReturn b); [|by exists s2]. unfold pop_stack.
  destruct (rle_pop_ok (stack s2) (nsp s2) (wf_stack _ H2) (wf_nsp _ H2)) as (st & sp & -> & El & Hsp).
  cbn [res_bind]. eexists. split; [done|]. by apply with_stack_wf.
Qed.

(** A prediction of a block, a squash back to block [i], the commit of block [i];
    the data saved with the blocks is kept in order. *)
Inductive event :=
  | EPredict (b : BranchInfo)
  | ERecover (i : nat) (taken : bool) (b : BranchInfo)
  | ECommit (i : nat) (taken : bool) (b : BranchInfo).

Definition event_step (x : BTBRAS * list RASMeta) (ev : event) : res (BTBRAS * list RASMeta) :=
  let '(s, ms) := x in
  match ev with
  | EPredict b => let! y := predict_step s b in Ok (y.1, ms ++ [y.2])
  | ERecover i taken b =>
      match ms !! i with
      | Some m => let! s := recoverHist p s m taken b in Ok (s, ms)
      | None => Ok x
      end
  | ECommit i taken b =>
      match ms !! i with
      | Some m => let! s := update p s m taken b in Ok (s, ms)
      | None => Ok x
      end
  end.

Lemma recover_wf s m taken b :
  ras_wf s → meta_wf m → ∃ s', recoverHist p s m taken b = Ok s' ∧ ras_wf s'.
Proof.
  intros W (M1 & M2 & M3). unfold recoverHist.
  assert (ras_wf (restore s m)) as W1 by (split; simpl; try apply W; done).
  destruct taken; [by apply apply_branch_ok|by eexists].
Qed.

(** C39: Whatever the order of predictions, squashes to any earlier block and commits
    of any block, the return address stack never reads or writes outside its two
    vectors and never fails an assertion: all pointers stay within the vectors. *)
Theorem ras_never_fails :
  ∃ s0, BTBRAS_new p = Ok s0 ∧
    ∀ evs, ∃ s ms, res_fold event_step (s0, []) evs = Ok (s, ms) ∧ ras_wf s.
Proof.
  destruct new_wf as (s0 & H0 & W0). exists s0. split; [done|]. intros evs.
  destruct (res_fold_inv event_step (λ x, ras_wf x.1 ∧ Forall meta_wf x.2) evs (s0, []))
    as ([s ms] & H & W & _); [by split| |by exists s, ms].
  intros [s ms] [b|i taken b|i taken b] _ [W Hms]; simpl in W, Hms; cbn [event_step].
  - unfold predict_step, getTop_meta. destruct (getTop_ok s W) as [e ->]. cbn [res_bind].
    destruct (apply_branch_ok s b W) as (s1 & -> & W1). cbn [res_bind fst snd].
    eexists. split; [done|]. split; [done|]. apply Forall_app. split; [done|].
    constructor; [|done]. split; [apply W|split; apply W].
  - destruct (ms !! i) as [m|] eqn:Hm; [|by eexists].
    destruct (recover_wf s m taken b W (Forall_lookup_1 _ _ _ _ Hms Hm)) as (s1 & -> & W1). by eexists.
  - destruct (ms !! i) as [m|] eqn:Hm; [|by eexists].
    destruct (update_ok s m taken b W (Forall_lookup_1 _ _ _ _ Hms Hm)) as (s1 & -> & W1). by eexists.
Qed.

(** ** A stack with counters *)

Record rle_wf (st : list RASEssential) (sp : Z) : Prop := {
  rw_len : Z.of_nat (length st) = numEntries p;
  rw_sp : slot (numEntries p) sp;
  rw_ctr : Forall (λ e, in_u 32 (ctr e)) st
}.

(** Only the [d] places above [sp] differ. *)
Definition rle_frame (sp d : Z) (st st' : list RASEssential) : Prop :=
  ∀ i, slot (numEntries p) i → (d ≤ (i - sp - 1) `mod` numEntries p)%Z →
    st' !! Z.to_nat i = st !! Z.to_nat i.

Lemma mod_step i sp : slot (numEntries p) i → slot (numEntries p) sp →
  ((i - ptrInc p sp - 1) `mod` numEntries p =
   if decide (i = ptrInc p sp) then numEntries p - 1 else (i - sp - 1) `mod` numEntries p - 1)%Z.
Proof.
  intros Hi Hsp. rewrite (ptrInc_val sp Hsp). pose proof (rp_entries Hp) as [Hn _].
  set (n := numEntries p) in *. destruct Hi as [Hi0 Hi1], Hsp as [Hs0 Hs1].
  assert ((i - (sp + 1) `mod` n - 1) `mod` n = (i - sp - 1 - 1) `mod` n)%Z as ->.
  { rewrite <- Zminus_mod_idemp_l, Zminus_mod_idemp_r, Zminus_mod_idemp_l. f_equal. lia. }
  assert ((i - sp - 1) `mod` n = if (sp + 1 <=? i)%Z then i - sp - 1 else i - sp - 1 + n)%Z as E.
  { destruct (Z.leb_spec (sp + 1) i); [apply Z.mod_small; lia|].
    rewrite <- (Z.mod_add (i - sp - 1) 1 n), Z.mul_1_l by lia. apply Z.mod_small. lia. }
  assert ((sp + 1) `mod` n = if (sp + 1 =? n)%Z then 0 else sp + 1)%Z as E2.
  { destruct (Z.eqb_spec (sp + 1) n) as [->|]; [apply Z.mod_same; lia|apply Z.mod_small; lia]. }
  rewrite E2. case_decide as Hd.
  - revert Hd. destruct (Z.eqb_spec (sp + 1) n); intros Hd.
    + rewrite <- (Z.mod_add _ 2 n) by lia. rewrite Z.mod_small; lia.
    + rewrite <- (Z.mod_add _ 1 n), Z.mul_1_l by lia. rewrite Z.mod_small; lia.
  - rewrite E. revert Hd. destruct (Z.leb_spec (sp + 1) i), (Z.eqb_spec (sp + 1) n); intros Hd; try lia.
    + rewrite Z.mod_small; lia.
    + rewrite <- (Z.mod_add _ 1 n), Z.mul_1_l by lia. rewrite Z.mod_small; lia.
    + rewrite <- (Z.mod_add _ 1 n), Z.mul_1_l by lia. rewrite Z.mod_small; lia.
Qed.

(** The committed stack, and that of [BTBuRAS], along a run. *)
Fixpoint u_run (s : BTBuRAS) (l : list BranchInfo) : res (BTBuRAS * list Z) :=
  match l with
  | [] => Ok (s, [])
  | b :: rest =>
      let! x := u_specUpdateHist p s b in
      let! y := u_run x.1 rest in
      Ok (y.1, x.2 :: y.2)
  end.

Lemma u_run_app l k : ∀ s,
  u_run s (l ++ k) = let! x := u_run s l in let! y := u_run x.1 k in Ok (y.1, x.2 ++ y.2).
Proof.
  induction l as [|b l IH]; intros s; simpl.
  - by destruct (u_run s k) as [[]|].
  - destruct (u_specUpdateHist p s b) as [[s1 m]|]; [|done]. cbn [res_bind fst snd]. rewrite IH.
    destruct (u_run s1 l) as [[s2 ms]|]; [|done]. cbn [res_bind fst snd].
    by destruct (u_run s2 k) as [[]|].
Qed.

Definition expects (e : option Z) (a : Z) : Prop := match e with Some b => a = b | None => True end.

(** The state of a run that only moved the speculative stack. *)
Definition spec_state (s : BTBuRAS) (st : list RASEssential) (sp : Z) : BTBuRAS :=
  mkURAS sp (nonSpecSp s) st (nonSpecStack s).

Lemma mod_self sp d : slot (numEntries p) sp → (d < numEntries p)%Z →
  (d ≤ (sp - sp - 1) `mod` numEntries p)%Z.
Proof.
  intros Hsp Hd. replace (sp - sp - 1)%Z with (-1)%Z by lia. pose proof (rp_entries Hp).
  rewrite <- (Z.mod_add _ 1), Z.mul_1_l by lia. rewrite Z.mod_small; lia.
Qed.

(** A call merges with the top entry or takes the next one. *)
Definition pushed (st : list RASEssential) (sp a : Z) (st1 : list RASEssential) (sp1 : Z) : Prop :=
  (∃ tos, st !! Z.to_nat sp = Some tos ∧ sp1 = sp ∧ retAddr tos = a ∧
     st1 = <[Z.to_nat sp := mkEss a (ctr tos + 1)]> st) ∨
  (sp1 = ptrInc p sp ∧ st1 = <[Z.to_nat sp1 := mkEss a 0]> st).

Lemma rle_push_case st sp a :
  rle_wf st sp → ∃ st1 sp1, rle_push p st sp a = Ok (st1, sp1) ∧ rle_wf st1 sp1 ∧
    pushed st sp a st1 sp1.
Proof.
  intros Hw. pose proof (rw_sp _ _ Hw) as Hsp. pose proof (rw_len _ _ Hw) as Hlen.
  destruct (slot_nth _ _ _ Hlen Hsp) as (tos & Htos & Htos' & Hset).
  pose proof (Forall_lookup_1 _ _ _ _ (rw_ctr _ _ Hw) Htos') as [C0 C1].
  unfold rle_push. rewrite Htos. cbn [res_bind].
  destruct ((retAddr tos =? a)%Z && (ctr tos <? u32 (maxCtr p))%Z) eqn:E.
  - apply andb_true_iff in E as [Ea%Z.eqb_eq Hlt%Z.ltb_lt].
    pose proof (wrapu_range 32 (maxCtr p) ltac:(lia)) as [M0 M1]. unfold u32 in Hlt.
    rewrite Hset. cbn [res_bind]. unfold u32. rewrite wrapu_small by (unfold in_u; lia).
    eexists _, _. split; [by rewrite Ea|]. split; [|left; by exists tos].
    split; rewrite ?length_insert; try done. apply Forall_insert; [apply Hw|]. split; simpl; lia.
  - destruct (slot_nth _ _ _ Hlen (ptrInc_slot sp Hsp)) as (? & _ & _ & ->). cbn [res_bind].
    eexists _, _. split; [done|]. split; [|by right].
    split; rewrite ?length_insert; [done|by apply ptrInc_slot|]. apply Forall_insert; [apply Hw|done].
Qed.

(** The return that matches the call undoes it. *)
Lemma rle_match st sp a st1 sp1 st2 d :
  rle_wf st sp → pushed st sp a st1 sp1 → rle_wf st1 sp1 → rle_wf st2 sp1 →
  rle_frame sp1 d st1 st2 → (0 ≤ d)%Z → (1 + d < numEntries p)%Z →
  ∃ e st3, nth_res st2 sp1 = Ok e ∧ retAddr e = a ∧ rle_pop p st2 sp1 = Ok (st3, sp) ∧
    rle_wf st3 sp ∧ rle_frame sp (1 + d) st st3.
Proof.
  intros Hw Hpush Hw1 Hw2 Hf Hd0 Hd. pose proof (rw_sp _ _ Hw) as Hsp. pose proof (rw_sp _ _ Hw1) as Hsp1.
  pose proof (Hf sp1 Hsp1 (mod_self sp1 d Hsp1 ltac:(lia))) as Htop.
  destruct (slot_nth _ _ _ (rw_len _ _ Hw2) Hsp1) as (e & He & He' & Hset).
  exists e. unfold rle_pop. rewrite He. cbn [res_bind]. rewrite He' in Htop.
  destruct Hpush as [(tos & Htos & -> & Ea & ->)|[-> ->]].
  - rewrite list_lookup_insert_eq in Htop by (by eapply lookup_lt_Some). injection Htop as ->.
    pose proof (Forall_lookup_1 _ _ _ _ (rw_ctr _ _ Hw) Htos) as [C0 C1]. simpl.
    rewrite (proj2 (Z.ltb_lt 0 _)) by lia. rewrite Hset. cbn [res_bind].
    eexists. split; [done|]. split; [done|]. split; [done|]. split.
    + split; rewrite ?length_insert; [apply Hw2|done|]. apply Forall_insert; [apply Hw2|]. split; simpl; lia.
    + intros i Hi Hle. destruct (decide (Z.to_nat sp = Z.to_nat i)) as [E|E].
      * rewrite <- E, list_lookup_insert_eq, Htos by (by eapply lookup_lt_Some). f_equal.
        replace (ctr tos + 1 - 1)%Z with (ctr tos) by lia. subst a. by destruct tos.
      * rewrite list_lookup_insert_ne by done. rewrite Hf by (done || lia).
        by rewrite list_lookup_insert_ne.
  - assert (Z.to_nat (ptrInc p sp) < length st) as Hlt.
    { pose proof (rw_len _ _ Hw). destruct Hsp1. lia. }
    rewrite list_lookup_insert_eq in Htop by done. injection Htop as ->. simpl.
    rewrite ptrDec_Inc by done. cbn [res_bind]. eexists. split; [done|].
    split; [done|]. split; [done|]. split; [split; try apply Hw2; done|].
    intros i Hi Hle. pose proof (mod_step i sp Hi Hsp) as Hm. case_decide as E.
    + subst i. rewrite (ptrInc_val sp Hsp) in Hle.
      assert (((sp + 1) `mod` numEntries p - sp - 1) `mod` numEntries p = 0)%Z as E0.
      { rewrite <- Z.sub_add_distr, Zminus_mod_idemp_l, Z.sub_diag. by apply Z.mod_0_l; pose proof (rp_entries Hp); lia. }
      lia.
    + rewrite Hf by (done || lia). apply list_lookup_insert_ne. destruct Hi, Hsp1. lia.
Qed.

Lemma nested_depth l es d : nested l es d → (0 ≤ d)%Z.
Proof. induction 1; lia. Qed.

Lemma u_spec_call s st sp b st1 sp1 :
  isCall b = true → isReturn b = false → rle_wf st sp →
  rle_push p st sp (u64 (br_pc b + br_size b)) = Ok (st1, sp1) →
  ∃ t, u_specUpdateHist p (spec_state s st sp) b = Ok (spec_state s st1 sp1, t).
Proof.
  intros Hc Hr Hw Hpush. unfold u_specUpdateHist. simpl. rewrite Hc, Hr, Hpush.
  destruct (slot_nth _ _ _ (rw_len _ _ Hw) (rw_sp _ _ Hw)) as (tos & -> & _). by eexists.
Qed.

Lemma u_spec_return s st sp b e st1 sp1 :
  isCall b = false → isReturn b = true → nth_res st sp = Ok e → rle_pop p st sp = Ok (st1, sp1) →
  u_specUpdateHist p (spec_state s st sp) b = Ok (spec_state s st1 sp1, retAddr e).
Proof. intros Hc Hr He Hpop. unfold u_specUpdateHist. simpl. rewrite Hc, Hr, He. simpl. by rewrite Hpop. Qed.

Lemma rle_frame_trans sp d1 d2 st st' st'' :
  rle_frame sp d1 st st' → rle_frame sp d2 st' st'' → rle_frame sp (Z.max d1 d2) st st''.
Proof. intros H1 H2 i Hi Hd. rewrite H2, H1; try done; lia. Qed.

Lemma u_nested l es d : nested l es d → ∀ s st sp,
  rle_wf st sp → (d < numEntries p)%Z →
  ∃ st' ts, u_run (spec_state s st sp) l = Ok (spec_state s st' sp, ts) ∧ Forall2 expects es ts ∧
    rle_wf st' sp ∧ rle_frame sp d st st'.
Proof.
  induction 1 as [|b l e d Hc Hr _ IH|b l1 e1 d1 r l2 e2 d2 Hc Hr Hcr Hrr H1 IH1 H2 IH2];
    intros s st sp Hw Hd.
  - exists st, []. split; [done|]. split; [done|]. split; [done|]. by intros i _ _.
  - cbn [u_run]. unfold u_specUpdateHist. rewrite Hc, Hr. simpl.
    destruct (slot_nth _ _ _ (rw_len _ _ Hw) (rw_sp _ _ Hw)) as (e0 & -> & _). cbn [res_bind fst snd].
    destruct (IH s st sp Hw Hd) as (st' & ts & Hrun & Hts & Hrest). unfold spec_state in *.
    simpl. rewrite Hrun. cbn [res_bind fst snd]. eexists _, _. split; [done|]. split; [by constructor|done].
  - destruct (rle_push_case st sp (u64 (br_pc b + br_size b)) Hw) as (st1 & sp1 & Hpush & Hw1 & Hcase).
    destruct (u_spec_call s st sp b st1 sp1 Hc Hr Hw Hpush) as [t Hcall].
    cbn [u_run]. rewrite Hcall. cbn [res_bind fst snd]. rewrite u_run_app.
    destruct (IH1 s st1 sp1 Hw1 ltac:(lia)) as (st2 & ts1 & -> & Hts1 & Hw2 & Hf2).
    destruct (rle_match st sp _ st1 sp1 st2 d1 Hw Hcase Hw1 Hw2 Hf2 (nested_depth _ _ _ H1) ltac:(lia))
      as (e & st3 & He & Ea & Hpop & Hw3 & Hf3).
    cbn [res_bind fst snd u_run].
    rewrite (u_spec_return s st2 sp1 r e st3 sp Hcr Hrr He Hpop). cbn [res_bind fst snd].
    destruct (IH2 s st3 sp Hw3 ltac:(lia)) as (st4 & ts2 & -> & Hts2 & Hw4 & Hf4).
    cbn [res_bind fst snd]. eexists _, _. split; [done|].
    split; [constructor; [done|]; apply Forall2_app; [done|]; by constructor|].
    split; [done|]. by eapply rle_frame_trans.
Qed.

(** C40: The counting stack that [BTBuRAS] speculates on: from a well-formed stack (its
    pointer and counters in range) every return of a run of calls and returns that nest
    less deep than the stack has entries is predicted with the return address of its
    call, even where repeated calls share an entry, and the run gives back the pointer
    and the entry at the top and leaves the committed stack alone. *)
Theorem uras_nested_calls l es d s :
  nested l es d → (d < numEntries p)%Z → rle_wf (specStack s) (specSp s) →
  ∃ s' ts, u_run s l = Ok (s', ts) ∧ Forall2 expects es ts ∧ specSp s' = specSp s ∧
    specStack s' !! Z.to_nat (specSp s) = specStack s !! Z.to_nat (specSp s) ∧
    nonSpecStack s' = nonSpecStack s.
Proof.
  intros Hn Hd Hw. destruct (u_nested l es d Hn s (specStack s) (specSp s) Hw Hd)
    as (st' & ts & Hrun & Hts & Hw' & Hf).
  assert (spec_state s (specStack s) (specSp s) = s) as E by (by destruct s). rewrite E in Hrun.
  exists (spec_state s st' (specSp s)), ts. repeat (split; [done|]). split; [|done].
  apply Hf; [apply Hw|]. by apply mod_self; [apply Hw|].
Qed.

End WithParams.
End RasProps.
