(* ===== verification/RasExamples.v ===== *)
(** The return address stacks on concrete calls. *)
From S2P Require Import Prelude BpCommon Ras RasProps.
Import BpCommon Ras RasProps.

Module RasExamples.

Definition pp : RasParams := {| numEntries := 8; ctrWidth := 3; numInflightEntries := 8 |}.

Definition call (pc : Z) : BranchInfo := mkBranch pc 4096 false false false true true false 4.
Definition ret (pc : Z) : BranchInfo := mkBranch pc 0 false false true false false true 4.
Definition jump (pc : Z) : BranchInfo := mkBranch pc 4096 false false false true false false 4.

Lemma pp_ok : ras_params_ok pp.
Proof. split; vm_compute; split; (reflexivity || discriminate). Qed.

Definition empty : BTBRAS :=
  match BTBRAS_new pp with Ok s => s | Panic _ => mkRAS 0 0 0 0 0 0 [] [] end.

Lemma empty_wf : ras_wf pp empty.
Proof.
  destruct (new_wf pp pp_ok) as (s & Hs & W).
  assert (empty = match BTBRAS_new pp with Ok s => s | Panic _ => empty end) as E by reflexivity.
  rewrite Hs in E. by rewrite E.
Qed.

Lemma empty_linked : linked empty.
Proof. split; [intros e Hr; discriminate Hr|done|]. by repeat constructor. Qed.

(** A call, a recursive call with a call and a return inside, and the returns. *)
Definition trip : list BranchInfo := [call 100; call 100; jump 8; call 200; ret 12; ret 16; ret 20].
Definition trip_targets : list (option Z) :=
  [None; None; None; None; Some 204; Some 104; Some 104]%Z.

Lemma trip_nested : nested trip trip_targets 3.
Proof.
  apply (ne_call (call 100) [call 100; jump 8; call 200; ret 12; ret 16]
    [None; None; None; Some 204%Z; Some 104%Z] 2 (ret 20) [] [] 0); try done; [|apply ne_nil].
  apply (ne_call (call 100) [jump 8; call 200; ret 12] [None; None; Some 204%Z] 1 (ret 16) [] [] 0);
    try done; [|apply ne_nil].
  apply ne_plain; try done.
  apply (ne_call (call 200) [] [] 0 (ret 12) [] [] 0); try done; apply ne_nil.
Qed.

Lemma ras_nested_calls_witness :
  (∃ s' ms top top', predict_run pp empty trip = Ok (s', ms) ∧ Forall2 predicts trip_targets ms ∧
    getTop empty = Ok top ∧ getTop s' = Ok top' ∧ retAddr top' = retAddr top) ∧
  ∃ s0 s' ms, BTBRAS_new pp = Ok s0 ∧ predict_run pp s0 trip = Ok (s', ms) ∧
    Forall2 predicts trip_targets ms.
Proof.
  destruct (ras_nested_calls pp pp_ok trip trip_targets 3 trip_nested) as [Hany Hnew].
  split; [apply Hany|apply Hnew].
  - apply empty_wf.
  - apply empty_linked.
  - vm_compute. reflexivity.
  - right. vm_compute. discriminate.
  - vm_compute. reflexivity.
Defined.

(** Speculation past [call 100] on a wrong path, then back. *)
Definition wrong_path : list BranchInfo := [ret 300; call 400; ret 500; ret 600].
Definition saved : BTBRAS * list RASMeta :=
  match predict_run pp empty [call 100; call 200] with Ok x => x | Panic _ => (empty, []) end.

Definition past : BTBRAS * list RASMeta :=
  match predict_run pp saved.1 wrong_path with Ok x => x | Panic _ => (empty, []) end.

Lemma saved_wf : ras_wf pp saved.1.
Proof.
  destruct (run_frame pp pp_ok [call 100; call 200] empty empty_wf ltac:(vm_compute; reflexivity))
    as (s & ms & Hs & F).
  assert (saved = match predict_run pp empty [call 100; call 200] with Ok x => x | Panic _ => saved end)
    as E by reflexivity.
  rewrite Hs in E. rewrite E. apply F.
Qed.

Definition meta0 : RASMeta := mkMeta 2 0 1 2 204.

Lemma ras_recover_exact_witness :
  ∃ s2 s2', recoverHist pp past.1 meta0 true (ret 300) = Ok s2 ∧
    apply_branch pp saved.1 (ret 300) = Ok s2' ∧
    targets pp s2 [ret 304; ret 308] = targets pp s2' [ret 304; ret 308] ∧
    targets pp s2' [ret 304] = Ok [104%Z].
Proof.
  destruct (ras_recover_exact pp pp_ok saved.1 wrong_path past.1 meta0 (tail past.2) true (ret 300))
    as (s2 & s2' & H1 & H2 & H3).
  - apply saved_wf.
  - vm_compute. reflexivity.
  - reflexivity.
  - exists s2, s2'. split; [exact H1|]. split; [exact H2|]. split; [apply H3|].
    assert (s2' = match apply_branch pp saved.1 (ret 300) with Ok x => x | Panic _ => s2' end) as E
      by (by rewrite H2).
    rewrite E. reflexivity.
Defined.

Lemma ras_never_fails_witness :
  ∃ s0, BTBRAS_new pp = Ok s0 ∧ ∃ s ms, res_fold (event_step pp) (s0, [])
    [EPredict (call 100); EPredict (ret 8); ECommit 0 true (call 100); ERecover 1 true (call 200)] =
    Ok (s, ms) ∧ ras_wf pp s.
Proof.
  destruct (ras_never_fails pp pp_ok) as (s0 & H0 & H). exists s0. split; [done|]. apply H.
Defined.

Lemma uras_nested_calls_witness :
  ∃ s' ts, u_run pp (BTBuRAS_new pp) trip = Ok (s', ts) ∧ Forall2 expects trip_targets ts ∧
    specSp s' = 0%Z.
Proof.
  destruct (uras_nested_calls pp pp_ok trip trip_targets 3 (BTBuRAS_new pp)) as (s' & ts & H1 & H2 & H3 & _).
  - apply trip_nested.
  - vm_compute. reflexivity.
  - split; [reflexivity|vm_compute; split; (reflexivity || discriminate)|].
    apply Forall_replicate. vm_compute. split; (reflexivity || discriminate).
  - exists s', ts. exact (conj H1 (conj H2 H3)).
Defined.

(** ** Where the stack forgets *)

(** Two recursive calls, predicted and committed. *)
Definition committed2 : BTBRAS :=
  match res_fold (event_step pp) (empty, [])
    [EPredict (call 100); EPredict (call 100); ECommit 0 true (call 100); ECommit 1 true (call 100)] with
  | Ok x => x.1
  | Panic _ => empty
  end.

(** The counter of repeated calls is lost when a call and its return follow a
    return from a committed frame: with two committed calls from the same place, the
    third of three returns is predicted to leave the bottom of the stack, but after a
    first return, a call and its own return the stack predicts the repeated address
    once more than there are frames. *)
Theorem ras_counter_restored_too_high :
  targets pp committed2 [ret 8; ret 12; ret 16] = Ok [104; 104; 0x80000000]%Z ∧
  targets pp committed2 [ret 8; call 200; ret 204; ret 12; ret 16] = Ok [104; 104; 204; 104; 104]%Z.
Proof. split; vm_compute; reflexivity. Qed.

(** An instruction that is both a return and a call leaves the stack as it was:
    the new return address is pushed before the pop, so the pop removes it. *)
Theorem ras_call_return_swapped :
  let swap := mkBranch 300 0 false false true false true true 4 in
  targets pp empty [call 100; swap; ret 8] = Ok [0x80000000; 104; 104]%Z.
Proof. vm_compute. reflexivity. Qed.

End RasExamples.
