(* ===== verification/Ftq.v ===== *)
(** The fetch target queue.

    Models [src/GEM5/src/cpu/pred/btb/ftq.hh] and [ftq.cc] (class [FetchTargetQueue]):
    one queue of fetch targets per thread, between the branch predictor, which
    inserts, and fetch, which takes the targets thread by thread in round robin.
    Target ids are 64-bit; the id of a target is the base id of its queue plus its
    position. *)
From S2P Require Import Prelude BpCommon.
Import BpCommon.

Module Ftq.

Definition MaxThreads : nat := 4.

Record Queue (T : Type) := mkQueue { cap : list T; baseTargetId : Z; fetchptr : Z }.
#[global] Arguments mkQueue {T} _ _ _.
#[global] Arguments cap {T} _.
#[global] Arguments baseTargetId {T} _.
#[global] Arguments fetchptr {T} _.

Record FTQ (T : Type) := mkFTQ {
  numThreads : Z;
  ftqSize : list Z;
  queue : list (Queue T);
  roundRobinPtr : Z
}.
#[global] Arguments mkFTQ {T} _ _ _ _.
#[global] Arguments numThreads {T} _.
#[global] Arguments ftqSize {T} _.
#[global] Arguments queue {T} _.
#[global] Arguments roundRobinPtr {T} _.

Section Ops.

Context {B M : Type}.
Abbreviation Target := (FetchTarget B M).

(** The sizes of threads the queue was not built for are never written. *)
Definition FTQ_new (n size : Z) : res (FTQ Target) :=
  do! assert_ (n <=? Z.of_nat MaxThreads)%Z "numThreads <= MaxThreads" in
  Ok (mkFTQ n
        (replicate (Z.to_nat n) size ++ replicate (MaxThreads - Z.to_nat n) 0%Z)
        (replicate MaxThreads (mkQueue [] 1 1)) 0).

(** ** One queue *)

Definition q_size (q : Queue Target) : Z := Z.of_nat (length (cap q)).
Definition q_empty (q : Queue Target) : bool := match cap q with [] => true | _ => false end.
Definition q_backId (q : Queue Target) : Z := u64 (u64 (baseTargetId q + q_size q) - 1).
Definition q_hasTarget (q : Queue Target) (id : Z) : bool :=
  (baseTargetId q <=? id)%Z && (id <? u64 (baseTargetId q + q_size q))%Z.
Definition q_get (q : Queue Target) (id : Z) : res Target :=
  do! assert_ (q_hasTarget q id) "targetId in queue" in
  nth_res (cap q) (id - baseTargetId q).

(** Writes through the reference [get] returns. *)
Definition q_put (q : Queue Target) (id : Z) (t : Target) : res (Queue Target) :=
  let! l := set_nth (cap q) (id - baseTargetId q) t in
  Ok (mkQueue l (baseTargetId q) (fetchptr q)).

(** [while (!empty(tid) && backId(tid) > squashId) cap.pop_back();] *)
Fixpoint squash_loop (fuel : nat) (q : Queue Target) (squashId : Z) : res (Queue Target) :=
  if negb (q_empty q) && (squashId <? q_backId q)%Z then
    match fuel with
    | O => Panic "squashAfter does not terminate"
    | S fuel =>
        squash_loop fuel (mkQueue (removelast (cap q)) (baseTargetId q) (fetchptr q)) squashId
    end
  else Ok q.

Definition q_squashAfter (q : Queue Target) (squashId : Z) : res (Queue Target) :=
  let! q := squash_loop (length (cap q)) q squashId in
  Ok (mkQueue (cap q) (baseTargetId q) (u64 (squashId + 1))).

(** ** The queues of the threads *)

Definition q_of (f : FTQ Target) (tid : Z) : res (Queue Target) := nth_res (queue f) tid.
Definition with_q (f : FTQ Target) (tid : Z) (q : Queue Target) : res (FTQ Target) :=
  let! l := set_nth (queue f) tid q in
  Ok (mkFTQ (numThreads f) (ftqSize f) l (roundRobinPtr f)).

Definition frontId (f : FTQ Target) (tid : Z) : res Z :=
  let! q := q_of f tid in Ok (baseTargetId q).
Definition backId (f : FTQ Target) (tid : Z) : res Z :=
  let! q := q_of f tid in Ok (q_backId q).
Definition fetchId (f : FTQ Target) (tid : Z) : res Z :=
  let! q := q_of f tid in Ok (fetchptr q).
Definition front (f : FTQ Target) (tid : Z) : res Target :=
  let! q := q_of f tid in get_at (hd_error (cap q)) "front of an empty deque".
Definition get (f : FTQ Target) (id tid : Z) : res Target :=
  let! q := q_of f tid in q_get q id.
Definition fetching (f : FTQ Target) (tid : Z) : res Target :=
  let! q := q_of f tid in q_get q (fetchptr q).
Definition hasTarget (f : FTQ Target) (id tid : Z) : res bool :=
  let! q := q_of f tid in Ok (q_hasTarget q id).
Definition empty (f : FTQ Target) (tid : Z) : res bool :=
  let! q := q_of f tid in Ok (q_empty q).
Definition full (f : FTQ Target) (tid : Z) : res bool :=
  let! q := q_of f tid in
  let! n := nth_res (ftqSize f) tid in
  Ok (n <=? q_size q)%Z.

(** [anyEmpty] is true when every queue is empty. *)
Definition anyEmpty (f : FTQ Target) : bool :=
  forallb q_empty (take (Z.to_nat (numThreads f)) (queue f)).
Definition allFull (f : FTQ Target) : bool :=
  forallb (λ x, (x.1 <=? q_size x.2)%Z)
    (take (Z.to_nat (numThreads f)) (combine (ftqSize f) (queue f))).

Definition fetchable (q : Queue Target) : bool :=
  negb (q_empty q) && q_hasTarget q (fetchptr q).

(** The loop of [getTargetTid] over the values of [i]: the thread of the target and
    the new round-robin pointer; [-1] when no thread has a target. *)
Fixpoint tid_loop (f : FTQ Target) (l : list Z) : res (Z * FTQ Target) :=
  match l with
  | [] => Ok ((-1)%Z, f)
  | i :: rest =>
      let tid := (i `mod` numThreads f)%Z in
      let! q := q_of f tid in
      if fetchable q then
        let! t := q_get q (fetchptr q) in
        Ok (ft_tid t,
            mkFTQ (numThreads f) (ftqSize f) (queue f) ((tid + 1) `mod` numThreads f))
      else tid_loop f rest
  end.

Definition getTargetTid (f : FTQ Target) : res (Z * FTQ Target) :=
  tid_loop f (seqZ (roundRobinPtr f) (numThreads f)).

Definition insert (f : FTQ Target) (t : Target) : res (FTQ Target) :=
  let! q := q_of f (ft_tid t) in
  let! n := nth_res (ftqSize f) (ft_tid t) in
  do! assert_ (q_size q <? n)%Z "cap.size() < ftqSize" in
  with_q f (ft_tid t) (mkQueue (cap q ++ [t]) (baseTargetId q) (fetchptr q)).

Definition finishTarget (f : FTQ Target) (tid : Z) : res (FTQ Target) :=
  let! q := q_of f tid in
  with_q f tid (mkQueue (cap q) (baseTargetId q) (u64 (fetchptr q + 1))).

Definition commitTarget (f : FTQ Target) (tid : Z) : res (FTQ Target) :=
  let! q := q_of f tid in
  match cap q with
  | [] => ub
  | _ :: rest => with_q f tid (mkQueue rest (u64 (baseTargetId q + 1)) (fetchptr q))
  end.

Definition squashAfter (f : FTQ Target) (id tid : Z) : res (FTQ Target) :=
  let! q := q_of f tid in
  let! q := q_squashAfter q id in
  with_q f tid q.

(** ** Squashes end *)

(** The ids of a queue do not wrap around. *)
Definition q_ok (q : Queue Target) : Prop :=
  (1 ≤ baseTargetId q)%Z ∧ (baseTargetId q + q_size q < 2 ^ 64)%Z.

Lemma q_backId_val q : q_ok q → q_backId q = (baseTargetId q + q_size q - 1)%Z.
Proof.
  intros [H1 H2]. unfold q_backId, q_size in *. rewrite (u64_small (_ + _)) by (split; lia).
  rewrite u64_small; [done|split; lia].
Qed.

Lemma q_hasTarget_iff q id :
  q_ok q → q_hasTarget q id = true ↔ (baseTargetId q ≤ id < baseTargetId q + q_size q)%Z.
Proof.
  intros [H1 H2]. unfold q_hasTarget, q_size in *. rewrite u64_small by (split; lia).
  rewrite andb_true_iff, Z.leb_le, Z.ltb_lt. done.
Qed.

Lemma q_squash_loop_spec q id fuel :
  q_ok q → (length (cap q) ≤ fuel)%nat →
  squash_loop fuel q id =
    Ok (mkQueue (take (Z.to_nat (id - baseTargetId q + 1)) (cap q)) (baseTargetId q) (fetchptr q)).
Proof.
  destruct q as [l b fp]. revert l fuel. induction l as [|t l IH] using rev_ind; intros fuel Hq Hl.
  - destruct fuel; simpl; by rewrite take_nil.
  - simpl in Hl. rewrite length_app in Hl. simpl in Hl. destruct fuel as [|fuel]; [lia|].
    pose proof (q_backId_val _ Hq) as Hb. destruct Hq as [Hq1 Hq2]. cbn [squash_loop].
    replace (q_empty (mkQueue (l ++ [t]) b fp)) with false by (by destruct l).
    rewrite Hb. unfold q_size in *. cbn [cap baseTargetId fetchptr negb andb] in *.
    rewrite removelast_last. rewrite length_app in *. simpl in Hq2.
    destruct (Z.ltb_spec id (b + Z.of_nat (length l + length [t]) - 1)) as [Hlt|Hge]; simpl in *.
    + rewrite IH; [|split; unfold q_size; simpl; lia|lia]. simpl.
      rewrite take_app_le by lia. done.
    + rewrite take_ge; [done|]. rewrite length_app. simpl. lia.
Qed.

Lemma q_squashAfter_spec q id :
  q_ok q →
  q_squashAfter q id =
    Ok (mkQueue (take (Z.to_nat (id - baseTargetId q + 1)) (cap q)) (baseTargetId q)
          (u64 (id + 1))).
Proof. intros Hq. unfold q_squashAfter. by rewrite q_squash_loop_spec. Qed.

(** ** Fairness of the round robin *)

Record ftq_ok (n : Z) (f : FTQ Target) : Prop := {
  fo_threads : numThreads f = n;
  fo_rr : (0 ≤ roundRobinPtr f < n)%Z;
  fo_queues : (n ≤ Z.of_nat (length (queue f)))%Z;
  fo_qok : Forall q_ok (queue f);
  fo_tid t q : queue f !! t = Some q → Forall (λ x, ft_tid x = Z.of_nat t) (cap q)
}.

(** How many threads the round robin looks at before thread [t]. *)
Definition distance (n : Z) (f : FTQ Target) (t : Z) : Z := ((t - roundRobinPtr f) `mod` n)%Z.

Lemma fetchable_get q : q_ok q → fetchable q = true → ∃ x, q_get q (fetchptr q) = Ok x ∧ x ∈ cap q.
Proof.
  intros Hq [_ Hf]%andb_true_iff. unfold q_get. rewrite Hf. cbn [assert_ res_bind].
  apply q_hasTarget_iff in Hf; [|done]. unfold q_size in Hf. unfold nth_res.
  destruct (Z.ltb_spec (fetchptr q - baseTargetId q) 0); [lia|].
  destruct (lookup_lt_is_Some_2 (cap q) (Z.to_nat (fetchptr q - baseTargetId q))) as [x Hx]; [lia|].
  rewrite Hx. exists x. split; [done|]. by eapply list_elem_of_lookup_2.
Qed.

Lemma ftq_queue n f tid : ftq_ok n f → (0 ≤ tid < n)%Z →
  ∃ q, q_of f tid = Ok q ∧ queue f !! Z.to_nat tid = Some q ∧ q_ok q.
Proof.
  intros Hf Ht. pose proof (fo_queues _ _ Hf). unfold q_of, nth_res.
  destruct (Z.ltb_spec tid 0); [lia|].
  destruct (lookup_lt_is_Some_2 (queue f) (Z.to_nat tid)) as [q Hq]; [lia|]. rewrite Hq.
  exists q. split; [done|]. split; [done|]. by eapply Forall_lookup_1; [apply (fo_qok _ _ Hf)|].
Qed.

Lemma fetchable_tid n f tid q : ftq_ok n f → (0 ≤ tid < n)%Z →
  queue f !! Z.to_nat tid = Some q → fetchable q = true →
  ∃ x, q_get q (fetchptr q) = Ok x ∧ ft_tid x = tid.
Proof.
  intros Hf Ht Hq Hfe. destruct (fetchable_get q) as (x & Hx & Hin); [|done|].
  - by eapply Forall_lookup_1; [apply (fo_qok _ _ Hf)|].
  - exists x. split; [done|]. pose proof (fo_tid _ _ Hf _ _ Hq) as Htid.
    rewrite Forall_forall in Htid. rewrite (Htid x Hin). lia.
Qed.

(** The loop stops at the first thread with a target, which [t] is at the latest. *)
Lemma tid_loop_spec n f t qt k d m :
  ftq_ok n f → (0 ≤ t < n)%Z → queue f !! Z.to_nat t = Some qt → fetchable qt = true →
  (0 ≤ d)%Z → ((k + d) `mod` n = t)%Z → (d < m)%Z →
  ∃ e r, (0 ≤ e ≤ d)%Z ∧ r = ((k + e) `mod` n)%Z ∧
    tid_loop f (seqZ k m) = Ok (r, mkFTQ n (ftqSize f) (queue f) ((r + 1) `mod` n)).
Proof.
  intros Hf Ht Hqt Hfe Hd. revert k m. pattern d. apply natlike_ind; [| |done].
  - intros k m Hk Hm. rewrite (seqZ_cons k) by lia. cbn [tid_loop].
    rewrite (fo_threads _ _ Hf), Z.add_0_r in *. rewrite Hk.
    destruct (ftq_queue n f t Hf Ht) as (q & -> & Hq & Hok). rewrite Hqt in Hq.
    injection Hq as <-. cbn [res_bind].
    rewrite Hfe. destruct (fetchable_tid _ _ _ _ Hf Ht Hqt Hfe) as (x & -> & Hx). cbn [res_bind].
    rewrite Hx.
    exists 0%Z. eexists. split; [lia|]. split; [|done]. rewrite Z.add_0_r. done.
  - intros d' Hd' IH k m Hk Hm. rewrite (seqZ_cons k) by lia. cbn [tid_loop].
    rewrite (fo_threads _ _ Hf).
    assert (0 ≤ k `mod` n < n)%Z as Hkn by (apply Z.mod_pos_bound; lia).
    destruct (ftq_queue n f _ Hf Hkn) as (q & -> & Hq & Hok). cbn [res_bind].
    destruct (fetchable q) eqn:Hfq.
    + destruct (fetchable_tid _ _ _ _ Hf Hkn Hq Hfq) as (x & -> & Hx). cbn [res_bind].
    rewrite Hx.
      exists 0%Z. eexists. split; [lia|]. split; [|done]. by rewrite Z.add_0_r.
    + destruct (IH (Z.succ k) (Z.pred m)) as (e & r & He & Hr & Hl); [|lia|].
      { rewrite <- Hk. f_equal. lia. }
      exists (e + 1)%Z, r. split; [lia|]. split; [|done]. rewrite Hr. f_equal. lia.
Qed.

(** Calls of [getTargetTid] with any other operations in between, which do not
    touch the round-robin pointer: the states the calls are made in. *)
Fixpoint chained (l : list (FTQ Target)) : Prop :=
  match l with
  | f :: ((f' :: _) as rest) =>
      match getTargetTid f with
      | Ok (_, f1) => roundRobinPtr f' = roundRobinPtr f1
      | Panic _ => False
      end ∧ chained rest
  | _ => True
  end.

Definition waits (n t : Z) (f : FTQ Target) : Prop :=
  ftq_ok n f ∧ ∃ q, queue f !! Z.to_nat t = Some q ∧ fetchable q = true.

(** A call returns [t] or leaves fewer threads before it. *)
Lemma getTargetTid_progress n t f :
  (0 ≤ t < n)%Z → waits n t f →
  ∃ r f', getTargetTid f = Ok (r, f') ∧ (0 ≤ r < n)%Z ∧
    (r = t ∨ (distance n f' t < distance n f t)%Z).
Proof.
  intros Ht [Hf (q & Hq & Hfe)]. pose proof (fo_rr _ _ Hf) as Hrr.
  assert (0 ≤ distance n f t < n)%Z as Hd by (apply Z.mod_pos_bound; lia).
  assert ((roundRobinPtr f + distance n f t) `mod` n = t)%Z as Hk.
  { unfold distance. rewrite Zplus_mod_idemp_r. rewrite <- (Z.mod_small t n) at 2 by lia. f_equal. lia. }
  destruct (tid_loop_spec n f t q _ _ (numThreads f) Hf Ht Hq Hfe (proj1 Hd) Hk) as (e & r & He & Hr & Hl).
  { rewrite (fo_threads _ _ Hf). lia. }
  do 2 eexists. split; [exact Hl|].
  assert (0 ≤ r < n)%Z by (subst r; apply Z.mod_pos_bound; lia). split; [done|].
  destruct (decide (r = t)) as [|Hne]; [by left|]. right. unfold distance at 1. simpl.
  rewrite Zminus_mod_idemp_r.
  assert (e ≠ distance n f t) as Hed by (intros ->; congruence).
  pose proof (Z.div_mod (roundRobinPtr f + distance n f t) n ltac:(lia)) as D1.
  pose proof (Z.div_mod (roundRobinPtr f + e) n ltac:(lia)) as D2. rewrite Hk in D1.
  rewrite <- Hr in D2.
  rewrite <- (Zmod_unique (t - (r + 1)) n
    ((roundRobinPtr f + e) / n - (roundRobinPtr f + distance n f t) / n)%Z (distance n f t - e - 1)%Z); lia.
Qed.

Lemma chained_served n t l : (0 ≤ t < n)%Z → Forall (waits n t) l → chained l →
  (∃ f, head l = Some f ∧ (distance n f t < Z.of_nat (length l))%Z) →
  ∃ f f', f ∈ l ∧ getTargetTid f = Ok (t, f').
Proof.
  intros Ht. induction l as [|f l IH]; intros Hw Hc (f0 & Hh & Hd); [done|].
  simpl in Hh. injection Hh as <-. apply Forall_cons in Hw as [Hf Hw].
  destruct (getTargetTid_progress n t f Ht Hf) as (r & f1 & Hg & Hr & [->|Hlt]).
  { exists f, f1. split; [by left|done]. }
  assert (0 ≤ distance n f1 t)%Z by (apply Z.mod_pos_bound; lia).
  simpl in Hd. destruct l as [|f2 l]; [simpl in Hd; lia|].
  cbn [chained] in Hc. rewrite Hg in Hc. destruct Hc as [Hrr Hc].
  destruct IH as (g & g' & Hin & Hg'); [done|done| |].
  - exists f2. split; [done|]. unfold distance in *. rewrite Hrr. simpl in *. lia.
  - exists g, g'. split; [by right|done].
Qed.

End Ops.

(** C38: fetch serves every thread.  Among any [numThreads] consecutive calls of
    [getTargetTid], whatever the predictor, fetch and the squashes do to the queues in
    between, one returns thread [t], provided [t] has a target to fetch at each call. *)
Theorem round_robin_fair {B M} (n t : Z) (l : list (FTQ (FetchTarget B M))) :
  (0 ≤ t < n)%Z → Z.of_nat (length l) = n → Forall (waits n t) l → chained l →
  ∃ f f', f ∈ l ∧ getTargetTid f = Ok (t, f').
Proof.
  intros Ht Hl Hw Hc. eapply chained_served; try done.
  destruct l as [|f l]; [simpl in Hl; lia|]. exists f. split; [done|]. rewrite Hl.
  apply Z.mod_pos_bound. lia.
Qed.

End Ftq.
