(* ===== verification/TageHist.v ===== *)
(** The folded path histories of the TAGE, ITTAGE and MicroTAGE predictors.

    Models the history handling of [src/GEM5/src/cpu/pred/btb/btb_tage.cc],
    [btb_ittage.cc] and [microtage.cc]: three folded histories per table, updated
    speculatively with every prediction, saved with it and restored by a squash.
    MicroTAGE indexes its tables with the history of the prediction before, which it
    keeps in a queue of at most one entry.  The tables themselves are not modelled. *)
From S2P Require Import Prelude Bitset FoldedHist BpCommon.
Import FoldedHist BpCommon.

Module TageHist.

Record TageHist := mkTage {
  indexFoldedHist : list FoldedHistBase;
  tagFoldedHist : list FoldedHistBase;
  altTagFoldedHist : list FoldedHistBase
}.

(** The constructor's loop over the tables: history length, tag bits, index bits. *)
Definition TageHist_new (tables : list (Z * Z * Z)) : res TageHist :=
  let! tag := res_mapM (λ '(hl, tb, ib), mkFoldedHist hl tb 16) tables in
  let! alt := res_mapM (λ '(hl, tb, ib), mkFoldedHist hl (tb - 1) 16) tables in
  let! idx := res_mapM (λ '(hl, tb, ib), mkFoldedHist hl ib 16) tables in
  Ok (mkTage idx tag alt).

Section Ops.

Context {B : Type} {BO : DynamicBitset B}.

Definition doUpdateHist (s : TageHist) (history : B) (taken : bool) (pc target : Z)
    : res TageHist :=
  if negb taken then Ok s
  else
    let upd fh := path_update fh history 2 taken pc target in
    let! idx := res_mapM upd (indexFoldedHist s) in
    let! tag := res_mapM upd (tagFoldedHist s) in
    let! alt := res_mapM upd (altTagFoldedHist s) in
    Ok (mkTage idx tag alt).

Definition specUpdatePHist (s : TageHist) (history : B) (pred : FullBTBPrediction)
    : res TageHist :=
  let '(pc, target, taken) := getPHistInfo pred in
  doUpdateHist s history taken pc target.

(** [hist[i].recover(saved[i])] for every table. *)
Fixpoint recover_all (l saved : list FoldedHistBase) : res (list FoldedHistBase) :=
  match l, saved with
  | [], _ => Ok []
  | _ :: _, [] => ub
  | fh :: l, o :: saved =>
      let! fh := recover fh o in
      let! l := recover_all l saved in
      Ok (fh :: l)
  end.

Definition recoverPHist (s saved : TageHist) (history : B) (cond_taken : bool)
    (pc target : Z) : res TageHist :=
  let! tag := recover_all (tagFoldedHist s) (tagFoldedHist saved) in
  let! alt := recover_all (altTagFoldedHist s) (altTagFoldedHist saved) in
  let! idx := recover_all (indexFoldedHist s) (indexFoldedHist saved) in
  doUpdateHist (mkTage idx tag alt) history cond_taken pc target.

Definition check_list (l : list FoldedHistBase) (hist : B) : res unit :=
  let! _ := res_mapM (λ fh, check fh hist) l in Ok tt.

Definition checkFoldedHist (s : TageHist) (hist : B) : res unit :=
  do! check_list (indexFoldedHist s) hist in
  do! check_list (tagFoldedHist s) hist in
  check_list (altTagFoldedHist s) hist.

(** ITTAGE's loop leaves the alternative tags out. *)
Definition it_checkFoldedHist (s : TageHist) (hist : B) : res unit :=
  do! check_list (indexFoldedHist s) hist in
  check_list (tagFoldedHist s) hist.

(** *** MicroTAGE *)

(** [aheadindexFoldedHist] is a queue, the front first. *)
Record MicroTAGE := mkMicro {
  mu_hist : TageHist;
  aheadindexFoldedHist : list (list FoldedHistBase)
}.

(** What [putPCHistory] saves: the histories and the front of the queue, if there is
    one. *)
Record TageMeta := mkTageMeta {
  tm_hist : TageHist;
  aheadIndexFoldedHist : option (list FoldedHistBase)
}.

Definition MicroTAGE_new (tables : list (Z * Z * Z)) : res MicroTAGE :=
  let! h := TageHist_new tables in
  Ok (mkMicro h []).

Definition mu_putPCHistory (s : MicroTAGE) : TageMeta :=
  mkTageMeta (mu_hist s) (hd_error (aheadindexFoldedHist s)).

Definition mu_doUpdateHist (s : MicroTAGE) (history : B) (taken : bool) (pc target : Z)
    : res MicroTAGE :=
  let h := mu_hist s in
  let idx := default (indexFoldedHist h) (hd_error (aheadindexFoldedHist s)) in
  if negb taken then
    Ok (mkMicro (mkTage idx (tagFoldedHist h) (altTagFoldedHist h)) (aheadindexFoldedHist s))
  else
    let upd fh := path_update fh history 2 taken pc target in
    let! tag := res_mapM upd (tagFoldedHist h) in
    let! alt := res_mapM upd (altTagFoldedHist h) in
    let! nextIndexFoldedHist := res_mapM upd idx in
    let q := aheadindexFoldedHist s ++ [nextIndexFoldedHist] in
    Ok (mkMicro (mkTage idx tag alt) (if (1 <? length q)%nat then tail q else q)).

Definition mu_specUpdatePHist (s : MicroTAGE) (history : B) (pred : FullBTBPrediction)
    : res MicroTAGE :=
  let '(pc, target, taken) := getPHistInfo pred in
  mu_doUpdateHist s history taken pc target.

Definition mu_recoverPHist (s : MicroTAGE) (saved : TageMeta) (history : B)
    (cond_taken : bool) (pc target : Z) : res MicroTAGE :=
  let h := mu_hist s in let o := tm_hist saved in
  let! idx := recover_all (indexFoldedHist h) (indexFoldedHist o) in
  let! q :=
    match aheadIndexFoldedHist saved with
    | Some a =>
        do! assert_ (length a =? length (indexFoldedHist h))%nat
              "aheadIndexFoldedHist.size() == numPredictors" in
        Ok [a]
    | None => Ok []
    end in
  let! alt := recover_all (altTagFoldedHist h) (altTagFoldedHist o) in
  let! tag := recover_all (tagFoldedHist h) (tagFoldedHist o) in
  mu_doUpdateHist (mkMicro (mkTage idx tag alt) q) history cond_taken pc target.

(** The staged index histories are checked when there are any. *)
Definition mu_checkFoldedHist (s : MicroTAGE) (hist : B) : res unit :=
  let h := mu_hist s in
  do! check_list (default (indexFoldedHist h) (hd_error (aheadindexFoldedHist s))) hist in
  do! check_list (tagFoldedHist h) hist in
  check_list (altTagFoldedHist h) hist.

End Ops.

(** ** The folded histories follow the path history *)

Section Consistent.

Context {B : Type} `{DynamicBitsetLaws B}.
Implicit Types g : B.

(** The configurations of the tables: [path_update] shifts by two. *)
Definition cfg_ok (size : Z) (fh : FoldedHistBase) : Prop :=
  (2 ≤ foldedLen fh ≤ 31)%Z ∧ (2 ≤ histLen fh ≤ size)%Z ∧ (2 ≤ maxShamt fh ≤ 16)%Z.

Definition list_ok (cfg : list FoldedHistBase) g (l : list FoldedHistBase) : Prop :=
  Forall2 same_config l cfg ∧ Forall (λ fh, consistent fh g) l.

(** The folded histories of configuration [cfg] are folds of [g]. *)
Record tage_ok (cfg : TageHist) g (s : TageHist) : Prop := {
  tk_index : list_ok (indexFoldedHist cfg) g (indexFoldedHist s);
  tk_tag : list_ok (tagFoldedHist cfg) g (tagFoldedHist s);
  tk_alt : list_ok (altTagFoldedHist cfg) g (altTagFoldedHist s)
}.

Definition tage_cfg (size : Z) (cfg : TageHist) : Prop :=
  Forall (cfg_ok size) (indexFoldedHist cfg) ∧ Forall (cfg_ok size) (tagFoldedHist cfg) ∧
  Forall (cfg_ok size) (altTagFoldedHist cfg).

Lemma cfg_wf g fh c st : cfg_ok (bs_size g) c → same_config fh c →
  wf_folded fh g ∧ @hk_ok B path_step _ fh st.
Proof.
  intros (H1 & H2 & H3) (E1 & E2 & E3). split.
  - split; rewrite ?E1, ?E2, ?E3; unfold staticMaxShamtLimit; lia.
  - simpl. rewrite E1, E2, E3. lia.
Qed.

(** Updating every history of a list, of any kind, keeps the folds. *)
Lemma kind_list_update {Step} `{HK : HistoryKind B Step, HKL : !HistoryKindLaws B Step} cfg g l st :
  Forall (λ c, wf_folded c g ∧ hk_ok c st) cfg → list_ok cfg g l →
  ∃ l', res_mapM (λ fh, hk_update fh g st) l = Ok l' ∧ list_ok cfg (hk_shift st g) l'.
Proof.
  intros Hc [Hl Hg]. revert Hc Hg. induction Hl as [|fh c l cfg Hs Hl IH]; intros Hc Hg.
  - exists []. split; [done|]. by split; constructor.
  - apply Forall_cons in Hc as [[Hwf Hok] Hc]. apply Forall_cons in Hg as [Hg1 Hg].
    assert (wf_folded fh g) as Hwf' by (by eapply wf_same_config).
    assert (hk_ok fh st) as Hok' by (by eapply (hk_ok_config (B:=B))).
    destruct (hk_consistent fh g st Hwf' Hg1 Hok') as (fh' & Hu & Hcf & Hc').
    destruct (IH Hc Hg) as (l' & Hl' & H1 & H2). cbn [res_mapM].
    rewrite Hu. cbn [res_bind]. rewrite Hl'. eexists. split; [done|]. split.
    + constructor; [|done]. destruct Hcf as (? & ? & ?), Hs as (? & ? & ?).
      repeat split; congruence.
    + by constructor.
Qed.

Lemma list_update cfg g l taken pc target :
  Forall (cfg_ok (bs_size g)) cfg → list_ok cfg g l →
  ∃ l', res_mapM (λ fh, path_update fh g 2 taken pc target) l = Ok l' ∧
    list_ok cfg (pHistShiftIn 2 taken g pc target) l'.
Proof.
  intros Hc Hl. refine (kind_list_update cfg g l (PathStep taken pc target) _ Hl).
  eapply Forall_impl; [exact Hc|]. intros c Hcc. by apply (cfg_wf g c c _ Hcc).
Qed.

Lemma tage_update_ok cfg g s taken pc target :
  tage_cfg (bs_size g) cfg → tage_ok cfg g s →
  ∃ s', doUpdateHist s g taken pc target = Ok s' ∧
    tage_ok cfg (pHistShiftIn 2 taken g pc target) s'.
Proof.
  intros (C1 & C2 & C3) [H1 H2 H3]. unfold doUpdateHist. destruct taken; cbn [negb].
  - destruct (list_update _ g _ true pc target C1 H1) as (i & -> & Hi).
    destruct (list_update _ g _ true pc target C2 H2) as (t & -> & Ht).
    destruct (list_update _ g _ true pc target C3 H3) as (a & -> & Ha). cbn [res_bind].
    eexists. split; [done|]. by split.
  - exists s. split; [done|]. by split.
Qed.

Lemma recover_list cfg l saved :
  Forall2 same_config l cfg → Forall2 same_config saved cfg → recover_all l saved = Ok saved.
Proof.
  intros Hl. revert saved.
  induction Hl as [|fh c l cfg Hc Hl IH]; intros saved Hs; inversion Hs as [|o ? sv ? Ho Hsv]; subst.
  - done.
  - cbn [recover_all]. unfold recover. destruct Hc as (E1 & E2 & E3), Ho as (F1 & F2 & F3).
    rewrite E1, E2, E3, F1, F2, F3, !Z.eqb_refl. cbn [assert_ res_bind].
    rewrite (IH _ Hsv). cbn [res_bind]. do 2 f_equal. destruct fh, o. unfold set_folded. simpl in *.
    by subst.
Qed.

(** A squash restores the saved histories and applies the resolved branch. *)
Lemma tage_recover_ok cfg g g' s saved taken pc target :
  tage_cfg (bs_size g') cfg → tage_ok cfg g s → tage_ok cfg g' saved →
  ∃ s', recoverPHist s saved g' taken pc target = Ok s' ∧
    tage_ok cfg (pHistShiftIn 2 taken g' pc target) s'.
Proof.
  intros Hc [H1 H2 H3] Hs. pose proof Hs as [S1 S2 S3]. unfold recoverPHist.
  rewrite (recover_list _ _ _ (proj1 H2) (proj1 S2)), (recover_list _ _ _ (proj1 H3) (proj1 S3)),
    (recover_list _ _ _ (proj1 H1) (proj1 S1)). cbn [res_bind]. destruct saved. by apply tage_update_ok.
Qed.

Lemma check_list_ok cfg g l : list_ok cfg g l → check_list l g = Ok tt.
Proof.
  intros [_ Hg]. unfold check_list. rewrite (res_mapM_Ok _ (λ _, tt)); [done|].
  intros fh Hfh. rewrite Forall_forall in Hg. by apply check_consistent, Hg.
Qed.

Lemma tage_check_ok cfg g s : tage_ok cfg g s →
  checkFoldedHist s g = Ok tt ∧ it_checkFoldedHist s g = Ok tt.
Proof.
  intros [H1 H2 H3]. unfold checkFoldedHist, it_checkFoldedHist.
  by rewrite (check_list_ok _ _ _ H1), (check_list_ok _ _ _ H2), (check_list_ok _ _ _ H3).
Qed.

(** *** MicroTAGE *)

(** The histories that are due: the staged ones, or those in use when none is staged. *)
Definition due (idx : list FoldedHistBase) (q : list (list FoldedHistBase)) : list FoldedHistBase :=
  default idx (hd_error q).

Record micro_ok (cfg : TageHist) g (s : MicroTAGE) : Prop := {
  mk_config : Forall2 same_config (indexFoldedHist (mu_hist s)) (indexFoldedHist cfg);
  mk_queue : (length (aheadindexFoldedHist s) ≤ 1)%nat;
  mk_due : list_ok (indexFoldedHist cfg) g (due (indexFoldedHist (mu_hist s)) (aheadindexFoldedHist s));
  mk_tag : list_ok (tagFoldedHist cfg) g (tagFoldedHist (mu_hist s));
  mk_alt : list_ok (altTagFoldedHist cfg) g (altTagFoldedHist (mu_hist s))
}.

(** What a prediction saved, as a state. *)
Definition of_meta (m : TageMeta) : MicroTAGE :=
  mkMicro (tm_hist m) (match aheadIndexFoldedHist m with Some a => [a] | None => [] end).

Lemma micro_new_ok cfg g : tage_ok cfg g cfg → micro_ok cfg g (mkMicro cfg []).
Proof. intros [H1 H2 H3]. split; simpl; try done; [apply H1|lia]. Qed.

Lemma micro_meta_ok cfg g s : micro_ok cfg g s → micro_ok cfg g (of_meta (mu_putPCHistory s)).
Proof.
  intros [H1 H2 H3 H4 H5]. destruct s as [h [|a [|b q]]]; simpl in *; try lia; by split; simpl.
Qed.

Lemma micro_update_ok cfg g s taken pc target :
  tage_cfg (bs_size g) cfg → micro_ok cfg g s →
  ∃ s', mu_doUpdateHist s g taken pc target = Ok s' ∧
    micro_ok cfg (pHistShiftIn 2 taken g pc target) s'.
Proof.
  intros (C1 & C2 & C3) [Hi0 Hq H1 H2 H3]. unfold mu_doUpdateHist.
  change (default (indexFoldedHist (mu_hist s)) (hd_error (aheadindexFoldedHist s)))
    with (due (indexFoldedHist (mu_hist s)) (aheadindexFoldedHist s)).
  destruct taken; cbn [negb].
  - destruct (list_update _ g _ true pc target C2 H2) as (t & -> & Ht).
    destruct (list_update _ g _ true pc target C3 H3) as (a & -> & Ha).
    destruct (list_update _ g _ true pc target C1 H1) as (i & -> & Hi). cbn [res_bind].
    eexists. split; [done|]. destruct (aheadindexFoldedHist s) as [|x [|y q]]; simpl in Hq; try lia;
      (split; simpl; [apply H1|lia|done..]).
  - eexists. split; [done|].
    destruct (aheadindexFoldedHist s) as [|x [|y q]]; simpl in Hq; try lia;
      (split; simpl; [apply H1|lia|done..]).
Qed.

Lemma micro_recover_ok cfg g g' s m taken pc target :
  tage_cfg (bs_size g') cfg → micro_ok cfg g s → micro_ok cfg g' (of_meta m) →
  ∃ s', mu_recoverPHist s m g' taken pc target = Ok s' ∧
    micro_ok cfg (pHistShiftIn 2 taken g' pc target) s'.
Proof.
  intros Hc [Hi0 Hq H1 H2 H3] Hm. pose proof Hm as [M0 Mq M1 M2 M3]. destruct m as [o a].
  unfold mu_recoverPHist. cbn [tm_hist aheadIndexFoldedHist of_meta mu_hist aheadindexFoldedHist] in *.
  rewrite (recover_list _ _ _ Hi0 M0), (recover_list _ _ _ (proj1 H3) (proj1 M3)),
    (recover_list _ _ _ (proj1 H2) (proj1 M2)). cbn [res_bind].
  replace (mkTage _ _ _) with o by by destruct o.
  destruct a as [a|]; [|by apply micro_update_ok].
  destruct M1 as [M1 _]. unfold due in M1. simpl in M1.
  rewrite (proj2 (Nat.eqb_eq _ _)); [by apply micro_update_ok|].
  by rewrite (Forall2_length _ _ _ M1), (Forall2_length _ _ _ Hi0).
Qed.

Lemma micro_check_ok cfg g s : micro_ok cfg g s → mu_checkFoldedHist s g = Ok tt.
Proof.
  intros [_ _ H1 H2 H3]. unfold mu_checkFoldedHist, due in *.
  by rewrite (check_list_ok _ _ _ H1), (check_list_ok _ _ _ H2), (check_list_ok _ _ _ H3).
Qed.

End Consistent.
End TageHist.
