(* ===== verification/MgscHist.v ===== *)
(** The histories of the statistical corrector.

    Models the history handling of [src/GEM5/src/cpu/pred/btb/btb_mgsc.cc] (class
    [BTBMGSC]): the folded global, path, backward and local histories and the IMLI
    counters that index its tables, as [initStorage] builds them, with their speculative
    update, their recovery by a squash and [checkFoldedHist].  The tables and their
    training are not modelled. *)
From S2P Require Import Prelude Bitset FoldedHist BpCommon TageHist.
Import FoldedHist BpCommon.

Module MgscHist.

Record MgscParams := mkMgscParams {
  bwTableNum : Z; bwTableIdxWidth : Z; bwHistLen : list Z;
  numEntriesFirstLocalHistories : Z;
  lTableNum : Z; lTableIdxWidth : Z; lHistLen : list Z;
  iTableNum : Z; iTableIdxWidth : Z; iHistLen : list Z;
  gTableNum : Z; gTableIdxWidth : Z; gHistLen : list Z;
  pTableNum : Z; pTableIdxWidth : Z; pHistLen : list Z;
  biasTableIdxWidth : Z;
  weightTableIdxWidth : Z;
  thresholdTablelogSize : Z;
  numCtrsPerLine : Z;
  mgscBlockSize : Z
}.

Record MgscHist := mkMgsc {
  indexBwFoldedHist : list FoldedHistBase;
  indexLFoldedHist : list (list FoldedHistBase);
  indexIFoldedHist : list FoldedHistBase;
  indexGFoldedHist : list FoldedHistBase;
  indexPFoldedHist : list FoldedHistBase
}.

Section Ops.

Context {B : Type} {BO : DynamicBitset B}.
Context (p : MgscParams).

(** ** Construction *)

Definition pow2 (width : Z) : res Z :=
  do! assert_ (width <? 63)%Z "width < 63" in
  Ok (2 ^ width)%Z.

(** [allocPredTable]: the size of a table, which has more than one line. *)
Definition allocPredTable (idxWidth : Z) : res Z :=
  let! tableSize := pow2 idxWidth in
  do! assert_ (numCtrsPerLine p <? tableSize)%Z "tableSize > numCtrsPerLine" in
  Ok tableSize.

(** One folded history per table; [hist_len[i]] is read for every table. *)
Definition mk_tables (make : Z → res FoldedHistBase) (num : Z) (lens : list Z)
    : res (list FoldedHistBase) :=
  res_mapM (λ i, let! hl := nth_res lens i in make hl) (seqZ 0 num).

(** [ImliFoldedHist], with the assertions [initStorage] makes before it. *)
Definition mkImliFoldedHist (iTableSize hl fl : Z) : res FoldedHistBase :=
  do! assert_ (0 <=? hl)%Z "iHistLen[i] >= 0" in
  do! assert_ (hl <? 63)%Z "iHistLen[i] < 63" in
  let! n := pow2 hl in
  do! assert_ (n <=? iTableSize)%Z "pow2(iHistLen[i]) <= iTableSize" in
  let! fh := mkFoldedHist hl fl 16 in
  do! assert_ (hl <=? fl)%Z "foldedLen >= histLen" in
  Ok fh.

Definition isPowerOf2 (n : Z) : bool := (0 <? n)%Z && (Z.land n (n - 1) =? 0)%Z.

(** [_TableIdxWidth - numCtrsPerLineBits], an [unsigned] passed as an [int]. *)
Definition line_bits (idxWidth : Z) : Z := s32 (idxWidth - Z.log2 (numCtrsPerLine p)).

Definition initStorage : res MgscHist :=
  do! assert_ (isPowerOf2 (numCtrsPerLine p)) "isPowerOf2(numCtrsPerLine)" in
  do! allocPredTable (bwTableIdxWidth p) in
  let! bw := mk_tables (λ hl, mkFoldedHist hl (line_bits (bwTableIdxWidth p)) 16)
               (bwTableNum p) (bwHistLen p) in
  do! allocPredTable (lTableIdxWidth p) in
  let! l := mk_tables (λ hl, mkFoldedHist hl (line_bits (lTableIdxWidth p)) 16)
              (lTableNum p) (lHistLen p) in
  let! iTableSize := allocPredTable (iTableIdxWidth p) in
  let! i := mk_tables (λ hl, mkImliFoldedHist iTableSize hl (line_bits (iTableIdxWidth p)))
              (iTableNum p) (iHistLen p) in
  do! allocPredTable (gTableIdxWidth p) in
  let! g := mk_tables (λ hl, mkFoldedHist hl (line_bits (gTableIdxWidth p)) 16)
              (gTableNum p) (gHistLen p) in
  do! allocPredTable (pTableIdxWidth p) in
  let! ph := mk_tables (λ hl, mkFoldedHist hl (line_bits (pTableIdxWidth p)) 2)
               (pTableNum p) (pHistLen p) in
  do! allocPredTable (biasTableIdxWidth p) in
  do! pow2 (weightTableIdxWidth p) in
  do! pow2 (thresholdTablelogSize p) in
  Ok (mkMgsc bw (replicate (Z.to_nat (numEntriesFirstLocalHistories p)) l) i g ph).

(** [getPcIndex] with [log2(numEntriesFirstLocalHistories)] bits. *)
Definition getPcIndex (pc : Z) : Z :=
  Z.land (Z.shiftr pc (floorLog2 (mgscBlockSize p)))
         (u64 (u64 (Z.shiftl 1 (Z.log2 (numEntriesFirstLocalHistories p))) - 1)).

(** ** Updates *)

(** [doUpdateHist] for the three classes of folded histories. *)
Definition dir_doUpdateHist (history : B) (shamt : Z) (taken : bool) (l : list FoldedHistBase)
    : res (list FoldedHistBase) :=
  if (shamt =? 0)%Z then Ok l else res_mapM (λ fh, direction_update fh history shamt taken) l.

Definition path_doUpdateHist (history : B) (shamt : Z) (taken : bool) (l : list FoldedHistBase)
    (pc target : Z) : res (list FoldedHistBase) :=
  if (shamt =? 0)%Z then Ok l else res_mapM (λ fh, path_update fh history shamt taken pc target) l.

Definition imli_doUpdateHist (shamt : Z) (taken : bool) (l : list FoldedHistBase)
    : res (list FoldedHistBase) :=
  if (shamt =? 0)%Z then Ok l else res_mapM (λ fh, imli_update fh taken) l.

(** The local histories of the block at [pc]. *)
Definition local_doUpdateHist (history : list B) (pc shamt : Z) (taken : bool)
    (l : list (list FoldedHistBase)) : res (list (list FoldedHistBase)) :=
  let! h := nth_res history (getPcIndex pc) in
  let! fl := nth_res l (getPcIndex pc) in
  let! fl := dir_doUpdateHist h shamt taken fl in
  set_nth l (getPcIndex pc) fl.

(** [specUpdateHist], [specUpdatePHist], [specUpdateBwHist], [specUpdateIHist] and
    [specUpdateLHist], in the order in which the predictor calls them. *)
Definition mg_specUpdate (s : MgscHist) (h ph bh : B) (lh : list B) (pred : FullBTBPrediction)
    : res MgscHist :=
  let '(shamt, cond_taken) := getHistInfo pred in
  let! g := dir_doUpdateHist h shamt cond_taken (indexGFoldedHist s) in
  let '(pc, target, taken) := getPHistInfo pred in
  let! pp := path_doUpdateHist ph 2 taken (indexPFoldedHist s) pc target in
  let '(bw_shamt, bw_taken) := getBwHistInfo pred in
  let! bw := dir_doUpdateHist bh bw_shamt bw_taken (indexBwFoldedHist s) in
  let! i := imli_doUpdateHist bw_shamt bw_taken (indexIFoldedHist s) in
  let! l := local_doUpdateHist lh (bbStart pred) shamt cond_taken (indexLFoldedHist s) in
  Ok (mkMgsc bw l i g pp).

(** [indexLFoldedHist[k][i].recover(predMeta->indexLFoldedHist[k][i])] *)
Fixpoint recover_locals (l saved : list (list FoldedHistBase)) : res (list (list FoldedHistBase)) :=
  match l, saved with
  | [], _ => Ok []
  | _ :: _, [] => ub
  | fl :: l, o :: saved =>
      let! fl := TageHist.recover_all fl o in
      let! l := recover_locals l saved in
      Ok (fl :: l)
  end.

(** [recoverHist], [recoverPHist], [recoverBwHist], [recoverIHist] and [recoverLHist] for a
    target that starts at [start] and whose branch is at [pc], going to [target]. *)
Definition mg_recover (s saved : MgscHist) (h ph bh : B) (lh : list B) (shamt : Z) (taken : bool)
    (bw_shamt : Z) (bw_taken : bool) (start pc target : Z) : res MgscHist :=
  let! g := TageHist.recover_all (indexGFoldedHist s) (indexGFoldedHist saved) in
  let! g := dir_doUpdateHist h shamt taken g in
  let! pp := TageHist.recover_all (indexPFoldedHist s) (indexPFoldedHist saved) in
  let! pp := path_doUpdateHist ph 2 taken pp pc target in
  let! bw := TageHist.recover_all (indexBwFoldedHist s) (indexBwFoldedHist saved) in
  let! bw := dir_doUpdateHist bh bw_shamt bw_taken bw in
  let! i := TageHist.recover_all (indexIFoldedHist s) (indexIFoldedHist saved) in
  let! i := imli_doUpdateHist bw_shamt bw_taken i in
  let! l := recover_locals (indexLFoldedHist s) (indexLFoldedHist saved) in
  let! l := local_doUpdateHist lh start shamt taken l in
  Ok (mkMgsc bw l i g pp).

(** The histories of local table [t]: [indexLFoldedHist[i][t].check(LHistory[i])]. *)
Fixpoint check_locals (t : Z) (l : list (list FoldedHistBase)) (lh : list B) : res unit :=
  match lh, l with
  | [], _ => Ok tt
  | _ :: _, [] => ub
  | g :: lh, fl :: l =>
      let! fh := nth_res fl t in
      do! check fh g in
      check_locals t l lh
  end.

Definition mg_checkFoldedHist (s : MgscHist) (h ph : B) (lh : list B) : res unit :=
  do! TageHist.check_list (indexGFoldedHist s) h in
  do! TageHist.check_list (indexPFoldedHist s) ph in
  res_fold (λ _ t,
    do! assert_ (length lh =? length (indexLFoldedHist s))%nat "LHistory.size() == indexLFoldedHist.size()" in
    check_locals t (indexLFoldedHist s) lh) tt (seqZ 0 (lTableNum p)).

End Ops.

(** ** The folded histories follow the histories *)

Section Consistent.

Context {B : Type} {BO : DynamicBitset B} {BL : DynamicBitsetLaws B}.
Implicit Types g : B.

(** Direction histories that every shift keeps folded. *)
Definition dir_cfg (size : Z) (fh : FoldedHistBase) : Prop :=
  (0 < foldedLen fh ≤ 31)%Z ∧ (0 < histLen fh ≤ size)%Z ∧ (0 ≤ maxShamt fh ≤ 16)%Z ∧
  (histLen fh ≤ foldedLen fh ∨ histLen fh ≤ 2 * foldedLen fh ∧ histLen fh ≤ maxShamt fh + 1)%Z.

Lemma dir_cfg_shift size fh s : dir_cfg size fh → (0 ≤ s)%Z → shift_ok fh s.
Proof. intros (H1 & H2 & H3 & H4) Hs. split; lia. Qed.

Definition imli_cfg (fh : FoldedHistBase) : Prop := (histLen fh ≤ foldedLen fh)%Z.

Lemma dir_update_ok cfg g l s t :
  Forall (dir_cfg (bs_size g)) cfg → TageHist.list_ok cfg g l → (0 ≤ s)%Z →
  ∃ l', dir_doUpdateHist g s t l = Ok l' ∧ TageHist.list_ok cfg (histShiftIn s t g) l'.
Proof.
  intros Hc Hl Hs. unfold dir_doUpdateHist. destruct (Z.eqb_spec s 0) as [->|Hne].
  { exists l. split; [done|]. unfold histShiftIn. done. }
  refine (TageHist.kind_list_update cfg g l (DirStep s t) _ Hl).
  eapply Forall_impl; [exact Hc|]. intros c Hcc. split.
  - destruct Hcc as (? & ? & ? & _). split; unfold staticMaxShamtLimit; lia.
  - split; [by eapply dir_cfg_shift|done].
Qed.

Lemma path_list_ok cfg g l taken pc target :
  Forall (TageHist.cfg_ok (bs_size g)) cfg → TageHist.list_ok cfg g l →
  ∃ l', path_doUpdateHist g 2 taken l pc target = Ok l' ∧
    TageHist.list_ok cfg (pHistShiftIn 2 taken g pc target) l'.
Proof. apply TageHist.list_update. Qed.

Lemma imli_list_ok cfg l s t :
  Forall imli_cfg cfg → Forall2 same_config l cfg →
  ∃ l', imli_doUpdateHist s t l = Ok l' ∧ Forall2 same_config l' cfg.
Proof.
  intros Hc Hl. unfold imli_doUpdateHist. destruct (s =? 0)%Z; [by exists l|].
  induction Hl as [|fh c l cfg Hs Hl IH]; [by exists []|].
  apply Forall_cons in Hc as [Hcc Hc]. destruct (IH Hc) as (l' & E & Hl'). cbn [res_mapM].
  unfold imli_update at 1. destruct Hs as (E1 & E2 & E3). unfold imli_cfg in Hcc.
  rewrite E1, E2, (proj2 (Z.leb_le _ _) Hcc). cbn [assert_ res_bind]. rewrite E. eexists.
  split; [done|]. constructor; [|done]. unfold same_config, set_folded; simpl. by rewrite E3.
Qed.

Context (p : MgscParams).

(** The folded histories [initStorage] makes. *)
Definition tables0 (ms num : Z) (lens : list Z) (idxWidth : Z) : list FoldedHistBase :=
  map (λ hl, mkFolded hl (idxWidth - Z.log2 (numCtrsPerLine p)) ms 0) (take (Z.to_nat num) lens).

Abbreviation cfgBw := (tables0 16 (bwTableNum p) (bwHistLen p) (bwTableIdxWidth p)).
Abbreviation cfgL := (tables0 16 (lTableNum p) (lHistLen p) (lTableIdxWidth p)).
Abbreviation cfgI := (tables0 16 (iTableNum p) (iHistLen p) (iTableIdxWidth p)).
Abbreviation cfgG := (tables0 16 (gTableNum p) (gHistLen p) (gTableIdxWidth p)).
Abbreviation cfgP := (tables0 2 (pTableNum p) (pHistLen p) (pTableIdxWidth p)).

(** A table has at least two lines and an index of at most 31 bits, and a length for
    every history. *)
Definition width_ok (w : Z) : Prop :=
  (Z.log2 (numCtrsPerLine p) < w)%Z ∧ (w - Z.log2 (numCtrsPerLine p) ≤ 31)%Z ∧ (w < 63)%Z.
Definition num_ok (num : Z) (lens : list Z) : Prop := (0 ≤ num ≤ Z.of_nat (length lens))%Z.

Record mgsc_params_ok (size : Z) : Prop := {
  mp_ctrs : isPowerOf2 (numCtrsPerLine p) = true;
  mp_bw : width_ok (bwTableIdxWidth p) ∧ num_ok (bwTableNum p) (bwHistLen p);
  mp_l : width_ok (lTableIdxWidth p) ∧ num_ok (lTableNum p) (lHistLen p);
  mp_i : width_ok (iTableIdxWidth p) ∧ num_ok (iTableNum p) (iHistLen p);
  mp_g : width_ok (gTableIdxWidth p) ∧ num_ok (gTableNum p) (gHistLen p);
  mp_p : width_ok (pTableIdxWidth p) ∧ num_ok (pTableNum p) (pHistLen p);
  mp_bias : width_ok (biasTableIdxWidth p);
  mp_rest : (weightTableIdxWidth p < 63 ∧ thresholdTablelogSize p < 63)%Z;
  mp_local : (0 < numEntriesFirstLocalHistories p < 2 ^ 32)%Z;
  mp_bw_cfg : Forall (dir_cfg size) cfgBw;
  mp_l_cfg : Forall (dir_cfg size) cfgL;
  mp_g_cfg : Forall (dir_cfg size) cfgG;
  mp_p_cfg : Forall (TageHist.cfg_ok size) cfgP;
  mp_i_cfg : Forall (λ fh, 0 ≤ histLen fh ≤ foldedLen fh)%Z cfgI
}.

(** The folded histories agree with the histories of the predictor; the IMLI counters
    have no history to agree with. *)
Record mgsc_ok (h ph bh : B) (lh : list B) (s : MgscHist) : Prop := {
  mo_g : TageHist.list_ok cfgG h (indexGFoldedHist s);
  mo_p : TageHist.list_ok cfgP ph (indexPFoldedHist s);
  mo_bw : TageHist.list_ok cfgBw bh (indexBwFoldedHist s);
  mo_i : Forall2 same_config (indexIFoldedHist s) cfgI;
  mo_l : Forall2 (λ l g, TageHist.list_ok cfgL g l) (indexLFoldedHist s) lh
}.

(** The histories have the size the configuration is for. *)
Record sizes_ok (size : Z) (h ph bh : B) (lh : list B) : Prop := {
  so_h : bs_size h = size;
  so_ph : bs_size ph = size;
  so_bh : bs_size bh = size;
  so_lh : Forall (λ g, bs_size g = size) lh;
  so_len : Z.of_nat (length lh) = numEntriesFirstLocalHistories p
}.

Context (size : Z) (Hp : mgsc_params_ok size).

Lemma getPcIndex_range pc : (0 ≤ getPcIndex p pc < numEntriesFirstLocalHistories p)%Z.
Proof.
  pose proof (mp_local _ Hp) as Hl. unfold getPcIndex.
  set (k := Z.log2 (numEntriesFirstLocalHistories p)).
  pose proof (Z.log2_spec _ (proj1 Hl)) as [H1 _]. fold k in H1.
  assert (0 ≤ k < 32)%Z as Hk.
  { split; [apply Z.log2_nonneg|]. apply Z.log2_lt_pow2; lia. }
  assert (2 ^ k < 2 ^ 32)%Z by (apply Z.pow_lt_mono_r; lia).
  assert (0 < 2 ^ k)%Z by (apply Z.pow_pos_nonneg; lia).
  rewrite Z.shiftl_1_l, (u64_small (2 ^ k)) by (split; lia). rewrite u64_small by (split; lia).
  replace (2 ^ k - 1)%Z with (Z.ones k) by (rewrite Z.ones_equiv; lia).
  rewrite Z.land_ones by lia.
  pose proof (Z.mod_pos_bound (Z.shiftr pc (floorLog2 (mgscBlockSize p))) (2 ^ k)). lia.
Qed.

(** Reading and writing the cell of a block. *)
Lemma cell {A} (l : list A) pc :
  Z.of_nat (length l) = numEntriesFirstLocalHistories p →
  ∃ a, nth_res l (getPcIndex p pc) = Ok a ∧ l !! Z.to_nat (getPcIndex p pc) = Some a ∧
    ∀ b, set_nth l (getPcIndex p pc) b = Ok (<[Z.to_nat (getPcIndex p pc) := b]> l).
Proof.
  intros Hl. pose proof (getPcIndex_range pc) as Hr.
  destruct (lookup_lt_is_Some_2 l (Z.to_nat (getPcIndex p pc))) as [a Ha]; [lia|].
  exists a. split; [apply nth_res_Ok; split; [lia|done]|]. split; [done|]. intros b.
  unfold set_nth. by rewrite (proj2 (Z.leb_le _ _)), (proj2 (Z.ltb_lt _ _)) by lia.
Qed.

Lemma local_update_ok lh l pc s t :
  Z.of_nat (length lh) = numEntriesFirstLocalHistories p →
  Forall (λ g, bs_size g = size) lh → (0 ≤ s)%Z →
  Forall2 (λ l g, TageHist.list_ok cfgL g l) l lh →
  ∃ l' g, local_doUpdateHist p lh pc s t l = Ok l' ∧ nth_res lh (getPcIndex p pc) = Ok g ∧
    ∃ lh', set_nth lh (getPcIndex p pc) (histShiftIn s t g) = Ok lh' ∧
    length lh' = length lh ∧ Forall (λ g, bs_size g = size) lh' ∧
    Forall2 (λ l g, TageHist.list_ok cfgL g l) l' lh'.
Proof.
  intros Hlen Hsz Hs Hl. unfold local_doUpdateHist.
  destruct (cell lh pc Hlen) as (g & -> & Hg & Hset).
  pose proof (Forall2_length _ _ _ Hl) as Hll.
  destruct (cell l pc) as (fl & -> & Hfl & Hset'); [by rewrite Hll|]. cbn [res_bind].
  assert (bs_size g = size) as Hgs by (by eapply (Forall_lookup_1 (λ g, bs_size g = size))).
  assert (TageHist.list_ok cfgL g fl) as Hok by exact (Forall2_lookup_lr _ _ _ _ _ _ Hl Hfl Hg).
  destruct (dir_update_ok cfgL g fl s t) as (fl' & -> & Hfl'); [rewrite Hgs; apply Hp|done|done|].
  cbn [res_bind]. rewrite Hset'. eexists _, g. split; [done|]. split; [done|]. rewrite Hset. eexists.
  split; [done|]. split; [by rewrite length_insert|]. split.
  - apply Forall_insert; [done|]. by rewrite size_histShiftIn.
  - by apply Forall2_insert.
Qed.

Lemma recover_locals_ok l saved (lh lh' : list B) :
  Forall2 (λ l g, TageHist.list_ok cfgL g l) l lh →
  Forall2 (λ l g, TageHist.list_ok cfgL g l) saved lh' → length lh' = length lh →
  recover_locals l saved = Ok saved.
Proof.
  intros Hl. revert saved lh'. induction Hl as [|fl g l lh Hfl Hl IH]; intros saved lh' Hs Hlen.
  - destruct lh'; [|done]. by inversion Hs.
  - destruct Hs as [|o g' saved lh' Ho Hs]; [done|]. cbn [recover_locals].
    rewrite (TageHist.recover_list _ _ _ (proj1 Hfl) (proj1 Ho)). cbn [res_bind].
    by rewrite (IH saved lh') by (done || by injection Hlen).
Qed.

Lemma check_locals_ok t l lh :
  (0 ≤ t < lTableNum p)%Z → Forall2 (λ l g, TageHist.list_ok cfgL g l) l lh →
  check_locals t l lh = Ok tt.
Proof.
  intros Ht. induction 1 as [|fl g l lh [Hcf Hg] Hl IH]; [done|]. cbn [check_locals].
  assert (length fl = Z.to_nat (lTableNum p)) as Hlen.
  { rewrite (Forall2_length _ _ _ Hcf). unfold tables0. rewrite length_map, length_take.
    pose proof (mp_l _ Hp) as [_ Hn]. unfold num_ok in Hn. lia. }
  destruct (lookup_lt_is_Some_2 fl (Z.to_nat t)) as [fh Hfh]; [lia|].
  rewrite (proj2 (nth_res_Ok fl t fh)) by (split; [lia|done]). cbn [res_bind].
  rewrite (proj2 (check_consistent fh g)) by (by eapply (Forall_lookup_1 (λ fh, consistent fh g))).
  done.
Qed.

Lemma mgsc_check_ok h ph bh lh s : mgsc_ok h ph bh lh s → mg_checkFoldedHist p s h ph lh = Ok tt.
Proof.
  intros [Hg Hpp _ _ Hl]. unfold mg_checkFoldedHist.
  rewrite (TageHist.check_list_ok _ _ _ Hg), (TageHist.check_list_ok _ _ _ Hpp). cbn [res_bind].
  assert (∀ t, t ∈ seqZ 0 (lTableNum p) → check_locals t (indexLFoldedHist s) lh = Ok tt) as Hc.
  { intros t Ht. apply elem_of_seqZ in Ht. apply check_locals_ok; [lia|done]. }
  rewrite (proj2 (Nat.eqb_eq _ _)) by (symmetry; by eapply Forall2_length). cbn [assert_ res_bind].
  induction (seqZ 0 (lTableNum p)) as [|t ts IH]; [done|]. cbn [res_fold].
  rewrite (Hc t) by set_solver. cbn [res_bind]. apply IH. set_solver.
Qed.

(** Every folded history after a shift of each history. *)
Lemma mgsc_update_ok h ph bh lh s sh t pc target pt bsh bt start :
  sizes_ok size h ph bh lh → mgsc_ok h ph bh lh s → (0 ≤ sh)%Z → (0 ≤ bsh)%Z →
  ∃ ng' pp' bw' i' l' lg lh',
    dir_doUpdateHist h sh t (indexGFoldedHist s) = Ok ng' ∧
    path_doUpdateHist ph 2 pt (indexPFoldedHist s) pc target = Ok pp' ∧
    dir_doUpdateHist bh bsh bt (indexBwFoldedHist s) = Ok bw' ∧
    imli_doUpdateHist bsh bt (indexIFoldedHist s) = Ok i' ∧
    local_doUpdateHist p lh start sh t (indexLFoldedHist s) = Ok l' ∧
    nth_res lh (getPcIndex p start) = Ok lg ∧
    set_nth lh (getPcIndex p start) (histShiftIn sh t lg) = Ok lh' ∧
    sizes_ok size (histShiftIn sh t h) (pHistShiftIn 2 pt ph pc target) (histShiftIn bsh bt bh) lh' ∧
    mgsc_ok (histShiftIn sh t h) (pHistShiftIn 2 pt ph pc target) (histShiftIn bsh bt bh) lh'
      (mkMgsc bw' l' i' ng' pp').
Proof.
  intros [S1 S2 S3 S4 S5] [Hg Hpp Hb Hi Hl] Hs Hbs.
  destruct (dir_update_ok cfgG h (indexGFoldedHist s) sh t) as (ng' & Eg & Og); [rewrite S1; apply Hp|done|done|].
  destruct (path_list_ok cfgP ph (indexPFoldedHist s) pt pc target) as (pp' & Ep & Op); [rewrite S2; apply Hp|done|].
  destruct (dir_update_ok cfgBw bh (indexBwFoldedHist s) bsh bt) as (bw' & Eb & Ob); [rewrite S3; apply Hp|done|done|].
  destruct (imli_list_ok cfgI (indexIFoldedHist s) bsh bt) as (i' & Ei & Oi); [|done|].
  { eapply Forall_impl; [apply Hp|]. unfold imli_cfg. simpl. lia. }
  destruct (local_update_ok lh _ start sh t S5 S4 Hs Hl) as (l' & lg & El & En & lh' & Es & L1 & L2 & L3).
  exists ng', pp', bw', i', l', lg, lh'. do 7 (split; [done|]). split; split; try done;
    rewrite ?size_histShiftIn, ?size_pHistShiftIn; try done. by rewrite L1.
Qed.

(** A prediction shifts every folded history with its history. *)
Lemma mgsc_spec_ok h ph bh lh lh' s pred sh t pc target pt bsh bt lg :
  sizes_ok size h ph bh lh → mgsc_ok h ph bh lh s →
  getHistInfo pred = (sh, t) → getPHistInfo pred = (pc, target, pt) → getBwHistInfo pred = (bsh, bt) →
  (0 ≤ sh)%Z → (0 ≤ bsh)%Z → nth_res lh (getPcIndex p (bbStart pred)) = Ok lg →
  set_nth lh (getPcIndex p (bbStart pred)) (histShiftIn sh t lg) = Ok lh' →
  ∃ s', mg_specUpdate p s h ph bh lh pred = Ok s' ∧
    mgsc_ok (histShiftIn sh t h) (pHistShiftIn 2 pt ph pc target) (histShiftIn bsh bt bh) lh' s'.
Proof.
  intros Hs Hok E1 E2 E3 H1 H2 En Es. unfold mg_specUpdate. rewrite E1, E2, E3.
  destruct (mgsc_update_ok h ph bh lh s sh t pc target pt bsh bt (bbStart pred) Hs Hok H1 H2)
    as (ng & pp & bw & i & l & lg' & lh2 & -> & -> & -> & -> & -> & En' & Es' & _ & Hok').
  simplify_eq. cbn [res_bind]. eexists. split; [done|]. congruence.
Qed.

Lemma mgsc_recover_all_ok h ph bh lh h' ph' bh' lh' s saved :
  mgsc_ok h ph bh lh s → mgsc_ok h' ph' bh' lh' saved → length lh' = length lh →
  TageHist.recover_all (indexGFoldedHist s) (indexGFoldedHist saved) = Ok (indexGFoldedHist saved) ∧
  TageHist.recover_all (indexPFoldedHist s) (indexPFoldedHist saved) = Ok (indexPFoldedHist saved) ∧
  TageHist.recover_all (indexBwFoldedHist s) (indexBwFoldedHist saved) = Ok (indexBwFoldedHist saved) ∧
  TageHist.recover_all (indexIFoldedHist s) (indexIFoldedHist saved) = Ok (indexIFoldedHist saved) ∧
  recover_locals (indexLFoldedHist s) (indexLFoldedHist saved) = Ok (indexLFoldedHist saved).
Proof.
  intros [[A1 _] [A2 _] [A3 _] A4 A5] [[B1 _] [B2 _] [B3 _] B4 B5] Hlen.
  repeat split; try by eapply TageHist.recover_list. by eapply recover_locals_ok.
Qed.

(** A squash restores the saved histories and shifts them. *)
Lemma mgsc_recover_ok h0 ph0 bh0 lh0 h ph bh lh lh' s saved sh t pc target bsh bt start lg :
  sizes_ok size h ph bh lh → mgsc_ok h0 ph0 bh0 lh0 s → mgsc_ok h ph bh lh saved →
  length lh = length lh0 → (0 ≤ sh)%Z → (0 ≤ bsh)%Z → nth_res lh (getPcIndex p start) = Ok lg →
  set_nth lh (getPcIndex p start) (histShiftIn sh t lg) = Ok lh' →
  ∃ s', mg_recover p s saved h ph bh lh sh t bsh bt start pc target = Ok s' ∧
    mgsc_ok (histShiftIn sh t h) (pHistShiftIn 2 t ph pc target) (histShiftIn bsh bt bh) lh' s'.
Proof.
  intros Hs Hok Hsv Hlen H1 H2 En Es. unfold mg_recover.
  destruct (mgsc_recover_all_ok _ _ _ _ _ _ _ _ _ _ Hok Hsv Hlen) as (-> & -> & -> & -> & ->).
  cbn [res_bind].
  destruct (mgsc_update_ok h ph bh lh saved sh t pc target t bsh bt start Hs Hsv H1 H2)
    as (ng & pp & bw & i & l & lg' & lh2 & -> & -> & -> & -> & -> & En' & Es' & _ & Hok').
  cbn [res_bind]. eexists. split; [done|]. congruence.
Qed.

(** ** Construction *)

Lemma line_bits_eq w : width_ok w → line_bits p w = (w - Z.log2 (numCtrsPerLine p))%Z.
Proof. intros (H1 & H2 & H3). unfold line_bits, s32. apply wraps_small; [lia|]. split; simpl; lia. Qed.

Lemma alloc_ok w : width_ok w → allocPredTable p w = Ok (2 ^ w)%Z.
Proof.
  intros (H1 & H2 & H3). unfold allocPredTable, pow2. rewrite (proj2 (Z.ltb_lt _ _) H3).
  cbn [assert_ res_bind]. rewrite (proj2 (Z.ltb_lt _ _)); [done|].
  pose proof (mp_ctrs _ Hp) as Hc. apply andb_true_iff in Hc as [Hc%Z.ltb_lt _].
  by apply Z.log2_lt_pow2.
Qed.

Lemma mk_tables_ok (make : Z → res FoldedHistBase) (f : Z → FoldedHistBase) num lens :
  num_ok num lens → (∀ hl, hl ∈ take (Z.to_nat num) lens → make hl = Ok (f hl)) →
  mk_tables make num lens = Ok (map f (take (Z.to_nat num) lens)).
Proof.
  intros Hn Hm. unfold mk_tables, num_ok in *.
  set (n := Z.to_nat num) in *. replace num with (Z.of_nat n) by lia.
  assert (n ≤ length lens)%nat as Hle by lia. clear Hn. clearbody n. clear num.
  induction n as [|n IH]; [done|].
  destruct (lookup_lt_is_Some_2 lens n) as [hl Hhl]; [lia|].
  rewrite (take_S_r _ _ _ Hhl) in Hm |- *. rewrite map_app, seqZ_S.
  assert (∀ l1 l2 r1 r2, res_mapM (λ i, let! hl := nth_res lens i in make hl) l1 = Ok r1 →
    res_mapM (λ i, let! hl := nth_res lens i in make hl) l2 = Ok r2 →
    res_mapM (λ i, let! hl := nth_res lens i in make hl) (l1 ++ l2) = Ok (r1 ++ r2)) as Happ.
  { induction l1 as [|x l1 IHl]; intros l2 r1 r2 E1 E2; simpl in *; [by injection E1 as <-|].
    destruct (let! hl := nth_res lens x in make hl) as [y|]; [|done]. cbn [res_bind] in *.
    destruct (res_mapM _ l1) as [ys|]; [|done]. injection E1 as <-. cbn [res_bind].
    by rewrite (IHl l2 ys r2 eq_refl E2). }
  apply Happ; [apply IH; [|lia]; intros x Hx; apply Hm; set_solver|].
  cbn [res_mapM]. rewrite Z.add_0_l, (proj2 (nth_res_Ok lens _ hl)) by (rewrite Nat2Z.id; split; [lia|done]).
  cbn [res_bind]. rewrite Hm by set_solver. done.
Qed.

Lemma dir_tables_ok ms num lens w :
  width_ok w → num_ok num lens → (ms ≤ 16)%Z →
  mk_tables (λ hl, mkFoldedHist hl (line_bits p w) ms) num lens = Ok (tables0 ms num lens w).
Proof.
  intros Hw Hn Hms. rewrite line_bits_eq by done. apply mk_tables_ok; [done|]. intros hl _.
  unfold mkFoldedHist, staticMaxShamtLimit. destruct Hw as (? & ? & ?).
  by rewrite (proj2 (Z.leb_le ms 16)), (proj2 (Z.ltb_lt (w - Z.log2 (numCtrsPerLine p) + ms) 64)) by lia.
Qed.

Lemma imli_tables_ok :
  mk_tables (λ hl, mkImliFoldedHist (2 ^ iTableIdxWidth p) hl (line_bits p (iTableIdxWidth p)))
    (iTableNum p) (iHistLen p) = Ok cfgI.
Proof.
  destruct (mp_i _ Hp) as [Hw Hn]. rewrite line_bits_eq by done. apply mk_tables_ok; [done|].
  intros hl Hhl. pose proof (mp_i_cfg _ Hp) as Hc. unfold tables0 in Hc.
  rewrite Forall_map, Forall_forall in Hc. specialize (Hc hl Hhl). simpl in Hc.
  destruct Hw as (Hw1 & Hw2 & Hw3). pose proof (Z.log2_nonneg (numCtrsPerLine p)).
  unfold mkImliFoldedHist, pow2, mkFoldedHist, staticMaxShamtLimit.
  assert (2 ^ hl ≤ 2 ^ iTableIdxWidth p)%Z by (apply Z.pow_le_mono_r; lia).
  rewrite (proj2 (Z.leb_le 0 hl)), (proj2 (Z.ltb_lt hl 63)) by lia. cbn [assert_ res_bind].
  rewrite (proj2 (Z.leb_le (2 ^ hl) _)) by done. cbn [assert_ res_bind].
  rewrite (proj2 (Z.leb_le 16 16)), (proj2 (Z.ltb_lt (_ + 16) 64)) by lia. cbn [assert_ res_bind].
  by rewrite (proj2 (Z.leb_le hl _)) by lia.
Qed.

Definition mgsc0 : MgscHist :=
  mkMgsc cfgBw (replicate (Z.to_nat (numEntriesFirstLocalHistories p)) cfgL) cfgI cfgG cfgP.

Lemma initStorage_ok : initStorage p = Ok mgsc0.
Proof.
  destruct (mp_bw _ Hp), (mp_l _ Hp), (mp_i _ Hp), (mp_g _ Hp), (mp_p _ Hp), (mp_rest _ Hp).
  unfold initStorage. rewrite (mp_ctrs _ Hp). cbn [assert_ res_bind].
  rewrite !alloc_ok by (done || apply Hp). cbn [res_bind].
  rewrite !dir_tables_ok by (done || lia). cbn [res_bind]. rewrite imli_tables_ok. cbn [res_bind].
  unfold pow2. by rewrite !(proj2 (Z.ltb_lt _ 63)) by lia.
Qed.

Lemma same_config_refl l : Forall2 same_config l l.
Proof. induction l; constructor; done. Qed.

(** The new histories fold histories of zeros. *)
Lemma mgsc0_ok (z : B) :
  (∀ fh, fh ∈ cfgBw ++ cfgL ++ cfgG ++ cfgP → consistent fh z) →
  mgsc_ok z z z (replicate (Z.to_nat (numEntriesFirstLocalHistories p)) z) mgsc0.
Proof.
  intros Hz. assert (∀ l, (∀ fh, fh ∈ l → fh ∈ cfgBw ++ cfgL ++ cfgG ++ cfgP) → TageHist.list_ok l z l) as Hl.
  { intros l Hsub. split; [apply same_config_refl|]. apply Forall_forall. auto. }
  split; simpl; [apply Hl; set_solver|apply Hl; set_solver|apply Hl; set_solver| |].
  - apply same_config_refl.
  - apply Forall2_replicate. apply Hl. set_solver.
Qed.

End Consistent.
End MgscHist.
