(* ===== verification/Bpu.v ===== *)
(** The decoupled branch predictor.

    Models [src/GEM5/src/cpu/pred/btb/decoupled_bpred.hh] and [decoupled_bpred.cc] (class
    [DecoupledBPUWithBTB]) with [history_manager.hh] (class [HistoryManager]): the cycle
    that requests a prediction, chooses among the stages and enqueues a fetch target, the
    three kinds of squash with the recovery of every history, and the commit of targets.
    The return address stack is that of [Ras], the folded histories of MicroTAGE, TAGE and
    ITTAGE those of [TageHist], those of MGSC those of [MgscHist], the queue that of [Ftq].
    What the tables of the components (BTBs, MicroTAGE, TAGE, ITTAGE, MGSC) answer in a
    cycle is an input of [tick]: one [StageOut] per stage.  MicroTAGE and MGSC can be
    disabled; TAGE, ITTAGE and the return address stack are enabled, as in every
    configuration of the repository.  Target ids are 64 bits wide in the queue and
    32 bits ([unsigned]) in the calls of the other stages.  Statistics, traces and the
    resolve-time training of the tables are left out. *)
From S2P Require Import Prelude Bitset FoldedHist BpCommon Ras Ftq TageHist MgscHist.
Import FoldedHist BpCommon Ftq.

Module Bpu.

Record BpuParams := mkBpuParams {
  numStages : nat;
  predictWidth : Z;
  historyBits : Z;
  ftq_size : Z;
  abtbEnabled : bool;
  rasParams : Ras.RasParams;
  rasDelay : nat;
  tageTables : list (Z * Z * Z);
  ittageTables : list (Z * Z * Z);
  microtageEnabled : bool;
  microtageTables : list (Z * Z * Z);
  mgscEnabled : bool;
  mgscParams : MgscHist.MgscParams;
  resolveBlockThreshold : Z
}.

(** [const int numThreads = 2;] *)
Definition numThreads : Z := 2.
Definition MaxAddr : Z := (2 ^ 64 - 1)%Z.

(** ** The history manager *)

Record HistoryEntry := mkHist {
  he_pc : Z;
  he_shamt : Z;
  he_cond_taken : bool;
  he_is_call : bool;
  he_is_return : bool;
  he_retAddr : Z;
  he_streamId : Z
}.

(** [speculativeHists] *)
Abbreviation HistoryManager := (list HistoryEntry).

Definition addSpeculativeHist (h : HistoryManager) (addr shamt : Z) (cond_taken : bool)
    (bi : BranchInfo) (stream_id : Z) : HistoryManager :=
  h ++ [mkHist addr shamt cond_taken (isCall bi) (isReturn bi) (br_getEnd bi) stream_id].

Definition hm_commit (h : HistoryManager) (stream_id : Z) : HistoryManager :=
  filter (λ e, stream_id < he_streamId e)%Z h.

Definition hm_squash (h : HistoryManager) (stream_id shamt : Z) (cond_taken : bool)
    (bi : BranchInfo) : HistoryManager :=
  flat_map (λ e,
    if (he_streamId e =? stream_id)%Z then
      [mkHist (he_pc e) shamt cond_taken (isCall bi) (isReturn bi) (br_getEnd bi) (he_streamId e)]
    else if (stream_id <? he_streamId e)%Z then []
    else [e]) h.

(** ** State *)

(** What the components save with a prediction. *)
Record Metas := mkMetas {
  mt_ras : Ras.RASMeta;
  mt_tage : TageHist.TageHist;
  mt_ittage : TageHist.TageHist;
  mt_microtage : TageHist.TageMeta;
  mt_mgsc : MgscHist.MgscHist
}.

(** The modelled components; [metas] is what [getPredictionMeta] of each returns. *)
Record Comps := mkComps {
  ras : Ras.BTBRAS;
  tage : TageHist.TageHist;
  ittage : TageHist.TageHist;
  microtage : TageHist.MicroTAGE;
  mgsc : MgscHist.MgscHist;
  metas : option Metas
}.

(** What the BTBs, TAGE and ITTAGE put into the prediction of a stage. *)
Record StageOut := mkOut {
  so_entries : list BTBEntry;
  so_conds : list (Z * bool);
  so_targets : list (Z * Z)
}.

(** An instruction as [controlSquash] sees it. *)
Record CtrlInst := mkCtrl {
  ci_cond : bool;
  ci_indirect : bool;
  ci_direct : bool;
  ci_call : bool;
  ci_return : bool;
  ci_nonspec : bool
}.

(** [BranchInfo(control_pc, target_pc, static_inst, size)] *)
Definition BranchInfo_of (pc target : Z) (i : CtrlInst) (size : Z) : BranchInfo :=
  mkBranch pc target false (ci_cond i) (ci_indirect i) (ci_direct i) (ci_call i)
    (ci_return i && negb (ci_nonspec i) && negb (ci_direct i)) (wrapu 8 size).

Section Ops.

Context {B : Type} {BO : DynamicBitset B} {BC : DynamicBitsetCmp B}.
Context (p : BpuParams).

Abbreviation Target := (FetchTarget B (option Metas)).

Record Thread := mkThread {
  s0PC : Z;
  predsOfEachStage : list FullBTBPrediction;
  s0History : B;
  s0PHistory : B;
  s0BwHistory : B;
  s0LHistory : list B;
  finalPred : FullBTBPrediction;
  numOverrideBubbles : Z;
  validprediction : bool;
  squashing : bool;
  blockPredictionPending : bool
}.

Record BPU := mkBPU {
  threads : list Thread;
  ftq : FTQ Target;
  historyManager : HistoryManager;
  comps : Comps;
  resolveDequeueFailCounter : Z
}.

Definition with_thread (s : BPU) (tid : Z) (t : Thread) : res BPU :=
  let! l := set_nth (threads s) tid t in
  Ok (mkBPU l (ftq s) (historyManager s) (comps s) (resolveDequeueFailCounter s)).
Definition with_ftq (s : BPU) (f : FTQ Target) : BPU :=
  mkBPU (threads s) f (historyManager s) (comps s) (resolveDequeueFailCounter s).
Definition with_hm (s : BPU) (h : HistoryManager) : BPU :=
  mkBPU (threads s) (ftq s) h (comps s) (resolveDequeueFailCounter s).
Definition with_comps (s : BPU) (c : Comps) : BPU :=
  mkBPU (threads s) (ftq s) (historyManager s) c (resolveDequeueFailCounter s).

Definition set_pc (t : Thread) (pc : Z) : Thread :=
  mkThread pc (predsOfEachStage t) (s0History t) (s0PHistory t) (s0BwHistory t) (s0LHistory t)
    (finalPred t) (numOverrideBubbles t) (validprediction t) (squashing t)
    (blockPredictionPending t).
Definition set_hists (t : Thread) (h ph bh : B) (lh : list B) : Thread :=
  mkThread (s0PC t) (predsOfEachStage t) h ph bh lh (finalPred t) (numOverrideBubbles t)
    (validprediction t) (squashing t) (blockPredictionPending t).
Definition set_prediction (t : Thread) (preds : list FullBTBPrediction) (final : FullBTBPrediction)
    (bubbles : Z) (valid : bool) : Thread :=
  mkThread (s0PC t) preds (s0History t) (s0PHistory t) (s0BwHistory t) (s0LHistory t) final
    bubbles valid (squashing t) (blockPredictionPending t).
Definition set_flags (t : Thread) (sq block : bool) : Thread :=
  mkThread (s0PC t) (predsOfEachStage t) (s0History t) (s0PHistory t) (s0BwHistory t)
    (s0LHistory t) (finalPred t) (numOverrideBubbles t) (validprediction t) sq block.

(** ** Construction *)

Definition thread_new : Thread :=
  let z := bs_new (historyBits p) in
  mkThread 0x80000000
    (imap (λ i q, mkPred (fp_tid q) (bbStart q) (btbEntries q) (condTakens q)
                    (indirectTargets q) (returnTarget q) (Z.of_nat i))
       (replicate (numStages p) FullBTBPrediction_new))
    z z z (replicate (Z.to_nat (MgscHist.numEntriesFirstLocalHistories (mgscParams p))) z)
    FullBTBPrediction_new 0 false true false.

Definition BPU_new : res BPU :=
  let! f := FTQ_new numThreads (ftq_size p) in
  let! r := Ras.BTBRAS_new (rasParams p) in
  let! t := TageHist.TageHist_new (tageTables p) in
  let! it := TageHist.TageHist_new (ittageTables p) in
  let! mu := TageHist.MicroTAGE_new (microtageTables p) in
  let! mg := MgscHist.initStorage (mgscParams p) in
  Ok (mkBPU (replicate MaxThreads thread_new) f [] (mkComps r t it mu mg None) 0).

(** ** Histories *)

Definition shift_local (pc shamt : Z) (taken : bool) (lh : list B) : res (list B) :=
  let i := MgscHist.getPcIndex (mgscParams p) pc in
  let! h := nth_res lh i in
  set_nth lh i (histShiftIn shamt taken h).

(** The history rebuilt from the entries of the history manager, and how many bits
    they shifted in. *)
Definition ideal_hist (h : HistoryManager) : Z * B :=
  foldl (λ '(n, ideal) e,
    if negb (he_shamt e =? 0)%Z then
      (u32 (n + he_shamt e), bs_put (bs_shl ideal (he_shamt e)) 0 (he_cond_taken e))
    else (n, ideal)) (0%Z, bs_new (historyBits p)) h.

Definition checkHistory (h : HistoryManager) (history : B) : res unit :=
  let '(ideal_size, ideal) := ideal_hist h in
  let comparable_size := Z.min ideal_size (historyBits p) in
  assert_ (bs_eqb (bs_resize ideal comparable_size) (bs_resize history comparable_size))
    "ideal_hash_hist == sized_real_hist".

(** ** Prediction *)

Definition clearPreds (l : list FullBTBPrediction) : list FullBTBPrediction :=
  map (λ q, mkPred (fp_tid q) (bbStart q) [] [] [] (returnTarget q) (fp_predSource q)) l.

Definition has_entries (q : FullBTBPrediction) : bool :=
  match btbEntries q with [] => false | _ => true end.

(** The latest stage with a BTB hit, else the first stage. *)
Definition chosenPrediction (l : list FullBTBPrediction) : res FullBTBPrediction :=
  match find has_entries (rev l) with
  | Some q => Ok q
  | None => nth_res l 0
  end.

(** The loop that finds the first stage that agrees with the chosen prediction. *)
Fixpoint first_hit_stage (l : list FullBTBPrediction) (chosen : FullBTBPrediction) : Z :=
  match l with
  | [] => 0%Z
  | q :: rest =>
      if (pred_match q chosen (predictWidth p)).1 then 0%Z
      else (1 + first_hit_stage rest chosen)%Z
  end.

Definition generateFinalPredAndCreateBubbles (s : BPU) (tid : Z) (t : Thread)
    (preds : list FullBTBPrediction) : res Thread :=
  let! chosen := chosenPrediction preds in
  let! _ := nth_res preds 2 in
  let hit := first_hit_stage (take (length preds - 1) preds) chosen in
  let! last_pred := nth_res preds (Z.of_nat (length preds) - 1) in
  let! back := backId (ftq s) tid in
  do! (if has_entries last_pred && abtbEnabled p && negb (back =? 0)%Z then
         let! q := q_of (ftq s) tid in
         let! _ := get_at (last (cap q)) "back of an empty deque" in Ok tt
       else Ok tt) in
  let final := mkPred (fp_tid chosen) (bbStart chosen) (btbEntries chosen) (condTakens chosen)
                 (indirectTargets chosen) (returnTarget chosen) hit in
  Ok (set_prediction t (clearPreds preds) final hit (validprediction t)).

(** The predictions of the stages once every component has been asked. *)
Definition put_stage (tid pc : Z) (outs : nat → StageOut) (i : nat) (q : FullBTBPrediction)
    : FullBTBPrediction :=
  mkPred tid pc (so_entries (outs i)) (so_conds (outs i)) (so_targets (outs i)) (returnTarget q)
    (fp_predSource q).

Definition set_return (q : FullBTBPrediction) (r : Z) : FullBTBPrediction :=
  mkPred (fp_tid q) (bbStart q) (btbEntries q) (condTakens q) (indirectTargets q) r
    (fp_predSource q).

Definition requestNewPrediction (s : BPU) (tid : Z) (outs : nat → StageOut) : res BPU :=
  let! t := nth_res (threads s) tid in
  let preds := imap (put_stage tid (s0PC t) outs) (predsOfEachStage t) in
  let c := comps s in
  let! x := Ras.putPCHistory (ras c) (rasDelay p) (map returnTarget preds) in
  let preds := zip_with set_return preds x.1 in
  let m := mkMetas x.2 (tage c) (ittage c) (TageHist.mu_putPCHistory (microtage c)) (mgsc c) in
  let s := with_comps s (mkComps (ras c) (tage c) (ittage c) (microtage c) (mgsc c) (Some m)) in
  let! t := generateFinalPredAndCreateBubbles s tid t preds in
  with_thread s tid
    (set_prediction t (predsOfEachStage t) (finalPred t) (numOverrideBubbles t) true).

Definition createFetchTargetEntry (t : Thread) (tid : Z) (m : option Metas) : Target :=
  let final := finalPred t in
  let taken := isTaken final in
  let nextPC := getTarget final (predictWidth p) in
  setDefaultResolve
    (mkTarget tid (s0PC t) taken (getFallThrough final (predictWidth p))
       (if taken then with_target (be_info (getTakenEntry final)) nextPC else BranchInfo_new)
       (has_entries final) (btbEntries final) false BranchInfo_new false 0 [] SQUASH_NONE 0 m
       (s0History t) (s0PHistory t) (s0BwHistory t) (s0LHistory t)).

(** [specUpdateHist], [specUpdatePHist] and the like of the enabled components. *)
Definition specUpdate (c : Comps) (h ph bh : B) (lh : list B) (pred : FullBTBPrediction)
    : res Comps :=
  let! mu := if microtageEnabled p then TageHist.mu_specUpdatePHist (microtage c) ph pred
             else Ok (microtage c) in
  let! tg := TageHist.specUpdatePHist (tage c) ph pred in
  let! r := Ras.specUpdateHist (rasParams p) (ras c) pred in
  let! it := TageHist.specUpdatePHist (ittage c) ph pred in
  let! mg := if mgscEnabled p then MgscHist.mg_specUpdate (mgscParams p) (mgsc c) h ph bh lh pred
             else Ok (mgsc c) in
  Ok (mkComps r tg it mu mg (metas c)).

(** The [checkFoldedHist] calls. *)
Definition checkFolded (c : Comps) (h ph : B) (lh : list B) : res unit :=
  do! TageHist.checkFoldedHist (tage c) ph in
  do! TageHist.it_checkFoldedHist (ittage c) ph in
  do! (if microtageEnabled p then TageHist.mu_checkFoldedHist (microtage c) ph else Ok tt) in
  if mgscEnabled p then MgscHist.mg_checkFoldedHist (mgscParams p) (mgsc c) h ph lh else Ok tt.

Definition updateHistoryForPrediction (s : BPU) (entry : Target) : res BPU :=
  let tid := ft_tid entry in
  let! t := nth_res (threads s) tid in
  let final := finalPred t in
  let! c := specUpdate (comps s) (s0History t) (s0PHistory t) (s0BwHistory t) (s0LHistory t) final in
  let '(shamt, taken) := getHistInfo final in
  let! back := backId (ftq s) tid in
  let h := addSpeculativeHist (historyManager s) (startPC entry) shamt taken
             (predBranchInfo entry) (u64 (back + 1)) in
  let '(bw_shamt, bw_taken) := getBwHistInfo final in
  let '(p_pc, p_target, p_taken) := getPHistInfo final in
  let ph := pHistShiftIn 2 p_taken (s0PHistory t) p_pc p_target in
  let! lh := shift_local (bbStart final) shamt taken (s0LHistory t) in
  let hist := histShiftIn shamt taken (s0History t) in
  let t := set_hists t hist ph (histShiftIn bw_shamt bw_taken (s0BwHistory t)) lh in
  let! s := with_thread (with_hm (with_comps s c) h) tid t in
  do! checkFolded c hist ph lh in
  Ok s.

Definition processNewPrediction (s : BPU) (tid : Z) : res BPU :=
  let! t := nth_res (threads s) tid in
  if negb (validprediction t) then Ok s
  else if (0 <? numOverrideBubbles t)%Z then Ok s
  else
    let! is_full := full (ftq s) tid in
    if is_full then Ok s
    else if (s0PC t =? MaxAddr)%Z then Ok s
    else
      let entry := createFetchTargetEntry t tid (metas (comps s)) in
      let! s := with_thread s tid (set_pc t (getTarget (finalPred t) (predictWidth p))) in
      let! s := updateHistoryForPrediction s entry in
      let! f := insert (ftq s) entry in
      let! t := nth_res (threads s) tid in
      with_thread (with_ftq s f) tid
        (set_prediction t (predsOfEachStage t) (finalPred t) (numOverrideBubbles t) false).

(** ** The cycle *)

Definition scheduleThread : Z := 0.

(** A thread at the start of a cycle. *)
Definition tick_squash (s : BPU) (tid : Z) : res BPU :=
  let! t := nth_res (threads s) tid in
  if squashing t then
    with_thread s tid
      (set_flags (set_prediction t (predsOfEachStage t) (finalPred t) 0 false) false
         (blockPredictionPending t))
  else Ok s.

(** A thread at the end of a cycle. *)
Definition tick_process (s : BPU) (tid : Z) : res BPU :=
  let! s := processNewPrediction s tid in
  let! t := nth_res (threads s) tid in
  if (0 <? numOverrideBubbles t)%Z then
    with_thread s tid
      (set_prediction t (predsOfEachStage t) (finalPred t) (numOverrideBubbles t - 1)
         (validprediction t))
  else Ok s.

Definition tick (s : BPU) (outs : nat → StageOut) : res BPU :=
  let curTid := scheduleThread in
  let! cur := nth_res (threads s) curTid in
  let squashOccurred := squashing cur in
  let! s := res_fold tick_squash s (seqZ 0 numThreads) in
  if squashOccurred then Ok s
  else
    let! t := nth_res (threads s) curTid in
    let! is_full := full (ftq s) curTid in
    let! s :=
      if negb (validprediction t) && negb is_full then
        if blockPredictionPending t then with_thread s curTid (set_flags t (squashing t) false)
        else requestNewPrediction s curTid outs
      else Ok s in
    res_fold tick_process s (seqZ 0 numThreads).

(** ** Squashes *)

(** [recoverHist], [recoverPHist] and the like of the enabled components. *)
Definition recoverComps (c : Comps) (t : Target) (real_shamt : Z) (real_taken : bool)
    (real_bw_shamt : Z) (real_bw_taken : bool) : res Comps :=
  let! m := get_at (predMetas t) "predMetas" in
  let b := ft_getBranchInfo t in
  let ph := ft_phistory t in
  let! mu := if microtageEnabled p then
               TageHist.mu_recoverPHist (microtage c) (mt_microtage m) ph real_taken (br_pc b) (br_target b)
             else Ok (microtage c) in
  let! tg := TageHist.recoverPHist (tage c) (mt_tage m) ph real_taken (br_pc b) (br_target b) in
  let! r := Ras.recoverHist (rasParams p) (ras c) (mt_ras m) (exeTaken t) (exeBranchInfo t) in
  let! it := TageHist.recoverPHist (ittage c) (mt_ittage m) ph real_taken (br_pc b) (br_target b) in
  let! mg := if mgscEnabled p then
               MgscHist.mg_recover (mgscParams p) (mgsc c) (mt_mgsc m) (ft_history t) ph (ft_bwhistory t)
                 (ft_lhistory t) real_shamt real_taken real_bw_shamt real_bw_taken (startPC t)
                 (br_pc b) (br_target b)
             else Ok (mgsc c) in
  Ok (mkComps r tg it mu mg (metas c)).

Definition recoverHistoryForSquash (s : BPU) (target : Target) (target_id squash_pc : Z)
    (is_conditional actually_taken : bool) (squash_type : SquashType) (redirect_pc : Z)
    : res BPU :=
  let tid := ft_tid target in
  let! t := nth_res (threads s) tid in
  let '(real_shamt, real_taken) :=
    getHistInfoDuringSquash target squash_pc is_conditional actually_taken in
  let '(real_bw_shamt, real_bw_taken) :=
    getBwHistInfoDuringSquash target squash_pc is_conditional actually_taken redirect_pc in
  let! c := recoverComps (comps s) target real_shamt real_taken real_bw_shamt real_bw_taken in
  let hist := histShiftIn real_shamt real_taken (ft_history target) in
  let ph := pHistShiftIn 2 real_taken (ft_phistory target) squash_pc redirect_pc in
  let bh := histShiftIn real_bw_shamt real_bw_taken (ft_bwhistory target) in
  let! lh := shift_local (startPC target) real_shamt real_taken (ft_lhistory target) in
  let bi := if bool_decide (squash_type = SQUASH_CTRL) then exeBranchInfo target
            else BranchInfo_new in
  let h := hm_squash (historyManager s) target_id real_shamt real_taken bi in
  let! s := with_thread (with_hm (with_comps s c) h) tid (set_hists t hist ph bh lh) in
  do! checkHistory h hist in
  do! checkFolded c hist ph lh in
  Ok s.

Definition handleSquash (s : BPU) (tid target_id : Z) (squash_type : SquashType)
    (squash_pc redirect_pc : Z) (is_conditional actually_taken : bool)
    (static_inst : option CtrlInst) (control_inst_size : Z) : res BPU :=
  let! t := nth_res (threads s) tid in
  let! s := with_thread s tid (set_flags t true (blockPredictionPending t)) in
  let! has := hasTarget (ftq s) target_id tid in
  if negb has then
    let! e := empty (ftq s) tid in
    do! assert_ (negb e) "!ftq.empty(tid)" in
    Ok s
  else
    let! target := get (ftq s) target_id tid in
    let bi :=
      match squash_type, static_inst with
      | SQUASH_CTRL, Some i => BranchInfo_of squash_pc redirect_pc i control_inst_size
      | _, _ => exeBranchInfo target
      end in
    let target := with_resolve target actually_taken bi true squash_type squash_pc in
    let! q := q_of (ftq s) tid in
    let! q := q_put q target_id target in
    let! f := with_q (ftq s) tid q in
    let! f := squashAfter f target_id tid in
    let! s := recoverHistoryForSquash (with_ftq s f) target target_id squash_pc is_conditional
                actually_taken squash_type redirect_pc in
    let! t := nth_res (threads s) tid in
    with_thread s tid
      (set_pc (set_prediction t (clearPreds (predsOfEachStage t)) (finalPred t) (numOverrideBubbles t)
                 (validprediction t)) redirect_pc).

(** The [unsigned target_id] of the entry points keeps the low 32 bits of an id. *)
Definition controlSquash (s : BPU) (target_id control_pc corr_target : Z) (i : CtrlInst)
    (control_inst_size : Z) (actually_taken : bool) (tid : Z) (fromCommit : bool) : res BPU :=
  let target_id := u32 target_id in
  let! has := hasTarget (ftq s) target_id tid in
  if negb has then Ok s
  else
    let! target := get (ftq s) target_id tid in
    let! real_target :=
      if negb fromCommit && ci_return i && negb (ci_nonspec i) then
        let! m := get_at (predMetas target) "predMetas" in
        Ok (Ras.getTopAddrFromMetas (mt_ras m))
      else Ok corr_target in
    handleSquash s tid target_id SQUASH_CTRL control_pc real_target (ci_cond i) actually_taken
      (Some i) control_inst_size.

Definition nonControlSquash (s : BPU) (target_id inst_pc tid : Z) : res BPU :=
  handleSquash s tid (u32 target_id) SQUASH_OTHER inst_pc inst_pc false false None 0.

Definition trapSquash (s : BPU) (target_id inst_pc tid : Z) : res BPU :=
  handleSquash s tid (u32 target_id) SQUASH_TRAP inst_pc inst_pc false false None 0.

(** ** Commit *)

(** The part of [updatePredictorComponents] that touches the return address stack. *)
Definition updatePredictorComponents (c : Comps) (t : Target) : res Comps :=
  if isHit t || exeTaken t then
    let! m := get_at (predMetas t) "predMetas" in
    let! r := Ras.update (rasParams p) (ras c) (mt_ras m) (exeTaken t) (exeBranchInfo t) in
    Ok (mkComps r (tage c) (ittage c) (microtage c) (mgsc c) (metas c))
  else Ok c.

Fixpoint commit_loop (fuel : nat) (s : BPU) (target_id tid : Z) : res BPU :=
  let! e := empty (ftq s) tid in
  let! fid := frontId (ftq s) tid in
  if negb e && (fid <=? target_id)%Z then
    match fuel with
    | O => Panic "commit does not terminate"
    | S fuel =>
        let! t := front (ftq s) tid in
        let! c := updatePredictorComponents (comps s) t in
        let! f := commitTarget (ftq s) tid in
        commit_loop fuel (with_ftq (with_comps s c) f) target_id tid
    end
  else Ok s.

Definition commit (s : BPU) (target_id tid : Z) : res BPU :=
  let target_id := u32 target_id in
  let! q := q_of (ftq s) tid in
  if q_empty q then Ok s
  else
    let! s := commit_loop (length (cap q)) s target_id tid in
    Ok (with_hm s (hm_commit (historyManager s) target_id)).

(** ** Fetch and resolve *)

Definition consumeFetchTarget (s : BPU) (tid : Z) : res BPU :=
  let! _ := fetching (ftq s) tid in
  let! f := finishTarget (ftq s) tid in
  Ok (with_ftq s f).

Definition blockPredictionOnce (s : BPU) : res BPU :=
  let! t := nth_res (threads s) 0 in
  with_thread s 0 (set_flags t (squashing t) true).

Definition set_fail (s : BPU) (n : Z) : BPU :=
  mkBPU (threads s) (ftq s) (historyManager s) (comps s) n.

Definition notifyResolveSuccess (s : BPU) : BPU := set_fail s 0.

Definition notifyResolveFailure (s : BPU) : res BPU :=
  let n := u32 (resolveDequeueFailCounter s + 1) in
  if (resolveBlockThreshold p <=? n)%Z then
    let! s := blockPredictionOnce s in Ok (set_fail s 0)
  else Ok (set_fail s n).

Definition resetPC (s : BPU) (new_pc : Z) : res BPU :=
  res_fold (λ s tid, let! t := nth_res (threads s) tid in with_thread s tid (set_pc t new_pc))
    s (seqZ 0 numThreads).

End Ops.

#[global] Arguments Thread B : clear implicits.
#[global] Arguments BPU B : clear implicits.

End Bpu.
