(* ===== verification/BpuHist.v ===== *)
(** The global history and the history manager.

    [checkHistory] rebuilds the history from the entries of the history manager; the
    lemmas below say when it agrees with the history the predictor uses, and what the
    operations of the history manager do to a list of entries with consecutive ids. *)
From S2P Require Import Prelude Bitset FoldedHist BpCommon Ftq Bpu.
Import FoldedHist BpCommon Bpu.

Module BpuHist.

Section Hist.

Context {B : Type} {BO : DynamicBitset B} {BL : DynamicBitsetLaws B}.
Context {BC : DynamicBitsetCmp B} {BCL : DynamicBitsetCmpLaws B}.
Implicit Types g : B.

(** One entry shifts its outcome in. *)
Definition shift_entry (g : B) (e : HistoryEntry) : B :=
  histShiftIn (he_shamt e) (he_cond_taken e) g.
Definition replay (g : B) (h : list HistoryEntry) : B := foldl shift_entry g h.

Definition shamts (h : list HistoryEntry) : Z := sumZ he_shamt h.
Definition shamts_ok (h : list HistoryEntry) : Prop := Forall (λ e, 0 ≤ he_shamt e)%Z h.

Lemma replay_app g h k : replay g (h ++ k) = replay (replay g h) k.
Proof. apply foldl_app. Qed.

Lemma size_replay g h : bs_size (replay g h) = bs_size g.
Proof.
  revert g. induction h as [|e h IH]; intros g; [done|]. simpl. unfold replay in IH.
  rewrite IH. apply size_histShiftIn.
Qed.

(** The lowest [n] bits agree. *)
Definition agree (n : Z) (g g' : B) : Prop :=
  bs_size g' = bs_size g ∧
  ∀ i, (0 ≤ i < n)%Z → (i < bs_size g)%Z → bs_test g' i = bs_test g i.

Lemma agree_shift n g g' e :
  agree n g g' → (0 ≤ he_shamt e)%Z → agree (n + he_shamt e) (shift_entry g e) (shift_entry g' e).
Proof.
  intros [Hs Ha] Hn. unfold shift_entry. split; [by rewrite !size_histShiftIn|].
  intros i Hi. rewrite size_histShiftIn. intros Hi2. unfold histShiftIn.
  destruct (Z.eqb_spec (he_shamt e) 0) as [E|E]; [apply Ha; lia|].
  rewrite !bs_test_put by (rewrite bs_size_shl; lia). destruct (i =? 0)%Z; [done|].
  rewrite !bs_test_shl by lia. destruct (Z.leb_spec (he_shamt e) i); [|done]. simpl. apply Ha; lia.
Qed.

Lemma agree_replay h n g g' :
  agree n g g' → shamts_ok h → agree (n + shamts h) (replay g h) (replay g' h).
Proof.
  intros Ha Hh. revert n g g' Ha. unfold shamts. induction Hh as [|e h He _ IH]; intros n g g' Ha.
  - simpl. by rewrite Z.add_0_r.
  - rewrite sumZ_cons, Z.add_assoc. simpl. apply IH. by apply agree_shift.
Qed.

Lemma ideal_hist_spec p h :
  shamts_ok h →
  (0 ≤ (ideal_hist (B:=B) p h).1 ≤ shamts h)%Z ∧
  (ideal_hist p h).2 = replay (bs_new (historyBits p)) h.
Proof.
  unfold ideal_hist. generalize (bs_new (historyBits p)) as g.
  assert (∀ g n m, shamts_ok h → (0 ≤ n ≤ m)%Z →
    let r := foldl (λ '(n, ideal) e, if negb (he_shamt e =? 0)%Z then
      (u32 (n + he_shamt e), bs_put (bs_shl ideal (he_shamt e)) 0 (he_cond_taken e))
      else (n, ideal)) (n, g) h in
    (0 ≤ r.1 ≤ m + shamts h)%Z ∧ r.2 = replay g h) as Hgen.
  { induction h as [|e h IH]; intros g n m Hh Hn; simpl.
    { unfold shamts, sumZ. simpl. split; [lia|done]. }
    apply Forall_cons in Hh as [He Hh]. unfold shamts in *. rewrite sumZ_cons, Z.add_assoc.
    unfold shift_entry, histShiftIn. destruct (Z.eqb_spec (he_shamt e) 0) as [E|E]; simpl.
    - rewrite E. apply IH; [done|lia].
    - apply IH; [done|]. pose proof (wrapu_range 32 (n + he_shamt e) ltac:(lia)) as [? ?].
      unfold u32, wrapu in *. pose proof (Z.mod_le (n + he_shamt e) (2 ^ 32)). lia. }
  intros g Hh. apply (Hgen g 0%Z 0%Z); [done|lia].
Qed.

(** The check passes when the history was built by the entries from any start. *)
Lemma checkHistory_ok p h g0 :
  (0 ≤ historyBits p)%Z → shamts_ok h → bs_size g0 = historyBits p →
  checkHistory p h (replay g0 h) = Ok tt.
Proof.
  intros Hb Hh Hg. unfold checkHistory. destruct (ideal_hist_spec p h Hh) as [Hn Hr].
  destruct (ideal_hist p h) as [n ideal]. simpl in Hn, Hr. subst ideal.
  assert (bs_eqb (bs_resize (replay (bs_new (historyBits p)) h) (Z.min n (historyBits p)))
    (bs_resize (replay g0 h) (Z.min n (historyBits p))) = true) as ->; [|done].
  assert (bs_size (bs_new (historyBits p)) = historyBits p) as Hs by (by apply bs_size_new).
  assert (agree 0 g0 (bs_new (historyBits p))) as A0 by (split; [congruence|lia]).
  pose proof (agree_replay h 0 _ _ A0 Hh) as [_ Ha]. rewrite size_replay in Ha.
  apply bs_eqb_spec. rewrite !bs_size_resize by lia. split; [done|]. intros i Hi.
  rewrite !bs_test_resize by (rewrite ?size_replay; lia). rewrite !size_replay, Hs, Hg.
  f_equal. apply Ha; lia.
Qed.

End Hist.

(** ** Entries with consecutive ids *)

Definition consecutive (b : Z) (h : list HistoryEntry) : Prop :=
  map he_streamId h = seqZ b (Z.of_nat (length h)).

Lemma consecutive_cons b e h :
  consecutive b (e :: h) ↔ he_streamId e = b ∧ consecutive (b + 1) h.
Proof.
  unfold consecutive. simpl length. rewrite seqZ_cons by lia. simpl.
  replace (Z.pred (Z.of_nat (S (length h)))) with (Z.of_nat (length h)) by lia. split.
  - intros [=]. done.
  - intros [-> ->]. done.
Qed.

Lemma consecutive_app b h k :
  consecutive b (h ++ k) ↔ consecutive b h ∧ consecutive (b + Z.of_nat (length h)) k.
Proof.
  revert b. induction h as [|e h IH]; intros b.
  - cbn [length app]. rewrite Z.add_0_r. by split; [|intros []].
  - cbn [app]. rewrite !consecutive_cons, IH. cbn [length].
    replace (b + 1 + Z.of_nat (length h))%Z with (b + Z.of_nat (S (length h)))%Z by lia. tauto.
Qed.

Lemma hm_commit_spec b h id :
  consecutive b h → hm_commit h id = drop (Z.to_nat (id - b + 1)) h.
Proof.
  revert b. induction h as [|e h IH]; intros b Hc; [by rewrite drop_nil|].
  apply consecutive_cons in Hc as [He Hc]. unfold hm_commit in *. rewrite filter_cons, He.
  destruct (decide (id < b)%Z) as [Hlt|Hge].
  - replace (Z.to_nat (id - b + 1)) with 0 by lia. cbn [drop]. f_equal. rewrite (IH _ Hc).
    by replace (Z.to_nat (id - (b + 1) + 1)) with 0 by lia.
  - rewrite (IH _ Hc). replace (Z.to_nat (id - b + 1)) with (S (Z.to_nat (id - (b + 1) + 1))) by lia.
    done.
Qed.

Lemma hm_squash_spec b pre e post id shamt taken bi :
  consecutive b (pre ++ e :: post) → id = (b + Z.of_nat (length pre))%Z →
  hm_squash (pre ++ e :: post) id shamt taken bi =
    pre ++ [mkHist (he_pc e) shamt taken (isCall bi) (isReturn bi) (br_getEnd bi) id].
Proof.
  revert b. induction pre as [|e' pre IH]; intros b Hc ->.
  - cbn [app length] in *. rewrite Z.add_0_r. apply consecutive_cons in Hc as [He Hc].
    unfold hm_squash. cbn [flat_map]. rewrite He, Z.eqb_refl. cbn [app]. f_equal.
    assert (∀ b' l, (b < b')%Z → consecutive b' l → flat_map (λ e, if (he_streamId e =? b)%Z then
      [mkHist (he_pc e) shamt taken (isCall bi) (isReturn bi) (br_getEnd bi) (he_streamId e)]
      else if (b <? he_streamId e)%Z then [] else [e]) l = []) as Hd.
    { intros b' l. revert b'. induction l as [|x l IHl]; intros b' Hb Hl; [done|].
      apply consecutive_cons in Hl as [Hx Hl]. cbn [flat_map].
      rewrite Hx. destruct (Z.eqb_spec b' b), (Z.ltb_spec b b'); try lia. apply (IHl (b' + 1)%Z); [lia|done]. }
    by rewrite (Hd (b + 1)%Z) by (done || lia).
  - cbn [app length] in *. apply consecutive_cons in Hc as [He Hc].
    unfold hm_squash in *. cbn [flat_map]. rewrite He.
    destruct (Z.eqb_spec b (b + Z.of_nat (S (length pre)))),
      (Z.ltb_spec (b + Z.of_nat (S (length pre))) b); try lia. cbn [app]. f_equal.
    rewrite (IH (b + 1)%Z); [done|done|lia].
Qed.

End BpuHist.
