(* ===== verification/BpuInv.v ===== *)
(** The invariant of the decoupled branch predictor.

    The history manager has one entry per fetch target of the predicting thread, in the
    same order; every target saved the histories as they were when it was predicted, and
    the current histories follow from them; the folded histories of TAGE, ITTAGE and, when
    enabled, MicroTAGE and MGSC are folds of the histories they follow, in the components
    and in what was saved.  Every operation
    keeps this and, with it, none of the assertions of the predictor fails. *)
From S2P Require Import Prelude Bitset FoldedHist BpCommon Ras RasProps Ftq TageHist MgscHist Bpu BpuHist.
Import FoldedHist BpCommon Ftq Bpu BpuHist.

Module BpuInv.

(** ** The first two cells of an array *)

Lemma arr_get0 {A} (a : A) l : nth_res (a :: l) 0 = Ok a.
Proof. done. Qed.
Lemma arr_get1 {A} (a b : A) l : nth_res (a :: b :: l) 1 = Ok b.
Proof. done. Qed.
Lemma arr_set0 {A} (a a' : A) l : set_nth (a :: l) 0 a' = Ok (a' :: l).
Proof. done. Qed.
Lemma arr_set1 {A} (a b b' : A) l : set_nth (a :: b :: l) 1 b' = Ok (a :: b' :: l).
Proof.
  unfold set_nth. cbn [length]. by rewrite (proj2 (Z.ltb_lt 1 (Z.of_nat (S (S (length l)))))) by lia.
Qed.

(** ** Folds of the empty history *)

Definition tage0 (tables : list (Z * Z * Z)) : TageHist.TageHist :=
  TageHist.mkTage (map (λ x, mkFolded x.1.1 x.2 16 0) tables)
    (map (λ x, mkFolded x.1.1 x.1.2 16 0) tables)
    (map (λ x, mkFolded x.1.1 (x.1.2 - 1) 16 0) tables).

(** The tables have at least two index bits and three tag bits, and fold at least two
    bits of a history that the predictor keeps. *)
Definition tables_ok (size : Z) (tables : list (Z * Z * Z)) : Prop :=
  Forall (λ '(hl, tb, ib), (2 ≤ hl ≤ size)%Z ∧ (3 ≤ tb ≤ 31)%Z ∧ (2 ≤ ib ≤ 31)%Z) tables.

(** The histories have the size of the configuration, and there are as many local
    histories as it says. *)
Abbreviation hists_ok p := (MgscHist.sizes_ok (mgscParams p) (historyBits p)).

Section Props.

Context {B : Type} {BO : DynamicBitset B} {BL : DynamicBitsetLaws B}.
Context {BC : DynamicBitsetCmp B} {BCL : DynamicBitsetCmpLaws B}.
Context (p : BpuParams).

Abbreviation Target := (FetchTarget B (option Metas)).
Abbreviation cfgT := (tage0 (tageTables p)).
Abbreviation cfgI := (tage0 (ittageTables p)).
Abbreviation cfgM := (tage0 (microtageTables p)).

Record bpu_params_ok : Prop := {
  bp_stages : (3 ≤ numStages p)%nat;
  bp_delay : (rasDelay p < numStages p)%nat;
  bp_hist : (0 < historyBits p)%Z;
  bp_ftq : (0 < ftq_size p)%Z;
  bp_ras : RasProps.ras_params_ok (rasParams p);
  bp_tage : tables_ok (historyBits p) (tageTables p);
  bp_ittage : tables_ok (historyBits p) (ittageTables p);
  bp_microtage : tables_ok (historyBits p) (microtageTables p);
  bp_mgsc : MgscHist.mgsc_params_ok (mgscParams p) (historyBits p)
}.

Context (Hp : bpu_params_ok).

Lemma fold_zero_range fh (g : B) :
  wf_folded fh g → (∀ i, (0 ≤ i < bs_size g)%Z → bs_test g i = false) → fold fh g = Some 0%Z.
Proof.
  intros [Hfl Hhl _] Hz. apply fold_unique; [lia|lia|]. intros j Hj.
  rewrite Z.testbit_0_l, parity_false; [by rewrite andb_false_r|].
  intros i Hi. unfold folds_to, hist_fun. by rewrite Hz by lia.
Qed.

Lemma list0_ok (f : Z * Z * Z → Z) tables size (g : B) :
  bs_size g = size → (∀ i, (0 ≤ i < size)%Z → bs_test g i = false) →
  Forall (λ x, 2 ≤ x.1.1 ≤ size ∧ 2 ≤ f x ≤ 31)%Z tables →
  let l := map (λ x, mkFolded x.1.1 (f x) 16 0) tables in
  res_mapM (λ x, mkFoldedHist x.1.1 (f x) 16) tables = Ok l ∧
  TageHist.list_ok l g l ∧ Forall (TageHist.cfg_ok size) l.
Proof.
  intros Hg Hz Ht. simpl. induction Ht as [|x tables [H1 H2] Ht IH]; simpl.
  - split; [done|]. split; [split|]; constructor.
  - destruct IH as (IH1 & [IH2 IH3] & IH4). unfold mkFoldedHist at 1. unfold staticMaxShamtLimit.
    rewrite (proj2 (Z.leb_le 16 16)), (proj2 (Z.ltb_lt (f x + 16) 64)) by lia.
    cbn [assert_ res_bind]. rewrite IH1. cbn [res_bind]. split; [done|].
    split; [|by constructor]. split; constructor; try done.
    unfold consistent. rewrite fold_zero_range; [done| |by rewrite Hg].
    split; simpl; unfold staticMaxShamtLimit; lia.
Qed.

Lemma tage_new_ok tables :
  tables_ok (historyBits p) tables →
  TageHist.TageHist_new tables = Ok (tage0 tables) ∧
  TageHist.tage_ok (tage0 tables) (bs_new (B:=B) (historyBits p)) (tage0 tables) ∧
  TageHist.tage_cfg (historyBits p) (tage0 tables).
Proof.
  intros Ht. pose proof (bp_hist Hp) as Hb.
  pose proof (bs_size_new (B:=B) (historyBits p) ltac:(lia)) as Hs.
  pose proof (bs_test_new (B:=B) (historyBits p)) as Hz.
  destruct (list0_ok (λ x, x.1.2) tables _ _ Hs (λ i, Hz i)) as (E1 & O1 & C1).
  { eapply Forall_impl; [exact Ht|]. intros [[hl tb] ib]; simpl. lia. }
  destruct (list0_ok (λ x, x.1.2 - 1)%Z tables _ _ Hs (λ i, Hz i)) as (E2 & O2 & C2).
  { eapply Forall_impl; [exact Ht|]. intros [[hl tb] ib]; simpl. lia. }
  destruct (list0_ok (λ x, x.2) tables _ _ Hs (λ i, Hz i)) as (E3 & O3 & C3).
  { eapply Forall_impl; [exact Ht|]. intros [[hl tb] ib]; simpl. lia. }
  unfold TageHist.TageHist_new, tage0.
  assert (∀ (f g : Z * Z * Z → res FoldedHistBase) l, (∀ x, f x = g x) → res_mapM f l = res_mapM g l)
    as Hext by (intros f g l E; induction l as [|x l IH]; simpl; [done|by rewrite E, IH]).
  rewrite (Hext (λ '(hl, tb, ib), mkFoldedHist hl tb 16) (λ x, mkFoldedHist x.1.1 x.1.2 16) tables), E1
    by (by intros [[]]). cbn [res_bind].
  rewrite (Hext (λ '(hl, tb, ib), mkFoldedHist hl (tb - 1) 16) (λ x, mkFoldedHist x.1.1 (x.1.2 - 1) 16) tables), E2
    by (by intros [[]]). cbn [res_bind].
  rewrite (Hext (λ '(hl, tb, ib), mkFoldedHist hl ib 16) (λ x, mkFoldedHist x.1.1 x.2 16) tables), E3
    by (by intros [[]]). cbn [res_bind].
  split; [done|]. by split; [split|].
Qed.

(** ** The invariant *)

(** Folded histories that agree with the global, path, backward and local histories. *)
Record folds_ok (h ph bh : B) (lh : list B) (tg it : TageHist.TageHist) (mu : TageHist.MicroTAGE)
    (mg : MgscHist.MgscHist) : Prop := {
  fo_tage : TageHist.tage_ok cfgT ph tg;
  fo_ittage : TageHist.tage_ok cfgI ph it;
  fo_microtage : microtageEnabled p = true → TageHist.micro_ok cfgM ph mu;
  fo_mgsc : mgscEnabled p = true → MgscHist.mgsc_ok (mgscParams p) h ph bh lh mg
}.

(** The data saved with a prediction made under the given histories. *)
Definition metas_ok (h ph bh : B) (lh : list B) (o : option Metas) : Prop :=
  ∃ m, o = Some m ∧ RasProps.meta_wf (rasParams p) (mt_ras m) ∧
    folds_ok h ph bh lh (mt_tage m) (mt_ittage m) (TageHist.of_meta (mt_microtage m)) (mt_mgsc m).

Record target_ok (t : Target) : Prop := {
  to_tid : ft_tid t = 0%Z;
  to_hists : hists_ok p (ft_history t) (ft_phistory t) (ft_bwhistory t) (ft_lhistory t);
  to_metas : metas_ok (ft_history t) (ft_phistory t) (ft_bwhistory t) (ft_lhistory t) (predMetas t)
}.

(** The queue, the history manager and the current history. *)
Record hist_inv (q : Queue Target) (h : list HistoryEntry) (cur : B) : Prop := {
  hi_ids : consecutive (baseTargetId q) h;
  hi_len : length h = length (cap q);
  hi_shamts : shamts_ok h;
  hi_start : ∃ g0, bs_size g0 = historyBits p ∧ cur = replay g0 h ∧
    ∀ k t, cap q !! k = Some t → ft_history t = replay g0 (take k h)
}.

(** The components agree with the current histories. *)
Record comps_ok (c : Comps) (h ph bh : B) (lh : list B) : Prop := {
  co_ras : RasProps.ras_wf (rasParams p) (ras c);
  co_folds : folds_ok h ph bh lh (tage c) (ittage c) (microtage c) (mgsc c)
}.

(** [n] bounds the number of targets made so far. *)
Record queue_inv (n : Z) (q : Queue Target) : Prop := {
  qi_base : (1 ≤ baseTargetId q)%Z;
  qi_bound : (baseTargetId q + q_size q ≤ n)%Z;
  qi_start : cap q = [] → baseTargetId q = 1%Z;
  qi_targets : Forall target_ok (cap q)
}.

Record thread_inv (t : Thread B) (c : Comps) : Prop := {
  ti_stages : length (predsOfEachStage t) = numStages p;
  ti_hists : hists_ok p (s0History t) (s0PHistory t) (s0BwHistory t) (s0LHistory t);
  ti_bubbles : (numOverrideBubbles t < Z.of_nat (numStages p))%Z;
  ti_pending : validprediction t = true → squashing t = false →
    metas_ok (s0History t) (s0PHistory t) (s0BwHistory t) (s0LHistory t) (metas c)
}.

Definition mk_state (t0 t1 : Thread B) (ts : list (Thread B)) (q0 q1 : Queue Target)
    (qs : list (Queue Target)) (ss : list Z) (rr : Z) (h : list HistoryEntry) (c : Comps) (fc : Z)
    : BPU B :=
  mkBPU (t0 :: t1 :: ts) (mkFTQ numThreads (ftq_size p :: ftq_size p :: ss) (q0 :: q1 :: qs) rr)
    h c fc.

Inductive bpu_inv (n : Z) : BPU B → Prop :=
  | bpu_inv_intro t0 t1 ts q0 q1 qs ss rr h c fc :
      thread_inv t0 c → validprediction t1 = false → cap q1 = [] →
      queue_inv n q0 → hist_inv q0 h (s0History t0) → 
      comps_ok c (s0History t0) (s0PHistory t0) (s0BwHistory t0) (s0LHistory t0) →
      bpu_inv n (mk_state t0 t1 ts q0 q1 qs ss rr h c fc).

Lemma bpu_inv_mono n m s : (n ≤ m)%Z → bpu_inv n s → bpu_inv m s.
Proof.
  intros Hn [t0 t1 ts q0 q1 qs ss rr h c fc H1 H2 H3 [] H5 H6]. constructor; try done.
  split; try done. lia.
Qed.

(** A history of zeros folds to zero. *)
Lemma mgsc_new_ok :
  let z := bs_new (B:=B) (historyBits p) in
  MgscHist.mgsc_ok (mgscParams p) z z z
    (replicate (Z.to_nat (MgscHist.numEntriesFirstLocalHistories (mgscParams p))) z)
    (MgscHist.mgsc0 (mgscParams p)).
Proof.
  pose proof (bp_hist Hp) as Hb. intros z.
  apply (MgscHist.mgsc0_ok _ _ (bp_mgsc Hp)). intros fh Hfh. unfold z. clear z.
  pose proof (bs_size_new (B:=B) (historyBits p) ltac:(lia)) as Hs.
  assert (wf_folded fh (bs_new (B:=B) (historyBits p)) ∧ folded fh = 0%Z) as [Hwf H0].
  { pose proof (bp_mgsc Hp) as Hm. split.
    - rewrite !elem_of_app in Hfh.
      assert (∀ l, Forall (MgscHist.dir_cfg (historyBits p)) l → fh ∈ l →
        wf_folded fh (bs_new (B:=B) (historyBits p))) as Hd.
      { intros l Hl Hin. rewrite Forall_forall in Hl. destruct (Hl _ Hin) as (? & ? & ? & _).
        split; rewrite ?Hs; unfold staticMaxShamtLimit; lia. }
      destruct Hfh as [H1|[H1|[H1|H1]]]; [by apply (Hd _ (MgscHist.mp_bw_cfg _ _ Hm))|
        by apply (Hd _ (MgscHist.mp_l_cfg _ _ Hm))|by apply (Hd _ (MgscHist.mp_g_cfg _ _ Hm))|].
      pose proof (MgscHist.mp_p_cfg _ _ Hm) as Hl. rewrite Forall_forall in Hl.
      destruct (Hl _ H1) as (? & ? & ?). split; rewrite ?Hs; unfold staticMaxShamtLimit; lia.
    - rewrite !elem_of_app in Hfh. unfold MgscHist.tables0 in Hfh.
      destruct Hfh as [H1|[H1|[H1|H1]]]; apply list_elem_of_fmap in H1 as (hl & -> & _); done. }
  unfold consistent. rewrite fold_zero_range; [by rewrite H0|done|].
  intros i Hi. apply bs_test_new. by rewrite Hs in Hi.
Qed.

Lemma bpu_new_inv : ∃ s, BPU_new p = Ok s ∧ bpu_inv 1 s.
Proof.
  destruct (RasProps.new_wf (rasParams p) (bp_ras Hp)) as (r & Hr & Wr).
  destruct (tage_new_ok _ (bp_tage Hp)) as (Ht & Ot & _).
  destruct (tage_new_ok _ (bp_ittage Hp)) as (Hi & Oi & _).
  destruct (tage_new_ok _ (bp_microtage Hp)) as (Hmu & Omu & _).
  unfold BPU_new, TageHist.MicroTAGE_new.
  rewrite Hr, Ht, Hi, Hmu, (MgscHist.initStorage_ok _ _ (bp_mgsc Hp)). cbn [res_bind].
  unfold FTQ_new, numThreads, MaxThreads.
  rewrite (proj2 (Z.leb_le 2 (Z.of_nat 4))) by lia. cbn [assert_ res_bind].
  eexists. split; [done|].
  change (bpu_inv 1 (mk_state (thread_new p) (thread_new p) [thread_new p; thread_new p]
    (mkQueue [] 1 1) (mkQueue [] 1 1) [mkQueue [] 1 1; mkQueue [] 1 1] [0%Z; 0%Z] 0 []
    (mkComps r cfgT cfgI (TageHist.mkMicro cfgM []) (MgscHist.mgsc0 (mgscParams p)) None) 0)).
  pose proof (bs_size_new (B:=B) (historyBits p) ltac:(pose proof (bp_hist Hp); lia)) as Hs.
  constructor; try done.
  - split; simpl; [by rewrite length_imap, length_replicate| |pose proof (bp_stages Hp); lia|done].
    split; simpl; try done; [by apply Forall_replicate|]. rewrite length_replicate.
    pose proof (MgscHist.mp_local _ _ (bp_mgsc Hp)). lia.
  - split; simpl; try done; [constructor|]. exists (bs_new (historyBits p)).
    split; [done|]. split; [done|]. intros k t Hk. by rewrite lookup_nil in Hk.
  - split; [done|]. split; simpl; try done; intros _; [by apply TageHist.micro_new_ok|apply mgsc_new_ok].
Qed.

(** ** The histories after a shift *)

Lemma shift_local_ok h ph bh lh start sh t pc target pt bsh bt :
  hists_ok p h ph bh lh →
  ∃ lg lh', shift_local p start sh t lh = Ok lh' ∧
    nth_res lh (MgscHist.getPcIndex (mgscParams p) start) = Ok lg ∧
    set_nth lh (MgscHist.getPcIndex (mgscParams p) start) (histShiftIn sh t lg) = Ok lh' ∧
    hists_ok p (histShiftIn sh t h) (pHistShiftIn 2 pt ph pc target) (histShiftIn bsh bt bh) lh'.
Proof.
  intros [H1 H2 H3 H4 H5]. unfold shift_local.
  destruct (MgscHist.cell _ _ (bp_mgsc Hp) lh start H5) as (lg & -> & Hlg & Hset). cbn [res_bind].
  rewrite Hset. exists lg. eexists. do 3 (split; [done|]).
  split; rewrite ?size_histShiftIn, ?size_pHistShiftIn, ?length_insert; try done.
  apply Forall_insert; [done|]. rewrite size_histShiftIn.
  by eapply (Forall_lookup_1 (λ g, bs_size g = historyBits p)).
Qed.

End Props.
End BpuInv.
