(* ===== verification/BpuSteps.v ===== *)
(** The operations of the branch predictor keep its invariant. *)
From S2P Require Import Prelude Bitset FoldedHist BpCommon Ras RasProps Ftq TageHist MgscHist Bpu BpuHist BpuInv.
Import FoldedHist BpCommon Ftq Bpu BpuHist BpuInv.

Module BpuSteps.

Lemma hist_loop_nonneg cs bit l n : (0 ≤ n)%Z → (0 ≤ (hist_loop cs bit l n).1)%Z.
Proof.
  revert n. induction l as [|e l IH]; intros n Hn; simpl; [done|].
  destruct (be_valid e); [|by apply IH]. destruct (isCond (be_info e)); [|done].
  destruct (find_pc cs (be_pc e)) as [[]|]; simpl; [lia|apply IH; lia|apply IH; lia].
Qed.

Section Steps.

Context {B : Type} {BO : DynamicBitset B} {BL : DynamicBitsetLaws B}.
Context {BC : DynamicBitsetCmp B} {BCL : DynamicBitsetCmpLaws B}.
Context (p : BpuParams) (Hp : bpu_params_ok p).

Abbreviation Target := (FetchTarget B (option Metas)).
Abbreviation inv := (bpu_inv (B:=B) p).

Lemma queue_q_ok n (q : Queue Target) : queue_inv p n q → (n < 2 ^ 64)%Z → q_ok q.
Proof. intros [] Hn. split; lia. Qed.

(** Reading and writing the threads of a state. *)
Lemma thread_0 t0 t1 ts q0 q1 qs ss rr h c fc :
  nth_res (threads (mk_state (B:=B) p t0 t1 ts q0 q1 qs ss rr h c fc)) 0 = Ok t0.
Proof. done. Qed.
Lemma thread_1 t0 t1 ts q0 q1 qs ss rr h c fc :
  nth_res (threads (mk_state (B:=B) p t0 t1 ts q0 q1 qs ss rr h c fc)) 1 = Ok t1.
Proof. done. Qed.
Lemma with_thread_0 t0 t0' t1 ts q0 q1 qs ss rr h c fc :
  with_thread (mk_state (B:=B) p t0 t1 ts q0 q1 qs ss rr h c fc) 0 t0' =
    Ok (mk_state p t0' t1 ts q0 q1 qs ss rr h c fc).
Proof. done. Qed.
Lemma with_thread_1 t0 t1 t1' ts q0 q1 qs ss rr h c fc :
  with_thread (mk_state (B:=B) p t0 t1 ts q0 q1 qs ss rr h c fc) 1 t1' =
    Ok (mk_state p t0 t1' ts q0 q1 qs ss rr h c fc).
Proof. unfold with_thread. cbn [threads mk_state]. by rewrite arr_set1. Qed.

(** The histories of a thread. *)
Definition hists_of (t : Thread B) : B * B * B * list B :=
  (s0History t, s0PHistory t, s0BwHistory t, s0LHistory t).
Abbreviation comps_at c t := (comps_ok p c (s0History t) (s0PHistory t) (s0BwHistory t) (s0LHistory t)).
Abbreviation hists_at t := (hists_ok p (s0History t) (s0PHistory t) (s0BwHistory t) (s0LHistory t)).

(** A thread whose histories do not change. *)
Lemma inv_thread0 n t0 t0' t1 ts q0 q1 qs ss rr h c fc :
  inv n (mk_state p t0 t1 ts q0 q1 qs ss rr h c fc) → thread_inv p t0' c →
  hists_of t0' = hists_of t0 →
  inv n (mk_state p t0' t1 ts q0 q1 qs ss rr h c fc).
Proof.
  intros Hs Ht E. injection E as E1 E2 E3 E4. inversion Hs; subst.
  constructor; rewrite ?E1, ?E2, ?E3, ?E4; done.
Qed.

(** ** The components *)

Lemma phist_cfg (ph : B) : bs_size ph = historyBits p →
  TageHist.tage_cfg (bs_size ph) (tage0 (tageTables p)) ∧
  TageHist.tage_cfg (bs_size ph) (tage0 (ittageTables p)) ∧
  TageHist.tage_cfg (bs_size ph) (tage0 (microtageTables p)).
Proof.
  intros ->. split; [|split]; eapply (tage_new_ok (B:=B)); try done; apply Hp.
Qed.

(** The path history after a prediction. *)
Definition path_after (pred : FullBTBPrediction) (ph : B) : B :=
  let '(pc, target, taken) := getPHistInfo pred in pHistShiftIn 2 taken ph pc target.
Definition hist_after (pred : FullBTBPrediction) (h : B) : B :=
  histShiftIn (getHistInfo pred).1 (getHistInfo pred).2 h.
Definition bw_after (pred : FullBTBPrediction) (h : B) : B :=
  histShiftIn (getBwHistInfo pred).1 (getBwHistInfo pred).2 h.

Lemma specUpdate_ok c h ph bh lh pred :
  comps_ok p c h ph bh lh → hists_ok p h ph bh lh →
  ∃ c' lh', specUpdate p c h ph bh lh pred = Ok c' ∧ metas c' = metas c ∧
    shift_local p (bbStart pred) (getHistInfo pred).1 (getHistInfo pred).2 lh = Ok lh' ∧
    hists_ok p (hist_after pred h) (path_after pred ph) (bw_after pred bh) lh' ∧
    comps_ok p c' (hist_after pred h) (path_after pred ph) (bw_after pred bh) lh'.
Proof.
  intros [Hr [Ht Hi Hmu Hmg]] Hs. destruct (phist_cfg ph (MgscHist.so_ph _ _ _ _ _ _ Hs)) as (Ct & Ci & Cm).
  unfold specUpdate, TageHist.specUpdatePHist, TageHist.mu_specUpdatePHist, path_after, hist_after,
    bw_after, Ras.specUpdateHist.
  pose proof (hist_loop_nonneg (condTakens pred) (λ _, true) (btbEntries pred) 0 ltac:(lia)) as Hsh.
  fold (getHistInfo pred) in Hsh.
  assert (0 ≤ (getBwHistInfo pred).1)%Z as Hbsh by (apply hist_loop_nonneg; lia).
  destruct (getPHistInfo pred) as [[pc target] taken] eqn:EP.
  destruct (getHistInfo pred) as [sh tk] eqn:EH. destruct (getBwHistInfo pred) as [bsh btk] eqn:EB.
  cbn [fst snd] in *.
  destruct (shift_local_ok p Hp h ph bh lh (bbStart pred) sh tk pc target taken bsh btk Hs)
    as (lg & lh' & El & En & Es & Hs').
  assert (∃ mu', (if microtageEnabled p then TageHist.mu_doUpdateHist (microtage c) ph taken pc target
    else Ok (microtage c)) = Ok mu' ∧ (microtageEnabled p = true →
      TageHist.micro_ok (tage0 (microtageTables p)) (pHistShiftIn 2 taken ph pc target) mu'))
    as (mu' & -> & Hmu').
  { destruct (microtageEnabled p); [|by eexists].
    destruct (TageHist.micro_update_ok _ ph _ taken pc target Cm (Hmu eq_refl)) as (mu' & -> & ?). by exists mu'. }
  assert (∃ mg', (if mgscEnabled p then MgscHist.mg_specUpdate (mgscParams p) (mgsc c) h ph bh lh pred
    else Ok (mgsc c)) = Ok mg' ∧ (mgscEnabled p = true →
      MgscHist.mgsc_ok (mgscParams p) (histShiftIn sh tk h) (pHistShiftIn 2 taken ph pc target)
        (histShiftIn bsh btk bh) lh' mg')) as (mg' & -> & Hmg').
  { destruct (mgscEnabled p); [|by eexists].
    destruct (MgscHist.mgsc_spec_ok _ _ (bp_mgsc _ Hp) h ph bh lh lh' (mgsc c) pred sh tk pc target taken
      bsh btk lg Hs (Hmg eq_refl) EH EP EB Hsh Hbsh En Es) as (mg' & -> & ?). by exists mg'. }
  destruct (TageHist.tage_update_ok _ ph _ taken pc target Ct Ht) as (t' & -> & Ht').
  destruct (RasProps.apply_branch_ok _ (bp_ras _ Hp) _ (be_info (getTakenEntry pred)) Hr)
    as (r' & -> & Hr').
  destruct (TageHist.tage_update_ok _ ph _ taken pc target Ci Hi) as (i' & -> & Hi'). cbn [res_bind].
  eexists _, lh'. do 4 (split; [done|]). by split.
Qed.

Lemma checkFolded_ok c h ph bh lh : comps_ok p c h ph bh lh → checkFolded p c h ph lh = Ok tt.
Proof.
  intros [_ [Ht Hi Hmu Hmg]]. unfold checkFolded. destruct (TageHist.tage_check_ok _ _ _ Ht) as [-> _].
  destruct (TageHist.tage_check_ok _ _ _ Hi) as [_ ->]. cbn [res_bind].
  destruct (microtageEnabled p); [rewrite (TageHist.micro_check_ok _ _ _ (Hmu eq_refl))|]; cbn [res_bind];
    (destruct (mgscEnabled p); [|done]);
    exact (MgscHist.mgsc_check_ok _ _ (bp_mgsc _ Hp) _ _ _ _ _ (Hmg eq_refl)).
Qed.

(** ** A prediction enters the queue *)

Lemma backId_next n (q : Queue Target) :
  queue_inv p n q → (n < 2 ^ 64)%Z → u64 (q_backId q + 1) = (baseTargetId q + q_size q)%Z.
Proof.
  intros Hq Hn. rewrite q_backId_val by (by eapply queue_q_ok). destruct Hq. unfold q_size in *.
  rewrite u64_small; [lia|split; lia].
Qed.

Lemma updateHistory_ok n t0 t1 ts q0 q1 qs ss rr h c fc (entry : Target) :
  ft_tid entry = 0%Z → queue_inv p n q0 → (n < 2 ^ 64)%Z → comps_at c t0 → hists_at t0 →
  ∃ e lh c' t0',
    updateHistoryForPrediction p (mk_state p t0 t1 ts q0 q1 qs ss rr h c fc) entry =
      Ok (mk_state p t0' t1 ts q0 q1 qs ss rr (h ++ [e]) c' fc) ∧
    t0' = set_hists t0 (shift_entry (s0History t0) e) (path_after (finalPred t0) (s0PHistory t0))
            (bw_after (finalPred t0) (s0BwHistory t0)) lh ∧
    (0 ≤ he_shamt e)%Z ∧ he_streamId e = (baseTargetId q0 + q_size q0)%Z ∧
    metas c' = metas c ∧ hists_at t0' ∧ comps_at c' t0'.
Proof.
  intros Ht Hq Hn Hc Hh.
  destruct (specUpdate_ok c _ _ _ _ (finalPred t0) Hc Hh) as (c' & lh & Hsp & Hm & El & Hh' & Hc').
  unfold updateHistoryForPrediction. rewrite Ht. cbn [threads mk_state]. rewrite arr_get0.
  cbn [res_bind comps mk_state]. rewrite Hsp. cbn [res_bind].
  pose proof (hist_loop_nonneg (condTakens (finalPred t0)) (λ _, true) (btbEntries (finalPred t0)) 0
    ltac:(lia)) as Hsh. fold (getHistInfo (finalPred t0)) in Hsh. unfold hist_after, bw_after, path_after in *.
  destruct (getHistInfo (finalPred t0)) as [shamt taken]. cbn [fst snd] in *.
  unfold backId, q_of. cbn [ftq queue mk_state]. rewrite arr_get0. cbn [res_bind].
  rewrite (backId_next n) by done. destruct (getBwHistInfo (finalPred t0)) as [bw_shamt bw_taken].
  destruct (getPHistInfo (finalPred t0)) as [[p_pc p_target] p_taken]. cbn [fst snd] in *.
  rewrite El. cbn [res_bind]. unfold with_thread. cbn [threads with_hm with_comps mk_state]. rewrite arr_set0.
  cbn [res_bind]. rewrite (checkFolded_ok _ _ _ _ _ Hc'). cbn [res_bind].
  eexists (mkHist _ shamt taken _ _ _ _), lh, c', _. split; [done|]. by split.
Qed.

Lemma hist_inv_push q h cur e (t : Target) :
  hist_inv p q h cur → ft_history t = cur → (0 ≤ he_shamt e)%Z →
  he_streamId e = (baseTargetId q + q_size q)%Z →
  hist_inv p (mkQueue (cap q ++ [t]) (baseTargetId q) (fetchptr q)) (h ++ [e]) (shift_entry cur e).
Proof.
  intros [Hi Hl Hs (g0 & Hg & Hcur & Ht)] Hf He Hid. split; cbn [cap baseTargetId].
  - apply consecutive_app. split; [done|]. apply consecutive_cons. split; [|done].
    unfold q_size in Hid. by rewrite Hl.
  - rewrite !length_app, Hl. done.
  - apply Forall_app. split; [done|]. by constructor.
  - exists g0. split; [done|]. split; [by rewrite replay_app, <- Hcur|]. intros k t' Hk.
    apply lookup_app_Some in Hk as [Hk|[Hge Hk]].
    + rewrite take_app_le; [by apply Ht|]. apply lookup_lt_Some in Hk. lia.
    + apply list_lookup_singleton_Some in Hk as [Hk <-].
      rewrite take_app_le by lia. rewrite take_ge by lia. by rewrite Hf.
Qed.

(** Thread 0 is not being squashed. *)
Definition running (s : BPU B) : Prop :=
  match threads s with t0 :: _ => squashing t0 = false | [] => False end.

(** Thread 0 has a prediction that can be enqueued in this cycle. *)
Definition ready (s : BPU B) : bool :=
  match threads s, queue (ftq s) with
  | t0 :: _, q0 :: _ =>
      validprediction t0 && negb (0 <? numOverrideBubbles t0)%Z && negb (ftq_size p <=? q_size q0)%Z &&
      negb (s0PC t0 =? MaxAddr)%Z
  | _, _ => false
  end.

(** How many targets thread 0 has queued. *)
Definition len0 (s : BPU B) : nat :=
  match queue (ftq s) with q0 :: _ => length (cap q0) | [] => 0 end.

(** The histories saved with the target of thread 0 that has the given id. *)
Definition saved_of (t : Target) : B * B * B * list B :=
  (ft_history t, ft_phistory t, ft_bwhistory t, ft_lhistory t).
Definition q_saved (q : Queue Target) (id : Z) : option (B * B * B * list B) :=
  if (baseTargetId q <=? id)%Z then saved_of <$> cap q !! Z.to_nat (id - baseTargetId q) else None.
Definition saved (s : BPU B) (id : Z) : option (B * B * B * list B) :=
  match queue (ftq s) with q :: _ => q_saved q id | [] => None end.

(** The id the next target of thread 0 gets. *)
Definition next_id (s : BPU B) : Z :=
  match queue (ftq s) with q :: _ => (baseTargetId q + q_size q)%Z | [] => 0%Z end.

(** A target that stays queued keeps what was saved with it. *)
Definition keeps (s s' : BPU B) : Prop :=
  ∀ id v v', saved s id = Some v → saved s' id = Some v' → v' = v.

Lemma saved_mk t0 t1 ts q0 q1 qs ss rr h c fc id :
  saved (mk_state p t0 t1 ts q0 q1 qs ss rr h c fc) id = q_saved q0 id.
Proof. done. Qed.

Lemma q_saved_app (q : Queue Target) t fp id v v' :
  q_saved q id = Some v → q_saved (mkQueue (cap q ++ [t]) (baseTargetId q) fp) id = Some v' → v' = v.
Proof.
  unfold q_saved. cbn [cap baseTargetId]. destruct (_ <=? id)%Z; [|done]. rewrite !fmap_Some.
  intros (x & Hx & ->) (x' & Hx' & ->).
  rewrite lookup_app_l in Hx' by (by eapply lookup_lt_Some). congruence.
Qed.

Lemma q_saved_last (q : Queue Target) t fp :
  q_saved (mkQueue (cap q ++ [t]) (baseTargetId q) fp) (baseTargetId q + q_size q) = Some (saved_of t).
Proof.
  unfold q_saved, q_size. cbn [cap baseTargetId]. rewrite (proj2 (Z.leb_le _ _)) by lia.
  replace (Z.to_nat (baseTargetId q + Z.of_nat (length (cap q)) - baseTargetId q))
    with (length (cap q)) by lia.
  by rewrite lookup_app_r, Nat.sub_diag by lia.
Qed.

Lemma q_saved_take (q : Queue Target) k t t' fp id v v' :
  cap q !! k = Some t → saved_of t' = saved_of t →
  q_saved q id = Some v →
  q_saved (mkQueue (take k (cap q) ++ [t']) (baseTargetId q) fp) id = Some v' → v' = v.
Proof.
  intros Hk Ht. unfold q_saved. cbn [cap baseTargetId].
  destruct (Z.leb_spec (baseTargetId q) id); [|done]. rewrite !fmap_Some.
  intros (x & Hx & ->) (x' & Hx' & ->). apply lookup_app_Some in Hx' as [Hx'|[Hge Hx']].
  - apply lookup_take_Some in Hx' as [Hx' _]. congruence.
  - apply list_lookup_singleton_Some in Hx' as [Hj <-].
    pose proof (lookup_lt_Some _ _ _ Hk). rewrite length_take in Hge, Hj.
    replace (Z.to_nat (id - baseTargetId q)) with k in Hx by lia. congruence.
Qed.

Lemma q_saved_drop (q : Queue Target) k b fp id v v' :
  b = (baseTargetId q + Z.of_nat k)%Z →
  q_saved q id = Some v → q_saved (mkQueue (drop k (cap q)) b fp) id = Some v' → v' = v.
Proof.
  intros ->. unfold q_saved. cbn [cap baseTargetId].
  destruct (Z.leb_spec (baseTargetId q) id), (Z.leb_spec (baseTargetId q + Z.of_nat k) id); try done.
  rewrite !fmap_Some. intros (x & Hx & ->) (x' & Hx' & ->). rewrite lookup_drop in Hx'.
  replace (k + Z.to_nat (id - (baseTargetId q + Z.of_nat k)))%nat with (Z.to_nat (id - baseTargetId q))
    in Hx' by lia. congruence.
Qed.

Lemma keeps_ftq s s' : ftq s' = ftq s → keeps s s'.
Proof. intros E id v v' Hv Hv'. unfold saved in *. rewrite E in Hv'. congruence. Qed.

Lemma process0_ok n s :
  inv n s → running s → (n < 2 ^ 64)%Z →
  ∃ s', processNewPrediction p s 0 = Ok s' ∧ inv (n + 1) s' ∧
    if ready s then len0 s' = S (len0 s) ∧ keeps s s' ∧
      saved s' (next_id s) = hists_of <$> head (threads s) else s' = s.
Proof.
  intros Hs Hrun Hn.
  assert (ready s = false → ∃ s', Ok s = Ok s' ∧ inv (n + 1) s' ∧
    if ready s then len0 s' = S (len0 s) ∧ keeps s s' ∧
      saved s' (next_id s) = hists_of <$> head (threads s) else s' = s) as Hskip.
  { intros ->. exists s. split; [done|]. split; [|done]. eapply bpu_inv_mono; [|done]. lia. }
  destruct Hs as [t0 t1 ts q0 q1 qs ss rr h c fc Ht0 Hv1 Hc1 Hq Hh Hc]. simpl in Hrun.
  unfold processNewPrediction, ready in *. cbn [threads mk_state ftq queue] in *. rewrite arr_get0. cbn [res_bind].
  destruct (validprediction t0) eqn:Hv; [|by apply Hskip]. cbn [negb andb] in *.
  destruct (0 <? numOverrideBubbles t0)%Z; [by apply Hskip|]. cbn [negb andb] in *.
  unfold full, q_of. cbn [ftq queue ftqSize mk_state]. rewrite !arr_get0. cbn [res_bind].
  destruct (Z.leb_spec (ftq_size p) (q_size q0)) as [|Hroom]; [by apply Hskip|]. cbn [negb andb] in *.
  destruct (s0PC t0 =? MaxAddr)%Z; [by apply Hskip|]. cbn [negb] in *. clear Hskip.
  unfold with_thread at 1. cbn [threads mk_state]. rewrite arr_set0. 
  cbn [res_bind ftq historyManager comps resolveDequeueFailCounter mk_state].
  set (entry := createFetchTargetEntry p t0 0 (metas c)).
  set (t0' := set_pc t0 _).
  destruct (updateHistory_ok n t0' t1 ts q0 q1 qs ss rr h c fc entry) as
    (e & lh & c' & t0'' & Hu & Et & He & Hid & Hm & Hh' & Hc'); try done; [apply Ht0|].
  match goal with |- context [updateHistoryForPrediction p ?x entry] =>
    change x with (mk_state p t0' t1 ts q0 q1 qs ss rr h c fc) end.
  rewrite Hu. cbn [res_bind]. unfold insert, q_of, mk_state. cbn [ftq queue ftqSize].
  change (ft_tid entry) with 0%Z. rewrite !arr_get0. cbn [res_bind].
  rewrite (proj2 (Z.ltb_lt _ _) Hroom). cbn [assert_ res_bind]. unfold with_q. cbn [queue].
  rewrite arr_set0. cbn [res_bind threads mk_state]. rewrite arr_get0. cbn [res_bind].
  unfold with_thread. cbn [threads with_ftq mk_state]. rewrite arr_set0. cbn [res_bind]. eexists. split; [done|].
  split; [|split; [unfold len0; simpl; rewrite length_app; simpl; lia|split]].
  2: { intros id v v'. apply q_saved_app. }
  2: { apply (q_saved_last q0 entry (fetchptr q0)). }
  eapply (bpu_inv_intro p (n + 1)%Z _ t1 ts (mkQueue (cap q0 ++ [entry]) (baseTargetId q0) (fetchptr q0))
    q1 qs ss rr (h ++ [e]) c' fc); try done.
  - split; [subst t0''; apply Ht0|exact Hh'|subst t0''; apply Ht0|done].
  - pose proof Hq as [Hb1 Hb2 Hb3 Hb4]. split; cbn [cap baseTargetId]; try done.
    + unfold q_size in *. cbn [cap]. rewrite length_app. simpl. lia.
    + by destruct (cap q0).
    + apply Forall_app. split; [done|]. constructor; [|done]. split; [done|apply Ht0|].
      by apply (ti_pending _ _ _ Ht0).
  - cbn [s0History set_prediction]. subst t0''. by apply hist_inv_push.
Qed.

Lemma process1_ok n s : inv n s → processNewPrediction p s 1 = Ok s.
Proof.
  intros [t0 t1 ts q0 q1 qs ss rr h c fc Ht0 Hv1 Hc1 Hq Hh Hc].
  unfold processNewPrediction. cbn [threads mk_state]. rewrite arr_get1. cbn [res_bind].
  by rewrite Hv1.
Qed.

(** The end of a cycle counts a bubble down. *)
Definition count_bubble (t : Thread B) : Thread B :=
  if (0 <? numOverrideBubbles t)%Z then
    set_prediction t (predsOfEachStage t) (finalPred t) (numOverrideBubbles t - 1) (validprediction t)
  else t.

Lemma bubble0_ok n s :
  inv n s →
  ∃ s', (let! t := nth_res (threads s) 0 in
    if (0 <? numOverrideBubbles t)%Z then
      with_thread s 0 (set_prediction t (predsOfEachStage t) (finalPred t) (numOverrideBubbles t - 1)
        (validprediction t)) else Ok s) = Ok s' ∧ inv n s' ∧ ftq s' = ftq s ∧
    head (threads s') = count_bubble <$> head (threads s).
Proof.
  intros Hs. pose proof Hs as Hs'. destruct Hs as [t0 t1 ts q0 q1 qs ss rr h c fc Ht0].
  rewrite thread_0. cbn [res_bind]. unfold count_bubble.
  destruct (0 <? numOverrideBubbles t0)%Z eqn:Hb.
  - rewrite with_thread_0. eexists. split; [done|]. split; [|by cbn; rewrite Hb].
    eapply inv_thread0; [done| |done..]. split; [apply Ht0..| |apply Ht0].
    cbn. pose proof (ti_bubbles _ _ _ Ht0). lia.
  - eexists. split; [done|]. split; [done|]. by cbn; rewrite Hb.
Qed.

Lemma bubble1_ok n s :
  inv n s →
  ∃ s', (let! t := nth_res (threads s) 1 in
    if (0 <? numOverrideBubbles t)%Z then
      with_thread s 1 (set_prediction t (predsOfEachStage t) (finalPred t) (numOverrideBubbles t - 1)
        (validprediction t)) else Ok s) = Ok s' ∧ inv n s' ∧ ftq s' = ftq s ∧
    head (threads s') = head (threads s).
Proof.
  intros Hs. pose proof Hs as Hs'. destruct Hs as [t0 t1 ts q0 q1 qs ss rr h c fc].
  rewrite thread_1. cbn [res_bind]. destruct (0 <? numOverrideBubbles t1)%Z.
  - rewrite with_thread_1. eexists. split; [done|]. split; [|done]. by constructor.
  - eexists. split; [done|]. by split.
Qed.

(** ** Requesting a prediction *)

Lemma chosen_in l q : chosenPrediction l = Ok q → q ∈ l.
Proof.
  unfold chosenPrediction. destruct (find has_entries (rev l)) as [q'|] eqn:Hf.
  - intros [= <-]. apply find_some in Hf as [Hin _]. by apply list_elem_of_In, in_rev.
  - intros [_ Hq]%nth_res_Ok. by eapply list_elem_of_lookup_2.
Qed.

Lemma chosen_ok l : (0 < length l)%nat → ∃ q, chosenPrediction l = Ok q.
Proof.
  intros Hl. unfold chosenPrediction. destruct (find _ _) as [q|]; [by exists q|].
  destruct l as [|q l]; [simpl in Hl; lia|]. by exists q.
Qed.

Lemma nth_res_total {A} (l : list A) i : (0 ≤ i < Z.of_nat (length l))%Z → ∃ a, nth_res l i = Ok a.
Proof.
  intros Hi. destruct (RasProps.slot_nth l _ i eq_refl Hi) as (a & Ha & _). by exists a.
Qed.

Lemma first_hit_bound l q : (first_hit_stage p l q ≤ Z.of_nat (length l))%Z.
Proof.
  induction l as [|x l IH]; cbn [first_hit_stage length]; [lia|].
  destruct (pred_match x q (predictWidth p)).1; lia.
Qed.

Lemma generate_ok n t0 t1 ts q0 q1 qs ss rr h c fc t preds :
  queue_inv p n q0 → (n < 2 ^ 64)%Z → length preds = numStages p →
  ∃ t', generateFinalPredAndCreateBubbles p (mk_state p t0 t1 ts q0 q1 qs ss rr h c fc) 0 t preds
    = Ok t' ∧ length (predsOfEachStage t') = numStages p ∧
    squashing t' = squashing t ∧ s0PC t' = s0PC t ∧ hists_of t' = hists_of t ∧
    (numOverrideBubbles t' < Z.of_nat (numStages p))%Z.
Proof.
  intros Hq Hn Hl. pose proof (bp_stages _ Hp) as H3.
  destruct (chosen_ok preds) as [ch Hch]; [lia|].
  destruct (nth_res_total preds 2) as [a2 H2]; [lia|].
  destruct (nth_res_total preds (Z.of_nat (length preds) - 1)) as [al Hal]; [lia|].
  unfold generateFinalPredAndCreateBubbles. rewrite Hch, H2, Hal. cbn [res_bind].
  unfold backId, q_of. cbn [ftq queue mk_state]. rewrite arr_get0. cbn [res_bind].
  assert (∀ b, (if b && negb (q_backId q0 =? 0)%Z then
    let! _ := get_at (last (cap q0)) "back of an empty deque" in Ok tt else Ok tt) = Ok tt) as Hback.
  { intros b. destruct b; [|done]. cbn [andb]. rewrite q_backId_val by (by eapply queue_q_ok).
    destruct Hq as [Hb1 _ Hb3 _]. unfold q_size. destruct (cap q0) as [|x l] eqn:Hcap.
    - rewrite Hb3 by done. done.
    - rewrite last_cons. destruct (_ =? 0)%Z; [done|]. by destruct (last l). }
  rewrite Hback. cbn [res_bind]. eexists. split; [done|].
  split; [cbn [predsOfEachStage set_prediction]; unfold clearPreds; by rewrite length_map|].
  do 3 (split; [done|]). cbn [numOverrideBubbles set_prediction].
  pose proof (first_hit_bound (take (length preds - 1) preds) ch) as Hh. rewrite length_take in Hh. lia.
Qed.

Lemma request_ok n s outs :
  inv n s → running s → (n < 2 ^ 64)%Z →
  ∃ s', requestNewPrediction p s 0 outs = Ok s' ∧ inv n s' ∧ running s' ∧ ftq s' = ftq s ∧
    ∃ t t', head (threads s) = Some t ∧ head (threads s') = Some t' ∧
      validprediction t' = true ∧ s0PC t' = s0PC t ∧ hists_of t' = hists_of t ∧
      (numOverrideBubbles t' < Z.of_nat (numStages p))%Z.
Proof.
  intros [t0 t1 ts q0 q1 qs ss rr h c fc Ht0 Hv1 Hc1 Hq Hh Hc] Hrun Hn.
  unfold requestNewPrediction. rewrite thread_0. cbn [res_bind].
  set (preds := imap _ _). assert (length preds = numStages p) as Hl
    by (unfold preds; rewrite length_imap; apply Ht0).
  unfold Ras.putPCHistory. rewrite length_map, Hl. pose proof (bp_delay _ Hp) as Hd.
  rewrite (proj2 (Nat.ltb_lt _ _) Hd). cbn [assert_ res_bind]. unfold Ras.getTop_meta.
  pose proof (co_ras _ _ _ _ _ _ Hc) as Hras. cbn [comps mk_state].
  destruct (RasProps.getTop_ok (rasParams p) (ras c) Hras) as [e ->]. cbn [res_bind fst snd].
  set (c' := mkComps (ras c) (tage c) (ittage c) _ _ _).
  match goal with |- context [generateFinalPredAndCreateBubbles p ?x 0 t0 ?l] =>
    change x with (mk_state p t0 t1 ts q0 q1 qs ss rr h c' fc); set (preds' := l) end.
  destruct (generate_ok n t0 t1 ts q0 q1 qs ss rr h c' fc t0 preds' Hq Hn) as
    (t' & -> & L1 & E4 & E5 & E6 & E7).
  { unfold preds'. rewrite length_zip_with, length_app, length_take, length_map, length_replicate. lia. }
  cbn [res_bind]. rewrite with_thread_0. eexists. split; [done|]. split.
  - injection E6 as E1 E2 E3 E8. constructor; simpl; rewrite ?E1, ?E2, ?E3, ?E8; try done.
    + split; simpl; rewrite ?E1, ?E2, ?E3, ?E8; try done; [apply Ht0|]. intros _ _.
      eexists. split; [done|]. split; [split; [apply Hras|split; apply Hras]|].
      destruct (co_folds _ _ _ _ _ _ Hc) as [F1 F2 F3 F4]. split; try done.
      intros Hmu. by apply TageHist.micro_meta_ok, F3.
    + split; apply Hc.
  - split; [cbn; by rewrite E4|]. split; [done|]. eexists t0, _. split; [done|]. split; [done|]. done.
Qed.

(** ** The cycle *)

Definition after_squash (t : Thread B) : Thread B :=
  if squashing t then
    set_flags (set_prediction t (predsOfEachStage t) (finalPred t) 0 false) false (blockPredictionPending t)
  else t.

Lemma tick_squash0_ok n s :
  inv n s → ∃ s', tick_squash s 0 = Ok s' ∧ inv n s' ∧ running s' ∧ ftq s' = ftq s ∧
    head (threads s') = after_squash <$> head (threads s).
Proof.
  intros Hs. pose proof Hs as Hs'. destruct Hs as [t0 t1 ts q0 q1 qs ss rr h c fc Ht0].
  unfold tick_squash, after_squash. rewrite thread_0. cbn [res_bind].
  destruct (squashing t0) eqn:Hsq.
  - rewrite with_thread_0. eexists. split; [done|]. split; [|by cbn; rewrite Hsq].
    eapply inv_thread0; [done| |done..].
    split; [apply Ht0..| |done]. cbn. pose proof (bp_stages _ Hp). lia.
  - eexists. split; [done|]. split; [done|]. by cbn; rewrite Hsq.
Qed.

Lemma tick_squash1_ok n s :
  inv n s → running s →
  ∃ s', tick_squash s 1 = Ok s' ∧ inv n s' ∧ running s' ∧ ftq s' = ftq s ∧
    head (threads s') = head (threads s).
Proof.
  intros Hs Hrun. pose proof Hs as Hs'. destruct Hs as [t0 t1 ts q0 q1 qs ss rr h c fc].
  unfold tick_squash. rewrite thread_1. cbn [res_bind]. destruct (squashing t1) eqn:Hsq.
  - rewrite with_thread_1. eexists. split; [done|]. split; [|done]. by constructor.
  - eexists. split; [done|]. by split.
Qed.

Lemma tick_process_ok n s :
  inv n s → running s → (n < 2 ^ 64)%Z →
  ∃ s', res_fold (tick_process p) s (seqZ 0 numThreads) = Ok s' ∧ inv (n + 1) s' ∧
    if ready s then len0 s' = S (len0 s) ∧ keeps s s' ∧
      saved s' (next_id s) = hists_of <$> head (threads s)
    else ftq s' = ftq s ∧ head (threads s') = count_bubble <$> head (threads s).
Proof.
  intros Hs Hrun Hn. change (seqZ 0 numThreads) with [0%Z; 1%Z]. cbn [res_fold].
  unfold tick_process. destruct (process0_ok n s Hs Hrun Hn) as (s1 & -> & H1 & E1). cbn [res_bind].
  destruct (bubble0_ok _ _ H1) as (s2 & -> & H2 & L2 & T2). cbn [res_bind].
  rewrite (process1_ok _ _ H2). cbn [res_bind].
  destruct (bubble1_ok _ _ H2) as (s3 & -> & H3 & L3 & T3). cbn [res_bind]. exists s3.
  split; [done|]. split; [done|]. unfold len0, keeps, saved in *. rewrite L3, L2, T3.
  destruct (ready s); [done|]. by subst s1.
Qed.

(** What a cycle does before it enqueues: the squash pass and the request. *)
Definition tick_request (s : BPU B) (outs : nat → StageOut) : res (BPU B) :=
  let! t := nth_res (threads s) 0 in
  let! b := full (ftq s) 0 in
  if negb (validprediction t) && negb b then
    if blockPredictionPending t then with_thread s 0 (set_flags t (squashing t) false)
    else requestNewPrediction p s 0 outs
  else Ok s.

(** How many cycles thread 0 may still need until it enqueues a target. *)
Definition rank (t : Thread B) : Z :=
  let n := Z.of_nat (numStages p) in
  if squashing t then (n + 2)%Z
  else if validprediction t then (Z.max 0 (numOverrideBubbles t) + 1)%Z
  else if blockPredictionPending t then (n + 1)%Z else n.

Definition room (s : BPU B) : Prop := (Z.of_nat (len0 s) < ftq_size p)%Z.

Lemma tick_request_ok n s outs :
  inv n s → running s → (n < 2 ^ 64)%Z →
  ∃ s', tick_request s outs = Ok s' ∧ inv n s' ∧ running s' ∧ ftq s' = ftq s ∧
    ∃ t t', head (threads s) = Some t ∧ head (threads s') = Some t' ∧ s0PC t' = s0PC t ∧
      hists_of t' = hists_of t ∧
      (room s → (validprediction t' = true → rank t' ≤ rank t)%Z ∧
                (validprediction t' = false → rank t' < rank t)%Z).
Proof.
  intros Hs Hrun Hn. pose proof (request_ok n s outs Hs Hrun Hn) as Hreq. pose proof Hs as Hs'.
  destruct Hs as [t0 t1 ts q0 q1 qs ss rr h c fc Ht0]. unfold tick_request. rewrite thread_0.
  change (full _ 0) with (Ok (ftq_size p <=? q_size q0)%Z). cbn [res_bind].
  cbn in Hrun. unfold rank. rewrite Hrun.
  destruct (validprediction t0) eqn:Hv; cbn [negb andb].
  { eexists. split; [done|]. split; [done|]. split; [done|]. split; [done|]. exists t0, t0.
    do 4 (split; [done|]). intros _. by rewrite Hv, Hrun. }
  destruct (Z.leb_spec (ftq_size p) (q_size q0)) as [Hfull|Hroom]; cbn [negb].
  { eexists. split; [done|]. split; [done|]. split; [done|]. split; [done|]. exists t0, t0.
    do 4 (split; [done|]). unfold room, len0, q_size in *. cbn in *. intros ?. lia. }
  destruct (blockPredictionPending t0) eqn:Hbl.
  - rewrite with_thread_0. eexists. split; [done|]. split; [|split; [done|split; [done|]]].
    + eapply inv_thread0; [done| |done..]. split; [apply Ht0..|]. cbn. by rewrite Hv.
    + eexists t0, _. do 4 (split; [done|]). cbn. rewrite Hv, Hrun.
      intros _. rewrite Hbl. split; [done|intros _; lia].
  - destruct Hreq as (s' & -> & I & R & L & t & t' & Et & Et' & V & P & Hhi & N). exists s'.
    do 4 (split; [done|]). exists t, t'. do 4 (split; [done|]). rewrite V. intros _.
    split; [|done]. cbn in Et. injection Et as <-. intros _. rewrite Hv, Hbl.
    assert (squashing t' = false) as ->. { unfold running in R. destruct (threads s'); [done|]. cbn in Et'. congruence. }
    rewrite Hrun. pose proof (bp_stages _ Hp). lia.
Qed.

Lemma tick_eq s outs :
  tick p s outs =
    let! cur := nth_res (threads s) 0 in
    let! s := tick_squash s 0 in
    let! s := tick_squash s 1 in
    if squashing cur then Ok s
    else let! s := tick_request s outs in res_fold (tick_process p) s (seqZ 0 numThreads).
Proof.
  unfold tick, scheduleThread. change (seqZ 0 numThreads) with [0%Z; 1%Z]. unfold tick_request.
  destruct (nth_res (threads s) 0) as [cur|]; [|done]. cbn [res_bind]. cbn [res_fold].
  destruct (tick_squash s 0) as [s1|]; [|done]. cbn [res_bind].
  destruct (tick_squash s1 1) as [s2|]; [|done]. cbn [res_bind].
  destruct (squashing cur); [done|]. destruct (nth_res (threads s2) 0) as [t|]; [|done]. cbn [res_bind].
  by destruct (full (ftq s2) 0) as [b|].
Qed.

Lemma tick_ok n s outs :
  inv n s → (n < 2 ^ 64)%Z →
  ∃ s', tick p s outs = Ok s' ∧ inv (n + 1) s' ∧ keeps s s' ∧
    ∃ t t', head (threads s) = Some t ∧ head (threads s') = Some t' ∧
      (len0 s' ≠ len0 s → saved s' (next_id s) = Some (hists_of t)) ∧
      (room s → s0PC t ≠ MaxAddr →
       len0 s' = S (len0 s) ∨ len0 s' = len0 s ∧ s0PC t' = s0PC t ∧ (rank t' < rank t)%Z).
Proof.
  intros Hs Hn. rewrite tick_eq.
  assert (∃ t, nth_res (threads s) 0 = Ok t ∧ head (threads s) = Some t) as (t & -> & Ht)
    by (destruct Hs; by eexists). cbn [res_bind].
  destruct (tick_squash0_ok n s Hs) as (s1 & -> & I1 & R1 & L1 & T1). cbn [res_bind].
  destruct (tick_squash1_ok n s1 I1 R1) as (s2 & -> & I2 & R2 & L2 & T2). cbn [res_bind].
  rewrite T1, Ht in T2. cbn in T2. unfold after_squash in T2. destruct (squashing t) eqn:Hsq.
  { exists s2. split; [done|]. split; [eapply bpu_inv_mono; [|done]; lia|].
    split; [apply keeps_ftq; congruence|]. eexists t, _.
    split; [done|]. split; [done|]. split; [unfold len0; by rewrite L2, L1|].
    intros _ _. right. split; [unfold len0; by rewrite L2, L1|]. split; [done|].
    unfold rank. rewrite Hsq. cbn. destruct (blockPredictionPending t); lia. }
  destruct (tick_request_ok n s2 outs I2 R2 Hn) as
    (s3 & -> & I3 & R3 & L3 & t2 & t3 & E2 & E3 & P3 & H3 & K3). cbn [res_bind].
  rewrite T2 in E2. injection E2 as <-.
  destruct (tick_process_ok n s3 I3 R3 Hn) as (s4 & -> & I4 & E4). exists s4.
  split; [done|]. split; [done|].
  assert (∃ t4, head (threads s4) = Some t4) as [t4 Ht4] by (destruct I4; by eexists).
  assert (ftq s3 = ftq s) as Eq by congruence.
  assert (len0 s3 = len0 s) as El by (unfold len0; by rewrite Eq).
  split.
  { destruct (ready s3); [|apply keeps_ftq; destruct E4; congruence].
    destruct E4 as (_ & E4 & _). unfold keeps, saved in *. by rewrite Eq in E4. }
  exists t, t4. split; [done|]. split; [done|]. split.
  { intros Hl. destruct (ready s3); [|exfalso; apply Hl; unfold len0; destruct E4 as [-> _]; by rewrite Eq].
    destruct E4 as (_ & _ & E4). unfold next_id in *. rewrite Eq, E3 in E4. cbn in E4. by rewrite E4, H3. }
  intros Hroom Hpc.
  destruct (ready s3) eqn:Hr; [left; lia|]. right. destruct E4 as [L4 T4].
  rewrite E3, Ht4 in T4. injection T4 as ->. split; [unfold len0 in *; by rewrite L4|].
  destruct K3 as [K3 K3']; [unfold room, len0 in *; by rewrite L2, L1|].
  assert (s0PC (count_bubble t3) = s0PC t3) as -> by (unfold count_bubble; by destruct (_ <? _)%Z).
  split; [done|]. unfold count_bubble, ready in *.
  destruct (threads s3) as [|t3' ts3] eqn:Hts3; [done|]. cbn in E3. injection E3 as ->.
  assert (squashing t3 = false) as Hsq3 by (unfold running in R3; by rewrite Hts3 in R3).
  destruct (validprediction t3) eqn:Hv3.
  - assert (0 < numOverrideBubbles t3)%Z as Hb.
    { destruct (Z.ltb_spec 0 (numOverrideBubbles t3)) as [|Hle]; [done|]. exfalso.
      unfold room, len0 in *. destruct (queue (ftq s3)) as [|q3 qs3] eqn:Hq3.
      - inversion I3; subst; done.
      - cbn [negb andb] in Hr. rewrite P3 in Hr. rewrite (proj2 (Z.eqb_neq _ _) Hpc) in Hr.
        cbn [negb] in Hr. rewrite andb_true_r in Hr. apply negb_false_iff, Z.leb_le in Hr.
        unfold q_size in Hr. lia. }
    rewrite (proj2 (Z.ltb_lt _ _) Hb). specialize (K3 eq_refl). unfold rank in *. cbn.
    rewrite Hsq3, Hv3 in *. lia.
  - specialize (K3' eq_refl). destruct (0 <? numOverrideBubbles t3)%Z; [|done].
    unfold rank in *. cbn. by rewrite Hsq3, Hv3 in *.
Qed.

(** ** Squashes *)

Lemma hist_inv_take q h cur k (t : Target) fp :
  hist_inv p q h cur → cap q !! k = Some t →
  hist_inv p (mkQueue (take k (cap q)) (baseTargetId q) fp) (take k h) (ft_history t).
Proof.
  intros [Hi Hl Hs (g0 & Hg & Hcur & Ht)] Hk. pose proof (lookup_lt_Some _ _ _ Hk) as Hlt.
  split; cbn [cap baseTargetId].
  - rewrite <- (take_drop k h) in Hi. by apply consecutive_app in Hi as [? _].
  - rewrite !length_take. lia.
  - by apply Forall_take.
  - exists g0. split; [done|]. split; [by apply Ht|]. intros j t' Hj.
    apply lookup_take_Some in Hj as [Hj Hjk]. rewrite take_take. rewrite Nat.min_l by lia. by apply Ht.
Qed.

Lemma recoverComps_ok c h ph bh lh (t : Target) lg lh' sh taken bsh btk :
  comps_ok p c h ph bh lh → target_ok p t → length (ft_lhistory t) = length lh →
  (0 ≤ sh)%Z → (0 ≤ bsh)%Z →
  nth_res (ft_lhistory t) (MgscHist.getPcIndex (mgscParams p) (startPC t)) = Ok lg →
  set_nth (ft_lhistory t) (MgscHist.getPcIndex (mgscParams p) (startPC t)) (histShiftIn sh taken lg) = Ok lh' →
  ∃ c', recoverComps p c t sh taken bsh btk = Ok c' ∧ metas c' = metas c ∧
    comps_ok p c' (histShiftIn sh taken (ft_history t))
      (pHistShiftIn 2 taken (ft_phistory t) (br_pc (ft_getBranchInfo t)) (br_target (ft_getBranchInfo t)))
      (histShiftIn bsh btk (ft_bwhistory t)) lh'.
Proof.
  intros [Hr [Ht Hi Hmu Hmg]] [_ Hh (m & Em & Mr & [Mt Mi Mmu Mmg])] Hlen Hsh Hbsh En Es.
  unfold recoverComps. rewrite Em. cbn [get_at res_bind].
  set (pc := br_pc (ft_getBranchInfo t)). set (tgt := br_target (ft_getBranchInfo t)).
  destruct (phist_cfg _ (MgscHist.so_ph _ _ _ _ _ _ Hh)) as (Ct & Ci & Cm).
  assert (∃ mu', (if microtageEnabled p then TageHist.mu_recoverPHist (microtage c) (mt_microtage m)
      (ft_phistory t) taken pc tgt else Ok (microtage c)) = Ok mu' ∧ (microtageEnabled p = true →
      TageHist.micro_ok (tage0 (microtageTables p)) (pHistShiftIn 2 taken (ft_phistory t) pc tgt) mu'))
    as (mu' & -> & Hmu').
  { destruct (microtageEnabled p); [|by eexists].
    destruct (TageHist.micro_recover_ok _ _ _ _ _ taken pc tgt Cm (Hmu eq_refl) (Mmu eq_refl))
      as (mu' & -> & ?). by exists mu'. }
  assert (∃ mg', (if mgscEnabled p then MgscHist.mg_recover (mgscParams p) (mgsc c) (mt_mgsc m) (ft_history t)
      (ft_phistory t) (ft_bwhistory t) (ft_lhistory t) sh taken bsh btk (startPC t) pc tgt
    else Ok (mgsc c)) = Ok mg' ∧ (mgscEnabled p = true →
      MgscHist.mgsc_ok (mgscParams p) (histShiftIn sh taken (ft_history t))
        (pHistShiftIn 2 taken (ft_phistory t) pc tgt) (histShiftIn bsh btk (ft_bwhistory t)) lh' mg'))
    as (mg' & -> & Hmg').
  { destruct (mgscEnabled p); [|by eexists].
    destruct (MgscHist.mgsc_recover_ok _ _ (bp_mgsc _ Hp) _ _ _ _ _ _ _ _ lh' (mgsc c) (mt_mgsc m) sh taken
      pc tgt bsh btk (startPC t) lg Hh (Hmg eq_refl) (Mmg eq_refl) Hlen Hsh Hbsh En Es)
      as (mg' & -> & ?). by exists mg'. }
  destruct (TageHist.tage_recover_ok _ _ _ _ _ taken pc tgt Ct Ht Mt) as (t' & -> & Ht').
  destruct (RasProps.recover_wf _ (bp_ras _ Hp) (ras c) (mt_ras m) (exeTaken t) (exeBranchInfo t) Hr Mr)
    as (r' & -> & Hr').
  destruct (TageHist.tage_recover_ok _ _ _ _ _ taken pc tgt Ci Hi Mi) as (i' & -> & Hi'). cbn [res_bind].
  eexists. split; [done|]. split; [done|]. by split.
Qed.

(** The bits a squash shifts in. *)
Lemma squash_info_ok (t : Target) pc ic at_ rpc :
  (0 ≤ (getHistInfoDuringSquash t pc ic at_).1)%Z ∧
  (getHistInfoDuringSquash t pc ic at_).2 = ic && at_ ∧
  (0 ≤ (getBwHistInfoDuringSquash t pc ic at_ rpc).1)%Z.
Proof. unfold getHistInfoDuringSquash, getBwHistInfoDuringSquash. destruct ic; simpl; split_and!; try done; lia. Qed.

(** The histories of thread [t] after a squash at [target]: those saved with the target,
    shifted by the branches before the squashing instruction and by its outcome. *)
Record recovered (target : Target) (t : Thread B) (pc rpc : Z) (ic at_ : bool) : Prop := {
  re_hist : s0History t =
    histShiftIn (getHistInfoDuringSquash target pc ic at_).1
      (getHistInfoDuringSquash target pc ic at_).2 (ft_history target);
  re_bw : s0BwHistory t =
    histShiftIn (getBwHistInfoDuringSquash target pc ic at_ rpc).1
      (getBwHistInfoDuringSquash target pc ic at_ rpc).2 (ft_bwhistory target);
  re_path : s0PHistory t = pHistShiftIn 2 (ic && at_) (ft_phistory target) pc rpc;
  re_local : shift_local p (startPC target) (getHistInfoDuringSquash target pc ic at_).1
      (getHistInfoDuringSquash target pc ic at_).2 (ft_lhistory target) = Ok (s0LHistory t)
}.

(** What a squash at a target does to the histories of the predictor. *)
Lemma recoverHistory_ok t0 t1 ts q0 q1 qs ss rr h c fc k target e id pc ic at_ st rpc :
  target_ok p target → comps_at c t0 → hists_at t0 →
  hist_inv p (mkQueue (take k (cap q0)) (baseTargetId q0) (fetchptr q0)) (take k h) (ft_history target) →
  consecutive (baseTargetId q0) h → h !! k = Some e → id = (baseTargetId q0 + Z.of_nat k)%Z →
  (ic && at_ = true → br_pc (ft_getBranchInfo target) = pc ∧ br_target (ft_getBranchInfo target) = rpc) →
  ∃ e' ph bh lh c' t0',
    recoverHistoryForSquash p (mk_state p t0 t1 ts q0 q1 qs ss rr h c fc) target id pc ic at_ st rpc =
      Ok (mk_state p t0' t1 ts q0 q1 qs ss rr (take k h ++ [e']) c' fc) ∧
    t0' = set_hists t0 (shift_entry (ft_history target) e') ph bh lh ∧
    (0 ≤ he_shamt e')%Z ∧ he_streamId e' = id ∧ recovered target t0' pc rpc ic at_ ∧
    hists_at t0' ∧ comps_at c' t0' ∧ metas c' = metas c.
Proof.
  intros Ht Hc Hh0 Hh Hids He Hid Hbr. unfold recoverHistoryForSquash. rewrite (to_tid _ _ Ht), thread_0.
  cbn [res_bind]. destruct (squash_info_ok target pc ic at_ rpc) as (Hsh & Htk & Hbsh).
  pose proof (Build_recovered target) as Hrec. specialize (λ t, Hrec t pc rpc ic at_).
  destruct (getHistInfoDuringSquash target pc ic at_) as [sh tk].
  destruct (getBwHistInfoDuringSquash target pc ic at_ rpc) as [bsh btk]. cbn [fst snd] in *. subst tk.
  pose proof (to_hists _ _ Ht) as Hs.
  destruct (shift_local_ok p Hp _ _ _ _ (startPC target) sh (ic && at_) pc rpc (ic && at_) bsh btk Hs)
    as (lg & lh & El & En & Es & Hs').
  cbn [comps mk_state].
  destruct (recoverComps_ok c _ _ _ _ target lg lh sh (ic && at_) bsh btk Hc Ht) as (c' & -> & Hm & Hc'); try done.
  { apply Nat2Z.inj. by rewrite (MgscHist.so_len _ _ _ _ _ _ Hs), (MgscHist.so_len _ _ _ _ _ _ Hh0). }
  assert (comps_ok p c' (histShiftIn sh (ic && at_) (ft_history target))
    (pHistShiftIn 2 (ic && at_) (ft_phistory target) pc rpc) (histShiftIn bsh btk (ft_bwhistory target)) lh) as Hc2.
  { destruct (ic && at_); [by destruct (Hbr eq_refl) as [<- <-]|done]. }
  cbn [res_bind]. rewrite El.
  cbn [res_bind historyManager mk_state]. set (bi := if bool_decide (st = SQUASH_CTRL) then _ else _).
  rewrite <- (take_drop_middle h k e He) in Hids.
  assert (length (take k h) = k) as Hk by (apply lookup_lt_Some in He; rewrite length_take; lia).
  assert (hm_squash (take k h ++ e :: drop (S k) h) id sh (ic && at_) bi =
    take k h ++ [mkHist (he_pc e) sh (ic && at_) (isCall bi) (isReturn bi) (br_getEnd bi) id]) as Hsq
    by (eapply hm_squash_spec; [done|by rewrite Hk]).
  rewrite (take_drop_middle h k e He) in Hsq. rewrite Hsq.
  set (e' := mkHist _ _ _ _ _ _ _). unfold with_thread. cbn [threads with_hm with_comps mk_state].
  rewrite arr_set0. cbn [res_bind].
  destruct Hh as [_ _ Hshs (g0 & Hg & Hcur & _)].
  assert (histShiftIn sh (ic && at_) (ft_history target) = replay g0 (take k h ++ [e'])) as Hrep
    by (by rewrite replay_app, <- Hcur).
  assert (checkHistory p (take k h ++ [e']) (histShiftIn sh (ic && at_) (ft_history target)) = Ok tt) as ->.
  { rewrite Hrep. apply checkHistory_ok; [pose proof (bp_hist _ Hp); lia| |done].
    apply Forall_app. split; [done|]. by constructor. }
  cbn [res_bind]. rewrite (checkFolded_ok _ _ _ _ _ Hc2). cbn [res_bind].
  exists e', (pHistShiftIn 2 (ic && at_) (ft_phistory target) pc rpc),
    (histShiftIn bsh btk (ft_bwhistory target)), lh, c'. eexists. do 4 (split; [done|]).
  split; [by apply Hrec|]. done.
Qed.

Lemma with_resolve_ok (t : Target) taken b r st pc :
  target_ok p t → target_ok p (with_resolve t taken b r st pc).
Proof. intros []. by split. Qed.

Lemma in_queue n (q : Queue Target) id :
  queue_inv p n q → (n < 2 ^ 64)%Z → q_hasTarget q id = true →
  ∃ k t, id = (baseTargetId q + Z.of_nat k)%Z ∧ cap q !! k = Some t ∧ q_get q id = Ok t ∧
    target_ok p t ∧
    ∀ t', ∃ q', q_put q id t' = Ok q' ∧
      q_squashAfter q' id = Ok (mkQueue (take k (cap q) ++ [t']) (baseTargetId q) (u64 (id + 1))).
Proof.
  intros Hq Hn Hid. pose proof (queue_q_ok _ _ Hq Hn) as Hok.
  unfold q_get. rewrite Hid. apply q_hasTarget_iff in Hid; [|done]. unfold q_size in Hid.
  exists (Z.to_nat (id - baseTargetId q)).
  destruct (RasProps.slot_nth (cap q) _ (id - baseTargetId q) eq_refl) as (t & Hn1 & Hn2 & Hset).
  { unfold RasProps.slot. lia. }
  exists t. split; [lia|]. split; [done|]. cbn [assert_ res_bind]. split; [done|].
  split; [by eapply Forall_lookup_1; [apply Hq|]|].
  intros t'. unfold q_put. rewrite Hset. cbn [res_bind]. eexists. split; [done|].
  set (k := Z.to_nat _) in *. assert (k < length (cap q))%nat as Hk by (eapply lookup_lt_Some; done).
  rewrite q_squashAfter_spec; cbn [cap baseTargetId fetchptr].
  - replace (Z.to_nat (id - baseTargetId q + 1)) with (S k) by lia. do 2 f_equal.
    rewrite (take_S_r _ _ t') by (by apply list_lookup_insert_eq).
    by rewrite take_insert_ge by lia.
  - destruct Hok. split; unfold q_size in *; cbn [cap baseTargetId]; rewrite ?length_insert; lia.
Qed.

(** The queue after a squash of its [k]-th target. *)
Lemma queue_cut n (q : Queue Target) k t t' fp :
  queue_inv p n q → cap q !! k = Some t → target_ok p t' →
  queue_inv p n (mkQueue (take k (cap q) ++ [t']) (baseTargetId q) fp).
Proof.
  intros [Hb1 Hb2 Hb3 Hb4] Hk Ht'. pose proof (lookup_lt_Some _ _ _ Hk) as Hlt.
  split; cbn [cap baseTargetId]; try done.
  - unfold q_size in *. cbn [cap]. rewrite length_app, length_take. simpl. lia.
  - by destruct (take k (cap q)).
  - apply Forall_app. split; [by apply Forall_take|]. by constructor.
Qed.

(** A squash of a target in the queue. *)
Lemma handleSquash_ok n s id st pc rpc ic at_ i size :
  inv n s → (n < 2 ^ 64)%Z → hasTarget (ftq s) id 0 = Ok true →
  (ic && at_ = true → st = SQUASH_CTRL ∧ is_Some i) →
  ∃ s', handleSquash p s 0 id st pc rpc ic at_ i size = Ok s' ∧ inv n s' ∧ keeps s s' ∧
    ∃ target t, get (ftq s) id 0 = Ok target ∧ head (threads s') = Some t ∧
      recovered target t pc rpc ic at_ ∧ s0PC t = rpc.
Proof.
  intros [t0 t1 ts q0 q1 qs ss rr h c fc Ht0 Hv1 Hc1 Hq Hh Hc] Hn Hhas Hctrl.
  change (hasTarget _ id 0) with (Ok (q_hasTarget q0 id)) in Hhas. injection Hhas as Hid.
  destruct (in_queue n q0 id Hq Hn Hid) as (k & t & Ek & Hk & Hget & Htok & Hsq).
  unfold handleSquash. rewrite thread_0. cbn [res_bind]. rewrite with_thread_0. cbn [res_bind].
  set (t0' := set_flags t0 true _).
  unfold hasTarget, get, q_of. cbn [ftq queue mk_state]. rewrite !arr_get0. cbn [res_bind].
  rewrite Hid, Hget. cbn [negb res_bind]. set (bi := match st with SQUASH_CTRL => _ | _ => _ end).
  set (t' := with_resolve t at_ bi true st pc). destruct (Hsq t') as (q' & -> & Hq'). cbn [res_bind].
  unfold with_q at 1. cbn [queue]. rewrite arr_set0. cbn [res_bind]. unfold squashAfter, q_of.
  cbn [queue]. rewrite arr_get0. cbn [res_bind]. rewrite Hq'. cbn [res_bind].
  unfold with_q. cbn [queue]. rewrite arr_set0. cbn [res_bind]. set (q2 := mkQueue (_ ++ _) _ _).
  match goal with |- context [recoverHistoryForSquash p ?x t'] =>
    change x with (mk_state p t0' t1 ts q2 q1 qs ss rr h c fc) end.
  pose proof (hist_inv_take q0 h _ k t (u64 (id + 1)) Hh Hk) as Hh1.
  assert (∃ e, h !! k = Some e) as [e He].
  { apply lookup_lt_is_Some_2. rewrite (hi_len _ _ _ _ Hh). by eapply lookup_lt_Some. }
  assert (take k (cap q2) = take k (cap q0)) as Etake.
  { cbn [cap q2]. apply lookup_lt_Some in Hk. rewrite take_app_le by (rewrite length_take; lia).
    by rewrite take_take, Nat.min_id. }
  destruct (recoverHistory_ok t0' t1 ts q2 q1 qs ss rr h c fc k t' e id pc ic at_ st rpc)
    as (e' & ph & bh & lh & c' & t2 & -> & Et2 & Esh & E3 & [R1 R2 R3 R4] & Hh2 & Hc' & Hm); try done.
  - by apply with_resolve_ok.
  - apply Ht0.
  - by rewrite Etake.
  - apply Hh.
  - intros Htk. destruct (Hctrl Htk) as [-> [i' ->]]. done.
  - cbn [res_bind]. rewrite thread_0. cbn [res_bind]. rewrite with_thread_0. eexists. split; [done|].
    split; [|split].
    2: { intros j v v'. by apply (q_saved_take q0 k t t'). }
    2: { exists t. eexists. do 2 (split; [done|]). by split. }
    eapply (bpu_inv_intro p n _ t1 ts q2 q1 qs ss rr (take k h ++ [e']) c' fc); try done.
    + split; cbn [predsOfEachStage set_pc set_prediction set_hists]; try done.
      * unfold clearPreds. rewrite length_map, Et2. apply Ht0.
      * rewrite Et2. apply Ht0.
      * cbn. rewrite Et2. done.
    + eapply queue_cut; [done|done|by apply with_resolve_ok].
    + assert (k < length (cap q0))%nat by (by eapply lookup_lt_Some).
      eapply (hist_inv_push _ _ _ e' t') in Hh1; [|done|done|].
      * cbn [s0History set_pc set_prediction]. rewrite Et2. exact Hh1.
      * rewrite E3, Ek. unfold q_size. cbn [cap baseTargetId]. rewrite length_take. lia.
Qed.

(** A squash of a target that is no longer queued only marks the thread. *)
Lemma handleSquash_miss n s id st pc rpc ic at_ i size :
  inv n s → hasTarget (ftq s) id 0 = Ok false → empty (ftq s) 0 = Ok false →
  ∃ s', handleSquash p s 0 id st pc rpc ic at_ i size = Ok s' ∧ inv n s' ∧ ftq s' = ftq s.
Proof.
  intros Hs Hhas Hne. pose proof Hs as Hs'. destruct Hs as [t0 t1 ts q0 q1 qs ss rr h c fc Ht0].
  unfold handleSquash. rewrite thread_0. cbn [res_bind]. rewrite with_thread_0. cbn [res_bind].
  change (hasTarget _ id 0) with (Ok (q_hasTarget q0 id)) in Hhas |- *. injection Hhas as ->.
  change (empty _ 0) with (Ok (q_empty q0)) in Hne |- *. injection Hne as ->.
  cbn [negb res_bind assert_]. eexists. split; [done|]. split; [|done].
  eapply inv_thread0; [done| |done..]. by split; [apply Ht0..|].
Qed.

(** ** Commit *)

Lemma updateComponents_ok c h ph bh lh (t : Target) :
  comps_ok p c h ph bh lh → target_ok p t →
  ∃ c', updatePredictorComponents p c t = Ok c' ∧ metas c' = metas c ∧ comps_ok p c' h ph bh lh.
Proof.
  intros [Hr Hf] [_ _ (m & Em & Mr & _)]. unfold updatePredictorComponents.
  destruct (isHit t || exeTaken t); [|by eexists].
  rewrite Em. cbn [get_at res_bind].
  destruct (RasProps.update_ok _ (bp_ras _ Hp) (ras c) (mt_ras m) (exeTaken t) (exeBranchInfo t) Hr Mr)
    as (r' & -> & Hr'). cbn [res_bind]. eexists. split; [done|]. split; [done|]. by split.
Qed.

Lemma commit_loop_ok t0 t1 ts q1 qs ss rr hs fc h ph bh lh id fuel :
  ∀ l b fp c, (length l ≤ fuel)%nat → Forall (target_ok p) l → comps_ok p c h ph bh lh →
    (1 ≤ b)%Z → (b + Z.of_nat (length l) < 2 ^ 64)%Z → (id < b + Z.of_nat (length l))%Z →
    ∃ c', commit_loop p fuel (mk_state p t0 t1 ts (mkQueue l b fp) q1 qs ss rr hs c fc) id 0 =
        Ok (mk_state p t0 t1 ts
              (mkQueue (drop (Z.to_nat (id - b + 1)) l) (Z.max b (id + 1)) fp) q1 qs ss rr hs c' fc) ∧
      metas c' = metas c ∧ comps_ok p c' h ph bh lh.
Proof.
  induction fuel as [|fuel IH]; intros l b fp c Hl Ht Hc H1 H2 Hid;
    (destruct l as [|t l]; cbn [length] in *; [|]); try lia;
    unfold commit_loop; fold (commit_loop (B:=B) p);
    unfold empty, frontId, front, q_of; cbn [ftq queue mk_state]; rewrite arr_get0;
    cbn [res_bind q_empty cap baseTargetId negb andb].
  1,2: exists c; rewrite drop_nil, Z.max_l by lia; done.
  destruct (Z.leb_spec b id) as [Hle|Hgt].
  - cbn [hd_error get_at res_bind comps mk_state]. apply Forall_cons in Ht as [Ht Hts].
    destruct (updateComponents_ok c h ph bh lh t Hc Ht) as (c1 & -> & Hm1 & Hc1).
    cbn [comps mk_state res_bind]. unfold commitTarget, q_of. cbn [queue]. rewrite arr_get0.
    cbn [res_bind cap]. unfold with_q. cbn [queue]. rewrite arr_set0. cbn [res_bind fetchptr baseTargetId].
    rewrite u64_small by (split; lia).
    destruct (IH l (b + 1)%Z fp c1) as (c' & Hloop & Hm & Hc'); try done; try lia.
    match goal with |- context [commit_loop p fuel ?x id 0] =>
      change x with (mk_state p t0 t1 ts (mkQueue l (b + 1) fp) q1 qs ss rr hs c1 fc) end.
    rewrite Hloop. exists c'. split; [|by rewrite Hm].
    replace (Z.to_nat (id - b + 1)) with (S (Z.to_nat (id - (b + 1) + 1))) by lia. cbn [drop].
    by replace (Z.max (b + 1) (id + 1)) with (Z.max b (id + 1)) by lia.
  - exists c. replace (Z.to_nat (id - b + 1)) with 0 by lia. rewrite Z.max_l by lia. done.
Qed.

Lemma hist_inv_drop q h cur k :
  (k ≤ length (cap q))%nat → hist_inv p q h cur →
  hist_inv p (mkQueue (drop k (cap q)) (baseTargetId q + Z.of_nat k) (fetchptr q)) (drop k h) cur.
Proof.
  intros Hk [Hi Hl Hs (g0 & Hg & Hcur & Ht)]. split; cbn [cap baseTargetId].
  - rewrite <- (take_drop k h) in Hi. apply consecutive_app in Hi as [_ Hi].
    rewrite length_take, Nat.min_l in Hi by lia. done.
  - rewrite !length_drop. lia.
  - by apply Forall_drop.
  - exists (replay g0 (take k h)). split; [by rewrite size_replay|].
    rewrite <- replay_app, take_drop. split; [done|]. intros j t Hj. rewrite lookup_drop in Hj.
    rewrite (Ht _ _ Hj), <- replay_app. f_equal. symmetry.
    apply take_take_drop.
Qed.

Lemma commit_ok n s id :
  inv n s → (n < 2 ^ 64)%Z →
  (∀ q, q_of (ftq s) 0 = Ok q → cap q = [] ∨ (u32 id < baseTargetId q + q_size q - 1)%Z) →
  ∃ s', commit p s id 0 = Ok s' ∧ inv n s' ∧ keeps s s'.
Proof.
  intros Hs Hn Hlast. pose proof Hs as Hs'.
  destruct Hs as [t0 t1 ts q0 q1 qs ss rr h c fc Ht0 Hv1 Hc1 Hq Hh Hc].
  specialize (Hlast q0 eq_refl). unfold commit, q_of.
  set (tid := u32 id) in *. clearbody tid. clear id. rename tid into id. cbn [ftq queue mk_state]. rewrite arr_get0.
  cbn [res_bind]. destruct Hlast as [Hnil|Hlast].
  { unfold q_empty. rewrite Hnil. eexists. split; [done|]. split; [done|]. by apply keeps_ftq. }
  destruct (q_empty q0) eqn:Hemp; [eexists; split; [done|]; split; [done|]; by apply keeps_ftq|].
  pose proof Hq as [Hb1 Hb2 Hb3 Hb4]. unfold q_size in *. destruct q0 as [l b fp]. cbn [cap baseTargetId] in *.
  destruct (commit_loop_ok t0 t1 ts q1 qs ss rr h fc (s0History t0) (s0PHistory t0) (s0BwHistory t0)
    (s0LHistory t0) id (length l) l b fp c)
    as (c' & Hloop & Hm & Hc'); try done; try lia.
  match goal with |- context [commit_loop p _ ?x id 0] =>
    change x with (mk_state p t0 t1 ts (mkQueue l b fp) q1 qs ss rr h c fc) end.
  rewrite Hloop. cbn [res_bind]. eexists. split; [done|].
  set (k := Z.to_nat (id - b + 1)) in *.
  cbn [historyManager mk_state]. rewrite (hm_commit_spec b) by apply Hh. fold k.
  assert (0 < length l)%nat as Hl0 by (destruct l; [done|simpl; lia]).
  assert (Z.of_nat k = Z.max 0 (id - b + 1)) as Hk by (unfold k; lia). clearbody k.
  split.
  2: { intros j v v'. apply (q_saved_drop (mkQueue l b fp) k). cbn [baseTargetId]. lia. }
  eapply (bpu_inv_intro p n t0 t1 ts (mkQueue (drop k l) (Z.max b (id + 1)) fp) q1 qs ss rr
    (drop k h) c' fc); try done.
  - split; try apply Ht0. rewrite Hm. apply Ht0.
  - split; cbn [cap baseTargetId]; try lia.
    + unfold q_size. cbn [cap]. rewrite length_drop. lia.
    + intros Hd. apply (f_equal length) in Hd. rewrite length_drop in Hd. simpl in Hd. lia.
    + by apply Forall_drop.
  - pose proof (hist_inv_drop (mkQueue l b fp) h (s0History t0) k) as Hd. cbn [cap baseTargetId fetchptr] in Hd.
    replace (b + Z.of_nat k)%Z with (Z.max b (id + 1)) in Hd by lia. apply Hd; [lia|done].
Qed.

(** ** Fetch *)

Lemma consume_ok n s :
  inv n s → (n < 2 ^ 64)%Z → (∀ q, q_of (ftq s) 0 = Ok q → fetchable q = true) →
  ∃ s', consumeFetchTarget s 0 = Ok s' ∧ inv n s' ∧ keeps s s'.
Proof.
  intros [t0 t1 ts q0 q1 qs ss rr h c fc Ht0 Hv1 Hc1 Hq Hh Hc] Hn Hf.
  specialize (Hf q0 eq_refl). unfold consumeFetchTarget, fetching, finishTarget, q_of.
  cbn [ftq queue mk_state]. rewrite arr_get0. cbn [res_bind].
  destruct (fetchable_get q0 (queue_q_ok _ _ Hq Hn) Hf) as (x & -> & _). cbn [res_bind].
  unfold with_q. cbn [queue]. rewrite arr_set0. cbn [res_bind]. eexists. split; [done|].
  split; [|intros j v v' Hv Hv'; unfold saved in *; cbn in *; unfold q_saved in *; cbn in *; congruence].
  eapply (bpu_inv_intro p n t0 t1 ts (mkQueue (cap q0) (baseTargetId q0) (u64 (fetchptr q0 + 1)))
    q1 qs ss rr h c fc); try done.
  - by destruct Hq.
  - by destruct Hh.
Qed.

End Steps.
End BpuSteps.
