(* ===== verification/BpuProps.v ===== *)
(** What the decoupled branch predictor guarantees.

    Over every sequence of cycles, squashes, commits and fetches the assertions of the
    predictor hold, thread 0 predicts again within a bounded number of cycles when its
    queue has room, and a squash restores the histories saved with the squashed target and
    shifts in what the squash reports. *)
From S2P Require Import Prelude Bitset FoldedHist BpCommon Ras RasProps Ftq TageHist MgscHist.
From S2P Require Import Bpu BpuHist BpuInv BpuSteps.
Import FoldedHist BpCommon Ftq Bpu BpuHist BpuInv BpuSteps.

Module BpuProps.

(** ** Outcomes as predicted *)

(** The entries of a block in program order, none before its start. *)
Inductive sorted_from : Z → list BTBEntry → Prop :=
  | sf_nil a : sorted_from a []
  | sf_cons a e l : (a ≤ be_pc e)%Z → sorted_from (be_pc e + 1) l → sorted_from a (e :: l).

Lemma sorted_above a l e : sorted_from a l → e ∈ l → (a ≤ be_pc e)%Z.
Proof.
  intros Hs. revert e. induction Hs as [|a x l Ha Hs IH]; intros e He; [by apply elem_of_nil in He|].
  apply elem_of_cons in He as [->|He]; [done|]. specialize (IH e He). lia.
Qed.

Lemma filter_late start pc l :
  (∀ e, e ∈ l → (pc ≤ be_pc e)%Z) →
  List.filter (λ e, be_valid e && (start <=? be_pc e)%Z && (be_pc e <? pc)%Z) l = [].
Proof.
  induction l as [|x l IH]; intros Hl; [done|]. simpl.
  destruct (Z.ltb_spec (be_pc x) pc) as [Hx|_].
  - specialize (Hl x ltac:(left)). lia.
  - rewrite andb_false_r. apply IH. intros e He. apply Hl. by right.
Qed.

(** Before the taken entry the loop of [getHistInfo] counts what a squash at that entry
    counts. *)
Lemma hist_loop_taken cs bit l a start e n :
  sorted_from a l → (start ≤ a)%Z → find (entry_taken cs) l = Some e →
  isCond (be_info e) = true →
  hist_loop cs bit l n =
    (n + Z.of_nat (length (List.filter (λ x, be_valid x && (start <=? be_pc x)%Z && (be_pc x <? be_pc e)%Z) l))
     + 1, bit e)%Z.
Proof.
  intros Hs. revert n. induction Hs as [|a x l Ha Hs IH]; intros n Hst Hf Hc; [done|].
  simpl in Hf |- *. destruct (entry_taken cs x) eqn:Hx.
  - injection Hf as ->. unfold entry_taken in Hx. rewrite Hc in Hx.
    apply andb_true_iff in Hx as [Hv Hx]. rewrite Hv, Hc.
    destruct (find_pc cs (be_pc e)) as [[]|]; try done.
    rewrite Z.ltb_irrefl, andb_false_r. rewrite filter_late.
    + simpl. f_equal. lia.
    + intros y Hy. pose proof (sorted_above _ _ _ Hs Hy). lia.
  - assert (be_pc x < be_pc e)%Z as Hlt.
    { apply find_some in Hf as [Hin _]. apply list_elem_of_In in Hin.
      pose proof (sorted_above _ _ _ Hs Hin). lia. }
    rewrite (proj2 (Z.leb_le start (be_pc x))), (proj2 (Z.ltb_lt _ _) Hlt) by lia.
    unfold entry_taken in Hx. destruct (be_valid x); simpl in *.
    + destruct (isCond (be_info x)); [|done].
      assert (hist_loop cs bit l (n + 1) = (n + 1 + Z.of_nat (length (List.filter
        (λ x, be_valid x && (start <=? be_pc x)%Z && (be_pc x <? be_pc e)%Z) l)) + 1, bit e)%Z) as E
        by (apply IH; [lia|done|done]).
      destruct (find_pc cs (be_pc x)) as [[]|]; try done; rewrite E; f_equal; lia.
    + apply IH; [lia|done|done].
Qed.

(** When a fetch target is squashed by the conditional branch it was predicted to
    take, with the outcome that was predicted, the history bits, the backward-history
    bits and the path recorded for the squash are those recorded for the prediction, for
    every set of BTB entries in program order. *)
Theorem squash_info_matches {B M} (q : FullBTBPrediction) (t : FetchTarget B M) :
  sorted_from (bbStart q) (btbEntries q) → isTaken q = true →
  isCond (be_info (getTakenEntry q)) = true → isIndirect (be_info (getTakenEntry q)) = false →
  predBTBEntries t = btbEntries q → startPC t = bbStart q →
  let e := getTakenEntry q in
  getHistInfoDuringSquash t (be_pc e) true true = getHistInfo q ∧
  getBwHistInfoDuringSquash t (be_pc e) true true (br_target (be_info e)) = getBwHistInfo q ∧
  getPHistInfo q = (be_pc e, br_target (be_info e), true).
Proof.
  intros Hs Ht Hc Hi Hes Hst e. unfold isTaken in Ht. unfold getTakenEntry in *. subst e.
  destruct (find (entry_taken (condTakens q)) (btbEntries q)) as [e|] eqn:Hf; [|done].
  pose proof (λ bit, hist_loop_taken _ bit _ _ (bbStart q) e 0 Hs ltac:(lia) Hf Hc) as Hl.
  unfold getHistInfoDuringSquash, getBwHistInfoDuringSquash, before_squash, getHistInfo,
    getBwHistInfo, getPHistInfo, getTakenEntry. rewrite Hes, Hst, !Hl, Hf, Ht, !Z.add_0_l.
  unfold getEntryTarget. by rewrite Hi.
Qed.

(** ** Events *)

Inductive event :=
  | EvTick (outs : nat → StageOut)
  | EvControlSquash (id pc corr : Z) (i : CtrlInst) (size : Z) (taken fromCommit : bool)
  | EvNonControlSquash (id pc : Z)
  | EvTrapSquash (id pc : Z)
  | EvCommit (id : Z)
  | EvGetTid
  | EvConsume
  | EvResolve (ok : bool)
  | EvResetPC (pc : Z).

Section Run.

Context {B : Type} {BO : DynamicBitset B} {BL : DynamicBitsetLaws B}.
Context {BC : DynamicBitsetCmp B} {BCL : DynamicBitsetCmpLaws B}.
Context (p : BpuParams).

Abbreviation inv := (bpu_inv (B:=B) p).

(** The callers in fetch, for thread 0. *)
Definition event_step (s : BPU B) (ev : event) : res (BPU B) :=
  match ev with
  | EvTick outs => tick p s outs
  | EvControlSquash id pc corr i size taken fromCommit =>
      controlSquash p s id pc corr i size taken 0 fromCommit
  | EvNonControlSquash id pc => nonControlSquash p s id pc 0
  | EvTrapSquash id pc => trapSquash p s id pc 0
  | EvCommit id => commit p s id 0
  | EvGetTid => let! x := getTargetTid (ftq s) in Ok (with_ftq s x.2)
  | EvConsume => consumeFetchTarget s 0
  | EvResolve ok => if ok then Ok (notifyResolveSuccess s) else notifyResolveFailure p s
  | EvResetPC pc => resetPC s pc
  end.

(** What the callers ensure: a squash comes from an instruction of a queued or committed
    target, so a target has been predicted; commit reports the target before that of the
    instruction at the head, so never the last one; fetch finishes a target it holds. *)
Definition allowed (s : BPU B) (ev : event) : Prop :=
  match ev, queue (ftq s) with
  | EvNonControlSquash _ _, q :: _ | EvTrapSquash _ _, q :: _ => q_empty q = false
  | EvCommit id, q :: _ => cap q = [] ∨ (u32 id < baseTargetId q + q_size q - 1)%Z
  | EvConsume, q :: _ => fetchable q = true
  | _, _ => True
  end.

Inductive reachable : Z → BPU B → Prop :=
  | rc_new s : BPU_new p = Ok s → reachable 1 s
  | rc_step n s ev s' :
      reachable n s → allowed s ev → event_step s ev = Ok s' → reachable (n + 1) s'.

Context (Hp : bpu_params_ok p).

Lemma squash_ok n s id st pc rpc ic at_ i size :
  inv n s → (n < 2 ^ 64)%Z → (∀ q qs, queue (ftq s) = q :: qs → q_empty q = false) →
  (ic && at_ = true → st = SQUASH_CTRL ∧ is_Some i) →
  ∃ s', handleSquash p s 0 id st pc rpc ic at_ i size = Ok s' ∧ inv n s' ∧ keeps s s'.
Proof.
  intros Hs Hn Hne Hc. assert (∃ b, hasTarget (ftq s) id 0 = Ok b ∧ empty (ftq s) 0 = Ok false) as (b & Hb & He).
  { destruct Hs as [t0 t1 ts q0 q1 qs ss rr h c fc]. exists (q_hasTarget q0 id). split; [done|].
    change (empty _ 0) with (Ok (q_empty q0)). f_equal. by eapply Hne. }
  destruct b.
  - destruct (handleSquash_ok p Hp n s id st pc rpc ic at_ i size) as (s' & ? & ? & ? & _); try done.
    by exists s'.
  - destruct (handleSquash_miss p n s id st pc rpc ic at_ i size) as (s' & ? & ? & ?); try done.
    exists s'. split; [done|]. split; [done|]. by apply keeps_ftq.
Qed.

Lemma control_squash_ok n s id pc corr i size taken fc :
  inv n s → (n < 2 ^ 64)%Z →
  ∃ s', controlSquash p s id pc corr i size taken 0 fc = Ok s' ∧ inv n s' ∧ keeps s s' ∧
    (hasTarget (ftq s) (u32 id) 0 = Ok true →
     ∃ target t rt, get (ftq s) (u32 id) 0 = Ok target ∧ head (threads s') = Some t ∧
       recovered p target t pc rt (ci_cond i) taken ∧ s0PC t = rt ∧ (fc = true → rt = corr)).
Proof.
  intros Hs Hn. unfold controlSquash. set (tid := u32 id). clearbody tid. clear id. rename tid into id.
  assert (∃ b, hasTarget (ftq s) id 0 = Ok b ∧ (b = true → ∃ t, get (ftq s) id 0 = Ok t ∧ target_ok p t))
    as (b & Hb & Hget).
  { destruct Hs as [t0 t1 ts q0 q1 qs ss rr h c fc' Ht0 Hv1 Hc1 Hq]. exists (q_hasTarget q0 id).
    split; [done|]. intros Hid. destruct (in_queue p n q0 id Hq Hn Hid) as (k & t & _ & _ & Hget & Ht & _).
    exists t. split; [|done]. exact Hget. }
  rewrite Hb. cbn [res_bind]. destruct b.
  2: { eexists. split; [done|]. split; [done|]. split; [by apply keeps_ftq|]. by intros [=]. }
  cbn [negb]. destruct (Hget eq_refl) as (t & Gt & Ht). rewrite Gt. cbn [res_bind].
  destruct (to_metas _ _ Ht) as (m & Em & _). rewrite Em. cbn [get_at res_bind].
  assert (∃ rt, (if negb fc && ci_return i && negb (ci_nonspec i) then
    Ok (Ras.getTopAddrFromMetas (mt_ras m)) else Ok corr) = Ok rt ∧ (fc = true → rt = corr))
    as (rt & -> & Hrt) by (destruct fc; [by eexists|destruct (_ && _); by eexists]).
  cbn [res_bind].
  destruct (handleSquash_ok p Hp n s id SQUASH_CTRL pc rt (ci_cond i) taken (Some i) size) as
    (s' & E & I & K & target & t' & G & T & R & Rpc); try done.
  exists s'. do 3 (split; [done|]). intros _.
  exists t, t', rt. split; [done|]. by replace t with target by congruence.
Qed.

Lemma gettid_ok n s :
  inv n s → (n < 2 ^ 64)%Z →
  ∃ x, getTargetTid (ftq s) = Ok x ∧ inv n (with_ftq s x.2) ∧ queue x.2 = queue (ftq s).
Proof.
  intros [t0 t1 ts q0 q1 qs ss rr h c fc Ht0 Hv1 Hc1 Hq Hh Hc] Hn. unfold getTargetTid.
  generalize (seqZ (roundRobinPtr (ftq (mk_state p t0 t1 ts q0 q1 qs ss rr h c fc)))
    (Ftq.numThreads (ftq (mk_state p t0 t1 ts q0 q1 qs ss rr h c fc)))) as l.
  assert (fetchable q1 = false) as Hf1 by (unfold fetchable, q_empty; by rewrite Hc1).
  induction l as [|i l IH]; cbn [tid_loop].
  { eexists. split; [done|]. split; [by constructor|done]. }
  cbn [ftq mk_state Ftq.numThreads]. unfold numThreads.
  assert (i `mod` 2 = 0 ∨ i `mod` 2 = 1)%Z as [E|E]
    by (pose proof (Z.mod_pos_bound i 2 ltac:(lia)); lia); rewrite E; unfold q_of at 1; cbn [queue].
  - rewrite arr_get0. cbn [res_bind]. destruct (fetchable q0) eqn:Hf; [|exact IH].
    destruct (fetchable_get q0 (queue_q_ok _ _ _ Hq Hn) Hf) as (x & -> & _). cbn [res_bind].
    eexists. split; [done|]. split; [by constructor|done].
  - rewrite arr_get1. cbn [res_bind]. rewrite Hf1. exact IH.
Qed.

Lemma resolve_ok n s : inv n s → ∃ s', notifyResolveFailure p s = Ok s' ∧ inv n s' ∧ ftq s' = ftq s.
Proof.
  intros [t0 t1 ts q0 q1 qs ss rr h c fc Ht0 Hv1 Hc1 Hq Hh Hc]. unfold notifyResolveFailure.
  destruct (_ <=? _)%Z; [|eexists; split; [done|]; by split; [constructor|]].
  unfold blockPredictionOnce. rewrite thread_0. cbn [res_bind]. rewrite with_thread_0. cbn [res_bind].
  eexists. split; [done|]. split; [|done].
  apply (bpu_inv_intro p n _ t1 ts q0 q1 qs ss rr h c 0); try done.
  by split; apply Ht0.
Qed.

Lemma resetPC_ok n s pc : inv n s → ∃ s', resetPC s pc = Ok s' ∧ inv n s' ∧ ftq s' = ftq s.
Proof.
  intros [t0 t1 ts q0 q1 qs ss rr h c fc Ht0 Hv1 Hc1 Hq Hh Hc]. unfold resetPC.
  change (seqZ 0 numThreads) with [0%Z; 1%Z]. cbn [res_fold]. rewrite thread_0. cbn [res_bind].
  rewrite with_thread_0. cbn [res_bind]. rewrite thread_1. cbn [res_bind]. rewrite with_thread_1.
  cbn [res_bind]. eexists. split; [done|]. split; [|done]. constructor; try done. by split; apply Ht0.
Qed.

Lemma event_ok n s ev :
  inv n s → (n < 2 ^ 64)%Z → allowed s ev →
  ∃ s', event_step s ev = Ok s' ∧ inv (n + 1) s' ∧ keeps s s'.
Proof.
  intros Hs Hn Ha.
  assert (∀ r : res (BPU B), (∃ s', r = Ok s' ∧ inv n s' ∧ keeps s s') →
    ∃ s', r = Ok s' ∧ inv (n + 1) s' ∧ keeps s s') as Hup.
  { intros r (s' & E & I & K). exists s'. split; [done|]. split; [|done].
    eapply bpu_inv_mono; [|done]. lia. }
  assert (∀ r : res (BPU B), (∃ s', r = Ok s' ∧ inv n s' ∧ ftq s' = ftq s) →
    ∃ s', r = Ok s' ∧ inv n s' ∧ keeps s s') as Hf.
  { intros r (s' & E & I & K). exists s'. split; [done|]. split; [done|]. by apply keeps_ftq. }
  assert (∃ q0 qs, queue (ftq s) = q0 :: qs ∧ q_of (ftq s) 0 = Ok q0) as (q0 & qs & Hq & Hq0)
    by (destruct Hs; by do 2 eexists).
  destruct ev as [outs|id pc corr i size taken fc|id pc|id pc|id| | |ok|pc];
    cbn [event_step allowed] in *; rewrite ?Hq in Ha; [|apply Hup..].
  - destruct (tick_ok p Hp n s outs Hs Hn) as (s' & Ht & I & K & _). by exists s'.
  - destruct (control_squash_ok n s id pc corr i size taken fc Hs Hn) as (s' & E & I & K & _). by exists s'.
  - apply squash_ok; try done. intros q l E. rewrite Hq in E. by injection E as <- _.
  - apply squash_ok; try done. intros q l E. rewrite Hq in E. by injection E as <- _.
  - apply commit_ok; try done. intros q E. rewrite Hq0 in E. by injection E as <-.
  - destruct (gettid_ok n s Hs Hn) as (x & -> & I & E). cbn [res_bind]. eexists. split; [done|].
    split; [done|]. intros id v v'. unfold saved. cbn. rewrite E. congruence.
  - apply consume_ok; try done. intros q E. rewrite Hq0 in E. by injection E as <-.
  - apply Hf. destruct ok; [|by apply resolve_ok]. eexists. split; [done|]. split; [|done].
    destruct Hs as [t0 t1 ts q0' q1 qs' ss rr h c fc]. by apply (bpu_inv_intro p n t0 t1 ts q0' q1 qs' ss rr h c 0).
  - by apply Hf, resetPC_ok.
Qed.

(** Events during which the target [id] stays queued. *)
Inductive holding (id : Z) : Z → BPU B → Z → BPU B → Prop :=
  | ho_refl n s : holding id n s n s
  | ho_step n s n1 s1 ev s2 :
      holding id n s n1 s1 → allowed s1 ev → event_step s1 ev = Ok s2 → is_Some (saved s2 id) →
      holding id n s (n1 + 1) s2.

Lemma bpu_reachable_inv n s : reachable n s → (n ≤ 2 ^ 64)%Z → inv n s.
Proof.
  induction 1 as [s Hs|n s ev s' Hr IH Ha Hst]; intros Hn.
  - destruct (bpu_new_inv (B:=B) p Hp) as (s0 & Hs0 & I). congruence.
  - destruct (event_ok n s ev) as (s1 & Hs1 & I & _); [apply IH; lia|lia|done|]. congruence.
Qed.

Lemma holding_mono id n s n1 s1 : holding id n s n1 s1 → (n ≤ n1)%Z.
Proof. induction 1; lia. Qed.

Lemma holding_saved id n s n1 s1 v :
  inv n s → holding id n s n1 s1 → (n1 ≤ 2 ^ 64)%Z → saved s id = Some v →
  inv n1 s1 ∧ saved s1 id = Some v.
Proof.
  intros Hs Hh Hn Hv. induction Hh as [n s|n s n1 s1 ev s2 Hh IH Ha Hst [v2 Hv2]]; [done|].
  destruct IH as [I1 S1]; [done|lia|done|].
  destruct (event_ok n1 s1 ev I1) as (s' & E & I & K); [lia|done|].
  assert (s' = s2) as -> by congruence. split; [done|]. rewrite Hv2. f_equal. by eapply K.
Qed.

Lemma saved_get n s id v :
  inv n s → (n < 2 ^ 64)%Z → saved s id = Some v →
  ∃ t, hasTarget (ftq s) id 0 = Ok true ∧ get (ftq s) id 0 = Ok t ∧ saved_of t = v.
Proof.
  intros [t0 t1 ts q0 q1 qs ss rr h c fc Ht0 Hv1 Hc1 Hq Hh Hc] Hn Hv.
  rewrite saved_mk in Hv. unfold q_saved in Hv.
  destruct (Z.leb_spec (baseTargetId q0) id); [|done]. apply fmap_Some in Hv as (t & Ht & ->).
  assert (q_hasTarget q0 id = true) as Hid.
  { apply q_hasTarget_iff; [by eapply queue_q_ok|]. apply lookup_lt_Some in Ht. unfold q_size. lia. }
  destruct (in_queue p n q0 id Hq Hn Hid) as (k & t' & Ek & Hk & Hget & _).
  replace (Z.to_nat (id - baseTargetId q0)) with k in Ht by lia. exists t'.
  split; [|split; [exact Hget|congruence]].
  change (Ok (q_hasTarget q0 id) = Ok true). congruence.
Qed.

End Run.

(** C8: no assertion of the predictor fails.  From the state the constructor builds,
    after any sequence of fewer than [2^64] events the callers may issue - cycles with
    arbitrary answers of the tables, control, non-control and trap squashes with
    arbitrary addresses and outcomes, commits, fetches - the next such event returns:
    the history rebuilt from the history manager agrees with the global history
    ([checkHistory]), the folded histories of TAGE, ITTAGE, MicroTAGE and MGSC are folds
    of the global, path and local histories they follow ([checkFoldedHist], MicroTAGE and
    MGSC where they are enabled), the queue is not overfull and every access through a
    target id, a saved history or a stack pointer is in range.  The configuration is one
    the constructors accept, with at least three stages and with folded histories of at
    most 31 bits; the direction histories of MGSC fold either no more bits than the folded
    length, or at most twice that and at most 17. *)
Theorem bpu_never_fails {B} `{DynamicBitsetLaws B, !DynamicBitsetCmp B, !DynamicBitsetCmpLaws B}
    (p : BpuParams) n (s : BPU B) ev :
  bpu_params_ok p → reachable p n s → (n < 2 ^ 64)%Z → allowed s ev →
  ∃ s', event_step p s ev = Ok s'.
Proof.
  intros Hp Hr Hn Ha.
  destruct (event_ok p Hp n s ev) as (s' & Hs' & _ & _); try done; [|by exists s'].
  apply bpu_reachable_inv; [done|done|lia].
Qed.

(** C17: a squash rewinds to the prediction.  Let a cycle enqueue a fetch target of
    thread 0 in a reachable state, with an id below [2^32], and let any events follow
    during which the target stays queued.  Then a control squash of that target from
    commit returns.  It leaves the global, the backward and the local histories as they
    were when that cycle began, shifted by the branches of the target before the squashing
    instruction and, for a conditional branch, by its outcome.  The path history is that of
    the cycle too, with the branch shifted in exactly when it is a taken conditional one
    (an unconditional jump is not recorded again).  Fetching continues at the corrected
    address. *)
Theorem squash_rewinds {B} `{DynamicBitsetLaws B, !DynamicBitsetCmp B, !DynamicBitsetCmpLaws B}
    (p : BpuParams) n (s s1 : BPU B) t outs m s2 pc corr i size taken :
  bpu_params_ok p → reachable p n s → threads s !! 0%nat = Some t →
  tick p s outs = Ok s1 → len0 s1 = S (len0 s) →
  holding p (next_id s) (n + 1) s1 m s2 → (m < 2 ^ 64)%Z → (0 ≤ next_id s < 2 ^ 32)%Z →
  ∃ s3 t3 target, controlSquash p s2 (next_id s) pc corr i size taken 0 true = Ok s3 ∧
    threads s3 !! 0%nat = Some t3 ∧ get (ftq s2) (next_id s) 0 = Ok target ∧
    let '(shamt, bit) := getHistInfoDuringSquash target pc (ci_cond i) taken in
    let '(bw_shamt, bw_bit) := getBwHistInfoDuringSquash target pc (ci_cond i) taken corr in
    s0History t3 = histShiftIn shamt bit (s0History t) ∧
    s0BwHistory t3 = histShiftIn bw_shamt bw_bit (s0BwHistory t) ∧
    shift_local p (startPC target) shamt bit (s0LHistory t) = Ok (s0LHistory t3) ∧
    s0PHistory t3 = pHistShiftIn 2 (ci_cond i && taken) (s0PHistory t) pc corr ∧
    s0PC t3 = corr.
Proof.
  intros Hp Hr Ht Htick Hlen Hhold Hm Hid. pose proof (holding_mono _ _ _ _ _ _ Hhold) as Hle.
  assert (bpu_inv p n s) as Hs by (apply bpu_reachable_inv; [done|done|lia]).
  destruct (tick_ok p Hp n s outs Hs) as (s1' & E1 & I1 & _ & t' & t1 & Et & _ & Hsv & _); [lia|].
  assert (s1' = s1) as -> by congruence. specialize (Hsv ltac:(lia)).
  assert (t' = t) as -> by (destruct (threads s); [done|]; cbn in *; congruence).
  destruct (holding_saved p Hp _ _ _ _ _ (hists_of t) I1 Hhold) as [I2 S2]; [lia|done|].
  destruct (saved_get p _ _ _ _ I2 Hm S2) as (target & Hhas & Hget & Hsaved).
  destruct (control_squash_ok p Hp m s2 (next_id s) pc corr i size taken true I2 Hm)
    as (s3 & E3 & _ & _ & Hrec).
  assert (u32 (next_id s) = next_id s) as Hu by (apply wrapu_small; split; lia). rewrite Hu in Hrec.
  destruct (Hrec Hhas) as (target' & t3 & rt & G & T & [R1 R2 R3 R4] & Rpc & Hrt).
  rewrite (Hrt eq_refl) in *. assert (target' = target) as -> by congruence.
  exists s3, t3, target. split; [done|]. split; [by destruct (threads s3)|]. split; [done|].
  unfold saved_of, hists_of in Hsaved. injection Hsaved as F1 F2 F3 F4.
  destruct (getHistInfoDuringSquash target pc (ci_cond i) taken) as [shamt bit].
  destruct (getBwHistInfoDuringSquash target pc (ci_cond i) taken corr) as [bsh bbit].
  cbn [fst snd] in *. rewrite <- F1, <- F2, <- F3, <- F4. done.
Qed.

Lemma ticks_enqueue {B} `{DynamicBitsetLaws B, !DynamicBitsetCmp B, !DynamicBitsetCmpLaws B}
    (p : BpuParams) (Hp : bpu_params_ok p) (l : list (nat → StageOut)) : ∀ n (s : BPU B) t,
  bpu_inv p n s → (n + Z.of_nat (length l) < 2 ^ 64)%Z → head (threads s) = Some t →
  room p s → s0PC t ≠ MaxAddr → (rank p t ≤ Z.of_nat (length l))%Z →
  ∃ k s', (k ≤ length l)%nat ∧ res_fold (tick p) s (take k l) = Ok s' ∧ len0 s' = S (len0 s).
Proof.
  induction l as [|outs l IH]; intros n s t Hs Hn Ht Hroom Hpc Hrank.
  { exfalso. unfold rank in Hrank. simpl in Hrank. pose proof (bp_stages _ Hp).
    destruct (squashing t), (validprediction t), (blockPredictionPending t); lia. }
  cbn [length] in *. destruct (tick_ok p Hp n s outs Hs) as (s1 & E1 & I1 & _ & t' & t1 & Et & Et1 & _ & Hgo); [lia|].
  rewrite Ht in Et. injection Et as <-. destruct (Hgo Hroom Hpc) as [Hl|(Hl & Hpc1 & Hr)].
  { exists 1%nat, s1. split; [lia|]. cbn [take res_fold]. rewrite E1. done. }
  destruct (IH (n + 1)%Z s1 t1) as (k & s' & Hk & Hf & Hlen);
    [done|lia|done|unfold room in *; by rewrite Hl|by rewrite Hpc1|lia|].
  - exists (S k), s'. split; [lia|]. cbn [take res_fold]. rewrite E1. cbn [res_bind].
    split; [done|]. lia.
Qed.

(** C28: thread 0 makes progress.  In every reachable state in which the queue of thread 0,
    the one thread that [tick] schedules, has room and its address is not [MaxAddr], one of
    the next [numStages + 2] cycles enqueues a fetch target when no other event falls
    between them, whatever the tables answer: a cycle is lost to a squash and one to a
    resolve update, and at most [numStages - 1] are override bubbles. *)
Theorem bpu_makes_progress {B} `{DynamicBitsetLaws B, !DynamicBitsetCmp B, !DynamicBitsetCmpLaws B}
    (p : BpuParams) n (s : BPU B) t l :
  bpu_params_ok p → reachable p n s → (n + Z.of_nat (length l) < 2 ^ 64)%Z →
  length l = (numStages p + 2)%nat → threads s !! 0%nat = Some t → s0PC t ≠ MaxAddr →
  (Z.of_nat (len0 s) < ftq_size p)%Z →
  ∃ k s', (k ≤ length l)%nat ∧ res_fold (tick p) s (take k l) = Ok s' ∧ len0 s' = S (len0 s).
Proof.
  intros Hp Hr Hn Hl Ht Hpc Hroom.
  assert (bpu_inv p n s) as Hs by (apply bpu_reachable_inv; [done|done|lia]).
  eapply (ticks_enqueue p Hp l n s t); try done.
  - by destruct (threads s).
  - unfold rank. pose proof (bp_stages _ Hp). destruct (squashing t); [lia|].
    destruct (validprediction t) eqn:Hv; [|destruct (blockPredictionPending t); lia].
    assert (numOverrideBubbles t < Z.of_nat (numStages p))%Z; [|lia].
    destruct Hs as [t0 t1 ts q0 q1 qs ss rr h c fc Ht0]. injection Ht as <-. apply Ht0.
Qed.

(** Ids past [2^32].  A queue whose front id does not fit the [unsigned] parameters of the
    entry points never finds the target of a squash and never frees one: a control squash
    returns the state as it was and a commit leaves the queue as it was. *)
Theorem late_ids_lost {B} `{DynamicBitset B, !DynamicBitsetCmp B} (p : BpuParams) (s : BPU B) q qs
    id pc corr i size taken fc :
  queue (ftq s) = q :: qs → (2 ^ 32 ≤ baseTargetId q)%Z → q_ok q →
  controlSquash p s id pc corr i size taken 0 fc = Ok s ∧
  ∃ s', commit p s id 0 = Ok s' ∧ ftq s' = ftq s.
Proof.
  intros Hq Hb Hok.
  assert (0 ≤ u32 id < 2 ^ 32)%Z as Hu by (apply wrapu_range; lia).
  assert (q_of (ftq s) 0 = Ok q) as Hq0 by (unfold q_of; by rewrite Hq).
  unfold controlSquash, commit, hasTarget. rewrite Hq0. cbn [res_bind].
  destruct (q_hasTarget q (u32 id)) eqn:Hh; [apply q_hasTarget_iff in Hh; [lia|done]|].
  split; [done|]. destruct (q_empty q) eqn:He; [by eexists|].
  assert (commit_loop p (length (cap q)) s (u32 id) 0 = Ok s) as ->; [|by eexists].
  destruct (cap q) as [|x l] eqn:Hc; [unfold q_empty in He; by rewrite Hc in He|].
  cbn [length commit_loop]. unfold empty, frontId. rewrite Hq0. cbn [res_bind].
  rewrite (proj2 (Z.leb_gt (baseTargetId q) (u32 id))) by lia. by rewrite andb_false_r.
Qed.

End BpuProps.
