(* ===== verification/BpuExamples.v ===== *)
(** Runs of the decoupled branch predictor: the theorems of [BpuProps] and [Ftq] at
    concrete states, and a jump that the recovery of the path history forgets. *)
From S2P Require Import Prelude Bitset FoldedHist BpCommon Ras RasProps Ftq TageHist MgscHist.
From S2P Require Import Bpu BpuHist BpuInv BpuSteps BpuProps.
Import FoldedHist BpCommon Ftq Bpu BpuInv BpuSteps BpuProps.

Module BpuExamples.

(** The MGSC and MicroTAGE of [BranchPredictor.py], with a small RAS, queue, TAGE and
    ITTAGE. *)
Definition pm : MgscHist.MgscParams :=
  MgscHist.mkMgscParams 2 11 [4; 8]%Z 32 2 11 [4; 8]%Z 1 12 [8]%Z 2 11 [8; 16]%Z 2 11 [8; 16]%Z
    11 5 6 8 32.

Definition pb : BpuParams :=
  mkBpuParams 3 64 32 4 true (Ras.Build_RasParams 4 2 8) 1 [(8, 5, 4); (20, 6, 5)]%Z [(10, 5, 4)]%Z
    true [(5, 16, 9); (9, 16, 9); (17, 16, 9); (27, 16, 9)]%Z true pm 2.

Lemma pm_ok : MgscHist.mgsc_params_ok pm 32.
Proof.
  split; try done; unfold MgscHist.width_ok, MgscHist.num_ok;
    change (Z.log2 (MgscHist.numCtrsPerLine pm)) with 3%Z; simpl; try lia;
    repeat constructor; simpl; lia.
Qed.

Lemma pb_ok : bpu_params_ok pb.
Proof.
  split; simpl; try lia.
  - split; simpl; lia.
  - repeat constructor; lia.
  - repeat constructor; lia.
  - repeat constructor; lia.
  - exact pm_ok.
Qed.

(** A conditional branch at [pc] that every stage predicts taken. *)
Definition branch (cond : bool) (pc target : Z) : BTBEntry :=
  mkEntry (mkBranch pc target false cond false (negb cond) false false 4) true false 0 0.
Definition predict (cond : bool) (pc target : Z) (_ : nat) : StageOut :=
  mkOut [branch cond pc target] (if cond then [(pc, true)] else []) [].

Definition after (r : res (BPU zbitset)) : BPU zbitset :=
  match r with Ok s => s | Panic _ => mkBPU [] (mkFTQ 0 [] [] 0) [] (mkComps (Ras.mkRAS 0 0 0 0 0 0 [] [])
    (TageHist.mkTage [] [] []) (TageHist.mkTage [] [] []) (TageHist.mkMicro (TageHist.mkTage [] [] []) [])
    (MgscHist.mkMgsc [] [] [] [] []) None) 0 end.

Definition loop_out := predict true 0x80000010 0x80000000.

Definition e0 : BPU zbitset := after (BPU_new pb).
Definition e1 := after (tick pb e0 loop_out).
Definition e2 := after (tick pb e1 loop_out).
Definition e3 := after (tick pb e2 loop_out).

Lemma reach_e2 : reachable pb 3 e2.
Proof.
  apply (rc_step pb 2 e1 (EvTick loop_out)); [|done|vm_compute; reflexivity].
  apply (rc_step pb 1 e0 (EvTick loop_out)); [|done|vm_compute; reflexivity].
  apply rc_new. vm_compute. reflexivity.
Qed.

Lemma bpu_never_fails_witness :
  reachable pb 3 e2 ∧ allowed e2 (EvTrapSquash 1 0x80000004) ∧
  ∃ s', event_step pb e2 (EvTrapSquash 1 0x80000004) = Ok s'.
Proof.
  refine (conj reach_e2 (conj _ _)); [vm_compute; reflexivity|].
  apply (bpu_never_fails pb 3 e2 (EvTrapSquash 1 0x80000004)).
  - exact pb_ok.
  - exact reach_e2.
  - lia.
  - vm_compute. reflexivity.
Defined.

Definition t2 : Thread zbitset := match threads e2 with t :: _ => t | [] => thread_new pb end.

Lemma bpu_makes_progress_witness :
  threads e2 !! 0%nat = Some t2 ∧
  ∃ k s', (k ≤ 5)%nat ∧ res_fold (tick pb) e2 (take k (replicate 5 loop_out)) = Ok s' ∧ len0 s' = 2.
Proof.
  refine (conj _ _); [vm_compute; reflexivity|].
  apply (bpu_makes_progress pb 3 e2 t2 (replicate 5 loop_out)).
  - exact pb_ok.
  - exact reach_e2.
  - vm_compute. reflexivity.
  - reflexivity.
  - vm_compute. reflexivity.
  - vm_compute. congruence.
  - vm_compute. reflexivity.
Defined.

(** The branch of target 2 turns out not taken, after target 3 was predicted. *)
Definition e4 := after (tick pb e3 loop_out).
Definition cond_inst : CtrlInst := mkCtrl true false true false false false.

Lemma squash_rewinds_witness :
  next_id e2 = 2%Z ∧ len0 e3 = 2 ∧ len0 e4 = 3 ∧
  ∃ s3 t3, controlSquash pb e4 2 0x80000010 0x80000014 cond_inst 4 false 0 true = Ok s3 ∧
    threads s3 !! 0%nat = Some t3 ∧ s0History t3 = histShiftIn 1 false (s0History t2) ∧
    s0PHistory t3 = s0PHistory t2.
Proof.
  refine (conj _ (conj _ (conj _ _))); [vm_compute; reflexivity..|].
  destruct (squash_rewinds pb 3 e2 e3 t2 loop_out 5 e4 0x80000010 0x80000014 cond_inst 4 false)
    as (s3 & t3 & target & Hsq & Ht3 & Hget & Hrec).
  - exact pb_ok.
  - exact reach_e2.
  - vm_compute. reflexivity.
  - vm_compute. reflexivity.
  - vm_compute. reflexivity.
  - apply (ho_step pb _ (3 + 1) e3 (3 + 1) e3 (EvTick loop_out)); [apply ho_refl|done|vm_compute; reflexivity|].
    vm_compute. by eexists.
  - lia.
  - vm_compute. split; congruence.
  - exists s3, t3. split; [exact Hsq|]. split; [exact Ht3|].
    assert (getHistInfoDuringSquash target 0x80000010 true false = (1%Z, false)) as E.
    { vm_compute in Hget. injection Hget as <-. vm_compute. reflexivity. }
    cbn [ci_cond cond_inst] in Hrec. rewrite E in Hrec.
    destruct (getBwHistInfoDuringSquash target 0x80000010 true false 0x80000014).
    destruct Hrec as (H1 & _ & _ & H3 & _). split; [exact H1|exact H3].
Defined.

Definition loop_pred : FullBTBPrediction :=
  mkPred 0 0x80000000 [branch true 0x80000008 0x80000100; branch true 0x80000010 0x80000000]
    [(0x80000008, false); (0x80000010, true)]%Z [] 0 0.
Definition loop_target : FetchTarget zbitset unit :=
  mkTarget 0 0x80000000 true 0 BranchInfo_new true (btbEntries loop_pred) false BranchInfo_new false 0
    [] SQUASH_NONE 0 tt (ZBitset 8 0) (ZBitset 8 0) (ZBitset 8 0) [].

Lemma squash_info_matches_witness :
  getHistInfoDuringSquash loop_target 0x80000010 true true = (2%Z, true) ∧
  getHistInfo loop_pred = (2%Z, true).
Proof.
  destruct (squash_info_matches loop_pred loop_target) as (H1 & _ & _).
  - repeat constructor; vm_compute; congruence.
  - vm_compute. reflexivity.
  - vm_compute. reflexivity.
  - vm_compute. reflexivity.
  - reflexivity.
  - reflexivity.
  - change (be_pc (getTakenEntry loop_pred)) with 0x80000010%Z in H1. split; [|vm_compute; reflexivity].
    rewrite H1. vm_compute. reflexivity.
Defined.

(** Two threads wait; the round robin points at thread 0. *)
Definition waiting (tid : Z) : Queue (FetchTarget zbitset unit) :=
  mkQueue [mkTarget tid 0 false 0 BranchInfo_new false [] false BranchInfo_new false 0 [] SQUASH_NONE 0 tt
    (ZBitset 8 0) (ZBitset 8 0) (ZBitset 8 0) []] 1 1.
Definition two_waiting (rr : Z) : FTQ (FetchTarget zbitset unit) :=
  mkFTQ 2 [4; 4; 0; 0]%Z [waiting 0; waiting 1; mkQueue [] 1 1; mkQueue [] 1 1] rr.

Lemma two_waiting_waits rr : (0 ≤ rr < 2)%Z → waits 2 1 (two_waiting rr).
Proof.
  intros Hr. split; [|by exists (waiting 1)]. split.
  - done.
  - done.
  - simpl. lia.
  - repeat constructor; unfold q_size; simpl; lia.
  - intros t q Hq. destruct t as [|[|[|[|t]]]]; simpl in Hq; simplify_eq; repeat constructor.
Qed.

Lemma round_robin_fair_witness :
  ∃ f f', f ∈ [two_waiting 0; two_waiting 1] ∧ getTargetTid f = Ok (1%Z, f').
Proof.
  apply (round_robin_fair 2 1).
  - lia.
  - reflexivity.
  - constructor; [apply two_waiting_waits; lia|]. constructor; [apply two_waiting_waits; lia|constructor].
  - vm_compute. auto.
Defined.

(** ** A forgotten jump *)

Definition jump_out := predict false 0x80000010 0x80000300.
Definition jump_inst : CtrlInst := mkCtrl false false true false false false.
Definition j2 := after (tick pb e1 jump_out).
Definition j3 := after (controlSquash pb j2 1 0x80000010 0x80000300 jump_inst 4 true 0 true).
Definition path_of (s : BPU zbitset) : option zbitset := s0PHistory <$> head (threads s).

(** A squash by an unconditional jump that went where it was predicted to go loses the
    jump from the path history: the prediction recorded it, the recovery does not. *)
Theorem uncond_squash_drops_path :
  controlSquash pb j2 1 0x80000010 0x80000300 jump_inst 4 true 0 true = Ok j3 ∧
  path_of j3 = path_of e1 ∧ path_of j2 ≠ path_of e1 ∧
  path_of j2 = (λ g, pHistShiftIn 2 true g 0x80000010 0x80000300) <$> path_of e1.
Proof.
  split; [vm_compute; reflexivity|]. split; [vm_compute; reflexivity|].
  split; [vm_compute; congruence|vm_compute; reflexivity].
Qed.

End BpuExamples.
