(* ===== verification/Double.v ===== *)
(** Division of doubles, as the code uses it.

    [ceil((double)a / b)] for unsigned [a] and [b]: a positive binary64 number is
    its mantissa and exponent, and a quotient is rounded to the nearest number,
    ties to even.  The operands are small, so no result is subnormal or
    infinite. *)
From S2P Require Import Prelude.

Module Double.
Local Open Scope Z_scope.

(** The number [mant * 2 ^ expo], not negative. *)
Record dbl := mkDbl { mant : Z; expo : Z }.

Definition of_unsigned (n : Z) : dbl := mkDbl n 0.

(** [num * 2 ^ e], as a fraction over [den]. *)
Definition scale (num den e : Z) : Z * Z :=
  if 0 <=? e then (num * 2 ^ e, den) else (num, den * 2 ^ (- e)).

(** The integer nearest to [num / den], ties to even. *)
Definition round_even (num den : Z) : Z :=
  let q := num / den in
  let r := num mod den in
  if 2 * r <? den then q
  else if den <? 2 * r then q + 1
  else if Z.even q then q else q + 1.

(** The double nearest to [num / den]: a mantissa of 53 bits. *)
Definition round64 (num den : Z) : dbl :=
  if num =? 0 then mkDbl 0 0
  else
    let l := Z.log2 num - Z.log2 den in
    let '(n, d) := scale num den (53 - l) in
    let e := if n / d <? 2 ^ 53 then l - 53 else l - 52 in
    let '(n, d) := scale num den (- e) in
    mkDbl (round_even n d) e.

Definition div (a b : dbl) : dbl :=
  let '(n, d) := scale (mant a) (mant b) (expo a - expo b) in round64 n d.

Definition leb (a b : dbl) : bool :=
  let '(n, d) := scale (mant a) (mant b) (expo a - expo b) in n <=? d.

Definition max (a b : dbl) : dbl := if leb b a then a else b.

(** [ceil], as an integer. *)
Definition ceil (a : dbl) : Z :=
  if 0 <=? expo a then mant a * 2 ^ expo a else - ((- mant a) / 2 ^ (- expo a)).

(** ** Rounding up the quotient of two integers *)

Lemma round_even_near n d : 0 < d → n - d ≤ 2 * d * round_even n d - n ≤ n + d.
Proof.
  intros Hd. unfold round_even. pose proof (Z.div_mod n d). pose proof (Z.mod_pos_bound n d).
  destruct (Z.ltb_spec (2 * (n mod d)) d), (Z.ltb_spec d (2 * (n mod d)));
    try destruct (Z.even (n / d)); nia.
Qed.

Lemma ceil_neg m k : 0 ≤ k → m ≤ 2 ^ k * ceil (mkDbl m (- k)).
Proof.
  intros Hk. unfold ceil. simpl. pose proof (Z.pow_pos_nonneg 2 k).
  destruct (Z.leb_spec 0 (- k)).
  - assert (k = 0) as -> by lia. simpl. lia.
  - rewrite Z.opp_involutive. pose proof (Z.div_mod (- m) (2 ^ k)).
    pose proof (Z.mod_pos_bound (- m) (2 ^ k)). nia.
Qed.

(** The quotient of integers below [2 ^ 53], scaled to at least 53 bits. *)
Lemma round64_scaled n d :
  0 < n < 2 ^ 53 → 0 < d →
  ∃ k, 0 ≤ k ∧ round64 n d = mkDbl (round_even (n * 2 ^ k) d) (- k) ∧ 2 ^ 52 * d ≤ n * 2 ^ k.
Proof.
  intros [Hn Hb] Hd. unfold round64. destruct (Z.eqb_spec n 0); [lia|]. cbv zeta.
  set (l := Z.log2 n - Z.log2 d).
  pose proof (Z.log2_spec n Hn). pose proof (Z.log2_spec d Hd).
  pose proof (Z.log2_nonneg n). pose proof (Z.log2_nonneg d).
  assert (Z.log2 n < 53) by (by apply Z.log2_lt_pow2).
  assert (l ≤ 52) by (unfold l; lia).
  unfold scale at 1. rewrite (proj2 (Z.leb_le 0 (53 - l))) by lia.
  destruct (Z.ltb_spec (n * 2 ^ (53 - l) / d) (2 ^ 53)) as [Hq|Hq]; unfold scale;
    rewrite (proj2 (Z.leb_le _ _)) by lia.
  - exists (- (l - 53)). split; [lia|]. rewrite Z.opp_involutive. split; [done|].
    replace (- (l - 53)) with (53 + Z.log2 d - Z.log2 n) by (unfold l; lia).
    assert (2 ^ (53 + Z.log2 d) = 2 ^ Z.log2 n * 2 ^ (53 + Z.log2 d - Z.log2 n)) as E
      by (rewrite <- Z.pow_add_r by lia; f_equal; lia).
    rewrite Z.pow_add_r, <- Z.add_1_r in * by lia. rewrite Z.pow_add_r in * by lia.
    pose proof (Z.pow_pos_nonneg 2 (53 + Z.log2 d - Z.log2 n)). nia.
  - exists (- (l - 52)). split; [lia|]. rewrite Z.opp_involutive. split; [done|].
    assert (2 ^ (53 - l) = 2 * 2 ^ (- (l - 52))) as E
      by (rewrite <- Z.pow_succ_r by lia; f_equal; lia).
    pose proof (Z.mul_div_le (n * 2 ^ (53 - l)) d). nia.
Qed.

Lemma ceil_div_ge n d :
  0 ≤ n < 2 ^ 53 → 0 < d → n ≤ d * ceil (div (of_unsigned n) (of_unsigned d)).
Proof.
  intros [Hn Hb] Hd. unfold div, of_unsigned, scale. simpl mant. simpl expo.
  rewrite (proj2 (Z.leb_le 0 (0 - 0))) by lia. change (2 ^ (0 - 0)) with 1. rewrite Z.mul_1_r.
  destruct (decide (n = 0)) as [->|Hne]; [unfold round64, ceil; simpl; lia|].
  destruct (round64_scaled n d) as (k & Hk & -> & Hlow); [lia|done|].
  pose proof (ceil_neg (round_even (n * 2 ^ k) d) k Hk) as Hc.
  pose proof (round_even_near (n * 2 ^ k) d Hd) as Hr.
  set (m := round_even (n * 2 ^ k) d) in *. set (c := ceil (mkDbl m (- k))) in *.
  pose proof (Z.pow_pos_nonneg 2 k). destruct (Z.le_gt_cases n (d * c)) as [|Hlt]; [done|exfalso].
  assert (d * m ≤ (n - 1) * 2 ^ k) by nia. assert (2 * 2 ^ k ≤ d) by nia. nia.
Qed.

Lemma round_even_exact n : round_even n 1 = n.
Proof. unfold round_even. rewrite Z.div_1_r, Z.mod_1_r. done. Qed.

Lemma ceil_neg_lt m k : 0 ≤ k → 2 ^ k * ceil (mkDbl m (- k)) < m + 2 ^ k.
Proof.
  intros Hk. unfold ceil. simpl. pose proof (Z.pow_pos_nonneg 2 k).
  destruct (Z.leb_spec 0 (- k)).
  - assert (k = 0) as -> by lia. simpl. lia.
  - rewrite Z.opp_involutive. pose proof (Z.div_mod (- m) (2 ^ k)).
    pose proof (Z.mod_pos_bound (- m) (2 ^ k)). nia.
Qed.

Lemma ceil_div_le n d :
  0 ≤ n < 2 ^ 53 → 0 < d → 0 ≤ ceil (div (of_unsigned n) (of_unsigned d)) ≤ n.
Proof.
  intros [Hn Hb] Hd. pose proof (ceil_div_ge n d (conj Hn Hb) Hd) as Hge. revert Hge.
  unfold div, of_unsigned, scale. simpl mant. simpl expo.
  rewrite (proj2 (Z.leb_le 0 (0 - 0))) by lia. change (2 ^ (0 - 0)) with 1. rewrite Z.mul_1_r.
  destruct (decide (n = 0)) as [->|Hne]; [done|].
  destruct (round64_scaled n d) as (k & Hk & -> & _); [lia|done|].
  pose proof (ceil_neg_lt (round_even (n * 2 ^ k) d) k Hk) as Hc.
  pose proof (round_even_near (n * 2 ^ k) d Hd) as Hr. pose proof (Z.pow_pos_nonneg 2 k).
  set (c := ceil _) in *. intros Hge. split; [nia|].
  destruct (decide (d = 1)) as [->|Hd1].
  - rewrite round_even_exact in Hc. nia.
  - set (m := round_even _ _) in *. assert (4 * m ≤ 2 * (n * 2 ^ k) + 2) by nia.
    assert (4 * (2 ^ k * c) < 2 * (n * 2 ^ k) + 2 + 4 * 2 ^ k) by lia.
    assert (2 ^ k * (4 * c - 2 * n - 4) < 2) by lia. nia.
Qed.

End Double.
