(* ===== verification/RegFile.v ===== *)
(** Register identifiers and the physical register file.

    Models [src/GEM5/src/cpu/reg_class.hh] ([RegClassType], [RegId], [PhysRegId])
    and [src/GEM5/src/cpu/o3/regfile.hh] ([IEOperand], [VirtRegId] and the scalar
    accessors of [PhysRegFile]).

    A [RegId] is its class and index: [RegId::operator==] compares only these.
    The pinned-write count a [RegId] also carries is set by the Arm decoder only
    and is passed separately where the rename map reads it.  A [PhysRegId*] is
    identified with the class and index of the register it points to, which are
    distinct for distinct registers of the file; the mutable part of a [PhysRegId]
    (reference count, pinning) lives in the free list's state. *)
From S2P Require Import Prelude.

(** ** Register names *)

Inductive RegClassType :=
  | IntRegClass
  | FloatRegClass
  | VecRegClass
  | VecElemClass
  | VecPredRegClass
  | CCRegClass
  | RMiscRegClass
  | MiscRegClass
  | InvalidRegClass.

#[export] Instance RegClassType_eq_dec : EqDecision RegClassType.
Proof. solve_decision. Defined.

(** The enumerator's value. *)
Definition class_num (c : RegClassType) : Z :=
  match c with
  | IntRegClass => 0 | FloatRegClass => 1 | VecRegClass => 2 | VecElemClass => 3
  | VecPredRegClass => 4 | CCRegClass => 5 | RMiscRegClass => 6 | MiscRegClass => 7
  | InvalidRegClass => -1
  end.

Definition class_of_num (n : Z) : RegClassType :=
  match n with
  | 0 => IntRegClass | 1 => FloatRegClass | 2 => VecRegClass | 3 => VecElemClass
  | 4 => VecPredRegClass | 5 => CCRegClass | 6 => RMiscRegClass | 7 => MiscRegClass
  | _ => InvalidRegClass
  end%Z.

#[export] Instance RegClassType_countable : Countable RegClassType.
Proof.
  refine (inj_countable' class_num class_of_num _). by intros [].
Defined.

Record RegId := mkRegId { regClass : RegClassType; regIdx : Z }.

#[export] Instance RegId_eq_dec : EqDecision RegId.
Proof. solve_decision. Defined.

#[export] Instance RegId_countable : Countable RegId.
Proof.
  refine (inj_countable' (λ r, (regClass r, regIdx r)) (λ p, mkRegId p.1 p.2) _).
  by intros [].
Defined.

(** [RegId()]: how the decoder names [x0]. *)
Definition RegId_default : RegId := mkRegId InvalidRegClass 0.

Definition reg_eqb (a b : RegId) : bool := bool_decide (a = b).

(** [operator<], the order [std::map] keys use. *)
Definition reg_ltb (a b : RegId) : bool :=
  (class_num (regClass a) <? class_num (regClass b))%Z ||
  (bool_decide (regClass a = regClass b) && (regIdx a <? regIdx b)%Z).

Definition isRenameable (r : RegId) : bool :=
  negb (bool_decide (regClass r = MiscRegClass)) &&
  negb (bool_decide (regClass r = InvalidRegClass)).

Definition isZeroReg (r : RegId) : bool := bool_decide (regClass r = InvalidRegClass).

(** The renameable miscellaneous registers of RISC-V and the fusion temporary. *)
Definition FuseTmpReg : RegId := mkRegId RMiscRegClass 2.

Record PhysRegId := mkPhys { p_class : RegClassType; p_idx : Z }.

#[export] Instance PhysRegId_eq_dec : EqDecision PhysRegId.
Proof. solve_decision. Defined.

#[export] Instance PhysRegId_countable : Countable PhysRegId.
Proof.
  refine (inj_countable' (λ r, (p_class r, p_idx r)) (λ p, mkPhys p.1 p.2) _).
  by intros [].
Defined.

(** [PhysRegId()], the register every zero register maps to. *)
Definition invalidPhysReg : PhysRegId := mkPhys InvalidRegClass (-1).

(** ** Immediate elimination operands and virtual registers *)

Inductive IEType := IE_Invalid | IE_LUI | IE_ADD.

Record IEOperand := mkIE { ie_type : IEType; ie_imm : Z }.

#[export] Instance IEType_eq_dec : EqDecision IEType.
Proof. solve_decision. Defined.

#[export] Instance IEOperand_eq_dec : EqDecision IEOperand.
Proof. solve_decision. Defined.

(** The constructor: [imm] is stored in an [int]. *)
Definition IEOperand_new (t : IEType) (imm : Z) : res IEOperand :=
  do! panic_if (bool_decide (t = IE_Invalid)) "Invalid IEOperand type" in
  Ok (mkIE t (s32 imm)).

Definition calculate (op : IEOperand) (val : Z) : res Z :=
  match ie_type op with
  | IE_Invalid => Panic "Invalid IEOperand type"
  | IE_LUI => Ok (u64 (ie_imm op))
  | IE_ADD => Ok (u64 (val + ie_imm op))
  end.

(** [VirtRegId]: a physical register and an optional pending immediate.  The source
    compares the immediates as pointers; here two operands with the same content
    are equal.  The comparison only decides whether a squash stores the previous
    mapping over an entry with the same content, which changes nothing. *)
Record VirtRegId := mkVirt { PhyReg : option PhysRegId; IEOper : option IEOperand }.

#[export] Instance VirtRegId_eq_dec : EqDecision VirtRegId.
Proof. solve_decision. Defined.

Definition VirtRegId_null : VirtRegId := mkVirt None None.
Definition virt (p : PhysRegId) : VirtRegId := mkVirt (Some p) None.
Definition invalidReg : VirtRegId := virt invalidPhysReg.

Definition correct (v : VirtRegId) (val : Z) : res Z :=
  match IEOper v with Some op => calculate op val | None => Ok val end.

(** ** The register file *)

(** The scalar register files, together: the classes of [getReg]'s switch. *)
Definition scalar_class (c : RegClassType) : bool :=
  match c with
  | IntRegClass | FloatRegClass | VecElemClass | CCRegClass | RMiscRegClass => true
  | _ => false
  end.

Abbreviation PhysRegFile := (gmap PhysRegId Z).

Definition getReg_phys (rf : PhysRegFile) (p : PhysRegId) : res Z :=
  if scalar_class (p_class p) then from_option Ok ub (rf !! p)
  else if bool_decide (p_class p = InvalidRegClass) then Ok 0%Z
  else Panic "Unsupported register class type".

(** Dereferencing a null [PhysRegIdPtr] is undefined behaviour. *)
Definition getReg (rf : PhysRegFile) (v : VirtRegId) : res Z :=
  let! p := from_option Ok ub (PhyReg v) in
  let! x := getReg_phys rf p in
  correct v x.

Definition setReg (rf : PhysRegFile) (p : PhysRegId) (val : Z) : res PhysRegFile :=
  if bool_decide (p_class p = InvalidRegClass) then Ok rf
  else if scalar_class (p_class p) then
    match rf !! p with
    | Some _ => Ok (<[p := val]> rf)
    | None => ub
    end
  else Panic "Unsupported register class type".
