(* ===== verification/Inst.v ===== *)
(** Instructions: static and dynamic.

    Models the parts of [src/GEM5/src/cpu/static_inst.hh],
    [src/GEM5/src/cpu/o3/dyn_inst.hh] / [dyn_inst.cc],
    [src/GEM5/src/arch/generic/pcstate.hh], [src/GEM5/src/arch/riscv/pcstate.hh]
    and [src/GEM5/src/arch/riscv/insts/fusion.hh] that decode, fusion and rename
    use: the flags and their accessors, the register index arrays, the PC state
    and the renamed operands with their register-file accesses.

    The instruction classes themselves are generated by the ISA parser.  A static
    instruction is therefore the data its base classes hold (type name, mnemonic,
    operation class, flags, register indices, immediate, memory flags); what
    executing it computes is an argument of the definitions that need it. *)
From S2P Require Import Prelude RegFile.

(** ** Flags and operation classes *)

Inductive Flag :=
  | IsOper8 | IsOper16 | IsOper32 | IsOper64 | IsHInst | IsNop | IsMov | IsAddImm
  | IsFusion | IsInteger | IsFloating | IsVector | IsVectorElem | IsSegLoad
  | IsLoad | IsStore | IsSplitStoreAddr | IsAtomic | IsLoadReserved
  | IsStoreConditional | IsInstPrefetch | IsDataPrefetch
  | IsControl | IsDirectControl | IsIndirectControl | IsCondControl
  | IsUncondControl | IsCall | IsReturn
  | IsSerializing | IsSerializeBefore | IsSerializeAfter
  | IsWriteBarrier | IsReadBarrier | IsNonSpeculative | IsQuiesce
  | IsUnverifiable | IsSyscall
  | IsMacroop | IsMicroop | IsDelayedCommit | IsLastMicroop | IsFirstMicroop
  | IsSquashAfter | IsUpdateVsstatusSd | IsUpdateMstatusSd
  | IsHtmStart | IsHtmStop | IsHtmCancel.

#[export] Instance Flag_eq_dec : EqDecision Flag.
Proof. solve_decision. Defined.

(** [std::bitset<Num_Flags>], as the list of the flags that are set. *)
Definition Flags := list Flag.
Definition has (fs : Flags) (f : Flag) : bool := bool_decide (f ∈ fs).
Definition flags_or (a b : Flags) : Flags := a ++ b.

Lemma has_or a b f : has (flags_or a b) f = has a f || has b f.
Proof. unfold has, flags_or. by rewrite (bool_decide_ext _ _ (elem_of_app a b f)), bool_decide_or. Qed.

(** The operation classes the modelled code names; the others by number. *)
Inductive OpClass :=
  | IntAluOp | IntMultOp | IntABr | MemReadOp | MemWriteOp | StoreDataOp
  | VectorConfigOp | OtherOp (n : Z).

#[export] Instance OpClass_eq_dec : EqDecision OpClass.
Proof. solve_decision. Defined.

Inductive Fault := NoFault | AFault (name : string).

#[export] Instance Fault_eq_dec : EqDecision Fault.
Proof. solve_decision. Defined.

(** ** PC state *)

Record PCState := mkPC {
  pc : Z; upc : Z; npc : Z; nupc : Z; compressed : bool; rv32 : bool
}.

Definition PCState_default : PCState := mkPC 0 0 0 1 false false.

(** [UPCState<4>::set]: the ISA-specific flags keep their values. *)
Definition pc_set (p : PCState) (val : Z) : PCState :=
  mkPC val 0 (u64 (val + 4)) 1 (compressed p) (rv32 p).

Definition setNPC (p : PCState) (val : Z) : PCState :=
  mkPC (pc p) (upc p) val (nupc p) (compressed p) (rv32 p).

Definition set_pc_npc (p : PCState) (a b : Z) : PCState :=
  mkPC a (upc p) b (nupc p) (compressed p) (rv32 p).

(** [PCState::update]: copies every field. *)
Definition pc_update (p other : PCState) : PCState := other.

Definition start_equals (a b : PCState) : bool :=
  (pc a =? pc b)%Z && (upc a =? upc b)%Z.

(** [PCStateWithNext::equals], behind [operator==]. *)
Definition pc_equals (a b : PCState) : bool :=
  start_equals a b && (npc a =? npc b)%Z && (nupc a =? nupc b)%Z.

Definition pc_branching (p : PCState) : bool :=
  let width := if compressed p then 2%Z else 4%Z in
  negb (npc p =? u64 (pc p + width))%Z || negb (nupc p =? u64 (upc p + 1))%Z.

Definition getFallThruPC (p : PCState) : Z :=
  u64 (pc p + (if compressed p then 2 else 4)).

(** ** Static and dynamic instructions *)

(** The subclasses of [FusionInst], with their own members; the template
    argument [memsize] is a member here. *)
Inductive FusionClass :=
  | ChainFusionInst (firstNumSrcs : Z)
  | AluBrFusionInst (firstNumSrcs : Z)
  | MaccFusionInst (firstNumSrcs : Z)
  | AluLoadFusionInst (memsize firstNumSrcs : Z)
  | SlliAddLoadFusionInst (memsize shamt : Z)
  | SeqLoadFusionInst (memsize base_offset size0 size1 : Z).

(** Fused instructions hold the dynamic instructions they replace, so the two
    records are mutually recursive.  [fu_bound] is [fused != nullptr]. *)
Inductive StaticInst : Type := mkStatic {
  si_type : string;            (** [typeid] of the object's class *)
  mnemonic : string;
  si_opClass : OpClass;
  si_flags : Flags;
  si_srcs : list RegId;        (** [srcRegIdxArr], [_numSrcRegs] entries *)
  si_dests : list RegId;       (** [destRegIdxArr], [_numDestRegs] entries *)
  si_imm : Z;                  (** [getImm()] *)
  si_memFlags : Z;             (** [MemInst::getMemAccessFlags()] *)
  si_fusion : option FusionData
}
with DynInst : Type := mkDyn {
  staticInst : StaticInst;
  pcState : PCState;
  predPC : PCState;
  predTaken : bool;
  seqNum : Z;
  version : Z;
  threadNumber : Z;
  ftqId : Z;
  loopIteration : Z;
  fallThruPC : Z;
  fault : Fault;
  squashed : bool;
  canIssue : bool;
  srcIdx : list VirtRegId;
  destIdx : list VirtRegId;
  prevDestIdx : list VirtRegId
}
with FusionData : Type := mkFusion {
  fu_class : FusionClass;
  fu_parts : list DynInst;
  fu_memFlags : Z;
  fu_bound : bool
}.

Definition numSrcRegs (si : StaticInst) : Z := Z.of_nat (length (si_srcs si)).
Definition numDestRegs (si : StaticInst) : Z := Z.of_nat (length (si_dests si)).

(** [numDestRegs(type)], from [_numTypedDestRegs]. *)
Definition numTypedDestRegs (si : StaticInst) (c : RegClassType) : Z :=
  Z.of_nat (length (filter (λ r, regClass r = c) (si_dests si))).

(** The generated classes declare [srcRegIdxArr] immediately before
    [destRegIdxArr], both of the exact length, so an index past the sources
    reads the destinations.  A [FusionInst] declares them the other way round,
    with two and four entries initialised to [RegId()]. *)
Definition srcRegIdx (si : StaticInst) (i : Z) : res RegId :=
  match si_fusion si with
  | None => nth_res (si_srcs si ++ si_dests si) i
  | Some _ =>
      nth_res (si_srcs si ++ replicate (4 - length (si_srcs si)) RegId_default) i
  end.

Definition destRegIdx (si : StaticInst) (i : Z) : res RegId :=
  match si_fusion si with
  | None => nth_res (si_dests si) i
  | Some _ =>
      nth_res (si_dests si ++ replicate (2 - length (si_dests si)) RegId_default) i
  end.

Definition operWid (si : StaticInst) : Z :=
  if has (si_flags si) IsOper8 then 8%Z
  else if has (si_flags si) IsOper16 then 16%Z
  else if has (si_flags si) IsOper32 then 32%Z
  else if has (si_flags si) IsOper64 then 64%Z
  else (-1)%Z.

(** *** Accessors of [DynInst] *)

Definition di_has (d : DynInst) (f : Flag) : bool := has (si_flags (staticInst d)) f.

Definition isFusion (d : DynInst) := di_has d IsFusion.
Definition isLoad (d : DynInst) := di_has d IsLoad.
Definition isStore (d : DynInst) := di_has d IsStore.
Definition isVector (d : DynInst) := di_has d IsVector.
Definition isControl (d : DynInst) := di_has d IsControl.
Definition isReturn (d : DynInst) := di_has d IsReturn.
Definition isDirectCtrl (d : DynInst) := di_has d IsDirectControl.
Definition isUncondCtrl (d : DynInst) := di_has d IsUncondControl.
Definition isNonSpeculative (d : DynInst) := di_has d IsNonSpeculative.
Definition isMov (d : DynInst) := di_has d IsMov.
Definition isAddImm (d : DynInst) := di_has d IsAddImm.

Definition faulted (d : DynInst) : bool := negb (bool_decide (fault d = NoFault)).
Definition getPC (d : DynInst) : Z := pc (pcState d).
Definition getNPC (d : DynInst) : Z := npc (pcState d).

Definition set_renames (d : DynInst) (ss ds ps : list VirtRegId) : DynInst :=
  mkDyn (staticInst d) (pcState d) (predPC d) (predTaken d) (seqNum d) (version d)
    (threadNumber d) (ftqId d) (loopIteration d) (fallThruPC d) (fault d)
    (squashed d) (canIssue d) ss ds ps.

(** The state [execute] leaves: the fault it returned and the PC it wrote. *)
Definition set_outcome (d : DynInst) (f : Fault) (p : PCState) : DynInst :=
  mkDyn (staticInst d) p (predPC d) (predTaken d) (seqNum d) (version d)
    (threadNumber d) (ftqId d) (loopIteration d) (fallThruPC d) f
    (squashed d) (canIssue d) (srcIdx d) (destIdx d) (prevDestIdx d).

Definition set_pred (d : DynInst) (taken : bool) (p : PCState) : DynInst :=
  mkDyn (staticInst d) (pcState d) p taken (seqNum d) (version d)
    (threadNumber d) (ftqId d) (loopIteration d) (fallThruPC d) (fault d)
    (squashed d) (canIssue d) (srcIdx d) (destIdx d) (prevDestIdx d).

Definition setSquashed (d : DynInst) : DynInst :=
  mkDyn (staticInst d) (pcState d) (predPC d) (predTaken d) (seqNum d) (version d)
    (threadNumber d) (ftqId d) (loopIteration d) (fallThruPC d) (fault d)
    true (canIssue d) (srcIdx d) (destIdx d) (prevDestIdx d).

Definition setCanIssue (d : DynInst) : DynInst :=
  mkDyn (staticInst d) (pcState d) (predPC d) (predTaken d) (seqNum d) (version d)
    (threadNumber d) (ftqId d) (loopIteration d) (fallThruPC d) (fault d)
    (squashed d) true (srcIdx d) (destIdx d) (prevDestIdx d).

Definition renameSrcReg (d : DynInst) (i : Z) (v : VirtRegId) : res DynInst :=
  let! ss := set_nth (srcIdx d) i v in
  Ok (set_renames d ss (destIdx d) (prevDestIdx d)).

(** [renameDestReg] also reads [isPinned()] of the new register, so a null
    pointer is undefined behaviour. *)
Definition renameDestReg (d : DynInst) (i : Z) (v prev : VirtRegId) : res DynInst :=
  let! ds := set_nth (destIdx d) i v in
  let! ps := set_nth (prevDestIdx d) i prev in
  match PhyReg v with
  | Some _ => Ok (set_renames d (srcIdx d) ds ps)
  | None => ub
  end.

Definition extRenamedSrcIdx (d : DynInst) (i : Z) : res VirtRegId :=
  nth_res (srcIdx d) i.
Definition extRenamedDestIdx (d : DynInst) (i : Z) : res VirtRegId :=
  nth_res (destIdx d) i.

(** *** Register accesses of an executing instruction *)

Definition getRegOperand (rf : PhysRegFile) (d : DynInst) (i : Z) : res Z :=
  let! v := extRenamedSrcIdx d i in
  getReg rf v.

Definition setRegOperand (rf : PhysRegFile) (d : DynInst) (i val : Z)
    : res PhysRegFile :=
  let! v := extRenamedDestIdx d i in
  match PhyReg v with
  | None => ub
  | Some p =>
      if bool_decide (p_class p = InvalidRegClass) then Ok rf else setReg rf p val
  end.

(** *** Executing one instruction of the generated classes

    [execute] of a generated class reads its sources in index order, computes,
    and on success writes its destinations in index order and the PC. *)

Inductive ExecResult :=
  | ExFault (f : Fault)
  | ExDone (vals : list Z) (p : PCState).

(** What the generated [execute] of an instruction computes from its PC state
    and its source values. *)
Definition ISAExec := StaticInst → PCState → list Z → ExecResult.

Fixpoint write_dests (rf : PhysRegFile) (d : DynInst) (i : Z) (vals : list Z)
    : res PhysRegFile :=
  match vals with
  | [] => Ok rf
  | v :: rest =>
      let! rf' := setRegOperand rf d i v in
      write_dests rf' d (i + 1) rest
  end.

Definition di_execute (isa : ISAExec) (rf : PhysRegFile) (d : DynInst)
    : res (Fault * DynInst * PhysRegFile) :=
  let! vals := res_mapM (getRegOperand rf d) (seqZ 0 (numSrcRegs (staticInst d))) in
  match isa (staticInst d) (pcState d) vals with
  | ExFault f => Ok (f, set_outcome d f (pcState d), rf)
  | ExDone outs p =>
      let! rf' := write_dests rf d 0 outs in
      Ok (NoFault, set_outcome d NoFault p, rf')
  end.

(** *** Loads

    A generated load computes [EA = Rs1 + offset], asks for [operWid()/8] bytes
    and, when the packet returns, writes the extended value. *)

Definition Memory := Z → Z.

Definition read_bytes (m : Memory) (a n : Z) : list Z :=
  map (λ i, m (u64 (a + i))) (seqZ 0 n).

(** The extension a load class applies to the bytes of the packet. *)
Definition ISALoad := StaticInst → list Z → Z.

Definition di_completeAcc (ld : ISALoad) (rf : PhysRegFile) (d : DynInst)
    (data : list Z) : res PhysRegFile :=
  setRegOperand rf d 0 (ld (staticInst d) data).
