(* ===== verification/Comm.v ===== *)
(** Communication between the pipeline stages.

    Models the parts of [src/GEM5/src/cpu/o3/comm.hh] that decode and rename use:
    the stall reasons, the squash versions, and the information the stages write
    for each other. *)
From S2P Require Import Prelude RegFile Inst.

(** ** Stall reasons *)

Inductive StallReason :=
  | NoStall | IcacheStall | ITlbStall | DTlbStall | BpStall | IntStall | TrapStall
  | FTQBubble | FetchFragStall | OtherFetchStall | OtherFragStall | SquashStall
  | FetchBufferInvalid | InstMisPred | InstSquashed | SerializeStall
  | ScalarLongExecute | VectorLongExecute | InstNotReady
  | LoadL1Bound | LoadL2Bound | LoadL3Bound | LoadMemBound
  | StoreL1Bound | StoreL2Bound | StoreL3Bound | StoreMemBound
  | MemSquashed | MemNotReady | MemCommitRateLimit | Atomic | OtherMemStall
  | MemDQBandwidth | IntDQBandwidth | FVDQBandwidth
  | VectorReadyButNotIssued | ScalarReadyButNotIssued | ResumeUnblock | CommitSquash
  | ROBFull | RegFull | OtherStall | NumStallReasons.

#[export] Instance StallReason_eq_dec : EqDecision StallReason.
Proof. solve_decision. Defined.

(** ** Squash versions

    Every squash from commit starts a new version, counted modulo 16; an
    instruction carries the version under which it was fetched. *)

Definition versionLimit : Z := 16.
Definition maxVersion : Z := versionLimit - 1.
Definition maxInflightSquash : Z := 7.

Definition nextVersion (v : Z) : Z := Z.rem (v + 1) versionLimit.

(** [SquashVersion::largerThan]; the arithmetic is that of [int]. *)
Definition largerThan (v other : Z) : res bool :=
  let larger := (other <? v)%Z && (v - other <=? maxInflightSquash)%Z in
  let wrapped_larger :=
    (other <? v + versionLimit)%Z && (v + versionLimit - other <=? maxInflightSquash)%Z in
  do! panic_if (negb (larger || wrapped_larger || (v =? other)%Z)) "SquashVersion" in
  Ok (larger || wrapped_larger).

(** C37: as long as at most [maxInflightSquash] squashes are in flight, comparing
    two versions modulo 16 is comparing the numbers of squashes they stand for,
    and the comparison does not panic. *)
Theorem squash_version_order a b :
  (0 ≤ b ≤ a)%Z → (a - b ≤ maxInflightSquash)%Z →
  largerThan (a `mod` versionLimit) (b `mod` versionLimit) = Ok (b <? a)%Z.
Proof.
  unfold maxInflightSquash, versionLimit. intros Hab Hd.
  pose proof (Z.mod_pos_bound a 16) as Ha. pose proof (Z.mod_pos_bound b 16) as Hb.
  pose proof (Z.div_mod a 16) as Ea. pose proof (Z.div_mod b 16) as Eb.
  unfold largerThan, maxInflightSquash, versionLimit.
  set (u := (a `mod` 16)%Z) in *. set (v := (b `mod` 16)%Z) in *.
  assert (a / 16 = b / 16 ∨ a / 16 = b / 16 + 1)%Z as Hq by lia.
  destruct (Z.ltb_spec v u), (Z.leb_spec (u - v) 7), (Z.ltb_spec v (u + 16)),
    (Z.leb_spec (u + 16 - v) 7), (Z.eqb_spec u v), (Z.ltb_spec b a); simpl;
    try done; exfalso; lia.
Qed.

Lemma squash_version_order_witness : largerThan 2 14 = Ok true.
Proof. apply (squash_version_order 18 14); [lia|]. unfold maxInflightSquash. lia. Defined.

(** Stepping the version [n] times from [v] is adding [n] modulo 16. *)
Lemma nextVersion_iter n v :
  (0 ≤ v < versionLimit)%Z →
  Nat.iter n nextVersion v = ((v + Z.of_nat n) `mod` versionLimit)%Z.
Proof.
  unfold versionLimit. intros Hv. induction n as [|n IH]; simpl.
  - rewrite Z.mod_small; lia.
  - rewrite IH. unfold nextVersion, versionLimit.
    pose proof (Z.mod_pos_bound (v + Z.of_nat n) 16).
    rewrite Z.rem_mod_nonneg, Zplus_mod_idemp_l by lia. f_equal. lia.
Qed.

(** ** What decode tells fetch

    Instructions are named by their sequence numbers. *)
Record DecodeComm := mkDecodeComm {
  dc_nextPC : PCState;
  dc_mispredictInst : Z;
  dc_squashInst : Z;
  dc_doneSeqNum : Z;
  dc_squash : bool;
  dc_predIncorrect : bool;
  dc_branchMispredict : bool;
  dc_branchTaken : bool;
  dc_blockReason : StallReason
}.

Definition DecodeComm_empty : DecodeComm :=
  mkDecodeComm PCState_default 0 0 0 false false false false NoStall.

(** ** Stall signals between the front-end stages, one entry per thread *)
Record StallSignals := mkStall {
  blockFetch : list bool;
  blockDecode : list bool;
  blockRename : list bool;
  blockIEW : list bool;
  fetchBlockReason : list StallReason;
  decodeBlockReason : list StallReason;
  renameBlockReason : list StallReason;
  iewBlockReason : list StallReason
}.

Definition MaxThreads : nat := 4.

Definition StallSignals_new : StallSignals :=
  let f := replicate MaxThreads false in
  let r := replicate MaxThreads NoStall in
  mkStall f f f f r r r r.
