(* ===== verification/StoreSet.v ===== *)
(** The store set predictor.

    Models [src/GEM5/src/cpu/o3/store_set.hh] and [store_set.cc] (class [StoreSet]): the
    table of store set ids (SSIT), indexed by a fold of the program counter, and the table
    of the last fetched stores of every set (LFST), with several stores per set.  The
    three parallel vectors [LFSTLarge], [LFSTLargePC] and [validLFSTLarge] are one table
    of entries here. *)
From S2P Require Import Prelude.

Module StoreSet.

Record Entry := mkEntry { valid : bool; seqNum : Z; storePC : Z }.

Record StoreSet := mkSS {
  SSITSize : Z;
  LFSTSize : Z;
  LFSTEntrySize : Z;
  clearPeriodThreshold : Z;
  SSIT : list Z;
  validSSIT : list bool;
  SSITStrict : list bool;
  LFST : list (list Entry);
  VictimEntryID : list Z;
  lastClearPeriodCycle : Z
}.

Definition no_entry : Entry := mkEntry false 0 0.

(** [init], called once on a default-constructed object. *)
Definition init (thres ssit_size lfst_size entry_size : Z) : StoreSet :=
  mkSS ssit_size lfst_size entry_size thres
    (replicate (Z.to_nat ssit_size) 0%Z)
    (replicate (Z.to_nat ssit_size) false)
    (replicate (Z.to_nat ssit_size) false)
    (replicate (Z.to_nat lfst_size) (replicate (Z.to_nat entry_size) no_entry))
    (replicate (Z.to_nat lfst_size) 0%Z) 0.

(** ** Hashes *)

Fixpoint xor_loop (fold_range : nat) (pc w xored : Z) : Z :=
  match fold_range with
  | O => xored
  | S n => xor_loop n (Z.shiftr pc w) w
             (Z.lxor xored (Z.land pc (u64 (s32 (s32 (Z.shiftl 1 w) - 1)))))
  end.

Definition XORFold (pc w : Z) : Z := xor_loop (Z.to_nat (u64 (64 + w - 1) / w)) pc w 0.

(** [log2] of a power of two. *)
Definition calcIndexSSIT (s : StoreSet) (pc : Z) : Z := XORFold pc (Z.log2 (SSITSize s)).
Definition calcSSID (s : StoreSet) (pc : Z) : Z :=
  XORFold (XORFold pc (Z.log2 (SSITSize s))) (Z.log2 (LFSTSize s)).

(** ** State updates *)

Definition with_ssit (s : StoreSet) (ids : list Z) (vs strict : list bool) : StoreSet :=
  mkSS (SSITSize s) (LFSTSize s) (LFSTEntrySize s) (clearPeriodThreshold s) ids vs strict (LFST s)
    (VictimEntryID s) (lastClearPeriodCycle s).
Definition with_lfst (s : StoreSet) (l : list (list Entry)) (v : list Z) : StoreSet :=
  mkSS (SSITSize s) (LFSTSize s) (LFSTEntrySize s) (clearPeriodThreshold s) (SSIT s) (validSSIT s)
    (SSITStrict s) l v (lastClearPeriodCycle s).

(** [validSSIT[i] = true; SSIT[i] = id;] *)
Definition set_ssid (s : StoreSet) (i id : Z) : res StoreSet :=
  let! ids := set_nth (SSIT s) i id in
  let! vs := set_nth (validSSIT s) i true in
  Ok (with_ssit s ids vs (SSITStrict s)).

(** ** Training *)

Definition violation (s : StoreSet) (store_PC load_PC : Z) : res StoreSet :=
  let load_index := calcIndexSSIT s load_PC in
  let store_index := calcIndexSSIT s store_PC in
  do! assert_ ((load_index <? SSITSize s) && (store_index <? SSITSize s))%Z "index < SSITSize" in
  let! valid_load := nth_res (validSSIT s) load_index in
  let! valid_store := nth_res (validSSIT s) store_index in
  let ld_new_set := calcSSID s load_PC in
  let sd_new_set := calcSSID s store_PC in
  if negb valid_load && negb valid_store then
    let! s := set_ssid s load_index ld_new_set in
    let! s := set_ssid s store_index sd_new_set in
    do! assert_ (ld_new_set <? LFSTSize s)%Z "ld_new_set < LFSTSize" in
    do! assert_ (sd_new_set <? LFSTSize s)%Z "sd_new_set < LFSTSize" in
    Ok s
  else if valid_load && negb valid_store then
    let! s := set_ssid s store_index sd_new_set in
    do! assert_ (sd_new_set <? LFSTSize s)%Z "sd_new_set < LFSTSize" in
    Ok s
  else if negb valid_load && valid_store then
    set_ssid s load_index ld_new_set
  else
    let! load_SSID := nth_res (SSIT s) load_index in
    let! store_SSID := nth_res (SSIT s) store_index in
    do! assert_ ((load_SSID <? LFSTSize s) && (store_SSID <? LFSTSize s))%Z "SSID < LFSTSize" in
    if (load_SSID <? store_SSID)%Z then
      let! ids := set_nth (SSIT s) store_index load_SSID in
      Ok (with_ssit s ids (validSSIT s) (SSITStrict s))
    else
      let! ids := set_nth (SSIT s) load_index store_SSID in
      let! strict := if (store_SSID =? load_SSID)%Z then set_nth (SSITStrict s) load_index true
                     else Ok (SSITStrict s) in
      Ok (with_ssit s ids (validSSIT s) strict).

(** ** Clearing *)

Definition invalidate (e : Entry) : Entry := mkEntry false (seqNum e) (storePC e).

(** [clear] leaves [SSITStrict] alone. *)
Definition clear (s : StoreSet) : StoreSet :=
  mkSS (SSITSize s) (LFSTSize s) (LFSTEntrySize s) (clearPeriodThreshold s) (SSIT s)
    (map (λ _, false) (validSSIT s)) (SSITStrict s) (map (map invalidate) (LFST s))
    (VictimEntryID s) (lastClearPeriodCycle s).

Definition checkClear (s : StoreSet) (curCycle : Z) : StoreSet :=
  if (clearPeriodThreshold s <? u64 (curCycle - lastClearPeriodCycle s))%Z then
    let s := clear s in
    mkSS (SSITSize s) (LFSTSize s) (LFSTEntrySize s) (clearPeriodThreshold s) (SSIT s)
      (validSSIT s) (SSITStrict s) (LFST s) (VictimEntryID s) curCycle
  else s.

(** ** Memory instructions *)

Definition insertLoad (s : StoreSet) (curCycle : Z) : StoreSet := checkClear s curCycle.

(** The first invalid entry, else the next one in turn. *)
Definition findVictimInLFSTEntry (s : StoreSet) (store_SSID : Z) : res (Z * list Z) :=
  let! es := nth_res (LFST s) store_SSID in
  match list_find (λ e, valid e = false) es with
  | Some (j, _) => Ok (Z.of_nat j, VictimEntryID s)
  | None =>
      let! v := nth_res (VictimEntryID s) store_SSID in
      let v := u64 (v + 1) in
      let v := if (LFSTEntrySize s <=? v)%Z then (v `mod` LFSTEntrySize s)%Z else v in
      let! vs := set_nth (VictimEntryID s) store_SSID v in
      Ok (v, vs)
  end.

Definition insertStore (s : StoreSet) (store_PC store_seq_num curCycle : Z) : res StoreSet :=
  let index := calcIndexSSIT s store_PC in
  let s := checkClear s curCycle in
  do! assert_ (index <? SSITSize s)%Z "index < SSITSize" in
  let! v := nth_res (validSSIT s) index in
  if negb v then Ok s
  else
    let! store_SSID := nth_res (SSIT s) index in
    do! assert_ (store_SSID <? LFSTSize s)%Z "store_SSID < LFSTSize" in
    let! x := findVictimInLFSTEntry s store_SSID in
    let! es := nth_res (LFST s) store_SSID in
    let! es := set_nth es x.1 (mkEntry true store_seq_num store_PC) in
    let! l := set_nth (LFST s) store_SSID es in
    Ok (with_lfst s l x.2).

Definition checkInstStrict (s : StoreSet) (pc : Z) : res bool :=
  let index := calcIndexSSIT s pc in
  do! assert_ (index <? SSITSize s)%Z "index < SSITSize" in
  let! v := nth_res (validSSIT s) index in
  if negb v then Ok false else nth_res (SSITStrict s) index.

Definition checkInst (s : StoreSet) (pc : Z) : res (list Z) :=
  let index := calcIndexSSIT s pc in
  do! assert_ (index <? SSITSize s)%Z "index < SSITSize" in
  let! v := nth_res (validSSIT s) index in
  if negb v then Ok []
  else
    let! inst_SSID := nth_res (SSIT s) index in
    do! assert_ (inst_SSID <? LFSTSize s)%Z "inst_SSID < LFSTSize" in
    let! es := nth_res (LFST s) inst_SSID in
    Ok (map seqNum (filter (λ e, valid e = true) es)).

Definition issue_entry (n : Z) (e : Entry) : Entry :=
  if valid e && (seqNum e =? n)%Z then no_entry else e.

Definition issued (s : StoreSet) (issued_PC issued_seq_num : Z) (is_store : bool) : res StoreSet :=
  if negb is_store then Ok s
  else
    let index := calcIndexSSIT s issued_PC in
    do! assert_ (index <? SSITSize s)%Z "index < SSITSize" in
    let! v := nth_res (validSSIT s) index in
    if negb v then Ok s
    else
      let! store_SSID := nth_res (SSIT s) index in
      do! assert_ (store_SSID <? LFSTSize s)%Z "store_SSID < LFSTSize" in
      let! es := nth_res (LFST s) store_SSID in
      let! l := set_nth (LFST s) store_SSID (map (issue_entry issued_seq_num) es) in
      Ok (with_lfst s l (VictimEntryID s)).

Definition squash_entry (n : Z) (e : Entry) : Entry :=
  if valid e && (n <? seqNum e)%Z then no_entry
  else if negb (valid e) then no_entry
  else e.

Definition squash (s : StoreSet) (squashed_num : Z) : StoreSet :=
  with_lfst s (map (map (squash_entry squashed_num)) (LFST s)) (VictimEntryID s).

End StoreSet.
