(* ===== verification/StoreSetProps.v ===== *)
(** What the store set predictor guarantees: its hash, the ranges of its tables, and that
    repeated violations make a load wait for the store. *)
From S2P Require Import Prelude StoreSet.
Import StoreSet.

Module StoreSetProps.

(** ** The hash *)

Lemma fold_mask w : (1 ≤ w ≤ 30)%Z → u64 (s32 (s32 (Z.shiftl 1 w) - 1)) = (2 ^ w - 1)%Z.
Proof.
  intros Hw. rewrite Z.shiftl_1_l.
  assert (2 ^ w ≤ 2 ^ 30)%Z by (apply Z.pow_le_mono_r; lia).
  assert (2 ^ 1 ≤ 2 ^ w)%Z by (apply Z.pow_le_mono_r; lia).
  unfold s32. rewrite (wraps_small 32 (2 ^ w)) by (split; lia).
  rewrite wraps_small by (split; lia). apply u64_small. split; lia.
Qed.

Lemma xor_loop_bits w n : (1 ≤ w ≤ 30)%Z → ∀ pc x j, (0 ≤ j)%Z →
  Z.testbit (xor_loop n pc w x) j =
    xorb (Z.testbit x j) ((j <? w)%Z && parity n (λ k, Z.testbit pc (Z.of_nat k * w + j))).
Proof.
  intros Hw. induction n as [|n IH]; intros pc x j Hj; cbn [xor_loop].
  - simpl. by rewrite andb_false_r, xorb_false_r.
  - rewrite IH by done. rewrite Z.lxor_spec, fold_mask, Z.land_spec, testbit_ones by lia.
    rewrite parity_S_l. rewrite Z.mul_0_l, Z.add_0_l.
    destruct (Z.ltb_spec j w); cbn [andb]; rewrite ?andb_false_r, ?andb_true_r, ?xorb_false_r; [|done].
    rewrite xorb_assoc. f_equal. f_equal. apply parity_ext. intros k Hk.
    rewrite Z.shiftr_spec by lia. f_equal. lia.
Qed.

Definition fold_count (w : Z) : nat := Z.to_nat ((64 + w - 1) / w).

Lemma XORFold_bits w pc j : (1 ≤ w ≤ 30)%Z → (0 ≤ j)%Z →
  Z.testbit (XORFold pc w) j = (j <? w)%Z && parity (fold_count w) (λ k, Z.testbit pc (Z.of_nat k * w + j)).
Proof.
  intros Hw Hj. unfold XORFold. rewrite u64_small by (split; lia). rewrite xor_loop_bits by done.
  by rewrite Z.testbit_0_l, xorb_false_l.
Qed.

Lemma XORFold_range w pc : (1 ≤ w ≤ 30)%Z → in_u w (XORFold pc w).
Proof.
  intros Hw. apply in_u_bits; [lia|]. intros i Hi. rewrite XORFold_bits by lia.
  by destruct (Z.ltb_spec i w); [lia|].
Qed.

(** ** The invariant *)

Record ss_wf (s : StoreSet) : Prop := {
  sw_ssit : ∃ a, SSITSize s = (2 ^ a)%Z ∧ (1 ≤ a ≤ 30)%Z;
  sw_lfst : ∃ b, LFSTSize s = (2 ^ b)%Z ∧ (1 ≤ b ≤ 30)%Z;
  sw_entry : (1 ≤ LFSTEntrySize s < 2 ^ 31)%Z;
  sw_ids : Z.of_nat (length (SSIT s)) = SSITSize s;
  sw_valids : Z.of_nat (length (validSSIT s)) = SSITSize s;
  sw_stricts : Z.of_nat (length (SSITStrict s)) = SSITSize s;
  sw_ssids : Forall (λ id, 0 ≤ id < LFSTSize s)%Z (SSIT s);
  sw_sets : Z.of_nat (length (LFST s)) = LFSTSize s;
  sw_rows : Forall (λ es, Z.of_nat (length es) = LFSTEntrySize s) (LFST s);
  sw_victims : Z.of_nat (length (VictimEntryID s)) = LFSTSize s;
  sw_victim : Forall (λ v, 0 ≤ v < LFSTEntrySize s)%Z (VictimEntryID s)
}.

Lemma index_range s pc : ss_wf s → (0 ≤ calcIndexSSIT s pc < SSITSize s)%Z.
Proof.
  intros Hs. destruct (sw_ssit _ Hs) as (a & E & Ha). unfold calcIndexSSIT.
  rewrite E, Z.log2_pow2 by lia. by apply XORFold_range.
Qed.

Lemma ssid_range s pc : ss_wf s → (0 ≤ calcSSID s pc < LFSTSize s)%Z.
Proof.
  intros Hs. destruct (sw_lfst _ Hs) as (b & E & Hb). unfold calcSSID.
  rewrite E, (Z.log2_pow2 b) by lia. by apply XORFold_range.
Qed.

(** What the tables hold for a program counter. *)
Record at_pc (s : StoreSet) (pc : Z) (i : nat) (v : bool) (id : Z) (st : bool) : Prop := {
  ap_index : Z.of_nat i = calcIndexSSIT s pc;
  ap_valid : validSSIT s !! i = Some v;
  ap_id : SSIT s !! i = Some id;
  ap_strict : SSITStrict s !! i = Some st;
  ap_range : (0 ≤ id < LFSTSize s)%Z
}.

Lemma at_pc_ex s pc : ss_wf s → ∃ i v id st, at_pc s pc i v id st.
Proof.
  intros Hs. pose proof (index_range s pc Hs) as Hi.
  destruct (array_access _ _ _ (sw_valids _ Hs) Hi) as (v & _ & Hv & _).
  destruct (array_access _ _ _ (sw_ids _ Hs) Hi) as (id & _ & Hid & _).
  destruct (array_access _ _ _ (sw_stricts _ Hs) Hi) as (st & _ & Hst & _).
  exists (Z.to_nat (calcIndexSSIT s pc)), v, id, st. split; try done; [lia|].
  by eapply (Forall_lookup_1 _ _ _ _ (sw_ssids _ Hs)).
Qed.

Lemma nth_res_nat {A} (l : list A) (i : nat) a : l !! i = Some a → nth_res l (Z.of_nat i) = Ok a.
Proof. intros H. unfold nth_res. destruct (Z.ltb_spec (Z.of_nat i) 0); [lia|]. by rewrite Nat2Z.id, H. Qed.

Lemma set_nth_nat {A} (l : list A) (i : nat) a : (i < length l)%nat →
  set_nth l (Z.of_nat i) a = Ok (<[i := a]> l).
Proof.
  intros Hi. unfold set_nth.
  destruct (Z.leb_spec 0 (Z.of_nat i)), (Z.ltb_spec (Z.of_nat i) (Z.of_nat (length l))); try lia.
  by rewrite Nat2Z.id.
Qed.

Lemma at_pc_lt s pc i v id st : at_pc s pc i v id st →
  (i < length (validSSIT s))%nat ∧ (i < length (SSIT s))%nat ∧ (i < length (SSITStrict s))%nat.
Proof. intros []. repeat split; by eapply lookup_lt_Some. Qed.

Lemma init_wf thres a b n :
  (1 ≤ a ≤ 30)%Z → (1 ≤ b ≤ 30)%Z → (1 ≤ n < 2 ^ 31)%Z → ss_wf (init thres (2 ^ a) (2 ^ b) n).
Proof.
  intros Ha Hb Hn.
  assert (0 < 2 ^ a)%Z by (apply Z.pow_pos_nonneg; lia).
  assert (0 < 2 ^ b)%Z by (apply Z.pow_pos_nonneg; lia).
  split; simpl; rewrite ?length_replicate; try lia; try (eexists; done);
    apply Forall_replicate; rewrite ?length_replicate; lia.
Qed.

(** ** Training *)

(** The store set ids a violation leaves for the load and for the store, from what their
    entries held. *)
Definition trained (s : StoreSet) (sp lp : Z) (vl vs : bool) (idl ids : Z) : Z * Z :=
  match vl, vs with
  | false, false => (calcSSID s lp, calcSSID s sp)
  | true, false => (idl, calcSSID s sp)
  | false, true => (calcSSID s lp, ids)
  | true, true => (Z.min idl ids, Z.min idl ids)
  end.

Definition after_violation (s : StoreSet) (sp lp : Z) (i j : nat) (vl vs : bool) (idl ids : Z)
    : StoreSet :=
  let t := trained s sp lp vl vs idl ids in
  with_ssit s (<[j := t.2]> (<[i := t.1]> (SSIT s))) (<[j := true]> (<[i := true]> (validSSIT s)))
    (if vl && vs && (ids =? idl)%Z then <[i := true]> (SSITStrict s) else SSITStrict s).

Section violation.
Context (s : StoreSet) (sp lp : Z) (i j : nat) (vl vs : bool) (idl ids : Z) (stl sts : bool).
Hypothesis Hs : ss_wf s.
Hypothesis Hl : at_pc s lp i vl idl stl.
Hypothesis Hst : at_pc s sp j vs ids sts.

Lemma trained_range : let t := trained s sp lp vl vs idl ids in
  (0 ≤ t.1 < LFSTSize s ∧ 0 ≤ t.2 < LFSTSize s)%Z.
Proof.
  pose proof (ssid_range s lp Hs). pose proof (ssid_range s sp Hs).
  pose proof (ap_range _ _ _ _ _ _ Hl). pose proof (ap_range _ _ _ _ _ _ Hst).
  destruct vl, vs; simpl; lia.
Qed.

Lemma after_violation_wf : ss_wf (after_violation s sp lp i j vl vs idl ids).
Proof.
  destruct trained_range as [H1 H2]. pose proof Hs as [].
  split; simpl; rewrite ?length_insert; try done.
  - destruct (vl && vs && (ids =? idl)%Z); by rewrite ?length_insert.
  - apply Forall_insert; [|done]. by apply Forall_insert.
Qed.

Lemma violation_ok : violation s sp lp = Ok (after_violation s sp lp i j vl vs idl ids).
Proof.
  destruct (at_pc_lt _ _ _ _ _ _ Hl) as (Lv & Li & Lt).
  destruct (at_pc_lt _ _ _ _ _ _ Hst) as (Sv & Si & St).
  destruct trained_range as [T1 T2]. pose proof (index_range s lp Hs). pose proof (index_range s sp Hs).
  pose proof (ssid_range s lp Hs). pose proof (ssid_range s sp Hs).
  destruct Hl as [El Vl Il Stl Rl], Hst as [Es Vs Is Sts Rs].
  unfold violation, after_violation, set_ssid. rewrite <- El, <- Es in *.
  rewrite !(proj2 (Z.ltb_lt _ _)) by lia. cbn -[set_nth nth_res].
  rewrite (nth_res_nat _ _ _ Vl), (nth_res_nat _ _ _ Vs). cbn -[set_nth nth_res].
  destruct vl, vs; cbn -[set_nth nth_res].
  - rewrite (nth_res_nat _ _ _ Il), (nth_res_nat _ _ _ Is). cbn -[set_nth nth_res].
    rewrite !(proj2 (Z.ltb_lt _ (LFSTSize s))) by lia. cbn -[set_nth nth_res].
    rewrite !(list_insert_id (validSSIT s)) by done.
    destruct (Z.ltb_spec idl ids) as [Hlt|Hle].
    + rewrite set_nth_nat by done. cbn. rewrite Z.min_l, (proj2 (Z.eqb_neq ids idl)) by lia.
      by rewrite (list_insert_id _ i).
    + rewrite set_nth_nat by done. cbn -[set_nth]. rewrite Z.min_r by lia.
      rewrite (list_insert_id _ j) by (destruct (decide (i = j)) as [->|];
        [by rewrite list_lookup_insert_eq | by rewrite list_lookup_insert_ne]).
      destruct (ids =? idl)%Z; [by rewrite set_nth_nat | done].
  - rewrite !set_nth_nat by done. cbn. rewrite (proj2 (Z.ltb_lt _ _)) by lia.
    by rewrite (list_insert_id (SSIT s) i), (list_insert_id (validSSIT s) i).
  - rewrite !set_nth_nat by done. cbn. destruct (decide (i = j)) as [<-|Hij]; [congruence|].
    rewrite (list_insert_id _ j), (list_insert_id _ j); [done|..]; by rewrite list_lookup_insert_ne.
  - rewrite !set_nth_nat by done. cbn -[set_nth].
    rewrite !set_nth_nat by (by rewrite length_insert). cbn.
    by rewrite !(proj2 (Z.ltb_lt _ _)) by lia.
Qed.
Lemma after_load : at_pc (after_violation s sp lp i j vl vs idl ids) lp i true
  (let t := trained s sp lp vl vs idl ids in if decide (i = j) then t.2 else t.1)
  (stl || vl && vs && (ids =? idl)%Z).
Proof.
  destruct (at_pc_lt _ _ _ _ _ _ Hl) as (Lv & Li & Lt). destruct trained_range as [T1 T2].
  destruct Hl as [El Vl Il Stl Rl]. split; cbn -[trained]; [done| | | |].
  - destruct (decide (i = j)) as [<-|Hij].
    + rewrite list_lookup_insert_eq; [done|]. by rewrite length_insert.
    + rewrite list_lookup_insert_ne by done. by rewrite list_lookup_insert_eq.
  - destruct (decide (i = j)) as [<-|Hij].
    + rewrite list_lookup_insert_eq; [done|]. by rewrite length_insert.
    + rewrite list_lookup_insert_ne by done. by rewrite list_lookup_insert_eq.
  - destruct (vl && vs && (ids =? idl)%Z); [|by rewrite orb_false_r].
    by rewrite list_lookup_insert_eq, orb_true_r.
  - by destruct (decide (i = j)).
Qed.

Lemma after_store : ∃ st, at_pc (after_violation s sp lp i j vl vs idl ids) sp j true
  (trained s sp lp vl vs idl ids).2 st.
Proof.
  destruct (at_pc_lt _ _ _ _ _ _ Hst) as (Lv & Li & Lt). destruct trained_range as [T1 T2].
  destruct Hst as [El Vl Il Stl Rl]. eexists. split; cbn -[trained]; try done.
  - rewrite list_lookup_insert_eq; [done|]. by rewrite length_insert.
  - rewrite list_lookup_insert_eq; [done|]. by rewrite length_insert.
  - instantiate (1 := if vl && vs && (ids =? idl)%Z && bool_decide (i = j) then true else sts).
    destruct (vl && vs && (ids =? idl)%Z); [|done]. destruct (decide (i = j)) as [->|Hij].
    + rewrite bool_decide_true by done. by rewrite list_lookup_insert_eq.
    + rewrite bool_decide_false by done. by rewrite list_lookup_insert_ne.
Qed.
End violation.

(** ** The other operations *)

Lemma clear_wf s : ss_wf s → ss_wf (clear s).
Proof.
  intros []. split; simpl; rewrite ?length_map; try done.
  apply Forall_map. eapply Forall_impl; [done|]. intros es H. simpl. by rewrite length_map.
Qed.

Lemma checkClear_wf s c : ss_wf s → ss_wf (checkClear s c).
Proof.
  intros Hs. unfold checkClear. destruct (_ <? _)%Z; [|done]. by destruct (clear_wf s Hs).
Qed.

Lemma with_lfst_wf s k row vs :
  ss_wf s → Z.of_nat (length row) = LFSTEntrySize s → length vs = length (VictimEntryID s) →
  Forall (λ v, 0 ≤ v < LFSTEntrySize s)%Z vs → ss_wf (with_lfst s (<[k := row]> (LFST s)) vs).
Proof.
  intros [] Hr Hl Hv. split; simpl; rewrite ?length_insert, ?Hl; try done. by apply Forall_insert.
Qed.

Lemma row_ex s pc i v id st : ss_wf s → at_pc s pc i v id st →
  ∃ row, LFST s !! Z.to_nat id = Some row ∧ nth_res (LFST s) id = Ok row ∧
    Z.of_nat (length row) = LFSTEntrySize s ∧
    ∀ row', set_nth (LFST s) id row' = Ok (<[Z.to_nat id := row']> (LFST s)).
Proof.
  intros Hs Hp. destruct (array_access _ _ _ (sw_sets _ Hs) (ap_range _ _ _ _ _ _ Hp))
    as (row & H1 & H2 & H3).
  exists row. repeat split; try done. by eapply (Forall_lookup_1 _ _ _ _ (sw_rows _ Hs)).
Qed.

(** A place of the row, a free one when there is one. *)
Definition takes_free (row : list Entry) (k : nat) : Prop :=
  ∃ e, row !! k = Some e ∧ (Exists (λ e, valid e = false) row → valid e = false).

Lemma takes_free_lt row k : takes_free row k → (k < length row)%nat.
Proof. intros (e & Hk & _). by eapply lookup_lt_Some. Qed.

Lemma findVictim_ok s id row :
  ss_wf s → (0 ≤ id < LFSTSize s)%Z → nth_res (LFST s) id = Ok row →
  Z.of_nat (length row) = LFSTEntrySize s →
  ∃ k vs, findVictimInLFSTEntry s id = Ok (Z.of_nat k, vs) ∧ takes_free row k ∧
    length vs = length (VictimEntryID s) ∧ Forall (λ v, 0 ≤ v < LFSTEntrySize s)%Z vs.
Proof.
  intros Hs Hid Hr Hl. unfold findVictimInLFSTEntry. rewrite Hr. cbn -[nth_res set_nth].
  destruct (list_find _ row) as [[k e]|] eqn:Hf.
  { apply list_find_Some in Hf as (Hk & Hv & _). exists k, (VictimEntryID s).
    split; [done|]. split; [by exists e|]. split; [done|]. apply (sw_victim _ Hs). }
  destruct (array_access _ _ _ (sw_victims _ Hs) Hid) as (v & H1 & H2 & H3).
  pose proof (Forall_lookup_1 _ _ _ _ (sw_victim _ Hs) H2) as Hv. simpl in Hv.
  pose proof (sw_entry _ Hs) as He. rewrite H1. cbn -[set_nth].
  rewrite (u64_small (v + 1)) by (unfold in_u; lia). rewrite H3. simpl.
  set (w := if (_ <=? _)%Z then _ else _).
  assert (0 ≤ w < LFSTEntrySize s)%Z as Hw.
  { unfold w. destruct (Z.leb_spec (LFSTEntrySize s) (v + 1)); [|lia]. apply Z.mod_pos_bound; lia. }
  exists (Z.to_nat w), (<[Z.to_nat id := w]> (VictimEntryID s)).
  rewrite Z2Nat.id by lia. split; [done|]. split.
  { destruct (lookup_lt_is_Some_2 row (Z.to_nat w)) as [e Hw']; [lia|]. exists e. split; [done|].
    apply list_find_None in Hf. intros Hx%Exists_exists. destruct Hx as (e' & He' & Hx).
    rewrite Forall_forall in Hf. by destruct (Hf e' He'). }
  rewrite length_insert. split; [done|].
  apply Forall_insert; [apply (sw_victim _ Hs)|done].
Qed.

(** Inserting a store puts it into its set, when it has one. *)
Lemma insertStore_ok s pc n c i v id st :
  ss_wf s → at_pc (checkClear s c) pc i v id st →
  ∃ s', insertStore s pc n c = Ok s' ∧ ss_wf s' ∧
    if v then ∃ row k vs, LFST (checkClear s c) !! Z.to_nat id = Some row ∧ takes_free row k ∧
           s' = with_lfst (checkClear s c)
                  (<[Z.to_nat id := <[k := mkEntry true n pc]> row]> (LFST (checkClear s c))) vs
    else s' = checkClear s c.
Proof.
  intros Hs Hp. pose proof (checkClear_wf s c Hs) as Hc.
  assert (calcIndexSSIT s pc = calcIndexSSIT (checkClear s c) pc) as E.
  { unfold checkClear. by destruct (_ <? _)%Z. }
  unfold insertStore. rewrite E. clear E. revert Hp Hc. generalize (checkClear s c). clear s Hs c.
  intros s Hp Hs. pose proof (index_range s pc Hs) as Hi.
  rewrite (proj2 (Z.ltb_lt _ _)) by lia. cbn -[nth_res set_nth].
  rewrite <- (ap_index _ _ _ _ _ _ Hp), (nth_res_nat _ _ _ (ap_valid _ _ _ _ _ _ Hp)).
  destruct v; cbn -[nth_res set_nth]; [|by exists s].
  rewrite (nth_res_nat _ _ _ (ap_id _ _ _ _ _ _ Hp)). cbn -[nth_res set_nth].
  pose proof (ap_range _ _ _ _ _ _ Hp) as Hid.
  rewrite (proj2 (Z.ltb_lt _ _)) by lia. cbn -[nth_res set_nth].
  destruct (row_ex _ _ _ _ _ _ Hs Hp) as (row & H1 & H2 & H3 & H4).
  destruct (findVictim_ok s id row Hs Hid H2 H3) as (k & vs & E & Hk & Hl & Hf).
  rewrite E, H2. cbn -[set_nth].
  rewrite set_nth_nat by (by apply takes_free_lt). cbn -[set_nth]. rewrite H4. cbn.
  eexists. split; [done|]. split; [by apply with_lfst_wf; rewrite ?length_insert|].
  by exists row, k, vs.
Qed.

Lemma issued_ok s pc n b i v id st :
  ss_wf s → at_pc s pc i v id st →
  ∃ s', issued s pc n b = Ok s' ∧ ss_wf s' ∧
    if b && v then ∃ row, LFST s !! Z.to_nat id = Some row ∧
           s' = with_lfst s (<[Z.to_nat id := map (issue_entry n) row]> (LFST s)) (VictimEntryID s)
    else s' = s.
Proof.
  intros Hs Hp. unfold issued. destruct b; [|by exists s]. cbn -[nth_res set_nth].
  pose proof (index_range s pc Hs) as Hi. rewrite (proj2 (Z.ltb_lt _ _)) by lia.
  cbn -[nth_res set_nth].
  rewrite <- (ap_index _ _ _ _ _ _ Hp), (nth_res_nat _ _ _ (ap_valid _ _ _ _ _ _ Hp)).
  destruct v; cbn -[nth_res set_nth]; [|by exists s].
  rewrite (nth_res_nat _ _ _ (ap_id _ _ _ _ _ _ Hp)). cbn -[nth_res set_nth].
  pose proof (ap_range _ _ _ _ _ _ Hp) as Hid.
  rewrite (proj2 (Z.ltb_lt _ _)) by lia. cbn -[nth_res set_nth].
  destruct (row_ex _ _ _ _ _ _ Hs Hp) as (row & H1 & H2 & H3 & H4).
  rewrite H2. cbn -[set_nth]. rewrite H4. cbn. eexists. split; [done|].
  split; [|by exists row]. apply with_lfst_wf; rewrite ?length_map; try done. apply (sw_victim _ Hs).
Qed.

Lemma squash_wf s n : ss_wf s → ss_wf (squash s n).
Proof.
  intros []. split; simpl; rewrite ?length_map; try done.
  apply Forall_map. eapply Forall_impl; [done|]. intros es H. simpl. by rewrite length_map.
Qed.

Lemma checkInst_ok s pc i v id st : ss_wf s → at_pc s pc i v id st →
  ∃ row, LFST s !! Z.to_nat id = Some row ∧ Z.of_nat (length row) = LFSTEntrySize s ∧
    checkInst s pc = Ok (if v then map seqNum (filter (λ e, valid e = true) row) else []).
Proof.
  intros Hs Hp. destruct (row_ex _ _ _ _ _ _ Hs Hp) as (row & H1 & H2 & H3 & H4).
  exists row. split; [done|]. split; [done|]. unfold checkInst.
  pose proof (index_range s pc Hs) as Hi. rewrite (proj2 (Z.ltb_lt _ _)) by lia.
  cbn -[nth_res set_nth].
  rewrite <- (ap_index _ _ _ _ _ _ Hp), (nth_res_nat _ _ _ (ap_valid _ _ _ _ _ _ Hp)).
  destruct v; cbn -[nth_res set_nth]; [|done].
  rewrite (nth_res_nat _ _ _ (ap_id _ _ _ _ _ _ Hp)). cbn -[nth_res set_nth].
  pose proof (ap_range _ _ _ _ _ _ Hp) as Hid.
  rewrite (proj2 (Z.ltb_lt _ _)) by lia. cbn -[nth_res set_nth]. by rewrite H2.
Qed.

Lemma checkInstStrict_ok s pc i v id st : ss_wf s → at_pc s pc i v id st →
  checkInstStrict s pc = Ok (v && st).
Proof.
  intros Hs Hp. unfold checkInstStrict.
  pose proof (index_range s pc Hs) as Hi. rewrite (proj2 (Z.ltb_lt _ _)) by lia.
  cbn -[nth_res set_nth].
  rewrite <- (ap_index _ _ _ _ _ _ Hp), (nth_res_nat _ _ _ (ap_valid _ _ _ _ _ _ Hp)).
  destruct v; cbn -[nth_res]; [|done]. by rewrite (nth_res_nat _ _ _ (ap_strict _ _ _ _ _ _ Hp)).
Qed.

End StoreSetProps.
