(* ===== verification/StoreSetTrace.v ===== *)
(** Runs of the store set predictor.

    Sequences of the calls the memory dependence unit makes: no run fails, what is reported
    to a load is a store in flight, and a load that was caught twice behind the same store
    waits for the later instances of that store. *)
From S2P Require Import Prelude StoreSet StoreSetProps.
Import StoreSet StoreSetProps.

Module StoreSetTrace.

(** A call to the predictor. *)
Inductive ss_op :=
| OpViolation (store_PC load_PC : Z)
| OpInsertLoad (curCycle : Z)
| OpInsertStore (store_PC store_seq_num curCycle : Z)
| OpIssued (issued_PC issued_seq_num : Z) (is_store : bool)
| OpSquash (squashed_num : Z).

Definition ss_step (s : StoreSet) (op : ss_op) : res StoreSet :=
  match op with
  | OpViolation sp lp => violation s sp lp
  | OpInsertLoad c => Ok (insertLoad s c)
  | OpInsertStore pc n c => insertStore s pc n c
  | OpIssued pc n b => issued s pc n b
  | OpSquash n => Ok (squash s n)
  end.

Definition ss_run (s : StoreSet) (ops : list ss_op) : res StoreSet := res_fold ss_step s ops.

(** The stores in flight: inserted and not squashed since. *)
Definition fly (l : list Z) (op : ss_op) : list Z :=
  match op with
  | OpInsertStore _ n _ => n :: l
  | OpSquash m => filter (λ n, (n ≤ m)%Z) l
  | _ => l
  end.

Definition in_flight (ops : list ss_op) : list Z := foldl fly [] ops.

Definition entries_in (s : StoreSet) (l : list Z) : Prop :=
  ∀ row e, row ∈ LFST s → e ∈ row → valid e = true → seqNum e ∈ l.

(** ** No call fails *)

Lemma entries_in_clear s c l : entries_in s l → entries_in (checkClear s c) l.
Proof.
  intros H row e Hr He Hv. unfold checkClear in Hr. destruct (_ <? _)%Z; [|by eapply H].
  simpl in Hr. apply list_elem_of_In, in_map_iff in Hr as (r & <- & _).
  apply list_elem_of_In, in_map_iff in He as (e' & <- & _). done.
Qed.

Lemma entries_in_row s k row vs l l' :
  entries_in s l → l ⊆ l' → (∀ e, e ∈ row → valid e = true → seqNum e ∈ l') →
  entries_in (with_lfst s (<[k := row]> (LFST s)) vs) l'.
Proof.
  intros H Hl Hr r e Hin He Hv. simpl in Hin.
  apply list_elem_of_lookup in Hin as [j Hj].
  destruct (decide (j = k)) as [->|Hne].
  - apply list_lookup_insert_Some in Hj as [(_ & <- & _)|(? & _)]; [by apply Hr|done].
  - rewrite list_lookup_insert_ne in Hj by done. apply Hl. eapply H; [|done..].
    by eapply list_elem_of_lookup_2.
Qed.

Lemma step_ok s op : ss_wf s →
  ∃ s', ss_step s op = Ok s' ∧ ss_wf s' ∧ ∀ l, entries_in s l → entries_in s' (fly l op).
Proof.
  intros Hs. destruct op as [sp lp|c|pc n c|pc n b|n]; simpl.
  - destruct (at_pc_ex s lp Hs) as (i & vl & idl & stl & Hl).
    destruct (at_pc_ex s sp Hs) as (j & vs & ids & sts & Hst).
    rewrite (violation_ok _ _ _ _ _ _ _ _ _ _ _ Hs Hl Hst). eexists. split; [done|].
    split; [by eapply after_violation_wf|]. intros l H. exact H.
  - eexists. split; [done|]. split; [by apply checkClear_wf|]. intros l. apply entries_in_clear.
  - destruct (at_pc_ex (checkClear s c) pc (checkClear_wf s c Hs)) as (i & v & id & st & Hp).
    destruct (insertStore_ok s pc n c _ _ _ _ Hs Hp) as (s' & E & Hw & Hx).
    exists s'. split; [done|]. split; [done|]. intros l H. apply (entries_in_clear s c) in H.
    destruct v; [|subst; intros row e ???; right; by eapply H].
    destruct Hx as (row & k & vs & Hr & Hk & ->). apply (entries_in_row _ _ _ _ l); [done|set_solver|].
    intros e He Hv. apply list_elem_of_lookup in He as [j Hj].
    apply list_lookup_insert_Some in Hj as [(_ & <- & _)|(_ & Hj)]; [left|].
    right. eapply H; [by eapply list_elem_of_lookup_2| |done]. by eapply list_elem_of_lookup_2.
  - destruct (at_pc_ex s pc Hs) as (i & v & id & st & Hp).
    destruct (issued_ok s pc n b _ _ _ _ Hs Hp) as (s' & E & Hw & Hx).
    exists s'. split; [done|]. split; [done|]. intros l H. destruct (b && v); [|by subst].
    destruct Hx as (row & Hr & ->). apply (entries_in_row _ _ _ _ l); [done..|].
    intros e He Hv. apply list_elem_of_In, in_map_iff in He as (e' & <- & He').
    unfold issue_entry in *. destruct (valid e' && _) eqn:?; [done|].
    eapply H; [by eapply list_elem_of_lookup_2| |done]. by apply list_elem_of_In.
  - eexists. split; [done|]. split; [by apply squash_wf|]. intros l H row e Hr He Hv. simpl in Hr.
    apply list_elem_of_In, in_map_iff in Hr as (r & <- & Hr).
    apply list_elem_of_In, in_map_iff in He as (e' & <- & He').
    apply list_elem_of_In in Hr, He'. unfold squash_entry in *.
    destruct (valid e') eqn:Hv'; simpl in *; [|done].
    destruct (Z.ltb_spec n (seqNum e')); [done|].
    apply list_elem_of_filter. split; [done|]. by eapply H.
Qed.

Lemma run_ok s ops l : ss_wf s → entries_in s l →
  ∃ s', ss_run s ops = Ok s' ∧ ss_wf s' ∧ entries_in s' (foldl fly l ops).
Proof.
  revert s l. induction ops as [|op ops IH]; intros s l Hs Hl; [by exists s|].
  destruct (step_ok s op Hs) as (s1 & E & Hw & Hx). unfold ss_run. simpl. rewrite E. simpl.
  apply IH; [done|]. by apply Hx.
Qed.

(** No call changes the number of entries of a set. *)
Lemma step_entry_size s op s' :
  ss_wf s → ss_step s op = Ok s' → LFSTEntrySize s' = LFSTEntrySize s.
Proof.
  intros Hs. destruct op as [sp lp|c|pc n c|pc n b|n]; simpl; [| | | |by intros [= <-]].
  - destruct (at_pc_ex s lp Hs) as (i & vl & idl & stl & Hl).
    destruct (at_pc_ex s sp Hs) as (j & vs & ids & sts & Hst).
    rewrite (violation_ok _ _ _ _ _ _ _ _ _ _ _ Hs Hl Hst). by intros [= <-].
  - intros [= <-]. unfold insertLoad, checkClear. by destruct (_ <? _)%Z.
  - destruct (at_pc_ex (checkClear s c) pc (checkClear_wf s c Hs)) as (i & v & id & st & Hp).
    destruct (insertStore_ok s pc n c _ _ _ _ Hs Hp) as (s1 & -> & _ & Hx). intros [= <-].
    transitivity (LFSTEntrySize (checkClear s c)); [|unfold checkClear; by destruct (_ <? _)%Z].
    destruct v; [by destruct Hx as (? & ? & ? & _ & _ & ->)|by subst].
  - destruct (at_pc_ex s pc Hs) as (i & v & id & st & Hp).
    destruct (issued_ok s pc n b _ _ _ _ Hs Hp) as (s1 & -> & _ & Hx). intros [= <-].
    destruct (b && v); [by destruct Hx as (? & _ & ->)|by subst].
Qed.

Lemma run_entry_size s ops s' :
  ss_wf s → ss_run s ops = Ok s' → LFSTEntrySize s' = LFSTEntrySize s.
Proof.
  intros Hs E. cut (ss_wf s' ∧ LFSTEntrySize s' = LFSTEntrySize s); [tauto|].
  revert E. apply (res_fold_keep _ (λ t, ss_wf t ∧ LFSTEntrySize t = LFSTEntrySize s)); [done|].
  intros t op t' _ [Ht <-] Et. destruct (step_ok t op Ht) as (t1 & E1 & H1 & _).
  split; [congruence|]. by eapply step_entry_size.
Qed.

(** What is reported for a program counter. *)
Lemma checkInst_in s l pc : ss_wf s → entries_in s l →
  ∃ deps strict, checkInst s pc = Ok deps ∧ checkInstStrict s pc = Ok strict ∧
    (Z.of_nat (length deps) ≤ LFSTEntrySize s)%Z ∧ Forall (λ d, d ∈ l) deps.
Proof.
  intros Hs Hin. destruct (at_pc_ex s pc Hs) as (i & v & id & st & Hp).
  destruct (checkInst_ok _ _ _ _ _ _ Hs Hp) as (row & Hr & Hl & ->).
  rewrite (checkInstStrict_ok _ _ _ _ _ _ Hs Hp). eexists _, _. split; [done|]. split; [done|].
  destruct v; [|simpl; split; [lia|constructor]]. split.
  { rewrite length_map. pose proof (length_filter (λ e, valid e = true) row). lia. }
  apply Forall_map, Forall_forall. intros e He. apply list_elem_of_filter in He as [Hv He].
  eapply Hin; [|done..]. by eapply list_elem_of_lookup_2.
Qed.

(** C35: With power-of-two tables, whatever sequence of violations, loads, stores, issues
    and squashes the predictor sees, no assertion fails and no table is indexed out of
    range; the stores then reported for any program counter are at most [LFSTEntrySize],
    and each of them was inserted and not squashed since. *)
Theorem store_set_sound thres a b n ops :
  (1 ≤ a ≤ 30)%Z → (1 ≤ b ≤ 30)%Z → (1 ≤ n < 2 ^ 31)%Z →
  ∃ s, ss_run (init thres (2 ^ a) (2 ^ b) n) ops = Ok s ∧
    ∀ pc, ∃ deps strict, checkInst s pc = Ok deps ∧ checkInstStrict s pc = Ok strict ∧
      (Z.of_nat (length deps) ≤ n)%Z ∧ Forall (λ d, d ∈ in_flight ops) deps.
Proof.
  intros Ha Hb Hn. destruct (run_ok (init thres (2 ^ a) (2 ^ b) n) ops []) as (s & E & Hs & Hin).
  { by apply init_wf. }
  { intros row e Hr He Hv. simpl in Hr. apply elem_of_replicate in Hr as [-> _].
    apply elem_of_replicate in He as [-> _]. done. }
  exists s. split; [done|]. intros pc.
  assert (LFSTEntrySize s = n) as <- by (by rewrite (run_entry_size _ _ _ (init_wf thres a b n Ha Hb Hn) E)).
  by apply checkInst_in.
Qed.

(** ** Learning *)

(** The predictor is not cleared at a cycle. *)
Definition stays (s : StoreSet) (c : Z) : Prop :=
  (u64 (c - lastClearPeriodCycle s) ≤ clearPeriodThreshold s)%Z.

(** A call that clears no table and does not train the entries of the two program
    counters: other violations are allowed, and any insertion, issue or squash. *)
Definition calm (sp lp : Z) (s : StoreSet) (op : ss_op) : Prop :=
  match op with
  | OpViolation sp' lp' =>
      ∀ pc, pc = sp ∨ pc = lp → calcIndexSSIT s sp' ≠ calcIndexSSIT s pc ∧
                                calcIndexSSIT s lp' ≠ calcIndexSSIT s pc
  | OpInsertLoad c | OpInsertStore _ _ c => stays s c
  | _ => True
  end.

(** The size of the table and the clock of the clearing. *)
Definition clock_of (s : StoreSet) := (SSITSize s, clearPeriodThreshold s, lastClearPeriodCycle s).

Lemma stays_clear s c : stays s c → checkClear s c = s.
Proof. unfold stays, checkClear. intros H. by rewrite (proj2 (Z.ltb_ge _ _)). Qed.

Lemma clock_index s s' pc : clock_of s' = clock_of s → calcIndexSSIT s' pc = calcIndexSSIT s pc.
Proof. intros [= E _ _]. unfold calcIndexSSIT. by rewrite E. Qed.

Lemma at_pc_after s sp l i1 j1 vl vs idl ids pc i v id st :
  i ≠ i1 → i ≠ j1 → at_pc s pc i v id st →
  at_pc (after_violation s sp l i1 j1 vl vs idl ids) pc i v id st.
Proof.
  intros H1 H2 []. split; cbn -[trained]; try done.
  - by rewrite !list_lookup_insert_ne by done.
  - by rewrite !list_lookup_insert_ne by done.
  - destruct (vl && vs && _); [by rewrite list_lookup_insert_ne|done].
Qed.

Lemma at_pc_lfst s l vs pc i v id st :
  at_pc s pc i v id st → at_pc (with_lfst s l vs) pc i v id st.
Proof. by intros []. Qed.

Lemma calm_step sp lp s op s' : ss_wf s → calm sp lp s op → ss_step s op = Ok s' →
  clock_of s' = clock_of s ∧
  ∀ pc i v id st, pc = sp ∨ pc = lp → at_pc s pc i v id st → at_pc s' pc i v id st.
Proof.
  intros Hs Hc. destruct op as [sp' lp'|c|pc n c|pc n b|n]; simpl in *.
  - destruct (at_pc_ex s lp' Hs) as (i1 & vl & idl & stl & Hl).
    destruct (at_pc_ex s sp' Hs) as (j1 & vs & ids & sts & Hst).
    rewrite (violation_ok _ _ _ _ _ _ _ _ _ _ _ Hs Hl Hst). intros [= <-]. split; [done|].
    intros pc i v id st Hpc Hp. destruct (Hc pc Hpc) as [Q1 Q2].
    pose proof (ap_index _ _ _ _ _ _ Hl). pose proof (ap_index _ _ _ _ _ _ Hst).
    pose proof (ap_index _ _ _ _ _ _ Hp). apply at_pc_after; [lia|lia|done].
  - unfold insertLoad. rewrite stays_clear by done. by intros [= <-].
  - destruct (at_pc_ex s pc Hs) as (i & v & id & st & Hp).
    destruct (insertStore_ok s pc n c i v id st Hs) as (s1 & -> & _ & Hx);
      [by rewrite stays_clear|].
    rewrite stays_clear in Hx by done. intros [= <-].
    destruct v; [|by subst]. destruct Hx as (? & ? & ? & _ & _ & ->). split; [done|].
    intros. by apply at_pc_lfst.
  - destruct (at_pc_ex s pc Hs) as (i & v & id & st & Hp).
    destruct (issued_ok s pc n b _ _ _ _ Hs Hp) as (s1 & -> & _ & Hx). intros [= <-].
    destruct (b && v); [|by subst]. destruct Hx as (? & _ & ->). split; [done|].
    intros. by apply at_pc_lfst.
  - intros [= <-]. split; [done|]. intros. by apply at_pc_lfst.
Qed.

Lemma calm_clock sp lp s s' op : clock_of s' = clock_of s → calm sp lp s op → calm sp lp s' op.
Proof.
  intros Ec. pose proof (clock_index s s') as Ei. pose proof Ec as [= E1 E2 E3].
  destruct op; unfold calm, stays; rewrite ?E2, ?E3; try done.
  intros Hq pc Hpc. rewrite !(Ei _ Ec). by apply Hq.
Qed.

Lemma calm_run sp lp s ops : ss_wf s → Forall (calm sp lp s) ops →
  ∃ s', ss_run s ops = Ok s' ∧ ss_wf s' ∧ clock_of s' = clock_of s ∧
    ∀ pc i v id st, pc = sp ∨ pc = lp → at_pc s pc i v id st → at_pc s' pc i v id st.
Proof.
  revert s. induction ops as [|op ops IH]; intros s Hs Hc; [by exists s|].
  apply Forall_cons in Hc as [Hc Hcs].
  destruct (step_ok s op Hs) as (s1 & E & H1 & _).
  destruct (calm_step _ _ _ _ _ Hs Hc E) as [Ec Hp].
  destruct (IH s1 H1) as (s2 & E2 & H2 & Ec2 & Hp2).
  { eapply Forall_impl; [done|]. intros o. by apply calm_clock. }
  exists s2. unfold ss_run. simpl. rewrite E. split; [exact E2|]. split; [done|].
  split; [congruence|]. eauto.
Qed.

(** After a violation the load and the store both have a set. *)
Lemma train_first s sp lp : ss_wf s →
  ∃ s' i j idl ids stl sts, violation s sp lp = Ok s' ∧ ss_wf s' ∧ clock_of s' = clock_of s ∧
    at_pc s' lp i true idl stl ∧ at_pc s' sp j true ids sts.
Proof.
  intros Hs. destruct (at_pc_ex s lp Hs) as (i & vl & idl & stl & Hl).
  destruct (at_pc_ex s sp Hs) as (j & vs & ids & sts & Hst).
  destruct (after_store _ _ _ _ _ _ _ _ _ _ _ Hs Hl Hst) as [st' Hst'].
  eexists _, i, j, _, _, _, _. split; [by eapply violation_ok|].
  split; [by eapply after_violation_wf|]. split; [done|]. split; [by eapply after_load|done].
Qed.

(** When both have one already, they share a set afterwards, and the load is strict if they
    shared one before. *)
Lemma train_again s sp lp i j idl ids stl sts : ss_wf s →
  at_pc s lp i true idl stl → at_pc s sp j true ids sts →
  ∃ s' st', violation s sp lp = Ok s' ∧ ss_wf s' ∧ clock_of s' = clock_of s ∧
    at_pc s' lp i true (Z.min idl ids) (stl || (ids =? idl)%Z) ∧
    at_pc s' sp j true (Z.min idl ids) st'.
Proof.
  intros Hs Hl Hst. destruct (after_store _ _ _ _ _ _ _ _ _ _ _ Hs Hl Hst) as [st' Hst'].
  eexists _, st'. split; [by eapply violation_ok|]. split; [by eapply after_violation_wf|].
  split; [done|]. split; [|done].
  pose proof (after_load _ _ _ _ _ _ _ _ _ _ _ Hs Hl Hst) as Hl'. simpl in Hl'.
  by destruct (decide (i = j)).
Qed.

(** Two violations of a load and a store, with other instructions around them, put them
    into one set. *)
Lemma train_twice s sp lp mid1 mid2 :
  ss_wf s → Forall (calm sp lp s) (mid1 ++ mid2) →
  ∃ s' i j id stl sts,
    ss_run s (OpViolation sp lp :: mid1 ++ OpViolation sp lp :: mid2) = Ok s' ∧ ss_wf s' ∧
    clock_of s' = clock_of s ∧ at_pc s' lp i true id stl ∧ at_pc s' sp j true id sts.
Proof.
  intros Hs Hc. apply Forall_app in Hc as [Hc1 Hc2].
  destruct (train_first s sp lp Hs) as (s1 & i & j & idl & ids & stl & sts & E1 & H1 & C1 & L1 & S1).
  destruct (calm_run sp lp s1 mid1 H1) as (s2 & E2 & H2 & C2 & P2).
  { eapply Forall_impl; [done|]. intros o. by apply calm_clock. }
  destruct (train_again s2 sp lp i j idl ids stl sts H2) as (s3 & st' & E3 & H3 & C3 & L3 & S3);
    [by apply P2; [right|]|by apply P2; [left|]|].
  destruct (calm_run sp lp s3 mid2 H3) as (s4 & E4 & H4 & C4 & P4).
  { eapply Forall_impl; [done|]. intros o. apply calm_clock. congruence. }
  exists s4, i, j. eexists _, _, _. split; [|split; [done|split; [congruence|]]];
    [|split; [apply P4; [by right|exact L3]|apply P4; [by left|exact S3]]].
  unfold ss_run in *. simpl. rewrite E1. simpl. rewrite res_fold_app, E2. simpl. by rewrite E3.
Qed.

(** A store that is reported to the load. *)
Definition holds (s : StoreSet) (lp n : Z) : Prop :=
  ∃ i id st row e, at_pc s lp i true id st ∧ LFST s !! Z.to_nat id = Some row ∧
    e ∈ row ∧ valid e = true ∧ seqNum e = n.

Lemma holds_reported s lp n : ss_wf s → holds s lp n → ∃ deps, checkInst s lp = Ok deps ∧ n ∈ deps.
Proof.
  intros Hs (i & id & st & row & e & Hp & Hr & He & Hv & <-).
  destruct (checkInst_ok _ _ _ _ _ _ Hs Hp) as (row' & Hr' & _ & ->). simplify_eq.
  eexists. split; [done|]. apply list_elem_of_fmap_2, list_elem_of_filter. done.
Qed.

(** The set of a program counter. *)
Definition set_of (s : StoreSet) (pc : Z) : option Z :=
  let i := Z.to_nat (calcIndexSSIT s pc) in
  if default false (validSSIT s !! i) then SSIT s !! i else None.

Lemma at_pc_set s pc i v id st : at_pc s pc i v id st → set_of s pc = if v then Some id else None.
Proof. intros []. unfold set_of. by rewrite <- ap_index0, Nat2Z.id, ap_valid0, ap_id0. Qed.

(** The set of the load has a free entry: fewer than [LFSTEntrySize] stores are reported
    to it. *)
Definition has_room (s : StoreSet) (lp : Z) : Prop :=
  ∃ deps, checkInst s lp = Ok deps ∧ (Z.of_nat (length deps) < LFSTEntrySize s)%Z.

(** A call that clears no table, does not train the entry of the load, does not issue or
    squash store [n], and inserts a store into the load's set only while it has a free
    entry. *)
Definition quiet (lp n : Z) (s : StoreSet) (op : ss_op) : Prop :=
  match op with
  | OpViolation sp l => calcIndexSSIT s sp ≠ calcIndexSSIT s lp ∧ calcIndexSSIT s l ≠ calcIndexSSIT s lp
  | OpInsertLoad c => stays s c
  | OpInsertStore pc _ c => stays s c ∧ (set_of s pc = set_of s lp → has_room s lp)
  | OpIssued _ m _ => m ≠ n
  | OpSquash m => (n ≤ m)%Z
  end.

Inductive quiet_run (lp n : Z) : StoreSet → list ss_op → StoreSet → Prop :=
| quiet_nil s : quiet_run lp n s [] s
| quiet_cons s op s1 ops s2 : quiet lp n s op → ss_step s op = Ok s1 →
    quiet_run lp n s1 ops s2 → quiet_run lp n s (op :: ops) s2.

(** An update of a row keeps a store that the new row still has. *)
Lemma holds_row s lp n i id st row e k row' vs :
  at_pc s lp i true id st → LFST s !! Z.to_nat id = Some row → e ∈ row → valid e = true →
  seqNum e = n → (k = Z.to_nat id → e ∈ row') →
  holds (with_lfst s (<[k := row']> (LFST s)) vs) lp n.
Proof.
  intros Hp Hr He Hv Hn Hk. destruct (decide (k = Z.to_nat id)) as [->|Hne].
  - exists i, id, st, row', e. split; [by destruct Hp|]. simpl. rewrite list_lookup_insert_eq
      by (by eapply lookup_lt_Some). split; [done|]. split; [by apply Hk|done].
  - exists i, id, st, row, e. split; [by destruct Hp|]. simpl. by rewrite list_lookup_insert_ne.
Qed.

Lemma room_free s lp i id st row :
  ss_wf s → at_pc s lp i true id st → LFST s !! Z.to_nat id = Some row → has_room s lp →
  Exists (λ e, valid e = false) row.
Proof.
  intros Hs Hp Hr (deps & Hd & Hlt).
  destruct (checkInst_ok _ _ _ _ _ _ Hs Hp) as (row' & Hr' & Hl & E). simplify_eq.
  rewrite Hd in E. injection E as ->. rewrite length_map in Hlt.
  destruct (decide (Exists (λ e, valid e = false) row)) as [?|Hall]; [done|]. exfalso.
  assert (filter (λ e, valid e = true) row = row) as Ef; [|rewrite Ef in Hlt; lia].
  clear -Hall. induction row as [|e row IH]; [done|]. rewrite filter_cons_True, IH; [done|..].
  - intros Hx. apply Hall. by right.
  - destruct (valid e) eqn:E; [done|]. exfalso. apply Hall. by left.
Qed.

Lemma quiet_step lp n s op s' :
  ss_wf s → holds s lp n → quiet lp n s op → ss_step s op = Ok s' → holds s' lp n.
Proof.
  intros Hs Hh Hq. pose proof Hh as (i & id & st & row & e & Hp & Hr & He & Hv & Hn).
  destruct op as [sp l|c|pc m c|pc m b|m]; simpl in *.
  - destruct Hq as [Q1 Q2]. destruct (at_pc_ex s l Hs) as (i1 & vl & idl & stl & Hl).
    destruct (at_pc_ex s sp Hs) as (j1 & vs & ids & sts & Hst).
    rewrite (violation_ok _ _ _ _ _ _ _ _ _ _ _ Hs Hl Hst). intros [= <-].
    pose proof (ap_index _ _ _ _ _ _ Hl). pose proof (ap_index _ _ _ _ _ _ Hst).
    pose proof (ap_index _ _ _ _ _ _ Hp).
    exists i, id, st, row, e. split; [|done]. apply at_pc_after; [lia|lia|done].
  - unfold insertLoad. rewrite stays_clear by done. by intros [= <-].
  - destruct Hq as [Q1 Q2]. destruct (at_pc_ex s pc Hs) as (i1 & v & id1 & st1 & Hp1).
    destruct (insertStore_ok s pc m c i1 v id1 st1 Hs) as (s1 & -> & _ & Hx);
      [by rewrite stays_clear|].
    rewrite stays_clear in Hx by done. intros [= <-]. destruct v; [|by subst].
    destruct Hx as (row1 & k & vs & Hr1 & (e1 & Hk & Hfree) & ->). eapply holds_row; try done.
    intros Ek. rewrite Ek in Hr1. simplify_eq.
    rewrite (at_pc_set _ _ _ _ _ _ Hp1), (at_pc_set _ _ _ _ _ _ Hp) in Q2.
    pose proof (ap_range _ _ _ _ _ _ Hp1). pose proof (ap_range _ _ _ _ _ _ Hp).
    specialize (Hfree (room_free _ _ _ _ _ _ Hs Hp Hr (Q2 ltac:(f_equal; lia)))).
    apply list_elem_of_lookup in He as [k' Hk'].
    apply (list_elem_of_lookup_2 _ k'). rewrite list_lookup_insert_ne by congruence. done.
  - destruct (at_pc_ex s pc Hs) as (i1 & v & id1 & st1 & Hp1).
    destruct (issued_ok s pc m b _ _ _ _ Hs Hp1) as (s1 & -> & _ & Hx). intros [= <-].
    destruct (b && v); [|by subst]. destruct Hx as (row1 & Hr1 & ->).
    eapply holds_row; try done. intros Ek. rewrite Ek in Hr1. simplify_eq.
    replace e with (issue_entry m e); [by apply list_elem_of_fmap_2|].
    unfold issue_entry. rewrite Hv, (proj2 (Z.eqb_neq _ _)) by congruence. done.
  - intros [= <-]. exists i, id, st, (map (squash_entry m) row), e. split; [by destruct Hp|].
    simpl. rewrite list_lookup_fmap, Hr. split; [done|]. split; [|done].
    replace e with (squash_entry m e); [by apply list_elem_of_fmap_2|].
    unfold squash_entry. rewrite Hv, (proj2 (Z.ltb_ge _ _)) by lia. done.
Qed.

Lemma quiet_keeps lp n s ops s' :
  quiet_run lp n s ops s' → ss_wf s → holds s lp n → ss_wf s' ∧ holds s' lp n.
Proof.
  induction 1 as [|s op s1 ops s2 Hq E _ IH]; [done|]. intros Hs Hh.
  destruct (step_ok s op Hs) as (s1' & E' & H1 & _).
  apply IH; [congruence|]. exact (quiet_step _ _ _ _ _ Hs Hh Hq E).
Qed.

(** Inserting a store of the load's set. *)
Lemma insert_holds s sp lp n c i j id stl sts :
  ss_wf s → stays s c → at_pc s lp i true id stl → at_pc s sp j true id sts →
  ∃ s', insertStore s sp n c = Ok s' ∧ ss_wf s' ∧ holds s' lp n ∧
    at_pc s' lp i true id stl ∧ at_pc s' sp j true id sts.
Proof.
  intros Hs Hc Hl Hst. destruct (insertStore_ok s sp n c j true id sts Hs)
    as (s' & E & Hw & row & k & vs & Hr & Hk & ->); [by rewrite stays_clear|].
  eexists. split; [done|]. split; [done|]. rewrite (stays_clear s c Hc) in *.
  split; [|split; by apply at_pc_lfst].
  exists i, id, stl, (<[k := mkEntry true n sp]> row), (mkEntry true n sp).
  split; [by destruct Hl|]. simpl. rewrite list_lookup_insert_eq by (by eapply lookup_lt_Some).
  split; [done|]. split; [|done]. eapply list_elem_of_lookup_2.
  by apply list_lookup_insert_eq, takes_free_lt.
Qed.

(** Issuing a store of the load's set. *)
Lemma issue_forgets s sp lp n i j id stl sts :
  ss_wf s → at_pc s lp i true id stl → at_pc s sp j true id sts →
  ∃ s' deps, issued s sp n true = Ok s' ∧ checkInst s' lp = Ok deps ∧ n ∉ deps.
Proof.
  intros Hs Hl Hst. destruct (issued_ok s sp n true j true id sts Hs Hst)
    as (s' & E & Hw & row & Hr & Es).
  destruct (checkInst_ok s' lp i true id stl Hw) as (row' & Hr' & _ & Ec);
    [by subst; destruct Hl|].
  eexists s', _. split; [done|]. split; [done|]. subst. simpl in Hr'.
  rewrite list_lookup_insert_eq in Hr' by (by eapply lookup_lt_Some). simplify_eq.
  intros (e & En & He)%list_elem_of_fmap_1. apply list_elem_of_filter in He as [Hv He].
  apply list_elem_of_fmap_1 in He as (e' & -> & _). unfold issue_entry in *.
  destruct (valid e') eqn:Hv'; simpl in *; [|congruence].
  destruct (Z.eqb_spec (seqNum e') n); simpl in *; congruence.
Qed.

(** C26: Let a load and a store be in violation twice, with no clearing of the tables and
    no other training of their two entries before, between and after the two (see [calm];
    other violations and any insertion, issue or squash are allowed).  Then an instance of
    the store inserted while the tables are not cleared is reported to the load, and stays
    reported through every run that does not issue or squash it, clear the tables or
    retrain the load's entry, and in which further stores enter the load's set only while
    fewer than [LFSTEntrySize] are reported (see [quiet]); issuing it at once ends that.
    A third violation instead makes the load strict. *)
Theorem store_set_learns s sp lp mid1 mid2 n c :
  ss_wf s → Forall (calm sp lp s) (mid1 ++ mid2) → stays s c →
  let twice := OpViolation sp lp :: mid1 ++ OpViolation sp lp :: mid2 in
  (∃ s1, ss_run s (twice ++ [OpInsertStore sp n c]) = Ok s1 ∧
     (∀ ops s2, quiet_run lp n s1 ops s2 → ∃ deps, checkInst s2 lp = Ok deps ∧ n ∈ deps) ∧
     ∃ s2 deps, issued s1 sp n true = Ok s2 ∧ checkInst s2 lp = Ok deps ∧ n ∉ deps) ∧
  (∃ s1, ss_run s (twice ++ [OpViolation sp lp]) = Ok s1 ∧ checkInstStrict s1 lp = Ok true).
Proof.
  intros Hs Hc Ht twice.
  destruct (train_twice s sp lp mid1 mid2 Hs Hc) as (s0 & i & j & id & stl & sts & E & H0 & C & L & S).
  assert (∀ op, ss_run s (twice ++ [op]) = ss_step s0 op) as Erun.
  { intros op. unfold ss_run. rewrite res_fold_app. fold (ss_run s twice). unfold twice.
    rewrite E. simpl. by destruct (ss_step s0 op). }
  split.
  - destruct (insert_holds s0 sp lp n c i j id stl sts H0) as (s1 & E1 & H1 & Hh & L1 & S1); [|done..|].
    { unfold stays in *. injection C as _ -> ->. done. }
    exists s1. rewrite Erun. split; [done|]. split.
    { intros ops s2 Hq. destruct (quiet_keeps _ _ _ _ _ Hq H1 Hh). by apply holds_reported. }
    by apply (issue_forgets s1 sp lp n i j id stl sts H1).
  - destruct (train_again s0 sp lp i j id id stl sts H0 L S) as (s1 & st' & E1 & H1 & _ & L1 & _).
    exists s1. rewrite Erun. split; [done|]. rewrite (checkInstStrict_ok _ _ _ _ _ _ H1 L1).
    by rewrite Z.eqb_refl, orb_true_r.
Qed.

(** ** Examples *)

Definition small : StoreSet := init 1000 (2 ^ 5) (2 ^ 3) 2.

Lemma store_set_sound_witness :
  (1 ≤ 5 ≤ 30)%Z ∧
  ∃ s, ss_run (init 1000 (2 ^ 5) (2 ^ 3) 2)
         [OpViolation 16 4; OpViolation 16 4; OpInsertStore 16 7 10; OpSquash 6] = Ok s ∧
    ∀ pc, ∃ deps strict, checkInst s pc = Ok deps ∧ checkInstStrict s pc = Ok strict ∧
      (Z.of_nat (length deps) ≤ 2)%Z ∧
      Forall (λ d, d ∈ in_flight [OpViolation 16 4; OpViolation 16 4; OpInsertStore 16 7 10;
                                  OpSquash 6]) deps.
Proof. split; [lia|]. apply (store_set_sound 1000 5 3 2); lia. Defined.

(** In between another load is in violation; afterwards a second instance enters the set. *)
Definition learnt : list ss_op :=
  [OpViolation 16 4; OpViolation 24 12; OpInsertLoad 8; OpViolation 16 4].

Definition small1 : StoreSet :=
  match ss_run small (learnt ++ [OpInsertStore 16 7 10]) with Ok s => s | Panic _ => small end.
Definition small2 : StoreSet :=
  match insertStore small1 16 8 11 with Ok s => s | Panic _ => small end.

Lemma learnt1 : ss_run small (learnt ++ [OpInsertStore 16 7 10]) = Ok small1.
Proof. vm_compute. reflexivity. Qed.

Lemma second_quiet : quiet_run 4 7 small1 [OpInsertStore 16 8 11] small2.
Proof.
  econstructor; [|vm_compute; reflexivity|constructor].
  split; [vm_compute; discriminate|]. intros _. exists [7%Z]. split; vm_compute; reflexivity.
Qed.

Lemma store_set_learns_witness :
  ss_wf small ∧ ss_run small (learnt ++ [OpInsertStore 16 7 10]) = Ok small1 ∧
  (∃ deps, checkInst small2 4 = Ok deps ∧ 7%Z ∈ deps) ∧
  (∃ s2 deps, issued small1 16 7 true = Ok s2 ∧ checkInst s2 4 = Ok deps ∧ 7%Z ∉ deps) ∧
  (∃ s1, ss_run small (learnt ++ [OpViolation 16 4]) = Ok s1 ∧ checkInstStrict s1 4 = Ok true).
Proof.
  assert (ss_wf small) as Hs by (apply init_wf; lia). split; [exact Hs|].
  split; [apply learnt1|].
  destruct (store_set_learns small 16 4 [OpViolation 24 12; OpInsertLoad 8] [] 7 10 Hs)
    as [(s1 & E & Hq & Hi) Hv].
  - constructor; [|constructor; [vm_compute; discriminate|constructor]].
    intros pc [->| ->]; vm_compute; split; discriminate.
  - vm_compute. discriminate.
  - change (ss_run small (learnt ++ [OpInsertStore 16 7 10]) = Ok s1) in E.
    rewrite learnt1 in E. apply Ok_inj in E as <-.
    split; [exact (Hq _ _ second_quiet)|]. split; [exact Hi|exact Hv].
Defined.

(** A store of a full set takes the place of another that is in flight: the load no longer
    waits for it. *)
Theorem full_set_forgets : ∃ s,
  ss_run small (learnt ++ [OpInsertStore 16 7 10; OpInsertStore 16 8 11; OpInsertStore 16 9 12]) = Ok s ∧
  in_flight (learnt ++ [OpInsertStore 16 7 10; OpInsertStore 16 8 11; OpInsertStore 16 9 12]) =
    [9; 8; 7]%Z ∧
  checkInst s 4 = Ok [7; 9]%Z.
Proof. eexists. split; [by vm_compute|]. by vm_compute. Qed.

(** One violation is not enough: it gives the load and the store sets of their own, and the
    next instance of the store is not reported. *)
Theorem one_violation_learns_nothing : ∃ s,
  ss_run small [OpViolation 16 4; OpInsertStore 16 7 10] = Ok s ∧ checkInst s 4 = Ok [] ∧
  set_of s 16 = Some 2%Z ∧ set_of s 4 = Some 4%Z.
Proof. eexists. split; [by vm_compute|]. by vm_compute. Qed.

(** Clearing leaves the strict marks: a load that was strict before is strict again after
    its first violation with any store. *)
Theorem strict_survives_clear : ∃ s,
  ss_run small [OpViolation 16 4; OpViolation 16 4; OpViolation 16 4; OpInsertLoad 2000;
                OpViolation 24 4] = Ok s ∧ checkInstStrict s 4 = Ok true.
Proof. eexists. split; [by vm_compute|]. by vm_compute. Qed.

End StoreSetTrace.
