(* ===== verification/MemDep.v ===== *)
(** The memory dependence unit.

    Models [src/GEM5/src/cpu/o3/mem_dep_unit.hh] and [mem_dep_unit.cc] (class
    [MemDepUnit]), which decides when a memory instruction may issue.  The entries are
    shared pointers: they live in a heap and are named by their address, so that an entry
    that was squashed is still reached through the dependents of its producer.  A node of
    an instruction list is named by the entry that holds its iterator.  The calls the unit
    makes on the issue queue ([markMemDepDone], [retryMem] of [issue_queue.cc]) are logged
    after the assertions they start with; statistics and traces are left out. *)
From stdpp Require Import gmap.
From S2P Require Import Prelude Comm StoreSet.

Module MemDep.

(** What the unit reads of an instruction. *)
Record DynInst := mkInst {
  seqNum : Z;
  threadNumber : Z;
  instAddr : Z;
  isLoad : bool;
  isStore : bool;
  isAtomic : bool;
  isReadBarrier : bool;
  isWriteBarrier : bool;
  isHtmCmd : bool;
  isNonSpeculative : bool
}.

Definition isMemRef (i : DynInst) : bool := isLoad i || isStore i || isAtomic i.

Record MemDepEntry := mkEntry {
  inst : DynInst;
  dependInsts : list nat;
  memDeps : Z;
  squashed : bool
}.

(** A call on the issue queue of an instruction. *)
Inductive IQCall := MarkMemDepDone (n : Z) | RetryMem (n : Z).

#[global] Instance IQCall_eq_dec : EqDecision IQCall.
Proof. solve_decision. Defined.

Record MemDepUnit := mkUnit {
  enableReplayBasedMDP : bool;
  enableMDPStrictWait : bool;
  heap : list MemDepEntry;
  memDepHash : gmap Z nat;
  instList : list (list (nat * DynInst));
  instsToReplay : list DynInst;
  depPred : StoreSet.StoreSet;
  loadBarrierSNs : gset Z;
  storeBarrierSNs : gset Z;
  (** [mdpProducingStores] and [mdpPredStrictWait] of the instructions. *)
  mdpFields : gmap Z (list Z * bool);
  calls : list IQCall
}.

(** The order in which an unordered set is iterated, which the standard leaves open. *)
Class SetOrder := {
  iterate : gset Z → list Z;
  iterate_perm : ∀ X, iterate X ≡ₚ elements X
}.

#[global] Instance elements_order : SetOrder := {| iterate := elements; iterate_perm := λ X, reflexivity _ |}.

(** ** Updates *)

Definition with_heap (u : MemDepUnit) (h : list MemDepEntry) : MemDepUnit :=
  mkUnit (enableReplayBasedMDP u) (enableMDPStrictWait u) h (memDepHash u) (instList u)
    (instsToReplay u) (depPred u) (loadBarrierSNs u) (storeBarrierSNs u) (mdpFields u) (calls u).
Definition with_lists (u : MemDepUnit) (m : gmap Z nat) (l : list (list (nat * DynInst)))
    : MemDepUnit :=
  mkUnit (enableReplayBasedMDP u) (enableMDPStrictWait u) (heap u) m l
    (instsToReplay u) (depPred u) (loadBarrierSNs u) (storeBarrierSNs u) (mdpFields u) (calls u).
Definition with_replay (u : MemDepUnit) (l : list DynInst) : MemDepUnit :=
  mkUnit (enableReplayBasedMDP u) (enableMDPStrictWait u) (heap u) (memDepHash u) (instList u)
    l (depPred u) (loadBarrierSNs u) (storeBarrierSNs u) (mdpFields u) (calls u).
Definition with_pred (u : MemDepUnit) (d : StoreSet.StoreSet) : MemDepUnit :=
  mkUnit (enableReplayBasedMDP u) (enableMDPStrictWait u) (heap u) (memDepHash u) (instList u)
    (instsToReplay u) d (loadBarrierSNs u) (storeBarrierSNs u) (mdpFields u) (calls u).
Definition with_barriers (u : MemDepUnit) (lb sb : gset Z) : MemDepUnit :=
  mkUnit (enableReplayBasedMDP u) (enableMDPStrictWait u) (heap u) (memDepHash u) (instList u)
    (instsToReplay u) (depPred u) lb sb (mdpFields u) (calls u).
Definition with_mdp (u : MemDepUnit) (m : gmap Z (list Z * bool)) : MemDepUnit :=
  mkUnit (enableReplayBasedMDP u) (enableMDPStrictWait u) (heap u) (memDepHash u) (instList u)
    (instsToReplay u) (depPred u) (loadBarrierSNs u) (storeBarrierSNs u) m (calls u).
Definition call (u : MemDepUnit) (c : IQCall) : MemDepUnit :=
  mkUnit (enableReplayBasedMDP u) (enableMDPStrictWait u) (heap u) (memDepHash u) (instList u)
    (instsToReplay u) (depPred u) (loadBarrierSNs u) (storeBarrierSNs u) (mdpFields u)
    (calls u ++ [c]).

Definition init (replay strict : bool) (thres ssit lfst entry : Z) : MemDepUnit :=
  mkUnit replay strict [] ∅ (replicate MaxThreads []) [] (StoreSet.init thres ssit lfst entry)
    ∅ ∅ ∅ [].

(** ** The issue queue *)

Definition markMemDepDone (u : MemDepUnit) (i : DynInst) : res MemDepUnit :=
  do! assert_ (isMemRef i) "inst->isMemRef()" in
  Ok (call u (MarkMemDepDone (seqNum i))).

Definition retryMem (u : MemDepUnit) (i : DynInst) : res MemDepUnit :=
  do! assert_ (negb (isNonSpeculative i)) "!inst->isNonSpeculative()" in
  Ok (call u (RetryMem (seqNum i))).

(** ** Inserting *)

Definition isDrained (u : MemDepUnit) : bool :=
  bool_decide (instsToReplay u = []) && bool_decide (memDepHash u = ∅) &&
  forallb (λ l, match l with [] => true | _ => false end) (instList u).

Definition takeOverFrom (u : MemDepUnit) : MemDepUnit :=
  with_pred (with_barriers u ∅ ∅) (StoreSet.clear (depPred u)).

Definition hasLoadBarrier (u : MemDepUnit) : bool := negb (bool_decide (loadBarrierSNs u = ∅)).
Definition hasStoreBarrier (u : MemDepUnit) : bool := negb (bool_decide (storeBarrierSNs u = ∅)).

Definition insertBarrierSN (u : MemDepUnit) (i : DynInst) : MemDepUnit :=
  with_barriers u
    (if isReadBarrier i || isHtmCmd i then {[seqNum i]} ∪ loadBarrierSNs u else loadBarrierSNs u)
    (if isWriteBarrier i || isHtmCmd i then {[seqNum i]} ∪ storeBarrierSNs u else storeBarrierSNs u).

(** Allocate an entry, add it to the hash (which keeps an entry it already has) and to the
    list of the thread. *)
Definition new_entry (u : MemDepUnit) (i : DynInst) : res (nat * MemDepUnit) :=
  let p := length (heap u) in
  let u := with_heap u (heap u ++ [mkEntry i [] 0 false]) in
  let m := if bool_decide (is_Some (memDepHash u !! seqNum i)) then memDepHash u
           else <[seqNum i := p]> (memDepHash u) in
  let! l := nth_res (instList u) (threadNumber i) in
  let! ls := set_nth (instList u) (threadNumber i) (l ++ [(p, i)]) in
  Ok (p, with_lists u m ls).

(** Push entry [p] on the dependents of the producers. *)
Definition add_dependents (h : list MemDepEntry) (p : nat) (producers : list nat)
    : list MemDepEntry :=
  foldl (λ h q, alter (λ e, mkEntry (inst e) (dependInsts e ++ [p]) (memDeps e) (squashed e)) q h)
    h producers.

Definition insert_store_set (u : MemDepUnit) (i : DynInst) (curCycle : Z) : res MemDepUnit :=
  if isStore i || isAtomic i then
    let! d := StoreSet.insertStore (depPred u) (instAddr i) (seqNum i) curCycle in
    Ok (with_pred u d)
  else if isLoad i then Ok u
  else Panic "Unknown type! (most likely a barrier).".

Section insert.
Context `{SetOrder}.

(** The producers of an instruction, whether the store sets gave them, and the strict mark. *)
Definition find_producers (u : MemDepUnit) (i : DynInst) : res (list Z * bool * bool) :=
  if (isLoad i || isAtomic i) && hasLoadBarrier u then Ok (iterate (loadBarrierSNs u), false, false)
  else if (isStore i || isAtomic i) && hasStoreBarrier u then
    Ok (iterate (storeBarrierSNs u), false, false)
  else if isLoad i then
    let! ps := StoreSet.checkInst (depPred u) (instAddr i) in
    let! strict := if enableMDPStrictWait u then StoreSet.checkInstStrict (depPred u) (instAddr i)
                   else Ok false in
    Ok (ps, true, strict)
  else Ok ([], false, false).

Definition insert (u : MemDepUnit) (i : DynInst) (curCycle : Z) : res MemDepUnit :=
  let! x := new_entry u i in
  let inst_entry := x.1 in
  let u := x.2 in
  let! y := find_producers u i in
  let producing_stores := y.1.1 in
  let store_set_pred := y.1.2 in
  let strict_wait := y.2 in
  let u := if enableReplayBasedMDP u && isLoad i then
             with_mdp u (<[seqNum i := if store_set_pred then (producing_stores, strict_wait)
                                       else ([], false)]> (mdpFields u))
           else u in
  let store_entries := omap (λ n, memDepHash u !! n) producing_stores in
  let! u :=
    match store_entries with
    | [] => markMemDepDone u i
    | _ =>
        if enableReplayBasedMDP u && isLoad i && store_set_pred then markMemDepDone u i
        else
          let h := add_dependents (heap u) inst_entry store_entries in
          Ok (with_heap u
                (alter (λ e, mkEntry (inst e) (dependInsts e) (Z.of_nat (length store_entries))
                               (squashed e)) inst_entry h))
    end in
  let u := insertBarrierSN u i in
  insert_store_set u i curCycle.
End insert.

Definition insertBarrier (u : MemDepUnit) (i : DynInst) : res MemDepUnit :=
  let! x := new_entry u i in
  Ok (insertBarrierSN x.2 i).

Definition insertNonSpec (u : MemDepUnit) (i : DynInst) (curCycle : Z) : res MemDepUnit :=
  let! u := insertBarrier u i in
  insert_store_set u i curCycle.

(** ** Replays *)

Definition findInHash (u : MemDepUnit) (i : DynInst) : res nat :=
  match memDepHash u !! seqNum i with
  | Some p => Ok p
  | None => Panic "assert(hash_it != memDepHash.end())"
  end.

Definition entry_at (u : MemDepUnit) (p : nat) : res MemDepEntry :=
  match heap u !! p with Some e => Ok e | None => ub end.

Definition reschedule (u : MemDepUnit) (i : DynInst) : MemDepUnit :=
  with_replay u (instsToReplay u ++ [i]).

Fixpoint replay_loop (u : MemDepUnit) (l : list DynInst) : res MemDepUnit :=
  match l with
  | [] => Ok (with_replay u [])
  | i :: l =>
      let! p := findInHash u i in
      let! e := entry_at u p in
      let! u := retryMem u (inst e) in
      replay_loop (with_replay u l) l
  end.

Definition replay (u : MemDepUnit) : res MemDepUnit := replay_loop u (instsToReplay u).

(** ** Completing *)

(** One dependent.  The instruction of an entry is never null: nothing resets it. *)
Definition wake (u : MemDepUnit) (q : nat) : res MemDepUnit :=
  let! e := entry_at u q in
  do! assert_ (0 <? memDeps e)%Z "woken_inst->memDeps > 0" in
  let u := with_heap u (alter (λ e, mkEntry (inst e) (dependInsts e) (memDeps e - 1) (squashed e))
                          q (heap u)) in
  if (memDeps e - 1 =? 0)%Z && negb (squashed e) then markMemDepDone u (inst e) else Ok u.

Definition has_dependents (i : DynInst) : bool :=
  isStore i || isAtomic i || isReadBarrier i || isWriteBarrier i || isHtmCmd i.

Definition wakeDependents (u : MemDepUnit) (i : DynInst) : res MemDepUnit :=
  if negb (has_dependents i) then Ok u
  else
    let! p := findInHash u i in
    let! e := entry_at u p in
    let! u := res_fold wake u (dependInsts e) in
    Ok (with_heap u (alter (λ e, mkEntry (inst e) [] (memDeps e) (squashed e)) p (heap u))).

(** Erase the node of entry [p]. *)
Definition erase_node (l : list (nat * DynInst)) (p : nat) : res (list (nat * DynInst)) :=
  if bool_decide (p ∈ l.*1) then Ok (filter (λ x, x.1 ≠ p) l) else ub.

Definition completed (u : MemDepUnit) (i : DynInst) : res MemDepUnit :=
  let! p := findInHash u i in
  let! l := nth_res (instList u) (threadNumber i) in
  let! l := erase_node l p in
  let! ls := set_nth (instList u) (threadNumber i) l in
  Ok (with_lists u (delete (seqNum i) (memDepHash u)) ls).

Definition completeInst (u : MemDepUnit) (i : DynInst) : res MemDepUnit :=
  let! u := wakeDependents u i in
  let! u := completed u i in
  let! u := if isWriteBarrier i || isHtmCmd i then
              do! assert_ (hasStoreBarrier u) "hasStoreBarrier()" in
              Ok (with_barriers u (loadBarrierSNs u) (storeBarrierSNs u ∖ {[seqNum i]}))
            else Ok u in
  if isReadBarrier i || isHtmCmd i then
    do! assert_ (hasLoadBarrier u) "hasLoadBarrier()" in
    Ok (with_barriers u (loadBarrierSNs u ∖ {[seqNum i]}) (storeBarrierSNs u))
  else Ok u.

(** ** Squashing *)

(** The loop from the tail of the list, here on the reversed list.  On an empty list the
    iterator is decremented and not read. *)
Fixpoint squash_loop (u : MemDepUnit) (rl : list (nat * DynInst)) (squashed_num : Z)
    : res (MemDepUnit * list (nat * DynInst)) :=
  match rl with
  | [] => Ok (u, [])
  | (_, i) :: r =>
      if (squashed_num <? seqNum i)%Z then
        let u := with_barriers u (loadBarrierSNs u ∖ {[seqNum i]}) (storeBarrierSNs u ∖ {[seqNum i]}) in
        let! p := findInHash u i in
        let u := with_heap u (alter (λ e, mkEntry (inst e) (dependInsts e) (memDeps e) true) p (heap u)) in
        squash_loop (with_lists u (delete (seqNum i) (memDepHash u)) (instList u)) r squashed_num
      else Ok (u, rl)
  end.

Definition squash (u : MemDepUnit) (squashed_num tid : Z) : res MemDepUnit :=
  let u := with_replay u (filter (λ i, ¬ (threadNumber i = tid ∧ (squashed_num < seqNum i)%Z))
                            (instsToReplay u)) in
  let! l := nth_res (instList u) tid in
  let! x := squash_loop u (rev l) squashed_num in
  let u := x.1 in
  let! ls := set_nth (instList u) tid (rev x.2) in
  let u := with_lists u (memDepHash u) ls in
  Ok (with_pred u (StoreSet.squash (depPred u) squashed_num)).

(** ** Training *)

Definition violation (u : MemDepUnit) (store_inst violating_load : DynInst) : res MemDepUnit :=
  let! d := StoreSet.violation (depPred u) (instAddr store_inst) (instAddr violating_load) in
  Ok (with_pred u d).

Definition issue (u : MemDepUnit) (i : DynInst) : res MemDepUnit :=
  let! d := StoreSet.issued (depPred u) (instAddr i) (seqNum i) (isStore i) in
  Ok (with_pred u d).

End MemDep.
