(* ===== verification/MemDepGraph.v ===== *)
(** The dependence graph of the memory dependence unit.

    The entries of a heap, the dependents they name and the counters of unresolved
    dependencies: the counter of an entry in the unit is the number of times it occurs
    among the dependents of the entries in the unit, and dependents are younger. *)
From stdpp Require Import gmap sorting.
From S2P Require Import Prelude MemDep.
Import MemDep.

Module MemDepGraph.

Abbreviation nodes := (list (nat * DynInst)).

Definition count (q : nat) (l : list nat) : nat := count_occ Nat.eq_dec l q.
#[global] Arguments count : simpl never.

Definition deps (h : list MemDepEntry) (p : nat) : list nat :=
  match h !! p with Some e => dependInsts e | None => [] end.

(** How often [q] occurs among the dependents of the listed entries. *)
Definition pend (h : list MemDepEntry) (L : nodes) (q : nat) : nat :=
  sum_list_with (λ x, count q (deps h x.1)) L.

Record graph (h : list MemDepEntry) (L : nodes) : Prop := {
  g_sorted : StronglySorted (λ x y, (seqNum x.2 < seqNum y.2)%Z) L;
  g_heap : ∀ p i, (p, i) ∈ L → ∃ e, h !! p = Some e ∧ inst e = i ∧ squashed e = false;
  g_younger : ∀ p i q, (p, i) ∈ L → q ∈ deps h p →
    ∃ e, h !! q = Some e ∧ (seqNum i < seqNum (inst e))%Z;
  g_deps : ∀ p i, (p, i) ∈ L → has_dependents i = false → deps h p = [];
  g_pend : ∀ q e, h !! q = Some e → (Z.of_nat (pend h L q) ≤ memDeps e)%Z;
  g_live : ∀ q e, h !! q = Some e → q ∈ L.*1 → memDeps e = Z.of_nat (pend h L q);
  g_gone : ∀ q e, h !! q = Some e → q ∉ L.*1 → squashed e = false → pend h L q = 0%nat;
  g_memref : ∀ q e, h !! q = Some e → (0 < memDeps e)%Z → isMemRef (inst e) = true
}.

(** ** Counting *)

Lemma count_app q l1 l2 : count q (l1 ++ l2) = (count q l1 + count q l2)%nat.
Proof. apply count_occ_app. Qed.

Lemma count_pos q l : (0 < count q l)%nat ↔ q ∈ l.
Proof. unfold count. rewrite list_elem_of_In. symmetry. apply count_occ_In. Qed.

Lemma count_cons q k l : count q (k :: l) = ((if decide (k = q) then 1 else 0) + count q l)%nat.
Proof. unfold count. simpl. destruct (Nat.eq_dec k q), (decide (k = q)); done. Qed.

Lemma count_replicate n p q : count q (replicate n p) = if decide (p = q) then n else 0%nat.
Proof.
  induction n as [|n IH]; [by case_decide|]. cbn [replicate]. rewrite count_cons, IH. by case_decide.
Qed.

Lemma pend_app h L1 L2 q : pend h (L1 ++ L2) q = (pend h L1 q + pend h L2 q)%nat.
Proof. apply sum_list_with_app. Qed.

Lemma pend_ext h h' L q : (∀ x, x ∈ L → count q (deps h x.1) = count q (deps h' x.1)) →
  pend h L q = pend h' L q.
Proof.
  induction L as [|x L IH]; intros H; [done|]. unfold pend in *. simpl.
  rewrite (H x) by constructor. f_equal. apply IH. intros y Hy. apply H. by right.
Qed.

Lemma pend_pos h L q : (0 < pend h L q)%nat ↔ ∃ x, x ∈ L ∧ q ∈ deps h x.1.
Proof.
  induction L as [|x L IH]; unfold pend in *; simpl.
  - split; [lia|]. intros (x & Hx & _). by apply not_elem_of_nil in Hx.
  - split.
    + intros H. destruct (decide (q ∈ deps h x.1)) as [Hq|Hq].
      * exists x. split; [constructor|done].
      * rewrite <- count_pos in Hq. destruct (proj1 IH) as (y & Hy & Hd); [lia|].
        exists y. split; [by right|done].
    + intros (y & Hy & Hd). apply elem_of_cons in Hy as [->|Hy].
      * apply count_pos in Hd. lia.
      * assert (0 < sum_list_with (λ x, count q (deps h x.1)) L)%nat by (apply IH; eauto). lia.
Qed.

Lemma pend_add h h' L q n (f : nat → nat) :
  (∀ x, x ∈ L → count q (deps h' x.1) = (count q (deps h x.1) + f x.1)%nat) →
  sum_list_with (λ x : nat * DynInst, f x.1) L = n → pend h' L q = (pend h L q + n)%nat.
Proof.
  intros H <-. unfold pend. induction L as [|x L IH]; simpl; [done|].
  rewrite (H x) by constructor. rewrite IH; [lia|]. intros y Hy. apply H. by right.
Qed.

Lemma sum_single (L : nodes) p n : NoDup L.*1 → p ∈ L.*1 →
  sum_list_with (λ x, if decide (p = x.1) then n else 0%nat) L = n.
Proof.
  assert (∀ K : nodes, p ∉ K.*1 → sum_list_with (λ x, if decide (p = x.1) then n else 0%nat) K = 0%nat) as H0.
  { intros K Hx. induction K as [|y K IH]; simpl; [done|].
    apply not_elem_of_cons in Hx as [Hne Hx]. rewrite decide_False by done. by apply IH. }
  intros Hn Hp. induction L as [|x L IH]; simpl in *; [by apply not_elem_of_nil in Hp|].
  apply NoDup_cons in Hn as [Hx Hn]. apply elem_of_cons in Hp as [Hp|Hp].
  - rewrite decide_True, H0 by (by subst). lia.
  - rewrite decide_False by (intros ->; done). by apply IH.
Qed.

(** Pointers that are all listed, each once, are counted once each. *)
Lemma sum_counts (L : nodes) ps : NoDup L.*1 → (∀ p, p ∈ ps → p ∈ L.*1) →
  sum_list_with (λ x, count x.1 ps) L = length ps.
Proof.
  intros Hn. induction ps as [|p ps IH]; intros Hin.
  - clear. induction L as [|x L IH]; simpl; done.
  - assert (∀ K : nodes, sum_list_with (λ x, count x.1 (p :: ps)) K =
      (sum_list_with (λ x, if decide (p = x.1) then 1 else 0) K + sum_list_with (λ x, count x.1 ps) K)%nat)
      as Hs.
    { intros K. induction K as [|x K IHK]; simpl; [done|]. rewrite IHK, count_cons. lia. }
    rewrite Hs, IH by (intros q Hq; apply Hin; by right).
    rewrite sum_single; [done|done|]. apply Hin. by left.
Qed.

(** ** Nodes *)

Lemma graph_nodup h L : graph h L → NoDup L.*1.
Proof.
  intros G. pose proof (g_sorted _ _ G) as Hs. pose proof (g_heap _ _ G) as Hh. clear G.
  induction L as [|[p i] L IH]; [constructor|]. simpl. apply StronglySorted_inv in Hs as [Hs Hlt].
  constructor; [|apply IH; [done|]; intros; apply Hh; by right].
  intros Hp. apply list_elem_of_fmap_1 in Hp as ([p' i'] & -> & Hin). simpl in *.
  destruct (Hh p' i) as (e & He & Ei & _); [by left|].
  destruct (Hh p' i') as (e' & He' & Ei' & _); [by right|]. simplify_eq.
  rewrite Forall_forall in Hlt. specialize (Hlt _ Hin). simpl in Hlt. lia.
Qed.

Lemma graph_seq h L x y : graph h L → x ∈ L → y ∈ L → seqNum x.2 = seqNum y.2 → x = y.
Proof.
  intros G. pose proof (g_sorted _ _ G) as Hs. clear G. induction Hs as [|z L Hs IH Hlt].
  { by intros ?%not_elem_of_nil. }
  rewrite Forall_forall in Hlt.
  intros [->|Hx]%elem_of_cons [->|Hy]%elem_of_cons E; [done| | |by apply IH].
  - specialize (Hlt _ Hy). lia.
  - specialize (Hlt _ Hx). lia.
Qed.

Lemma graph_inst h L p i j : graph h L → (p, i) ∈ L → (p, j) ∈ L → i = j.
Proof.
  intros G Hi Hj. destruct (g_heap _ _ G p i Hi) as (e & He & <- & _).
  destruct (g_heap _ _ G p j Hj) as (e' & He' & <- & _). by simplify_eq.
Qed.

Lemma node_fst (L : nodes) p : p ∈ L.*1 ↔ ∃ i, (p, i) ∈ L.
Proof.
  rewrite list_elem_of_fmap. split.
  - intros ([p' i] & -> & H). by exists i.
  - intros [i H]. by exists (p, i).
Qed.

Lemma graph_deps_live h L p i q : graph h L → (p, i) ∈ L → q ∈ deps h p →
  ∃ e, h !! q = Some e ∧ (0 < memDeps e)%Z.
Proof.
  intros G Hp Hq. destruct (g_younger _ _ G p i q Hp Hq) as (e & He & _). exists e. split; [done|].
  pose proof (g_pend _ _ G q e He). assert (0 < pend h L q)%nat by (apply pend_pos; by exists (p, i)). lia.
Qed.

(** ** A new entry *)

Lemma deps_app h e p : p ≠ length h → deps (h ++ [e]) p = deps h p.
Proof.
  intros Hp. unfold deps. destruct (decide (p < length h)%nat).
  - by rewrite lookup_app_l.
  - rewrite !lookup_ge_None_2; [done|lia|rewrite length_app; simpl; lia].
Qed.

Lemma live_lt h L p : graph h L → p ∈ L.*1 → (p < length h)%nat.
Proof.
  intros G [i Hi]%node_fst. destruct (g_heap _ _ G p i Hi) as (e & He & _). by eapply lookup_lt_Some.
Qed.

Lemma pend_out h L q : graph h L → (length h ≤ q)%nat → pend h L q = 0%nat.
Proof.
  intros G Hq. destruct (Nat.eq_0_gt_0_cases (pend h L q)) as [|H]; [done|].
  apply pend_pos in H as ([p i] & Hp & Hd).
  destruct (g_younger _ _ G p i q Hp Hd) as (e & He & _). apply lookup_lt_Some in He. lia.
Qed.

Lemma lookup_new {A} (l : list A) x k y : (l ++ [x]) !! k = Some y →
  l !! k = Some y ∨ k = length l ∧ y = x.
Proof.
  intros H. apply lookup_app_Some in H as [H|[Hl H]]; [by left|]. right.
  destruct (k - length l)%nat as [|m] eqn:E; simpl in H; [|done]. simplify_eq. split; [lia|done].
Qed.

Lemma graph_new h L i : graph h L → Forall (λ x, (seqNum x.2 < seqNum i)%Z) L →
  graph (h ++ [mkEntry i [] 0 false]) (L ++ [(length h, i)]).
Proof.
  intros G Hlt. set (h' := h ++ _). set (L' := L ++ _).
  assert (∀ p, p ∈ L.*1 → deps h' p = deps h p) as Hd.
  { intros p Hp. apply deps_app. apply (live_lt _ _ _ G) in Hp. lia. }
  assert (deps h' (length h) = []) as Hd0.
  { unfold deps, h'. by rewrite lookup_app_r, Nat.sub_diag by done. }
  assert (∀ q, pend h' L' q = pend h L q) as Hp.
  { intros q. unfold L'. rewrite pend_app. unfold pend at 2. simpl. rewrite Hd0, Nat.add_0_r.
    apply pend_ext. intros [p j] Hx. simpl. rewrite Hd; [done|]. apply node_fst. by exists j. }
  split.
  - apply StronglySorted_app_2; [|apply (g_sorted _ _ G)|by repeat constructor].
    intros x y Hx Hy%list_elem_of_singleton. subst y. rewrite Forall_forall in Hlt. by apply Hlt.
  - intros p j [Hj|Hj]%elem_of_app.
    + destruct (g_heap _ _ G p j Hj) as (e & He & ?). exists e. split; [|done]. by apply lookup_app_l_Some.
    + apply list_elem_of_singleton in Hj. simplify_eq. eexists. split; [by apply list_lookup_middle|done].
  - intros p j q [Hj|Hj]%elem_of_app Hq.
    + rewrite Hd in Hq by (apply node_fst; by exists j).
      destruct (g_younger _ _ G p j q Hj Hq) as (e & He & ?). exists e. split; [|done]. by apply lookup_app_l_Some.
    + apply list_elem_of_singleton in Hj. simplify_eq. rewrite Hd0 in Hq. by apply not_elem_of_nil in Hq.
  - intros p j [Hj|Hj]%elem_of_app Hn.
    + rewrite Hd by (apply node_fst; by exists j). by eapply (g_deps _ _ G).
    + apply list_elem_of_singleton in Hj. by simplify_eq.
  - intros q e He. rewrite Hp. apply lookup_new in He as [He|[-> ->]]; [by apply (g_pend _ _ G)|].
    by rewrite (pend_out _ _ _ G).
  - intros q e He Hq. rewrite Hp. apply lookup_new in He as [He|[-> ->]]; [|by rewrite (pend_out _ _ _ G)].
    apply (g_live _ _ G _ _ He). unfold L' in Hq. rewrite fmap_app in Hq.
    apply elem_of_app in Hq as [Hq|Hq]; [done|]. apply list_elem_of_singleton in Hq. simpl in Hq.
    apply lookup_lt_Some in He. lia.
  - intros q e He Hq Hs. rewrite Hp. apply lookup_new in He as [He|[-> ->]]; [|by rewrite (pend_out _ _ _ G)].
    apply (g_gone _ _ G _ _ He); [|done]. unfold L' in Hq. rewrite fmap_app in Hq. set_solver.
  - intros q e He Hm. apply lookup_new in He as [He|[-> ->]]; [by apply (g_memref _ _ G _ _ He)|done].
Qed.

(** ** Changing dependents and counters *)

(** A heap whose entries have other dependents and counters. *)
Definition redo (d : nat → list nat → list nat) (c : nat → Z → Z) (k : nat) (e : MemDepEntry)
    : MemDepEntry :=
  mkEntry (inst e) (d k (dependInsts e)) (c k (memDeps e)) (squashed e).

Definition redone d c (h h' : list MemDepEntry) : Prop := ∀ k, h' !! k = redo d c k <$> h !! k.

Lemma redone_deps d c h h' k : redone d c h h' → (h !! k = None → d k [] = []) →
  deps h' k = d k (deps h k).
Proof.
  intros H Hn. unfold deps. rewrite (H k). destruct (h !! k); [done|]. simpl. by rewrite Hn.
Qed.

Lemma redone_Some d c h h' k e' : redone d c h h' → h' !! k = Some e' →
  ∃ e, h !! k = Some e ∧ e' = redo d c k e.
Proof. intros H. rewrite (H k). intros (e & ? & ?)%fmap_Some_1. eauto. Qed.

(** The graph survives when the counters follow the dependents. *)
Lemma graph_redone d c h h' L :
  graph h L → redone d c h h' →
  (∀ p i q, (p, i) ∈ L → q ∈ d p (deps h p) →
     has_dependents i = true ∧ ∃ e, h !! q = Some e ∧ (seqNum i < seqNum (inst e))%Z) →
  (∀ q e, h !! q = Some e →
     (c q (memDeps e) - memDeps e)%Z = (Z.of_nat (pend h' L q) - Z.of_nat (pend h L q))%Z ∧
     (q ∉ L.*1 → (pend h' L q ≤ pend h L q)%nat) ∧
     ((memDeps e < c q (memDeps e))%Z → isMemRef (inst e) = true)) →
  graph h' L.
Proof.
  intros G R Hd Hc.
  assert (∀ p i, (p, i) ∈ L → deps h' p = d p (deps h p)) as Hdeps.
  { intros p i Hp. destruct (g_heap _ _ G p i Hp) as (e & He & _). apply (redone_deps d c); [done|].
    by rewrite He. }
  split.
  - apply (g_sorted _ _ G).
  - intros p i Hp. destruct (g_heap _ _ G p i Hp) as (e & He & ?). exists (redo d c p e).
    by rewrite (R p), He.
  - intros p i q Hp Hq. rewrite (Hdeps p i Hp) in Hq.
    destruct (Hd p i q Hp Hq) as (_ & e & He & Hlt). exists (redo d c q e). by rewrite (R q), He.
  - intros p i Hp Hn. destruct (deps h' p) as [|q l] eqn:E; [done|].
    destruct (Hd p i q Hp) as [Ht _]; [rewrite <- (Hdeps p i Hp), E; left|]. congruence.
  - intros q e' He'. destruct (redone_Some _ _ _ _ _ _ R He') as (e & He & ->). simpl.
    destruct (Hc q e He) as (E & _ & _). pose proof (g_pend _ _ G q e He). lia.
  - intros q e' He' Hq. destruct (redone_Some _ _ _ _ _ _ R He') as (e & He & ->). simpl.
    destruct (Hc q e He) as (E & _ & _). pose proof (g_live _ _ G q e He Hq). lia.
  - intros q e' He' Hq Hs. destruct (redone_Some _ _ _ _ _ _ R He') as (e & He & ->). simpl in Hs.
    destruct (Hc q e He) as (E & Hle & _). pose proof (g_gone _ _ G q e He Hq Hs). specialize (Hle Hq). lia.
  - intros q e' He'. destruct (redone_Some _ _ _ _ _ _ R He') as (e & He & ->). simpl. intros Hp.
    destruct (Hc q e He) as (E & _ & Hm). pose proof (g_memref _ _ G q e He).
    destruct (Z.lt_ge_cases (memDeps e) (c q (memDeps e))); [by apply Hm|]. apply H. lia.
Qed.

(** *** Waiting for producers *)

Lemma add_dependents_redone h p ps :
  redone (λ k ds, ds ++ replicate (count k ps) p) (λ _ n, n) h (add_dependents h p ps).
Proof.
  intros k. unfold add_dependents. revert h. induction ps as [|q ps IH]; intros h; simpl.
  - destruct (h !! k) as [[]|]; [|done]. simpl. unfold redo. simpl. by rewrite app_nil_r.
  - rewrite IH. clear IH. destruct (decide (q = k)) as [<-|Hq].
    + rewrite list_lookup_alter_eq. destruct (h !! q) as [e|]; [|done]. simpl. unfold redo. simpl.
      rewrite count_cons, decide_True by done. by rewrite <- app_assoc.
    + rewrite list_lookup_alter_ne by done. destruct (h !! k) as [e|]; [|done]. simpl. unfold redo.
      by rewrite count_cons, decide_False.
Qed.

Definition wait_for (h : list MemDepEntry) (p : nat) (ps : list nat) : list MemDepEntry :=
  alter (λ e, mkEntry (inst e) (dependInsts e) (Z.of_nat (length ps)) (squashed e)) p
    (add_dependents h p ps).

Lemma wait_for_redone h p ps :
  redone (λ k ds, ds ++ replicate (count k ps) p)
    (λ k n, if decide (k = p) then Z.of_nat (length ps) else n) h (wait_for h p ps).
Proof.
  intros k. unfold wait_for. pose proof (add_dependents_redone h p ps k) as E.
  destruct (decide (k = p)) as [->|Hk].
  - rewrite list_lookup_alter_eq, E. destruct (h !! p); [|done]. simpl. unfold redo. simpl.
    by rewrite decide_True.
  - rewrite list_lookup_alter_ne, E by done. destruct (h !! k); [|done]. unfold redo. simpl.
    by rewrite decide_False.
Qed.

Lemma wait_for_pend h L p ps q :
  graph h L → (∀ k, k ∈ ps → k ∈ L.*1) →
  pend (wait_for h p ps) L q = (pend h L q + if decide (p = q) then length ps else 0)%nat.
Proof.
  intros G Hps. apply (pend_add _ _ _ _ _ (λ k, if decide (p = q) then count k ps else 0%nat)).
  - intros [k i] Hk. simpl. rewrite (redone_deps _ _ _ _ _ (wait_for_redone h p ps)).
    + rewrite count_app, count_replicate. lia.
    + intros Hn. destruct (g_heap _ _ G k i Hk) as (e & He & _). congruence.
  - destruct (decide (p = q)); [|by clear; induction L].
    apply sum_counts; [by eapply graph_nodup|done].
Qed.

Lemma graph_wait h L p i ps :
  graph h L → (p, i) ∈ L → pend h L p = 0%nat → isMemRef i = true →
  (∀ k, k ∈ ps → ∃ j, (k, j) ∈ L ∧ (seqNum j < seqNum i)%Z ∧ has_dependents j = true) →
  graph (wait_for h p ps) L.
Proof.
  intros G Hp H0 Hm Hps. destruct (g_heap _ _ G p i Hp) as (e & He & Ei & Es).
  assert (p ∈ L.*1) as HpL by (apply node_fst; by exists i).
  assert (memDeps e = 0)%Z as E0 by (rewrite (g_live _ _ G p e He HpL); lia).
  assert (∀ k, k ∈ ps → k ∈ L.*1) as Hin.
  { intros k Hk. destruct (Hps k Hk) as (j & Hj & _). apply node_fst. by exists j. }
  eapply graph_redone; [done|apply wait_for_redone|..].
  - intros k j q Hk [Hq|Hq]%elem_of_app.
    + split; [|by eapply (g_younger _ _ G)]. destruct (has_dependents j) eqn:Hd; [done|].
      rewrite (g_deps _ _ G k j Hk Hd) in Hq. by apply not_elem_of_nil in Hq.
    + apply elem_of_replicate in Hq as [-> Hc]. assert (k ∈ ps) as Hkp by (apply count_pos; lia).
      destruct (Hps k Hkp) as (j' & Hj' & Hlt & Hd).
      assert (j' = j) as -> by (by eapply graph_inst).
      split; [done|]. exists e. by rewrite Ei.
  - intros q e1 He1. rewrite wait_for_pend by done.
    destruct (decide (p = q)) as [<-|Hne].
    + simplify_eq. rewrite decide_True by done. split; [lia|]. split; [done|]. done.
    + rewrite decide_False by done. split; [lia|]. split; [lia|]. lia.
Qed.

(** *** Waking *)

Lemma graph_woken h h' L p i :
  graph h L → (p, i) ∈ L →
  redone (λ k ds, if decide (p = k) then [] else ds) (λ k n, (n - Z.of_nat (count k (deps h p)))%Z) h h' →
  graph h' L.
Proof.
  intros G Hp R.
  assert (p ∈ L.*1) as HpL by (apply node_fst; by exists i).
  assert (∀ q, pend h L q = (pend h' L q + count q (deps h p))%nat) as Hpend.
  { intros q. apply (pend_add _ _ _ _ _ (λ k, if decide (p = k) then count q (deps h p) else 0%nat)).
    - intros [k j] Hk. simpl. rewrite (redone_deps _ _ _ _ _ R) by (intros _; by case_decide).
      destruct (decide (p = k)) as [<-|]; [done|lia].
    - apply sum_single; [by eapply graph_nodup|done]. }
  eapply graph_redone; [done|done|..].
  - intros k j q Hk Hq. simpl in Hq. destruct (decide (p = k)); [by apply not_elem_of_nil in Hq|].
    split; [|by eapply (g_younger _ _ G)]. destruct (has_dependents j) eqn:Hd; [done|].
    rewrite (g_deps _ _ G k j Hk Hd) in Hq. by apply not_elem_of_nil in Hq.
  - intros q e He. rewrite (Hpend q). split; [lia|]. split; lia.
Qed.

(** ** Removing entries *)

Lemma pend_filter h L p q : deps h p = [] → pend h (filter (λ x, x.1 ≠ p) L) q = pend h L q.
Proof.
  intros Hd. unfold pend. induction L as [|x L IH]; [done|]. rewrite filter_cons.
  case_decide as Hx; simpl; rewrite IH; [done|].
  destruct (decide (x.1 = p)) as [->|]; [by rewrite Hd|done].
Qed.

Lemma filter_sorted {A} (R : A → A → Prop) P `{∀ x, Decision (P x)} l :
  StronglySorted R l → StronglySorted R (filter P l).
Proof.
  induction 1 as [|x l Hs IH Hl]; [constructor|]. rewrite filter_cons. case_decide; [|done].
  constructor; [done|]. apply Forall_forall. intros y [_ Hy]%list_elem_of_filter.
  rewrite Forall_forall in Hl. by apply Hl.
Qed.

Lemma graph_remove h L p :
  graph h L → p ∈ L.*1 → deps h p = [] → pend h L p = 0%nat → graph h (filter (λ x, x.1 ≠ p) L).
Proof.
  intros G HpL Hd H0. set (L' := filter _ L).
  assert (∀ x, x ∈ L' → x ∈ L) as Hsub by (intros x [_ H]%list_elem_of_filter; done).
  assert (∀ q, q ∈ L'.*1 → q ∈ L.*1) as Hsub1.
  { intros q [j Hj]%node_fst. apply node_fst. exists j. by apply Hsub. }
  split.
  - apply filter_sorted, (g_sorted _ _ G).
  - intros k j Hk. by apply (g_heap _ _ G k j), Hsub.
  - intros k j q Hk. by apply (g_younger _ _ G k j q), Hsub.
  - intros k j Hk. by apply (g_deps _ _ G k j), Hsub.
  - intros q e He. unfold L'. rewrite pend_filter by done. by apply (g_pend _ _ G).
  - intros q e He Hq. unfold L'. rewrite pend_filter by done. by apply (g_live _ _ G), Hsub1.
  - intros q e He Hq Hs. unfold L'. rewrite pend_filter by done.
    destruct (decide (q = p)) as [->|Hne]; [done|]. apply (g_gone _ _ G _ _ He); [|done].
    intros [j Hj]%node_fst. apply Hq, node_fst. exists j. by apply list_elem_of_filter.
  - apply (g_memref _ _ G).
Qed.

Definition set_squashed (e : MemDepEntry) : MemDepEntry :=
  mkEntry (inst e) (dependInsts e) (memDeps e) true.

Lemma squash_lookup (h : list MemDepEntry) (p q : nat) e' : alter set_squashed p h !! q = Some e' →
  ∃ e, h !! q = Some e ∧ inst e' = inst e ∧ dependInsts e' = dependInsts e ∧
    memDeps e' = memDeps e ∧ squashed e' = if decide (p = q) then true else squashed e.
Proof.
  destruct (decide (p = q)) as [<-|Hne].
  - rewrite list_lookup_alter_eq. intros (e & He & ->)%fmap_Some_1. by exists e.
  - rewrite list_lookup_alter_ne by done. intros He. by exists e'.
Qed.

Lemma squash_deps h p q : deps (alter set_squashed p h) q = deps h q.
Proof.
  unfold deps. destruct (decide (p = q)) as [<-|Hne].
  - rewrite list_lookup_alter_eq. by destruct (h !! p).
  - by rewrite list_lookup_alter_ne.
Qed.

(** Dependents of the youngest entry are gone already, so that nobody in the unit loses a
    producer. *)
Lemma graph_squash h L p i : graph h (L ++ [(p, i)]) → graph (alter set_squashed p h) L.
Proof.
  intros G. set (h' := alter _ p h).
  assert (∀ x, x ∈ L → (seqNum x.2 < seqNum i)%Z) as Hlt.
  { intros x Hx. eapply (StronglySorted_app_1_elem_of _ _ _ x (p, i) (g_sorted _ _ G)); [done|by left]. }
  assert (∀ q, pend h (L ++ [(p, i)]) q = (pend h' L q + count q (deps h p))%nat) as Hpend.
  { intros q. rewrite pend_app. f_equal; [|unfold pend; simpl; lia].
    apply pend_ext. intros x _. unfold h'. by rewrite squash_deps. }
  assert (∀ q e, h !! q = Some e → q ∈ L.*1 → count q (deps h p) = 0%nat) as H0.
  { intros q e He [j Hj]%node_fst. destruct (Nat.eq_0_gt_0_cases (count q (deps h p))) as [|Hc]; [done|].
    apply count_pos in Hc.
    destruct (g_younger _ _ G p i q) as (e' & He' & Hy); [set_solver|done|].
    destruct (g_heap _ _ G q j) as (e2 & He2 & <- & _); [set_solver|]. simplify_eq.
    specialize (Hlt _ Hj). simpl in Hlt. lia. }
  assert (∀ k j, (k, j) ∈ L → k ≠ p) as Hne.
  { intros k j Hk ->. assert (j = i) as -> by (apply (graph_inst _ _ p j i G); set_solver).
    specialize (Hlt _ Hk). simpl in Hlt. lia. }
  split.
  - by eapply StronglySorted_app_1_l, (g_sorted _ _ G).
  - intros k j Hk. destruct (g_heap _ _ G k j) as (e & He & ?); [set_solver|]. exists e.
    unfold h'. rewrite list_lookup_alter_ne; [done|]. apply not_eq_sym. by eapply Hne.
  - intros k j q Hk Hq. unfold h' in Hq. rewrite squash_deps in Hq.
    destruct (g_younger _ _ G k j q) as (e & He & Hy); [set_solver|done|]. unfold h'.
    destruct (decide (p = q)) as [<-|?]; [|rewrite list_lookup_alter_ne by done; eauto].
    rewrite list_lookup_alter_eq, He. by eexists.
  - intros k j Hk Hd. unfold h'. rewrite squash_deps. apply (g_deps _ _ G k j); [set_solver|done].
  - intros q e' He'. destruct (squash_lookup _ _ _ _ He') as (e & He & _ & _ & -> & _).
    pose proof (g_pend _ _ G q e He) as H. rewrite Hpend in H. lia.
  - intros q e' He' Hq. destruct (squash_lookup _ _ _ _ He') as (e & He & _ & _ & -> & _).
    rewrite (g_live _ _ G q e He), Hpend, (H0 q e He Hq) by (rewrite fmap_app; set_solver). lia.
  - intros q e' He' Hq. destruct (squash_lookup _ _ _ _ He') as (e & He & _ & _ & _ & ->).
    destruct (decide (p = q)) as [<-|Hpq]; [done|]. intros Hs.
    pose proof (g_gone _ _ G q e He) as H. rewrite Hpend in H. specialize (H ltac:(rewrite fmap_app; set_solver) Hs). lia.
  - intros q e' He'. destruct (squash_lookup _ _ _ _ He') as (e & He & -> & _ & -> & _). by apply (g_memref _ _ G q).
Qed.

End MemDepGraph.
