(* ===== verification/MemDepInv.v ===== *)
(** The invariant of the memory dependence unit and its preservation by every operation. *)
From stdpp Require Import gmap sorting.
From S2P Require Import Prelude Comm StoreSet StoreSetProps StoreSetTrace MemDep MemDepGraph.
Import MemDep MemDepGraph.

Module MemDepInv.

(** What was ever inserted, the youngest first, and whether speculatively. *)
Abbreviation history := (list (DynInst * bool)).

Definition stores (g : history) : list Z :=
  map (λ x, seqNum x.1) (filter (λ x, isStore x.1 || isAtomic x.1 = true) g).

Definition readBarrier (b : DynInst) : bool := isReadBarrier b || isHtmCmd b.
Definition writeBarrier (b : DynInst) : bool := isWriteBarrier b || isHtmCmd b.

(** The barriers an instruction is held back by. *)
Definition waits_on (i b : DynInst) : bool :=
  if isLoad i || isAtomic i then readBarrier b else isStore i && writeBarrier b.

Record core (t : Z) (g : history) (u : MemDepUnit) (L : nodes) : Prop := {
  v_graph : graph (heap u) L;
  v_hash : ∀ n p, memDepHash u !! n = Some p ↔ ∃ i, (p, i) ∈ L ∧ seqNum i = n;
  v_mem : ∀ p i, (p, i) ∈ L → threadNumber i = t ∧ ∃ b, (i, b) ∈ g;
  v_hist : StronglySorted (λ x y, (seqNum y.1 < seqNum x.1)%Z) g;
  v_calls : ∀ n, MarkMemDepDone n ∈ calls u → ∃ x, x ∈ g ∧ seqNum x.1 = n;
  v_done : ∀ p i e, (p, i) ∈ L → heap u !! p = Some e → (i, true) ∈ g →
    MarkMemDepDone (seqNum i) ∈ calls u ↔ memDeps e = 0%Z;
  v_nonspec : ∀ p i e, (p, i) ∈ L → heap u !! p = Some e → (i, false) ∈ g → memDeps e = 0%Z;
  v_lb : ∀ n, n ∈ loadBarrierSNs u ↔ ∃ x, x ∈ L ∧ seqNum x.2 = n ∧ readBarrier x.2 = true;
  v_sb : ∀ n, n ∈ storeBarrierSNs u ↔ ∃ x, x ∈ L ∧ seqNum x.2 = n ∧ writeBarrier x.2 = true;
  v_pred : StoreSetProps.ss_wf (depPred u);
  v_stores : StoreSetTrace.entries_in (depPred u) (stores g);
  v_replay : ∀ i, i ∈ instsToReplay u → isNonSpeculative i = false ∧ ∃ p, (p, i) ∈ L;
  v_order : ∀ p i q b, (p, i) ∈ L → (q, b) ∈ L → (i, true) ∈ g → (seqNum b < seqNum i)%Z →
    waits_on i b = true → p ∈ deps (heap u) q
}.

Definition lists_of (t : Z) (L : nodes) : list nodes := <[Z.to_nat t := L]> (replicate MaxThreads []).

Record inv (t : Z) (g : history) (u : MemDepUnit) (L : nodes) : Prop := {
  v_tid : (0 ≤ t < Z.of_nat MaxThreads)%Z;
  v_lists : instList u = lists_of t L;
  v_core : core t g u L
}.

(** ** The history *)

Lemma hist_unique (g : history) x y : StronglySorted (λ x y, (seqNum y.1 < seqNum x.1)%Z) g →
  x ∈ g → y ∈ g → seqNum x.1 = seqNum y.1 → x = y.
Proof.
  induction 1 as [|z l Hs IH Hlt]; [by intros ?%not_elem_of_nil|]. rewrite Forall_forall in Hlt.
  intros [->|Hx]%elem_of_cons [->|Hy]%elem_of_cons E; [done| | |by apply IH].
  - specialize (Hlt _ Hy). lia.
  - specialize (Hlt _ Hx). lia.
Qed.

Definition fresh (g : history) (i : DynInst) : Prop := Forall (λ x, (seqNum x.1 < seqNum i)%Z) g.

Lemma fresh_live t g u L i : core t g u L → fresh g i → Forall (λ x, (seqNum x.2 < seqNum i)%Z) L.
Proof.
  intros C Hf. unfold fresh in Hf. rewrite Forall_forall in Hf. apply Forall_forall. intros [p j] Hj.
  destruct (v_mem _ _ _ _ C p j Hj) as (_ & b & Hb). apply (Hf _ Hb).
Qed.

Lemma fresh_notin g i b : fresh g i → (i, b) ∉ g.
Proof. intros Hf H. unfold fresh in Hf. rewrite Forall_forall in Hf. specialize (Hf _ H). simpl in Hf. lia. Qed.

Lemma stores_cons i b g : stores ((i, b) :: g) =
  if isStore i || isAtomic i then seqNum i :: stores g else stores g.
Proof.
  unfold stores. rewrite filter_cons. simpl. destruct (isStore i || isAtomic i); case_decide; done.
Qed.

Lemma entries_sub s l l' : StoreSetTrace.entries_in s l → l ⊆ l' → StoreSetTrace.entries_in s l'.
Proof. intros H Hs row e Hr He Hv. apply Hs. by eapply H. Qed.

(** A number the store sets report, when it is in the unit, is that of a store. *)
Lemma stores_live t g u L p i n : core t g u L → (p, i) ∈ L → seqNum i = n → n ∈ stores g →
  isStore i || isAtomic i = true.
Proof.
  intros C Hp Hn Hs. destruct (v_mem _ _ _ _ C p i Hp) as (_ & b & Hb).
  apply list_elem_of_fmap_1 in Hs as (x & E & Hx). apply list_elem_of_filter in Hx as [Hst Hx].
  assert (x = (i, b)) as -> by (eapply hist_unique; [apply (v_hist _ _ _ _ C)|done|done|simpl; congruence]).
  done.
Qed.

(** ** Inserting *)

Lemma barrier_extend (P : DynInst → bool) (X X' : gset Z) (L : nodes) p i :
  (∀ n, n ∈ X ↔ ∃ x, x ∈ L ∧ seqNum x.2 = n ∧ P x.2 = true) →
  X' = (if P i then {[seqNum i]} ∪ X else X) →
  ∀ n, n ∈ X' ↔ ∃ x, x ∈ L ++ [(p, i)] ∧ seqNum x.2 = n ∧ P x.2 = true.
Proof.
  intros H -> n. setoid_rewrite elem_of_app. setoid_rewrite list_elem_of_singleton.
  destruct (P i) eqn:Hi; [rewrite elem_of_union, elem_of_singleton|]; rewrite H; split.
  - intros [->|(x & Hx & ?)]; [exists (p, i); eauto|exists x; eauto].
  - intros (x & [Hx| ->] & <- & Hp); [right; eauto|by left].
  - intros (x & Hx & ?). exists x. eauto.
  - intros (x & [Hx| ->] & E & Hp); [eauto|]. simpl in Hp. congruence.
Qed.

(** Membership in the extended history. *)
Lemma hist_old t g u L k i b j c :
  core t g u L → fresh g i → (k, j) ∈ L → (j, c) ∈ (i, b) :: g → (j, c) ∈ g.
Proof.
  intros C Hf Hk [[= -> _]|Hg]%elem_of_cons; [|done].
  destruct (v_mem _ _ _ _ C k i Hk) as (_ & b' & Hb'). by apply fresh_notin with (b := b') in Hf.
Qed.

Lemma hist_new g i b c : fresh g i → (i, c) ∈ (i, b) :: g → c = b.
Proof. intros Hf [[= ->]|Hg]%elem_of_cons; [done|]. by apply fresh_notin with (b := c) in Hf. Qed.

Section extend.
Context (t : Z) (g : history) (u u' : MemDepUnit) (L : nodes) (i : DynInst) (b : bool).
Let p := length (heap u).
Let L' := L ++ [(p, i)].

Lemma core_extend cs :
  core t g u L → fresh g i → threadNumber i = t →
  graph (heap u') L' →
  (∀ k e', k ≠ p → heap u' !! k = Some e' → ∃ e, heap u !! k = Some e ∧ memDeps e' = memDeps e) →
  (∀ k q, q ∈ deps (heap u) k → q ∈ deps (heap u') k) →
  memDepHash u' = <[seqNum i := p]> (memDepHash u) →
  instsToReplay u' = instsToReplay u →
  loadBarrierSNs u' = (if readBarrier i then {[seqNum i]} ∪ loadBarrierSNs u else loadBarrierSNs u) →
  storeBarrierSNs u' = (if writeBarrier i then {[seqNum i]} ∪ storeBarrierSNs u else storeBarrierSNs u) →
  calls u' = calls u ++ cs →
  (∀ n, MarkMemDepDone n ∈ cs → n = seqNum i) →
  (∀ e, heap u' !! p = Some e →
     if b then MarkMemDepDone (seqNum i) ∈ cs ↔ memDeps e = 0%Z else memDeps e = 0%Z) →
  StoreSetProps.ss_wf (depPred u') →
  StoreSetTrace.entries_in (depPred u') (stores ((i, b) :: g)) →
  (b = true → ∀ q c, (q, c) ∈ L → waits_on i c = true → p ∈ deps (heap u') q) →
  core t ((i, b) :: g) u' L'.
Proof.
  intros C Hf Ht HG Hm Hd Hh Hr Hlb Hsb Hc Hcs Hp Hw Hs Ho.
  assert (∀ k j, (k, j) ∈ L → k ≠ p) as Hne.
  { intros k j Hk. pose proof (live_lt _ _ k (v_graph _ _ _ _ C)) as Hlt. unfold p.
    assert (k ∈ L.*1) as Hin by (apply node_fst; by exists j). specialize (Hlt Hin). lia. }
  assert (∀ k j, (k, j) ∈ L' ↔ (k, j) ∈ L ∨ (k = p ∧ j = i)) as HL.
  { intros k j. unfold L'. rewrite elem_of_app, list_elem_of_singleton. naive_solver. }
  pose proof (fresh_live _ _ _ _ _ C Hf) as Hfl. rewrite Forall_forall in Hfl.
  split; try done.
  - intros n k. rewrite Hh, lookup_insert_Some, (v_hash _ _ _ _ C). split.
    + intros [[<- <-]|[Hn (j & Hj & <-)]]; [exists i|exists j]; rewrite HL; eauto.
    + intros (j & [Hj|[-> ->]]%HL & <-); [|by left]. right. split; [|by exists j].
      specialize (Hfl _ Hj). simpl in Hfl. lia.
  - intros k j [Hj|[-> ->]]%HL; [|split; [done|exists b; left]].
    destruct (v_mem _ _ _ _ C k j Hj) as (? & b' & Hb). split; [done|]. exists b'. by right.
  - constructor; [apply (v_hist _ _ _ _ C)|done].
  - intros n. rewrite Hc. intros [Hn|Hn]%elem_of_app.
    + destruct (v_calls _ _ _ _ C n Hn) as (x & Hx & E). exists x. split; [by right|done].
    + exists (i, b). split; [left|]. by rewrite (Hcs n Hn).
  - intros k j e [Hj|[-> ->]]%HL He Hg; rewrite Hc, elem_of_app.
    + destruct (Hm k e (Hne k j Hj) He) as (e0 & He0 & ->).
      apply (hist_old _ _ _ _ _ _ _ _ _ C Hf Hj) in Hg.
      rewrite <- (v_done _ _ _ _ C k j e0 Hj He0 Hg). split; [|by left].
      intros [?|Hn]; [done|]. apply Hcs in Hn. specialize (Hfl _ Hj). simpl in Hfl. lia.
    + apply (hist_new _ _ _ _ Hf) in Hg. subst b. rewrite <- (Hp e He). split; [|by right].
      intros [Hn|?]; [|done]. destruct (v_calls _ _ _ _ C _ Hn) as (x & Hx & E).
      unfold fresh in Hf. rewrite Forall_forall in Hf. specialize (Hf _ Hx). lia.
  - intros k j e [Hj|[-> ->]]%HL He Hg.
    + destruct (Hm k e (Hne k j Hj) He) as (e0 & He0 & ->).
      apply (hist_old _ _ _ _ _ _ _ _ _ C Hf Hj) in Hg. by apply (v_nonspec _ _ _ _ C k j e0).
    + apply (hist_new _ _ _ _ Hf) in Hg. subst b. by apply (Hp e He).
  - by apply (barrier_extend readBarrier _ _ _ _ _ (v_lb _ _ _ _ C)).
  - by apply (barrier_extend writeBarrier _ _ _ _ _ (v_sb _ _ _ _ C)).
  - intros j. rewrite Hr. intros Hj. destruct (v_replay _ _ _ _ C j Hj) as (? & k & Hk). split; [done|].
    exists k. apply HL. by left.
  - intros k j q c [Hk|[-> ->]]%HL [Hq|[-> ->]]%HL Hg Hlt Hwait; [| |by apply (hist_new _ _ _ _ Hf) in Hg;
      apply (Ho (eq_sym Hg) q c)|lia].
    + apply (hist_old _ _ _ _ _ _ _ _ _ C Hf Hk) in Hg. by apply Hd, (v_order _ _ _ _ C k j q c).
    + specialize (Hfl _ Hk). simpl in Hfl. lia.
Qed.
End extend.

(** *** The lists of the threads *)

Lemma lists_access t L (L' : nodes) : (0 ≤ t < Z.of_nat MaxThreads)%Z →
  nth_res (lists_of t L) t = Ok L ∧ set_nth (lists_of t L) t L' = Ok (lists_of t L').
Proof.
  intros Ht. unfold lists_of.
  destruct (array_access (<[Z.to_nat t := L]> (replicate MaxThreads ([] : nodes))) (Z.of_nat MaxThreads) t)
    as (a & E & Ha & Es); [by rewrite length_insert, length_replicate|done|].
  rewrite list_lookup_insert_eq in Ha by (rewrite length_replicate; lia). simplify_eq.
  split; [done|]. rewrite Es. by rewrite list_insert_insert_eq.
Qed.

(** The unit with a new entry. *)
Definition grown (t : Z) (u : MemDepUnit) (L : nodes) (i : DynInst) : MemDepUnit :=
  with_lists (with_heap u (heap u ++ [mkEntry i [] 0 false]))
    (<[seqNum i := length (heap u)]> (memDepHash u)) (lists_of t (L ++ [(length (heap u), i)])).

Lemma new_entry_ok t g u L i : inv t g u L → fresh g i → threadNumber i = t →
  new_entry u i = Ok (length (heap u), grown t u L i).
Proof.
  intros [Ht Hl C] Hf Hti. unfold new_entry. simpl.
  destruct (lists_access t L (L ++ [(length (heap u), i)]) Ht) as [E1 E2].
  rewrite Hti, Hl, E1. cbn -[set_nth]. rewrite E2. simpl. unfold grown.
  rewrite bool_decide_false; [done|]. intros [p Hp].
  apply (v_hash _ _ _ _ C) in Hp as (j & Hj & E).
  pose proof (fresh_live _ _ _ _ _ C Hf) as Hfl. rewrite Forall_forall in Hfl.
  specialize (Hfl _ Hj). simpl in Hfl. lia.
Qed.

(** *** The store sets *)

Lemma insert_store_set_ok u i c l :
  isMemRef i = true → StoreSetProps.ss_wf (depPred u) → StoreSetTrace.entries_in (depPred u) l →
  ∃ d, insert_store_set u i c = Ok (with_pred u d) ∧ StoreSetProps.ss_wf d ∧
    StoreSetTrace.entries_in d (if isStore i || isAtomic i then seqNum i :: l else l).
Proof.
  intros Hm Hw He. unfold insert_store_set. destruct (isStore i || isAtomic i) eqn:Hs.
  - destruct (StoreSetTrace.step_ok (depPred u)
      (StoreSetTrace.OpInsertStore (instAddr i) (seqNum i) c) Hw) as (d & E & Hd & Hx).
    simpl in E. rewrite E. exists d. split; [done|]. split; [done|]. by apply (Hx l).
  - exists (depPred u). unfold isMemRef in Hm. rewrite <- orb_assoc, Hs, orb_false_r in Hm.
    rewrite Hm. split; [by destruct u|done].
Qed.

(** *** Without waiting *)

(** A new entry without dependencies, with the calls made for it. *)
Lemma grown_core t g u L i (b : bool) cs u' :
  core t g u L → fresh g i → threadNumber i = t →
  heap u' = heap u ++ [mkEntry i [] 0 false] →
  memDepHash u' = <[seqNum i := length (heap u)]> (memDepHash u) →
  instsToReplay u' = instsToReplay u →
  loadBarrierSNs u' = (if readBarrier i then {[seqNum i]} ∪ loadBarrierSNs u else loadBarrierSNs u) →
  storeBarrierSNs u' = (if writeBarrier i then {[seqNum i]} ∪ storeBarrierSNs u else storeBarrierSNs u) →
  calls u' = calls u ++ cs → cs = (if b then [MarkMemDepDone (seqNum i)] else []) →
  StoreSetProps.ss_wf (depPred u') →
  StoreSetTrace.entries_in (depPred u') (stores ((i, b) :: g)) →
  (b = true → ∀ q c, (q, c) ∈ L → waits_on i c = true → False) →
  core t ((i, b) :: g) u' (L ++ [(length (heap u), i)]).
Proof.
  intros C Hf Ht Eh Hh Hr Hlb Hsb Hc Hcs Hw He Ho.
  eapply (core_extend t g u u' L i b cs); try done.
  - rewrite Eh. apply graph_new; [apply (v_graph _ _ _ _ C)|by eapply fresh_live].
  - intros k e' Hk. rewrite Eh. intros [Hl|[-> _]]%lookup_new; [by exists e'|done].
  - intros k q Hq. rewrite Eh, deps_app; [done|]. intros ->. unfold deps in Hq.
    rewrite lookup_ge_None_2 in Hq by done. by apply not_elem_of_nil in Hq.
  - intros n. subst cs. destruct b; [|by intros ?%not_elem_of_nil].
    by intros [= ->]%list_elem_of_singleton.
  - intros e. rewrite Eh, list_lookup_middle by done. intros [= <-]. subst cs.
    destruct b; [|done]. split; [done|]. intros _. left.
  - intros Hb q c Hq Hwait. by destruct (Ho Hb q c Hq Hwait).
Qed.

Lemma insertBarrier_ok t g u L i : inv t g u L → fresh g i → threadNumber i = t →
  ∃ u', insertBarrier u i = Ok u' ∧ inv t ((i, false) :: g) u' (L ++ [(length (heap u), i)]).
Proof.
  intros I Hf Ht. unfold insertBarrier. rewrite (new_entry_ok t g u L i I Hf Ht). simpl.
  eexists. split; [done|]. destruct I as [Htid Hl C]. split; [done|done|].
  eapply (grown_core t g u L i false []); try done; simpl.
  - by rewrite app_nil_r.
  - apply (v_pred _ _ _ _ C).
  - eapply entries_sub; [apply (v_stores _ _ _ _ C)|]. rewrite stores_cons. destruct (isStore i || isAtomic i); set_solver.
Qed.

Lemma insertNonSpec_ok t g u L i c : inv t g u L → fresh g i → threadNumber i = t → isMemRef i = true →
  ∃ u', insertNonSpec u i c = Ok u' ∧ inv t ((i, false) :: g) u' (L ++ [(length (heap u), i)]).
Proof.
  intros I Hf Ht Hm. unfold insertNonSpec, insertBarrier. rewrite (new_entry_ok t g u L i I Hf Ht). simpl.
  destruct I as [Htid Hl C].
  destruct (insert_store_set_ok (insertBarrierSN (grown t u L i) i) i c (stores g) Hm)
    as (d & -> & Hd & He); [apply (v_pred _ _ _ _ C)|apply (v_stores _ _ _ _ C)|].
  eexists. split; [done|]. split; [done|done|].
  eapply (grown_core t g u L i false []); try done; simpl.
  - by rewrite app_nil_r.
  - by rewrite stores_cons.
Qed.

(** *** Producers *)

Section insert.
Context `{SetOrder}.

Lemma iterate_in X n : n ∈ iterate X ↔ n ∈ X.
Proof. rewrite iterate_perm. apply elem_of_elements. Qed.

(** The entries found for a set of barriers are those of the barriers. *)
Lemma barriers_found t g u L P X q : core t g u L →
  (∀ n, n ∈ X ↔ ∃ x, x ∈ L ∧ seqNum x.2 = n ∧ P x.2 = true) →
  q ∈ omap (λ n, memDepHash u !! n) (iterate X) ↔ ∃ j, (q, j) ∈ L ∧ P j = true.
Proof.
  intros C HX. rewrite list_elem_of_omap. split.
  - intros (n & Hn & Hq). apply iterate_in, HX in Hn as (x & Hx & E & Hp).
    apply (v_hash _ _ _ _ C) in Hq as (j & Hj & E').
    assert (x = (q, j)) as -> by (eapply graph_seq; [apply (v_graph _ _ _ _ C)|done|done|simpl; congruence]).
    by exists j.
  - intros (j & Hj & Hp). exists (seqNum j). rewrite iterate_in, HX. split; [by exists (q, j)|].
    apply (v_hash _ _ _ _ C). by exists j.
Qed.

(** A fresh number is not looked up. *)
Lemma grown_hash t g u L i (ps : list Z) : fresh g i → (∀ n, n ∈ ps → ∃ x, x ∈ g ∧ seqNum x.1 = n) →
  omap (λ n, memDepHash (grown t u L i) !! n) ps = omap (λ n, memDepHash u !! n) ps.
Proof.
  intros Hf Hps. simpl. induction ps as [|n ps IH]; [done|]. simpl.
  destruct (Hps n) as (x & Hx & E); [left|]. unfold fresh in Hf. rewrite Forall_forall in Hf.
  specialize (Hf _ Hx). rewrite lookup_insert_ne by lia.
  destruct (memDepHash u !! n); [f_equal|]; apply IH; intros; apply Hps; by right.
Qed.

Lemma barrier_hist t g u L (P : DynInst → bool) X n : core t g u L →
  (∀ n, n ∈ X ↔ ∃ x, x ∈ L ∧ seqNum x.2 = n ∧ P x.2 = true) →
  n ∈ iterate X → ∃ x, x ∈ g ∧ seqNum x.1 = n.
Proof.
  intros C HX Hn. apply iterate_in, HX in Hn as ([p j] & Hx & E & _).
  destruct (v_mem _ _ _ _ C p j Hx) as (_ & b & Hb). by exists (j, b).
Qed.

(** A barrier the instruction waits on makes its test succeed. *)
Lemma waits_tests t g u L i q c : core t g u L → (q, c) ∈ L → waits_on i c = true →
  if isLoad i || isAtomic i then hasLoadBarrier u = true ∧ readBarrier c = true
  else isStore i = true ∧ hasStoreBarrier u = true ∧ writeBarrier c = true.
Proof.
  intros C Hq. unfold waits_on. destruct (isLoad i || isAtomic i).
  - intros Hc. split; [|done]. unfold hasLoadBarrier. rewrite bool_decide_false; [done|]. intros E.
    assert (seqNum c ∈ loadBarrierSNs u) by (apply (v_lb _ _ _ _ C); by exists (q, c)). set_solver.
  - intros [Hs Hc]%andb_prop. split; [done|]. split; [|done]. unfold hasStoreBarrier.
    rewrite bool_decide_false; [done|]. intros E.
    assert (seqNum c ∈ storeBarrierSNs u) by (apply (v_sb _ _ _ _ C); by exists (q, c)). set_solver.
Qed.

Definition producers_spec (u : MemDepUnit) (L : nodes) (i : DynInst) (qs : list nat) (sp : bool) : Prop :=
  (∀ q, q ∈ qs → ∃ j, (q, j) ∈ L ∧ has_dependents j = true) ∧
  (∀ q c, (q, c) ∈ L → waits_on i c = true → q ∈ qs ∧ sp = false).

Lemma predicted_ok t g u L i : core t g u L → fresh g i →
  ∃ ps strict, StoreSet.checkInst (depPred u) (instAddr i) = Ok ps ∧
    StoreSet.checkInstStrict (depPred u) (instAddr i) = Ok strict ∧
    ∀ q, q ∈ omap (λ n, memDepHash (grown t u L i) !! n) ps → ∃ j, (q, j) ∈ L ∧ has_dependents j = true.
Proof.
  intros C Hf. destruct (StoreSetTrace.checkInst_in _ _ (instAddr i) (v_pred _ _ _ _ C) (v_stores _ _ _ _ C))
    as (ps & strict & E1 & E2 & _ & Hin). exists ps, strict. split; [done|]. split; [done|].
  rewrite Forall_forall in Hin. intros q. rewrite (grown_hash t g); [|done|].
  - intros (n & Hn & Hq)%list_elem_of_omap. apply (v_hash _ _ _ _ C) in Hq as (j & Hj & E).
    exists j. split; [done|]. unfold has_dependents.
    rewrite (stores_live _ _ _ _ _ _ _ C Hj E (Hin n Hn)). done.
  - intros n Hn. apply Hin, list_elem_of_fmap_1 in Hn as (x & -> & [_ Hx]%list_elem_of_filter). by exists x.
Qed.

(** The entries that are found are older and have dependents; they include the barriers
    the instruction waits on, which are never bypassed. *)
Lemma producers_ok t g u L i : core t g u L → fresh g i →
  ∃ ps sp strict, find_producers (grown t u L i) i = Ok (ps, sp, strict) ∧
    producers_spec u L i (omap (λ n, memDepHash (grown t u L i) !! n) ps) sp.
Proof.
  intros C Hf. pose proof (λ q c, waits_tests t g u L i q c C) as Hw.
  unfold find_producers, producers_spec.
  change (hasLoadBarrier (grown t u L i)) with (hasLoadBarrier u).
  change (hasStoreBarrier (grown t u L i)) with (hasStoreBarrier u).
  destruct ((isLoad i || isAtomic i) && hasLoadBarrier u) eqn:H1;
    [|destruct ((isStore i || isAtomic i) && hasStoreBarrier u) eqn:H2; [|destruct (isLoad i) eqn:Hl]].
  - apply andb_prop in H1 as [H1 _]. rewrite H1 in Hw. do 3 eexists. split; [done|].
    rewrite (grown_hash t g) by (done || by intros n; eapply barrier_hist, (v_lb _ _ _ _ C)).
    pose proof (λ q, barriers_found t g u L readBarrier _ q C (v_lb _ _ _ _ C)) as Hf'. split.
    + intros q (j & Hj & Hb)%Hf'. exists j. split; [done|]. unfold has_dependents, readBarrier in *.
      destruct (isReadBarrier j), (isHtmCmd j); simpl in *; try done; by rewrite ?orb_true_r.
    + intros q c Hq Hc. split; [|done]. apply Hf'. exists c. by destruct (Hw q c Hq Hc).
  - do 3 eexists. split; [done|].
    rewrite (grown_hash t g) by (done || by intros n; eapply barrier_hist, (v_sb _ _ _ _ C)).
    pose proof (λ q, barriers_found t g u L writeBarrier _ q C (v_sb _ _ _ _ C)) as Hf'. split.
    + intros q (j & Hj & Hb)%Hf'. exists j. split; [done|]. unfold has_dependents, writeBarrier in *.
      destruct (isWriteBarrier j), (isHtmCmd j); simpl in *; try done; by rewrite ?orb_true_r.
    + intros q c Hq Hc. split; [|done]. apply Hf'. exists c. split; [done|]. specialize (Hw q c Hq Hc).
      destruct (isLoad i || isAtomic i); [|tauto]. destruct Hw as [E _]. by rewrite E in H1.
  - destruct (predicted_ok t g u L i C Hf) as (ps & strict & E1 & E2 & Hps).
    change (depPred (grown t u L i)) with (depPred u). rewrite E1. simpl.
    exists ps, true, (if enableMDPStrictWait u then strict else false).
    split; [destruct (enableMDPStrictWait u); [by rewrite E2|done]|]. split; [done|].
    intros q c Hq Hc. specialize (Hw q c Hq Hc). simpl in Hw, H1. destruct Hw as [E _]. by rewrite E in H1.
  - do 3 eexists. split; [done|]. split; [by intros q ?%not_elem_of_nil|].
    intros q c Hq Hc. specialize (Hw q c Hq Hc). simpl in Hw, H1. destruct (isAtomic i).
    + destruct Hw as [E _]. by rewrite E in H1.
    + destruct Hw as (Es & E & _). by rewrite Es, E in H2.
Qed.

(** *** Waiting *)

Lemma wait_core t g u L i qs sp u' :
  core t g u L → fresh g i → threadNumber i = t → isMemRef i = true →
  producers_spec u L i qs sp → qs ≠ [] →
  heap u' = wait_for (heap u ++ [mkEntry i [] 0 false]) (length (heap u)) qs →
  memDepHash u' = <[seqNum i := length (heap u)]> (memDepHash u) →
  instsToReplay u' = instsToReplay u →
  loadBarrierSNs u' = (if readBarrier i then {[seqNum i]} ∪ loadBarrierSNs u else loadBarrierSNs u) →
  storeBarrierSNs u' = (if writeBarrier i then {[seqNum i]} ∪ storeBarrierSNs u else storeBarrierSNs u) →
  calls u' = calls u →
  StoreSetProps.ss_wf (depPred u') →
  StoreSetTrace.entries_in (depPred u') (stores ((i, true) :: g)) →
  core t ((i, true) :: g) u' (L ++ [(length (heap u), i)]).
Proof.
  intros C Hf Ht Hm [Hqs Hwt] Hne Eh Hh Hr Hlb Hsb Hc Hw He.
  set (p := length (heap u)) in *. set (h := heap u ++ [mkEntry i [] 0 false]) in *.
  pose proof (fresh_live _ _ _ _ _ C Hf) as Hfl.
  pose proof (graph_new _ _ i (v_graph _ _ _ _ C) Hfl) as G. fold p h in G.
  rewrite Forall_forall in Hfl. pose proof (wait_for_redone h p qs) as R.
  assert (h !! p = Some (mkEntry i [] 0 false)) as Hp by (by apply list_lookup_middle).
  assert (∀ k, deps (heap u') k = deps h k ++ replicate (count k qs) p ∨ h !! k = None) as Hd.
  { intros k. destruct (h !! k) eqn:E; [left|by right]. rewrite Eh.
    rewrite (redone_deps _ _ _ _ _ R); [done|congruence]. }
  eapply (core_extend t g u u' L i true []); try done; fold p.
  - rewrite Eh. apply (graph_wait _ _ _ i); [done|set_solver| |done|].
    + assert (memDeps (mkEntry i [] 0 false) = Z.of_nat (pend h (L ++ [(p, i)]) p)) as E; [|simpl in E; lia].
      apply (g_live _ _ G _ _ Hp). rewrite fmap_app. set_solver.
    + intros k Hk. destruct (Hqs k Hk) as (j & Hj & Hdj). exists j. split; [set_solver|]. split; [|done].
      apply (Hfl _ Hj).
  - intros k e' Hk. rewrite Eh. intros He'. destruct (redone_Some _ _ _ _ _ _ R He') as (e & Hke & ->).
    simpl. rewrite decide_False by done. apply lookup_new in Hke as [Hke|[-> _]]; [by exists e|done].
  - intros k q Hq. assert (k < p)%nat as Hk.
    { unfold deps in Hq. destruct (heap u !! k) eqn:E; [by eapply lookup_lt_Some|by apply not_elem_of_nil in Hq]. }
    destruct (Hd k) as [->|E]; [|apply lookup_ge_None_1 in E; unfold h in E; rewrite length_app in E; unfold p in *; lia].
    apply elem_of_app. left. unfold h. rewrite deps_app; [done|]. unfold p in *. lia.
  - by rewrite app_nil_r.
  - by intros n ?%not_elem_of_nil.
  - intros e. rewrite Eh. intros He'. destruct (redone_Some _ _ _ _ _ _ R He') as (e0 & _ & ->). simpl.
    rewrite decide_True by done. split; [by intros ?%not_elem_of_nil|]. destruct qs; [done|simpl; lia].
  - intros _ q c Hq Hwc. destruct (Hwt q c Hq Hwc) as [Hin _].
    destruct (Hd q) as [->|E].
    + apply elem_of_app. right. apply elem_of_replicate. split; [done|]. apply count_pos in Hin. lia.
    + destruct (g_heap _ _ G q c) as (e & Ee & _); [set_solver|congruence].
Qed.

Lemma insert_pred_ok t g u L u2 i b c : core t g u L → isMemRef i = true → depPred u2 = depPred u →
  ∃ d, insert_store_set u2 i c = Ok (with_pred u2 d) ∧
    StoreSetProps.ss_wf d ∧ StoreSetTrace.entries_in d (stores ((i, b) :: g)).
Proof.
  intros C Hm E. rewrite stores_cons. apply insert_store_set_ok; [done|..]; rewrite E;
    [apply (v_pred _ _ _ _ C)|apply (v_stores _ _ _ _ C)].
Qed.

(** The end of [insert] for an instruction that need not wait. *)
Lemma insert_marked t g u L i m c :
  inv t g u L → fresh g i → threadNumber i = t → isMemRef i = true →
  (∀ q b, (q, b) ∈ L → waits_on i b = true → False) →
  ∃ u', (let! v := markMemDepDone (with_mdp (grown t u L i) m) i in
         insert_store_set (insertBarrierSN v i) i c) = Ok u' ∧
    inv t ((i, true) :: g) u' (L ++ [(length (heap u), i)]).
Proof.
  intros [Htid Hl C] Hf Ht Hm Hw. unfold markMemDepDone. rewrite Hm. cbn -[insert_store_set].
  destruct (insert_pred_ok t g u L
    (insertBarrierSN (call (with_mdp (grown t u L i) m) (MarkMemDepDone (seqNum i))) i) i true c C Hm)
    as (d & -> & Hd & He); [done|].
  eexists. split; [done|]. split; [done|done|].
  by eapply (grown_core t g u L i true [MarkMemDepDone (seqNum i)]).
Qed.

Lemma insert_ok t g u L i c : inv t g u L → fresh g i → threadNumber i = t → isMemRef i = true →
  ∃ u', insert u i c = Ok u' ∧ inv t ((i, true) :: g) u' (L ++ [(length (heap u), i)]).
Proof.
  intros I Hf Ht Hm. pose proof I as [Htid Hl C].
  destruct (producers_ok t g u L i C Hf) as (ps & sp & strict & Ep & Hspec).
  unfold insert. rewrite (new_entry_ok t g u L i I Hf Ht). cbn -[find_producers insert_store_set insertBarrierSN].
  rewrite Ep. cbn -[insert_store_set insertBarrierSN omap].
  set (u1 := if enableReplayBasedMDP u && isLoad i then _ else _).
  assert (∃ m, u1 = with_mdp (grown t u L i) m) as [m Hm1].
  { unfold u1. destruct (enableReplayBasedMDP u && isLoad i); [by eexists|]. exists (mdpFields u).
    by destruct u. }
  rewrite Hm1. clear u1 Hm1. cbn -[insert_store_set insertBarrierSN omap grown].
  change (omap (λ n, memDepHash (with_mdp (grown t u L i) m) !! n) ps)
    with (omap (λ n, memDepHash (grown t u L i) !! n) ps).
  revert Hspec. generalize (omap (λ n, memDepHash (grown t u L i) !! n) ps) as qs. intros qs Hspec.
  destruct qs as [|q0 qs'] eqn:Eq.
  { apply (insert_marked t g); try done. intros q b Hq Hb. destruct (proj2 Hspec q b Hq Hb) as [Hn _].
    by apply not_elem_of_nil in Hn. }
  destruct (enableReplayBasedMDP _ && isLoad i && sp) eqn:Hb.
  { apply (insert_marked t g); try done. intros q b Hq Hwb. apply andb_prop in Hb as [_ Hsp].
    destruct (proj2 Hspec q b Hq Hwb) as [_ ?]. congruence. }
  rewrite <- Eq in *. cbn -[insert_store_set insertBarrierSN omap grown].
  match goal with |- context [insert_store_set ?v i c] =>
    destruct (insert_pred_ok t g u L v i true c C Hm) as (d & -> & Hd & He); [done|] end.
  eexists. split; [done|]. split; [done|done|].
  assert (qs ≠ []) by congruence.
  by eapply (wait_core t g u L i qs sp).
Qed.
End insert.

End MemDepInv.
