(* ===== verification/MemDepSteps.v ===== *)
(** Completion, squashes and the other operations of the memory dependence unit keep its
    invariant. *)
From stdpp Require Import gmap sorting.
From S2P Require Import Prelude Comm StoreSet StoreSetProps StoreSetTrace MemDep MemDepGraph MemDepInv.
Import MemDep MemDepGraph MemDepInv.

Module MemDepSteps.

(** ** Waking *)

Definition woken (u : MemDepUnit) (h : list MemDepEntry) (cs : list IQCall) : MemDepUnit :=
  mkUnit (enableReplayBasedMDP u) (enableMDPStrictWait u) h (memDepHash u) (instList u)
    (instsToReplay u) (depPred u) (loadBarrierSNs u) (storeBarrierSNs u) (mdpFields u) (calls u ++ cs).

(** The instructions whose last dependency is resolved. *)
Definition resolved (h : list MemDepEntry) (ds : list nat) (n : Z) : Prop :=
  ∃ q e, q ∈ ds ∧ h !! q = Some e ∧ squashed e = false ∧
    memDeps e = Z.of_nat (count q ds) ∧ seqNum (inst e) = n.

Definition less (q : nat) (h : list MemDepEntry) : list MemDepEntry :=
  alter (λ e, mkEntry (inst e) (dependInsts e) (memDeps e - 1) (squashed e)) q h.

Lemma less_redone q h : redone (λ _ d, d) (λ k n, (n - if decide (q = k) then 1 else 0)%Z) h (less q h).
Proof.
  intros k. unfold less. destruct (decide (q = k)) as [<-|Hk].
  - rewrite list_lookup_alter_eq. destruct (h !! q); [|done]. simpl. unfold redo. by rewrite decide_True.
  - rewrite list_lookup_alter_ne by done. destruct (h !! k) as [[]|]; [|done]. simpl. unfold redo.
    rewrite decide_False by done. simpl. by rewrite Z.sub_0_r.
Qed.

Lemma wake_ok u q e : heap u !! q = Some e → isMemRef (inst e) = true → (0 < memDeps e)%Z →
  wake u q = Ok (woken u (less q (heap u))
    (if (memDeps e - 1 =? 0)%Z && negb (squashed e) then [MarkMemDepDone (seqNum (inst e))] else [])).
Proof.
  intros He Hm Hd. unfold wake, entry_at. rewrite He. cbn -[Z.sub]. rewrite (proj2 (Z.ltb_lt _ _) Hd). cbn -[Z.sub].
  destruct ((memDeps e - 1 =? 0)%Z && negb (squashed e)).
  - unfold markMemDepDone. by rewrite Hm.
  - unfold woken. rewrite app_nil_r. done.
Qed.

Lemma resolved_cons h q ds e n :
  h !! q = Some e → (Z.of_nat (S (count q ds)) ≤ memDeps e)%Z →
  resolved h (q :: ds) n ↔
    (memDeps e - 1 = 0 ∧ squashed e = false ∧ seqNum (inst e) = n)%Z ∨ resolved (less q h) ds n.
Proof.
  intros He Hc. pose proof (less_redone q h) as R. split.
  - intros (k & e' & Hk & He' & Hs & Hm & <-). rewrite count_cons in Hm.
    destruct (decide (k ∈ ds)) as [Hin|Hout].
    + right. exists k. eexists. split; [done|]. rewrite (R k), He'. split; [done|]. split; [done|].
      split; [|done]. simpl. destruct (decide (q = k)); lia.
    + apply elem_of_cons in Hk as [->|?]; [|done]. simplify_eq. left.
      assert (count q ds = 0)%nat by (rewrite <- count_pos in Hout; lia).
      rewrite decide_True in Hm by done. split; [lia|done].
  - intros [(E & Hs & <-)|(k & e' & Hk & He' & Hs & Hm & <-)].
    + exists q, e. split; [left|]. split; [done|]. split; [done|]. split; [|done].
      rewrite count_cons, decide_True by done. lia.
    + destruct (redone_Some _ _ _ _ _ _ R He') as (e0 & He0 & ->). simpl in *.
      exists k, e0. split; [by right|]. split; [done|]. split; [done|]. split; [|done].
      rewrite count_cons. destruct (decide (q = k)); lia.
Qed.

Lemma wakes_ok ds u :
  (∀ q, q ∈ ds → ∃ e, heap u !! q = Some e ∧ isMemRef (inst e) = true ∧
     (Z.of_nat (count q ds) ≤ memDeps e)%Z) →
  ∃ h cs, res_fold wake u ds = Ok (woken u h cs) ∧
    redone (λ _ d, d) (λ k n, (n - Z.of_nat (count k ds))%Z) (heap u) h ∧
    ∀ n, MarkMemDepDone n ∈ cs ↔ resolved (heap u) ds n.
Proof.
  revert u. induction ds as [|q ds IH]; intros u Hds.
  { exists (heap u), []. split; [unfold woken; rewrite app_nil_r; by destruct u|]. split.
    - intros k. destruct (heap u !! k) as [[]|]; [|done]. simpl. unfold redo. simpl. by rewrite Z.sub_0_r.
    - intros n. split; [by intros ?%not_elem_of_nil|]. by intros (? & ? & ?%not_elem_of_nil & _). }
  destruct (Hds q) as (e & He & Hm & Hc); [left|]. rewrite count_cons, decide_True in Hc by done.
  simpl. rewrite (wake_ok u q e) by (done || lia). simpl.
  set (cs0 := if _ : bool then [MarkMemDepDone _] else []).
  pose proof (less_redone q (heap u)) as R.
  destruct (IH (woken u (less q (heap u)) cs0)) as (h & cs & E & R' & Hcs).
  { intros k Hk. destruct (Hds k) as (e' & He' & Hm' & Hc'); [by right|]. simpl.
    exists (redo (λ _ d, d) (λ k n, (n - if decide (q = k) then 1 else 0)%Z) k e').
    rewrite (R k), He'. split; [done|]. split; [done|]. simpl. rewrite count_cons in Hc'.
    destruct (decide (q = k)); lia. }
  exists h, (cs0 ++ cs). rewrite E. split; [unfold woken; simpl; by rewrite app_assoc|]. split.
  - intros k. rewrite (R' k). simpl. rewrite (R k). destruct (heap u !! k) as [e'|]; [|done]. simpl.
    unfold redo. simpl. rewrite count_cons. do 2 f_equal. destruct (decide (q = k)); lia.
  - intros n. rewrite elem_of_app, (Hcs n), (resolved_cons _ _ _ e) by (done || lia). simpl.
    assert (MarkMemDepDone n ∈ cs0 ↔ (memDeps e - 1 = 0 ∧ squashed e = false ∧ seqNum (inst e) = n)%Z) as ->;
      [|done]. unfold cs0. destruct (Z.eqb_spec (memDeps e - 1) 0), (squashed e); simpl;
      rewrite ?elem_of_nil, ?list_elem_of_singleton; naive_solver.
Qed.

(** ** Completing *)

Lemma barrier_remove h (P : DynInst → bool) (X X' : gset Z) (L : nodes) p i :
  graph h L → (p, i) ∈ L →
  (∀ n, n ∈ X ↔ ∃ x, x ∈ L ∧ seqNum x.2 = n ∧ P x.2 = true) →
  X' = (if P i then X ∖ {[seqNum i]} else X) →
  ∀ n, n ∈ X' ↔ ∃ x, x ∈ filter (λ x, x.1 ≠ p) L ∧ seqNum x.2 = n ∧ P x.2 = true.
Proof.
  intros G Hp H -> n. setoid_rewrite list_elem_of_filter.
  assert (∀ x, x ∈ L → x.1 = p → x = (p, i)) as Hu.
  { intros [k j] Hx E. simpl in E. subst k. f_equal. by eapply graph_inst. }
  assert (n ∈ X ↔ ∃ x, x ∈ L ∧ seqNum x.2 = n ∧ P x.2 = true) as Hn by apply H.
  destruct (P i) eqn:Hi; [rewrite elem_of_difference, elem_of_singleton|]; rewrite Hn; split.
  - intros [(x & Hx & E & Hpx) Hne]. exists x. split; [|done]. split; [|done]. intros Ep.
    rewrite (Hu x Hx Ep) in E. done.
  - intros (x & [Hxp Hx] & E & Hpx). split; [by exists x|]. intros E'. subst n.
    apply Hxp. by rewrite (graph_seq _ _ x (p, i) G Hx Hp E').
  - intros (x & Hx & E & Hpx). exists x. split; [|done]. split; [|done]. intros Ep.
    rewrite (Hu x Hx Ep) in Hpx. simpl in Hpx. congruence.
  - intros (x & [Hxp Hx] & E & Hpx). by exists x.
Qed.

Lemma count_le_pend h (L : nodes) p i q : (p, i) ∈ L → (count q (deps h p) ≤ pend h L q)%nat.
Proof.
  unfold pend. induction L as [|x L IH]; [by intros ?%not_elem_of_nil|].
  intros [<-|Hp]%elem_of_cons; simpl; [lia|]. specialize (IH Hp). lia.
Qed.

(** The heap after the dependents of [p] were woken. *)
Lemma wakeDependents_ok t g u L p i : core t g u L → (p, i) ∈ L →
  ∃ h cs, wakeDependents u i = Ok (woken u h cs) ∧
    redone (λ k ds, if decide (p = k) then [] else ds)
      (λ k n, (n - Z.of_nat (count k (deps (heap u) p)))%Z) (heap u) h ∧
    ∀ n, MarkMemDepDone n ∈ cs ↔ resolved (heap u) (deps (heap u) p) n.
Proof.
  intros C Hp. pose proof (v_graph _ _ _ _ C) as G. unfold wakeDependents.
  destruct (g_heap _ _ G p i Hp) as (e & He & _ & _).
  assert (deps (heap u) p = dependInsts e) as Ed by (unfold deps; by rewrite He).
  destruct (has_dependents i) eqn:Hd; cbn [negb].
  - unfold findInHash. assert (memDepHash u !! seqNum i = Some p) as -> by (apply (v_hash _ _ _ _ C); by exists i).
    simpl. unfold entry_at. rewrite He. simpl. rewrite <- Ed.
    destruct (wakes_ok (deps (heap u) p) u) as (h & cs & -> & R & Hcs).
    { intros q Hq. destruct (graph_deps_live _ _ p i q G Hp Hq) as (eq & Heq & Hpos). exists eq.
      split; [done|]. split; [by apply (g_memref _ _ G q)|].
      pose proof (g_pend _ _ G q eq Heq) as Hle. pose proof (count_le_pend (heap u) L p i q Hp). lia. }
    simpl. eexists _, cs. split; [unfold woken, with_heap; simpl; reflexivity|]. split; [|done].
    intros k. destruct (decide (p = k)) as [<-|Hk].
    + rewrite list_lookup_alter_eq, (R p), He. simpl. unfold redo. by rewrite decide_True.
    + rewrite list_lookup_alter_ne, (R k) by done. destruct (heap u !! k); [|done]. simpl. unfold redo.
      by rewrite decide_False.
  - pose proof (g_deps _ _ G p i Hp Hd) as E0. exists (heap u), []. rewrite E0 in *.
    split; [unfold woken; rewrite app_nil_r; by destruct u|]. split.
    + intros k. destruct (heap u !! k) as [[]|] eqn:Ek; [|done]. simpl. unfold redo. simpl.
      rewrite Z.sub_0_r. case_decide; [|done]. subst k. simplify_eq. simpl in Ed. by rewrite <- Ed.
    + intros n. split; [by intros ?%not_elem_of_nil|]. by intros (? & ? & ?%not_elem_of_nil & _).
Qed.

(** Only instructions in the unit are released. *)
Lemma resolved_live t g u L p i n : core t g u L → (p, i) ∈ L →
  resolved (heap u) (deps (heap u) p) n →
  ∃ k j e, (k, j) ∈ L ∧ seqNum j = n ∧ heap u !! k = Some e ∧
    memDeps e = Z.of_nat (count k (deps (heap u) p)).
Proof.
  intros C Hp (q & e & Hq & He & Hs & Hm & <-). pose proof (v_graph _ _ _ _ C) as G.
  destruct (decide (q ∈ L.*1)) as [[j Hj]%node_fst|Hout].
  - destruct (g_heap _ _ G q j Hj) as (e' & He' & <- & _). simplify_eq. by exists q, (inst e), e.
  - pose proof (g_gone _ _ G q e He Hout Hs) as E0.
    assert (0 < pend (heap u) L q)%nat by (apply pend_pos; by exists (p, i)). lia.
Qed.

Lemma released_iff t g u L p i k j e cs : core t g u L → (p, i) ∈ L →
  (∀ n, MarkMemDepDone n ∈ cs ↔ resolved (heap u) (deps (heap u) p) n) →
  (k, j) ∈ L → heap u !! k = Some e → (j, true) ∈ g →
  MarkMemDepDone (seqNum j) ∈ calls u ++ cs ↔
    (memDeps e - Z.of_nat (count k (deps (heap u) p)) = 0)%Z.
Proof.
  intros C Hp Hcs Hk He Hg. pose proof (v_graph _ _ _ _ C) as G. rewrite elem_of_app, Hcs.
  pose proof (g_pend _ _ G k e He). pose proof (count_le_pend (heap u) L p i k Hp).
  pose proof (v_done _ _ _ _ C k j e Hk He Hg) as Hd. split.
  - intros [Hc|Hr]; [apply Hd in Hc; lia|].
    destruct (resolved_live _ _ _ _ _ _ _ C Hp Hr) as (k' & j' & e' & Hk' & E & He' & Hm).
    assert ((k', j') = (k, j)) as [= -> ->] by (by eapply graph_seq). simplify_eq. lia.
  - intros E. destruct (decide (memDeps e = 0)%Z) as [E0|Hne]; [left; by apply Hd|]. right.
    destruct (g_heap _ _ G k j Hk) as (e' & He' & <- & Hs). simplify_eq. exists k, e.
    split; [apply count_pos; lia|]. split; [done|]. split; [done|]. split; [lia|done].
Qed.

(** The state after a completion. *)
Lemma complete_core t g u L p i e h cs u' :
  core t g u L → (p, i) ∈ L → heap u !! p = Some e → memDeps e = 0%Z → i ∉ instsToReplay u →
  redone (λ k ds, if decide (p = k) then [] else ds)
    (λ k n, (n - Z.of_nat (count k (deps (heap u) p)))%Z) (heap u) h →
  (∀ n, MarkMemDepDone n ∈ cs ↔ resolved (heap u) (deps (heap u) p) n) →
  heap u' = h → memDepHash u' = delete (seqNum i) (memDepHash u) →
  instsToReplay u' = instsToReplay u → depPred u' = depPred u →
  loadBarrierSNs u' = (if readBarrier i then loadBarrierSNs u ∖ {[seqNum i]} else loadBarrierSNs u) →
  storeBarrierSNs u' = (if writeBarrier i then storeBarrierSNs u ∖ {[seqNum i]} else storeBarrierSNs u) →
  calls u' = calls u ++ cs →
  core t g u' (filter (λ x, x.1 ≠ p) L).
Proof.
  intros C Hp He H0 Hni R Hcs Eh Ehash Er Ed Elb Esb Ec. subst h.
  pose proof (v_graph _ _ _ _ C) as G. set (ds := deps (heap u) p) in *.
  assert (∀ x, x ∈ filter (λ x, x.1 ≠ p) L ↔ x ∈ L ∧ x.1 ≠ p) as HL.
  { intros x. rewrite list_elem_of_filter. tauto. }
  split.
  - pose proof (graph_woken _ _ _ _ _ G Hp R) as G'. apply graph_remove; [done|apply node_fst; by exists i|..].
    + rewrite (redone_deps _ _ _ _ _ R) by (intros _; by case_decide). by rewrite decide_True.
    + destruct (g_heap _ _ G' p i Hp) as (e' & He' & _ & _).
      pose proof (g_pend _ _ G' p e' He') as Hle.
      destruct (redone_Some _ _ _ _ _ _ R He') as (e0 & He0 & ->). simplify_eq. simpl in Hle. lia.
  - intros n k. rewrite Ehash, lookup_delete_Some, (v_hash _ _ _ _ C). split.
    + intros [Hn (j & Hj & <-)]. exists j. split; [|done]. apply HL. split; [done|]. simpl. intros ->.
      by rewrite (graph_inst _ _ _ _ _ G Hj Hp) in Hn.
    + intros (j & [Hj Hne]%HL & <-). split; [|by exists j]. intros E. apply Hne.
      by rewrite (graph_seq _ _ (k, j) (p, i) G Hj Hp (eq_sym E)).
  - intros k j [Hj _]%HL. by apply (v_mem _ _ _ _ C k).
  - apply (v_hist _ _ _ _ C).
  - intros n. rewrite Ec. intros [Hn|Hn]%elem_of_app; [by apply (v_calls _ _ _ _ C)|].
    apply Hcs, (resolved_live _ _ _ _ _ _ _ C Hp) in Hn as (k & j & _ & Hk & <- & _).
    destruct (v_mem _ _ _ _ C k j Hk) as (_ & b & Hb). by exists (j, b).
  - intros k j e' [Hk _]%HL He' Hg. destruct (redone_Some _ _ _ _ _ _ R He') as (e0 & He0 & ->).
    rewrite Ec. by apply (released_iff t g u L p i k j e0 cs).
  - intros k j e' [Hk _]%HL He' Hg. destruct (redone_Some _ _ _ _ _ _ R He') as (e0 & He0 & ->). simpl.
    pose proof (v_nonspec _ _ _ _ C k j e0 Hk He0 Hg). pose proof (g_pend _ _ G k e0 He0).
    pose proof (count_le_pend (heap u) L p i k Hp). unfold ds. lia.
  - by eapply (barrier_remove _ readBarrier), Elb; [..|apply (v_lb _ _ _ _ C)].
  - by eapply (barrier_remove _ writeBarrier), Esb; [..|apply (v_sb _ _ _ _ C)].
  - rewrite Ed. apply (v_pred _ _ _ _ C).
  - rewrite Ed. apply (v_stores _ _ _ _ C).
  - intros j. rewrite Er. intros Hj. destruct (v_replay _ _ _ _ C j Hj) as (? & k & Hk). split; [done|].
    exists k. apply HL. split; [done|]. simpl. intros ->.
    by rewrite (graph_inst _ _ _ _ _ G Hk Hp) in Hj.
  - intros k j q b [Hk _]%HL [Hq Hne]%HL Hg Hlt Hw. simpl in Hne.
    rewrite (redone_deps _ _ _ _ _ R) by (intros _; by case_decide). rewrite decide_False by done.
    by apply (v_order _ _ _ _ C k j q b).
Qed.

Lemma barrier_nonempty (P : DynInst → bool) (X : gset Z) (L : nodes) p i :
  (∀ n, n ∈ X ↔ ∃ x, x ∈ L ∧ seqNum x.2 = n ∧ P x.2 = true) → (p, i) ∈ L → P i = true →
  negb (bool_decide (X = ∅)) = true.
Proof.
  intros H Hp Hi. rewrite bool_decide_false; [done|]. intros E.
  assert (seqNum i ∈ X) by (apply H; by exists (p, i)). set_solver.
Qed.

Lemma completed_ok t g u L p i : inv t g u L → (p, i) ∈ L → ∀ h cs,
  completed (woken u h cs) i =
    Ok (with_lists (woken u h cs) (delete (seqNum i) (memDepHash u)) (lists_of t (filter (λ x, x.1 ≠ p) L))).
Proof.
  intros [Ht Hl C] Hp h cs. unfold completed, findInHash. simpl.
  assert (memDepHash u !! seqNum i = Some p) as -> by (apply (v_hash _ _ _ _ C); by exists i). simpl.
  destruct (v_mem _ _ _ _ C p i Hp) as (-> & _). rewrite Hl.
  destruct (lists_access t L (filter (λ x, x.1 ≠ p) L) Ht) as [E1 E2]. rewrite E1. cbn -[set_nth].
  unfold erase_node. rewrite bool_decide_true by (apply node_fst; by exists i). cbn -[set_nth]. by rewrite E2.
Qed.

(** Completing an instruction that has been released, or was not held at all. *)
Lemma completeInst_ok t g u L p i : inv t g u L → (p, i) ∈ L → i ∉ instsToReplay u →
  (i, false) ∈ g ∨ MarkMemDepDone (seqNum i) ∈ calls u →
  ∃ u', completeInst u i = Ok u' ∧ inv t g u' (filter (λ x, x.1 ≠ p) L) ∧
    instsToReplay u' = instsToReplay u ∧ calls u `prefix_of` calls u'.
Proof.
  intros I Hp Hni Hrel. pose proof I as [Ht Hl C]. pose proof (v_graph _ _ _ _ C) as G.
  destruct (g_heap _ _ G p i Hp) as (e & He & _ & _).
  assert (memDeps e = 0)%Z as H0.
  { destruct (v_mem _ _ _ _ C p i Hp) as (_ & [] & Hb).
    - apply (v_done _ _ _ _ C p i e Hp He Hb). destruct Hrel as [Hf|]; [|done].
      assert ((i, true) = (i, false)) as [=] by (by eapply hist_unique; [apply (v_hist _ _ _ _ C)|..]).
    - by apply (v_nonspec _ _ _ _ C p i e). }
  destruct (wakeDependents_ok t g u L p i C Hp) as (h & cs & E & R & Hcs).
  unfold completeInst. rewrite E. cbn -[completed]. rewrite (completed_ok t g u L p i I Hp h cs). simpl.
  pose proof (barrier_nonempty readBarrier _ L p i (v_lb _ _ _ _ C) Hp) as Hlb.
  pose proof (barrier_nonempty writeBarrier _ L p i (v_sb _ _ _ _ C) Hp) as Hsb.
  unfold hasStoreBarrier, hasLoadBarrier, readBarrier, writeBarrier in *. simpl.
  destruct (isWriteBarrier i || isHtmCmd i) eqn:Hwb, (isReadBarrier i || isHtmCmd i) eqn:Hrb; simpl;
    try rewrite Hsb by done; simpl; try rewrite Hlb by done; simpl; (eexists; split; [done|]; split; [|split; [done|by eexists]];
    split; [done|done|]; eapply (complete_core t g u L p i e h cs); try done; simpl;
    unfold readBarrier, writeBarrier; by rewrite ?Hwb, ?Hrb).
Qed.

(** ** Squashing *)

Lemma core_replay t g u L l : core t g u L →
  (∀ i, i ∈ l → isNonSpeculative i = false ∧ ∃ p, (p, i) ∈ L) → core t g (with_replay u l) L.
Proof. intros [] Hl. by split. Qed.

Lemma core_pred t g u L d : core t g u L → StoreSetProps.ss_wf d →
  StoreSetTrace.entries_in d (stores g) → core t g (with_pred u d) L.
Proof. intros [] Hw He. by split. Qed.

(** The state after the youngest instruction was squashed. *)
Lemma squash_core t g u L p i ls : core t g u (L ++ [(p, i)]) → i ∉ instsToReplay u →
  core t g (with_lists (with_heap (with_barriers u (loadBarrierSNs u ∖ {[seqNum i]}) (storeBarrierSNs u ∖ {[seqNum i]}))
              (alter set_squashed p (heap u))) (delete (seqNum i) (memDepHash u)) ls) L.
Proof.
  intros C Hni. pose proof (v_graph _ _ _ _ C) as G.
  assert ((p, i) ∈ L ++ [(p, i)]) as Hp by set_solver.
  assert (∀ k j, (k, j) ∈ L → (k, j) ∈ L ++ [(p, i)] ∧ (seqNum j < seqNum i)%Z) as HL.
  { intros k j Hk. split; [set_solver|].
    eapply (StronglySorted_app_1_elem_of _ _ _ (k, j) (p, i) (g_sorted _ _ G)); [done|by left]. }
  assert (∀ x, x ∈ L ++ [(p, i)] → seqNum x.2 ≠ seqNum i → x ∈ L) as HL'.
  { intros x [Hx|Hx]%elem_of_app Hne; [done|]. apply list_elem_of_singleton in Hx. by subst x. }
  assert (∀ (P : DynInst → bool) (X : gset Z),
    (∀ n, n ∈ X ↔ ∃ x, x ∈ L ++ [(p, i)] ∧ seqNum x.2 = n ∧ P x.2 = true) →
    ∀ n, n ∈ X ∖ {[seqNum i]} ↔ ∃ x, x ∈ L ∧ seqNum x.2 = n ∧ P x.2 = true) as Hbar.
  { intros P X HX n. rewrite elem_of_difference, elem_of_singleton, (HX n). split.
    - intros [(x & Hx & <- & Hpx) Hne]. exists x. split; [by apply HL'|done].
    - intros ([k j] & Hx & <- & Hpx). destruct (HL k j Hx) as [Hin Hlt]. split; [by exists (k, j)|simpl; lia]. }
  assert (∀ k j e', (k, j) ∈ L → alter set_squashed p (heap u) !! k = Some e' → heap u !! k = Some e') as Hsame.
  { intros k j e' Hk. destruct (decide (p = k)) as [<-|Hne]; [|by rewrite list_lookup_alter_ne].
    destruct (HL p j Hk) as [Hin Hlt]. rewrite (graph_inst _ _ _ _ _ G Hin Hp) in Hlt. lia. }
  split; simpl.
  - by eapply graph_squash.
  - intros n k. rewrite lookup_delete_Some, (v_hash _ _ _ _ C). split.
    + intros [Hn (j & Hj & <-)]. exists j. split; [|done]. apply (HL' (k, j)); [done|]. by apply not_eq_sym.
    + intros (j & Hj & <-). destruct (HL k j Hj). split; [lia|by exists j].
  - intros k j Hj. apply (v_mem _ _ _ _ C k), HL, Hj.
  - apply (v_hist _ _ _ _ C).
  - apply (v_calls _ _ _ _ C).
  - intros k j e' Hk He'. apply (v_done _ _ _ _ C k j); [by apply HL|by eapply Hsame].
  - intros k j e' Hk He'. apply (v_nonspec _ _ _ _ C k j); [by apply HL|by eapply Hsame].
  - apply Hbar, (v_lb _ _ _ _ C).
  - apply Hbar, (v_sb _ _ _ _ C).
  - apply (v_pred _ _ _ _ C).
  - apply (v_stores _ _ _ _ C).
  - intros j Hj. destruct (v_replay _ _ _ _ C j Hj) as (? & k & Hk). split; [done|]. exists k.
    apply elem_of_app in Hk as [Hk|Hk]; [done|]. apply list_elem_of_singleton in Hk. by simplify_eq.
  - intros k j q b Hk Hq. rewrite squash_deps. apply (v_order _ _ _ _ C k j q b); by apply HL.
Qed.

Lemma squash_loop_ok t g n rl u : core t g u (rev rl) → (∀ j, j ∈ instsToReplay u → (seqNum j ≤ n)%Z) →
  ∃ u' rl', squash_loop u rl n = Ok (u', rl') ∧ core t g u' (rev rl') ∧
    rev rl' = filter (λ x, (seqNum x.2 ≤ n)%Z) (rev rl) ∧
    instList u' = instList u ∧ instsToReplay u' = instsToReplay u ∧ depPred u' = depPred u ∧ calls u' = calls u.
Proof.
  revert u. induction rl as [|[p i] rl IH]; intros u C Hr; [by exists u, []|]. simpl in *.
  destruct (Z.ltb_spec n (seqNum i)) as [Hlt|Hle].
  - assert (memDepHash u !! seqNum i = Some p) as Hh by (apply (v_hash _ _ _ _ C); exists i; set_solver).
    unfold findInHash. simpl. rewrite Hh. simpl.
    destruct (IH _ (squash_core t g u (rev rl) p i (instList u) C
      ltac:(intros Hi; specialize (Hr i Hi); lia)) Hr) as (u' & rl' & E & C' & Ef & E1 & E2 & E3 & E4).
    exists u', rl'. split; [exact E|]. split; [done|]. split; [|done].
    rewrite filter_app, filter_cons_False, filter_nil, app_nil_r; [done|simpl; lia].
  - exists u, ((p, i) :: rl). split; [done|]. split; [done|]. split; [|done]. simpl. symmetry.
    apply (filter_all _ (rev rl ++ [(p, i)])), Forall_forall. intros x Hx.
    pose proof (g_sorted _ _ (v_graph _ _ _ _ C)) as Hs.
    apply elem_of_app in Hx as [Hx|Hx]; [|apply list_elem_of_singleton in Hx; by subst x].
    assert (seqNum x.2 < seqNum i)%Z; [|lia].
    eapply (StronglySorted_app_1_elem_of _ _ _ x (p, i) Hs); [done|by left].
Qed.

Lemma md_squash_ok t g u L n : inv t g u L →
  ∃ u', squash u n t = Ok u' ∧ inv t g u' (filter (λ x, (seqNum x.2 ≤ n)%Z) L) ∧ calls u' = calls u.
Proof.
  intros [Ht Hl C]. unfold squash. cbn -[nth_res set_nth squash_loop].
  destruct (lists_access t L (filter (λ x, (seqNum x.2 ≤ n)%Z) L) Ht) as [E1 _].
  rewrite Hl, E1. cbn -[set_nth squash_loop].
  set (u0 := with_replay u _).
  assert (core t g u0 (rev (rev L))) as C0.
  { rewrite rev_involutive. apply core_replay; [done|]. intros i [_ Hi]%list_elem_of_filter.
    by apply (v_replay _ _ _ _ C). }
  destruct (squash_loop_ok t g n (rev L) u0 C0) as (u' & rl' & E & C' & Ef & Ei & Er & Ed & Ec).
  { intros j [Hn Hj]%list_elem_of_filter. destruct (v_replay _ _ _ _ C j Hj) as (_ & p & Hp).
    destruct (v_mem _ _ _ _ C p j Hp) as [Et _]. apply Z.nlt_ge. tauto. }
  rewrite E. cbn -[set_nth]. rewrite rev_involutive in Ef. rewrite Ef in *. simpl in Ei. rewrite Ei, Hl.
  destruct (lists_access t L (filter (λ x, (seqNum x.2 ≤ n)%Z) L) Ht) as [_ E2]. rewrite E2. simpl.
  eexists. split; [done|]. split; [|done]. split; [done|done|].
  destruct (StoreSetTrace.step_ok (depPred u') (StoreSetTrace.OpSquash n) (v_pred _ _ _ _ C')) as (d & [= <-] & Hd & He).
  apply core_pred; [by destruct C'|done|]. eapply entries_sub; [by apply (He (stores g)), (v_stores _ _ _ _ C')|].
  simpl. intros x [_ Hx]%list_elem_of_filter. done.
Qed.

(** ** The other operations *)

Lemma reschedule_ok t g u L p i : inv t g u L → (p, i) ∈ L → isNonSpeculative i = false →
  inv t g (reschedule u i) L.
Proof.
  intros [Ht Hl C] Hp Hn. split; [done|done|]. apply core_replay; [done|].
  intros j [Hj|Hj]%elem_of_app; [by apply (v_replay _ _ _ _ C)|]. apply list_elem_of_singleton in Hj. subst j. eauto.
Qed.

Lemma core_retry t g u L n : core t g u L → core t g (call u (RetryMem n)) L.
Proof.
  intros C. destruct C. split; simpl; try done.
  - intros m [Hm|Hm]%elem_of_app; [by apply v_calls0|]. by apply list_elem_of_singleton in Hm.
  - intros p i e Hp He Hg. rewrite elem_of_app, list_elem_of_singleton. rewrite <- (v_done0 p i e Hp He Hg). naive_solver.
Qed.

Lemma replay_ok t g u L : inv t g u L →
  ∃ u', replay u = Ok u' ∧ inv t g u' L ∧ instsToReplay u' = [] ∧
    calls u' = calls u ++ map (λ i, RetryMem (seqNum i)) (instsToReplay u).
Proof.
  intros I. unfold replay. remember (instsToReplay u) as l eqn:El. revert u I El.
  induction l as [|i l IH]; intros u I El; simpl.
  { eexists. split; [done|]. split; [|by rewrite app_nil_r]. destruct I as [Ht Hl C]. split; [done|done|].
    apply core_replay; [done|]. by intros ? ?%not_elem_of_nil. }
  destruct I as [Ht Hl C]. destruct (v_replay _ _ _ _ C i) as (Hn & p & Hp); [rewrite <- El; left|].
  unfold findInHash. assert (memDepHash u !! seqNum i = Some p) as -> by (apply (v_hash _ _ _ _ C); by exists i).
  simpl. destruct (g_heap _ _ (v_graph _ _ _ _ C) p i Hp) as (e & He & Ei & _).
  unfold entry_at. rewrite He. simpl. unfold retryMem. rewrite Ei, Hn. simpl.
  destruct (IH (with_replay (call u (RetryMem (seqNum i))) l)) as (u' & E & I' & Er & Ec); [|done|].
  { split; [done|done|]. apply core_replay; [by apply core_retry|]. intros j Hj.
    apply (v_replay _ _ _ _ C). rewrite <- El. by right. }
  exists u'. split; [done|]. split; [done|]. split; [done|]. rewrite Ec. simpl. by rewrite <- app_assoc.
Qed.

Lemma train_ok t g u L op : inv t g u L →
  (∀ l, StoreSetTrace.fly l op = l) →
  ∃ d, StoreSetTrace.ss_step (depPred u) op = Ok d ∧ inv t g (with_pred u d) L.
Proof.
  intros [Ht Hl C] Hf. destruct (StoreSetTrace.step_ok (depPred u) op (v_pred _ _ _ _ C)) as (d & E & Hd & He).
  exists d. split; [done|]. split; [done|done|]. apply core_pred; [done|done|].
  rewrite <- (Hf (stores g)). apply He, (v_stores _ _ _ _ C).
Qed.

Lemma takeOver_ok t g u : inv t g u [] → inv t g (takeOverFrom u) [].
Proof.
  intros [Ht Hl C]. split; [done|done|]. unfold takeOverFrom.
  apply core_pred; [|by apply StoreSetProps.clear_wf, (v_pred _ _ _ _ C)|].
  - destruct C. split; simpl; try done.
    + intros n. split; [set_solver|]. by intros (x & ?%not_elem_of_nil & _).
    + intros n. split; [set_solver|]. by intros (x & ?%not_elem_of_nil & _).
  - intros row e Hr He Hv. simpl in Hr. apply list_elem_of_fmap_1 in Hr as (r & -> & _).
    apply list_elem_of_fmap_1 in He as (e' & -> & _). done.
Qed.

End MemDepSteps.
