(* ===== verification/MemDepProps.v ===== *)
(** What the memory dependence unit guarantees to the issue queue.

    The unit is driven by the instruction queue of one thread: memory instructions and
    barriers arrive in program order ([IEW::getInstDQType] sends them all through one
    dispatch queue), only instructions in the unit are rescheduled or completed, and an
    instruction completes after it was released. *)
From stdpp Require Import gmap sorting.
From S2P Require Import Prelude Comm StoreSet StoreSetProps StoreSetTrace MemDep MemDepGraph MemDepInv MemDepSteps.
Import MemDep MemDepGraph MemDepInv MemDepSteps.

Module MemDepProps.

(** A call of the instruction queue. *)
Inductive md_op :=
| DInsert (i : DynInst) (curCycle : Z)
| DInsertNonSpec (i : DynInst) (curCycle : Z)
| DInsertBarrier (i : DynInst)
| DReschedule (i : DynInst)
| DReplay
| DComplete (i : DynInst)
| DSquash (squashed_num : Z)
| DViolation (store_inst violating_load : DynInst)
| DIssue (i : DynInst)
| DTakeOver.

(** The instructions in the unit. *)
Definition live (t : Z) (u : MemDepUnit) : nodes := default [] (instList u !! Z.to_nat t).
Definition in_unit (t : Z) (u : MemDepUnit) (i : DynInst) : Prop := ∃ p, (p, i) ∈ live t u.

Definition extend (g : history) (op : md_op) : history :=
  match op with
  | DInsert i _ => (i, true) :: g
  | DInsertNonSpec i _ | DInsertBarrier i => (i, false) :: g
  | _ => g
  end.

(** How the instruction queue uses the unit. *)
Definition allowed (t : Z) (g : history) (u : MemDepUnit) (op : md_op) : Prop :=
  match op with
  | DInsert i _ | DInsertNonSpec i _ => fresh g i ∧ threadNumber i = t ∧ isMemRef i = true
  | DInsertBarrier i => fresh g i ∧ threadNumber i = t
  | DReschedule i => in_unit t u i ∧ isNonSpeculative i = false
  | DComplete i => in_unit t u i ∧ i ∉ instsToReplay u ∧
      ((i, false) ∈ g ∨ MarkMemDepDone (seqNum i) ∈ calls u)
  | DTakeOver => isDrained u = true
  | _ => True
  end.

Section unit.
Context `{SetOrder} (t : Z).

Definition md_step (u : MemDepUnit) (op : md_op) : res MemDepUnit :=
  match op with
  | DInsert i c => insert u i c
  | DInsertNonSpec i c => insertNonSpec u i c
  | DInsertBarrier i => insertBarrier u i
  | DReschedule i => Ok (reschedule u i)
  | DReplay => replay u
  | DComplete i => completeInst u i
  | DSquash n => squash u n t
  | DViolation st ld => violation u st ld
  | DIssue i => issue u i
  | DTakeOver => Ok (takeOverFrom u)
  end.

(** Runs of allowed calls that succeed. *)
Inductive md_run : history → MemDepUnit → list md_op → history → MemDepUnit → Prop :=
| md_nil g u : md_run g u [] g u
| md_cons g u op u1 ops g2 u2 :
    allowed t g u op → md_step u op = Ok u1 → md_run (extend g op) u1 ops g2 u2 →
    md_run g u (op :: ops) g2 u2.

(** ** The invariant along runs *)

Lemma live_inv g u L : inv t g u L → live t u = L.
Proof.
  intros [Ht Hl _]. unfold live. rewrite Hl. unfold lists_of.
  by rewrite list_lookup_insert_eq by (rewrite length_replicate; lia).
Qed.

Lemma drained_inv g u L : inv t g u L → isDrained u = true ↔ instsToReplay u = [] ∧ L = [].
Proof.
  intros I. pose proof (live_inv _ _ _ I) as El. destruct I as [Ht Hl C]. unfold isDrained.
  rewrite !andb_true_iff, !bool_decide_eq_true, forallb_forall. split.
  - intros [[Hr _] Hf]. split; [done|]. specialize (Hf L). destruct L; [done|]. discriminate Hf.
    apply list_elem_of_In, (list_elem_of_lookup_2 _ (Z.to_nat t)). rewrite Hl. unfold lists_of.
    by rewrite list_lookup_insert_eq by (rewrite length_replicate; lia).
  - intros [Hr ->]. split; [split; [done|]|].
    + apply map_empty. intros n. destruct (memDepHash u !! n) as [p|] eqn:E; [|done].
      apply (v_hash _ _ _ _ C) in E as (i & ?%not_elem_of_nil & _). done.
    + intros l Hin%list_elem_of_In. rewrite Hl in Hin. unfold lists_of in Hin.
      apply list_elem_of_lookup in Hin as [k Hk].
      apply list_lookup_insert_Some in Hk as [(_ & <- & _)|(_ & Hk)]; [done|].
      by apply lookup_replicate in Hk as [-> _].
Qed.

Lemma md_step_ok g u L op : inv t g u L → allowed t g u op →
  ∃ u' L', md_step u op = Ok u' ∧ inv t (extend g op) u' L'.
Proof.
  intros I Ha. pose proof (live_inv _ _ _ I) as El. destruct op as [i c|i c|i|i| |i|n|st ld|i|]; simpl in *.
  - destruct Ha as (Hf & Ht & Hm). destruct (insert_ok t g u L i c I Hf Ht Hm) as (u' & E & I'). eauto.
  - destruct Ha as (Hf & Ht & Hm). destruct (insertNonSpec_ok t g u L i c I Hf Ht Hm) as (u' & E & I'). eauto.
  - destruct Ha as (Hf & Ht). destruct (insertBarrier_ok t g u L i I Hf Ht) as (u' & E & I'). eauto.
  - destruct Ha as ([p Hp] & Hn). rewrite El in Hp. eexists _, L. split; [done|]. by eapply reschedule_ok.
  - destruct (replay_ok t g u L I) as (u' & E & I' & _). eauto.
  - destruct Ha as ([p Hp] & Hn & Hr). rewrite El in Hp.
    destruct (completeInst_ok t g u L p i I Hp Hn Hr) as (u' & E & I' & _). eauto.
  - destruct (md_squash_ok t g u L n I) as (u' & E & I' & _). eauto.
  - destruct (train_ok t g u L (StoreSetTrace.OpViolation (instAddr st) (instAddr ld)) I) as (d & E & I'); [done|].
    unfold violation. simpl in E. rewrite E. simpl. eauto.
  - destruct (train_ok t g u L (StoreSetTrace.OpIssued (instAddr i) (seqNum i) (isStore i)) I) as (d & E & I'); [done|].
    unfold issue. simpl in E. rewrite E. simpl. eauto.
  - apply (drained_inv _ _ _ I) in Ha as [_ ->]. eexists _, []. split; [done|]. by apply takeOver_ok.
Qed.

Lemma md_run_inv g u ops g' u' L : md_run g u ops g' u' → inv t g u L → ∃ L', inv t g' u' L'.
Proof.
  intros R. revert L. induction R as [|g u op u1 ops g2 u2 Ha E _ IH]; intros L I; [by exists L|].
  destruct (md_step_ok g u L op I Ha) as (u1' & L1 & E1 & I1). assert (u1' = u1) as -> by congruence.
  by apply (IH L1).
Qed.

Ltac elem_nil :=
  intros; exfalso; match goal with H : _ ∈ [] |- _ => exact (not_elem_of_nil _ H) end.

Definition sizes_ok (a b n : Z) : Prop := (1 ≤ a ≤ 30 ∧ 1 ≤ b ≤ 30 ∧ 1 ≤ n < 2 ^ 31)%Z.

Lemma init_inv replay strict thres a b n :
  (0 ≤ t < Z.of_nat MaxThreads)%Z → sizes_ok a b n →
  inv t [] (init replay strict thres (2 ^ a) (2 ^ b) n) [].
Proof.
  intros Ht (Ha & Hb & Hn). split; [done|..].
  - unfold lists_of, init. cbn [instList]. rewrite list_insert_id; [done|].
    apply lookup_replicate. split; [done|lia].
  - assert (graph [] []) as G.
    { split; try elem_nil; [apply SSorted_nil|..]; by intros ? ? ?. }
    split; simpl; try done; try elem_nil.
    + intros m p. rewrite lookup_empty. split; [done|]. by intros (i & ?%not_elem_of_nil & _).
    + apply SSorted_nil.
    + intros m. split; [set_solver|]. by intros (x & ?%not_elem_of_nil & _).
    + intros m. split; [set_solver|]. by intros (x & ?%not_elem_of_nil & _).
    + by apply StoreSetProps.init_wf.
    + intros row e Hr He Hv. simpl in Hr. apply elem_of_replicate in Hr as [-> _].
      by apply elem_of_replicate in He as [-> _].
Qed.

(** ** The claims *)

(** C23: However the instruction queue of a thread drives the unit (inserting memory
    instructions and barriers in program order, rescheduling and replaying, completing
    what was released, squashing, training), no assertion of the unit, of its store sets
    or of the issue queue calls it makes fails, and no stale pointer is followed. *)
Theorem mem_dep_never_fails replay strict thres a b n ops g u op :
  (0 ≤ t < Z.of_nat MaxThreads)%Z → sizes_ok a b n →
  md_run [] (init replay strict thres (2 ^ a) (2 ^ b) n) ops g u → allowed t g u op →
  ∃ u', md_step u op = Ok u'.
Proof.
  intros Ht Hs R Ha. destruct (md_run_inv _ _ _ _ _ _ R (init_inv replay strict thres a b n Ht Hs)) as [L I].
  destruct (md_step_ok g u L op I Ha) as (u' & _ & E & _). by exists u'.
Qed.

(** C12: An instruction that entered speculatively is released exactly when none of the
    instructions in the unit has it among its dependents, and never while an older barrier it must
    wait for (a read barrier for a load, a write barrier for a store) is in the unit. *)
Theorem mem_dep_release replay strict thres a b n ops g u i :
  (0 ≤ t < Z.of_nat MaxThreads)%Z → sizes_ok a b n →
  md_run [] (init replay strict thres (2 ^ a) (2 ^ b) n) ops g u →
  in_unit t u i → (i, true) ∈ g →
  (MarkMemDepDone (seqNum i) ∈ calls u ↔
     ∀ p q j, (p, i) ∈ live t u → (q, j) ∈ live t u → p ∉ deps (heap u) q) ∧
  ∀ j, in_unit t u j → (seqNum j < seqNum i)%Z → waits_on i j = true →
    MarkMemDepDone (seqNum i) ∉ calls u.
Proof.
  intros Ht Hs R [p Hp] Hg.
  destruct (md_run_inv _ _ _ _ _ _ R (init_inv replay strict thres a b n Ht Hs)) as [L I].
  rewrite (live_inv _ _ _ I) in *. unfold in_unit. rewrite (live_inv _ _ _ I).
  destruct I as [_ _ C]. pose proof (v_graph _ _ _ _ C) as G.
  destruct (g_heap _ _ G p i Hp) as (e & He & _ & _).
  assert (memDeps e = Z.of_nat (pend (heap u) L p)) as Em by (apply (g_live _ _ G); [done|apply node_fst; by exists i]).
  assert (MarkMemDepDone (seqNum i) ∈ calls u ↔
     ∀ p q j, (p, i) ∈ L → (q, j) ∈ L → p ∉ deps (heap u) q) as Hiff.
  { rewrite (v_done _ _ _ _ C p i e Hp He Hg), Em. split.
    - intros E p' q j Hp' Hq Hin. assert ((p', i) = (p, i)) as [= ->] by (by eapply graph_seq).
      assert (0 < pend (heap u) L p)%nat by (apply pend_pos; by exists (q, j)). lia.
    - intros Hno. destruct (Nat.eq_0_gt_0_cases (pend (heap u) L p)) as [->|Hpos]; [done|].
      apply pend_pos in Hpos as ([q j] & Hq & Hin). by destruct (Hno p q j Hp Hq). }
  split; [done|]. intros j [q Hq] Hlt Hw. rewrite Hiff. intros Hno.
  by apply (Hno p q j Hp Hq), (v_order _ _ _ _ C p i q j).
Qed.

(** The oldest instruction waits for nobody. *)
Lemma oldest_free g u p i L : inv t g u ((p, i) :: L) →
  (i, false) ∈ g ∨ MarkMemDepDone (seqNum i) ∈ calls u.
Proof.
  intros [_ _ C]. pose proof (v_graph _ _ _ _ C) as G.
  assert ((p, i) ∈ (p, i) :: L) as Hp by left.
  destruct (v_mem _ _ _ _ C p i Hp) as (_ & [] & Hb); [right|by left].
  destruct (g_heap _ _ G p i Hp) as (e & He & Ei & _). apply (v_done _ _ _ _ C p i e Hp He Hb).
  rewrite (g_live _ _ G p e He) by (apply node_fst; by exists i).
  destruct (Nat.eq_0_gt_0_cases (pend (heap u) ((p, i) :: L) p)) as [->|Hpos]; [done|].
  apply pend_pos in Hpos as ([q j] & Hq & Hin).
  destruct (g_younger _ _ G q j p Hq Hin) as (e' & He' & Hlt). simplify_eq.
  pose proof (g_sorted _ _ G) as Hs. apply StronglySorted_inv in Hs as [_ Hs]. rewrite Forall_forall in Hs.
  apply elem_of_cons in Hq as [[= -> ->]|Hq]; [lia|]. specialize (Hs _ Hq). simpl in Hs. lia.
Qed.

Lemma complete_all L g u : inv t g u L → instsToReplay u = [] →
  ∃ u', md_run g u (map DComplete L.*2) g u' ∧ isDrained u' = true.
Proof.
  revert u. induction L as [|[p i] L IH]; intros u I Hr.
  { exists u. split; [constructor|]. by apply (drained_inv g u []). }
  pose proof (oldest_free _ _ _ _ _ I) as Hfree. pose proof (live_inv _ _ _ I) as El.
  destruct (completeInst_ok t g u _ p i I) as (u1 & E & I1 & Hr1 & _); [by left|by rewrite Hr; apply not_elem_of_nil|done|].
  pose proof (graph_nodup _ _ (v_graph _ _ _ _ (v_core _ _ _ _ I))) as Hn. simpl in Hn.
  apply NoDup_cons in Hn as [Hn _].
  rewrite filter_cons_False, filter_all in I1; [|apply Forall_forall; intros [q j] Hq E1; simpl in E1; subst q;
    apply Hn, node_fst; by exists j|simpl; tauto].
  destruct (IH u1 I1) as (u' & R & Hd); [congruence|]. exists u'. split; [|done].
  econstructor; [|exact E|exact R]. simpl. split; [exists p; rewrite El; left|].
  rewrite Hr. split; [by apply not_elem_of_nil|done].
Qed.

(** C9: The unit cannot deadlock: from every state a run reaches, replaying what waits for a
    replay and then completing the instructions in program order is allowed, since each of them has
    been released by the time its elders are done, and empties the unit. *)
Theorem mem_dep_drains replay strict thres a b n ops g u :
  (0 ≤ t < Z.of_nat MaxThreads)%Z → sizes_ok a b n →
  md_run [] (init replay strict thres (2 ^ a) (2 ^ b) n) ops g u →
  ∃ u', md_run g u (DReplay :: map DComplete (live t u).*2) g u' ∧ isDrained u' = true.
Proof.
  intros Ht Hs R. destruct (md_run_inv _ _ _ _ _ _ R (init_inv replay strict thres a b n Ht Hs)) as [L I].
  rewrite (live_inv _ _ _ I). destruct (replay_ok t g u L I) as (u1 & E & I1 & Hr & _).
  destruct (complete_all L g u1 I1 Hr) as (u2 & R2 & Hd). exists u2. split; [|done].
  by econstructor.
Qed.
End unit.

(** ** Examples *)

Definition ex_init : MemDepUnit := init true false 1000 (2 ^ 5) (2 ^ 3) 2.
Definition ex_fence : DynInst := mkInst 1 0 0 false false false true true false true.
Definition ex_load : DynInst := mkInst 2 0 4 true false false false false false false.

(** A fence and a load behind it. *)
Definition ex_hist : history := [(ex_load, true); (ex_fence, false)].
Definition ex_unit : MemDepUnit :=
  match (let! u := insertBarrier ex_init ex_fence in insert u ex_load 5) with
  | Ok u => u
  | Panic _ => ex_init
  end.

Lemma ex_run : md_run 0 [] ex_init [DInsertBarrier ex_fence; DInsert ex_load 5] ex_hist ex_unit.
Proof.
  eapply md_cons; [split; [constructor|done]|vm_compute; reflexivity|].
  eapply md_cons; [split; [by repeat constructor|done]|vm_compute; reflexivity|]. apply md_nil.
Qed.

Lemma ex_sizes : (0 ≤ 0 < Z.of_nat MaxThreads)%Z ∧ sizes_ok 5 3 2.
Proof. unfold sizes_ok. repeat split; done. Qed.

Lemma ex_load_in : in_unit 0 ex_unit ex_load ∧ (ex_load, true) ∈ ex_hist.
Proof. split; [exists 1%nat; vm_compute; right; left|left]. Qed.

Lemma ex_fence_allowed : allowed 0 ex_hist ex_unit (DComplete ex_fence).
Proof.
  split; [exists 0%nat; vm_compute; left|]. split; [vm_compute; by intros ?%not_elem_of_nil|].
  left. right. left.
Qed.

Lemma mem_dep_never_fails_witness : allowed 0 ex_hist ex_unit (DComplete ex_fence) ∧
  ∃ u', md_step 0 ex_unit (DComplete ex_fence) = Ok u'.
Proof.
  split; [exact ex_fence_allowed|].
  exact (mem_dep_never_fails 0 true false 1000 5 3 2 _ _ _ _ (proj1 ex_sizes) (proj2 ex_sizes) ex_run ex_fence_allowed).
Defined.

Lemma mem_dep_release_witness : in_unit 0 ex_unit ex_load ∧
  (MarkMemDepDone 2 ∈ calls ex_unit ↔
     ∀ p q j, (p, ex_load) ∈ live 0 ex_unit → (q, j) ∈ live 0 ex_unit → p ∉ deps (heap ex_unit) q) ∧
  ∀ j, in_unit 0 ex_unit j → (seqNum j < 2)%Z → waits_on ex_load j = true →
    MarkMemDepDone 2 ∉ calls ex_unit.
Proof.
  split; [exact (proj1 ex_load_in)|].
  exact (mem_dep_release 0 true false 1000 5 3 2 _ _ _ ex_load (proj1 ex_sizes) (proj2 ex_sizes) ex_run
           (proj1 ex_load_in) (proj2 ex_load_in)).
Defined.

Lemma mem_dep_drains_witness :
  md_run 0 [] ex_init [DInsertBarrier ex_fence; DInsert ex_load 5] ex_hist ex_unit ∧
  ∃ u', md_run 0 ex_hist ex_unit (DReplay :: map DComplete (live 0 ex_unit).*2) ex_hist u' ∧
    isDrained u' = true.
Proof.
  split; [exact ex_run|].
  exact (mem_dep_drains 0 true false 1000 5 3 2 _ _ _ (proj1 ex_sizes) (proj2 ex_sizes) ex_run).
Defined.

End MemDepProps.
