(* ===== verification/CircularBuffer.v ===== *)
(** The interface of [boost::circular_buffer].

    The stages keep instructions, and the store buffer its indices, in [boost::circular_buffer] objects.  Boost is
    not part of the repository, so the buffer is a type class: the operations the
    stages call, with the documented behaviour of each on the sequence of elements
    from [begin()] to [end()].  [lbuf] is an instance. *)
From S2P Require Import Prelude.

Class CircularBuffer (C A : Type) := {
  cb_elems : C → list A;               (** the elements, oldest first *)
  cb_capacity : C → nat;
  cb_new : nat → C;                    (** empty, with the given capacity *)
  cb_push_back : C → A → C;
  cb_pop_front : C → C;
  cb_push_front : C → A → C;
  cb_pop_back : C → C;
  cb_clear : C → C;
  cb_erase : C → nat → nat → C         (** [erase(begin()+i, begin()+j)] *)
}.

Class CircularBufferLaws (C A : Type) `{CircularBuffer C A} := {
  cb_cap_new n : cb_capacity (cb_new n) = n;
  cb_elems_new n : cb_elems (cb_new n) = [];
  cb_cap_push c a : cb_capacity (cb_push_back c a) = cb_capacity c;
  cb_cap_pop c : cb_capacity (cb_pop_front c) = cb_capacity c;
  cb_cap_push_front c a : cb_capacity (cb_push_front c a) = cb_capacity c;
  cb_cap_pop_back c : cb_capacity (cb_pop_back c) = cb_capacity c;
  cb_cap_clear c : cb_capacity (cb_clear c) = cb_capacity c;
  cb_cap_erase c i j : cb_capacity (cb_erase c i j) = cb_capacity c;
  cb_elems_push c a :
    length (cb_elems c) < cb_capacity c →
    cb_elems (cb_push_back c a) = cb_elems c ++ [a];
  cb_elems_pop c : cb_elems c ≠ [] → cb_elems (cb_pop_front c) = tail (cb_elems c);
  cb_elems_push_front c a :
    length (cb_elems c) < cb_capacity c →
    cb_elems (cb_push_front c a) = a :: cb_elems c;
  cb_elems_pop_back c l a : cb_elems c = l ++ [a] → cb_elems (cb_pop_back c) = l;
  cb_elems_clear c : cb_elems (cb_clear c) = [];
  cb_elems_erase c i j :
    i ≤ j ≤ length (cb_elems c) →
    cb_elems (cb_erase c i j) = take i (cb_elems c) ++ drop j (cb_elems c)
}.

(** [full()], [empty()]. *)
Definition cb_full {C A} `{CircularBuffer C A} (c : C) : bool :=
  bool_decide (length (cb_elems c) = cb_capacity c).
Definition cb_empty {C A} `{CircularBuffer C A} (c : C) : bool :=
  bool_decide (cb_elems c = []).

Fixpoint cb_push_all {C A} `{CircularBuffer C A} (c : C) (l : list A) : C :=
  match l with
  | [] => c
  | a :: rest => cb_push_all (cb_push_back c a) rest
  end.

Section Lemmas.

Context {C A : Type} `{CircularBufferLaws C A}.

Lemma cb_push_all_elems (c : C) (l : list A) :
  length (cb_elems c) + length l ≤ cb_capacity c →
  cb_elems (cb_push_all c l) = cb_elems c ++ l ∧
  cb_capacity (cb_push_all c l) = cb_capacity c.
Proof.
  revert c. induction l as [|a l IH]; intros c Hl; simpl; [by rewrite app_nil_r|].
  simpl in Hl. assert (cb_elems (cb_push_back c a) = cb_elems c ++ [a]) as E
    by (apply cb_elems_push; lia).
  destruct (IH (cb_push_back c a)) as [IH1 IH2].
  - rewrite E, length_app, cb_cap_push. simpl. lia.
  - rewrite IH1, IH2, E, cb_cap_push, <- app_assoc. done.
Qed.

Lemma cb_pop_all (c : C) n :
  n = length (cb_elems c) → cb_elems (Nat.iter n cb_pop_front c) = [].
Proof.
  intros Hn. assert (∀ k, k ≤ n → cb_elems (Nat.iter k cb_pop_front c) = drop k (cb_elems c)) as E.
  { induction k as [|k IH]; intros Hk; [done|]. simpl. specialize (IH ltac:(lia)).
    rewrite cb_elems_pop; rewrite IH.
    - rewrite <- Nat.add_1_r, <- drop_drop. by destruct (drop k (cb_elems c)).
    - intros E%(f_equal length). rewrite length_drop in E. simpl in E. lia. }
  rewrite E by done. by rewrite drop_ge by lia.
Qed.

(** Pushing the elements that satisfy a test. *)
Lemma cb_push_filter (f : A → bool) (c : C) (l : list A) :
  length (cb_elems c) + length l ≤ cb_capacity c →
  cb_elems (foldl (λ c a, if f a then c else cb_push_back c a) c l) =
    cb_elems c ++ filter (λ a, f a = false) l.
Proof.
  revert c. induction l as [|a l IH]; intros c Hl; simpl; [by rewrite app_nil_r|]. simpl in Hl.
  destruct (f a) eqn:E.
  - rewrite filter_cons_False by congruence. apply IH. lia.
  - rewrite filter_cons_True by done. rewrite IH, cb_elems_push by (rewrite ?cb_elems_push, ?length_app, ?cb_cap_push; simpl; lia).
    by rewrite <- app_assoc.
Qed.

Lemma cb_push_filter_cap (f : A → bool) (c : C) (l : list A) :
  cb_capacity (foldl (λ c a, if f a then c else cb_push_back c a) c l) = cb_capacity c.
Proof.
  revert c. induction l as [|a l IH]; intros c; simpl; [done|].
  rewrite IH. destruct (f a); [done|]. apply cb_cap_push.
Qed.

End Lemmas.

(** ** A list with a capacity *)

Record lbuf (A : Type) := LBuf { lb_cap : nat; lb_elems : list A }.
Arguments LBuf {A} _ _.
Arguments lb_cap {A} _.
Arguments lb_elems {A} _.

#[export] Instance lbuf_ops {A} : CircularBuffer (lbuf A) A := {
  cb_elems := lb_elems;
  cb_capacity := lb_cap;
  cb_new n := LBuf n [];
  cb_push_back c a :=
    LBuf (lb_cap c)
      ((if length (lb_elems c) <? lb_cap c then lb_elems c else tail (lb_elems c)) ++ [a]);
  cb_pop_front c := LBuf (lb_cap c) (tail (lb_elems c));
  cb_push_front c a :=
    LBuf (lb_cap c)
      (a :: (if length (lb_elems c) <? lb_cap c then lb_elems c
             else take (length (lb_elems c) - 1) (lb_elems c)));
  cb_pop_back c := LBuf (lb_cap c) (take (length (lb_elems c) - 1) (lb_elems c));
  cb_clear c := LBuf (lb_cap c) [];
  cb_erase c i j := LBuf (lb_cap c) (take i (lb_elems c) ++ drop j (lb_elems c))
}.

#[export] Instance lbuf_laws {A} : CircularBufferLaws (lbuf A) A.
Proof.
  split; try done; intros c.
  - intros a Hl. simpl in *. by rewrite (proj2 (Nat.ltb_lt _ _) Hl).
  - intros a Hl. simpl in *. by rewrite (proj2 (Nat.ltb_lt _ _) Hl).
  - intros l a Hl. simpl in *. rewrite Hl, length_app. simpl.
    by rewrite Nat.add_sub, take_app_length.
Qed.
