(* ===== verification/Bytes.v ===== *)
(** Byte arrays, byte memories and cache blocks.

    What the load/store queue and the store buffer share: element access by a
    natural index, the copy loops over byte ranges with a pointwise description of
    their results, a memory as a function from addresses to bytes with masked
    writes, and the arithmetic of [addr & cacheBlockMask]. *)
From S2P Require Import Prelude.

(** ** Access by index *)

(** [v[i]] and [v[i] = a] on a [std::vector] or array. *)
Definition at_res {A} (l : list A) (i : nat) : res A :=
  match l !! i with Some a => Ok a | None => ub end.

Definition upd_res {A} (l : list A) (i : nat) (a : A) : res (list A) :=
  if (i <? length l)%nat then Ok (<[i := a]> l) else ub.

Lemma at_res_Ok {A} (l : list A) i a : at_res l i = Ok a ↔ l !! i = Some a.
Proof. unfold at_res, ub. destruct (l !! i); split; intros H; congruence. Qed.

Lemma at_res_Some {A} (l : list A) i a : l !! i = Some a → at_res l i = Ok a.
Proof. apply at_res_Ok. Qed.

Lemma upd_res_Ok {A} (l : list A) i a : i < length l → upd_res l i a = Ok (<[i := a]> l).
Proof. intros H. unfold upd_res. by rewrite (proj2 (Nat.ltb_lt _ _) H). Qed.

Lemma upd_res_Some {A} (l : list A) i a b :
  l !! i = Some b → upd_res l i a = Ok (<[i := a]> l).
Proof. intros H. apply upd_res_Ok. by eapply lookup_lt_Some. Qed.

(** ** Copy loops *)

(** [for (i = 0; i < n; i++) dst[off + i] = src[i];], and [memcpy(dst + off, src, n)]. *)
Definition copy_range {A} (dst src : list A) (off n : nat) : res (list A) :=
  res_fold (λ d i, let! x := at_res src i in upd_res d (off + i) x) dst (seq 0 n).

(** [for (i = 0; i < n; i++) if (mask[i]) dst[off + i] = f(i);]. *)
Definition copy_masked {A} (dst src : list A) (mask : list bool) (off n : nat) : res (list A) :=
  res_fold (λ d i,
    let! b := at_res mask i in
    if b : bool then (let! x := at_res src i in upd_res d (off + i) x) else Ok d)
    dst (seq 0 n).

(** [std::fill(v.begin() + i, v.begin() + j, a)]. *)
Definition fill_range {A} (l : list A) (i j : nat) (a : A) : res (list A) :=
  if ((i <=? j) && (j <=? length l))%nat
  then Ok (take i l ++ replicate (j - i) a ++ drop j l) else ub.

Lemma copy_masked_lookup {A} (dst src : list A) mask off n :
  n ≤ length src → n ≤ length mask → off + n ≤ length dst →
  ∃ d, copy_masked dst src mask off n = Ok d ∧ length d = length dst ∧
    ∀ j, d !! j =
      if decide (off ≤ j < off + n ∧ mask !! (j - off) = Some true) then src !! (j - off)
      else dst !! j.
Proof.
  intros Hs Hm Hd. unfold copy_masked. induction n as [|n IH].
  { exists dst. split_and!; [done|done|]. intros j. destruct (decide _) as [[? _]|]; [lia|done]. }
  destruct IH as (d & Hf & Hl & Hj); [lia..|].
  rewrite seq_S, res_fold_app, Hf. simpl.
  destruct (lookup_lt_is_Some_2 mask n) as [b Hb]; [lia|].
  destruct (lookup_lt_is_Some_2 src n) as [x Hx]; [lia|].
  rewrite (at_res_Some _ _ _ Hb). simpl. destruct b; simpl.
  - rewrite (at_res_Some _ _ _ Hx). simpl. rewrite upd_res_Ok by lia. simpl.
    eexists. split_and!; [done|by rewrite length_insert|]. intros j.
    destruct (decide (j = off + n)) as [->|Hne].
    + rewrite list_lookup_insert_eq by lia. replace (off + n - off) with n by lia.
      by rewrite decide_True by (split; [lia|done]).
    + rewrite list_lookup_insert_ne by done. rewrite Hj.
      apply decide_ext. split; intros [? ?]; (split; [lia|done]).
  - exists d. split_and!; [done|done|]. intros j. rewrite Hj.
    destruct (decide (j = off + n)) as [->|Hne].
    + replace (off + n - off) with n by lia.
      rewrite !decide_False; [done| |]; intros [? ?]; [congruence|lia].
    + apply decide_ext. split; intros [? ?]; (split; [lia|done]).
Qed.

Lemma copy_range_masked {A} (dst src : list A) off n :
  copy_range dst src off n = copy_masked dst src (replicate n true) off n.
Proof.
  unfold copy_range, copy_masked.
  assert (∀ l, (∀ i, i ∈ l → i < n) → ∀ d,
    res_fold (λ d i, let! x := at_res src i in upd_res d (off + i) x) d l =
    res_fold (λ d i, let! b := at_res (replicate n true) i in
      if b : bool then (let! x := at_res src i in upd_res d (off + i) x) else Ok d) d l) as E.
  { induction l as [|i l IH]; intros Hl d; [done|]. simpl.
    rewrite (at_res_Some (replicate n true) i true) by (apply lookup_replicate_2; set_solver).
    simpl. destruct (at_res src i); simpl; [|done].
    destruct (upd_res d (off + i) _); simpl; [|done]. apply IH. set_solver. }
  apply E. intros i Hi%elem_of_seq. lia.
Qed.

Lemma copy_range_lookup {A} (dst src : list A) off n :
  n ≤ length src → off + n ≤ length dst →
  ∃ d, copy_range dst src off n = Ok d ∧ length d = length dst ∧
    ∀ j, d !! j = if decide (off ≤ j < off + n) then src !! (j - off) else dst !! j.
Proof.
  intros Hs Hd. rewrite copy_range_masked.
  destruct (copy_masked_lookup dst src (replicate n true) off n) as (d & -> & Hl & Hj);
    [done|by rewrite length_replicate|done|].
  exists d. split_and!; [done|done|]. intros j. rewrite Hj. apply decide_ext.
  split; [tauto|]. intros ?. split; [done|]. apply lookup_replicate_2. lia.
Qed.

Lemma fill_range_lookup {A} (l : list A) i j a :
  i ≤ j ≤ length l →
  ∃ l', fill_range l i j a = Ok l' ∧ length l' = length l ∧
    ∀ k, l' !! k = if decide (i ≤ k < j) then Some a else l !! k.
Proof.
  intros Hij. unfold fill_range.
  rewrite (proj2 (Nat.leb_le _ _)), (proj2 (Nat.leb_le _ _)) by lia. simpl.
  eexists. split_and!; [done| |].
  { rewrite !length_app, length_take, length_replicate, length_drop. lia. }
  intros k. destruct (decide (k < i)) as [?|?].
  { rewrite lookup_app_l by (rewrite length_take; lia). rewrite lookup_take_lt by done.
    by rewrite decide_False by lia. }
  rewrite lookup_app_r by (rewrite length_take; lia). rewrite length_take, Nat.min_l by lia.
  destruct (decide (k < j)) as [?|?].
  - rewrite lookup_app_l by (rewrite length_replicate; lia).
    rewrite lookup_replicate_2 by lia. by rewrite decide_True by lia.
  - rewrite lookup_app_r by (rewrite length_replicate; lia).
    rewrite length_replicate, lookup_drop, decide_False by lia. f_equal. lia.
Qed.

(** ** Memories *)

Definition memory := Z → Z.

(** The memory after the bytes of [datas] that [mask] enables are written at [a]. *)
Definition mem_write (m : memory) (a : Z) (datas : list Z) (mask : list bool) : memory :=
  λ x, if ((a <=? x) && (x <? a + Z.of_nat (length mask)))%Z
       then match mask !! Z.to_nat (x - a), datas !! Z.to_nat (x - a) with
            | Some true, Some b => b
            | _, _ => m x
            end
       else m x.

(** The [n] bytes of [m] from [a] on. *)
Definition mem_read (m : memory) (a : Z) (n : nat) : list Z :=
  map (λ i, m (a + Z.of_nat i)%Z) (seq 0 n).

Lemma mem_read_length m a n : length (mem_read m a n) = n.
Proof. unfold mem_read. by rewrite length_map, length_seq. Qed.

Lemma mem_read_lookup m a n i : i < n → mem_read m a n !! i = Some (m (a + Z.of_nat i)%Z).
Proof. intros Hi. unfold mem_read. by rewrite list_lookup_fmap, lookup_seq_lt. Qed.

Lemma mem_read_ext m m' a n :
  (∀ x, (a ≤ x < a + Z.of_nat n)%Z → m x = m' x) → mem_read m a n = mem_read m' a n.
Proof.
  intros H. unfold mem_read. apply list_fmap_ext. intros i x Hx.
  apply lookup_seq in Hx. apply H. lia.
Qed.

Lemma mem_write_out m a datas mask x :
  (x < a ∨ a + Z.of_nat (length mask) ≤ x)%Z → mem_write m a datas mask x = m x.
Proof.
  intros H. unfold mem_write.
  destruct (Z.leb_spec a x), (Z.ltb_spec x (a + Z.of_nat (length mask))); simpl; try done. lia.
Qed.

Lemma mem_write_in m a datas mask i :
  i < length mask →
  mem_write m a datas mask (a + Z.of_nat i)%Z =
    match mask !! i, datas !! i with Some true, Some b => b | _, _ => m (a + Z.of_nat i)%Z end.
Proof.
  intros H. unfold mem_write.
  rewrite (proj2 (Z.leb_le _ _)), (proj2 (Z.ltb_lt _ _)) by lia. simpl.
  by replace (Z.to_nat (a + Z.of_nat i - a)) with i by lia.
Qed.

Lemma mem_write_ext m m' a datas mask x :
  m x = m' x → mem_write m a datas mask x = mem_write m' a datas mask x.
Proof. intros H. unfold mem_write. by rewrite H. Qed.

(** ** Cache blocks *)

(** [~(((uint64_t)cacheLineSize) - 1)] for lines of [2 ^ k] bytes. *)
Definition block_mask (k : Z) : Z := u64 (Z.lnot (2 ^ k - 1)).

(** [addr & cacheBlockMask] and [addr & ~cacheBlockMask]. *)
Definition block_addr (k a : Z) : Z := Z.land a (block_mask k).
Definition block_off (k a : Z) : Z := Z.land a (u64 (Z.lnot (block_mask k))).

Lemma testbit_block_mask k i :
  (0 ≤ k ≤ 64)%Z → (0 ≤ i)%Z → Z.testbit (block_mask k) i = (k <=? i)%Z && (i <? 64)%Z.
Proof.
  intros Hk Hi. unfold block_mask, u64. rewrite testbit_wrapu by lia.
  rewrite Z.lnot_spec, testbit_ones by lia.
  rewrite andb_comm. f_equal. destruct (Z.ltb_spec i k), (Z.leb_spec k i); simpl; lia.
Qed.

Lemma block_addr_eq k a :
  (0 ≤ k ≤ 64)%Z → in_u 64 a → block_addr k a = (2 ^ k * (a / 2 ^ k))%Z.
Proof.
  intros Hk Ha. apply Z.bits_inj'. intros i Hi. unfold block_addr.
  rewrite Z.land_spec, testbit_block_mask by lia.
  rewrite Z.mul_comm, <- Z.shiftl_mul_pow2, <- Z.shiftr_div_pow2 by lia.
  rewrite testbit_shiftl by lia.
  destruct (Z.leb_spec k i) as [?|?]; simpl; [|by rewrite andb_false_r].
  rewrite Z.shiftr_spec by lia. replace (i - k + k)%Z with i by lia.
  destruct (Z.ltb_spec i 64) as [?|?]; [by rewrite andb_true_r|].
  rewrite (testbit_above 64 a i) by (done || lia). done.
Qed.

Lemma block_off_eq k a :
  (0 ≤ k ≤ 64)%Z → in_u 64 a → block_off k a = (a `mod` 2 ^ k)%Z.
Proof.
  intros Hk Ha. apply Z.bits_inj'. intros i Hi. unfold block_off.
  rewrite Z.land_spec. unfold u64 at 1. rewrite testbit_wrapu, Z.lnot_spec, testbit_block_mask by lia.
  fold (wrapu k a). rewrite testbit_wrapu by lia.
  destruct (Z.ltb_spec i k), (Z.leb_spec k i), (Z.ltb_spec i 64); simpl; try lia;
    rewrite ?andb_false_r, ?andb_true_r; try done.
Qed.

(** The address of a byte of a block determines the block. *)
Lemma block_addr_of k b i :
  (0 ≤ k ≤ 64)%Z → in_u 64 b → block_addr k b = b → (0 ≤ i < 2 ^ k)%Z →
  in_u 64 (b + i) ∧ block_addr k (b + i) = b ∧ block_off k (b + i) = i.
Proof.
  intros Hk Hb Hal Hi. rewrite block_addr_eq in Hal by done.
  assert (b + i = (b / 2 ^ k) * 2 ^ k + i)%Z as E by lia.
  assert (in_u 64 (b + i)) as Hu.
  { unfold in_u in *. split; [lia|].
    assert (2 ^ 64 = 2 ^ (64 - k) * 2 ^ k)%Z as E64 by (rewrite <- Z.pow_add_r by lia; f_equal; lia).
    assert (b / 2 ^ k < 2 ^ (64 - k))%Z by (apply Z.div_lt_upper_bound; lia).
    nia. }
  split; [done|]. rewrite block_addr_eq, block_off_eq by done. split.
  - rewrite E, Z.div_add_l, (Z.div_small i) by lia. lia.
  - rewrite E, Z.add_comm, Z.mod_add, Z.mod_small by lia. done.
Qed.

(** An address is its block and its offset. *)
Lemma block_split k a :
  (0 ≤ k ≤ 64)%Z → in_u 64 a →
  (a = block_addr k a + block_off k a ∧ 0 ≤ block_off k a < 2 ^ k)%Z ∧
  in_u 64 (block_addr k a) ∧ block_addr k (block_addr k a) = block_addr k a.
Proof.
  intros Hk Ha. pose proof (Z.div_mod a (2 ^ k) ltac:(lia)) as E.
  pose proof (Z.mod_pos_bound a (2 ^ k) ltac:(lia)) as Hm.
  assert (in_u 64 (block_addr k a)) as Hu.
  { unfold in_u in *. rewrite block_addr_eq by done. split; [|lia].
    assert (0 ≤ a / 2 ^ k)%Z by (apply Z.div_pos; lia). nia. }
  split; [rewrite block_addr_eq, block_off_eq by done; lia|]. split; [done|].
  apply Z.bits_inj'. intros i Hi. unfold block_addr.
  rewrite !Z.land_spec, testbit_block_mask by lia. by rewrite <- andb_assoc, andb_diag.
Qed.
