(* ===== verification/StoreBuffer.v ===== *)
(** The store buffer shared by the threads (cpu/o3/lsq.hh, cpu/o3/lsq.cc) and the
    insertion of a committed store (cpu/o3/lsq_unit.cc, [insertStoreBuffer]).

    The entries are allocated once and live in [data_vec]; a pointer to an entry is
    its position there.  [data_map] is the hash map from [block_paddr | tid] to the
    entry of a block, an iterator kept in [crossRef] is the key it stands for.
    While the write of an entry is on its way to the cache, younger stores to the
    block gather in a second entry, the [vice] of the first.  Statistics and debug
    output are left out. *)
From stdpp Require Import gmap.
From S2P Require Import Prelude CircularBuffer Bytes.

(** [LSQ::SbufferRequest]: the write of a block.  [sr_data] is the entry whose
    [blockDatas] the packet points to: the data is not copied. *)
Record SbufferRequest := SbReq {
  sr_port : Z;                       (** [_port.lsqID] *)
  sr_paddr : Z;
  sr_data : nat;
  sr_byteEnable : list bool;
  sr_entry : nat;                    (** [sbuffer_entry] *)
  sr_outstanding : Z                 (** [_numOutstandingPackets] *)
}.

(** [LSQ::StoreBufferEntry]. *)
Record StoreBufferEntry := SBEntry {
  sbe_index : nat;
  sbe_tid : Z;
  sbe_blockVaddr : Z;
  sbe_blockPaddr : Z;
  sbe_blockDatas : list Z;
  sbe_validMask : list bool;
  sbe_sending : bool;
  sbe_vice : option nat;
  sbe_request : option SbufferRequest
}.

(** The constructor; the members without an initialiser are written by [sbe_reset]
    before they are read. *)
Definition sbe_new (size index : nat) : StoreBufferEntry :=
  SBEntry index 0 0 0 (replicate size 0%Z) (replicate size false) false None None.

(** [StoreBufferEntry::reset]. *)
Definition sbe_reset (e : StoreBufferEntry) (tid block_vaddr block_paddr : Z) (offset : nat)
    (datas : list Z) (size : nat) (mask : list bool) : res StoreBufferEntry :=
  let! vm := fill_range (sbe_validMask e) 0 offset false in
  let! vm := copy_range vm mask offset size in
  let! vm := fill_range vm (offset + size) (length vm) false in
  let! bd := copy_range (sbe_blockDatas e) datas offset size in
  Ok (SBEntry (sbe_index e) tid block_vaddr block_paddr bd vm false None None).

Definition sbe_set_bytes (e : StoreBufferEntry) (bd : list Z) (vm : list bool) :=
  SBEntry (sbe_index e) (sbe_tid e) (sbe_blockVaddr e) (sbe_blockPaddr e) bd vm
    (sbe_sending e) (sbe_vice e) (sbe_request e).
Definition sbe_set_vice (e : StoreBufferEntry) (v : option nat) :=
  SBEntry (sbe_index e) (sbe_tid e) (sbe_blockVaddr e) (sbe_blockPaddr e) (sbe_blockDatas e)
    (sbe_validMask e) (sbe_sending e) v (sbe_request e).
Definition sbe_set_send (e : StoreBufferEntry) (sending : bool) (r : option SbufferRequest) :=
  SBEntry (sbe_index e) (sbe_tid e) (sbe_blockVaddr e) (sbe_blockPaddr e) (sbe_blockDatas e)
    (sbe_validMask e) sending (sbe_vice e) r.

(** [StoreBufferEntry::merge]. *)
Definition sbe_merge (e : StoreBufferEntry) (offset : nat) (datas : list Z) (size : nat)
    (mask : list bool) : res StoreBufferEntry :=
  do! assert_ (offset + size <=? length (sbe_validMask e))%nat
        "offset + size <= validMask.size()" in
  let! bd := copy_masked (sbe_blockDatas e) datas mask offset size in
  let! vm := copy_masked (sbe_validMask e) (replicate size true) mask offset size in
  Ok (sbe_set_bytes e bd vm).

(** ** The buffer *)

(** [hashKey]. *)
Definition hashKey (tid block_paddr : Z) : Z := Z.lor block_paddr tid.

Section StoreBuffer.

Context {C : Type} `{CircularBuffer C nat}.

(** [LSQ::StoreBuffer]. *)
Record StoreBuffer := SB {
  sb_size : Z;                       (** [_size] *)
  data_map : gmap Z nat;
  crossRef : list (option Z);
  lru_index : C;
  free_list : C;
  data_vec : list StoreBufferEntry;
  data_vld : list bool
}.

(** [setData], on the entries that the constructor of [LSQ] allocates. *)
Definition setData (vec : list StoreBufferEntry) : StoreBuffer :=
  let way := length vec in
  SB 0 ∅ (replicate way None) (cb_new way) (cb_push_all (cb_new way) (seq 0 way)) vec
    (replicate way false).

Definition sb_full (sb : StoreBuffer) : bool := (length (cb_elems (free_list sb)) =? 0)%nat.
Definition unsentSize (sb : StoreBuffer) : Z := Z.of_nat (length (cb_elems (lru_index sb))).

Definition with_entry (sb : StoreBuffer) (p : nat) (e : StoreBufferEntry) : res StoreBuffer :=
  let! vec := upd_res (data_vec sb) p e in
  Ok (SB (sb_size sb) (data_map sb) (crossRef sb) (lru_index sb) (free_list sb) vec (data_vld sb)).

(** [getEmpty]. *)
Definition getEmpty (sb : StoreBuffer) : res (StoreBuffer * nat) :=
  do! assert_ (negb (sb_full sb)) "!full()" in
  let! index := get_at (last (cb_elems (free_list sb))) "free_list.back()" in
  do! at_res (data_vec sb) index in
  Ok (SB (sb_size sb) (data_map sb) (crossRef sb) (lru_index sb) (cb_pop_back (free_list sb))
        (data_vec sb) (data_vld sb), index).

(** [std::unordered_map::insert]: no effect on a key that is present. *)
Definition map_insert (m : gmap Z nat) (k : Z) (p : nat) : gmap Z nat :=
  match m !! k with Some _ => m | None => <[k := p]> m end.

(** [insert]. *)
Definition sb_insert (sb : StoreBuffer) (p : nat) : res StoreBuffer :=
  let! e := at_res (data_vec sb) p in
  let index := sbe_index e in
  do! assert_ (sb_size sb <? Z.of_nat (length (data_vec sb)))%Z "_size < data_vec.size()" in
  let! v := at_res (data_vld sb) index in
  do! assert_ (negb v) "!data_vld[index]" in
  do! assert_ (negb (cb_full (lru_index sb))) "!lru_index.full()" in
  let k := hashKey (sbe_tid e) (sbe_blockPaddr e) in
  do! at_res (data_vec sb) index in
  let! cr := upd_res (crossRef sb) index (Some k) in
  let! vld := upd_res (data_vld sb) index true in
  Ok (SB (sb_size sb + 1) (map_insert (data_map sb) k index) cr
        (cb_push_front (lru_index sb) index) (free_list sb) (data_vec sb) vld).

(** [get]. *)
Definition sb_get (sb : StoreBuffer) (tid addr : Z) : res (option nat) :=
  match data_map sb !! hashKey tid addr with
  | None => Ok None
  | Some p =>
      let! e := at_res (data_vec sb) p in
      if negb (sbe_tid e =? tid)%Z then Ok None
      else
        let! v := at_res (data_vld sb) (sbe_index e) in
        do! assert_ v "data_vld[iter->second->index]" in
        Ok (Some p)
  end.

(** [std::find] on the circular buffer. *)
Definition find_index (c : C) (x : nat) : option nat :=
  fst <$> list_find (λ y, y = x) (cb_elems c).

(** [update]. *)
Definition sb_update (sb : StoreBuffer) (index : nat) : res StoreBuffer :=
  let! i := get_at (find_index (lru_index sb) index)
              "std::find(lru_index.begin(), lru_index.end(), index) != lru_index.end()" in
  let lru := cb_push_front (cb_erase (lru_index sb) i (S i)) index in
  Ok (SB (sb_size sb) (data_map sb) (crossRef sb) lru (free_list sb) (data_vec sb) (data_vld sb)).

(** [getEvict]. *)
Definition getEvict (sb : StoreBuffer) : res (StoreBuffer * nat) :=
  do! assert_ (0 <? unsentSize sb)%Z "lru_index.size() > 0" in
  let! index := get_at (last (cb_elems (lru_index sb))) "lru_index.back()" in
  let! v := at_res (data_vld sb) index in
  do! assert_ v "data_vld[index]" in
  do! at_res (data_vec sb) index in
  Ok (SB (sb_size sb) (data_map sb) (crossRef sb) (cb_pop_back (lru_index sb)) (free_list sb)
        (data_vec sb) (data_vld sb), index).

(** [createVice]. *)
Definition createVice (sb : StoreBuffer) (p : nat) : res (StoreBuffer * nat) :=
  let sb := SB (sb_size sb + 1) (data_map sb) (crossRef sb) (lru_index sb) (free_list sb)
              (data_vec sb) (data_vld sb) in
  let! r := getEmpty sb in
  let sb := fst r in
  let vice := snd r in
  let! e := at_res (data_vec sb) p in
  do! assert_ (bool_decide (sbe_vice e = None)) "!entry->vice" in
  let! sb := with_entry sb p (sbe_set_vice e (Some vice)) in
  let! ev := at_res (data_vec sb) vice in
  let! vld := upd_res (data_vld sb) (sbe_index ev) true in
  Ok (SB (sb_size sb) (data_map sb) (crossRef sb) (lru_index sb) (free_list sb) (data_vec sb) vld,
      vice).

(** [data_map.erase(crossRef[index])]: the iterator has to be valid. *)
Definition erase_iter (m : gmap Z nat) (it : option Z) : res (gmap Z nat) :=
  match it with
  | Some k => match m !! k with Some _ => Ok (delete k m) | None => ub end
  | None => ub
  end.

(** [release]. *)
Definition sb_release (sb : StoreBuffer) (p : nat) : res StoreBuffer :=
  do! assert_ (0 <? sb_size sb)%Z "_size > 0" in
  let! e := at_res (data_vec sb) p in
  let index := sbe_index e in
  let! vld := upd_res (data_vld sb) index false in
  let! it := at_res (crossRef sb) index in
  let! m := erase_iter (data_map sb) it in
  do! assert_ (bool_decide (find_index (free_list sb) index = None))
        "std::find(free_list.begin(), free_list.end(), index) == free_list.end()" in
  let sb := SB (sb_size sb - 1) m (crossRef sb) (lru_index sb) (cb_push_back (free_list sb) index)
              (data_vec sb) vld in
  match sbe_vice e with
  | None => Ok sb
  | Some vice =>
      let! ev := at_res (data_vec sb) vice in
      let! v := at_res (data_vld sb) (sbe_index ev) in
      do! assert_ v "data_vld[vice->index]" in
      let k := hashKey (sbe_tid ev) (sbe_blockPaddr ev) in
      let! cr := upd_res (crossRef sb) (sbe_index ev) (Some k) in
      Ok (SB (sb_size sb) (map_insert (data_map sb) k vice) cr
            (cb_push_front (lru_index sb) (sbe_index ev)) (free_list sb) (data_vec sb) (data_vld sb))
  end.

(** ** Insertion of a store *)

(** [LSQUnit::insertStoreBuffer] of the thread [lsqID], for cache lines of [2 ^ k]
    bytes; the flag says whether the buffer took the store. *)
Definition insertStoreBuffer (k lsqID : Z) (sb : StoreBuffer) (vaddr paddr : Z) (datas : list Z)
    (size : nat) (mask : list bool) : res (StoreBuffer * bool) :=
  do! assert_ (block_addr k vaddr =? block_addr k (u64 (vaddr + Z.of_nat size - 1)))%Z
        "access range must in a cache block" in
  let blockVaddr := block_addr k vaddr in
  let blockPaddr := block_addr k paddr in
  let offset := Z.to_nat (block_off k paddr) in
  let! found := sb_get sb lsqID blockPaddr in
  match found with
  | Some p =>
      let! e := at_res (data_vec sb) p in
      if sbe_sending e then
        match sbe_vice e with
        | Some v =>
            let! ev := at_res (data_vec sb) v in
            let! ev := sbe_merge ev offset datas size mask in
            let! sb := with_entry sb v ev in
            Ok (sb, true)
        | None =>
            if sb_full sb then Ok (sb, false)
            else
              let! r := createVice sb p in
              let sb := fst r in
              let! ev := at_res (data_vec sb) (snd r) in
              let! ev := sbe_reset ev lsqID blockVaddr blockPaddr offset datas size mask in
              let! sb := with_entry sb (snd r) ev in
              Ok (sb, true)
        end
      else
        let! sb := sb_update sb (sbe_index e) in
        let! e := at_res (data_vec sb) p in
        let! e := sbe_merge e offset datas size mask in
        let! sb := with_entry sb p e in
        Ok (sb, true)
  | None =>
      if sb_full sb then Ok (sb, false)
      else
        let! r := getEmpty sb in
        let sb := fst r in
        let! e := at_res (data_vec sb) (snd r) in
        let! e := sbe_reset e lsqID blockVaddr blockPaddr offset datas size mask in
        let! sb := with_entry sb (snd r) e in
        let! sb := sb_insert sb (snd r) in
        Ok (sb, true)
  end.

End StoreBuffer.

Arguments StoreBuffer : clear implicits.

(** ** Forwarding to a load *)

(** [LSQRequest::FWDPacket]. *)
Record FWDPacket := FWD { fwd_idx : Z; fwd_byte : Z }.

(** [StoreBufferEntry::recordForward] for the part of a load of [lsize] bytes at
    [lvaddr] that starts at [vaddr], [paddr] and is [size] bytes long: the forwarded
    bytes, and whether they are all of them. *)
Definition recordForward {C} (sb : StoreBuffer C) (p : nat) (lvaddr : Z) (lsize : nat)
    (vaddr paddr : Z) (size : nat) : res (list FWDPacket * bool) :=
  let! e := at_res (data_vec sb) p in
  let offset := Z.to_nat (Z.land paddr (Z.of_nat (length (sbe_validMask e)) - 1)) in
  let goffset := (vaddr - lvaddr)%Z in
  do! assert_ (negb (0 <? goffset)%Z || (offset =? 0)%nat) "offset == 0" in
  res_fold (λ (st : list FWDPacket * bool) i,
    do! assert_ (goffset + Z.of_nat i <? Z.of_nat lsize)%Z "goffset + i < lsqreq->_size" in
    let! from_vice :=
      match sbe_vice e with
      | None => Ok None
      | Some v =>
          let! ev := at_res (data_vec sb) v in
          let! b := at_res (sbe_validMask ev) (offset + i) in
          if b : bool then
            do! assert_ (sbe_blockVaddr ev =? sbe_blockVaddr e)%Z
                  "vice->blockVaddr == blockVaddr" in
            let! x := at_res (sbe_blockDatas ev) (offset + i) in
            Ok (Some x)
          else Ok None
      end in
    match from_vice with
    | Some x => Ok (fst st ++ [FWD (goffset + Z.of_nat i) x], snd st)
    | None =>
        let! b := at_res (sbe_validMask e) (offset + i) in
        if b : bool then
          let! x := at_res (sbe_blockDatas e) (offset + i) in
          Ok (fst st ++ [FWD (goffset + Z.of_nat i) x], snd st)
        else Ok (fst st, false)
    end) ([], true) (seq 0 size).

(** [_inst->memData[p.idx] = p.byte], for every packet: the loops of
    [LSQRequest::forward]. *)
Definition forward_packets (memData : list Z) (ps : list FWDPacket) : res (list Z) :=
  res_fold (λ d p, set_nth d (fwd_idx p) (fwd_byte p)) memData ps.
