(* ===== verification/StoreBufferInv.v ===== *)
(** The invariant of the store buffer and its preservation by the steps the code
    composes.

    [sb_inv k blocked sb] says which entries are free, which are in the map, which
    are the vice of an entry under way, and how the [lru_index], the requests and the
    blocked entry of [LSQ] fit them.  One lemma per kind of step. *)
From stdpp Require Import gmap.
From S2P Require Import Prelude CircularBuffer Bytes StoreBuffer.

(** ** Keys *)

Lemma testbit_hashKey k tid b i :
  (0 ≤ k ≤ 64)%Z → in_u k tid → in_u 64 b → block_addr k b = b → (0 ≤ i)%Z →
  Z.testbit (hashKey tid b) i = if (i <? k)%Z then Z.testbit tid i else Z.testbit b i.
Proof.
  intros Hk Ht Hb Hal Hi. unfold hashKey. rewrite Z.lor_spec.
  destruct (Z.ltb_spec i k).
  - rewrite <- Hal. unfold block_addr. rewrite Z.land_spec, testbit_block_mask by lia.
    rewrite (proj2 (Z.leb_gt k i)) by lia. by rewrite andb_false_r.
  - by rewrite (testbit_above k tid i), orb_false_r by (done || lia).
Qed.

Lemma hashKey_inj k t b t' b' :
  (0 ≤ k ≤ 64)%Z → in_u k t → in_u k t' → in_u 64 b → in_u 64 b' →
  block_addr k b = b → block_addr k b' = b' →
  hashKey t b = hashKey t' b' → t = t' ∧ b = b'.
Proof.
  intros Hk Ht Ht' Hb Hb' Hal Hal' E. split; apply Z.bits_inj'; intros i Hi.
  - destruct (Z.ltb_spec i k).
    + pose proof (f_equal (λ z, Z.testbit z i) E) as Ei. simpl in Ei.
      rewrite !(testbit_hashKey k) in Ei by done. by rewrite (proj2 (Z.ltb_lt i k)) in Ei.
    + by rewrite !(testbit_above k) by (done || lia).
  - destruct (Z.ltb_spec i k).
    + rewrite <- Hal, <- Hal'. unfold block_addr. rewrite !Z.land_spec, testbit_block_mask by lia.
      rewrite (proj2 (Z.leb_gt k i)) by lia. by rewrite !andb_false_r.
    + pose proof (f_equal (λ z, Z.testbit z i) E) as Ei. simpl in Ei.
      rewrite !(testbit_hashKey k) in Ei by done. by rewrite (proj2 (Z.ltb_ge i k)) in Ei.
Qed.

(** ** Bytes of an entry *)

(** The byte at offset [o], if the entry holds it. *)
Definition sbe_byte (e : StoreBufferEntry) (o : nat) : option Z :=
  match sbe_validMask e !! o, sbe_blockDatas e !! o with
  | Some true, Some b => Some b
  | _, _ => None
  end.

(** The byte a store of [size] bytes at offset [off] writes at offset [o]. *)
Definition store_byte (off : nat) (datas : list Z) (size : nat) (mask : list bool) (o : nat)
    : option Z :=
  if decide (off ≤ o < off + size ∧ mask !! (o - off) = Some true) then datas !! (o - off)
  else None.

Definition sbe_shape (k : Z) (e : StoreBufferEntry) : Prop :=
  length (sbe_blockDatas e) = Z.to_nat (2 ^ k) ∧ length (sbe_validMask e) = Z.to_nat (2 ^ k).

Lemma sbe_merge_spec k e off datas size mask :
  sbe_shape k e → off + size ≤ Z.to_nat (2 ^ k) → length datas = size → length mask = size →
  ∃ bd vm, sbe_merge e off datas size mask = Ok (sbe_set_bytes e bd vm) ∧
    sbe_shape k (sbe_set_bytes e bd vm) ∧
    ∀ o, sbe_byte (sbe_set_bytes e bd vm) o =
      match store_byte off datas size mask o with Some b => Some b | None => sbe_byte e o end.
Proof.
  intros [Hb Hv] Ho Hd Hm. unfold sbe_merge.
  rewrite (proj2 (Nat.leb_le _ _)) by lia. simpl.
  destruct (copy_masked_lookup (sbe_blockDatas e) datas mask off size) as (bd & -> & Lb & Eb);
    [lia..|]. simpl.
  destruct (copy_masked_lookup (sbe_validMask e) (replicate size true) mask off size)
    as (vm & -> & Lv & Ev); [rewrite ?length_replicate; lia..|]. simpl.
  exists bd, vm. split; [done|]. split; [by split; simpl; lia|].
  intros o. unfold sbe_byte, store_byte. simpl. rewrite Eb, Ev.
  destruct (decide _) as [[Hin Hmk]|]; [|done].
  rewrite lookup_replicate_2 by lia.
  by destruct (lookup_lt_is_Some_2 datas (o - off)) as [x ->]; [lia|].
Qed.

Lemma sbe_reset_spec k e tid bv bp off datas size mask :
  sbe_shape k e → off + size ≤ Z.to_nat (2 ^ k) → length datas = size → length mask = size →
  ∃ bd vm,
    sbe_reset e tid bv bp off datas size mask =
      Ok (SBEntry (sbe_index e) tid bv bp bd vm false None None) ∧
    sbe_shape k (SBEntry (sbe_index e) tid bv bp bd vm false None None) ∧
    ∀ o, sbe_byte (SBEntry (sbe_index e) tid bv bp bd vm false None None) o =
      store_byte off datas size mask o.
Proof.
  intros [Hb Hv] Ho Hd Hm. unfold sbe_reset.
  destruct (fill_range_lookup (sbe_validMask e) 0 off false) as (v1 & -> & L1 & E1); [lia|]. simpl.
  destruct (copy_range_lookup v1 mask off size) as (v2 & -> & L2 & E2); [lia..|]. simpl.
  destruct (fill_range_lookup v2 (off + size) (length v2) false) as (v3 & -> & L3 & E3);
    [lia|]. simpl.
  destruct (copy_range_lookup (sbe_blockDatas e) datas off size) as (bd & -> & Lb & Eb);
    [lia..|]. simpl.
  exists bd, v3. split; [done|]. split; [split; simpl; lia|].
  intros o. unfold sbe_byte, store_byte. simpl.
  rewrite E3, E2, E1, Eb. destruct (decide (off ≤ o < off + size)) as [Hin|Hout].
  - rewrite (decide_False (P := off + size ≤ o < length v2)) by lia.
    destruct (lookup_lt_is_Some_2 mask (o - off)) as [m Hmk]; [lia|].
    destruct (lookup_lt_is_Some_2 datas (o - off)) as [x Hx]; [lia|].
    rewrite Hmk, Hx. destruct m.
    + by rewrite decide_True by (split; done).
    + by rewrite decide_False by (intros [_ ?]; congruence).
  - rewrite (decide_False (P := (off ≤ o < off + size) ∧ _)) by tauto.
    destruct (decide (off + size ≤ o < length v2)); [done|].
    destruct (decide (0 ≤ o < off)); [done|].
    by rewrite (lookup_ge_None_2 (sbe_validMask e)) by lia.
Qed.

(** ** The invariant *)

Section Invariant.

Context {C : Type} `{CircularBufferLaws C nat}.

Implicit Types sb : StoreBuffer C.

(** An entry in use. *)
Definition live sb (i : nat) (e : StoreBufferEntry) : Prop :=
  data_vec sb !! i = Some e ∧ data_vld sb !! i = Some true.

Definition sbe_key (e : StoreBufferEntry) : Z := hashKey (sbe_tid e) (sbe_blockPaddr e).

(** An entry that [get] finds. *)
Definition mapped sb (i : nat) (e : StoreBufferEntry) : Prop := data_map sb !! sbe_key e = Some i.

(** The request of an entry: the bytes it holds, for its block. *)
Definition sbe_req (i : nat) (e : StoreBufferEntry) : SbufferRequest :=
  SbReq (sbe_tid e) (sbe_blockPaddr e) i (sbe_validMask e) i (if sbe_sending e then 1 else 0).

(** What the free list says of the entries. *)
Record sb_alloc (k : Z) sb : Prop := {
  sa_len : length (data_vld sb) = length (data_vec sb) ∧
           length (crossRef sb) = length (data_vec sb) ∧
           cb_capacity (lru_index sb) = length (data_vec sb) ∧
           cb_capacity (free_list sb) = length (data_vec sb);
  sa_entry i e : data_vec sb !! i = Some e → sbe_index e = i ∧ sbe_shape k e;
  sa_free_nodup : NoDup (cb_elems (free_list sb));
  sa_free i : i ∈ cb_elems (free_list sb) ↔ data_vld sb !! i = Some false;
  sa_size : (sb_size sb + Z.of_nat (length (cb_elems (free_list sb))) =
             Z.of_nat (length (data_vec sb)))%Z
}.

Record sb_inv (k : Z) (blocked : option nat) sb : Prop := {
  si_alloc : sb_alloc k sb;
  si_addr i e : live sb i e →
    in_u k (sbe_tid e) ∧ in_u 64 (sbe_blockPaddr e) ∧
    block_addr k (sbe_blockPaddr e) = sbe_blockPaddr e;
  si_map key p : data_map sb !! key = Some p →
    ∃ e, live sb p e ∧ key = sbe_key e ∧ crossRef sb !! p = Some (Some key);
  si_reach i e : live sb i e →
    mapped sb i e ∨ ∃ p ep, live sb p ep ∧ sbe_vice ep = Some i;
  si_vice p ep v : live sb p ep → sbe_vice ep = Some v →
    mapped sb p ep ∧ sbe_sending ep = true ∧ v ≠ p ∧
    ∃ ev, live sb v ev ∧ sbe_vice ev = None ∧ sbe_request ev = None ∧
          sbe_tid ev = sbe_tid ep ∧ sbe_blockPaddr ev = sbe_blockPaddr ep;
  si_lru_nodup : NoDup (cb_elems (lru_index sb));
  si_lru i : i ∈ cb_elems (lru_index sb) ↔
    ∃ e, live sb i e ∧ mapped sb i e ∧ sbe_request e = None;
  si_req i e : live sb i e →
    match sbe_request e with
    | None => sbe_sending e = false
    | Some r => mapped sb i e ∧ r = sbe_req i e
    end;
  si_blocked i : blocked = Some i ↔
    ∃ e, live sb i e ∧ sbe_request e ≠ None ∧ sbe_sending e = false
}.

Lemma live_fun sb i e e' : live sb i e → live sb i e' → e = e'.
Proof. intros [? _] [? _]. congruence. Qed.

(** A vice is not in the map, and it is the vice of one entry. *)
Lemma vice_not_mapped k b sb p ep v ev :
  sb_inv k b sb → live sb p ep → sbe_vice ep = Some v → live sb v ev → ¬ mapped sb v ev.
Proof.
  intros I Hp Hv Hl Hm. destruct (si_vice _ _ _ I _ _ _ Hp Hv)
    as (Hpm & _ & Hne & ev' & Hl' & _ & _ & Ht & Ha).
  rewrite (live_fun _ _ _ _ Hl' Hl) in *.
  unfold mapped, sbe_key in *. rewrite Ht, Ha in Hm. congruence.
Qed.

Lemma vice_unique k b sb p ep q eq v :
  sb_inv k b sb → live sb p ep → sbe_vice ep = Some v → live sb q eq → sbe_vice eq = Some v →
  p = q.
Proof.
  intros I Hp Hv Hq Hw.
  destruct (si_vice _ _ _ I _ _ _ Hp Hv) as (Hpm & _ & _ & e1 & L1 & _ & _ & T1 & A1).
  destruct (si_vice _ _ _ I _ _ _ Hq Hw) as (Hqm & _ & _ & e2 & L2 & _ & _ & T2 & A2).
  pose proof (live_fun _ _ _ _ L1 L2) as ->.
  unfold mapped, sbe_key in *. rewrite <- T1, <- A1 in Hpm. rewrite <- T2, <- A2 in Hqm. congruence.
Qed.

(** The lists of indices never overflow. *)
Lemma nodup_bound (l : list nat) n : NoDup l → (∀ i, i ∈ l → i < n) → length l ≤ n.
Proof.
  intros Hn Hl. rewrite <- (length_seq n 0). apply submseteq_length, NoDup_submseteq; [done|].
  intros x Hx%Hl. apply elem_of_seq. lia.
Qed.

Lemma slot_live_lt sb i e : live sb i e → i < length (data_vec sb).
Proof. intros [Hi _]. by eapply lookup_lt_Some. Qed.

Lemma lru_room k b sb i e :
  sb_inv k b sb → live sb i e → i ∉ cb_elems (lru_index sb) →
  length (cb_elems (lru_index sb)) < cb_capacity (lru_index sb).
Proof.
  intros I Hl Hi. destruct (sa_len _ _ (si_alloc _ _ _ I)) as (_ & _ & -> & _).
  assert (length (i :: cb_elems (lru_index sb)) ≤ length (data_vec sb)); [|done].
  apply nodup_bound.
  - apply NoDup_cons. split; [done|apply (si_lru_nodup _ _ _ I)].
  - intros j [->|Hj]%elem_of_cons; [by eapply slot_live_lt|].
    apply (si_lru _ _ _ I) in Hj as (e' & Hj & _). by eapply slot_live_lt.
Qed.

Lemma free_room k b sb i e :
  sb_inv k b sb → live sb i e → length (cb_elems (free_list sb)) < cb_capacity (free_list sb).
Proof.
  intros I Hl. destruct (sa_len _ _ (si_alloc _ _ _ I)) as (Lv & _ & _ & ->).
  assert (length (i :: cb_elems (free_list sb)) ≤ length (data_vec sb)); [|done].
  apply nodup_bound.
  - apply NoDup_cons. split; [|apply (sa_free_nodup _ _ (si_alloc _ _ _ I))].
    rewrite (sa_free _ _ (si_alloc _ _ _ I)). destruct Hl as [_ ->]. done.
  - intros j [->|Hj]%elem_of_cons; [by eapply slot_live_lt|].
    apply (sa_free _ _ (si_alloc _ _ _ I)) in Hj. rewrite <- Lv. by eapply lookup_lt_Some.
Qed.

(** ** Steps *)

(** The live entries after one entry is overwritten. *)
Lemma live_upd sb sb' p e' :
  data_vec sb' = <[p := e']> (data_vec sb) → p < length (data_vec sb) →
  data_vld sb' !! p = Some true → (∀ i, i ≠ p → data_vld sb' !! i = data_vld sb !! i) →
  ∀ i x, live sb' i x ↔ (i = p ∧ x = e') ∨ (i ≠ p ∧ live sb i x).
Proof.
  intros Ev Hp Hv Hi i x. unfold live. rewrite Ev. destruct (decide (i = p)) as [->|Hne].
  - rewrite list_lookup_insert_eq by done. naive_solver.
  - rewrite list_lookup_insert_ne, Hi by done. naive_solver.
Qed.

(** Overwriting an entry keeps the allocation. *)
Lemma alloc_upd k sb sb' p e :
  sb_alloc k sb → data_vec sb' = <[p := e]> (data_vec sb) → sbe_index e = p → sbe_shape k e →
  data_vld sb' = data_vld sb → length (crossRef sb') = length (crossRef sb) →
  cb_capacity (lru_index sb') = cb_capacity (lru_index sb) → free_list sb' = free_list sb →
  sb_size sb' = sb_size sb → sb_alloc k sb'.
Proof.
  intros A Ev Ei Esh Evld Ecr Elru Ef Es. destruct (sa_len _ _ A) as (? & ? & ? & ?). split.
  - rewrite Ev, Evld, Ecr, Elru, Ef, length_insert. done.
  - rewrite Ev. intros i x [(-> & -> & _)|[_ Hx]]%list_lookup_insert_Some; [done|]. by apply (sa_entry _ _ A).
  - rewrite Ef. apply (sa_free_nodup _ _ A).
  - rewrite Ef, Evld. apply (sa_free _ _ A).
  - rewrite Es, Ef, Ev, length_insert. apply (sa_size _ _ A).
Qed.

(** Taking the last free entry. *)
Lemma alloc_take k sb sb' f v x :
  sb_alloc k sb → cb_elems (free_list sb) = f ++ [v] →
  free_list sb' = cb_pop_back (free_list sb) → data_vld sb' = <[v := true]> (data_vld sb) →
  data_vec sb' = <[v := x]> (data_vec sb) → sbe_index x = v → sbe_shape k x →
  length (crossRef sb') = length (crossRef sb) →
  cb_capacity (lru_index sb') = cb_capacity (lru_index sb) →
  sb_size sb' = (sb_size sb + 1)%Z →
  sb_alloc k sb'.
Proof.
  intros A Hf Ef Evld Ev Ei Esh Ecr Elru Es. destruct (sa_len _ _ A) as (Lv & ? & ? & ?).
  assert (cb_elems (free_list sb') = f) as Hf' by (rewrite Ef; by eapply cb_elems_pop_back).
  pose proof (sa_free_nodup _ _ A) as Hnd. rewrite Hf in Hnd. apply NoDup_app in Hnd as (Hnd & Hd & _).
  assert (data_vld sb !! v = Some false) as Hvf by (apply (sa_free _ _ A); rewrite Hf; set_solver).
  assert (v < length (data_vld sb)) as Hvn by (by eapply lookup_lt_Some).
  split.
  - rewrite Ev, Evld, Ecr, Elru, Ef, !length_insert, cb_cap_pop_back. done.
  - rewrite Ev. intros i y [(-> & -> & _)|[_ Hx]]%list_lookup_insert_Some; [done|]. by apply (sa_entry _ _ A).
  - by rewrite Hf'.
  - intros i. rewrite Hf', Evld. destruct (decide (i = v)) as [->|Hne].
    + rewrite list_lookup_insert_eq by lia. split; [|done]. intros Hi. set_solver.
    + rewrite list_lookup_insert_ne, <- (sa_free _ _ A), Hf by done. set_solver.
  - rewrite Es, Hf', Ev, length_insert. pose proof (sa_size _ _ A) as Hsz.
    rewrite Hf, length_app in Hsz. simpl in Hsz. lia.
Qed.

(** Merging bytes into an entry that is not under way, and moving indices within
    the replacement order. *)
Lemma inv_set_bytes k b sb p e bd vm lru :
  sb_inv k b sb → live sb p e → sbe_request e = None → sbe_shape k (sbe_set_bytes e bd vm) →
  cb_elems lru ≡ₚ cb_elems (lru_index sb) → cb_capacity lru = cb_capacity (lru_index sb) →
  sb_inv k b (SB (sb_size sb) (data_map sb) (crossRef sb) lru (free_list sb)
                (<[p := sbe_set_bytes e bd vm]> (data_vec sb)) (data_vld sb)).
Proof.
  intros I Hl Hr Hsh Hlru Hcap. set (sb' := SB _ _ _ _ _ _ _).
  assert (∀ i x, live sb' i x ↔ (i = p ∧ x = sbe_set_bytes e bd vm) ∨ (i ≠ p ∧ live sb i x)) as HL.
  { apply live_upd; [done|by eapply slot_live_lt|by destruct Hl|done]. }
  assert (∀ i x, live sb' i x → ∃ y, live sb i y ∧ sbe_index y = sbe_index x ∧
    sbe_tid y = sbe_tid x ∧ sbe_blockPaddr y = sbe_blockPaddr x ∧ sbe_sending y = sbe_sending x ∧
    sbe_vice y = sbe_vice x ∧ sbe_request y = sbe_request x ∧
    (sbe_request x ≠ None → y = x)) as Hback.
  { intros i x [[-> ->]|[_ ?]]%HL; [exists e|exists x]; naive_solver. }
  assert (∀ i x, live sb i x → ∃ y, live sb' i y ∧ sbe_index y = sbe_index x ∧
    sbe_tid y = sbe_tid x ∧ sbe_blockPaddr y = sbe_blockPaddr x ∧ sbe_sending y = sbe_sending x ∧
    sbe_vice y = sbe_vice x ∧ sbe_request y = sbe_request x) as Hforth.
  { intros i x Hx. destruct (decide (i = p)) as [->|Hne].
    - pose proof (live_fun _ _ _ _ Hx Hl) as ->. eexists. split; [apply HL; by left|done].
    - exists x. split; [apply HL; by right|done]. }
  assert (∀ i x y, sbe_tid y = sbe_tid x → sbe_blockPaddr y = sbe_blockPaddr x →
    mapped sb' i x ↔ mapped sb i y) as HM.
  { intros i x y ET EA. unfold mapped, sbe_key. by rewrite ET, EA. }
  destruct (sa_entry _ _ (si_alloc _ _ _ I) p e) as [Ep _]; [by destruct Hl|].
  split; simpl.
  - by apply (alloc_upd k sb sb' p (sbe_set_bytes e bd vm)); [apply I|..].
  - intros i x (y & Hy & _ & <- & <- & _)%Hback. by eapply (si_addr _ _ _ I).
  - intros key q (x & Hx & -> & Hc)%(si_map _ _ _ I). apply Hforth in Hx as (y & Hy & _ & T & A & _).
    exists y. unfold sbe_key in *. rewrite T, A. done.
  - intros i x (y & Hy & _ & T & A & _)%Hback. destruct (si_reach _ _ _ I _ _ Hy) as [Hm|(q & z & Hz & Hv)].
    + left. by apply (HM i x y).
    + right. apply Hforth in Hz as (w & Hw & _ & _ & _ & _ & Ev & _). exists q, w. split; [done|congruence].
  - intros q x v (y & Hy & _ & T & A & S & V & _)%Hback Hv. rewrite <- V in Hv.
    destruct (si_vice _ _ _ I _ _ _ Hy Hv) as (Hm & Hs & Hne & z & Hz & V0 & R0 & T0 & A0).
    apply Hforth in Hz as (w & Hw & _ & T1 & A1 & _ & V1 & R1).
    split_and!; [by apply (HM q x y)|congruence|done|]. exists w. split_and!; congruence.
  - rewrite Hlru. apply (si_lru_nodup _ _ _ I).
  - intros i. rewrite Hlru, (si_lru _ _ _ I). split.
    + intros (x & Hx & Hm & R). apply Hforth in Hx as (y & Hy & _ & T & A & _ & _ & R').
      exists y. split_and!; [done|by apply (HM i y x)|congruence].
    + intros (x & Hx & Hm & R). apply Hback in Hx as (y & Hy & _ & T & A & _ & _ & R' & _).
      exists y. split_and!; [done|by apply (HM i x y)|congruence].
  - intros i x Hx. destruct (Hback _ _ Hx) as (y & Hy & _ & T & A & S & _ & R & Heq).
    pose proof (si_req _ _ _ I _ _ Hy) as Hreq. rewrite R in Hreq.
    destruct (sbe_request x) as [r|] eqn:Er; [|congruence].
    rewrite (Heq ltac:(done)) in Hreq. by split; [apply (HM i x x); tauto|tauto].
  - intros i. rewrite (si_blocked _ _ _ I). split.
    + intros (x & Hx & R & S). apply Hforth in Hx as (y & Hy & _ & _ & _ & S' & _ & R').
      exists y. rewrite S', R'. done.
    + intros (x & Hx & R & S). apply Hback in Hx as (y & Hy & _ & _ & _ & S' & _ & R' & _).
      exists y. rewrite S', R'. done.
Qed.

(** Giving an entry its request, sent or not, and sending a blocked entry. *)
Lemma inv_send k b sb p e (s : bool) (lru : C) :
  sb_inv k b sb → live sb p e → mapped sb p e → sbe_sending e = false → sbe_vice e = None →
  (b = None ∨ b = Some p) →
  NoDup (cb_elems lru) → (∀ i, i ∈ cb_elems lru ↔ i ∈ cb_elems (lru_index sb) ∧ i ≠ p) →
  cb_capacity lru = cb_capacity (lru_index sb) →
  sb_inv k (if s then None else Some p)
    (SB (sb_size sb) (data_map sb) (crossRef sb) lru (free_list sb)
       (<[p := sbe_set_send e s (Some (sbe_req p (sbe_set_send e s None)))]> (data_vec sb))
       (data_vld sb)).
Proof.
  intros I Hl Hm Hs Hv Hb Hnd Hlru Hcap. set (e' := sbe_set_send e s _). set (sb' := SB _ _ _ _ _ _ _).
  assert (∀ i x, live sb' i x ↔ (i = p ∧ x = e') ∨ (i ≠ p ∧ live sb i x)) as HL.
  { apply live_upd; [done|by eapply slot_live_lt|by destruct Hl|done]. }
  assert (∀ i x, mapped sb' i x ↔ mapped sb i x) as HM by done.
  assert (∀ q x, live sb q x → sbe_vice x ≠ None → q ≠ p) as Hvice.
  { intros q x Hx Hne ->. by rewrite (live_fun _ _ _ _ Hx Hl) in Hne. }
  assert (∀ q x v, live sb q x → sbe_vice x = Some v → v ≠ p) as Hnv.
  { intros q x v Hx E ->. by destruct (vice_not_mapped _ _ _ _ _ _ _ I Hx E Hl). }
  destruct (sa_entry _ _ (si_alloc _ _ _ I) p e) as [Ep Esh]; [by destruct Hl|].
  split; simpl.
  - by apply (alloc_upd k sb sb' p e'); [apply I|..].
  - intros i x [[-> ->]|[_ Hx]]%HL; [by apply (si_addr _ _ _ I p e)|by eapply (si_addr _ _ _ I)].
  - intros key q (x & Hx & -> & Hc)%(si_map _ _ _ I). destruct (decide (q = p)) as [->|Hne].
    + pose proof (live_fun _ _ _ _ Hx Hl) as ->. exists e'. split; [apply HL; by left|done].
    + exists x. split; [apply HL; by right|done].
  - intros i x [[-> ->]|[Hne Hx]]%HL; [by left|].
    destruct (si_reach _ _ _ I _ _ Hx) as [?|(q & z & Hz & E)]; [by left|]. right. exists q, z.
    split; [|done]. apply HL. right. split; [apply (Hvice _ _ Hz); congruence|done].
  - intros q x v [[-> ->]|[Hne Hx]]%HL E; [unfold e' in E; simpl in E; congruence|].
    destruct (si_vice _ _ _ I _ _ _ Hx E) as (? & ? & ? & z & Hz & ?).
    split_and!; [done..|]. exists z. split; [|done]. apply HL. right. split; [apply (Hnv _ _ _ Hx E)|done].
  - done.
  - intros i. rewrite Hlru, (si_lru _ _ _ I). split.
    + intros [(x & Hx & ? & ?) Hne]. exists x. split; [apply HL; by right|done].
    + intros (x & [[-> ->]|[Hne Hx]]%HL & ? & ?); [done|]. split; [by exists x|done].
  - intros i x [[-> ->]|[Hne Hx]]%HL; [done|]. apply (si_req _ _ _ I _ _ Hx).
  - intros i. split.
    + destruct s; [done|]. intros [= <-]. exists e'. split; [apply HL; by left|done].
    + intros (x & [[-> ->]|[Hne Hx]]%HL & R & S); [by destruct s|].
      assert (b = Some i) by (apply (si_blocked _ _ _ I); eauto). destruct Hb; congruence.
Qed.

(** The last free index. *)
Lemma free_last sb : sb_full sb = false → ∃ f v, cb_elems (free_list sb) = f ++ [v].
Proof.
  unfold sb_full. intros Hf%Nat.eqb_neq. destruct (cb_elems (free_list sb)) as [|x l _] using rev_ind;
    [done|]. by exists l, x.
Qed.

(** Creating the vice of an entry under way. *)
Lemma inv_vice k b sb p e f v (x : StoreBufferEntry) :
  sb_inv k b sb → live sb p e → mapped sb p e → sbe_sending e = true → sbe_vice e = None →
  cb_elems (free_list sb) = f ++ [v] →
  sbe_index x = v → sbe_shape k x → sbe_tid x = sbe_tid e → sbe_blockPaddr x = sbe_blockPaddr e →
  sbe_sending x = false → sbe_vice x = None → sbe_request x = None →
  sb_inv k b
    (SB (sb_size sb + 1) (data_map sb) (crossRef sb) (lru_index sb) (cb_pop_back (free_list sb))
       (<[v := x]> (<[p := sbe_set_vice e (Some v)]> (data_vec sb))) (<[v := true]> (data_vld sb))).
Proof.
  intros I Hl Hm Hs Hv Hf Xi Xsh Xt Xa Xs Xv Xr.
  set (e' := sbe_set_vice e (Some v)). set (sb' := SB _ _ _ _ _ _ _).
  assert (data_vld sb !! v = Some false) as Hvf.
  { apply (sa_free _ _ (si_alloc _ _ _ I)). rewrite Hf. set_solver. }
  assert (v ≠ p) as Hvp by (intros ->; destruct Hl; congruence).
  destruct (sa_len _ _ (si_alloc _ _ _ I)) as (Lv & _).
  assert (v < length (data_vec sb)) as Hvn by (rewrite <- Lv; by eapply lookup_lt_Some).
  pose proof (slot_live_lt _ _ _ Hl) as Hpn.
  assert (∀ i y, live sb i y → i ≠ v) as Hlv by (intros i y [_ Hy] ->; congruence).
  assert (∀ i y, live sb' i y ↔
    (i = v ∧ y = x) ∨ (i = p ∧ y = e') ∨ (i ≠ v ∧ i ≠ p ∧ live sb i y)) as HL.
  { intros i y. unfold live. simpl. destruct (decide (i = v)) as [->|Hne].
    - rewrite !list_lookup_insert_eq by (rewrite ?length_insert; lia). naive_solver.
    - rewrite !(list_lookup_insert_ne _ v i) by done. destruct (decide (i = p)) as [->|Hne'].
      + rewrite list_lookup_insert_eq by lia. destruct Hl. naive_solver.
      + rewrite list_lookup_insert_ne by done. naive_solver. }
  assert (∀ i y, live sb i y → ∃ y', live sb' i y' ∧ sbe_key y' = sbe_key y ∧
    sbe_request y' = sbe_request y ∧ sbe_sending y' = sbe_sending y ∧ sbe_tid y' = sbe_tid y ∧
    sbe_blockPaddr y' = sbe_blockPaddr y ∧ (i ≠ p → y' = y)) as Hforth.
  { intros i y Hy. pose proof (Hlv _ _ Hy). destruct (decide (i = p)) as [->|Hne].
    - pose proof (live_fun _ _ _ _ Hy Hl) as ->. exists e'. split; [apply HL; naive_solver|done].
    - exists y. split; [apply HL; naive_solver|done]. }
  assert (∀ i y, mapped sb' i y ↔ mapped sb i y) as HM by done.
  assert (∀ y, ¬ mapped sb v y) as Hnm.
  { intros y Hy. apply (si_map _ _ _ I) in Hy as (z & Hz & _). by apply Hlv in Hz. }
  destruct (sa_entry _ _ (si_alloc _ _ _ I) p e) as [Ep Esh]; [by destruct Hl|].
  split; simpl.
  - set (sb1 := SB (sb_size sb) (data_map sb) (crossRef sb) (lru_index sb) (free_list sb)
                  (<[p := e']> (data_vec sb)) (data_vld sb)).
    assert (sb_alloc k sb1) as A1 by (by apply (alloc_upd k sb sb1 p e'); [apply I|..]).
    by apply (alloc_take k sb1 sb' f v x).
  - intros i y [[-> ->]|[[-> ->]|(_ & _ & Hy)]]%HL.
    + rewrite Xt, Xa. by apply (si_addr _ _ _ I p e).
    + by apply (si_addr _ _ _ I p e).
    + by eapply (si_addr _ _ _ I).
  - intros key q (y & Hy & -> & Hc)%(si_map _ _ _ I).
    apply Hforth in Hy as (y' & Hy' & K & _). exists y'. by rewrite K.
  - intros i y [[-> ->]|[[-> ->]|(_ & Hne & Hy)]]%HL.
    + right. exists p, e'. split; [apply HL; naive_solver|done].
    + by left.
    + destruct (si_reach _ _ _ I _ _ Hy) as [?|(q & z & Hz & E)]; [by left|]. right. exists q, z.
      split; [|done]. apply HL. right; right. split_and!; [apply (Hlv _ _ Hz)| |done].
      intros ->. rewrite (live_fun _ _ _ _ Hz Hl) in E. congruence.
  - intros q y w [[-> ->]|[[-> ->]|(Hqv & Hqp & Hy)]]%HL E; [congruence| |].
    + injection E as <-. split_and!; [done..|]. exists x. split; [apply HL; naive_solver|done].
    + destruct (si_vice _ _ _ I _ _ _ Hy E) as (? & ? & ? & z & Hz & Vz & ?).
      assert (w ≠ p) by (intros ->; by destruct (vice_not_mapped _ _ _ _ _ _ _ I Hy E Hl)).
      split_and!; [done..|]. exists z. split; [|done]. apply HL. right; right.
      split_and!; [apply (Hlv _ _ Hz)|done|done].
  - apply (si_lru_nodup _ _ _ I).
  - intros i. rewrite (si_lru _ _ _ I). split.
    + intros (y & Hy & Hm' & R). apply Hforth in Hy as (y' & Hy' & K & R' & _).
      exists y'. unfold mapped in *. rewrite K, R'. done.
    + intros (y & [[-> ->]|[[-> ->]|(_ & _ & Hy)]]%HL & Hm' & R).
      * by apply Hnm in Hm'.
      * by exists e.
      * by exists y.
  - intros i y [[-> ->]|[[-> ->]|(_ & _ & Hy)]]%HL.
    + by rewrite Xr.
    + pose proof (si_req _ _ _ I _ _ Hl) as Hreq. simpl. destruct (sbe_request e); [|done].
      destruct Hreq as [_ ->]. done.
    + apply (si_req _ _ _ I _ _ Hy).
  - intros i. rewrite (si_blocked _ _ _ I). split.
    + intros (y & Hy & R & S). apply Hforth in Hy as (y' & Hy' & _ & R' & S' & _).
      exists y'. rewrite R', S'. done.
    + intros (y & [[-> ->]|[[-> ->]|(_ & _ & Hy)]]%HL & R & S); [done| |by exists y].
      by exists e.
Qed.

(** A new entry for a block that has none. *)
Lemma inv_new k b sb f v (x : StoreBufferEntry) :
  sb_inv k b sb → data_map sb !! sbe_key x = None → cb_elems (free_list sb) = f ++ [v] →
  sbe_index x = v → sbe_shape k x →
  in_u k (sbe_tid x) → in_u 64 (sbe_blockPaddr x) →
  block_addr k (sbe_blockPaddr x) = sbe_blockPaddr x →
  sbe_sending x = false → sbe_vice x = None → sbe_request x = None →
  length (cb_elems (lru_index sb)) < cb_capacity (lru_index sb) ∧
  sb_inv k b
    (SB (sb_size sb + 1) (<[sbe_key x := v]> (data_map sb)) (<[v := Some (sbe_key x)]> (crossRef sb))
       (cb_push_front (lru_index sb) v) (cb_pop_back (free_list sb))
       (<[v := x]> (data_vec sb)) (<[v := true]> (data_vld sb))).
Proof.
  intros I Hk Hf Xi Xsh Xt Xa Xal Xs Xv Xr. set (sb' := SB _ _ _ _ _ _ _).
  assert (data_vld sb !! v = Some false) as Hvf.
  { apply (sa_free _ _ (si_alloc _ _ _ I)). rewrite Hf. set_solver. }
  destruct (sa_len _ _ (si_alloc _ _ _ I)) as (Lv & Lc & Ll & _).
  assert (v < length (data_vec sb)) as Hvn by (rewrite <- Lv; by eapply lookup_lt_Some).
  assert (∀ i y, live sb i y → i ≠ v) as Hlv by (intros i y [_ Hy] ->; congruence).
  assert (∀ i y, live sb' i y ↔ (i = v ∧ y = x) ∨ (i ≠ v ∧ live sb i y)) as HL.
  { apply live_upd; [done|done|simpl; by rewrite list_lookup_insert_eq by lia|].
    intros i Hi. simpl. by rewrite list_lookup_insert_ne. }
  assert (∀ i y, mapped sb i y → sbe_key y ≠ sbe_key x ∧ mapped sb' i y) as HM.
  { unfold mapped. intros i y Hm. assert (sbe_key y ≠ sbe_key x) as Hne by congruence.
    split; [done|]. simpl. by rewrite lookup_insert_ne. }
  assert (∀ i y, mapped sb' i y → i ≠ v → mapped sb i y) as HM'.
  { unfold mapped. simpl. intros i y Hm Hne.
    apply lookup_insert_Some in Hm as [[_ ?]|[_ ?]]; [congruence|done]. }
  assert (v ∉ cb_elems (lru_index sb)) as Hvl.
  { rewrite (si_lru _ _ _ I). intros (y & Hy & _). by apply Hlv in Hy. }
  assert (length (cb_elems (lru_index sb)) < cb_capacity (lru_index sb)) as Hroom.
  { rewrite Ll. assert (length (v :: cb_elems (lru_index sb)) ≤ length (data_vec sb)); [|done].
    apply nodup_bound; [apply NoDup_cons; split; [done|apply I]|].
    intros j [->|(y & Hy & _)%(si_lru _ _ _ I)]%elem_of_cons; [done|by eapply slot_live_lt]. }
  split; [done|]. split; simpl.
  - apply (alloc_take k sb sb' f v x); try done; [apply I|by simpl; rewrite length_insert|].
    simpl. by rewrite cb_cap_push_front.
  - intros i y [[-> ->]|[_ Hy]]%HL; [done|]. by eapply (si_addr _ _ _ I).
  - intros key q [[<- <-]|[Hne Hq]]%lookup_insert_Some.
    + exists x. split; [apply HL; by left|]. split; [done|]. by rewrite list_lookup_insert_eq by lia.
    + apply (si_map _ _ _ I) in Hq as (y & Hy & -> & Hc). pose proof (Hlv _ _ Hy) as Hqv. exists y.
      split; [apply HL; by right|]. by rewrite list_lookup_insert_ne.
  - intros i y [[-> ->]|[Hne Hy]]%HL; [left; unfold mapped; simpl; by rewrite lookup_insert_eq|].
    destruct (si_reach _ _ _ I _ _ Hy) as [Hm|(q & z & Hz & E)]; [left; by apply HM|]. right. exists q, z.
    split; [|done]. apply HL. right. split; [apply (Hlv _ _ Hz)|done].
  - intros q y w [[-> ->]|[Hne Hy]]%HL E; [congruence|].
    destruct (si_vice _ _ _ I _ _ _ Hy E) as (Hm & ? & ? & z & Hz & ?).
    split_and!; [by apply HM|done..|]. exists z. split; [|done].
    apply HL. right. split; [apply (Hlv _ _ Hz)|done].
  - rewrite cb_elems_push_front by done. apply NoDup_cons. split; [done|apply I].
  - intros i. rewrite cb_elems_push_front, elem_of_cons, (si_lru _ _ _ I) by done. split.
    + intros [->|(y & Hy & Hm & R)].
      * exists x. split; [apply HL; by left|]. split; [unfold mapped; simpl; by rewrite lookup_insert_eq|done].
      * exists y. split; [apply HL; right; split; [apply (Hlv _ _ Hy)|done]|]. split; [by apply HM|done].
    + intros (y & [[-> ->]|[Hne Hy]]%HL & Hm & R); [by left|]. right. exists y. split_and!; auto.
  - intros i y [[-> ->]|[Hne Hy]]%HL; [by rewrite Xr|].
    pose proof (si_req _ _ _ I _ _ Hy) as Hreq. destruct (sbe_request y); [|done].
    destruct Hreq as [Hm ->]. split; [by apply HM|done].
  - intros i. rewrite (si_blocked _ _ _ I). split.
    + intros (y & Hy & ?). exists y. split; [|done]. apply HL. right. split; [apply (Hlv _ _ Hy)|done].
    + intros (y & [[-> ->]|[Hne Hy]]%HL & R & S); [done|by exists y].
Qed.

(** Giving an entry back. *)
Lemma alloc_give k sb sb' p e :
  sb_alloc k sb → live sb p e →
  length (cb_elems (free_list sb)) < cb_capacity (free_list sb) →
  free_list sb' = cb_push_back (free_list sb) p → data_vld sb' = <[p := false]> (data_vld sb) →
  data_vec sb' = data_vec sb → length (crossRef sb') = length (crossRef sb) →
  cb_capacity (lru_index sb') = cb_capacity (lru_index sb) →
  sb_size sb' = (sb_size sb - 1)%Z →
  sb_alloc k sb'.
Proof.
  intros A [Hp Hv] Hroom Ef Evld Ev Ecr Elru Es. destruct (sa_len _ _ A) as (Lv & ? & ? & ?).
  assert (cb_elems (free_list sb') = cb_elems (free_list sb) ++ [p]) as Hf'
    by (rewrite Ef; by apply cb_elems_push).
  assert (p ∉ cb_elems (free_list sb)) as Hpf by (rewrite (sa_free _ _ A), Hv; done).
  assert (p < length (data_vld sb)) as Hpn by (by eapply lookup_lt_Some).
  split.
  - rewrite Ev, Evld, Ecr, Elru, Ef, length_insert, cb_cap_push. done.
  - rewrite Ev. apply (sa_entry _ _ A).
  - rewrite Hf'. apply NoDup_app. split_and!; [apply (sa_free_nodup _ _ A)|set_solver|apply NoDup_singleton].
  - intros i. rewrite Hf', Evld. destruct (decide (i = p)) as [->|Hne].
    + rewrite list_lookup_insert_eq by lia. set_solver.
    + rewrite list_lookup_insert_ne, <- (sa_free _ _ A) by done. set_solver.
  - rewrite Es, Hf', Ev, length_app. pose proof (sa_size _ _ A). simpl. lia.
Qed.

Lemma mapped_other sb p e i x :
  mapped sb p e → mapped sb i x → i ≠ p → sbe_key x ≠ sbe_key e.
Proof. unfold mapped. intros Hp Hi Hne E. rewrite E in Hi. congruence. Qed.

(** The state in which an entry under way has left the map. *)
Definition released sb (p : nat) (e : StoreBufferEntry) : StoreBuffer C :=
  SB (sb_size sb - 1) (delete (sbe_key e) (data_map sb)) (crossRef sb) (lru_index sb)
    (cb_push_back (free_list sb) p) (data_vec sb) (<[p := false]> (data_vld sb)).

Lemma live_released sb p e i x :
  live sb p e → live (released sb p e) i x ↔ i ≠ p ∧ live sb i x.
Proof.
  intros [Hp Hv]. unfold live. simpl. assert (p < length (data_vld sb)) by (by eapply lookup_lt_Some).
  destruct (decide (i = p)) as [->|Hne].
  - rewrite list_lookup_insert_eq by lia. naive_solver.
  - rewrite list_lookup_insert_ne by done. naive_solver.
Qed.

Lemma inv_release k b sb p e :
  sb_inv k b sb → live sb p e → mapped sb p e → sbe_sending e = true → sbe_vice e = None →
  sb_inv k b (released sb p e).
Proof.
  intros I Hl Hm Hs Hv. pose proof (live_released sb p e) as HL.
  pose proof (λ i x, HL i x Hl) as HL'. clear HL. rename HL' into HL.
  assert (∀ i x, i ≠ p → mapped (released sb p e) i x ↔ mapped sb i x) as HM.
  { unfold mapped. simpl. intros i x Hne. split.
    - intros [_ Hx]%lookup_delete_Some. done.
    - intros Hx. apply lookup_delete_Some. split; [|done].
      intros E. apply (mapped_other sb p e i x Hm Hx Hne). done. }
  pose proof (si_req _ _ _ I _ _ Hl) as Hr.
  assert (sbe_request e ≠ None) as Hr' by (intros E; rewrite E in Hr; congruence).
  split.
  - apply (alloc_give k sb (released sb p e) p e); try done; [apply I|by eapply free_room].
  - intros i x [_ Hx]%HL. by eapply (si_addr _ _ _ I).
  - simpl. intros key q [Hne Hq]%lookup_delete_Some.
    apply (si_map _ _ _ I) in Hq as (x & Hx & -> & Hc). exists x.
    split; [|done]. apply HL. split; [|done]. intros ->. by rewrite (live_fun _ _ _ _ Hx Hl) in Hne.
  - intros i x [Hne Hx]%HL. destruct (si_reach _ _ _ I _ _ Hx) as [?|(q & z & Hz & E)].
    { left. by apply HM. }
    right. exists q, z. split; [|done]. apply HL. split; [|done]. intros ->.
    rewrite (live_fun _ _ _ _ Hz Hl) in E. congruence.
  - intros q x v [Hne Hx]%HL E. destruct (si_vice _ _ _ I _ _ _ Hx E) as (? & ? & ? & z & Hz & ?).
    split_and!; [by apply HM|done..|]. exists z. split; [|done]. apply HL. split; [|done]. intros ->.
    by destruct (vice_not_mapped _ _ _ _ _ _ _ I Hx E Hl).
  - apply (si_lru_nodup _ _ _ I).
  - intros i. simpl. rewrite (si_lru _ _ _ I). split.
    + intros (x & Hx & Hmx & R). assert (i ≠ p).
      { intros ->. by rewrite (live_fun _ _ _ _ Hx Hl) in R. }
      exists x. split_and!; [by apply HL|by apply HM|done].
    + intros (x & [Hne Hx]%HL & Hmx & R). exists x. split_and!; [done|by apply HM|done].
  - intros i x [Hne Hx]%HL. pose proof (si_req _ _ _ I _ _ Hx) as Hreq.
    destruct (sbe_request x); [|done]. by rewrite HM.
  - intros i. rewrite (si_blocked _ _ _ I). split.
    + intros (x & Hx & R & S). exists x. split; [|done]. apply HL. split; [|done]. intros ->.
      rewrite (live_fun _ _ _ _ Hx Hl) in S. congruence.
    + intros (x & [_ Hx]%HL & ?). by exists x.
Qed.

(** ... and its vice takes its place. *)
Lemma inv_release_vice k b sb p e v ev :
  sb_inv k b sb → live sb p e → sbe_vice e = Some v → live sb v ev →
  length (cb_elems (lru_index sb)) < cb_capacity (lru_index sb) ∧
  sb_inv k b
    (SB (sb_size sb - 1) (<[sbe_key ev := v]> (delete (sbe_key e) (data_map sb)))
       (<[v := Some (sbe_key ev)]> (crossRef sb)) (cb_push_front (lru_index sb) v)
       (cb_push_back (free_list sb) p) (data_vec sb) (<[p := false]> (data_vld sb))).
Proof.
  intros I Hl Hv Hlv. set (sb' := SB _ _ _ _ _ _ _).
  destruct (si_vice _ _ _ I _ _ _ Hl Hv) as (Hm & Hs & Hvp & ev' & L & Vv & Rv & Tv & Av).
  pose proof (live_fun _ _ _ _ L Hlv) as ->. clear L.
  assert (sbe_key ev = sbe_key e) as Hk by (unfold sbe_key; by rewrite Tv, Av).
  pose proof (λ i x, live_released sb p e i x Hl) as HL. change (live (released sb p e)) with (live sb') in HL.
  assert (v ∉ cb_elems (lru_index sb)) as Hvl.
  { rewrite (si_lru _ _ _ I). intros (y & Hy & Hmy & _). by destruct (vice_not_mapped _ _ _ _ _ _ _ I Hl Hv Hy). }
  pose proof (lru_room _ _ _ _ _ I Hlv Hvl) as Hroom. split; [done|].
  assert (mapped sb' v ev) as Hmv by (unfold mapped; simpl; by rewrite lookup_insert_eq).
  assert (∀ i x, i ≠ p → mapped sb i x → mapped sb' i x) as HM.
  { unfold mapped. simpl. intros i x Hne Hx. pose proof (mapped_other sb p e i x Hm Hx Hne).
    rewrite lookup_insert_ne, lookup_delete_ne by congruence. done. }
  assert (∀ i x, i ≠ v → mapped sb' i x → mapped sb i x) as HM'.
  { unfold mapped. simpl. intros i x Hne [[_ ?]|[_ [_ ?]%lookup_delete_Some]]%lookup_insert_Some;
      [congruence|done]. }
  assert (∀ q x, live sb q x → sbe_vice x = Some v → q = p) as Huniq.
  { intros q x Hx E. by eapply (vice_unique _ _ _ q x p e v). }
  pose proof (si_req _ _ _ I _ _ Hl) as Hr.
  assert (sbe_request e ≠ None) as Hr' by (intros E; rewrite E in Hr; congruence).
  destruct (sa_len _ _ (si_alloc _ _ _ I)) as (_ & Lc & _).
  split.
  - apply (alloc_give k sb sb' p e); try done; [apply I|by eapply free_room|by simpl; rewrite length_insert|].
    simpl. by rewrite cb_cap_push_front.
  - intros i x [_ Hx]%HL. by eapply (si_addr _ _ _ I).
  - simpl. intros key q [[<- <-]|[Hne [Hne' Hq]%lookup_delete_Some]]%lookup_insert_Some.
    + exists ev. split; [by apply HL|]. split; [done|].
      rewrite list_lookup_insert_eq by (rewrite Lc; by eapply slot_live_lt). done.
    + apply (si_map _ _ _ I) in Hq as (x & Hx & -> & Hc).
      assert (q ≠ p) by (intros ->; by rewrite (live_fun _ _ _ _ Hx Hl) in Hne').
      assert (q ≠ v) by (intros ->; by rewrite (live_fun _ _ _ _ Hx Hlv) in Hne).
      exists x. split; [by apply HL|]. split; [done|]. by rewrite list_lookup_insert_ne.
  - intros i x [Hne Hx]%HL. destruct (decide (i = v)) as [->|Hiv].
    { pose proof (live_fun _ _ _ _ Hx Hlv) as ->. by left. }
    destruct (si_reach _ _ _ I _ _ Hx) as [?|(q & z & Hz & E)]; [left; by apply HM|].
    right. exists q, z. split; [|done]. apply HL. split; [|done]. intros ->.
    rewrite (live_fun _ _ _ _ Hz Hl) in E. congruence.
  - intros q x w [Hne Hx]%HL E. destruct (si_vice _ _ _ I _ _ _ Hx E) as (? & ? & ? & z & Hz & ?).
    split_and!; [by apply HM|done..|]. exists z. split; [|done]. apply HL. split; [|done]. intros ->.
    by destruct (vice_not_mapped _ _ _ _ _ _ _ I Hx E Hl).
  - simpl. rewrite cb_elems_push_front by done. apply NoDup_cons. split; [done|apply I].
  - intros i. simpl. rewrite cb_elems_push_front, elem_of_cons, (si_lru _ _ _ I) by done. split.
    + intros [->|(x & Hx & Hmx & R)]; [exists ev; split; [by apply HL|done]|].
      assert (i ≠ p) by (intros ->; by rewrite (live_fun _ _ _ _ Hx Hl) in R).
      exists x. split_and!; [by apply HL|by apply HM|done].
    + intros (x & [Hne Hx]%HL & Hmx & R). destruct (decide (i = v)); [by left|].
      right. exists x. split_and!; [done|by apply HM'|done].
  - intros i x [Hne Hx]%HL. pose proof (si_req _ _ _ I _ _ Hx) as Hreq.
    destruct (sbe_request x); [|done]. destruct Hreq as [? ?]. split; [by apply HM|done].
  - intros i. rewrite (si_blocked _ _ _ I). split.
    + intros (x & Hx & R & S). exists x. split; [|done]. apply HL. split; [|done]. intros ->.
      rewrite (live_fun _ _ _ _ Hx Hl) in S. congruence.
    + intros (x & [_ Hx]%HL & ?). by exists x.
Qed.

(** The buffer the constructor of [LSQ] builds. *)
Lemma inv_setData k n :
  sb_inv k None (setData (map (sbe_new (Z.to_nat (2 ^ k))) (seq 0 n)) : StoreBuffer C).
Proof.
  set (vec := map _ _). assert (length vec = n) as Hn by (unfold vec; by rewrite length_map, length_seq).
  destruct (cb_push_all_elems (cb_new n : C) (seq 0 n)) as [Ee Ec].
  { rewrite cb_elems_new, length_seq, cb_cap_new. simpl. lia. }
  rewrite cb_elems_new in Ee. rewrite cb_cap_new in Ec. simpl in Ee.
  assert (∀ i e, ¬ live (setData vec : StoreBuffer C) i e) as HL.
  { intros i e [_ Hv]. simpl in Hv. apply lookup_replicate in Hv as [? _]. done. }
  unfold setData in *. rewrite Hn in *. split; simpl.
  2,4,5,8: by intros i e **; exfalso; eapply (HL i e).
  - split; simpl.
    + by rewrite !length_replicate, cb_cap_new, Ec, Hn.
    + intros i e He. unfold vec in He. apply list_lookup_fmap_Some in He as (j & -> & Hj).
      apply lookup_seq in Hj as [-> Hj]. split; [done|]. unfold sbe_shape. simpl.
      by rewrite !length_replicate.
    + rewrite Ee. apply NoDup_seq.
    + intros i. rewrite Ee, elem_of_seq, lookup_replicate. naive_solver lia.
    + rewrite Ee, length_seq, Hn. lia.
  - intros key p Hp. by rewrite lookup_empty in Hp.
  - rewrite cb_elems_new. constructor.
  - intros i. rewrite cb_elems_new. split; [by intros ?%elem_of_nil|].
    intros (e & He & _). by apply HL in He.
  - intros i. split; [done|]. intros (e & He & _). by apply HL in He.
Qed.

End Invariant.
