(* ===== verification/StoreBufferView.v ===== *)
(** What a thread reads through the store buffer, and the operations as operations
    on that view.

    [sb_view k sb m tid] is the memory the thread [tid] sees: the byte of the vice,
    then the byte of the entry of its block, then the byte of the memory [m] behind
    the buffer.  Inserting a store writes it; [recordForward] reads it. *)
From stdpp Require Import gmap.
From S2P Require Import Prelude CircularBuffer Bytes StoreBuffer StoreBufferInv.

Section View.

Context {C : Type} `{CircularBufferLaws C nat}.

Implicit Types sb : StoreBuffer C.

(** The byte at offset [o] that the entry [p] and its vice hold. *)
Definition slot_byte sb (p o : nat) : option Z :=
  match data_vec sb !! p with
  | None => None
  | Some e =>
      match (match sbe_vice e with
             | Some v => match data_vec sb !! v with Some ev => sbe_byte ev o | None => None end
             | None => None
             end) with
      | Some b => Some b
      | None => sbe_byte e o
      end
  end.

(** The byte the buffer holds for an address of a thread. *)
Definition sb_byte (k : Z) sb (tid a : Z) : option Z :=
  match data_map sb !! hashKey tid (block_addr k a) with
  | Some p => slot_byte sb p (Z.to_nat (block_off k a))
  | None => None
  end.

Definition sb_view (k : Z) sb (m : memory) (tid : Z) : memory :=
  λ a, match sb_byte k sb tid a with Some b => b | None => m a end.

(** ** [get] *)

Lemma sb_get_spec k b sb tid blk :
  (0 ≤ k ≤ 64)%Z → sb_inv k b sb → in_u k tid → in_u 64 blk → block_addr k blk = blk →
  sb_get sb tid blk = Ok (data_map sb !! hashKey tid blk).
Proof.
  intros Hk I Ht Hb Hal. unfold sb_get. destruct (data_map sb !! hashKey tid blk) as [p|] eqn:E; [|done].
  destruct (si_map _ _ _ I _ _ E) as (e & Hl & Ek & _).
  destruct (si_addr _ _ _ I _ _ Hl) as (Ht' & Hb' & Hal').
  destruct (hashKey_inj k _ _ _ _ Hk Ht Ht' Hb Hb' Hal Hal' Ek) as [Et _].
  destruct (sa_entry _ _ (si_alloc _ _ _ I) p e) as [Ei _]; [by destruct Hl|].
  destruct Hl as [Hp Hv]. rewrite (at_res_Some _ _ _ Hp). simpl. rewrite <- Et, Z.eqb_refl. simpl.
  by rewrite Ei, (at_res_Some _ _ _ Hv).
Qed.

(** ** Updates of one slot *)

(** The buffer after a store by [tid]: the bytes of the store where it writes, the
    bytes before it elsewhere. *)
Definition stored (k : Z) sb sb' (tid paddr : Z) (datas : list Z) (size : nat) (mask : list bool) :=
  ∀ t a, in_u k t → in_u 64 a →
    sb_byte k sb' t a =
      if decide (t = tid ∧ block_addr k a = block_addr k paddr) then
        match store_byte (Z.to_nat (block_off k paddr)) datas size mask (Z.to_nat (block_off k a)) with
        | Some b => Some b
        | None => sb_byte k sb t a
        end
      else sb_byte k sb t a.

(** The bytes of an entry depend on it and its vice only. *)
Lemma slot_byte_ext sb sb' p e o :
  data_vec sb !! p = Some e → data_vec sb' !! p = Some e →
  (∀ v, sbe_vice e = Some v → data_vec sb' !! v = data_vec sb !! v) →
  slot_byte sb' p o = slot_byte sb p o.
Proof.
  intros E E' Hv. unfold slot_byte. rewrite E, E'. destruct (sbe_vice e) as [v|]; [|done].
  by rewrite Hv.
Qed.

(** One slot changes: what the others hold stays. *)
Lemma stored_intro k sb sb' tid paddr datas size mask :
  (0 ≤ k ≤ 64)%Z → in_u k tid → in_u 64 paddr →
  (∀ key, key ≠ hashKey tid (block_addr k paddr) →
     data_map sb' !! key = data_map sb !! key ∧
     ∀ p o, data_map sb !! key = Some p → slot_byte sb' p o = slot_byte sb p o) →
  (∃ p', data_map sb' !! hashKey tid (block_addr k paddr) = Some p' ∧
     ∀ o, slot_byte sb' p' o =
       match store_byte (Z.to_nat (block_off k paddr)) datas size mask o with
       | Some b => Some b
       | None => match data_map sb !! hashKey tid (block_addr k paddr) with
                 | Some p => slot_byte sb p o
                 | None => None
                 end
       end) →
  stored k sb sb' tid paddr datas size mask.
Proof.
  intros Hk Ht Hp Hother (p' & Hp' & Hslot) t a Hta Ha. unfold sb_byte.
  destruct (block_split k a Hk Ha) as (_ & Hba & Haa).
  destruct (block_split k paddr Hk Hp) as (_ & Hbp & Hap).
  destruct (decide (t = tid ∧ block_addr k a = block_addr k paddr)) as [[-> ->]|Hne].
  { by rewrite Hp', Hslot. }
  assert (hashKey t (block_addr k a) ≠ hashKey tid (block_addr k paddr)) as Hkey.
  { intros E. apply Hne. by eapply hashKey_inj. }
  destruct (Hother _ Hkey) as [-> Hs]. destruct (data_map sb !! hashKey t _) eqn:E; [|done].
  by apply Hs.
Qed.

(** Merging into the entry [q] that belongs to the slot [p]. *)
Lemma slot_byte_other k b sb p e q x lru key p' o :
  sb_inv k b sb → live sb p e → mapped sb p e → (q = p ∨ sbe_vice e = Some q) →
  key ≠ sbe_key e → data_map sb !! key = Some p' →
  slot_byte (SB (sb_size sb) (data_map sb) (crossRef sb) lru (free_list sb)
               (<[q := x]> (data_vec sb)) (data_vld sb)) p' o = slot_byte sb p' o.
Proof.
  intros I Hl Hm Hq Hkey Hp'. destruct (si_map _ _ _ I _ _ Hp') as (e' & Hl' & -> & _).
  assert (p' ≠ p) as Hne by (intros ->; rewrite (live_fun _ _ _ _ Hl' Hl) in Hkey; done).
  assert (q ≠ p') as Hqp.
  { destruct Hq as [->|Hv]; [done|]. intros ->. by destruct (vice_not_mapped _ _ _ _ _ _ _ I Hl Hv Hl'). }
  apply (slot_byte_ext sb _ p' e'); [by destruct Hl'| |].
  - simpl. rewrite list_lookup_insert_ne by done. by destruct Hl'.
  - intros v Hv. simpl. apply list_lookup_insert_ne. intros ->. destruct Hq as [->|Hv'].
    + by destruct (vice_not_mapped _ _ _ _ _ _ _ I Hl' Hv Hl).
    + by pose proof (vice_unique _ _ _ _ _ _ _ _ I Hl' Hv Hl Hv').
Qed.

(** ** Frame *)

(** What an insertion leaves alone: the entries keep their owner and request, those
    with a request their bytes; a new entry belongs to the store's block. *)
Definition same_entry (x y : StoreBufferEntry) : Prop :=
  sbe_tid y = sbe_tid x ∧ sbe_blockPaddr y = sbe_blockPaddr x ∧ sbe_request y = sbe_request x ∧
  sbe_sending y = sbe_sending x ∧ sbe_blockVaddr y = sbe_blockVaddr x ∧
  (sbe_request x ≠ None → sbe_validMask y = sbe_validMask x ∧ sbe_blockDatas y = sbe_blockDatas x).

Definition sb_frame sb sb' (tid bv blk : Z) : Prop :=
  length (data_vec sb') = length (data_vec sb) ∧
  (∀ i x, live sb i x → ∃ y, live sb' i y ∧ same_entry x y) ∧
  (∀ i y, live sb' i y → (∃ x, live sb i x) ∨
     (sbe_tid y = tid ∧ sbe_blockPaddr y = blk ∧ sbe_request y = None ∧ sbe_blockVaddr y = bv)).

Lemma same_entry_refl x : same_entry x x.
Proof. done. Qed.

(** Merging bytes. *)
Lemma frame_bytes sb q x bd vm lru tid bv blk :
  live sb q x → sbe_request x = None →
  sb_frame sb (SB (sb_size sb) (data_map sb) (crossRef sb) lru (free_list sb)
                 (<[q := sbe_set_bytes x bd vm]> (data_vec sb)) (data_vld sb)) tid bv blk.
Proof.
  intros Hl Hr. set (sb' := SB _ _ _ _ _ _ _).
  assert (∀ i y, live sb' i y ↔ (i = q ∧ y = sbe_set_bytes x bd vm) ∨ (i ≠ q ∧ live sb i y)) as HL.
  { apply live_upd; [done|by eapply slot_live_lt|by destruct Hl|done]. }
  split; [simpl; by rewrite length_insert|]. split.
  - intros i y Hy. destruct (decide (i = q)) as [->|Hne].
    + pose proof (live_fun _ _ _ _ Hy Hl) as ->. eexists. split; [apply HL; by left|]. done.
    + exists y. split; [apply HL; by right|done].
  - intros i y [[-> ->]|[_ Hy]]%HL; left; eauto.
Qed.

(** A new entry, the others unchanged but for the vice of one. *)
Lemma frame_new sb sb' v (x : StoreBufferEntry) p tid bv blk :
  data_vld sb !! v = Some false → data_vld sb' = <[v := true]> (data_vld sb) →
  length (data_vec sb') = length (data_vec sb) →
  (∀ i, i ≠ v → data_vec sb' !! i = data_vec sb !! i ∨
     (i = p ∧ ∃ e w, data_vec sb !! i = Some e ∧ data_vec sb' !! i = Some (sbe_set_vice e w))) →
  data_vec sb' !! v = Some x → sbe_tid x = tid → sbe_blockPaddr x = blk → sbe_request x = None →
  sbe_blockVaddr x = bv → sb_frame sb sb' tid bv blk.
Proof.
  intros Hv Evld Elen Hvec Hx Xt Xa Xr Xv. split; [done|]. split.
  - intros i y [Hy Hyv]. assert (i ≠ v) as Hne by congruence.
    assert (data_vld sb' !! i = Some true) as Hv' by (by rewrite Evld, list_lookup_insert_ne).
    destruct (Hvec i Hne) as [E|(_ & e & w & E1 & E2)].
    + exists y. split; [split; [by rewrite E|done]|done].
    + assert (e = y) as -> by congruence. eexists. split; [split; [done|done]|]. done.
  - intros i y [Hy Hyv]. destruct (decide (i = v)) as [->|Hne].
    + right. assert (y = x) as -> by congruence. done.
    + left. rewrite Evld, list_lookup_insert_ne in Hyv by done.
      destruct (Hvec i Hne) as [E|(_ & e & w & E1 & E2)].
      * exists y. split; [by rewrite <- E|done].
      * exists e. done.
Qed.

(** ** Inserting a store *)

(** A store the queue hands over: inside one block, the same offset in the virtual
    and in the physical block, as many data bytes and mask bits as its size. *)
Record store_ok (k tid vaddr paddr : Z) (datas : list Z) (size : nat) (mask : list bool) : Prop := {
  so_tid : in_u k tid;
  so_vaddr : in_u 64 vaddr;
  so_paddr : in_u 64 paddr;
  so_size : 0 < size;
  so_datas : length datas = size;
  so_mask : length mask = size;
  so_off : block_off k vaddr = block_off k paddr;
  so_block : (block_off k paddr + Z.of_nat size ≤ 2 ^ k)%Z
}.

Lemma store_ok_range k tid vaddr paddr datas size mask :
  (0 ≤ k ≤ 64)%Z → store_ok k tid vaddr paddr datas size mask →
  Z.to_nat (block_off k paddr) + size ≤ Z.to_nat (2 ^ k) ∧
  block_addr k vaddr = block_addr k (u64 (vaddr + Z.of_nat size - 1)).
Proof.
  intros Hk S. destruct (block_split k paddr Hk (so_paddr _ _ _ _ _ _ _ S)) as ([_ Hr] & _).
  destruct (block_split k vaddr Hk (so_vaddr _ _ _ _ _ _ _ S)) as ([E Hv] & Hb & Hal).
  pose proof (so_block _ _ _ _ _ _ _ S). pose proof (so_size _ _ _ _ _ _ _ S).
  pose proof (so_off _ _ _ _ _ _ _ S). split; [lia|].
  destruct (block_addr_of k (block_addr k vaddr) (block_off k vaddr + Z.of_nat size - 1) Hk Hb Hal)
    as (Hu & Ha & _); [lia|].
  replace (vaddr + Z.of_nat size - 1)%Z
    with (block_addr k vaddr + (block_off k vaddr + Z.of_nat size - 1))%Z by lia.
  by rewrite u64_small, Ha by done.
Qed.

(** Moving an index to the front of the replacement order. *)
Lemma sb_update_spec k b sb p e :
  sb_inv k b sb → live sb p e → mapped sb p e → sbe_request e = None →
  ∃ lru, sb_update sb p =
           Ok (SB (sb_size sb) (data_map sb) (crossRef sb) lru (free_list sb) (data_vec sb) (data_vld sb)) ∧
    cb_elems lru ≡ₚ cb_elems (lru_index sb) ∧ cb_capacity lru = cb_capacity (lru_index sb) ∧
    head (cb_elems lru) = Some p.
Proof.
  intros I Hl Hm Hr. assert (p ∈ cb_elems (lru_index sb)) as Hin by (apply (si_lru _ _ _ I); eauto).
  unfold sb_update, find_index.
  destruct (list_find_elem_of (λ y, y = p) _ p Hin eq_refl) as [[i y] Hf]. rewrite Hf. simpl.
  apply list_find_Some in Hf as (Hi & -> & _). eexists. split; [done|].
  assert (i < length (cb_elems (lru_index sb))) as Hlt by (by eapply lookup_lt_Some).
  assert (cb_elems (cb_erase (lru_index sb) i (S i)) = delete i (cb_elems (lru_index sb))) as Ee
    by (rewrite cb_elems_erase, delete_take_drop by lia; done).
  assert (length (cb_elems (lru_index sb)) ≤ cb_capacity (lru_index sb)) as Hcap.
  { destruct (sa_len _ _ (si_alloc _ _ _ I)) as (_ & _ & -> & _). apply nodup_bound; [apply I|].
    intros j (y & Hy & _)%(si_lru _ _ _ I). by eapply slot_live_lt. }
  assert (cb_elems (cb_push_front (cb_erase (lru_index sb) i (S i)) p) =
          p :: delete i (cb_elems (lru_index sb))) as Ep.
  { rewrite cb_elems_push_front, Ee; [done|]. rewrite Ee, cb_cap_erase, length_delete by done. lia. }
  rewrite Ep, cb_cap_push_front, cb_cap_erase. split; [by rewrite <- delete_Permutation by done|done].
Qed.

Section Insert.

Context (k tid vaddr paddr : Z) (datas : list Z) (size : nat) (mask : list bool).
Hypothesis Hk : (0 ≤ k ≤ 64)%Z.
Hypothesis Hst : store_ok k tid vaddr paddr datas size mask.

Local Notation key := (hashKey tid (block_addr k paddr)).
Local Notation ins sb := (insertStoreBuffer k tid sb vaddr paddr datas size mask).
Local Notation outcome sb sb' :=
  (sb_inv k None sb' ∧ sb_frame sb sb' tid (block_addr k vaddr) (block_addr k paddr) ∧
   stored k sb sb' tid paddr datas size mask).

(** The entry of the block. *)
Lemma key_entry b sb p :
  sb_inv k b sb → data_map sb !! key = Some p →
  ∃ e, live sb p e ∧ mapped sb p e ∧ sbe_key e = key ∧ sbe_index e = p ∧ sbe_shape k e ∧
       sbe_tid e = tid ∧ sbe_blockPaddr e = block_addr k paddr.
Proof.
  intros I E. destruct (si_map _ _ _ I _ _ E) as (e & Hl & Ek & _). exists e.
  destruct (sa_entry _ _ (si_alloc _ _ _ I) p e) as [Ei Esh]; [by destruct Hl|].
  destruct (si_addr _ _ _ I _ _ Hl) as (Ht' & Hb' & Hal').
  destruct (block_split k paddr Hk (so_paddr _ _ _ _ _ _ _ Hst)) as (_ & Hb & Hal).
  destruct (hashKey_inj k _ _ _ _ Hk (so_tid _ _ _ _ _ _ _ Hst) Ht' Hb Hb' Hal Hal' Ek).
  unfold mapped. rewrite <- Ek. done.
Qed.

(** Overwriting the entry [q] of the slot of the block, its bytes merged. *)
Lemma merge_stored b sb p e q eq bd vm lru :
  sb_inv k b sb → data_map sb !! key = Some p → live sb p e → mapped sb p e →
  live sb q eq → (q = p ∧ sbe_vice e = None ∨ sbe_vice e = Some q) → sbe_key e = key →
  (∀ o, sbe_byte (sbe_set_bytes eq bd vm) o =
     match store_byte (Z.to_nat (block_off k paddr)) datas size mask o with
     | Some b => Some b | None => sbe_byte eq o end) →
  stored k sb (SB (sb_size sb) (data_map sb) (crossRef sb) lru (free_list sb)
                 (<[q := sbe_set_bytes eq bd vm]> (data_vec sb)) (data_vld sb))
    tid paddr datas size mask.
Proof.
  intros I E Hl Hm Hlq Hq Hkey Hbytes.
  apply stored_intro; [done|apply Hst|apply Hst| |].
  - intros key' Hne. split; [done|]. intros p' o Hp'.
    apply (slot_byte_other k b sb p e q _ _ key'); try done; [destruct Hq as [[-> _]|]; auto|congruence].
  - exists p. split; [done|]. intros o. rewrite E. pose proof (slot_live_lt _ _ _ Hlq).
    destruct Hl as [Hp _], Hlq as [Hpq _]. unfold slot_byte. simpl. destruct Hq as [[-> Hv]|Hv].
    + rewrite list_lookup_insert_eq by done. simplify_eq. simpl. rewrite Hv, Hp, Hv. apply Hbytes.
    + destruct (si_vice _ _ _ I p e q) as (_ & _ & Hne & _); [|done|].
      { split; [done|]. destruct (si_map _ _ _ I _ _ E) as (e' & [? ?] & _). done. }
      rewrite list_lookup_insert_ne, Hp by done. rewrite Hv.
      rewrite list_lookup_insert_eq, Hpq, Hbytes by done. by destruct (store_byte _ _ _ _ _).
Qed.

Lemma insert_unsent sb p :
  sb_inv k None sb → data_map sb !! key = Some p →
  (∀ e, data_vec sb !! p = Some e → sbe_sending e = false) →
  ∃ sb', ins sb = Ok (sb', true) ∧ outcome sb sb'.
Proof.
  intros I E Hs. destruct (key_entry _ _ _ I E) as (e & Hl & Hm & Ek & Ei & Esh & _).
  specialize (Hs e (proj1 Hl)). destruct (store_ok_range _ _ _ _ _ _ _ Hk Hst) as [Hr Ev].
  assert (sbe_request e = None) as Er.
  { destruct (sbe_request e) eqn:Er; [|done].
    assert (None = Some p) by (apply (si_blocked _ _ _ I); exists e; rewrite Er; done). done. }
  assert (sbe_vice e = None) as Evc.
  { destruct (sbe_vice e) eqn:Ev'; [|done].
    destruct (si_vice _ _ _ I _ _ _ Hl Ev') as (_ & ? & _). congruence. }
  destruct (block_split k paddr Hk (so_paddr _ _ _ _ _ _ _ Hst)) as (_ & Hb & Hal).
  unfold insertStoreBuffer. rewrite <- Ev, Z.eqb_refl. simpl.
  rewrite (sb_get_spec k None sb) by (done || apply Hst). rewrite E. simpl.
  rewrite (at_res_Some _ _ _ (proj1 Hl)). simpl. rewrite Hs, Ei.
  destruct (sb_update_spec _ _ _ _ _ I Hl Hm Er) as (lru & -> & Hperm & Hcap & _). simpl.
  rewrite (at_res_Some _ _ _ (proj1 Hl)). simpl.
  destruct (sbe_merge_spec k e _ datas size mask Esh Hr) as (bd & vm & -> & Hsh & Hby); [apply Hst..|].
  simpl. unfold with_entry. simpl. rewrite (upd_res_Some _ _ _ _ (proj1 Hl)). simpl.
  eexists. split; [done|]. split; [by apply inv_set_bytes|]. split; [by apply frame_bytes|].
  eapply merge_stored; eauto.
Qed.

Lemma insert_vice sb p v :
  sb_inv k None sb → data_map sb !! key = Some p →
  (∀ e, data_vec sb !! p = Some e → sbe_sending e = true ∧ sbe_vice e = Some v) →
  ∃ sb', ins sb = Ok (sb', true) ∧ outcome sb sb'.
Proof.
  intros I E Hs. destruct (key_entry _ _ _ I E) as (e & Hl & Hm & Ek & Ei & Esh & _).
  destruct (Hs e (proj1 Hl)) as [Hsd Hv]. destruct (store_ok_range _ _ _ _ _ _ _ Hk Hst) as [Hr Ev].
  destruct (si_vice _ _ _ I _ _ _ Hl Hv) as (_ & _ & Hne & ev & Hlv & Vv & Rv & _ & _).
  destruct (sa_entry _ _ (si_alloc _ _ _ I) v ev) as [_ Eshv]; [by destruct Hlv|].
  destruct (block_split k paddr Hk (so_paddr _ _ _ _ _ _ _ Hst)) as (_ & Hb & Hal).
  unfold insertStoreBuffer. rewrite <- Ev, Z.eqb_refl. simpl.
  rewrite (sb_get_spec k None sb) by (done || apply Hst). rewrite E. simpl.
  rewrite (at_res_Some _ _ _ (proj1 Hl)). simpl. rewrite Hsd, Hv.
  rewrite (at_res_Some _ _ _ (proj1 Hlv)). simpl.
  destruct (sbe_merge_spec k ev _ datas size mask Eshv Hr) as (bd & vm & -> & Hsh & Hby); [apply Hst..|].
  simpl. unfold with_entry. simpl. rewrite (upd_res_Some _ _ _ _ (proj1 Hlv)). simpl.
  eexists. split; [done|]. split; [by apply inv_set_bytes|]. split; [by apply frame_bytes|].
  eapply merge_stored; eauto.
Qed.

(** The entry that [getEmpty] returns. *)
Lemma getEmpty_spec b sb f v :
  sb_inv k b sb → cb_elems (free_list sb) = f ++ [v] →
  ∃ x, data_vec sb !! v = Some x ∧ sbe_index x = v ∧ sbe_shape k x ∧ data_vld sb !! v = Some false ∧
    ∀ n, getEmpty (SB n (data_map sb) (crossRef sb) (lru_index sb) (free_list sb) (data_vec sb)
                     (data_vld sb)) =
      Ok (SB n (data_map sb) (crossRef sb) (lru_index sb) (cb_pop_back (free_list sb)) (data_vec sb)
            (data_vld sb), v).
Proof.
  intros I Hf. destruct (sa_len _ _ (si_alloc _ _ _ I)) as (Lv & _).
  assert (data_vld sb !! v = Some false) as Hvf.
  { apply (sa_free _ _ (si_alloc _ _ _ I)). rewrite Hf. set_solver. }
  destruct (lookup_lt_is_Some_2 (data_vec sb) v) as [x Hx].
  { rewrite <- Lv. by eapply lookup_lt_Some. }
  destruct (sa_entry _ _ (si_alloc _ _ _ I) v x Hx) as [Ei Esh]. exists x. split_and!; try done.
  intros n. unfold getEmpty, sb_full. simpl. rewrite Hf, length_app, last_snoc. simpl.
  rewrite Nat.add_1_r. simpl. by rewrite (at_res_Some _ _ _ Hx).
Qed.

Lemma insert_new_vice sb p :
  sb_inv k None sb → data_map sb !! key = Some p → sb_full sb = false →
  (∀ e, data_vec sb !! p = Some e → sbe_sending e = true ∧ sbe_vice e = None) →
  ∃ sb', ins sb = Ok (sb', true) ∧ outcome sb sb'.
Proof.
  intros I E Hfull Hs. destruct (key_entry _ _ _ I E) as (e & Hl & Hm & Ek & Ei & Esh & Et & Ea).
  destruct (Hs e (proj1 Hl)) as [Hsd Hv]. destruct (store_ok_range _ _ _ _ _ _ _ Hk Hst) as [Hr Ev].
  destruct (block_split k paddr Hk (so_paddr _ _ _ _ _ _ _ Hst)) as (_ & Hb & Hal).
  destruct (free_last _ Hfull) as (f & v & Hf).
  destruct (getEmpty_spec _ _ _ _ I Hf) as (x & Hx & Xi & Xsh & Xf & Hge).
  assert (v ≠ p) as Hvp by (intros ->; destruct Hl; congruence).
  assert (v < length (data_vld sb)) as Hvn by (by eapply lookup_lt_Some).
  unfold insertStoreBuffer. rewrite <- Ev, Z.eqb_refl. simpl.
  rewrite (sb_get_spec k None sb) by (done || apply Hst). rewrite E. simpl.
  rewrite (at_res_Some _ _ _ (proj1 Hl)). simpl. rewrite Hsd, Hv, Hfull.
  unfold createVice. rewrite Hge. simpl. rewrite (at_res_Some _ _ _ (proj1 Hl)). simpl.
  rewrite bool_decide_true by done. simpl. unfold with_entry. simpl.
  rewrite (upd_res_Some _ _ _ _ (proj1 Hl)). simpl.
  assert (<[p := sbe_set_vice e (Some v)]> (data_vec sb) !! v = Some x) as Hx'
    by (by rewrite list_lookup_insert_ne).
  rewrite (at_res_Some _ _ _ Hx'). simpl. rewrite Xi, upd_res_Ok by done. simpl.
  rewrite (at_res_Some _ _ _ Hx'). simpl.
  destruct (sbe_reset_spec k x tid (block_addr k vaddr) (block_addr k paddr) _ datas size mask Xsh Hr)
    as (bd & vm & -> & Hsh & Hby); [apply Hst..|].
  simpl. rewrite (upd_res_Some _ _ _ _ Hx'). simpl.
  eexists. split; [done|]. split; [by apply (inv_vice k None sb p e f v)|].
  split.
  { match goal with |- context [<[v := ?y]> (<[p := _]> _)] => apply (frame_new sb _ v y p) end;
      simpl; try done.
    - by rewrite !length_insert.
    - intros i Hne. rewrite list_lookup_insert_ne by done. destruct (decide (i = p)) as [->|Hp].
      + right. split; [done|]. exists e, (Some v). split; [by destruct Hl|].
        by rewrite list_lookup_insert_eq by (by eapply slot_live_lt).
      + left. by rewrite list_lookup_insert_ne.
    - rewrite list_lookup_insert_eq by (rewrite length_insert; by eapply lookup_lt_Some). done. }
  apply stored_intro; [done|apply Hst|apply Hst| |].
  - intros key' Hne. split; [done|]. intros p' o Hp'. simpl in Hp'.
    destruct (si_map _ _ _ I _ _ Hp') as (e' & Hl' & -> & _).
    assert (p' ≠ p) by (intros ->; rewrite (live_fun _ _ _ _ Hl' Hl) in Hne; done).
    assert (p' ≠ v) by (intros ->; destruct Hl'; congruence).
    apply (slot_byte_ext sb _ p' e'); [by destruct Hl'| |].
    + simpl. rewrite !list_lookup_insert_ne by done. by destruct Hl'.
    + intros w Hw. simpl. destruct (si_vice _ _ _ I _ _ _ Hl' Hw) as (_ & _ & _ & ew & Hlw & _).
      assert (w ≠ v) by (intros ->; destruct Hlw; congruence).
      assert (w ≠ p) by (intros ->; by destruct (vice_not_mapped _ _ _ _ _ _ _ I Hl' Hw Hl)).
      by rewrite !list_lookup_insert_ne.
  - exists p. split; [done|]. intros o. rewrite E. unfold slot_byte. simpl.
    rewrite list_lookup_insert_ne, list_lookup_insert_eq by (done || by eapply slot_live_lt). simpl.
    rewrite list_lookup_insert_eq, Hby by (rewrite length_insert; by eapply lookup_lt_Some).
    rewrite (proj1 Hl), Hv. by destruct (store_byte _ _ _ _ _).
Qed.

Lemma insert_new sb :
  sb_inv k None sb → data_map sb !! key = None → sb_full sb = false →
  ∃ sb', ins sb = Ok (sb', true) ∧ outcome sb sb'.
Proof.
  intros I E Hfull. destruct (store_ok_range _ _ _ _ _ _ _ Hk Hst) as [Hr Ev].
  destruct (block_split k paddr Hk (so_paddr _ _ _ _ _ _ _ Hst)) as (_ & Hb & Hal).
  destruct (free_last _ Hfull) as (f & v & Hf).
  destruct (getEmpty_spec _ _ _ _ I Hf) as (x & Hx & Xi & Xsh & Xf & Hge).
  destruct (sa_len _ _ (si_alloc _ _ _ I)) as (Lv & Lc & Ll & _).
  assert (v < length (data_vec sb)) as Hvn by (by eapply lookup_lt_Some).
  destruct (sbe_reset_spec k x tid (block_addr k vaddr) (block_addr k paddr) _ datas size mask Xsh Hr)
    as (bd & vm & Hreset & Hsh & Hby); [apply Hst..|].
  set (y := SBEntry _ _ _ _ _ _ _ _ _) in *.
  destruct (inv_new k None sb f v y I) as [Hroom I']; try done; [apply Hst|].
  unfold insertStoreBuffer. rewrite <- Ev, Z.eqb_refl. simpl.
  rewrite (sb_get_spec k None sb) by (done || apply Hst). rewrite E. simpl. rewrite Hfull.
  destruct sb as [n dm cr lru fl vec vld]. simpl in *. rewrite (Hge n). simpl.
  rewrite (at_res_Some _ _ _ Hx). simpl. rewrite Hreset. simpl.
  unfold with_entry. simpl. rewrite (upd_res_Some _ _ _ _ Hx). simpl.
  assert (<[v := y]> vec !! v = Some y) as Hy by (by rewrite list_lookup_insert_eq).
  unfold sb_insert. simpl. rewrite (at_res_Some _ _ _ Hy). simpl. rewrite Xi, length_insert.
  pose proof (sa_size _ _ (si_alloc _ _ _ I)) as Hsz. simpl in Hsz. rewrite Hf, length_app in Hsz. simpl in Hsz.
  rewrite (proj2 (Z.ltb_lt _ _)) by lia. simpl. rewrite (at_res_Some _ _ _ Xf). simpl.
  unfold cb_full. rewrite bool_decide_false by lia. simpl. rewrite (at_res_Some _ _ _ Hy). simpl.
  rewrite !upd_res_Ok by lia. simpl. unfold map_insert. rewrite E.
  eexists. split; [done|]. split; [done|]. split.
  { apply (frame_new _ _ v y v); simpl; try done.
    - by rewrite length_insert.
    - intros i Hne. left. by rewrite list_lookup_insert_ne. }
  apply stored_intro; [done|apply Hst|apply Hst| |]; simpl.
  - intros key' Hne. rewrite lookup_insert_ne by done. split; [done|]. intros p' o Hp'.
    destruct (si_map _ _ _ I _ _ Hp') as (e' & Hl' & -> & _).
    assert (p' ≠ v) by (intros ->; destruct Hl' as [_ Hl']; simpl in Hl'; congruence).
    apply (slot_byte_ext _ _ p' e'); [by destruct Hl'| |].
    + simpl. rewrite list_lookup_insert_ne by done. by destruct Hl'.
    + intros w Hw. simpl. destruct (si_vice _ _ _ I _ _ _ Hl' Hw) as (_ & _ & _ & ew & Hlw & _).
      assert (w ≠ v) by (intros ->; destruct Hlw as [_ Hlw]; simpl in Hlw; congruence).
      by rewrite list_lookup_insert_ne.
  - exists v. split; [by rewrite lookup_insert_eq|]. intros o. rewrite E.
    unfold slot_byte. simpl. rewrite Hy. simpl. rewrite Hby. by destruct (store_byte _ _ _ _ _).
Qed.

(** [insertStoreBuffer] never fails; it takes the store unless the block has no entry
    to merge with and the buffer is full. *)
Lemma insert_cases sb :
  sb_inv k None sb →
  (ins sb = Ok (sb, false) ∧ sb_full sb = true) ∨ ∃ sb', ins sb = Ok (sb', true) ∧ outcome sb sb'.
Proof.
  intros I. destruct (store_ok_range _ _ _ _ _ _ _ Hk Hst) as [Hr Ev].
  destruct (block_split k paddr Hk (so_paddr _ _ _ _ _ _ _ Hst)) as (_ & Hb & Hal).
  destruct (data_map sb !! key) as [p|] eqn:E.
  - destruct (key_entry _ _ _ I E) as (e & Hl & Hm & Ek & Ei & Esh & _).
    destruct (sbe_sending e) eqn:Hs.
    + destruct (sbe_vice e) as [v|] eqn:Hv.
      { right. apply (insert_vice sb p v); [done|done|]. intros e' He. destruct Hl; naive_solver. }
      destruct (sb_full sb) eqn:Hf.
      * left. split; [|done]. unfold insertStoreBuffer. rewrite <- Ev, Z.eqb_refl. simpl.
        rewrite (sb_get_spec k None sb) by (done || apply Hst). rewrite E. simpl.
        rewrite (at_res_Some _ _ _ (proj1 Hl)). simpl. by rewrite Hs, Hv, Hf.
      * right. apply (insert_new_vice sb p); [done|done|done|]. intros e' He. destruct Hl; naive_solver.
    + right. apply (insert_unsent sb p); [done|done|]. intros e' He. destruct Hl; naive_solver.
  - destruct (sb_full sb) eqn:Hf; [|right; by apply insert_new].
    left. split; [|done]. unfold insertStoreBuffer. rewrite <- Ev, Z.eqb_refl. simpl.
    rewrite (sb_get_spec k None sb) by (done || apply Hst). rewrite E. simpl. by rewrite Hf.
Qed.

(** A store in the buffer is a write to what its thread sees. *)
Lemma stored_view sb sb' m t a :
  stored k sb sb' tid paddr datas size mask → in_u k t → in_u 64 a →
  sb_view k sb' m t a =
    if decide (t = tid) then mem_write (sb_view k sb m tid) paddr datas mask a else sb_view k sb m t a.
Proof.
  intros S Ht Ha. unfold sb_view at 1. rewrite (S t a Ht Ha).
  destruct (block_split k a Hk Ha) as ([Ea Hoa] & Hba & Haa).
  pose proof (so_paddr _ _ _ _ _ _ _ Hst) as Hp. pose proof (so_mask _ _ _ _ _ _ _ Hst) as Hmk.
  pose proof (so_datas _ _ _ _ _ _ _ Hst) as Hdt. pose proof (so_block _ _ _ _ _ _ _ Hst) as Hbl.
  destruct (block_split k paddr Hk Hp) as ([Ep Hop] & Hbp & Hap).
  destruct (decide (t = tid)) as [->|Hne]; [|rewrite decide_False by tauto; done].
  destruct (decide (block_addr k a = block_addr k paddr)) as [Eb|Hb].
  - rewrite decide_True by done. unfold store_byte.
    destruct (decide (paddr ≤ a < paddr + Z.of_nat size)%Z) as [Hin|Hout].
    + unfold mem_write. rewrite (proj2 (Z.leb_le _ _)), (proj2 (Z.ltb_lt _ _)) by lia. simpl.
      replace (Z.to_nat (block_off k a) - Z.to_nat (block_off k paddr))
        with (Z.to_nat (a - paddr)) by lia.
      destruct (lookup_lt_is_Some_2 mask (Z.to_nat (a - paddr))) as [bm Hbm]; [lia|].
      destruct (lookup_lt_is_Some_2 datas (Z.to_nat (a - paddr))) as [x Hx]; [lia|].
      rewrite Hbm, Hx. destruct bm.
      * by rewrite decide_True by (split; [lia|done]).
      * rewrite decide_False by (intros [_ ?]; congruence). done.
    + rewrite decide_False by (intros [? _]; lia). by rewrite mem_write_out by lia.
  - rewrite decide_False by tauto. rewrite mem_write_out; [done|].
    rewrite Hmk. destruct (decide (a < paddr)%Z); [by left|]. right.
    destruct (decide (paddr + Z.of_nat size ≤ a)%Z); [done|]. exfalso. apply Hb.
    destruct (block_addr_of k (block_addr k paddr) (a - block_addr k paddr) Hk Hbp Hap) as (_ & Hx & _);
      [lia|]. by replace (block_addr k paddr + (a - block_addr k paddr))%Z with a in Hx by lia.
Qed.

End Insert.

(** ** Forwarding to a load *)

Lemma land_low k a : (0 ≤ k)%Z → Z.land a (2 ^ k - 1) = (a `mod` 2 ^ k)%Z.
Proof.
  intros Hk. replace (2 ^ k - 1)%Z with (Z.ones k) by (rewrite Z.ones_equiv; lia).
  by apply Z.land_ones.
Qed.

(** The bytes a load takes from a slot. *)
Definition slot_packets sb (p : nat) (goff : Z) (off size : nat) : list FWDPacket :=
  omap (λ i, FWD (goff + Z.of_nat i) <$> slot_byte sb p (off + i)) (seq 0 size).

Lemma recordForward_spec k b sb p e lvaddr lsize vaddr paddr size :
  (0 ≤ k ≤ 64)%Z → sb_inv k b sb → live sb p e → in_u 64 paddr →
  (block_off k paddr + Z.of_nat size ≤ 2 ^ k)%Z →
  (0 ≤ vaddr - lvaddr)%Z → (vaddr - lvaddr + Z.of_nat size ≤ Z.of_nat lsize)%Z →
  ((0 < vaddr - lvaddr)%Z → block_off k paddr = 0%Z) →
  (∀ v ev, sbe_vice e = Some v → data_vec sb !! v = Some ev → sbe_blockVaddr ev = sbe_blockVaddr e) →
  recordForward sb p lvaddr lsize vaddr paddr size =
    Ok (slot_packets sb p (vaddr - lvaddr) (Z.to_nat (block_off k paddr)) size,
        forallb (λ i, bool_decide (is_Some (slot_byte sb p (Z.to_nat (block_off k paddr) + i))))
          (seq 0 size)).
Proof.
  intros Hk I Hl Hp Hsz Hg Hls Hsplit Hsyn.
  destruct (sa_entry _ _ (si_alloc _ _ _ I) p e) as [_ [Lb Lv]]; [by destruct Hl|].
  destruct (block_split k paddr Hk Hp) as ([_ Ho] & _).
  unfold recordForward. rewrite (at_res_Some _ _ _ (proj1 Hl)). simpl.
  replace (Z.of_nat (length (sbe_validMask e)) - 1)%Z with (2 ^ k - 1)%Z by lia.
  rewrite land_low, <- (block_off_eq k) by (done || lia).
  set (off := Z.to_nat (block_off k paddr)) in *.
  assert (negb (0 <? vaddr - lvaddr)%Z || (off =? 0) = true) as ->.
  { destruct (Z.ltb_spec 0 (vaddr - lvaddr)); simpl; [|done]. apply Nat.eqb_eq. lia. }
  simpl. unfold slot_packets. revert Hsz Hls. induction size as [|n IH]; intros Hsz Hls; [done|].
  rewrite seq_S, res_fold_app, IH, omap_app, forallb_app by lia. simpl.
  rewrite (proj2 (Z.ltb_lt _ _)) by lia. simpl.
  destruct (lookup_lt_is_Some_2 (sbe_validMask e) (off + n)) as [be Hbe]; [lia|].
  destruct (lookup_lt_is_Some_2 (sbe_blockDatas e) (off + n)) as [xe Hxe]; [lia|].
  rewrite (at_res_Some _ _ _ Hbe), (at_res_Some _ _ _ Hxe).
  assert (sbe_byte e (off + n) = if be then Some xe else None) as Ee
    by (unfold sbe_byte; by rewrite Hbe, Hxe; destruct be).
  assert (slot_byte sb p (off + n) =
    match (match sbe_vice e with
           | Some v => match data_vec sb !! v with Some ev => sbe_byte ev (off + n) | None => None end
           | None => None
           end) with Some b => Some b | None => if be then Some xe else None end) as ->
    by (unfold slot_byte; by rewrite (proj1 Hl), Ee).
  destruct (sbe_vice e) as [v|] eqn:Ev.
  2: { simpl. destruct be; simpl; by rewrite ?andb_true_r, ?andb_false_r, ?app_nil_r. }
  destruct (si_vice _ _ _ I _ _ _ Hl Ev) as (_ & _ & _ & ev & Hlv & _).
  destruct (sa_entry _ _ (si_alloc _ _ _ I) v ev) as [_ [Lb' Lv']]; [by destruct Hlv|].
  destruct (lookup_lt_is_Some_2 (sbe_validMask ev) (off + n)) as [bv Hbv]; [lia|].
  destruct (lookup_lt_is_Some_2 (sbe_blockDatas ev) (off + n)) as [xv Hxv]; [lia|].
  rewrite (at_res_Some _ _ _ (proj1 Hlv)), (proj1 Hlv). simpl. rewrite (at_res_Some _ _ _ Hbv).
  assert (sbe_byte ev (off + n) = if bv then Some xv else None) as ->
    by (unfold sbe_byte; by rewrite Hbv, Hxv; destruct bv).
  destruct bv; simpl.
  - rewrite (Hsyn v ev), Z.eqb_refl, (at_res_Some _ _ _ Hxv) by (done || by destruct Hlv). simpl.
    by rewrite andb_true_r.
  - destruct be; simpl; by rewrite ?andb_true_r, ?andb_false_r, ?app_nil_r.
Qed.

(** The data of a load after the packets of a slot are applied. *)
Lemma forward_packets_spec sb p memData goff off size :
  (goff + size ≤ length memData)%nat →
  ∃ d, forward_packets memData (slot_packets sb p (Z.of_nat goff) off size) = Ok d ∧
    length d = length memData ∧
    ∀ j, d !! j =
      if decide (goff ≤ j < goff + size) then
        match slot_byte sb p (off + (j - goff)) with Some x => Some x | None => memData !! j end
      else memData !! j.
Proof.
  intros Hsz. unfold slot_packets, forward_packets. induction size as [|n IH].
  { exists memData. split_and!; [done|done|]. intros j. by rewrite decide_False by lia. }
  destruct IH as (d & Hd & Hl & Hj); [lia|]. rewrite seq_S, omap_app, res_fold_app, Hd. simpl.
  destruct (slot_byte sb p (off + n)) as [x|] eqn:E; simpl.
  - destruct (array_access d (Z.of_nat (length d)) (Z.of_nat goff + Z.of_nat n)) as (_ & _ & _ & Hs);
      [done|lia|]. rewrite Hs. simpl. rewrite <- Nat2Z.inj_add, Nat2Z.id.
    eexists. split_and!; [done|by rewrite length_insert|]. intros j.
    destruct (decide (j = goff + n)) as [->|Hne].
    + rewrite list_lookup_insert_eq, decide_True by lia.
      replace (off + (goff + n - goff)) with (off + n) by lia. by rewrite E.
    + rewrite list_lookup_insert_ne, Hj by done.
      destruct (decide (goff ≤ j < goff + n)), (decide (goff ≤ j < goff + S n)); done || lia.
  - exists d. split_and!; [done|done|]. intros j. rewrite Hj. destruct (decide (j = goff + n)) as [->|Hne].
    + rewrite decide_False, decide_True by lia.
      replace (off + (goff + n - goff)) with (off + n) by lia. by rewrite E.
    + destruct (decide (goff ≤ j < goff + n)), (decide (goff ≤ j < goff + S n)); done || lia.
Qed.

(** A byte of a slot is a byte of the view. *)
Lemma slot_view k sb m tid paddr p i :
  (0 ≤ k ≤ 64)%Z → in_u 64 paddr →
  data_map sb !! hashKey tid (block_addr k paddr) = Some p →
  (block_off k paddr + Z.of_nat i < 2 ^ k)%Z →
  sb_view k sb m tid (paddr + Z.of_nat i)%Z =
    match slot_byte sb p (Z.to_nat (block_off k paddr) + i) with
    | Some x => x | None => m (paddr + Z.of_nat i)%Z end.
Proof.
  intros Hk Hp Hm Hi. destruct (block_split k paddr Hk Hp) as ([E Ho] & Hb & Hal).
  destruct (block_addr_of k (block_addr k paddr) (block_off k paddr + Z.of_nat i) Hk Hb Hal)
    as (_ & Ha & Hof); [lia|].
  replace (block_addr k paddr + (block_off k paddr + Z.of_nat i))%Z with (paddr + Z.of_nat i)%Z in * by lia.
  unfold sb_view, sb_byte. rewrite Ha, Hof, Hm.
  by replace (Z.to_nat (block_off k paddr + Z.of_nat i)) with (Z.to_nat (block_off k paddr) + i) by lia.
Qed.

End View.
