(* ===== verification/StoreBufferLsq.v ===== *)
(** The store buffer in the load/store queue (cpu/o3/lsq.cc, cpu/o3/lsq.hh): eviction,
    sending to the data cache, the answer of the cache, flushing.

    [SbLsq] holds the members of [LSQ] these functions read and write.  The data
    cache is outside: whether it accepts a packet ([dcachePort.sendTimingReq]) is an
    argument.  [SbSys] adds the memory behind the port and the writes the cache has
    performed but not yet answered; its steps are the calls the rest of the core and
    the cache make. *)
From stdpp Require Import gmap.
From S2P Require Import Prelude CircularBuffer Bytes StoreBuffer StoreBufferInv.

(** The parameters of [BaseO3CPU] and of the cache the code uses. *)
Record SbParams := {
  sp_lineBits : Z;                   (** log2 of [cacheLineSize()]; [dcacheLineBits] *)
  sp_sbufferEntries : Z;
  sp_evictThreshold : Z;
  sp_inactiveThreshold : Z;
  sp_cacheStorePorts : Z;
  sp_bankWriteAccurately : bool;
  sp_setDivNum : Z                   (** [dcacheSetDivNum] *)
}.

(** [const int numBank = 8]. *)
Definition numBank : nat := 8.

Section Lsq.

Context {C : Type} `{CircularBuffer C nat}.

Record SbLsq := SL {
  sl_sb : StoreBuffer C;                      (** [storeBuffer] *)
  sl_blocked : option nat;                    (** [blockedSbufferEntry] *)
  sl_flushing : bool;                         (** [_storeBufferFlushing] *)
  sl_inactive : Z;                            (** [storeBufferWritebackInactive] *)
  sl_writeStall : bool;                       (** [dcacheWriteStall] *)
  sl_usedStorePorts : Z;
  sl_cacheBlocked : bool;                     (** [_cacheBlocked] *)
  sl_bankOccupied : list (list bool);
  sl_numReq : list Z                          (** [numSBufferRequest] of each thread *)
}.

Definition set_sb (l : SbLsq) (sb : StoreBuffer C) : SbLsq :=
  SL sb (sl_blocked l) (sl_flushing l) (sl_inactive l) (sl_writeStall l) (sl_usedStorePorts l)
    (sl_cacheBlocked l) (sl_bankOccupied l) (sl_numReq l).
Definition set_blocked (l : SbLsq) (b : option nat) : SbLsq :=
  SL (sl_sb l) b (sl_flushing l) (sl_inactive l) (sl_writeStall l) (sl_usedStorePorts l)
    (sl_cacheBlocked l) (sl_bankOccupied l) (sl_numReq l).
Definition set_flushing (l : SbLsq) (f : bool) : SbLsq :=
  SL (sl_sb l) (sl_blocked l) f (sl_inactive l) (sl_writeStall l) (sl_usedStorePorts l)
    (sl_cacheBlocked l) (sl_bankOccupied l) (sl_numReq l).
Definition set_inactive (l : SbLsq) (n : Z) : SbLsq :=
  SL (sl_sb l) (sl_blocked l) (sl_flushing l) n (sl_writeStall l) (sl_usedStorePorts l)
    (sl_cacheBlocked l) (sl_bankOccupied l) (sl_numReq l).
Definition set_banks (l : SbLsq) (stall : bool) (banks : list (list bool)) : SbLsq :=
  SL (sl_sb l) (sl_blocked l) (sl_flushing l) (sl_inactive l) stall (sl_usedStorePorts l)
    (sl_cacheBlocked l) banks (sl_numReq l).
Definition set_port (l : SbLsq) (used : Z) (blocked : bool) : SbLsq :=
  SL (sl_sb l) (sl_blocked l) (sl_flushing l) (sl_inactive l) (sl_writeStall l) used
    blocked (sl_bankOccupied l) (sl_numReq l).
Definition set_numReq (l : SbLsq) (n : list Z) : SbLsq :=
  SL (sl_sb l) (sl_blocked l) (sl_flushing l) (sl_inactive l) (sl_writeStall l)
    (sl_usedStorePorts l) (sl_cacheBlocked l) (sl_bankOccupied l) n.

(** The constructor of [LSQ]. *)
Definition sl_init (P : SbParams) (numThreads : nat) : SbLsq :=
  SL (setData (map (sbe_new (Z.to_nat (2 ^ sp_lineBits P))) (seq 0 (Z.to_nat (sp_sbufferEntries P)))))
    None false 0 false 0 false
    (replicate (Z.to_nat (sp_setDivNum P)) (replicate numBank false)) (replicate numThreads 0%Z).

(** [getDcacheDiv]. *)
Definition getDcacheDiv (P : SbParams) (vaddr : Z) : Z :=
  Z.land (Z.shiftr vaddr (sp_lineBits P)) (sp_setDivNum P - 1).

(** The banks a write occupies: those with an enabled byte, or all of them. *)
Definition write_banks (P : SbParams) (row : list bool) (mask : list bool) : res (list bool) :=
  if sp_bankWriteAccurately P then
    res_fold (λ row i,
      if existsb id (take 8 (drop (8 * i) mask)) then upd_res row i true else Ok row)
      row (seq 0 numBank)
  else Ok (map (λ _, true) row).

(** [sbufferWriteBank]. *)
Definition sbufferWriteBank (P : SbParams) (l : SbLsq) (vaddr : Z) (mask : list bool) : res SbLsq :=
  do! assert_ (length mask =? 8 * numBank)%nat "mask.size() == 8 * numBank" in
  let div := Z.to_nat (getDcacheDiv P vaddr) in
  let! row := get_at (sl_bankOccupied l !! div) "std::out_of_range" in
  let! row := write_banks P row mask in
  let! banks := upd_res (sl_bankOccupied l) div row in
  Ok (set_banks l true banks).

(** [cachePortAvailable(false)]. *)
Definition storePortAvailable (P : SbParams) (l : SbLsq) : bool :=
  (sl_usedStorePorts l <? sp_cacheStorePorts P)%Z.

(** [sbufferSendPacket]; [accept] is what [dcachePort.sendTimingReq] returns. *)
Definition sbufferSendPacket (P : SbParams) (l : SbLsq) (accept : bool) : res (SbLsq * bool) :=
  if negb (sl_cacheBlocked l) && storePortAvailable P l then
    if accept then
      do! assert_ (storePortAvailable P l) "cachePortAvailable(is_load)" in
      Ok (set_port l (sl_usedStorePorts l + 1) (sl_cacheBlocked l), true)
    else Ok (set_port l (sl_usedStorePorts l) true, false)
  else Ok (l, false).

(** [SbufferRequest::sendPacketToCache] of the request of the entry [p]. *)
Definition sendPacketToCache (P : SbParams) (l : SbLsq) (p : nat) (accept : bool)
    : res (SbLsq * bool) :=
  let! e := at_res (data_vec (sl_sb l)) p in
  let! r := get_at (sbe_request e) "entry->request" in
  do! assert_ (sr_outstanding r =? 0)%Z "_numOutstandingPackets == 0" in
  let! sent := sbufferSendPacket P l accept in
  if snd sent : bool then
    let r := SbReq (sr_port r) (sr_paddr r) (sr_data r) (sr_byteEnable r) (sr_entry r) 1 in
    let! sb := with_entry (sl_sb (fst sent)) p (sbe_set_send e (sbe_sending e) (Some r)) in
    Ok (set_sb (fst sent) sb, true)
  else Ok (fst sent, false).

(** What follows a packet the cache accepted: [sending] is set, the banks are marked
    and the idle counter restarts. *)
Definition afterSend (P : SbParams) (l : SbLsq) (p : nat) : res SbLsq :=
  let! e := at_res (data_vec (sl_sb l)) p in
  let! sb := with_entry (sl_sb l) p (sbe_set_send e true (sbe_request e)) in
  let! l := sbufferWriteBank P (set_sb l sb) (sbe_blockVaddr e) (sbe_validMask e) in
  Ok (set_inactive l 0).

(** [retryBlockedStoreBuffer]. *)
Definition retryBlockedStoreBuffer (P : SbParams) (l : SbLsq) (accept : bool)
    : res (SbLsq * bool) :=
  match sl_blocked l with
  | None => Ok (l, false)
  | Some p =>
      let! sent := sendPacketToCache P l p accept in
      if snd sent : bool then
        let! l := afterSend P (fst sent) p in
        Ok (set_blocked l None, true)
      else Ok (fst sent, true)
  end.

(** [LSQ::StoreBufferEvictCause]. *)
Inductive StoreBufferEvictCause := Flush | Full | SQFull | Timeout.

(** Why [storeBufferWriteback] evicts, if it does. *)
Definition evictCause (P : SbParams) (l : SbLsq) (any_sq_will_full : bool)
    : option StoreBufferEvictCause :=
  if sl_flushing l then Some Flush
  else if (sp_evictThreshold P <? unsentSize (sl_sb l))%Z then Some Full
  else if any_sq_will_full then Some SQFull
  else if (sp_inactiveThreshold P <? sl_inactive l)%Z then Some Timeout
  else None.

(** The eviction of [storeBufferWriteback]: the least recently written entry gets its
    request, which is sent if the cache takes it. *)
Definition evictEntry (P : SbParams) (l : SbLsq) (accept : bool) : res SbLsq :=
  let! r := getEvict (sl_sb l) in
  let l := set_sb l (fst r) in
  let p := snd r in
  let! e := at_res (data_vec (sl_sb l)) p in
  do! assert_ (bool_decide (sbe_request e = None)) "entry->request == nullptr" in
  (* new SbufferRequest(..), addReq, buildPackets *)
  let! n := nth_res (sl_numReq l) (sbe_tid e) in
  do! assert_ (n + 1 <=? sp_sbufferEntries P)%Z "numSBufferRequest <= getSbufferEntries()" in
  let! ns := set_nth (sl_numReq l) (sbe_tid e) (n + 1)%Z in
  let req := SbReq (sbe_tid e) (sbe_blockPaddr e) p (sbe_validMask e) p 0 in
  let! sb := with_entry (sl_sb l) p (sbe_set_send e (sbe_sending e) (Some req)) in
  let l := set_numReq (set_sb l sb) ns in
  let! sent := sendPacketToCache P l p accept in
  if snd sent : bool then afterSend P (fst sent) p
  else Ok (set_blocked (fst sent) (Some p)).

(** [storeBufferWriteback]. *)
Definition storeBufferWriteback (P : SbParams) (l : SbLsq) (any_sq_will_full accept : bool)
    : res SbLsq :=
  let! l :=
    if sl_flushing l && (sb_size (sl_sb l) =? 0)%Z then
      do! assert_ (unsentSize (sl_sb l) =? 0)%Z "storeBuffer.unsentSize() == 0" in
      Ok (set_flushing l false)
    else Ok l in
  if sl_writeStall l then Ok (set_banks l false (sl_bankOccupied l))
  else
    let! retried := retryBlockedStoreBuffer P l accept in
    let l := fst retried in
    if snd retried : bool then Ok l
    else if (unsentSize (sl_sb l) =? 0)%Z then Ok l
    else
      match evictCause P l any_sq_will_full with
      | Some _ => evictEntry P l accept
      | None => Ok (set_inactive l (sl_inactive l + 1))
      end.

(** The answer of the cache to the write of the entry [p]:
    [SbufferRequest::recvTimingResp] and [completeSbufferEvict]; the request is
    deleted when [recvTimingResp] of [LSQ] counts the reply. *)
Definition recvSbufferResp (l : SbLsq) (p : nat) : res SbLsq :=
  let! e := at_res (data_vec (sl_sb l)) p in
  let! r := get_at (sbe_request e) "pkt->senderState" in
  do! assert_ (sr_outstanding r =? 1)%Z "_numOutstandingPackets == 1" in
  let! sb := sb_release (sl_sb l) (sr_entry r) in
  let l := set_sb l sb in
  let! n := nth_res (sl_numReq l) (sr_port r) in
  do! assert_ (0 <? n)%Z "_port.numSBufferRequest > 0" in
  let! ns := set_nth (sl_numReq l) (sr_port r) (n - 1)%Z in
  Ok (set_numReq l ns).

(** [flushStores]: the flag, and whether nothing is left of the thread's stores. *)
Definition flushStores (l : SbLsq) (hasStoresToWB : bool) : SbLsq * bool :=
  (set_flushing l true, negb hasStoresToWB && (sb_size (sl_sb l) =? 0)%Z).

(** The store side of [recvReqRetry]. *)
Definition recvReqRetry (P : SbParams) (l : SbLsq) (accept : bool) : res SbLsq :=
  let! r := retryBlockedStoreBuffer P (set_port l (sl_usedStorePorts l) false) accept in
  Ok (fst r).

(** The store ports of a new cycle ([LSQ::tick]) and the banks, free unless a refill
    occupies them ([clearAddresses]); [busy] is [currentCycleBusy] of each division. *)
Definition sl_tick (l : SbLsq) : SbLsq := set_port l 0 (sl_cacheBlocked l).
Definition clearBanks (l : SbLsq) (busy : list bool) : SbLsq :=
  set_banks l (sl_writeStall l)
    (zip_with (λ row b, map (λ _, b) row) (sl_bankOccupied l)
       (busy ++ replicate (length (sl_bankOccupied l)) false)).

(** ** The buffer and the memory behind it *)

Record SbSys := SS {
  ss_lsq : SbLsq;
  ss_mem : memory;
  ss_done : list nat       (** entries whose write the cache performed and has to answer *)
}.

(** A write packet of the entry [p] that the cache accepted and has not answered. *)
Definition in_flight (l : SbLsq) (p : nat) : option SbufferRequest :=
  match data_vec (sl_sb l) !! p, data_vld (sl_sb l) !! p with
  | Some e, Some true =>
      match sbe_request e with
      | Some r => if (sr_outstanding r =? 1)%Z then Some r else None
      | None => None
      end
  | _, _ => None
  end.

Inductive sb_event :=
| EvInsert (tid vaddr paddr : Z) (datas : list Z) (mask : list bool)  (** a store leaves the queue *)
| EvWriteback (sqfull accept : bool)
| EvRetry (accept : bool)
| EvTick (busy : list bool)
| EvFlush
| EvCacheWrite (p : nat)             (** the cache performs the write of [p] *)
| EvCacheResp (p : nat).             (** ... and answers it *)

(** A step, and whether it took a store.  [processWriteback] offers no store while
    an entry is blocked. *)
Definition sb_step (P : SbParams) (s : SbSys) (ev : sb_event) : res (SbSys * bool) :=
  let l := ss_lsq s in
  match ev with
  | EvInsert tid vaddr paddr datas mask =>
      if bool_decide (sl_blocked l = None) then
        let! r := insertStoreBuffer (sp_lineBits P) tid (sl_sb l) vaddr paddr datas (length datas) mask in
        Ok (SS (set_sb l (fst r)) (ss_mem s) (ss_done s), snd r)
      else Ok (s, false)
  | EvWriteback sqfull accept =>
      let! l := storeBufferWriteback P l sqfull accept in
      Ok (SS l (ss_mem s) (ss_done s), false)
  | EvRetry accept =>
      let! l := recvReqRetry P l accept in
      Ok (SS l (ss_mem s) (ss_done s), false)
  | EvTick busy => Ok (SS (clearBanks (sl_tick l) busy) (ss_mem s) (ss_done s), false)
  | EvFlush => Ok (SS (fst (flushStores l false)) (ss_mem s) (ss_done s), false)
  | EvCacheWrite p =>
      match in_flight l p with
      | Some r =>
          if bool_decide (p ∈ ss_done s) then Ok (s, false)
          else
            let! e := at_res (data_vec (sl_sb l)) (sr_data r) in
            Ok (SS l (mem_write (ss_mem s) (sr_paddr r) (sbe_blockDatas e) (sr_byteEnable r))
                  (p :: ss_done s), false)
      | None => Ok (s, false)
      end
  | EvCacheResp p =>
      if bool_decide (p ∈ ss_done s) then
        let! l := recvSbufferResp l p in
        Ok (SS l (ss_mem s) (filter (λ q, q ≠ p) (ss_done s)), false)
      else Ok (s, false)
  end.

(** A run, with the stores the buffer took, oldest first. *)
Fixpoint sb_run (P : SbParams) (s : SbSys) (evs : list sb_event) : res (SbSys * list sb_event) :=
  match evs with
  | [] => Ok (s, [])
  | ev :: evs =>
      let! r := sb_step P s ev in
      let! r' := sb_run P (fst r) evs in
      Ok (fst r', if snd r : bool then ev :: snd r' else snd r')
  end.

End Lsq.

Arguments SbLsq : clear implicits.
Arguments SbSys : clear implicits.
