(* ===== verification/StoreBufferSteps.v ===== *)
(** The calls of the load/store queue on the store buffer: each one succeeds, keeps
    the invariant and does to the bytes what it should. *)
From stdpp Require Import gmap.
From S2P Require Import Prelude CircularBuffer Bytes StoreBuffer StoreBufferInv StoreBufferView StoreBufferLsq.

(** ** Counting *)

Lemma filter_iff_in {A} (P Q : A → Prop) `{∀ x, Decision (P x), ∀ x, Decision (Q x)} (l : list A) :
  (∀ x, x ∈ l → P x ↔ Q x) → filter P l = filter Q l.
Proof.
  induction l as [|x l IH]; intros He; [done|]. rewrite !filter_cons, IH by set_solver.
  assert (P x ↔ Q x) by (apply He; set_solver).
  destruct (decide (P x)), (decide (Q x)); tauto.
Qed.

(** The two sides of a list of indices that differ at one place. *)
Lemma filter_flip (f g : nat → bool) (l : list nat) p :
  NoDup l → p ∈ l → (∀ i, i ∈ l → i ≠ p → f i = g i) → f p = false → g p = true →
  length (filter (λ i, g i = true) l) = S (length (filter (λ i, f i = true) l)).
Proof.
  intros Hn Hp He Hf Hg. induction Hn as [|x l Hx Hn IH]; [by apply elem_of_nil in Hp|].
  rewrite !filter_cons. apply elem_of_cons in Hp as [<-|Hp].
  - rewrite Hf, Hg, decide_True, decide_False by done. simpl. f_equal. f_equal.
    apply filter_iff_in. intros i Hi. rewrite He; [done|set_solver|].
    intros ->. by apply Hx.
  - assert (x ≠ p) by congruence. rewrite (He x) by set_solver.
    destruct (decide (g x = true)); simpl; [f_equal|]; apply IH; set_solver.
Qed.

Section Steps.

Context {C : Type} `{CircularBufferLaws C nat}.
Context (P : SbParams) (T : nat).

Local Notation k := (sp_lineBits P).
Implicit Types (sb : StoreBuffer C) (l : SbLsq C).

(** Parameters for which the code is meant: lines of eight banks of eight bytes, a
    power of two of divisions, thread numbers that fit below a block address. *)
Record params_ok : Prop := {
  po_line : (2 ^ k = 64)%Z ∧ (0 ≤ k ≤ 64)%Z;
  po_div : ∃ d, (0 ≤ d)%Z ∧ sp_setDivNum P = (2 ^ d)%Z;
  po_entries : (0 ≤ sp_sbufferEntries P)%Z;
  po_threads : (Z.of_nat T ≤ 2 ^ k)%Z
}.

(** The live requests of a thread. *)
Definition is_req sb (t : Z) (i : nat) : bool :=
  match data_vec sb !! i, data_vld sb !! i with
  | Some e, Some true => bool_decide (sbe_request e ≠ None) && (sbe_tid e =? t)%Z
  | _, _ => false
  end.

Definition req_count sb (t : Z) : Z :=
  Z.of_nat (length (filter (λ i, is_req sb t i = true) (seq 0 (length (data_vec sb))))).

Definition banks_ok (banks : list (list bool)) : Prop :=
  length banks = Z.to_nat (sp_setDivNum P) ∧ Forall (λ row, length row = numBank) banks.

Record sl_inv l : Prop := {
  sv_sb : sb_inv k (sl_blocked l) (sl_sb l);
  sv_n : length (data_vec (sl_sb l)) = Z.to_nat (sp_sbufferEntries P);
  sv_banks : banks_ok (sl_bankOccupied l);
  sv_num : length (sl_numReq l) = T ∧
    ∀ t, t < T → sl_numReq l !! t = Some (req_count (sl_sb l) (Z.of_nat t));
  sv_tid i e : live (sl_sb l) i e → (0 ≤ sbe_tid e < Z.of_nat T)%Z
}.

Lemma is_req_live sb t i e : live sb i e →
  is_req sb t i = bool_decide (sbe_request e ≠ None) && (sbe_tid e =? t)%Z.
Proof. intros [Hi Hv]. unfold is_req. by rewrite Hi, Hv. Qed.

Lemma is_req_true sb t i : is_req sb t i = true ↔
  ∃ e, live sb i e ∧ sbe_request e ≠ None ∧ sbe_tid e = t.
Proof.
  split.
  - unfold is_req. destruct (data_vec sb !! i) as [e|] eqn:Ei; [|done].
    destruct (data_vld sb !! i) as [[]|] eqn:Ev; [|done..].
    intros [H1%bool_decide_eq_true H2%Z.eqb_eq]%andb_true_iff. by exists e.
  - intros (e & Hl & Hr & Ht). rewrite (is_req_live _ _ _ _ Hl), Ht, Z.eqb_refl, bool_decide_true; done.
Qed.

(** The same requests, entry by entry. *)
Lemma req_count_ext sb sb' t :
  length (data_vec sb') = length (data_vec sb) →
  (∀ i, is_req sb' t i = true ↔ is_req sb t i = true) → req_count sb' t = req_count sb t.
Proof.
  intros Hl He. unfold req_count. rewrite Hl. f_equal. f_equal.
  apply filter_iff_in. intros i _. apply He.
Qed.

(** One more request. *)
Lemma req_count_add sb sb' p e t :
  length (data_vec sb') = length (data_vec sb) → p < length (data_vec sb) →
  (∀ i u, i ≠ p → is_req sb' u i = is_req sb u i) →
  (∀ u, is_req sb u p = false) → (∀ u, is_req sb' u p = (sbe_tid e =? u)%Z) →
  req_count sb' t = (req_count sb t + if decide (t = sbe_tid e) then 1 else 0)%Z.
Proof.
  intros Hl Hp He Hf Hg. unfold req_count. rewrite Hl. destruct (decide (t = sbe_tid e)) as [->|Hne].
  - rewrite (filter_flip (is_req sb (sbe_tid e)) (is_req sb' (sbe_tid e)) _ p);
      [lia|apply NoDup_seq|apply elem_of_seq; lia| |done|by rewrite Hg, Z.eqb_refl].
    intros i _ Hi. by rewrite He.
  - rewrite Z.add_0_r. f_equal. f_equal. apply filter_iff_in. intros i _.
    destruct (decide (i = p)) as [->|Hi]; [|by rewrite He].
    rewrite Hf, Hg. by rewrite (proj2 (Z.eqb_neq _ _)) by congruence.
Qed.

Lemma req_count_bound sb t p :
  p < length (data_vec sb) → is_req sb t p = false →
  (req_count sb t + 1 ≤ Z.of_nat (length (data_vec sb)))%Z.
Proof.
  intros Hp Hf. unfold req_count.
  set (l := filter _ _). assert (length (p :: l) ≤ length (data_vec sb)); [|simpl in *; lia].
  apply nodup_bound.
  - apply NoDup_cons. split; [|apply NoDup_filter, NoDup_seq].
    unfold l. rewrite list_elem_of_filter. intros [? _]. congruence.
  - intros i [->|[_ Hi]%list_elem_of_filter]%elem_of_cons; [done|]. apply elem_of_seq in Hi. lia.
Qed.

(** ** Banks *)

Lemma div_range vaddr d :
  (0 ≤ d)%Z → sp_setDivNum P = (2 ^ d)%Z → (0 ≤ getDcacheDiv P vaddr < sp_setDivNum P)%Z.
Proof.
  intros Hd E. unfold getDcacheDiv. rewrite E, land_low by done. apply Z.mod_pos_bound. lia.
Qed.

Lemma write_banks_ok row mask :
  length row = numBank → ∃ row', write_banks P row mask = Ok row' ∧ length row' = numBank.
Proof.
  intros Hr. unfold write_banks. destruct (sp_bankWriteAccurately P).
  - apply res_fold_inv; [done|]. intros s i Hi%elem_of_seq Hs. destruct (existsb _ _); [|by exists s].
    rewrite upd_res_Ok by lia. eexists. split; [done|]. by rewrite length_insert.
  - eexists. split; [done|]. by rewrite length_map.
Qed.

Lemma sbufferWriteBank_ok l vaddr mask :
  params_ok → banks_ok (sl_bankOccupied l) → length mask = Z.to_nat (2 ^ k) →
  ∃ banks, sbufferWriteBank P l vaddr mask = Ok (set_banks l true banks) ∧ banks_ok banks.
Proof.
  intros PO [Hl Hf] Hm. destruct (po_line PO) as [Hk _]. destruct (po_div PO) as (d & Hd & Ed).
  unfold sbufferWriteBank. rewrite Hm, Hk. change (Z.to_nat 64) with (8 * numBank). rewrite Nat.eqb_refl. simpl.
  pose proof (div_range vaddr d Hd Ed) as Hr.
  destruct (lookup_lt_is_Some_2 (sl_bankOccupied l) (Z.to_nat (getDcacheDiv P vaddr))) as [row Hrow];
    [lia|]. rewrite Hrow. simpl.
  destruct (write_banks_ok row mask) as (row' & -> & Hr'); [by eapply Forall_lookup_1 in Hf|]. simpl.
  rewrite (upd_res_Some _ _ _ _ Hrow). simpl. eexists. split; [done|]. split; [by rewrite length_insert|].
  by apply Forall_insert.
Qed.

(** ** Sending *)

(** What a request does to an entry. *)
Definition sent_entry (p : nat) (e : StoreBufferEntry) (s : bool) : StoreBufferEntry :=
  sbe_set_send e s (Some (sbe_req p (sbe_set_send e s None))).

Definition with_vec sb (lru : C) (vec : list StoreBufferEntry) : StoreBuffer C :=
  SB (sb_size sb) (data_map sb) (crossRef sb) lru (free_list sb) vec (data_vld sb).

(** Sending the request of an entry: refused, or sent and marked. *)
Lemma send_cases l p e accept :
  params_ok → banks_ok (sl_bankOccupied l) →
  data_vec (sl_sb l) !! p = Some (sent_entry p e false) → sbe_shape k e → sbe_sending e = false →
  (∃ cb, sendPacketToCache P l p accept = Ok (set_port l (sl_usedStorePorts l) cb, false) ∧
     ¬ (accept = true ∧ sl_cacheBlocked l = false ∧ storePortAvailable P l = true)) ∨
  (∃ l1 banks, sendPacketToCache P l p accept = Ok (l1, true) ∧ banks_ok banks ∧
     accept = true ∧ sl_blocked l1 = sl_blocked l ∧
     afterSend P l1 p =
       Ok (SL (with_vec (sl_sb l) (lru_index (sl_sb l))
                 (<[p := sent_entry p e true]> (data_vec (sl_sb l))))
              (sl_blocked l) (sl_flushing l) 0 true (sl_usedStorePorts l + 1) (sl_cacheBlocked l)
              banks (sl_numReq l))).
Proof.
  intros PO Hb Hp [Lb Lv] Hs. unfold sendPacketToCache. rewrite (at_res_Some _ _ _ Hp). simpl.
  unfold sbufferSendPacket.
  assert (set_port l (sl_usedStorePorts l) (sl_cacheBlocked l) = l) as Eid by (by destruct l).
  destruct (negb (sl_cacheBlocked l) && storePortAvailable P l) eqn:Eport.
  2: { left. exists (sl_cacheBlocked l). simpl. rewrite Eid. split; [done|]. intros (_ & E1 & E2).
       by rewrite E1, E2 in Eport. }
  apply andb_true_iff in Eport as [_ Eport]. rewrite Eport.
  destruct accept; simpl; [|left; exists true; naive_solver].
  right. unfold with_entry at 1. simpl. rewrite (upd_res_Some _ _ _ _ Hp). simpl.
  assert (p < length (data_vec (sl_sb l))) as Hlt by (by eapply lookup_lt_Some).
  set (l1 := set_sb _ _).
  destruct (sbufferWriteBank_ok (set_sb l1 (with_vec (sl_sb l) (lru_index (sl_sb l))
    (<[p := sent_entry p e true]> (data_vec (sl_sb l))))) (sbe_blockVaddr e) (sbe_validMask e) PO)
    as (banks & Hwb & Hbk); [done|done|].
  exists l1, banks. split; [done|]. split; [done|]. split; [done|]. split; [done|].
  unfold afterSend. simpl. unfold at_res. rewrite list_lookup_insert_eq by done. simpl.
  unfold with_entry. simpl. rewrite upd_res_Ok by (by rewrite length_insert). simpl.
  rewrite list_insert_insert_eq.
  match type of Hwb with ?lhs = _ => match goal with |- context [sbufferWriteBank P ?a ?b ?c] =>
    change (sbufferWriteBank P a b c) with lhs end end.
  by rewrite Hwb.
Qed.

(** Bytes do not depend on requests. *)
Lemma sent_bytes sb p e s lru t a :
  data_vec sb !! p = Some e →
  sb_byte k (with_vec sb lru (<[p := sent_entry p e s]> (data_vec sb))) t a = sb_byte k sb t a.
Proof.
  intros Hp. unfold sb_byte. simpl. destruct (data_map sb !! _) as [q|]; [|done].
  assert (∀ i, (λ x, (sbe_vice x, sbe_validMask x, sbe_blockDatas x)) <$>
      (<[p := sent_entry p e s]> (data_vec sb) !! i) =
    (λ x, (sbe_vice x, sbe_validMask x, sbe_blockDatas x)) <$> (data_vec sb !! i)) as E.
  { intros i. destruct (decide (i = p)) as [->|Hne].
    - rewrite list_lookup_insert_eq by (by eapply lookup_lt_Some). by rewrite Hp.
    - by rewrite list_lookup_insert_ne. }
  unfold slot_byte. simpl. pose proof (E q) as Eq.
  destruct (<[p := _]> (data_vec sb) !! q) as [x|], (data_vec sb !! q) as [y|]; try done.
  injection Eq as E1 E2 E3. unfold sbe_byte. rewrite E1, E2, E3. destruct (sbe_vice y) as [v|]; [|done].
  pose proof (E v) as Ev. destruct (<[p := _]> (data_vec sb) !! v), (data_vec sb !! v); try done.
  injection Ev as E4 E5 E6. by rewrite E5, E6.
Qed.

(** The entries after a request. *)
Lemma live_sent sb p e s lru i x :
  live sb p e →
  live (with_vec sb lru (<[p := sent_entry p e s]> (data_vec sb))) i x ↔
    (i = p ∧ x = sent_entry p e s) ∨ (i ≠ p ∧ live sb i x).
Proof.
  intros Hl. apply live_upd; [done|by eapply slot_live_lt|by destruct Hl|done].
Qed.

Lemma is_req_sent_ne sb p e s lru t i :
  i ≠ p → is_req (with_vec sb lru (<[p := sent_entry p e s]> (data_vec sb))) t i = is_req sb t i.
Proof. intros Hne. unfold is_req. simpl. by rewrite list_lookup_insert_ne. Qed.

Lemma is_req_sent_eq sb p e s lru t :
  live sb p e →
  is_req (with_vec sb lru (<[p := sent_entry p e s]> (data_vec sb))) t p = (sbe_tid e =? t)%Z.
Proof.
  intros Hl. erewrite is_req_live by (apply live_sent; [done|by left]). done.
Qed.

(** [sl_inv] looks at five of the fields. *)
Lemma sl_inv_fields l l' :
  sl_inv l → sl_sb l' = sl_sb l → sl_blocked l' = sl_blocked l → banks_ok (sl_bankOccupied l') →
  sl_numReq l' = sl_numReq l → sl_inv l'.
Proof.
  intros I Es Eb Ek En. split; rewrite ?Es, ?Eb, ?En; try apply I. done.
Qed.

(** ** Retrying *)

Lemma blocked_entry l p :
  sl_inv l → sl_blocked l = Some p →
  ∃ e, live (sl_sb l) p e ∧ mapped (sl_sb l) p e ∧ sbe_sending e = false ∧ sbe_vice e = None ∧
       e = sent_entry p e false.
Proof.
  intros I Hb. destruct (proj1 (si_blocked _ _ _ (sv_sb _ I) p) Hb) as (e & Hl & Hr & Hs).
  exists e. pose proof (si_req _ _ _ (sv_sb _ I) _ _ Hl) as Hreq.
  destruct (sbe_request e) as [r|] eqn:Er; [|done]. destruct Hreq as [Hm ->].
  split_and!; [done|done|done| |].
  - destruct (sbe_vice e) eqn:Ev; [|done].
    destruct (si_vice _ _ _ (sv_sb _ I) _ _ _ Hl Ev) as (_ & ? & _). congruence.
  - unfold sent_entry, sbe_set_send, sbe_req in *. destruct e. simpl in *. by subst.
Qed.

Lemma retry_cases l accept :
  params_ok → sl_inv l →
  (sl_blocked l = None ∧ retryBlockedStoreBuffer P l accept = Ok (l, false)) ∨
  (∃ p cb, sl_blocked l = Some p ∧
     retryBlockedStoreBuffer P l accept = Ok (set_port l (sl_usedStorePorts l) cb, true) ∧
     ¬ (accept = true ∧ sl_cacheBlocked l = false ∧ storePortAvailable P l = true)) ∨
  (∃ p e banks, sl_blocked l = Some p ∧ live (sl_sb l) p e ∧
     let l' := SL (with_vec (sl_sb l) (lru_index (sl_sb l))
                     (<[p := sent_entry p e true]> (data_vec (sl_sb l))))
                  None (sl_flushing l) 0 true (sl_usedStorePorts l + 1) (sl_cacheBlocked l)
                  banks (sl_numReq l) in
     retryBlockedStoreBuffer P l accept = Ok (l', true) ∧ sl_inv l').
Proof.
  intros PO I. unfold retryBlockedStoreBuffer. destruct (sl_blocked l) as [p|] eqn:Hb; [|by left].
  right. destruct (blocked_entry l p I Hb) as (e & Hl & Hm & Hs & Hv & Ee).
  destruct (sa_entry _ _ (si_alloc _ _ _ (sv_sb _ I)) p e) as [_ Hsh]; [by destruct Hl|].
  assert (data_vec (sl_sb l) !! p = Some (sent_entry p e false)) as Hp by (rewrite <- Ee; by destruct Hl).
  destruct (send_cases l p e accept PO (sv_banks _ I) Hp Hsh Hs)
    as [(cb & -> & Hn)|(l1 & banks & -> & Hbk & _ & _ & Haft)].
  { left. exists p, cb. done. }
  right. exists p, e, banks. split; [done|]. split; [done|]. simpl. rewrite Haft. simpl. split; [done|].
  pose proof (sv_sb _ I) as J. assert (sbe_request e ≠ None) as Hr by (by rewrite Ee).
  assert (p ∉ cb_elems (lru_index (sl_sb l))) as Hlru.
  { rewrite (si_lru _ _ _ J). intros (x & Hx & _ & Rx). by rewrite (live_fun _ _ _ _ Hx Hl) in Rx. }
  split; simpl.
  - apply (inv_send k (sl_blocked l) (sl_sb l) p e true); try done; [by right|apply J|].
    intros i. split; [|tauto]. intros Hi. split; [done|congruence].
  - rewrite length_insert. apply I.
  - done.
  - destruct (sv_num _ I) as [HT Hn]. split; [done|]. intros t Ht. rewrite Hn by done. f_equal.
    symmetry. apply req_count_ext; [simpl; by rewrite length_insert|]. intros i.
    destruct (decide (i = p)) as [->|Hne]; [|by rewrite is_req_sent_ne].
    rewrite is_req_sent_eq, (is_req_live _ _ _ _ Hl), bool_decide_true by done. done.
  - intros i x [[-> ->]|[_ Hx]]%live_sent; [by apply (sv_tid _ I p e)|by eapply (sv_tid _ I)|done].
Qed.

(** ** Evicting *)

Lemma lru_last sb : unsentSize sb ≠ 0%Z → ∃ f p, cb_elems (lru_index sb) = f ++ [p].
Proof.
  unfold unsentSize. intros Hn. destruct (cb_elems (lru_index sb)) as [|x l _] using rev_ind; [done|].
  by exists l, x.
Qed.

(** The state after the eviction of the entry [p]. *)
Definition evicted l p e (s : bool) : StoreBuffer C :=
  with_vec (sl_sb l) (cb_pop_back (lru_index (sl_sb l)))
    (<[p := sent_entry p e s]> (data_vec (sl_sb l))).

Lemma evicted_inv l f p e s ns l' :
  sl_inv l → sl_blocked l = None → cb_elems (lru_index (sl_sb l)) = f ++ [p] →
  live (sl_sb l) p e → sbe_request e = None → mapped (sl_sb l) p e →
  ns = <[Z.to_nat (sbe_tid e) := (req_count (sl_sb l) (sbe_tid e) + 1)%Z]> (sl_numReq l) →
  sl_sb l' = evicted l p e s → sl_blocked l' = (if s then None else Some p) →
  banks_ok (sl_bankOccupied l') → sl_numReq l' = ns → sl_inv l'.
Proof.
  intros I Hb Hf Hl Hr Hm Ens Esb Ebl Hbk En. pose proof (sv_sb _ I) as J.
  pose proof (si_req _ _ _ J _ _ Hl) as Hs. rewrite Hr in Hs.
  assert (sbe_vice e = None) as Hv.
  { destruct (sbe_vice e) eqn:Ev; [|done]. destruct (si_vice _ _ _ J _ _ _ Hl Ev) as (_ & ? & _). congruence. }
  pose proof (si_lru_nodup _ _ _ J) as Hnd. rewrite Hf in Hnd. apply NoDup_app in Hnd as (Hnd & Hd & _).
  assert (cb_elems (cb_pop_back (lru_index (sl_sb l))) = f) as Hf' by (by eapply cb_elems_pop_back).
  pose proof (sv_tid _ I _ _ Hl) as Ht. destruct (sv_num _ I) as [HT Hn].
  pose proof (slot_live_lt _ _ _ Hl) as Hlt.
  split; rewrite ?Esb, ?Ebl, ?En, ?Ens; unfold evicted; simpl.
  - apply (inv_send k None (sl_sb l) p e s); try done; [by rewrite <- Hb|by left|by rewrite Hf'| |by rewrite cb_cap_pop_back].
    intros i. rewrite Hf', Hf. split; [|set_solver]. intros Hi. split; [set_solver|]. intros ->. set_solver.
  - rewrite length_insert. apply I.
  - done.
  - rewrite length_insert. split; [done|]. intros t Htt.
    pose proof (req_count_add (sl_sb l) (evicted l p e s) p e (Z.of_nat t)) as Hc.
    unfold evicted in Hc. rewrite Hc; [|by simpl; rewrite length_insert|done| | |].
    + destruct (decide (Z.of_nat t = sbe_tid e)) as [E|E].
      * rewrite <- E, Nat2Z.id, list_lookup_insert_eq by lia. done.
      * rewrite list_lookup_insert_ne, Hn, Z.add_0_r by lia. done.
    + intros i u Hne. by apply is_req_sent_ne.
    + intros u. rewrite (is_req_live _ _ _ _ Hl), Hr. done.
    + intros u. by apply is_req_sent_eq.
  - intros i x [[-> ->]|[_ Hx]]%live_sent; [done|by eapply (sv_tid _ I)|done].
Qed.

Lemma evict_cases l accept :
  params_ok → sl_inv l → sl_blocked l = None → unsentSize (sl_sb l) ≠ 0%Z →
  ∃ p e l', live (sl_sb l) p e ∧ mapped (sl_sb l) p e ∧ sbe_request e = None ∧
    evictEntry P l accept = Ok l' ∧ sl_inv l' ∧
    sl_flushing l' = sl_flushing l ∧
    ((sl_sb l' = evicted l p e false ∧ sl_blocked l' = Some p ∧
      sl_writeStall l' = sl_writeStall l ∧
      ¬ (accept = true ∧ sl_cacheBlocked l = false ∧ storePortAvailable P l = true)) ∨
     (sl_sb l' = evicted l p e true ∧ sl_blocked l' = None ∧ sl_writeStall l' = true)).
Proof.
  intros PO I Hb Hu. pose proof (sv_sb _ I) as J. destruct (lru_last _ Hu) as (f & p & Hf).
  assert (p ∈ cb_elems (lru_index (sl_sb l))) as Hin by (rewrite Hf; set_solver).
  apply (si_lru _ _ _ J) in Hin as (e & Hl & Hm & Hr).
  destruct (sa_entry _ _ (si_alloc _ _ _ J) p e) as [_ Hsh]; [by destruct Hl|].
  pose proof (si_req _ _ _ J _ _ Hl) as Hs. rewrite Hr in Hs.
  pose proof (sv_tid _ I _ _ Hl) as Ht. destruct (sv_num _ I) as [HT Hn].
  set (n := req_count (sl_sb l) (sbe_tid e)).
  set (ns := <[Z.to_nat (sbe_tid e) := (n + 1)%Z]> (sl_numReq l)). exists p, e.
  assert (evictEntry P l accept =
    let l1 := SL (evicted l p e false) None (sl_flushing l) (sl_inactive l) (sl_writeStall l)
                (sl_usedStorePorts l) (sl_cacheBlocked l) (sl_bankOccupied l) ns in
    let! sent := sendPacketToCache P l1 p accept in
    if snd sent : bool then afterSend P (fst sent) p
    else Ok (set_blocked (fst sent) (Some p))) as Eev.
  { unfold evictEntry, getEvict. rewrite Hf, last_snoc. rewrite (proj2 (Z.ltb_lt _ _)) by (unfold unsentSize in *; lia).
    simpl. rewrite (at_res_Some _ _ _ (proj2 Hl)). simpl. rewrite (at_res_Some _ _ _ (proj1 Hl)). simpl.
    rewrite (at_res_Some _ _ _ (proj1 Hl)). simpl. rewrite Hr. simpl.
    destruct (array_access (sl_numReq l) (Z.of_nat T) (sbe_tid e)) as (n' & Hn' & Hn'' & Hset); [lia|done|].
    rewrite Hn in Hn'' by lia. rewrite Z2Nat.id in Hn'' by lia. injection Hn'' as <-.
    rewrite Hn'. simpl. fold n. rewrite Hset.
    assert (n + 1 ≤ sp_sbufferEntries P)%Z as Hbd.
    { pose proof (req_count_bound (sl_sb l) (sbe_tid e) p (slot_live_lt _ _ _ Hl)) as Hbd.
      rewrite (is_req_live _ _ _ _ Hl), Hr in Hbd. specialize (Hbd eq_refl). rewrite (sv_n _ I) in Hbd.
      pose proof (po_entries PO). fold n in Hbd. lia. }
    rewrite (proj2 (Z.leb_le _ _)) by done. simpl. unfold with_entry. simpl.
    rewrite (upd_res_Some _ _ _ _ (proj1 Hl)). simpl.
    unfold evicted, with_vec, sent_entry, sbe_req, set_numReq, set_sb. simpl. rewrite Hs, Hb. done. }
  rewrite Eev. clear Eev. cbv zeta. set (l1 := SL _ _ _ _ _ _ _ _ _).
  assert (data_vec (sl_sb l1) !! p = Some (sent_entry p e false)) as Hp1.
  { simpl. by rewrite list_lookup_insert_eq by (by eapply slot_live_lt). }
  destruct (send_cases l1 p e accept PO (sv_banks _ I) Hp1 Hsh Hs)
    as [(cb & -> & Hnn)|(l2 & banks & -> & Hbk & _ & _ & Haft)]; simpl.
  - eexists. split_and!; try done; [|left; done].
    eapply (evicted_inv l f p e false ns); try done. apply (sv_banks _ I).
  - rewrite Haft. eexists. split_and!; try done; [|right]; simpl.
    + eapply (evicted_inv l f p e true ns); try done. simpl. unfold evicted, with_vec. simpl.
      by rewrite list_insert_insert_eq.
    + unfold evicted, with_vec. simpl. by rewrite list_insert_insert_eq.
Qed.

(** ** Inserting *)

Lemma sl_insert l tid vaddr paddr datas mask :
  params_ok → sl_inv l → sl_blocked l = None →
  store_ok k tid vaddr paddr datas (length datas) mask → (tid < Z.of_nat T)%Z →
  (insertStoreBuffer k tid (sl_sb l) vaddr paddr datas (length datas) mask = Ok (sl_sb l, false) ∧
   sb_full (sl_sb l) = true) ∨
  ∃ sb', insertStoreBuffer k tid (sl_sb l) vaddr paddr datas (length datas) mask = Ok (sb', true) ∧
    sl_inv (set_sb l sb') ∧ sb_frame (sl_sb l) sb' tid (block_addr k vaddr) (block_addr k paddr) ∧
    stored k (sl_sb l) sb' tid paddr datas (length datas) mask.
Proof.
  intros PO I Hb S Ht. destruct (po_line PO) as [_ Hk]. pose proof (sv_sb _ I) as J. rewrite Hb in J.
  destruct (insert_cases k tid vaddr paddr datas (length datas) mask Hk S (sl_sb l) J)
    as [?|(sb' & E & J' & F & St)]; [by left|].
  right. exists sb'. split_and!; [done| |done|done]. destruct F as (Fl & Ff & Fb).
  split; simpl; [by rewrite Hb|rewrite Fl; apply I|apply I| |].
  - destruct (sv_num _ I) as [HT Hn]. split; [done|]. intros t Htt. rewrite Hn by done. f_equal.
    symmetry. apply req_count_ext; [done|]. intros i. rewrite !is_req_true. split.
    + intros (y & Hy & Hr & E'). destruct (Fb _ _ Hy) as [(x & Hx)|(_ & _ & ? & _)]; [|done].
      destruct (Ff _ _ Hx) as (y' & Hy' & E1 & _ & E2 & _). pose proof (live_fun _ _ _ _ Hy Hy') as <-.
      exists x. rewrite <- E1, <- E2. done.
    + intros (x & Hx & Hr & E'). destruct (Ff _ _ Hx) as (y & Hy & E1 & _ & E2 & _).
      exists y. rewrite E1, E2. done.
  - intros i y Hy. destruct (Fb _ _ Hy) as [(x & Hx)|(-> & _ & _)].
    + destruct (Ff _ _ Hx) as (y' & Hy' & E1 & _). pose proof (live_fun _ _ _ _ Hy Hy') as <-.
      rewrite E1. by eapply (sv_tid _ I).
    + pose proof (so_tid _ _ _ _ _ _ _ S) as [? _]. lia.
Qed.

(** ** The answer of the cache *)

(** The buffer after the entry [p] is released. *)
Definition after_release sb (p : nat) (e : StoreBufferEntry) : StoreBuffer C :=
  match sbe_vice e with
  | None => released sb p e
  | Some v =>
      match data_vec sb !! v with
      | Some ev =>
          SB (sb_size sb - 1) (<[sbe_key ev := v]> (delete (sbe_key e) (data_map sb)))
            (<[v := Some (sbe_key ev)]> (crossRef sb)) (cb_push_front (lru_index sb) v)
            (cb_push_back (free_list sb) p) (data_vec sb) (<[p := false]> (data_vld sb))
      | None => sb
      end
  end.

Lemma release_spec b sb p e :
  sb_inv k b sb → live sb p e → mapped sb p e → sbe_sending e = true →
  sb_release sb p = Ok (after_release sb p e) ∧ sb_inv k b (after_release sb p e).
Proof.
  intros I Hl Hm Hs. pose proof (si_alloc _ _ _ I) as A.
  destruct (sa_len _ _ A) as (Lv & Lc & _). pose proof (slot_live_lt _ _ _ Hl) as Hlt.
  destruct (sa_entry _ _ A p e) as [Ei _]; [by destruct Hl|].
  assert (0 < sb_size sb)%Z as Hsz.
  { pose proof (sa_size _ _ A). pose proof (free_room _ _ _ _ _ I Hl) as Hr.
    destruct (sa_len _ _ A) as (_ & _ & _ & Lf). lia. }
  destruct (si_map _ _ _ I _ _ Hm) as (e0 & _ & _ & Hcr).
  assert (find_index (free_list sb) p = None) as Hfi.
  { unfold find_index. destruct (list_find _ _) as [[j q]|] eqn:E; [|done].
    apply list_find_Some in E as (Hq & -> & _). apply list_elem_of_lookup_2 in Hq.
    apply (sa_free _ _ A) in Hq. destruct Hl as [_ Hv]. congruence. }
  unfold sb_release, after_release. rewrite (proj2 (Z.ltb_lt _ _)) by done. simpl.
  rewrite (at_res_Some _ _ _ (proj1 Hl)). simpl. rewrite Ei, upd_res_Ok by lia. simpl.
  rewrite (at_res_Some _ _ _ Hcr). simpl. unfold mapped in Hm. rewrite Hm. simpl. rewrite Hfi. simpl.
  destruct (sbe_vice e) as [v|] eqn:Hv.
  - destruct (si_vice _ _ _ I _ _ _ Hl Hv) as (_ & _ & Hne & ev & Hlv & _ & _ & Et & Ea).
    destruct (sa_entry _ _ A v ev) as [Eiv _]; [by destruct Hlv|].
    destruct (inv_release_vice k b sb p e v ev I Hl Hv Hlv) as [_ I'].
    rewrite (at_res_Some _ _ _ (proj1 Hlv)), (proj1 Hlv). simpl. rewrite Eiv.
    assert (<[p := false]> (data_vld sb) !! v = Some true) as Hvv
      by (rewrite list_lookup_insert_ne by done; by destruct Hlv).
    rewrite (at_res_Some _ _ _ Hvv). simpl. rewrite upd_res_Ok by (rewrite Lc; by eapply slot_live_lt). simpl.
    assert (map_insert (delete (sbe_key e) (data_map sb)) (sbe_key ev) v =
            <[sbe_key ev := v]> (delete (sbe_key e) (data_map sb))) as Emi.
    { unfold map_insert. replace (sbe_key ev) with (sbe_key e) by (unfold sbe_key; by rewrite Et, Ea).
      by rewrite lookup_delete_eq. }
    unfold sbe_key in Emi at 2. by rewrite Emi.
  - split; [done|]. by apply inv_release.
Qed.

(** The bytes that go are those of [p]; those of its vice stay. *)
Lemma release_bytes b sb p e t a :
  (0 ≤ k ≤ 64)%Z → sb_inv k b sb → live sb p e → mapped sb p e → in_u k t → in_u 64 a →
  let o := Z.to_nat (block_off k a) in
  (t = sbe_tid e ∧ block_addr k a = sbe_blockPaddr e ∧
     match sb_byte k (after_release sb p e) t a with
     | Some x => sb_byte k sb t a = Some x
     | None => sb_byte k sb t a = sbe_byte e o
     end) ∨
  (¬ (t = sbe_tid e ∧ block_addr k a = sbe_blockPaddr e) ∧
     sb_byte k (after_release sb p e) t a = sb_byte k sb t a).
Proof.
  intros Hk I Hl Hm Ht Ha o. destruct (block_split k a Hk Ha) as (_ & Hba & Haa).
  destruct (si_addr _ _ _ I _ _ Hl) as (Ht' & Hb' & Hal').
  destruct (decide (t = sbe_tid e ∧ block_addr k a = sbe_blockPaddr e)) as [[-> Eb]|Hne].
  - left. split; [done|]. split; [done|]. unfold sb_byte at 2 3. rewrite Eb. fold (sbe_key e).
    rewrite Hm. unfold slot_byte. rewrite (proj1 Hl). unfold after_release, sb_byte.
    rewrite Eb. fold (sbe_key e). fold o. destruct (sbe_vice e) as [v|] eqn:Hv.
    + destruct (si_vice _ _ _ I _ _ _ Hl Hv) as (_ & _ & Hne & ev & Hlv & Vv & _ & Et & Ea).
      rewrite (proj1 Hlv). simpl.
      assert (sbe_key ev = sbe_key e) as -> by (unfold sbe_key; by rewrite Et, Ea).
      rewrite lookup_insert_eq. unfold slot_byte. simpl. rewrite (proj1 Hlv), Vv.
      by destruct (sbe_byte ev o).
    + simpl. by rewrite lookup_delete_eq.
  - right. split; [done|]. unfold sb_byte.
    assert (hashKey t (block_addr k a) ≠ sbe_key e) as Hkey.
    { intros E. apply Hne. by eapply hashKey_inj. }
    unfold after_release. destruct (sbe_vice e) as [v|] eqn:Hv.
    + destruct (si_vice _ _ _ I _ _ _ Hl Hv) as (_ & _ & _ & ev & Hlv & Vv & _ & Et & Ea).
      rewrite (proj1 Hlv). simpl.
      assert (sbe_key ev = sbe_key e) as -> by (unfold sbe_key; by rewrite Et, Ea).
      by rewrite lookup_insert_ne, lookup_delete_ne by done.
    + simpl. by rewrite lookup_delete_ne by done.
Qed.

Lemma after_release_live sb p e i x :
  (∀ v, sbe_vice e = Some v → is_Some (data_vec sb !! v)) → live sb p e →
  live (after_release sb p e) i x ↔ i ≠ p ∧ live sb i x.
Proof.
  intros Hv Hl. rewrite <- (live_released sb p e i x Hl). unfold after_release.
  destruct (sbe_vice e) as [v|]; [|done]. by destruct (Hv v eq_refl) as [ev ->].
Qed.

Lemma recvSbufferResp_spec l p e :
  params_ok → sl_inv l → live (sl_sb l) p e → sbe_sending e = true →
  ∃ l', recvSbufferResp l p = Ok l' ∧ sl_inv l' ∧ sl_sb l' = after_release (sl_sb l) p e ∧
    sl_blocked l' = sl_blocked l ∧ sl_flushing l' = sl_flushing l ∧
    sl_writeStall l' = sl_writeStall l ∧ sl_cacheBlocked l' = sl_cacheBlocked l.
Proof.
  intros PO I Hl Hs. pose proof (sv_sb _ I) as J.
  pose proof (si_req _ _ _ J _ _ Hl) as Hr. destruct (sbe_request e) as [r|] eqn:Er; [|congruence].
  destruct Hr as [Hm ->]. destruct (release_spec _ _ _ _ J Hl Hm Hs) as [Hrel J'].
  pose proof (sv_tid _ I _ _ Hl) as Ht. destruct (sv_num _ I) as [HT Hn].
  assert (∀ v, sbe_vice e = Some v → is_Some (data_vec (sl_sb l) !! v)) as Hvs.
  { intros v Hv. destruct (si_vice _ _ _ J _ _ _ Hl Hv) as (_ & _ & _ & ev & [? _] & _). eauto. }
  pose proof (λ i x, after_release_live (sl_sb l) p e i x Hvs Hl) as HL.
  assert (data_vec (after_release (sl_sb l) p e) = data_vec (sl_sb l)) as Evec.
  { unfold after_release. destruct (sbe_vice e); [|done]. by destruct (data_vec (sl_sb l) !! n). }
  set (sb' := after_release (sl_sb l) p e) in *.
  assert (∀ t, req_count (sl_sb l) t = (req_count sb' t + if decide (t = sbe_tid e) then 1 else 0)%Z) as Hc.
  { intros t. apply (req_count_add sb' (sl_sb l) p e); [by rewrite Evec|rewrite Evec; by eapply slot_live_lt| | |].
    - intros i u Hne. apply eq_true_iff_eq. rewrite !is_req_true. split; intros (x & Hx & ?); exists x.
      + split; [by apply HL|done].
      + apply HL in Hx as [_ Hx]. done.
    - intros u. destruct (is_req sb' u p) eqn:E; [|done]. apply is_req_true in E as (x & [? _]%HL & _). done.
    - intros u. rewrite (is_req_live _ _ _ _ Hl), Er. done. }
  assert (0 ≤ req_count sb' (sbe_tid e))%Z as Hpos by (unfold req_count; lia).
  unfold recvSbufferResp. rewrite (at_res_Some _ _ _ (proj1 Hl)). simpl. rewrite Er. simpl. rewrite Hs. simpl.
  rewrite Hrel. simpl.
  destruct (array_access (sl_numReq l) (Z.of_nat T) (sbe_tid e)) as (n' & Hn' & Hn'' & Hset); [lia|done|].
  rewrite Hn in Hn'' by lia. rewrite Z2Nat.id in Hn'' by lia. injection Hn'' as <-. rewrite Hn'. simpl.
  rewrite Hc, decide_True in * by done.
  rewrite (proj2 (Z.ltb_lt _ _)) by lia. simpl. rewrite Hset. simpl.
  eexists. split; [done|]. split; [|done].
  split; simpl; [done|rewrite Evec; apply I|apply I| |].
  - rewrite length_insert. split; [done|]. intros t Htt.
    destruct (decide (Z.of_nat t = sbe_tid e)) as [E|E].
    + rewrite <- E, Nat2Z.id, list_lookup_insert_eq by lia. f_equal. lia.
    + rewrite list_lookup_insert_ne, Hn, Hc, decide_False by lia. f_equal. lia.
  - intros i x [_ Hx]%HL. by eapply (sv_tid _ I).
Qed.

End Steps.
