(* ===== verification/StoreBufferProps.v ===== *)
(** The store buffer refines a byte memory.

    Every call of the load/store queue and of the cache succeeds from every reachable
    state, and what a thread reads through the buffer changes exactly by the stores
    the buffer takes.  A flush empties the buffer. *)
From stdpp Require Import gmap.
From S2P Require Import Prelude CircularBuffer Bytes StoreBuffer StoreBufferInv StoreBufferView.
From S2P Require Import StoreBufferLsq StoreBufferSteps.

Section Props.

Context {C : Type} `{CircularBufferLaws C nat}.
Context (P : SbParams) (T : nat).
Hypothesis PO : params_ok P T.

Local Notation k := (sp_lineBits P).
Implicit Types (sb : StoreBuffer C) (l : SbLsq C) (s : SbSys C).

Lemma line_bits : (0 ≤ k ≤ 64)%Z.
Proof. apply PO. Qed.

(** ** Writeback *)

Lemma size_zero b sb i e : sb_inv k b sb → sb_size sb = 0%Z → ¬ live sb i e.
Proof.
  intros I Hz Hl. pose proof (free_room _ _ _ _ _ I Hl). pose proof (sa_size _ _ (si_alloc _ _ _ I)).
  destruct (sa_len _ _ (si_alloc _ _ _ I)) as (_ & _ & _ & Lf). lia.
Qed.

Lemma size_zero_lru b sb : sb_inv k b sb → sb_size sb = 0%Z → cb_elems (lru_index sb) = [].
Proof.
  intros I Hz. destruct (cb_elems (lru_index sb)) as [|i l] eqn:E; [done|].
  assert (i ∈ cb_elems (lru_index sb)) as Hi by (rewrite E; set_solver).
  apply (si_lru _ _ _ I) in Hi as (e & Hl & _). by apply (size_zero b sb i e) in I.
Qed.

(** Requests come and go; owners, bytes and the map stay. *)
Definition wb_same sb sb' : Prop :=
  data_map sb' = data_map sb ∧ sb_size sb' = sb_size sb ∧
  (∀ t a, sb_byte k sb' t a = sb_byte k sb t a) ∧
  (∀ i x, live sb i x → ∃ f r, live sb' i (sbe_set_send x f r) ∧ (sbe_sending x = true → f = true)) ∧
  (∀ i y, live sb' i y → ∃ x, live sb i x).

Lemma set_send_same x : sbe_set_send x (sbe_sending x) (sbe_request x) = x.
Proof. by destruct x. Qed.

Lemma wb_same_refl sb : wb_same sb sb.
Proof.
  split_and!; try done; [|eauto]. intros i x Hx. exists (sbe_sending x), (sbe_request x).
  by rewrite set_send_same.
Qed.

Lemma wb_same_sent sb p e (f : bool) lru :
  live sb p e → sbe_sending e = false →
  wb_same sb (with_vec sb lru (<[p := sent_entry p e f]> (data_vec sb))).
Proof.
  intros Hl Hs. pose proof (λ i x, live_sent sb p e f lru i x Hl) as HL.
  split_and!; [done|done|intros; apply sent_bytes; by destruct Hl| |].
  - intros i x Hx. destruct (decide (i = p)) as [->|Hne].
    + pose proof (live_fun _ _ _ _ Hx Hl) as ->. eexists f, _. split; [apply HL; by left|congruence].
    + exists (sbe_sending x), (sbe_request x). rewrite set_send_same. split; [apply HL; by right|done].
  - intros i y [[-> ->]|[_ Hy]]%HL; eauto.
Qed.

(** [retryBlockedStoreBuffer], wherever it is called from. *)
Lemma retry_spec l accept :
  sl_inv P T l →
  ∃ l' r, retryBlockedStoreBuffer P l accept = Ok (l', r) ∧ sl_inv P T l' ∧
    wb_same (sl_sb l) (sl_sb l') ∧ (r = false → l' = l ∧ sl_blocked l = None).
Proof.
  intros I. destruct (retry_cases P T l accept PO I)
    as [[Hb ->]|[(p & cb & Hb & -> & _)|(p & e & banks & Hb & Hl & -> & I')]].
  - eexists _, _. split; [done|]. split; [done|]. split; [apply wb_same_refl|done].
  - eexists _, _. split; [done|]. split; [|split; [apply wb_same_refl|done]].
    by apply (sl_inv_fields P T l); try apply I.
  - destruct (blocked_entry P T l p I Hb) as (e' & Hl' & _ & Hs & _).
    pose proof (live_fun _ _ _ _ Hl' Hl) as ->.
    eexists _, _. split; [done|]. split; [done|]. split; [by apply wb_same_sent|done].
Qed.

Lemma writeback_spec l sqfull accept :
  sl_inv P T l →
  ∃ l', storeBufferWriteback P l sqfull accept = Ok l' ∧ sl_inv P T l' ∧ wb_same (sl_sb l) (sl_sb l').
Proof.
  intros I. unfold storeBufferWriteback.
  set (l0 := if sl_flushing l && (sb_size (sl_sb l) =? 0)%Z then set_flushing l false else l).
  assert (sl_inv P T l0 ∧ sl_sb l0 = sl_sb l) as [I0 E0].
  { unfold l0. destruct (_ && _); [|done]. split; [|done]. by apply (sl_inv_fields P T l); try apply I. }
  assert ((if sl_flushing l && (sb_size (sl_sb l) =? 0)%Z
           then do! assert_ (unsentSize (sl_sb l) =? 0)%Z "storeBuffer.unsentSize() == 0" in
                Ok (set_flushing l false) else Ok l) = Ok l0) as ->.
  { unfold l0. destruct (sl_flushing l); simpl; [|done]. destruct (Z.eqb_spec (sb_size (sl_sb l)) 0); [|done].
    unfold unsentSize. by rewrite (size_zero_lru _ _ (sv_sb _ _ _ I)). }
  simpl. rewrite <- E0. clear E0 I. rename I0 into I. clearbody l0. clear l. rename l0 into l.
  destruct (sl_writeStall l).
  { eexists. split; [done|]. split; [|apply wb_same_refl]. by apply (sl_inv_fields P T l); try apply I. }
  destruct (retry_spec l accept I) as (l1 & r & -> & I1 & W1 & Hr). simpl.
  destruct r; [by exists l1|]. destruct (Hr eq_refl) as [-> Hb]. clear Hr.
  destruct (Z.eqb_spec (unsentSize (sl_sb l)) 0) as [Hz|Hz]; [by exists l|].
  destruct (evictCause P l sqfull) as [c|].
  - destruct (evict_cases P T l accept PO I Hb Hz)
      as (p & e & l' & Hl & Hm & Hr & -> & I' & _ & Hcase).
    exists l'. split; [done|]. split; [done|].
    pose proof (si_req _ _ _ (sv_sb _ _ _ I) _ _ Hl) as Hs. rewrite Hr in Hs.
    destruct Hcase as [(-> & _)|(-> & _)]; by apply wb_same_sent.
  - eexists. split; [done|]. split; [|apply wb_same_refl]. by apply (sl_inv_fields P T l); try apply I.
Qed.

(** ** The system *)

Section System.

(** The thread that stores to each block, and the virtual block it uses. *)
Context (own va : Z → Z).
Hypothesis Hown : ∀ b, (0 ≤ own b < Z.of_nat T)%Z.

(** What the owner of an address reads there. *)
Definition sys_view s : memory :=
  λ a, sb_view k (sl_sb (ss_lsq s)) (ss_mem s) (own (block_addr k a)) a.

Record sys_inv s : Prop := {
  yi_lsq : sl_inv P T (ss_lsq s);
  yi_own i e : live (sl_sb (ss_lsq s)) i e →
    sbe_tid e = own (sbe_blockPaddr e) ∧ sbe_blockVaddr e = va (sbe_blockPaddr e);
  yi_done p : p ∈ ss_done s →
    ∃ e, live (sl_sb (ss_lsq s)) p e ∧ sbe_sending e = true ∧
      ∀ o x, sbe_byte e o = Some x → ss_mem s (sbe_blockPaddr e + Z.of_nat o)%Z = x
}.

(** A store that a step offers to the buffer. *)
Definition ev_ok (ev : sb_event) : Prop :=
  match ev with
  | EvInsert tid vaddr paddr datas mask =>
      store_ok k tid vaddr paddr datas (length datas) mask ∧ tid = own (block_addr k paddr) ∧
      block_addr k vaddr = va (block_addr k paddr)
  | _ => True
  end.

(** The memory after a store. *)
Definition ev_write (m : memory) (ev : sb_event) : memory :=
  match ev with
  | EvInsert _ _ paddr datas mask => mem_write m paddr datas mask
  | _ => m
  end.

Lemma own_in_u b : in_u k (own b).
Proof. pose proof (Hown b). pose proof (po_threads _ _ PO). unfold in_u. lia. Qed.

(** The write of an entry as the cache performs it. *)
Lemma entry_write sb b m i e a :
  sb_inv k b sb → live sb i e → in_u 64 a →
  mem_write m (sbe_blockPaddr e) (sbe_blockDatas e) (sbe_validMask e) a =
    if decide (block_addr k a = sbe_blockPaddr e) then
      match sbe_byte e (Z.to_nat (block_off k a)) with Some x => x | None => m a end
    else m a.
Proof.
  intros I Hl Ha. pose proof line_bits as Hk. destruct (si_addr _ _ _ I _ _ Hl) as (_ & Hb & Hal).
  destruct (sa_entry _ _ (si_alloc _ _ _ I) i e) as [_ [Lb Lv]]; [by destruct Hl|].
  destruct (block_split k a Hk Ha) as ([Ea Ho] & _).
  destruct (decide (block_addr k a = sbe_blockPaddr e)) as [E|Hne].
  - unfold mem_write, sbe_byte. rewrite (proj2 (Z.leb_le _ _)), (proj2 (Z.ltb_lt _ _)) by lia. simpl.
    replace (Z.to_nat (a - sbe_blockPaddr e)) with (Z.to_nat (block_off k a)) by lia.
    set (o := Z.to_nat (block_off k a)).
    by destruct (sbe_validMask e !! o) as [[]|], (sbe_blockDatas e !! o).
  - apply mem_write_out. rewrite Lv, Z2Nat.id by lia.
    destruct (decide (a < sbe_blockPaddr e)%Z); [by left|]. right.
    destruct (decide (sbe_blockPaddr e + 2 ^ k ≤ a)%Z); [done|]. exfalso. apply Hne.
    destruct (block_addr_of k (sbe_blockPaddr e) (a - sbe_blockPaddr e) Hk Hb Hal) as (_ & Hx & _);
      [lia|]. by replace (sbe_blockPaddr e + (a - sbe_blockPaddr e))%Z with a in Hx by lia.
Qed.

Lemma sending_mapped l i e :
  sl_inv P T l → live (sl_sb l) i e → sbe_sending e = true →
  mapped (sl_sb l) i e ∧ sbe_request e = Some (sbe_req i e).
Proof.
  intros I Hl Hs. pose proof (si_req _ _ _ (sv_sb _ _ _ I) _ _ Hl) as Hr.
  destruct (sbe_request e); [|congruence]. by destruct Hr as [? ->].
Qed.

(** Two writes under way are to different blocks. *)
Lemma sending_disjoint s i e j x :
  sys_inv s → live (sl_sb (ss_lsq s)) i e → sbe_sending e = true →
  live (sl_sb (ss_lsq s)) j x → sbe_sending x = true → sbe_blockPaddr e = sbe_blockPaddr x → i = j.
Proof.
  intros I He Se Hx Sx E.
  destruct (sending_mapped _ _ _ (yi_lsq _ I) He Se) as [Me _].
  destruct (sending_mapped _ _ _ (yi_lsq _ I) Hx Sx) as [Mx _].
  unfold mapped, sbe_key in *. rewrite (proj1 (yi_own _ I _ _ He)), E in Me.
  rewrite (proj1 (yi_own _ I _ _ Hx)) in Mx. congruence.
Qed.

Lemma in_flight_live l p r :
  sl_inv P T l → in_flight l p = Some r →
  ∃ e, live (sl_sb l) p e ∧ sbe_sending e = true ∧ r = sbe_req p e.
Proof.
  intros I. unfold in_flight. destruct (data_vec (sl_sb l) !! p) as [e|] eqn:Ep; [|done].
  destruct (data_vld (sl_sb l) !! p) as [[]|] eqn:Ev; [|done..].
  assert (live (sl_sb l) p e) as Hl by done.
  pose proof (si_req _ _ _ (sv_sb _ _ _ I) _ _ Hl) as Hr. destruct (sbe_request e) as [r'|]; [|done].
  destruct Hr as [_ ->]. simpl. destruct (sbe_sending e) eqn:Es; [|done]. simpl. intros [= <-].
  exists e. done.
Qed.

(** The byte of the slot of a block is the byte of its entry where there is no vice's. *)
Lemma own_byte sb b i e a :
  sb_inv k b sb → live sb i e → mapped sb i e → block_addr k a = sbe_blockPaddr e →
  sb_byte k sb (sbe_tid e) a = None → sbe_byte e (Z.to_nat (block_off k a)) = None.
Proof.
  intros I Hl Hm Ea. unfold sb_byte. rewrite Ea. fold (sbe_key e). rewrite Hm. unfold slot_byte.
  rewrite (proj1 Hl). by destruct (match sbe_vice e with Some _ => _ | None => _ end).
Qed.

Lemma step_insert s tid vaddr paddr datas mask :
  let ev := EvInsert tid vaddr paddr datas mask in
  sys_inv s → ev_ok ev →
  ∃ s' b, sb_step P s ev = Ok (s', b) ∧ sys_inv s' ∧
    ∀ a, in_u 64 a → sys_view s' a = (if b then ev_write (sys_view s) ev else sys_view s) a.
Proof.
  intros ev I (S & Et & Ev). pose proof line_bits as Hk. simpl.
  destruct (bool_decide (sl_blocked (ss_lsq s) = None)) eqn:Hb; [|by exists s, false].
  apply bool_decide_eq_true in Hb.
  destruct (sl_insert P T (ss_lsq s) tid vaddr paddr datas mask PO (yi_lsq _ I) Hb S)
    as [[-> _]|(sb' & -> & I' & F & St)]; [rewrite Et; apply Hown| |]; simpl.
  { eexists _, false. split; [done|]. assert (set_sb (ss_lsq s) (sl_sb (ss_lsq s)) = ss_lsq s) as E
      by (by destruct (ss_lsq s)). rewrite E. destruct s; done. }
  eexists _, true. split; [done|]. destruct F as (_ & Ff & Fb). split; [split; simpl|].
  - done.
  - intros i y Hy. destruct (Fb _ _ Hy) as [(x & Hx)|(E1 & E2 & _ & E3)]; [|by rewrite E1, E2, E3].
    destruct (Ff _ _ Hx) as (y' & Hy' & E1 & E2 & _ & _ & E3 & _).
    pose proof (live_fun _ _ _ _ Hy Hy') as <-. rewrite E1, E2, E3. by apply (yi_own _ I i).
  - intros p (e & Hl & Hs & Hm)%(yi_done _ I). destruct (Ff _ _ Hl) as (y & Hy & _ & E2 & _ & E4 & _ & E5).
    exists y. split; [done|]. split; [congruence|]. intros o x. unfold sbe_byte. rewrite E2.
    destruct E5 as [-> ->]; [|apply Hm]. by destruct (sending_mapped _ _ _ (yi_lsq _ I) Hl Hs) as [_ ->].
  - intros a Ha. unfold sys_view. simpl.
    rewrite (stored_view k tid vaddr paddr datas (length datas) mask Hk S (sl_sb (ss_lsq s)));
      [|done|apply own_in_u|done].
    destruct (decide (own (block_addr k a) = tid)) as [<-|Hne].
    + by apply mem_write_ext.
    + unfold ev, ev_write. rewrite mem_write_out; [done|].
      destruct (block_split k paddr Hk (so_paddr _ _ _ _ _ _ _ S)) as ([Ep Hop] & Hbp & Hap).
      pose proof (so_block _ _ _ _ _ _ _ S). pose proof (so_mask _ _ _ _ _ _ _ S) as Hmk.
      rewrite Hmk. destruct (decide (a < paddr)%Z); [by left|]. right.
      destruct (decide (paddr + Z.of_nat (length datas) ≤ a)%Z); [done|]. exfalso. apply Hne.
      destruct (block_addr_of k (block_addr k paddr) (a - block_addr k paddr) Hk Hbp Hap) as (_ & Hx & _);
        [lia|].
      replace (block_addr k paddr + (a - block_addr k paddr))%Z with a in Hx by lia. by rewrite Hx.
Qed.

(** A call that changes no bytes. *)
Lemma step_same s l' :
  sys_inv s → sl_inv P T l' → wb_same (sl_sb (ss_lsq s)) (sl_sb l') →
  sys_inv (SS l' (ss_mem s) (ss_done s)) ∧
  ∀ a, sys_view (SS l' (ss_mem s) (ss_done s)) a = sys_view s a.
Proof.
  intros I I' (_ & _ & Wb & Wf & Wk). split.
  - split; simpl; [done| |].
    + intros i y Hy. destruct (Wk _ _ Hy) as (x & Hx). destruct (Wf _ _ Hx) as (f & r & Hy' & _).
      pose proof (live_fun _ _ _ _ Hy Hy') as ->. by apply (yi_own _ I i x).
    + intros p (e & Hl & Hs & Hm)%(yi_done _ I). destruct (Wf _ _ Hl) as (f & r & Hy & Hf).
      exists (sbe_set_send e f r). split; [done|]. split; [by apply Hf|done].
  - intros a. unfold sys_view, sb_view. simpl. by rewrite Wb.
Qed.

Lemma step_cache_write s p :
  sys_inv s →
  ∃ s', sb_step P s (EvCacheWrite p) = Ok (s', false) ∧ sys_inv s' ∧
    ∀ a, in_u 64 a → sys_view s' a = sys_view s a.
Proof.
  intros I. pose proof line_bits as Hk. simpl.
  destruct (in_flight (ss_lsq s) p) as [r|] eqn:Hf; [|by exists s].
  destruct (bool_decide (p ∈ ss_done s)) eqn:Hd; [by exists s|]. apply bool_decide_eq_false in Hd.
  destruct (in_flight_live _ _ _ (yi_lsq _ I) Hf) as (e & Hl & Hs & ->). simpl.
  rewrite (at_res_Some _ _ _ (proj1 Hl)). simpl. eexists. split; [done|].
  pose proof (sv_sb _ _ _ (yi_lsq _ I)) as J.
  destruct (si_addr _ _ _ J _ _ Hl) as (_ & Hb & Hal).
  destruct (sending_mapped _ _ _ (yi_lsq _ I) Hl Hs) as [Hm _]. split; [split; simpl|].
  - apply (yi_lsq _ I).
  - apply (yi_own _ I).
  - intros q Hq. assert (∀ i x o y, live (sl_sb (ss_lsq s)) i x → sbe_byte x o = Some y →
        in_u 64 (sbe_blockPaddr x + Z.of_nat o) ∧ block_addr k (sbe_blockPaddr x + Z.of_nat o) = sbe_blockPaddr x ∧
        block_off k (sbe_blockPaddr x + Z.of_nat o) = Z.of_nat o) as Hbyte.
    { intros i x o y Hx Hy. destruct (si_addr _ _ _ J _ _ Hx) as (_ & Hbx & Halx).
      destruct (sa_entry _ _ (si_alloc _ _ _ J) i x) as [_ [_ Lv]]; [by destruct Hx|].
      apply block_addr_of; [done|done|done|]. unfold sbe_byte in Hy.
      destruct (sbe_validMask x !! o) eqn:Eo; [|done]. apply lookup_lt_Some in Eo. lia. }
    apply elem_of_cons in Hq as [->|Hq].
    + exists e. split; [done|]. split; [done|]. intros o x Hx.
      destruct (Hbyte _ _ _ _ Hl Hx) as (Hu & E1 & E2).
      rewrite (entry_write _ _ _ _ _ _ J Hl Hu), decide_True, E2, Nat2Z.id, Hx by done. done.
    + destruct (yi_done _ I q Hq) as (x & Hx & Sx & Hmx). exists x. split; [done|]. split; [done|].
      intros o y Hy. destruct (Hbyte _ _ _ _ Hx Hy) as (Hu & E1 & E2).
      rewrite (entry_write _ _ _ _ _ _ J Hl Hu), decide_False; [by apply Hmx|].
      rewrite E1. intros E. apply Hd. by rewrite (sending_disjoint s p e q x).
  - intros a Ha. unfold sys_view, sb_view. simpl. destruct (sb_byte k _ _ a) eqn:Eb; [done|].
    rewrite (entry_write _ _ _ _ _ _ J Hl Ha). destruct (decide (block_addr k a = sbe_blockPaddr e)) as [E|]; [|done].
    rewrite E, <- (proj1 (yi_own _ I _ _ Hl)) in Eb. by rewrite (own_byte _ _ _ _ _ J Hl Hm E Eb).
Qed.

Lemma step_cache_resp s p :
  sys_inv s →
  ∃ s', sb_step P s (EvCacheResp p) = Ok (s', false) ∧ sys_inv s' ∧
    ∀ a, in_u 64 a → sys_view s' a = sys_view s a.
Proof.
  intros I. pose proof line_bits as Hk. simpl.
  destruct (bool_decide (p ∈ ss_done s)) eqn:Hd; [|by exists s]. apply bool_decide_eq_true in Hd.
  destruct (yi_done _ I p Hd) as (e & Hl & Hs & Hm).
  pose proof (sv_sb _ _ _ (yi_lsq _ I)) as J.
  destruct (sending_mapped _ _ _ (yi_lsq _ I) Hl Hs) as [Hmap _].
  destruct (recvSbufferResp_spec P T (ss_lsq s) p e PO (yi_lsq _ I) Hl Hs) as (l' & -> & I' & Esb & _).
  simpl. eexists. split; [done|].
  assert (∀ i x, live (sl_sb l') i x ↔ i ≠ p ∧ live (sl_sb (ss_lsq s)) i x) as HL.
  { intros i x. rewrite Esb. apply after_release_live; [|done]. intros v Hv.
    destruct (si_vice _ _ _ J _ _ _ Hl Hv) as (_ & _ & _ & ev & [? _] & _). eauto. }
  split; [split; simpl|].
  - done.
  - intros i x [_ Hx]%HL. by apply (yi_own _ I i).
  - intros q [Hne Hq]%list_elem_of_filter. destruct (yi_done _ I q Hq) as (x & Hx & ?).
    exists x. split; [by apply HL|done].
  - intros a Ha. unfold sys_view, sb_view. simpl. rewrite Esb.
    destruct (release_bytes P _ (sl_sb (ss_lsq s)) p e (own (block_addr k a)) a Hk J Hl Hmap (own_in_u _) Ha)
      as [(Et & Eb & E)|[_ ->]]; [|done].
    destruct (sb_byte k (after_release _ _ _) _ a); [by rewrite E|]. rewrite E.
    destruct (sbe_byte e _) eqn:Ex; [|done]. rewrite <- (Hm _ _ Ex).
    destruct (block_split k a Hk Ha) as ([Ea Ho] & _). f_equal. lia.
Qed.

Lemma sb_step_ok s ev :
  sys_inv s → ev_ok ev →
  ∃ s' b, sb_step P s ev = Ok (s', b) ∧ sys_inv s' ∧
    ∀ a, in_u 64 a → sys_view s' a = (if b then ev_write (sys_view s) ev else sys_view s) a.
Proof.
  intros I Hev. destruct ev as [tid vaddr paddr datas mask|sqf acc|acc|busy| |p|p].
  - by apply step_insert.
  - simpl. destruct (writeback_spec (ss_lsq s) sqf acc (yi_lsq _ I)) as (l' & -> & I' & W). simpl.
    destruct (step_same s l' I I' W) as [I2 E2]. eexists _, false. split; [done|]. by split; [|auto].
  - simpl. unfold recvReqRetry.
    destruct (retry_spec (set_port (ss_lsq s) (sl_usedStorePorts (ss_lsq s)) false) acc)
      as (l' & r & -> & I' & W & _); [by apply (sl_inv_fields P T (ss_lsq s)); try apply I|]. simpl.
    destruct (step_same s l' I I' W) as [I2 E2]. eexists _, false. split; [done|]. by split; [|auto].
  - simpl. destruct (sv_banks _ _ _ (yi_lsq _ I)) as [Lb Fb].
    destruct (step_same s (clearBanks (sl_tick (ss_lsq s)) busy) I) as [I2 E2].
    + apply (sl_inv_fields P T (ss_lsq s)); try done; [apply I|]. simpl. split.
      * rewrite length_zip_with, length_app, length_replicate. lia.
      * apply Forall_forall. intros row Hr. apply elem_of_lookup_zip_with in Hr as (i & r0 & b0 & -> & Hr0 & _).
        rewrite length_map. by eapply Forall_lookup_1 in Fb.
    + apply wb_same_refl.
    + eexists _, false. split; [done|]. by split; [|auto].
  - simpl. destruct (step_same s (set_flushing (ss_lsq s) true) I) as [I2 E2].
    + by apply (sl_inv_fields P T (ss_lsq s)); try apply I.
    + apply wb_same_refl.
    + eexists _, false. split; [done|]. by split; [|auto].
  - destruct (step_cache_write s p I) as (s' & E & I' & V). by exists s', false.
  - destruct (step_cache_resp s p I) as (s' & E & I' & V). by exists s', false.
Qed.

End System.
End Props.
