(* ===== verification/StoreBufferThm.v ===== *)
(** Runs of the store buffer: the refinement of a byte memory over a whole run, loads that
    read through the buffer, the flush that empties it; the theorems on the store buffer,
    with instances on a small buffer. *)
From stdpp Require Import gmap.
From S2P Require Import Prelude CircularBuffer Bytes StoreBuffer StoreBufferInv StoreBufferView.
From S2P Require Import StoreBufferLsq StoreBufferSteps StoreBufferProps.

Section Drain.

Context {C : Type} `{CircularBufferLaws C nat}.
Context (P : SbParams) (T : nat).
Hypothesis PO : params_ok P T.
Context (own va : Z → Z).
Hypothesis Hown : ∀ b, (0 ≤ own b < Z.of_nat T)%Z.

Local Notation k := (sp_lineBits P).
Implicit Types (sb : StoreBuffer C) (l : SbLsq C) (s : SbSys C).

Local Notation sinv := (sys_inv P T own va).
Local Notation view := (sys_view P own).

(** ** Runs *)

Definition sb_init (m : memory) : SbSys C := SS (sl_init P T) m [].

Lemma sb_init_inv m : sinv (sb_init m).
Proof.
  assert (∀ i e, ¬ live (sl_sb (ss_lsq (sb_init m))) i e) as HL.
  { intros i e [_ Hv]. simpl in Hv. apply lookup_replicate in Hv as [? _]. done. }
  split; [split|..].
  - apply inv_setData.
  - simpl. by rewrite length_map, length_seq.
  - simpl. split; [by rewrite length_replicate|]. by apply Forall_replicate.
  - simpl. split; [by rewrite length_replicate|]. intros t Ht. rewrite lookup_replicate_2 by done.
    f_equal. unfold req_count. rewrite filter_none; [done|]. apply Forall_forall. intros i _ Hr.
    apply is_req_true in Hr as (e & He & _). by apply HL in He.
  - intros i e He. by apply HL in He.
  - intros i e He. by apply HL in He.
  - simpl. intros p Hp. by apply elem_of_nil in Hp.
Qed.

(** The stores the buffer took, as writes to a memory. *)
Definition ev_writes (m : memory) (evs : list sb_event) : memory := foldl ev_write m evs.

Lemma ev_writes_ext m m' evs a : m a = m' a → ev_writes m evs a = ev_writes m' evs a.
Proof.
  revert m m'. induction evs as [|ev evs IH]; intros m m' E; [done|]. simpl. apply IH.
  destruct ev; simpl; [by apply mem_write_ext|done..].
Qed.

Lemma sb_run_ok s evs :
  sinv s → Forall (ev_ok P own va) evs →
  ∃ s' taken, sb_run P s evs = Ok (s', taken) ∧ sinv s' ∧
    ∀ a, in_u 64 a → view s' a = ev_writes (view s) taken a.
Proof.
  revert s. induction evs as [|ev evs IH]; intros s I Hev; [by exists s, []|].
  apply Forall_cons in Hev as [He Hev].
  destruct (sb_step_ok P T PO own va Hown s ev I He) as (s1 & b & Hs & I1 & V1).
  destruct (IH s1 I1 Hev) as (s2 & taken & Hr & I2 & V2).
  exists s2, (if b then ev :: taken else taken). simpl. rewrite Hs. simpl. rewrite Hr. simpl.
  split; [done|]. split; [done|]. intros a Ha. rewrite V2 by done.
  destruct b; simpl; by apply ev_writes_ext, V1.
Qed.

(** An empty buffer hides nothing of the memory. *)
Lemma view_empty s a : sinv s → sb_size (sl_sb (ss_lsq s)) = 0%Z → view s a = ss_mem s a.
Proof.
  intros I Hz. unfold sys_view, sb_view, sb_byte.
  destruct (data_map _ !! _) as [p|] eqn:E; [|done].
  destruct (si_map _ _ _ (sv_sb _ _ _ (yi_lsq _ _ _ _ _ I)) _ _ E) as (e & Hl & _).
  by destruct (size_zero P _ _ _ _ (sv_sb _ _ _ (yi_lsq _ _ _ _ _ I)) Hz Hl).
Qed.

(** ** One cycle of a flush *)

(** The cache performs and answers the write of an entry, if there is one. *)
Lemma write_resp s p :
  sinv s →
  ∃ s', sb_run P s [EvCacheWrite p; EvCacheResp p] = Ok (s', []) ∧ sinv s' ∧
    (∀ a, in_u 64 a → view s' a = view s a) ∧
    sl_flushing (ss_lsq s') = sl_flushing (ss_lsq s) ∧
    sl_writeStall (ss_lsq s') = sl_writeStall (ss_lsq s) ∧
    (∀ i x, i ≠ p → live (sl_sb (ss_lsq s)) i x → live (sl_sb (ss_lsq s')) i x) ∧
    (sb_size (sl_sb (ss_lsq s')) ≤ sb_size (sl_sb (ss_lsq s)))%Z ∧
    (∀ e, live (sl_sb (ss_lsq s)) p e → sbe_sending e = true →
       sb_size (sl_sb (ss_lsq s')) = sb_size (sl_sb (ss_lsq s)) - 1)%Z.
Proof.
  intros I. pose proof (yi_lsq _ _ _ _ _ I) as IL. pose proof (sv_sb _ _ _ IL) as J.
  destruct (step_cache_write P T PO own va s p I) as (s1 & E1 & I1 & V1).
  assert (ss_lsq s1 = ss_lsq s ∧ (p ∈ ss_done s1 ↔ is_Some (in_flight (ss_lsq s) p))) as [El Hd].
  { simpl in E1. destruct (in_flight (ss_lsq s) p) as [r|] eqn:Hf.
    - destruct (bool_decide (p ∈ ss_done s)) eqn:Hb.
      + apply bool_decide_eq_true in Hb. injection E1 as <-. split; [done|]. naive_solver.
      + apply res_bind_Ok in E1 as (e & _ & E1). injection E1 as <-. split; [done|]. simpl. split; [eauto|]. intros _. set_solver.
    - injection E1 as <-. split; [done|]. split; [|by intros [? ?]]. intros Hin.
      destruct (yi_done _ _ _ _ _ I p Hin) as (e & Hl & Hs & _).
      destruct (sending_mapped P T _ _ _ IL Hl Hs) as [_ Hr]. destruct Hl as [H1 H2].
      unfold in_flight in Hf. rewrite H1, H2, Hr in Hf. simpl in Hf. by rewrite Hs in Hf. }
  assert (∀ s2, sb_step P s1 (EvCacheResp p) = Ok (s2, false) →
    sb_run P s [EvCacheWrite p; EvCacheResp p] = Ok (s2, [])) as Hrun.
  { intros s2 E2. unfold sb_run. rewrite E1. cbn [res_bind fst snd]. rewrite E2. done. }
  destruct (step_cache_resp P T PO own va Hown s1 p I1) as (s2 & E2 & I2 & V2).
  exists s2. split; [by apply Hrun|]. split; [done|].
  split; [intros a Ha; rewrite V2, V1 by done; done|]. simpl in E2.
  destruct (bool_decide (p ∈ ss_done s1)) eqn:Hb.
  - apply bool_decide_eq_true in Hb. destruct (yi_done _ _ _ _ _ I1 p Hb) as (e & Hl & Hs & _).
    rewrite El in *.
    destruct (recvSbufferResp_spec P T (ss_lsq s) p e PO IL Hl Hs) as (l' & Er & _ & Esb & _ & Ef & Ew & _).
    rewrite Er in E2. simpl in E2. injection E2 as <-. simpl.
    assert (∀ v, sbe_vice e = Some v → is_Some (data_vec (sl_sb (ss_lsq s)) !! v)) as Hvs.
    { intros v Hv. destruct (si_vice _ _ _ J _ _ _ Hl Hv) as (_ & _ & _ & ev & [? _] & _). eauto. }
    assert (sb_size (sl_sb l') = sb_size (sl_sb (ss_lsq s)) - 1)%Z as Hsz.
    { rewrite Esb. unfold after_release. destruct (sbe_vice e) as [v|]; [|done].
      by destruct (Hvs v eq_refl) as [ev ->]. }
    split_and!; [done|done| |lia|intros; lia].
    intros i x Hne Hx. rewrite Esb. by apply after_release_live.
  - apply bool_decide_eq_false in Hb. injection E2 as <-. rewrite El.
    split_and!; [done|done|done|lia|]. intros e Hl Hs. exfalso. apply Hb, Hd.
    destruct (sending_mapped P T _ _ _ IL Hl Hs) as [_ Hr]. destruct Hl as [H1 H2].
    unfold in_flight. rewrite H1, H2, Hr. simpl. rewrite Hs. simpl. eauto.
Qed.

(** ... and of every entry in turn. *)
Definition resp_events (ps : list nat) : list sb_event :=
  concat (map (λ p, [EvCacheWrite p; EvCacheResp p]) ps).

Lemma run_app s evs1 evs2 :
  sb_run P s (evs1 ++ evs2) =
    let! r1 := sb_run P s evs1 in
    let! r2 := sb_run P (fst r1) evs2 in
    Ok (fst r2, snd r1 ++ snd r2).
Proof.
  revert s. induction evs1 as [|ev evs1 IH]; intros s; simpl.
  - destruct (sb_run P s evs2) as [[s' t]|]; done.
  - destruct (sb_step P s ev) as [[s1 b]|]; simpl; [|done]. rewrite IH.
    destruct (sb_run P s1 evs1) as [[s2 t]|]; simpl; [|done].
    destruct (sb_run P s2 evs2) as [[s3 t']|]; simpl; [|done]. by destruct b.
Qed.

Lemma resp_loop s ps :
  sinv s →
  ∃ s', sb_run P s (resp_events ps) = Ok (s', []) ∧ sinv s' ∧
    (∀ a, in_u 64 a → view s' a = view s a) ∧
    sl_flushing (ss_lsq s') = sl_flushing (ss_lsq s) ∧
    sl_writeStall (ss_lsq s') = sl_writeStall (ss_lsq s) ∧
    (sb_size (sl_sb (ss_lsq s')) ≤ sb_size (sl_sb (ss_lsq s)))%Z ∧
    (∀ q e, q ∈ ps → live (sl_sb (ss_lsq s)) q e → sbe_sending e = true →
       sb_size (sl_sb (ss_lsq s')) < sb_size (sl_sb (ss_lsq s)))%Z.
Proof.
  revert s. induction ps as [|p ps IH]; intros s I.
  { exists s. split_and!; try done; [].
    intros q e Hq. by apply elem_of_nil in Hq. }
  destruct (write_resp s p I) as (s1 & E1 & I1 & V1 & F1 & W1 & L1 & Z1 & D1).
  destruct (IH s1 I1) as (s2 & E2 & I2 & V2 & F2 & W2 & Z2 & D2).
  exists s2. split.
  { unfold resp_events in *. rewrite map_cons, concat_cons, run_app, E1. cbn [res_bind fst snd].
    rewrite E2. done. }
  split; [done|]. split; [intros; rewrite V2, V1 by done; done|].
  split_and!; [congruence|congruence|lia|]. intros q e Hq Hl Hs.
  destruct (decide (q = p)) as [->|Hne]; [specialize (D1 e Hl Hs); lia|].
  apply elem_of_cons in Hq as [->|Hq]; [done|]. specialize (D2 q e Hq (L1 q e Hne Hl) Hs). lia.
Qed.

(** A cycle in which the cache takes what it is offered and answers what it holds. *)
Definition drain_cycle : list sb_event :=
  [EvTick []; EvRetry true; EvWriteback false true] ++
  resp_events (seq 0 (Z.to_nat (sp_sbufferEntries P))).

(** What is left to do, counting the cycle a write stalls the port. *)
Definition drain_left s : Z :=
  (2 * sb_size (sl_sb (ss_lsq s)) + if sl_writeStall (ss_lsq s) then 1 else 0)%Z.

Lemma size_nonneg s : sinv s → (0 ≤ sb_size (sl_sb (ss_lsq s)) ≤ sp_sbufferEntries P)%Z.
Proof.
  intros I. pose proof (yi_lsq _ _ _ _ _ I) as IL. pose proof (si_alloc _ _ _ (sv_sb _ _ _ IL)) as A.
  pose proof (sa_size _ _ A). destruct (sa_len _ _ A) as (Lv & _). pose proof (sv_n _ _ _ IL).
  pose proof (po_entries _ _ PO).
  assert (length (cb_elems (free_list (sl_sb (ss_lsq s)))) ≤ length (data_vec (sl_sb (ss_lsq s)))); [|lia].
  apply nodup_bound; [apply (sa_free_nodup _ _ A)|]. intros i Hi%(sa_free _ _ A).
  rewrite <- Lv. by eapply lookup_lt_Some.
Qed.

(** Some entry in use is blocked, unsent or under way. *)
Lemma some_mapped s :
  sinv s → sb_size (sl_sb (ss_lsq s)) ≠ 0%Z → sl_blocked (ss_lsq s) = None →
  unsentSize (sl_sb (ss_lsq s)) ≠ 0%Z ∨
  ∃ q e, live (sl_sb (ss_lsq s)) q e ∧ sbe_sending e = true.
Proof.
  intros I Hz Hb. pose proof (yi_lsq _ _ _ _ _ I) as IL. pose proof (sv_sb _ _ _ IL) as J.
  pose proof (si_alloc _ _ _ J) as A. destruct (sa_len _ _ A) as (Lv & _).
  destruct (decide (true ∈ data_vld (sl_sb (ss_lsq s)))) as [[i Hi]%list_elem_of_lookup|Hn].
  - destruct (lookup_lt_is_Some_2 (data_vec (sl_sb (ss_lsq s))) i) as [e He].
    { rewrite <- Lv. by eapply lookup_lt_Some. }
    assert (∃ j x, live (sl_sb (ss_lsq s)) j x ∧ mapped (sl_sb (ss_lsq s)) j x) as (j & x & Hx & Hm).
    { destruct (si_reach _ _ _ J i e) as [?|(p & ep & Hp & Hv)]; [done|by exists i, e|].
      exists p, ep. split; [done|]. by destruct (si_vice _ _ _ J _ _ _ Hp Hv). }
    destruct (sbe_request x) as [r|] eqn:Er.
    + right. exists j, x. split; [done|]. destruct (sbe_sending x) eqn:Es; [done|].
      assert (sl_blocked (ss_lsq s) = Some j) as E; [|congruence].
      apply (si_blocked _ _ _ J). exists x. by rewrite Er.
    + left. unfold unsentSize. assert (j ∈ cb_elems (lru_index (sl_sb (ss_lsq s)))) as Hj
        by (apply (si_lru _ _ _ J); eauto).
      destruct (cb_elems (lru_index (sl_sb (ss_lsq s)))); [by apply elem_of_nil in Hj|]. done.
  - exfalso. apply Hz. pose proof (sa_size _ _ A) as Hs.
    assert (length (data_vec (sl_sb (ss_lsq s))) ≤ length (cb_elems (free_list (sl_sb (ss_lsq s))))) as Hle.
    { rewrite <- (length_seq (length (data_vec (sl_sb (ss_lsq s)))) 0).
      apply submseteq_length, NoDup_submseteq; [apply NoDup_seq|]. intros i Hi%elem_of_seq.
      apply (sa_free _ _ A). destruct (lookup_lt_is_Some_2 (data_vld (sl_sb (ss_lsq s))) i) as [[] Hb']; [lia| |done].
      exfalso. apply Hn. by eapply list_elem_of_lookup_2. }
    pose proof (size_nonneg s I). lia.
Qed.

Lemma step_inv s ev s' :
  sinv s → ev_ok P own va ev → sb_step P s ev = Ok (s', false) →
  sinv s' ∧ ∀ a, in_u 64 a → view s' a = view s a.
Proof.
  intros I Hev E. destruct (sb_step_ok P T PO own va Hown s ev I Hev) as (s1 & b & E1 & I1 & V1).
  rewrite E in E1. injection E1 as <- <-. done.
Qed.

Hypothesis Hports : (1 ≤ sp_cacheStorePorts P)%Z.

(** The ports are free and the cache is ready: a blocked entry is sent. *)
Lemma cycle_retry s :
  sinv s →
  ∃ s1, sb_run P s [EvTick []; EvRetry true] = Ok (s1, []) ∧ sinv s1 ∧
    (∀ a, in_u 64 a → view s1 a = view s a) ∧
    sb_size (sl_sb (ss_lsq s1)) = sb_size (sl_sb (ss_lsq s)) ∧
    sl_flushing (ss_lsq s1) = sl_flushing (ss_lsq s) ∧ sl_blocked (ss_lsq s1) = None ∧
    ((∃ q e, live (sl_sb (ss_lsq s1)) q e ∧ sbe_sending e = true) ∨
     (sl_writeStall (ss_lsq s1) = sl_writeStall (ss_lsq s) ∧ sl_cacheBlocked (ss_lsq s1) = false ∧
      storePortAvailable P (ss_lsq s1) = true)).
Proof.
  intros I. set (s0 := SS (clearBanks (sl_tick (ss_lsq s)) []) (ss_mem s) (ss_done s)).
  assert (sb_step P s (EvTick []) = Ok (s0, false)) as E0 by done.
  destruct (step_inv s (EvTick []) s0 I Logic.I E0) as [I0 V0].
  set (l0 := set_port (ss_lsq s0) 0 false).
  assert (storePortAvailable P l0 = true) as Hav by (apply Z.ltb_lt; simpl; lia).
  assert (sl_inv P T l0) as IL0.
  { apply (sl_inv_fields P T (ss_lsq s0)); try done; apply (yi_lsq _ _ _ _ _ I0). }
  assert (∀ s1, sb_step P s0 (EvRetry true) = Ok (s1, false) →
    sb_run P s [EvTick []; EvRetry true] = Ok (s1, []) ∧ sinv s1 ∧
    (∀ a, in_u 64 a → view s1 a = view s a)) as Hrun.
  { intros s1 E1. destruct (step_inv s0 (EvRetry true) s1 I0 Logic.I E1) as [I1 V1].
    split; [|split; [done|intros; rewrite V1, V0 by done; done]].
    unfold sb_run. rewrite E0. cbn [res_bind fst snd]. rewrite E1. done. }
  assert (∀ l1 b, retryBlockedStoreBuffer P l0 true = Ok (l1, b) →
    sb_step P s0 (EvRetry true) = Ok (SS l1 (ss_mem s) (ss_done s), false)) as Hstep.
  { intros l1 b E. unfold sb_step, recvReqRetry.
    change (set_port (ss_lsq s0) (sl_usedStorePorts (ss_lsq s0)) false) with l0. by rewrite E. }
  destruct (retry_cases P T l0 true PO IL0) as [[Hb Er]|[(p & cb & Hb & Er & Hn)|(p & e & banks & Hb & Hl & Er & Iv)]].
  - destruct (Hrun _ (Hstep _ _ Er)) as (R & I1 & V1). eexists. split; [done|]. split_and!; try done. by right.
  - exfalso. by apply Hn.
  - destruct (Hrun _ (Hstep _ _ Er)) as (R & I1 & V1). eexists. split; [done|]. split_and!; try done.
    left. exists p, (sent_entry p e true). split; [|done]. simpl. apply live_sent; [done|by left].
Qed.

(** The write side of a cycle of a flush. *)
Lemma cycle_front s :
  sinv s → sl_flushing (ss_lsq s) = true →
  ∃ s1, sb_run P s [EvTick []; EvRetry true; EvWriteback false true] = Ok (s1, []) ∧ sinv s1 ∧
    (∀ a, in_u 64 a → view s1 a = view s a) ∧
    sb_size (sl_sb (ss_lsq s1)) = sb_size (sl_sb (ss_lsq s)) ∧
    (sl_flushing (ss_lsq s1) = negb (sb_size (sl_sb (ss_lsq s)) =? 0)%Z) ∧
    (sb_size (sl_sb (ss_lsq s)) ≠ 0%Z →
     (∃ q e, live (sl_sb (ss_lsq s1)) q e ∧ sbe_sending e = true) ∨
     (sl_writeStall (ss_lsq s) = true ∧ sl_writeStall (ss_lsq s1) = false)).
Proof.
  intros I Hf. destruct (cycle_retry s I) as (s0 & R0 & I0 & V0 & Z0 & F0 & B0 & Hc). rewrite Hf in F0.
  pose proof (yi_lsq _ _ _ _ _ I0) as IL0.
  assert (∀ l1, storeBufferWriteback P (ss_lsq s0) false true = Ok l1 →
    let s1 := SS l1 (ss_mem s0) (ss_done s0) in
    sb_run P s [EvTick []; EvRetry true; EvWriteback false true] = Ok (s1, []) ∧ sinv s1 ∧
    (∀ a, in_u 64 a → view s1 a = view s a) ∧ wb_same P (sl_sb (ss_lsq s0)) (sl_sb l1)) as Hrun.
  { intros l1 E1 s1. assert (sb_step P s0 (EvWriteback false true) = Ok (s1, false)) as Es
      by (unfold sb_step; by rewrite E1).
    destruct (step_inv s0 (EvWriteback false true) s1 I0 Logic.I Es) as [I1 V1].
    split_and!; [|done|intros; rewrite V1, V0 by done; done|].
    - change [EvTick []; EvRetry true; EvWriteback false true]
        with ([EvTick []; EvRetry true] ++ [EvWriteback false true]).
      rewrite run_app, R0. cbn [res_bind fst snd sb_run]. rewrite Es. done.
    - destruct (writeback_spec P T PO (ss_lsq s0) false true IL0) as (l' & E' & _ & W). congruence. }
  destruct (writeback_spec P T PO (ss_lsq s0) false true IL0) as (l1 & E1 & _ & W).
  destruct (Hrun l1 E1) as (R & I1 & V1 & _). clear Hrun. exists (SS l1 (ss_mem s0) (ss_done s0)).
  destruct W as (_ & Wz & _ & Wf & _). split_and!; try done; [simpl; lia| |]; simpl; rewrite <- Z0.
  all: unfold storeBufferWriteback in E1; rewrite F0 in E1; cbn [andb] in E1.
  all: unfold retryBlockedStoreBuffer in E1.
  - destruct (Z.eqb_spec (sb_size (sl_sb (ss_lsq s0))) 0) as [Hz|Hz].
    + assert (unsentSize (sl_sb (ss_lsq s0)) = 0%Z) as Hu
        by (unfold unsentSize; by rewrite (size_zero_lru P T PO _ _ (sv_sb _ _ _ IL0) Hz)).
      rewrite Hu in E1. simpl in E1. destruct (sl_writeStall (ss_lsq s0)); [injection E1 as <-; done|].
      rewrite B0 in E1. simpl in E1. rewrite Hu in E1. simpl in E1. by injection E1 as <-.
    + simpl in E1. destruct (sl_writeStall (ss_lsq s0)); [injection E1 as <-; simpl; by rewrite F0|].
      rewrite B0 in E1. simpl in E1. destruct (Z.eqb_spec (unsentSize (sl_sb (ss_lsq s0))) 0);
        [injection E1 as <-; simpl; by rewrite F0|].
      unfold evictCause in E1. rewrite F0 in E1.
      destruct (evict_cases P T (ss_lsq s0) true PO IL0 B0) as (p & e & l2 & _ & _ & _ & Ee & _ & Ef & _);
        [done|]. rewrite Ee in E1. injection E1 as <-. by rewrite Ef, F0.
  - intros Hz. rewrite (proj2 (Z.eqb_neq _ _) Hz) in E1. simpl in E1.
    destruct Hc as [(q & x & Hx & Hsx)|(Hw & Hcb & Hav)].
    { left. destruct (Wf _ _ Hx) as (f & r & Hy & Hff). exists q, (sbe_set_send x f r).
      split; [done|]. by apply Hff. }
    destruct (sl_writeStall (ss_lsq s0)) eqn:Hw0; [injection E1 as <-; by right|].
    rewrite B0 in E1. simpl in E1. left.
    destruct (Z.eqb_spec (unsentSize (sl_sb (ss_lsq s0))) 0) as [Hu|Hu].
    { injection E1 as <-. by destruct (some_mapped s0 I0 Hz B0). }
    unfold evictCause in E1. rewrite F0 in E1.
    destruct (evict_cases P T (ss_lsq s0) true PO IL0 B0 Hu)
      as (p & e & l2 & Hl & _ & _ & Ee & _ & _ & Hcase).
    rewrite Ee in E1. injection E1 as <-. destruct Hcase as [(_ & _ & _ & Hn)|(Esb & _)]; [exfalso; by apply Hn|].
    exists p, (sent_entry p e true). split; [|done]. rewrite Esb. apply live_sent; [done|by left].
Qed.

Lemma cycle_ok s :
  sinv s → sl_flushing (ss_lsq s) = true →
  ∃ s', sb_run P s drain_cycle = Ok (s', []) ∧ sinv s' ∧ (∀ a, in_u 64 a → view s' a = view s a) ∧
    (sl_flushing (ss_lsq s') = negb (sb_size (sl_sb (ss_lsq s)) =? 0)%Z) ∧
    (sb_size (sl_sb (ss_lsq s')) ≤ sb_size (sl_sb (ss_lsq s)))%Z ∧
    (sb_size (sl_sb (ss_lsq s)) ≠ 0%Z → drain_left s' < drain_left s)%Z.
Proof.
  intros I Hf. destruct (cycle_front s I Hf) as (s1 & R1 & I1 & V1 & Z1 & F1 & Hc).
  destruct (resp_loop s1 (seq 0 (Z.to_nat (sp_sbufferEntries P))) I1)
    as (s2 & R2 & I2 & V2 & F2 & W2 & Z2 & D2).
  exists s2. split.
  { unfold drain_cycle. rewrite run_app, R1. cbn [res_bind fst snd]. rewrite R2. done. }
  split; [done|]. split; [intros; rewrite V2, V1 by done; done|].
  split; [congruence|]. split; [lia|]. intros Hz. unfold drain_left.
  destruct (Hc Hz) as [(q & e & Hl & Hs)|[Hw Hw1]].
  - assert (q ∈ seq 0 (Z.to_nat (sp_sbufferEntries P))) as Hq.
    { apply elem_of_seq. pose proof (slot_live_lt _ _ _ Hl) as Hlt.
      rewrite (sv_n _ _ _ (yi_lsq _ _ _ _ _ I1)) in Hlt. lia. }
    specialize (D2 q e Hq Hl Hs). destruct (sl_writeStall (ss_lsq s2)), (sl_writeStall (ss_lsq s)); lia.
  - rewrite W2, Hw1, Hw. lia.
Qed.

(** [n] cycles. *)
Definition drain_cycles (n : nat) : list sb_event := concat (replicate n drain_cycle).

Lemma cycles_ok n s :
  sinv s → sl_flushing (ss_lsq s) = true → (drain_left s < Z.of_nat n)%Z →
  ∃ m s', m ≤ n ∧ sb_run P s (drain_cycles m) = Ok (s', []) ∧ sinv s' ∧
    (∀ a, in_u 64 a → view s' a = view s a) ∧
    sl_flushing (ss_lsq s') = false ∧ sb_size (sl_sb (ss_lsq s')) = 0%Z.
Proof.
  revert s. induction n as [|n IH]; intros s I Hf Hn; pose proof (size_nonneg s I) as Hsz.
  { unfold drain_left in Hn. destruct (sl_writeStall _); lia. }
  destruct (cycle_ok s I Hf) as (s1 & R1 & I1 & V1 & F1 & Z1 & D1).
  pose proof (size_nonneg s1 I1) as Hsz1.
  destruct (Z.eqb_spec (sb_size (sl_sb (ss_lsq s))) 0) as [Hz|Hz].
  - exists 1, s1. split; [lia|]. unfold drain_cycles. change (concat (replicate 1 drain_cycle)) with (drain_cycle ++ []).
    rewrite app_nil_r. split_and!; try done. lia.
  - specialize (D1 Hz). destruct (IH s1 I1 F1 ltac:(lia)) as (m & s2 & Hm & R2 & I2 & V2 & F2 & Z2).
    exists (S m), s2. split; [lia|]. split.
    { unfold drain_cycles in *.
      change (concat (replicate (S m) drain_cycle)) with (drain_cycle ++ concat (replicate m drain_cycle)).
      rewrite run_app, R1. cbn [res_bind fst snd]. rewrite R2. done. }
    split; [done|]. split; [intros; rewrite V2, V1 by done; done|done].
Qed.

End Drain.

(** The theorems on the store buffer, with instances on a small buffer. *)

(** C13: the store buffer is transparent.  Run any sequence of insertions, evictions,
    retries, cache writes and cache answers from the initial state, every block being
    stored to by one thread through one virtual block.  No assertion of the code
    fails; the owner of every address reads there, through the buffer, the memory
    after the stores the buffer took, in order; and when the buffer is empty that is
    what the memory itself holds. *)
Theorem sbuffer_refines_memory {C : Type} `{CircularBufferLaws C nat} (P : SbParams) (T : nat)
    (own va : Z → Z) (m0 : memory) (evs : list sb_event) :
  params_ok P T → (∀ b, (0 ≤ own b < Z.of_nat T)%Z) → Forall (ev_ok P own va) evs →
  ∃ (s : SbSys C) taken, sb_run P (sb_init P T m0) evs = Ok (s, taken) ∧
    (∀ a, in_u 64 a → sys_view P own s a = ev_writes m0 taken a) ∧
    (sb_size (sl_sb (ss_lsq s)) = 0%Z →
     ∀ a, in_u 64 a → ss_mem s a = ev_writes m0 taken a).
Proof.
  intros PO Hown Hev. pose proof (sb_init_inv (C := C) P T own va m0) as I0.
  destruct (sb_run_ok P T PO own va Hown _ evs I0 Hev) as (s & taken & R & I & V).
  exists s, taken. split; [done|].
  assert (∀ a, in_u 64 a → sys_view P own s a = ev_writes m0 taken a) as V'.
  { intros a Ha. rewrite V by done. apply ev_writes_ext. by apply (view_empty P T own va). }
  split; [done|]. intros Hz a Ha. rewrite <- V' by done. symmetry. by apply (view_empty P T own va).
Qed.

(** C20: a flush ends.  From every reachable state, once [flushStores] has set the flag
    and the cache takes and answers what it is sent, at most [2 * entries + 2] cycles
    later the buffer is empty, the flag is clear again, and the memory holds every
    store the buffer took. *)
Theorem sbuffer_flush_drains {C : Type} `{CircularBufferLaws C nat} (P : SbParams) (T : nat)
    (own va : Z → Z) (m0 : memory) (evs : list sb_event) :
  params_ok P T → (∀ b, (0 ≤ own b < Z.of_nat T)%Z) → Forall (ev_ok P own va) evs →
  (1 ≤ sp_cacheStorePorts P)%Z →
  ∃ (s s' : SbSys C) taken n, sb_run P (sb_init P T m0) evs = Ok (s, taken) ∧
    (Z.of_nat n ≤ 2 * sp_sbufferEntries P + 2)%Z ∧
    sb_run P s (EvFlush :: drain_cycles P n) = Ok (s', []) ∧
    sl_flushing (ss_lsq s') = false ∧ sb_size (sl_sb (ss_lsq s')) = 0%Z ∧
    ∀ a, in_u 64 a → ss_mem s' a = ev_writes m0 taken a.
Proof.
  intros PO Hown Hev Hports. pose proof (sb_init_inv (C := C) P T own va m0) as I0.
  destruct (sb_run_ok P T PO own va Hown _ evs I0 Hev) as (s & taken & R & I & V).
  set (s1 := SS (set_flushing (ss_lsq s) true) (ss_mem s) (ss_done s)).
  assert (sb_step P s EvFlush = Ok (s1, false)) as E1 by done.
  destruct (step_inv P T PO own va Hown s EvFlush s1 I Logic.I E1) as [I1 V1].
  destruct (cycles_ok P T PO own va Hown Hports (Z.to_nat (2 * sp_sbufferEntries P + 2)) s1 I1)
    as (n & s' & Hn & R' & I' & V' & F' & Z'); [done| |].
  { pose proof (size_nonneg P T PO own va s1 I1). unfold drain_left.
    destruct (sl_writeStall (ss_lsq s1)); lia. }
  exists s, s', taken, n. split; [done|]. split.
  { pose proof (size_nonneg P T PO own va s1 I1). lia. }
  split. { cbn [sb_run]. rewrite E1. cbn [res_bind fst snd]. rewrite R'. done. }
  split; [done|]. split; [done|]. intros a Ha.
  rewrite <- (view_empty P T own va s' a I' Z'), V', V1, V by done.
  apply ev_writes_ext. by apply (view_empty P T own va).
Qed.

(** ** A buffer of two entries *)

Definition ex_params : SbParams :=
  {| sp_lineBits := 6; sp_sbufferEntries := 2; sp_evictThreshold := 1; sp_inactiveThreshold := 8;
     sp_cacheStorePorts := 1; sp_bankWriteAccurately := true; sp_setDivNum := 1 |}.

(** A store, its eviction, a second store to the block on its way (which makes a
    vice), the write and the answer of the cache. *)
Definition ex_events : list sb_event :=
  [EvInsert 0 4096 4096 [1; 2]%Z [true; true];
   EvFlush; EvTick []; EvWriteback false true;
   EvInsert 0 4097 4097 [7]%Z [true];
   EvCacheWrite 1; EvCacheResp 1].

Lemma ex_params_ok : params_ok ex_params 1.
Proof.
  split; simpl; [done| |done|done]. exists 0%Z. done.
Qed.

Lemma ex_events_ok : Forall (ev_ok ex_params (λ _, 0%Z) id) ex_events.
Proof.
  repeat constructor; try done; vm_compute; try done; try lia; intuition congruence.
Qed.

(** What the run ends with, seen at the address 4097, and the stores it took. *)
Definition ex_result : res (Z * Z * list sb_event) :=
  let! r := sb_run ex_params (sb_init ex_params 1 (λ _, 0%Z) : SbSys (lbuf nat)) ex_events in
  Ok (sys_view ex_params (λ _, 0%Z) (fst r) 4097%Z, ss_mem (fst r) 4097%Z, snd r).

Lemma ex_result_eq :
  ex_result = Ok (7, 2, [EvInsert 0 4096 4096 [1; 2] [true; true]; EvInsert 0 4097 4097 [7] [true]])%Z.
Proof. vm_compute. reflexivity. Qed.

Lemma sbuffer_refines_memory_witness :
  ∃ (s : SbSys (lbuf nat)) taken,
    sb_run ex_params (sb_init ex_params 1 (λ _, 0%Z)) ex_events = Ok (s, taken) ∧
    sys_view ex_params (λ _, 0%Z) s 4097%Z = 7%Z ∧ ss_mem s 4097%Z = 2%Z.
Proof.
  destruct (sbuffer_refines_memory (C := lbuf nat) ex_params 1 (λ _, 0%Z) id (λ _, 0%Z) ex_events
    ex_params_ok ltac:(intros; lia) ex_events_ok) as (s & taken & R & V & _).
  exists s, taken. pose proof ex_result_eq as E. unfold ex_result in E. rewrite R in E.
  cbn [res_bind fst snd] in E. injection E as E1 E2 _. split_and!; [exact R|exact E1|exact E2].
Defined.

Lemma sbuffer_flush_drains_witness :
  ∃ (s' : SbSys (lbuf nat)), ss_mem s' 4096%Z = 1%Z ∧ ss_mem s' 4097%Z = 7%Z.
Proof.
  destruct (sbuffer_flush_drains (C := lbuf nat) ex_params 1 (λ _, 0%Z) id (λ _, 0%Z) ex_events
    ex_params_ok ltac:(intros; lia) ex_events_ok ltac:(simpl; lia))
    as (s & s' & taken & n & R & _ & _ & _ & _ & V).
  pose proof ex_result_eq as E. unfold ex_result in E. rewrite R in E.
  cbn [res_bind fst snd] in E. injection E as _ _ ->.
  exists s'. split; (rewrite V by (unfold in_u; lia)); vm_compute; reflexivity.
Defined.
