(* ===== verification/CircularQueue.v ===== *)
(** The circular queue of base/circular_queue.hh.

    The elements live in a vector; indices grow without bound and are taken modulo the
    capacity.  An iterator is its index.  [cq_list] is the queue from the oldest to the
    youngest element; each operation is the list operation it implements as long as
    the indices stay below [2 ^ 64]. *)
From S2P Require Import Prelude Bytes.

(** [CircularQueue<T>]. *)
Record CircularQueue (A : Type) := CQ {
  cq_data : list A;
  cq_capacity : Z;
  cq_size : Z;
  cq_head : Z
}.
Arguments CQ {A} _ _ _ _.
Arguments cq_data {A} _.
Arguments cq_capacity {A} _.
Arguments cq_size {A} _.
Arguments cq_head {A} _.

Section Queue.

Context {A : Type}.
Implicit Types q : CircularQueue A.

(** The constructor, on default elements. *)
Definition cq_new (size : nat) (a : A) : CircularQueue A :=
  CQ (replicate size a) (Z.of_nat size) 0 1.

(** [operator[]], reading and writing. *)
Definition cq_at q (idx : Z) : res A :=
  do! assert_ (0 <=? idx)%Z "index >= 0" in
  if (cq_capacity q =? 0)%Z then ub else nth_res (cq_data q) (idx `mod` cq_capacity q).
Definition cq_put q (idx : Z) (a : A) : res (CircularQueue A) :=
  do! assert_ (0 <=? idx)%Z "index >= 0" in
  if (cq_capacity q =? 0)%Z then ub
  else
    let! d := set_nth (cq_data q) (idx `mod` cq_capacity q) a in
    Ok (CQ d (cq_capacity q) (cq_size q) (cq_head q)).

Definition cq_tail q : Z := u64 (cq_head q + cq_size q - 1).
Definition cq_end q : Z := u64 (cq_tail q + 1).
Definition cq_empty q : bool := (cq_size q =? 0)%Z.
Definition cq_isfull q : bool := (cq_size q =? cq_capacity q)%Z.
Definition isValidIdx q (idx : Z) : bool :=
  (cq_head q <=? idx)%Z && (idx <? u64 (cq_head q + cq_size q))%Z.
Definition cq_front q : res A := cq_at q (cq_head q).
Definition cq_back q : res A := cq_at q (cq_tail q).

(** [flush]. *)
Definition cq_flush q : CircularQueue A := CQ (cq_data q) (cq_capacity q) 0 1.

(** [pop_front(1)]. *)
Definition cq_pop_front q : res (CircularQueue A) :=
  do! assert_ (1 <=? cq_size q)%Z "num_elem <= size()" in
  Ok (CQ (cq_data q) (cq_capacity q) (cq_size q - 1) (u64 (cq_head q + 1))).

(** [pop_back]. *)
Definition cq_pop_back q : res (CircularQueue A) :=
  do! assert_ (negb (cq_empty q)) "!empty()" in
  Ok (CQ (cq_data q) (cq_capacity q) (cq_size q - 1) (cq_head q)).

(** [advance_tail()]. *)
Definition cq_advance_tail q : CircularQueue A :=
  if cq_isfull q then CQ (cq_data q) (cq_capacity q) (cq_size q) (u64 (cq_head q + 1))
  else CQ (cq_data q) (cq_capacity q) (u64 (cq_size q + 1)) (cq_head q).

(** [push_back]. *)
Definition cq_push_back q (a : A) : res (CircularQueue A) :=
  let q := cq_advance_tail q in cq_put q (cq_tail q) a.

(** [advance_tail(len)]. *)
Definition cq_advance_tail_n q (len : Z) : CircularQueue A :=
  let remaining := (cq_capacity q - cq_size q)%Z in
  if (remaining <? len)%Z
  then CQ (cq_data q) (cq_capacity q) (u64 (cq_size q + remaining)) (u64 (cq_head q + (len - remaining)))
  else CQ (cq_data q) (cq_capacity q) (u64 (cq_size q + len)) (cq_head q).

(** [operator--] of an iterator. *)
Definition cq_it_dec q (idx : Z) : res Z :=
  do! assert_ (cq_head q <? idx)%Z "_idx > _cq->head()" in Ok (idx - 1)%Z.

(** ** The queue as a list *)

(** The slot of the [i]-th element. *)
Definition cq_slot q (i : nat) : nat :=
  Z.to_nat ((cq_head q + Z.of_nat i) `mod` cq_capacity q).

Definition cq_list q : list A :=
  omap (λ i, cq_data q !! cq_slot q i) (seq 0 (Z.to_nat (cq_size q))).

Record cq_wf q : Prop := {
  cw_len : Z.of_nat (length (cq_data q)) = cq_capacity q;
  cw_cap : (0 < cq_capacity q)%Z;
  cw_size : (0 ≤ cq_size q ≤ cq_capacity q)%Z;
  cw_head : (1 ≤ cq_head q)%Z;
  cw_idx : (cq_head q + cq_capacity q < 2 ^ 64)%Z
}.

Lemma cq_slot_lt q i : cq_wf q → cq_slot q i < length (cq_data q).
Proof.
  intros W. unfold cq_slot. pose proof (cw_len _ W). pose proof (cw_cap _ W).
  pose proof (Z.mod_pos_bound (cq_head q + Z.of_nat i) (cq_capacity q)). lia.
Qed.

Lemma cq_slot_inj q i j :
  cq_wf q → (Z.of_nat i < cq_capacity q)%Z → (Z.of_nat j < cq_capacity q)%Z →
  cq_slot q i = cq_slot q j → i = j.
Proof.
  intros W Hi Hj E. unfold cq_slot in E. pose proof (cw_cap _ W) as Hc.
  pose proof (Z.mod_pos_bound (cq_head q + Z.of_nat i) (cq_capacity q) Hc).
  pose proof (Z.mod_pos_bound (cq_head q + Z.of_nat j) (cq_capacity q) Hc).
  assert ((cq_head q + Z.of_nat i) `mod` cq_capacity q =
          (cq_head q + Z.of_nat j) `mod` cq_capacity q)%Z as E' by lia.
  pose proof (Z.div_mod (cq_head q + Z.of_nat i) (cq_capacity q)) as D1.
  pose proof (Z.div_mod (cq_head q + Z.of_nat j) (cq_capacity q)) as D2.
  assert ((cq_head q + Z.of_nat i) / cq_capacity q = (cq_head q + Z.of_nat j) / cq_capacity q)%Z as E2.
  { nia. }
  nia.
Qed.

Lemma cq_list_aux q n :
  cq_wf q →
  length (omap (λ i, cq_data q !! cq_slot q i) (seq 0 n)) = n ∧
  ∀ i, i < n → omap (λ i, cq_data q !! cq_slot q i) (seq 0 n) !! i = cq_data q !! cq_slot q i.
Proof.
  intros W. induction n as [|n [IHl IH]]; [split; [done|lia]|].
  rewrite seq_S, omap_app. simpl.
  destruct (lookup_lt_is_Some_2 (cq_data q) (cq_slot q n)) as [a Ha]; [by apply cq_slot_lt|].
  rewrite Ha. simpl. split; [rewrite length_app, IHl; simpl; lia|]. intros i Hi.
  destruct (decide (i = n)) as [->|Hne].
  - rewrite lookup_app_r by lia. by rewrite IHl, Nat.sub_diag.
  - rewrite lookup_app_l by lia. apply IH. lia.
Qed.

Lemma cq_list_length q : cq_wf q → Z.of_nat (length (cq_list q)) = cq_size q.
Proof.
  intros W. unfold cq_list. rewrite (proj1 (cq_list_aux q _ W)). pose proof (cw_size _ W). lia.
Qed.

Lemma cq_list_lookup q i :
  cq_wf q → (Z.of_nat i < cq_size q)%Z → cq_list q !! i = cq_data q !! cq_slot q i.
Proof. intros W Hi. unfold cq_list. apply (cq_list_aux q _ W). lia. Qed.

(** The element at an index of the queue. *)
Lemma cq_at_list q idx :
  cq_wf q → (cq_head q ≤ idx < cq_head q + cq_size q)%Z →
  ∃ a, cq_at q idx = Ok a ∧ cq_list q !! Z.to_nat (idx - cq_head q) = Some a.
Proof.
  intros W Hi. pose proof (cw_cap _ W). pose proof (cw_head _ W).
  pose proof (Z.mod_pos_bound idx (cq_capacity q)) as Hm.
  destruct (array_access (cq_data q) (cq_capacity q) (idx `mod` cq_capacity q)) as (a & Ha & Hl & _);
    [apply W|lia|].
  exists a. unfold cq_at. rewrite (proj2 (Z.leb_le _ _)), (proj2 (Z.eqb_neq _ _)) by lia. simpl.
  split; [done|]. rewrite cq_list_lookup by (done || lia). rewrite <- Hl. f_equal. unfold cq_slot.
  do 2 f_equal. lia.
Qed.

(** Writing an element of the queue. *)
Lemma cq_put_list q idx a :
  cq_wf q → (cq_head q ≤ idx < cq_head q + cq_size q)%Z →
  ∃ q', cq_put q idx a = Ok q' ∧ cq_wf q' ∧ cq_head q' = cq_head q ∧ cq_size q' = cq_size q ∧
    cq_capacity q' = cq_capacity q ∧
    cq_list q' = <[Z.to_nat (idx - cq_head q) := a]> (cq_list q) ∧
    cq_data q' = <[cq_slot q (Z.to_nat (idx - cq_head q)) := a]> (cq_data q).
Proof.
  intros W Hi. pose proof (cw_cap _ W). pose proof (cw_head _ W). pose proof (cw_size _ W) as Hs.
  pose proof (Z.mod_pos_bound idx (cq_capacity q)) as Hm.
  destruct (array_access (cq_data q) (cq_capacity q) (idx `mod` cq_capacity q)) as (b & _ & Hl & Hset);
    [apply W|lia|].
  set (i := Z.to_nat (idx - cq_head q)).
  assert (Z.to_nat (idx `mod` cq_capacity q) = cq_slot q i) as Es by (unfold cq_slot, i; do 2 f_equal; lia).
  unfold cq_put. rewrite (proj2 (Z.leb_le _ _)), (proj2 (Z.eqb_neq _ _)) by lia. simpl.
  rewrite Hset, Es. simpl. set (q' := CQ _ _ _ _). exists q'.
  assert (cq_wf q') as W'.
  { destruct W. split; simpl; try done. by rewrite length_insert. }
  split_and!; try done. apply list_eq. intros j. destruct (decide (Z.of_nat j < cq_size q)%Z) as [Hj|Hj].
  - rewrite cq_list_lookup by done. simpl.
    change (cq_slot q' j) with (cq_slot q j). destruct (decide (j = i)) as [->|Hne].
    + rewrite list_lookup_insert_eq by (by apply cq_slot_lt).
      rewrite list_lookup_insert_eq; [done|]. pose proof (cq_list_length q W). lia.
    + rewrite list_lookup_insert_ne.
      * rewrite list_lookup_insert_ne by done. by rewrite cq_list_lookup.
      * intros E. apply cq_slot_inj in E; [by subst|done|unfold i; lia|lia].
  - rewrite !lookup_ge_None_2; [done| |].
    + rewrite length_insert. pose proof (cq_list_length q W). lia.
    + pose proof (cq_list_length q' W') as L. simpl in L. lia.
Qed.

Lemma cq_tail_eq q : cq_wf q → cq_tail q = (cq_head q + cq_size q - 1)%Z.
Proof.
  intros W. unfold cq_tail. apply u64_small. pose proof (cw_head _ W). pose proof (cw_size _ W).
  pose proof (cw_idx _ W). unfold in_u. lia.
Qed.

Lemma cq_end_eq q : cq_wf q → cq_end q = (cq_head q + cq_size q)%Z.
Proof.
  intros W. unfold cq_end. rewrite cq_tail_eq by done.
  replace (cq_head q + cq_size q - 1 + 1)%Z with (cq_head q + cq_size q)%Z by lia.
  apply u64_small. pose proof (cw_head _ W). pose proof (cw_size _ W). pose proof (cw_idx _ W). unfold in_u. lia.
Qed.

Lemma isValidIdx_iff q idx :
  cq_wf q → isValidIdx q idx = true ↔ (cq_head q ≤ idx < cq_head q + cq_size q)%Z.
Proof.
  intros W. unfold isValidIdx. rewrite u64_small.
  - rewrite andb_true_iff, Z.leb_le, Z.ltb_lt. done.
  - pose proof (cw_head _ W). pose proof (cw_size _ W). pose proof (cw_idx _ W). unfold in_u. lia.
Qed.

Lemma cq_list_ext q q' d n :
  cq_wf q → cq_wf q' → cq_data q' = cq_data q → cq_capacity q' = cq_capacity q →
  cq_head q' = (cq_head q + Z.of_nat d)%Z → Z.of_nat n = cq_size q' → (Z.of_nat (d + n) ≤ cq_size q)%Z →
  cq_list q' = take n (drop d (cq_list q)).
Proof.
  intros W W' Ed Ec Eh En Hle. apply list_eq. intros i.
  destruct (decide (i < n)) as [Hi|Hi].
  - rewrite lookup_take_lt, lookup_drop by done. rewrite !cq_list_lookup by (done || lia).
    unfold cq_slot. rewrite Ed, Ec, Eh. do 3 f_equal. lia.
  - rewrite lookup_take_ge by lia. apply lookup_ge_None_2. pose proof (cq_list_length q' W'). lia.
Qed.

(** [pop_front] removes the oldest element. *)
Lemma cq_pop_front_list q :
  cq_wf q → (0 < cq_size q)%Z → (cq_head q + cq_capacity q + 1 < 2 ^ 64)%Z →
  ∃ q', cq_pop_front q = Ok q' ∧ cq_wf q' ∧ cq_head q' = (cq_head q + 1)%Z ∧
    cq_size q' = (cq_size q - 1)%Z ∧ cq_capacity q' = cq_capacity q ∧ cq_data q' = cq_data q ∧
    cq_list q' = tail (cq_list q).
Proof.
  intros W Hs Hb. unfold cq_pop_front. rewrite (proj2 (Z.leb_le _ _)) by lia. simpl.
  pose proof (cw_size _ W). pose proof (cw_head _ W). pose proof (cw_cap _ W).
  rewrite u64_small by (unfold in_u; lia). set (q' := CQ _ _ _ _).
  assert (cq_wf q') as W' by (destruct W; split; simpl; lia || done).
  exists q'. split_and!; try done.
  rewrite (cq_list_ext q q' 1 (Z.to_nat (cq_size q - 1))); [|done|done|done|done|simpl; lia|simpl; lia|lia].
  assert (length (drop 1 (cq_list q)) = Z.to_nat (cq_size q - 1)) as L.
  { rewrite length_drop. pose proof (cq_list_length q W). lia. }
  rewrite take_ge by lia. by destruct (cq_list q).
Qed.

(** [pop_back] removes the youngest. *)
Lemma cq_pop_back_list q :
  cq_wf q → (0 < cq_size q)%Z →
  ∃ q', cq_pop_back q = Ok q' ∧ cq_wf q' ∧ cq_head q' = cq_head q ∧
    cq_size q' = (cq_size q - 1)%Z ∧ cq_capacity q' = cq_capacity q ∧ cq_data q' = cq_data q ∧
    cq_list q' = take (length (cq_list q) - 1) (cq_list q).
Proof.
  intros W Hs. unfold cq_pop_back, cq_empty. rewrite (proj2 (Z.eqb_neq _ _)) by lia. simpl.
  set (q' := CQ _ _ _ _). pose proof (cw_size _ W).
  assert (cq_wf q') as W' by (destruct W; split; simpl; lia || done).
  exists q'. split_and!; try done. pose proof (cq_list_length q W).
  rewrite (cq_list_ext q q' 0 (length (cq_list q) - 1)); [done|done|done|done|done|simpl; lia|simpl; lia|lia].
Qed.

(** [advance_tail] on a queue that is not full shows the next slot. *)
Lemma cq_advance_tail_list q :
  cq_wf q → (cq_size q < cq_capacity q)%Z →
  ∃ a, cq_data q !! cq_slot q (Z.to_nat (cq_size q)) = Some a ∧
    cq_wf (cq_advance_tail q) ∧ cq_head (cq_advance_tail q) = cq_head q ∧
    cq_size (cq_advance_tail q) = (cq_size q + 1)%Z ∧
    cq_capacity (cq_advance_tail q) = cq_capacity q ∧ cq_data (cq_advance_tail q) = cq_data q ∧
    cq_list (cq_advance_tail q) = cq_list q ++ [a].
Proof.
  intros W Hs. pose proof (cw_size _ W). pose proof (cw_head _ W). pose proof (cw_idx _ W).
  destruct (lookup_lt_is_Some_2 (cq_data q) (cq_slot q (Z.to_nat (cq_size q)))) as [a Ha];
    [by apply cq_slot_lt|]. exists a. unfold cq_advance_tail, cq_isfull.
  rewrite (proj2 (Z.eqb_neq _ _)) by lia. rewrite u64_small by (unfold in_u; lia).
  set (q' := CQ _ _ _ _). assert (cq_wf q') as W' by (destruct W; split; simpl; lia || done).
  split_and!; try done. apply list_eq. intros i. pose proof (cq_list_length q W) as L.
  destruct (decide (Z.of_nat i < cq_size q)%Z) as [Hi|Hi].
  - rewrite lookup_app_l by lia. rewrite !cq_list_lookup by (done || simpl; lia). done.
  - rewrite lookup_app_r by lia. destruct (decide (Z.of_nat i = cq_size q)) as [E|E].
    + rewrite cq_list_lookup by (done || simpl; lia). replace (i - length (cq_list q)) with 0 by lia.
      simpl. rewrite <- Ha. by replace i with (Z.to_nat (cq_size q)) by lia.
    + rewrite lookup_ge_None_2.
      * rewrite lookup_ge_None_2; [done|]. simpl. lia.
      * pose proof (cq_list_length q' W') as L'. simpl in L'. lia.
Qed.

Lemma cq_new_wf n a : 0 < n → (Z.of_nat n + 1 < 2 ^ 64)%Z → cq_wf (cq_new n a) ∧ cq_list (cq_new n a) = [].
Proof.
  intros Hn Hb. assert (cq_wf (cq_new n a)) as W.
  { split; simpl; try lia. by rewrite length_replicate. }
  split; [done|]. apply nil_length_inv. pose proof (cq_list_length _ W) as L.
  change (cq_size (cq_new n a)) with 0%Z in L. lia.
Qed.

(** ** Positions *)

(** The queue with its [i]-th element replaced. *)
Definition cq_upd q (i : nat) (a : A) : CircularQueue A :=
  CQ (<[cq_slot q i := a]> (cq_data q)) (cq_capacity q) (cq_size q) (cq_head q).

Lemma cq_at_lookup q i a :
  cq_wf q → cq_list q !! i = Some a → cq_at q (cq_head q + Z.of_nat i) = Ok a.
Proof.
  intros W Hi. pose proof (lookup_lt_Some _ _ _ Hi) as Hlt. pose proof (cq_list_length q W).
  destruct (cq_at_list q (cq_head q + Z.of_nat i) W) as (b & -> & Hb); [lia|].
  replace (Z.to_nat (cq_head q + Z.of_nat i - cq_head q)) with i in Hb by lia. congruence.
Qed.

Lemma cq_put_upd q i a :
  cq_wf q → i < length (cq_list q) →
  cq_put q (cq_head q + Z.of_nat i) a = Ok (cq_upd q i a) ∧ cq_wf (cq_upd q i a) ∧
  cq_list (cq_upd q i a) = <[i := a]> (cq_list q).
Proof.
  intros W Hi. pose proof (cq_list_length q W).
  destruct (cq_put_list q (cq_head q + Z.of_nat i) a W) as (q' & E & W' & Eh & Es & Ec & El & Ed); [lia|].
  replace (Z.to_nat (cq_head q + Z.of_nat i - cq_head q)) with i in * by lia.
  assert (q' = cq_upd q i a) as -> by (destruct q'; unfold cq_upd; simpl in *; congruence). done.
Qed.

Lemma cq_upd_upd q i a b : cq_upd (cq_upd q i a) i b = cq_upd q i b.
Proof.
  unfold cq_upd. simpl. f_equal. unfold cq_slot. simpl. by rewrite list_insert_insert_eq.
Qed.

(** [Q] holds of the slots outside the queue. *)
Definition cq_outside (Q : A → Prop) q : Prop :=
  ∀ i a, (cq_size q ≤ Z.of_nat i < cq_capacity q)%Z → cq_data q !! cq_slot q i = Some a → Q a.

Lemma cq_outside_upd Q q i a : cq_wf q → i < length (cq_list q) → cq_outside Q q → cq_outside Q (cq_upd q i a).
Proof.
  intros W Hi O j b Hj. simpl in *. change (cq_slot (cq_upd q i a) j) with (cq_slot q j).
  pose proof (cq_list_length q W). pose proof (cw_size _ W).
  rewrite list_lookup_insert_ne; [by apply O|]. intros E. apply cq_slot_inj in E; [lia|done|lia|lia].
Qed.

Lemma cq_slot_wrap q : cq_wf q → cq_slot q (Z.to_nat (cq_capacity q)) = cq_slot q 0.
Proof.
  intros W. unfold cq_slot. pose proof (cw_cap _ W). f_equal. rewrite Z2Nat.id by lia.
  rewrite <- (Z.mul_1_l (cq_capacity q)) at 1. rewrite Z.mod_add by lia. f_equal. lia.
Qed.

(** An element that leaves at the front or at the back is outside. *)
Lemma cq_pop_front_outside Q q q' a :
  cq_wf q → cq_pop_front q = Ok q' → cq_wf q' → cq_head q' = (cq_head q + 1)%Z →
  cq_size q' = (cq_size q - 1)%Z → cq_capacity q' = cq_capacity q → cq_data q' = cq_data q →
  cq_list q !! 0 = Some a → Q a → cq_outside Q q → cq_outside Q q'.
Proof.
  intros W _ W' Eh Es Ec Ed H0 Ha O i b Hi Hb. rewrite Ed in Hb. rewrite Es, Ec in Hi.
  assert (cq_slot q' i = cq_slot q (S i)) as E1.
  { unfold cq_slot. rewrite Eh, Ec. do 2 f_equal. lia. }
  rewrite E1 in Hb. destruct (decide (Z.of_nat (S i) < cq_capacity q)%Z) as [Hlt|Hge].
  - apply (O (S i) b); [lia|done].
  - replace (S i) with (Z.to_nat (cq_capacity q)) in Hb by lia. rewrite cq_slot_wrap in Hb by done.
    pose proof (lookup_lt_Some _ _ _ H0). pose proof (cq_list_length q W).
    rewrite cq_list_lookup in H0 by (done || lia). congruence.
Qed.

Lemma cq_pop_back_outside Q q q' n a :
  cq_wf q → cq_head q' = cq_head q → cq_size q' = (cq_size q - 1)%Z →
  cq_capacity q' = cq_capacity q → cq_data q' = cq_data q → length (cq_list q) = S n →
  cq_list q !! n = Some a → Q a → cq_outside Q q → cq_outside Q q'.
Proof.
  intros W Eh Es Ec Ed Hn H0 Ha O i b Hi Hb. rewrite Ed in Hb. rewrite Es, Ec in Hi.
  assert (cq_slot q' i = cq_slot q i) as E1 by (unfold cq_slot; by rewrite Eh, Ec).
  rewrite E1 in Hb. pose proof (cq_list_length q W).
  destruct (decide (i = n)) as [->|Hne]; [|apply (O i b); [lia|done]].
  rewrite cq_list_lookup in H0 by (done || lia). congruence.
Qed.

(** A slot of the queue is never out of range. *)
Lemma cq_at_total q idx : cq_wf q → (0 ≤ idx)%Z → ∃ a, cq_at q idx = Ok a.
Proof.
  intros W Hi. pose proof (cw_cap _ W). pose proof (cw_len _ W).
  unfold cq_at. rewrite (proj2 (Z.leb_le _ _)) by done. cbn [assert_ res_bind].
  rewrite (proj2 (Z.eqb_neq _ _)) by lia. pose proof (Z.mod_pos_bound idx (cq_capacity q)).
  destruct (array_access (cq_data q) (cq_capacity q) (idx `mod` cq_capacity q)) as (a & -> & _); [done|lia|eauto].
Qed.

(** The front element is overwritten and leaves. *)
Lemma cq_drop_front q a x rest :
  cq_wf q → cq_list q = a :: rest → (cq_head q + cq_capacity q + 1 < 2 ^ 64)%Z →
  ∃ q', (let! q := cq_put q (cq_head q) x in cq_pop_front q) = Ok q' ∧ cq_wf q' ∧
    cq_head q' = (cq_head q + 1)%Z ∧ cq_size q' = (cq_size q - 1)%Z ∧ cq_capacity q' = cq_capacity q ∧
    cq_list q' = rest ∧ ∀ Q : A → Prop, Q x → cq_outside Q q → cq_outside Q q'.
Proof.
  intros W E Hr. pose proof (cq_list_length q W) as L. rewrite E in L. simpl in L.
  destruct (cq_put_upd q 0 x W) as (Ep & W1 & L1); [rewrite E; simpl; lia|].
  rewrite Z.add_0_r in Ep. rewrite Ep. cbn [res_bind].
  destruct (cq_pop_front_list (cq_upd q 0 x) W1) as (q' & Eq & W' & Eh & Es & Ec & Ed & El); [simpl; lia|simpl; lia|].
  exists q'. split; [done|]. split_and!; try done.
  - by rewrite El, L1, E.
  - intros Q Hx O. apply (cq_pop_front_outside Q (cq_upd q 0 x) q' x); try done; [by rewrite L1, E|].
    apply cq_outside_upd; [done|rewrite E; simpl; lia|done].
Qed.

(** The back element is overwritten and leaves. *)
Lemma cq_drop_back q a x rest :
  cq_wf q → cq_list q = rest ++ [a] →
  ∃ q', (let! q := cq_put q (cq_tail q) x in cq_pop_back q) = Ok q' ∧ cq_wf q' ∧
    cq_head q' = cq_head q ∧ cq_size q' = (cq_size q - 1)%Z ∧ cq_capacity q' = cq_capacity q ∧
    cq_list q' = rest ∧ ∀ Q : A → Prop, Q x → cq_outside Q q → cq_outside Q q'.
Proof.
  intros W E. pose proof (cq_list_length q W) as L. rewrite E, length_app in L. simpl in L.
  destruct (cq_put_upd q (length rest) x W) as (Ep & W1 & L1); [rewrite E, length_app; simpl; lia|].
  rewrite cq_tail_eq by done.
  replace (cq_head q + cq_size q - 1)%Z with (cq_head q + Z.of_nat (length rest))%Z by lia.
  rewrite Ep. cbn [res_bind].
  assert (cq_list (cq_upd q (length rest) x) = rest ++ [x]) as L2.
  { rewrite L1, E. rewrite insert_app_r_alt by lia. by rewrite Nat.sub_diag. }
  destruct (cq_pop_back_list (cq_upd q (length rest) x) W1) as (q' & Eq & W' & Eh & Es & Ec & Ed & El); [simpl; lia|].
  exists q'. split; [done|]. split_and!; try done.
  - rewrite El, L2, length_app. simpl. rewrite Nat.add_sub. by rewrite take_app_length.
  - intros Q Hx O. apply (cq_pop_back_outside Q (cq_upd q (length rest) x) q' (length rest) x); try done.
    + rewrite L2, length_app. simpl. lia.
    + rewrite L2. rewrite lookup_app_r, Nat.sub_diag by lia. done.
    + apply cq_outside_upd; [done|rewrite E, length_app; simpl; lia|done].
Qed.

End Queue.
