(* ===== verification/LsqUnit.v ===== *)
(** The load and store queues of one thread (cpu/o3/lsq_unit.hh, cpu/o3/lsq_unit.cc):
    entries, insertion, the store pipeline's write of an entry, commit, completion and
    squash.

    An instruction of the queues is a record of what [LSQUnit] reads and writes of its
    [DynInst]; an entry holds it.  Calls to other stages are the outputs [LsqOut].
    Hardware transactional memory, translation and the checker are left out. *)
From S2P Require Import Prelude Bytes StoreBuffer CircularQueue.

(** ** Requests *)

(** A translated [Request]: one part of an access. *)
Record MemReq := MReq {
  mr_vaddr : Z;
  mr_paddr : Z;
  mr_size : Z;
  mr_byteEnable : list bool
}.

(** [Request::isMasked]: some byte is disabled. *)
Definition isMasked (r : MemReq) : bool := existsb negb (mr_byteEnable r).

(** The flags of [mainReq()] that the queues test. *)
Record ReqFlags := RFlags {
  rf_isLLSC : bool;
  rf_isAtomic : bool;
  rf_isRelease : bool;
  rf_isStrictlyOrdered : bool;
  rf_isUncacheable : bool;
  rf_isCacheMaintenance : bool;
  rf_isLocalAccess : bool;
  rf_cacheBlockZero : bool;          (** [CACHE_BLOCK_ZERO] *)
  rf_storeNoData : bool              (** any flag of [STORE_NO_DATA] *)
}.

(** [LSQ::LSQRequest]. *)
Record LSQRequest := LReq {
  lr_mainReq : MemReq;
  lr_reqs : list MemReq;             (** [_reqs] *)
  lr_isSplit : bool;
  lr_addr : Z;                       (** [_addr] *)
  lr_size : Z;                       (** [_size] *)
  lr_flags : ReqFlags;
  lr_numOutstanding : Z;             (** [_numOutstandingPackets] *)
  lr_SQforward : list FWDPacket;     (** [SQforwardPackets] *)
  lr_SBforward : list FWDPacket      (** [SBforwardPackets] *)
}.

Definition lr_set_outstanding (r : LSQRequest) (n : Z) : LSQRequest :=
  LReq (lr_mainReq r) (lr_reqs r) (lr_isSplit r) (lr_addr r) (lr_size r) (lr_flags r) n
    (lr_SQforward r) (lr_SBforward r).
Definition lr_set_forward (r : LSQRequest) (sq sb : list FWDPacket) : LSQRequest :=
  LReq (lr_mainReq r) (lr_reqs r) (lr_isSplit r) (lr_addr r) (lr_size r) (lr_flags r)
    (lr_numOutstanding r) sq sb.

(** [LSQRequest::isNormalLd], of the request of a load. *)
Definition isNormalLd (r : LSQRequest) : bool :=
  negb (lr_isSplit r) && negb (rf_isLLSC (lr_flags r)) && negb (rf_isStrictlyOrdered (lr_flags r)) &&
  negb (rf_isUncacheable (lr_flags r)).

(** ** Instructions *)

(** [LdStReplayType]. *)
Inductive LdStReplayType :=
| TLBMissReplay | CacheMissReplay | RescheduleReplay | STLFReplay | MdpAddrReplay | NukeReplay
| CacheBlockedReplay | BankConflictReplay | RARReplay | RAWReplay | MshrAliasFailReplay
| HitInWriteBufferReplay | MshrArbFailReplay.

#[export] Instance LdStReplayType_eq_dec : EqDecision LdStReplayType.
Proof. solve_decision. Defined.

(** What the queues read of a memory instruction and never change. *)
Record MStatic := MkMStatic {
  ms_seqNum : Z;
  ms_isAtomic : bool;
  ms_isSplitStoreAddr : bool;
  ms_isStoreConditional : bool;
  ms_isDataPrefetch : bool;
  ms_mdpStrictWait : bool;           (** [mdpPredStrictWait] *)
  ms_mdpProducing : list Z           (** [mdpProducingStores] *)
}.

(** Its way through [loadPipeSx] or [storePipeSx]: the stage that handles it next, if
    it is in the pipeline, and the status bits of the pipelines. *)
Record MPipe := MkMPipe {
  mp_stage : option nat;
  mp_replay : option LdStReplayType; (** [replayType], set with [NeedReplay] *)
  mp_skipRawCheck : bool;
  mp_skipFollowing : bool;           (** [SkipFollowingPipe] *)
  mp_fullForward : bool;
  mp_cacheHit : bool;
  mp_wakeUpEarly : bool
}.

(** A memory instruction: what its [DynInst] keeps for the queues.  [mi_result] is
    what [completeAcc] has copied to the destination register. *)
Record MInst := MkMInst {
  mi_static : MStatic;
  mi_lqIt : Z;
  mi_sqIt : Z;
  mi_pipe : MPipe;
  mi_translationStarted : bool;
  mi_effAddrValid : bool;
  mi_physEffAddr : Z;
  mi_effSize : Z;
  mi_strictlyOrdered : bool;
  mi_saved : option LSQRequest;      (** [savedRequest] *)
  mi_executed : bool;
  mi_atCommit : bool;
  mi_pending : bool;                 (** [HasPendingCacheReq] *)
  mi_waiting : bool;                 (** [WaitingCacheRefill] *)
  mi_hitExternalSnoop : bool;
  mi_possibleLoadViolation : bool;
  mi_memData : option (list Z);
  mi_result : option (list Z)
}.

Definition mi_seqNum (i : MInst) : Z := ms_seqNum (mi_static i).
Definition mi_stage (i : MInst) : option nat := mp_stage (mi_pipe i).
Definition mi_replay (i : MInst) : option LdStReplayType := mp_replay (mi_pipe i).

Definition pipe_new : MPipe := MkMPipe None None false false false false false.

(** A freshly dispatched instruction. *)
Definition mi_new (s : MStatic) : MInst :=
  MkMInst s 0 0 pipe_new false false 0 0 false None false false false false false false None None.

Definition mi_set_its (i : MInst) (lq sq : Z) : MInst :=
  MkMInst (mi_static i) lq sq (mi_pipe i) (mi_translationStarted i) (mi_effAddrValid i)
    (mi_physEffAddr i) (mi_effSize i) (mi_strictlyOrdered i) (mi_saved i) (mi_executed i) (mi_atCommit i)
    (mi_pending i) (mi_waiting i) (mi_hitExternalSnoop i) (mi_possibleLoadViolation i) (mi_memData i)
    (mi_result i).
Definition mi_set_pipe (i : MInst) (p : MPipe) : MInst :=
  MkMInst (mi_static i) (mi_lqIt i) (mi_sqIt i) p (mi_translationStarted i) (mi_effAddrValid i)
    (mi_physEffAddr i) (mi_effSize i) (mi_strictlyOrdered i) (mi_saved i) (mi_executed i) (mi_atCommit i)
    (mi_pending i) (mi_waiting i) (mi_hitExternalSnoop i) (mi_possibleLoadViolation i) (mi_memData i)
    (mi_result i).
Definition mi_set_valid (i : MInst) (started valid : bool) (saved : option LSQRequest) : MInst :=
  MkMInst (mi_static i) (mi_lqIt i) (mi_sqIt i) (mi_pipe i) started valid
    (mi_physEffAddr i) (mi_effSize i) (mi_strictlyOrdered i) saved (mi_executed i) (mi_atCommit i)
    (mi_pending i) (mi_waiting i) (mi_hitExternalSnoop i) (mi_possibleLoadViolation i) (mi_memData i)
    (mi_result i).
Definition mi_set_addr (i : MInst) (paddr size : Z) (strict : bool) : MInst :=
  MkMInst (mi_static i) (mi_lqIt i) (mi_sqIt i) (mi_pipe i) (mi_translationStarted i) (mi_effAddrValid i)
    paddr size strict (mi_saved i) (mi_executed i) (mi_atCommit i)
    (mi_pending i) (mi_waiting i) (mi_hitExternalSnoop i) (mi_possibleLoadViolation i) (mi_memData i)
    (mi_result i).
Definition mi_set_executed (i : MInst) (r : option (list Z)) : MInst :=
  MkMInst (mi_static i) (mi_lqIt i) (mi_sqIt i) (mi_pipe i) (mi_translationStarted i) (mi_effAddrValid i)
    (mi_physEffAddr i) (mi_effSize i) (mi_strictlyOrdered i) (mi_saved i) true (mi_atCommit i)
    (mi_pending i) (mi_waiting i) (mi_hitExternalSnoop i) (mi_possibleLoadViolation i) (mi_memData i) r.
Definition mi_set_cache (i : MInst) (pending waiting : bool) (d : option (list Z)) : MInst :=
  MkMInst (mi_static i) (mi_lqIt i) (mi_sqIt i) (mi_pipe i) (mi_translationStarted i) (mi_effAddrValid i)
    (mi_physEffAddr i) (mi_effSize i) (mi_strictlyOrdered i) (mi_saved i) (mi_executed i) (mi_atCommit i)
    pending waiting (mi_hitExternalSnoop i) (mi_possibleLoadViolation i) d (mi_result i).
Definition mi_set_order (i : MInst) (snoop possible : bool) : MInst :=
  MkMInst (mi_static i) (mi_lqIt i) (mi_sqIt i) (mi_pipe i) (mi_translationStarted i) (mi_effAddrValid i)
    (mi_physEffAddr i) (mi_effSize i) (mi_strictlyOrdered i) (mi_saved i) (mi_executed i) (mi_atCommit i)
    (mi_pending i) (mi_waiting i) snoop possible (mi_memData i) (mi_result i).

Definition mi_set_memData (i : MInst) (d : option (list Z)) : MInst :=
  mi_set_cache i (mi_pending i) (mi_waiting i) d.
Definition mi_set_saved (i : MInst) (r : option LSQRequest) : MInst :=
  mi_set_valid i (mi_translationStarted i) (mi_effAddrValid i) r.

(** The status bits, one at a time. *)
Definition set_stage (i : MInst) (s : option nat) : MInst :=
  let p := mi_pipe i in
  mi_set_pipe i (MkMPipe s (mp_replay p) (mp_skipRawCheck p) (mp_skipFollowing p) (mp_fullForward p)
                   (mp_cacheHit p) (mp_wakeUpEarly p)).
Definition set_replayType (i : MInst) (r : option LdStReplayType) : MInst :=
  let p := mi_pipe i in
  mi_set_pipe i (MkMPipe (mp_stage p) r (mp_skipRawCheck p) (mp_skipFollowing p) (mp_fullForward p)
                   (mp_cacheHit p) (mp_wakeUpEarly p)).
Definition setSkipRawCheck (i : MInst) (b : bool) : MInst :=
  let p := mi_pipe i in
  mi_set_pipe i (MkMPipe (mp_stage p) (mp_replay p) b (mp_skipFollowing p) (mp_fullForward p)
                   (mp_cacheHit p) (mp_wakeUpEarly p)).
Definition setSkipFollowingPipe (i : MInst) : MInst :=
  let p := mi_pipe i in
  mi_set_pipe i (MkMPipe (mp_stage p) (mp_replay p) (mp_skipRawCheck p) true (mp_fullForward p)
                   (mp_cacheHit p) (mp_wakeUpEarly p)).
Definition setFullForward (i : MInst) : MInst :=
  let p := mi_pipe i in
  mi_set_pipe i (MkMPipe (mp_stage p) (mp_replay p) (mp_skipRawCheck p) (mp_skipFollowing p) true
                   (mp_cacheHit p) (mp_wakeUpEarly p)).
Definition setCacheHit (i : MInst) : MInst :=
  let p := mi_pipe i in
  mi_set_pipe i (MkMPipe (mp_stage p) (mp_replay p) (mp_skipRawCheck p) (mp_skipFollowing p)
                   (mp_fullForward p) true (mp_wakeUpEarly p)).
Definition setWakeUpEarly (i : MInst) : MInst :=
  let p := mi_pipe i in
  mi_set_pipe i (MkMPipe (mp_stage p) (mp_replay p) (mp_skipRawCheck p) (mp_skipFollowing p)
                   (mp_fullForward p) (mp_cacheHit p) true).

(** [beginPipelining]: the instruction enters the first stage. *)
Definition beginPipelining (i : MInst) : MInst :=
  mi_set_pipe i (MkMPipe (Some 0) None (mp_skipRawCheck (mi_pipe i)) false false false false).

(** [setReplay]: the flag can be set once while in the pipeline. *)
Definition setReplay (i : MInst) (t : LdStReplayType) : res MInst :=
  do! assert_ (bool_decide (mi_replay i = None)) "!status[NeedReplay]" in
  Ok (set_replayType i (Some t)).

(** [needSTLFReplay] and the like. *)
Definition needs (i : MInst) (t : LdStReplayType) : bool := bool_decide (mi_replay i = Some t).
Definition replayOrSkipFollowingPipe (i : MInst) : bool :=
  mp_skipFollowing (mi_pipe i) || bool_decide (mi_replay i ≠ None).

(** ** Entries *)

(** [LSQUnit::LSQEntry]; an entry of the load queue. *)
Record LQEntry := LQE {
  lqe_inst : option MInst;
  lqe_request : option LSQRequest;
  lqe_size : Z;
  lqe_valid : bool
}.

(** [LSQUnit::SQEntry]. *)
Record SQEntry := SQE {
  sqe_inst : option MInst;
  sqe_request : option LSQRequest;
  sqe_size : Z;
  sqe_valid : bool;
  sqe_data : list Z;
  sqe_canWB : bool;
  sqe_committed : bool;
  sqe_completed : bool;
  sqe_isAllZeros : bool;
  sqe_addrReady : bool;
  sqe_dataReady : bool;
  sqe_staFinish : bool;
  sqe_stdFinish : bool
}.

Definition lqe_new : LQEntry := LQE None None 0 false.

(** [LSQEntry::clear] and [set]. *)
Definition lqe_clear (e : LQEntry) : LQEntry := LQE None None 0 false.
Definition lqe_set (e : LQEntry) (i : MInst) : res LQEntry :=
  do! assert_ (negb (lqe_valid e)) "!_valid" in Ok (LQE (Some i) (lqe_request e) 0 true).
Definition lqe_with_inst (e : LQEntry) (i : MInst) : LQEntry :=
  LQE (Some i) (lqe_request e) (lqe_size e) (lqe_valid e).
Definition lqe_with_request (e : LQEntry) (r : option LSQRequest) : LQEntry :=
  LQE (lqe_inst e) r (lqe_size e) (lqe_valid e).

Definition sqe_new (MaxDataBytes : nat) : SQEntry :=
  SQE None None 0 false (replicate MaxDataBytes 0%Z) false false false false false false false false.

(** [SQEntry::clear] and [set]: the data stays. *)
Definition sqe_clear (e : SQEntry) : SQEntry :=
  SQE None None 0 false (sqe_data e) false false false false false false false false.
Definition sqe_set (e : SQEntry) (i : MInst) : res SQEntry :=
  do! assert_ (negb (sqe_valid e)) "!_valid" in
  Ok (SQE (Some i) (sqe_request e) 0 true (sqe_data e) (sqe_canWB e) (sqe_committed e)
        (sqe_completed e) (sqe_isAllZeros e) (sqe_addrReady e) (sqe_dataReady e) (sqe_staFinish e)
        (sqe_stdFinish e)).
Definition sqe_with_inst (e : SQEntry) (i : MInst) : SQEntry :=
  SQE (Some i) (sqe_request e) (sqe_size e) (sqe_valid e) (sqe_data e) (sqe_canWB e)
    (sqe_committed e) (sqe_completed e) (sqe_isAllZeros e) (sqe_addrReady e) (sqe_dataReady e)
    (sqe_staFinish e) (sqe_stdFinish e).
Definition sqe_with_request (e : SQEntry) (r : option LSQRequest) (size : Z) (zeros : bool) : SQEntry :=
  SQE (sqe_inst e) r size (sqe_valid e) (sqe_data e) (sqe_canWB e) (sqe_committed e)
    (sqe_completed e) zeros (sqe_addrReady e) (sqe_dataReady e) (sqe_staFinish e) (sqe_stdFinish e).
Definition sqe_with_data (e : SQEntry) (d : list Z) : SQEntry :=
  SQE (sqe_inst e) (sqe_request e) (sqe_size e) (sqe_valid e) d (sqe_canWB e) (sqe_committed e)
    (sqe_completed e) (sqe_isAllZeros e) (sqe_addrReady e) (sqe_dataReady e) (sqe_staFinish e)
    (sqe_stdFinish e).
Definition sqe_with_wb (e : SQEntry) (canWB completed : bool) : SQEntry :=
  SQE (sqe_inst e) (sqe_request e) (sqe_size e) (sqe_valid e) (sqe_data e) canWB (sqe_committed e)
    completed (sqe_isAllZeros e) (sqe_addrReady e) (sqe_dataReady e) (sqe_staFinish e)
    (sqe_stdFinish e).
Definition sqe_with_ready (e : SQEntry) (addr data sta std : bool) : SQEntry :=
  SQE (sqe_inst e) (sqe_request e) (sqe_size e) (sqe_valid e) (sqe_data e) (sqe_canWB e)
    (sqe_committed e) (sqe_completed e) (sqe_isAllZeros e) addr data sta std.

Definition canForwardToLoad (e : SQEntry) : bool := sqe_addrReady e && sqe_dataReady e.
Definition splitStoreFinish (e : SQEntry) : bool := sqe_staFinish e && sqe_stdFinish e.

(** [SplitStoreStatus]. *)
Inductive SplitStoreStatus := AddressReady | DataReady | StaPipeFinish | StdPipeFinish.

(** [SQEntry::setStatus]. *)
Definition setStatus (e : SQEntry) (s : SplitStoreStatus) : res SQEntry :=
  let e := sqe_with_ready e
             (sqe_addrReady e || match s with AddressReady => true | _ => false end)
             (sqe_dataReady e || match s with DataReady => true | _ => false end)
             (sqe_staFinish e || match s with StaPipeFinish => true | _ => false end)
             (sqe_stdFinish e || match s with StdPipeFinish => true | _ => false end) in
  let! i := get_at (sqe_inst e) "instruction()" in
  if splitStoreFinish e then Ok (sqe_with_inst e (mi_set_executed i (mi_result i)))
  else
    do! assert_ (negb (mi_executed i)) "!instruction()->isExecuted()" in
    Ok e.

(** ** The unit *)

(** What the unit asks of other stages. *)
Inductive LsqOut :=
| OutReplayMem (seq : Z)               (** [replayMemInst] *)
| OutReschedule (seq : Z)              (** [rescheduleMemInst] *)
| OutStlfFail (load store : Z)         (** [stlfFailLdReplay] *)
| OutMdpStrict (load required : Z)     (** [mdpAddrReplayRegisterStrict] *)
| OutMdpWait (load : Z) (stores : list Z)
| OutMdpCompleted (idx : Z)            (** [mdpAddrReplayUpdateStoreCompletedIdx] *)
| OutLockedRead (seq : Z)              (** [handleLockedRead] *)
| OutLocalAccess (seq : Z)             (** [localAccessor] *)
| OutSplitSend (seq : Z)               (** [SplitDataRequest::sendPacketToCache] *)
| OutDirectStore (seq : Z)             (** [directStoreToCache] *)
| OutBlockMem (seq : Z)                (** [blockMemInst] *)
| OutRetryMem (seq : Z)                (** [retryMem] *)
| OutCacheMiss (seq : Z)               (** [cacheMissLdReplay] *)
| OutMdpPipeDone (seq : Z)             (** [mdpAddrReplayPipeDone] *)
| OutDefer (seq : Z)                   (** [deferMemInst] *)
| OutFinish (seq : Z).                 (** [readyToFinish] *)

(** A load in one of the read-after-read and read-after-write queues. *)
Record LdRef := LRef { ld_seq : Z; ld_lqIt : Z; ld_sqIt : Z }.

#[export] Instance LdRef_eq_dec : EqDecision LdRef.
Proof. solve_decision. Defined.

(** [LSQUnit]. *)
Record LSQUnit := LU {
  lu_lsqID : Z;
  lu_SQ : CircularQueue SQEntry;     (** [storeQueue] *)
  lu_LQ : CircularQueue LQEntry;     (** [loadQueue] *)
  lu_storeWBIt : Z;
  lu_storesToWB : Z;
  lu_loadCompletedIdx : Z;
  lu_storeCompletedIdx : Z;
  lu_stalled : bool;
  lu_stallingStoreIsn : Z;
  lu_stallingLoadIdx : Z;
  lu_memDepViolator : option Z;      (** its sequence number *)
  lu_isStoreBlocked : bool;
  lu_squashMark : bool;
  lu_RARQueue : list LdRef;
  lu_RAWQueue : list LdRef;
  lu_RARReplayQueue : list LdRef;
  lu_RAWReplayQueue : list LdRef;
  lu_out : list LsqOut
}.

Definition set_SQ (u : LSQUnit) (q : CircularQueue SQEntry) : LSQUnit :=
  LU (lu_lsqID u) q (lu_LQ u) (lu_storeWBIt u) (lu_storesToWB u) (lu_loadCompletedIdx u)
    (lu_storeCompletedIdx u) (lu_stalled u) (lu_stallingStoreIsn u) (lu_stallingLoadIdx u)
    (lu_memDepViolator u) (lu_isStoreBlocked u) (lu_squashMark u) (lu_RARQueue u) (lu_RAWQueue u)
    (lu_RARReplayQueue u) (lu_RAWReplayQueue u) (lu_out u).
Definition set_LQ (u : LSQUnit) (q : CircularQueue LQEntry) : LSQUnit :=
  LU (lu_lsqID u) (lu_SQ u) q (lu_storeWBIt u) (lu_storesToWB u) (lu_loadCompletedIdx u)
    (lu_storeCompletedIdx u) (lu_stalled u) (lu_stallingStoreIsn u) (lu_stallingLoadIdx u)
    (lu_memDepViolator u) (lu_isStoreBlocked u) (lu_squashMark u) (lu_RARQueue u) (lu_RAWQueue u)
    (lu_RARReplayQueue u) (lu_RAWReplayQueue u) (lu_out u).
Definition set_wb (u : LSQUnit) (it n : Z) : LSQUnit :=
  LU (lu_lsqID u) (lu_SQ u) (lu_LQ u) it n (lu_loadCompletedIdx u)
    (lu_storeCompletedIdx u) (lu_stalled u) (lu_stallingStoreIsn u) (lu_stallingLoadIdx u)
    (lu_memDepViolator u) (lu_isStoreBlocked u) (lu_squashMark u) (lu_RARQueue u) (lu_RAWQueue u)
    (lu_RARReplayQueue u) (lu_RAWReplayQueue u) (lu_out u).
Definition set_completed (u : LSQUnit) (ld st : Z) : LSQUnit :=
  LU (lu_lsqID u) (lu_SQ u) (lu_LQ u) (lu_storeWBIt u) (lu_storesToWB u) ld
    st (lu_stalled u) (lu_stallingStoreIsn u) (lu_stallingLoadIdx u)
    (lu_memDepViolator u) (lu_isStoreBlocked u) (lu_squashMark u) (lu_RARQueue u) (lu_RAWQueue u)
    (lu_RARReplayQueue u) (lu_RAWReplayQueue u) (lu_out u).
Definition set_stall (u : LSQUnit) (s : bool) (isn idx : Z) : LSQUnit :=
  LU (lu_lsqID u) (lu_SQ u) (lu_LQ u) (lu_storeWBIt u) (lu_storesToWB u) (lu_loadCompletedIdx u)
    (lu_storeCompletedIdx u) s isn idx
    (lu_memDepViolator u) (lu_isStoreBlocked u) (lu_squashMark u) (lu_RARQueue u) (lu_RAWQueue u)
    (lu_RARReplayQueue u) (lu_RAWReplayQueue u) (lu_out u).
Definition set_violator (u : LSQUnit) (v : option Z) : LSQUnit :=
  LU (lu_lsqID u) (lu_SQ u) (lu_LQ u) (lu_storeWBIt u) (lu_storesToWB u) (lu_loadCompletedIdx u)
    (lu_storeCompletedIdx u) (lu_stalled u) (lu_stallingStoreIsn u) (lu_stallingLoadIdx u)
    v (lu_isStoreBlocked u) (lu_squashMark u) (lu_RARQueue u) (lu_RAWQueue u)
    (lu_RARReplayQueue u) (lu_RAWReplayQueue u) (lu_out u).
Definition set_squashMark (u : LSQUnit) (b : bool) : LSQUnit :=
  LU (lu_lsqID u) (lu_SQ u) (lu_LQ u) (lu_storeWBIt u) (lu_storesToWB u) (lu_loadCompletedIdx u)
    (lu_storeCompletedIdx u) (lu_stalled u) (lu_stallingStoreIsn u) (lu_stallingLoadIdx u)
    (lu_memDepViolator u) (lu_isStoreBlocked u) b (lu_RARQueue u) (lu_RAWQueue u)
    (lu_RARReplayQueue u) (lu_RAWReplayQueue u) (lu_out u).
Definition set_ra (u : LSQUnit) (rar raw rarr rawr : list LdRef) : LSQUnit :=
  LU (lu_lsqID u) (lu_SQ u) (lu_LQ u) (lu_storeWBIt u) (lu_storesToWB u) (lu_loadCompletedIdx u)
    (lu_storeCompletedIdx u) (lu_stalled u) (lu_stallingStoreIsn u) (lu_stallingLoadIdx u)
    (lu_memDepViolator u) (lu_isStoreBlocked u) (lu_squashMark u) rar raw rarr rawr (lu_out u).
Definition emit (u : LSQUnit) (o : LsqOut) : LSQUnit :=
  LU (lu_lsqID u) (lu_SQ u) (lu_LQ u) (lu_storeWBIt u) (lu_storesToWB u) (lu_loadCompletedIdx u)
    (lu_storeCompletedIdx u) (lu_stalled u) (lu_stallingStoreIsn u) (lu_stallingLoadIdx u)
    (lu_memDepViolator u) (lu_isStoreBlocked u) (lu_squashMark u) (lu_RARQueue u) (lu_RAWQueue u)
    (lu_RARReplayQueue u) (lu_RAWReplayQueue u) (lu_out u ++ [o]).

(** The constructor and [resetState]. *)
Definition lu_init (id : Z) (lqEntries sqEntries MaxDataBytes : nat) : LSQUnit :=
  LU id (cq_new sqEntries (sqe_new MaxDataBytes)) (cq_new lqEntries lqe_new) 1 0 0 0 false 0 0 None
    false false [] [] [] [] [].

(** The instruction of an entry; the code dereferences the pointer. *)
Definition lq_inst (e : LQEntry) : res MInst := get_at (lqe_inst e) "instruction()".
Definition sq_inst (e : SQEntry) : res MInst := get_at (sqe_inst e) "instruction()".

(** [insertLoad]. *)
Definition insertLoad (u : LSQUnit) (i : MInst) : res LSQUnit :=
  do! assert_ (negb (cq_isfull (lu_LQ u))) "!loadQueue.full()" in
  do! assert_ (cq_size (lu_LQ u) <? cq_capacity (lu_LQ u))%Z "loadQueue.size() < loadQueue.capacity()" in
  let q := cq_advance_tail (lu_LQ u) in
  let! b := cq_back q in
  let i := mi_set_its i (cq_tail q) (cq_end (lu_SQ u)) in
  let! b := lqe_set b i in
  let! q := cq_put q (cq_tail q) b in
  do! assert_ (0 <? cq_tail q)%Z "load_inst->lqIdx > 0" in
  Ok (set_LQ u q).

(** [insertStore]. *)
Definition insertStore (u : LSQUnit) (i : MInst) : res LSQUnit :=
  do! assert_ (negb (cq_isfull (lu_SQ u))) "!storeQueue.full()" in
  do! assert_ (cq_size (lu_SQ u) <? cq_capacity (lu_SQ u))%Z
        "storeQueue.size() < storeQueue.capacity()" in
  let q := cq_advance_tail (lu_SQ u) in
  do! assert_ (0 <? u64 (cq_tail (lu_LQ u) + 1))%Z "store_inst->lqIdx > 0" in
  let i := mi_set_its i (cq_end (lu_LQ u)) (cq_tail q) in
  let! b := cq_back q in
  let! b := sqe_set b i in
  let! q := cq_put q (cq_tail q) b in
  Ok (set_SQ u q).

(** [LSQUnit::write]: the request and, unless a second micro-operation brings it, the
    data go into the entry. *)
Definition lsq_write (u : LSQUnit) (request : LSQRequest) (data : list Z) (store_idx : Z)
    : res LSQUnit :=
  let! e := cq_at (lu_SQ u) store_idx in
  do! assert_ (sqe_valid e) "entry.valid()" in
  let size := lr_size request in
  let no_data := rf_storeNoData (lr_flags request) in
  let e := sqe_with_request e (Some request) size no_data in
  do! assert_ ((size <=? Z.of_nat (length (sqe_data e)))%Z || no_data)
        "size <= SQEntry::DataSize || store_no_data" in
  let! i := sq_inst e in
  let! e :=
    if negb (rf_cacheBlockZero (lr_flags request)) &&
       negb (rf_isCacheMaintenance (lr_flags request)) &&
       negb (rf_isAtomic (lr_flags request)) && negb (ms_isSplitStoreAddr (mi_static i))
    then (let! d := copy_range (sqe_data e) data 0 (Z.to_nat size) in Ok (sqe_with_data e d))
    else Ok e in
  let! q := cq_put (lu_SQ u) store_idx e in
  Ok (set_SQ u q).

(** The store data micro-operation (arch/riscv/insts/mem.cc, [StoreData::execute]). *)
Definition storeDataExecute (u : LSQUnit) (store_idx : Z) (data : list Z) (memsize : nat)
    : res LSQUnit :=
  let! e := cq_at (lu_SQ u) store_idx in
  let! i := sq_inst e in
  let! e :=
    match mi_memData i with
    | Some m => let! m := copy_range m data 0 memsize in Ok (sqe_with_inst e (mi_set_memData i (Some m)))
    | None => Ok e
    end in
  let! d := copy_range (sqe_data e) data 0 memsize in
  let! e := setStatus (sqe_with_data e d) DataReady in
  let! e := setStatus e StdPipeFinish in
  let! q := cq_put (lu_SQ u) store_idx e in
  Ok (set_SQ u q).

(** ** Commit and completion *)

(** [commitLoad]. *)
Definition commitLoad (u : LSQUnit) : res LSQUnit :=
  let! e := cq_front (lu_LQ u) in
  do! assert_ (lqe_valid e) "loadQueue.front().valid()" in
  let! q := cq_put (lu_LQ u) (cq_head (lu_LQ u)) (lqe_clear e) in
  let! q := cq_pop_front q in
  Ok (set_LQ u q).

(** [commitLoads]; the fuel is the number of loads. *)
Fixpoint commitLoads_loop (fuel : nat) (u : LSQUnit) (youngest : Z) : res LSQUnit :=
  match fuel with
  | O => Ok u
  | S fuel =>
      if (cq_size (lu_LQ u) =? 0)%Z then Ok u
      else
        let! e := cq_front (lu_LQ u) in
        let! i := lq_inst e in
        if (mi_seqNum i <=? youngest)%Z then
          let! u := commitLoad u in
          commitLoads_loop fuel u youngest
        else Ok u
  end.

Definition commitLoads (u : LSQUnit) (youngest : Z) : res LSQUnit :=
  let! ok := if (cq_size (lu_LQ u) =? 0)%Z then Ok true
             else let! e := cq_front (lu_LQ u) in Ok (lqe_valid e) in
  do! assert_ ok "loadQueue.size() == 0 || loadQueue.front().valid()" in
  commitLoads_loop (S (Z.to_nat (cq_size (lu_LQ u)))) u youngest.

(** [commitStores]: the loop over the queue, oldest first. *)
Fixpoint commitStores_loop (n : nat) (idx : Z) (u : LSQUnit) (youngest : Z) : res LSQUnit :=
  match n with
  | O => Ok u
  | S n =>
      let! x := cq_at (lu_SQ u) idx in
      do! assert_ (sqe_valid x) "x.valid()" in
      if sqe_canWB x then commitStores_loop n (idx + 1) u youngest
      else
        let! i := sq_inst x in
        if (youngest <? mi_seqNum i)%Z then Ok u
        else
          do! assert_ (if ms_isSplitStoreAddr (mi_static i) then splitStoreFinish x else true)
                "x.instruction()->isSplitStoreAddr() ? x.splitStoreFinish() : true" in
          let! q := cq_put (lu_SQ u) idx (sqe_with_wb x true (sqe_completed x)) in
          commitStores_loop n (idx + 1) (set_wb (set_SQ u q) (lu_storeWBIt u) (lu_storesToWB u + 1))
            youngest
  end.

Definition commitStores (u : LSQUnit) (youngest : Z) : res LSQUnit :=
  let! ok := if (cq_size (lu_SQ u) =? 0)%Z then Ok true
             else let! e := cq_front (lu_SQ u) in Ok (sqe_valid e) in
  do! assert_ ok "storeQueue.size() == 0 || storeQueue.front().valid()" in
  commitStores_loop (Z.to_nat (cq_size (lu_SQ u))) (cq_head (lu_SQ u)) u youngest.

(** The [do .. while] of [completeStore]: completed stores leave at the front. *)
Fixpoint popCompleted (fuel : nat) (q : CircularQueue SQEntry) : res (CircularQueue SQEntry) :=
  match fuel with
  | O => Ok q
  | S fuel =>
      let! e := cq_front q in
      let! q := cq_put q (cq_head q) (sqe_clear e) in
      let! q := cq_pop_front q in
      let! f := cq_front q in
      if sqe_completed f && negb (cq_empty q) then popCompleted fuel q else Ok q
  end.

(** [completeStore]. *)
Definition completeStore (u : LSQUnit) (store_idx : Z) : res LSQUnit :=
  let! e := cq_at (lu_SQ u) store_idx in
  do! assert_ (sqe_valid e) "store_idx->valid()" in
  let! q := cq_put (lu_SQ u) store_idx (sqe_with_wb e (sqe_canWB e) true) in
  let u := set_wb (set_SQ u q) (lu_storeWBIt u) (lu_storesToWB u - 1) in
  let! store_inst := sq_inst e in
  let! u :=
    if (store_idx =? cq_head (lu_SQ u))%Z then
      let! q := popCompleted (S (Z.to_nat (cq_size (lu_SQ u)))) (lu_SQ u) in
      Ok (set_SQ u q)
    else Ok u in
  if lu_stalled u && (mi_seqNum store_inst =? lu_stallingStoreIsn u)%Z then
    let! l := cq_at (lu_LQ u) (lu_stallingLoadIdx u) in
    let! li := lq_inst l in
    Ok (emit (set_stall u false 0 (lu_stallingLoadIdx u)) (OutReplayMem (mi_seqNum li)))
  else Ok u.

(** ** Squash *)

(** The loads younger than [squashed_num] leave at the back. *)
Fixpoint squashLoads (fuel : nat) (u : LSQUnit) (squashed_num : Z) : res LSQUnit :=
  match fuel with
  | O => Ok u
  | S fuel =>
      if (cq_size (lu_LQ u) =? 0)%Z then Ok u
      else
        let! e := cq_back (lu_LQ u) in
        let! i := lq_inst e in
        if (squashed_num <? mi_seqNum i)%Z then
          let u := if lu_stalled u && (cq_tail (lu_LQ u) =? lu_stallingLoadIdx u)%Z
                   then set_stall u false 0 0 else u in
          let! q := cq_put (lu_LQ u) (cq_tail (lu_LQ u)) (lqe_clear e) in
          let! q := cq_pop_back q in
          squashLoads fuel (set_LQ u q) squashed_num
        else Ok u
  end.

(** The stores: those that commit has released stay. *)
Fixpoint squashStores (fuel : nat) (u : LSQUnit) (squashed_num : Z) : res LSQUnit :=
  match fuel with
  | O => Ok u
  | S fuel =>
      if (cq_size (lu_SQ u) =? 0)%Z then Ok u
      else
        let! e := cq_back (lu_SQ u) in
        let! i := sq_inst e in
        if (squashed_num <? mi_seqNum i)%Z then
          if sqe_canWB e then Ok u
          else
            do! panic_if (lu_stalled u && (mi_seqNum i =? lu_stallingStoreIsn u)%Z)
                  "Is stalled should have been cleared by stalling load!" in
            let! q := cq_put (lu_SQ u) (cq_tail (lu_SQ u)) (sqe_clear e) in
            let! q := cq_pop_back q in
            squashStores fuel (set_SQ u q) squashed_num
        else Ok u
  end.

(** [rewindCompletedIdx], on the entries of a queue as (valid, sequence number). *)
Fixpoint rewind_scan (n : nat) (idx : Z) (at_ : Z → res (bool * option Z)) (squashed_num : Z)
    : res (option Z) :=
  match n with
  | O => Ok None
  | S n =>
      let idx := (idx - 1)%Z in
      let! e := at_ idx in
      match e with
      | (true, Some s) => if (s <=? squashed_num)%Z then Ok (Some idx)
                          else rewind_scan n idx at_ squashed_num
      | _ => rewind_scan n idx at_ squashed_num
      end
  end.

Definition rewindCompletedIdx {A} (q : CircularQueue A) (view : A → bool * option Z)
    (completed_idx squashed_num : Z) : res Z :=
  let at_ idx := let! e := cq_at q idx in Ok (view e) in
  if cq_empty q then Ok (u64 (cq_head q - 1))
  else if negb (isValidIdx q completed_idx) then Ok (u64 (cq_head q - 1))
  else
    let! c := at_ completed_idx in
    if match c with (true, Some s) => (s <=? squashed_num)%Z | _ => false end then Ok completed_idx
    else
      let! r := rewind_scan (Z.to_nat (cq_size q)) (cq_end q) at_ squashed_num in
      Ok (match r with Some idx => idx | None => u64 (cq_head q - 1) end).

Definition lq_view (e : LQEntry) : bool * option Z := (lqe_valid e, mi_seqNum <$> lqe_inst e).
Definition sq_view (e : SQEntry) : bool * option Z := (sqe_valid e, mi_seqNum <$> sqe_inst e).

(** The front of a replay queue, while it is squashed. *)
Fixpoint pop_squashed (l : list LdRef) (squashed_num : Z) : list LdRef :=
  match l with
  | i :: l' => if (squashed_num <? ld_seq i)%Z then pop_squashed l' squashed_num else l
  | [] => []
  end.

(** [LSQUnit::squash]; [mdp] is [enableReplayBasedMDP()]. *)
Definition lsq_squash (u : LSQUnit) (squashed_num : Z) (mdp : bool) : res LSQUnit :=
  let u := set_squashMark u true in
  let! u := squashLoads (S (Z.to_nat (cq_size (lu_LQ u)))) u squashed_num in
  let! lc := rewindCompletedIdx (lu_LQ u) lq_view (lu_loadCompletedIdx u) squashed_num in
  let u := set_completed u lc (lu_storeCompletedIdx u) in
  let u := match lu_memDepViolator u with
           | Some v => if (squashed_num <? v)%Z then set_violator u None else u
           | None => u
           end in
  let! u := squashStores (S (Z.to_nat (cq_size (lu_SQ u)))) u squashed_num in
  let prev := lu_storeCompletedIdx u in
  let! sc := rewindCompletedIdx (lu_SQ u) sq_view prev squashed_num in
  let u := set_completed u (lu_loadCompletedIdx u) sc in
  let u := if mdp && negb (sc =? prev)%Z then emit u (OutMdpCompleted sc) else u in
  let keep l := filter (λ i, (ld_seq i ≤ squashed_num)%Z) l in
  Ok (set_ra u (keep (lu_RARQueue u)) (keep (lu_RAWQueue u))
        (pop_squashed (lu_RARReplayQueue u) squashed_num)
        (pop_squashed (lu_RAWReplayQueue u) squashed_num)).
