(* ===== verification/LsqRead.v ===== *)
(** Ordering checks and the read of a load (cpu/o3/lsq_unit.cc): memory order
    violations, forwarding from the store queue and the store buffer, the request to the
    data cache and its answer (cpu/o3/lsq.cc, [SingleDataRequest]).

    The data cache is outside: what it answers to a packet is an argument. *)
From stdpp Require Import gmap.
From S2P Require Import Prelude Bytes StoreBuffer CircularQueue LsqUnit.

(** The parameters of [BaseO3CPU] that the unit reads. *)
Record LsqParams := {
  lp_lineBits : Z;                   (** log2 of [cacheLineSize()] *)
  lp_depCheckShift : Z;
  lp_checkLoads : bool;
  lp_pipeNukeCheck : bool;           (** [enablePipeNukeCheck()] *)
  lp_ldMissReplay : bool;            (** [enableLdMissReplay()] *)
  lp_mdp : bool;                     (** [enableReplayBasedMDP()] *)
  lp_maxRARQEntries : nat;
  lp_maxRAWQEntries : nat;
  lp_rarDequeue : nat;
  lp_rawDequeue : nat;
  lp_loadCompletionWidth : nat;
  lp_storeCompletionWidth : nat;
  lp_storeWbStage : nat
}.

(** ** Instructions in the load queue *)

Definition lq_get (u : LSQUnit) (idx : Z) : res MInst :=
  let! e := cq_at (lu_LQ u) idx in lq_inst e.
Definition lq_put (u : LSQUnit) (idx : Z) (i : MInst) : res LSQUnit :=
  let! e := cq_at (lu_LQ u) idx in
  let! q := cq_put (lu_LQ u) idx (lqe_with_inst e i) in
  Ok (set_LQ u q).
Definition lq_setRequest (u : LSQUnit) (idx : Z) (r : option LSQRequest) : res LSQUnit :=
  let! e := cq_at (lu_LQ u) idx in
  let! q := cq_put (lu_LQ u) idx (lqe_with_request e r) in
  Ok (set_LQ u q).

Definition sq_get (u : LSQUnit) (idx : Z) : res MInst :=
  let! e := cq_at (lu_SQ u) idx in sq_inst e.
Definition sq_put (u : LSQUnit) (idx : Z) (i : MInst) : res LSQUnit :=
  let! e := cq_at (lu_SQ u) idx in
  let! q := cq_put (lu_SQ u) idx (sqe_with_inst e i) in
  Ok (set_SQ u q).

(** [loadSetReplay]: the load forgets its address and its request; with [drop] the
    request is discarded at once. *)
Definition loadSetReplay (u : LSQUnit) (idx : Z) (drop : bool) : res LSQUnit :=
  let! i := lq_get u idx in
  let! u := lq_put u idx (mi_set_valid i false false (if drop then None else mi_saved i)) in
  lq_setRequest u idx None.

(** ** Memory order violations *)

(** Two parts of accesses fall on a common granule of [2 ^ shift] bytes. *)
Definition part_overlap (shift : Z) (r0 r1 : MemReq) : bool :=
  let lo r := Z.shiftr (mr_paddr r) shift in
  let hi r := Z.shiftr (u64 (mr_paddr r + mr_size r - 1)) shift in
  (lo r1 <=? hi r0)%Z && (lo r0 <=? hi r1)%Z.

(** The loop over the load queue for one part [req0] of the access of [inst]; the flag
    says that the function returned, with a fault or without. *)
Fixpoint cv_loads (shift : Z) (n : nat) (idx : Z) (u : LSQUnit) (isLoad : bool) (req0 : MemReq)
    : res (LSQUnit * option bool) :=
  match n with
  | O => Ok (u, None)
  | S n =>
      let! e := cq_at (lu_LQ u) idx in
      let! ld := lq_inst e in
      let next u := cv_loads shift n (idx + 1) u isLoad req0 in
      if negb (mi_effAddrValid ld) || mi_strictlyOrdered ld then next u
      else
        let! r := get_at (lqe_request e) "loadIt->request()" in
        if existsb (part_overlap shift req0) (lr_reqs r) then
          let older := match lu_memDepViolator u with
                       | None => true
                       | Some v => (mi_seqNum ld <? v)%Z
                       end in
          if isLoad then
            if mi_hitExternalSnoop ld && older then
              Ok (set_violator u (Some (mi_seqNum ld)), Some true)
            else
              let! u := lq_put u idx (mi_set_order ld (mi_hitExternalSnoop ld) true) in
              next u
          else if match lu_memDepViolator u with Some v => (v <? mi_seqNum ld)%Z | None => false end
          then Ok (u, Some false)
          else if needs ld NukeReplay then next u
          else if mp_skipRawCheck (mi_pipe ld) then next u
          else Ok (set_violator u (Some (mi_seqNum ld)), Some true)
        else next u
  end.

(** [checkViolations], from the load at [loadIt] on, for the access [reqs]; the result
    says whether it is a fault. *)
Fixpoint checkViolations (shift : Z) (loadIt : Z) (u : LSQUnit) (isLoad : bool) (reqs : list MemReq)
    : res (LSQUnit * bool) :=
  match reqs with
  | [] => Ok (u, false)
  | req0 :: reqs =>
      let! r := cv_loads shift (Z.to_nat (cq_end (lu_LQ u) - loadIt)) loadIt u isLoad req0 in
      match snd r with
      | Some f => Ok (fst r, f)
      | None => checkViolations shift loadIt (fst r) isLoad reqs
      end
  end.

(** [pipeLineNukeCheck]. *)
Definition pipeLineNukeCheck (P : LsqParams) (load store : MInst) : bool :=
  let shift := lp_depCheckShift P in
  let lo i := Z.shiftr (mi_physEffAddr i) shift in
  let hi i := Z.shiftr (u64 (mi_physEffAddr i + mi_effSize i - 1)) shift in
  let load_is_split := match mi_saved load with Some r => lr_isSplit r | None => false end in
  let load_need_check := negb load_is_split && mi_effAddrValid load && (mi_lqIt store <=? mi_lqIt load)%Z in
  let store_need_check := bool_decide (mi_saved store ≠ None) in
  lp_pipeNukeCheck P && load_need_check && store_need_check &&
  ((lo load <=? hi store)%Z && (lo store <=? hi load)%Z).

(** [storePipeSx[1]]: the stores that the second stage handles next. *)
Definition storePipeS1 (u : LSQUnit) : list MInst :=
  filter (λ i, mi_stage i = Some 1) (omap sqe_inst (cq_list (lu_SQ u))).

(** ** Forwarding from the store queue *)

Inductive AddrRangeCoverage :=
| PartialAddrRangeCoverage | FullAddrRangeCoverage | NoAddrRangeCoverage.

(** [checkStoreLoadForwardingRange] of a store entry, for the ranges
    [[req_s, req_e)] of the load and [[st_s, st_e)] of the store; the flag says that the
    load has to wait for the store's data. *)
Definition checkStoreLoadForwardingRange (e : SQEntry) (st : MInst) (llsc : bool)
    (req_s req_e st_s st_e : Z) : res (AddrRangeCoverage * bool) :=
  let store_has_lower_limit := (st_s <=? req_s)%Z in
  let store_has_upper_limit := (req_e <=? st_e)%Z in
  let lower_load_has_store_part := (req_s <? st_e)%Z in
  let upper_load_has_store_part := (st_s <? req_e)%Z in
  let atomic := ms_isAtomic (mi_static st) in
  let ordered := negb ((req_e <? req_s)%Z || (st_e <? st_s)%Z) in
  if negb atomic && store_has_lower_limit && store_has_upper_limit && negb llsc && ordered then
    if ms_isSplitStoreAddr (mi_static st) && negb (canForwardToLoad e) then
      Ok (NoAddrRangeCoverage, true)
    else
      let! r := get_at (sqe_request e) "store_it->request()" in
      Ok (if lr_isSplit r then PartialAddrRangeCoverage
          else if isMasked (lr_mainReq r) then PartialAddrRangeCoverage else FullAddrRangeCoverage,
          false)
  else if ordered &&
    ((negb llsc &&
       ((store_has_lower_limit && lower_load_has_store_part) ||
        (store_has_upper_limit && upper_load_has_store_part) ||
        (lower_load_has_store_part && upper_load_has_store_part))) ||
     (llsc &&
       ((store_has_lower_limit || upper_load_has_store_part) &&
        (store_has_upper_limit || lower_load_has_store_part))) ||
     (atomic &&
       ((store_has_lower_limit || upper_load_has_store_part) &&
        (store_has_upper_limit || lower_load_has_store_part))))
  then Ok (PartialAddrRangeCoverage, false)
  else Ok (NoAddrRangeCoverage, false).

Definition req_range (r : MemReq) : Z * Z := (mr_paddr r, u64 (mr_paddr r + mr_size r)).

(** The ranges of a store that a load is compared with: the whole store, or its parts. *)
Definition store_ranges (e : SQEntry) (st : MInst) : list (Z * Z) :=
  match sqe_request e with
  | Some r =>
      if lr_isSplit r then map req_range (lr_reqs r)
      else [(mi_physEffAddr st, u64 (mi_physEffAddr st + sqe_size e))]
  | None => [(mi_physEffAddr st, u64 (mi_physEffAddr st + sqe_size e))]
  end.

Definition load_ranges (request : LSQRequest) : list (Z * Z) :=
  if lr_isSplit request then map req_range (lr_reqs request) else [req_range (lr_mainReq request)].

(** The coverage of a load by a store.  The comparisons of the parts stop at the first
    overlap or at a store whose data is missing; a split load counts every overlap as
    partial. *)
Fixpoint coverage_scan (e : SQEntry) (st : MInst) (llsc : bool) (pairs : list ((Z * Z) * (Z * Z)))
    : res (AddrRangeCoverage * bool) :=
  match pairs with
  | [] => Ok (NoAddrRangeCoverage, false)
  | (rq, sr) :: pairs =>
      let! c := checkStoreLoadForwardingRange e st llsc (fst rq) (snd rq) (fst sr) (snd sr) in
      match c with
      | (NoAddrRangeCoverage, true) => Ok c
      | (NoAddrRangeCoverage, false) => coverage_scan e st llsc pairs
      | _ => Ok c
      end
  end.

Definition coverage (request : LSQRequest) (e : SQEntry) (st : MInst)
    : res (AddrRangeCoverage * bool) :=
  let pairs := rq ← load_ranges request; sr ← store_ranges e st; [(rq, sr)] in
  let! c := coverage_scan e st (rf_isLLSC (lr_flags request)) pairs in
  Ok (if lr_isSplit request then
        (match fst c with NoAddrRangeCoverage => NoAddrRangeCoverage | _ => PartialAddrRangeCoverage end,
         snd c)
      else c).

(** The packets of a full forwarding. *)
Definition full_packets (e : SQEntry) (shift_amt : Z) (size : nat) : res (list FWDPacket) :=
  res_mapM (λ i : nat,
    if sqe_isAllZeros e then Ok (FWD (Z.of_nat i) 0)
    else let! b := nth_res (sqe_data e) (shift_amt + Z.of_nat i) in Ok (FWD (Z.of_nat i) b))
    (seq 0 size).

(** What the search of the store queue ends with. *)
Inductive SqSearch :=
| SqNone                             (** no store overlaps *)
| SqStlf (store : Z)                 (** the data of [store] is missing *)
| SqFull (packets : list FWDPacket)
| SqPartial (store : Z).

(** The loop over the older stores, youngest first; [n] is their number. *)
Fixpoint sq_search (n : nat) (idx : Z) (u : LSQUnit) (load_seq : Z) (request : LSQRequest) : res SqSearch :=
  match n with
  | O => Ok SqNone
  | S n =>
      let! idx := cq_it_dec (lu_SQ u) idx in
      let! e := cq_at (lu_SQ u) idx in
      do! assert_ (sqe_valid e) "store_it->valid()" in
      let! st := sq_inst e in
      do! assert_ (mi_seqNum st <? load_seq)%Z
            "store_it->instruction()->seqNum < load_inst->seqNum" in
      let! maint := if (sqe_size e =? 0)%Z then Ok false
                    else let! r := get_at (sqe_request e) "store_it->request()" in
                         Ok (rf_isCacheMaintenance (lr_flags r)) in
      if negb (sqe_size e =? 0)%Z && negb (mi_strictlyOrdered st) && negb maint then
        do! assert_ (mi_effAddrValid st) "store_it->instruction()->effAddrValid()" in
        let! c := coverage request e st in
        match c with
        | (NoAddrRangeCoverage, true) => Ok (SqStlf (mi_seqNum st))
        | (NoAddrRangeCoverage, false) => sq_search n idx u load_seq request
        | (FullAddrRangeCoverage, _) =>
            let! ps := full_packets e (mr_paddr (lr_mainReq request) - mi_physEffAddr st)
                         (Z.to_nat (mr_size (lr_mainReq request))) in
            Ok (SqFull ps)
        | (PartialAddrRangeCoverage, _) =>
            do! panic_if (sqe_completed e) "Should not check one of these" in
            Ok (SqPartial (mi_seqNum st))
        end
      else sq_search n idx u load_seq request
  end.

(** ** The read of a load *)

(** What [dcachePort->sendTimingReq] refuses a packet for. *)
Inductive Refusal := RTagRead | RMshrArb | RMshrAlias | RWriteBuffer | RCacheBlocked.

#[export] Instance Refusal_eq_dec : EqDecision Refusal.
Proof. solve_decision. Defined.

(** The answer to the packet of a load: the bank is busy, the cache or its port is not
    available, the packet is refused. *)
Record CacheAns := CAns {
  ca_bankConflict : bool;
  ca_available : bool;
  ca_refused : option Refusal
}.

Section Read.

Context {C : Type} (P : LsqParams).

(** [recordForward] for the bytes of a request of one part. *)
Definition sbuffer_forward (sb : StoreBuffer C) (lsqID : Z) (request : LSQRequest)
    : res (option (list FWDPacket * bool)) :=
  let r := lr_mainReq request in
  let! p := sb_get sb lsqID (block_addr (lp_lineBits P) (mr_paddr r)) in
  match p with
  | None => Ok None
  | Some p =>
      let! f := recordForward sb p (lr_addr request) (Z.to_nat (lr_size request)) (mr_vaddr r) (mr_paddr r)
                  (Z.to_nat (mr_size r)) in
      Ok (Some f)
  end.

(** [trySendPacket] and [SingleDataRequest::sendPacketToCache] of a load; the flag says
    that the cache got blocked. *)
Definition sendLoadPacket (sb : StoreBuffer C) (lsqID : Z) (i : MInst) (request : LSQRequest)
    (ans : CacheAns) : res (MInst * bool) :=
  do! assert_ (lr_numOutstanding request =? 0)%Z "_numOutstandingPackets == 0" in
  if ca_available ans && negb (ca_bankConflict ans) && bool_decide (ca_refused ans = None) then
    let! f := sbuffer_forward sb lsqID request in
    let! ps := match f with
               | Some (ps, full) => do! assert_ (negb full) "request->isSplit()" in Ok ps
               | None => Ok []
               end in
    let request := lr_set_forward (lr_set_outstanding request 1) (lr_SQforward request)
                     (lr_SBforward request ++ ps) in
    Ok (mi_set_cache (mi_set_saved i (Some request)) true (mi_waiting i) (mi_memData i), false)
  else
    let! i := if ca_bankConflict ans then setReplay i BankConflictReplay else Ok i in
    let refused := if ca_available ans && negb (ca_bankConflict ans) then ca_refused ans else None in
    let! i := match refused with
              | Some RMshrArb => setReplay i MshrArbFailReplay
              | Some RMshrAlias => setReplay i MshrAliasFailReplay
              | Some RWriteBuffer => setReplay i HitInWriteBufferReplay
              | _ => Ok i
              end in
    Ok (i, bool_decide (refused = Some RCacheBlocked)).

(** The stores that a load of the dependence predictor waits for. *)
Fixpoint mdp_wait_stores (load : MInst) (l : list SQEntry) : list Z :=
  match l with
  | [] => []
  | e :: l =>
      match (if sqe_valid e then sqe_inst e else None) with
      | None => mdp_wait_stores load l
      | Some st =>
          if (mi_seqNum load <=? mi_seqNum st)%Z then []
          else if sqe_addrReady e then mdp_wait_stores load l
          else if bool_decide (mi_seqNum st ∈ ms_mdpProducing (mi_static load))
          then mi_seqNum st :: mdp_wait_stores load l
          else mdp_wait_stores load l
      end
  end.

(** [setMdpAddrReplay], [loadSetReplay] and the registration. *)
Definition mdp_replay (u : LSQUnit) (idx : Z) (o : LsqOut) : res (LSQUnit * bool * bool) :=
  let! i := lq_get u idx in
  let! i := setReplay i MdpAddrReplay in
  let! u := lq_put u idx i in
  let! u := loadSetReplay u idx true in
  Ok (emit u o, false, false).

Definition alloc_memData (i : MInst) (request : LSQRequest) : MInst :=
  match mi_memData i with
  | Some _ => i
  | None => mi_set_memData i (Some (replicate (Z.to_nat (mr_size (lr_mainReq request))) 0%Z))
  end.

(** The last part of [read]: the pending request, the data on the bus, the cache.  The
    packets of a split load are left out. *)
Definition read_cache (sb : StoreBuffer C) (bus : gmap Z Z) (u : LSQUnit) (idx : Z) (ans : CacheAns)
    : res (LSQUnit * bool * bool) :=
  let! i := lq_get u idx in
  let! request := get_at (mi_saved i) "request" in
  let i := alloc_memData i request in
  if mi_pending i then
    let! u := lq_put u idx (setWakeUpEarly i) in Ok (u, false, false)
  else if bool_decide (is_Some (bus !! mi_seqNum i)) then
    do! panic_if (cq_capacity (lu_LQ u) <? Z.of_nat (size bus))%Z
          "packets on bus should never be greater than LQ size" in
    let! u := lq_put u idx (setFullForward i) in Ok (u, false, false)
  else if lr_isSplit request then
    let! u := lq_put u idx i in Ok (emit u (OutSplitSend (mi_seqNum i)), false, false)
  else
    let! r := sendLoadPacket sb (lu_lsqID u) i request ans in
    let i := fst r in
    if negb (mi_pending i) && negb (needs i BankConflictReplay) && negb (needs i MshrArbFailReplay) &&
       negb (needs i MshrAliasFailReplay) && negb (needs i HitInWriteBufferReplay) then
      let! i := setReplay i CacheBlockedReplay in
      let! u := lq_put u idx i in
      Ok (emit u (OutBlockMem (mi_seqNum i)), false, snd r)
    else let! u := lq_put u idx i in Ok (u, false, snd r).

(** The part of [read] from the search of the store queue on. *)
Definition read_search (sb : StoreBuffer C) (bus : gmap Z Z) (u : LSQUnit) (idx : Z) (ans : CacheAns)
    : res (LSQUnit * bool * bool) :=
  let! i := lq_get u idx in
  let! request := get_at (mi_saved i) "request" in
  do! panic_if (mi_sqIt i <? lu_storeWBIt u)%Z
        "Load instruction's store index is younger than store writeback index" in
  let! s := if ms_isDataPrefetch (mi_static i) then Ok SqNone
            else sq_search (Z.to_nat (mi_sqIt i - lu_storeWBIt u)) (mi_sqIt i) u (mi_seqNum i) request in
  match s with
  | SqStlf store =>
      let! i := setReplay i STLFReplay in
      let! u := lq_put u idx i in
      let! u := loadSetReplay (emit u (OutStlfFail (mi_seqNum i) store)) idx true in
      Ok (u, false, false)
  | SqFull ps =>
      let i := alloc_memData i request in
      let i := mi_set_saved i (Some (lr_set_forward request ps (lr_SBforward request))) in
      let! u := lq_put u idx (setFullForward i) in
      Ok (u, false, false)
  | SqPartial store =>
      let! older := if lu_stalled u then
                      let! l := lq_get u (lu_stallingLoadIdx u) in
                      Ok (mi_seqNum i <? mi_seqNum l)%Z
                    else Ok true in
      let u := if older : bool then set_stall u true store idx else u in
      let! i := setReplay (mi_set_valid i false false None) RescheduleReplay in
      let! u := lq_put (emit u (OutReschedule (mi_seqNum i))) idx i in
      let! u := lq_setRequest u idx None in
      Ok (u, false, false)
  | SqNone =>
      if negb (ms_isDataPrefetch (mi_static i)) && negb (lr_isSplit request) then
        let! f := sbuffer_forward sb (lu_lsqID u) request in
        match f with
        | Some (ps, full) =>
            let i := mi_set_saved i (Some (lr_set_forward request (lr_SQforward request) ps)) in
            if full : bool then
              let! u := lq_put u idx (setFullForward (alloc_memData i request)) in
              Ok (u, false, false)
            else
              let! u := lq_put u idx i in
              read_cache sb bus u idx ans
        | None => read_cache sb bus u idx ans
        end
      else read_cache sb bus u idx ans
  end.

(** [LSQUnit::read]; the flags say that it ends with a fault, and that the cache got
    blocked. *)
Definition lsq_read (sb : StoreBuffer C) (bus : gmap Z Z) (u : LSQUnit) (idx : Z) (ans : CacheAns)
    : res (LSQUnit * bool * bool) :=
  let! i := lq_get u idx in
  let! request := get_at (mi_saved i) "request" in
  let! u := lq_setRequest u idx (Some request) in
  do! assert_ (negb (mi_executed i)) "!load_inst->isExecuted()" in
  if rf_isStrictlyOrdered (lr_flags request) &&
     (negb (idx =? cq_head (lu_LQ u))%Z || negb (mi_atCommit i)) then
    let! i := setReplay (setSkipFollowingPipe (mi_set_valid i false false None)) RescheduleReplay in
    let! u := lq_put (emit u (OutReschedule (mi_seqNum i))) idx i in
    let! u := lq_setRequest u idx None in
    Ok (u, true, false)
  else
    let mdp := lp_mdp P && isNormalLd request &&
               (ms_mdpStrictWait (mi_static i) || negb (bool_decide (ms_mdpProducing (mi_static i) = []))) in
    let waits := mdp_wait_stores i (cq_list (lu_SQ u)) in
    if mdp && ms_mdpStrictWait (mi_static i) && (u64 (lu_storeCompletedIdx u + 1) <? mi_sqIt i)%Z then
      mdp_replay u idx (OutMdpStrict (mi_seqNum i) (if (mi_sqIt i =? 0)%Z then 0 else mi_sqIt i - 1))
    else if mdp && negb (ms_mdpStrictWait (mi_static i)) && negb (bool_decide (waits = [])) then
      mdp_replay u idx (OutMdpWait (mi_seqNum i) waits)
    else
      let u := set_squashMark u false in
      let u := if rf_isLLSC (lr_flags request) then emit u (OutLockedRead (mi_seqNum i)) else u in
      if rf_isLocalAccess (lr_flags request) then
        do! assert_ (bool_decide (mi_memData i = None)) "!load_inst->memData" in
        let! u := lq_put (emit u (OutLocalAccess (mi_seqNum i))) idx
                    (setSkipFollowingPipe (alloc_memData i request)) in
        Ok (u, false, false)
      else
        let! u := lq_put u idx (mi_set_saved i (Some (lr_set_forward request [] []))) in
        read_search sb bus u idx ans.

(** ** The answer of the cache *)

(** [LSQRequest::forward]: the forwarded bytes over the data of the load, those of the
    store queue last. *)
Definition lr_forward (request : LSQRequest) (d : list Z) : res (list Z) :=
  let! d := forward_packets d (lr_SBforward request) in
  forward_packets d (lr_SQforward request).

(** [writebackReg]: the data reaches the register, once. *)
Definition writebackReg (i : MInst) : MInst :=
  if mi_executed i then i else mi_set_executed i (mi_memData i).

(** [assemblePackets] of a load: [forward], then the write-back. *)
Definition assemblePackets (i : MInst) : res MInst :=
  let! request := get_at (mi_saved i) "request" in
  let! d := get_at (mi_memData i) "memData" in
  let! d := lr_forward request d in
  Ok (writebackReg (mi_set_memData i (Some d))).

(** [SingleDataRequest::recvTimingResp] of a load, [data] being what the cache wrote to
    the buffer of the packet, [hit] whether it answered within a cycle.  A late answer
    to a load that nobody waits for stays on the bus. *)
Definition recvTimingResp (u : LSQUnit) (bus : gmap Z Z) (idx : Z) (data : list Z) (paddr : Z) (hit : bool)
    : res (LSQUnit * gmap Z Z) :=
  let! i := lq_get u idx in
  do! assert_ (mi_pending i) "_numOutstandingPackets == 1" in
  let normal := match mi_saved i with Some r => isNormalLd r | None => true end in
  let i := mi_set_memData i (Some data) in
  let done := λ i : MInst, mi_set_cache i false (mi_waiting i) (mi_memData i) in
  if lp_ldMissReplay P && normal then
    if hit then
      let! u := lq_put u idx (done (setCacheHit i)) in Ok (u, bus)
    else if mi_waiting i then
      let! u := lq_put u idx (mi_set_cache i false false (mi_memData i)) in Ok (u, bus)
    else
      let! u := lq_put u idx (done i) in Ok (u, <[mi_seqNum i := paddr]> bus)
  else
    let! i := assemblePackets i in
    let! u := lq_put u idx (done i) in Ok (u, bus).

(** [SingleDataRequest::recvFunctionalCustomSignal]: the hint of a refill. *)
Definition recvHint (u : LSQUnit) (idx : Z) : res LSQUnit :=
  let! i := lq_get u idx in
  let normal := match mi_saved i with Some r => isNormalLd r | None => true end in
  if lp_ldMissReplay P && normal && mi_waiting i then
    lq_put u idx (mi_set_cache i (mi_pending i) false (mi_memData i))
  else Ok u.

(** [Bus_Clear]: the block reached the cache. *)
Definition busClear (u : LSQUnit) (bus : gmap Z Z) (blk : Z) : res (gmap Z Z) :=
  let bus := filter (λ x, block_addr (lp_lineBits P) x.2 ≠ blk) bus in
  do! panic_if (cq_capacity (lu_LQ u) <? Z.of_nat (size bus))%Z
        "elements on bus should never be greater than LQ size" in
  Ok bus.

End Read.
