(* ===== verification/LsqPipe.v ===== *)
(** The load and store pipelines of the unit (cpu/o3/lsq_unit.cc): issue, the stages,
    the completed indices and the queues of loads that wait for them.

    The slot of an instruction in [loadPipeSx] or [storePipeSx] is its [mp_stage]; the
    bodies of the loops of [executeLoadPipeSx] and [executeStorePipeSx] handle one
    instruction.  Faults, predication and the checker are left out. *)
From stdpp Require Import gmap.
From S2P Require Import Prelude Bytes StoreBuffer CircularQueue LsqUnit LsqRead.

(** ** Loads *)

(** [issueToLoadPipe]. *)
Definition issueToLoadPipe (u : LSQUnit) (idx : Z) : res LSQUnit :=
  let! i := lq_get u idx in
  do! panic_if (bool_decide (mi_stage i ≠ None)) "load is already in pipeline" in
  lq_put u idx (setSkipRawCheck (beginPipelining i) true).

(** [loadDoTranslate], with what [LSQ::pushRequest] does of it: a new request is
    installed in the queue.  [tr] is the request once translated, or nothing when the
    translation is delayed. *)
Definition loadDoTranslate (u : LSQUnit) (idx : Z) (tr : option LSQRequest) : res LSQUnit :=
  let! i := lq_get u idx in
  if mi_translationStarted i then
    do! assert_ (bool_decide (mi_saved i ≠ None)) "request" in
    lq_put u idx (mi_set_valid i true true (mi_saved i))
  else
    match tr with
    | None => let! i := setReplay i TLBMissReplay in lq_put u idx i
    | Some r =>
        let i := mi_set_addr i (mr_paddr (default (lr_mainReq r) (head (lr_reqs r)))) (lr_size r)
                   (rf_isStrictlyOrdered (lr_flags r)) in
        let! u := lq_put u idx (mi_set_valid i true true (Some r)) in
        lq_setRequest u idx (Some r)
    end.

(** [std::lower_bound] on the sequence numbers, and the insertion there. *)
Fixpoint insert_ref (x : LdRef) (l : list LdRef) : list LdRef :=
  match l with
  | [] => [x]
  | y :: l' => if (ld_seq y <? ld_seq x)%Z then y :: insert_ref x l' else x :: l
  end.

Definition ld_ref (i : MInst) : LdRef := LRef (mi_seqNum i) (mi_lqIt i) (mi_sqIt i).

(** A load joins a queue, unless it is there. *)
Definition join_ref (x : LdRef) (l : list LdRef) : list LdRef :=
  if bool_decide (x ∈ l) then l else l ++ [x].

Section Pipe.

Context {C : Type} (P : LsqParams).

(** [loadDoSendRequest]: the flag says that the cache got blocked. *)
Definition loadDoSendRequest (sb : StoreBuffer C) (bus : gmap Z Z) (u : LSQUnit) (idx : Z) (ans : CacheAns)
    : res (LSQUnit * bool) :=
  let! i := lq_get u idx in
  if mi_effAddrValid i && existsb (pipeLineNukeCheck P i) (storePipeS1 u) then
    let! i := setReplay i NukeReplay in
    let! u := lq_put u idx i in Ok (u, false)
  else
    let! r := if bool_decide (mi_saved i ≠ None) then lsq_read P sb bus u idx ans else Ok (u, false, false) in
    let '(u, fault, blocked) := r in
    let! i := lq_get u idx in
    if fault : bool then
      let i := if negb (mi_strictlyOrdered i) || mi_atCommit i then mi_set_executed i (mi_result i) else i in
      let! u := lq_put u idx (setSkipFollowingPipe i) in Ok (u, blocked)
    else if bool_decide (mi_replay i ≠ None) then Ok (u, blocked)
    else if mi_effAddrValid i && lp_checkLoads P then
      let! request := get_at (mi_saved i) "savedRequest" in
      let! r := checkViolations (lp_depCheckShift P) (mi_lqIt i + 1) u true (lr_reqs request) in
      Ok (fst r, blocked)
    else Ok (u, blocked).

(** The replay of a load that stays in the load queue for its cache block. *)
Definition cache_miss_replay (u : LSQUnit) (idx : Z) (drop : bool) : res LSQUnit :=
  let! u := loadSetReplay u idx drop in
  let! i := lq_get u idx in
  let! i := setReplay i CacheMissReplay in
  lq_put u idx (mi_set_cache i (mi_pending i) true (mi_memData i)).

(** The end of [loadDoRecvData]: the data is put together and written back. *)
Definition load_finish (u : LSQUnit) (idx : Z) : res LSQUnit :=
  let! i := lq_get u idx in
  let! request := get_at (mi_saved i) "request" in
  if mp_fullForward (mi_pipe i) || (lp_ldMissReplay P && isNormalLd request) then
    let! i := assemblePackets i in lq_put u idx i
  else Ok u.

(** The read-after-read and read-after-write queues. *)
Definition load_queues (u : LSQUnit) (idx : Z) : res LSQUnit :=
  let! i := lq_get u idx in
  let x := ld_ref i in
  if negb (lu_loadCompletedIdx u =? cq_tail (lu_LQ u))%Z &&
     (u64 (lu_loadCompletedIdx u + 1) <? mi_lqIt i)%Z && (lp_maxRARQEntries P <=? length (lu_RARQueue u))%nat then
    let! u := loadSetReplay u idx true in
    let u := set_ra u (lu_RARQueue u) (lu_RAWQueue u) (insert_ref x (lu_RARReplayQueue u))
               (lu_RAWReplayQueue u) in
    let! i := lq_get u idx in
    let! i := setReplay i RARReplay in
    lq_put u idx i
  else
    let u := if negb (lu_loadCompletedIdx u =? cq_tail (lu_LQ u))%Z &&
                (u64 (lu_loadCompletedIdx u + 1) <? mi_lqIt i)%Z
             then set_ra u (join_ref x (lu_RARQueue u)) (lu_RAWQueue u) (lu_RARReplayQueue u)
                    (lu_RAWReplayQueue u)
             else u in
    if negb (lu_storeCompletedIdx u =? cq_tail (lu_SQ u))%Z &&
       (u64 (lu_storeCompletedIdx u + 1) <? mi_sqIt i)%Z && (lp_maxRAWQEntries P <=? length (lu_RAWQueue u))%nat then
      let! u := loadSetReplay u idx true in
      let u := set_ra u (lu_RARQueue u) (lu_RAWQueue u) (lu_RARReplayQueue u)
                 (insert_ref x (lu_RAWReplayQueue u)) in
      let! i := lq_get u idx in
      let! i := setReplay i RAWReplay in
      lq_put u idx i
    else
      let u := if negb (lu_storeCompletedIdx u =? cq_tail (lu_SQ u))%Z &&
                  (u64 (lu_storeCompletedIdx u + 1) <? mi_sqIt i)%Z
               then set_ra u (lu_RARQueue u) (join_ref x (lu_RAWQueue u)) (lu_RARReplayQueue u)
                      (lu_RAWReplayQueue u)
               else u in
      load_finish u idx.

(** [loadDoRecvData] after the data of the bus: the miss, the nuke check, the queues.  A
    load whose request is gone counts as a normal one ([isNormalLd] of the instruction is
    that of its last request). *)
Definition load_recv (u : LSQUnit) (idx : Z) : res LSQUnit :=
  let! i := lq_get u idx in
  match mi_saved i with
  | None =>
      let! u := loadSetReplay u idx false in
      let! i := lq_get u idx in
      let! i := setReplay i BankConflictReplay in lq_put u idx i
  | Some request =>
      if lp_ldMissReplay P && isNormalLd request && negb (mp_fullForward (mi_pipe i)) &&
         negb (mp_cacheHit (mi_pipe i)) then cache_miss_replay u idx false
      else if existsb (pipeLineNukeCheck P i) (storePipeS1 u) then
        let! i := setReplay i NukeReplay in lq_put u idx i
      else if isNormalLd request then load_queues u idx
      else load_finish u idx
  end.

(** [loadDoRecvData]. *)
Definition loadDoRecvData (bus : gmap Z Z) (u : LSQUnit) (idx : Z) : res LSQUnit :=
  let! i := lq_get u idx in
  if mp_wakeUpEarly (mi_pipe i) then
    if mi_pending i || negb (bool_decide (is_Some (bus !! mi_seqNum i))) then cache_miss_replay u idx true
    else
      do! panic_if (cq_capacity (lu_LQ u) <? Z.of_nat (size bus))%Z
            "packets on bus should never be greater than LQ size" in
      let! u := lq_put u idx (setFullForward i) in
      load_recv u idx
  else load_recv u idx.

(** What a replay asks for, at the stage where the load leaves. *)
Definition replay_out (i : MInst) : option LsqOut :=
  match mi_replay i with
  | Some BankConflictReplay | Some MshrArbFailReplay | Some MshrAliasFailReplay
  | Some HitInWriteBufferReplay | Some NukeReplay => Some (OutRetryMem (mi_seqNum i))
  | Some CacheMissReplay => Some (OutCacheMiss (mi_seqNum i))
  | Some MdpAddrReplay => Some (OutMdpPipeDone (mi_seqNum i))
  | Some TLBMissReplay => Some (OutDefer (mi_seqNum i))
  | _ => None
  end.

Definition emit_opt (u : LSQUnit) (o : option LsqOut) : LSQUnit :=
  match o with Some o => emit u o | None => u end.

(** The replay at [loadWhenToReplay]: a nuked load drops the answer it got. *)
Definition load_replay (u : LSQUnit) (idx : Z) : res LSQUnit :=
  let! i := lq_get u idx in
  let u := emit_opt u (replay_out i) in
  let! u := if needs i NukeReplay then
              if mp_cacheHit (mi_pipe i) then loadSetReplay u idx true
              else if mi_pending i then loadSetReplay u idx false else Ok u
            else Ok u in
  let! i := lq_get u idx in
  lq_put u idx (set_stage i None).

(** A load leaves at once with these replays. *)
Definition replays_now (i : MInst) : bool :=
  needs i STLFReplay || needs i CacheBlockedReplay || needs i RescheduleReplay || needs i RAWReplay ||
  needs i RARReplay.

(** The body of [executeLoadPipeSx] for the load at [idx]: the stage, then the replay or
    the move to the next stage. *)
Definition executeLoad (sb : StoreBuffer C) (bus : gmap Z Z) (u : LSQUnit) (idx : Z)
    (tr : option LSQRequest) (ans : CacheAns) : res (LSQUnit * bool) :=
  let! i := lq_get u idx in
  let! stage := get_at (mi_stage i) "load in the pipeline" in
  let! u := if (0 <? stage)%nat then lq_put u idx (setSkipRawCheck i false) else Ok u in
  let! r :=
    if replayOrSkipFollowingPipe i then Ok (u, false)
    else
      match stage with
      | 0 => let! u := loadDoTranslate u idx tr in Ok (u, false)
      | 1 => loadDoSendRequest sb bus u idx ans
      | 2 => let! u := loadDoRecvData bus u idx in Ok (u, false)
      | _ => Ok (u, false)
      end in
  let u := fst r in
  let! i := lq_get u idx in
  let! u :=
    if replays_now i then lq_put u idx (set_stage i None)
    else if (stage =? 2)%nat && bool_decide (mi_replay i ≠ None) then load_replay u idx
    else if (stage =? 3)%nat then
      let normal := match mi_saved i with Some r => isNormalLd r | None => true end in
      lq_put (emit_opt u (if normal then Some (OutFinish (mi_seqNum i)) else None)) idx (set_stage i None)
    else lq_put u idx (set_stage i (Some (S stage))) in
  Ok (u, snd r).

(** ** Stores *)

(** [issueToStorePipe]. *)
Definition issueToStorePipe (u : LSQUnit) (idx : Z) : res LSQUnit :=
  let! i := sq_get u idx in
  do! panic_if (bool_decide (mi_stage i ≠ None)) "load is already in pipeline" in
  sq_put u idx (beginPipelining i).

(** [storeDoTranslate], as [loadDoTranslate]; the data waits in [memData]. *)
Definition storeDoTranslate (u : LSQUnit) (idx : Z) (tr : option (LSQRequest * list Z)) : res LSQUnit :=
  do! assert_ (negb (cq_size (lu_SQ u) =? 0)%Z) "storeQueue.size() != 0" in
  let! i := sq_get u idx in
  if mi_translationStarted i then
    do! assert_ (bool_decide (mi_saved i ≠ None)) "request" in
    sq_put u idx (mi_set_valid i true true (mi_saved i))
  else
    match tr with
    | None => let! i := setReplay i TLBMissReplay in sq_put u idx i
    | Some (r, d) =>
        let i := mi_set_addr i (mr_paddr (default (lr_mainReq r) (head (lr_reqs r)))) (lr_size r)
                   (rf_isStrictlyOrdered (lr_flags r)) in
        let i := mi_set_memData (mi_set_valid i true true (Some r)) (Some d) in
        let! e := cq_at (lu_SQ u) idx in
        let! q := cq_put (lu_SQ u) idx (sqe_with_inst (sqe_with_request e (Some r) (sqe_size e)
                                                         (sqe_isAllZeros e)) i) in
        Ok (set_SQ u q)
    end.

Definition sq_status (u : LSQUnit) (idx : Z) (s : SplitStoreStatus) : res LSQUnit :=
  let! e := cq_at (lu_SQ u) idx in
  let! e := setStatus e s in
  let! q := cq_put (lu_SQ u) idx e in
  Ok (set_SQ u q).

(** [storeDoWriteSQ]: the entry is written and the younger loads are checked. *)
Definition storeDoWriteSQ (u : LSQUnit) (idx : Z) : res (LSQUnit * bool) :=
  do! assert_ (negb (cq_size (lu_SQ u) =? 0)%Z) "storeQueue.size() != 0" in
  let! i := sq_get u idx in
  let! u := match mi_saved i with
            | Some r =>
                let! u := lsq_write u r (default [] (mi_memData i)) idx in
                sq_put u idx (mi_set_memData i None)
            | None => Ok u
            end in
  let! u := sq_status u idx AddressReady in
  let! u := if ms_isSplitStoreAddr (mi_static i) then Ok u else sq_status u idx DataReady in
  let! e := cq_at (lu_SQ u) idx in
  if (sqe_size e =? 0)%Z then Ok (u, false)
  else
    let! r := get_at (mi_saved i) "savedRequest" in
    let! u :=
      if ms_isStoreConditional (mi_static i) then
        let! q := cq_put (lu_SQ u) idx (sqe_with_wb e true (sqe_completed e)) in
        Ok (set_wb (set_SQ u q) (lu_storeWBIt u) (lu_storesToWB u + 1))
      else Ok u in
    checkViolations (lp_depCheckShift P) (mi_lqIt i) u false (lr_reqs r).

(** The end of a store's way: the address part is done, and the data part with it
    unless a second micro-operation brings the data. *)
Definition storeFinish (u : LSQUnit) (idx : Z) : res LSQUnit :=
  let! i := sq_get u idx in
  let! u := if negb (ms_isStoreConditional (mi_static i)) && bool_decide (mi_replay i = None) then
              let! u := sq_status u idx StaPipeFinish in
              let! u := if ms_isSplitStoreAddr (mi_static i) then Ok u else sq_status u idx StdPipeFinish in
              let! e := cq_at (lu_SQ u) idx in
              Ok (if splitStoreFinish e then emit u (OutFinish (mi_seqNum i)) else u)
            else Ok u in
  let! i := sq_get u idx in
  sq_put u idx (set_stage i None).

(** The body of [executeStorePipeSx] for the store at [idx]. *)
Definition executeStore (u : LSQUnit) (idx : Z) (tr : option (LSQRequest * list Z)) : res LSQUnit :=
  let! i := sq_get u idx in
  let! stage := get_at (mi_stage i) "store in the pipeline" in
  let! u :=
    if replayOrSkipFollowingPipe i then Ok u
    else
      match stage with
      | 0 => storeDoTranslate u idx tr
      | 1 => let! r := storeDoWriteSQ u idx in Ok (fst r)
      | _ => Ok u
      end in
  let! i := sq_get u idx in
  if (stage =? 2)%nat && bool_decide (mi_replay i ≠ None) then
    sq_put (emit_opt u (if needs i TLBMissReplay then Some (OutDefer (mi_seqNum i)) else None)) idx
      (set_stage i None)
  else if (stage =? lp_storeWbStage P - 1)%nat then storeFinish u idx
  else sq_put u idx (set_stage i (Some (S stage))).

(** ** The completed indices *)

(** [loadCompletedIdx] and [storeCompletedIdx] move over at most [n] entries that [ok]
    holds of. *)
Fixpoint advance_completed {A} (q : CircularQueue A) (ok : A → bool) (n : nat) (idx : Z) : res Z :=
  match n with
  | O => Ok idx
  | S n =>
      let! e := cq_at q (u64 (idx + 1)) in
      if ok e then advance_completed q ok n (u64 (idx + 1)) else Ok idx
  end.

Definition clamp_completed {A} (q : CircularQueue A) (idx : Z) : Z :=
  if cq_empty q || (idx <? u64 (cq_head q - 1))%Z || (cq_tail q <? idx)%Z then u64 (cq_head q - 1) else idx.

Definition lq_done (e : LQEntry) : bool :=
  lqe_valid e && match lqe_inst e with Some i => mi_executed i | None => false end.
Definition sq_done (e : SQEntry) : bool := sqe_addrReady e || sqe_canWB e.

(** At most [n] elements that [ok] holds of leave the list. *)
Fixpoint dequeue {A} (ok : A → bool) (n : nat) (l : list A) : list A * list A :=
  match n, l with
  | O, _ | _, [] => ([], l)
  | S n', x :: l' =>
      if ok x then let r := dequeue ok n' l' in (x :: fst r, snd r)
      else let r := dequeue ok n l' in (fst r, x :: snd r)
  end.

(** [clearReplayType], [clearNeedReplay] and [retryMem], of a load that was not squashed. *)
Definition retry_load (u : LSQUnit) (x : LdRef) : res LSQUnit :=
  if isValidIdx (lu_LQ u) (ld_lqIt x) then
    let! i := lq_get u (ld_lqIt x) in
    if (mi_seqNum i =? ld_seq x)%Z then
      lq_put (emit u (OutRetryMem (ld_seq x))) (ld_lqIt x) (set_replayType i None)
    else Ok u
  else Ok u.

(** [processReplayQueues]. *)
Definition processReplayQueues (u : LSQUnit) : res LSQUnit :=
  let rar := dequeue (λ x, ld_lqIt x <=? u64 (lu_loadCompletedIdx u + 1))%Z (lp_rarDequeue P)
               (lu_RARReplayQueue u) in
  let raw := dequeue (λ x, ld_sqIt x <=? u64 (lu_storeCompletedIdx u + 1))%Z (lp_rawDequeue P)
               (lu_RAWReplayQueue u) in
  do! assert_ (length (lu_RARQueue u) <=? lp_maxRARQEntries P)%nat "RARQueue.size() <= maxRARQEntries" in
  let nrar := Nat.min (lp_maxRARQEntries P - length (lu_RARQueue u)) (lp_rarDequeue P - length (fst rar)) in
  do! assert_ (length (lu_RAWQueue u) <=? lp_maxRAWQEntries P)%nat "RAWQueue.size() <= maxRAWQEntries" in
  let nraw := Nat.min (lp_maxRAWQEntries P - length (lu_RAWQueue u)) (lp_rawDequeue P - length (fst raw)) in
  let u := set_ra u (lu_RARQueue u) (lu_RAWQueue u) (drop nrar (snd rar)) (drop nraw (snd raw)) in
  res_fold retry_load u (fst rar ++ fst raw ++ take nrar (snd rar) ++ take nraw (snd raw)).

(** [updateCompletedIdx]. *)
Definition updateCompletedIdx (u : LSQUnit) : res LSQUnit :=
  let prev := lu_storeCompletedIdx u in
  let! lc := if cq_empty (lu_LQ u) then Ok (clamp_completed (lu_LQ u) (lu_loadCompletedIdx u))
             else advance_completed (lu_LQ u) lq_done (lp_loadCompletionWidth P)
                    (clamp_completed (lu_LQ u) (lu_loadCompletedIdx u)) in
  let! sc := if cq_empty (lu_SQ u) then Ok (clamp_completed (lu_SQ u) prev)
             else advance_completed (lu_SQ u) sq_done (lp_storeCompletionWidth P)
                    (clamp_completed (lu_SQ u) prev) in
  let u := set_completed u lc sc in
  let u := if lp_mdp P && negb (sc =? prev)%Z then emit u (OutMdpCompleted sc) else u in
  let rar := dequeue (λ x, ld_lqIt x <=? u64 (lc + 1))%Z (lp_rarDequeue P) (lu_RARQueue u) in
  let raw := dequeue (λ x, ld_sqIt x <=? u64 (sc + 1))%Z (lp_rawDequeue P) (lu_RAWQueue u) in
  processReplayQueues (set_ra u (snd rar) (snd raw) (lu_RARReplayQueue u) (lu_RAWReplayQueue u)).

End Pipe.
