(* ===== verification/LsqOffload.v ===== *)
(** Committed stores leave the store queue for the store buffer (cpu/o3/lsq_unit.cc,
    [offloadToStoreBuffer]; cpu/o3/lsq.cc, [processWriteback]).

    Atomics, store conditionals and strictly ordered stores go to the cache directly;
    that path ends here at the output [OutDirectStore]. *)
From stdpp Require Import gmap.
From S2P Require Import Prelude CircularBuffer Bytes StoreBuffer StoreBufferLsq.
From S2P Require Import CircularQueue LsqUnit.

(** ** The share of each thread *)

(** [maxStoreBufferEntriesAcceptedFromSQPerCycle]. *)
Definition maxOffload : nat := 2.

(** [countStoreBufferOffloadableEntries]: the stores from [storeWBIt] on that may leave.
    The fuel bounds the iterator, which stays within the queue. *)
Fixpoint count_offloadable (fuel : nat) (u : LSQUnit) (it : Z) (max : nat) : res nat :=
  match fuel, max with
  | O, _ | _, O => Ok 0
  | S fuel, S max' =>
      if isValidIdx (lu_SQ u) it then
        let! e := cq_at (lu_SQ u) it in
        if sqe_valid e && sqe_canWB e then
          let! i := sq_inst e in
          if (sqe_size e =? 0)%Z || ms_isDataPrefetch (mi_static i) then count_offloadable fuel u (it + 1) max
          else let! n := count_offloadable fuel u (it + 1) max' in Ok (S n)
        else Ok 0
      else Ok 0
  end.

Definition countStoreBufferOffloadableEntries (u : LSQUnit) (max : nat) : res nat :=
  if lu_isStoreBlocked u || (lu_storesToWB u <=? 0)%Z then Ok 0
  else count_offloadable (S (Z.to_nat (cq_size (lu_SQ u)))) u (lu_storeWBIt u) max.

(** The next thread, from the cursor on, whose quota is below its demand: its position
    among the requesters. *)
Fixpoint find_grant (scan : list nat) (tids : list nat) (demand quota : list nat) : option nat :=
  match scan with
  | [] => None
  | i :: scan =>
      let tid := nth i tids 0 in
      if (nth tid demand 0 <=? nth tid quota 0)%nat then find_grant scan tids demand quota else Some i
  end.

(** The loop over the budget: the quotas and [nextStoreBufferOffloadTid]. *)
Fixpoint grant_loop (budget : nat) (tids demand quota : list nat) (cursor : nat) (next : option nat)
    : list nat * option nat :=
  match budget with
  | O => (quota, next)
  | S budget =>
      let n := length tids in
      match find_grant (map (λ s, (cursor + s) mod n) (seq 0 n)) tids demand quota with
      | None => (quota, next)
      | Some i =>
          let tid := nth i tids 0 in
          let cursor := (S i) mod n in
          grant_loop budget tids demand (<[tid := S (nth tid quota 0)]> quota) cursor
            (Some (nth cursor tids 0))
      end
  end.

(** The quotas of a cycle, from the demands of the active threads. *)
Definition offload_quota (active demand : list nat) (next : option nat) : list nat * option nat :=
  let quota := replicate (length demand) 0 in
  let tids := filter (λ tid, nth tid demand 0 ≠ 0) active in
  match tids with
  | [] => (quota, next)
  | _ =>
      let start := match next with
                   | None => 0
                   | Some t => match list_find (λ x, x = t) tids with Some (i, _) => i | None => 0 end
                   end in
      grant_loop maxOffload tids demand quota start next
  end.

(** ** A store leaves the queue *)

Section Offload.

Context {C : Type} `{CircularBuffer C nat} (k : Z).

(** The part of the data of a store that starts at [offset]. *)
Definition store_bytes (e : SQEntry) (offset size : nat) : list Z := take size (drop offset (sqe_data e)).

(** The loop over the parts of a split store: the parts that the buffer took before are
    not inserted again. *)
Fixpoint insert_parts (lsqID : Z) (sb : StoreBuffer C) (e : SQEntry) (vbase : Z) (parts : list MemReq)
    : res (StoreBuffer C * nat) :=
  match parts with
  | [] => Ok (sb, 0)
  | r :: parts =>
      let offset := (mr_vaddr r - vbase)%Z in
      do! assert_ (offset + mr_size r <=? sqe_size e)%Z "offset + req->getSize() <= storeWBIt->size()" in
      let! ins := insertStoreBuffer k lsqID sb (mr_vaddr r) (mr_paddr r)
                    (store_bytes e (Z.to_nat offset) (Z.to_nat (mr_size r))) (Z.to_nat (mr_size r))
                    (mr_byteEnable r) in
      if snd ins : bool then
        let! more := insert_parts lsqID (fst ins) e vbase parts in
        Ok (fst more, S (snd more))
      else Ok (fst ins, 0)
  end.

(** The store is complete: it leaves the queue, and the iterator moves on. *)
Definition storeDone (u : LSQUnit) : res LSQUnit :=
  let! u' := completeStore u (lu_storeWBIt u) in
  Ok (set_wb u' (u64 (lu_storeWBIt u' + 1)) (lu_storesToWB u')).

Definition to_cache (i : MInst) (request : LSQRequest) : bool :=
  rf_isLLSC (lr_flags request) || rf_isAtomic (lr_flags request) || rf_isRelease (lr_flags request) ||
  rf_isStrictlyOrdered (lr_flags request) || ms_isStoreConditional (mi_static i).

(** What an iteration of the loop of [offloadToStoreBuffer] ends with. *)
Inductive OffloadStep :=
| OffNext (accepted : bool)          (** go on; whether the buffer took a store *)
| OffStop (flush : bool).            (** break; whether the buffer has to be flushed *)

(** One store, at [storeWBIt], that is not empty and not a prefetch. *)
Definition offload_store (u : LSQUnit) (sb : StoreBuffer C) (e : SQEntry)
    : res (LSQUnit * StoreBuffer C * OffloadStep) :=
  do! assert_ (negb (sqe_committed e)) "!storeWBIt->committed()" in
  let! i := sq_inst e in
  let! request := get_at (sqe_request e) "request" in
  if to_cache i request then
    if negb (lu_storeWBIt u =? cq_head (lu_SQ u))%Z then Ok (u, sb, OffStop false)
    else if negb (sb_size sb =? 0)%Z then Ok (u, sb, OffStop true)
    else Ok (emit u (OutDirectStore (mi_seqNum i)), sb, OffStop false)
  else
    do! assert_ (negb (rf_isLocalAccess (lr_flags request))) "!request->mainReq()->isLocalAccess()" in
    if lr_isSplit request then
      let! r := insert_parts (lu_lsqID u) sb e (lr_addr request)
                  (drop (Z.to_nat (lr_numOutstanding request)) (lr_reqs request)) in
      let n := (lr_numOutstanding request + Z.of_nat (snd r))%Z in
      if (n =? Z.of_nat (length (lr_reqs request)))%Z then
        let! u := storeDone u in Ok (u, fst r, OffNext true)
      else
        let! q := cq_put (lu_SQ u) (lu_storeWBIt u)
                    (sqe_with_request e (Some (lr_set_outstanding request n)) (sqe_size e)
                       (sqe_isAllZeros e)) in
        Ok (set_SQ u q, fst r, OffStop false)
    else
      do! assert_ (if ms_isSplitStoreAddr (mi_static i) then splitStoreFinish e else true)
            "inst->isSplitStoreAddr() ? storeWBIt->splitStoreFinish() : true" in
      let size := Z.to_nat (lr_size request) in
      let! ins := insertStoreBuffer k (lu_lsqID u) sb (mr_vaddr (lr_mainReq request)) (mr_paddr (lr_mainReq request))
                    (store_bytes e 0 size) size (mr_byteEnable (lr_mainReq request)) in
      if snd ins : bool then let! u := storeDone u in Ok (u, fst ins, OffNext true)
      else Ok (u, fst ins, OffStop false).

(** The loop of [offloadToStoreBuffer]; the flag says that the buffer has to be flushed.
    The fuel is the number of stores in the queue. *)
Fixpoint offload_loop (fuel : nat) (u : LSQUnit) (sb : StoreBuffer C) (max : nat)
    : res (LSQUnit * StoreBuffer C * bool) :=
  match fuel with
  | O => Ok (u, sb, false)
  | S fuel =>
      if (0 <? lu_storesToWB u)%Z && isValidIdx (lu_SQ u) (lu_storeWBIt u) then
        let! e := cq_at (lu_SQ u) (lu_storeWBIt u) in
        if sqe_valid e && sqe_canWB e then
          let! i := sq_inst e in
          if (sqe_size e =? 0)%Z then
            let! u := storeDone u in offload_loop fuel u sb max
          else if ms_isDataPrefetch (mi_static i) then
            offload_loop fuel (set_wb u (u64 (lu_storeWBIt u + 1)) (lu_storesToWB u)) sb max
          else
            match max with
            | O => Ok (u, sb, false)
            | S max' =>
                let! r := offload_store u sb e in
                let '(u, sb, s) := r in
                match s with
                | OffNext a => offload_loop fuel u sb (if a then max' else max)
                | OffStop f => Ok (u, sb, f)
                end
            end
        else Ok (u, sb, false)
      else Ok (u, sb, false)
  end.

(** [offloadToStoreBuffer]. *)
Definition offloadToStoreBuffer (u : LSQUnit) (l : SbLsq C) (max : nat) : res (LSQUnit * SbLsq C) :=
  do! assert_ (bool_decide (sl_blocked l = None)) "!lsq->storeBufferBlocked()" in
  if lu_isStoreBlocked u then Ok (u, l)
  else
    let! r := offload_loop (S (Z.to_nat (cq_size (lu_SQ u)))) u (sl_sb l) max in
    let '(u, sb, flush) := r in
    let l := set_sb l sb in
    Ok (u, if flush : bool then set_flushing l true else l).

(** ** The cycle *)

(** [storeBufferSQWillFull], the limit being [sqEntries - 4]. *)
Definition storeBufferSQWillFull (u : LSQUnit) : bool := (cq_capacity (lu_SQ u) - 4 <? cq_size (lu_SQ u))%Z.

(** [LSQ::processWriteback] of the [active] threads: the buffer writes back, then takes
    stores of the threads up to their quotas. *)
Definition processWriteback (P : SbParams) (l : SbLsq C) (units : list LSQUnit) (active : list nat)
    (next : option nat) (busy : list bool) (accept : bool)
    : res (SbLsq C * list LSQUnit * option nat) :=
  let l := clearBanks l busy in
  let! us := res_mapM (at_res units) active in
  let! l := storeBufferWriteback P l (existsb storeBufferSQWillFull us) accept in
  if bool_decide (sl_blocked l ≠ None) then Ok (l, units, next)
  else
    let! demand := res_mapM (λ t, if bool_decide (t ∈ active) then
                                    let! u := at_res units t in
                                    countStoreBufferOffloadableEntries u maxOffload
                                  else Ok 0) (seq 0 (length units)) in
    let '(quota, next) := offload_quota active demand next in
    let! r := res_fold (λ (st : SbLsq C * list LSQUnit) tid,
                let! u := at_res (snd st) tid in
                let! r := offloadToStoreBuffer u (fst st) (nth tid quota 0) in
                let! us := upd_res (snd st) tid (fst r) in
                Ok (snd r, us)) (l, units) active in
    Ok (fst r, snd r, next).

End Offload.
