(* ===== verification/LsqSys.v ===== *)
(** One thread of the core as its memory instructions see it: the queues, the pipelines,
    the store buffer, the data cache and the memory, with the calls of the other stages
    as events.

    An event that the rest of the core does not make in the current state leaves the
    state as it is; the conditions are those of the callers:
    - dispatch (cpu/o3/iew.cc) stops when a queue is full, and numbers the instructions
      in program order;
    - the issue queues send an instruction to a pipeline again only after its replay is
      resolved;
    - commit (cpu/o3/commit.cc, [doneSeqNum] and [doneMemSeqNum]) releases only executed
      instructions, in order, none of which a pending squash concerns, and squashes none
      that it released;
    - the cache answers the reads it accepted, writes a block only when the block is no
      longer on the bus ([Bus_Clear] says that it reached the cache), and clears the bus
      before it holds more than the load queue.
    [ls_stores] and [ls_loads] record what was released, for the theorems. *)
From stdpp Require Import gmap.
From S2P Require Import Prelude CircularBuffer Bytes StoreBuffer StoreBufferLsq.
From S2P Require Import CircularQueue LsqUnit LsqRead LsqPipe LsqOffload.

(** A released store, and a released load with the bytes it delivered. *)
Record RStore := RSt { rs_seq : Z; rs_addr : Z; rs_data : list Z; rs_mask : list bool }.
Record RLoad := RLd { rl_seq : Z; rl_addr : Z; rl_value : list Z }.

Section Sys.

Context {C : Type} `{CircularBuffer C nat}.

Record LSys := LS {
  ls_u : LSQUnit;
  ls_sb : SbSys C;
  ls_bus : gmap Z Z;
  ls_squash : option Z;              (** the oldest instruction that a pending squash removes *)
  ls_last : Z;                       (** the youngest dispatched instruction *)
  ls_bound : Z;                      (** the youngest released instruction *)
  ls_stores : list RStore;
  ls_loads : list RLoad
}.

Definition with_u (s : LSys) (u : LSQUnit) : LSys :=
  LS u (ls_sb s) (ls_bus s) (ls_squash s) (ls_last s) (ls_bound s) (ls_stores s) (ls_loads s).
Definition with_sb (s : LSys) (b : SbSys C) : LSys :=
  LS (ls_u s) b (ls_bus s) (ls_squash s) (ls_last s) (ls_bound s) (ls_stores s) (ls_loads s).
Definition with_bus (s : LSys) (b : gmap Z Z) : LSys :=
  LS (ls_u s) (ls_sb s) b (ls_squash s) (ls_last s) (ls_bound s) (ls_stores s) (ls_loads s).
Definition with_squash (s : LSys) (q : option Z) : LSys :=
  LS (ls_u s) (ls_sb s) (ls_bus s) q (ls_last s) (ls_bound s) (ls_stores s) (ls_loads s).
Definition with_last (s : LSys) (n : Z) : LSys :=
  LS (ls_u s) (ls_sb s) (ls_bus s) (ls_squash s) n (ls_bound s) (ls_stores s) (ls_loads s).

Inductive ls_event :=
| LDispatchLoad (i : MStatic)
| LDispatchStore (i : MStatic)
| LIssueLoad (idx : Z)
| LIssueStore (idx : Z)
| LLoad (idx : Z) (translated : bool) (ans : CacheAns)   (** a stage of [executeLoadPipeSx] *)
| LStore (idx : Z) (translated : bool)                   (** a stage of [executeStorePipeSx] *)
| LStoreData (idx : Z)
| LUpdate                                                (** [updateCompletedIdx] *)
| LResp (idx : Z) (hit : bool)                           (** the cache answers a load *)
| LHint (idx : Z)                                        (** ... announces a refill *)
| LBusClear (blk : Z)
| LProcess (busy : list bool) (accept : bool)            (** [processWriteback] *)
| LBuffer (ev : sb_event)                                (** the store buffer and the cache *)
| LCommit (mem done : Z)
| LSquash (num : Z).

Context (P : LsqParams) (SP : SbParams).

(** The access of an instruction, and the data of a store. *)
Context (acc : Z → LSQRequest) (sdata : Z → list Z).

(** [SquashCheckAfterExe] and [squashDueToMemOrder] of the instruction [seq]: a violation
    is dropped when the instruction itself is about to be squashed. *)
Definition SquashCheckAfterExe (s : LSys) (seq : Z) : LSys :=
  match lu_memDepViolator (ls_u s) with
  | None => s
  | Some v =>
      let s := with_u s (set_violator (ls_u s) None) in
      match ls_squash s with
      | Some q => if (q <=? seq)%Z then s else with_squash s (Some (Z.min q v))
      | None => with_squash s (Some v)
      end
  end.

Definition live_load (s : LSys) (idx : Z) : option MInst :=
  if isValidIdx (lu_LQ (ls_u s)) idx then
    match cq_at (lu_LQ (ls_u s)) idx with Ok e => lqe_inst e | Panic _ => None end
  else None.
Definition live_store (s : LSys) (idx : Z) : option SQEntry :=
  if isValidIdx (lu_SQ (ls_u s)) idx then
    match cq_at (lu_SQ (ls_u s)) idx with Ok e => Some e | Panic _ => None end
  else None.

(** A queue takes another element; its indices stay below [2 ^ 64]. *)
Definition has_room {A} (q : CircularQueue A) : bool :=
  negb (cq_isfull q) && (cq_head q + cq_size q + cq_capacity q + 1 <? 2 ^ 64)%Z.

Definition can_issue (s : LSys) (idx : Z) (i : MInst) : bool :=
  bool_decide (mi_stage i = None) && negb (mi_executed i) && negb (needs i RARReplay) &&
  negb (needs i RAWReplay) && negb (lu_stalled (ls_u s) && (lu_stallingLoadIdx (ls_u s) =? idx)%Z).

(** What the cache returns for the access of [seq]. *)
Definition cache_data (s : LSys) (seq : Z) : list Z :=
  let r := lr_mainReq (acc seq) in mem_read (ss_mem (ls_sb s)) (mr_paddr r) (Z.to_nat (mr_size r)).

Definition can_hit (i : MInst) : bool :=
  bool_decide (mi_stage i = Some 2) && negb (mp_wakeUpEarly (mi_pipe i)) &&
  match mi_saved i with Some r => (lr_numOutstanding r =? 1)%Z | None => false end.

(** No load has its data on the bus from the block of the entry [p]. *)
Definition block_settled (s : LSys) (p : nat) : bool :=
  match in_flight (ss_lsq (ls_sb s)) p with
  | Some r => forallb (λ x, negb (block_addr (lp_lineBits P) x.2 =? sr_paddr r)%Z) (map_to_list (ls_bus s))
  | None => true
  end.

(** Every load and every store up to [mem] is ready to be released, and no pending squash
    concerns them. *)
Definition can_commit (s : LSys) (mem done : Z) : bool :=
  (done <=? mem)%Z && (ls_bound s <=? mem)%Z && (mem <=? ls_last s)%Z &&
  match ls_squash s with Some q => (mem <? q)%Z | None => true end &&
  forallb (λ e, match lqe_inst e with
                | Some i => (mem <? mi_seqNum i)%Z || mi_executed i
                | None => false end) (cq_list (lu_LQ (ls_u s))) &&
  forallb (λ e, match sqe_inst e with
                | Some i => (mem <? mi_seqNum i)%Z || splitStoreFinish e
                | None => false end) (cq_list (lu_SQ (ls_u s))).

(** The loads and the stores that commit releases. *)
Definition released_loads (s : LSys) (mem : Z) : list RLoad :=
  omap (λ e, match lqe_inst e with
             | Some i => if ((ls_bound s <? mi_seqNum i) && (mi_seqNum i <=? mem))%Z then
                           Some (RLd (mi_seqNum i) (mr_paddr (lr_mainReq (acc (mi_seqNum i))))
                                   (default [] (mi_result i)))
                         else None
             | None => None
             end) (cq_list (lu_LQ (ls_u s))).
Definition released_stores (s : LSys) (mem : Z) : list RStore :=
  omap (λ e, match sqe_inst e with
             | Some i => if ((ls_bound s <? mi_seqNum i) && (mi_seqNum i <=? mem))%Z then
                           let r := lr_mainReq (acc (mi_seqNum i)) in
                           Some (RSt (mi_seqNum i) (mr_paddr r)
                                   (take (Z.to_nat (mr_size r)) (sqe_data e)) (mr_byteEnable r))
                         else None
             | None => None
             end) (cq_list (lu_SQ (ls_u s))).

(** What the address micro-operation of a store brings: no data when another one does. *)
Definition sta_data (i : MInst) : list Z :=
  if ms_isSplitStoreAddr (mi_static i) then replicate (Z.to_nat (lr_size (acc (mi_seqNum i)))) 0%Z
  else sdata (mi_seqNum i).

Definition set_cacheBlocked (s : LSys) (b : bool) : LSys :=
  if b then
    let b := ls_sb s in
    with_sb s (SS (set_port (ss_lsq b) (sl_usedStorePorts (ss_lsq b)) true) (ss_mem b) (ss_done b))
  else s.

(** A step. *)
Definition ls_step (s : LSys) (ev : ls_event) : res LSys :=
  let u := ls_u s in
  match ev with
  | LDispatchLoad i =>
      if (ls_last s <? ms_seqNum i)%Z && has_room (lu_LQ u) then
        let! u := insertLoad u (mi_new i) in Ok (with_last (with_u s u) (ms_seqNum i))
      else Ok s
  | LDispatchStore i =>
      if (ls_last s <? ms_seqNum i)%Z && has_room (lu_SQ u) then
        let! u := insertStore u (mi_new i) in Ok (with_last (with_u s u) (ms_seqNum i))
      else Ok s
  | LIssueLoad idx =>
      match live_load s idx with
      | Some i => if can_issue s idx i then let! u := issueToLoadPipe u idx in Ok (with_u s u) else Ok s
      | None => Ok s
      end
  | LIssueStore idx =>
      match live_store s idx with
      | Some e =>
          let! i := sq_inst e in
          if bool_decide (mi_stage i = None) && negb (sqe_addrReady e) then
            let! u := issueToStorePipe u idx in Ok (with_u s u)
          else Ok s
      | None => Ok s
      end
  | LLoad idx translated ans =>
      match live_load s idx with
      | Some i =>
          if bool_decide (mi_stage i ≠ None) then
            let! r := executeLoad P (sl_sb (ss_lsq (ls_sb s))) (ls_bus s) u idx
                        (if translated then Some (acc (mi_seqNum i)) else None) ans in
            Ok (SquashCheckAfterExe (set_cacheBlocked (with_u s (fst r)) (snd r)) (mi_seqNum i))
          else Ok s
      | None => Ok s
      end
  | LStore idx translated =>
      match live_store s idx with
      | Some e =>
          let! i := sq_inst e in
          if bool_decide (mi_stage i ≠ None) then
            let! u := executeStore P u idx
                        (if translated then Some (acc (mi_seqNum i), sta_data i) else None) in
            Ok (SquashCheckAfterExe (with_u s u) (mi_seqNum i))
          else Ok s
      | None => Ok s
      end
  | LStoreData idx =>
      match live_store s idx with
      | Some e =>
          let! i := sq_inst e in
          if ms_isSplitStoreAddr (mi_static i) && negb (sqe_stdFinish e) then
            let! u := storeDataExecute u idx (sdata (mi_seqNum i)) (length (sdata (mi_seqNum i))) in
            Ok (with_u s u)
          else Ok s
      | None => Ok s
      end
  | LUpdate => let! u := updateCompletedIdx P u in Ok (with_u s u)
  | LResp idx hit =>
      match live_load s idx with
      | Some i =>
          if mi_pending i && (if hit then can_hit i else (Z.of_nat (size (ls_bus s)) <? cq_capacity (lu_LQ u))%Z)
          then
            let! r := recvTimingResp P u (ls_bus s) idx (cache_data s (mi_seqNum i))
                        (mr_paddr (lr_mainReq (acc (mi_seqNum i)))) hit in
            Ok (with_bus (with_u s (fst r)) (snd r))
          else Ok s
      | None => Ok s
      end
  | LHint idx =>
      match live_load s idx with
      | Some _ => let! u := recvHint P u idx in Ok (with_u s u)
      | None => Ok s
      end
  | LBusClear blk =>
      let! bus := busClear P u (ls_bus s) blk in Ok (with_bus s bus)
  | LProcess busy accept =>
      let! r := processWriteback (lp_lineBits P) SP (ss_lsq (ls_sb s)) [u] [0] None busy accept in
      let '(l, us, _) := r in
      let! u := at_res us 0 in
      Ok (with_u (with_sb s (SS l (ss_mem (ls_sb s)) (ss_done (ls_sb s)))) u)
  | LBuffer ev =>
      match ev with
      | EvInsert _ _ _ _ _ => Ok s
      | EvCacheWrite p =>
          if block_settled s p then let! r := sb_step SP (ls_sb s) ev in Ok (with_sb s (fst r)) else Ok s
      | _ => let! r := sb_step SP (ls_sb s) ev in Ok (with_sb s (fst r))
      end
  | LCommit mem done =>
      if can_commit s mem done then
        let! u := commitStores u mem in
        let! u := commitLoads u done in
        Ok (LS u (ls_sb s) (ls_bus s) (ls_squash s) (ls_last s) mem
              (ls_stores s ++ released_stores s mem) (ls_loads s ++ released_loads s mem))
      else Ok s
  | LSquash num =>
      if (ls_bound s <=? num)%Z then
        let! u := lsq_squash u num (lp_mdp P) in
        Ok (with_squash (with_u s u)
              (match ls_squash s with Some q => if (num <? q)%Z then None else Some q | None => None end))
      else Ok s
  end.

Definition ls_run (s : LSys) (evs : list ls_event) : res LSys := res_fold ls_step s evs.

End Sys.

Arguments LSys : clear implicits.
