(* ===== verification/LsqInv.v ===== *)
(** What a load has to deliver, on an abstract store queue, and the invariant of the
    load/store queue with the store buffer and the memory.

    A store of the queue is seen as its number, whether its address is known and whether
    its data is there.  [load_val] says that the bytes of a load are those of the
    youngest older store that covers it, or those of the memory when no older store with
    a known address touches it; it is stable under everything that can happen to the
    stores except that one of them turns out to touch the load. *)
From Stdlib Require Import Sorted.
From stdpp Require Import gmap.
From S2P Require Import Prelude CircularBuffer Bytes StoreBuffer StoreBufferInv StoreBufferView.
From S2P Require Import StoreBufferLsq StoreBufferSteps StoreBufferProps CircularQueue LsqUnit.
From S2P Require Import LsqRead LsqPipe LsqOffload LsqSys.

Record AStore := ASt { as_seq : Z; as_known : bool; as_ready : bool }.

Definition ast (e : SQEntry) : AStore :=
  ASt (match sqe_inst e with Some i => mi_seqNum i | None => 0%Z end) (sqe_addrReady e) (sqe_dataReady e).

Section Abs.

Context (acc : Z → LSQRequest) (sdata : Z → list Z).

Definition a_lo (s : Z) : Z := mr_paddr (lr_mainReq (acc s)).
Definition a_size (s : Z) : Z := mr_size (lr_mainReq (acc s)).
Definition a_len (s : Z) : nat := Z.to_nat (a_size s).
Definition a_mask (s : Z) : list bool := mr_byteEnable (lr_mainReq (acc s)).

(** The shape of the accesses that the value of a load depends on. *)
Record acc_shape (s : Z) : Prop := {
  sh_size : (0 < a_size s)%Z;
  sh_lo : (0 ≤ a_lo s)%Z;
  sh_hi : (a_lo s + a_size s < 2 ^ 64)%Z;
  sh_mask : length (a_mask s) = a_len s;
  sh_data : length (sdata s) = a_len s
}.
Hypothesis Hshape : ∀ s, acc_shape s.

Definition disjoint_acc (l s : Z) : Prop :=
  (a_lo s + a_size s ≤ a_lo l)%Z ∨ (a_lo l + a_size l ≤ a_lo s)%Z.
Definition covers (s l : Z) : Prop :=
  (a_lo s ≤ a_lo l)%Z ∧ (a_lo l + a_size l ≤ a_lo s + a_size s)%Z.

(** No store of the list with a known address touches the load [l]. *)
Definition noknown (sts : list AStore) (l : Z) : Prop :=
  ∀ x, x ∈ sts → as_known x = true → disjoint_acc l (as_seq x).

Definition load_val (older : list AStore) (base : memory) (l : Z) (w : list Z) : Prop :=
  length w = a_len l ∧
  ((noknown older l ∧ ∀ j, j < a_len l → w !! j = Some (base (a_lo l + Z.of_nat j)%Z)) ∨
   (∃ l1 x l2, older = l1 ++ x :: l2 ∧ noknown l2 l ∧ as_known x = true ∧ as_ready x = true ∧
      isMasked (lr_mainReq (acc (as_seq x))) = false ∧ covers (as_seq x) l ∧
      ∀ j, j < a_len l → w !! j = sdata (as_seq x) !! Z.to_nat (a_lo l + Z.of_nat j - a_lo (as_seq x)))).

(** The memory after a store. *)
Definition st_write (m : memory) (s : Z) : memory := mem_write m (a_lo s) (sdata s) (a_mask s).
Definition st_writes (m : memory) (sts : list AStore) : memory := fold_left st_write (map as_seq sts) m.

Lemma st_write_disjoint m s l j :
  disjoint_acc l s → j < a_len l → st_write m s (a_lo l + Z.of_nat j)%Z = m (a_lo l + Z.of_nat j)%Z.
Proof.
  intros D Hj. unfold st_write, mem_write. destruct (andb _ _) eqn:E; [|done].
  apply andb_true_iff in E as [E1%Z.leb_le E2%Z.ltb_lt].
  pose proof (sh_mask _ (Hshape s)). pose proof (sh_size _ (Hshape s)). unfold a_len, disjoint_acc in *. lia.
Qed.

Lemma st_write_covers m s l j :
  covers s l → isMasked (lr_mainReq (acc s)) = false → j < a_len l →
  sdata s !! Z.to_nat (a_lo l + Z.of_nat j - a_lo s) = Some (st_write m s (a_lo l + Z.of_nat j)%Z).
Proof.
  intros [C1 C2] M Hj. pose proof (sh_mask _ (Hshape s)) as Hm. pose proof (sh_size _ (Hshape s)).
  pose proof (sh_data _ (Hshape s)) as Hd. unfold a_len in *.
  unfold st_write, mem_write. set (o := Z.to_nat (a_lo l + Z.of_nat j - a_lo s)).
  assert (o < Z.to_nat (a_size s)) as Ho by (unfold o; lia).
  destruct (andb _ _) eqn:E.
  - destruct (lookup_lt_is_Some_2 (a_mask s) o) as [b Hb]; [lia|].
    destruct (lookup_lt_is_Some_2 (sdata s) o) as [y Hy]; [lia|].
    rewrite Hb, Hy. destruct b; [done|]. exfalso.
    assert (existsb negb (a_mask s) = true) as X; [|unfold isMasked in M; unfold a_mask in X; congruence].
    apply existsb_exists. exists false. split; [|done]. apply list_elem_of_In. by eapply list_elem_of_lookup_2.
  - apply andb_false_iff in E as [E%Z.leb_gt|E%Z.ltb_ge]; lia.
Qed.

(** A fold of stores at an address depends on the memory there. *)
Lemma st_fold_ext l m m' a : m a = m' a → fold_left st_write l m a = fold_left st_write l m' a.
Proof.
  revert m m'. induction l as [|q l IH]; intros m m' E; [done|]. simpl. apply IH. by apply mem_write_ext.
Qed.

Lemma st_writes_app m l1 l2 : st_writes m (l1 ++ l2) = st_writes (st_writes m l1) l2.
Proof. unfold st_writes. by rewrite map_app, fold_left_app. Qed.

Lemma noknown_app l1 l2 l : noknown (l1 ++ l2) l ↔ noknown l1 l ∧ noknown l2 l.
Proof.
  unfold noknown. setoid_rewrite elem_of_app. split; [intros H; split; eauto|intros [H1 H2] x [?|?]; eauto].
Qed.

Lemma st_writes_noknown m sts l j :
  (∀ x, x ∈ sts → as_known x = true) → noknown sts l → j < a_len l →
  st_writes m sts (a_lo l + Z.of_nat j)%Z = m (a_lo l + Z.of_nat j)%Z.
Proof.
  intros K N Hj. revert m. induction sts as [|x sts IH]; intros m; [done|].
  change (st_writes m (x :: sts)) with (st_writes (st_write m (as_seq x)) sts).
  rewrite IH; [|set_solver|intros y ?; apply N; set_solver].
  apply st_write_disjoint; [|done]. apply N; [set_solver|apply K; set_solver].
Qed.

(** When every older store is known, the load has the bytes of the memory after them. *)
Lemma load_val_writes older base l w :
  load_val older base l w → (∀ x, x ∈ older → as_known x = true) →
  w = mem_read (st_writes base older) (a_lo l) (a_len l).
Proof.
  intros [Hl H] K. apply list_eq. intros j. destruct (decide (j < a_len l)) as [Hj|Hj].
  - rewrite mem_read_lookup by done.
    destruct H as [[N Hw]|(l1 & x & l2 & -> & N & Kx & _ & M & Cv & Hw)].
    + rewrite Hw by done. by rewrite st_writes_noknown.
    + rewrite Hw by done. rewrite st_writes_app.
      change (st_writes (st_writes base l1) (x :: l2)) with
        (st_writes (st_write (st_writes base l1) (as_seq x)) l2).
      rewrite st_writes_noknown; [|set_solver|done|done]. by apply st_write_covers.
  - rewrite !lookup_ge_None_2; [done| |lia]. rewrite mem_read_length. lia.
Qed.

(** What may happen to a store of the queue, as the load [l] sees it. *)
Definition ast_le (l : Z) (x y : AStore) : Prop :=
  as_seq y = as_seq x ∧ (as_known x = true → as_known y = true) ∧ (as_ready x = true → as_ready y = true) ∧
  (as_known y = true → as_known x = true ∨ disjoint_acc l (as_seq x)).

Lemma ast_le_refl l x : ast_le l x x.
Proof. unfold ast_le. tauto. Qed.

Lemma ast_le_refls l sts : Forall2 (ast_le l) sts sts.
Proof. induction sts; constructor; [apply ast_le_refl|done]. Qed.

Lemma noknown_le l sts sts' : Forall2 (ast_le l) sts sts' → noknown sts l → noknown sts' l.
Proof.
  intros F N y Hy Ky. apply list_elem_of_lookup in Hy as [i Hi].
  destruct (Forall2_lookup_r _ _ _ _ _ F Hi) as (x & Hx & E & _ & _ & D).
  destruct (D Ky) as [Kx|Dx]; [|by rewrite E]. rewrite E. apply N; [by eapply list_elem_of_lookup_2|done].
Qed.

Lemma load_val_le l older older' base w :
  Forall2 (ast_le l) older older' → load_val older base l w → load_val older' base l w.
Proof.
  intros F [Hl H]. split; [done|]. destruct H as [[N Hw]|(l1 & x & l2 & -> & N & Kx & Rx & M & Cv & Hw)].
  - left. split; [by eapply noknown_le|done].
  - right. apply Forall2_app_inv_l in F as (m1 & m2' & F1 & F2 & ->).
    apply Forall2_cons_inv_l in F2 as (y & m2 & (E & Ky & Ry & _) & F2 & ->).
    exists m1, y, m2. rewrite E. split_and!; auto. by eapply noknown_le.
Qed.

Lemma load_val_base l older base base' w :
  (∀ j, j < a_len l → base' (a_lo l + Z.of_nat j)%Z = base (a_lo l + Z.of_nat j)%Z) →
  load_val older base l w → load_val older base' l w.
Proof.
  intros Hb [Hl H]. split; [done|]. destruct H as [[N Hw]|H]; [left|by right].
  split; [done|]. intros j Hj. by rewrite Hw, Hb.
Qed.

(** The oldest store goes to memory. *)
Lemma load_val_pop l x older base base' w :
  (∀ j, j < a_len l → base' (a_lo l + Z.of_nat j)%Z = st_write base (as_seq x) (a_lo l + Z.of_nat j)%Z) →
  as_known x = true → load_val (x :: older) base l w → load_val older base' l w.
Proof.
  intros Hb K [Hl H]. split; [done|].
  destruct H as [[N Hw]|(l1 & y & l2 & E & N & Ky & Ry & M & Cv & Hw)].
  - left. split; [intros z ?; apply N; set_solver|]. intros j Hj. rewrite Hw, Hb by done. f_equal.
    symmetry. apply st_write_disjoint; [|done]. apply N; [set_solver|done].
  - destruct l1 as [|z l1]; injection E as -> ->.
    + left. split; [done|]. intros j Hj. rewrite Hw, Hb by done. by apply st_write_covers.
    + right. exists l1, y, l2. done.
Qed.

Lemma noknown_not_covered l l1 x l2 :
  noknown (l1 ++ x :: l2) l → as_known x = true → covers (as_seq x) l → False.
Proof.
  intros N K Cv. specialize (N x ltac:(set_solver) K).
  pose proof (sh_size _ (Hshape l)). unfold disjoint_acc, covers in *. lia.
Qed.

(** With no known store in the way the bytes are those of the memory. *)
Lemma load_val_noknown older base l w j :
  load_val older base l w → noknown older l → j < a_len l → w !! j = Some (base (a_lo l + Z.of_nat j)%Z).
Proof.
  intros [_ [[_ Hw]|(l1 & x & l2 & -> & _ & K & _ & _ & Cv & _)]] N Hj; [by apply Hw|].
  by apply noknown_not_covered in N.
Qed.

End Abs.

(** The invariant of the load/store queue with the store buffer and the memory. *)

(** The byte that a list of packets forwards to a position: that of the last packet. *)
Definition fwd_at (ps : list FWDPacket) (j : nat) : option Z :=
  fold_left (λ o p, if (fwd_idx p =? Z.of_nat j)%Z then Some (fwd_byte p) else o) ps None.

(** The packets are for a load of [n] bytes. *)
Definition fwd_in (n : nat) (ps : list FWDPacket) : Prop :=
  ∀ p, p ∈ ps → (0 ≤ fwd_idx p < Z.of_nat n)%Z.

(** A request of the access [r0]: only the packets and the count of the outstanding ones
    differ. *)
Definition same_access (r0 r : LSQRequest) : Prop :=
  ∃ n a b, r = lr_set_forward (lr_set_outstanding r0 n) a b.

Section Inv.

Context {C : Type} `{CircularBufferLaws C nat}.
Context (P : LsqParams) (SP : SbParams) (T : nat) (tid : Z) (va : Z → Z).
Context (acc : Z → LSQRequest) (sdata : Z → list Z) (maxData : nat).

Local Notation k := (lp_lineBits P).
Local Notation lo := (a_lo acc).
Local Notation len := (a_len acc).

(** An access within a block, to ordinary memory. *)
Record plain (s : Z) : Prop := {
  pl_shape : acc_shape acc sdata s;
  pl_split : lr_isSplit (acc s) = false;
  pl_reqs : lr_reqs (acc s) = [lr_mainReq (acc s)];
  pl_size : lr_size (acc s) = mr_size (lr_mainReq (acc s));
  pl_max : len s ≤ maxData;
  pl_addr : lr_addr (acc s) = mr_vaddr (lr_mainReq (acc s));
  pl_vaddr : in_u 64 (mr_vaddr (lr_mainReq (acc s)));
  pl_off : block_off k (mr_vaddr (lr_mainReq (acc s))) = block_off k (lo s);
  pl_block : (block_off k (lo s) + a_size acc s ≤ 2 ^ k)%Z;
  pl_va : block_addr k (mr_vaddr (lr_mainReq (acc s))) = va (block_addr k (lo s));
  pl_flags : lr_flags (acc s) = RFlags false false false false false false false false false;
  pl_fresh : lr_numOutstanding (acc s) = 0%Z ∧ lr_SQforward (acc s) = [] ∧ lr_SBforward (acc s) = []
}.

(** The instructions of the theorems: no atomics, store conditionals or prefetches. *)
Definition static_ok (m : MStatic) : Prop :=
  ms_isAtomic m = false ∧ ms_isStoreConditional m = false ∧ ms_isDataPrefetch m = false.

(** ** Stores *)

Record st_ok (idx : Z) (e : SQEntry) (i : MInst) : Prop := {
  sk_inst : sqe_inst e = Some i;
  sk_valid : sqe_valid e = true;
  sk_static : static_ok (mi_static i);
  sk_it : mi_sqIt i = idx;
  sk_flags : sqe_committed e = false ∧ sqe_completed e = false ∧ sqe_isAllZeros e = false;
  sk_len : length (sqe_data e) = maxData;
  sk_strict : mi_strictlyOrdered i = false;
  sk_skip : mp_skipFollowing (mi_pipe i) = false;
  sk_replay : mi_replay i = None ∨ mi_replay i = Some TLBMissReplay;
  sk_tr : mi_translationStarted i = true →
    mi_saved i = Some (acc (mi_seqNum i)) ∧ sqe_request e = Some (acc (mi_seqNum i)) ∧
    mi_effAddrValid i = true ∧ mi_physEffAddr i = lo (mi_seqNum i) ∧
    mi_effSize i = a_size acc (mi_seqNum i);
  sk_notr : mi_translationStarted i = false → mi_saved i = None;
  sk_mem : ∀ d, mi_memData i = Some d → length d = len (mi_seqNum i);
  sk_memStd : mi_translationStarted i = true → sqe_addrReady e = false →
    ms_isSplitStoreAddr (mi_static i) = false → mi_memData i = Some (sdata (mi_seqNum i));
  sk_known : sqe_addrReady e = true → mi_translationStarted i = true ∧ mi_replay i = None ∧
    sqe_size e = a_size acc (mi_seqNum i) ∧ (∀ n, mi_stage i = Some n → 2 ≤ n);
  sk_unknown : sqe_addrReady e = false → sqe_size e = 0%Z ∧ sqe_staFinish e = false ∧
    (ms_isSplitStoreAddr (mi_static i) = false → sqe_dataReady e = false);
  sk_ready : sqe_dataReady e = true → take (len (mi_seqNum i)) (sqe_data e) = sdata (mi_seqNum i);
  sk_std : sqe_stdFinish e = true → sqe_dataReady e = true;
  sk_std' : ms_isSplitStoreAddr (mi_static i) = true → sqe_stdFinish e = sqe_dataReady e;
  sk_whole : ms_isSplitStoreAddr (mi_static i) = false → sqe_addrReady e = true → sqe_dataReady e = true;
  sk_sta : sqe_staFinish e = true → mi_stage i = None;
  sk_exec : mi_executed i = splitStoreFinish e;
  sk_canWB : sqe_canWB e = true → splitStoreFinish e = true;
  sk_s0 : ∀ n, mi_stage i = Some n → mi_replay i = None → n ≠ 0 → mi_translationStarted i = true;
  sk_s1 : ∀ n, mi_stage i = Some n → mi_replay i = None → 2 ≤ n → sqe_addrReady e = true
}.

(** ** Loads *)

(** What a load that holds data it may deliver depends on: the older stores, the memory
    seen through the store buffer, the buffer, the memory and the bus. *)
Record LCtx := MkLCtx {
  lc_older : list AStore;
  lc_base : memory;
  lc_byte : Z → option Z;
  lc_mem : memory;
  lc_bus : option Z
}.

Definition captured (i : MInst) : bool := mp_cacheHit (mi_pipe i) || mp_fullForward (mi_pipe i).

(** After the read: each byte is forwarded, or will come from the cache. *)
Definition read_ok (c : LCtx) (i : MInst) (r : LSQRequest) : Prop :=
  let s := mi_seqNum i in
  fwd_in (len s) (lr_SBforward r) ∧ fwd_in (len s) (lr_SQforward r) ∧
  ∃ w, load_val acc sdata (lc_older c) (lc_base c) s w ∧
    ∀ j, j < len s →
      match fwd_at (lr_SBforward r ++ lr_SQforward r) j with
      | Some x => w !! j = Some x
      | None => noknown acc (lc_older c) s ∧ lc_byte c (lo s + Z.of_nat j)%Z = None ∧
                (captured i = true → ∃ d, mi_memData i = Some d ∧ d !! j = w !! j)
      end.

(** What holds of a load at any time. *)
Record ld_core (idx : Z) (e : LQEntry) (i : MInst) : Prop := {
  lk_inst : lqe_inst e = Some i;
  lk_valid : lqe_valid e = true;
  lk_static : static_ok (mi_static i);
  lk_it : mi_lqIt i = idx;
  lk_flags : mi_strictlyOrdered i = false ∧ mi_hitExternalSnoop i = false ∧
             mp_skipFollowing (mi_pipe i) = false;
  lk_tr : mi_translationStarted i = mi_effAddrValid i;
  lk_saved : ∀ r, mi_saved i = Some r → same_access (acc (mi_seqNum i)) r;
  lk_addr : mi_effAddrValid i = true →
    mi_saved i ≠ None ∧ mi_physEffAddr i = lo (mi_seqNum i) ∧
    mi_effSize i = a_size acc (mi_seqNum i) ∧
    ∃ r, lqe_request e = Some r ∧ lr_reqs r = [lr_mainReq (acc (mi_seqNum i))];
  lk_mem : ∀ d, mi_memData i = Some d → length d = len (mi_seqNum i)
}.

(** The packet of the saved request is not on its way. *)
Definition not_sent (i : MInst) : Prop :=
  ∀ r, mi_effAddrValid i = true → mi_saved i = Some r → lr_numOutstanding r = 0%Z.

Record ld_ok (idx : Z) (e : LQEntry) (i : MInst) : Prop := {
  lk_core : ld_core idx e i;
  lk_exec : mi_executed i = true →
    mi_replay i = None ∧ mi_effAddrValid i = true ∧ mp_skipRawCheck (mi_pipe i) = false ∧
    (mi_stage i = None ∨ mi_stage i = Some 3) ∧
    ∃ v, mi_result i = Some v ∧ length v = len (mi_seqNum i);
  lk_stage : match mi_stage i with
             | Some 0 => mi_replay i = None ∧ mi_executed i = false
             | Some 1 => mi_executed i = false ∧
                 (mi_replay i = None ∧ mi_effAddrValid i = true ∨ mi_replay i = Some TLBMissReplay)
             | Some 2 => mi_executed i = false ∧ mp_skipRawCheck (mi_pipe i) = false ∧
                 (mi_replay i = None → mi_effAddrValid i = true)
             | Some 3 => mi_executed i = true
             | Some _ => False
             | None => True
             end;
  lk_early : ∀ n, mi_stage i = Some n → n < 2 →
    captured i = false ∧ mp_wakeUpEarly (mi_pipe i) = false;
  lk_out : mi_executed i = false → ¬ (mi_stage i = Some 2 ∧ mi_replay i = None) → not_sent i;
  lk_out2 : mi_stage i = Some 2 → mi_replay i = None →
    (mp_fullForward (mi_pipe i) = true ∨ mp_wakeUpEarly (mi_pipe i) = true) → not_sent i;
  lk_fwd : mi_stage i = Some 2 → mi_replay i = None →
    is_Some (mi_memData i) ∧
    ∀ r, mi_saved i = Some r → fwd_in (len (mi_seqNum i)) (lr_SBforward r) ∧ fwd_in (len (mi_seqNum i)) (lr_SQforward r)
}.

Definition ld_data (c : LCtx) (i : MInst) : Prop :=
  (mi_executed i = true →
     ∃ v, mi_result i = Some v ∧ load_val acc sdata (lc_older c) (lc_base c) (mi_seqNum i) v) ∧
  (mi_stage i = Some 2 → mi_replay i = None → ∃ r, mi_saved i = Some r ∧ read_ok c i r).

Definition ld_bus (c : LCtx) (i : MInst) : Prop :=
  mi_executed i = false → ∀ p, lc_bus c = Some p →
    p = lo (mi_seqNum i) ∧ ∃ d, mi_memData i = Some d ∧
      ∀ j, j < len (mi_seqNum i) → d !! j = Some (lc_mem c (lo (mi_seqNum i) + Z.of_nat j)%Z).

(** ** The system *)

Implicit Types s : LSys C.

Definition own : Z → Z := λ _, tid.
Definition sq (s : LSys C) : list SQEntry := cq_list (lu_SQ (ls_u s)).
Definition lq (s : LSys C) : list LQEntry := cq_list (lu_LQ (ls_u s)).
Definition abs_sq (s : LSys C) : list AStore := map ast (sq s).
Definition base (s : LSys C) : memory := sys_view SP own (ls_sb s).

Definition lctx (s : LSys C) (i : MInst) : LCtx :=
  MkLCtx (take (Z.to_nat (mi_sqIt i - cq_head (lu_SQ (ls_u s)))) (abs_sq s)) (base s)
    (sb_byte k (sl_sb (ss_lsq (ls_sb s))) tid) (ss_mem (ls_sb s)) (ls_bus s !! mi_seqNum i).

(** A load that is neither released nor about to be squashed. *)
Definition active (s : LSys C) (q : Z) : Prop :=
  (ls_bound s < q)%Z ∧ ∀ v, ls_squash s = Some v → (q < v)%Z.

Definition sq_clean (e : SQEntry) : Prop :=
  sqe_valid e = false ∧ sqe_inst e = None ∧ sqe_request e = None ∧ length (sqe_data e) = maxData ∧
  sqe_canWB e = false ∧ sqe_committed e = false ∧ sqe_completed e = false ∧ sqe_isAllZeros e = false ∧
  sqe_addrReady e = false ∧ sqe_dataReady e = false ∧ sqe_staFinish e = false ∧ sqe_stdFinish e = false.
Definition lq_clean (e : LQEntry) : Prop := lqe_valid e = false ∧ lqe_request e = None.

(** The queues: positions, numbers and the links between them. *)
Record q_inv s : Prop := {
  qi_wfS : cq_wf (lu_SQ (ls_u s));
  qi_wfL : cq_wf (lu_LQ (ls_u s));
  qi_roomS : (cq_head (lu_SQ (ls_u s)) + cq_size (lu_SQ (ls_u s)) + cq_capacity (lu_SQ (ls_u s)) < 2 ^ 64)%Z;
  qi_roomL : (cq_head (lu_LQ (ls_u s)) + cq_size (lu_LQ (ls_u s)) + cq_capacity (lu_LQ (ls_u s)) < 2 ^ 64)%Z;
  qi_outS : cq_outside sq_clean (lu_SQ (ls_u s));
  qi_outL : cq_outside lq_clean (lu_LQ (ls_u s));
  qi_st p e : sq s !! p = Some e → ∃ i, st_ok (cq_head (lu_SQ (ls_u s)) + Z.of_nat p) e i;
  qi_ld p e : lq s !! p = Some e → ∃ i, ld_ok (cq_head (lu_LQ (ls_u s)) + Z.of_nat p) e i;
  qi_sortS p p' e e' i i' : sq s !! p = Some e → sq s !! p' = Some e' → sqe_inst e = Some i →
    sqe_inst e' = Some i' → p < p' → (mi_seqNum i < mi_seqNum i')%Z;
  qi_sortL p p' e e' i i' : lq s !! p = Some e → lq s !! p' = Some e' → lqe_inst e = Some i →
    lqe_inst e' = Some i' → p < p' → (mi_seqNum i < mi_seqNum i')%Z;
  (* a load follows the stores before its iterator, a store precedes the loads from its on *)
  qi_ls p p' e e' i i' : lq s !! p = Some e → sq s !! p' = Some e' → lqe_inst e = Some i →
    sqe_inst e' = Some i' →
    ((cq_head (lu_SQ (ls_u s)) + Z.of_nat p' < mi_sqIt i)%Z ↔ (mi_seqNum i' < mi_seqNum i)%Z) ∧
    ((mi_lqIt i' ≤ cq_head (lu_LQ (ls_u s)) + Z.of_nat p)%Z ↔ (mi_seqNum i' < mi_seqNum i)%Z);
  qi_sqIt p e i : lq s !! p = Some e → lqe_inst e = Some i →
    (mi_sqIt i ≤ cq_head (lu_SQ (ls_u s)) + cq_size (lu_SQ (ls_u s)))%Z ∧
    ((ls_bound s < mi_seqNum i)%Z → (cq_head (lu_SQ (ls_u s)) ≤ mi_sqIt i)%Z);
  qi_lqIt p e i : sq s !! p = Some e → sqe_inst e = Some i →
    (mi_lqIt i ≤ cq_head (lu_LQ (ls_u s)) + cq_size (lu_LQ (ls_u s)))%Z ∧
    ((ls_bound s < mi_seqNum i)%Z → (cq_head (lu_LQ (ls_u s)) ≤ mi_lqIt i)%Z);
  qi_lastS p e i : sq s !! p = Some e → sqe_inst e = Some i → (mi_seqNum i ≤ ls_last s)%Z;
  qi_lastL p e i : lq s !! p = Some e → lqe_inst e = Some i → (mi_seqNum i ≤ ls_last s)%Z;
  qi_bound : (ls_bound s ≤ ls_last s)%Z;
  qi_bus q p : ls_bus s !! q = Some p → (q ≤ ls_last s)%Z;
  qi_busSize : (Z.of_nat (size (ls_bus s)) ≤ cq_capacity (lu_LQ (ls_u s)))%Z;
  qi_canWB p e i : sq s !! p = Some e → sqe_inst e = Some i →
    sqe_canWB e = bool_decide (mi_seqNum i ≤ ls_bound s)%Z;
  qi_execB p e i : lq s !! p = Some e → lqe_inst e = Some i → (mi_seqNum i ≤ ls_bound s)%Z →
    mi_executed i = true
}.

(** The other members of the unit. *)
Record u_inv s : Prop := {
  ui_id : lu_lsqID (ls_u s) = tid;
  ui_wb : lu_storeWBIt (ls_u s) = cq_head (lu_SQ (ls_u s));
  ui_toWB : lu_storesToWB (ls_u s) = Z.of_nat (length (filter (λ e, sqe_canWB e = true) (sq s)));
  ui_viol : lu_memDepViolator (ls_u s) = None;
  ui_blocked : lu_isStoreBlocked (ls_u s) = false;
  ui_stall : lu_stalled (ls_u s) = true → ∃ p e i,
    lu_stallingLoadIdx (ls_u s) = (cq_head (lu_LQ (ls_u s)) + Z.of_nat p)%Z ∧ lq s !! p = Some e ∧
    lqe_inst e = Some i ∧ mi_stage i = None ∧ mi_executed i = false ∧
    (lu_stallingStoreIsn (ls_u s) < mi_seqNum i)%Z;
  ui_rar : length (lu_RARQueue (ls_u s)) ≤ lp_maxRARQEntries P;
  ui_raw : length (lu_RAWQueue (ls_u s)) ≤ lp_maxRAWQEntries P;
  ui_nodup : NoDup (map ld_seq (lu_RARReplayQueue (ls_u s) ++ lu_RAWReplayQueue (ls_u s)));
  ui_refs x : x ∈ lu_RARReplayQueue (ls_u s) ++ lu_RAWReplayQueue (ls_u s) →
    (ld_seq x ≤ ls_last s)%Z ∧
    ∀ p e i, lq s !! p = Some e → lqe_inst e = Some i → mi_seqNum i = ld_seq x →
      ld_lqIt x = mi_lqIt i ∧ mi_stage i = None ∧ (mi_replay i = Some RARReplay ∨ mi_replay i = Some RAWReplay)
}.

(** The data: every active load has or will get the right bytes, and the released stores
    are the memory behind the buffer with the released stores of the queue. *)
Record d_inv (m0 : memory) s : Prop := {
  di_ld p e i : lq s !! p = Some e → lqe_inst e = Some i → active s (mi_seqNum i) → ld_data (lctx s i) i;
  di_bus p e i : lq s !! p = Some e → lqe_inst e = Some i → ld_bus (lctx s i) i;
  di_sb : sys_inv SP T own va (ls_sb s);
  di_mem a : in_u 64 a →
    fold_left (λ m r, mem_write m (rs_addr r) (rs_data r) (rs_mask r)) (ls_stores s) m0 a =
    fold_left (st_write acc sdata) (filter (λ q, q ≤ ls_bound s)%Z (map as_seq (abs_sq s))) (base s) a;
  di_sorted : StronglySorted Z.lt (map rs_seq (ls_stores s));
  di_storeB r : r ∈ ls_stores s → (rs_seq r ≤ ls_bound s)%Z;
  di_stores r : r ∈ ls_stores s → r = RSt (rs_seq r) (lo (rs_seq r)) (sdata (rs_seq r)) (a_mask acc (rs_seq r));
  di_loads l : l ∈ ls_loads s → (rl_seq l ≤ ls_bound s)%Z ∧ rl_addr l = lo (rl_seq l) ∧
    rl_value l =
      mem_read (fold_left (λ m r, mem_write m (rs_addr r) (rs_data r) (rs_mask r))
                  (filter (λ r, rs_seq r < rl_seq l)%Z (ls_stores s)) m0)
        (lo (rl_seq l)) (len (rl_seq l))
}.

Record ls_inv (m0 : memory) s : Prop := {
  iv_q : q_inv s;
  iv_u : u_inv s;
  iv_d : d_inv m0 s
}.

End Inv.
