(* ===== verification/LsqUpd.v ===== *)
(** Changes of one load or one store keep the invariant. *)
From Stdlib Require Import Sorted.
From stdpp Require Import gmap.
From S2P Require Import Prelude CircularBuffer Bytes StoreBuffer StoreBufferInv StoreBufferView.
From S2P Require Import StoreBufferLsq StoreBufferSteps StoreBufferProps.
From S2P Require Import CircularQueue LsqUnit LsqRead LsqPipe LsqOffload LsqSys LsqInv.

(** ** Reading and writing one entry *)

Definition lqp (u : LSQUnit) (p : nat) (e : LQEntry) : LSQUnit := set_LQ u (cq_upd (lu_LQ u) p e).
Definition sqp (u : LSQUnit) (p : nat) (e : SQEntry) : LSQUnit := set_SQ u (cq_upd (lu_SQ u) p e).

Definition lq_has (u : LSQUnit) (p : nat) : Prop := cq_wf (lu_LQ u) ∧ p < length (cq_list (lu_LQ u)).
Definition sq_has (u : LSQUnit) (p : nat) : Prop := cq_wf (lu_SQ u) ∧ p < length (cq_list (lu_SQ u)).

Lemma cq_upd_id {A} (q : CircularQueue A) p e : cq_wf q → cq_list q !! p = Some e → cq_upd q p e = q.
Proof.
  intros W Hp. destruct q as [d cap sz hd]. unfold cq_upd. simpl. f_equal. apply list_insert_id.
  rewrite <- cq_list_lookup; [done|done|]. pose proof (cq_list_length _ W) as L. simpl in *.
  apply lookup_lt_Some in Hp. lia.
Qed.

Lemma lqp_id u p e : cq_wf (lu_LQ u) → cq_list (lu_LQ u) !! p = Some e → lqp u p e = u.
Proof. intros W Hp. unfold lqp. rewrite cq_upd_id by done. by destruct u. Qed.
Lemma sqp_id u p e : cq_wf (lu_SQ u) → cq_list (lu_SQ u) !! p = Some e → sqp u p e = u.
Proof. intros W Hp. unfold sqp. rewrite cq_upd_id by done. by destruct u. Qed.

Lemma lqp_lqp u p e e' : lqp (lqp u p e) p e' = lqp u p e'.
Proof. unfold lqp. simpl. by rewrite cq_upd_upd. Qed.
Lemma sqp_sqp u p e e' : sqp (sqp u p e) p e' = sqp u p e'.
Proof. unfold sqp. simpl. by rewrite cq_upd_upd. Qed.

Lemma lqp_list u p e : lq_has u p → cq_list (lu_LQ (lqp u p e)) = <[p := e]> (cq_list (lu_LQ u)).
Proof. intros [W Hp]. by apply cq_put_upd. Qed.
Lemma sqp_list u p e : sq_has u p → cq_list (lu_SQ (sqp u p e)) = <[p := e]> (cq_list (lu_SQ u)).
Proof. intros [W Hp]. by apply cq_put_upd. Qed.

Section Access.

Context (u : LSQUnit) (p : nat).
Local Notation li := (cq_head (lu_LQ u) + Z.of_nat p)%Z.
Local Notation si := (cq_head (lu_SQ u) + Z.of_nat p)%Z.

Lemma lq_at_lqp e : lq_has u p → cq_at (lu_LQ (lqp u p e)) li = Ok e.
Proof.
  intros [W Hp]. destruct (cq_put_upd (lu_LQ u) p e W Hp) as (_ & W' & L').
  apply (cq_at_lookup (cq_upd (lu_LQ u) p e) p e W'). rewrite L'. by apply list_lookup_insert_eq.
Qed.
Lemma lq_cqput_lqp e e' : lq_has u p → cq_put (lu_LQ (lqp u p e)) li e' = Ok (cq_upd (lu_LQ u) p e').
Proof.
  intros [W Hp]. destruct (cq_put_upd (lu_LQ u) p e W Hp) as (_ & W' & L').
  destruct (cq_put_upd (cq_upd (lu_LQ u) p e) p e' W') as (E & _); [by rewrite L', length_insert|].
  change (lu_LQ (lqp u p e)) with (cq_upd (lu_LQ u) p e).
  etransitivity; [exact E|]. by rewrite cq_upd_upd.
Qed.

Lemma lq_get_lqp e i : lq_has u p → lqe_inst e = Some i → lq_get (lqp u p e) li = Ok i.
Proof. intros W Hi. unfold lq_get. rewrite lq_at_lqp by done. cbn [res_bind]. unfold lq_inst. by rewrite Hi. Qed.

Lemma lq_put_lqp e i : lq_has u p → lq_put (lqp u p e) li i = Ok (lqp u p (lqe_with_inst e i)).
Proof.
  intros W. unfold lq_put. rewrite lq_at_lqp by done. cbn [res_bind]. rewrite lq_cqput_lqp by done. cbn [res_bind]. by unfold lqp.
Qed.

Lemma lq_setRequest_lqp e r : lq_has u p → lq_setRequest (lqp u p e) li r = Ok (lqp u p (lqe_with_request e r)).
Proof.
  intros W. unfold lq_setRequest. rewrite lq_at_lqp by done. cbn [res_bind]. rewrite lq_cqput_lqp by done. cbn [res_bind].
  by unfold lqp.
Qed.

(** [loadSetReplay] on one entry. *)
Definition lqe_forget (e : LQEntry) (i : MInst) (drop : bool) : LQEntry :=
  lqe_with_request (lqe_with_inst e (mi_set_valid i false false (if drop then None else mi_saved i))) None.

Lemma loadSetReplay_lqp e i drop :
  lq_has u p → lqe_inst e = Some i → loadSetReplay (lqp u p e) li drop = Ok (lqp u p (lqe_forget e i drop)).
Proof.
  intros W Hi. unfold loadSetReplay. rewrite (lq_get_lqp e i) by done. cbn [res_bind].
  rewrite lq_put_lqp by done. cbn [res_bind]. by rewrite lq_setRequest_lqp.
Qed.

Lemma sq_at_sqp e : sq_has u p → cq_at (lu_SQ (sqp u p e)) si = Ok e.
Proof.
  intros [W Hp]. destruct (cq_put_upd (lu_SQ u) p e W Hp) as (_ & W' & L').
  apply (cq_at_lookup (cq_upd (lu_SQ u) p e) p e W'). rewrite L'. by apply list_lookup_insert_eq.
Qed.
Lemma sq_cqput_sqp e e' : sq_has u p → cq_put (lu_SQ (sqp u p e)) si e' = Ok (cq_upd (lu_SQ u) p e').
Proof.
  intros [W Hp]. destruct (cq_put_upd (lu_SQ u) p e W Hp) as (_ & W' & L').
  destruct (cq_put_upd (cq_upd (lu_SQ u) p e) p e' W') as (E & _); [by rewrite L', length_insert|].
  change (lu_SQ (sqp u p e)) with (cq_upd (lu_SQ u) p e).
  etransitivity; [exact E|]. by rewrite cq_upd_upd.
Qed.

Lemma sq_get_sqp e i : sq_has u p → sqe_inst e = Some i → sq_get (sqp u p e) si = Ok i.
Proof. intros W Hi. unfold sq_get. rewrite sq_at_sqp by done. cbn [res_bind]. unfold sq_inst. by rewrite Hi. Qed.

Lemma sq_put_sqp e i : sq_has u p → sq_put (sqp u p e) si i = Ok (sqp u p (sqe_with_inst e i)).
Proof.
  intros W. unfold sq_put. rewrite sq_at_sqp by done. cbn [res_bind]. rewrite sq_cqput_sqp by done. cbn [res_bind]. by unfold sqp.
Qed.

End Access.

(** Two units with the same queues and the same write-back state. *)
Record u_same (u u' : LSQUnit) : Prop := {
  us_id : lu_lsqID u' = lu_lsqID u;
  us_SQ : lu_SQ u' = lu_SQ u;
  us_LQ : lu_LQ u' = lu_LQ u;
  us_wb : lu_storeWBIt u' = lu_storeWBIt u;
  us_toWB : lu_storesToWB u' = lu_storesToWB u;
  us_viol : lu_memDepViolator u' = lu_memDepViolator u;
  us_blocked : lu_isStoreBlocked u' = lu_isStoreBlocked u
}.

Definition ra_refs (u : LSQUnit) : list LdRef := lu_RARReplayQueue u ++ lu_RAWReplayQueue u.

Section Upd.

Context {C : Type} `{CircularBufferLaws C nat}.
Context (P : LsqParams) (SP : SbParams) (T : nat) (tid : Z) (va : Z → Z).
Context (acc : Z → LSQRequest) (sdata : Z → list Z) (maxData : nat) (m0 : memory).

Local Notation linv := (ls_inv P SP T tid va acc sdata maxData m0).
Local Notation lctx := (lctx P SP tid).
Implicit Types s : LSys C.

(** The instruction keeps its identity. *)
Definition same_id (i i' : MInst) : Prop :=
  mi_static i' = mi_static i ∧ mi_sqIt i' = mi_sqIt i ∧ mi_lqIt i' = mi_lqIt i.

Lemma same_id_seq i i' : same_id i i' → mi_seqNum i' = mi_seqNum i.
Proof. unfold mi_seqNum. by intros (-> & _). Qed.

(** Looking up the updated load queue. *)
Lemma lqp_lookup u p e' p' x :
  lq_has u p → cq_list (lu_LQ (lqp u p e')) !! p' = Some x →
  (p' = p ∧ x = e') ∨ (p' ≠ p ∧ cq_list (lu_LQ u) !! p' = Some x).
Proof.
  intros Hp. rewrite lqp_list by done. intros [(-> & -> & _)|[? ?]]%list_lookup_insert_Some; [by left|by right].
Qed.

(** The stalled load of the new unit: an untouched one, or the new one. *)
Definition stall_ok (u u1 : LSQUnit) (p : nat) (i' : MInst) : Prop :=
  lu_stalled u1 = true →
  (lu_stallingLoadIdx u1 = (cq_head (lu_LQ u) + Z.of_nat p)%Z ∧ mi_stage i' = None ∧
     mi_executed i' = false ∧ (lu_stallingStoreIsn u1 < mi_seqNum i')%Z) ∨
  (lu_stalled u = true ∧ lu_stallingLoadIdx u1 = lu_stallingLoadIdx u ∧
     lu_stallingStoreIsn u1 = lu_stallingStoreIsn u ∧
     lu_stallingLoadIdx u ≠ (cq_head (lu_LQ u) + Z.of_nat p)%Z).

(** The queues of the loads that wait: the old ones, or the new load. *)
Definition refs_ok (u u1 : LSQUnit) (i i' : MInst) : Prop :=
  NoDup (map ld_seq (ra_refs u1)) ∧
  ∀ x, x ∈ ra_refs u1 →
    (ld_seq x ≠ mi_seqNum i ∧ x ∈ ra_refs u) ∨
    (ld_seq x = mi_seqNum i ∧ ld_lqIt x = mi_lqIt i ∧ mi_stage i' = None ∧
       (mi_replay i' = Some RARReplay ∨ mi_replay i' = Some RAWReplay)).

(** A load entry after a step that keeps the queue in place. *)
Record ld_step s (p : nat) (i : MInst) (e' : LQEntry) (i' : MInst) : Prop := {
  lt_id : same_id i i';
  lt_ok : ld_ok acc (cq_head (lu_LQ (ls_u s)) + Z.of_nat p) e' i';
  lt_exec : mi_executed i = true → mi_executed i' = true;
  lt_data : active s (mi_seqNum i) → ld_data acc sdata (lctx s i') i';
  lt_bus : ld_bus acc (lctx s i') i'
}.

(** The load queue in the same place, with the entries changed. *)
Record lq_frame s (u1 : LSQUnit) : Prop := {
  lf_id : lu_lsqID u1 = lu_lsqID (ls_u s);
  lf_SQ : lu_SQ u1 = lu_SQ (ls_u s);
  lf_wb : lu_storeWBIt u1 = lu_storeWBIt (ls_u s);
  lf_toWB : lu_storesToWB u1 = lu_storesToWB (ls_u s);
  lf_viol : lu_memDepViolator u1 = lu_memDepViolator (ls_u s);
  lf_blocked : lu_isStoreBlocked u1 = lu_isStoreBlocked (ls_u s);
  lf_wf : cq_wf (lu_LQ u1);
  lf_head : cq_head (lu_LQ u1) = cq_head (lu_LQ (ls_u s));
  lf_size : cq_size (lu_LQ u1) = cq_size (lu_LQ (ls_u s));
  lf_cap : cq_capacity (lu_LQ u1) = cq_capacity (lu_LQ (ls_u s));
  lf_out : cq_outside lq_clean (lu_LQ u1);
  lf_step p e' : cq_list (lu_LQ u1) !! p = Some e' →
    ∃ e i i', lq s !! p = Some e ∧ lqe_inst e = Some i ∧ lqe_inst e' = Some i' ∧ ld_step s p i e' i'
}.

(** A load of the new state is one of the old state. *)
Lemma lf_old s u1 p e' i' :
  lq_frame s u1 → lq (with_u s u1) !! p = Some e' → lqe_inst e' = Some i' →
  ∃ e i, lq s !! p = Some e ∧ lqe_inst e = Some i ∧ ld_step s p i e' i'.
Proof.
  intros F Hp Hi. destruct (lf_step _ _ F p e' Hp) as (e & i & j & He & Hj & Hj' & S).
  exists e, i. split_and!; [done|done|congruence].
Qed.

Lemma loads_q_inv s u1 : linv s → lq_frame s u1 → q_inv acc sdata maxData (with_u s u1).
Proof.
  intros [Q _ _] F. pose proof (lf_old s u1) as HO.
  assert (sq (with_u s u1) = sq s) as Esq by (unfold sq; simpl; by rewrite (lf_SQ _ _ F)).
  destruct Q. split; simpl; rewrite ?Esq, ?(lf_SQ _ _ F), ?(lf_head _ _ F), ?(lf_size _ _ F), ?(lf_cap _ _ F);
    try done; try apply F.
  - intros p e' He. destruct (lf_step _ _ F p e' He) as (e & i & i' & _ & _ & _ & S). exists i'. apply S.
  - intros p1 p2 e1 e2 i1 i2 H1 H2 I1 I2 Hlt.
    destruct (HO _ _ _ F H1 I1) as (x1 & j1 & Hx1 & Hj1 & S1).
    destruct (HO _ _ _ F H2 I2) as (x2 & j2 & Hx2 & Hj2 & S2).
    rewrite (same_id_seq _ _ (lt_id _ _ _ _ _ S1)), (same_id_seq _ _ (lt_id _ _ _ _ _ S2)).
    by apply (qi_sortL p1 p2 x1 x2).
  - intros p1 p2 e1 e2 i1 i2 H1 H2 I1 I2. destruct (HO _ _ _ F H1 I1) as (x1 & j1 & Hx1 & Hj1 & S1).
    rewrite (same_id_seq _ _ (lt_id _ _ _ _ _ S1)). destruct (lt_id _ _ _ _ _ S1) as (_ & -> & _).
    by apply (qi_ls p1 p2 x1 e2).
  - intros p1 e1 i1 H1 I1. destruct (HO _ _ _ F H1 I1) as (x1 & j1 & Hx1 & Hj1 & S1).
    rewrite (same_id_seq _ _ (lt_id _ _ _ _ _ S1)). destruct (lt_id _ _ _ _ _ S1) as (_ & -> & _).
    by apply (qi_sqIt p1 x1).
  - intros p1 e1 i1 H1 I1. destruct (HO _ _ _ F H1 I1) as (x1 & j1 & Hx1 & Hj1 & S1).
    rewrite (same_id_seq _ _ (lt_id _ _ _ _ _ S1)). by apply (qi_lastL p1 x1).
  - intros p1 e1 i1 H1 I1. destruct (HO _ _ _ F H1 I1) as (x1 & j1 & Hx1 & Hj1 & S1).
    rewrite (same_id_seq _ _ (lt_id _ _ _ _ _ S1)). intros Hle. by eapply (lt_exec _ _ _ _ _ S1), qi_execB.
Qed.

Lemma loads_d_inv s u1 : linv s → lq_frame s u1 → d_inv P SP T tid va acc sdata m0 (with_u s u1).
Proof.
  intros [_ _ D] F.
  assert (∀ j, lctx (with_u s u1) j = lctx s j) as EC.
  { intros j. unfold LsqInv.lctx, abs_sq, sq. simpl. by rewrite (lf_SQ _ _ F). }
  destruct D. split; simpl; try done.
  - intros p e' i' He Hi Ha. rewrite EC. destruct (lf_old _ _ _ _ _ F He Hi) as (e & i & _ & _ & S).
    apply (lt_data _ _ _ _ _ S). by rewrite (same_id_seq _ _ (lt_id _ _ _ _ _ S)) in Ha.
  - intros p e' i' He Hi. rewrite EC. destruct (lf_old _ _ _ _ _ F He Hi) as (e & i & _ & _ & S).
    apply (lt_bus _ _ _ _ _ S).
  - intros a Ha. rewrite di_mem by done. unfold abs_sq, sq. simpl. by rewrite (lf_SQ _ _ F).
Qed.

Lemma inv_loads s u1 :
  linv s → lq_frame s u1 →
  (lu_stalled u1 = true → ∃ p e i,
    lu_stallingLoadIdx u1 = (cq_head (lu_LQ (ls_u s)) + Z.of_nat p)%Z ∧ cq_list (lu_LQ u1) !! p = Some e ∧
    lqe_inst e = Some i ∧ mi_stage i = None ∧ mi_executed i = false ∧ (lu_stallingStoreIsn u1 < mi_seqNum i)%Z) →
  length (lu_RARQueue u1) ≤ lp_maxRARQEntries P → length (lu_RAWQueue u1) ≤ lp_maxRAWQEntries P →
  NoDup (map ld_seq (ra_refs u1)) →
  (∀ x, x ∈ ra_refs u1 → (ld_seq x ≤ ls_last s)%Z ∧
    ∀ p e i, cq_list (lu_LQ u1) !! p = Some e → lqe_inst e = Some i → mi_seqNum i = ld_seq x →
      ld_lqIt x = mi_lqIt i ∧ mi_stage i = None ∧ (mi_replay i = Some RARReplay ∨ mi_replay i = Some RAWReplay)) →
  linv (with_u s u1).
Proof.
  intros I F Hst Hrar Hraw Hnd Href. split; [by apply loads_q_inv| |by apply loads_d_inv].
  destruct (iv_u _ _ _ _ _ _ _ _ _ _ I). split; try done; simpl.
  - by rewrite (lf_id _ _ F).
  - by rewrite (lf_wb _ _ F), (lf_SQ _ _ F).
  - unfold sq. simpl. by rewrite (lf_toWB _ _ F), (lf_SQ _ _ F).
  - by rewrite (lf_viol _ _ F).
  - by rewrite (lf_blocked _ _ F).
  - by rewrite (lf_head _ _ F).
Qed.

(** An entry that stays. *)
Lemma ld_step_refl s p e i : linv s → lq s !! p = Some e → lqe_inst e = Some i → ld_step s p i e i.
Proof.
  intros [Q _ D] Hp Hi. destruct (qi_ld _ _ _ _ Q p e Hp) as (j & K).
  assert (j = i) as -> by (pose proof (lk_inst _ _ _ _ (lk_core _ _ _ _ K)); congruence).
  split; [done|done|done| |by apply (di_bus _ _ _ _ _ _ _ _ _ D p e)].
  intros Ha. by apply (di_ld _ _ _ _ _ _ _ _ _ D p e).
Qed.

(** Two loads of the queue with one number are the same. *)
Lemma lq_seq_inj s p p' e e' i i' :
  linv s → lq s !! p = Some e → lq s !! p' = Some e' → lqe_inst e = Some i → lqe_inst e' = Some i' →
  mi_seqNum i = mi_seqNum i' → p = p'.
Proof.
  intros [Q _ _] Hp Hp' Hi Hi' E. destruct (decide (p < p')) as [Hlt|Hge].
  - pose proof (qi_sortL _ _ _ _ Q p p' e e' i i' Hp Hp' Hi Hi' Hlt). lia.
  - destruct (decide (p' < p)) as [Hlt|]; [|lia].
    pose proof (qi_sortL _ _ _ _ Q p' p e' e i' i Hp' Hp Hi' Hi Hlt). lia.
Qed.

Lemma load_frame s u1 p e i e' i' :
  linv s → lq s !! p = Some e → lqe_inst e = Some i → u_same (ls_u s) u1 → ld_step s p i e' i' →
  lq_frame s (lqp u1 p e').
Proof.
  intros I Hp Hi US S. pose proof (iv_q _ _ _ _ _ _ _ _ _ _ I) as Q.
  assert (lq_has u1 p) as Hhas.
  { split; rewrite (us_LQ _ _ US); [apply Q|]. by eapply lookup_lt_Some. }
  split; simpl; rewrite ?(us_LQ _ _ US); try apply US; try done.
  - rewrite <- (us_LQ _ _ US). apply cq_put_upd; apply Hhas.
  - rewrite <- (us_LQ _ _ US). apply cq_outside_upd; [apply Hhas|apply Hhas|]. rewrite (us_LQ _ _ US). apply Q.
  - intros p' x Hx. rewrite <- (us_LQ _ _ US) in Hx. apply lqp_lookup in Hx; [|done].
    rewrite (us_LQ _ _ US) in Hx. destruct Hx as [[-> ->]|[_ Hx]].
    + exists e, i, i'. split_and!; try done. apply (lt_ok _ _ _ _ _ S).
    + destruct (qi_ld _ _ _ _ Q p' x Hx) as (j & K). pose proof (lk_inst _ _ _ _ (lk_core _ _ _ _ K)) as Hj.
      exists x, j, j. split_and!; try done. by apply ld_step_refl.
Qed.

Lemma inv_load s u1 p e i e' i' :
  linv s → lq s !! p = Some e → lqe_inst e = Some i → u_same (ls_u s) u1 → ld_step s p i e' i' →
  stall_ok (ls_u s) u1 p i' → refs_ok (ls_u s) u1 i i' →
  length (lu_RARQueue u1) ≤ lp_maxRARQEntries P → length (lu_RAWQueue u1) ≤ lp_maxRAWQEntries P →
  linv (with_u s (lqp u1 p e')).
Proof.
  intros I Hp Hi US S Hst [Hnd Href] Lar Law. pose proof (iv_q _ _ _ _ _ _ _ _ _ _ I) as Q.
  pose proof (iv_u _ _ _ _ _ _ _ _ _ _ I) as U.
  pose proof (lk_inst _ _ _ _ (lk_core _ _ _ _ (lt_ok _ _ _ _ _ S))) as Hi'.
  assert (lq_has u1 p) as Hhas.
  { split; rewrite (us_LQ _ _ US); [apply Q|]. by eapply lookup_lt_Some. }
  apply inv_loads; [done|by eapply load_frame| |done|done|done|].
  - intros St. rewrite lqp_list, (us_LQ _ _ US) by done.
    destruct (Hst St) as [(Ei & S1 & S2 & S3)|(S0 & E1 & E2 & Hne)].
    + exists p, e', i'. split; [done|]. split; [|done]. apply list_lookup_insert_eq. by eapply lookup_lt_Some.
    + destruct (ui_stall _ _ _ U S0) as (p' & x & j & Ej & Hx & Hj & X). exists p', x, j.
      change (lu_stallingLoadIdx (lqp u1 p e')) with (lu_stallingLoadIdx u1).
      change (lu_stallingStoreIsn (lqp u1 p e')) with (lu_stallingStoreIsn u1). rewrite E1, E2.
      split; [done|]. split; [|done]. rewrite list_lookup_insert_ne; [done|]. intros ->. congruence.
  - intros x Hx. rewrite lqp_list, (us_LQ _ _ US) by done.
    destruct (Href x Hx) as [[Hne Hold]|(E1 & E2 & E3 & E4)].
    + destruct (ui_refs _ _ _ U x Hold) as [Hle Hr]. split; [done|]. intros p' y j Hy Hj Ej.
      apply list_lookup_insert_Some in Hy as [(-> & -> & _)|[_ Hy]]; [|by apply (Hr p' y j)].
      rewrite Hi' in Hj. injection Hj as <-. rewrite (same_id_seq _ _ (lt_id _ _ _ _ _ S)) in Ej. congruence.
    + split; [rewrite E1; by apply (qi_lastL _ _ _ _ Q p e)|]. intros p' y j Hy Hj Ej.
      apply list_lookup_insert_Some in Hy as [(-> & -> & _)|[Hne Hy]].
      * rewrite Hi' in Hj. injection Hj as <-. destruct (lt_id _ _ _ _ _ S) as (_ & _ & ->). done.
      * exfalso. apply Hne. apply (lq_seq_inj s p p' e y i j); try done. congruence.
Qed.

(** ** Stores *)

(** Nothing but the queues, the completed indices and the outputs differs. *)
Record u_quiet (u u' : LSQUnit) : Prop := {
  uq_same : u_same u u';
  uq_stalled : lu_stalled u' = lu_stalled u;
  uq_isn : lu_stallingStoreIsn u' = lu_stallingStoreIsn u;
  uq_idx : lu_stallingLoadIdx u' = lu_stallingLoadIdx u;
  uq_rar : lu_RARQueue u' = lu_RARQueue u;
  uq_raw : lu_RAWQueue u' = lu_RAWQueue u;
  uq_rarr : lu_RARReplayQueue u' = lu_RARReplayQueue u;
  uq_rawr : lu_RAWReplayQueue u' = lu_RAWReplayQueue u
}.

(** A load that holds data, or that has read. *)
Definition holds_data (i : MInst) : Prop :=
  mi_executed i = true ∨ mi_stage i = Some 2 ∧ mi_replay i = None.

Lemma ld_data_ext c c' i :
  (holds_data i →
     Forall2 (ast_le acc (mi_seqNum i)) (lc_older c) (lc_older c') ∧
     ∀ j, j < a_len acc (mi_seqNum i) →
       let a := (a_lo acc (mi_seqNum i) + Z.of_nat j)%Z in
       lc_base c' a = lc_base c a ∧ (lc_byte c a = None → lc_byte c' a = None)) →
  ld_data acc sdata c i → ld_data acc sdata c' i.
Proof.
  intros Hc [D1 D2]. split.
  - intros Hex. destruct (Hc (or_introl Hex)) as [F B]. destruct (D1 Hex) as (v & Hv & V). exists v.
    split; [done|]. apply (load_val_base acc sdata _ _ (lc_base c)); [intros j Hj; by apply B|].
    by eapply load_val_le.
  - intros Hs Hr. destruct (Hc (or_intror (conj Hs Hr))) as [F B].
    destruct (D2 Hs Hr) as (r & Er & F1 & F2 & w & V & R). exists r. split; [done|].
    split; [done|]. split; [done|]. exists w. split.
    + apply (load_val_base acc sdata _ _ (lc_base c)); [intros j Hj; by apply B|]. by eapply load_val_le.
    + intros j Hj. specialize (R j Hj). destruct (fwd_at _ j); [done|]. destruct R as (N & E & M).
      split_and!; [by eapply noknown_le|by apply (B j Hj)|done].
Qed.

Lemma Forall2_insert_refl {A} (R : A → A → Prop) (l : list A) p x y :
  (∀ z, R z z) → l !! p = Some x → R x y → Forall2 R l (<[p := y]> l).
Proof.
  intros Hr Hp Hxy. apply Forall2_same_length_lookup_2; [by rewrite length_insert|].
  intros q a b Ha Hb. destruct (decide (p = q)) as [->|Hne].
  - rewrite list_lookup_insert_eq in Hb by (by eapply lookup_lt_Some). congruence.
  - rewrite list_lookup_insert_ne in Hb by done. assert (a = b) as -> by congruence. apply Hr.
Qed.

(** Looking up the updated store queue. *)
Lemma sqp_lookup u p e' p' x :
  sq_has u p → cq_list (lu_SQ (sqp u p e')) !! p' = Some x →
  (p' = p ∧ x = e') ∨ (p' ≠ p ∧ cq_list (lu_SQ u) !! p' = Some x).
Proof.
  intros Hp. rewrite sqp_list by done. intros [(-> & -> & _)|[? ?]]%list_lookup_insert_Some; [by left|by right].
Qed.

Section Store.

Context s (u1 : LSQUnit) (p : nat) (e : SQEntry) (i : MInst) (e' : SQEntry) (i' : MInst) (q' : option Z).
Hypothesis I : linv s.
Hypothesis Hp : sq s !! p = Some e.
Hypothesis Hi : sqe_inst e = Some i.
Hypothesis US : u_quiet (ls_u s) u1.
Hypothesis ID : same_id i i'.
Hypothesis K : st_ok acc sdata maxData (cq_head (lu_SQ (ls_u s)) + Z.of_nat p) e' i'.
Hypothesis Hwb : sqe_canWB e' = sqe_canWB e.

Local Notation s' := (with_squash (with_u s (sqp u1 p e')) q').

Lemma st_has : sq_has u1 p.
Proof.
  split; rewrite (us_SQ _ _ (uq_same _ _ US)); [apply I|]. by eapply lookup_lt_Some.
Qed.

Lemma st_lookup p' x : sq s' !! p' = Some x → (p' = p ∧ x = e') ∨ (p' ≠ p ∧ sq s !! p' = Some x).
Proof.
  intros Hx. unfold sq in *. simpl in Hx. rewrite <- (us_SQ _ _ (uq_same _ _ US)).
  apply sqp_lookup in Hx; [done|apply st_has].
Qed.

Lemma st_old p' x j :
  sq s' !! p' = Some x → sqe_inst x = Some j →
  ∃ x0 j0, sq s !! p' = Some x0 ∧ sqe_inst x0 = Some j0 ∧ same_id j0 j ∧ sqe_canWB x = sqe_canWB x0.
Proof.
  intros Hx Hj. destruct (st_lookup _ _ Hx) as [[-> ->]|[_ Hx']].
  - rewrite (sk_inst _ _ _ _ _ _ K) in Hj. injection Hj as <-. exists e, i. done.
  - exists x, j. by repeat split.
Qed.

Lemma st_lq : lq s' = lq s.
Proof. unfold lq. simpl. by rewrite (us_LQ _ _ (uq_same _ _ US)). Qed.

Lemma st_sq : sq s' = <[p := e']> (sq s).
Proof.
  change (sq s') with (cq_list (lu_SQ (sqp u1 p e'))). rewrite sqp_list by apply st_has.
  unfold sq. by rewrite (us_SQ _ _ (uq_same _ _ US)).
Qed.

Lemma store_q_inv : q_inv acc sdata maxData s'.
Proof.
  pose proof st_has as Hhas. pose proof (uq_same _ _ US) as US'. destruct (iv_q _ _ _ _ _ _ _ _ _ _ I).
  split; simpl; rewrite ?st_lq, ?(us_SQ _ _ US'), ?(us_LQ _ _ US'); try done.
  - rewrite <- (us_SQ _ _ US'). apply cq_put_upd; [|apply Hhas]. by rewrite (us_SQ _ _ US').
  - rewrite <- (us_SQ _ _ US'). apply cq_outside_upd; rewrite (us_SQ _ _ US'); try done.
    by eapply lookup_lt_Some.
  - intros p' x Hx. destruct (st_lookup _ _ Hx) as [[-> ->]|[_ Hx']]; [by exists i'|by apply qi_st].
  - intros p1 p2 e1 e2 i1 i2 H1 H2 I1 I2 Hlt.
    destruct (st_old _ _ _ H1 I1) as (x1 & j1 & Hx1 & Hj1 & D1 & _).
    destruct (st_old _ _ _ H2 I2) as (x2 & j2 & Hx2 & Hj2 & D2 & _).
    rewrite (same_id_seq _ _ D1), (same_id_seq _ _ D2). by apply (qi_sortS p1 p2 x1 x2).
  - intros p1 p2 e1 e2 i1 i2 H1 H2 I1 I2.
    destruct (st_old _ _ _ H2 I2) as (x1 & j1 & Hx1 & Hj1 & D1 & _).
    rewrite (same_id_seq _ _ D1). destruct D1 as (_ & _ & ->). by apply (qi_ls p1 p2 e1 x1).
  - intros p1 e1 i1 H1 I1. destruct (st_old _ _ _ H1 I1) as (x1 & j1 & Hx1 & Hj1 & D1 & _).
    rewrite (same_id_seq _ _ D1). destruct D1 as (_ & _ & ->). by apply (qi_lqIt p1 x1).
  - intros p1 e1 i1 H1 I1. destruct (st_old _ _ _ H1 I1) as (x1 & j1 & Hx1 & Hj1 & D1 & _).
    rewrite (same_id_seq _ _ D1). by apply (qi_lastS p1 x1).
  - intros p1 e1 i1 H1 I1. destruct (st_old _ _ _ H1 I1) as (x1 & j1 & Hx1 & Hj1 & D1 & ->).
    rewrite (same_id_seq _ _ D1). by apply (qi_canWB p1 x1).
Qed.

Lemma store_canWB_count :
  length (filter (λ e, sqe_canWB e = true) (sq s')) = length (filter (λ e, sqe_canWB e = true) (sq s)).
Proof.
  rewrite st_sq. pose proof (take_drop_middle _ _ _ Hp) as E.
  rewrite insert_take_drop by (by eapply lookup_lt_Some). rewrite <- E at 3.
  rewrite !filter_app, !filter_cons, !length_app. rewrite Hwb. destruct (decide _); simpl; done.
Qed.

Lemma store_u_inv : u_inv P tid s'.
Proof.
  pose proof (uq_same _ _ US) as US'. destruct (iv_u _ _ _ _ _ _ _ _ _ _ I).
  split; try (simpl; rewrite ?st_lq, ?(us_SQ _ _ US'), ?(us_LQ _ _ US'), ?(us_id _ _ US'),
      ?(us_wb _ _ US'), ?(us_viol _ _ US'), ?(us_blocked _ _ US'), ?(uq_stalled _ _ US), ?(uq_isn _ _ US),
      ?(uq_idx _ _ US), ?(uq_rar _ _ US), ?(uq_raw _ _ US), ?(uq_rarr _ _ US), ?(uq_rawr _ _ US); done).
  rewrite store_canWB_count. simpl. by rewrite (us_toWB _ _ US').
Qed.

(** The loads that hold data must not be touched by a store whose address becomes known. *)
Lemma inv_store :
  (∀ q, active s' q → active s q) →
  (∀ p' x j, lq s !! p' = Some x → lqe_inst x = Some j → active s' (mi_seqNum j) → holds_data j →
     (mi_seqNum i < mi_seqNum j)%Z → ast_le acc (mi_seqNum j) (ast e) (ast e')) →
  linv s'.
Proof.
  intros Hact Hle. pose proof (uq_same _ _ US) as US'. split; [apply store_q_inv|apply store_u_inv|].
  pose proof (iv_q _ _ _ _ _ _ _ _ _ _ I) as Q.
  assert (abs_sq s' = <[p := ast e']> (abs_sq s)) as Eabs.
  { unfold abs_sq. rewrite st_sq. apply list_fmap_insert. }
  assert (abs_sq s !! p = Some (ast e)) as Habs by (unfold abs_sq; by rewrite list_lookup_fmap, Hp).
  destruct (iv_d _ _ _ _ _ _ _ _ _ _ I). split; try done.
  - intros p' x j Hx Hj Ha. rewrite st_lq in Hx. specialize (di_ld p' x j Hx Hj (Hact _ Ha)).
    apply (ld_data_ext (lctx s j)); [|done]. intros Hh. split; [|done].
    unfold LsqInv.lctx, lc_older. rewrite Eabs. simpl. rewrite (us_SQ _ _ US').
    set (n := Z.to_nat _). destruct (decide (p < n)) as [Hpn|Hpn].
    + rewrite take_insert_lt by done. eapply Forall2_insert_refl; [intros; apply ast_le_refl| |].
      * by rewrite lookup_take_lt.
      * apply (Hle p' x j); try done.
        destruct (qi_ls _ _ _ _ Q p' p x e j i Hx Hp Hj Hi) as [[X _] _]. apply X. unfold n in Hpn. lia.
    + rewrite take_insert_ge by lia. apply Forall2_same_length_lookup_2; [done|]. intros ? y z Hy Hz. assert (y = z) as -> by congruence. apply ast_le_refl.
  - intros p' x j Hx Hj. rewrite st_lq in Hx. exact (di_bus p' x j Hx Hj).
  - intros a Ha. simpl. rewrite di_mem by done. f_equal. rewrite Eabs. f_equal.
    change (<[p := ast e']> (abs_sq s)) with (<[p := ast e']> (abs_sq s)).
    rewrite list_fmap_insert, list_insert_id; [done|]. rewrite list_lookup_fmap, Habs. simpl.
    rewrite Hi, (sk_inst _ _ _ _ _ _ K). by rewrite (same_id_seq _ _ ID).
Qed.

End Store.

End Upd.
