(* ===== verification/LsqReadOk.v ===== *)
(** Forwarding is exact, and the read of a load succeeds: it leaves the load to be
    replayed or with the bytes it needs. *)
From Stdlib Require Import Sorted.
From stdpp Require Import gmap.
From S2P Require Import Prelude CircularBuffer Bytes StoreBuffer StoreBufferInv StoreBufferView.
From S2P Require Import StoreBufferLsq StoreBufferSteps StoreBufferProps CircularQueue LsqUnit.
From S2P Require Import LsqRead LsqPipe LsqOffload LsqSys LsqInv LsqUpd.

(** ** Packets *)

Lemma fwd_at_app a b j : fwd_at (a ++ b) j = match fwd_at b j with Some x => Some x | None => fwd_at a j end.
Proof.
  unfold fwd_at. rewrite fold_left_app. generalize (fold_left (λ o p, if (fwd_idx p =? Z.of_nat j)%Z
    then Some (fwd_byte p) else o) a None). induction b as [|p b IH] using rev_ind; intros o; [done|].
  rewrite !fold_left_app. simpl. destruct (_ =? _)%Z; [done|apply IH].
Qed.

Lemma fwd_at_snoc a p j :
  fwd_at (a ++ [p]) j = if (fwd_idx p =? Z.of_nat j)%Z then Some (fwd_byte p) else fwd_at a j.
Proof. unfold fwd_at. by rewrite fold_left_app. Qed.

(** Packets made position by position. *)
Lemma fwd_at_omap (f : nat → option Z) n j :
  fwd_at (omap (λ i, FWD (Z.of_nat i) <$> f i) (seq 0 n)) j = if decide (j < n) then f j else None.
Proof.
  induction n as [|n IH]; [done|]. rewrite seq_S, omap_app, fwd_at_app, IH. simpl.
  destruct (f n) as [x|] eqn:E; simpl.
  - unfold fwd_at. simpl. destruct (Z.eqb_spec (Z.of_nat n) (Z.of_nat j)) as [Ej|Ej].
    + assert (j = n) as -> by lia. by rewrite decide_True by lia.
    + destruct (decide (j < n)), (decide (j < S n)); try done; lia.
  - unfold fwd_at. simpl. destruct (decide (j < n)), (decide (j < S n)); try done; try lia.
    assert (j = n) as -> by lia. done.
Qed.

Lemma fwd_in_omap (f : nat → option Z) n : fwd_in n (omap (λ i, FWD (Z.of_nat i) <$> f i) (seq 0 n)).
Proof.
  intros p. rewrite list_elem_of_omap. intros (i & Hi%elem_of_seq & E).
  apply fmap_Some in E as (x & _ & ->). simpl. lia.
Qed.

Lemma fwd_in_app n a b : fwd_in n a → fwd_in n b → fwd_in n (a ++ b).
Proof. intros A B p [?|?]%elem_of_app; auto. Qed.

(** The data after the packets. *)
Lemma forward_packets_at d ps :
  fwd_in (length d) ps →
  ∃ d', forward_packets d ps = Ok d' ∧ length d' = length d ∧
    ∀ j, d' !! j = match fwd_at ps j with Some x => if decide (j < length d) then Some x else None
                                       | None => d !! j end.
Proof.
  induction ps as [|p ps IH] using rev_ind; intros Hin; [by exists d|].
  destruct IH as (d1 & E1 & L1 & H1). { intros q Hq. apply Hin. set_solver. }
  assert (0 ≤ fwd_idx p < Z.of_nat (length d))%Z as Hp by (apply Hin; set_solver).
  unfold forward_packets in *. rewrite res_fold_app, E1. simpl.
  destruct (array_access d1 (Z.of_nat (length d1)) (fwd_idx p)) as (_ & _ & _ & Hs); [done|lia|].
  rewrite Hs. simpl. eexists. split; [done|]. split; [by rewrite length_insert|]. intros j.
  rewrite fwd_at_snoc. destruct (Z.eqb_spec (fwd_idx p) (Z.of_nat j)) as [E|E].
  - replace (Z.to_nat (fwd_idx p)) with j by lia. rewrite decide_True by lia.
    apply list_lookup_insert_eq. lia.
  - rewrite list_lookup_insert_ne by lia. apply H1.
Qed.

Lemma lr_forward_at r d n :
  length d = n → fwd_in n (lr_SBforward r) → fwd_in n (lr_SQforward r) →
  ∃ d', lr_forward r d = Ok d' ∧ length d' = n ∧
    ∀ j, j < n → d' !! j = match fwd_at (lr_SBforward r ++ lr_SQforward r) j with
                           | Some x => Some x | None => d !! j end.
Proof.
  intros <- HB HQ. unfold lr_forward. destruct (forward_packets_at d _ HB) as (d1 & -> & L1 & H1). simpl.
  rewrite <- L1 in HQ. destruct (forward_packets_at d1 _ HQ) as (d2 & -> & L2 & H2).
  exists d2. split; [done|]. split; [congruence|]. intros j Hj. rewrite H2, fwd_at_app.
  destruct (fwd_at (lr_SQforward r) j); [by rewrite decide_True by lia|]. rewrite H1.
  destruct (fwd_at (lr_SBforward r) j); [by rewrite decide_True by lia|done].
Qed.

Section Forward.

Context {C : Type} `{CircularBufferLaws C nat}.
Context (P : LsqParams) (SP : SbParams) (T : nat) (tid : Z) (va : Z → Z).
Context (acc : Z → LSQRequest) (sdata : Z → list Z) (maxData : nat).
Hypothesis PO : params_ok SP T.
Hypothesis Hline : lp_lineBits P = sp_lineBits SP.
Hypothesis Htid : (0 ≤ tid < Z.of_nat T)%Z.
Hypothesis Hplain : ∀ s, plain P va acc sdata maxData s.

Local Notation k := (lp_lineBits P).
Local Notation lo := (a_lo acc).
Local Notation len := (a_len acc).

Lemma k_bits : (0 ≤ k ≤ 64)%Z.
Proof. rewrite Hline. apply PO. Qed.

Lemma shape_all s : acc_shape acc sdata s.
Proof. apply Hplain. Qed.

Lemma lo_in_u s j : j < len s → in_u 64 (lo s + Z.of_nat j)%Z.
Proof.
  intros Hj. pose proof (shape_all s) as [? ? ? _ _]. unfold in_u, a_len in *. lia.
Qed.

Lemma lo_in_u0 s : in_u 64 (lo s).
Proof.
  pose proof (shape_all s) as [? ? ? _ _]. unfold in_u. lia.
Qed.

(** ** The store buffer *)

Lemma sbuffer_forward_spec (b : SbSys C) q r :
  sys_inv SP T (own tid) va b → same_access (acc q) r →
  let byte j := sb_byte k (sl_sb (ss_lsq b)) tid (lo q + Z.of_nat j)%Z in
  ∃ f, sbuffer_forward P (sl_sb (ss_lsq b)) tid r = Ok f ∧
    match f with
    | None => ∀ j, j < len q → byte j = None
    | Some (ps, full) => fwd_in (len q) ps ∧ (∀ j, j < len q → fwd_at ps j = byte j) ∧
                         (full = true ↔ ∀ j, j < len q → is_Some (byte j))
    end.
Proof.
  intros I (n & ra & rb & ->) byte. unfold sbuffer_forward. simpl.
  pose proof (Hplain q) as PL. pose proof k_bits as Hk. pose proof (lo_in_u0 q) as Hlo.
  destruct (block_split k (lo q) Hk Hlo) as ([E Ho] & Hb & Hal).
  pose proof (sv_sb _ _ _ (yi_lsq _ _ _ _ _ I)) as J. rewrite <- Hline in J.
  assert (in_u k tid) as Ht.
  { pose proof (po_threads _ _ PO) as X. rewrite <- Hline in X. unfold in_u. lia. }
  change (mr_paddr (lr_mainReq (acc q))) with (lo q).
  rewrite (sb_get_spec k _ _ tid _ Hk J Ht Hb Hal). simpl.
  assert (∀ j, j < len q → byte j = match data_map (sl_sb (ss_lsq b)) !! hashKey tid (block_addr k (lo q)) with
    | Some p => slot_byte (sl_sb (ss_lsq b)) p (Z.to_nat (block_off k (lo q)) + j) | None => None end) as HB.
  { intros j Hj. pose proof (pl_block _ _ _ _ _ _ PL) as Hbl. unfold byte, sb_byte, a_len in *.
    destruct (block_addr_of k (block_addr k (lo q)) (block_off k (lo q) + Z.of_nat j) Hk Hb Hal)
      as (_ & Ha & Hof); [lia|].
    replace (block_addr k (lo q) + (block_off k (lo q) + Z.of_nat j))%Z with (lo q + Z.of_nat j)%Z in * by lia.
    rewrite Ha, Hof.
    by replace (Z.to_nat (block_off k (lo q) + Z.of_nat j)) with (Z.to_nat (block_off k (lo q)) + j) by lia. }
  destruct (data_map _ !! _) as [p|] eqn:Em; [|by exists None].
  destruct (si_map _ _ _ J _ _ Em) as (e & Hl & Ek & _).
  pose proof (pl_addr _ _ _ _ _ _ PL) as Ea. pose proof (pl_size _ _ _ _ _ _ PL) as Esz.
  pose proof (pl_block _ _ _ _ _ _ PL) as Hbl. pose proof (sh_size _ _ _ (shape_all q)) as Hpos.
  unfold a_size in *.
  rewrite (recordForward_spec k _ _ p e _ _ (mr_vaddr (lr_mainReq (acc q))) (lo q) _ Hk J Hl Hlo);
    [|rewrite ?Ea, ?Esz; lia..|].
  - simpl. eexists. split; [done|]. simpl. rewrite Ea, Z.sub_diag. unfold slot_packets.
    change (Z.to_nat (mr_size (lr_mainReq (acc q)))) with (len q). split_and!.
    + apply fwd_in_omap.
    + intros j Hj. pose proof (fwd_at_omap (λ i, slot_byte (sl_sb (ss_lsq b)) p
        (Z.to_nat (block_off k (lo q)) + i)) (len q) j) as X. simpl in *. rewrite decide_True in X by done.
      rewrite HB by done. exact X.
    + rewrite forallb_forall. setoid_rewrite <- list_elem_of_In. setoid_rewrite bool_decide_eq_true.
      split; intros X j Hj; [rewrite HB by done; apply X, elem_of_seq; lia|].
      apply elem_of_seq in Hj. rewrite <- HB by lia. apply X. lia.
  - intros v ev Hv He. destruct (si_vice _ _ _ J _ _ _ Hl Hv) as (_ & _ & _ & ev' & Hlv & _ & _ & _ & Ep).
    assert (ev' = ev) as -> by (destruct Hlv; congruence).
    destruct (yi_own _ _ _ _ _ I _ _ Hlv) as [_ ->]. destruct (yi_own _ _ _ _ _ I _ _ Hl) as [_ ->]. by rewrite Ep.
Qed.

(** ** The store queue *)

Lemma coverage_spec q r idx e st :
  same_access (acc q) r → st_ok acc sdata maxData idx e st → sqe_addrReady e = true →
  ∃ c b, coverage r e st = Ok (c, b) ∧
    match c with
    | NoAddrRangeCoverage => b = true ∨ disjoint_acc acc q (mi_seqNum st)
    | FullAddrRangeCoverage => covers acc (mi_seqNum st) q ∧ sqe_dataReady e = true ∧
        isMasked (lr_mainReq (acc (mi_seqNum st))) = false
    | PartialAddrRangeCoverage => True
    end.
Proof.
  intros (n & ra & rb & ->) K Hk. destruct (sk_known _ _ _ _ _ _ K Hk) as (Htr & _ & Esz & _).
  destruct (sk_tr _ _ _ _ _ _ K Htr) as (_ & Er & _ & Ep & _).
  destruct (sk_static _ _ _ _ _ _ K) as (Hat & _ & _).
  pose proof (Hplain q) as PL. pose proof (Hplain (mi_seqNum st)) as PS.
  unfold coverage, load_ranges, store_ranges. simpl.
  rewrite (pl_split _ _ _ _ _ _ PL), Er, (pl_split _ _ _ _ _ _ PS). simpl.
  rewrite (pl_flags _ _ _ _ _ _ PL). simpl. rewrite Ep, Esz.
  destruct (shape_all q) as [Z1 Z2 Z3 _ _]. destruct (shape_all (mi_seqNum st)) as [Y1 Y2 Y3 _ _].
  change (mr_paddr (lr_mainReq (acc q))) with (lo q).
  change (mr_size (lr_mainReq (acc q))) with (a_size acc q).
  rewrite !u64_small by (unfold in_u; lia). unfold checkStoreLoadForwardingRange.
  rewrite Hat, Er. cbn [get_at res_bind]. rewrite (pl_split _ _ _ _ _ _ PS). simpl.
  rewrite (proj2 (Z.ltb_ge (lo q + _) (lo q))), (proj2 (Z.ltb_ge (lo (mi_seqNum st) + _) _)) by lia. simpl.
  destruct (Z.leb_spec (lo (mi_seqNum st)) (lo q)), (Z.leb_spec (lo q + a_size acc q)
    (lo (mi_seqNum st) + a_size acc (mi_seqNum st))); simpl;
  destruct (Z.ltb_spec (lo q) (lo (mi_seqNum st) + a_size acc (mi_seqNum st))),
    (Z.ltb_spec (lo (mi_seqNum st)) (lo q + a_size acc q)); simpl;
  try (eexists _, _; split; [done|]; simpl; try done; right; unfold disjoint_acc; lia); try lia.
  destruct (ms_isSplitStoreAddr (mi_static st)) eqn:Esp; simpl.
  - unfold canForwardToLoad. rewrite Hk. simpl. destruct (sqe_dataReady e) eqn:Ed; simpl.
    + destruct (isMasked _) eqn:Em; simpl; (eexists _, _; split; [done|]); simpl; [done|].
      unfold covers. split_and!; done || lia.
    + eexists _, _. split; [done|]. by left.
  - destruct (isMasked _) eqn:Em; simpl; (eexists _, _; split; [done|]); simpl; [done|].
    unfold covers. split_and!; [lia|lia|by apply (sk_whole _ _ _ _ _ _ K)|done].
Qed.

Lemma full_packets_spec q idx e st :
  st_ok acc sdata maxData idx e st → sqe_dataReady e = true → covers acc (mi_seqNum st) q →
  ∃ ps, full_packets e (lo q - lo (mi_seqNum st)) (len q) = Ok ps ∧ fwd_in (len q) ps ∧
    ∀ j, j < len q →
      ∃ x, fwd_at ps j = Some x ∧
           sdata (mi_seqNum st) !! Z.to_nat (lo q + Z.of_nat j - lo (mi_seqNum st)) = Some x.
Proof.
  intros K Hr [C1 C2]. destruct (sk_flags _ _ _ _ _ _ K) as (_ & _ & Hz).
  pose proof (sk_ready _ _ _ _ _ _ K Hr) as Hd. pose proof (sk_len _ _ _ _ _ _ K) as Hlen.
  pose proof (pl_max _ _ _ _ _ _ (Hplain (mi_seqNum st))) as Hmax.
  set (f := λ i, sdata (mi_seqNum st) !! Z.to_nat (lo q + Z.of_nat i - lo (mi_seqNum st))).
  assert (∀ j, j < len q → is_Some (f j)) as Hf.
  { intros j Hj. apply lookup_lt_is_Some. rewrite (sh_data _ _ _ (shape_all (mi_seqNum st))).
    unfold a_len in *. lia. }
  exists (omap (λ i, FWD (Z.of_nat i) <$> f i) (seq 0 (len q))). split.
  - unfold full_packets. rewrite Hz.
    assert (∀ l, (∀ j, j ∈ l → j < len q) →
      res_mapM (λ i : nat, let! b := nth_res (sqe_data e) (lo q - lo (mi_seqNum st) + Z.of_nat i) in
        Ok (FWD (Z.of_nat i) b)) l = Ok (omap (λ i, FWD (Z.of_nat i) <$> f i) l)) as X.
    { induction l as [|j l IH]; intros Hl; [done|]. simpl.
      destruct (Hf j) as [x Hx]; [apply Hl; set_solver|].
      assert (j < len q) as Hj by (apply Hl; set_solver).
      destruct (array_access (sqe_data e) (Z.of_nat (length (sqe_data e)))
        (lo q - lo (mi_seqNum st) + Z.of_nat j)) as (y & -> & Hy & _);
        [done|unfold a_len in *; lia|]. simpl.
      rewrite IH by (intros; apply Hl; set_solver). simpl. rewrite Hx. simpl. do 3 f_equal.
      unfold f in Hx. rewrite <- Hd, lookup_take_lt in Hx by (unfold a_len in *; lia).
      replace (Z.to_nat (lo q - lo (mi_seqNum st) + Z.of_nat j))
        with (Z.to_nat (lo q + Z.of_nat j - lo (mi_seqNum st))) in Hy by lia. congruence. }
    apply X. intros j ?%elem_of_seq. lia.
  - split; [apply fwd_in_omap|]. intros j Hj. rewrite fwd_at_omap, decide_True by done.
    destruct (Hf j Hj) as [x Hx]. by exists x.
Qed.

Definition search_ok (older : list AStore) (base : memory) (q : Z) (r : SqSearch) : Prop :=
  match r with
  | SqNone => noknown acc older q
  | SqStlf _ => True
  | SqFull ps => fwd_in (len q) ps ∧ ∃ w, load_val acc sdata older base q w ∧
      ∀ j, j < len q → ∃ x, fwd_at ps j = Some x ∧ w !! j = Some x
  | SqPartial st => (st < q)%Z
  end.

Lemma search_ok_snoc older x base q r :
  (as_known x = true → disjoint_acc acc q (as_seq x)) → search_ok older base q r →
  search_ok (older ++ [x]) base q r.
Proof.
  intros Hx. destruct r as [| |ps|]; simpl; try done.
  - intros N. apply noknown_app. split; [done|]. intros y ->%list_elem_of_singleton. done.
  - intros (HI & w & [Hl V] & F). split; [done|]. exists w. split; [|done]. split; [done|].
    destruct V as [[N V]|(l1 & y & l2 & -> & N & V)]; [left|right].
    + split; [|done]. apply noknown_app. split; [done|]. intros y ->%list_elem_of_singleton. done.
    + exists l1, y, (l2 ++ [x]). split; [by rewrite <- app_assoc|]. split; [|done].
      apply noknown_app. split; [done|]. intros z ->%list_elem_of_singleton. done.
Qed.

Lemma sq_search_spec (u : LSQUnit) q r base n :
  cq_wf (lu_SQ u) → same_access (acc q) r → n ≤ length (cq_list (lu_SQ u)) →
  (∀ p e, cq_list (lu_SQ u) !! p = Some e → p < n →
     ∃ i, st_ok acc sdata maxData (cq_head (lu_SQ u) + Z.of_nat p) e i ∧ (mi_seqNum i < q)%Z) →
  ∃ res, sq_search n (cq_head (lu_SQ u) + Z.of_nat n) u q r = Ok res ∧
    search_ok (take n (map ast (cq_list (lu_SQ u)))) base q res.
Proof.
  intros W Hr. induction n as [|n IH]; intros Hn Hst; [exists SqNone; split; [done|]; intros x Hx; by apply elem_of_nil in Hx|].
  destruct (lookup_lt_is_Some_2 (cq_list (lu_SQ u)) n) as [e He]; [lia|].
  destruct (Hst n e He) as (st & K & Hlt); [lia|].
  assert (take (S n) (map ast (cq_list (lu_SQ u))) = take n (map ast (cq_list (lu_SQ u))) ++ [ast e]) as ->.
  { erewrite take_S_r; [done|]. by rewrite list_lookup_fmap, He. }
  assert (∃ res, sq_search n (cq_head (lu_SQ u) + Z.of_nat n) u q r = Ok res ∧
    search_ok (take n (map ast (cq_list (lu_SQ u)))) base q res) as (res & Eres & Hres).
  { apply IH; [lia|]. intros p e' He' Hp. apply (Hst p e' He'). lia. }
  assert (as_seq (ast e) = mi_seqNum st) as Eseq by (simpl; by rewrite (sk_inst _ _ _ _ _ _ K)).
  cbn [sq_search]. unfold cq_it_dec. rewrite (proj2 (Z.ltb_lt _ _)) by lia. cbn [res_bind].
  replace (cq_head (lu_SQ u) + Z.of_nat (S n) - 1)%Z with (cq_head (lu_SQ u) + Z.of_nat n)%Z by lia.
  cbn [assert_ res_bind]. rewrite (cq_at_lookup _ n e W He). cbn [res_bind].
  rewrite (sk_valid _ _ _ _ _ _ K). cbn [assert_ res_bind].
  unfold sq_inst. rewrite (sk_inst _ _ _ _ _ _ K). cbn [get_at res_bind].
  rewrite (proj2 (Z.ltb_lt _ _) Hlt). cbn [assert_ res_bind].
  destruct (sqe_addrReady e) eqn:Ek.
  - destruct (sk_known _ _ _ _ _ _ K Ek) as (Htr & _ & Esz & _).
    destruct (sk_tr _ _ _ _ _ _ K Htr) as (_ & Er & Ev & Ep & _).
    rewrite Esz, (proj2 (Z.eqb_neq _ _)) by (pose proof (sh_size _ _ _ (shape_all (mi_seqNum st))); lia).
    rewrite Er. cbn [get_at res_bind]. rewrite (pl_flags _ _ _ _ _ _ (Hplain _)), (sk_strict _ _ _ _ _ _ K), Ev.
    cbn [rf_isCacheMaintenance negb andb res_bind assert_].
    destruct (coverage_spec q r _ e st Hr K Ek) as (c & b & -> & Hc). cbn [res_bind].
    destruct c.
    + destruct (sk_flags _ _ _ _ _ _ K) as (_ & -> & _). simpl. eexists. split; [done|]. simpl. done.
    + destruct Hc as (Cv & Hrd & Hm). destruct Hr as (nn & ra & rb & ->). simpl.
      change (mr_paddr (lr_mainReq (acc q))) with (lo q).
      change (Z.to_nat (mr_size (lr_mainReq (acc q)))) with (len q). rewrite Ep.
      destruct (full_packets_spec q _ e st K Hrd Cv) as (ps & -> & Hin & Hps). simpl.
      eexists. split; [done|]. simpl. split; [done|].
      destruct Cv as [Cv1 Cv2].
      assert (∃ w, length w = len q ∧ ∀ j, j < len q →
        w !! j = sdata (mi_seqNum st) !! Z.to_nat (lo q + Z.of_nat j - lo (mi_seqNum st))) as (w & Hw & Hwj).
      { exists (take (len q) (drop (Z.to_nat (lo q - lo (mi_seqNum st))) (sdata (mi_seqNum st)))). split.
        - rewrite length_take, length_drop, (sh_data _ _ _ (shape_all (mi_seqNum st))).
          pose proof (sh_size _ _ _ (shape_all q)). unfold a_len in *. lia.
        - intros j Hj. rewrite lookup_take_lt, lookup_drop by done. f_equal. lia. }
      exists w. split.
      * split; [done|]. right. eexists _, (ast e), []. split; [done|]. rewrite Eseq.
        split; [intros x Hx; by apply elem_of_nil in Hx|]. by split_and!.
      * intros j Hj. destruct (Hps j Hj) as (x & Hx & Hd). exists x. by rewrite Hwj.
    + destruct b.
      * eexists. split; [done|]. simpl. done.
      * destruct Hc as [?|Hd]; [done|]. exists res. split; [done|]. apply search_ok_snoc; [|done].
        by rewrite Eseq.
  - destruct (sk_unknown _ _ _ _ _ _ K Ek) as (-> & _). cbn [Z.eqb res_bind negb andb].
    exists res. split; [done|]. apply search_ok_snoc; [|done]. simpl. by rewrite Ek.
Qed.

End Forward.

(** The read of a load succeeds, and leaves it to be replayed or with the bytes it needs. *)

Lemma setReplay_ok i t : mi_replay i = None → setReplay i t = Ok (set_replayType i (Some t)).
Proof. intros E. unfold setReplay. by rewrite bool_decide_eq_true_2. Qed.

Section ReadOk.

Context {C : Type} `{CircularBufferLaws C nat}.
Context (P : LsqParams) (SP : SbParams) (T : nat) (tid : Z) (va : Z → Z).
Context (acc : Z → LSQRequest) (sdata : Z → list Z) (maxData : nat).
Hypothesis PO : params_ok SP T.
Hypothesis Hline : lp_lineBits P = sp_lineBits SP.
Hypothesis Htid : (0 ≤ tid < Z.of_nat T)%Z.
Hypothesis Hplain : ∀ s, plain P va acc sdata maxData s.

Local Notation k := (lp_lineBits P).
Local Notation lo := (a_lo acc).
Local Notation len := (a_len acc).

(** ** The fixed part of a load *)

Lemma core_upd idx e i i' :
  ld_core acc idx e i → same_id i i' → mi_strictlyOrdered i' = mi_strictlyOrdered i →
  mi_hitExternalSnoop i' = mi_hitExternalSnoop i →
  mp_skipFollowing (mi_pipe i') = mp_skipFollowing (mi_pipe i) →
  mi_translationStarted i' = mi_translationStarted i → mi_effAddrValid i' = mi_effAddrValid i →
  mi_physEffAddr i' = mi_physEffAddr i → mi_effSize i' = mi_effSize i →
  (∀ r, mi_saved i' = Some r → same_access (acc (mi_seqNum i)) r) →
  (mi_effAddrValid i = true → mi_saved i' ≠ None) →
  (∀ d, mi_memData i' = Some d → length d = len (mi_seqNum i)) →
  ld_core acc idx (lqe_with_inst e i') i'.
Proof.
  intros K ID E1 E2 E3 E4 E5 E6 E7 Hs Hn Hm. pose proof (same_id_seq _ _ ID) as Eq.
  destruct ID as (Est & _ & Elq). destruct K.
  split; simpl; rewrite ?Eq, ?Est, ?Elq, ?E1, ?E2, ?E3, ?E4, ?E5, ?E6, ?E7; try done.
  intros Hv. destruct (lk_addr Hv) as (_ & X). split; [by apply Hn|done].
Qed.

(** The common case: the address and the request stay. *)
Lemma core_pipe idx e i i' :
  ld_core acc idx e i → same_id i i' → mi_strictlyOrdered i' = mi_strictlyOrdered i →
  mi_hitExternalSnoop i' = mi_hitExternalSnoop i →
  mp_skipFollowing (mi_pipe i') = mp_skipFollowing (mi_pipe i) →
  mi_translationStarted i' = mi_translationStarted i → mi_effAddrValid i' = mi_effAddrValid i →
  mi_physEffAddr i' = mi_physEffAddr i → mi_effSize i' = mi_effSize i →
  mi_saved i' = mi_saved i → mi_memData i' = mi_memData i →
  ld_core acc idx (lqe_with_inst e i') i'.
Proof.
  intros K ID E1 E2 E3 E4 E5 E6 E7 E8 E9. apply (core_upd idx e i i' K ID); try done; rewrite ?E8, ?E9.
  - by apply (lk_saved _ _ _ _ K).
  - intros Hv. by apply (lk_addr _ _ _ _ K).
  - by apply (lk_mem _ _ _ _ K).
Qed.

Lemma core_forget idx e i (drop : bool) :
  ld_core acc idx e i →
  ld_core acc idx (lqe_forget e i drop) (mi_set_valid i false false (if drop then None else mi_saved i)).
Proof.
  intros []. split; simpl; try done. intros r. destruct drop; [done|]. apply lk_saved.
Qed.

Lemma alloc_memData_len i r d :
  (∀ d, mi_memData i = Some d → length d = len (mi_seqNum i)) → same_access (acc (mi_seqNum i)) r →
  mi_memData (alloc_memData i r) = Some d → length d = len (mi_seqNum i).
Proof.
  intros Hm (n & a & b & ->). unfold alloc_memData. destruct (mi_memData i) eqn:E; simpl; [by rewrite E; apply Hm|].
  intros [= <-]. by rewrite length_replicate.
Qed.

Lemma alloc_memData_saved i r r' :
  mi_set_saved (alloc_memData i r) r' = alloc_memData (mi_set_saved i r') r.
Proof. unfold alloc_memData. simpl. by destruct (mi_memData i). Qed.

Lemma alloc_memData_some i r : is_Some (mi_memData (alloc_memData i r)).
Proof. unfold alloc_memData. destruct (mi_memData i) eqn:E; simpl; rewrite ?E; eauto. Qed.

Lemma alloc_memData_fields i r : ∃ d, alloc_memData i r = mi_set_memData i (Some d) ∧
  (∀ d', mi_memData i = Some d' → d = d').
Proof.
  unfold alloc_memData. destruct (mi_memData i) as [d|] eqn:E; [|eexists; split; [done|discriminate]].
  exists d. split; [|naive_solver]. destruct i; simpl in *. unfold mi_set_memData, mi_set_cache. simpl. congruence.
Qed.

Section Load.

Context (u : LSQUnit) (p : nat) (i0 : MInst) (b : SbSys C) (bus : gmap Z Z) (c : LCtx).
Local Notation idx := (cq_head (lu_LQ u) + Z.of_nat p)%Z.
Local Notation sb := (sl_sb (ss_lsq b)).
Local Notation q := (mi_seqNum i0).

Hypothesis Hhas : lq_has u p.
Hypothesis Hid : lu_lsqID u = tid.
Hypothesis HSB : sys_inv SP T (own tid) va b.
Hypothesis Hbyte : ∀ a, lc_byte c a = sb_byte k sb tid a.
Hypothesis Hmem : ∀ a, lc_base c a = match lc_byte c a with Some x => x | None => lc_mem c a end.
Hypothesis Hbus : lc_bus c = bus !! q.
Hypothesis HbusSize : (Z.of_nat (size bus) ≤ cq_capacity (lu_LQ u))%Z.

(** The load before its read, and in between. *)
Record pre (e : LQEntry) (i : MInst) : Prop := {
  pr_core : ld_core acc idx e i;
  pr_id : same_id i0 i;
  pr_exec : mi_executed i = false;
  pr_stage : mi_stage i = Some 1;
  pr_valid : mi_effAddrValid i = true;
  pr_replay : mi_replay i = None;
  pr_capt : captured i = false;
  pr_early : mp_wakeUpEarly (mi_pipe i) = false;
  pr_skip : mp_skipRawCheck (mi_pipe i) = false;
  pr_sent : not_sent i;
  pr_bus : ld_bus acc c i
}.

(** After the read. *)
Record post (u1 : LSQUnit) (e : LQEntry) (i : MInst) : Prop := {
  po_core : ld_core acc idx e i;
  po_id : same_id i0 i;
  po_exec : mi_executed i = false;
  po_stage : mi_stage i = Some 1;
  po_skip : mp_skipRawCheck (mi_pipe i) = false;
  po_bus : ld_bus acc c i;
  po_same : u_same u u1;
  po_rar : lu_RARQueue u1 = lu_RARQueue u ∧ lu_RAWQueue u1 = lu_RAWQueue u ∧ ra_refs u1 = ra_refs u;
  po_stall : (lu_stalled u1 = lu_stalled u ∧ lu_stallingLoadIdx u1 = lu_stallingLoadIdx u ∧
                lu_stallingStoreIsn u1 = lu_stallingStoreIsn u) ∨
             (lu_stallingLoadIdx u1 = idx ∧ (lu_stallingStoreIsn u1 < q)%Z ∧ replays_now i = true);
  po_case :
    (mi_replay i ≠ None ∧ mi_replay i ≠ Some RARReplay ∧ mi_replay i ≠ Some RAWReplay ∧ not_sent i) ∨
    (mi_replay i = None ∧ mi_effAddrValid i = true ∧ is_Some (mi_memData i) ∧
       (∃ r, mi_saved i = Some r ∧ read_ok acc sdata c i r) ∧
       (mp_fullForward (mi_pipe i) = true ∨ mp_wakeUpEarly (mi_pipe i) = true → not_sent i))
}.

Lemma pre_seq e i : pre e i → mi_seqNum i = q.
Proof. intros K. apply (same_id_seq _ _ (pr_id _ _ K)). Qed.

Lemma same_id_trans i1 i2 i3 : same_id i1 i2 → same_id i2 i3 → same_id i1 i3.
Proof. intros (?&?&?) (?&?&?). repeat split; congruence. Qed.

Lemma u_same_refl v : u_same v v.
Proof. by split. Qed.

Lemma u_quiet_emit v o : u_quiet v (emit_opt v o).
Proof. by destruct o; repeat split. Qed.

(** The read leaves the rest of the unit alone. *)
Lemma post_intro e i u1 e1 i1 :
  pre e i → u_quiet u u1 → ld_core acc idx e1 i1 → same_id i i1 → mi_executed i1 = mi_executed i →
  mi_stage i1 = mi_stage i → mp_skipRawCheck (mi_pipe i1) = mp_skipRawCheck (mi_pipe i) →
  (∃ d, mi_memData i1 = Some d ∧ ∀ d', mi_memData i = Some d' → d = d') ∨ mi_memData i1 = mi_memData i →
  (mi_replay i1 ≠ None ∧ mi_replay i1 ≠ Some RARReplay ∧ mi_replay i1 ≠ Some RAWReplay ∧ not_sent i1) ∨
  (mi_replay i1 = None ∧ mi_effAddrValid i1 = true ∧ is_Some (mi_memData i1) ∧
     (∃ r, mi_saved i1 = Some r ∧ read_ok acc sdata c i1 r) ∧
     (mp_fullForward (mi_pipe i1) = true ∨ mp_wakeUpEarly (mi_pipe i1) = true → not_sent i1)) →
  post u1 e1 i1.
Proof.
  intros K [] HK ID E1 E2 E3 Hd Hc. pose proof (same_id_seq _ _ ID) as Eq. split; try done.
  - by eapply same_id_trans; [apply K|].
  - rewrite E1. apply K.
  - rewrite E2. apply K.
  - rewrite E3. apply K.
  - intros _ x Hx. rewrite Eq. destruct (pr_bus _ _ K (pr_exec _ _ K) x Hx) as (-> & d' & Hd' & Hj).
    split; [done|]. exists d'. split; [|done]. destruct Hd as [(d & -> & Ed)|E4]; [by rewrite (Ed _ Hd')|congruence].
  - split_and!; [done|done|]. unfold ra_refs. congruence.
  - by left.
Qed.

(** A load that forgets its request to be replayed. *)
Lemma post_forget e i t (drop : bool) (o : LsqOut) :
  pre e i → t ≠ RARReplay → t ≠ RAWReplay →
  let i' := mi_set_valid (set_replayType i (Some t)) false false (if drop then None else mi_saved i) in
  post (emit u o) (lqe_forget (lqe_with_inst e (set_replayType i (Some t))) (set_replayType i (Some t)) drop) i'.
Proof.
  intros K Ht1 Ht2 i'. apply (post_intro e i); try done.
  - apply (core_forget idx (lqe_with_inst e (set_replayType i (Some t))) (set_replayType i (Some t)) drop).
    by apply (core_pipe idx e i); [apply K|..].
  - by right.
  - left. split; [done|]. split; [intros [= ?]; done|]. split; [intros [= ?]; done|]. by intros r.
Qed.

(** A load that keeps its request to be replayed. *)
Lemma post_replay e i t d o :
  pre e i → (∀ d', mi_memData i = Some d' → d = d') → length d = len q → t ≠ RARReplay → t ≠ RAWReplay →
  let i' := set_replayType (mi_set_memData i (Some d)) (Some t) in
  post (emit_opt u o) (lqe_with_inst e i') i'.
Proof.
  intros K Hd Hl Ht1 Ht2 i'. apply (post_intro e i); try done.
  - apply u_quiet_emit.
  - apply (core_upd idx e i); try done; [apply K|apply K| |].
    + intros Hv. by apply (lk_addr _ _ _ _ (pr_core _ _ K)).
    + rewrite (pre_seq _ _ K). by intros d0 [= <-].
  - left. by exists d.
  - left. split; [done|]. split; [intros [= ?]; done|]. split; [intros [= ?]; done|].
    intros r Hv Hr. by apply (pr_sent _ _ K).
Qed.

(** When no store of the queue touches the load, the packets of the buffer and the cache
    give its bytes. *)
Lemma read_ok_buffer i r :
  mi_seqNum i = q → noknown acc (lc_older c) q → lr_SQforward r = [] → fwd_in (len q) (lr_SBforward r) →
  (∀ j, j < len q → fwd_at (lr_SBforward r) j = lc_byte c (lo q + Z.of_nat j)%Z) →
  (captured i = true → ∀ j, j < len q → lc_byte c (lo q + Z.of_nat j)%Z = None →
     ∃ d, mi_memData i = Some d ∧ d !! j = Some (lc_mem c (lo q + Z.of_nat j)%Z)) →
  read_ok acc sdata c i r.
Proof.
  intros Ei HN HQ Hin Hj Hc. unfold read_ok. rewrite Ei, HQ. split; [done|].
  split; [intros x Hx; by apply elem_of_nil in Hx|].
  exists (mem_read (lc_base c) (lo q) (len q)). split.
  - split; [apply mem_read_length|]. left. split; [done|]. intros j Hjl. by apply mem_read_lookup.
  - intros j Hjl. rewrite app_nil_r, Hj, mem_read_lookup, Hmem by done.
    destruct (lc_byte c _) as [x|] eqn:Eb; [done|]. split; [done|]. split; [done|].
    intros Hcap. by apply Hc.
Qed.

(** ** The cache *)

Section Cache.

Context (e : LQEntry) (i : MInst) (r : LSQRequest) (ans : CacheAns) (d : list Z).
Hypothesis K : pre e i.
Hypothesis Hr : mi_saved i = Some r.
Hypothesis HSQ : lr_SQforward r = [].
Hypothesis HSBin : fwd_in (len q) (lr_SBforward r).
Hypothesis HSBj : ∀ j, j < len q → fwd_at (lr_SBforward r) j = lc_byte c (lo q + Z.of_nat j)%Z.
Hypothesis Hpart : ∃ j, j < len q ∧ lc_byte c (lo q + Z.of_nat j)%Z = None.
Hypothesis HN : noknown acc (lc_older c) q.
Hypothesis Hd : ∀ d', mi_memData i = Some d' → d = d'.
Hypothesis Hlen : length d = len q.

Local Notation i1 := (mi_set_memData i (Some d)).

Lemma access_r : same_access (acc q) r.
Proof. rewrite <- (pre_seq _ _ K). by apply (lk_saved _ _ _ _ (pr_core _ _ K)). Qed.

Lemma capt_parts : mp_cacheHit (mi_pipe i) = false ∧ mp_fullForward (mi_pipe i) = false.
Proof. apply orb_false_iff, (pr_capt _ _ K). Qed.

(** The load with its buffer, its bytes to come from the cache. *)
Lemma post_buffer i' r' :
  mi_saved i' = Some r' → mi_memData i' = Some d → same_id i i' → mi_executed i' = mi_executed i →
  mi_stage i' = mi_stage i → mi_replay i' = mi_replay i →
  mp_skipRawCheck (mi_pipe i') = mp_skipRawCheck (mi_pipe i) →
  mi_strictlyOrdered i' = mi_strictlyOrdered i → mi_hitExternalSnoop i' = mi_hitExternalSnoop i →
  mp_skipFollowing (mi_pipe i') = mp_skipFollowing (mi_pipe i) →
  mi_translationStarted i' = mi_translationStarted i → mi_effAddrValid i' = mi_effAddrValid i →
  mi_physEffAddr i' = mi_physEffAddr i → mi_effSize i' = mi_effSize i →
  same_access (acc q) r' → read_ok acc sdata c i' r' →
  (mp_fullForward (mi_pipe i') = true ∨ mp_wakeUpEarly (mi_pipe i') = true → lr_numOutstanding r' = 0%Z) →
  post u (lqe_with_inst e i') i'.
Proof.
  intros Er Em ID Ex Es Erep *. intros E1 E2 E3 E4 E5 E6 E7 E8 Ha Hro Hout.
  apply (post_intro e i); try done.
  - apply (core_upd idx e i i' (pr_core _ _ K) ID); try done; rewrite ?Er, ?Em, ?(pre_seq _ _ K).
    + by intros r0 [= <-].
    + done.
    + by intros d0 [= <-].
  - left. by exists d.
  - right. rewrite Erep, E6, Em. split; [apply K|]. split; [apply K|]. split; [by eexists|]. split; [by exists r'|].
    intros Hx r0 _. rewrite Er. intros [= <-]. by apply Hout.
Qed.

(** The packet is sent: a second look at the buffer finds the same bytes. *)
Lemma send_again :
  ∃ ps, (let! f := sbuffer_forward P sb tid r in
         match f with
         | Some (ps, full) => do! assert_ (negb full) "request->isSplit()" in Ok ps
         | None => Ok [] end) = Ok ps ∧ fwd_in (len q) ps ∧
    ∀ j, j < len q → fwd_at ps j = lc_byte c (lo q + Z.of_nat j)%Z ∨ fwd_at ps j = None.
Proof.
  destruct (sbuffer_forward_spec P SP T tid va acc sdata maxData PO Hline Htid Hplain b q r HSB access_r)
    as (f & -> & Hf). cbn [res_bind]. destruct f as [[ps full]|].
  - destruct Hf as (F1 & F2 & F3). destruct full.
    + exfalso. destruct Hpart as (j & Hj & Hnone). destruct (proj1 F3 eq_refl j Hj) as [x Hx].
      rewrite Hbyte in Hnone. congruence.
    + exists ps. split; [done|]. split; [done|]. intros j Hj. left. rewrite Hbyte. by apply F2.
  - exists []. split; [done|]. split; [intros x Hx; by apply elem_of_nil in Hx|]. by right.
Qed.

(** The packet of the load: sent, or the load is replayed. *)
Lemma send_spec :
  ∃ i2 blk, sendLoadPacket P sb tid i1 r ans = Ok (i2, blk) ∧
    ((mi_pending i2 = true ∧ post u (lqe_with_inst e i2) i2) ∨
     (∃ t, i2 = set_replayType i1 (Some t) ∧
        (t = BankConflictReplay ∨ t = MshrArbFailReplay ∨ t = MshrAliasFailReplay ∨
         t = HitInWriteBufferReplay)) ∨ i2 = i1).
Proof.
  assert (lr_numOutstanding r = 0%Z) as Hout by (apply (pr_sent _ _ K); [apply K|done]).
  assert (mi_replay i1 = None) as Hrep by apply K.
  unfold sendLoadPacket. rewrite Hout. cbn [Z.eqb assert_ res_bind].
  destruct (ca_available ans && negb (ca_bankConflict ans) && bool_decide (ca_refused ans = None)) eqn:Hok.
  - destruct send_again as (ps & Eps & Hin & Hps).
    destruct (sbuffer_forward P sb tid r) as [f|]; [|done]. cbn [res_bind] in *. rewrite Eps. cbn [res_bind].
    set (r' := lr_set_forward _ _ _). eexists _, false. split; [done|]. left. split; [done|].
    apply (post_buffer _ r'); try done.
    + destruct access_r as (n0 & ra & rb & ->). by exists 1%Z, ra, (rb ++ ps).
    + apply read_ok_buffer; try done.
      * apply (pre_seq _ _ K).
      * by apply fwd_in_app.
      * intros j Hj. simpl. rewrite fwd_at_app, HSBj by done. destruct (Hps j Hj) as [E|E]; rewrite E; [|done].
        by destruct (lc_byte c _).
      * unfold captured. simpl. destruct capt_parts as [-> ->]. done.
    + simpl. destruct capt_parts as [_ ->]. rewrite (pr_early _ _ K). by intros [?|?].
  - destruct (ca_bankConflict ans).
    + rewrite setReplay_ok by done. rewrite andb_false_r. cbn [res_bind]. eexists _, _. split; [done|].
      right. left. eauto.
    + cbn [negb andb res_bind] in *. rewrite andb_true_r.
      destruct (if ca_available ans then ca_refused ans else None) as [[]|];
        cbn [res_bind]; rewrite ?setReplay_ok by done; cbn [res_bind];
        (eexists _, _; split; [done|]); try (right; left; eexists; split; [done|]; tauto); by right; right.
Qed.

End Cache.

(** [read_cache] from a load that no store of the queue touches. *)
Lemma read_cache_spec e i r ans :
  pre e i → mi_saved i = Some r → lr_SQforward r = [] → fwd_in (len q) (lr_SBforward r) →
  (∀ j, j < len q → fwd_at (lr_SBforward r) j = lc_byte c (lo q + Z.of_nat j)%Z) →
  (∃ j, j < len q ∧ lc_byte c (lo q + Z.of_nat j)%Z = None) →
  noknown acc (lc_older c) q →
  ∃ u1 e1 i1 blk, read_cache P sb bus (lqp u p e) idx ans = Ok (lqp u1 p e1, false, blk) ∧ post u1 e1 i1.
Proof.
  intros K Hr HSQ HSBin HSBj Hpart HN. pose proof (pre_seq _ _ K) as Eq.
  pose proof (access_r e i r K Hr) as Hsa.
  unfold read_cache. rewrite (lq_get_lqp u p e i) by (done || apply K). cbn [res_bind].
  rewrite Hr. cbn [get_at res_bind].
  destruct (alloc_memData_fields i r) as (d & Ed & Hd). rewrite Ed.
  set (i1 := mi_set_memData i (Some d)). change (mi_pending i1) with (mi_pending i).
  assert (length d = len q) as Hlen.
  { rewrite <- Eq. apply (alloc_memData_len i r d); [apply K|by rewrite Eq|]. by rewrite Ed. }
  assert (lr_numOutstanding r = 0%Z) as Hout by (apply (pr_sent _ _ K); [apply K|done]).
  destruct (capt_parts e i K) as [Hhit Hfull].
  destruct (mi_pending i) eqn:Hpend.
  { rewrite lq_put_lqp by done. cbn [res_bind]. eexists u, _, (setWakeUpEarly i1), false. split; [done|].
    apply (post_buffer e i d K Hd Hlen _ r); try done. apply read_ok_buffer; try done.
    unfold captured. simpl. by rewrite Hhit, Hfull. }
  change (mi_seqNum i1) with (mi_seqNum i). rewrite Eq.
  destruct (bool_decide (is_Some (bus !! q))) eqn:Hb.
  { apply bool_decide_eq_true in Hb as [x Hx].
    change (cq_capacity (lu_LQ (lqp u p e))) with (cq_capacity (lu_LQ u)).
    rewrite (proj2 (Z.ltb_ge _ _)) by done. cbn [panic_if res_bind].
    rewrite lq_put_lqp by done. cbn [res_bind]. eexists u, _, (setFullForward i1), false. split; [done|].
    apply (post_buffer e i d K Hd Hlen _ r); try done. apply read_ok_buffer; try done.
    intros _ j Hj _. rewrite <- Hbus in Hx.
    destruct (pr_bus _ _ K (pr_exec _ _ K) x Hx) as (_ & d' & Hd' & Hjd). rewrite Eq in Hjd.
    exists d. split; [done|]. rewrite (Hd _ Hd'). by apply Hjd. }
  assert (lr_isSplit r = false) as ->.
  { destruct Hsa as (n0 & ra & rb & ->). apply (pl_split _ _ _ _ _ _ (Hplain q)). }
  change (lu_lsqID (lqp u p e)) with (lu_lsqID u). rewrite Hid.
  pose proof (send_spec e i r ans d K Hr HSQ HSBin HSBj Hpart HN Hd Hlen) as Hs. fold i1 in Hs.
  destruct Hs as (i2 & blk & -> & Hcase).
  cbn [res_bind fst snd]. assert (mi_replay i1 = None) as Hrep by apply K.
  destruct Hcase as [[Hp Hpost]|[(t & -> & Ht)|Ei2]]; [| |subst i2].
  - rewrite Hp. cbn [negb andb]. rewrite lq_put_lqp by done. cbn [res_bind]. eauto 10.
  - set (i2 := set_replayType i1 (Some t)).
    assert (∀ x, x && negb (needs i2 BankConflictReplay) && negb (needs i2 MshrArbFailReplay) &&
      negb (needs i2 MshrAliasFailReplay) && negb (needs i2 HitInWriteBufferReplay) = false) as X.
    { intros x. unfold i2. destruct x, Ht as [Ht|[Ht|[Ht|Ht]]]; rewrite Ht; reflexivity. }
    rewrite X.
    rewrite lq_put_lqp by done. cbn [res_bind]. eexists u, _, _, blk. split; [done|].
    apply (post_replay e i t d None K Hd Hlen); intros ->; intuition congruence.
  - unfold needs. rewrite Hrep. change (mi_pending i1) with (mi_pending i). rewrite Hpend. simpl.
    rewrite setReplay_ok by done. cbn [res_bind]. rewrite lq_put_lqp by done. cbn [res_bind].
    eexists (emit u _), _, _, blk. split; [done|].
    by apply (post_replay e i CacheBlockedReplay d (Some _) K Hd Hlen).
Qed.

(** ** The whole read *)

Section Search.

Local Notation n := (Z.to_nat (mi_sqIt i0 - cq_head (lu_SQ u))).
Hypothesis HwfS : cq_wf (lu_SQ u).
Hypothesis Hwb : lu_storeWBIt u = cq_head (lu_SQ u).
Hypothesis Hit : (cq_head (lu_SQ u) ≤ mi_sqIt i0 ≤ cq_head (lu_SQ u) + cq_size (lu_SQ u))%Z.
Hypothesis Hst : ∀ p e, cq_list (lu_SQ u) !! p = Some e → p < n →
  ∃ i, st_ok acc sdata maxData (cq_head (lu_SQ u) + Z.of_nat p) e i ∧ (mi_seqNum i < q)%Z.
Hypothesis Holder : lc_older c = take n (map ast (cq_list (lu_SQ u))).
Hypothesis Hstall : lu_stalled u = true → ∃ l, ∀ e, lq_get (lqp u p e) (lu_stallingLoadIdx u) = Ok l.

Lemma post_stall e i st o :
  pre e i → (st < q)%Z → ∀ stalled,
  let i' := mi_set_valid (set_replayType i (Some RescheduleReplay)) false false None in
  post (emit (if stalled : bool then set_stall u true st idx else u) o)
    (lqe_forget (lqe_with_inst e (set_replayType i (Some RescheduleReplay)))
       (set_replayType i (Some RescheduleReplay)) true) i'.
Proof.
  intros K Hlt stalled i'. pose proof (post_forget e i RescheduleReplay true o K ltac:(done) ltac:(done)) as X.
  destruct stalled; [|done]. destruct X. split; try done. right. done.
Qed.

(** The load with the packets of its saved request replaced. *)
Lemma pre_saved e i r sqf sbf :
  pre e i → mi_saved i = Some r →
  let i' := mi_set_saved i (Some (lr_set_forward r sqf sbf)) in pre (lqe_with_inst e i') i'.
Proof.
  intros K Hr i'. pose proof (pre_seq _ _ K) as Eq. pose proof (access_r e i r K Hr) as Hsa.
  split; try apply K.
  - apply (core_upd idx e i); try done; [apply K| |apply K].
    intros r0 [= <-]. rewrite Eq. destruct Hsa as (n0 & ra & rb & ->). by exists n0, sqf, sbf.
  - intros r0 Hv [= <-]. apply (pr_sent _ _ K r); [apply K|done].
Qed.

(** All the bytes are forwarded. *)
Lemma post_full e i r sqf sbf :
  pre e i → mi_saved i = Some r → 
  let r' := lr_set_forward r sqf sbf in
  (∀ i', mi_seqNum i' = q → read_ok acc sdata c i' r') →
  let i' := setFullForward (alloc_memData (mi_set_saved i (Some r')) r) in
  post u (lqe_with_inst e i') i'.
Proof.
  intros K Hr r' Hro i'. pose proof (pre_seq _ _ K) as Eq. pose proof (access_r e i r K Hr) as Hsa.
  destruct (alloc_memData_fields (mi_set_saved i (Some r')) r) as (d & Ed & Hd).
  assert (length d = len q) as Hlen.
  { rewrite <- Eq. apply (alloc_memData_len (mi_set_saved i (Some r')) r d); [apply K|by rewrite <- Eq in Hsa|].
    by rewrite Ed. }
  unfold i'. rewrite Ed. apply (post_buffer e i d K Hd Hlen _ r'); try done.
  - destruct Hsa as (n0 & ra & rb & ->). by exists n0, sqf, sbf.
  - by apply Hro.
  - intros _. apply (pr_sent _ _ K r); [apply K|done].
Qed.

(** No store of the queue touches the load. *)
Lemma read_none e i r ans :
  pre e i → mi_saved i = Some r → lr_SQforward r = [] → lr_SBforward r = [] → noknown acc (lc_older c) q →
  ∃ u1 e1 i1 blk,
    (let! f := sbuffer_forward P sb tid r in
     match f with
     | Some (ps, full) =>
         let i := mi_set_saved i (Some (lr_set_forward r (lr_SQforward r) ps)) in
         if full : bool then
           let! u := lq_put (lqp u p e) idx (setFullForward (alloc_memData i r)) in Ok (u, false, false)
         else let! u := lq_put (lqp u p e) idx i in read_cache P sb bus u idx ans
     | None => read_cache P sb bus (lqp u p e) idx ans
     end) = Ok (lqp u1 p e1, false, blk) ∧ post u1 e1 i1.
Proof.
  intros K Hr HSQ HSB0 HN. pose proof (access_r e i r K Hr) as Hsa.
  destruct (sbuffer_forward_spec P SP T tid va acc sdata maxData PO Hline Htid Hplain b q r HSB Hsa)
    as (f & -> & Hf). cbn [res_bind]. destruct f as [[ps full]|].
  - destruct Hf as (Hin & Hj & Hfull). setoid_rewrite <- Hbyte in Hj. setoid_rewrite <- Hbyte in Hfull.
    rewrite HSQ. cbn zeta. destruct full; rewrite lq_put_lqp by done; cbn [res_bind].
    + eexists u, _, _, false. split; [done|]. apply (post_full e i r [] ps K Hr). intros i' Ei.
      apply read_ok_buffer; try done. intros _ j Hjl E. destruct (proj1 Hfull eq_refl j Hjl). congruence.
    + apply (read_cache_spec _ (mi_set_saved i (Some (lr_set_forward r [] ps))) (lr_set_forward r [] ps)); try done.
      * by apply pre_saved.
      * destruct (decide (Exists (λ j, lc_byte c (lo q + Z.of_nat j)%Z = None) (seq 0 (len q)))) as [Ex|Nx].
        -- apply Exists_exists in Ex as (j & ?%elem_of_seq & Hn). exists j. split; [lia|done].
        -- exfalso. enough (false = true) by done. apply Hfull. intros j Hjl.
           destruct (lc_byte c _) eqn:E; [done|]. exfalso. apply Nx, Exists_exists. exists j. split; [|done].
           apply elem_of_seq. lia.
  - apply (read_cache_spec e i r); try done.
    + rewrite HSB0. intros x Hx. by apply elem_of_nil in Hx.
    + intros j Hjl. rewrite HSB0, Hbyte. by rewrite Hf.
    + exists 0. pose proof (sh_size _ _ _ (pl_shape _ _ _ _ _ _ (Hplain q))). unfold a_len.
      split; [lia|]. rewrite Hbyte. apply Hf. unfold a_len. lia.
Qed.

Lemma read_search_spec e i r ans :
  pre e i → mi_saved i = Some r → lr_SQforward r = [] → lr_SBforward r = [] →
  ∃ u1 e1 i1 blk, read_search P sb bus (lqp u p e) idx ans = Ok (lqp u1 p e1, false, blk) ∧ post u1 e1 i1.
Proof.
  intros K Hr HSQ HSB0. pose proof (pre_seq _ _ K) as Eq. pose proof (access_r e i r K Hr) as Hsa.
  destruct (pr_id _ _ K) as (Est & Esq & _). unfold read_search.
  rewrite (lq_get_lqp u p e i) by (done || apply K). cbn [res_bind]. rewrite Hr. cbn [get_at res_bind].
  change (lu_storeWBIt (lqp u p e)) with (lu_storeWBIt u). rewrite Hwb, Esq, Eq.
  rewrite (proj2 (Z.ltb_ge _ _)) by lia. cbn [panic_if res_bind].
  destruct (lk_static _ _ _ _ (pr_core _ _ K)) as (_ & _ & ->).
  destruct (sq_search_spec P SP T tid va acc sdata maxData PO Hline Htid Hplain (lqp u p e) q r (lc_base c) n HwfS Hsa)
    as (s & Es & Hs); [|done|].
  { change (lu_SQ (lqp u p e)) with (lu_SQ u). pose proof (cq_list_length _ HwfS). lia. }
  change (lu_SQ (lqp u p e)) with (lu_SQ u) in *.
  replace (cq_head (lu_SQ u) + Z.of_nat n)%Z with (mi_sqIt i0) in Es by lia.
  rewrite Es. cbn [res_bind]. rewrite <- Holder in Hs.
  pose proof (pr_replay _ _ K) as Hrep. destruct s as [|st|ps|st]; simpl in Hs.
  - assert (lr_isSplit r = false) as ->.
    { destruct Hsa as (n0 & ra & rb & ->). apply (pl_split _ _ _ _ _ _ (Hplain q)). }
    cbn [negb andb]. change (lu_lsqID (lqp u p e)) with (lu_lsqID u). rewrite Hid. by apply read_none.
  - rewrite setReplay_ok by done. cbn [res_bind]. rewrite lq_put_lqp by done. cbn [res_bind].
    change (emit (lqp u p ?x) ?o) with (lqp (emit u o) p x).
    rewrite (loadSetReplay_lqp (emit u _) p _ (set_replayType i (Some STLFReplay))) by done. cbn [res_bind].
    eexists _, _, _, false. split; [done|]. by apply (post_forget e i STLFReplay true _ K).
  - destruct Hs as (Hin & w & Hw & Hj). rewrite lq_put_lqp by done. cbn [res_bind].
    eexists u, _, _, false. split; [done|]. rewrite alloc_memData_saved, HSB0.
    apply (post_full e i r ps [] K Hr). intros i' Ei. unfold read_ok. rewrite Ei. simpl.
    split; [intros x Hx; by apply elem_of_nil in Hx|]. split; [done|]. exists w. split; [done|].
    intros j Hjl. by destruct (Hj j Hjl) as (x & -> & ?).
  - assert (∃ o, (if lu_stalled u then let! l := lq_get (lqp u p e) (lu_stallingLoadIdx u) in
      Ok (q <? mi_seqNum l)%Z else Ok true) = Ok o) as (o & Ho).
    { destruct (lu_stalled u); [|by eexists]. destruct (Hstall eq_refl) as (l & ->). by eexists. }
    change (lu_stalled (lqp u p e)) with (lu_stalled u).
    change (lu_stallingLoadIdx (lqp u p e)) with (lu_stallingLoadIdx u).
    rewrite Ho. cbn [res_bind]. rewrite setReplay_ok by done. cbn [res_bind].
    set (u' := if o then set_stall u true st idx else u).
    assert ((if o then set_stall (lqp u p e) true st idx else lqp u p e) = lqp u' p e) as ->.
    { unfold u'. by destruct o. }
    change (emit (lqp u' p ?x) ?o) with (lqp (emit u' o) p x).
    assert (idx = cq_head (lu_LQ (emit u' (OutReschedule q))) + Z.of_nat p)%Z as Eidx by (unfold u'; by destruct o).
    assert (lq_has (emit u' (OutReschedule q)) p) as Hhas' by (unfold u'; by destruct o).
    change (mi_seqNum (set_replayType (mi_set_valid i false false None) (Some RescheduleReplay)))
      with (mi_seqNum i). rewrite Eq, Eidx.
    rewrite lq_put_lqp by done. cbn [res_bind]. rewrite lq_setRequest_lqp by done. cbn [res_bind].
    eexists _, _, _, false. split; [done|]. apply (post_stall e i st _ K Hs).
Qed.

End Search.
End Load.
(** What the read relies on. *)
Record read_env (u : LSQUnit) (p : nat) (i0 : MInst) (b : SbSys C) (bus : gmap Z Z) (c : LCtx) : Prop := {
  re_has : lq_has u p;
  re_id : lu_lsqID u = tid;
  re_sb : sys_inv SP T (own tid) va b;
  re_byte a : lc_byte c a = sb_byte k (sl_sb (ss_lsq b)) tid a;
  re_mem a : lc_base c a = match lc_byte c a with Some x => x | None => lc_mem c a end;
  re_bus : lc_bus c = bus !! mi_seqNum i0;
  re_busSize : (Z.of_nat (size bus) ≤ cq_capacity (lu_LQ u))%Z;
  re_wfS : cq_wf (lu_SQ u);
  re_wb : lu_storeWBIt u = cq_head (lu_SQ u);
  re_it : (cq_head (lu_SQ u) ≤ mi_sqIt i0 ≤ cq_head (lu_SQ u) + cq_size (lu_SQ u))%Z;
  re_st p e : cq_list (lu_SQ u) !! p = Some e → p < Z.to_nat (mi_sqIt i0 - cq_head (lu_SQ u)) →
    ∃ i, st_ok acc sdata maxData (cq_head (lu_SQ u) + Z.of_nat p) e i ∧ (mi_seqNum i < mi_seqNum i0)%Z;
  re_older : lc_older c = take (Z.to_nat (mi_sqIt i0 - cq_head (lu_SQ u))) (map ast (cq_list (lu_SQ u)));
  re_stall : lu_stalled u = true → ∃ l, ∀ e, lq_get (lqp u p e) (lu_stallingLoadIdx u) = Ok l
}.

Section Read.

Context (u : LSQUnit) (p : nat) (i0 : MInst) (b : SbSys C) (bus : gmap Z Z) (c : LCtx).
Hypothesis ENV : read_env u p i0 b bus c.

Local Notation idx := (cq_head (lu_LQ u) + Z.of_nat p)%Z.
Local Notation sb := (sl_sb (ss_lsq b)).
Local Notation q := (mi_seqNum i0).
Local Notation pre := (pre u p i0 c).
Local Notation post := (post u p i0 c).

Lemma pre_request e i r : pre e i → mi_saved i = Some r → pre (lqe_with_request e (Some r)) i.
Proof.
  intros K Hr. pose proof (lk_saved _ _ _ _ (pr_core _ _ _ _ _ _ K) r Hr) as (n0 & ra & rb & Er).
  destruct K. split; try done. destruct pr_core0. split; try done. intros Hv. simpl.
  destruct (lk_addr Hv) as (? & ? & ? & _). split_and!; try done. exists r. split; [done|].
  rewrite Er. apply (pl_reqs _ _ _ _ _ _ (Hplain _)).
Qed.

Lemma mdp_replay_spec e i o :
  pre e i →
  ∃ u1 e1 i1, mdp_replay (lqp u p e) idx o = Ok (lqp u1 p e1, false, false) ∧ post u1 e1 i1.
Proof.
  intros K. pose proof (re_has _ _ _ _ _ _ ENV) as Hhas. unfold mdp_replay.
  rewrite (lq_get_lqp u p e i) by (done || apply K). cbn [res_bind].
  rewrite setReplay_ok by apply K. cbn [res_bind]. rewrite lq_put_lqp by done. cbn [res_bind].
  rewrite (loadSetReplay_lqp u p _ (set_replayType i (Some MdpAddrReplay))) by done. cbn [res_bind].
  eexists (emit u o), _, _. split; [done|]. by apply (post_forget u p i0 c e i MdpAddrReplay true o K).
Qed.

Lemma lsq_read_spec e i r ans :
  pre e i → mi_saved i = Some r →
  ∃ u1 e1 i1 blk, lsq_read P sb bus (lqp u p e) idx ans = Ok (lqp u1 p e1, false, blk) ∧ post u1 e1 i1.
Proof.
  intros K Hr. pose proof (pre_request e i r K Hr) as K'. pose proof (re_has _ _ _ _ _ _ ENV) as Hhas.
  pose proof (pre_seq _ _ _ _ _ _ K) as Eq.
  assert (lr_flags r = RFlags false false false false false false false false false) as Hfl.
  { destruct (lk_saved _ _ _ _ (pr_core _ _ _ _ _ _ K) r Hr) as (n0 & ra & rb & ->).
    apply (pl_flags _ _ _ _ _ _ (Hplain _)). }
  unfold lsq_read. rewrite (lq_get_lqp u p e i) by (done || apply K). cbn [res_bind]. rewrite Hr.
  cbn [get_at res_bind]. rewrite lq_setRequest_lqp by done. cbn [res_bind].
  rewrite (pr_exec _ _ _ _ _ _ K), Hfl. cbn [negb assert_ res_bind rf_isStrictlyOrdered andb rf_isLLSC rf_isLocalAccess].
  set (e1 := lqe_with_request e (Some r)).
  destruct (_ && ms_mdpStrictWait _ && _).
  { destruct (mdp_replay_spec e1 i (OutMdpStrict (mi_seqNum i) (if (mi_sqIt i =? 0)%Z then 0%Z else (mi_sqIt i - 1)%Z)) K')
      as (u1 & e2 & i1 & -> & X). by exists u1, e2, i1, false. }
  destruct (_ && negb (ms_mdpStrictWait _) && _).
  { edestruct (mdp_replay_spec e1 i) as (u1 & e2 & i1 & -> & X); [done|]. by exists u1, e2, i1, false. }
  change (set_squashMark (lqp u p e1) false) with (lqp (set_squashMark u false) p e1).
  rewrite (lq_put_lqp (set_squashMark u false) p) by done. cbn [res_bind]. destruct ENV.
  pose proof (pre_saved u p i0 c e1 i r [] [] K' Hr) as K2.
  destruct (read_search_spec (set_squashMark u false) p i0 b bus c) with
    (e := lqe_with_inst e1 (mi_set_saved i (Some (lr_set_forward r [] []))))
    (i := mi_set_saved i (Some (lr_set_forward r [] []))) (r := lr_set_forward r [] []) (ans := ans)
    as (u1 & e2 & i1 & blk & E & X); try done; [by destruct K2|].
  exists u1, e2, i1, blk. split; [done|]. destruct X. split; try done. by destruct po_same0.
Qed.

End Read.

End ReadOk.
