(* ===== verification/LsqCheck.v ===== *)
(** The checks of memory order: a store finds the younger loads that it touches, and a
    load only marks the younger loads. *)
From Stdlib Require Import Sorted.
From stdpp Require Import gmap.
From S2P Require Import Prelude CircularBuffer Bytes StoreBuffer StoreBufferInv StoreBufferView.
From S2P Require Import StoreBufferLsq StoreBufferSteps StoreBufferProps.
From S2P Require Import CircularQueue LsqUnit LsqRead LsqPipe LsqOffload LsqSys LsqInv LsqUpd.

(** ** The check of a store *)

(** The loads that the check of a store looks at. *)
Definition exposed (i : MInst) : bool :=
  mi_effAddrValid i && negb (mp_skipRawCheck (mi_pipe i)) && negb (needs i NukeReplay).

Section Check.

Context (acc : Z → LSQRequest) (sdata : Z → list Z) (shift : Z).
Hypothesis Hshape : ∀ s, acc_shape acc sdata s.
Hypothesis Hshift : (0 ≤ shift)%Z.

Local Notation req s := (lr_mainReq (acc s)).

(** Accesses on different granules are disjoint. *)
Lemma no_overlap s l : part_overlap shift (req s) (req l) = false → disjoint_acc acc l s.
Proof.
  unfold part_overlap, disjoint_acc. destruct (Hshape s) as [S1 S2 S3 _ _], (Hshape l) as [L1 L2 L3 _ _].
  unfold a_lo, a_size in *. rewrite !u64_small by (unfold in_u; lia). rewrite !Z.shiftr_div_pow2 by done.
  assert (∀ x y, x / 2 ^ shift > y / 2 ^ shift → x > y)%Z as X.
  { intros x y Hxy. destruct (Z.lt_ge_cases y x) as [|Hle]; [lia|].
    pose proof (Z.div_le_mono x y (2 ^ shift) ltac:(lia) Hle). lia. }
  intros [E%Z.leb_gt|E%Z.leb_gt]%andb_false_iff.
  - left. enough (mr_paddr (req l) > mr_paddr (req s) + mr_size (req s) - 1)%Z by lia. apply X. lia.
  - right. enough (mr_paddr (req s) > mr_paddr (req l) + mr_size (req l) - 1)%Z by lia. apply X. lia.
Qed.

Context (u : LSQUnit).
Hypothesis W : cq_wf (lu_LQ u).
Hypothesis Hviol : lu_memDepViolator u = None.
Hypothesis Hld : ∀ p e, cq_list (lu_LQ u) !! p = Some e → ∃ i, ld_core acc (cq_head (lu_LQ u) + Z.of_nat p) e i.
Hypothesis Hsort : ∀ p p' e e' i i',
  cq_list (lu_LQ u) !! p = Some e → cq_list (lu_LQ u) !! p' = Some e' → lqe_inst e = Some i →
  lqe_inst e' = Some i' → p < p' → (mi_seqNum i < mi_seqNum i')%Z.

(** The loads from [p] on that the check of [s] passes over: all of them, or those that
    are older than the violator. *)
Definition passed (s : Z) (p : nat) (viol : option Z) : Prop :=
  ∀ p' e i, p ≤ p' → cq_list (lu_LQ u) !! p' = Some e → lqe_inst e = Some i → exposed i = true →
    match viol with Some v => (mi_seqNum i < v)%Z | None => True end → disjoint_acc acc (mi_seqNum i) s.

Lemma cv_store_spec s n p :
  p + n = length (cq_list (lu_LQ u)) →
  ∃ v f, cv_loads shift n (cq_head (lu_LQ u) + Z.of_nat p) u false (req s) = Ok (set_violator u v, f) ∧
    (v = None ↔ f = None) ∧ passed s p v.
Proof.
  revert p. induction n as [|n IH]; intros p Hn.
  { exists None, None. split; [|split; [done|]].
    - simpl. do 2 f_equal. rewrite <- Hviol. by destruct u.
    - intros p' e i Hp Hl. apply lookup_lt_Some in Hl. lia. }
  destruct (lookup_lt_is_Some_2 (cq_list (lu_LQ u)) p) as [e He]; [lia|].
  destruct (Hld p e He) as (i & K). pose proof (lk_inst _ _ _ _ K) as Hi.
  destruct (lk_flags _ _ _ _ K) as (Hso & _ & _).
  simpl. rewrite (cq_at_lookup _ _ _ W He). cbn [res_bind]. unfold lq_inst. rewrite Hi. cbn [get_at res_bind].
  rewrite Hso, orb_false_r.
  (* passing over the load *)
  assert ((exposed i = true → disjoint_acc acc (mi_seqNum i) s) → ∃ v f,
    cv_loads shift n (cq_head (lu_LQ u) + Z.of_nat p + 1) u false (req s) = Ok (set_violator u v, f) ∧
    (v = None ↔ f = None) ∧ passed s p v) as Hnext.
  { intros Hd. destruct (IH (S p)) as (v & f & E & Hv & Hpass); [lia|]. exists v, f.
    replace (cq_head (lu_LQ u) + Z.of_nat p + 1)%Z with (cq_head (lu_LQ u) + Z.of_nat (S p))%Z by lia.
    split; [done|]. split; [done|]. intros p' e' i' Hp' Hl Hi' Hex Hlt.
    destruct (decide (p' = p)) as [Heq|Hne]; [subst p'|apply (Hpass p' e' i'); (done || lia)].
    assert (e' = e) as -> by congruence. assert (i' = i) as -> by congruence. by apply Hd. }
  destruct (mi_effAddrValid i) eqn:Hva; simpl; [|apply Hnext; unfold exposed; by rewrite Hva].
  destruct (lk_addr _ _ _ _ K Hva) as (_ & _ & _ & r & Er & Ereq). rewrite Er. cbn [get_at res_bind].
  rewrite Ereq, Hviol. simpl. rewrite orb_false_r.
  destruct (part_overlap _ _ _) eqn:Hov; [|apply Hnext; intros _; by apply no_overlap].
  destruct (needs i NukeReplay) eqn:Hnk; [apply Hnext; unfold exposed; by rewrite Hnk, andb_false_r|].
  destruct (mp_skipRawCheck (mi_pipe i)) eqn:Hsk; [apply Hnext; unfold exposed; by rewrite Hsk, andb_false_r|].
  eexists (Some _), _. split; [done|]. split; [done|]. intros p' e' i' Hp' Hl Hi' Hex Hlt. exfalso.
  destruct (decide (p' = p)) as [Heq|Hne].
  - subst p'. assert (e' = e) as -> by congruence. assert (i' = i) as -> by congruence. lia.
  - pose proof (Hsort p p' e e' i i' He Hl Hi Hi' ltac:(lia)). lia.
Qed.

(** [checkViolations] of a store with one part, from the load at the position [p] on. *)
Lemma check_store_spec s p :
  p ≤ length (cq_list (lu_LQ u)) →
  ∃ v f, checkViolations shift (cq_head (lu_LQ u) + Z.of_nat p) u false [req s] = Ok (set_violator u v, f) ∧
    passed s p v.
Proof.
  intros Hp. simpl. rewrite cq_end_eq by done. pose proof (cq_list_length _ W).
  replace (Z.to_nat (cq_head (lu_LQ u) + cq_size (lu_LQ u) - (cq_head (lu_LQ u) + Z.of_nat p)))
    with (length (cq_list (lu_LQ u)) - p) by lia.
  destruct (cv_store_spec s (length (cq_list (lu_LQ u)) - p) p) as (v & f & -> & Hv & Hpass); [lia|].
  cbn [res_bind fst snd]. destruct f as [f|]; [by exists v, f|]. exists v, false. done.
Qed.

End Check.

(** ** The check of a load *)

Definition mark (e e' : LQEntry) : Prop :=
  e' = e ∨ ∃ i, lqe_inst e = Some i ∧ e' = lqe_with_inst e (mi_set_order i (mi_hitExternalSnoop i) true).

Record marked (u u' : LSQUnit) : Prop := {
  mk_eq : u' = set_LQ u (lu_LQ u');
  mk_wf : cq_wf (lu_LQ u');
  mk_head : cq_head (lu_LQ u') = cq_head (lu_LQ u);
  mk_size : cq_size (lu_LQ u') = cq_size (lu_LQ u);
  mk_cap : cq_capacity (lu_LQ u') = cq_capacity (lu_LQ u);
  mk_out Q : cq_outside Q (lu_LQ u) → cq_outside Q (lu_LQ u');
  mk_list : Forall2 mark (cq_list (lu_LQ u)) (cq_list (lu_LQ u'))
}.

#[export] Instance mark_trans : Transitive mark.
Proof.
  intros e1 e2 e3 [->|(i & Hi & ->)]; [done|]. intros [->|(j & Hj & ->)]; [by right; exists i|].
  simpl in Hj. injection Hj as <-. right. by exists i.
Qed.

Lemma marked_refl u : cq_wf (lu_LQ u) → marked u u.
Proof.
  intros W. split; try done; [by destruct u|]. apply Forall2_same_length_lookup_2; [done|].
  intros i x y Hx Hy. left. congruence.
Qed.

Lemma marked_trans u1 u2 u3 : marked u1 u2 → marked u2 u3 → marked u1 u3.
Proof.
  intros [] []. split; try congruence; auto.
  - by rewrite mk_eq1, mk_eq0.
  - apply (transitivity (R := Forall2 mark) (y := cq_list (lu_LQ u2))); done.
Qed.

(** Writing one entry in both. *)
Lemma marked_lqp u u' p e e' : lq_has u p → marked u u' → mark e e' → marked (lqp u p e) (lqp u' p e').
Proof.
  intros [Wu Hp] M Hm. pose proof (mk_wf _ _ M) as W'.
  assert (p < length (cq_list (lu_LQ u'))) as Hp' by (by rewrite <- (Forall2_length _ _ _ (mk_list _ _ M))).
  destruct (cq_put_upd (lu_LQ u) p e Wu Hp) as (_ & W1 & L1).
  destruct (cq_put_upd (lu_LQ u') p e' W' Hp') as (_ & W2 & L2).
  split; try apply M; try done.
  - unfold lqp. simpl. by rewrite (mk_eq _ _ M) at 1.
  - intros Q HQ. apply cq_outside_upd; [done|done|]. apply (mk_out _ _ M). intros j a Hj Ha.
    apply (HQ j a); [done|]. simpl. change (cq_slot (cq_upd (lu_LQ u) p e) j) with (cq_slot (lu_LQ u) j).
    rewrite list_lookup_insert_ne; [done|]. pose proof (cq_list_length _ Wu). pose proof (cw_size _ Wu).
    intros E. apply cq_slot_inj in E; [lia|done|lia|lia].
  - simpl. rewrite L1, L2. apply Forall2_insert; [apply M|done].
Qed.

(** The entry of [u'] itself: one mark. *)
Lemma marked_one u p e i :
  cq_wf (lu_LQ u) → cq_list (lu_LQ u) !! p = Some e → lqe_inst e = Some i →
  marked u (lqp u p (lqe_with_inst e (mi_set_order i (mi_hitExternalSnoop i) true))).
Proof.
  intros W Hp Hi. rewrite <- (lqp_id u p e W Hp) at 1. apply marked_lqp; [|by apply marked_refl|].
  - split; [done|by eapply lookup_lt_Some].
  - right. by exists i.
Qed.

(** [checkViolations] of a load: nothing but marks, from its position on. *)
Lemma cv_load_spec acc shift req0 n u p :
  cq_wf (lu_LQ u) → p + n = length (cq_list (lu_LQ u)) →
  (∀ p' e, p ≤ p' → cq_list (lu_LQ u) !! p' = Some e → ∃ i, ld_core acc (cq_head (lu_LQ u) + Z.of_nat p') e i) →
  ∃ u', cv_loads shift n (cq_head (lu_LQ u) + Z.of_nat p) u true req0 = Ok (u', None) ∧ marked u u' ∧
    ∀ p', p' < p → cq_list (lu_LQ u') !! p' = cq_list (lu_LQ u) !! p'.
Proof.
  revert u p. induction n as [|n IH]; intros u p W Hn Hld.
  { exists u. split; [done|]. split; [by apply marked_refl|done]. }
  destruct (lookup_lt_is_Some_2 (cq_list (lu_LQ u)) p) as [e He]; [lia|].
  destruct (Hld p e) as (i & K); [done|done|]. pose proof (lk_inst _ _ _ _ K) as Hi.
  destruct (lk_flags _ _ _ _ K) as (Hso & Hsn & _).
  simpl. rewrite (cq_at_lookup _ _ _ W He). cbn [res_bind]. unfold lq_inst. rewrite Hi. cbn [get_at res_bind].
  rewrite Hso, orb_false_r.
  replace (cq_head (lu_LQ u) + Z.of_nat p + 1)%Z with (cq_head (lu_LQ u) + Z.of_nat (S p))%Z by lia.
  assert (∃ u', cv_loads shift n (cq_head (lu_LQ u) + Z.of_nat (S p)) u true req0 = Ok (u', None) ∧ marked u u' ∧
    ∀ p', p' < p → cq_list (lu_LQ u') !! p' = cq_list (lu_LQ u) !! p') as Hnext.
  { destruct (IH u (S p)) as (u' & E & M & Hlow); [done|lia|intros; apply Hld; [lia|done]|].
    exists u'. split_and!; [done|done|]. intros; apply Hlow; lia. }
  destruct (mi_effAddrValid i) eqn:Hva; simpl; [|done].
  destruct (lk_addr _ _ _ _ K Hva) as (_ & _ & _ & r & Er & Ereq). rewrite Er. cbn [get_at res_bind].
  destruct (existsb _ _); [|done]. rewrite Hsn. simpl. clear Hnext.
  assert (lq_has u p) as Hhas by (split; [done|lia]).
  pose proof (lq_put_lqp u p e (mi_set_order i (mi_hitExternalSnoop i) true) Hhas) as Eput.
  rewrite (lqp_id u p e W He), Hsn in Eput. rewrite Eput. cbn [res_bind].
  pose proof (marked_one u p e i W He Hi) as M1. rewrite Hsn in M1.
  set (u1 := lqp u p _) in *. pose proof (lqp_list u p (lqe_with_inst e (mi_set_order i false true)) Hhas) as L1.
  fold u1 in L1.
  destruct (IH u1 (S p)) as (u' & E & M & Hlow).
  - apply M1.
  - rewrite L1, length_insert. lia.
  - intros p' e' Hp'. rewrite L1, list_lookup_insert_ne by lia. intros Hl.
    change (cq_head (lu_LQ u1)) with (cq_head (lu_LQ u)). apply Hld; [lia|done].
  - exists u'. split; [done|]. split; [by eapply marked_trans|]. intros p' Hp'.
    rewrite Hlow, L1 by lia. apply list_lookup_insert_ne. lia.
Qed.

Lemma check_load_spec acc shift u p s :
  cq_wf (lu_LQ u) → p ≤ length (cq_list (lu_LQ u)) →
  (∀ p' e, p ≤ p' → cq_list (lu_LQ u) !! p' = Some e → ∃ i, ld_core acc (cq_head (lu_LQ u) + Z.of_nat p') e i) →
  ∃ u', checkViolations shift (cq_head (lu_LQ u) + Z.of_nat p) u true [lr_mainReq (acc s)] = Ok (u', false) ∧
    marked u u' ∧ ∀ p', p' < p → cq_list (lu_LQ u') !! p' = cq_list (lu_LQ u) !! p'.
Proof.
  intros W Hp Hld. simpl. rewrite cq_end_eq by done. pose proof (cq_list_length _ W).
  replace (Z.to_nat (cq_head (lu_LQ u) + cq_size (lu_LQ u) - (cq_head (lu_LQ u) + Z.of_nat p)))
    with (length (cq_list (lu_LQ u)) - p) by lia.
  destruct (cv_load_spec acc shift (lr_mainReq (acc s)) (length (cq_list (lu_LQ u)) - p) u p)
    as (u' & -> & M & Hlow); [done|lia|done|]. by exists u'.
Qed.

(** Marks keep the invariant. *)
Section Marked.

Context {C : Type} `{CircularBufferLaws C nat}.
Context (P : LsqParams) (SP : SbParams) (T : nat) (tid : Z) (va : Z → Z).
Context (acc : Z → LSQRequest) (sdata : Z → list Z) (maxData : nat) (m0 : memory).

Local Notation linv := (ls_inv P SP T tid va acc sdata maxData m0).
Implicit Types s : LSys C.

Lemma ld_step_mark s p e i e' :
  linv s → lq s !! p = Some e → lqe_inst e = Some i → mark e e' →
  ∃ i', lqe_inst e' = Some i' ∧ ld_step P SP tid acc sdata s p i e' i' ∧ mi_pipe i' = mi_pipe i ∧
        mi_executed i' = mi_executed i.
Proof.
  intros I Hp Hi [->|(j & Hj & ->)].
  - exists i. split; [done|]. split; [|done]. by eapply ld_step_refl.
  - assert (j = i) as -> by congruence. eexists. split; [done|]. split; [|done].
    destruct (ld_step_refl P SP T tid va acc sdata maxData m0 s p e i I Hp Hi) as [? K ? D B].
    split; [done| |done|exact D|exact B]. destruct K as [KC]. split; try done. destruct KC. by split.
Qed.

Lemma inv_marked s u' : linv s → marked (ls_u s) u' → linv (with_u s u').
Proof.
  intros I M. pose proof (iv_q _ _ _ _ _ _ _ _ _ _ I) as Q. pose proof (iv_u _ _ _ _ _ _ _ _ _ _ I) as U.
  rewrite (mk_eq _ _ M). set (u1 := set_LQ _ _).
  assert (∀ p e', cq_list (lu_LQ u') !! p = Some e' → ∃ e i i', lq s !! p = Some e ∧ lqe_inst e = Some i ∧
    lqe_inst e' = Some i' ∧ ld_step P SP tid acc sdata s p i e' i' ∧ mi_pipe i' = mi_pipe i ∧
    mi_executed i' = mi_executed i) as HS.
  { intros p e' He'. destruct (Forall2_lookup_r _ _ _ _ _ (mk_list _ _ M) He') as (e & He & Hm).
    destruct (qi_ld _ _ _ _ Q p e He) as (i & K). pose proof (lk_inst _ _ _ _ (lk_core _ _ _ _ K)) as Hi.
    destruct (ld_step_mark s p e i e' I He Hi Hm) as (i' & Hi' & S). by exists e, i, i'. }
  apply (inv_loads P SP T tid va acc sdata maxData m0 s u1 I); try apply U.
  - split; try done; try apply M; [apply Q|].
    intros p e' He'. destruct (HS p e' He') as (e & i & i' & X1 & X2 & X3 & X4 & _). by exists e, i, i'.
  - intros St. destruct (ui_stall _ _ _ U St) as (p & e & i & E1 & Hp & Hi & E2 & E3 & E4).
    destruct (Forall2_lookup_l _ _ _ _ _ (mk_list _ _ M) Hp) as (e' & He' & Hm).
    destruct (ld_step_mark s p e i e' I Hp Hi Hm) as (i' & Hi' & S & Ep & Ee). exists p, e', i'.
    unfold mi_stage. rewrite Ep, Ee. split_and!; try done.
    by rewrite (same_id_seq _ _ (lt_id _ _ _ _ _ _ _ _ _ _ S)).
  - intros x Hx. destruct (ui_refs _ _ _ U x Hx) as [Hle Hr]. split; [done|]. intros p e' i' He' Hi' Ex.
    destruct (HS p e' He') as (e & i & j & He & Hi & Hj & S & Ep & Ee). assert (j = i') as -> by congruence.
    destruct (lt_id _ _ _ _ _ _ _ _ _ _ S) as (X1 & _ & X2). unfold mi_stage, mi_replay. rewrite Ep, X2.
    apply (Hr p e i He Hi). unfold mi_seqNum in *. congruence.
Qed.

End Marked.
