(* ===== verification/LsqLoad.v ===== *)
(** The stages of a load keep the invariant. *)
From Stdlib Require Import Sorted.
From stdpp Require Import gmap.
From S2P Require Import Prelude CircularBuffer Bytes StoreBuffer StoreBufferInv StoreBufferView.
From S2P Require Import StoreBufferLsq StoreBufferSteps StoreBufferProps.
From S2P Require Import CircularQueue LsqUnit LsqRead LsqPipe LsqOffload LsqSys LsqInv LsqUpd LsqReadOk.
From S2P Require Import LsqCheck.

(** ** The pipelines *)

Lemma not_replays_now i : mi_replay i = None → replays_now i = false.
Proof. intros E. unfold replays_now, needs. by rewrite E. Qed.

Lemma no_replay i : mp_skipFollowing (mi_pipe i) = false → mi_replay i = None → replayOrSkipFollowingPipe i = false.
Proof. intros E1 E2. unfold replayOrSkipFollowingPipe. by rewrite E1, bool_decide_eq_false_2 by (rewrite E2; auto). Qed.

Lemma some_replay i : mi_replay i ≠ None → replayOrSkipFollowingPipe i = true.
Proof. intros E. unfold replayOrSkipFollowingPipe. rewrite (bool_decide_eq_true_2 _ E). apply orb_true_r. Qed.

Section Loads.

Context {C : Type} `{CircularBufferLaws C nat}.
Context (P : LsqParams) (SP : SbParams) (T : nat) (tid : Z) (va : Z → Z).
Context (acc : Z → LSQRequest) (sdata : Z → list Z) (maxData : nat) (m0 : memory).
Hypothesis PO : params_ok SP T.
Hypothesis Hline : lp_lineBits P = sp_lineBits SP.
Hypothesis Htid : (0 ≤ tid < Z.of_nat T)%Z.
Hypothesis Hplain : ∀ s, plain P va acc sdata maxData s.
Hypothesis Hmiss : lp_ldMissReplay P = true.

Local Notation k := (lp_lineBits P).
Local Notation lo := (a_lo acc).
Local Notation len := (a_len acc).
Local Notation linv := (ls_inv P SP T tid va acc sdata maxData m0).
Local Notation lctx := (lctx P SP tid).
Local Notation ld_step := (ld_step P SP tid acc sdata).

Section One.

Context (s : LSys C) (p : nat) (e : LQEntry) (i : MInst).
Hypothesis I : linv s.
Hypothesis Hp : lq s !! p = Some e.
Hypothesis Hi : lqe_inst e = Some i.

Local Notation u := (ls_u s).
Local Notation idx := (cq_head (lu_LQ (ls_u s)) + Z.of_nat p)%Z.
Local Notation sb := (sl_sb (ss_lsq (ls_sb s))).
Local Notation q := (mi_seqNum i).
Local Notation c := (lctx s i).

Lemma one_q : q_inv acc sdata maxData s.
Proof. apply I. Qed.
Lemma one_u : u_inv P tid s.
Proof. apply I. Qed.

Lemma one_ok : ld_ok acc idx e i.
Proof.
  destruct (qi_ld _ _ _ _ one_q p e Hp) as (j & K).
  assert (j = i) as -> by (pose proof (lk_inst _ _ _ _ (lk_core _ _ _ _ K)); congruence). done.
Qed.

Lemma one_core : ld_core acc idx e i.
Proof. apply one_ok. Qed.

Lemma one_has : lq_has u p.
Proof. split; [apply one_q|by eapply lookup_lt_Some]. Qed.

Lemma one_unit : lqp u p e = u.
Proof. apply lqp_id; [apply one_q|done]. Qed.

Lemma one_bus : ld_bus acc c i.
Proof. by apply (di_bus _ _ _ _ _ _ _ _ _ (iv_d _ _ _ _ _ _ _ _ _ _ I) p e). Qed.

Lemma one_data : active s q → ld_data acc sdata c i.
Proof. by apply (di_ld _ _ _ _ _ _ _ _ _ (iv_d _ _ _ _ _ _ _ _ _ _ I) p e). Qed.

(** The bytes behind the queue: the buffer, then the memory. *)
Lemma one_mem a : lc_base c a = match lc_byte c a with Some x => x | None => lc_mem c a end.
Proof. unfold LsqInv.lctx, base, sys_view, sb_view, own. simpl. by rewrite Hline. Qed.

(** A load in the pipeline is not in a queue of waiting loads, nor stalled. *)
Lemma staged_ref x : mi_stage i ≠ None → x ∈ ra_refs u → ld_seq x ≠ q.
Proof.
  intros Hs Hx E. destruct (ui_refs _ _ _ one_u x Hx) as [_ Hr].
  by destruct (Hr p e i Hp Hi ltac:(done)) as (_ & X & _).
Qed.

Lemma staged_stall : mi_stage i ≠ None → lu_stalled u = true → lu_stallingLoadIdx u ≠ idx.
Proof.
  intros Hs Hst E. destruct (ui_stall _ _ _ one_u Hst) as (p' & e' & i' & E' & Hp' & Hi' & X & _).
  assert (p' = p) as -> by lia. assert (e' = e) as -> by congruence. congruence.
Qed.

(** The stall fields after a step of the load. *)
Definition stall_case (u1 : LSQUnit) (i' : MInst) : Prop :=
  (lu_stalled u1 = lu_stalled u ∧ lu_stallingLoadIdx u1 = lu_stallingLoadIdx u ∧
     lu_stallingStoreIsn u1 = lu_stallingStoreIsn u) ∨
  (lu_stallingLoadIdx u1 = idx ∧ (lu_stallingStoreIsn u1 < q)%Z ∧ mi_stage i' = None ∧ mi_executed i' = false).

Lemma inv_staged u1 e' i' :
  mi_stage i ≠ None → u_same u u1 → ra_refs u1 = ra_refs u →
  length (lu_RARQueue u1) ≤ lp_maxRARQEntries P → length (lu_RAWQueue u1) ≤ lp_maxRAWQEntries P →
  stall_case u1 i' → ld_step s p i e' i' → linv (with_u s (lqp u1 p e')).
Proof.
  intros Hs US Er L1 L2 Hst S. apply (inv_load P SP T tid va acc sdata maxData m0 s u1 p e i e' i'); try done.
  - intros St. destruct Hst as [(E1 & E2 & E3)|(E1 & E2 & E3 & E4)].
    + right. rewrite E1 in St. split_and!; try done. by apply staged_stall.
    + left. rewrite (same_id_seq _ _ (lt_id _ _ _ _ _ _ _ _ _ _ S)). done.
  - split; rewrite Er; [apply one_u|]. intros x Hx. left. split; [by apply staged_ref|done].
Qed.

(** The same, when only outputs were added. *)
Lemma inv_quiet u1 e' i' :
  mi_stage i ≠ None → u_quiet u u1 → ld_step s p i e' i' → linv (with_u s (lqp u1 p e')).
Proof.
  intros Hs [] S. apply (inv_staged u1 e' i'); try done.
  - unfold ra_refs. congruence.
  - rewrite uq_rar. apply one_u.
  - rewrite uq_raw. apply one_u.
  - by left.
Qed.

(** A load that does not hold data: only its fixed part and the bus matter. *)
Lemma ld_step_intro e' i' :
  same_id i i' → mi_executed i = false → mi_executed i' = false → mi_memData i' = mi_memData i →
  ¬ (mi_stage i' = Some 2 ∧ mi_replay i' = None) → ld_ok acc idx e' i' → ld_step s p i e' i'.
Proof.
  intros ID E1 E2 E3 Hn K. pose proof (same_id_seq _ _ ID) as Eq. split; try done; [congruence| |].
  - intros _. split; [congruence|]. intros X1 X2. destruct Hn. done.
  - intros _ x Hx. destruct ID as (Est & Esq & _). unfold LsqInv.lctx in Hx. simpl in *.
    rewrite Eq in *. rewrite E3. by apply (one_bus E1).
Qed.

(** ** The first stage *)

Lemma same_access_refl r : same_access r r.
Proof. exists (lr_numOutstanding r), (lr_SQforward r), (lr_SBforward r). by destruct r. Qed.

(** The address of the load is translated, and the request installed. *)
Lemma core_translated :
  let r := acc q in
  let i' := mi_set_valid (mi_set_addr i (mr_paddr (default (lr_mainReq r) (head (lr_reqs r)))) (lr_size r)
              (rf_isStrictlyOrdered (lr_flags r))) true true (Some r) in
  ld_core acc idx (lqe_with_request (lqe_with_inst e i') (Some r)) i'.
Proof.
  pose proof (Hplain q) as PL. destruct one_core. cbv zeta. rewrite (pl_reqs _ _ _ _ _ _ PL), (pl_flags _ _ _ _ _ _ PL).
  split; try done; simpl.
  - destruct lk_flags as (_ & ? & ?). done.
  - intros r [= <-]. apply same_access_refl.
  - intros _. split; [done|]. split; [done|]. split; [apply (pl_size _ _ _ _ _ _ PL)|].
    exists (acc q). split; [done|]. apply (pl_reqs _ _ _ _ _ _ PL).
Qed.

Lemma load_stage0 (translated : bool) ans :
  mi_stage i = Some 0 →
  ∃ u', executeLoad P sb (ls_bus s) (lqp u p e) idx (if translated then Some (acc q) else None) ans = Ok (u', false) ∧
        linv (with_u s u').
Proof.
  intros Hs. pose proof one_ok as K. pose proof one_core as KC. pose proof one_has as Hhas.
  pose proof (lk_stage _ _ _ _ K) as Hst. rewrite Hs in Hst. destruct Hst as [Hrep Hex].
  destruct (lk_flags _ _ _ _ KC) as (_ & _ & Hsk). destruct (lk_early _ _ _ _ K 0 Hs) as [Hc Hw]; [lia|].
  pose proof (lk_out _ _ _ _ K Hex) as Hout. rewrite Hs in Hout. specialize (Hout ltac:(by intros [? _])).
  assert (∀ e' i', same_id i i' → mi_executed i' = false → mi_memData i' = mi_memData i →
    captured i' = false → mp_wakeUpEarly (mi_pipe i') = false →
    mi_replay i' = None ∧ mi_effAddrValid i' = true ∨ mi_replay i' = Some TLBMissReplay →
    ld_core acc idx e' i' → not_sent i' → linv (with_u s (lqp u p (lqe_with_inst e' (set_stage i' (Some 1)))))) as X.
  { intros e' i' ID X1 X2 X3 X4 X5 KC' X6. apply (inv_quiet u _ (set_stage i' (Some 1))); [congruence|done|].
    apply ld_step_intro; try done; [by intros [? _]|]. split; try done.
    - by apply (core_pipe acc idx e' i').
    - simpl. congruence. }
  unfold executeLoad. rewrite (lq_get_lqp u p e i) by done. cbn [res_bind].
  rewrite Hs. cbn [get_at res_bind Nat.ltb Nat.leb]. rewrite no_replay by done. unfold loadDoTranslate.
  rewrite (lq_get_lqp u p e i) by done. cbn [res_bind].
  destruct (mi_translationStarted i) eqn:Htr.
  - pose proof (lk_tr _ _ _ _ KC) as Ev. rewrite Htr in Ev. symmetry in Ev.
    destruct (lk_addr _ _ _ _ KC Ev) as (Hsv & _). rewrite bool_decide_eq_true_2 by done. cbn [assert_ res_bind].
    rewrite lq_put_lqp by done. cbn [res_bind fst snd]. erewrite lq_get_lqp by done. cbn [res_bind].
    rewrite not_replays_now by done. cbn [Nat.eqb andb]. rewrite lq_put_lqp by done. cbn [res_bind].
    eexists. split; [done|]. apply (X (lqe_with_inst e (mi_set_valid i true true (mi_saved i)))); try done.
    + by left.
    + by apply (core_pipe acc idx e i).
    + intros r _ Hr. by apply Hout.
  - destruct translated.
    + rewrite lq_put_lqp by done. cbn [res_bind]. rewrite lq_setRequest_lqp by done. cbn [res_bind fst snd].
      erewrite lq_get_lqp by done. cbn [res_bind].
      rewrite not_replays_now by done. cbn [Nat.eqb andb]. rewrite lq_put_lqp by done. cbn [res_bind].
      eexists. split; [done|]. apply X; try done.
      * by left.
      * by apply core_translated.
      * intros r _ [= <-]. apply (pl_fresh _ _ _ _ _ _ (Hplain q)).
    + rewrite setReplay_ok by done. cbn [res_bind]. rewrite lq_put_lqp by done. cbn [res_bind fst snd].
      erewrite lq_get_lqp by done. cbn [res_bind].
      change (replays_now (set_replayType i (Some TLBMissReplay))) with false. cbn [Nat.eqb andb]. rewrite lq_put_lqp by done. cbn [res_bind].
      eexists. split; [done|]. apply (X (lqe_with_inst e (set_replayType i (Some TLBMissReplay)))); try done.
      * by right.
      * by apply (core_pipe acc idx e i).
Qed.

(** ** The second stage *)

Local Notation pre := (LsqReadOk.pre acc u p i c).
Local Notation post := (LsqReadOk.post acc sdata u p i c).

Lemma load_unreleased : mi_executed i = false → (ls_bound s < q)%Z.
Proof.
  intros Hex. destruct (Z.lt_ge_cases (ls_bound s) q) as [|Hle]; [done|].
  pose proof (qi_execB _ _ _ _ one_q p e i Hp Hi Hle). congruence.
Qed.

Lemma load_env :
  mi_stage i ≠ None → mi_executed i = false →
  read_env P SP T tid va acc sdata maxData u p i (ls_sb s) (ls_bus s) c.
Proof.
  intros Hs Hex. pose proof one_q as Q. pose proof one_u as U. pose proof (load_unreleased Hex) as Hb.
  split; try done.
  - apply one_has.
  - apply U.
  - apply I.
  - apply one_mem.
  - apply Q.
  - apply Q.
  - apply U.
  - destruct (qi_sqIt _ _ _ _ Q p e i Hp Hi) as [X1 X2]. split; [by apply X2|done].
  - intros p' e' He' Hlt. destruct (qi_st _ _ _ _ Q p' e' He') as (i' & K). exists i'. split; [done|].
    destruct (qi_ls _ _ _ _ Q p p' e e' i i' Hp He' Hi) as [[X _] _]; [apply K|]. apply X. lia.
  - intros Hst. destruct (ui_stall _ _ _ U Hst) as (p' & e' & i' & Ei & Hp' & Hi' & _).
    exists i'. intros x. rewrite Ei. pose proof one_has as [W Hl]. unfold lq_get.
    assert (p ≠ p') as Hne by (intros <-; by apply (staged_stall Hs Hst)).
    change (cq_head (lu_LQ u)) with (cq_head (lu_LQ (lqp u p x))). rewrite (cq_at_lookup (lu_LQ (lqp u p x)) p' e').
    + cbn [res_bind]. unfold lq_inst. by rewrite Hi'.
    + by apply cq_put_upd.
    + rewrite lqp_list by (by split). by rewrite list_lookup_insert_ne.
Qed.

(** A load that keeps its request and is replayed without having been read. *)
Lemma post_keep i' :
  mi_stage i = Some 1 → mi_executed i = false → same_id i i' → ld_core acc idx (lqe_with_inst e i') i' →
  mi_stage i' = Some 1 → mi_executed i' = false → mp_skipRawCheck (mi_pipe i') = false →
  mi_memData i' = mi_memData i → mi_saved i' = mi_saved i → mi_effAddrValid i' = mi_effAddrValid i →
  (mi_replay i' = Some NukeReplay ∨ mi_replay i' = Some TLBMissReplay) →
  post u (lqe_with_inst e i') i'.
Proof.
  intros Hs Hex ID KC E1 E2 E3 E4 E5 E6 Hr. split; try done.
  - intros _ x Hx. rewrite (same_id_seq _ _ ID), E4. by apply (one_bus Hex).
  - by left.
  - left. split_and!; try (destruct Hr; congruence). intros r. rewrite E5, E6.
    apply (lk_out _ _ _ _ one_ok Hex). rewrite Hs. by intros [? _].
Qed.

Lemma post_step u1 e2 i2 :
  mi_executed i = false → post u1 e2 i2 →
  let i3 := set_stage i2 (if replays_now i2 then None else Some 2) in
  ld_step s p i (lqe_with_inst e2 i3) i3.
Proof.
  intros Hex [KC ID X1 X2 X3 X4 X5 X6 X7 X8] i3. pose proof (same_id_seq _ _ ID) as Eq.
  assert (lctx s i3 = c) as Ec.
  { unfold LsqInv.lctx. destruct ID as (_ & Esq & _). simpl. rewrite Esq. change (mi_seqNum i3) with (mi_seqNum i2). by rewrite Eq. }
  assert (mi_stage i3 = Some 2 → mi_replay i3 = None → mi_effAddrValid i2 = true ∧ is_Some (mi_memData i2) ∧
    (∃ r, mi_saved i2 = Some r ∧ read_ok acc sdata c i2 r) ∧
    (mp_fullForward (mi_pipe i2) = true ∨ mp_wakeUpEarly (mi_pipe i2) = true → not_sent i2)) as Hread.
  { intros _ Hr. destruct X8 as [[? _]|(_ & X)]; [done|done]. }
  split; [done| |congruence| |].
  - split; simpl; try done.
    + by apply (core_pipe acc idx e2 i2).
    + congruence.
    + destruct (replays_now i2) eqn:Er; simpl; [done|]. split_and!; try done.
      intros Hr. by apply Hread.
    + intros n. destruct (replays_now i2); simpl; intros [= <-]; lia.
    + intros _ Hn. destruct X8 as [(_ & _ & _ & ?)|(Hr & _)]; [done|]. destruct Hn. split; [|done].
      unfold i3. by rewrite not_replays_now.
    + intros A B. apply (Hread A B).
    + intros A B. destruct (Hread A B) as (_ & Hm & (r & Er & Hro) & _). split; [done|].
      intros r0 E0. assert (r0 = r) as -> by congruence. change (mi_seqNum i3) with (mi_seqNum i2).
      split; apply Hro.
  - intros _. split; [simpl; congruence|]. intros A B. rewrite Ec.
    destruct (Hread A B) as (_ & _ & (r & Er & Hro) & _). exists r. done.
  - rewrite Ec. exact X4.
Qed.

Lemma stall_of_post u1 e2 i2 :
  post u1 e2 i2 → stall_case u1 (set_stage i2 (if replays_now i2 then None else Some 2)).
Proof. intros []. destruct po_stall as [?|(E1 & E2 & ->)]; [by left|]. right. done. Qed.

(** The end of the second stage, from what the stage left. *)
Lemma stage1_end u1 e2 i2 u2 :
  mi_stage i = Some 1 → mi_executed i = false → post u1 e2 i2 →
  marked (lqp u1 p e2) u2 → cq_list (lu_LQ u2) !! p = Some e2 →
  ∃ u', (let! i := lq_get u2 idx in
         if replays_now i then lq_put u2 idx (set_stage i None)
         else lq_put u2 idx (set_stage i (Some 2))) = Ok u' ∧ linv (with_u s u').
Proof.
  intros Hs Hex PS M Hl. pose proof one_has as Hhas. pose proof (post_step u1 e2 i2 Hex PS) as S.
  assert (lq_has u1 p) as Hhas1 by (destruct (po_same _ _ _ _ _ _ _ _ _ PS); unfold lq_has; by rewrite us_LQ).
  assert (lq_has u2 p) as Hhas2 by (split; [apply M|by eapply lookup_lt_Some]).
  assert (idx = cq_head (lu_LQ u2) + Z.of_nat p)%Z as ->.
  { rewrite (mk_head _ _ M). simpl. by rewrite (us_LQ _ _ (po_same _ _ _ _ _ _ _ _ _ PS)). }
  pose proof (lqp_id u2 p e2 (mk_wf _ _ M) Hl) as E2.
  pose proof (lq_get_lqp u2 p e2 i2 Hhas2 (lk_inst _ _ _ _ (po_core _ _ _ _ _ _ _ _ _ PS))) as G.
  pose proof (λ x, lq_put_lqp u2 p e2 x Hhas2) as Pt. rewrite E2 in G, Pt. rewrite G. cbn [res_bind]. rewrite !Pt.
  set (i3 := set_stage i2 (if replays_now i2 then None else Some 2)) in S.
  exists (lqp u2 p (lqe_with_inst e2 i3)). split; [unfold i3; by destruct (replays_now i2)|].
  assert (linv (with_u s (lqp u1 p (lqe_with_inst e2 i3)))) as J.
  { apply (inv_staged u1 _ i3); try done; try apply PS; [congruence| | |].
    - rewrite (proj1 (po_rar _ _ _ _ _ _ _ _ _ PS)). apply one_u.
    - rewrite (proj1 (proj2 (po_rar _ _ _ _ _ _ _ _ _ PS))). apply one_u.
    - by apply (stall_of_post u1 e2 i2). }
  apply (inv_marked P SP T tid va acc sdata maxData m0 _ _ J). simpl.
  rewrite <- (lqp_lqp u1 p e2). apply marked_lqp; [|done|by left].
  split; [|rewrite lqp_list, length_insert by done; apply Hhas1]. apply cq_put_upd; apply Hhas1.
Qed.

(** The request is sent, and the younger loads are marked. *)
Lemma stage1_send ans :
  mi_stage i = Some 1 → mi_executed i = false → mi_replay i = None → mi_effAddrValid i = true →
  let i1 := setSkipRawCheck i false in
  ∃ u1 e2 i2 u2 blk, loadDoSendRequest P sb (ls_bus s) (lqp u p (lqe_with_inst e i1)) idx ans = Ok (u2, blk) ∧
    post u1 e2 i2 ∧ marked (lqp u1 p e2) u2 ∧ cq_list (lu_LQ u2) !! p = Some e2.
Proof.
  intros Hs Hex Hrep Hva i1. pose proof one_ok as K. pose proof one_core as KC. pose proof one_has as Hhas.
  set (e1 := lqe_with_inst e i1).
  assert (∀ u1 e2 i2, post u1 e2 i2 → lq_has u1 p) as Hhas1.
  { intros u1 e2 i2 PS. destruct (po_same _ _ _ _ _ _ _ _ _ PS). unfold lq_has. by rewrite us_LQ. }
  assert (∀ u1 x, lq_has u1 p → cq_wf (lu_LQ (lqp u1 p x)) ∧ cq_list (lu_LQ (lqp u1 p x)) !! p = Some x) as Hself.
  { intros u1 x [W Hl]. split; [by apply cq_put_upd|]. rewrite lqp_list by done. by apply list_lookup_insert_eq. }
  unfold loadDoSendRequest. rewrite (lq_get_lqp u p e1 i1) by done. cbn [res_bind].
  destruct (_ && existsb _ _).
  { rewrite setReplay_ok by done. cbn [res_bind]. rewrite lq_put_lqp by done. cbn [res_bind].
    set (i2 := set_replayType i1 (Some NukeReplay)).
    exists u, (lqe_with_inst e i2), i2. eexists _, _. split; [done|]. split.
    - apply post_keep; try done; [by apply (core_pipe acc idx e i)|by left].
    - split; [apply marked_refl|]; by apply Hself. }
  destruct (lk_addr _ _ _ _ KC Hva) as (Hsv & _). change (mi_saved i1) with (mi_saved i).
  rewrite bool_decide_eq_true_2 by done. destruct (mi_saved i) as [r|] eqn:Hr; [|done].
  destruct (lk_early _ _ _ _ K 1 Hs) as [Hc Hw]; [lia|].
  assert (pre e1 i1) as Kp.
  { split; try done.
    - by apply (core_pipe acc idx e i).
    - apply (lk_out _ _ _ _ K Hex). rewrite Hs. by intros [? _].
    - exact one_bus. }
  destruct (lsq_read_spec P SP T tid va acc sdata maxData PO Hline Htid Hplain u p i (ls_sb s) (ls_bus s) c)
    with (e := e1) (i := i1) (r := r) (ans := ans) as (u1 & e2 & i2 & blk & -> & PS); try done.
  { apply load_env; [by rewrite Hs|done]. }
  cbn [res_bind]. pose proof (Hhas1 _ _ _ PS) as Hh1.
  assert (idx = cq_head (lu_LQ u1) + Z.of_nat p)%Z as ->.
  { by rewrite (us_LQ _ _ (po_same _ _ _ _ _ _ _ _ _ PS)). }
  rewrite (lq_get_lqp u1 p e2 i2) by (done || apply PS). cbn [res_bind].
  destruct (bool_decide (mi_replay i2 ≠ None)) eqn:Hr2.
  { exists u1, e2, i2. eexists _, _. split; [done|]. split; [done|]. split; [apply marked_refl|]; by apply Hself. }
  apply bool_decide_eq_false in Hr2.
  destruct (po_case _ _ _ _ _ _ _ _ _ PS) as [[X _]|(_ & Hv2 & _ & (r2 & Er2 & _) & _)]; [done|].
  rewrite Hv2. destruct (lp_checkLoads P); cbn [andb].
  2: { exists u1, e2, i2. eexists _, _. split; [done|]. split; [done|]. split; [apply marked_refl|]; by apply Hself. }
  rewrite Er2. cbn [get_at res_bind].
  assert (lr_reqs r2 = [lr_mainReq (acc q)]) as ->.
  { destruct (lk_saved _ _ _ _ (po_core _ _ _ _ _ _ _ _ _ PS) r2 Er2) as (n0 & ra & rb & ->).
    rewrite (same_id_seq _ _ (po_id _ _ _ _ _ _ _ _ _ PS)). apply (pl_reqs _ _ _ _ _ _ (Hplain q)). }
  rewrite (lk_it _ _ _ _ (po_core _ _ _ _ _ _ _ _ _ PS)).
  replace (idx + 1)%Z with (cq_head (lu_LQ (lqp u1 p e2)) + Z.of_nat (S p))%Z
    by (simpl; rewrite (us_LQ _ _ (po_same _ _ _ _ _ _ _ _ _ PS)); lia).
  destruct (check_load_spec acc (lp_depCheckShift P) (lqp u1 p e2) (S p) q) as (u2 & -> & M & Hlow).
  - by apply Hself.
  - rewrite lqp_list, length_insert by done. apply Hh1.
  - intros p' e' Hle. rewrite lqp_list, list_lookup_insert_ne by (done || lia). simpl.
    rewrite (us_LQ _ _ (po_same _ _ _ _ _ _ _ _ _ PS)). intros He'.
    destruct (qi_ld _ _ _ _ one_q p' e' He') as (j & Kj). exists j. apply Kj.
  - cbn [res_bind fst]. exists u1, e2, i2, u2. eexists. split; [done|]. split; [done|]. split; [done|].
    rewrite Hlow by lia. by apply Hself.
Qed.

Lemma load_stage1 (translated : bool) ans :
  mi_stage i = Some 1 →
  ∃ u' blk, executeLoad P sb (ls_bus s) (lqp u p e) idx (if translated then Some (acc q) else None) ans = Ok (u', blk) ∧
        linv (with_u s u').
Proof.
  intros Hs. pose proof one_ok as K. pose proof one_core as KC. pose proof one_has as Hhas.
  pose proof (lk_stage _ _ _ _ K) as Hst. rewrite Hs in Hst. destruct Hst as [Hex Hst].
  destruct (lk_flags _ _ _ _ KC) as (_ & _ & Hsk).
  unfold executeLoad. rewrite (lq_get_lqp u p e i) by done. cbn [res_bind].
  rewrite Hs. cbn [get_at res_bind Nat.ltb Nat.leb]. rewrite lq_put_lqp by done. cbn [res_bind].
  set (i1 := setSkipRawCheck i false).
  assert (∃ u1 e2 i2 u2 blk,
    (if replayOrSkipFollowingPipe i then Ok (lqp u p (lqe_with_inst e i1), false)
     else loadDoSendRequest P sb (ls_bus s) (lqp u p (lqe_with_inst e i1)) idx ans) = Ok (u2, blk) ∧
    post u1 e2 i2 ∧ marked (lqp u1 p e2) u2 ∧ cq_list (lu_LQ u2) !! p = Some e2)
    as (u1 & e2 & i2 & u2 & blk & -> & PS & M & Hl).
  { destruct Hst as [[Hrep Hva]|Hrep].
    - rewrite no_replay by done. by apply stage1_send.
    - rewrite some_replay by congruence. exists u, (lqe_with_inst e i1), i1. eexists _, _. split; [done|]. split.
      + apply post_keep; try done; [by apply (core_pipe acc idx e i)|by right].
      + pose proof Hhas as [W Hl]. split; [apply marked_refl; by apply cq_put_upd|].
        rewrite lqp_list by done. by apply list_lookup_insert_eq. }
  cbn [res_bind fst snd]. destruct (stage1_end u1 e2 i2 u2 Hs Hex PS M Hl) as (u' & E & J).
  exists u', blk. split; [|done]. destruct (lq_get u2 idx) as [i3|]; [|done]. cbn [res_bind Nat.eqb andb] in *.
  by rewrite E.
Qed.

(** ** The third stage *)

(** The end of the third stage. *)
Definition stage2_tail (v : LSQUnit) : res LSQUnit :=
  let! i := lq_get v idx in
  if replays_now i then lq_put v idx (set_stage i None)
  else if bool_decide (mi_replay i ≠ None) then load_replay v idx
  else lq_put v idx (set_stage i (Some 3)).

(** A load outside the pipeline that has not executed. *)
Lemma ld_step_out e2 i2 :
  mi_executed i = false → ld_core acc idx e2 i2 → same_id i i2 → mi_executed i2 = false →
  mi_memData i2 = mi_memData i → not_sent i2 → mi_stage i2 = None → ld_step s p i e2 i2.
Proof.
  intros Hex KC ID X1 X2 X3 X4. apply ld_step_intro; try done; [rewrite X4; by intros [? _]|].
  split; rewrite ?X4; try done. congruence.
Qed.

(** The replays that only leave outputs. *)
Lemma tail_replay u1 e2 i2 :
  mi_stage i ≠ None → mi_executed i = false → u_quiet u u1 → ld_core acc idx e2 i2 → same_id i i2 →
  mi_executed i2 = false → mi_memData i2 = mi_memData i → mi_replay i2 ≠ None →
  (not_sent i2 ∨ mi_replay i2 = Some NukeReplay ∧ mp_cacheHit (mi_pipe i2) = true) →
  ∃ u', stage2_tail (lqp u1 p e2) = Ok u' ∧ linv (with_u s u').
Proof.
  intros Hs Hex US KC ID X1 X2 Hr Hsent. pose proof one_has as Hhas.
  pose proof (us_LQ _ _ (uq_same _ _ US)) as EL.
  assert (lq_has u1 p) as Hh1 by (unfold lq_has; by rewrite EL).
  unfold stage2_tail. assert (idx = cq_head (lu_LQ u1) + Z.of_nat p)%Z as Ei by (by rewrite EL). rewrite Ei.
  rewrite (lq_get_lqp u1 p e2 i2) by (done || apply KC). cbn [res_bind].
  assert (∀ o e3 i3, ld_core acc idx e3 i3 → same_id i i3 → mi_executed i3 = false → mi_memData i3 = mi_memData i →
    not_sent i3 → ∃ u', lq_put (lqp (emit_opt u1 o) p e3) (cq_head (lu_LQ u1) + Z.of_nat p) (set_stage i3 None) = Ok u' ∧
      linv (with_u s u')) as Hput.
  { intros o e3 i3 KC3 ID3 Y1 Y2 Y3.
    assert (lu_LQ (emit_opt u1 o) = lu_LQ u1) as EL' by (by destruct o).
    rewrite <- EL'. rewrite lq_put_lqp by (unfold lq_has; by rewrite EL').
    eexists. split; [done|]. apply (inv_quiet _ _ (set_stage i3 None) Hs).
    - destruct US as [[]]. destruct o; split; try done; by split.
    - apply ld_step_out; try done. by apply (core_pipe acc idx e3 i3). }
  destruct (replays_now i2) eqn:Hn.
  { destruct Hsent as [Hsent|[E _]]; [by apply (Hput None)|]. exfalso. unfold replays_now, needs in Hn. by rewrite E in Hn. }
  rewrite bool_decide_eq_true_2 by done. unfold load_replay.
  rewrite (lq_get_lqp u1 p e2 i2) by (done || apply KC). cbn [res_bind].
  set (o := replay_out i2).
  assert (emit_opt (lqp u1 p e2) o = lqp (emit_opt u1 o) p e2) as -> by (by destruct o).
  assert (lu_LQ (emit_opt u1 o) = lu_LQ u1) as EL' by (by destruct o).
  assert (lq_has (emit_opt u1 o) p) as Hh2 by (unfold lq_has; by rewrite EL').
  assert (∀ drop : bool, ∃ u', (let! v := loadSetReplay (lqp (emit_opt u1 o) p e2) (cq_head (lu_LQ u1) + Z.of_nat p) drop in
    let! i := lq_get v (cq_head (lu_LQ u1) + Z.of_nat p) in
    lq_put v (cq_head (lu_LQ u1) + Z.of_nat p) (set_stage i None)) = Ok u' ∧ linv (with_u s u')) as Hforget.
  { intros drop. rewrite <- EL', (loadSetReplay_lqp _ p e2 i2) by (done || apply KC). cbn [res_bind].
    erewrite lq_get_lqp by done. cbn [res_bind]. rewrite EL'. apply Hput; try done. by apply core_forget. }
  assert (∃ u', (let! i := lq_get (lqp (emit_opt u1 o) p e2) (cq_head (lu_LQ u1) + Z.of_nat p) in
    lq_put (lqp (emit_opt u1 o) p e2) (cq_head (lu_LQ u1) + Z.of_nat p) (set_stage i None)) = Ok u' ∧
    (not_sent i2 → linv (with_u s u'))) as Hkeep.
  { rewrite <- EL', (lq_get_lqp _ p e2 i2) by (done || apply KC). cbn [res_bind].
    rewrite lq_put_lqp by done. eexists. split; [done|]. intros Hse.
    destruct (Hput o e2 i2 KC ID X1 X2 Hse) as (u' & E & J).
    rewrite <- EL', lq_put_lqp in E by done. by injection E as <-. }
  unfold needs. destruct (bool_decide (mi_replay i2 = Some NukeReplay)) eqn:En; cbn [res_bind].
  - destruct (mp_cacheHit (mi_pipe i2)) eqn:Eh; [by apply Hforget|].
    destruct (mi_pending i2); [by apply Hforget|]. cbn [res_bind].
    destruct Hkeep as (u' & E & J). exists u'. split; [done|]. apply J. by destruct Hsent as [|[_ ?]].
  - destruct Hkeep as (u' & E & J). exists u'. split; [done|]. apply J.
    destruct Hsent as [|[E0 _]]; [done|]. by apply bool_decide_eq_false in En.
Qed.

(** A load with its data, or about to find out that it has none. *)
Record ready (e2 : LQEntry) (i2 : MInst) : Prop := {
  rd_core : ld_core acc idx e2 i2;
  rd_id : same_id i i2;
  rd_exec : mi_executed i2 = false;
  rd_replay : mi_replay i2 = None;
  rd_valid : mi_effAddrValid i2 = true;
  rd_skip : mp_skipRawCheck (mi_pipe i2) = false;
  rd_mem : mi_memData i2 = mi_memData i;
  rd_buf : is_Some (mi_memData i2);
  rd_fwd r : mi_saved i2 = Some r → fwd_in (len q) (lr_SBforward r) ∧ fwd_in (len q) (lr_SQforward r);
  rd_sent : mp_fullForward (mi_pipe i2) = true → not_sent i2;
  rd_data : active s q → ∃ r, mi_saved i2 = Some r ∧ read_ok acc sdata c i2 r
}.

Lemma rd_saved e2 i2 :
  ready e2 i2 → ∃ r, mi_saved i2 = Some r ∧ same_access (acc q) r ∧ isNormalLd r = true.
Proof.
  intros R. destruct (lk_addr _ _ _ _ (rd_core _ _ R) (rd_valid _ _ R)) as (Hsv & _).
  destruct (mi_saved i2) as [r|] eqn:Er; [|done]. exists r. split; [done|].
  pose proof (lk_saved _ _ _ _ (rd_core _ _ R) r Er) as Hsa. rewrite (same_id_seq _ _ (rd_id _ _ R)) in Hsa.
  split; [done|]. destruct Hsa as (n0 & ra & rb & ->). unfold isNormalLd. simpl.
  rewrite (pl_split _ _ _ _ _ _ (Hplain q)), (pl_flags _ _ _ _ _ _ (Hplain q)). done.
Qed.

Lemma insert_ref_perm x l : insert_ref x l ≡ₚ x :: l.
Proof. induction l as [|y l IH]; [done|]. simpl. destruct (_ <? _)%Z; [|done]. rewrite IH. apply Permutation_swap. Qed.

Lemma join_ref_length x l n : length l < n → length (join_ref x l) ≤ n.
Proof. unfold join_ref. destruct (bool_decide _); rewrite ?length_app; simpl; lia. Qed.

(** The load waits for the older loads or stores. *)
Lemma tail_wait u1 e2 i2 rarr rawr t :
  mi_stage i ≠ None → mi_executed i = false → ready e2 i2 → u_same u u1 → ra_refs u1 = ra_refs u →
  lu_stalled u1 = lu_stalled u → lu_stallingLoadIdx u1 = lu_stallingLoadIdx u →
  lu_stallingStoreIsn u1 = lu_stallingStoreIsn u →
  length (lu_RARQueue u1) ≤ lp_maxRARQEntries P → length (lu_RAWQueue u1) ≤ lp_maxRAWQEntries P →
  rarr ++ rawr ≡ₚ ld_ref i2 :: ra_refs u → t = RARReplay ∨ t = RAWReplay →
  ∃ u', (let! v := loadSetReplay (lqp u1 p e2) idx true in
         let v := set_ra v (lu_RARQueue v) (lu_RAWQueue v) rarr rawr in
         let! i := lq_get v idx in
         let! i := setReplay i t in
         let! v := lq_put v idx i in stage2_tail v) = Ok u' ∧ linv (with_u s u').
Proof.
  intros Hs Hex R US Er S1 S2 S3 L1 L2 Hperm Ht. pose proof one_has as Hhas.
  pose proof (us_LQ _ _ US) as EL. pose proof (rd_core _ _ R) as KC.
  set (v := set_ra u1 (lu_RARQueue u1) (lu_RAWQueue u1) rarr rawr).
  assert (lq_has v p) as Hh1 by (unfold lq_has; simpl; by rewrite EL).
  assert (idx = cq_head (lu_LQ v) + Z.of_nat p)%Z as Ei by (simpl; by rewrite EL).
  assert (idx = cq_head (lu_LQ u1) + Z.of_nat p)%Z as Ei1 by (by rewrite EL).
  unfold stage2_tail. rewrite Ei1. rewrite (loadSetReplay_lqp u1 p e2 i2) by (done || apply KC). cbn [res_bind].
  rewrite <- Ei1, Ei. change (set_ra (lqp u1 p ?x) _ _ rarr rawr) with (lqp v p x). cbv zeta.
  erewrite lq_get_lqp by done. cbn [res_bind]. rewrite setReplay_ok by apply R. cbn [res_bind].
  rewrite lq_put_lqp by done. cbn [res_bind]. erewrite lq_get_lqp by done. cbn [res_bind].
  set (i3 := set_replayType _ _). assert (replays_now i3 = true) as -> by (destruct Ht as [E|E]; rewrite ?E; unfold i3; rewrite E; reflexivity).
  rewrite lq_put_lqp by done. eexists. split; [done|].
  apply (inv_load P SP T tid va acc sdata maxData m0 s v p e i _ (set_stage i3 None) I Hp Hi); try done.
  - destruct US. by split.
  - apply ld_step_out; try done; [|apply R|apply R|apply R].
    apply (core_pipe acc idx (lqe_forget e2 i2 true) (mi_set_valid i2 false false None)); try done.
    by apply (core_forget acc idx e2 i2 true).
  - intros St. right. simpl in *. rewrite S1 in St. split_and!; try done. by apply staged_stall.
  - split.
    + change (ra_refs v) with (rarr ++ rawr). rewrite Hperm. simpl. rewrite (same_id_seq _ _ (rd_id _ _ R)).
      apply NoDup_cons. split; [|apply one_u]. intros (x & E & Hx)%list_elem_of_fmap. by apply (staged_ref x Hs Hx).
    + change (ra_refs v) with (rarr ++ rawr). intros x. rewrite Hperm, elem_of_cons. intros [->|Hx].
      * right. simpl. rewrite (same_id_seq _ _ (rd_id _ _ R)). destruct (rd_id _ _ R) as (_ & _ & ->).
        split_and!; try done. destruct Ht as [-> | ->]; [by left|by right].
      * left. split; [by apply staged_ref|done].
Qed.

(** The data is put together and written back. *)
Lemma tail_finish u1 e2 i2 :
  mi_stage i = Some 2 → mi_executed i = false → ready e2 i2 → captured i2 = true → u_same u u1 →
  ra_refs u1 = ra_refs u → lu_stalled u1 = lu_stalled u → lu_stallingLoadIdx u1 = lu_stallingLoadIdx u →
  lu_stallingStoreIsn u1 = lu_stallingStoreIsn u →
  length (lu_RARQueue u1) ≤ lp_maxRARQEntries P → length (lu_RAWQueue u1) ≤ lp_maxRAWQEntries P →
  ∃ u', (let! v := load_finish P (lqp u1 p e2) idx in stage2_tail v) = Ok u' ∧ linv (with_u s u').
Proof.
  intros Hs Hex R Hc US Er S1 S2 S3 L1 L2. pose proof one_has as Hhas. pose proof (us_LQ _ _ US) as EL.
  pose proof (rd_core _ _ R) as KC. assert (lq_has u1 p) as Hh1 by (unfold lq_has; by rewrite EL).
  assert (idx = cq_head (lu_LQ u1) + Z.of_nat p)%Z as Ei1 by (by rewrite EL).
  destruct (rd_saved e2 i2 R) as (r & Hr & _ & Hn). destruct (rd_buf _ _ R) as [d Hd].
  destruct (rd_fwd _ _ R r Hr) as [HB HQ]. pose proof (same_id_seq _ _ (rd_id _ _ R)) as Eq.
  assert (length d = len q) as Hlen by (rewrite <- Eq; by apply (lk_mem _ _ _ _ KC)).
  unfold load_finish, stage2_tail. rewrite Ei1. rewrite (lq_get_lqp u1 p e2 i2) by (done || apply KC).
  cbn [res_bind]. rewrite Hr. cbn [get_at res_bind]. rewrite Hmiss, Hn, orb_true_r.
  unfold assemblePackets. rewrite Hr, Hd. cbn [get_at res_bind].
  destruct (lr_forward_at r d (len q) Hlen HB HQ) as (d' & -> & Hlen' & Hj). cbn [res_bind].
  assert (writebackReg (mi_set_memData i2 (Some d')) = mi_set_executed (mi_set_memData i2 (Some d')) (Some d')) as ->.
  { unfold writebackReg. simpl. by rewrite (rd_exec _ _ R). }
  set (i3 := mi_set_executed _ _). rewrite lq_put_lqp by done. cbn [res_bind].
  erewrite lq_get_lqp by done. cbn [res_bind]. assert (mi_replay i3 = None) as Hr3 by apply R.
  rewrite not_replays_now by done. rewrite bool_decide_eq_false_2 by (rewrite Hr3; auto).
  rewrite lq_put_lqp by done. eexists. split; [done|].
  apply (inv_staged u1 _ (set_stage i3 (Some 3))); try done; [congruence|by left|].
  split; [apply R| |done| |].
  - split; try done.
    + apply (core_upd acc idx e2 i2); try done; rewrite ?Eq.
      * intros r0 Hr0. rewrite <- Eq. by apply (lk_saved _ _ _ _ KC).
      * intros Hv. by apply (lk_addr _ _ _ _ KC).
      * by intros d0 [= <-].
    + intros _. split_and!; try done; try apply R; [by right|]. exists d'. split; [done|].
      change (mi_seqNum (set_stage i3 (Some 3))) with (mi_seqNum i2). by rewrite Eq.
    + intros n [= <-] ?. lia.
  - intros Ha. split; [|done]. intros _. exists d'. split; [done|].
    change (mi_seqNum (set_stage i3 (Some 3))) with (mi_seqNum i2). rewrite Eq.
    change (lctx s (set_stage i3 (Some 3))) with (lctx s i2).
    destruct (rd_data _ _ R Ha) as (r0 & Hr0 & _ & _ & w & V & Hw). assert (r0 = r) as -> by congruence.
    assert (lctx s i2 = c) as ->.
    { unfold LsqInv.lctx. destruct (rd_id _ _ R) as (_ & -> & _). by rewrite Eq. }
    rewrite Eq in V, Hw. enough (d' = w) as -> by done. apply list_eq. intros j.
    destruct (decide (j < len q)) as [Hjl|Hjl].
    + rewrite Hj by done. specialize (Hw j Hjl). destruct (fwd_at _ j); [done|].
      destruct Hw as (_ & _ & Hcap). destruct (Hcap Hc) as (d0 & Hd0 & <-). congruence.
    + destruct V as [Hwl _]. rewrite !lookup_ge_None_2; [done|lia|lia].
  - intros X. simpl in X. done.
Qed.

Lemma queues_spec e2 i2 :
  mi_stage i = Some 2 → mi_executed i = false → ready e2 i2 → captured i2 = true →
  ∃ u', (let! v := load_queues P (lqp u p e2) idx in stage2_tail v) = Ok u' ∧ linv (with_u s u').
Proof.
  intros Hs Hex R Hc. pose proof one_has as Hhas. pose proof (rd_core _ _ R) as KC.
  assert (mi_stage i ≠ None) as Hs' by congruence. pose proof one_u as U.
  assert (∀ rar raw, u_same u (set_ra u rar raw (lu_RARReplayQueue u) (lu_RAWReplayQueue u))) as US by (by intros).
  pose proof (ui_rar _ _ _ U) as L1. pose proof (ui_raw _ _ _ U) as L2.
  unfold load_queues. rewrite (lq_get_lqp u p e2 i2) by (done || apply KC). cbn [res_bind]. cbv zeta.
  change (lu_loadCompletedIdx (lqp u p e2)) with (lu_loadCompletedIdx u).
  change (cq_tail (lu_LQ (lqp u p e2))) with (cq_tail (lu_LQ u)).
  change (lu_RARQueue (lqp u p e2)) with (lu_RARQueue u).
  set (b1 := negb _ && _). destruct (b1 && _) eqn:E1.
  { destruct (tail_wait u e2 i2 (insert_ref (ld_ref i2) (lu_RARReplayQueue u)) (lu_RAWReplayQueue u) RARReplay)
      as (u' & E & J); try done.
    - rewrite insert_ref_perm. done.
    - by left.
    - exists u'. split; [|done]. rewrite <- E. rewrite (loadSetReplay_lqp u p e2 i2) by (done || apply KC).
      cbn [res_bind]. cbv zeta. destruct (lq_get _ _); [|done]. cbn [res_bind]. by destruct (setReplay _ _). }
  assert (∃ rar, (if b1 then set_ra (lqp u p e2) (join_ref (ld_ref i2) (lu_RARQueue u)) (lu_RAWQueue (lqp u p e2))
    (lu_RARReplayQueue (lqp u p e2)) (lu_RAWReplayQueue (lqp u p e2)) else lqp u p e2) =
    lqp (set_ra u rar (lu_RAWQueue u) (lu_RARReplayQueue u) (lu_RAWReplayQueue u)) p e2 ∧
    length rar ≤ lp_maxRARQEntries P) as (rar & -> & L1').
  { destruct b1; [|exists (lu_RARQueue u); split; [by destruct u|done]].
    eexists. split; [done|]. apply join_ref_length. apply Nat.leb_gt in E1. done. }
  set (u1 := set_ra u rar _ _ _).
  change (lu_storeCompletedIdx (lqp u1 p e2)) with (lu_storeCompletedIdx u).
  change (cq_tail (lu_SQ (lqp u1 p e2))) with (cq_tail (lu_SQ u)).
  change (lu_RAWQueue (lqp u1 p e2)) with (lu_RAWQueue u).
  set (b2 := negb _ && _). destruct (b2 && _) eqn:E2.
  { destruct (tail_wait u1 e2 i2 (lu_RARReplayQueue u) (insert_ref (ld_ref i2) (lu_RAWReplayQueue u)) RAWReplay)
      as (u' & E & J); try done.
    - rewrite insert_ref_perm. symmetry. apply Permutation_middle.
    - by right.
    - exists u'. split; [|done]. rewrite <- E. rewrite (loadSetReplay_lqp u1 p e2 i2) by (done || apply KC).
      cbn [res_bind]. cbv zeta. destruct (lq_get _ _); [|done]. cbn [res_bind]. by destruct (setReplay _ _). }
  assert (∃ raw, (if b2 then set_ra (lqp u1 p e2) (lu_RARQueue (lqp u1 p e2)) (join_ref (ld_ref i2) (lu_RAWQueue u))
    (lu_RARReplayQueue (lqp u1 p e2)) (lu_RAWReplayQueue (lqp u1 p e2)) else lqp u1 p e2) =
    lqp (set_ra u rar raw (lu_RARReplayQueue u) (lu_RAWReplayQueue u)) p e2 ∧
    length raw ≤ lp_maxRAWQEntries P) as (raw & -> & L2').
  { destruct b2; [|exists (lu_RAWQueue u); done].
    eexists. split; [done|]. apply join_ref_length. apply Nat.leb_gt in E2. done. }
  by apply (tail_finish _ e2 i2).
Qed.

Lemma recv_spec e2 i2 :
  mi_stage i = Some 2 → mi_executed i = false → ready e2 i2 →
  ∃ u', (let! v := load_recv P (lqp u p e2) idx in stage2_tail v) = Ok u' ∧ linv (with_u s u').
Proof.
  intros Hs Hex R. pose proof one_has as Hhas. pose proof (rd_core _ _ R) as KC.
  assert (mi_stage i ≠ None) as Hs' by congruence.
  unfold load_recv. rewrite (lq_get_lqp u p e2 i2) by (done || apply KC). cbn [res_bind].
  destruct (rd_saved e2 i2 R) as (r & -> & _ & Hn). rewrite Hmiss, Hn. cbn [andb].
  destruct (negb _ && negb _) eqn:Ec.
  { unfold cache_miss_replay. rewrite (loadSetReplay_lqp u p e2 i2) by (done || apply KC). cbn [res_bind].
    erewrite lq_get_lqp by done. cbn [res_bind]. rewrite setReplay_ok by apply R. cbn [res_bind].
    rewrite lq_put_lqp by done. cbn [res_bind].
    apply (tail_replay u _ (mi_set_cache (set_replayType (mi_set_valid i2 false false (mi_saved i2)) (Some CacheMissReplay))
      (mi_pending i2) true (mi_memData i2))); try done; try apply R; [|by left].
    apply (core_pipe acc idx (lqe_forget e2 i2 false) (mi_set_valid i2 false false (mi_saved i2))); try done.
    by apply (core_forget acc idx e2 i2 false). }
  assert (captured i2 = true) as Hc.
  { unfold captured. destruct (mp_fullForward _), (mp_cacheHit _); done. }
  destruct (existsb _ _).
  { rewrite setReplay_ok by apply R. cbn [res_bind]. rewrite lq_put_lqp by done. cbn [res_bind].
    apply (tail_replay u _ (set_replayType i2 (Some NukeReplay))); try done; try apply R.
    - by apply (core_pipe acc idx e2 i2).
    - unfold captured in Hc. apply orb_true_iff in Hc as [Hc|Hc]; [by right|left]. exact (rd_sent _ _ R Hc). }
  by apply (queues_spec e2 i2).
Qed.

(** The load of the third stage. *)
Lemma stage2_ready :
  mi_stage i = Some 2 → mi_replay i = None →
  let i1 := setSkipRawCheck i false in ready (lqe_with_inst e i1) i1.
Proof.
  intros Hs Hr i1. pose proof one_ok as K. pose proof (lk_stage _ _ _ _ K) as Hst. rewrite Hs in Hst.
  destruct Hst as (Hex & Hsk & Hva). destruct (lk_fwd _ _ _ _ K Hs Hr) as [Hb Hf]. split; try done.
  - by apply (core_pipe acc idx e i); [apply one_core|..].
  - by apply Hva.
  - intros Hff. apply (lk_out2 _ _ _ _ K Hs Hr). by left.
  - intros Ha. by apply (one_data Ha).
Qed.

(** The data of the bus. *)
Lemma ready_bus e1 i1 x :
  mi_executed i = false → ready e1 i1 → ls_bus s !! q = Some x → not_sent i1 →
  ready (lqe_with_inst e1 (setFullForward i1)) (setFullForward i1).
Proof.
  intros Hex R Hx Hns. pose proof (same_id_seq _ _ (rd_id _ _ R)) as Eq.
  destruct (one_bus Hex x Hx) as (_ & d & Hd & Hj).
  split; try apply R; try done.
  - by apply (core_pipe acc idx e1 i1); [apply R|..].
  - intros Ha. destruct (rd_data _ _ R Ha) as (r & Hr & F1 & F2 & w & V & Hw). exists r. split; [done|].
    split; [done|]. split; [done|]. exists w. split; [done|]. intros j Hjl. specialize (Hw j Hjl).
    destruct (fwd_at _ j); [done|]. destruct Hw as (HN & Hby & _). split; [done|]. split; [done|]. intros _.
    exists d. split; [rewrite <- Hd; apply R|].
    change (mi_seqNum (setFullForward i1)) with (mi_seqNum i1) in *. rewrite Eq in *.
    rewrite Hj by done. symmetry. rewrite (load_val_noknown acc sdata (λ s, pl_shape _ _ _ _ _ _ (Hplain s)) _ _ _ _ _ V HN Hjl).
    by rewrite one_mem, Hby.
Qed.

Lemma load_stage2 (translated : bool) ans :
  mi_stage i = Some 2 →
  ∃ u', executeLoad P sb (ls_bus s) (lqp u p e) idx (if translated then Some (acc q) else None) ans = Ok (u', false) ∧
        linv (with_u s u').
Proof.
  intros Hs. pose proof one_ok as K. pose proof one_core as KC. pose proof one_has as Hhas.
  pose proof (lk_stage _ _ _ _ K) as Hst. rewrite Hs in Hst. destruct Hst as (Hex & Hsk & Hva).
  destruct (lk_flags _ _ _ _ KC) as (_ & _ & Hskip).
  unfold executeLoad. rewrite (lq_get_lqp u p e i) by done. cbn [res_bind].
  rewrite Hs. cbn [get_at res_bind Nat.ltb Nat.leb]. rewrite lq_put_lqp by done. cbn [res_bind].
  set (i1 := setSkipRawCheck i false). set (e1 := lqe_with_inst e i1).
  assert (∃ u', (let! v := (if replayOrSkipFollowingPipe i then Ok (lqp u p e1) else
    loadDoRecvData P (ls_bus s) (lqp u p e1) idx) in stage2_tail v) = Ok u' ∧ linv (with_u s u')) as (u' & E & J).
  { destruct (mi_replay i) as [t|] eqn:Hr.
    - rewrite some_replay by congruence. cbn [res_bind]. apply (tail_replay u e1 i1); try done.
      + congruence.
      + by apply (core_pipe acc idx e i).
      + change (mi_replay i ≠ None). congruence.
      + left. apply (lk_out _ _ _ _ K Hex). rewrite Hr. by intros [_ ?].
    - rewrite no_replay by done. pose proof (stage2_ready Hs Hr) as R. fold i1 e1 in R.
      unfold loadDoRecvData. rewrite (lq_get_lqp u p e1 i1) by done. cbn [res_bind].
      destruct (mp_wakeUpEarly (mi_pipe i1)) eqn:Hw; [|by apply (recv_spec e1 i1)].
      change (mi_seqNum i1) with q. destruct (mi_pending i1 || _) eqn:Eb.
      + unfold cache_miss_replay. rewrite (loadSetReplay_lqp u p e1 i1) by done. cbn [res_bind].
        erewrite lq_get_lqp by done. cbn [res_bind]. rewrite setReplay_ok by apply R. cbn [res_bind].
        rewrite lq_put_lqp by done. cbn [res_bind].
        apply (tail_replay u _ (mi_set_cache (set_replayType (mi_set_valid i1 false false None) (Some CacheMissReplay))
          (mi_pending i1) true (mi_memData i1))); try done; try apply R; [congruence| |by left].
        apply (core_pipe acc idx (lqe_forget e1 i1 true) (mi_set_valid i1 false false None)); try done.
        apply (core_forget acc idx e1 i1 true). apply R.
      + apply orb_false_iff in Eb as [_ Eb]. apply negb_false_iff, bool_decide_eq_true in Eb as [x Hx].
        change (cq_capacity (lu_LQ (lqp u p e1))) with (cq_capacity (lu_LQ u)).
        rewrite (proj2 (Z.ltb_ge _ _)) by apply one_q. cbn [panic_if res_bind].
        rewrite lq_put_lqp by done. cbn [res_bind]. apply (recv_spec _ (setFullForward i1)); try done.
        apply (ready_bus _ _ x); try done. apply (lk_out2 _ _ _ _ K Hs Hr). by right. }
  exists u'. split; [|done]. unfold stage2_tail in E.
  destruct (replayOrSkipFollowingPipe i); cbn [res_bind fst snd] in *.
  - destruct (lq_get _ _) as [i3|]; [|done]. cbn [res_bind Nat.eqb andb] in *. by rewrite E.
  - destruct (loadDoRecvData _ _ _ _) as [v|]; [|done]. cbn [res_bind fst snd] in *.
    destruct (lq_get _ _) as [i3|]; [|done]. cbn [res_bind Nat.eqb andb] in *. by rewrite E.
Qed.

(** ** The last stage *)

Lemma load_stage3 (translated : bool) ans :
  mi_stage i = Some 3 →
  ∃ u', executeLoad P sb (ls_bus s) (lqp u p e) idx (if translated then Some (acc q) else None) ans = Ok (u', false) ∧
        linv (with_u s u').
Proof.
  intros Hs. pose proof one_ok as K. pose proof one_core as KC. pose proof one_has as Hhas.
  pose proof (lk_stage _ _ _ _ K) as Hex. rewrite Hs in Hex.
  destruct (lk_exec _ _ _ _ K Hex) as (Hr & Hva & Hsk & _ & Hres).
  destruct (lk_flags _ _ _ _ KC) as (_ & _ & Hskip).
  unfold executeLoad. rewrite (lq_get_lqp u p e i) by done. cbn [res_bind].
  rewrite Hs. cbn [get_at res_bind Nat.ltb Nat.leb]. rewrite lq_put_lqp by done. cbn [res_bind].
  rewrite no_replay by done. cbn [res_bind fst snd]. erewrite lq_get_lqp by done. cbn [res_bind].
  rewrite not_replays_now by done. cbn [Nat.eqb andb]. 
  set (i1 := setSkipRawCheck i false).
  set (o := if match mi_saved i1 with Some r => isNormalLd r | None => true end then Some (OutFinish (mi_seqNum i1)) else None).
  assert (emit_opt (lqp u p (lqe_with_inst e i1)) o = lqp (emit_opt u o) p (lqe_with_inst e i1)) as -> by (by destruct o).
  assert (lu_LQ (emit_opt u o) = lu_LQ u) as EL by (by destruct o). rewrite <- EL.
  rewrite lq_put_lqp by (unfold lq_has; by rewrite EL). cbn [res_bind]. eexists. split; [done|].
  apply (inv_quiet _ _ (set_stage i1 None)); [congruence|by apply u_quiet_emit|].
  split; try done.
  - split; try done.
    + by apply (core_pipe acc idx e i).
    + intros _. split_and!; try done. by left.
    + intros X. simpl in X. congruence.
  - intros Ha. split; [|done]. intros _. by apply (one_data Ha).
  - intros X. simpl in X. congruence.
Qed.

(** ** Every stage *)

Lemma load_execute (translated : bool) ans :
  mi_stage i ≠ None →
  ∃ u' blk, executeLoad P sb (ls_bus s) u idx (if translated then Some (acc q) else None) ans = Ok (u', blk) ∧
        linv (with_u s u').
Proof.
  intros Hs. pose proof (lk_stage _ _ _ _ one_ok) as Hst. pose proof one_unit as E.
  destruct (mi_stage i) as [n|] eqn:En; [|done].
  destruct n as [|[|[|[|n]]]]; [| | | |done].
  - destruct (load_stage0 translated ans) as (u' & X & J); [done|]. rewrite E in X. eauto.
  - destruct (load_stage1 translated ans) as (u' & blk & X & J); [done|]. rewrite E in X. eauto.
  - destruct (load_stage2 translated ans) as (u' & X & J); [done|]. rewrite E in X. eauto.
  - destruct (load_stage3 translated ans) as (u' & X & J); [done|]. rewrite E in X. eauto.
Qed.

End One.

End Loads.
