(* ===== verification/LsqEvents.v ===== *)
(** The events of the loads and of the memory behind the queues keep the invariant. *)
From Stdlib Require Import Sorted.
From stdpp Require Import gmap.
From S2P Require Import Prelude CircularBuffer Bytes StoreBuffer StoreBufferInv StoreBufferView.
From S2P Require Import StoreBufferLsq StoreBufferSteps StoreBufferProps.
From S2P Require Import CircularQueue LsqUnit LsqRead LsqPipe LsqOffload LsqSys LsqInv LsqUpd LsqReadOk.
From S2P Require Import LsqCheck LsqLoad.

Section Events.

Context {C : Type} `{CircularBufferLaws C nat}.
Context (P : LsqParams) (SP : SbParams) (T : nat) (tid : Z) (va : Z → Z).
Context (acc : Z → LSQRequest) (sdata : Z → list Z) (maxData : nat) (m0 : memory).
Hypothesis PO : params_ok SP T.
Hypothesis Hline : lp_lineBits P = sp_lineBits SP.
Hypothesis Htid : (0 ≤ tid < Z.of_nat T)%Z.
Hypothesis Hplain : ∀ s, plain P va acc sdata maxData s.
Hypothesis Hmiss : lp_ldMissReplay P = true.

Local Notation k := (lp_lineBits P).
Local Notation lo := (a_lo acc).
Local Notation len := (a_len acc).
Local Notation linv := (ls_inv P SP T tid va acc sdata maxData m0).
Local Notation lctx := (lctx P SP tid).
Local Notation ld_step := (ld_step P SP tid acc sdata).
Local Notation step := (ls_step P SP acc sdata).
Implicit Types s : LSys C.

Lemma shape_of q : acc_shape acc sdata q.
Proof. apply (pl_shape _ _ _ _ _ _ (Hplain q)). Qed.

Lemma addr_in_u q j : j < len q → in_u 64 (lo q + Z.of_nat j).
Proof. intros Hj. destruct (shape_of q). unfold a_len, in_u in *. lia. Qed.

(** ** Live instructions *)

Lemma live_load_spec s idx i :
  linv s → live_load s idx = Some i →
  ∃ p e, idx = (cq_head (lu_LQ (ls_u s)) + Z.of_nat p)%Z ∧ lq s !! p = Some e ∧ lqe_inst e = Some i.
Proof.
  intros [Q _ _]. pose proof (qi_wfL _ _ _ _ Q) as W. unfold live_load.
  destruct (isValidIdx _ idx) eqn:Hv; [|done]. apply isValidIdx_iff in Hv; [|done].
  destruct (cq_at_list _ idx W Hv) as (e & -> & He). intros Hi.
  exists (Z.to_nat (idx - cq_head (lu_LQ (ls_u s)))), e. split_and!; [lia|done|done].
Qed.

Lemma live_store_spec s idx e :
  linv s → live_store s idx = Some e →
  ∃ p, idx = (cq_head (lu_SQ (ls_u s)) + Z.of_nat p)%Z ∧ sq s !! p = Some e.
Proof.
  intros [Q _ _]. pose proof (qi_wfS _ _ _ _ Q) as W. unfold live_store.
  destruct (isValidIdx _ idx) eqn:Hv; [|done]. apply isValidIdx_iff in Hv; [|done].
  destruct (cq_at_list _ idx W Hv) as (e' & -> & He). intros [= ->].
  exists (Z.to_nat (idx - cq_head (lu_SQ (ls_u s)))). split; [lia|done].
Qed.

(** ** The store buffer and the memory *)

Lemma inv_sb s b' :
  linv s → sys_inv SP T (own tid) va b' →
  (∀ a, in_u 64 a → sys_view SP (own tid) b' a = base SP tid s a) →
  (∀ a, in_u 64 a → sb_byte k (sl_sb (ss_lsq (ls_sb s))) tid a = None → sb_byte k (sl_sb (ss_lsq b')) tid a = None) →
  (∀ q j x, ls_bus s !! q = Some x → x = lo q → j < len q →
     ss_mem b' (lo q + Z.of_nat j)%Z = ss_mem (ls_sb s) (lo q + Z.of_nat j)%Z) →
  linv (with_sb s b').
Proof.
  intros [Q U D] I' Hb Hn Hm. split; [destruct Q; by split|destruct U; by split|].
  destruct D. split; try done.
  - intros p e i Hp Hi Ha. apply (ld_data_ext acc sdata (lctx s i)); [|by apply (di_ld p e)].
    intros _. split.
    + apply ast_le_refls.
    + intros j Hj. split; [apply Hb|apply Hn]; by apply addr_in_u.
  - intros p e i Hp Hi Hex x Hx. destruct (di_bus p e i Hp Hi Hex x Hx) as (E & d & Hd & Hj).
    split; [done|]. exists d. split; [done|]. intros j Hjl. rewrite Hj by done. f_equal. symmetry.
    by apply (Hm _ _ x).
  - intros a Ha. simpl. rewrite di_mem by done. apply st_fold_ext. symmetry. by apply Hb.
Qed.

Local Notation K := (sp_lineBits SP).

(** What the steps of the buffer, insertions apart, leave of its bytes and of the memory. *)
Lemma buffer_frame (b : SbSys C) ev b' x :
  sys_inv SP T (own tid) va b → sb_step SP b ev = Ok (b', x) →
  match ev with EvInsert _ _ _ _ _ => False | _ => True end →
  (∀ a, in_u 64 a → sb_byte K (sl_sb (ss_lsq b)) tid a = None → sb_byte K (sl_sb (ss_lsq b')) tid a = None) ∧
  (∀ a, in_u 64 a → ss_mem b' a ≠ ss_mem b a →
     ∃ p r, ev = EvCacheWrite p ∧ in_flight (ss_lsq b) p = Some r ∧ block_addr K a = sr_paddr r).
Proof.
  intros I E Hev. pose proof (yi_lsq _ _ _ _ _ I) as IL. pose proof (line_bits SP T PO) as Hk.
  pose proof (sv_sb _ _ _ IL) as J.
  destruct ev as [?|sqf ac|ac|busy| |p|p]; [done|simpl in E..].
  - destruct (writeback_spec SP T PO (ss_lsq b) sqf ac IL) as (l' & El & _ & W). rewrite El in E. injection E as <- <-.
    destruct W as (_ & _ & W & _). split; [intros a _; simpl; by rewrite W|by intros a _ []].
  - unfold recvReqRetry in E.
    destruct (retry_spec SP T PO (set_port (ss_lsq b) (sl_usedStorePorts (ss_lsq b)) false) ac)
      as (l' & r & El & _ & W & _); [by apply (sl_inv_fields SP T (ss_lsq b)); try apply IL|].
    rewrite El in E. injection E as <- <-. destruct W as (_ & _ & W & _). split; [intros a _; simpl; by rewrite W|by intros a _ []].
  - injection E as <- <-. split; [done|by intros a _ []].
  - injection E as <- <-. split; [done|by intros a _ []].
  - destruct (in_flight (ss_lsq b) p) as [r|] eqn:Hf; [|injection E as <- <-; split; [done|by intros a _ []]].
    destruct (bool_decide _); [injection E as <- <-; done|].
    destruct (in_flight_live SP T _ _ _ IL Hf) as (e & Hl & Hs & Er). rewrite Er in E. simpl in E.
    rewrite (at_res_Some _ _ _ (proj1 Hl)) in E. injection E as <- <-. split; [done|].
    intros a Ha. simpl. rewrite (entry_write SP T PO _ _ _ _ _ _ J Hl Ha). destruct (decide _) as [Ea|]; [|done].
    intros _. exists p, r. split_and!; [done|done|by rewrite Er].
  - destruct (bool_decide (p ∈ ss_done b)) eqn:Hd; [|injection E as <- <-; split; [done|by intros a _ []]].
    apply bool_decide_eq_true in Hd. destruct (yi_done _ _ _ _ _ I p Hd) as (e & Hl & Hs & Hm).
    destruct (sending_mapped SP T _ _ _ IL Hl Hs) as [Hmap _].
    destruct (recvSbufferResp_spec SP T (ss_lsq b) p e PO IL Hl Hs) as (l' & El & _ & Esb & _).
    rewrite El in E. injection E as <- <-. split; [|done]. intros a Ha Hn. simpl. rewrite Esb.
    destruct (release_bytes SP _ (sl_sb (ss_lsq b)) p e tid a Hk J Hl Hmap) as [(_ & _ & X)|[_ ->]]; try done.
    + pose proof (po_threads _ _ PO). unfold in_u. lia.
    + destruct (sb_byte K (after_release _ _ _) tid a); [congruence|done].
Qed.

(** The bytes of an access are in the block of its address. *)
Lemma access_block q j : j < len q → block_addr k (lo q + Z.of_nat j) = block_addr k (lo q).
Proof.
  intros Hj. pose proof (line_bits SP T PO) as Hk. rewrite <- Hline in Hk. destruct (shape_of q) as [S1 S2 S3 _ _].
  pose proof (pl_block _ _ _ _ _ _ (Hplain q)) as Hb. unfold a_len in Hj.
  destruct (block_split k (lo q) Hk) as ([Ea Ho] & Hba & Haa); [unfold in_u; lia|].
  destruct (block_addr_of k (block_addr k (lo q)) (block_off k (lo q) + Z.of_nat j) Hk Hba Haa) as (_ & X & _); [lia|].
  rewrite <- X. f_equal. lia.
Qed.

Lemma own_range (b : Z) : (0 ≤ own tid b < Z.of_nat T)%Z.
Proof. done. Qed.

Lemma step_buffer s ev : linv s → ∃ s', step s (LBuffer ev) = Ok s' ∧ linv s'.
Proof.
  intros I. pose proof (di_sb _ _ _ _ _ _ _ _ _ (iv_d _ _ _ _ _ _ _ _ _ _ I)) as IS.
  assert (match ev with EvInsert _ _ _ _ _ => False | _ => True end →
    match ev with EvCacheWrite p => block_settled P s p = true | _ => True end →
    ∃ r, sb_step SP (ls_sb s) ev = Ok r ∧ linv (with_sb s (fst r))) as X.
  { intros Hev Hset. destruct (sb_step_ok SP T PO (own tid) va own_range (ls_sb s) ev IS) as (b' & x & E & I' & V);
      [by destruct ev|].
    destruct (buffer_frame _ _ _ _ IS E Hev) as [Fb Fm]. exists (b', x). split; [done|]. simpl.
    apply (inv_sb s b' I I').
    - intros a Ha. rewrite V by done. destruct x; [|done]. by destruct ev.
    - rewrite Hline. exact Fb.
    - intros q j y Hy Ey Hj. destruct (decide (ss_mem b' (lo q + Z.of_nat j)%Z = ss_mem (ls_sb s) (lo q + Z.of_nat j)%Z))
        as [|Hne]; [done|]. exfalso.
      destruct (Fm _ (addr_in_u q j Hj) Hne) as (p & r & -> & Hf & Eb). unfold block_settled in Hset.
      rewrite Hf in Hset. rewrite forallb_forall in Hset.
      specialize (Hset (q, y)). rewrite <- list_elem_of_In, elem_of_map_to_list in Hset. specialize (Hset Hy).
      apply negb_true_iff, Z.eqb_neq in Hset. apply Hset. simpl. rewrite Ey, <- Eb, <- Hline. symmetry.
      by apply access_block. }
  unfold ls_step. destruct ev; try (destruct X as ((b' & x) & E & J); [done|done|]; rewrite E; simpl; eauto).
  - eauto.
  - destruct (block_settled P s p) eqn:Hset; [|eauto].
    destruct X as ((b' & x) & E & J); [done|done|]. rewrite E. simpl. eauto.
Qed.

(** ** Loads *)

(** A load that keeps its place in the pipeline. *)
Lemma inv_load_keep s p e i e' i' :
  linv s → lq s !! p = Some e → lqe_inst e = Some i → ld_step s p i e' i' →
  mi_stage i' = mi_stage i → mi_replay i' = mi_replay i → mi_executed i' = mi_executed i →
  linv (with_u s (lqp (ls_u s) p e')).
Proof.
  intros I Hp Hi S E1 E2 E3. pose proof (iv_u _ _ _ _ _ _ _ _ _ _ I) as U.
  pose proof (same_id_seq _ _ (lt_id _ _ _ _ _ _ _ _ _ _ S)) as Eq.
  apply (inv_load P SP T tid va acc sdata maxData m0 s (ls_u s) p e i e' i'); try done; try apply U.
  - intros St. destruct (ui_stall _ _ _ U St) as (p' & x & j & Ej & Hx & Hj & X1 & X2 & X3).
    destruct (decide (p' = p)) as [->|Hne]; [left|right; split_and!; [done..|lia]].
    assert (x = e) as -> by congruence. assert (j = i) as -> by congruence.
    rewrite Eq, E1, E3. done.
  - split; [apply U|]. intros x Hx. destruct (decide (ld_seq x = mi_seqNum i)) as [Ex|]; [right|by left].
    destruct (ui_refs _ _ _ U x Hx) as [_ Hr]. destruct (Hr p e i Hp Hi ltac:(done)) as (Y1 & Y2 & Y3).
    rewrite E1, E2. done.
Qed.

Lemma step_issue_load s idx : linv s → ∃ s', step s (LIssueLoad idx) = Ok s' ∧ linv s'.
Proof.
  intros I. pose proof (iv_u _ _ _ _ _ _ _ _ _ _ I) as U. simpl.
  destruct (live_load s idx) as [i|] eqn:Hl; [|eauto].
  destruct (live_load_spec s idx i I Hl) as (p & e & -> & Hp & Hi).
  destruct (can_issue _ _ _) eqn:Hc; [|eauto]. unfold can_issue in Hc.
  rewrite !andb_true_iff, !negb_true_iff in Hc. destruct Hc as ((((Hs & Hex) & Hr1) & Hr2) & Hst).
  apply bool_decide_eq_true in Hs. apply bool_decide_eq_false in Hr1, Hr2.
  pose proof (one_has P SP T tid va acc sdata maxData m0 s p e I Hp) as Hhas.
  pose proof (one_ok P SP T tid va acc sdata maxData m0 s p e i I Hp Hi) as KL.
  pose proof (one_unit P SP T tid va acc sdata maxData m0 s p e I Hp) as Eu.
  pose proof (lq_get_lqp (ls_u s) p e i Hhas Hi) as G.
  pose proof (lq_put_lqp (ls_u s) p e (setSkipRawCheck (beginPipelining i) true) Hhas) as Pt.
  rewrite Eu in G, Pt. unfold issueToLoadPipe. rewrite G. cbn [res_bind].
  rewrite bool_decide_eq_false_2 by (rewrite Hs; auto). cbn [panic_if res_bind]. rewrite Pt. cbn [res_bind].
  eexists. split; [done|]. destruct (lk_flags _ _ _ _ (lk_core _ _ _ _ KL)) as (_ & _ & Hsk).
  apply (inv_load P SP T tid va acc sdata maxData m0 s (ls_u s) p e i _ (setSkipRawCheck (beginPipelining i) true));
    try done; try apply U.
  - apply (ld_step_intro P SP T tid va acc sdata maxData m0 s p e i I Hp Hi); try done; [by intros [? _]|].
    split; try done.
    + by apply (core_pipe acc _ e i); [apply KL|..].
    + simpl. congruence.
    + intros _ _. apply (lk_out _ _ _ _ KL Hex). rewrite Hs. by intros [? _].
  - intros St. right. split_and!; try done. intros E. rewrite St, E, Z.eqb_refl in Hst. done.
  - split; [apply U|]. intros x Hx. left. split; [|done]. intros Ex.
    destruct (ui_refs _ _ _ U x Hx) as [_ Hr]. by destruct (Hr p e i Hp Hi ltac:(done)) as (_ & _ & [?|?]).
Qed.

Lemma step_hint s idx : linv s → ∃ s', step s (LHint idx) = Ok s' ∧ linv s'.
Proof.
  intros I. simpl. destruct (live_load s idx) as [i|] eqn:Hl; [|eauto].
  destruct (live_load_spec s idx i I Hl) as (p & e & -> & Hp & Hi).
  pose proof (one_has P SP T tid va acc sdata maxData m0 s p e I Hp) as Hhas.
  pose proof (one_unit P SP T tid va acc sdata maxData m0 s p e I Hp) as Eu.
  set (i' := mi_set_cache i (mi_pending i) false (mi_memData i)).
  pose proof (lq_put_lqp (ls_u s) p e i' Hhas) as Pt. rewrite Eu in Pt.
  assert (lq_get (ls_u s) (cq_head (lu_LQ (ls_u s)) + Z.of_nat p) = Ok i) as Hg.
  { pose proof (lq_get_lqp (ls_u s) p e i Hhas Hi) as X. by rewrite Eu in X. }
  unfold recvHint. rewrite Hg. cbn [res_bind].
  destruct (_ && mi_waiting i); [|eexists; split; [done|by destruct s]]. fold i'. rewrite Pt. cbn [res_bind].
  eexists. split; [done|]. apply (inv_load_keep s p e i _ i'); try done.
  destruct (ld_step_refl P SP T tid va acc sdata maxData m0 s p e i I Hp Hi) as [? KL ? D B].
  split; try done. destruct KL as [KC]. split; try done. destruct KC. by split.
Qed.

(** ** The bus *)

Lemma inv_bus s bus :
  linv s → (Z.of_nat (size bus) ≤ cq_capacity (lu_LQ (ls_u s)))%Z →
  (∀ q x, bus !! q = Some x → (q ≤ ls_last s)%Z) →
  (∀ p e i, lq s !! p = Some e → lqe_inst e = Some i → ld_bus acc (lctx (with_bus s bus) i) i) →
  linv (with_bus s bus).
Proof.
  intros [Q U D] Hs Hl Hb. split; [destruct Q; by split|destruct U; by split|]. destruct D. by split.
Qed.

Lemma step_bus_clear s blk : linv s → ∃ s', step s (LBusClear blk) = Ok s' ∧ linv s'.
Proof.
  intros I. simpl. pose proof (iv_q _ _ _ _ _ _ _ _ _ _ I) as Q. unfold busClear. set (bus := filter _ (ls_bus s)).
  assert (bus ⊆ ls_bus s) as Hsub by apply map_filter_subseteq.
  assert (Z.of_nat (size bus) ≤ cq_capacity (lu_LQ (ls_u s)))%Z as Hs.
  { pose proof (map_subseteq_size _ _ Hsub). pose proof (qi_busSize _ _ _ _ Q). lia. }
  apply Z.ltb_ge in Hs as Hs'. rewrite Hs'. cbn [panic_if res_bind]. eexists. split; [done|]. apply inv_bus; try done.
  - intros q x Hx. apply (qi_bus _ _ _ _ Q q x). by eapply lookup_weaken.
  - intros p e i Hp Hi Hex x Hx.
    apply (di_bus _ _ _ _ _ _ _ _ _ (iv_d _ _ _ _ _ _ _ _ _ _ I) p e i Hp Hi Hex x).
    exact (lookup_weaken _ _ _ _ Hx Hsub).
Qed.

(** ** The answer of the cache *)

Lemma cache_data_spec s q :
  length (cache_data acc s q) = len q ∧
  ∀ j, j < len q → cache_data acc s q !! j = Some (ss_mem (ls_sb s) (lo q + Z.of_nat j)%Z).
Proof. unfold cache_data. split; [apply mem_read_length|]. intros j Hj. by apply mem_read_lookup. Qed.

(** The buffer of the load holds the bytes of the memory. *)
Lemma ld_step_resp s p e i i' :
  linv s → lq s !! p = Some e → lqe_inst e = Some i →
  same_id i i' → mi_executed i' = mi_executed i → mi_stage i' = mi_stage i → mi_replay i' = mi_replay i →
  mi_translationStarted i' = mi_translationStarted i → mi_effAddrValid i' = mi_effAddrValid i →
  mi_physEffAddr i' = mi_physEffAddr i → mi_effSize i' = mi_effSize i → mi_saved i' = mi_saved i →
  mi_strictlyOrdered i' = mi_strictlyOrdered i → mi_hitExternalSnoop i' = mi_hitExternalSnoop i →
  mi_result i' = mi_result i → mp_skipFollowing (mi_pipe i') = mp_skipFollowing (mi_pipe i) →
  mp_skipRawCheck (mi_pipe i') = mp_skipRawCheck (mi_pipe i) →
  mp_fullForward (mi_pipe i') = mp_fullForward (mi_pipe i) →
  mp_wakeUpEarly (mi_pipe i') = mp_wakeUpEarly (mi_pipe i) →
  (mp_cacheHit (mi_pipe i') = mp_cacheHit (mi_pipe i) ∨ mi_stage i = Some 2) →
  mi_memData i' = Some (cache_data acc s (mi_seqNum i)) →
  ld_step s p i (lqe_with_inst e i') i'.
Proof.
  intros I Hp Hi ID *. intros E1 E2 E3 E4 E5 E6 E7 E8 E9 E10 E11 E12 E13 E14 E15 Hhit Ed.
  pose proof (same_id_seq _ _ ID) as Eq. destruct (cache_data_spec s (mi_seqNum i)) as [Ld Hd].
  pose proof (one_ok P SP T tid va acc sdata maxData m0 s p e i I Hp Hi) as KL.
  pose proof (lk_core _ _ _ _ KL) as KC.
  assert (lctx s i' = lctx s i) as Ec.
  { unfold LsqInv.lctx. rewrite Eq. by destruct ID as (_ & -> & _). }
  assert (not_sent i → not_sent i') as Hns.
  { intros X r. rewrite E5, E8. apply X. }
  split; [done| |congruence| |]; rewrite ?Ec.
  - destruct KL. split; rewrite ?E1, ?E2, ?E3, ?E5, ?E11, ?E13, ?E14, ?E15, ?E8, ?Eq, ?Ed; try done; auto.
    + apply (core_upd acc _ e i i' KC ID); try done; rewrite ?E8, ?Ed.
      * by apply (lk_saved _ _ _ _ KC).
      * intros Hv. by apply (lk_addr _ _ _ _ KC).
      * by intros d0 [= <-].
    + intros n Hn Hlt. destruct (lk_early n Hn Hlt) as [Hc ?]. split; [|done]. unfold captured in *.
      destruct Hhit as [->|Hs]; [by rewrite E14|]. rewrite Hn in Hs. injection Hs as ->. lia.
    + intros X Y. destruct (lk_fwd X Y) as [_ F]. done.
  - intros Ha. destruct (one_data P SP T tid va acc sdata maxData m0 s p e i I Hp Hi Ha) as [D1 D2].
    split; rewrite ?E1, ?E2, ?E3, ?E8, ?Eq, ?E11; [done|]. intros X Y.
    destruct (D2 X Y) as (r & Hr & F1 & F2 & w & V & Hw). exists r. split; [done|]. unfold read_ok. rewrite Eq.
    split; [done|]. split; [done|]. exists w. split; [done|]. intros j Hj. specialize (Hw j Hj).
    destruct (fwd_at _ j); [done|]. destruct Hw as (HN & Hby & _). split; [done|]. split; [done|]. intros _.
    eexists. split; [done|]. rewrite Hd by done. symmetry.
    rewrite (load_val_noknown acc sdata shape_of _ _ _ _ _ V HN Hj).
    by rewrite (one_mem P SP tid Hline), Hby.
  - intros Hex x Hx. rewrite E1 in Hex. rewrite Eq, Ed.
    destruct (one_bus P SP T tid va acc sdata maxData m0 s p e i I Hp Hi Hex x Hx) as (? & _).
    split; [done|]. eexists. split; [done|]. done.
Qed.

(** The answer stays on the bus. *)
Lemma inv_bus_insert s p e i :
  linv s → lq s !! p = Some e → lqe_inst e = Some i → mi_memData i = Some (cache_data acc s (mi_seqNum i)) →
  (Z.of_nat (size (ls_bus s)) < cq_capacity (lu_LQ (ls_u s)))%Z →
  linv (with_bus s (<[mi_seqNum i := lo (mi_seqNum i)]> (ls_bus s))).
Proof.
  intros I Hp Hi Hd Hs. pose proof (iv_q _ _ _ _ _ _ _ _ _ _ I) as Q. apply inv_bus; try done.
  - rewrite map_size_insert. destruct (ls_bus s !! _); simpl; lia.
  - intros q x [[<- _]|[_ Hx]]%lookup_insert_Some; [|by apply (qi_bus _ _ _ _ Q q x)].
    by apply (qi_lastL _ _ _ _ Q p e).
  - intros p' e' j Hp' Hj Hex x Hx. simpl in Hx. apply lookup_insert_Some in Hx as [[Eq <-]|[_ Hx]].
    + assert (p' = p) as ->.
      { by apply (lq_seq_inj P SP T tid va acc sdata maxData m0 s p' p e' e j i I Hp' Hp Hj Hi). }
      assert (e' = e) as -> by congruence. assert (j = i) as -> by congruence. split; [done|].
      eexists. split; [done|]. simpl. apply cache_data_spec.
    + by apply (di_bus _ _ _ _ _ _ _ _ _ (iv_d _ _ _ _ _ _ _ _ _ _ I) p' e' j Hp' Hj Hex x).
Qed.

Lemma step_resp s idx hit : linv s → ∃ s', step s (LResp idx hit) = Ok s' ∧ linv s'.
Proof.
  intros I. simpl. destruct (live_load s idx) as [i|] eqn:Hl; [|eauto].
  destruct (live_load_spec s idx i I Hl) as (p & e & -> & Hp & Hi).
  destruct (mi_pending i && _) eqn:Hc; [|eauto]. apply andb_true_iff in Hc as [Hpend Hc].
  pose proof (one_has P SP T tid va acc sdata maxData m0 s p e I Hp) as Hhas.
  pose proof (one_unit P SP T tid va acc sdata maxData m0 s p e I Hp) as Eu.
  pose proof (one_core P SP T tid va acc sdata maxData m0 s p e i I Hp Hi) as KC.
  pose proof (lq_get_lqp (ls_u s) p e i Hhas Hi) as G.
  pose proof (λ x, lq_put_lqp (ls_u s) p e x Hhas) as Pt. rewrite Eu in G, Pt.
  unfold recvTimingResp. rewrite G. cbn [res_bind]. rewrite Hpend. cbn [assert_ res_bind].
  assert ((match mi_saved i with Some r => isNormalLd r | None => true end) = true) as ->.
  { destruct (mi_saved i) as [r|] eqn:Er; [|done]. destruct (lk_saved _ _ _ _ KC r Er) as (n0 & ra & rb & ->).
    unfold isNormalLd. simpl. by rewrite (pl_split _ _ _ _ _ _ (Hplain _)), (pl_flags _ _ _ _ _ _ (Hplain _)). }
  rewrite Hmiss. cbn [andb]. set (d := cache_data acc s (mi_seqNum i)).
  assert (∀ hitc pend wait, (hitc = false ∨ mi_stage i = Some 2) →
    let i' := mi_set_cache (mi_set_memData (if hitc : bool then setCacheHit i else i) (Some d)) pend wait (Some d) in
    ld_step s p i (lqe_with_inst e i') i' ∧ linv (with_u s (lqp (ls_u s) p (lqe_with_inst e i')))) as X.
  { intros hitc pend wait Hh i'.
    assert (ld_step s p i (lqe_with_inst e i') i') as S.
    { apply ld_step_resp; try done; try (unfold i'; by destruct hitc).
      destruct Hh as [->|?]; [by left|by right]. }
    split; [done|]. apply (inv_load_keep s p e i _ i'); try done; unfold i'; by destruct hitc. }
  destruct hit.
  - rewrite Pt. cbn [res_bind fst snd]. eexists. split; [done|]. unfold can_hit in Hc.
    rewrite !andb_true_iff in Hc. destruct Hc as ((Hs & _) & _). apply bool_decide_eq_true in Hs.
    exact (proj2 (X true false (mi_waiting i) (or_intror Hs))).
  - change (mi_waiting (mi_set_memData i (Some d))) with (mi_waiting i).
    destruct (mi_waiting i); rewrite Pt; cbn [res_bind fst snd]; (eexists; split; [done|]).
    + exact (proj2 (X false false false (or_introl eq_refl))).
    + destruct (X false false false (or_introl eq_refl)) as [S J]. simpl in S, J.
      set (i' := mi_set_cache _ _ _ _) in S, J. set (s1 := with_u s _) in J.
      pose proof (inv_bus_insert s1 p (lqe_with_inst e i') i' J) as Y. apply Z.ltb_lt in Hc. apply Y; try done.
      change (cq_list (lu_LQ (lqp (ls_u s) p (lqe_with_inst e i'))) !! p = Some (lqe_with_inst e i')).
      rewrite lqp_list by done. apply list_lookup_insert_eq. apply Hhas.
Qed.

(** ** The pipeline *)

Lemma inv_cacheBlocked s b : linv s → linv (set_cacheBlocked s b).
Proof.
  intros I. destruct b; [|done]. pose proof (di_sb _ _ _ _ _ _ _ _ _ (iv_d _ _ _ _ _ _ _ _ _ _ I)) as IS.
  unfold set_cacheBlocked. apply inv_sb; try done. destruct IS. split; try done.
  by apply (sl_inv_fields SP T (ss_lsq (ls_sb s))); try apply yi_lsq.
Qed.

(** Without a violation nothing is squashed. *)
Lemma squash_check_none s q : linv s → SquashCheckAfterExe s q = s.
Proof.
  intros I. unfold SquashCheckAfterExe. by rewrite (ui_viol _ _ _ (iv_u _ _ _ _ _ _ _ _ _ _ I)).
Qed.

Lemma step_load s idx tr ans : linv s → ∃ s', step s (LLoad idx tr ans) = Ok s' ∧ linv s'.
Proof.
  intros I. simpl. destruct (live_load s idx) as [i|] eqn:Hl; [|eauto].
  destruct (live_load_spec s idx i I Hl) as (p & e & -> & Hp & Hi).
  destruct (bool_decide _) eqn:Hs; [|eauto]. apply bool_decide_eq_true in Hs.
  destruct (load_execute P SP T tid va acc sdata maxData m0 PO Hline Htid Hplain Hmiss s p e i I Hp Hi tr ans Hs)
    as (u' & blk & -> & J). cbn [res_bind fst snd]. eexists. split; [done|].
  pose proof (inv_cacheBlocked _ blk J) as J'. by rewrite squash_check_none.
Qed.

End Events.
