(* ===== verification/LsqStore.v ===== *)
(** The stages of a store keep the invariant. *)
From Stdlib Require Import Sorted.
From stdpp Require Import gmap.
From S2P Require Import Prelude CircularBuffer Bytes StoreBuffer StoreBufferInv StoreBufferView.
From S2P Require Import StoreBufferLsq StoreBufferSteps StoreBufferProps.
From S2P Require Import CircularQueue LsqUnit LsqRead LsqPipe LsqOffload LsqSys LsqInv LsqUpd.
From S2P Require Import LsqReadOk LsqCheck LsqLoad LsqEvents.

(** ** The status of a store *)

Definition st_ready (e : SQEntry) (s : SplitStoreStatus) : SQEntry :=
  sqe_with_ready e
    (sqe_addrReady e || match s with AddressReady => true | _ => false end)
    (sqe_dataReady e || match s with DataReady => true | _ => false end)
    (sqe_staFinish e || match s with StaPipeFinish => true | _ => false end)
    (sqe_stdFinish e || match s with StdPipeFinish => true | _ => false end).

Definition st_exec (e : SQEntry) (i : MInst) : MInst :=
  if splitStoreFinish e then mi_set_executed i (mi_result i) else i.

Definition st_set (e : SQEntry) (i : MInst) (s : SplitStoreStatus) : SQEntry :=
  sqe_with_inst (st_ready e s) (st_exec (st_ready e s) i).

Lemma st_exec_executed e i s :
  mi_executed i = splitStoreFinish e →
  mi_executed (st_exec (st_ready e s) i) = splitStoreFinish (st_ready e s).
Proof.
  unfold st_exec, splitStoreFinish. destruct (sqe_staFinish (st_ready e s) && sqe_stdFinish (st_ready e s)) eqn:E; [done|].
  intros ->. simpl in *. destruct (sqe_staFinish e), (sqe_stdFinish e); done.
Qed.

Lemma st_exec_id e i : same_id i (st_exec e i).
Proof. unfold st_exec. by destruct (splitStoreFinish e). Qed.

Lemma setStatus_spec e i s :
  sqe_inst e = Some i → mi_executed i = splitStoreFinish e → setStatus e s = Ok (st_set e i s).
Proof.
  intros Hi Hx. unfold setStatus. fold (st_ready e s). cbv zeta. change (sqe_inst (st_ready e s)) with (sqe_inst e).
  rewrite Hi. cbn [get_at res_bind]. unfold st_set, st_exec.
  destruct (splitStoreFinish (st_ready e s)) eqn:E; [done|].
  pose proof (st_exec_executed e i s Hx) as X. unfold st_exec in X. rewrite E in X. rewrite X. simpl.
  unfold sqe_with_inst. simpl. by rewrite <- Hi.
Qed.

Lemma sq_status_sqp u p e i s :
  sq_has u p → sqe_inst e = Some i → mi_executed i = splitStoreFinish e →
  sq_status (sqp u p e) (cq_head (lu_SQ u) + Z.of_nat p) s = Ok (sqp u p (st_set e i s)).
Proof.
  intros Hh Hi Hx. unfold sq_status. rewrite sq_at_sqp by done. cbn [res_bind].
  rewrite (setStatus_spec e i s) by done. cbn [res_bind]. rewrite sq_cqput_sqp by done. cbn [res_bind]. by unfold sqp.
Qed.

Section Stores.

Context {C : Type} `{CircularBufferLaws C nat}.
Context (P : LsqParams) (SP : SbParams) (T : nat) (tid : Z) (va : Z → Z).
Context (acc : Z → LSQRequest) (sdata : Z → list Z) (maxData : nat) (m0 : memory).
Hypothesis Hplain : ∀ s, plain P va acc sdata maxData s.
Hypothesis Hwb : 2 ≤ lp_storeWbStage P.
Hypothesis Hshift : (0 ≤ lp_depCheckShift P)%Z.

Local Notation lo := (a_lo acc).
Local Notation len := (a_len acc).
Local Notation linv := (ls_inv P SP T tid va acc sdata maxData m0).
Local Notation step := (ls_step P SP acc sdata).
Local Notation st_ok := (st_ok acc sdata maxData).
Implicit Types s : LSys C.

(** ** What a store may become *)

(** A store that leaves the pipeline. *)
Lemma st_unstage idx e i : st_ok idx e i → st_ok idx (sqe_with_inst e (set_stage i None)) (set_stage i None).
Proof.
  intros []. split; try done. intros X. destruct (sk_known X) as (? & ? & ? & _). split_and!; done.
Qed.

(** ... or moves to a later stage. *)
Lemma st_move idx e i n n' :
  st_ok idx e i → mi_stage i = Some n → n ≤ n' → sqe_staFinish e = false →
  (mi_replay i = None → n' ≠ 0 → mi_translationStarted i = true) →
  (mi_replay i = None → 2 ≤ n' → sqe_addrReady e = true) →
  st_ok idx (sqe_with_inst e (set_stage i (Some n'))) (set_stage i (Some n')).
Proof.
  intros [] Hn Hle Hf H1 H2. split; try done.
  - intros X. destruct (sk_known X) as (? & ? & ? & Y). split_and!; try done. intros m [= <-]. specialize (Y n Hn). lia.
  - simpl. congruence.
  - intros m [= <-]. done.
  - intros m [= <-]. done.
Qed.

(** The data and the status bits. *)
Lemma st_flags idx e i dl d f g :
  st_ok idx e i → length dl = maxData →
  (sqe_dataReady e = true → d = true) → (sqe_staFinish e = true → f = true) → (sqe_stdFinish e = true → g = true) →
  (d = true → take (len (mi_seqNum i)) dl = sdata (mi_seqNum i)) → (g = true → d = true) →
  (ms_isSplitStoreAddr (mi_static i) = true → g = d) →
  (ms_isSplitStoreAddr (mi_static i) = false → d = sqe_dataReady e) →
  (f = true → mi_stage i = None ∧ sqe_addrReady e = true) →
  let e1 := sqe_with_ready (sqe_with_data e dl) (sqe_addrReady e) d f g in
  st_ok idx (sqe_with_inst e1 (st_exec e1 i)) (st_exec e1 i).
Proof.
  intros K Hl Hd Hf Hg Ht Hgd Hsp Hns Hst e1.
  assert (mi_executed (st_exec e1 i) = splitStoreFinish e1) as Hex.
  { unfold st_exec. destruct (splitStoreFinish e1) eqn:E; [done|]. rewrite (sk_exec _ _ _ _ _ _ K).
    unfold splitStoreFinish in *. simpl in E. destruct (sqe_staFinish e), (sqe_stdFinish e); try done.
    by rewrite Hf, Hg in E. }
  assert (∃ b, st_exec e1 i = MkMInst (mi_static i) (mi_lqIt i) (mi_sqIt i) (mi_pipe i)
    (mi_translationStarted i) (mi_effAddrValid i) (mi_physEffAddr i) (mi_effSize i) (mi_strictlyOrdered i)
    (mi_saved i) b (mi_atCommit i) (mi_pending i) (mi_waiting i) (mi_hitExternalSnoop i)
    (mi_possibleLoadViolation i) (mi_memData i) (mi_result i)) as (b & Eb).
  { unfold st_exec. destruct (splitStoreFinish _); [by exists true|]. exists (mi_executed i). by destruct i. }
  rewrite Eb in *. destruct K. split; try done; simpl.
  - intros X. destruct (sk_unknown X) as (? & ? & ?). split_and!; [done| |].
    + destruct f; [|done]. destruct (Hst eq_refl). congruence.
    + intros Y. rewrite Hns by done. auto.
  - intros Y Z. rewrite Hns by done. auto.
  - intros Y. by apply Hst.
  - intros Y. specialize (sk_canWB Y). unfold splitStoreFinish in *. simpl.
    destruct (sqe_staFinish e), (sqe_stdFinish e); try done. by rewrite Hf, Hg.
Qed.

(** The end of the address part, and of the data part with it. *)
Lemma st_finish idx e i :
  st_ok idx e i → mi_stage i = None → sqe_addrReady e = true →
  let e1 := st_set e i StaPipeFinish in let i1 := st_exec (st_ready e StaPipeFinish) i in
  st_ok idx e1 i1 ∧
  (ms_isSplitStoreAddr (mi_static i) = false →
   st_ok idx (st_set e1 i1 StdPipeFinish) (st_exec (st_ready e1 StdPipeFinish) i1)).
Proof.
  intros K Hs Ha e1 i1.
  assert (∀ t e i, (t = StaPipeFinish ∨ t = StdPipeFinish) → st_ok idx e i → mi_stage i = None → sqe_addrReady e = true →
    (t = StdPipeFinish → ms_isSplitStoreAddr (mi_static i) = false) →
    st_ok idx (st_set e i t) (st_exec (st_ready e t) i)) as X.
  { intros t e0 i0 Ht K0 Hs0 Ha0 Hsp. unfold st_set, st_ready.
    pose proof (sk_whole _ _ _ _ _ _ K0) as Hw. pose proof (sk_std _ _ _ _ _ _ K0) as Hsd.
    pose proof (sk_std' _ _ _ _ _ _ K0) as Hsd'.
    destruct Ht as [-> | ->]; rewrite ?orb_false_r, ?orb_true_r;
      apply (st_flags idx e0 i0 (sqe_data e0)); try done; try apply K0; auto.
    intros E. rewrite Hsp in E; done. }
  assert (st_ok idx e1 i1) as K1 by (by apply X; [left|..]). split; [done|]. intros Hsp.
  assert (mi_static i1 = mi_static i ∧ mi_stage i1 = mi_stage i) as [E1 E2].
  { unfold i1, st_exec. by destruct (splitStoreFinish _). }
  apply X; [by right|done|congruence|simpl; by rewrite Ha|congruence].
Qed.

(** The address is translated. *)
Lemma st_translated idx e i :
  st_ok idx e i → mi_stage i = Some 0 → mi_replay i = None → mi_translationStarted i = false →
  let r := acc (mi_seqNum i) in
  let i' := set_stage (mi_set_memData (mi_set_valid (mi_set_addr i
              (mr_paddr (default (lr_mainReq r) (head (lr_reqs r)))) (lr_size r) (rf_isStrictlyOrdered (lr_flags r)))
              true true (Some r)) (Some (sta_data acc sdata i))) (Some 1) in
  st_ok idx (sqe_with_inst (sqe_with_request e (Some r) (sqe_size e) (sqe_isAllZeros e)) i') i'.
Proof.
  intros K Hs Hr Htr. cbv zeta. pose proof (Hplain (mi_seqNum i)) as PL.
  rewrite (pl_reqs _ _ _ _ _ _ PL), (pl_flags _ _ _ _ _ _ PL).
  assert (sqe_addrReady e = false) as Ha.
  { destruct (sqe_addrReady e) eqn:E; [|done]. destruct (sk_known _ _ _ _ _ _ K E). congruence. }
  destruct K. split; try done; simpl.
  - intros _. split_and!; try done. apply (pl_size _ _ _ _ _ _ PL).
  - intros d [= <-]. change (mi_seqNum (set_stage _ _)) with (mi_seqNum i). unfold sta_data. destruct (ms_isSplitStoreAddr _).
    + rewrite length_replicate. unfold a_len, a_size. by rewrite (pl_size _ _ _ _ _ _ PL).
    + apply (sh_data _ _ _ (pl_shape _ _ _ _ _ _ PL)).
  - intros _ _ Hsp. unfold sta_data. by rewrite Hsp.
  - congruence.
  - intros X. destruct (sk_unknown Ha) as (_ & ? & _). congruence.
  - intros n [= <-] _ ?. lia.
Qed.

(** The entry is written. *)
Lemma st_ok_write idx e i so dl :
  st_ok idx e i → mi_stage i = Some 1 → mi_replay i = None → mi_translationStarted i = true →
  sqe_addrReady e = false → length dl = maxData →
  (ms_isSplitStoreAddr (mi_static i) = true → dl = sqe_data e) →
  (ms_isSplitStoreAddr (mi_static i) = false → take (len (mi_seqNum i)) dl = sdata (mi_seqNum i)) →
  (∀ n, so = Some n → 2 ≤ n) →
  let i' := set_stage (mi_set_memData i None) so in
  st_ok idx
    (sqe_with_inst (sqe_with_ready
      (sqe_with_data (sqe_with_request e (Some (acc (mi_seqNum i))) (a_size acc (mi_seqNum i)) false) dl)
      true (sqe_dataReady e || negb (ms_isSplitStoreAddr (mi_static i))) (sqe_staFinish e) (sqe_stdFinish e)) i') i'.
Proof.
  intros K Hs Hr Htr Ha Hl Hsp Hns Hso i'. destruct K. destruct (sk_unknown Ha) as (U1 & U2 & U3).
  destruct (sk_tr Htr) as (T1 & T2 & T3 & T4 & T5). destruct sk_flags as (F1 & F2 & F3). split; try done; simpl.
  - intros X. change (mi_seqNum i') with (mi_seqNum i).
    destruct (ms_isSplitStoreAddr (mi_static i)) eqn:E; [|by apply Hns].
    rewrite Hsp by done. rewrite orb_false_r in X. by apply sk_ready.
  - intros X. by rewrite sk_std.
  - intros X. rewrite X, orb_false_r. auto.
  - intros X _. by rewrite X, orb_true_r.
  - congruence.
Qed.

(** The buffer of the instruction. *)
Lemma st_memData idx e i m :
  st_ok idx e i → ms_isSplitStoreAddr (mi_static i) = true → length m = len (mi_seqNum i) →
  st_ok idx (sqe_with_inst e (mi_set_memData i (Some m))) (mi_set_memData i (Some m)).
Proof.
  intros [] Hsp Hm. split; try done.
  - by intros d [= <-].
  - simpl. intros _ _. congruence.
Qed.

(** A store that starts its way. *)
Lemma st_begin idx e i :
  st_ok idx e i → sqe_addrReady e = false →
  st_ok idx (sqe_with_inst e (beginPipelining i)) (beginPipelining i).
Proof.
  intros K Ha. destruct K. destruct (sk_unknown Ha) as (U1 & U2 & U3). split; try done.
  - by left.
  - simpl. congruence.
  - simpl. congruence.
  - intros n [= <-] _ ?. lia.
  - intros n [= <-] _ ?. lia.
Qed.

(** The translation is late. *)
Lemma st_late idx e i :
  st_ok idx e i → sqe_addrReady e = false →
  let i' := set_stage (set_replayType i (Some TLBMissReplay)) (Some 1) in st_ok idx (sqe_with_inst e i') i'.
Proof.
  intros K Ha i'. destruct K. destruct (sk_unknown Ha) as (U1 & U2 & U3). split; try done.
  - by right.
  - simpl. congruence.
  - simpl. congruence.
Qed.

(** ** The end of a stage *)

Definition store_tail (v : LSQUnit) (idx : Z) (n : nat) : res LSQUnit :=
  let! i := sq_get v idx in
  if (n =? 2)%nat && bool_decide (mi_replay i ≠ None) then
    sq_put (emit_opt v (if needs i TLBMissReplay then Some (OutDefer (mi_seqNum i)) else None)) idx
      (set_stage i None)
  else if (n =? lp_storeWbStage P - 1)%nat then storeFinish v idx
  else sq_put v idx (set_stage i (Some (S n))).

Lemma st_set_stage e i t :
  sqe_with_inst (st_ready e t) (set_stage (st_exec (st_ready e t) i) None) =
  st_set (sqe_with_inst e (set_stage i None)) (set_stage i None) t.
Proof.
  unfold st_set, st_exec. change (splitStoreFinish (st_ready (sqe_with_inst e (set_stage i None)) t))
    with (splitStoreFinish (st_ready e t)). by destruct (splitStoreFinish (st_ready e t)).
Qed.

Lemma st_exec_stage e i t :
  set_stage (st_exec (st_ready e t) i) None =
  st_exec (st_ready (sqe_with_inst e (set_stage i None)) t) (set_stage i None).
Proof.
  unfold st_exec. change (splitStoreFinish (st_ready (sqe_with_inst e (set_stage i None)) t))
    with (splitStoreFinish (st_ready e t)). by destruct (splitStoreFinish (st_ready e t)).
Qed.

(** The same as [st_finish], when the stage is left at the end. *)
Lemma st_finish_staged idx e i :
  st_ok idx (sqe_with_inst e (set_stage i None)) (set_stage i None) → sqe_addrReady e = true →
  let e1 := st_set e i StaPipeFinish in let i1 := st_exec (st_ready e StaPipeFinish) i in
  let e2 := st_set e1 i1 StdPipeFinish in let i2 := st_exec (st_ready e1 StdPipeFinish) i1 in
  st_ok idx (sqe_with_inst e1 (set_stage i1 None)) (set_stage i1 None) ∧
  (ms_isSplitStoreAddr (mi_static i) = false → st_ok idx (sqe_with_inst e2 (set_stage i2 None)) (set_stage i2 None)).
Proof.
  intros K Ha e1 i1 e2 i2. destruct (st_finish _ _ _ K eq_refl Ha) as [K1 K2].
  rewrite <- st_set_stage, <- st_exec_stage in K1, K2. split; [done|]. intros Hsp. specialize (K2 Hsp).
  change (sqe_with_inst (st_ready e StaPipeFinish) (set_stage (st_exec (st_ready e StaPipeFinish) i) None))
    with (sqe_with_inst e1 (set_stage i1 None)) in K2.
  change (set_stage (st_exec (st_ready e StaPipeFinish) i) None) with (set_stage i1 None) in K2.
  by rewrite <- st_set_stage, <- st_exec_stage in K2.
Qed.

Section Tail.

Context (v : LSQUnit) (p n : nat) (e : SQEntry) (i : MInst).
Local Notation idx := (cq_head (lu_SQ v) + Z.of_nat p)%Z.
Hypothesis Hhas : sq_has v p.
Hypothesis Hi : sqe_inst e = Some i.
Hypothesis Hex : mi_executed i = splitStoreFinish e.
Hypothesis Hout : st_ok idx (sqe_with_inst e (set_stage i None)) (set_stage i None).

(** The entry after the stage. *)
Definition ended (e2 : SQEntry) (i2 : MInst) : Prop :=
  st_ok idx e2 i2 ∧ same_id i i2 ∧ ast e2 = ast e ∧ sqe_canWB e2 = sqe_canWB e.

Lemma st_finish_spec :
  (mi_replay i = None → sqe_addrReady e = true) →
  ∃ o e2 i2, storeFinish (sqp v p e) idx = Ok (sqp (emit_opt v o) p e2) ∧ ended e2 i2.
Proof.
  intros Ha. destruct (sk_static _ _ _ _ _ _ Hout) as (_ & Hsc & _). change (mi_static (set_stage i None)) with (mi_static i) in Hsc.
  unfold storeFinish. rewrite (sq_get_sqp v p e i) by done. cbn [res_bind]. rewrite Hsc. cbn [negb andb].
  destruct (bool_decide (mi_replay i = None)) eqn:Hr; cbn [res_bind].
  2: { rewrite (sq_get_sqp v p e i) by done. cbn [res_bind]. rewrite sq_put_sqp by done.
       exists None, (sqe_with_inst e (set_stage i None)), (set_stage i None). split; [done|].
       split; [done|]. split; [done|]. split; [|done]. unfold ast. simpl. by rewrite Hi. }
  apply bool_decide_eq_true in Hr. specialize (Ha Hr).
  rewrite (sq_status_sqp v p e i) by done. cbn [res_bind].
  set (e1 := st_set e i StaPipeFinish). set (i1 := st_exec (st_ready e StaPipeFinish) i).
  assert (mi_executed i1 = splitStoreFinish e1) as Hex1 by (by apply st_exec_executed).
  pose proof (st_finish_staged _ _ _ Hout Ha) as [K1 K2].
  assert (∀ e2 i2, sqe_inst e2 = Some i2 → st_ok idx (sqe_with_inst e2 (set_stage i2 None)) (set_stage i2 None) →
    same_id i i2 → sqe_addrReady e2 = sqe_addrReady e → sqe_dataReady e2 = sqe_dataReady e → sqe_canWB e2 = sqe_canWB e →
    ∃ o e3 i3, (let! u := Ok (if splitStoreFinish e2 then emit (sqp v p e2) (OutFinish (mi_seqNum i)) else sqp v p e2) in
      let! i := sq_get u idx in sq_put u idx (set_stage i None)) = Ok (sqp (emit_opt v o) p e3) ∧ ended e3 i3) as Hend.
  { intros e2 i2 Hi2 K ID A1 A2 A3. cbn [res_bind].
    set (o := if splitStoreFinish e2 then Some (OutFinish (mi_seqNum i)) else None).
    assert ((if splitStoreFinish e2 then emit (sqp v p e2) (OutFinish (mi_seqNum i)) else sqp v p e2) =
      sqp (emit_opt v o) p e2) as -> by (unfold o; by destruct (splitStoreFinish e2)).
    assert (lu_SQ (emit_opt v o) = lu_SQ v) as EL by (by destruct o). rewrite <- EL.
    assert (sq_has (emit_opt v o) p) as Hh by (unfold sq_has; by rewrite EL).
    rewrite (sq_get_sqp _ p e2 i2) by done. cbn [res_bind]. rewrite sq_put_sqp by done.
    exists o, (sqe_with_inst e2 (set_stage i2 None)), (set_stage i2 None). split; [done|].
    split; [done|]. split; [done|]. split; [|done]. unfold ast. simpl. rewrite A1, A2, Hi.
    change (mi_seqNum (set_stage i2 None)) with (mi_seqNum i2). by rewrite (same_id_seq _ _ ID). }
  assert (same_id i i1) as ID1 by apply st_exec_id.
  destruct (ms_isSplitStoreAddr (mi_static i)) eqn:Hsp; cbn [res_bind].
  - rewrite sq_at_sqp by done. cbn [res_bind]. apply (Hend e1 i1); try done; simpl; by rewrite ?orb_false_r.
  - rewrite (sq_status_sqp v p e1 i1) by done. cbn [res_bind]. rewrite sq_at_sqp by done. cbn [res_bind].
    set (i2 := st_exec (st_ready e1 StdPipeFinish) i1).
    apply (Hend (st_set e1 i1 StdPipeFinish) i2); try done; simpl; rewrite ?orb_false_r; try done; [by apply K2|].
    eapply same_id_trans; [done|apply st_exec_id].
Qed.

Lemma tail_spec :
  (n ≠ lp_storeWbStage P - 1 → st_ok idx (sqe_with_inst e (set_stage i (Some (S n)))) (set_stage i (Some (S n)))) →
  (n = lp_storeWbStage P - 1 → mi_replay i = None → sqe_addrReady e = true) →
  ∃ o e2 i2, store_tail (sqp v p e) idx n = Ok (sqp (emit_opt v o) p e2) ∧ ended e2 i2.
Proof.
  intros Hmv Hfin. unfold store_tail. rewrite (sq_get_sqp v p e i) by done. cbn [res_bind].
  destruct (_ && _).
  - set (o := if needs i TLBMissReplay then _ else _).
    assert (emit_opt (sqp v p e) o = sqp (emit_opt v o) p e) as -> by (by destruct o).
    assert (lu_SQ (emit_opt v o) = lu_SQ v) as EL by (by destruct o). rewrite <- EL.
    rewrite sq_put_sqp by (unfold sq_has; by rewrite EL).
    exists o, (sqe_with_inst e (set_stage i None)), (set_stage i None). split; [done|]. split; [done|].
    split; [done|]. split; [|done]. unfold ast. simpl. by rewrite Hi.
  - destruct (Nat.eqb_spec n (lp_storeWbStage P - 1)) as [E|E]; [apply st_finish_spec; auto|].
    rewrite sq_put_sqp by done. exists None. eexists _, _. split; [done|]. split; [by apply Hmv|].
    split; [done|]. split; [|done]. unfold ast. simpl. by rewrite Hi.
Qed.

End Tail.

(** ** One store *)

Section OneStore.

Context s (p : nat) (e : SQEntry) (i : MInst).
Hypothesis I : linv s.
Hypothesis Hp : sq s !! p = Some e.
Hypothesis Hi : sqe_inst e = Some i.

Local Notation u := (ls_u s).
Local Notation idx := (cq_head (lu_SQ (ls_u s)) + Z.of_nat p)%Z.
Local Notation q := (mi_seqNum i).

Lemma str_q : q_inv acc sdata maxData s.
Proof. apply I. Qed.

Lemma str_ok : st_ok idx e i.
Proof.
  destruct (qi_st _ _ _ _ str_q p e Hp) as (j & K).
  assert (j = i) as -> by (pose proof (sk_inst _ _ _ _ _ _ K); congruence). done.
Qed.

Lemma str_has : sq_has u p.
Proof. split; [apply str_q|by eapply lookup_lt_Some]. Qed.

Lemma str_unit : sqp u p e = u.
Proof. apply sqp_id; [apply str_q|done]. Qed.

(** A change that no load sees. *)
Lemma inv_store_same u1 e' i' :
  u_quiet u u1 → same_id i i' → st_ok idx e' i' → sqe_canWB e' = sqe_canWB e →
  (∀ l, ast_le acc l (ast e) (ast e')) → linv (with_u s (sqp u1 p e')).
Proof.
  intros US ID K Hw Ha.
  apply (inv_store P SP T tid va acc sdata maxData m0 s u1 p e i e' i' (ls_squash s)); try done.
Qed.

Lemma executeStore_eq n tr :
  mi_stage i = Some n →
  executeStore P (sqp u p e) idx tr =
    let! v := (if replayOrSkipFollowingPipe i then Ok (sqp u p e)
               else match n with
                    | 0 => storeDoTranslate (sqp u p e) idx tr
                    | 1 => let! r := storeDoWriteSQ P (sqp u p e) idx in Ok (fst r)
                    | _ => Ok (sqp u p e)
                    end) in store_tail v idx n.
Proof.
  intros Hn. unfold executeStore, store_tail. rewrite (sq_get_sqp u p e i) by (done || apply str_has). cbn [res_bind].
  rewrite Hn. done.
Qed.

(** A stage after which no load sees a difference. *)
Lemma store_quiet n e1 i1 :
  sqe_inst e1 = Some i1 → same_id i i1 → mi_executed i1 = splitStoreFinish e1 →
  st_ok idx (sqe_with_inst e1 (set_stage i1 None)) (set_stage i1 None) →
  (n ≠ lp_storeWbStage P - 1 → st_ok idx (sqe_with_inst e1 (set_stage i1 (Some (S n)))) (set_stage i1 (Some (S n)))) →
  (n = lp_storeWbStage P - 1 → mi_replay i1 = None → sqe_addrReady e1 = true) →
  ast e1 = ast e → sqe_canWB e1 = sqe_canWB e →
  ∃ u', store_tail (sqp u p e1) idx n = Ok u' ∧ linv (SquashCheckAfterExe (with_u s u') q).
Proof.
  intros H1 H2 H3 H4 H5 H6 H7 H8.
  destruct (tail_spec u p n e1 i1 str_has H1 H3 H4 H5 H6) as (o & e2 & i2 & E & K & ID & Ea & Ew).
  eexists. split; [done|].
  assert (linv (with_u s (sqp (emit_opt u o) p e2))) as J.
  { apply (inv_store_same _ e2 i2); try done.
    - apply u_quiet_emit.
    - by eapply same_id_trans.
    - congruence.
    - intros l. rewrite Ea, H7. apply ast_le_refl. }
  by rewrite (squash_check_none P SP T tid va acc sdata maxData m0).
Qed.

Lemma staged_unfinished n : mi_stage i = Some n → sqe_staFinish e = false.
Proof.
  intros Hn. destruct (sqe_staFinish e) eqn:E; [|done].
  pose proof (sk_sta _ _ _ _ _ _ str_ok E). congruence.
Qed.

(** The stages that do nothing. *)
Lemma store_idle n :
  mi_stage i = Some n → (mi_replay i = None → 2 ≤ n) →
  ∃ u', store_tail (sqp u p e) idx n = Ok u' ∧ linv (SquashCheckAfterExe (with_u s u') q).
Proof.
  intros Hn Hr. pose proof str_ok as K. pose proof (staged_unfinished n Hn) as Hf.
  apply (store_quiet n e i); try done; [apply K|by apply st_unstage| |].
  - intros _. apply (st_move idx e i n (S n)); try done; [lia| |]; intros Hrn ?; specialize (Hr Hrn).
    + apply (sk_s0 _ _ _ _ _ _ K n); (done || lia).
    + by apply (sk_s1 _ _ _ _ _ _ K n).
  - intros _ Hrn. apply (sk_s1 _ _ _ _ _ _ K n); auto.
Qed.

Lemma store_stage0 (translated : bool) :
  mi_stage i = Some 0 →
  ∃ u', executeStore P (sqp u p e) idx (if translated then Some (acc q, sta_data acc sdata i) else None) = Ok u' ∧
    linv (SquashCheckAfterExe (with_u s u') q).
Proof.
  intros Hs. pose proof str_ok as K. pose proof str_has as Hhas. rewrite (executeStore_eq 0) by done.
  assert (0 ≠ lp_storeWbStage P - 1) as Hw0 by lia.
  destruct (mi_replay i) as [t|] eqn:Hr.
  { rewrite some_replay by congruence. cbn [res_bind]. apply store_idle; [done|congruence]. }
  rewrite no_replay by (done || apply K). unfold storeDoTranslate.
  assert ((cq_size (lu_SQ (sqp u p e)) =? 0)%Z = false) as ->.
  { apply Z.eqb_neq. simpl. pose proof (cq_list_length _ (proj1 Hhas)). destruct Hhas. lia. }
  cbn [negb assert_ res_bind]. rewrite (sq_get_sqp u p e i) by done. cbn [res_bind].
  assert (sqe_addrReady e = false) as Ha.
  { destruct (sqe_addrReady e) eqn:E; [|done]. destruct (sk_known _ _ _ _ _ _ K E) as (_ & _ & _ & X).
    specialize (X 0 Hs). lia. }
  destruct (mi_translationStarted i) eqn:Htr.
  - destruct (sk_tr _ _ _ _ _ _ K Htr) as (Hsv & _ & Hva & _). rewrite bool_decide_eq_true_2 by congruence.
    cbn [assert_ res_bind]. assert (mi_set_valid i true true (mi_saved i) = i) as ->.
    { destruct i; simpl in *. by rewrite Htr, Hva. }
    rewrite sq_put_sqp by done. cbn [res_bind]. assert (sqe_with_inst e i = e) as -> by (destruct e; simpl in *; by rewrite Hi).
    apply (store_quiet 0 e i); try done; [apply K|by apply st_unstage|].
    intros _. apply (st_move idx e i 0 1); try done; [lia|by eapply staged_unfinished|lia].
  - destruct translated.
    + rewrite sq_at_sqp by done. cbn [res_bind]. rewrite sq_cqput_sqp by done. cbn [res_bind].
      pose proof (st_translated idx e i K Hs Hr Htr) as K1.
      set (i1 := mi_set_memData _ _). set (e1 := sqe_with_inst _ i1).
      change (set_SQ (sqp u p e) (cq_upd (lu_SQ u) p e1)) with (sqp u p e1).
      apply (store_quiet 0 e1 i1); try done.
      * apply K.
      * exact (st_unstage _ _ _ K1).
      * unfold ast. simpl. by rewrite Hi.
    + rewrite setReplay_ok by done. cbn [res_bind]. rewrite sq_put_sqp by done. cbn [res_bind].
      pose proof (st_late idx e i K Ha) as K1.
      apply (store_quiet 0 _ (set_replayType i (Some TLBMissReplay))); try done.
      * apply K.
      * exact (st_unstage _ _ _ K1).
      * unfold ast. simpl. by rewrite Hi.
Qed.

(** *** The write of the entry *)

Local Notation i_w := (mi_set_memData i None).

(** The entry after [storeDoWriteSQ]. *)
Definition e_w (dl : list Z) : SQEntry :=
  sqe_with_inst (sqe_with_ready (sqe_with_data (sqe_with_request e (Some (acc q)) (a_size acc q) false) dl)
    true (sqe_dataReady e || negb (ms_isSplitStoreAddr (mi_static i))) (sqe_staFinish e) (sqe_stdFinish e)) i_w.

Definition lq_pos : nat := Z.to_nat (mi_lqIt i - cq_head (lu_LQ u)).

Lemma st_shape_all q' : acc_shape acc sdata q'.
Proof. apply (pl_shape _ _ _ _ _ _ (Hplain q')). Qed.

Lemma store_unreleased n : mi_stage i = Some n → (ls_bound s < q)%Z.
Proof.
  intros Hn. destruct (Z.lt_ge_cases (ls_bound s) q) as [|Hle]; [done|]. exfalso.
  pose proof (qi_canWB _ _ _ _ str_q p e i Hp Hi) as Hc. rewrite bool_decide_eq_true_2 in Hc by done.
  pose proof (sk_canWB _ _ _ _ _ _ str_ok Hc) as Hf. unfold splitStoreFinish in Hf.
  by rewrite (staged_unfinished n Hn) in Hf.
Qed.

(** The data of the entry. *)
Lemma write_data :
  mi_translationStarted i = true → sqe_addrReady e = false →
  ∃ dl, length dl = maxData ∧
    (ms_isSplitStoreAddr (mi_static i) = true → dl = sqe_data e) ∧
    (ms_isSplitStoreAddr (mi_static i) = false →
       copy_range (sqe_data e) (default [] (mi_memData i)) 0 (len q) = Ok dl ∧ take (len q) dl = sdata q).
Proof.
  intros Htr Ha. pose proof str_ok as K. pose proof (sk_len _ _ _ _ _ _ K) as Hl.
  destruct (ms_isSplitStoreAddr (mi_static i)) eqn:Hsp; [by exists (sqe_data e)|].
  rewrite (sk_memStd _ _ _ _ _ _ K Htr Ha Hsp). simpl.
  pose proof (sh_data _ _ _ (st_shape_all q)) as Hd. pose proof (pl_max _ _ _ _ _ _ (Hplain q)) as Hm.
  destruct (copy_range_lookup (sqe_data e) (sdata q) 0 (len q)) as (dl & E & Hdl & Hj); [lia|lia|].
  exists dl. split; [congruence|]. split; [done|]. intros _. split; [done|]. apply list_eq. intros j.
  destruct (decide (j < len q)) as [Hjl|Hjl].
  - rewrite lookup_take_lt, Hj, decide_True by lia. f_equal. lia.
  - rewrite lookup_take_ge by lia. symmetry. apply lookup_ge_None_2. lia.
Qed.

Lemma write_spec :
  mi_stage i = Some 1 → mi_replay i = None →
  ∃ dl v f, storeDoWriteSQ P (sqp u p e) idx = Ok (sqp (set_violator u v) p (e_w dl), f) ∧
    passed acc u q lq_pos v ∧
    ∀ so, (∀ n, so = Some n → 2 ≤ n) →
      st_ok idx (sqe_with_inst (e_w dl) (set_stage i_w so)) (set_stage i_w so).
Proof.
  intros Hs Hr. pose proof str_ok as K. pose proof str_has as Hhas. pose proof str_q as Q.
  pose proof (Hplain q) as PL. assert (mi_translationStarted i = true) as Htr.
  { apply (sk_s0 _ _ _ _ _ _ K 1); done. }
  assert (sqe_addrReady e = false) as Ha.
  { destruct (sqe_addrReady e) eqn:E; [|done]. destruct (sk_known _ _ _ _ _ _ K E) as (_ & _ & _ & X).
    specialize (X 1 Hs). lia. }
  destruct (sk_tr _ _ _ _ _ _ K Htr) as (Hsv & _). pose proof (staged_unfinished 1 Hs) as Hf.
  destruct (write_data Htr Ha) as (dl & Hdl & Hd1 & Hd2). exists dl.
  destruct (sk_static _ _ _ _ _ _ K) as (_ & Hsc & _).
  unfold storeDoWriteSQ.
  assert ((cq_size (lu_SQ (sqp u p e)) =? 0)%Z = false) as ->.
  { apply Z.eqb_neq. simpl. pose proof (cq_list_length _ (proj1 Hhas)). destruct Hhas. lia. }
  cbn [negb assert_ res_bind]. rewrite (sq_get_sqp u p e i) by done. cbn [res_bind]. rewrite Hsv.
  unfold lsq_write. rewrite sq_at_sqp by done. cbn [res_bind]. rewrite (sk_valid _ _ _ _ _ _ K). cbn [assert_ res_bind].
  rewrite (pl_flags _ _ _ _ _ _ PL). cbn [rf_storeNoData rf_cacheBlockZero rf_isCacheMaintenance rf_isAtomic negb andb].
  set (e1 := sqe_with_request e (Some (acc q)) (lr_size (acc q)) false).
  assert ((lr_size (acc q) <=? Z.of_nat (length (sqe_data e1)))%Z = true) as ->.
  { apply Z.leb_le. simpl. rewrite (sk_len _ _ _ _ _ _ K), (pl_size _ _ _ _ _ _ PL).
    pose proof (pl_max _ _ _ _ _ _ PL). unfold a_len, a_size in *. lia. }
  cbn [orb assert_ res_bind]. unfold sq_inst at 1. change (sqe_inst e1) with (sqe_inst e). rewrite Hi. cbn [get_at res_bind].
  assert ((if negb (ms_isSplitStoreAddr (mi_static i)) then
     (let! d := copy_range (sqe_data e1) (default [] (mi_memData i)) 0 (Z.to_nat (lr_size (acc q))) in Ok (sqe_with_data e1 d))
     else Ok e1) = Ok (sqe_with_data e1 dl)) as ->.
  { destruct (ms_isSplitStoreAddr (mi_static i)); simpl; [by rewrite Hd1|].
    rewrite (pl_size _ _ _ _ _ _ PL). change (Z.to_nat (mr_size (lr_mainReq (acc q)))) with (len q).
    destruct (Hd2 eq_refl) as [-> _]. done. }
  cbn [res_bind]. rewrite sq_cqput_sqp by done. cbn [res_bind].
  change (set_SQ (sqp u p e) (cq_upd (lu_SQ u) p ?x)) with (sqp u p x). rewrite sq_put_sqp by done. cbn [res_bind].
  set (e2 := sqe_with_inst (sqe_with_data e1 dl) i_w).
  assert (mi_executed i_w = splitStoreFinish e2) as Hx2 by apply K.
  rewrite (sq_status_sqp u p e2 i_w) by done. cbn [res_bind].
  assert (∀ e0 t, sqe_staFinish e0 = false → t ≠ StaPipeFinish → st_exec (st_ready e0 t) i_w = i_w) as Hse.
  { intros e0 t E0 Ht. unfold st_exec, splitStoreFinish. simpl. rewrite E0. by destruct t. }
  assert ((if ms_isSplitStoreAddr (mi_static i) then Ok (sqp u p (st_set e2 i_w AddressReady))
           else sq_status (sqp u p (st_set e2 i_w AddressReady)) idx DataReady) = Ok (sqp u p (e_w dl))) as ->.
  { unfold e_w, a_size. rewrite <- (pl_size _ _ _ _ _ _ PL).
    destruct (ms_isSplitStoreAddr (mi_static i)) eqn:Hsp.
    - unfold st_set. rewrite Hse by done. unfold st_ready. simpl. by rewrite Ha, !orb_false_r.
    - rewrite (sq_status_sqp u p (st_set e2 i_w AddressReady) i_w); [|done| |].
      + unfold st_set at 1. rewrite Hse by (simpl; by rewrite ?orb_false_r). unfold st_ready. simpl.
        by rewrite Ha, Hf, !orb_false_r, !orb_true_r.
      + unfold st_set. rewrite Hse by done. done.
      + rewrite (sk_exec _ _ _ _ _ _ K : mi_executed i_w = _). unfold splitStoreFinish. simpl. by rewrite Hf. }
  cbn [res_bind]. rewrite sq_at_sqp by done. cbn [res_bind]. change (sqe_size (e_w dl)) with (a_size acc q).
  rewrite (proj2 (Z.eqb_neq _ _)) by (pose proof (sh_size _ _ _ (st_shape_all q)); lia).
  cbn [get_at res_bind]. rewrite Hsc. cbn [res_bind]. rewrite (pl_reqs _ _ _ _ _ _ PL).
  destruct (qi_lqIt _ _ _ _ Q p e i Hp Hi) as [L1 L2]. specialize (L2 (store_unreleased 1 Hs)).
  pose proof (cq_list_length _ (qi_wfL _ _ _ _ Q)) as LL.
  destruct (check_store_spec acc sdata (lp_depCheckShift P) st_shape_all Hshift (sqp u p (e_w dl))) with (s := q) (p := lq_pos)
    as (v & f & E & Hpass).
  - apply Q.
  - apply I.
  - intros p' x Hx. destruct (qi_ld _ _ _ _ Q p' x Hx) as (j & Kj). exists j. apply Kj.
  - apply Q.
  - change (lu_LQ (sqp u p (e_w dl))) with (lu_LQ u). unfold lq_pos. lia.
  - exists v, f. change (lu_LQ (sqp u p (e_w dl))) with (lu_LQ u) in E.
    replace (cq_head (lu_LQ u) + Z.of_nat lq_pos)%Z with (mi_lqIt i) in E by (unfold lq_pos; lia).
    split; [exact E|]. split; [exact Hpass|]. intros so Hso.
    apply (st_ok_write idx e i so dl); try done. intros Hns. by apply Hd2.
Qed.

(** A load that holds data is one that the check looks at. *)
Lemma holds_exposed idx' x j : ld_ok acc idx' x j → holds_data j → exposed j = true.
Proof.
  intros K [Hex|[Hs Hr]].
  - destruct (lk_exec _ _ _ _ K Hex) as (Hr & Hv & Hsk & _). unfold exposed, needs. by rewrite Hv, Hsk, Hr.
  - pose proof (lk_stage _ _ _ _ K) as X. rewrite Hs in X. destruct X as (_ & Hsk & Hv).
    unfold exposed, needs. by rewrite (Hv Hr), Hsk, Hr.
Qed.

(** The pending squash after the check. *)
Definition doom (v : option Z) : option Z :=
  match v with
  | None => ls_squash s
  | Some v => match ls_squash s with
              | Some q0 => if (q0 <=? q)%Z then Some q0 else Some (Z.min q0 v)
              | None => Some v
              end
  end.

Lemma squash_check_doom u1 v :
  lu_memDepViolator u1 = v →
  SquashCheckAfterExe (with_u s u1) q = with_squash (with_u s (set_violator u1 None)) (doom v).
Proof.
  intros <-. unfold SquashCheckAfterExe, doom. simpl. destruct (lu_memDepViolator u1) as [v|] eqn:Ev.
  - destruct (ls_squash s) as [q0|] eqn:Es; [|done]. destruct (q0 <=? q)%Z; [|done]. unfold with_u, with_squash. simpl. by rewrite Es.
  - unfold with_u, with_squash. simpl. assert (set_violator u1 None = u1) as -> by (destruct u1; simpl in *; by rewrite Ev). done.
Qed.

Lemma store_stage1 tr :
  mi_stage i = Some 1 →
  ∃ u', executeStore P (sqp u p e) idx tr = Ok u' ∧ linv (SquashCheckAfterExe (with_u s u') q).
Proof.
  intros Hs. pose proof str_ok as K. pose proof str_has as Hhas. pose proof str_q as Q.
  rewrite (executeStore_eq 1) by done. destruct (mi_replay i) as [t|] eqn:Hr.
  { rewrite some_replay by congruence. cbn [res_bind]. apply store_idle; [done|congruence]. }
  rewrite no_replay by (done || apply K). destruct (write_spec Hs Hr) as (dl & v & f & -> & Hpass & Hst).
  cbn [res_bind fst].
  destruct (tail_spec (set_violator u v) p 1 (e_w dl) i_w Hhas eq_refl) as (o & e2 & i2 & E & K2 & ID & Ea & Ew).
  - apply K.
  - apply Hst. done.
  - intros _. apply Hst. by intros n [= <-].
  - done.
  - eexists. split; [exact E|]. rewrite (squash_check_doom _ v) by (by destruct o).
    set (u1 := set_violator (emit_opt (set_violator u v) o) None).
    change (set_violator (sqp ?x p e2) None) with (sqp (set_violator x None) p e2). fold u1.
    pose proof (ui_viol _ _ _ (iv_u _ _ _ _ _ _ _ _ _ _ I)) as Hvi.
    apply (inv_store P SP T tid va acc sdata maxData m0 s u1 p e i e2 i2 (doom v)); try done.
    + unfold u1. destruct o; repeat split; simpl; by rewrite ?Hvi.
    + intros l [Hb Hl]. split; [done|]. intros q0 Hq0. simpl in *. unfold doom in Hl. rewrite Hq0 in Hl.
      destruct v as [v|]; [|by apply Hl]. destruct (q0 <=? q)%Z; [by apply Hl|]. specialize (Hl _ eq_refl). lia.
    + intros p' x j Hx Hj [Hb Hl] Hh Hlt. rewrite Ea.
      unfold ast. simpl. rewrite Hi. change (mi_seqNum i_w) with q. split; [done|]. split; [done|].
      split; [simpl; intros ->; done|]. intros _. right. simpl.
      destruct (qi_ld _ _ _ _ Q p' x Hx) as (j' & Kj).
      assert (j' = j) as -> by (pose proof (lk_inst _ _ _ _ (lk_core _ _ _ _ Kj)); congruence).
      destruct (qi_ls _ _ _ _ Q p' p x e j i Hx Hp Hj Hi) as [_ [_ Hpos]]. specialize (Hpos Hlt).
      apply (Hpass p' x j); try done.
      * unfold lq_pos. lia.
      * by eapply holds_exposed.
      * destruct v as [v|]; [|done]. simpl in Hl. unfold doom in Hl.
        destruct (ls_squash s) as [q0|]; [|by apply Hl]. destruct (Z.leb_spec q0 q); specialize (Hl _ eq_refl); lia.
Qed.

Lemma store_execute (translated : bool) :
  mi_stage i ≠ None →
  ∃ u', executeStore P u idx (if translated then Some (acc q, sta_data acc sdata i) else None) = Ok u' ∧
    linv (SquashCheckAfterExe (with_u s u') q).
Proof.
  intros Hs. destruct (mi_stage i) as [n|] eqn:En; [|done].
  set (tr := if translated then _ else _).
  assert (∃ u', executeStore P (sqp u p e) idx tr = Ok u' ∧ linv (SquashCheckAfterExe (with_u s u') q)) as X.
  { destruct n as [|[|n]]; [by apply store_stage0|by apply store_stage1|].
    rewrite (executeStore_eq (S (S n))) by done. destruct (replayOrSkipFollowingPipe i); cbn [res_bind];
    apply store_idle; (done || lia). }
  by rewrite str_unit in X.
Qed.

(** The data of the store arrives. *)
Lemma store_data :
  ms_isSplitStoreAddr (mi_static i) = true → sqe_stdFinish e = false →
  ∃ u', storeDataExecute u idx (sdata q) (length (sdata q)) = Ok u' ∧ linv (with_u s u').
Proof.
  intros Hsp Hstd. pose proof str_ok as K. pose proof str_has as Hhas.
  pose proof (sh_data _ _ _ (st_shape_all q)) as Hd. pose proof (pl_max _ _ _ _ _ _ (Hplain q)) as Hm.
  assert (∃ u', storeDataExecute (sqp u p e) idx (sdata q) (length (sdata q)) = Ok u' ∧ linv (with_u s u')) as X;
    [|by rewrite str_unit in X].
  unfold storeDataExecute. rewrite sq_at_sqp by done. cbn [res_bind]. unfold sq_inst. rewrite Hi. cbn [get_at res_bind].
  assert (∃ e1 i1, (match mi_memData i with
    | Some m => let! m := copy_range m (sdata q) 0 (length (sdata q)) in Ok (sqe_with_inst e (mi_set_memData i (Some m)))
    | None => Ok e end) = Ok e1 ∧ st_ok idx e1 i1 ∧ same_id i i1 ∧ ast e1 = ast e ∧ sqe_stdFinish e1 = false ∧
      sqe_canWB e1 = sqe_canWB e) as (e1 & i1 & -> & K1 & ID & Ea & Hs1 & Hw1).
  { destruct (mi_memData i) as [m|] eqn:Em; [|by exists e, i].
    pose proof (sk_mem _ _ _ _ _ _ K m Em) as Lm.
    destruct (copy_range_lookup m (sdata q) 0 (length (sdata q))) as (m' & -> & Lm' & _); [lia|lia|]. cbn [res_bind].
    eexists _, _. split; [done|]. split; [apply st_memData; [done|done|congruence]|]. split_and!; try done.
    unfold ast. simpl. by rewrite Hi. }
  cbn [res_bind]. pose proof (same_id_seq _ _ ID) as Eq. pose proof (sk_len _ _ _ _ _ _ K1) as Hl1.
  destruct (copy_range_lookup (sqe_data e1) (sdata q) 0 (length (sdata q))) as (dl & -> & Ldl & Hj); [lia|lia|].
  cbn [res_bind]. set (e2 := sqe_with_data e1 dl).
  pose proof (sk_inst _ _ _ _ _ _ K1) as Hi1.
  rewrite (setStatus_spec e2 i1) by (done || apply K1). cbn [res_bind].
  set (i2 := st_exec (st_ready e2 DataReady) i1). set (e3 := st_set e2 i1 DataReady).
  assert (i2 = i1) as Ei2.
  { unfold i2, st_exec, splitStoreFinish. simpl. by rewrite Hs1, !andb_false_r. }
  rewrite (setStatus_spec e3 i2); [|done|unfold i2; apply st_exec_executed, K1]. cbn [res_bind].
  rewrite sq_cqput_sqp by done. cbn [res_bind]. eexists. split; [done|].
  change (set_SQ (sqp u p e) (cq_upd (lu_SQ u) p ?x)) with (sqp u p x).
  assert (st_ok idx (st_set e3 i2 StdPipeFinish) (st_exec (st_ready e3 StdPipeFinish) i2)) as K3.
  { unfold st_set at 1. rewrite Ei2. unfold e3, st_set, st_ready. simpl. rewrite !orb_false_r, !orb_true_r.
    apply (st_flags idx e1 i1 dl true (sqe_staFinish e1) true K1); try done.
    - congruence.
    - intros _. rewrite Eq. apply list_eq. intros j. destruct (decide (j < len q)) as [Hjl|Hjl].
      + rewrite lookup_take_lt, Hj, decide_True by lia. f_equal. lia.
      + rewrite lookup_take_ge by lia. symmetry. apply lookup_ge_None_2. lia.
    - destruct ID as (-> & _). congruence.
    - intros Hf. split; [by apply (sk_sta _ _ _ _ _ _ K1)|].
      destruct (sqe_addrReady e1) eqn:E; [done|]. destruct (sk_unknown _ _ _ _ _ _ K1 E) as (_ & ? & _). congruence. }
  apply (inv_store_same u _ (st_exec (st_ready e3 StdPipeFinish) i2)); try done.
  - rewrite Ei2. eapply same_id_trans; [done|apply st_exec_id].
  - intros l. injection Ea as E1 E2 E3. unfold ast_le, ast. simpl. rewrite Hi, E2.
    rewrite (same_id_seq _ _ (st_exec_id (st_ready e3 StdPipeFinish) i2)), Ei2, Eq. rewrite !orb_false_r, orb_true_r. tauto.
Qed.

End OneStore.

(** ** The events *)

Lemma step_issue_store s idx : linv s → ∃ s', step s (LIssueStore idx) = Ok s' ∧ linv s'.
Proof.
  intros I. simpl. destruct (live_store s idx) as [e|] eqn:Hl; [|eauto].
  destruct (live_store_spec P SP T tid va acc sdata maxData m0 s idx e I Hl) as (p & -> & Hp).
  destruct (qi_st _ _ _ _ (iv_q _ _ _ _ _ _ _ _ _ _ I) p e Hp) as (i & K). pose proof (sk_inst _ _ _ _ _ _ K) as Hi.
  unfold sq_inst. rewrite Hi. cbn [get_at res_bind]. destruct (_ && _) eqn:Hc; [|eauto].
  apply andb_true_iff in Hc as [Hs%bool_decide_eq_true Ha%negb_true_iff].
  pose proof (str_has s p e I Hp) as Hhas. pose proof (str_unit s p e I Hp) as Eu.
  pose proof (sq_get_sqp (ls_u s) p e i Hhas Hi) as G. pose proof (sq_put_sqp (ls_u s) p e (beginPipelining i) Hhas) as Pt.
  rewrite Eu in G, Pt. unfold issueToStorePipe. rewrite G. cbn [res_bind].
  rewrite bool_decide_eq_false_2 by (rewrite Hs; auto). cbn [panic_if res_bind]. rewrite Pt. cbn [res_bind].
  eexists. split; [done|]. apply (inv_store_same s p e i I Hp Hi (ls_u s) _ (beginPipelining i)); try done.
  - by apply st_begin.
  - intros l. unfold ast. simpl. rewrite Hi. apply ast_le_refl.
Qed.

Lemma step_store s idx tr : linv s → ∃ s', step s (LStore idx tr) = Ok s' ∧ linv s'.
Proof.
  intros I. simpl. destruct (live_store s idx) as [e|] eqn:Hl; [|eauto].
  destruct (live_store_spec P SP T tid va acc sdata maxData m0 s idx e I Hl) as (p & -> & Hp).
  destruct (qi_st _ _ _ _ (iv_q _ _ _ _ _ _ _ _ _ _ I) p e Hp) as (i & K). pose proof (sk_inst _ _ _ _ _ _ K) as Hi.
  unfold sq_inst. rewrite Hi. cbn [get_at res_bind]. destruct (bool_decide _) eqn:Hc; [|eauto].
  apply bool_decide_eq_true in Hc. destruct (store_execute s p e i I Hp Hi tr Hc) as (u' & -> & J). simpl. eauto.
Qed.

Lemma step_store_data s idx : linv s → ∃ s', step s (LStoreData idx) = Ok s' ∧ linv s'.
Proof.
  intros I. simpl. destruct (live_store s idx) as [e|] eqn:Hl; [|eauto].
  destruct (live_store_spec P SP T tid va acc sdata maxData m0 s idx e I Hl) as (p & -> & Hp).
  destruct (qi_st _ _ _ _ (iv_q _ _ _ _ _ _ _ _ _ _ I) p e Hp) as (i & K). pose proof (sk_inst _ _ _ _ _ _ K) as Hi.
  unfold sq_inst. rewrite Hi. cbn [get_at res_bind]. destruct (_ && _) eqn:Hc; [|eauto].
  apply andb_true_iff in Hc as [Hsp Hf%negb_true_iff].
  destruct (store_data s p e i I Hp Hi Hsp Hf) as (u' & -> & J). simpl. eauto.
Qed.


End Stores.
