(* ===== verification/LsqPop.v ===== *)
(** The completed indices with the queues of the waiting loads, and the way of a released
    store from the store queue to the store buffer. *)
From Stdlib Require Import Sorted.
From stdpp Require Import gmap.
From S2P Require Import Prelude CircularBuffer Bytes StoreBuffer StoreBufferInv StoreBufferView.
From S2P Require Import StoreBufferLsq StoreBufferSteps StoreBufferProps CircularQueue LsqUnit.
From S2P Require Import LsqRead LsqPipe LsqOffload LsqSys LsqInv LsqUpd LsqReadOk LsqCheck LsqLoad.
From S2P Require Import LsqEvents.

(** ** Lists *)

Lemma dequeue_perm {A} (ok : A → bool) n l : fst (dequeue ok n l) ++ snd (dequeue ok n l) ≡ₚ l.
Proof.
  revert n. induction l as [|x l IH]; intros n; [by destruct n|]. destruct n as [|n]; [done|]. simpl.
  destruct (ok x); simpl; [by rewrite IH|]. rewrite <- Permutation_middle. by rewrite IH.
Qed.

Lemma dequeue_length {A} (ok : A → bool) n l : length (snd (dequeue ok n l)) ≤ length l.
Proof. rewrite <- (dequeue_perm ok n l) at 2. rewrite length_app. lia. Qed.

Lemma shuffle {A} (a b c d e f : list A) : (a ++ b ++ c ++ d) ++ e ++ f ≡ₚ (a ++ c ++ e) ++ b ++ d ++ f.
Proof.
  rewrite <- !app_assoc. apply Permutation_app_head. rewrite (Permutation_app_swap_app b c).
  apply Permutation_app_head. rewrite (Permutation_app_swap_app d e). by rewrite (Permutation_app_swap_app b e).
Qed.

(** ** The completed indices *)

Lemma advance_total {A} (q : CircularQueue A) ok n idx : cq_wf q → ∃ z, advance_completed q ok n idx = Ok z.
Proof.
  intros W. revert idx. induction n as [|n IH]; intros idx; simpl; [eauto|].
  destruct (cq_at_total q (u64 (idx + 1)) W) as [a ->].
  { pose proof (u64_range (idx + 1)). unfold in_u in *. lia. }
  cbn [res_bind]. destruct (ok a); eauto.
Qed.

Section Update.

Context {C : Type} `{CircularBufferLaws C nat}.
Context (P : LsqParams) (SP : SbParams) (T : nat) (tid : Z) (va : Z → Z).
Context (acc : Z → LSQRequest) (sdata : Z → list Z) (maxData : nat) (m0 : memory).

Local Notation linv := (ls_inv P SP T tid va acc sdata maxData m0).
Local Notation step := (ls_step P SP acc sdata).
Implicit Types s : LSys C.

(** A load that waits, as its reference says. *)
Definition waits s (x : LdRef) : Prop :=
  (ld_seq x ≤ ls_last s)%Z ∧
  ∀ p e i, lq s !! p = Some e → lqe_inst e = Some i → mi_seqNum i = ld_seq x →
    ld_lqIt x = mi_lqIt i ∧ mi_stage i = None ∧ (mi_replay i = Some RARReplay ∨ mi_replay i = Some RAWReplay).

(** Fewer references, other indices, other outputs. *)
Lemma inv_refs s u1 :
  linv s → u_same (ls_u s) u1 → lu_stalled u1 = lu_stalled (ls_u s) →
  lu_stallingLoadIdx u1 = lu_stallingLoadIdx (ls_u s) → lu_stallingStoreIsn u1 = lu_stallingStoreIsn (ls_u s) →
  length (lu_RARQueue u1) ≤ lp_maxRARQEntries P → length (lu_RAWQueue u1) ≤ lp_maxRAWQEntries P →
  NoDup (map ld_seq (ra_refs u1)) → (∀ x, x ∈ ra_refs u1 → waits s x) →
  linv (with_u s u1).
Proof.
  intros I US E1 E2 E3 L1 L2 Hnd Hr. pose proof (iv_q _ _ _ _ _ _ _ _ _ _ I) as Q.
  pose proof (iv_u _ _ _ _ _ _ _ _ _ _ I) as U.
  apply (inv_loads P SP T tid va acc sdata maxData m0 s u1 I); try done; rewrite ?(us_LQ _ _ US).
  - split; rewrite ?(us_LQ _ _ US); try apply US; try apply Q; try done.
    intros p e He. destruct (qi_ld _ _ _ _ Q p e He) as (i & K).
    pose proof (lk_inst _ _ _ _ (lk_core _ _ _ _ K)) as Hi. exists e, i, i. split_and!; try done.
    by eapply ld_step_refl.
  - rewrite E1, E2, E3. apply U.
  - exact Hr.
Qed.

(** A waiting load may be issued again. *)
Lemma retry_inv s x :
  linv s → waits s x → (∀ y, y ∈ ra_refs (ls_u s) → ld_seq y ≠ ld_seq x) →
  ∃ u', retry_load (ls_u s) x = Ok u' ∧ linv (with_u s u') ∧ ra_refs u' = ra_refs (ls_u s) ∧
    ∀ y, ld_seq y ≠ ld_seq x → waits s y → waits (with_u s u') y.
Proof.
  intros I [Hle Hw] Hne. pose proof (iv_q _ _ _ _ _ _ _ _ _ _ I) as Q. pose proof (iv_u _ _ _ _ _ _ _ _ _ _ I) as U.
  pose proof (qi_wfL _ _ _ _ Q) as W.
  assert (∃ u', Ok (ls_u s) = Ok u' ∧ linv (with_u s u') ∧ ra_refs u' = ra_refs (ls_u s) ∧
    ∀ y, ld_seq y ≠ ld_seq x → waits s y → waits (with_u s u') y) as Hskip.
  { exists (ls_u s). split; [done|]. split; [by destruct s|done]. }
  unfold retry_load. destruct (isValidIdx _ _) eqn:Hv; [|done]. apply isValidIdx_iff in Hv; [|done].
  destruct (cq_at_list _ _ W Hv) as (e & Ee & He). set (p := Z.to_nat (ld_lqIt x - cq_head (lu_LQ (ls_u s)))) in *.
  destruct (qi_ld _ _ _ _ Q p e He) as (i & K). pose proof (lk_inst _ _ _ _ (lk_core _ _ _ _ K)) as Hi.
  unfold lq_get. rewrite Ee. cbn [res_bind]. unfold lq_inst. rewrite Hi. cbn [get_at res_bind].
  destruct (Z.eqb_spec (mi_seqNum i) (ld_seq x)) as [Es|]; [|done].
  destruct (Hw p e i He Hi Es) as (_ & Hs & Hr).
  assert (mi_executed i = false) as Hex.
  { destruct (mi_executed i) eqn:E; [|done]. destruct (lk_exec _ _ _ _ K E) as (X & _). destruct Hr; congruence. }
  assert (lq_has (ls_u s) p) as Hhas by (split; [done|by eapply lookup_lt_Some]).
  set (u1 := emit (ls_u s) (OutRetryMem (ld_seq x))). set (i' := set_replayType i None).
  pose proof (lq_put_lqp u1 p e i' Hhas) as Pt. change (lqp u1 p e) with (emit (lqp (ls_u s) p e) (OutRetryMem (ld_seq x))) in Pt at 1.
  rewrite (lqp_id _ p e W He) in Pt. change (cq_head (lu_LQ u1)) with (cq_head (lu_LQ (ls_u s))) in Pt.
  replace (cq_head (lu_LQ (ls_u s)) + Z.of_nat p)%Z with (ld_lqIt x) in Pt by (unfold p; lia).
  fold u1 in Pt. rewrite Pt. eexists. split; [done|]. split.
  - apply (inv_load P SP T tid va acc sdata maxData m0 s u1 p e i _ i'); try done; try apply U.
    + apply (ld_step_out P SP T tid va acc sdata maxData m0 s p e i); try done.
      * by apply (core_pipe acc _ e i); [apply K|..].
      * apply (lk_out _ _ _ _ K Hex). rewrite Hs. by intros [? _].
    + intros St. destruct (ui_stall _ _ _ U St) as (p' & e2 & i2 & Ej & Hx2 & Hj2 & X1 & X2 & X3).
      destruct (decide (p' = p)) as [->|Hnp]; [left|right; split_and!; [done..|lia]].
      assert (e2 = e) as -> by (unfold lq in *; congruence). assert (i2 = i) as -> by congruence. done.
    + split; [apply U|]. intros y Hy. left. split; [|done]. rewrite Es. by apply Hne.
  - split; [done|]. intros y Hy [Y1 Y2]. split; [done|]. intros p' e2 i2 Hp2 Hi2 E2.
    apply (lqp_lookup u1 p) in Hp2; [|done]. destruct Hp2 as [[-> ->]|[_ Hp2]]; [|by apply (Y2 p' e2)].
    injection Hi2 as <-. change (mi_seqNum i') with (mi_seqNum i) in E2. congruence.
Qed.

Lemma retry_fold s l :
  linv s → NoDup (map ld_seq (l ++ ra_refs (ls_u s))) → (∀ x, x ∈ l → waits s x) →
  ∃ u', res_fold retry_load (ls_u s) l = Ok u' ∧ linv (with_u s u').
Proof.
  revert s. induction l as [|x l IH]; intros s I Hnd Hw.
  { exists (ls_u s). split; [done|by destruct s]. }
  simpl in Hnd. apply NoDup_cons in Hnd as [Hx Hnd].
  destruct (retry_inv s x I) as (u1 & E1 & I1 & R1 & W1).
  - apply Hw. set_solver.
  - intros y Hy E. apply Hx. rewrite <- E. apply list_elem_of_fmap_2. set_solver.
  - simpl. rewrite E1. cbn [res_bind]. apply (IH (with_u s u1) I1).
    + simpl. by rewrite R1.
    + intros y Hy. apply W1; [|apply Hw; set_solver]. intros E. apply Hx. rewrite <- E.
      apply list_elem_of_fmap_2. set_solver.
Qed.

Lemma step_update s : linv s → ∃ s', step s LUpdate = Ok s' ∧ linv s'.
Proof.
  intros I. pose proof (iv_q _ _ _ _ _ _ _ _ _ _ I) as Q. pose proof (iv_u _ _ _ _ _ _ _ _ _ _ I) as U.
  simpl. unfold updateCompletedIdx.
  assert (∃ lc, (if cq_empty (lu_LQ (ls_u s)) then Ok (clamp_completed (lu_LQ (ls_u s)) (lu_loadCompletedIdx (ls_u s)))
    else advance_completed (lu_LQ (ls_u s)) lq_done (lp_loadCompletionWidth P)
           (clamp_completed (lu_LQ (ls_u s)) (lu_loadCompletedIdx (ls_u s)))) = Ok lc) as [lc ->].
  { destruct (cq_empty _); [eauto|]. apply advance_total, Q. }
  cbn [res_bind].
  assert (∃ sc, (if cq_empty (lu_SQ (ls_u s)) then Ok (clamp_completed (lu_SQ (ls_u s)) (lu_storeCompletedIdx (ls_u s)))
    else advance_completed (lu_SQ (ls_u s)) sq_done (lp_storeCompletionWidth P)
           (clamp_completed (lu_SQ (ls_u s)) (lu_storeCompletedIdx (ls_u s)))) = Ok sc) as [sc ->].
  { destruct (cq_empty _); [eauto|]. apply advance_total, Q. }
  cbn [res_bind]. set (u0 := set_completed (ls_u s) lc sc).
  set (u1 := if _ && _ then emit u0 _ else u0).
  assert (u_quiet (ls_u s) u1) as Q1 by (unfold u1; by destruct (_ && _)). clearbody u1. clear u0.
  set (rar := dequeue _ _ (lu_RARQueue u1)). set (raw := dequeue _ _ (lu_RAWQueue u1)).
  assert (length (snd rar) ≤ lp_maxRARQEntries P) as Lr.
  { unfold rar. etransitivity; [apply dequeue_length|]. rewrite (uq_rar _ _ Q1). apply U. }
  assert (length (snd raw) ≤ lp_maxRAWQEntries P) as Lw.
  { unfold raw. etransitivity; [apply dequeue_length|]. rewrite (uq_raw _ _ Q1). apply U. }
  unfold processReplayQueues. cbn [lu_RARQueue lu_RAWQueue lu_RARReplayQueue lu_RAWReplayQueue set_ra].
  rewrite (proj2 (Nat.leb_le _ _) Lr), (proj2 (Nat.leb_le _ _) Lw). cbn [assert_ res_bind].
  set (rr := dequeue _ _ (lu_RARReplayQueue u1)). set (rw := dequeue _ _ (lu_RAWReplayQueue u1)).
  set (n1 := Nat.min _ _). set (n2 := Nat.min _ _).
  set (u2 := set_ra _ (snd rar) (snd raw) (drop n1 (snd rr)) (drop n2 (snd rw))).
  set (l := fst rr ++ fst rw ++ take n1 (snd rr) ++ take n2 (snd rw)).
  assert (l ++ ra_refs u2 ≡ₚ ra_refs (ls_u s)) as Hperm.
  { unfold l. change (ra_refs u2) with (drop n1 (snd rr) ++ drop n2 (snd rw)). rewrite shuffle, !take_drop.
    unfold rr, rw. rewrite !dequeue_perm. unfold ra_refs. by rewrite (uq_rarr _ _ Q1), (uq_rawr _ _ Q1). }
  assert (NoDup (map ld_seq (l ++ ra_refs u2))) as Hnd by (rewrite Hperm; apply U).
  assert (∀ x, x ∈ l ++ ra_refs u2 → waits s x) as Hw.
  { intros x. rewrite Hperm. apply (ui_refs _ _ _ U). }
  destruct (retry_fold (with_u s u2) l) as (u' & E & J); try done.
  - apply inv_refs; try done; try apply Q1.
    + destruct (uq_same _ _ Q1). by split.
    + rewrite map_app in Hnd. by apply NoDup_app in Hnd as (_ & _ & ?).
    + intros x Hx. apply Hw. set_solver.
  - intros x Hx. destruct (Hw x) as [W1 W2]; [set_solver|]. split; [done|]. intros p e i Hp.
    apply (W2 p e i). unfold lq in *. simpl in Hp. by rewrite (us_LQ _ _ (uq_same _ _ Q1)) in Hp.
  - change (ls_u (with_u s u2)) with u2 in E. rewrite E. cbn [res_bind]. eexists. split; [done|]. exact J.
Qed.

End Update.

(** A released store leaves the store queue for the store buffer. *)

Section Pop.

Context {C : Type} `{CircularBufferLaws C nat}.
Context (P : LsqParams) (SP : SbParams) (T : nat) (tid : Z) (va : Z → Z).
Context (acc : Z → LSQRequest) (sdata : Z → list Z) (maxData : nat) (m0 : memory).
Hypothesis PO : params_ok SP T.
Hypothesis Hline : lp_lineBits P = sp_lineBits SP.
Hypothesis Htid : (0 ≤ tid < Z.of_nat T)%Z.
Hypothesis Hplain : ∀ s, plain P va acc sdata maxData s.

Local Notation k := (lp_lineBits P).
Local Notation K := (sp_lineBits SP).
Local Notation lo := (a_lo acc).
Local Notation len := (a_len acc).
Local Notation linv := (ls_inv P SP T tid va acc sdata maxData m0).
Local Notation lctx := (lctx P SP tid).
Local Notation st_ok := (st_ok acc sdata maxData).
Local Notation view := (sys_view SP (own tid)).
Implicit Types s : LSys C.

Lemma acc_shape_of q : acc_shape acc sdata q.
Proof. apply (pl_shape _ _ _ _ _ _ (Hplain q)). Qed.

(** ** The buffer takes the store *)

Lemma store_ok_of q :
  store_ok K tid (mr_vaddr (lr_mainReq (acc q))) (lo q) (sdata q) (length (sdata q)) (a_mask acc q).
Proof.
  pose proof (Hplain q) as PL. destruct (acc_shape_of q) as [S1 S2 S3 S4 S5]. pose proof (po_threads _ _ PO) as Ht.
  split; rewrite <- ?Hline.
  - rewrite Hline. unfold in_u. lia.
  - apply PL.
  - unfold in_u. lia.
  - rewrite S5. unfold a_len. lia.
  - done.
  - congruence.
  - apply PL.
  - rewrite S5. unfold a_len. pose proof (pl_block _ _ _ _ _ _ PL). lia.
Qed.

Lemma insert_spec (b : SbSys C) q :
  sys_inv SP T (own tid) va b → sl_blocked (ss_lsq b) = None →
  let ins := insertStoreBuffer K tid (sl_sb (ss_lsq b)) (mr_vaddr (lr_mainReq (acc q))) (lo q) (sdata q)
               (length (sdata q)) (a_mask acc q) in
  ins = Ok (sl_sb (ss_lsq b), false) ∨
  ∃ sb', ins = Ok (sb', true) ∧
    let b' := SS (set_sb (ss_lsq b) sb') (ss_mem b) (ss_done b) in
    sys_inv SP T (own tid) va b' ∧
    (∀ a, in_u 64 a → view b' a = st_write acc sdata (view b) q a) ∧
    (∀ l j, disjoint_acc acc l q → j < len l →
       sb_byte K sb' tid (lo l + Z.of_nat j) = sb_byte K (sl_sb (ss_lsq b)) tid (lo l + Z.of_nat j)).
Proof.
  intros I Hb ins. pose proof (store_ok_of q) as S.
  destruct (sl_insert SP T (ss_lsq b) tid (mr_vaddr (lr_mainReq (acc q))) (lo q) (sdata q) (a_mask acc q) PO
    (yi_lsq _ _ _ _ _ I) Hb S) as [[E _]|(sb' & E & _ & _ & St)]; [lia|by left|]. right. exists sb'. split; [done|].
  intros b'.
  destruct (step_insert SP T PO (own tid) va (λ _, Htid) b tid (mr_vaddr (lr_mainReq (acc q))) (lo q) (sdata q)
    (a_mask acc q) I) as (b2 & x & E2 & I2 & V2).
  { split; [done|]. split; [done|]. rewrite <- Hline. apply (pl_va _ _ _ _ _ _ (Hplain q)). }
  simpl in E2. rewrite (bool_decide_eq_true_2 _ Hb), E in E2. injection E2 as <- <-.
  split; [done|]. split; [done|]. intros l j D Hj. pose proof (line_bits SP T PO) as Hk.
  pose proof (so_tid _ _ _ _ _ _ _ S) as Ht. destruct (acc_shape_of l) as [L1 L2 L3 _ _].
  destruct (acc_shape_of q) as [Q1 Q2 Q3 Q4 Q5].
  assert (in_u 64 (lo l + Z.of_nat j)) as Hu by (unfold a_len, in_u in *; lia).
  rewrite (St tid _ Ht Hu). destruct (decide _) as [[_ Eb]|]; [|done]. unfold store_byte.
  rewrite decide_False; [done|]. intros [Hr _].
  destruct (block_split K (lo l + Z.of_nat j) Hk Hu) as ([Ea Ho] & _).
  destruct (block_split K (lo q) Hk (so_paddr _ _ _ _ _ _ _ S)) as ([Eq Hoq] & _).
  rewrite Q5 in Hr. unfold disjoint_acc, a_len in *. lia.
Qed.

(** ** The queue loses its head *)

Record popped (u u1 : LSQUnit) (rest : list SQEntry) : Prop := {
  pp_id : lu_lsqID u1 = lu_lsqID u;
  pp_LQ : lu_LQ u1 = lu_LQ u;
  pp_wf : cq_wf (lu_SQ u1);
  pp_head : cq_head (lu_SQ u1) = (cq_head (lu_SQ u) + 1)%Z;
  pp_size : cq_size (lu_SQ u1) = (cq_size (lu_SQ u) - 1)%Z;
  pp_cap : cq_capacity (lu_SQ u1) = cq_capacity (lu_SQ u);
  pp_list : cq_list (lu_SQ u1) = rest;
  pp_out : cq_outside (sq_clean maxData) (lu_SQ u1);
  pp_wb : lu_storeWBIt u1 = (lu_storeWBIt u + 1)%Z;
  pp_toWB : lu_storesToWB u1 = (lu_storesToWB u - 1)%Z;
  pp_viol : lu_memDepViolator u1 = lu_memDepViolator u;
  pp_blocked : lu_isStoreBlocked u1 = lu_isStoreBlocked u;
  pp_stall : lu_stalled u1 = true → lu_stalled u = true ∧ lu_stallingLoadIdx u1 = lu_stallingLoadIdx u ∧
               lu_stallingStoreIsn u1 = lu_stallingStoreIsn u;
  pp_ra : lu_RARQueue u1 = lu_RARQueue u ∧ lu_RAWQueue u1 = lu_RAWQueue u ∧
          lu_RARReplayQueue u1 = lu_RARReplayQueue u ∧ lu_RAWReplayQueue u1 = lu_RAWReplayQueue u
}.

Section Head.

Context s (e : SQEntry) (rest : list SQEntry) (i : MInst).
Hypothesis I : linv s.
Hypothesis Hsq : sq s = e :: rest.
Hypothesis Hi : sqe_inst e = Some i.

Local Notation u := (ls_u s).
Local Notation q := (mi_seqNum i).

Lemma head_ok : st_ok (cq_head (lu_SQ u)) e i.
Proof.
  destruct (qi_st _ _ _ _ (iv_q _ _ _ _ _ _ _ _ _ _ I) 0 e) as (j & K0); [by rewrite Hsq|].
  rewrite Z.add_0_r in K0. assert (j = i) as -> by (pose proof (sk_inst _ _ _ _ _ _ K0); congruence). done.
Qed.

Lemma head_size : cq_size (lu_SQ u) = Z.of_nat (S (length rest)).
Proof.
  rewrite <- (cq_list_length (lu_SQ u)) by apply I. change (cq_list (lu_SQ u)) with (sq s). by rewrite Hsq.
Qed.

Lemma done_spec : ∃ u1, storeDone u = Ok u1 ∧ popped u u1 rest.
Proof.
  pose proof (iv_q _ _ _ _ _ _ _ _ _ _ I) as Q. pose proof (iv_u _ _ _ _ _ _ _ _ _ _ I) as U.
  pose proof head_ok as KH. pose proof head_size as Hsz. pose proof (qi_wfS _ _ _ _ Q) as W.
  pose proof (qi_roomS _ _ _ _ Q) as Hroom.
  unfold storeDone, completeStore. rewrite (ui_wb _ _ _ U).
  assert (cq_at (lu_SQ u) (cq_head (lu_SQ u)) = Ok e) as Eat.
  { pose proof (cq_at_lookup (lu_SQ u) 0 e W) as X. rewrite Z.add_0_r in X. apply X.
    change (cq_list (lu_SQ u)) with (sq s). by rewrite Hsq. }
  rewrite Eat. cbn [res_bind]. rewrite (sk_valid _ _ _ _ _ _ KH). cbn [assert_ res_bind].
  set (e1 := sqe_with_wb e (sqe_canWB e) true).
  destruct (cq_put_upd (lu_SQ u) 0 e1 W) as (Ep & W1 & L1).
  { change (cq_list (lu_SQ u)) with (sq s). rewrite Hsq. simpl. lia. }
  rewrite Z.add_0_r in Ep. rewrite Ep. cbn [res_bind]. unfold sq_inst. rewrite Hi. cbn [get_at res_bind].
  set (u0 := set_wb _ _ _). change (lu_SQ u0) with (cq_upd (lu_SQ u) 0 e1).
  change (cq_head (cq_upd (lu_SQ u) 0 e1)) with (cq_head (lu_SQ u)). rewrite Z.eqb_refl.
  assert (cq_list (cq_upd (lu_SQ u) 0 e1) = e1 :: rest) as L1'.
  { rewrite L1. change (cq_list (lu_SQ u)) with (sq s). by rewrite Hsq. }
  destruct (cq_drop_front (cq_upd (lu_SQ u) 0 e1) e1 (sqe_clear e1) rest W1 L1') as
    (q' & Eq & W' & Eh & Es & Ec & El & Eo); [simpl; lia|].
  assert (popCompleted (S (Z.to_nat (cq_size (cq_upd (lu_SQ u) 0 e1)))) (cq_upd (lu_SQ u) 0 e1) = Ok q') as ->.
  { set (n := Z.to_nat _). cbn [popCompleted]. unfold cq_front at 1.
    pose proof (cq_at_lookup (cq_upd (lu_SQ u) 0 e1) 0 e1 W1) as X. rewrite Z.add_0_r, L1' in X. rewrite X by done.
    cbn [res_bind]. destruct (cq_put (cq_upd (lu_SQ u) 0 e1) _ (sqe_clear e1)) as [q1|]; [|done]. cbn [res_bind] in *.
    rewrite Eq. cbn [res_bind]. unfold cq_front. clear X.
    destruct rest as [|e' rest'].
    - assert (cq_empty q' = true) as ->.
      { unfold cq_empty. apply Z.eqb_eq. rewrite Es. simpl. simpl in Hsz. lia. }
      destruct (cq_at_total q' (cq_head q') W') as [a ->]; [pose proof (cw_head _ W'); lia|].
      cbn [res_bind]. by rewrite andb_false_r.
    - pose proof (cq_at_lookup q' 0 e' W') as X. rewrite Z.add_0_r, El in X. rewrite X by done. cbn [res_bind].
      destruct (qi_st _ _ _ _ Q 1 e') as (j & Kj); [by rewrite Hsq|].
      by destruct (sk_flags _ _ _ _ _ _ Kj) as (_ & -> & _). }
  cbn [res_bind]. change (lu_stalled (set_SQ u0 q')) with (lu_stalled u).
  change (lu_stallingStoreIsn (set_SQ u0 q')) with (lu_stallingStoreIsn u).
  change (lu_LQ (set_SQ u0 q')) with (lu_LQ u). change (lu_stallingLoadIdx (set_SQ u0 q')) with (lu_stallingLoadIdx u).
  assert (u64 (cq_head (lu_SQ u) + 1) = (lu_storeWBIt u + 1)%Z) as Hu.
  { rewrite (ui_wb _ _ _ U). apply u64_small. pose proof (cw_head _ W). pose proof (cw_cap _ W). unfold in_u. lia. }
  assert (cq_outside (sq_clean maxData) q') as Hout.
  { apply Eo; [split_and!; try done; apply KH|]. apply cq_outside_upd; [done| |apply Q].
    change (cq_list (lu_SQ u)) with (sq s). rewrite Hsq. simpl. lia. }
  destruct (lu_stalled u && _) eqn:Hst.
  - apply andb_true_iff in Hst as [Hst _].
    destruct (ui_stall _ _ _ U Hst) as (p & x & j & Ei & Hx & Hj & _). rewrite Ei.
    rewrite (cq_at_lookup _ _ _ (qi_wfL _ _ _ _ Q) Hx). cbn [res_bind]. unfold lq_inst. rewrite Hj. cbn [get_at res_bind].
    eexists. split; [done|]. split; done.
  - cbn [res_bind]. eexists. split; [done|]. split; done.
Qed.

(** *** The invariant *)

Context (u1 : LSQUnit) (b' : SbSys C).
Hypothesis Hpop : popped u u1 rest.
Hypothesis Hbound : (q ≤ ls_bound s)%Z.
Hypothesis Hsb : sys_inv SP T (own tid) va b'.
Hypothesis Hview : ∀ a, in_u 64 a → view b' a = st_write acc sdata (base SP tid s) q a.
Hypothesis Hbyte : ∀ l j, disjoint_acc acc l q → j < len l →
  sb_byte k (sl_sb (ss_lsq b')) tid (lo l + Z.of_nat j) =
  sb_byte k (sl_sb (ss_lsq (ls_sb s))) tid (lo l + Z.of_nat j).
Hypothesis Hmem : ss_mem b' = ss_mem (ls_sb s).

Local Notation s' := (with_u (with_sb s b') u1).

Lemma pop_sq : sq s' = rest.
Proof. unfold sq. simpl. apply Hpop. Qed.

Lemma pop_lq : lq s' = lq s.
Proof. unfold lq. simpl. by rewrite (pp_LQ _ _ _ Hpop). Qed.

Lemma pop_lookup p x : rest !! p = Some x → sq s !! S p = Some x.
Proof. by rewrite Hsq. Qed.

Lemma head_lookup : sq s !! 0 = Some e.
Proof. by rewrite Hsq. Qed.

(** A load that is not released comes after the store. *)
Lemma pop_younger p x j :
  lq s !! p = Some x → lqe_inst x = Some j → (ls_bound s < mi_seqNum j)%Z → (cq_head (lu_SQ u) < mi_sqIt j)%Z.
Proof.
  intros Hx Hj Hb. pose proof (iv_q _ _ _ _ _ _ _ _ _ _ I) as Q.
  destruct (qi_ls _ _ _ _ Q p 0 x e j i Hx head_lookup Hj Hi) as [[_ X] _]. lia.
Qed.

Lemma pop_q_inv : q_inv acc sdata maxData s'.
Proof.
  pose proof (iv_q _ _ _ _ _ _ _ _ _ _ I) as Q. pose proof Hpop as PP.
  destruct Q. split; rewrite ?pop_sq, ?pop_lq; simpl; rewrite ?(pp_LQ _ _ _ PP), ?(pp_head _ _ _ PP), ?(pp_size _ _ _ PP), ?(pp_cap _ _ _ PP);
    try done; try apply PP.
  - lia.
  - intros p x Hx. destruct (qi_st _ _ (pop_lookup p x Hx)) as (j & Kj). exists j.
    by replace (cq_head (lu_SQ u) + 1 + Z.of_nat p)%Z with (cq_head (lu_SQ u) + Z.of_nat (S p))%Z by lia.
  - intros p p' x x' j j' Hx Hx' Hj Hj' Hlt. eapply (qi_sortS (S p) (S p')); [by apply pop_lookup..|done|done|lia].
  - intros p p' x x' j j' Hx Hx' Hj Hj'.
    destruct (qi_ls p (S p') x x' j j' Hx (pop_lookup _ _ Hx') Hj Hj') as [X1 X2]. split; [|done]. rewrite <- X1. lia.
  - intros p x j Hx Hj. destruct (qi_sqIt p x j Hx Hj) as [X1 X2]. split; [lia|]. intros Hb.
    pose proof (pop_younger p x j Hx Hj Hb). lia.
  - intros p x j Hx Hj. apply (qi_lqIt (S p) x j); [by apply pop_lookup|done].
  - intros p x j Hx Hj. apply (qi_lastS (S p) x j); [by apply pop_lookup|done].
  - intros p x j Hx Hj. apply (qi_canWB (S p) x j); [by apply pop_lookup|done].
Qed.

Lemma pop_u_inv : u_inv P tid s'.
Proof.
  pose proof (iv_u _ _ _ _ _ _ _ _ _ _ I) as U. pose proof (iv_q _ _ _ _ _ _ _ _ _ _ I) as Q. pose proof Hpop as PP.
  destruct (pp_ra _ _ _ PP) as (R1 & R2 & R3 & R4).
  destruct U. split; rewrite ?pop_sq, ?pop_lq; simpl; rewrite ?(pp_LQ _ _ _ PP), ?R1, ?R2, ?R3, ?R4; try done.
  - by rewrite (pp_id _ _ _ PP).
  - rewrite (pp_wb _ _ _ PP), (pp_head _ _ _ PP). lia.
  - rewrite (pp_toWB _ _ _ PP), ui_toWB, Hsq, filter_cons, decide_True; [simpl; lia|].
    rewrite (qi_canWB _ _ _ _ Q 0 e i head_lookup Hi). by apply bool_decide_eq_true_2.
  - by rewrite (pp_viol _ _ _ PP).
  - by rewrite (pp_blocked _ _ _ PP).
  - intros St. destruct (pp_stall _ _ _ PP St) as (S0 & -> & ->). by apply ui_stall.
Qed.

Lemma head_known : sqe_addrReady e = true.
Proof.
  pose proof (iv_q _ _ _ _ _ _ _ _ _ _ I) as Q. pose proof head_ok as KH.
  assert (sqe_canWB e = true) as Hc.
  { rewrite (qi_canWB _ _ _ _ Q 0 e i head_lookup Hi). by apply bool_decide_eq_true_2. }
  pose proof (sk_canWB _ _ _ _ _ _ KH Hc) as Hf. apply andb_true_iff in Hf as [Hf _].
  destruct (sqe_addrReady e) eqn:E; [done|]. destruct (sk_unknown _ _ _ _ _ _ KH E) as (_ & ? & _). congruence.
Qed.

Lemma inv_pop : linv s'.
Proof.
  split; [apply pop_q_inv|apply pop_u_inv|]. pose proof (iv_q _ _ _ _ _ _ _ _ _ _ I) as Q.
  pose proof (iv_d _ _ _ _ _ _ _ _ _ _ I) as D.
  assert (ast e = ASt q true (sqe_dataReady e)) as Ea by (unfold ast; by rewrite Hi, head_known).
  assert (∀ l j, j < len l → in_u 64 (lo l + Z.of_nat j)) as Hu.
  { intros l j Hj. destruct (acc_shape_of l). unfold a_len, in_u in *. lia. }
  destruct D. split; rewrite ?pop_lq; try done.
  - intros p x j Hx Hj [Hb Ha]. specialize (di_ld p x j Hx Hj (conj Hb Ha)).
    pose proof (pop_younger p x j Hx Hj Hb) as Hy. set (l := mi_seqNum j) in *.
    set (older := take (Z.to_nat (mi_sqIt j - (cq_head (lu_SQ u) + 1))) (map ast rest)).
    assert (lc_older (lctx s j) = ASt q true (sqe_dataReady e) :: older) as Eo.
    { unfold LsqInv.lctx. simpl. unfold abs_sq. rewrite Hsq. simpl. rewrite Ea.
      replace (Z.to_nat (mi_sqIt j - cq_head (lu_SQ u))) with (S (Z.to_nat (mi_sqIt j - (cq_head (lu_SQ u) + 1)))) by lia.
      done. }
    assert (lc_older (lctx s' j) = older) as Eo'.
    { unfold LsqInv.lctx. simpl. rewrite (pp_head _ _ _ Hpop). unfold abs_sq. by rewrite pop_sq. }
    assert (∀ w, load_val acc sdata (lc_older (lctx s j)) (lc_base (lctx s j)) l w →
      load_val acc sdata (lc_older (lctx s' j)) (lc_base (lctx s' j)) l w) as Hv.
    { intros w. rewrite Eo, Eo'. apply (load_val_pop acc sdata acc_shape_of); [|done].
      intros a Hal. simpl. apply Hview. by apply Hu. }
    destruct di_ld as [D1 D2]. split.
    + intros Hex. destruct (D1 Hex) as (v & Hr & V). exists v. split; [done|]. by apply Hv.
    + intros Hs Hr. destruct (D2 Hs Hr) as (r & Er & F1 & F2 & w & V & R). exists r. split; [done|].
      split; [done|]. split; [done|]. exists w. split; [by apply Hv|]. intros a Hal. specialize (R a Hal).
      destruct (fwd_at _ a); [done|]. destruct R as (N & E & M). rewrite Eo in N. split_and!.
      * rewrite Eo'. intros y Hy'. apply N. set_solver.
      * simpl. fold l. rewrite Hbyte; [done| |done]. apply (N (ASt q true (sqe_dataReady e))); [set_solver|done].
      * done.
  - intros p x j Hx Hj Hex y Hy. destruct (di_bus p x j Hx Hj Hex y Hy) as (E & d & Hd & Hjd).
    split; [done|]. exists d. split; [done|]. simpl. by rewrite Hmem.
  - intros a Ha. simpl. rewrite di_mem by done. unfold abs_sq. rewrite pop_sq, Hsq.
    change (map as_seq (map ast (e :: rest))) with (as_seq (ast e) :: map as_seq (map ast rest)). rewrite Ea.
    cbn [as_seq]. rewrite filter_cons, decide_True by done. simpl. apply st_fold_ext. symmetry. by apply Hview.
Qed.

End Head.

(** ** The loop *)

Lemma with_same s : with_u (with_sb s (SS (set_sb (ss_lsq (ls_sb s)) (sl_sb (ss_lsq (ls_sb s)))) (ss_mem (ls_sb s))
  (ss_done (ls_sb s)))) (ls_u s) = s.
Proof. by destruct s as [u [[] m d]]. Qed.

(** A released store at the head is a plain one. *)
Lemma offload_head s e rest i :
  linv s → sq s = e :: rest → sqe_inst e = Some i → sqe_canWB e = true → sl_blocked (ss_lsq (ls_sb s)) = None →
  ∃ u1 sb1 st, offload_store k (ls_u s) (sl_sb (ss_lsq (ls_sb s))) e = Ok (u1, sb1, st) ∧
    (st = OffStop false ∨ st = OffNext true) ∧
    linv (with_u (with_sb s (SS (set_sb (ss_lsq (ls_sb s)) sb1) (ss_mem (ls_sb s)) (ss_done (ls_sb s)))) u1).
Proof.
  intros I Hsq Hi Hc Hb. pose proof (iv_q _ _ _ _ _ _ _ _ _ _ I) as Q. pose proof (iv_u _ _ _ _ _ _ _ _ _ _ I) as U.
  pose proof (head_ok s e rest i I Hsq Hi) as KH. pose proof (Hplain (mi_seqNum i)) as PL.
  assert (mi_seqNum i ≤ ls_bound s)%Z as Hq.
  { pose proof (qi_canWB _ _ _ _ Q 0 e i (head_lookup s e rest Hsq) Hi) as X. rewrite Hc in X. symmetry in X.
    by apply bool_decide_eq_true in X. }
  destruct (sk_static _ _ _ _ _ _ KH) as (_ & Hsc & _). destruct (sk_flags _ _ _ _ _ _ KH) as (Hcm & _ & _).
  pose proof (sk_canWB _ _ _ _ _ _ KH Hc) as Hf. pose proof (head_known s e rest i I Hsq Hi Hq) as Ha.
  destruct (sk_known _ _ _ _ _ _ KH Ha) as (Htr & _). destruct (sk_tr _ _ _ _ _ _ KH Htr) as (_ & Er & _).
  assert (sqe_dataReady e = true) as Hd.
  { apply (sk_std _ _ _ _ _ _ KH). by apply andb_true_iff in Hf as [_ ?]. }
  unfold offload_store. rewrite Hcm. cbn [negb assert_ res_bind]. unfold sq_inst. rewrite Hi, Er. cbn [get_at res_bind].
  unfold to_cache. rewrite (pl_flags _ _ _ _ _ _ PL), Hsc. cbn [rf_isLLSC rf_isAtomic rf_isRelease rf_isStrictlyOrdered rf_isLocalAccess orb negb assert_ res_bind].
  rewrite (pl_split _ _ _ _ _ _ PL), Hf.
  assert ((if ms_isSplitStoreAddr (mi_static i) then true else true) = true) as -> by (by destruct (ms_isSplitStoreAddr _)).
  cbn [assert_ res_bind]. rewrite (ui_id _ _ _ U), Hline.
  assert (store_bytes e 0 (Z.to_nat (lr_size (acc (mi_seqNum i)))) = sdata (mi_seqNum i)) as ->.
  { unfold store_bytes. rewrite drop_0, (pl_size _ _ _ _ _ _ PL). by apply (sk_ready _ _ _ _ _ _ KH). }
  assert (Z.to_nat (lr_size (acc (mi_seqNum i))) = length (sdata (mi_seqNum i))) as ->.
  { rewrite (sh_data _ _ _ (acc_shape_of (mi_seqNum i))), (pl_size _ _ _ _ _ _ PL). done. }
  destruct (insert_spec (ls_sb s) (mi_seqNum i) (di_sb _ _ _ _ _ _ _ _ _ (iv_d _ _ _ _ _ _ _ _ _ _ I)) Hb)
    as [E|(sb1 & E & I1 & V1 & B1)]; unfold a_lo, a_mask in E; rewrite E; cbn [res_bind fst snd].
  - eexists _, _, _. split; [done|]. split; [by left|]. by rewrite with_same.
  - destruct (done_spec s e rest i I Hsq Hi) as (u1 & -> & Hpop). cbn [res_bind].
    eexists _, _, _. split; [done|]. split; [by right|].
    apply (inv_pop s e rest i I Hsq Hi u1 _ Hpop Hq I1 V1); [|done].
    rewrite Hline. exact B1.
Qed.

Lemma offload_loop_inv fuel s max :
  linv s → sl_blocked (ss_lsq (ls_sb s)) = None →
  ∃ u' sb', offload_loop k fuel (ls_u s) (sl_sb (ss_lsq (ls_sb s))) max = Ok (u', sb', false) ∧
    linv (with_u (with_sb s (SS (set_sb (ss_lsq (ls_sb s)) sb') (ss_mem (ls_sb s)) (ss_done (ls_sb s)))) u').
Proof.
  revert s max. induction fuel as [|fuel IH]; intros s max I Hb.
  { eexists _, _. split; [done|]. by rewrite with_same. }
  pose proof (iv_q _ _ _ _ _ _ _ _ _ _ I) as Q. pose proof (iv_u _ _ _ _ _ _ _ _ _ _ I) as U.
  pose proof (qi_wfS _ _ _ _ Q) as W.
  assert (∃ u' sb', Ok (ls_u s, sl_sb (ss_lsq (ls_sb s)), false) = Ok (u', sb', false) ∧
    linv (with_u (with_sb s (SS (set_sb (ss_lsq (ls_sb s)) sb') (ss_mem (ls_sb s)) (ss_done (ls_sb s)))) u')) as Hstop.
  { eexists _, _. split; [done|]. by rewrite with_same. }
  cbn [offload_loop]. destruct (_ && isValidIdx _ _) eqn:Hc; [|done]. apply andb_true_iff in Hc as [_ Hv].
  rewrite (ui_wb _ _ _ U) in Hv |- *. apply isValidIdx_iff in Hv; [|done].
  destruct (sq s) as [|e rest] eqn:Hsq.
  { pose proof (cq_list_length _ W) as L. change (cq_list (lu_SQ (ls_u s))) with (sq s) in L. rewrite Hsq in L. simpl in L. lia. }
  pose proof (cq_at_lookup (lu_SQ (ls_u s)) 0 e W) as Eat. rewrite Z.add_0_r in Eat.
  change (cq_list (lu_SQ (ls_u s))) with (sq s) in Eat. rewrite Hsq in Eat. rewrite Eat by done. cbn [res_bind].
  destruct (sqe_valid e && sqe_canWB e) eqn:Hw; [|done]. apply andb_true_iff in Hw as [_ Hw].
  destruct (qi_st _ _ _ _ Q 0 e) as (i & K0); [by rewrite Hsq|]. pose proof (sk_inst _ _ _ _ _ _ K0) as Hi.
  pose proof (head_ok s e rest i I Hsq Hi) as KH. unfold sq_inst. rewrite Hi. cbn [get_at res_bind].
  assert (mi_seqNum i ≤ ls_bound s)%Z as Hq.
  { pose proof (qi_canWB _ _ _ _ Q 0 e i (head_lookup s e rest Hsq) Hi) as X. rewrite Hw in X. symmetry in X.
    by apply bool_decide_eq_true in X. }
  destruct (sk_known _ _ _ _ _ _ KH (head_known s e rest i I Hsq Hi Hq)) as (_ & _ & -> & _).
  rewrite (proj2 (Z.eqb_neq _ _)) by (pose proof (sh_size _ _ _ (acc_shape_of (mi_seqNum i))); lia).
  destruct (sk_static _ _ _ _ _ _ KH) as (_ & _ & ->). destruct max as [|max]; [done|].
  destruct (offload_head s e rest i I Hsq Hi Hw Hb) as (u1 & sb1 & st & -> & Hst & J). cbn [res_bind].
  destruct Hst as [-> | ->]; [by eexists _, _|].
  destruct (IH _ max J Hb) as (u' & sb' & E & J'). exists u', sb'. split; [exact E|exact J'].
Qed.

(** The number of stores that may leave. *)
Lemma count_total s fuel it max :
  linv s → (cq_head (lu_SQ (ls_u s)) ≤ it)%Z → ∃ n, count_offloadable fuel (ls_u s) it max = Ok n.
Proof.
  intros I. pose proof (iv_q _ _ _ _ _ _ _ _ _ _ I) as Q. pose proof (qi_wfS _ _ _ _ Q) as W.
  revert it max. induction fuel as [|fuel IH]; intros it max Hit; [by destruct max; eexists|].
  destruct max as [|max]; [by eexists|]. cbn [count_offloadable]. destruct (isValidIdx _ _) eqn:Hv; [|by eexists].
  apply isValidIdx_iff in Hv; [|done]. destruct (cq_at_list _ it W Hv) as (e & -> & He). cbn [res_bind].
  destruct (_ && _); [|by eexists]. destruct (qi_st _ _ _ _ Q _ e He) as (i & K0). unfold sq_inst.
  rewrite (sk_inst _ _ _ _ _ _ K0). cbn [get_at res_bind].
  destruct (_ || _); [apply IH; lia|]. destruct (IH (it + 1)%Z max) as [n ->]; [lia|]. by eexists.
Qed.

Lemma clear_banks_inv (l : SbLsq C) busy : sl_inv SP T l → sl_inv SP T (clearBanks l busy).
Proof.
  intros I. destruct (sv_banks _ _ _ I) as [Lb Fb]. apply (sl_inv_fields SP T l); try done. simpl. split.
  - rewrite length_zip_with, length_app, length_replicate. lia.
  - apply Forall_forall. intros row Hr. apply elem_of_lookup_zip_with in Hr as (i & r0 & b0 & -> & Hr0 & _).
    rewrite length_map. by eapply Forall_lookup_1 in Fb.
Qed.

Lemma step_process s busy accept : linv s → ∃ s', ls_step P SP acc sdata s (LProcess busy accept) = Ok s' ∧ linv s'.
Proof.
  intros I. pose proof (di_sb _ _ _ _ _ _ _ _ _ (iv_d _ _ _ _ _ _ _ _ _ _ I)) as IS.
  pose proof (iv_u _ _ _ _ _ _ _ _ _ _ I) as U. simpl. unfold processWriteback.
  change (res_mapM (at_res [ls_u s]) [0]) with (Ok [ls_u s] : res (list LSQUnit)). cbn [res_bind].
  pose proof (clear_banks_inv (ss_lsq (ls_sb s)) busy (yi_lsq _ _ _ _ _ IS)) as IL.
  destruct (writeback_spec SP T PO (clearBanks (ss_lsq (ls_sb s)) busy) (existsb storeBufferSQWillFull [ls_u s]) accept IL)
    as (l1 & -> & IL1 & W1). cbn [res_bind].
  destruct (step_same SP T (own tid) va (ls_sb s) l1 IS IL1 W1) as [IS1 V1].
  set (b1 := SS l1 (ss_mem (ls_sb s)) (ss_done (ls_sb s))) in *.
  assert (linv (with_sb s b1)) as I1.
  { apply (inv_sb P SP T tid va acc sdata maxData m0 Hplain s b1 I IS1); try done.
    destruct W1 as (_ & _ & Wb & _). intros a _ Hn. rewrite Hline in *. simpl. by rewrite Wb. }
  destruct (bool_decide (sl_blocked l1 ≠ None)) eqn:Hbl; cbn [res_bind].
  { eexists. split; [done|]. exact I1. }
  apply bool_decide_eq_false, dec_stable in Hbl.
  assert (∃ n, countStoreBufferOffloadableEntries (ls_u s) maxOffload = Ok n) as [n En].
  { unfold countStoreBufferOffloadableEntries. destruct (_ || _); [by eexists|]. apply count_total; [done|].
    rewrite (ui_wb _ _ _ U). lia. }
  cbn [length seq]. change (res_mapM ?f [0]) with (let! y := f 0 in Ok [y]). cbv beta.
  rewrite bool_decide_eq_true_2 by set_solver. change (at_res [ls_u s] 0) with (Ok (ls_u s) : res LSQUnit).
  cbn [res_bind]. rewrite En. cbn [res_bind]. destruct (offload_quota [0] [n] None) as [quota next].
  cbn [res_fold fst snd]. change (at_res [ls_u s] 0) with (Ok (ls_u s) : res LSQUnit). cbn [res_bind].
  unfold offloadToStoreBuffer. rewrite (bool_decide_eq_true_2 _ Hbl), (ui_blocked _ _ _ U). cbn [assert_ res_bind].
  destruct (offload_loop_inv (S (Z.to_nat (cq_size (lu_SQ (ls_u s))))) (with_sb s b1) (nth 0 quota 0) I1 Hbl) as (u' & sb' & E & J).
  cbn [ls_u ls_sb with_sb ss_lsq b1] in E. unfold b1 in E. simpl ss_lsq in E. rewrite E. cbn [res_bind].
  eexists. split; [done|]. exact J.
Qed.

End Pop.
