(* ===== verification/LsqRetire.v ===== *)
(** Dispatch, commit and squash keep the invariant of the load/store queue. *)
From Stdlib Require Import Sorted.
From stdpp Require Import gmap.
From S2P Require Import Prelude CircularBuffer Bytes StoreBuffer StoreBufferInv StoreBufferView.
From S2P Require Import StoreBufferLsq StoreBufferSteps StoreBufferProps CircularQueue LsqUnit.
From S2P Require Import LsqRead LsqPipe LsqOffload LsqSys LsqInv LsqUpd.

(** ** The tail of a queue *)

(** The slot behind the last element is filled. *)
Lemma cq_extend {A} (q : CircularQueue A) (Q : A → Prop) :
  cq_wf q → has_room q = true → cq_outside Q q →
  ∃ a, Q a ∧ cq_back (cq_advance_tail q) = Ok a ∧ cq_tail (cq_advance_tail q) = (cq_head q + cq_size q)%Z ∧
    ∀ x, ∃ q', cq_put (cq_advance_tail q) (cq_tail (cq_advance_tail q)) x = Ok q' ∧ cq_wf q' ∧
      cq_head q' = cq_head q ∧ cq_size q' = (cq_size q + 1)%Z ∧ cq_capacity q' = cq_capacity q ∧
      cq_list q' = cq_list q ++ [x] ∧ cq_outside Q q'.
Proof.
  intros W Hr O. unfold has_room in Hr. apply andb_true_iff in Hr as [Hf Hr%Z.ltb_lt].
  pose proof (cw_size _ W) as Hsz. pose proof (cq_list_length q W) as L.
  assert (cq_size q < cq_capacity q)%Z as Hlt.
  { apply negb_true_iff, Z.eqb_neq in Hf. lia. }
  destruct (cq_advance_tail_list q W Hlt) as (a & Ha & W1 & Eh & Es & Ec & Ed & El).
  assert (cq_tail (cq_advance_tail q) = cq_head q + cq_size q)%Z as Et by (rewrite cq_tail_eq by done; lia).
  assert (length (cq_list q) < length (cq_list (cq_advance_tail q))) as Hlen by (rewrite El, length_app; simpl; lia).
  exists a. split; [apply (O (Z.to_nat (cq_size q)) a); [lia|done]|]. split.
  { unfold cq_back. rewrite Et, <- Eh, <- L. apply cq_at_lookup; [done|]. rewrite El. by apply list_lookup_middle. }
  split; [done|]. intros x. destruct (cq_put_upd (cq_advance_tail q) (length (cq_list q)) x W1 Hlen) as (Ep & W2 & L2).
  exists (cq_upd (cq_advance_tail q) (length (cq_list q)) x). split; [by rewrite Et, <- L, <- Eh|]. split; [done|].
  split; [done|]. split; [done|]. split; [done|]. split.
  - rewrite L2, El, insert_app_r_alt by lia. by rewrite Nat.sub_diag.
  - apply cq_outside_upd; [done|done|]. intros i b Hi Hb. apply (O i b); [rewrite Es, Ec in Hi; lia|].
    rewrite Ed in Hb. rewrite <- Hb. unfold cq_slot. by rewrite Eh, Ec.
Qed.

Section Dispatch.

Context {C : Type} `{CircularBufferLaws C nat}.
Context (P : LsqParams) (SP : SbParams) (T : nat) (tid : Z) (va : Z → Z).
Context (acc : Z → LSQRequest) (sdata : Z → list Z) (maxData : nat) (m0 : memory).

Local Notation linv := (ls_inv P SP T tid va acc sdata maxData m0).
Local Notation lctx := (lctx P SP tid).
Local Notation step := (ls_step P SP acc sdata).
Implicit Types s : LSys C.

Lemma snoc_lookup {A} (l : list A) x p y :
  (l ++ [x]) !! p = Some y → l !! p = Some y ∨ p = length l ∧ y = x.
Proof. intros [[_ ?]|[-> <-]]%lookup_snoc_Some; [by left|by right]. Qed.

(** ** Loads *)

Section NewLoad.

Context s (m : MStatic) (LQ' : CircularQueue LQEntry).
Hypothesis I : linv s.
Hypothesis Hm : static_ok m.
Hypothesis Hlast : (ls_last s < ms_seqNum m)%Z.
Hypothesis W' : cq_wf LQ'.
Hypothesis Eh : cq_head LQ' = cq_head (lu_LQ (ls_u s)).
Hypothesis Es : cq_size LQ' = (cq_size (lu_LQ (ls_u s)) + 1)%Z.
Hypothesis Ec : cq_capacity LQ' = cq_capacity (lu_LQ (ls_u s)).
Hypothesis Hroom : (cq_head LQ' + cq_size LQ' + cq_capacity LQ' < 2 ^ 64)%Z.
Hypothesis Hout : cq_outside lq_clean LQ'.

Local Notation i' := (mi_set_its (mi_new m) (cq_head (lu_LQ (ls_u s)) + cq_size (lu_LQ (ls_u s)))
                        (cq_head (lu_SQ (ls_u s)) + cq_size (lu_SQ (ls_u s)))).
Local Notation e' := (LQE (Some i') None 0 true).
Hypothesis El : cq_list LQ' = lq s ++ [e'].

Local Notation s' := (with_last (with_u s (set_LQ (ls_u s) LQ')) (ms_seqNum m)).

Lemma nl_size : Z.of_nat (length (lq s)) = cq_size (lu_LQ (ls_u s)).
Proof. apply cq_list_length, I. Qed.

Lemma nl_lookup p x : lq s' !! p = Some x → lq s !! p = Some x ∨ p = length (lq s) ∧ x = e'.
Proof. unfold lq at 1. simpl. rewrite El. apply snoc_lookup. Qed.

Lemma new_load_inv : linv s'.
Proof.
  pose proof (iv_q _ _ _ _ _ _ _ _ _ _ I) as Q. pose proof (iv_u _ _ _ _ _ _ _ _ _ _ I) as U.
  pose proof (iv_d _ _ _ _ _ _ _ _ _ _ I) as D. pose proof nl_size as Hsz. pose proof nl_lookup as HL.
  assert (∀ p x j, lq s !! p = Some x → lqe_inst x = Some j → (mi_seqNum j < ms_seqNum m)%Z) as Hlt.
  { intros p x j Hx Hj. pose proof (qi_lastL _ _ _ _ Q p x j Hx Hj). lia. }
  assert (∀ p x j, sq s !! p = Some x → sqe_inst x = Some j → (mi_seqNum j < ms_seqNum m)%Z) as HltS.
  { intros p x j Hx Hj. pose proof (qi_lastS _ _ _ _ Q p x j Hx Hj). lia. }
  split.
  - destruct Q. split; simpl; rewrite ?Eh, ?Es, ?Ec; try done; try lia.
    + intros p x Hx. destruct (HL p x Hx) as [Hx'|[-> ->]]; [by apply qi_ld|]. exists i'.
      split; try done. split; try done. simpl. lia.
    + intros p p' x x' j j' Hx Hx' Hj Hj' Hpp. destruct (HL p x Hx) as [Hy|[-> ->]], (HL p' x' Hx') as [Hy'|[-> ->]].
      * by eapply (qi_sortL p p').
      * injection Hj' as <-. by eapply Hlt.
      * apply lookup_lt_Some in Hy'. lia.
      * lia.
    + intros p p' x x' j j' Hx Hx' Hj Hj'. destruct (HL p x Hx) as [Hy|[-> ->]]; [by eapply qi_ls|].
      injection Hj as <-. pose proof (HltS p' x' j' Hx' Hj') as X. change (mi_seqNum i') with (ms_seqNum m).
      destruct (qi_lqIt p' x' j' Hx' Hj') as [Y _]. apply lookup_lt_Some in Hx'.
      pose proof (cq_list_length _ qi_wfS) as LS. unfold sq in Hx'. simpl in *. split; split; intros; (done || lia).
    + intros p x j Hx Hj. destruct (HL p x Hx) as [Hy|[-> ->]]; [by eapply qi_sqIt|]. injection Hj as <-. simpl.
      pose proof (cw_size _ qi_wfS). split; [lia|]. intros _. lia.
    + intros p x j Hx Hj. destruct (qi_lqIt p x j Hx Hj) as [Y1 Y2]. split; [lia|done].
    + intros p x j Hx Hj. pose proof (HltS p x j Hx Hj). lia.
    + intros p x j Hx Hj. destruct (HL p x Hx) as [Hy|[-> ->]]; [pose proof (Hlt p x j Hy Hj); lia|].
      injection Hj as <-. done.
    + intros q p Hq. pose proof (qi_bus q p Hq). lia.
    + intros p x j Hx Hj Hle. destruct (HL p x Hx) as [Hy|[-> ->]]; [by eapply qi_execB|].
      injection Hj as <-. change (mi_seqNum i') with (ms_seqNum m) in Hle. lia.
  - destruct U. split; simpl; rewrite ?Eh; try done.
    + intros St. destruct (ui_stall St) as (p & x & j & X1 & X2 & X3). exists p, x, j. split; [done|]. split; [|done].
      change (cq_list LQ' !! p = Some x). rewrite El. by apply lookup_app_l_Some.
    + intros x Hx. destruct (ui_refs x Hx) as [X1 X2]. split; [lia|]. intros p y j Hy Hj Ej.
      destruct (HL p y Hy) as [Hy'|[-> ->]]; [by apply (X2 p y)|]. injection Hj as <-.
      change (mi_seqNum i') with (ms_seqNum m) in Ej. lia.
  - destruct D. split; try done.
    + intros p x j Hx Hj Ha. destruct (HL p x Hx) as [Hy|[-> ->]]; [by apply (di_ld p x j Hy Hj)|].
      injection Hj as <-. by split.
    + intros p x j Hx Hj. destruct (HL p x Hx) as [Hy|[-> ->]]; [by apply (di_bus p x j Hy Hj)|].
      injection Hj as <-. intros _ y Hy. simpl in Hy. change (mi_seqNum i') with (ms_seqNum m) in Hy.
      pose proof (qi_bus _ _ _ _ Q _ _ Hy). lia.
Qed.

End NewLoad.

Lemma step_dispatch_load s m : linv s → static_ok m → ∃ s', step s (LDispatchLoad m) = Ok s' ∧ linv s'.
Proof.
  intros I Hm. pose proof (iv_q _ _ _ _ _ _ _ _ _ _ I) as Q. simpl. destruct (_ && _) eqn:Hc; [|eauto].
  apply andb_true_iff in Hc as [Hl%Z.ltb_lt Hr]. pose proof (qi_wfL _ _ _ _ Q) as W.
  destruct (cq_extend (lu_LQ (ls_u s)) lq_clean W Hr (qi_outL _ _ _ _ Q)) as (a & [Ha1 Ha2] & Eb & Et & Hput).
  unfold has_room in Hr. apply andb_true_iff in Hr as [Hf Hr%Z.ltb_lt]. pose proof (cw_size _ W). pose proof (cw_head _ W).
  unfold insertLoad. rewrite Hf. cbn [assert_ res_bind].
  assert ((cq_size (lu_LQ (ls_u s)) <? cq_capacity (lu_LQ (ls_u s)))%Z = true) as ->.
  { apply Z.ltb_lt. apply negb_true_iff, Z.eqb_neq in Hf. lia. }
  cbn [assert_ res_bind]. rewrite Eb. cbn [res_bind]. unfold lqe_set. rewrite Ha1, Ha2. cbn [negb assert_ res_bind].
  rewrite cq_end_eq by apply Q. set (e' := LQE _ _ _ _). destruct (Hput e') as (q' & -> & W' & Eh & Es & Ec & El & Ho).
  cbn [res_bind]. assert ((0 <? cq_tail q')%Z = true) as ->.
  { apply Z.ltb_lt. rewrite cq_tail_eq by done. lia. }
  cbn [assert_ res_bind]. eexists. split; [done|]. apply new_load_inv; try done; [lia|].
  rewrite El. unfold e'. by rewrite Et.
Qed.

(** ** Stores *)

Section NewStore.

Context s (m : MStatic) (b : SQEntry) (SQ' : CircularQueue SQEntry).
Hypothesis I : linv s.
Hypothesis Hm : static_ok m.
Hypothesis Hlast : (ls_last s < ms_seqNum m)%Z.
Hypothesis Hb : sq_clean maxData b.
Hypothesis W' : cq_wf SQ'.
Hypothesis Eh : cq_head SQ' = cq_head (lu_SQ (ls_u s)).
Hypothesis Es : cq_size SQ' = (cq_size (lu_SQ (ls_u s)) + 1)%Z.
Hypothesis Ec : cq_capacity SQ' = cq_capacity (lu_SQ (ls_u s)).
Hypothesis Hroom : (cq_head SQ' + cq_size SQ' + cq_capacity SQ' < 2 ^ 64)%Z.
Hypothesis Hout : cq_outside (sq_clean maxData) SQ'.

Local Notation i' := (mi_set_its (mi_new m) (cq_head (lu_LQ (ls_u s)) + cq_size (lu_LQ (ls_u s)))
                        (cq_head (lu_SQ (ls_u s)) + cq_size (lu_SQ (ls_u s)))).
Local Notation e' := (SQE (Some i') None 0 true (sqe_data b) false false false false false false false false).
Hypothesis El : cq_list SQ' = sq s ++ [e'].

Local Notation s' := (with_last (with_u s (set_SQ (ls_u s) SQ')) (ms_seqNum m)).

Lemma ns_size : Z.of_nat (length (sq s)) = cq_size (lu_SQ (ls_u s)).
Proof. apply cq_list_length, I. Qed.

Lemma ns_lookup p x : sq s' !! p = Some x → sq s !! p = Some x ∨ p = length (sq s) ∧ x = e'.
Proof. unfold sq at 1. simpl. rewrite El. apply snoc_lookup. Qed.

(** The stores that precede a load are those it had. *)
Lemma ns_lctx p e i : lq s !! p = Some e → lqe_inst e = Some i → lctx s' i = lctx s i.
Proof.
  intros He Hi. destruct (qi_sqIt _ _ _ _ (iv_q _ _ _ _ _ _ _ _ _ _ I) p e i He Hi) as [X _].
  pose proof ns_size. unfold LsqInv.lctx, abs_sq, sq. simpl. rewrite Eh, El, map_app, take_app_le; [done|].
  rewrite length_map. unfold sq in *. lia.
Qed.

Lemma new_store_inv : linv s'.
Proof.
  pose proof (iv_q _ _ _ _ _ _ _ _ _ _ I) as Q. pose proof (iv_u _ _ _ _ _ _ _ _ _ _ I) as U.
  pose proof (iv_d _ _ _ _ _ _ _ _ _ _ I) as D. pose proof ns_size as Hsz. pose proof ns_lookup as HL.
  assert (∀ p x j, sq s !! p = Some x → sqe_inst x = Some j → (mi_seqNum j < ms_seqNum m)%Z) as Hlt.
  { intros p x j Hx Hj. pose proof (qi_lastS _ _ _ _ Q p x j Hx Hj). lia. }
  assert (∀ p x j, lq s !! p = Some x → lqe_inst x = Some j → (mi_seqNum j < ms_seqNum m)%Z) as HltL.
  { intros p x j Hx Hj. pose proof (qi_lastL _ _ _ _ Q p x j Hx Hj). lia. }
  pose proof (qi_bound _ _ _ _ Q) as Hbnd. split.
  - destruct Q. split; simpl; rewrite ?Eh, ?Es, ?Ec; try done; try lia.
    + intros p x Hx. destruct (HL p x Hx) as [Hx'|[-> ->]]; [by apply qi_st|]. exists i'.
      split; try done; simpl; try lia; [apply Hb|by left].
    + intros p p' x x' j j' Hx Hx' Hj Hj' Hpp. destruct (HL p x Hx) as [Hy|[-> ->]], (HL p' x' Hx') as [Hy'|[-> ->]].
      * by eapply (qi_sortS p p').
      * injection Hj' as <-. by eapply Hlt.
      * apply lookup_lt_Some in Hy'. lia.
      * lia.
    + intros p p' x x' j j' Hx Hx' Hj Hj'. destruct (HL p' x' Hx') as [Hy|[-> ->]]; [by eapply qi_ls|].
      injection Hj' as <-. pose proof (HltL p x j Hx Hj) as X. change (mi_seqNum i') with (ms_seqNum m).
      destruct (qi_sqIt p x j Hx Hj) as [Y _]. apply lookup_lt_Some in Hx.
      pose proof (cq_list_length _ qi_wfL) as LS. unfold lq in Hx. simpl in *. split; split; intros; (done || lia).
    + intros p x j Hx Hj. destruct (qi_sqIt p x j Hx Hj) as [Y1 Y2]. split; [lia|done].
    + intros p x j Hx Hj. destruct (HL p x Hx) as [Hy|[-> ->]]; [by eapply qi_lqIt|]. injection Hj as <-. simpl.
      pose proof (cw_size _ qi_wfL). split; [lia|]. intros _. lia.
    + intros p x j Hx Hj. destruct (HL p x Hx) as [Hy|[-> ->]]; [pose proof (Hlt p x j Hy Hj); lia|].
      injection Hj as <-. done.
    + intros p x j Hx Hj. pose proof (HltL p x j Hx Hj). lia.
    + intros q p Hq. pose proof (qi_bus q p Hq). lia.
    + intros p x j Hx Hj. destruct (HL p x Hx) as [Hy|[-> ->]]; [by eapply qi_canWB|].
      injection Hj as <-. symmetry. apply bool_decide_eq_false. change (mi_seqNum i') with (ms_seqNum m). lia.
  - destruct U. split; simpl; rewrite ?Eh; try done.
    + rewrite ui_toWB. unfold sq. simpl. by rewrite El, filter_app, app_nil_r.
    + intros x Hx. destruct (ui_refs x Hx) as [X1 X2]. split; [lia|done].
  - destruct D. split; try done.
    + intros p x j Hx Hj Ha. rewrite (ns_lctx p x j Hx Hj). by apply (di_ld p x j).
    + intros a Ha. rewrite di_mem by done. unfold abs_sq, sq. simpl. rewrite El, !map_app, filter_app. simpl.
      rewrite (filter_cons_False _ (as_seq (ast e'))), filter_nil, app_nil_r; [done|].
      change (as_seq (ast e')) with (ms_seqNum m). lia.
Qed.

End NewStore.

Lemma step_dispatch_store s m : linv s → static_ok m → ∃ s', step s (LDispatchStore m) = Ok s' ∧ linv s'.
Proof.
  intros I Hm. pose proof (iv_q _ _ _ _ _ _ _ _ _ _ I) as Q. simpl. destruct (_ && _) eqn:Hc; [|eauto].
  apply andb_true_iff in Hc as [Hl%Z.ltb_lt Hr]. pose proof (qi_wfS _ _ _ _ Q) as W.
  destruct (cq_extend (lu_SQ (ls_u s)) (sq_clean maxData) W Hr (qi_outS _ _ _ _ Q)) as (b & Hb & Eb & Et & Hput).
  unfold has_room in Hr. apply andb_true_iff in Hr as [Hf Hr%Z.ltb_lt]. pose proof (cw_size _ W). pose proof (cw_head _ W).
  unfold insertStore. rewrite Hf. cbn [assert_ res_bind].
  assert ((cq_size (lu_SQ (ls_u s)) <? cq_capacity (lu_SQ (ls_u s)))%Z = true) as ->.
  { apply Z.ltb_lt. apply negb_true_iff, Z.eqb_neq in Hf. lia. }
  cbn [assert_ res_bind]. change (u64 (cq_tail (lu_LQ (ls_u s)) + 1)) with (cq_end (lu_LQ (ls_u s))).
  pose proof (qi_wfL _ _ _ _ Q) as WL. pose proof (cw_size _ WL). pose proof (cw_head _ WL). rewrite cq_end_eq by done.
  assert ((0 <? cq_head (lu_LQ (ls_u s)) + cq_size (lu_LQ (ls_u s)))%Z = true) as -> by (apply Z.ltb_lt; lia).
  cbn [assert_ res_bind]. rewrite Eb. cbn [res_bind]. pose proof Hb as (B1 & B2 & B3 & B4 & B5 & B6 & B7 & B8 & B9 & B10 & B11 & B12).
  unfold sqe_set. rewrite B1, B3, B5, B6, B7, B8, B9, B10, B11, B12. cbn [negb assert_ res_bind].
  set (e' := SQE _ _ _ _ _ _ _ _ _ _ _ _ _). destruct (Hput e') as (q' & -> & W' & Eh & Es & Ec & El & Ho).
  cbn [res_bind]. eexists. split; [done|]. apply (new_store_inv s m b); try done; [lia|].
  rewrite El. unfold e'. by rewrite Et.
Qed.

End Dispatch.

(** Commit: the stores up to a number may be written back, the loads leave their queue. *)

(** ** Sorted lists *)

Lemma take_filter {A} (Q : A → Prop) `{∀ x, Decision (Q x)} l n :
  (∀ p x, l !! p = Some x → p < n ↔ Q x) → take n l = filter Q l.
Proof.
  revert n. induction l as [|x l IH]; intros n Hn; [by destruct n|].
  assert (0 < n ↔ Q x) as H0 by (by apply (Hn 0)). destruct n as [|n].
  - rewrite filter_cons_False by (intros ?%H0; lia). symmetry. apply filter_none, Forall_forall. intros y Hy.
    apply list_elem_of_lookup in Hy as [p Hp]. intros ?%(Hn (S p) y Hp). lia.
  - rewrite filter_cons_True by (apply H0; lia). simpl. f_equal. apply IH. intros p y Hp.
    rewrite <- (Hn (S p) y Hp). lia.
Qed.

(** The numbers up to [c], those up to [b] first. *)
Lemma filter_between (l : list Z) b c : StronglySorted Z.lt l → (b ≤ c)%Z →
  filter (λ q, q ≤ c)%Z l = filter (λ q, q ≤ b)%Z l ++ filter (λ q, b < q ∧ q ≤ c)%Z l.
Proof.
  intros S Hbc. induction S as [|x l S IH F]; [done|]. rewrite !filter_cons.
  destruct (decide (x ≤ b)%Z) as [Hb|Hb].
  - rewrite decide_True by lia. rewrite (decide_False (P := (b < x ∧ x ≤ c)%Z)) by lia. simpl. by f_equal.
  - assert (filter (λ q, q ≤ b)%Z l = []) as Hnil.
    { apply filter_none, Forall_forall. intros y Hy Hyb. rewrite Forall_forall in F. specialize (F y Hy). simpl in F. lia. }
    rewrite Hnil in *. simpl in *. destruct (decide (x ≤ c)%Z) as [Hc|Hc].
    + rewrite decide_True by lia. by f_equal.
    + by rewrite decide_False by lia.
Qed.

Lemma sorted_of_lookup (l : list Z) :
  (∀ p p' x x', l !! p = Some x → l !! p' = Some x' → p < p' → (x < x')%Z) → StronglySorted Z.lt l.
Proof.
  induction l as [|x l IH]; intros Hl; constructor.
  - apply IH. intros p p' y y' Hp Hp' Hlt. apply (Hl (S p) (S p')); [done|done|lia].
  - apply Forall_lookup. intros p y Hp. apply (Hl 0 (S p)); [done|done|lia].
Qed.

Lemma sorted_filter (Q : Z → Prop) `{∀ x, Decision (Q x)} l : StronglySorted Z.lt l → StronglySorted Z.lt (filter Q l).
Proof.
  induction 1 as [|x l S IH F]; [constructor|]. rewrite filter_cons. destruct (decide _); [|done].
  constructor; [done|]. apply Forall_forall. intros y [_ Hy]%list_elem_of_filter. rewrite Forall_forall in F. by apply F.
Qed.

Lemma seqs_sorted_app (l1 l2 : list Z) : StronglySorted Z.lt l1 → StronglySorted Z.lt l2 →
  (∀ x y, x ∈ l1 → y ∈ l2 → (x < y)%Z) → StronglySorted Z.lt (l1 ++ l2).
Proof.
  induction 1 as [|x l S IH F]; intros S2 Hxy; [done|]. simpl. constructor.
  - apply IH; [done|]. intros a b Ha Hb. apply Hxy; [by apply list_elem_of_further|done].
  - apply Forall_app. split; [done|]. apply Forall_forall. intros y Hy. apply Hxy; [left|done].
Qed.

Lemma cq_front_lookup {A} (q : CircularQueue A) a : cq_wf q → cq_list q !! 0 = Some a → cq_front q = Ok a.
Proof. intros W Ha. unfold cq_front. rewrite <- (Z.add_0_r (cq_head q)). by apply (cq_at_lookup q 0). Qed.

(** ** [commitStores] *)

(** What the loop makes of an entry. *)
Definition released (mem : Z) (e : SQEntry) : SQEntry :=
  match sqe_inst e with
  | Some i => if (mi_seqNum i <=? mem)%Z then sqe_with_wb e true (sqe_completed e) else e
  | None => e
  end.

Definition wb_count (l : list SQEntry) : Z := Z.of_nat (length (filter (λ e, sqe_canWB e = true) l)).

Lemma released_same mem e : sqe_canWB e = true → released mem e = e.
Proof. intros E. unfold released, sqe_with_wb. destruct e as [[i|]]; simpl in *; [|done]. subst. by destruct (_ <=? _)%Z. Qed.

Lemma released_inst mem e : sqe_inst (released mem e) = sqe_inst e.
Proof. unfold released. destruct (sqe_inst e) eqn:E; [|done]. by destruct (_ <=? _)%Z. Qed.

Lemma released_ast mem e : ast (released mem e) = ast e.
Proof. unfold released. destruct (sqe_inst e) eqn:E; [|done]. by destruct (_ <=? _)%Z. Qed.

Lemma released_wb mem e i : sqe_inst e = Some i →
  sqe_canWB (released mem e) = sqe_canWB e || (mi_seqNum i <=? mem)%Z.
Proof. intros E. unfold released. rewrite E. destruct (_ <=? _)%Z; simpl; [by rewrite orb_true_r|by rewrite orb_false_r]. Qed.

Lemma map_released_none mem l : (∀ e, e ∈ l → ∃ i, sqe_inst e = Some i ∧ (mem < mi_seqNum i)%Z) → map (released mem) l = l.
Proof.
  induction l as [|e l IH]; intros Hl; [done|]. simpl. f_equal; [|apply IH; intros x ?; apply Hl; by right].
  destruct (Hl e) as (i & Hi & Hlt); [left|]. unfold released. rewrite Hi. by rewrite (proj2 (Z.leb_gt _ _) Hlt).
Qed.

(** The entries from the position [p] on, which the loop visits. *)
Definition visitable (mem : Z) (l : list SQEntry) : Prop :=
  ∀ p e, l !! p = Some e → sqe_valid e = true ∧ ∃ i, sqe_inst e = Some i ∧
    ((mi_seqNum i ≤ mem)%Z → splitStoreFinish e = true) ∧
    ∀ p' e' i', l !! p' = Some e' → sqe_inst e' = Some i' → p < p' → (mi_seqNum i < mi_seqNum i')%Z.

Lemma visitable_tail mem e l : visitable mem (e :: l) → visitable mem l.
Proof.
  intros V p x Hp. destruct (V (S p) x Hp) as (Hv & i & Hi & Hs & Ho). split; [done|]. exists i. split_and!; [done|done|].
  intros p' e' i' Hp' Hi' Hlt. apply (Ho (S p') e' i'); [done|done|lia].
Qed.

Lemma commitStores_loop_spec mem rest : ∀ done u,
  cq_wf (lu_SQ u) → cq_list (lu_SQ u) = done ++ rest → visitable mem rest →
  ∃ q', commitStores_loop (length rest) (cq_head (lu_SQ u) + Z.of_nat (length done)) u mem =
      Ok (set_wb (set_SQ u q') (lu_storeWBIt u)
            (lu_storesToWB u + (wb_count (map (released mem) rest) - wb_count rest))) ∧
    cq_wf q' ∧ cq_head q' = cq_head (lu_SQ u) ∧ cq_size q' = cq_size (lu_SQ u) ∧
    cq_capacity q' = cq_capacity (lu_SQ u) ∧ cq_list q' = done ++ map (released mem) rest ∧
    ∀ Q : SQEntry → Prop, cq_outside Q (lu_SQ u) → cq_outside Q q'.
Proof.
  assert (∀ u, u = set_wb (set_SQ u (lu_SQ u)) (lu_storeWBIt u) (lu_storesToWB u)) as Heta by (by intros []).
  induction rest as [|e rest IH]; intros dn u W El V.
  { exists (lu_SQ u). simpl. rewrite Z.add_0_r, <- Heta. done. }
  assert (cq_list (lu_SQ u) !! length dn = Some e) as He by (rewrite El; by apply list_lookup_middle).
  destruct (V 0 e eq_refl) as (Hv & i & Hi & Hs & Ho). pose proof (visitable_tail _ _ _ V) as V'.
  cbn [commitStores_loop length map]. rewrite (cq_at_lookup _ _ _ W He). cbn [res_bind]. rewrite Hv. cbn [assert_ res_bind].
  replace (cq_head (lu_SQ u) + Z.of_nat (length dn) + 1)%Z
    with (cq_head (lu_SQ u) + Z.of_nat (length (dn ++ [e])))%Z by (rewrite length_app; simpl; lia).
  destruct (sqe_canWB e) eqn:Ew.
  - destruct (IH (dn ++ [e]) u W) as (q' & -> & W' & Eh & Es & Ec & El' & O'); [by rewrite <- app_assoc|done|].
    exists q'. rewrite released_same, <- app_assoc in * by done. split_and!; try done. do 2 f_equal.
    unfold wb_count. rewrite !filter_cons_True by done. simpl. lia.
  - assert (sq_inst e = Ok i) as -> by (unfold sq_inst; by rewrite Hi). cbn [res_bind]. destruct (mem <? mi_seqNum i)%Z eqn:Elt.
    + apply Z.ltb_lt in Elt. exists (lu_SQ u). change (released mem e :: map (released mem) rest) with (map (released mem) (e :: rest)).
      rewrite map_released_none.
      { rewrite Z.sub_diag, Z.add_0_r, <- Heta. done. }
      intros x Hx. apply list_elem_of_lookup in Hx as [p Hp]. destruct (V p x Hp) as (_ & j & Hj & _).
      exists j. split; [done|]. destruct p as [|p]; [injection Hp as <-; congruence|].
      specialize (Ho (S p) x j Hp Hj ltac:(lia)). lia.
    + apply Z.ltb_ge in Elt. rewrite Hs by done.
      assert (released mem e = sqe_with_wb e true (sqe_completed e)) as Er.
      { unfold released. rewrite Hi. by apply Z.leb_le in Elt as ->. }
      replace (if ms_isSplitStoreAddr (mi_static i) then true else true) with true by (by destruct (ms_isSplitStoreAddr _)).
      cbn [assert_ res_bind].
      destruct (cq_put_upd (lu_SQ u) (length dn) (released mem e) W) as (Ep & W1 & L1); [by apply lookup_lt_Some in He|].
      rewrite <- Er, Ep. cbn [res_bind]. set (u1 := set_wb (set_SQ u (cq_upd (lu_SQ u) (length dn) (released mem e))) (lu_storeWBIt u) (lu_storesToWB u + 1)).
      destruct (IH (dn ++ [released mem e]) u1 W1) as (q' & E' & W' & Eh & Es & Ec & El' & O').
      { change (lu_SQ u1) with (cq_upd (lu_SQ u) (length dn) (released mem e)). rewrite L1, El, <- app_assoc.
        rewrite insert_app_r_alt by lia. by rewrite Nat.sub_diag. }
      { done. }
      exists q'. rewrite <- app_assoc in El'. split.
      * replace (length (dn ++ [e])) with (length (dn ++ [released mem e])) by (by rewrite !length_app).
        etrans; [apply E'|]. unfold u1, set_wb, set_SQ. simpl. do 2 f_equal. unfold wb_count.
        rewrite (filter_cons_True _ (released mem e)) by (by rewrite Er). rewrite filter_cons_False by congruence. simpl. lia.
      * split_and!; try done. intros Q O. apply O', cq_outside_upd; [done|by apply lookup_lt_Some in He|done].
Qed.

Section Commit.

Context {C : Type} `{CircularBufferLaws C nat}.
Context (P : LsqParams) (SP : SbParams) (T : nat) (tid : Z) (va : Z → Z).
Context (acc : Z → LSQRequest) (sdata : Z → list Z) (maxData : nat) (m0 : memory).
Hypothesis Hplain : ∀ s, plain P va acc sdata maxData s.

Local Notation linv := (ls_inv P SP T tid va acc sdata maxData m0).
Local Notation qinv := (q_inv acc sdata maxData).
Local Notation lctx := (lctx P SP tid).
Local Notation step := (ls_step P SP acc sdata).
Local Notation stw := (st_write acc sdata).
Local Notation rs_write := (λ m r, mem_write m (rs_addr r) (rs_data r) (rs_mask r)).
Implicit Types s : LSys C.

(** ** What commit releases *)

(** A released store wrote the bytes of its instruction. *)
Definition faithful (r : RStore) : Prop :=
  r = RSt (rs_seq r) (a_lo acc (rs_seq r)) (sdata (rs_seq r)) (a_mask acc (rs_seq r)).

Lemma fold_faithful rs m : Forall faithful rs → fold_left rs_write rs m = fold_left stw (map rs_seq rs) m.
Proof. intros F. revert m. induction F as [|r rs E F IH]; intros m; [done|]. simpl. rewrite E. apply IH. Qed.

Lemma map_filter_seq (b : Z) rs : map rs_seq (filter (λ r, rs_seq r < b)%Z rs) = filter (λ q, q < b)%Z (map rs_seq rs).
Proof. induction rs as [|r rs IH]; [done|]. simpl. rewrite !filter_cons. destruct (decide _); simpl; by rewrite IH. Qed.

Definition seqs s : list Z := map as_seq (abs_sq s).

Lemma seqs_lookup s p x : qinv s → seqs s !! p = Some x →
  ∃ e i, sq s !! p = Some e ∧ sqe_inst e = Some i ∧ x = mi_seqNum i.
Proof.
  intros Q. unfold seqs, abs_sq. rewrite map_map. intros Hp. apply list_lookup_fmap_Some in Hp as (e & -> & He).
  destruct (qi_st _ _ _ _ Q p e He) as [i Hi]. exists e, i. pose proof (sk_inst _ _ _ _ _ _ Hi) as E.
  split_and!; [done|done|]. simpl. unfold ast. by rewrite E.
Qed.

Lemma seqs_sorted s : qinv s → StronglySorted Z.lt (seqs s).
Proof.
  intros Q. apply sorted_of_lookup. intros p p' x x' Hx Hx' Hlt.
  destruct (seqs_lookup s p x Q Hx) as (e & i & He & Hi & ->).
  destruct (seqs_lookup s p' x' Q Hx') as (e' & i' & He' & Hi' & ->). by eapply (qi_sortS _ _ _ _ Q p p').
Qed.

(** The stores before the iterator of a load are those with smaller numbers. *)
Lemma older_seqs s p e i : qinv s → lq s !! p = Some e → lqe_inst e = Some i → (ls_bound s < mi_seqNum i)%Z →
  map as_seq (lc_older (lctx s i)) = filter (λ q, q < mi_seqNum i)%Z (seqs s).
Proof.
  intros Q He Hi Hb. unfold LsqInv.lctx. simpl. rewrite <- firstn_map. apply take_filter. intros p' x Hx.
  destruct (seqs_lookup s p' x Q Hx) as (e' & i' & He' & Hi' & ->).
  destruct (qi_ls _ _ _ _ Q p p' e e' i i' He He' Hi Hi') as [X _].
  destruct (qi_sqIt _ _ _ _ Q p e i He Hi) as [_ Y]. specialize (Y Hb). rewrite <- X. lia.
Qed.

(** The stores and the loads up to [mem] are ready. *)
Definition all_ready s (mem : Z) : Prop :=
  (∀ p e i, lq s !! p = Some e → lqe_inst e = Some i → (mi_seqNum i ≤ mem)%Z → mi_executed i = true) ∧
  (∀ p e i, sq s !! p = Some e → sqe_inst e = Some i → (mi_seqNum i ≤ mem)%Z → splitStoreFinish e = true).

Lemma can_commit_spec s mem dn : can_commit s mem dn = true →
  (dn ≤ mem)%Z ∧ (ls_bound s ≤ mem)%Z ∧ (mem ≤ ls_last s)%Z ∧ (∀ q, ls_squash s = Some q → (mem < q)%Z) ∧ all_ready s mem.
Proof.
  unfold can_commit, all_ready. rewrite !andb_true_iff, !Z.leb_le, !forallb_forall.
  intros (((((H1 & H2) & H3) & H4) & HL) & HS). split_and!; try done.
  - intros q E. rewrite E in H4. by apply Z.ltb_lt.
  - intros p e i He Hi Hle. specialize (HL e ltac:(apply list_elem_of_In; by eapply list_elem_of_lookup_2)).
    rewrite Hi in HL. apply orb_true_iff in HL as [X%Z.ltb_lt|X]; [lia|done].
  - intros p e i He Hi Hle. specialize (HS e ltac:(apply list_elem_of_In; by eapply list_elem_of_lookup_2)).
    rewrite Hi in HS. apply orb_true_iff in HS as [X%Z.ltb_lt|X]; [lia|done].
Qed.

Lemma finish_ready idx e i : st_ok acc sdata maxData idx e i → splitStoreFinish e = true →
  sqe_addrReady e = true ∧ take (a_len acc (mi_seqNum i)) (sqe_data e) = sdata (mi_seqNum i).
Proof.
  intros K [E1 E2]%andb_true_iff. split.
  - destruct (sqe_addrReady e) eqn:E; [done|]. destruct (sk_unknown _ _ _ _ _ _ K E) as (_ & X & _). congruence.
  - apply (sk_ready _ _ _ _ _ _ K), (sk_std _ _ _ _ _ _ K), E2.
Qed.

Lemma released_stores_spec s mem : qinv s → all_ready s mem →
  map rs_seq (released_stores acc s mem) = filter (λ q, ls_bound s < q ∧ q ≤ mem)%Z (seqs s) ∧
  Forall faithful (released_stores acc s mem).
Proof.
  intros Q [_ R]. assert (∀ e, e ∈ sq s → ∃ i, sqe_inst e = Some i ∧ ((mi_seqNum i ≤ mem)%Z →
    take (a_len acc (mi_seqNum i)) (sqe_data e) = sdata (mi_seqNum i))) as Hall.
  { intros e He. apply list_elem_of_lookup in He as [p He]. destruct (qi_st _ _ _ _ Q p e He) as [i Ki].
    exists i. pose proof (sk_inst _ _ _ _ _ _ Ki) as E. split; [done|]. intros Hle.
    by apply (finish_ready _ _ _ Ki), (R p e i He E). }
  unfold released_stores, seqs, abs_sq. fold (sq s). revert Hall. generalize (sq s). induction l as [|e l IH]; intros Hall.
  { split; [done|constructor]. }
  destruct IH as [IH1 IH2]; [intros x Hx; apply Hall; by right|]. destruct (Hall e) as (i & Hi & Ht); [left|].
  simpl. rewrite Hi.
  destruct (_ && _) eqn:E.
  - apply andb_true_iff in E as [E1%Z.ltb_lt E2%Z.leb_le]. rewrite filter_cons_True by done.
    split; [exact (f_equal (cons (mi_seqNum i)) IH1)|]. constructor; [|done]. unfold faithful. simpl. f_equal. by apply Ht.
  - apply andb_false_iff in E. rewrite Z.ltb_ge, Z.leb_gt in E. rewrite filter_cons_False; [done|]. simpl. lia.
Qed.

Lemma released_loads_spec s mem l : l ∈ released_loads acc s mem → ∃ p e i, lq s !! p = Some e ∧ lqe_inst e = Some i ∧
  (ls_bound s < mi_seqNum i ≤ mem)%Z ∧ l = RLd (mi_seqNum i) (a_lo acc (mi_seqNum i)) (default [] (mi_result i)).
Proof.
  unfold released_loads. fold (lq s). rewrite list_elem_of_omap. intros (e & He & E).
  apply list_elem_of_lookup in He as [p He]. destruct (lqe_inst e) as [i|] eqn:Hi; [|done].
  destruct (_ && _) eqn:Hc; [|done]. injection E as <-. apply andb_true_iff in Hc as [?%Z.ltb_lt ?%Z.leb_le].
  by exists p, e, i.
Qed.

(** ** The released stores *)

Section Release.

Context s (mem : Z) (SQ' : CircularQueue SQEntry).
Hypothesis I : linv s.
Hypothesis Hmem : (ls_bound s ≤ mem ≤ ls_last s)%Z.
Hypothesis Hsq : ∀ q, ls_squash s = Some q → (mem < q)%Z.
Hypothesis R : all_ready s mem.
Hypothesis W' : cq_wf SQ'.
Hypothesis Eh : cq_head SQ' = cq_head (lu_SQ (ls_u s)).
Hypothesis Es : cq_size SQ' = cq_size (lu_SQ (ls_u s)).
Hypothesis Ec : cq_capacity SQ' = cq_capacity (lu_SQ (ls_u s)).
Hypothesis El : cq_list SQ' = map (released mem) (sq s).
Hypothesis Hout : cq_outside (sq_clean maxData) SQ'.

Local Notation u := (ls_u s).
Local Notation u' := (set_wb (set_SQ u SQ') (lu_storeWBIt u)
  (lu_storesToWB u + (wb_count (map (released mem) (sq s)) - wb_count (sq s)))).
Local Notation s' := (LS u' (ls_sb s) (ls_bus s) (ls_squash s) (ls_last s) mem
  (ls_stores s ++ released_stores acc s mem) (ls_loads s ++ released_loads acc s mem)).

Let Q : qinv s := iv_q _ _ _ _ _ _ _ _ _ _ I.
Let D : d_inv P SP T tid va acc sdata m0 s := iv_d _ _ _ _ _ _ _ _ _ _ I.

Lemma rel_lookup p e : sq s' !! p = Some e → ∃ x, sq s !! p = Some x ∧ e = released mem x.
Proof.
  unfold sq at 1. simpl. rewrite El. intros Hp. apply list_lookup_fmap_Some in Hp as (x & -> & Hx). by exists x.
Qed.

Lemma rel_abs : abs_sq s' = abs_sq s.
Proof. unfold abs_sq, sq at 1. simpl. rewrite El, map_map. apply map_ext. intros e. apply released_ast. Qed.

Lemma rel_seqs : seqs s' = seqs s.
Proof. unfold seqs. by rewrite rel_abs. Qed.

Lemma rel_lctx i : lctx s' i = lctx s i.
Proof. unfold LsqInv.lctx. rewrite rel_abs. simpl. by rewrite Eh. Qed.

Lemma rel_q_inv : qinv s'.
Proof.
  pose proof rel_lookup as HL. destruct Q, R as [RL RS]. split; simpl; rewrite ?Eh, ?Es, ?Ec; try done; try lia.
  - intros p e He. destruct (HL p e He) as (x & Hx & ->). destruct (qi_st p x Hx) as [i Ki]. exists i.
    pose proof (sk_inst _ _ _ _ _ _ Ki) as Hi. unfold released. rewrite Hi. destruct (_ <=? _)%Z eqn:E; [|done].
    apply Z.leb_le in E. pose proof (RS p x i Hx Hi E) as F. by destruct Ki.
  - intros p p' e e' i i' He He' Hi Hi'. destruct (HL p e He) as (x & Hx & ->), (HL p' e' He') as (x' & Hx' & ->).
    rewrite released_inst in *. by eapply qi_sortS.
  - intros p p' e e' i i' He He' Hi Hi'. destruct (HL p' e' He') as (x & Hx & ->). rewrite released_inst in *. by eapply qi_ls.
  - intros p e i He Hi. destruct (qi_sqIt p e i He Hi) as [X1 X2]. split; [done|]. intros ?. apply X2. lia.
  - intros p e i He Hi. destruct (HL p e He) as (x & Hx & ->). rewrite released_inst in *.
    destruct (qi_lqIt p x i Hx Hi) as [X1 X2]. split; [done|]. intros ?. apply X2. lia.
  - intros p e i He Hi. destruct (HL p e He) as (x & Hx & ->). rewrite released_inst in *. by eapply qi_lastS.
  - intros p e i He Hi. destruct (HL p e He) as (x & Hx & ->). rewrite released_inst in *.
    rewrite (released_wb mem x i Hi), (qi_canWB p x i Hx Hi).
    destruct (Z.leb_spec (mi_seqNum i) mem).
    + rewrite orb_true_r. symmetry. by apply bool_decide_eq_true.
    + rewrite orb_false_r, !bool_decide_eq_false_2 by lia. done.
Qed.

Lemma rel_u_inv : u_inv P tid s'.
Proof.
  destruct (iv_u _ _ _ _ _ _ _ _ _ _ I). split; simpl; rewrite ?Eh; try done.
  rewrite ui_toWB. unfold sq. simpl. rewrite El. unfold wb_count, sq. lia.
Qed.

(** The memory after the released stores up to [c]. *)
Lemma rel_mem c a : (ls_bound s ≤ c ≤ mem)%Z → in_u 64 a →
  fold_left stw (filter (λ q, q ≤ c)%Z (map rs_seq (released_stores acc s mem)))
    (fold_left rs_write (ls_stores s) m0) a =
  fold_left stw (filter (λ q, q ≤ c)%Z (seqs s)) (base SP tid s) a.
Proof.
  intros Hc Ha. destruct (released_stores_spec s mem Q R) as [-> _].
  rewrite (filter_between (seqs s) (ls_bound s) c), fold_left_app by (try lia; by apply seqs_sorted).
  assert (filter (λ q, q ≤ c)%Z (filter (λ q, ls_bound s < q ∧ q ≤ mem)%Z (seqs s)) =
          filter (λ q, ls_bound s < q ∧ q ≤ c)%Z (seqs s)) as ->.
  { rewrite list_filter_filter. apply list_filter_iff. intros x. lia. }
  apply st_fold_ext. by apply (di_mem _ _ _ _ _ _ _ _ _ D).
Qed.

Lemma rel_rs_lt c r : r ∈ ls_stores s → (ls_bound s < c)%Z → (rs_seq r < c)%Z.
Proof. intros Hr Hc. pose proof (di_storeB _ _ _ _ _ _ _ _ _ D r Hr). lia. Qed.

Lemma rel_rs_gt r : r ∈ released_stores acc s mem → (ls_bound s < rs_seq r ≤ mem)%Z.
Proof.
  intros Hr. destruct (released_stores_spec s mem Q R) as [E _].
  assert (rs_seq r ∈ map rs_seq (released_stores acc s mem)) as Hin by (by apply list_elem_of_fmap_2).
  rewrite E in Hin. apply list_elem_of_filter in Hin as [? _]. lia.
Qed.

(** A released load read the stores released before it. *)
Lemma rel_load l : l ∈ released_loads acc s mem →
  (rl_seq l ≤ mem)%Z ∧ rl_addr l = a_lo acc (rl_seq l) ∧ rl_value l =
    mem_read (fold_left rs_write (filter (λ r, rs_seq r < rl_seq l)%Z (ls_stores s ++ released_stores acc s mem)) m0)
      (a_lo acc (rl_seq l)) (a_len acc (rl_seq l)).
Proof.
  intros Hl. destruct (released_loads_spec s mem l Hl) as (p & e & i & He & Hi & Hb & ->). simpl. split; [lia|]. split; [done|].
  assert (active s (mi_seqNum i)) as Ha by (split; [lia|intros v Hv; specialize (Hsq v Hv); lia]).
  destruct R as [RL RS]. pose proof (RL p e i He Hi ltac:(lia)) as Hex.
  destruct (di_ld _ _ _ _ _ _ _ _ _ D p e i He Hi Ha) as [[v [Hv V]] _]; [done|]. rewrite Hv. simpl.
  pose proof (λ q, pl_shape _ _ _ _ _ _ (Hplain q)) as Hshape.
  assert (∀ x, x ∈ lc_older (lctx s i) → as_known x = true) as Hkn.
  { intros x Hx. apply list_elem_of_lookup in Hx as [p' Hx]. unfold LsqInv.lctx in Hx. simpl in Hx.
    apply lookup_take_Some in Hx as [Hx Hlt]. apply list_lookup_fmap_Some in Hx as (e' & -> & He').
    destruct (qi_st _ _ _ _ Q p' e' He') as [i' Ki']. pose proof (sk_inst _ _ _ _ _ _ Ki') as Hi'.
    simpl. apply (finish_ready _ _ _ Ki'), (RS p' e' i' He' Hi').
    destruct (qi_ls _ _ _ _ Q p p' e e' i i' He He' Hi Hi') as [X _]. lia. }
  pose proof (load_val_writes acc sdata Hshape _ _ _ _ V Hkn) as Ev. rewrite Ev at 1.
  apply mem_read_ext. intros j Hj. unfold st_writes. rewrite (older_seqs s p e i Q He Hi) by lia.
  destruct (released_stores_spec s mem Q R) as [_ F].
  rewrite filter_app, fold_left_app, (filter_all _ (ls_stores s)).
  2:{ apply Forall_forall. intros r Hr. apply (rel_rs_lt _ _ Hr). lia. }
  rewrite (fold_faithful (filter _ _)), map_filter_seq.
  2:{ apply Forall_forall. intros r [_ Hr]%list_elem_of_filter. rewrite Forall_forall in F. by apply F. }
  assert (∀ l : list Z, filter (λ q, q < mi_seqNum i)%Z l = filter (λ q, q ≤ mi_seqNum i - 1)%Z l) as Ef.
  { intros l. apply list_filter_iff. intros x. lia. }
  rewrite !Ef. symmetry. apply rel_mem; [lia|]. destruct (Hshape (mi_seqNum i)). unfold a_len, in_u in *. lia.
Qed.

Lemma rel_d_inv : d_inv P SP T tid va acc sdata m0 s'.
Proof.
  pose proof rel_lctx as Hc. destruct (released_stores_spec s mem Q R) as [Er F].
  pose proof rel_load as Hrl. pose proof rel_rs_gt as Hgt. destruct D. split; try done.
  - intros p e i He Hi [Ha Hs]. rewrite Hc. apply (di_ld p e i He Hi). split; [simpl in Ha; lia|done].
  - intros a Ha. simpl. rewrite fold_left_app, (fold_faithful (released_stores acc s mem)) by done.
    fold (seqs s'). rewrite rel_seqs. etrans; [|apply (rel_mem mem a); [lia|done]].
    rewrite filter_all; [done|]. rewrite Er. apply Forall_forall. intros x [? _]%list_elem_of_filter. lia.
  - simpl. rewrite map_app. apply seqs_sorted_app; [done|rewrite Er; by apply sorted_filter, seqs_sorted|].
    intros x y Hx Hy. apply list_elem_of_fmap in Hx as (r & -> & Hr), Hy as (r' & -> & Hr').
    pose proof (di_storeB r Hr). pose proof (Hgt r' Hr'). lia.
  - intros r [Hr|Hr]%elem_of_app; simpl; [pose proof (di_storeB r Hr); lia|apply (Hgt r Hr)].
  - intros r [Hr|Hr]%elem_of_app; [by apply di_stores|]. rewrite Forall_forall in F. by apply (F r).
  - intros l [Hl|Hl]%elem_of_app; [|by apply Hrl]. destruct (di_loads l Hl) as (X1 & X2 & X3). simpl. split; [lia|]. split; [done|].
    rewrite filter_app, (filter_none _ (released_stores acc s mem)), app_nil_r; [done|].
    apply Forall_forall. intros r Hr. pose proof (Hgt r Hr). lia.
Qed.

Lemma release_inv : linv s'.
Proof. split; [apply rel_q_inv|apply rel_u_inv|apply rel_d_inv]. Qed.

End Release.

(** ** The loads leave *)

Lemma commitLoad_inv s e i rest : linv s → lq s = e :: rest → lqe_inst e = Some i → (mi_seqNum i ≤ ls_bound s)%Z →
  ∃ u', commitLoad (ls_u s) = Ok u' ∧ linv (with_u s u') ∧ lq (with_u s u') = rest.
Proof.
  intros I Elq Hi Hb. pose proof (iv_q _ _ _ _ _ _ _ _ _ _ I) as Q. pose proof (qi_wfL _ _ _ _ Q) as W.
  pose proof (qi_roomL _ _ _ _ Q) as Hroom. pose proof (cq_list_length _ W) as L. fold (lq s) in L. rewrite Elq in L. simpl in L.
  assert (lq s !! 0 = Some e) as H0' by (by rewrite Elq).
  destruct (qi_ld _ _ _ _ Q 0 e H0') as [i0 Ki]. pose proof (lk_core _ _ _ _ Ki) as Kc.
  assert (i0 = i) as -> by (pose proof (lk_inst _ _ _ _ Kc); congruence).
  pose proof (cq_front_lookup (lu_LQ (ls_u s)) e W H0') as Ef.
  destruct (cq_drop_front (lu_LQ (ls_u s)) e (lqe_clear e) rest W Elq ltac:(lia)) as (q' & Ed & W' & Eh & Es & Ec & El & Ho).
  unfold commitLoad. rewrite Ef. cbn [res_bind]. rewrite (lk_valid _ _ _ _ Kc). cbn [assert_ res_bind].
  exists (set_LQ (ls_u s) q'). split.
  { revert Ed. destruct (cq_put _ _ _) as [q1|]; [|done]. cbn [res_bind]. by intros ->. }
  split; [|done]. set (s' := with_u _ _).
  assert (∀ p x, lq s' !! p = Some x → lq s !! S p = Some x) as HL by (intros p x; unfold lq at 1, s'; simpl; by rewrite El, Elq).
  specialize (Ho lq_clean). clear Ed Ef.
  assert (∀ p, cq_head q' + Z.of_nat p = cq_head (lu_LQ (ls_u s)) + Z.of_nat (S p))%Z as Hp by (intros; lia).
  pose proof (iv_u _ _ _ _ _ _ _ _ _ _ I) as U. pose proof (iv_d _ _ _ _ _ _ _ _ _ _ I) as D.
  pose proof (qi_execB _ _ _ _ Q 0 e i H0' Hi Hb) as Hex. split.
  - destruct Q. split; simpl; rewrite ?Ec, ?Es; try done; try lia.
    + apply Ho; [by split|done].
    + intros p x Hx. rewrite Hp. apply qi_ld, HL, Hx.
    + intros p p' x x' j j' Hx Hx' Hj Hj' Hlt. apply (qi_sortL (S p) (S p') x x'); auto; lia.
    + intros p p' x x' j j' Hx Hx' Hj Hj'. rewrite Hp. by apply (qi_ls (S p) p' x x'); auto.
    + intros p x j Hx Hj. apply (qi_sqIt (S p) x j); auto.
    + intros p x j Hx Hj. destruct (qi_lqIt p x j Hx Hj) as [X1 X2]. rewrite Eh. split; [lia|]. intros Hlt.
      specialize (X2 Hlt). destruct (qi_ls 0 p e x i j H0' Hx Hi Hj) as [_ [X _]].
      destruct (decide (mi_lqIt j = cq_head (lu_LQ (ls_u s)))) as [E|E]; [|lia]. specialize (X ltac:(lia)). lia.
    + intros p x j Hx Hj. apply (qi_lastL (S p) x j); auto.
    + intros p x j Hx Hj. apply (qi_execB (S p) x j); auto.
  - destruct U. split; simpl; try done.
    + intros St. destruct (ui_stall St) as ([|p] & x & j & X1 & X2 & X3 & X4 & X5 & X6).
      { rewrite X2 in H0'. injection H0' as <-. congruence. }
      exists p, x, j. rewrite Hp. split_and!; try done. unfold lq in *. simpl. rewrite El. rewrite Elq in X2. done.
    + intros x Hx. destruct (ui_refs x Hx) as [X1 X2]. split; [done|]. intros p y j Hy. apply (X2 (S p)), HL, Hy.
  - destruct D. split; try done.
    + intros p x j Hx. apply (di_ld (S p) x j), HL, Hx.
    + intros p x j Hx. apply (di_bus (S p) x j), HL, Hx.
Qed.

Lemma commitLoads_loop_inv dn n : ∀ s, linv s → (dn ≤ ls_bound s)%Z →
  ∃ u', commitLoads_loop n (ls_u s) dn = Ok u' ∧ linv (with_u s u').
Proof.
  induction n as [|n IH]; intros s I Hd; simpl; [exists (ls_u s); split; [done|by destruct s]|].
  destruct (_ =? 0)%Z eqn:E; [exists (ls_u s); split; [done|by destruct s]|]. apply Z.eqb_neq in E.
  pose proof (iv_q _ _ _ _ _ _ _ _ _ _ I) as Q. pose proof (qi_wfL _ _ _ _ Q) as W. pose proof (cq_list_length _ W) as L.
  fold (lq s) in L. destruct (lq s) as [|e rest] eqn:Elq; [simpl in L; lia|].
  assert (lq s !! 0 = Some e) as H0' by (by rewrite Elq). destruct (qi_ld _ _ _ _ Q 0 e H0') as [i Ki].
  pose proof (lk_inst _ _ _ _ (lk_core _ _ _ _ Ki)) as Hi.
  rewrite (cq_front_lookup (lu_LQ (ls_u s)) e W H0'). cbn [res_bind]. assert (lq_inst e = Ok i) as -> by (unfold lq_inst; by rewrite Hi). cbn [res_bind].
  destruct (mi_seqNum i <=? dn)%Z eqn:Ed; [|exists (ls_u s); split; [done|by destruct s]]. apply Z.leb_le in Ed.
  destruct (commitLoad_inv s e i rest I Elq Hi) as (u' & -> & I' & _); [lia|]. cbn [res_bind].
  destruct (IH (with_u s u') I') as (u2 & E2 & I2); [done|]. by exists u2.
Qed.

Lemma front_valid s : qinv s →
  (let! ok := if (cq_size (lu_LQ (ls_u s)) =? 0)%Z then Ok true
              else let! e := cq_front (lu_LQ (ls_u s)) in Ok (lqe_valid e) in
   assert_ ok "loadQueue.size() == 0 || loadQueue.front().valid()") = Ok tt ∧
  (let! ok := if (cq_size (lu_SQ (ls_u s)) =? 0)%Z then Ok true
              else let! e := cq_front (lu_SQ (ls_u s)) in Ok (sqe_valid e) in
   assert_ ok "storeQueue.size() == 0 || storeQueue.front().valid()") = Ok tt.
Proof.
  intros Q. pose proof (cq_list_length _ (qi_wfL _ _ _ _ Q)) as L. pose proof (cq_list_length _ (qi_wfS _ _ _ _ Q)) as LS.
  split; destruct (_ =? 0)%Z eqn:E; try done; apply Z.eqb_neq in E.
  - destruct (lookup_lt_is_Some_2 (lq s) 0) as [e He]; [unfold lq; lia|]. rewrite (cq_front_lookup _ e (qi_wfL _ _ _ _ Q) He).
    destruct (qi_ld _ _ _ _ Q 0 e He) as [i K]. cbn [res_bind]. by rewrite (lk_valid _ _ _ _ (lk_core _ _ _ _ K)).
  - destruct (lookup_lt_is_Some_2 (sq s) 0) as [e He]; [unfold sq; lia|]. rewrite (cq_front_lookup _ e (qi_wfS _ _ _ _ Q) He).
    destruct (qi_st _ _ _ _ Q 0 e He) as [i K]. cbn [res_bind]. by rewrite (sk_valid _ _ _ _ _ _ K).
Qed.

Lemma step_commit s mem dn : linv s → ∃ s', step s (LCommit mem dn) = Ok s' ∧ linv s'.
Proof.
  intros I. simpl. destruct (can_commit s mem dn) eqn:Hc; [|eauto].
  destruct (can_commit_spec s mem dn Hc) as (H1 & H2 & H3 & H4 & R).
  pose proof (iv_q _ _ _ _ _ _ _ _ _ _ I) as Q. pose proof (qi_wfS _ _ _ _ Q) as W.
  assert (visitable mem (sq s)) as V.
  { intros p e He. destruct (qi_st _ _ _ _ Q p e He) as [i K]. pose proof (sk_inst _ _ _ _ _ _ K) as Hi.
    split; [apply K|]. exists i. split_and!; [done|by apply (proj2 R p)|]. intros p' e' i' He' Hi' Hlt.
    by eapply (qi_sortS _ _ _ _ Q p p'). }
  destruct (commitStores_loop_spec mem (sq s) [] (ls_u s) W eq_refl V) as (q' & E & W' & Eh & Es & Ec & El & Ho).
  unfold commitStores. destruct (front_valid s Q) as [_ F]. revert F. destruct (if (_ =? 0)%Z then _ else _) as [ok|]; [|done].
  cbn [res_bind]. intros ->. cbn [res_bind].
  rewrite <- (cq_list_length _ W), Nat2Z.id. simpl in E. rewrite Z.add_0_r in E. fold (sq s). rewrite E. cbn [res_bind].
  pose proof (release_inv s mem q' I (conj H2 H3) H4 R W' Eh Es Ec El (Ho _ (qi_outS _ _ _ _ Q))) as I1.
  pose proof (iv_q _ _ _ _ _ _ _ _ _ _ I1) as Q1. set (s1 := LS _ _ _ _ _ _ _ _) in I1, Q1.
  change (set_wb _ _ _) with (ls_u s1). unfold commitLoads.
  destruct (front_valid s1 Q1) as [F _]. revert F. destruct (if (_ =? 0)%Z then _ else _) as [okL|]; [|done].
  cbn [res_bind]. intros ->. cbn [res_bind].
  destruct (commitLoads_loop_inv dn (S (Z.to_nat (cq_size (lu_LQ (ls_u s1))))) s1 I1 H1) as (u2 & -> & I2).
  cbn [res_bind]. eexists. split; [done|]. exact I2.
Qed.

End Commit.

(** Squash: the instructions younger than a number leave both queues. *)

(** ** A queue loses its end *)

Record trimmed {A} (Q : A → Prop) (q q' : CircularQueue A) (n : nat) : Prop := {
  tr_wf : cq_wf q';
  tr_head : cq_head q' = cq_head q;
  tr_cap : cq_capacity q' = cq_capacity q;
  tr_size : cq_size q' = Z.of_nat n;
  tr_len : n ≤ length (cq_list q);
  tr_list : cq_list q' = take n (cq_list q);
  tr_out : cq_outside Q q → cq_outside Q q'
}.

Lemma trimmed_refl {A} (Q : A → Prop) q : cq_wf q → trimmed Q q q (length (cq_list q)).
Proof. intros W. split; try done; [by rewrite (cq_list_length q W)|by rewrite take_ge by lia]. Qed.

Lemma trimmed_trans {A} (Q : A → Prop) q q1 q2 n1 n : trimmed Q q q1 n1 → trimmed Q q1 q2 n → trimmed Q q q2 n.
Proof.
  intros [] []. split; try done; try congruence; try lia.
  - rewrite tr_list0, length_take in tr_len1. lia.
  - rewrite tr_list1, tr_list0, take_take. f_equal. rewrite tr_list0, length_take in tr_len1. lia.
  - auto.
Qed.

(** One element leaves at the back. *)
Lemma trimmed_back {A} (Q : A → Prop) q a x rest : cq_wf q → cq_list q = rest ++ [a] → Q x →
  ∃ q', (let! q := cq_put q (cq_tail q) x in cq_pop_back q) = Ok q' ∧ trimmed Q q q' (length rest) ∧ cq_list q' = rest.
Proof.
  intros W E Hx. destruct (cq_drop_back q a x rest W E) as (q' & Eq & W' & Eh & Es & Ec & El & Ho). exists q'.
  split; [done|]. split; [|done]. pose proof (cq_list_length q W) as L. rewrite E, length_app in L. simpl in L. split; try done.
  - lia.
  - rewrite E, length_app. lia.
  - rewrite El, E, take_app_length. done.
  - auto.
Qed.

Lemma cq_back_lookup {A} (q : CircularQueue A) a rest : cq_wf q → cq_list q = rest ++ [a] →
  cq_back q = Ok a ∧ cq_tail q = (cq_head q + Z.of_nat (length rest))%Z.
Proof.
  intros W E. pose proof (cq_list_length q W) as L. rewrite E, length_app in L. simpl in L.
  assert (cq_tail q = cq_head q + Z.of_nat (length rest))%Z as Et by (rewrite cq_tail_eq by done; lia).
  split; [|done]. unfold cq_back. rewrite Et. apply cq_at_lookup; [done|]. rewrite E. by apply list_lookup_middle.
Qed.

(** The completed index is found again. *)
Lemma rewind_total {A} (q : CircularQueue A) view c num : cq_wf q → ∃ i, rewindCompletedIdx q view c num = Ok i.
Proof.
  intros W. unfold rewindCompletedIdx. destruct (cq_empty q) eqn:Ee; [eauto|].
  destruct (negb (isValidIdx q c)) eqn:Ev; [eauto|]. apply negb_false_iff, isValidIdx_iff in Ev; [|done].
  destruct (cq_at_list q c W) as (a & -> & _); [done|]. cbn [res_bind]. 
  match goal with |- context [if ?b then Ok c else _] => destruct b end; [eauto|].
  assert (∀ n idx, (idx ≤ cq_head q + cq_size q)%Z → (cq_head q + Z.of_nat n ≤ idx)%Z →
    ∃ r, rewind_scan n idx (λ idx, let! e := cq_at q idx in Ok (view e)) num = Ok r) as Hs.
  { induction n as [|n IH]; intros idx Hi Hn; cbn [rewind_scan]; [eauto|].
    destruct (cq_at_list q (idx - 1) W) as (b & -> & _); [lia|]. cbn [res_bind].
    destruct (view b) as [[] [x|]]; [destruct (x <=? num)%Z; [eauto|]|..]; apply IH; lia. }
  pose proof (cw_size _ W). destruct (Hs (Z.to_nat (cq_size q)) (cq_end q)) as [r ->];
    [rewrite cq_end_eq by done; lia|rewrite cq_end_eq by done; lia|]. simpl. eauto.
Qed.

(** ** The loops *)

Definition by_seq {A} (inst : A → option MInst) (l : list A) : Prop :=
  ∀ p e, l !! p = Some e → ∃ i, inst e = Some i ∧
    ∀ p' e' i', l !! p' = Some e' → inst e' = Some i' → p < p' → (mi_seqNum i < mi_seqNum i')%Z.

(** The first [n] elements are those up to [num]. *)
Definition cut_at {A} (inst : A → option MInst) (l : list A) (num : Z) (n : nat) : Prop :=
  ∀ p e i, l !! p = Some e → inst e = Some i → p < n ↔ (mi_seqNum i ≤ num)%Z.

Lemma by_seq_init {A} (inst : A → option MInst) rest a : by_seq inst (rest ++ [a]) → by_seq inst rest.
Proof.
  intros B p e He. destruct (B p e (lookup_app_l_Some _ _ _ _ He)) as (i & Hi & Hs). exists i. split; [done|].
  intros p' e' i' He'. apply Hs. by apply lookup_app_l_Some.
Qed.

Lemma cut_at_snoc {A} (inst : A → option MInst) rest a i num n :
  inst a = Some i → (num < mi_seqNum i)%Z → n ≤ length rest → cut_at inst rest num n → cut_at inst (rest ++ [a]) num n.
Proof.
  intros Ha Hlt Hn Hc p e j He Hj. apply lookup_snoc_Some in He as [[_ He]|[-> <-]]; [by apply (Hc p e)|].
  rewrite Ha in Hj. injection Hj as <-. lia.
Qed.

Lemma cut_at_all {A} (inst : A → option MInst) rest a i num :
  by_seq inst (rest ++ [a]) → inst a = Some i → (mi_seqNum i ≤ num)%Z →
  cut_at inst (rest ++ [a]) num (length (rest ++ [a])).
Proof.
  intros B Ha Hle p e j He Hj. split; [|intros _; by apply lookup_lt_Some in He]. intros _.
  apply lookup_snoc_Some in He as [[Hp He]|[-> <-]]; [|rewrite Ha in Hj; by injection Hj as <-].
  destruct (B p e (lookup_app_l_Some _ _ _ _ He)) as (j' & Hj' & Hs). rewrite Hj in Hj'. injection Hj' as <-.
  specialize (Hs (length rest) a i (list_lookup_middle rest [] a _ eq_refl) Ha Hp). lia.
Qed.

Lemma squashLoads_spec num l : ∀ fuel u,
  cq_wf (lu_LQ u) → cq_list (lu_LQ u) = l → by_seq lqe_inst l → length l < fuel →
  ∃ q' n st isn idx, squashLoads fuel u num = Ok (set_LQ (set_stall u st isn idx) q') ∧
    trimmed lq_clean (lu_LQ u) q' n ∧ cut_at lqe_inst l num n ∧
    (st = true → lu_stalled u = true ∧ isn = lu_stallingStoreIsn u ∧ idx = lu_stallingLoadIdx u ∧
       ∀ p, p < length l → idx = (cq_head (lu_LQ u) + Z.of_nat p)%Z → p < n).
Proof.
  assert (∀ u, u = set_LQ (set_stall u (lu_stalled u) (lu_stallingStoreIsn u) (lu_stallingLoadIdx u)) (lu_LQ u)) as Heta by (by intros []).
  induction l as [|e l IH] using rev_ind; intros [|fuel] u W El B Hf; [simpl in Hf; lia| |rewrite length_app in Hf; lia|].
  - cbn [squashLoads]. pose proof (cq_list_length _ W) as L. rewrite El in L. rewrite <- L.
    exists (lu_LQ u), 0, (lu_stalled u), (lu_stallingStoreIsn u), (lu_stallingLoadIdx u). rewrite <- Heta.
    split_and!; [done| |done|done]. pose proof (trimmed_refl lq_clean _ W) as X. by rewrite El in X.
  - cbn [squashLoads]. pose proof (cq_list_length _ W) as L. rewrite El, length_app in L. simpl in L.
    destruct (cq_size _ =? 0)%Z eqn:Ez; [apply Z.eqb_eq in Ez; lia|].
    destruct (cq_back_lookup _ e l W El) as [-> Et]. cbn [res_bind].
    destruct (B (length l) e (list_lookup_middle l [] e _ eq_refl)) as (i & Hi & _).
    assert (lq_inst e = Ok i) as -> by (unfold lq_inst; by rewrite Hi). cbn [res_bind].
    destruct (num <? mi_seqNum i)%Z eqn:En.
    + apply Z.ltb_lt in En. set (c := lu_stalled u && _).  set (u1 := if c then _ else _). assert (lu_LQ u1 = lu_LQ u) as E1 by (unfold u1; by destruct c).
      destruct (trimmed_back lq_clean (lu_LQ u) e (lqe_clear e) l W El) as (q1 & Eq & T1 & L1); [by split|].
      rewrite E1. destruct (cq_put (lu_LQ u) _ _) as [q0|]; [|done]. cbn [res_bind] in *. rewrite Eq. cbn [res_bind].
      destruct (IH fuel (set_LQ u1 q1)) as (q' & n & st & isn & idx & -> & T2 & Hc & Hst);
        [apply T1|done|by eapply by_seq_init|rewrite length_app in Hf; simpl in Hf; lia|].
      exists q', n, st, isn, idx. pose proof (tr_len _ _ _ _ T2) as Hn. change (lu_LQ (set_LQ u1 q1)) with q1 in *. rewrite L1 in Hn.
      split_and!; [unfold u1; by destruct c|by eapply trimmed_trans|by apply (cut_at_snoc _ _ _ i)|].
      intros Es. destruct (Hst Es) as (X1 & X2 & X3 & X4). simpl in X1, X2, X3, X4.
      assert (c = false) as Ec by (unfold u1 in X1; by destruct c). unfold u1 in X1, X2, X3. rewrite Ec in X1, X2, X3.
      split_and!; [done|done|done|].
      intros p Hp Ep. apply X4; [|by rewrite (tr_head _ _ _ _ T1)]. rewrite length_app in Hp. simpl in Hp.
      destruct (decide (p = length l)) as [->|]; [|lia]. exfalso. unfold c in Ec. rewrite X1 in Ec. simpl in Ec. apply Z.eqb_neq in Ec. lia.
    + apply Z.ltb_ge in En. exists (lu_LQ u), (length (l ++ [e])), (lu_stalled u), (lu_stallingStoreIsn u), (lu_stallingLoadIdx u).
      rewrite <- Heta. split_and!; [done| |by apply (cut_at_all _ _ _ i)|done].
      pose proof (trimmed_refl lq_clean _ W) as X. by rewrite El in X.
Qed.

Lemma squashStores_spec maxData num l : ∀ fuel u,
  cq_wf (lu_SQ u) → cq_list (lu_SQ u) = l → by_seq sqe_inst l → length l < fuel →
  (∀ p e i, l !! p = Some e → sqe_inst e = Some i → (num < mi_seqNum i)%Z →
     sqe_canWB e = false ∧ length (sqe_data e) = maxData ∧
     (lu_stalled u = true → (lu_stallingStoreIsn u < mi_seqNum i)%Z)) →
  ∃ q' n, squashStores fuel u num = Ok (set_SQ u q') ∧ trimmed (sq_clean maxData) (lu_SQ u) q' n ∧ cut_at sqe_inst l num n.
Proof.
  induction l as [|e l IH] using rev_ind; intros [|fuel] u W El B Hf Hu; [simpl in Hf; lia| |rewrite length_app in Hf; lia|].
  - cbn [squashStores]. pose proof (cq_list_length _ W) as L. rewrite El in L. rewrite <- L.
    exists (lu_SQ u), 0. split_and!; [by destruct u| |done].
    pose proof (trimmed_refl (sq_clean maxData) _ W) as X. by rewrite El in X.
  - cbn [squashStores]. pose proof (cq_list_length _ W) as L. rewrite El, length_app in L. simpl in L.
    destruct (cq_size _ =? 0)%Z eqn:Ez; [apply Z.eqb_eq in Ez; lia|].
    destruct (cq_back_lookup _ e l W El) as [-> Et]. cbn [res_bind].
    destruct (B (length l) e (list_lookup_middle l [] e _ eq_refl)) as (i & Hi & _).
    assert (sq_inst e = Ok i) as -> by (unfold sq_inst; by rewrite Hi). cbn [res_bind].
    destruct (num <? mi_seqNum i)%Z eqn:En.
    + apply Z.ltb_lt in En. destruct (Hu (length l) e i (list_lookup_middle l [] e _ eq_refl) Hi En) as (-> & Hlen & Hst).
      assert (lu_stalled u && (mi_seqNum i =? lu_stallingStoreIsn u)%Z = false) as ->.
      { destruct (lu_stalled u); [|done]. apply Z.eqb_neq. specialize (Hst eq_refl). lia. }
      cbn [panic_if res_bind].
      destruct (trimmed_back (sq_clean maxData) (lu_SQ u) e (sqe_clear e) l W El) as (q1 & Eq & T1 & L1).
      { unfold sq_clean, sqe_clear. simpl. by split_and!. }
      destruct (cq_put (lu_SQ u) _ _) as [q0|]; [|done]. cbn [res_bind] in *. rewrite Eq. cbn [res_bind].
      destruct (IH fuel (set_SQ u q1)) as (q' & n & -> & T2 & Hc);
        [apply T1|done|by eapply by_seq_init|rewrite length_app in Hf; simpl in Hf; lia| |].
      { intros p x j Hx. by apply (Hu p x j), lookup_app_l_Some. }
      exists q', n. pose proof (tr_len _ _ _ _ T2) as Hn. change (lu_SQ (set_SQ u q1)) with q1 in *. rewrite L1 in Hn.
      split_and!; [done|by eapply trimmed_trans|by apply (cut_at_snoc _ _ _ i)].
    + apply Z.ltb_ge in En. exists (lu_SQ u), (length (l ++ [e])). split_and!; [by destruct u| |by apply (cut_at_all _ _ _ i)].
      pose proof (trimmed_refl (sq_clean maxData) _ W) as X. by rewrite El in X.
Qed.

Lemma pop_squashed_suffix l num : pop_squashed l num `suffix_of` l.
Proof.
  induction l as [|x l IH]; simpl; [done|]. destruct (_ <? _)%Z; [|done]. by apply suffix_cons_r.
Qed.

Lemma nodup_suffixes (f : LdRef → Z) l1 l2 k1 k2 : k1 `suffix_of` l1 → k2 `suffix_of` l2 →
  NoDup (map f (l1 ++ l2)) → NoDup (map f (k1 ++ k2)).
Proof.
  intros [m1 ->] [m2 ->]. rewrite !map_app, !NoDup_app. setoid_rewrite elem_of_app. naive_solver.
Qed.

Section Squash.

Context {C : Type} `{CircularBufferLaws C nat}.
Context (P : LsqParams) (SP : SbParams) (T : nat) (tid : Z) (va : Z → Z).
Context (acc : Z → LSQRequest) (sdata : Z → list Z) (maxData : nat) (m0 : memory).

Local Notation linv := (ls_inv P SP T tid va acc sdata maxData m0).
Local Notation qinv := (q_inv acc sdata maxData).
Local Notation lctx := (lctx P SP tid).
Local Notation step := (ls_step P SP acc sdata).
Implicit Types s : LSys C.

Lemma by_seq_lq s : qinv s → by_seq lqe_inst (lq s).
Proof.
  intros Q p e He. destruct (qi_ld _ _ _ _ Q p e He) as [i K]. pose proof (lk_inst _ _ _ _ (lk_core _ _ _ _ K)) as Hi.
  exists i. split; [done|]. intros p' e' i' He' Hi' Hlt. by eapply (qi_sortL _ _ _ _ Q p p').
Qed.

Lemma by_seq_sq s : qinv s → by_seq sqe_inst (sq s).
Proof.
  intros Q p e He. destruct (qi_st _ _ _ _ Q p e He) as [i K]. pose proof (sk_inst _ _ _ _ _ _ K) as Hi.
  exists i. split; [done|]. intros p' e' i' He' Hi' Hlt. by eapply (qi_sortS _ _ _ _ Q p p').
Qed.

(** Both queues are cut at [num]. *)
Section Cut.

Context s (u' : LSQUnit) (num : Z) (n1 n2 : nat) (sq' : option Z).
Hypothesis I : linv s.
Hypothesis Hnum : (ls_bound s ≤ num)%Z.
Hypothesis TL : trimmed lq_clean (lu_LQ (ls_u s)) (lu_LQ u') n1.
Hypothesis TS : trimmed (sq_clean maxData) (lu_SQ (ls_u s)) (lu_SQ u') n2.
Hypothesis CL : cut_at lqe_inst (lq s) num n1.
Hypothesis CS : cut_at sqe_inst (sq s) num n2.
Hypothesis Hsq : ∀ q, (q ≤ num)%Z → (∀ v, sq' = Some v → (q < v)%Z) → ∀ v, ls_squash s = Some v → (q < v)%Z.
Hypothesis Eid : lu_lsqID u' = lu_lsqID (ls_u s).
Hypothesis Ewb : lu_storeWBIt u' = lu_storeWBIt (ls_u s) ∧ lu_storesToWB u' = lu_storesToWB (ls_u s).
Hypothesis Eviol : lu_memDepViolator u' = None.
Hypothesis Eblk : lu_isStoreBlocked u' = lu_isStoreBlocked (ls_u s).
Hypothesis Hst : lu_stalled u' = true → lu_stalled (ls_u s) = true ∧
  lu_stallingStoreIsn u' = lu_stallingStoreIsn (ls_u s) ∧ lu_stallingLoadIdx u' = lu_stallingLoadIdx (ls_u s) ∧
  ∀ p, p < length (lq s) → lu_stallingLoadIdx u' = (cq_head (lu_LQ (ls_u s)) + Z.of_nat p)%Z → p < n1.
Hypothesis Hrar : length (lu_RARQueue u') ≤ length (lu_RARQueue (ls_u s)).
Hypothesis Hraw : length (lu_RAWQueue u') ≤ length (lu_RAWQueue (ls_u s)).
Hypothesis Hrep1 : lu_RARReplayQueue u' `suffix_of` lu_RARReplayQueue (ls_u s).
Hypothesis Hrep2 : lu_RAWReplayQueue u' `suffix_of` lu_RAWReplayQueue (ls_u s).

Local Notation s' := (with_squash (with_u s u') sq').
Let Q : qinv s := iv_q _ _ _ _ _ _ _ _ _ _ I.

Lemma cut_lq p e : lq s' !! p = Some e → lq s !! p = Some e ∧ p < n1.
Proof. unfold lq at 1. simpl. rewrite (tr_list _ _ _ _ TL). intros Hp. by apply lookup_take_Some in Hp. Qed.

Lemma cut_sq p e : sq s' !! p = Some e → sq s !! p = Some e ∧ p < n2.
Proof. unfold sq at 1. simpl. rewrite (tr_list _ _ _ _ TS). intros Hp. by apply lookup_take_Some in Hp. Qed.

Lemma cut_lq_le p e i : lq s' !! p = Some e → lqe_inst e = Some i → (mi_seqNum i ≤ num)%Z.
Proof. intros Hp Hi. destruct (cut_lq p e Hp) as [He Hn]. by apply (CL p e i He Hi). Qed.

(** The iterator of a load that stays is within the stores that stay, and the converse. *)
Lemma cut_sqIt p e i : lq s' !! p = Some e → lqe_inst e = Some i →
  (mi_sqIt i ≤ cq_head (lu_SQ (ls_u s)) + Z.of_nat n2)%Z.
Proof.
  intros Hp Hi. pose proof (cut_lq_le p e i Hp Hi) as Hle. destruct (cut_lq p e Hp) as [He _].
  destruct (qi_sqIt _ _ _ _ Q p e i He Hi) as [X _]. pose proof (cq_list_length _ (qi_wfS _ _ _ _ Q)) as L.
  destruct (decide (n2 < length (sq s))) as [Hlt|]; [|pose proof (tr_len _ _ _ _ TS); unfold sq in *; lia].
  destruct (lookup_lt_is_Some_2 _ _ Hlt) as [e' He']. destruct (qi_st _ _ _ _ Q n2 e' He') as [i' K].
  pose proof (sk_inst _ _ _ _ _ _ K) as Hi'. pose proof (CS n2 e' i' He' Hi') as Hc.
  destruct (qi_ls _ _ _ _ Q p n2 e e' i i' He He' Hi Hi') as [Y _]. lia.
Qed.

Lemma cut_lqIt p e i : sq s' !! p = Some e → sqe_inst e = Some i →
  (mi_lqIt i ≤ cq_head (lu_LQ (ls_u s)) + Z.of_nat n1)%Z.
Proof.
  intros Hp Hi. destruct (cut_sq p e Hp) as [He Hn]. apply (CS p e i He Hi) in Hn.
  destruct (qi_lqIt _ _ _ _ Q p e i He Hi) as [X _]. pose proof (cq_list_length _ (qi_wfL _ _ _ _ Q)) as L.
  destruct (decide (n1 < length (lq s))) as [Hlt|]; [|pose proof (tr_len _ _ _ _ TL); unfold lq in *; lia].
  destruct (lookup_lt_is_Some_2 _ _ Hlt) as [e' He']. destruct (qi_ld _ _ _ _ Q n1 e' He') as [i' K].
  pose proof (lk_inst _ _ _ _ (lk_core _ _ _ _ K)) as Hi'. pose proof (CL n1 e' i' He' Hi') as Hc.
  destruct (qi_ls _ _ _ _ Q n1 p e' e i' i He' He Hi' Hi) as [_ Y]. lia.
Qed.

Lemma cut_q_inv : qinv s'.
Proof.
  pose proof cut_lq as HL. pose proof cut_sq as HS. pose proof cut_sqIt as HI. pose proof cut_lqIt as HI'.
  destruct TL as [W1 E1 C1 S1 N1 _ O1], TS as [W2 E2 C2 S2 N2 _ O2].
  pose proof (cq_list_length _ (qi_wfS _ _ _ _ Q)). pose proof (cq_list_length _ (qi_wfL _ _ _ _ Q)).
  destruct Q. split; simpl; rewrite ?E1, ?E2, ?C1, ?C2, ?S1, ?S2; try done; try lia; auto.
  - intros p e He. apply qi_st, HS, He.
  - intros p e He. apply qi_ld, HL, He.
  - intros p p' e e' i i' [He _]%HS [He' _]%HS. by apply (qi_sortS p p').
  - intros p p' e e' i i' [He _]%HL [He' _]%HL. by apply (qi_sortL p p').
  - intros p p' e e' i i' [He _]%HL [He' _]%HS. by apply (qi_ls p p' e e').
  - intros p e i He Hi. split; [by apply (HI p e)|]. apply HL in He as [He _]. by apply (qi_sqIt p e i).
  - intros p e i He Hi. split; [by apply (HI' p e)|]. apply HS in He as [He _]. by apply (qi_lqIt p e i).
  - intros p e i [He _]%HS. by apply (qi_lastS p e).
  - intros p e i [He _]%HL. by apply (qi_lastL p e).
  - intros p e i [He _]%HS. by apply (qi_canWB p e).
  - intros p e i [He _]%HL. by apply (qi_execB p e).
Qed.

(** The released stores stay. *)
Lemma cut_dropped e : e ∈ drop n2 (sq s) → ∃ i, sqe_inst e = Some i ∧ (num < mi_seqNum i)%Z ∧ sqe_canWB e = false.
Proof.
  intros He. apply list_elem_of_lookup in He as [p He]. rewrite lookup_drop in He.
  destruct (qi_st _ _ _ _ Q _ e He) as [i K]. pose proof (sk_inst _ _ _ _ _ _ K) as Hi.
  pose proof (CS _ e i He Hi) as Hc. exists i. split_and!; [done|lia|].
  rewrite (qi_canWB _ _ _ _ Q _ e i He Hi). apply bool_decide_eq_false. lia.
Qed.

Lemma cut_u_inv : u_inv P tid s'.
Proof.
  pose proof cut_lq as HL. pose proof (tr_head _ _ _ _ TS) as E2. pose proof (tr_head _ _ _ _ TL) as E1.
  pose proof cut_dropped as Hd. destruct Ewb as [Ew1 Ew2], (iv_u _ _ _ _ _ _ _ _ _ _ I). split; simpl; rewrite ?E1, ?E2; try congruence; try lia.
  - rewrite Ew2, ui_toWB. unfold sq at 2. simpl. rewrite (tr_list _ _ _ _ TS). fold (sq s).
    rewrite <- (take_drop n2 (sq s)) at 1. rewrite filter_app, (filter_none _ (drop n2 (sq s))), app_nil_r; [done|].
    apply Forall_forall. intros e He. destruct (Hd e He) as (i & _ & _ & ->). done.
  - intros St. destruct (Hst St) as (St0 & Ei & Ex & Hp). destruct (ui_stall St0) as (p & e & i & X1 & X2 & X3).
    exists p, e, i. rewrite Ei, Ex. split; [done|]. split; [|done]. unfold lq. simpl. rewrite (tr_list _ _ _ _ TL).
    rewrite lookup_take_lt; [done|]. apply Hp; [by apply lookup_lt_Some in X2|congruence].
  - by eapply nodup_suffixes.
  - intros x Hx. destruct (ui_refs x) as [X1 X2].
    { apply elem_of_app. apply elem_of_app in Hx as [Hx|Hx]; [left|right]; eapply elem_of_suffix; done. }
    split; [done|]. intros p e i [He _]%HL. by apply (X2 p e).
Qed.

Lemma cut_older p e i : lq s' !! p = Some e → lqe_inst e = Some i → lctx s' i = lctx s i.
Proof.
  intros Hp Hi. pose proof (cut_sqIt p e i Hp Hi) as X. unfold LsqInv.lctx, abs_sq, sq. simpl.
  rewrite (tr_head _ _ _ _ TS), (tr_list _ _ _ _ TS). fold (sq s).
  rewrite <- !firstn_map, take_take. do 2 f_equal. lia.
Qed.

Lemma cut_d_inv : d_inv P SP T tid va acc sdata m0 s'.
Proof.
  pose proof cut_lq as HL. pose proof cut_older as Ho. pose proof cut_lq_le as Hle. pose proof cut_dropped as Hd.
  destruct (iv_d _ _ _ _ _ _ _ _ _ _ I). split; try done.
  - intros p e i He Hi [Ha Hs]. rewrite (Ho p e i He Hi). destruct (HL p e He) as [He' _].
    apply (di_ld p e i He' Hi). split; [done|]. apply Hsq; [by apply (Hle p e)|done].
  - intros p e i He Hi. rewrite (Ho p e i He Hi). destruct (HL p e He) as [He' _]. by apply (di_bus p e i).
  - intros a Ha. simpl. rewrite di_mem by done. f_equal. unfold abs_sq. unfold sq at 2. simpl. rewrite (tr_list _ _ _ _ TS).
    fold (sq s). rewrite <- (take_drop n2 (sq s)) at 1. rewrite !map_app, filter_app.
    rewrite (filter_none _ (map as_seq (map ast (drop n2 (sq s))))), app_nil_r; [done|].
    rewrite map_map. apply Forall_fmap, Forall_forall. intros e He. destruct (Hd e He) as (i & Hi & Hlt & _).
    simpl. unfold ast. rewrite Hi. simpl. lia.
Qed.

Lemma cut_inv : linv s'.
Proof. split; [apply cut_q_inv|apply cut_u_inv|apply cut_d_inv]. Qed.

End Cut.

Lemma step_squash s num : linv s → ∃ s', step s (LSquash num) = Ok s' ∧ linv s'.
Proof.
  intros I. simpl. destruct (ls_bound s <=? num)%Z eqn:Hb; [|eauto]. apply Z.leb_le in Hb.
  pose proof (iv_q _ _ _ _ _ _ _ _ _ _ I) as Q. pose proof (iv_u _ _ _ _ _ _ _ _ _ _ I) as U.
  pose proof (qi_wfL _ _ _ _ Q) as WL. pose proof (qi_wfS _ _ _ _ Q) as WS. unfold lsq_squash.
  set (u0 := set_squashMark (ls_u s) true).
  destruct (squashLoads_spec num (lq s) (S (Z.to_nat (cq_size (lu_LQ u0)))) u0)
    as (LQ' & n1 & st & isn & idx & -> & TL & CL & Hst); [done|done|by apply by_seq_lq| |].
  { pose proof (cq_list_length _ WL). unfold lq. simpl. lia. }
  cbn [res_bind]. set (u1 := set_LQ _ _). destruct (rewind_total (lu_LQ u1) lq_view (lu_loadCompletedIdx u1) num) as [lc ->].
  { apply TL. }
  cbn [res_bind]. set (u2 := set_completed u1 _ _). assert (lu_memDepViolator u2 = None) as Ev by apply U. rewrite Ev.
  destruct (squashStores_spec maxData num (sq s) (S (Z.to_nat (cq_size (lu_SQ u2)))) u2) as (SQ' & n2 & -> & TS & CS);
    [done|done|by apply by_seq_sq| | |].
  { pose proof (cq_list_length _ WS). unfold sq. simpl. lia. }
  { intros p e i He Hi Hlt. destruct (qi_st _ _ _ _ Q p e He) as [i0 K]. split_and!.
    - rewrite (qi_canWB _ _ _ _ Q p e i He Hi). apply bool_decide_eq_false. lia.
    - apply K.
    - intros St. simpl in St. destruct (Hst St) as (S1 & -> & -> & S2). simpl in *.
      destruct (ui_stall _ _ _ U S1) as (p' & e' & i' & X1 & X2 & X3 & _ & _ & X4).
      assert (p' < n1) as Hn by (apply S2; [by apply lookup_lt_Some in X2|done]). apply (CL p' e' i' X2 X3) in Hn.
      unfold u0. simpl. lia. }
  cbn [res_bind]. set (u3 := set_SQ _ _). destruct (rewind_total (lu_SQ u3) sq_view (lu_storeCompletedIdx u3) num) as [sc ->].
  { apply TS. }
  cbn [res_bind]. eexists. split; [done|].
  assert (∀ q, (q ≤ num)%Z →
    (∀ v, match ls_squash s with Some x => if (num <? x)%Z then None else Some x | None => None end = Some v → (q < v)%Z) →
    ∀ v, ls_squash s = Some v → (q < v)%Z) as Hq.
  { intros q Hle Hv v Es. rewrite Es in Hv. destruct (num <? v)%Z eqn:E; [apply Z.ltb_lt in E; lia|by apply Hv]. }
  assert (∀ r : list LdRef, length (filter (λ i, ld_seq i ≤ num)%Z r) ≤ length r) as Hlen by (intros; apply length_filter).
  pose proof (λ r, pop_squashed_suffix r num) as Hsuf.
  destruct (_ && _); apply (cut_inv s _ num n1 n2); first [done|apply Hlen|apply Hsuf].
Qed.

End Squash.
