(* ===== verification/LsqThm.v ===== *)
(** The load/store queue of a thread keeps program order.

    For every sequence of events (dispatch, issue, the stages of the pipelines in any
    interleaving, replays, answers of the cache, commit, squash, writeback) no assertion
    of the queues fails, and the released loads and stores behave as if each had been
    executed at once in program order. *)
From Stdlib Require Import Sorted.
From stdpp Require Import gmap.
From S2P Require Import Prelude CircularBuffer Bytes StoreBuffer StoreBufferInv StoreBufferView.
From S2P Require Import StoreBufferLsq StoreBufferSteps StoreBufferProps StoreBufferThm.
From S2P Require Import CircularQueue LsqUnit LsqRead LsqPipe LsqOffload LsqSys LsqInv LsqUpd.
From S2P Require Import LsqEvents LsqStore LsqPop LsqRetire.

(** The events of the theorems dispatch loads and stores of the kinds of [static_ok]. *)
Definition lsq_ev_ok (ev : ls_event) : Prop :=
  match ev with LDispatchLoad i | LDispatchStore i => static_ok i | _ => True end.

(** What the parameters and the accesses have to satisfy. *)
Record lsq_env (P : LsqParams) (SP : SbParams) (T : nat) (tid : Z) (va : Z → Z) (acc : Z → LSQRequest)
    (sdata : Z → list Z) (maxData nL nS : nat) : Prop := {
  le_params : params_ok SP T;
  le_line : lp_lineBits P = sp_lineBits SP;
  le_tid : (0 ≤ tid < Z.of_nat T)%Z;
  le_miss : lp_ldMissReplay P = true;
  le_wb : 2 ≤ lp_storeWbStage P;
  le_shift : (0 ≤ lp_depCheckShift P)%Z;
  le_plain : ∀ q, plain P va acc sdata maxData q;
  le_lq : 0 < nL ∧ (Z.of_nat nL + 1 < 2 ^ 64)%Z;
  le_sq : 0 < nS ∧ (Z.of_nat nS + 1 < 2 ^ 64)%Z
}.

Section Thm.

Context {C : Type} `{CircularBufferLaws C nat}.
Context (P : LsqParams) (SP : SbParams) (T : nat) (tid : Z) (va : Z → Z).
Context (acc : Z → LSQRequest) (sdata : Z → list Z) (maxData nL nS : nat) (m0 : memory).

Local Notation linv := (ls_inv P SP T tid va acc sdata maxData m0).

(** The unit after [init], an empty store buffer, the memory [m0]. *)
Definition ls_init : LSys C :=
  LS (lu_init tid nL nS maxData) (sb_init SP T m0) ∅ None 0 0 [] [].

Hypothesis E : lsq_env P SP T tid va acc sdata maxData nL nS.

Lemma cq_new_outside {A} (Q : A → Prop) n a : Q a → cq_outside Q (cq_new n a).
Proof. intros Ha i b _ Hb. apply list_elem_of_lookup_2, elem_of_replicate_inv in Hb. by subst. Qed.

Lemma ls_init_inv : linv ls_init.
Proof.
  destruct (le_lq _ _ _ _ _ _ _ _ _ _ E) as [HL HL'], (le_sq _ _ _ _ _ _ _ _ _ _ E) as [HS HS'].
  destruct (cq_new_wf nL lqe_new HL HL') as [WL EL], (cq_new_wf nS (sqe_new maxData) HS HS') as [WS ES].
  assert (lq ls_init = []) as Elq by done. assert (sq ls_init = []) as Esq by done. split.
  - split; rewrite ?Elq, ?Esq; try done.
    + simpl. lia.
    + simpl. lia.
    + apply cq_new_outside. unfold sq_clean, sqe_new. simpl. rewrite length_replicate. by split_and!.
    + by apply cq_new_outside.
    + simpl. rewrite map_size_empty. lia.
  - split; rewrite ?Elq, ?Esq; try done; [simpl; lia|simpl; lia|constructor|].
    intros x Hx. simpl in Hx. by apply elem_of_nil in Hx.
  - assert (sys_inv SP T (own tid) va (ls_sb ls_init)) as I0 by (apply sb_init_inv; apply E).
    split; rewrite ?Elq; try done.
    + constructor.
    + intros r Hr. by apply elem_of_nil in Hr.
    + intros r Hr. by apply elem_of_nil in Hr.
    + intros r Hr. by apply elem_of_nil in Hr.
Qed.

Lemma ls_step_inv s ev : linv s → lsq_ev_ok ev → ∃ s', ls_step P SP acc sdata s ev = Ok s' ∧ linv s'.
Proof.
  destruct E. intros I Hev. destruct ev; simpl in Hev;
    eauto using step_dispatch_load, step_dispatch_store, step_issue_load, step_issue_store, step_load, step_store,
      step_store_data, step_update, step_resp, step_hint, step_bus_clear, step_process, step_buffer, step_commit, step_squash.
Qed.

Lemma ls_run_inv evs s : linv s → Forall lsq_ev_ok evs → ∃ s', ls_run P SP acc sdata s evs = Ok s' ∧ linv s'.
Proof.
  intros I F. revert s I. induction F as [|ev evs Hev F IH]; intros s I; [by exists s|].
  destruct (ls_step_inv s ev I Hev) as (s1 & E1 & I1). destruct (IH s1 I1) as (s2 & E2 & I2). exists s2.
  split; [|done]. unfold ls_run in *. simpl. rewrite E1. done.
Qed.

(** The stores with the numbers [qs], in their order, as writes to a memory. *)
Definition run_stores (qs : list Z) (m : memory) : memory := fold_left (st_write acc sdata) qs m.

(** The released stores of a state are writes of their instructions. *)
Lemma run_released s (l : list RStore) m : linv s → (∀ r, r ∈ l → r ∈ ls_stores s) →
  fold_left (λ m r, mem_write m (rs_addr r) (rs_data r) (rs_mask r)) l m = run_stores (map rs_seq l) m.
Proof.
  intros I Hl. apply fold_faithful, Forall_forall. intros r Hr. apply (di_stores _ _ _ _ _ _ _ _ _ (iv_d _ _ _ _ _ _ _ _ _ _ I)), Hl, Hr.
Qed.

(** C3: whatever the interleaving of the pipelines, of replays, squashes and the store
    buffer, no assertion of the queues fails; the stores are released in program order with
    the data of their instructions, and every released load delivered exactly the bytes that
    the initial memory holds after the released stores that precede it in program order. *)
Theorem lsq_program_order evs :
  Forall lsq_ev_ok evs →
  ∃ s, ls_run P SP acc sdata ls_init evs = Ok s ∧
    StronglySorted Z.lt (map rs_seq (ls_stores s)) ∧
    (∀ r, r ∈ ls_stores s → rs_addr r = a_lo acc (rs_seq r) ∧ rs_data r = sdata (rs_seq r)) ∧
    ∀ l, l ∈ ls_loads s → rl_addr l = a_lo acc (rl_seq l) ∧
      rl_value l = mem_read (run_stores (filter (λ q, q < rl_seq l)%Z (map rs_seq (ls_stores s))) m0)
                     (a_lo acc (rl_seq l)) (a_len acc (rl_seq l)).
Proof.
  intros F. destruct (ls_run_inv evs ls_init ls_init_inv F) as (s & Er & I). exists s.
  pose proof (iv_d _ _ _ _ _ _ _ _ _ _ I) as D. split_and!; [done|apply D| |].
  - intros r Hr. rewrite (di_stores _ _ _ _ _ _ _ _ _ D r Hr). done.
  - intros l Hl. destruct (di_loads _ _ _ _ _ _ _ _ _ D l Hl) as (_ & Ha & Hv). split; [done|].
    rewrite Hv at 1. rewrite (run_released s) by (try done; intros r [_ Hr]%list_elem_of_filter; done).
    by rewrite map_filter_seq.
Qed.

(** C14: no released store is lost or reordered on its way to memory: at any time the
    memory behind the store buffer, with the released stores that are still in the store
    queue, is the initial memory after all released stores; once the queue and the buffer
    are empty it is the memory itself. *)
Theorem lsq_memory evs :
  Forall lsq_ev_ok evs →
  ∃ s, ls_run P SP acc sdata ls_init evs = Ok s ∧
    (∀ a, in_u 64 a →
       run_stores (filter (λ q, q ≤ ls_bound s)%Z (seqs s)) (sys_view SP (λ _, tid) (ls_sb s)) a =
       run_stores (map rs_seq (ls_stores s)) m0 a) ∧
    (cq_size (lu_SQ (ls_u s)) = 0%Z → sb_size (sl_sb (ss_lsq (ls_sb s))) = 0%Z →
     ∀ a, in_u 64 a → ss_mem (ls_sb s) a = run_stores (map rs_seq (ls_stores s)) m0 a).
Proof.
  intros F. destruct (ls_run_inv evs ls_init ls_init_inv F) as (s & Er & I). exists s.
  pose proof (iv_d _ _ _ _ _ _ _ _ _ _ I) as D. pose proof (iv_q _ _ _ _ _ _ _ _ _ _ I) as Q.
  assert (∀ a, in_u 64 a → run_stores (filter (λ q, q ≤ ls_bound s)%Z (seqs s)) (sys_view SP (λ _, tid) (ls_sb s)) a =
       run_stores (map rs_seq (ls_stores s)) m0 a) as Hm.
  { intros a Ha. rewrite <- (run_released s) by done. symmetry. by apply (di_mem _ _ _ _ _ _ _ _ _ D). }
  split_and!; [done|done|]. intros Hz Hb a Ha. rewrite <- Hm by done.
  assert (seqs s = []) as ->.
  { pose proof (cq_list_length _ (qi_wfS _ _ _ _ Q)) as L. rewrite Hz in L. unfold seqs, abs_sq, sq. by destruct (cq_list _). }
  symmetry. apply (view_empty SP T (own tid) va); [apply D|done].
Qed.

End Thm.

(** ** A load that runs before an older store *)

Definition exl_acc (q : Z) : LSQRequest :=
  let a := (4096 + 8 * (q mod 2))%Z in
  let r := MReq a a 8 (replicate 8 true) in
  LReq r [r] false a 8 (RFlags false false false false false false false false false) 0 [] [].
Definition exl_data (q : Z) : list Z := replicate 8 (q mod 256)%Z.
Definition exl_params : LsqParams :=
  {| lp_lineBits := 6; lp_depCheckShift := 0; lp_checkLoads := true; lp_pipeNukeCheck := true; lp_ldMissReplay := true;
     lp_mdp := false; lp_maxRARQEntries := 4; lp_maxRAWQEntries := 4; lp_rarDequeue := 2; lp_rawDequeue := 2;
     lp_loadCompletionWidth := 4; lp_storeCompletionWidth := 4; lp_storeWbStage := 4 |}.
Definition exl_sb : SbParams :=
  {| sp_lineBits := 6; sp_sbufferEntries := 2; sp_evictThreshold := 1; sp_inactiveThreshold := 8;
     sp_cacheStorePorts := 1; sp_bankWriteAccurately := true; sp_setDivNum := 1 |}.
Definition exl_inst (q : Z) : MStatic := MkMStatic q false false false false false [].
Definition exl_hit : CacheAns := CAns false true None.

(** The load 3 reads the cache before the store 1 has its address; the store finds it, it is
    squashed, and the load 7 in its place takes the bytes of the store from the queue.
    Commit releases both and the store reaches the buffer, then the memory. *)
Definition exl_events : list ls_event :=
  [LDispatchStore (exl_inst 1); LDispatchLoad (exl_inst 3); LDispatchLoad (exl_inst 5);
   LIssueLoad 1; LLoad 1 true exl_hit; LLoad 1 true exl_hit; LResp 1 true; LLoad 1 true exl_hit;
   LLoad 1 true exl_hit;
   LIssueStore 1; LStore 1 true; LStore 1 true; LStore 1 true; LStore 1 true; LStore 1 true;
   LSquash 2;
   LDispatchLoad (exl_inst 7); LIssueLoad 1; LLoad 1 true exl_hit; LLoad 1 true exl_hit;
   LLoad 1 true exl_hit; LLoad 1 true exl_hit; LUpdate; LCommit 7 7; LProcess [] true;
   LBuffer EvFlush; LBuffer (EvTick []); LBuffer (EvWriteback false true); LBuffer (EvCacheWrite 1);
   LBuffer (EvCacheResp 1)].

Local Notation exl_init := (ls_init (C := lbuf nat) exl_sb 1 0 8 4 4 (λ _, 0%Z)).

Lemma exl_env : lsq_env exl_params exl_sb 1 0 id exl_acc exl_data 8 4 4.
Proof.
  split; try done; try (simpl; lia).
  - split; simpl; [done| |done|done]. exists 0%Z. done.
  - intros q. assert (q mod 2 = 0 ∨ q mod 2 = 1)%Z as Hq by (pose proof (Z.mod_pos_bound q 2); lia).
    assert (∀ r, exl_acc r = LReq (MReq (4096 + 8 * (r mod 2)) (4096 + 8 * (r mod 2)) 8 (replicate 8 true))
      [MReq (4096 + 8 * (r mod 2)) (4096 + 8 * (r mod 2)) 8 (replicate 8 true)] false (4096 + 8 * (r mod 2)) 8
      (RFlags false false false false false false false false false) 0 [] []) as Ea by done.
    split; try split; unfold a_lo, a_size, a_len, a_mask; rewrite ?Ea; destruct Hq as [Hq|Hq]; rewrite ?Hq; first [done|unfold in_u; simpl; lia].
Qed.

Lemma exl_ok : Forall lsq_ev_ok exl_events.
Proof. repeat constructor. Qed.

(** What the run ends with. *)
Definition exl_summary (s : LSys (lbuf nat)) : list (Z * list Z) * list (Z * list Z) * Z * Z * Z :=
  (map (λ r, (rs_seq r, rs_data r)) (ls_stores s), map (λ l, (rl_seq l, rl_value l)) (ls_loads s),
   cq_size (lu_SQ (ls_u s)), sb_size (sl_sb (ss_lsq (ls_sb s))), ss_mem (ls_sb s) 4104%Z).

Lemma exl_result :
  (let! s := ls_run exl_params exl_sb exl_acc exl_data exl_init exl_events in Ok (exl_summary s)) =
  Ok ([(1, replicate 8 1)], [(7, replicate 8 1)], 0, 0, 1)%Z.
Proof. vm_compute. reflexivity. Qed.

Lemma exl_reached s : ls_run exl_params exl_sb exl_acc exl_data exl_init exl_events = Ok s →
  exl_summary s = ([(1, replicate 8 1)], [(7, replicate 8 1)], 0, 0, 1)%Z.
Proof. intros R. pose proof exl_result as E. rewrite R in E. exact (Ok_inj _ _ E). Qed.

Lemma lsq_program_order_witness :
  ∃ s, ls_run exl_params exl_sb exl_acc exl_data exl_init exl_events = Ok s ∧
    map (λ l, (rl_seq l, rl_value l)) (ls_loads s) = [(7%Z, replicate 8 1%Z)] ∧
    ∀ l, l ∈ ls_loads s → rl_addr l = a_lo exl_acc (rl_seq l).
Proof.
  destruct (lsq_program_order (C := lbuf nat) exl_params exl_sb 1 0 id exl_acc exl_data 8 4 4 (λ _, 0%Z) exl_env exl_events exl_ok)
    as (s & R & _ & _ & V).
  exists s. pose proof (exl_reached s R) as X. split; [exact R|]. split; [|intros l Hl; apply (V l Hl)].
  apply (f_equal (λ x, snd (fst (fst (fst x))))) in X. exact X.
Defined.

Lemma lsq_memory_witness :
  ∃ s, ls_run exl_params exl_sb exl_acc exl_data exl_init exl_events = Ok s ∧
    ss_mem (ls_sb s) 4104%Z = run_stores exl_acc exl_data [1%Z] (λ _, 0%Z) 4104%Z.
Proof.
  destruct (lsq_memory (C := lbuf nat) exl_params exl_sb 1 0 id exl_acc exl_data 8 4 4 (λ _, 0%Z) exl_env exl_events exl_ok)
    as (s & R & _ & V).
  exists s. pose proof (exl_reached s R) as X. split; [exact R|]. rewrite V.
  - apply (f_equal (λ x, map fst (fst (fst (fst (fst x)))))) in X. simpl in X. rewrite map_map in X.
    change (map rs_seq (ls_stores s) = [1%Z]) in X. by rewrite X.
  - apply (f_equal (λ x, snd (fst (fst x)))) in X. exact X.
  - apply (f_equal (λ x, snd (fst x))) in X. exact X.
  - unfold in_u. lia.
Defined.

(** Behaviours of the queues at their edges, on small runs. *)

(** ** A store in two parts *)

(** Two executed loads: the older one reads the block of the second part of the store, the
    younger one that of the first. *)
Definition exs_req (a : Z) : MemReq := MReq a a 8 (replicate 8 true).
Definition exs_load (q idx a : Z) : LQEntry :=
  let r := LReq (exs_req a) [exs_req a] false a 8 (RFlags false false false false false false false false false) 0 [] [] in
  let i := MkMInst (exl_inst q) idx 1 pipe_new true true a 8 false (Some r) true false false false false false None
             (Some (replicate 8 0%Z)) in
  LQE (Some i) (Some r) 8 true.
Definition exs_unit : LSQUnit :=
  let u := lu_init 0 2 2 16 in
  set_LQ u (CQ [exs_load 6 2 4152; exs_load 5 1 4160] 2 2 1).

(** [checkViolations] of a store over a block boundary stops at the first load that it
    finds for its first part.  On this queue the older load 5, which read the bytes of the second part too
    early, is not reported: the squash starts at the load 6 and keeps it. *)
Theorem split_store_misses_older_load :
  ∃ u, checkViolations 0 1 exs_unit false [exs_req 4152; exs_req 4160] = Ok (u, true) ∧
    lu_memDepViolator u = Some 6%Z ∧
    (∃ u', checkViolations 0 1 exs_unit false [exs_req 4160] = Ok (u', true) ∧ lu_memDepViolator u' = Some 5%Z).
Proof. eexists. split; [vm_compute; reflexivity|]. split; [done|]. eexists. split; [vm_compute; reflexivity|done]. Qed.

(** ** A full queue *)

(** With every load of a full queue executed, the index of the last completed load runs
    around the queue and past its tail, the index 2. *)
Definition exf_events : list ls_event :=
  [LDispatchLoad (exl_inst 1); LDispatchLoad (exl_inst 2)] ++
  concat (map (λ i, [LIssueLoad i; LLoad i true exl_hit; LLoad i true exl_hit; LResp i true; LLoad i true exl_hit;
                     LLoad i true exl_hit]) [1; 2]%Z) ++ [LUpdate].

Example completed_index_passes_tail :
  (let! s := ls_run exl_params exl_sb exl_acc exl_data (ls_init (C := lbuf nat) exl_sb 1 0 8 2 2 (λ _, 0%Z)) exf_events in
   Ok (cq_tail (lu_LQ (ls_u s)), lu_loadCompletedIdx (ls_u s))) = Ok (2, 4)%Z.
Proof. vm_compute. reflexivity. Qed.

(** ** Squash and the replay queues *)

(** Only squashed entries at the front leave. *)
Example squashed_replay_stays x y :
  ld_seq x = 3%Z → ld_seq y = 9%Z → pop_squashed [x; y] 5 = [x; y].
Proof. intros Hx Hy. simpl. by rewrite Hx. Qed.

(** ** Two addresses for a block *)

(** A store to a block on its way to the cache, through another virtual address, makes a
    vice that a forwarding load does not accept. *)
Definition exv_events : list sb_event :=
  [EvInsert 0 4096 4096 [1]%Z [true]; EvFlush; EvTick []; EvWriteback false true;
   EvInsert 0 8192 4096 [2]%Z [true]].

Example synonym_forward_fails :
  (let! s := sb_run exl_sb (sb_init exl_sb 1 (λ _, 0%Z) : SbSys (lbuf nat)) exv_events in
   recordForward (sl_sb (ss_lsq (fst s))) 1 4096 1 4096 4096 1) = Panic "vice->blockVaddr == blockVaddr".
Proof. vm_compute. reflexivity. Qed.
