(* ===== verification/Rob.v ===== *)
(** The reorder buffer.

    Models [src/GEM5/src/cpu/o3/rob.hh] and [rob.cc].  The instructions of a thread
    are a list, oldest first.  An iterator into [instList] is the sequence number of
    the instruction it points at, [None] for [end()]; sequence numbers are unique.
    A [RobInst] is an instruction with the status bits the buffer reads and writes;
    instructions a squash removes are returned with their final bits.  The per-group
    counters are the [threadGroups] deques. *)
From S2P Require Import Prelude Double RegFile Inst Comm.

Module Rob.

(** ** Policies *)

Inductive SMTQueuePolicy := Dynamic | Partitioned | Threshold.
Inductive ROBWalkPolicy := Rollback | Replay | ConstCycle | NaiveCpt | ConfidentCpt.
Inductive ROBCompressPolicy := none | kmhv2 | MohBoE | kmhv3.

#[export] Instance SMTQueuePolicy_eq_dec : EqDecision SMTQueuePolicy.
Proof. solve_decision. Defined.
#[export] Instance ROBWalkPolicy_eq_dec : EqDecision ROBWalkPolicy.
Proof. solve_decision. Defined.

Record RobParams := {
  robPolicy : SMTQueuePolicy;
  robWalkPolicy : ROBWalkPolicy;
  robCompress : ROBCompressPolicy;
  numEntries : Z;
  CROB_instPerGroup : Z;
  squashWidth : Z;
  constSquashCycle : Z;
  rob_threads : nat;                     (** [numThreads] *)
  smtROBThreshold : Z
}.

(** ** Entries *)

Record RobInst := mkRobInst {
  ri : DynInst;
  ri_canCommit : bool;
  ri_executed : bool;
  ri_inROB : bool;
  ri_committed : bool;
  ri_serializeBefore : bool              (** the dynamic status bit *)
}.

Definition ri_seq (x : RobInst) : Z := seqNum (ri x).

Definition isMemRef (d : DynInst) : bool := isLoad d || isStore d || di_has d IsAtomic.

Definition isSerializeBefore (x : RobInst) : bool :=
  di_has (ri x) IsSerializeBefore || ri_serializeBefore x.

Definition setInROB (x : RobInst) : RobInst :=
  mkRobInst (ri x) (ri_canCommit x) (ri_executed x) true (ri_committed x) (ri_serializeBefore x).

(** What retiring and squashing do to the instruction. *)
Definition retired (x : RobInst) : RobInst :=
  mkRobInst (ri x) (ri_canCommit x) (ri_executed x) false true (ri_serializeBefore x).
Definition squashed_inst (x : RobInst) : RobInst :=
  mkRobInst (setSquashed (ri x)) true (ri_executed x) false (ri_committed x)
    (ri_serializeBefore x).

Inductive Status := Running | Idle | ROBSquashing.

Record ROB := mkROB {
  threadGroups : list (list Z);
  instList : list (list RobInst);
  maxEntries : list Z;
  lastInsertCycle : Z;
  dynSquashWidth : Z;
  squashIt : list (option Z);
  squashedSeqNum : list Z;
  doneSquashing : list bool;
  numInstsInROB : Z;
  robStatus : list Status;
  rob_head : option Z;
  rob_tail : option Z
}.

Section WithParams.

Context (p : RobParams).

(** The member of that name, set to 1 without compression. *)
Definition instsPerGroup : Z :=
  match robCompress p with none => 1%Z | _ => CROB_instPerGroup p end.

(** ** Construction *)

Definition initial_max : Z :=
  match robPolicy p with
  | Dynamic => numEntries p
  | Partitioned => (numEntries p / Z.of_nat (rob_threads p))%Z
  | Threshold => u32 (smtROBThreshold p)
  end.

(** [ROB::resetState]; the lists of instructions are not cleared. *)
Definition resetState (r : ROB) : ROB :=
  mkROB (replicate MaxThreads []) (instList r) (maxEntries r) (lastInsertCycle r)
    (dynSquashWidth r) (replicate MaxThreads None) (replicate MaxThreads 0%Z)
    (replicate MaxThreads true) 0 (robStatus r) None None.

Definition ROB_new : res ROB :=
  do! panic_if (bool_decide (robPolicy p = Partitioned) && (rob_threads p =? 0)%nat)
        "division by zero" in
  do! assert_ ((bool_decide (robWalkPolicy p = Rollback) && (0 <? squashWidth p)%Z) ||
               (bool_decide (robWalkPolicy p = Replay) && (0 <? squashWidth p)%Z) ||
               (bool_decide (robWalkPolicy p = ConstCycle) && (0 <? constSquashCycle p)%Z))
        "robWalkPolicy" in
  Ok (resetState (mkROB [] (replicate MaxThreads [])
        (replicate (rob_threads p) initial_max ++
         replicate (MaxThreads - rob_threads p) 0%Z)
        0 6 [] [] [] 0 (replicate MaxThreads Idle) None None)).

(** ** Groups *)

Definition exclusive (d : DynInst) : bool :=
  isMemRef d || isControl d || isNonSpeculative d.

(** [allocateNewGroup]; [prev] is [instList[tid].back()] and is read only when there
    is a group. *)
Definition allocateGroup_kmhv2 (groups : list Z) (prev : option RobInst) (inst : DynInst)
    (lastc now : Z) : res bool :=
  match last groups with
  | None => Ok true
  | Some n =>
      if exclusive inst then Ok true
      else
        let! prev := get_at prev "back() of an empty list" in
        Ok (exclusive (ri prev) || negb (ftqId (ri prev) =? ftqId inst)%Z ||
            negb (lastc =? now)%Z || (instsPerGroup <=? n)%Z)
  end.

Definition allocateGroup_MohBoE (groups : list Z) (prev : option RobInst) (inst : DynInst)
    (lastc now : Z) : res bool :=
  match last groups with
  | None => Ok true
  | Some n =>
      if isMemRef inst || isNonSpeculative inst then Ok true
      else
        let! prev := get_at prev "back() of an empty list" in
        Ok (isControl (ri prev) || negb (lastc =? now)%Z || (instsPerGroup <=? n)%Z)
  end.

Definition allocateGroup_kmhv3 (groups : list Z) (lastc now : Z) : res bool :=
  match last groups with
  | None => Ok true
  | Some n => Ok (negb (lastc =? now)%Z || (instsPerGroup <=? n)%Z)
  end.

Definition allocateNewGroup (groups : list Z) (prev : option RobInst) (inst : DynInst)
    (lastc now : Z) : res bool :=
  match robCompress p with
  | none => Ok true
  | kmhv2 => allocateGroup_kmhv2 groups prev inst lastc now
  | MohBoE => allocateGroup_MohBoE groups prev inst lastc now
  | kmhv3 => allocateGroup_kmhv3 groups lastc now
  end.

Definition commitGroup (groups : list Z) : res (list Z) :=
  match groups with
  | [] => Panic "!threadGroups[tid].empty()"
  | n :: rest => Ok (if (n =? 1)%Z then rest else (n - 1)%Z :: rest)
  end.

Definition squashGroup (groups : list Z) : res (list Z) :=
  match last groups with
  | None => Panic "!threadGroups[tid].empty()"
  | Some n => Ok (if (n =? 1)%Z then removelast groups else removelast groups ++ [(n - 1)%Z])
  end.

(** ** Head and tail over the active threads *)

Definition updateHead (r : ROB) (active : list Z) : res (option Z) :=
  let! best := res_fold (λ (best : option Z) t,
    let! l := nth_res (instList r) t in
    match l with
    | [] => Ok best
    | x :: _ =>
        match best with
        | None => Ok (Some (ri_seq x))
        | Some low => Ok (Some (if (ri_seq x <? low)%Z then ri_seq x else low))
        end
    end) None active in
  Ok best.

Definition updateTail (r : ROB) (active : list Z) : res (option Z) :=
  res_fold (λ (best : option Z) t,
    let! l := nth_res (instList r) t in
    match last l with
    | None => Ok best
    | Some x =>
        match best with
        | None => Ok (Some (ri_seq x))
        | Some high => Ok (Some (if (high <? ri_seq x)%Z then ri_seq x else high))
        end
    end) None active.

(** ** Insertion and retirement *)

Definition insertInst (r : ROB) (inst : RobInst) (now : Z) : res ROB :=
  do! assert_ (u32 (numInstsInROB r) <=? u32 (numEntries p * instsPerGroup))%Z
        "numInstsInROB <= numEntries * instsPerGroup" in
  let tid := threadNumber (ri inst) in
  let! groups := nth_res (threadGroups r) tid in
  let! insts := nth_res (instList r) tid in
  let! alloc := allocateNewGroup groups (last insts) (ri inst) (lastInsertCycle r) now in
  let! groups' :=
    if alloc then Ok (groups ++ [1%Z])
    else
      match last groups with
      | None => ub
      | Some n =>
          do! assert_ (n <? instsPerGroup)%Z "threadGroups[tid].back() < instsPerGroup" in
          Ok (removelast groups ++ [(n + 1)%Z])
      end in
  let insts' := insts ++ [setInROB inst] in
  let! head :=
    if (numInstsInROB r =? 0)%Z then
      let! h := get_at (hd_error insts') "begin()" in
      do! assert_ (ri_seq h =? ri_seq inst)%Z "(*head) == inst" in
      Ok (Some (ri_seq inst))
    else Ok (rob_head r) in
  let! gs := set_nth (threadGroups r) tid groups' in
  let! ls := set_nth (instList r) tid insts' in
  Ok (mkROB gs ls (maxEntries r) now (dynSquashWidth r) (squashIt r) (squashedSeqNum r)
        (doneSquashing r) (numInstsInROB r + 1) (robStatus r) head (Some (ri_seq inst))).

(** [ROB::retireHead]: the new state and the retired instruction. *)
Definition retireHead (r : ROB) (tid : Z) (active : list Z) : res (ROB * RobInst) :=
  do! assert_ (0 <? numInstsInROB r)%Z "numInstsInROB > 0" in
  let! insts := nth_res (instList r) tid in
  match insts with
  | [] => ub
  | x :: rest =>
      do! assert_ (ri_canCommit x) "head_inst->readyToCommit()" in
      do! assert_ (negb (squashed (ri x))) "!head_inst->isSquashed()" in
      let! groups := nth_res (threadGroups r) tid in
      let! groups' := commitGroup groups in
      let! gs := set_nth (threadGroups r) tid groups' in
      let! ls := set_nth (instList r) tid rest in
      let r := mkROB gs ls (maxEntries r) (lastInsertCycle r) (dynSquashWidth r) (squashIt r)
        (squashedSeqNum r) (doneSquashing r) (numInstsInROB r - 1) (robStatus r) (rob_head r)
        (rob_tail r) in
      let! h := updateHead r active in
      Ok (mkROB gs ls (maxEntries r) (lastInsertCycle r) (dynSquashWidth r) (squashIt r)
            (squashedSeqNum r) (doneSquashing r) (numInstsInROB r) (robStatus r) h (rob_tail r),
          retired x)
  end.

(** ** Squashing *)

(** [ROB::computeDynSquashWidth] *)
Definition computeDynSquashWidth (uncommitted to_squash : Z) : Z :=
  match robWalkPolicy p with
  | Rollback => squashWidth p
  | Replay =>
      let expected := Double.max (Double.of_unsigned 2)
        (Double.div (Double.of_unsigned uncommitted) (Double.of_unsigned (squashWidth p))) in
      Z.max (u32 (Double.ceil (Double.div (Double.of_unsigned to_squash) expected))) 1
  | ConstCycle =>
      Z.max (u32 (Double.ceil (Double.div (Double.of_unsigned to_squash)
                                 (Double.of_unsigned (constSquashCycle p))))) (squashWidth p)
  | NaiveCpt | ConfidentCpt => 0%Z
  end.

Definition isEmpty_thread (r : ROB) (tid : Z) : res bool :=
  let! groups := nth_res (threadGroups r) tid in Ok (bool_decide (groups = [])).

(** [ROB::squash] *)
Definition squash (r : ROB) (squash_num tid : Z) : res ROB :=
  let! empty := isEmpty_thread r tid in
  if empty then Ok r
  else
    let! insts := nth_res (instList r) tid in
    let total := Z.of_nat (length (filter (λ x, squash_num < ri_seq x)%Z insts)) in
    let width := computeDynSquashWidth (Z.of_nat (length insts) - total) total in
    let! status := set_nth (robStatus r) tid ROBSquashing in
    let! done := set_nth (doneSquashing r) tid false in
    let! seqs := set_nth (squashedSeqNum r) tid squash_num in
    let! its :=
      match last insts with
      | None => Ok (squashIt r)
      | Some x => set_nth (squashIt r) tid (Some (ri_seq x))
      end in
    Ok (mkROB (threadGroups r) (instList r) (maxEntries r) (lastInsertCycle r) width its seqs
          done (numInstsInROB r) status (rob_head r) (rob_tail r)).

(** The thread's part of the state while instructions are squashed. *)
Record Walk := mkWalk {
  w_insts : list RobInst;
  w_groups : list Z;
  w_num : Z;
  w_it : Z;                              (** [*squashIt[tid]] *)
  w_tail : bool;                         (** [robTailUpdate] *)
  w_out : list RobInst                   (** squashed so far, youngest first *)
}.

(** Dereferencing an iterator: the position and the instruction. *)
Definition node (l : list RobInst) (s : Z) : res (nat * RobInst) :=
  get_at (list_find (λ x, ri_seq x = s) l) "squashIt".

(** The loop of [ROB::doSquash]; the boolean tells whether the head was reached. *)
Fixpoint squash_loop (n : nat) (squashed : Z) (w : Walk) : res (Walk * bool) :=
  match n with
  | O => Ok (w, false)
  | S n' =>
      let! ix := node (w_insts w) (w_it w) in
      let '(i, x) := ix in
      if (squashed <? ri_seq x)%Z then
        let! groups := squashGroup (w_groups w) in
        let insts' := delete i (w_insts w) in
        let out' := w_out w ++ [squashed_inst x] in
        match i with
        | O => Ok (mkWalk insts' groups (w_num w - 1) (w_it w) (w_tail w) out', true)
        | S j =>
            let! prev := get_at (w_insts w !! j) "prev" in
            let tail := bool_decide (option_map ri_seq (last (w_insts w)) =
                                     Some (ri_seq x)) in
            squash_loop n' squashed
              (mkWalk insts' groups (w_num w - 1) (ri_seq prev) (w_tail w || tail) out')
        end
      else Ok (w, false)
  end.

Definition with_walk (r : ROB) (tid : Z) (w : Walk) (it : option Z) (done : bool)
    : res ROB :=
  let! gs := set_nth (threadGroups r) tid (w_groups w) in
  let! ls := set_nth (instList r) tid (w_insts w) in
  let! its := set_nth (squashIt r) tid it in
  let! ds := set_nth (doneSquashing r) tid done in
  Ok (mkROB gs ls (maxEntries r) (lastInsertCycle r) (dynSquashWidth r) its
        (squashedSeqNum r) ds (w_num w) (robStatus r) (rob_head r) (rob_tail r)).

(** [ROB::doSquash]; [exiting] is [cpu->isThreadExiting(tid)]. *)
Definition doSquash (r : ROB) (tid : Z) (active : list Z) (exiting : bool)
    : res (ROB * list RobInst) :=
  let! it := nth_res (squashIt r) tid in
  let! s := get_at it "squashIt[tid] != instList[tid].end()" in
  let! insts := nth_res (instList r) tid in
  let! groups := nth_res (threadGroups r) tid in
  let! limit := nth_res (squashedSeqNum r) tid in
  let! ix := node insts s in
  if (ri_seq ix.2 <? limit)%Z then
    let! r' := with_walk r tid (mkWalk insts groups (numInstsInROB r) s false []) None true in
    Ok (r', [])
  else
    do! assert_ (negb (dynSquashWidth r =? 0)%Z) "dynSquashWidth" in
    let n := if exiting then u32 (numEntries p * instsPerGroup) else dynSquashWidth r in
    let! wd := squash_loop (Z.to_nat n) limit (mkWalk insts groups (numInstsInROB r) s false []) in
    let '(w, at_head) := wd in
    if at_head then
      let! r' := with_walk r tid w None true in
      Ok (r', w_out w)
    else
      let! ix := node (w_insts w) (w_it w) in
      let done := (ri_seq ix.2 <=? limit)%Z in
      let! r' := with_walk r tid w (if done then None else Some (w_it w)) done in
      let! t := if w_tail w then updateTail r' active else Ok (rob_tail r') in
      Ok (mkROB (threadGroups r') (instList r') (maxEntries r') (lastInsertCycle r')
            (dynSquashWidth r') (squashIt r') (squashedSeqNum r') (doneSquashing r')
            (numInstsInROB r') (robStatus r') (rob_head r') t, w_out w).

(** ** Queries *)

(** The loop of [isHeadGroupReady] over the first [n] instructions. *)
Fixpoint group_ready (first : bool) (n : nat) (l : list RobInst) : res bool :=
  match n, l with
  | O, _ => Ok true
  | S _, [] => ub
  | S n', x :: rest =>
      if negb (ri_canCommit x) then Ok (negb first && isSerializeBefore x)
      else if isNonSpeculative (ri x) || di_has (ri x) IsStoreConditional ||
              negb (ri_executed x) || faulted (ri x)
      then Ok true
      else group_ready false n' rest
  end.

Definition isHeadGroupReady (r : ROB) (tid : Z) : res bool :=
  let! groups := nth_res (threadGroups r) tid in
  let! insts := nth_res (instList r) tid in
  match groups with
  | n :: _ => if (n =? 0)%Z then Ok false else group_ready true (Z.to_nat n) insts
  | [] => Ok false
  end.

Fixpoint last_done (n : nat) (l : list RobInst) (seq : Z) : res Z :=
  match n, l with
  | O, _ => Ok seq
  | S _, [] => ub
  | S n', x :: rest =>
      if negb (ri_canCommit x) || negb (ri_executed x) || faulted (ri x) then Ok seq
      else last_done n' rest (ri_seq x)
  end.

Definition getHeadGroupLastDoneSeq (r : ROB) (tid : Z) : res Z :=
  let! groups := nth_res (threadGroups r) tid in
  let! insts := nth_res (instList r) tid in
  match groups with
  | n :: _ => if (n =? 0)%Z then Ok 0%Z else last_done (Z.to_nat n) insts 0
  | [] => Ok 0%Z
  end.

Definition numFreeEntries (r : ROB) (tid : Z) : res Z :=
  let! m := nth_res (maxEntries r) tid in
  let! groups := nth_res (threadGroups r) tid in
  Ok (u32 (m - Z.of_nat (length groups))).

Definition getThreadEntries (r : ROB) (tid : Z) : res Z :=
  let! groups := nth_res (threadGroups r) tid in Ok (Z.of_nat (length groups)).

Definition isFull (r : ROB) : bool :=
  existsb (λ gs, Z.of_nat (length gs) =? numEntries p)%Z (threadGroups r).

Definition isEmpty (r : ROB) : bool := (numInstsInROB r =? 0)%Z.

Definition countInsts (r : ROB) : Z :=
  sumZ (λ l, Z.of_nat (length l)) (take (rob_threads p) (instList r)).

Definition countInstsOfGroups (r : ROB) (groups : Z) : Z :=
  sumZ (λ gs, sumZ id (take (Z.to_nat groups) gs)) (take (rob_threads p) (threadGroups r)).

(** [None] is the dummy instruction. *)
Definition readHeadInst (r : ROB) (tid : Z) : res (option RobInst) :=
  let! groups := nth_res (threadGroups r) tid in
  match groups with
  | n :: _ =>
      if (n =? 0)%Z then Ok None
      else
        let! insts := nth_res (instList r) tid in
        let! x := get_at (hd_error insts) "instList[tid].size() > 0" in
        do! assert_ (ri_inROB x) "(*head_thread)->isInROB()" in
        Ok (Some x)
  | [] => Ok None
  end.

Definition readTailInst (r : ROB) (tid : Z) : res RobInst :=
  let! insts := nth_res (instList r) tid in get_at (last insts) "end()".

Definition findInst (r : ROB) (tid seqnum : Z) : res (option RobInst) :=
  let! insts := nth_res (instList r) tid in
  Ok (find (λ x, ri_seq x =? seqnum)%Z insts).

Definition drainSanityCheck (r : ROB) : res unit :=
  do! assert_ (forallb (λ l, bool_decide (length l = 0%nat)) (take (rob_threads p) (instList r)))
        "instList[tid].empty()" in
  assert_ (isEmpty r) "isEmpty()".

(** [ROB::resetEntries] *)
Definition resetEntries (r : ROB) (active : list Z) : res ROB :=
  if negb (bool_decide (robPolicy p = Dynamic)) || (1 <? rob_threads p)%nat then
    let n := Z.of_nat (length active) in
    let! ms := res_fold (λ ms t,
      match robPolicy p with
      | Partitioned => set_nth ms t (numEntries p / n)%Z
      | Threshold => if (n =? 1)%Z then set_nth ms t (numEntries p) else Ok ms
      | Dynamic => Ok ms
      end) (maxEntries r) active in
    Ok (mkROB (threadGroups r) (instList r) ms (lastInsertCycle r) (dynSquashWidth r)
          (squashIt r) (squashedSeqNum r) (doneSquashing r) (numInstsInROB r) (robStatus r)
          (rob_head r) (rob_tail r))
  else Ok r.

Definition entryAmount (num_threads : Z) : Z :=
  match robPolicy p with Partitioned => (numEntries p / num_threads)%Z | _ => 0%Z end.

End WithParams.
End Rob.
