(* ===== verification/RobInv.v ===== *)
(** Groups and squash walks of the reorder buffer.

    The counters of [threadGroups] cut a thread's instructions into segments that
    the compression policy allows; every operation keeps this. *)
From Stdlib Require Import Sorted.
From S2P Require Import Prelude Double RegFile Inst Comm Rob.
Import Rob.

Module RobInv.

(** ** Segments *)

Section WithParams.

Context (p : RobParams).

(** What the compression policies promise of a group: under [kmhv2] memory
    references, branches and non-speculative instructions are alone and a group is of
    one fetch target; under [MohBoE] memory references and non-speculative
    instructions come first and branches last. *)
Definition policy_ok (s : list RobInst) : Prop :=
  match robCompress p with
  | none | kmhv3 => True
  | kmhv2 =>
      (∀ x, x ∈ s → exclusive (ri x) = true → length s = 1) ∧
      ∀ x y, x ∈ s → y ∈ s → ftqId (ri x) = ftqId (ri y)
  | MohBoE =>
      (∀ i x, s !! i = Some x → isMemRef (ri x) || isNonSpeculative (ri x) = true → i = 0) ∧
      ∀ i x, s !! i = Some x → isControl (ri x) = true → S i = length s
  end.

Definition seg_ok (s : list RobInst) : Prop :=
  s ≠ [] ∧ (Z.of_nat (length s) ≤ instsPerGroup p)%Z ∧ policy_ok s.

(** The counters and the instructions of a thread. *)
Definition cut (gs : list Z) (l : list RobInst) : Prop :=
  ∃ ss, l = concat ss ∧ gs = map (λ s, Z.of_nat (length s)) ss ∧ Forall seg_ok ss.

Lemma policy_tail x s : policy_ok (x :: s) → policy_ok s.
Proof.
  unfold policy_ok. destruct (robCompress p); try done.
  - intros [H1 H2]. split.
    + intros y Hy He. pose proof (H1 y (list_elem_of_further _ _ _ Hy) He) as Hl. simpl in Hl.
      destruct s; [by apply elem_of_nil in Hy|simpl in Hl; lia].
    + intros y z Hy Hz. apply H2; by right.
  - intros [H1 H2]. split.
    + intros i y Hy He. by pose proof (H1 (S i) y Hy He).
    + intros i y Hy He. pose proof (H2 (S i) y Hy He) as Hl. simpl in Hl. lia.
Qed.

Lemma policy_init s x : policy_ok (s ++ [x]) → policy_ok s.
Proof.
  unfold policy_ok. destruct (robCompress p); try done.
  - intros [H1 H2]. split.
    + intros y Hy He. pose proof (H1 y ltac:(set_solver) He) as Hl.
      rewrite length_app in Hl. destruct s; [by apply elem_of_nil in Hy|simpl in Hl; lia].
    + intros y z Hy Hz. apply H2; set_solver.
  - intros [H1 H2]. split.
    + intros i y Hy He. eapply H1; [|exact He]. by apply lookup_app_l_Some.
    + intros i y Hy He. pose proof (H2 i y (lookup_app_l_Some _ _ _ _ Hy) He) as Hl.
      apply lookup_lt_Some in Hy. rewrite length_app in Hl. simpl in Hl. lia.
Qed.

Lemma seg_tail x s : seg_ok (x :: s) → s ≠ [] → seg_ok s.
Proof.
  intros (_ & Hl & Hp) Hne. split; [done|]. simpl in Hl. split; [lia|]. by eapply policy_tail.
Qed.

Lemma seg_init s x : seg_ok (s ++ [x]) → s ≠ [] → seg_ok s.
Proof.
  intros (_ & Hl & Hp) Hne. split; [done|]. rewrite length_app in Hl. simpl in Hl.
  split; [lia|]. by eapply policy_init.
Qed.

Lemma cut_nil gs : cut gs [] → gs = [].
Proof.
  intros (ss & Hl & -> & Hf). destruct ss as [|s ss]; [done|]. simpl in Hl.
  inversion_clear Hf as [|? ? (Hne & _) _]. by destruct s.
Qed.

Lemma cut_empty l : cut [] l → l = [].
Proof. intros (ss & -> & Hg & _). by destruct ss. Qed.

Lemma cut_sum gs l : cut gs l → sumZ id gs = Z.of_nat (length l).
Proof.
  intros (ss & -> & -> & _). induction ss as [|s ss IH]; [done|]. simpl.
  rewrite sumZ_cons, length_app, IH. unfold id. lia.
Qed.

Lemma cut_range gs l : cut gs l → Forall (λ g, 1 ≤ g ≤ instsPerGroup p)%Z gs.
Proof.
  intros (ss & _ & -> & Hf). apply Forall_map. eapply Forall_impl; [exact Hf|].
  intros s (Hne & Hl & _). destruct s; [done|]. simpl in *. lia.
Qed.

Lemma cut_length gs l : cut gs l → (Z.of_nat (length gs) ≤ Z.of_nat (length l))%Z ∧
  (Z.of_nat (length l) ≤ Z.of_nat (length gs) * instsPerGroup p)%Z.
Proof.
  intros Hc. pose proof (cut_range _ _ Hc) as Hr. rewrite <- (cut_sum _ _ Hc). clear Hc.
  induction Hr as [|g gs Hg Hr IH]; [done|]. rewrite sumZ_cons. unfold id at 1 3.
  simpl length. split; nia.
Qed.

(** ** Retirement, squashing and insertion of one instruction *)

Lemma commitGroup_cut gs x l :
  cut gs (x :: l) → ∃ gs', commitGroup gs = Ok gs' ∧ cut gs' l.
Proof.
  intros (ss & Hl & -> & Hf). destruct ss as [|s ss]; [done|].
  inversion_clear Hf as [|? ? Hs Hss]. destruct s as [|y s]; [by destruct Hs|].
  simpl in Hl. injection Hl as <- ->. simpl.
  destruct s as [|z s].
  - simpl. eexists. split; [done|]. by exists ss.
  - rewrite (proj2 (Z.eqb_neq _ _)) by (simpl; lia). eexists. split; [done|].
    exists ((z :: s) :: ss). split; [done|]. split; [simpl; f_equal; lia|].
    constructor; [|done]. by eapply seg_tail.
Qed.

Lemma squashGroup_cut gs l x :
  cut gs (l ++ [x]) → ∃ gs', squashGroup gs = Ok gs' ∧ cut gs' l.
Proof.
  intros (ss & Hl & -> & Hf). destruct ss as [|s ss _] using rev_ind;
    [simpl in Hl; by destruct l|].
  apply Forall_app in Hf as [Hss Hs]. rewrite Forall_singleton in Hs.
  destruct s as [|y s _] using rev_ind; [by destruct Hs|].
  rewrite concat_app in Hl. simpl in Hl. rewrite app_nil_r, app_assoc in Hl.
  apply app_inj_tail in Hl as [-> ->].
  unfold squashGroup. rewrite map_app. simpl. rewrite last_snoc, removelast_last, length_app.
  destruct (decide (s = [])) as [->|Hne].
  - simpl. eexists. split; [done|]. exists ss. by rewrite app_nil_r.
  - assert (length s ≠ 0) by by destruct s.
    rewrite (proj2 (Z.eqb_neq _ _)) by (simpl; lia). eexists. split; [done|].
    exists (ss ++ [s]). rewrite concat_app, map_app. simpl. rewrite app_nil_r.
    split; [done|]. split; [do 2 f_equal; lia|]. apply Forall_app. split; [done|].
    apply Forall_singleton. by eapply seg_init.
Qed.

Lemma cut_new gs l x :
  (1 ≤ instsPerGroup p)%Z → cut gs l → cut (gs ++ [1%Z]) (l ++ [x]).
Proof.
  intros Hi (ss & -> & -> & Hf). exists (ss ++ [[x]]). rewrite concat_app, map_app.
  split; [done|]. split; [done|]. apply Forall_app. split; [done|].
  apply Forall_singleton. split; [done|]. split; [done|]. unfold policy_ok.
  destruct (robCompress p); try done.
  - split; [done|]. intros a b ->%list_elem_of_singleton ->%list_elem_of_singleton. done.
  - split; intros [|i] a; done.
Qed.

Lemma cut_extend gs l prev x n :
  cut gs (l ++ [prev]) → last gs = Some n → (n < instsPerGroup p)%Z →
  (∀ s, policy_ok (s ++ [prev]) → policy_ok ((s ++ [prev]) ++ [x])) →
  cut (removelast gs ++ [(n + 1)%Z]) ((l ++ [prev]) ++ [x]).
Proof.
  intros (ss & Hl & -> & Hf) Hn Hlt Hp. destruct ss as [|s ss _] using rev_ind;
    [simpl in Hl; by destruct l|].
  apply Forall_app in Hf as [Hss Hs]. rewrite Forall_singleton in Hs.
  destruct s as [|y s _] using rev_ind; [by destruct Hs|].
  rewrite concat_app in Hl. simpl in Hl. rewrite app_nil_r, app_assoc in Hl.
  apply app_inj_tail in Hl as [-> ->].
  rewrite map_app in *. simpl in *. rewrite last_snoc in Hn. injection Hn as <-.
  rewrite removelast_last. exists (ss ++ [(s ++ [y]) ++ [x]]). rewrite concat_app, map_app.
  simpl. rewrite app_nil_r, !app_assoc. split; [done|].
  split; [rewrite !length_app; simpl; do 2 f_equal; lia|].
  apply Forall_app. split; [done|]. apply Forall_singleton. destruct Hs as (_ & Hsl & Hsp).
  split; [by destruct s|]. rewrite length_app in *. simpl in *.
  split; [rewrite length_app in *; simpl in *; lia|by apply Hp].
Qed.

Lemma extend_kmhv2 s prev x :
  robCompress p = kmhv2 → exclusive (ri prev) = false → exclusive (ri x) = false →
  ftqId (ri prev) = ftqId (ri x) → policy_ok (s ++ [prev]) → policy_ok ((s ++ [prev]) ++ [x]).
Proof.
  unfold policy_ok. intros -> Hep Hex Hq [H1 H2].
  assert (∀ y, y ∈ s ++ [prev] → exclusive (ri y) = false) as Hno.
  { intros y Hy. destruct (exclusive (ri y)) eqn:E; [|done].
    pose proof (H1 y Hy E) as Hl. rewrite length_app in Hl. simpl in Hl.
    destruct s; [|simpl in Hl; lia]. apply list_elem_of_singleton in Hy as ->. congruence. }
  assert (∀ y, y ∈ (s ++ [prev]) ++ [x] → ftqId (ri y) = ftqId (ri prev)) as Hall.
  { intros y [Hy| ->%list_elem_of_singleton]%elem_of_app; [apply H2; set_solver|done]. }
  split.
  - intros y [Hy| ->%list_elem_of_singleton]%elem_of_app He; [|congruence].
    rewrite (Hno y Hy) in He. done.
  - intros y z Hy Hz. by rewrite (Hall y Hy), (Hall z Hz).
Qed.

Lemma extend_MohBoE s prev x :
  robCompress p = MohBoE → isControl (ri prev) = false →
  isMemRef (ri x) || isNonSpeculative (ri x) = false →
  policy_ok (s ++ [prev]) → policy_ok ((s ++ [prev]) ++ [x]).
Proof.
  unfold policy_ok. intros -> Hcp Hmx [H1 H2]. split.
  - intros i y Hy He. apply lookup_app_Some in Hy as [Hy|[Hi Hy]]; [by eapply H1|].
    apply list_lookup_singleton_Some in Hy as [_ <-]. congruence.
  - intros i y Hy He. apply lookup_app_Some in Hy as [Hy|[Hi Hy]].
    + pose proof (H2 i y Hy He) as Hl. rewrite length_app in Hl. simpl in Hl.
      assert (i = length s) as -> by lia. rewrite list_lookup_middle in Hy by done.
      injection Hy as <-. congruence.
    + apply list_lookup_singleton_Some in Hy as [Hi' <-]. rewrite !length_app in *. simpl in *. lia.
Qed.

(** The new counters after the insertion of [inst]. *)
Definition grow (gs : list Z) (alloc : bool) : res (list Z) :=
  if alloc then Ok (gs ++ [1%Z])
  else
    match last gs with
    | None => ub
    | Some n =>
        do! assert_ (n <? instsPerGroup p)%Z "threadGroups[tid].back() < instsPerGroup" in
        Ok (removelast gs ++ [(n + 1)%Z])
    end.

Lemma grow_extend gs l prev x n :
  cut gs (l ++ [prev]) → last gs = Some n → (instsPerGroup p <=? n)%Z = false →
  (∀ s, policy_ok (s ++ [prev]) → policy_ok ((s ++ [prev]) ++ [x])) →
  ∃ gs', grow gs false = Ok gs' ∧ cut gs' ((l ++ [prev]) ++ [x]).
Proof.
  intros Hc Hn Hlt%Z.leb_gt Hp. unfold grow. rewrite Hn, (proj2 (Z.ltb_lt _ _) Hlt).
  eexists. split; [done|]. by apply cut_extend.
Qed.

Lemma insert_cut gs l x lastc now :
  (1 ≤ instsPerGroup p)%Z → cut gs l →
  ∃ alloc gs', allocateNewGroup p gs (last l) (ri x) lastc now = Ok alloc ∧
    grow gs alloc = Ok gs' ∧ cut gs' (l ++ [x]).
Proof.
  intros Hi Hc. unfold allocateNewGroup, allocateGroup_kmhv2, allocateGroup_MohBoE,
    allocateGroup_kmhv3.
  assert (∃ gs', grow gs true = Ok gs' ∧ cut gs' (l ++ [x])) as (gs1 & Hg1 & Hc1).
  { eexists. split; [done|]. by apply cut_new. }
  destruct (last gs) as [n|] eqn:Hn.
  2: { exists true, gs1. split; [by destruct (robCompress p)|done]. }
  destruct l as [|prev l _] using rev_ind; [by rewrite (cut_nil _ Hc) in Hn|].
  rewrite last_snoc.
  destruct (robCompress p) eqn:Ep.
  - by exists true, gs1.
  - destruct (exclusive (ri x)) eqn:Ex; [by exists true, gs1|]. cbn [get_at res_bind].
    destruct (_ || _ || _ || _) eqn:Eo; [by exists true, gs1|]. exists false.
    apply orb_false_iff in Eo as [[[E1 E2]%orb_false_iff E3]%orb_false_iff E4].
    apply negb_false_iff, Z.eqb_eq in E2.
    destruct (grow_extend gs l prev x n Hc Hn E4) as (gs2 & Hg2 & Hc2); [|by exists gs2].
    intros s. by apply extend_kmhv2.
  - destruct (isMemRef (ri x) || isNonSpeculative (ri x)) eqn:Ex; [by exists true, gs1|].
    cbn [get_at res_bind]. destruct (_ || _ || _) eqn:Eo; [by exists true, gs1|]. exists false.
    apply orb_false_iff in Eo as [[E1 E2]%orb_false_iff E3].
    destruct (grow_extend gs l prev x n Hc Hn E3) as (gs2 & Hg2 & Hc2); [|by exists gs2].
    intros s. by apply extend_MohBoE.
  - destruct (_ || _) eqn:Eo; [by exists true, gs1|]. exists false.
    apply orb_false_iff in Eo as [E1 E2].
    destruct (grow_extend gs l prev x n Hc Hn E2) as (gs2 & Hg2 & Hc2); [|by exists gs2].
    intros s. unfold policy_ok. by rewrite Ep.
Qed.

(** ** The walk of a squash *)

Definition sorted (l : list RobInst) : Prop := StronglySorted Z.lt (map ri_seq l).

Lemma sorted_app l1 l2 :
  sorted (l1 ++ l2) ↔ sorted l1 ∧ sorted l2 ∧
    ∀ x y, x ∈ l1 → y ∈ l2 → (ri_seq x < ri_seq y)%Z.
Proof.
  unfold sorted. rewrite map_app. induction l1 as [|a l1 IH]; simpl.
  - split; [|tauto]. intros H. split; [constructor|]. split; [done|]. by intros x y ?%elem_of_nil.
  - split.
    + intros H. apply StronglySorted_inv in H as [H Ha]. apply IH in H as (H1 & H2 & H3).
      apply Forall_app in Ha as [Ha1 Ha2]. split; [by constructor|]. split; [done|].
      intros x y [->|Hx]%elem_of_cons Hy; [|by apply H3].
      rewrite Forall_forall in Ha2. apply Ha2. by apply list_elem_of_fmap_2.
    + intros (H1 & H2 & H3). apply StronglySorted_inv in H1 as [H1 Ha]. constructor.
      * apply IH. split; [done|]. split; [done|]. intros x y Hx. apply H3. by right.
      * apply Forall_app. split; [done|]. apply Forall_forall.
        intros z (y & -> & Hy)%list_elem_of_fmap. apply H3; [by left|done].
Qed.

(** In a sorted list the last node is found at its position. *)
Lemma node_last l x : sorted (l ++ [x]) → node (l ++ [x]) (ri_seq x) = Ok (length l, x).
Proof.
  intros (_ & _ & Hlt)%sorted_app. unfold node.
  assert (list_find (λ y, ri_seq y = ri_seq x) (l ++ [x]) = Some (length l, x)) as ->; [|done].
  apply list_find_Some. rewrite list_lookup_middle by done. split; [done|]. split; [done|].
  intros j y Hy Hj. rewrite lookup_app_l in Hy by done.
  specialize (Hlt y x (list_elem_of_lookup_2 _ _ _ Hy) (list_elem_of_here _ _)). lia.
Qed.

(** The walk is at the youngest instruction. *)
Record walking (w : Walk) (l : list RobInst) (x : RobInst) : Prop := {
  wk_insts : w_insts w = l ++ [x];
  wk_it : w_it w = ri_seq x;
  wk_sorted : sorted (l ++ [x]);
  wk_cut : cut (w_groups w) (l ++ [x])
}.

(** What a walk with the limit [sq] leaves: the youngest instructions [rem] are
    gone. *)
Record walked (n : nat) (sq : Z) (w w' : Walk) (keep rem : list RobInst) (at_head : bool)
    : Prop := {
  wd_split : w_insts w = keep ++ rem;
  wd_insts : w_insts w' = keep;
  wd_cut : cut (w_groups w') keep;
  wd_num : w_num w' = (w_num w - Z.of_nat (length rem))%Z;
  wd_out : w_out w' = w_out w ++ map squashed_inst (rev rem);
  wd_young : Forall (λ x, sq < ri_seq x)%Z rem;
  wd_le : length rem ≤ n;
  wd_stop : if at_head then keep = []
            else ∃ l y, keep = l ++ [y] ∧ w_it w' = ri_seq y ∧
              (length rem = n ∨ (ri_seq y ≤ sq)%Z)
}.

Lemma squash_loop_spec sq n : ∀ w l x,
  walking w l x →
  ∃ w' keep rem at_head, squash_loop n sq w = Ok (w', at_head) ∧
    walked n sq w w' keep rem at_head.
Proof.
  induction n as [|n IH]; intros w l x [Hw Hit Hs Hc].
  { exists w, (l ++ [x]), [], false. split; [done|]. split; try done.
    - by rewrite app_nil_r.
    - simpl. lia.
    - simpl. by rewrite app_nil_r.
    - exists l, x. split; [done|]. split; [done|]. by left. }
  cbn [squash_loop]. rewrite Hw, Hit, node_last by done. cbn [res_bind].
  destruct (Z.ltb_spec sq (ri_seq x)) as [Hlt|Hge].
  2: { exists w, (l ++ [x]), [], false. split; [done|]. split; try done.
       - by rewrite app_nil_r.
       - simpl. lia.
       - simpl. by rewrite app_nil_r.
       - simpl. lia.
       - exists l, x. split; [done|]. split; [done|]. by right. }
  destruct (squashGroup_cut _ _ _ Hc) as (gs' & -> & Hc'). cbn [res_bind].
  rewrite delete_middle, app_nil_r.
  destruct l as [|y l _] using rev_ind.
  { cbn [length]. eexists _, [], [x], true. split; [done|]. split; simpl; try done.
    - by constructor.
    - lia. }
  rewrite length_app. replace (length l + length [y]) with (S (length l)) by (simpl; lia).
  cbn iota beta. rewrite (lookup_app_l (l ++ [y])) by (rewrite length_app; simpl; lia).
  rewrite (list_lookup_middle l [] y) by done. cbn [get_at res_bind].
  edestruct (IH (mkWalk (l ++ [y]) gs' (w_num w - 1) (ri_seq y)
    (w_tail w || bool_decide (option_map ri_seq (last ((l ++ [y]) ++ [x])) = Some (ri_seq x)))
    (w_out w ++ [squashed_inst x])) l y) as (w' & keep & rem & ah & Hr & [D1 D2 D3 D4 D5 D6 D7 D8]).
  { split; try done. by apply sorted_app in Hs as (? & _ & _). }
  exists w', keep, (rem ++ [x]), ah. split; [exact Hr|]. simpl in *. split; try done.
  - by rewrite Hw, D1, <- app_assoc.
  - rewrite D4, length_app. simpl. lia.
  - rewrite D5, rev_app_distr. simpl. by rewrite <- app_assoc.
  - apply Forall_app. split; [done|by constructor].
  - rewrite length_app. simpl. lia.
  - destruct ah; [done|]. destruct D8 as (l' & y' & -> & Hy & Hd). exists l', y'.
    split; [done|]. split; [done|]. rewrite length_app. simpl. destruct Hd; [left; lia|by right].
Qed.

End WithParams.
End RobInv.
