(* ===== verification/RobProps.v ===== *)
(** What the reorder buffer guarantees.

    Every operation keeps the counters, the groups and the squash walk consistent;
    instructions leave in program order, each once; a squash removes exactly the
    younger instructions in a bounded number of cycles. *)
From Stdlib Require Import Sorted.
From S2P Require Import Prelude Double RegFile Inst Comm Rob RobInv.
Import Rob RobInv.

Module RobProps.

(** ** The invariant *)

Definition live (x : RobInst) : Prop := ri_inROB x = true ∧ squashed (ri x) = false.

Section WithParams.

Context (p : RobParams) (Hipg : (1 ≤ instsPerGroup p)%Z).

Record thread_ok (gs : list Z) (l : list RobInst) (it : option Z) (d : bool) : Prop := {
  th_cut : cut p gs l;
  th_sorted : sorted l;
  th_live : Forall live l;
  th_it : if d then it = None else ∃ l' x, l = l' ++ [x] ∧ it = Some (ri_seq x)
}.

Definition total (ls : list (list RobInst)) : Z := sumZ (λ l, Z.of_nat (length l)) ls.

Record rob_inv (r : ROB) : Prop := {
  rv_groups : length (threadGroups r) = MaxThreads;
  rv_insts : length (instList r) = MaxThreads;
  rv_its : length (squashIt r) = MaxThreads;
  rv_seqs : length (squashedSeqNum r) = MaxThreads;
  rv_done : length (doneSquashing r) = MaxThreads;
  rv_status : length (robStatus r) = MaxThreads;
  rv_num : numInstsInROB r = total (instList r);
  rv_width : (0 < dynSquashWidth r)%Z;
  rv_thread t gs l it d :
    threadGroups r !! t = Some gs → instList r !! t = Some l →
    squashIt r !! t = Some it → doneSquashing r !! t = Some d → thread_ok gs l it d
}.

(** The parts of a thread. *)
Record view (r : ROB) (t : nat) (gs : list Z) (l : list RobInst) (it : option Z) (sq : Z)
    (d : bool) : Prop := {
  vw_groups : threadGroups r !! t = Some gs;
  vw_insts : instList r !! t = Some l;
  vw_it : squashIt r !! t = Some it;
  vw_seq : squashedSeqNum r !! t = Some sq;
  vw_done : doneSquashing r !! t = Some d
}.

Lemma view_exists r t :
  rob_inv r → t < MaxThreads → ∃ gs l it sq d, view r t gs l it sq d ∧ thread_ok gs l it d.
Proof.
  intros Hr Ht.
  destruct (lookup_lt_is_Some_2 (threadGroups r) t) as [gs Hg]; [by rewrite (rv_groups _ Hr)|].
  destruct (lookup_lt_is_Some_2 (instList r) t) as [l Hl]; [by rewrite (rv_insts _ Hr)|].
  destruct (lookup_lt_is_Some_2 (squashIt r) t) as [it Hi]; [by rewrite (rv_its _ Hr)|].
  destruct (lookup_lt_is_Some_2 (squashedSeqNum r) t) as [sq Hs]; [by rewrite (rv_seqs _ Hr)|].
  destruct (lookup_lt_is_Some_2 (doneSquashing r) t) as [d Hd]; [by rewrite (rv_done _ Hr)|].
  exists gs, l, it, sq, d. split; [done|]. by eapply (rv_thread _ Hr).
Qed.

Lemma view_ok r t gs l it sq d : rob_inv r → view r t gs l it sq d → thread_ok gs l it d.
Proof. intros Hr []. by eapply (rv_thread _ Hr). Qed.

Lemma nth_view {A} (l : list A) (t : Z) a :
  (0 ≤ t)%Z → l !! Z.to_nat t = Some a → nth_res l t = Ok a ∧
  ∀ b, set_nth l t b = Ok (<[Z.to_nat t := b]> l).
Proof.
  intros Ht Hl. apply lookup_lt_Some in Hl as Hlt. split; [by apply nth_res_Ok|].
  intros b. unfold set_nth. by rewrite (proj2 (Z.leb_le 0 t)), (proj2 (Z.ltb_lt t _)) by lia.
Qed.

(** One thread changed. *)
Lemma inv_update r r' t gs l it sq d gs' l' it' d' :
  rob_inv r → view r t gs l it sq d →
  threadGroups r' = <[t := gs']> (threadGroups r) →
  instList r' = <[t := l']> (instList r) →
  squashIt r' = <[t := it']> (squashIt r) →
  doneSquashing r' = <[t := d']> (doneSquashing r) →
  length (squashedSeqNum r') = MaxThreads → length (robStatus r') = MaxThreads →
  numInstsInROB r' = (numInstsInROB r - Z.of_nat (length l) + Z.of_nat (length l'))%Z →
  (0 < dynSquashWidth r')%Z → thread_ok gs' l' it' d' → rob_inv r'.
Proof.
  intros Hr [V1 V2 V3 V4 V5] E1 E2 E3 E4 E5 E6 E7 E8 Hok.
  split; rewrite ?E1, ?E2, ?E3, ?E4, ?length_insert; try apply Hr; try done.
  - unfold total. rewrite E7, (sumZ_insert _ _ _ _ _ V2), (rv_num _ Hr). unfold total. lia.
  - intros u gs0 l0 it0 d0 H1 H2 H3 H4. destruct (decide (t = u)) as [<-|Hne].
    + apply list_lookup_insert_Some in H1 as [(_ & -> & _)|[? _]]; [|done].
      apply list_lookup_insert_Some in H2 as [(_ & -> & _)|[? _]]; [|done].
      apply list_lookup_insert_Some in H3 as [(_ & -> & _)|[? _]]; [|done].
      apply list_lookup_insert_Some in H4 as [(_ & -> & _)|[? _]]; [|done]. done.
    + rewrite list_lookup_insert_ne in H1 by done. rewrite list_lookup_insert_ne in H2 by done.
      rewrite list_lookup_insert_ne in H3 by done. rewrite list_lookup_insert_ne in H4 by done.
      by eapply (rv_thread _ Hr).
Qed.

(** ** Insertion *)

Lemma total_zero ls t l : total ls = 0%Z → ls !! t = Some l → l = [].
Proof.
  intros Hz Hl. assert (Z.of_nat (length l) ≤ total ls)%Z.
  { apply (sumZ_elem (λ l, Z.of_nat (length l))); [intros; lia|]. by eapply list_elem_of_lookup_2. }
  destruct l; [done|simpl in *; lia].
Qed.

(** Only the assertion on the number of instructions can fail. *)
Lemma insertInst_eq r x now gs l it sq d :
  rob_inv r → (0 ≤ threadNumber (ri x))%Z →
  view r (Z.to_nat (threadNumber (ri x))) gs l it sq d →
  ∃ gs' h, cut p gs' (l ++ [setInROB x]) ∧
    insertInst p r x now =
      do! assert_ (u32 (numInstsInROB r) <=? u32 (numEntries p * instsPerGroup p))%Z
            "numInstsInROB <= numEntries * instsPerGroup" in
      Ok (mkROB (<[Z.to_nat (threadNumber (ri x)) := gs']> (threadGroups r))
            (<[Z.to_nat (threadNumber (ri x)) := l ++ [setInROB x]]> (instList r))
            (maxEntries r) now (dynSquashWidth r) (squashIt r) (squashedSeqNum r)
            (doneSquashing r) (numInstsInROB r + 1) (robStatus r) h (Some (ri_seq x))).
Proof.
  intros Hr Ht V. pose proof (view_ok _ _ _ _ _ _ _ Hr V) as Hok. destruct V as [V1 V2 V3 V4 V5].
  destruct (insert_cut p gs l (setInROB x) (lastInsertCycle r) now Hipg (th_cut _ _ _ _ Hok))
    as (alloc & gs' & Ha & Hg & Hc).
  destruct (nth_view _ _ _ Ht V1) as [N1 S1]. destruct (nth_view _ _ _ Ht V2) as [N2 S2].
  exists gs', (if (numInstsInROB r =? 0)%Z then Some (ri_seq x) else rob_head r).
  split; [done|]. unfold insertInst. destruct (assert_ _ _) as [[]|]; [|done].
  cbn [res_bind]. rewrite N1. cbn [res_bind]. rewrite N2. cbn [res_bind].
  change (ri (setInROB x)) with (ri x) in Ha. rewrite Ha. cbn [res_bind].
  change (if alloc then _ else _) with (grow p gs alloc). rewrite Hg. cbn [res_bind].
  rewrite S1, S2. destruct (Z.eqb_spec (numInstsInROB r) 0) as [E|E]; [|done].
  rewrite (rv_num _ Hr) in E. rewrite (total_zero _ _ _ E V2). simpl.
  change (ri_seq (setInROB x)) with (ri_seq x). by rewrite Z.eqb_refl.
Qed.

Lemma insert_thread_ok gs gs' l x it :
  cut p gs' (l ++ [setInROB x]) → thread_ok gs l it true → squashed (ri x) = false →
  (∀ y, y ∈ l → (ri_seq y < ri_seq x)%Z) → thread_ok gs' (l ++ [setInROB x]) it true.
Proof.
  intros Hc [_ Hs Hl Hi] Hx Hlt. split; try done.
  - apply sorted_app. split; [done|]. split; [repeat constructor|].
    intros y z Hy ->%list_elem_of_singleton. by apply Hlt.
  - apply Forall_app. split; [done|]. by repeat constructor.
Qed.

(** ** Retirement *)

Lemma retireHead_inv r t active r' y gs l it sq :
  rob_inv r → (0 ≤ t)%Z → view r (Z.to_nat t) gs l it sq true →
  retireHead r t active = Ok (r', y) →
  rob_inv r' ∧ ∃ x rest, l = x :: rest ∧ y = retired x ∧ ri_canCommit x = true ∧
    instList r' = <[Z.to_nat t := rest]> (instList r).
Proof.
  intros Hr Ht V Hret. pose proof (view_ok _ _ _ _ _ _ _ Hr V) as Hok. pose proof V as [V1 V2 V3 V4 V5].
  destruct (nth_view _ _ _ Ht V1) as [N1 S1]. destruct (nth_view _ _ _ Ht V2) as [N2 S2].
  unfold retireHead in Hret. apply res_bind_Ok in Hret as ([] & _ & Hret).
  rewrite N2 in Hret. cbn [res_bind] in Hret. destruct l as [|x rest]; [done|].
  apply res_bind_Ok in Hret as ([] & Hcc & Hret). apply res_bind_Ok in Hret as ([] & _ & Hret).
  destruct (commitGroup_cut p gs x rest (th_cut _ _ _ _ Hok)) as (gs' & Hg & Hc).
  rewrite N1 in Hret. cbn [res_bind] in Hret. rewrite Hg in Hret. cbn [res_bind] in Hret.
  rewrite S1, S2 in Hret. cbn [res_bind] in Hret.
  apply res_bind_Ok in Hret as (h & _ & Hret). injection Hret as <- <-.
  split.
  - eapply (inv_update r _ (Z.to_nat t) gs (x :: rest) it sq true gs' rest it true Hr V); simpl;
      try done; try apply Hr.
    + by rewrite list_insert_id.
    + by rewrite list_insert_id.
    + lia.
    + destruct Hok as [_ Hs Hl Hi]. apply (sorted_app [x]) in Hs as (_ & Hs & _).
      split; try done. by inversion Hl.
  - exists x, rest. split; [done|]. split; [done|]. split; [|done].
    unfold assert_ in Hcc. by destruct (ri_canCommit x).
Qed.

(** ** Squashing *)

Context (Hwidth : (0 < squashWidth p)%Z).
Context (Hwalk : robWalkPolicy p = Rollback ∨ robWalkPolicy p = Replay ∨
                 robWalkPolicy p = ConstCycle).

Lemma computeDynSquashWidth_pos u k : (0 < computeDynSquashWidth p u k)%Z.
Proof. unfold computeDynSquashWidth. destruct Hwalk as [->|[->| ->]]; lia. Qed.

(** How many instructions of a thread are younger. *)
Definition younger (n : Z) (l : list RobInst) : nat := length (filter (λ x, n < ri_seq x)%Z l).

Lemma rob_squash_spec r n t gs l it sq d :
  rob_inv r → (0 ≤ t)%Z → view r (Z.to_nat t) gs l it sq d →
  ∃ r', squash p r n t = Ok r' ∧ rob_inv r' ∧ instList r' = instList r ∧
    (l = [] → r' = r) ∧
    ∀ l' x, l = l' ++ [x] →
      view r' (Z.to_nat t) gs l (Some (ri_seq x)) n false ∧
      dynSquashWidth r' = computeDynSquashWidth p
        (Z.of_nat (length l) - Z.of_nat (younger n l)) (Z.of_nat (younger n l)).
Proof.
  intros Hr Ht V. pose proof (view_ok _ _ _ _ _ _ _ Hr V) as Hok. pose proof V as [V1 V2 V3 V4 V5].
  destruct (nth_view _ _ _ Ht V1) as [N1 S1]. destruct (nth_view _ _ _ Ht V2) as [N2 S2].
  destruct (nth_view _ _ _ Ht V3) as [N3 S3]. destruct (nth_view _ _ _ Ht V4) as [N4 S4].
  destruct (nth_view _ _ _ Ht V5) as [N5 S5].
  unfold squash, isEmpty_thread. rewrite N1. cbn [res_bind].
  destruct (decide (gs = [])) as [->|Hne].
  { rewrite (cut_empty _ _ (th_cut _ _ _ _ Hok)). rewrite bool_decide_true by done.
    exists r. split; [done|]. split; [done|]. split; [done|]. split; [done|].
    intros l' x Hl. by destruct l'. }
  rewrite bool_decide_false by done. rewrite N2. cbn [res_bind].
  assert (∃ l' x, l = l' ++ [x]) as (l' & x & ->).
  { destruct l as [|x l' _] using rev_ind; [|by exists l', x].
    by rewrite (cut_nil _ _ (th_cut _ _ _ _ Hok)) in Hne. }
  destruct (lookup_lt_is_Some_2 (robStatus r) (Z.to_nat t)) as [st V6].
  { rewrite (rv_status _ Hr), <- (rv_groups _ Hr). by eapply lookup_lt_Some. }
  destruct (nth_view _ _ _ Ht V6) as [N6 S6].
  rewrite S6, S5, S4, last_snoc, S3. cbn [res_bind]. eexists. split; [done|].
  apply lookup_lt_Some in V3 as L3. apply lookup_lt_Some in V4 as L4.
  apply lookup_lt_Some in V5 as L5.
  split; [|split; [done|split; [by destruct l'|]]].
  - eapply (inv_update r _ (Z.to_nat t) gs (l' ++ [x]) it sq d gs (l' ++ [x]) _ false Hr V);
      simpl; try done.
    + by rewrite list_insert_id.
    + by rewrite list_insert_id.
    + rewrite length_insert. apply Hr.
    + rewrite length_insert. apply Hr.
    + lia.
    + apply computeDynSquashWidth_pos.
    + destruct Hok as [H1 H2 H3 _]. split; try done. by exists l', x.
  - intros l'' x' [-> ->]%app_inj_tail. split; [|done].
    split; simpl; try done; by rewrite list_lookup_insert_eq.
Qed.

Definition active_ok (active : list Z) : Prop :=
  Forall (λ t, (0 ≤ t)%Z ∧ Z.to_nat t < MaxThreads) active.

Lemma updateTail_total r active :
  length (instList r) = MaxThreads → active_ok active → ∃ t, updateTail r active = Ok t.
Proof.
  intros Hl Ha. unfold updateTail.
  match goal with |- ∃ t, res_fold ?f _ _ = _ => set (step := f) end.
  destruct (res_fold_inv step (λ _, True) active None) as (t & Ht & _); [done| |by exists t].
  intros best a Hin _. unfold active_ok in Ha. rewrite Forall_forall in Ha.
  destruct (Ha a Hin) as [Ha0 Hlt].
  destruct (lookup_lt_is_Some_2 (instList r) (Z.to_nat a)) as [l V]; [lia|].
  destruct (nth_view _ _ _ Ha0 V) as [N _]. unfold step. rewrite N. cbn [res_bind].
  destruct (last l); [destruct best|]; by eexists.
Qed.

(** The limit of one walk. *)
Definition walk_limit (r : ROB) (exiting : bool) : Z :=
  if exiting then u32 (numEntries p * instsPerGroup p) else dynSquashWidth r.

(** What one call of [doSquash] does to the thread. *)
Record one_walk (r r' : ROB) (t : nat) (l keep rem out : list RobInst) (sq : Z)
    (exiting : bool) (d : bool) : Prop := {
  ow_split : l = keep ++ rem;
  ow_out : out = map squashed_inst (rev rem);
  ow_young : Forall (λ x, sq < ri_seq x)%Z rem;
  ow_insts : instList r' = <[t := keep]> (instList r);
  ow_width : dynSquashWidth r' = dynSquashWidth r;
  ow_view : ∃ gs it, view r' t gs keep it sq d;
  ow_done : if d then Forall (λ x, ri_seq x ≤ sq)%Z keep
            else Z.of_nat (length rem) = walk_limit r exiting ∧
              ∃ y, last keep = Some y ∧ (sq < ri_seq y)%Z
}.

Lemma with_walk_eq r t w it d gs l it0 sq d0 :
  (0 ≤ t)%Z → view r (Z.to_nat t) gs l it0 sq d0 →
  with_walk r t w it d = Ok (mkROB (<[Z.to_nat t := w_groups w]> (threadGroups r))
    (<[Z.to_nat t := w_insts w]> (instList r)) (maxEntries r) (lastInsertCycle r)
    (dynSquashWidth r) (<[Z.to_nat t := it]> (squashIt r)) (squashedSeqNum r)
    (<[Z.to_nat t := d]> (doneSquashing r)) (w_num w) (robStatus r) (rob_head r) (rob_tail r)).
Proof.
  intros Ht [V1 V2 V3 V4 V5].
  destruct (nth_view _ _ _ Ht V1) as [_ S1]. destruct (nth_view _ _ _ Ht V2) as [_ S2].
  destruct (nth_view _ _ _ Ht V3) as [_ S3]. destruct (nth_view _ _ _ Ht V5) as [_ S5].
  unfold with_walk. by rewrite S1, S2, S3, S5.
Qed.

Lemma sorted_le l x n :
  sorted (l ++ [x]) → (ri_seq x ≤ n)%Z → Forall (λ y, ri_seq y ≤ n)%Z (l ++ [x]).
Proof.
  intros (_ & _ & Hlt)%sorted_app Hx. apply Forall_app. split; [|by constructor].
  apply Forall_forall. intros y Hy. specialize (Hlt y x Hy (list_elem_of_here _ _)). lia.
Qed.

(** The thread after a walk that kept [keep], and the rest of the buffer. *)
Lemma walk_result r t (w' : Walk) gs l x sq keep rem it' (d' : bool) ht ta exiting :
  rob_inv r → view r t gs (l ++ [x]) (Some (ri_seq x)) sq false →
  l ++ [x] = keep ++ rem → cut p (w_groups w') keep → w_insts w' = keep →
  w_num w' = (numInstsInROB r - Z.of_nat (length rem))%Z →
  Forall (λ x, sq < ri_seq x)%Z rem →
  (if d' then it' = None else ∃ l' y, keep = l' ++ [y] ∧ it' = Some (ri_seq y)) →
  (if d' then Forall (λ x, ri_seq x ≤ sq)%Z keep
   else Z.of_nat (length rem) = walk_limit r exiting ∧
     ∃ y, last keep = Some y ∧ (sq < ri_seq y)%Z) →
  let r' := mkROB (<[t := w_groups w']> (threadGroups r)) (<[t := w_insts w']> (instList r))
    (maxEntries r) (lastInsertCycle r) (dynSquashWidth r) (<[t := it']> (squashIt r))
    (squashedSeqNum r) (<[t := d']> (doneSquashing r)) (w_num w') (robStatus r) ht ta in
  rob_inv r' ∧
  one_walk r r' t (l ++ [x]) keep rem (map squashed_inst (rev rem)) sq exiting d'.
Proof.
  intros Hr V Hs Hc Hi Hn Hy Hit Hd r'. pose proof (view_ok _ _ _ _ _ _ _ Hr V) as Hok.
  destruct Hok as [_ Hso Hl _]. rewrite Hs in Hso, Hl. apply sorted_app in Hso as (Hso & _ & _).
  apply Forall_app in Hl as [Hl _]. split.
  - eapply (inv_update r r' t gs (l ++ [x]) _ sq false (w_groups w') keep it' d' Hr V); simpl;
      try done; try apply Hr.
    + by rewrite Hi.
    + rewrite Hn, Hs, length_app. lia.
  - destruct V as [V1 V2 V3 V4 V5]. apply lookup_lt_Some in V1, V2, V3, V5.
    split; try done; [simpl; by rewrite Hi|].
    exists (w_groups w'), it'. split; simpl; rewrite ?Hi; try done;
      by rewrite list_lookup_insert_eq.
Qed.

Lemma rob_doSquash_spec r t active exiting gs l it sq :
  rob_inv r → (0 ≤ t)%Z → view r (Z.to_nat t) gs l it sq false → active_ok active →
  ∃ r' out keep rem d, doSquash p r t active exiting = Ok (r', out) ∧ rob_inv r' ∧
    one_walk r r' (Z.to_nat t) l keep rem out sq exiting d.
Proof.
  intros Hr Ht V Ha. pose proof (view_ok _ _ _ _ _ _ _ Hr V) as Hok.
  destruct Hok as [Hc Hs _ (l' & x & -> & ->)]. pose proof V as [V1 V2 V3 V4 V5].
  destruct (nth_view _ _ _ Ht V1) as [N1 _]. destruct (nth_view _ _ _ Ht V2) as [N2 _].
  destruct (nth_view _ _ _ Ht V3) as [N3 _]. destruct (nth_view _ _ _ Ht V4) as [N4 _].
  unfold doSquash. rewrite N3. cbn [res_bind get_at]. rewrite N2, N1, N4. cbn [res_bind].
  rewrite node_last by done. cbn [res_bind snd].
  set (w0 := mkWalk (l' ++ [x]) gs (numInstsInROB r) (ri_seq x) false []).
  destruct (Z.ltb_spec (ri_seq x) sq) as [Hlt|Hge].
  { rewrite (with_walk_eq _ _ _ _ _ _ _ _ _ _ Ht V). cbn [res_bind].
    eexists _, [], (l' ++ [x]), [], true. split; [done|].
    eapply (walk_result r _ w0); try done.
    - by rewrite app_nil_r.
    - simpl. lia.
    - apply sorted_le; [done|lia]. }
  rewrite (proj2 (Z.eqb_neq _ _)) by (pose proof (rv_width _ Hr); lia). cbn [negb assert_ res_bind].
  destruct (squash_loop_spec p sq (Z.to_nat (walk_limit r exiting)) w0 l' x)
    as (w' & keep & rem & ah & Hrun & [D1 D2 D3 D4 D5 D6 D7 D8]); [done|].
  unfold walk_limit in Hrun. rewrite Hrun. cbn [res_bind]. simpl in D1, D5.
  assert (0 ≤ walk_limit r exiting)%Z as Hlim.
  { unfold walk_limit. pose proof (rv_width _ Hr). pose proof (wrapu_range 32
      (numEntries p * instsPerGroup p) ltac:(lia)) as Hu. unfold in_u in Hu. unfold u32. destruct exiting; lia. }
  destruct ah.
  - rewrite (with_walk_eq _ _ _ _ _ _ _ _ _ _ Ht V). cbn [res_bind]. rewrite D5.
    eexists _, _, keep, rem, true. split; [done|].
    eapply (walk_result r _ w'); try done. by rewrite D8.
  - destruct D8 as (l2 & y & Hk & Hy & Hd). rewrite D1, Hk in Hs.
    apply sorted_app in Hs as (Hs & _ & _).
    assert (node (w_insts w') (w_it w') = Ok (length l2, y)) as ->
      by (rewrite D2, Hy, Hk; by apply node_last).
    cbn [res_bind snd]. rewrite (with_walk_eq _ _ _ _ _ _ _ _ _ _ Ht V). cbn [res_bind].
    rewrite D5. match goal with |- context [if w_tail w' then ?u else ?e] =>
      assert (∃ ta, (if w_tail w' then u else e) = Ok ta) as [ta Hta] end.
    { destruct (w_tail w'); [|by eexists]. apply updateTail_total; [|done]. simpl.
      rewrite length_insert. apply Hr. }
    rewrite Hta. cbn [res_bind].
    eexists _, _, keep, rem, (ri_seq y <=? sq)%Z. split; [done|].
    eapply (walk_result r _ w' gs l' x sq keep rem); try done.
    + destruct (Z.leb_spec (ri_seq y) sq); [done|]. exists l2, y. by rewrite Hy.
    + destruct (Z.leb_spec (ri_seq y) sq) as [|Hgt]; [rewrite Hk; by apply sorted_le|].
      split; [lia|]. exists y. by rewrite Hk, last_snoc.
Qed.

End WithParams.
End RobProps.
