(* ===== verification/RobTrace.v ===== *)
(** The reorder buffer over a run of the commit stage.

    [reachable] are the states the commit stage can bring the buffer to, with the
    sequence numbers each thread has inserted, retired and squashed so far. *)
From Stdlib Require Import Sorted.
From S2P Require Import Prelude Double RegFile Inst Comm Rob RobInv RobProps.
Import Rob RobInv RobProps.

Module RobTrace.

(** ** Runs *)

(** A status change of an instruction, made by the stages that execute it. *)
Definition same_inst (x y : RobInst) : Prop :=
  staticInst (ri y) = staticInst (ri x) ∧ seqNum (ri y) = seqNum (ri x) ∧
  ftqId (ri y) = ftqId (ri x) ∧ ri_inROB y = ri_inROB x ∧
  squashed (ri y) = squashed (ri x).

Definition set_insts (r : ROB) (t : nat) (l : list RobInst) : ROB :=
  mkROB (threadGroups r) (<[t := l]> (instList r)) (maxEntries r) (lastInsertCycle r)
    (dynSquashWidth r) (squashIt r) (squashedSeqNum r) (doneSquashing r) (numInstsInROB r)
    (robStatus r) (rob_head r) (rob_tail r).

Record Hist := mkHist { h_in : list Z; h_ret : list Z; h_sq : list Z }.

Definition upd (H : nat → Hist) (t : nat) (h : Hist) : nat → Hist :=
  λ u, if decide (u = t) then h else H u.

Definition thread (t : Z) : Prop := (0 ≤ t)%Z ∧ Z.to_nat t < MaxThreads.

Inductive reachable (p : RobParams) : ROB → (nat → Hist) → Prop :=
  | rc_new r : ROB_new p = Ok r → reachable p r (λ _, mkHist [] [] [])
  | rc_insert r H x now r' t :
      reachable p r H → threadNumber (ri x) = t → thread t →
      doneSquashing r !! Z.to_nat t = Some true → squashed (ri x) = false →
      (∀ s, s ∈ h_in (H (Z.to_nat t)) → (s < ri_seq x)%Z) →
      insertInst p r x now = Ok r' →
      reachable p r' (upd H (Z.to_nat t) (mkHist (h_in (H (Z.to_nat t)) ++ [ri_seq x])
        (h_ret (H (Z.to_nat t))) (h_sq (H (Z.to_nat t)))))
  | rc_retire r H t active r' y :
      reachable p r H → thread t → doneSquashing r !! Z.to_nat t = Some true →
      retireHead r t active = Ok (r', y) →
      reachable p r' (upd H (Z.to_nat t) (mkHist (h_in (H (Z.to_nat t)))
        (h_ret (H (Z.to_nat t)) ++ [ri_seq y]) (h_sq (H (Z.to_nat t)))))
  | rc_squash r H n t r' :
      reachable p r H → thread t → squash p r n t = Ok r' → reachable p r' H
  | rc_walk r H t active exiting r' out :
      reachable p r H → thread t → doneSquashing r !! Z.to_nat t = Some false →
      active_ok active → doSquash p r t active exiting = Ok (r', out) →
      reachable p r' (upd H (Z.to_nat t) (mkHist (h_in (H (Z.to_nat t)))
        (h_ret (H (Z.to_nat t))) (h_sq (H (Z.to_nat t)) ++ map ri_seq out)))
  | rc_update r H t l l' :
      reachable p r H → instList r !! t = Some l → Forall2 same_inst l l' →
      reachable p (set_insts r t l') H
  | rc_entries r H active r' :
      reachable p r H → resetEntries p r active = Ok r' → reachable p r' H.

(** ** Status changes *)

Lemma same_exclusive x y : same_inst x y → exclusive (ri y) = exclusive (ri x) ∧
  isMemRef (ri y) = isMemRef (ri x) ∧ isNonSpeculative (ri y) = isNonSpeculative (ri x) ∧
  isControl (ri y) = isControl (ri x).
Proof.
  intros (Es & _). unfold exclusive, isMemRef, isNonSpeculative, isControl, isLoad, isStore, di_has.
  by rewrite Es.
Qed.

Lemma same_policy p s s' : Forall2 same_inst s s' → policy_ok p s → policy_ok p s'.
Proof.
  intros Hf. pose proof (Forall2_length _ _ _ Hf) as Hlen. unfold policy_ok.
  assert (∀ i y, s' !! i = Some y → ∃ x, s !! i = Some x ∧ same_inst x y) as Hat
    by (intros i y Hy; eapply Forall2_lookup_r; done).
  destruct (robCompress p); try done.
  - assert (∀ y, y ∈ s' → ∃ x, x ∈ s ∧ same_inst x y) as Hin.
    { intros y [i Hy]%list_elem_of_lookup_1. destruct (Hat i y Hy) as (x & Hx & Hs).
      exists x. split; [by eapply list_elem_of_lookup_2|done]. }
    intros [H1 H2]. rewrite <- Hlen. split.
    + intros y Hy He. destruct (Hin y Hy) as (x & Hx & Hs). apply (H1 x Hx).
      destruct (same_exclusive x y Hs) as [<- _]. done.
    + intros y z Hy Hz. destruct (Hin y Hy) as (x & Hx & (_ & _ & -> & _)).
      destruct (Hin z Hz) as (x' & Hx' & (_ & _ & -> & _)). by apply H2.
  - intros [H1 H2]. rewrite <- Hlen. split; intros i y Hy He;
      destruct (Hat i y Hy) as (x & Hx & Hs); pose proof (same_exclusive x y Hs) as (_ & E1 & E2 & E3).
    + rewrite E1, E2 in He. by eapply H1.
    + rewrite E3 in He. by eapply H2.
Qed.

Lemma same_cut p gs l l' : Forall2 same_inst l l' → cut p gs l → cut p gs l'.
Proof.
  intros Hf (ss & -> & -> & Hss). revert l' Hf.
  induction Hss as [|s ss Hs Hss IH]; intros l' Hf; simpl in Hf.
  - apply Forall2_nil_inv_l in Hf as ->. by exists [].
  - apply Forall2_app_inv_l in Hf as (s' & t' & Hs' & Ht & ->).
    destruct (IH t' Ht) as (ss' & -> & Eg & Hss'). exists (s' :: ss'). split; [done|].
    pose proof (Forall2_length _ _ _ Hs') as Hlen. simpl. rewrite Eg, Hlen. split; [done|].
    constructor; [|done]. destruct Hs as (Hne & Hl & Hp). split; [by destruct s, s'|].
    rewrite <- Hlen. split; [done|]. by eapply same_policy.
Qed.

Lemma same_seqs l l' : Forall2 same_inst l l' → map ri_seq l' = map ri_seq l.
Proof.
  intros Hf. induction Hf as [|x y l l' (_ & E & _) Hf IH]; [done|]. simpl. rewrite IH.
  unfold ri_seq. by rewrite E.
Qed.

Lemma update_inv p r t l l' :
  rob_inv p r → instList r !! t = Some l → Forall2 same_inst l l' → rob_inv p (set_insts r t l').
Proof.
  intros Hr Hl Hf. apply lookup_lt_Some in Hl as Hlt. rewrite (rv_insts _ _ Hr) in Hlt.
  destruct (view_exists p r t Hr Hlt) as (gs & l0 & it & sq & d & V & Hok).
  assert (l0 = l) as -> by (destruct V; congruence). pose proof V as [V1 V2 V3 V4 V5].
  eapply (inv_update p r _ t gs l it sq d gs l' it d Hr V); simpl; try done; try apply Hr.
  - by rewrite list_insert_id.
  - by rewrite list_insert_id.
  - by rewrite list_insert_id.
  - rewrite (Forall2_length _ _ _ Hf). lia.
  - destruct Hok as [H1 H2 H3 H4]. split.
    + by eapply same_cut.
    + unfold sorted. by rewrite (same_seqs _ _ Hf).
    + revert H3. clear -Hf. induction Hf as [|x y l l' (_ & _ & _ & E1 & E2) Hf IH]; [done|].
      intros [Hx Hl]%Forall_cons. constructor; [|by apply IH]. unfold live in *.
      by rewrite E1, E2.
    + destruct d; [done|]. destruct H4 as (l1 & x & -> & ->).
      apply Forall2_app_inv_l in Hf as (l2 & t2 & _ & Ht & ->).
      destruct t2 as [|y [|]]; inversion Ht as [|? ? ? ? Hxy Ht']; [|by inversion Ht'].
      exists l2, y. split; [done|]. destruct Hxy as (_ & E & _). unfold ri_seq. by rewrite E.
Qed.

(** ** The invariant along a run *)

(** Parameters the configurations use: a walk makes progress. *)
Record params_ok (p : RobParams) : Prop := {
  po_group : (1 ≤ instsPerGroup p)%Z;
  po_width : (0 < squashWidth p)%Z;
  po_walk : robWalkPolicy p = Rollback ∨ robWalkPolicy p = Replay ∨ robWalkPolicy p = ConstCycle
}.

Section Runs.

Context (p : RobParams) (Hp : params_ok p).

Lemma rob_new_inv r : ROB_new p = Ok r → rob_inv p r ∧ instList r = replicate MaxThreads [].
Proof.
  unfold ROB_new. intros Hn. apply res_bind_Ok in Hn as ([] & _ & Hn).
  apply res_bind_Ok in Hn as ([] & _ & Hn). injection Hn as <-. split; [|done].
  split; try done.
  intros t gs l it d Hg Hl Hi Hd.
  apply (lookup_replicate_1 MaxThreads) in Hg as [-> _].
  apply (lookup_replicate_1 MaxThreads) in Hl as [-> _].
  apply (lookup_replicate_1 MaxThreads) in Hi as [-> _].
  apply (lookup_replicate_1 MaxThreads) in Hd as [-> _].
  split; try done; [by exists []|constructor].
Qed.

Lemma entries_inv r active r' :
  rob_inv p r → resetEntries p r active = Ok r' → rob_inv p r' ∧ instList r' = instList r.
Proof.
  intros Hr He. unfold resetEntries in He. destruct (_ || _); [|by injection He as <-].
  apply res_bind_Ok in He as (ms & _ & He). injection He as <-. split; [|done].
  destruct Hr. by split.
Qed.

(** The view of a valid thread with a known status. *)
Lemma done_view r t d :
  rob_inv p r → thread t → doneSquashing r !! Z.to_nat t = Some d →
  ∃ gs l it sq, view r (Z.to_nat t) gs l it sq d ∧ thread_ok p gs l it d.
Proof.
  intros Hr [_ Ht] Hd. destruct (view_exists p r _ Hr Ht) as (gs & l & it & sq & d' & V & Hok).
  assert (d' = d) as -> by (destruct V; congruence). by exists gs, l, it, sq.
Qed.

(** What the history of one thread says about its instructions. *)
Record hist_ok (h : Hist) (l : list RobInst) : Prop := {
  ho_sorted : StronglySorted Z.lt (h_in h);
  ho_order : (h_ret h ++ map ri_seq l) `sublist_of` h_in h;
  ho_all : h_in h ≡ₚ h_ret h ++ h_sq h ++ map ri_seq l
}.

Definition run_inv (r : ROB) (H : nat → Hist) : Prop :=
  rob_inv p r ∧ ∀ t l, instList r !! t = Some l → hist_ok (H t) l.

Lemma run_update r r' H t h l' :
  run_inv r H → rob_inv p r' → instList r' = <[t := l']> (instList r) → hist_ok h l' →
  run_inv r' (upd H t h).
Proof.
  intros [_ Hh] Hr' E Hok. split; [done|]. intros u l Hl. rewrite E in Hl. unfold upd.
  apply list_lookup_insert_Some in Hl as [(<- & -> & _)|[Hne Hl]].
  - by destruct (decide (t = t)).
  - destruct (decide (u = t)); [congruence|by apply Hh].
Qed.

Lemma sorted_snoc l s :
  StronglySorted Z.lt l → (∀ x, x ∈ l → (x < s)%Z) → StronglySorted Z.lt (l ++ [s]).
Proof.
  induction 1 as [|a l Hl IH Ha]; intros Hs; simpl; [repeat constructor|]. constructor.
  - apply IH. intros x Hx. apply Hs. by right.
  - apply Forall_app. split; [done|]. constructor; [|done]. apply Hs. by left.
Qed.

Lemma hist_insert h l x :
  hist_ok h l → (∀ s, s ∈ h_in h → (s < ri_seq x)%Z) →
  hist_ok (mkHist (h_in h ++ [ri_seq x]) (h_ret h) (h_sq h)) (l ++ [setInROB x]).
Proof.
  intros [H1 H2 H3] Hs. split; simpl.
  - by apply sorted_snoc.
  - rewrite map_app, app_assoc. apply sublist_app; [done|]. done.
  - rewrite map_app, H3, <- !app_assoc. done.
Qed.

Lemma hist_retire h x l :
  hist_ok h (x :: l) → hist_ok (mkHist (h_in h) (h_ret h ++ [ri_seq x]) (h_sq h)) l.
Proof.
  intros [H1 H2 H3]. simpl in *. split; simpl; [done|by rewrite <- app_assoc|].
  rewrite H3, <- app_assoc. f_equiv. simpl. by rewrite Permutation_middle.
Qed.

Lemma hist_squash h keep rem :
  hist_ok h (keep ++ rem) →
  hist_ok (mkHist (h_in h) (h_ret h) (h_sq h ++ map ri_seq (map squashed_inst (rev rem)))) keep.
Proof.
  intros [H1 H2 H3]. rewrite map_app in *. split; simpl; [done| |].
  - etrans; [|exact H2]. apply sublist_app; [done|]. by apply sublist_inserts_r.
  - rewrite map_map. change (λ x, ri_seq (squashed_inst x)) with ri_seq.
    rewrite H3. f_equiv. rewrite <- app_assoc. f_equiv.
    rewrite (Permutation_app_comm (map ri_seq keep)). f_equiv. apply Permutation_map.
    by rewrite <- Permutation_rev.
Qed.

Lemma rob_reachable_inv r H : reachable p r H → run_inv r H.
Proof.
  pose proof Hp as [Hg Hw Hk].
  induction 1 as [r Hn|r H x now r' t _ IH <- Ht Hd Hsq Hs Hi|r H t active r' y _ IH Ht Hd Hret
    |r H n t r' _ IH Ht Hsq|r H t active ex r' out _ IH Ht Hd Ha Hw'|r H t l l' _ IH Hl Hf
    |r H active r' _ IH He].
  - destruct (rob_new_inv r Hn) as [Hr E]. split; [done|]. intros t l Hl. rewrite E in Hl.
    apply (lookup_replicate_1 MaxThreads) in Hl as [-> _]. by split; [constructor| |].
  - destruct (done_view r _ true (proj1 IH) Ht Hd) as (gs & l & it & sq & V & Hok).
    destruct (insertInst_eq p Hg r x now gs l it sq true (proj1 IH) (proj1 Ht) V)
      as (gs' & h & Hc & E). rewrite E in Hi. apply res_bind_Ok in Hi as ([] & _ & Hi).
    injection Hi as <-. pose proof V as [V1 V2 V3 V4 V5]. pose proof (proj2 IH _ _ V2) as Hh.
    eapply run_update; [exact IH| |done|by apply hist_insert].
    eapply (inv_update p r _ _ gs l it sq true gs' (l ++ [setInROB x]) it true (proj1 IH) V);
      simpl; try done; try apply (proj1 IH).
    + by rewrite list_insert_id.
    + by rewrite list_insert_id.
    + rewrite length_app. simpl. lia.
    + eapply insert_thread_ok; try done. intros y Hy. apply Hs.
      rewrite (ho_all _ _ Hh), !elem_of_app. right. right. by apply list_elem_of_fmap_2.
  - destruct (done_view r _ true (proj1 IH) Ht Hd) as (gs & l & it & sq & V & Hok).
    destruct (retireHead_inv p r t active r' y gs l it sq (proj1 IH) (proj1 Ht) V Hret)
      as (Hr' & x & rest & -> & -> & _ & E). destruct V as [_ V2 _ _ _].
    eapply run_update; [exact IH|done|done|]. by apply (hist_retire _ x), (proj2 IH _ _ V2).
  - destruct (view_exists p r _ (proj1 IH) (proj2 Ht)) as (gs & l & it & sq & d & V & _).
    destruct (rob_squash_spec p Hw Hk r n t gs l it sq d (proj1 IH) (proj1 Ht) V)
      as (r1 & E1 & Hr1 & El & _). rewrite Hsq in E1. injection E1 as <-.
    split; [done|]. rewrite El. apply IH.
  - destruct (done_view r _ false (proj1 IH) Ht Hd) as (gs & l & it & sq & V & Hok).
    destruct (rob_doSquash_spec p r t active ex gs l it sq (proj1 IH) (proj1 Ht) V Ha)
      as (r1 & out1 & keep & rem & d & E1 & Hr1 & [O1 O2 O3 O4 _ _ _]).
    rewrite Hw' in E1. injection E1 as <- <-. destruct V as [_ V2 _ _ _].
    eapply run_update; [exact IH|done|done|]. rewrite O2. apply hist_squash.
    rewrite <- O1. by apply (proj2 IH).
  - split; [by eapply update_inv; [apply IH|done|done]|]. intros u l0 Hl0. simpl in Hl0.
    apply list_lookup_insert_Some in Hl0 as [(<- & <- & _)|[_ Hl0]]; [|by apply IH].
    destruct (proj2 IH t l Hl) as [H1 H2 H3]. by split; rewrite ?(same_seqs _ _ Hf).
  - destruct (entries_inv r active r' (proj1 IH) He) as [Hr E]. split; [done|]. rewrite E. apply IH.
Qed.

Lemma run_hist r H t l :
  reachable p r H → instList r !! t = Some l →
  h_in (H t) ≡ₚ h_ret (H t) ++ h_sq (H t) ++ map ri_seq l ∧
  StronglySorted Z.lt (h_in (H t)) ∧
  (h_ret (H t) ++ map ri_seq l) `sublist_of` h_in (H t).
Proof. intros [_ Hh]%rob_reachable_inv Hl. by destruct (Hh t l Hl). Qed.

(** C5: In every state the commit stage can bring the buffer to, the instructions
    of a thread that were inserted are, each once, retired, squashed or still in the
    buffer, and those retired followed by those in the buffer are in program order:
    instructions retire in order and none is lost or duplicated. *)
Theorem rob_conservation r H t l :
  reachable p r H → instList r !! t = Some l →
  h_in (H t) ≡ₚ h_ret (H t) ++ h_sq (H t) ++ map ri_seq l ∧
  StronglySorted Z.lt (h_in (H t)) ∧
  (h_ret (H t) ++ map ri_seq l) `sublist_of` h_in (H t).
Proof. apply run_hist. Qed.

(** C33: In every such state the number of instructions is the sum over the threads,
    and the group counters of a thread cut its instructions into consecutive groups
    of at most [instsPerGroup] that the compression policy promises: under [kmhv2]
    loads, stores, branches and non-speculative instructions are alone in theirs and
    a group is of one fetch target, under [MohBoE] memory references come first and
    branches last.  No instruction in the buffer is marked squashed. *)
Theorem rob_groups_by_policy r H :
  reachable p r H →
  numInstsInROB r = total (instList r) ∧
  ∀ t gs l, threadGroups r !! t = Some gs → instList r !! t = Some l →
    (∃ ss, l = concat ss ∧ gs = map (λ s, Z.of_nat (length s)) ss ∧ Forall (seg_ok p) ss) ∧
    Forall live l.
Proof.
  intros [Hr _]%rob_reachable_inv. split; [apply Hr|]. intros t gs l Hg Hl.
  destruct (view_exists p r t Hr) as (gs' & l' & it & sq & d & [V1 V2 _ _ _] & Hok).
  { rewrite <- (rv_groups _ _ Hr). by eapply lookup_lt_Some. }
  assert (gs' = gs) as -> by congruence. assert (l' = l) as -> by congruence.
  split; [apply Hok|apply Hok].
Qed.

(** ** Finishing a squash *)

(** The cycles of the commit stage while the thread is squashing, at most [n]. *)
Fixpoint finish_squash (n : nat) (r : ROB) (t : Z) (active : list Z)
    : res (ROB * list RobInst) :=
  match n with
  | O => Ok (r, [])
  | S n' =>
      let! done := nth_res (doneSquashing r) t in
      if (done : bool) then Ok (r, [])
      else
        let! ro := doSquash p r t active false in
        let '(r', out) := ro in
        let! ro := finish_squash n' r' t active in
        let '(r'', out') := ro in
        Ok (r'', out ++ out')
  end.

Lemma younger_app n keep rem :
  Forall (λ x, n < ri_seq x)%Z rem → younger n (keep ++ rem) = younger n keep + length rem.
Proof.
  intros Hr. unfold younger. rewrite filter_app, length_app. f_equal. by rewrite filter_all.
Qed.

Lemma filter_le_young n (l : list RobInst) :
  Forall (λ x, n < ri_seq x)%Z l → filter (λ x, ri_seq x ≤ n)%Z l = [].
Proof. intros Hl. apply filter_none. eapply Forall_impl; [exact Hl|]. simpl. lia. Qed.

Lemma filter_young_le n (l : list RobInst) :
  Forall (λ x, ri_seq x ≤ n)%Z l → filter (λ x, n < ri_seq x)%Z l = [].
Proof. intros Hl. apply filter_none. eapply Forall_impl; [exact Hl|]. simpl. lia. Qed.

Lemma finish_done k r t active :
  (0 ≤ t)%Z → doneSquashing r !! Z.to_nat t = Some true → finish_squash k r t active = Ok (r, []).
Proof.
  intros Ht Hd. destruct k as [|k]; [done|]. simpl. by rewrite (proj1 (nth_view _ _ _ Ht Hd)).
Qed.

Lemma finish_spec k : ∀ r t active gs l it n,
  rob_inv p r → (0 ≤ t)%Z → view r (Z.to_nat t) gs l it n false → active_ok active → 1 ≤ k →
  (Z.of_nat (younger n l) ≤ Z.of_nat k * dynSquashWidth r)%Z →
  ∃ r' out, finish_squash k r t active = Ok (r', out) ∧
    doneSquashing r' !! Z.to_nat t = Some true ∧
    instList r' = <[Z.to_nat t := filter (λ x, ri_seq x ≤ n)%Z l]> (instList r) ∧
    out = map squashed_inst (rev (filter (λ x, n < ri_seq x)%Z l)).
Proof.
  induction k as [|k IH]; intros r t active gs l it n Hr Ht V Ha Hk Hy; [lia|].
  cbn [finish_squash]. rewrite (proj1 (nth_view _ _ _ Ht (vw_done _ _ _ _ _ _ _ V))).
  cbn [res_bind].
  destruct (rob_doSquash_spec p r t active false gs l it n Hr Ht V Ha)
    as (r1 & out1 & keep & rem & d & -> & Hr1 & [O1 O2 O3 O4 O5 (gs1 & it1 & V1) O7]).
  cbn [res_bind]. subst l out1. rewrite !filter_app, (filter_le_young n rem O3), app_nil_r.
  rewrite (filter_all _ rem) by done. destruct d.
  - rewrite finish_done by (done || apply V1). cbn [res_bind].
    exists r1. eexists. split; [done|]. split; [apply V1|]. rewrite app_nil_r.
    rewrite (filter_young_le n keep O7), filter_all by done. done.
  - destruct O7 as [Olen (y & Hlast & Hgt)]. simpl in Olen.
    rewrite (younger_app n keep rem O3) in Hy.
    assert (1 ≤ younger n keep) as Hone.
    { apply last_Some in Hlast as [l' ->]. unfold younger. rewrite filter_app, length_app.
      rewrite (filter_all _ [y]) by (by constructor). simpl. lia. }
    pose proof (rv_width _ _ Hr).
    destruct (IH r1 t active gs1 keep it1 n Hr1 Ht V1 Ha) as (r' & out' & -> & Hd & Hl & Ho).
    { destruct k; [lia|lia]. }
    { rewrite O5. lia. }
    cbn [res_bind]. exists r'. eexists. split; [done|]. split; [done|]. subst out'.
    rewrite Hl, O4, list_insert_insert_eq. split; [done|]. by rewrite rev_app_distr, map_app.
Qed.

(** C11: A squash of a thread down to sequence number [n] followed by the walks of
    the next cycles ends within [k] cycles for every positive [k] with
    [younger <= k * width], and then the thread holds exactly the instructions up to
    [n], the other threads are untouched, and the younger ones have been marked
    squashed and handed back youngest first. *)
Theorem rob_squash_exact r H t n l active k :
  reachable p r H → thread t → instList r !! Z.to_nat t = Some l → active_ok active →
  ∃ r0, squash p r n t = Ok r0 ∧
    (1 ≤ k → (Z.of_nat (younger n l) ≤ Z.of_nat k * dynSquashWidth r0)%Z →
     ∃ r' out, finish_squash k r0 t active = Ok (r', out) ∧
       doneSquashing r' !! Z.to_nat t = Some true ∧
       instList r' = <[Z.to_nat t := filter (λ x, ri_seq x ≤ n)%Z l]> (instList r) ∧
       out = map squashed_inst (rev (filter (λ x, n < ri_seq x)%Z l))).
Proof.
  intros [Hr _]%rob_reachable_inv [Ht0 Ht] Hl Ha.
  destruct (view_exists p r _ Hr Ht) as (gs & l' & it & sq & d & V & Hok).
  assert (l' = l) as -> by (destruct V; congruence).
  destruct (rob_squash_spec p (po_width _ Hp) (po_walk _ Hp) r n t gs l it sq d Hr Ht0 V)
    as (r0 & Hs & Hr0 & El & Hnil & Hcons).
  exists r0. split; [done|]. intros Hk Hy.
  destruct l as [|x l' _] using rev_ind.
  - assert (d = true) as ->.
    { destruct d; [done|]. destruct (th_it _ _ _ _ _ Hok) as (l' & x & E & _). by destruct l'. }
    pose proof (vw_done _ _ _ _ _ _ _ V) as Hd.
    rewrite (Hnil eq_refl) in *. exists r, []. rewrite finish_done by done.
    split; [done|]. split; [done|]. split; [|done]. by rewrite list_insert_id.
  - destruct (Hcons l' x eq_refl) as [V0 _]. rewrite <- El. by eapply finish_spec.
Qed.

(** C34: Under the [ConstCycle] policy the walk of a squash takes at most
    [constSquashCycle] cycles, however many instructions are younger. *)
Theorem rob_const_cycle r H t n l active :
  reachable p r H → thread t → instList r !! Z.to_nat t = Some l → active_ok active →
  robWalkPolicy p = ConstCycle → (0 < constSquashCycle p)%Z →
  (Z.of_nat (length l) < 2 ^ 32)%Z → l ≠ [] →
  ∃ r0 r' out, squash p r n t = Ok r0 ∧
    finish_squash (Z.to_nat (constSquashCycle p)) r0 t active = Ok (r', out) ∧
    doneSquashing r' !! Z.to_nat t = Some true.
Proof.
  intros [Hr _]%rob_reachable_inv [Ht0 Ht] Hl Ha Hpol Hc Hlen Hne.
  destruct (view_exists p r _ Hr Ht) as (gs & l' & it & sq & d & V & Hok).
  assert (l' = l) as -> by (destruct V; congruence).
  destruct (rob_squash_spec p (po_width _ Hp) (po_walk _ Hp) r n t gs l it sq d Hr Ht0 V)
    as (r0 & Hs & Hr0 & El & _ & Hcons).
  destruct l as [|x l' _] using rev_ind; [done|].
  destruct (Hcons l' x eq_refl) as [V0 Hw].
  set (k := Z.of_nat (younger n (l' ++ [x]))) in *.
  assert (0 ≤ k < 2 ^ 32)%Z as Hkb.
  { unfold k, younger. pose proof (length_filter (λ x, n < ri_seq x)%Z (l' ++ [x])). lia. }
  destruct (finish_spec (Z.to_nat (constSquashCycle p)) r0 t active gs (l' ++ [x]) _ n Hr0 Ht0 V0 Ha)
    as (r' & out & Hf & Hd & _); [lia| |by exists r0, r', out].
  rewrite Hw. unfold computeDynSquashWidth. rewrite Hpol, Z2Nat.id by lia. fold k.
  pose proof (Double.ceil_div_ge k (constSquashCycle p)).
  pose proof (Double.ceil_div_le k (constSquashCycle p)).
  unfold u32. rewrite wrapu_small by (unfold in_u; lia). nia.
Qed.

End Runs.
End RobTrace.
