(* ===== verification/Commit.v ===== *)
(** How the commit stage drives the reorder buffer.

    Models the part of [src/GEM5/src/cpu/o3/commit.cc] that moves instructions into
    and out of the reorder buffer: the squashes, the walk of a squash, the intake
    from rename, the choice of the thread to commit and the retirement of a head.
    What [commitHead] decides about the head instruction (it commits, it traps, it
    has to wait) is an input.  Instructions from rename are shared objects: a squash
    marks them in place, so the squash functions return the marked list. *)
From S2P Require Import Prelude Double RegFile Inst Comm CircularBuffer Rob.
Import Rob.

Module Commit.

Inductive ThreadStatus :=
  | Running | Idle | ROBSquashing | TrapPending | FetchTrapPending | SquashAfterPending.

#[export] Instance ThreadStatus_eq_dec : EqDecision ThreadStatus.
Proof. solve_decision. Defined.

Inductive CommitPolicy := RoundRobin | OldestReady.

Record CommitState (C : Type) := mkCommit {
  c_status : list ThreadStatus;          (** [commitStatus] *)
  c_fixed : list C;                      (** [fixedbuffer] *)
  c_rob : ROB;
  c_youngest : list Z;                   (** [youngestSeqNum] *)
  c_lastCommitted : list Z;              (** [lastCommitedSeqNum] *)
  c_priority : list Z;                   (** [priority_list] *)
  c_trapSquash : list bool;
  c_tcSquash : list bool;
  c_squashAfterInst : list (option RobInst);
  c_changed : list bool;                 (** [changedROBNumEntries] *)
  c_ver : Z                              (** [localSquashVer] *)
}.
#[global] Arguments mkCommit {C} _ _ _ _ _ _ _ _ _ _ _.
#[global] Arguments c_status {C} _.
#[global] Arguments c_fixed {C} _.
#[global] Arguments c_rob {C} _.
#[global] Arguments c_youngest {C} _.
#[global] Arguments c_lastCommitted {C} _.
#[global] Arguments c_priority {C} _.
#[global] Arguments c_trapSquash {C} _.
#[global] Arguments c_tcSquash {C} _.
#[global] Arguments c_squashAfterInst {C} _.
#[global] Arguments c_changed {C} _.
#[global] Arguments c_ver {C} _.

(** What a squash tells the other stages of a thread. *)
Record SquashSignal := mkSignal { sg_tid : Z; sg_doneSeqNum : Z; sg_version : Z }.

(** What IEW asks of a thread. *)
Record IewSquash := mkIewSquash { is_squash : bool; is_seqNum : Z; is_include : bool }.

(** What [commitHead] decides. *)
Inductive HeadOutcome :=
  | Commits (squash_after : bool)
  | Traps
  | Waits.

Section Stage.

Context (p : RobParams) (policy : CommitPolicy).
Context {C : Type} `{CircularBuffer C RobInst}.
Abbreviation State := (CommitState C).

Definition with_rob (s : State) (r : ROB) : State :=
  mkCommit (c_status s) (c_fixed s) r (c_youngest s) (c_lastCommitted s) (c_priority s)
    (c_trapSquash s) (c_tcSquash s) (c_squashAfterInst s) (c_changed s) (c_ver s).

Definition with_status (s : State) (st : list ThreadStatus) : State :=
  mkCommit st (c_fixed s) (c_rob s) (c_youngest s) (c_lastCommitted s) (c_priority s)
    (c_trapSquash s) (c_tcSquash s) (c_squashAfterInst s) (c_changed s) (c_ver s).

Definition set_status (s : State) (tid : Z) (st : ThreadStatus) : res State :=
  let! l := set_nth (c_status s) tid st in Ok (with_status s l).

Definition with_youngest (s : State) (l : list Z) : State :=
  mkCommit (c_status s) (c_fixed s) (c_rob s) l (c_lastCommitted s) (c_priority s)
    (c_trapSquash s) (c_tcSquash s) (c_squashAfterInst s) (c_changed s) (c_ver s).

Definition with_changed (s : State) (l : list bool) : State :=
  mkCommit (c_status s) (c_fixed s) (c_rob s) (c_youngest s) (c_lastCommitted s)
    (c_priority s) (c_trapSquash s) (c_tcSquash s) (c_squashAfterInst s) l (c_ver s).

Definition with_fixed (s : State) (l : list C) : State :=
  mkCommit (c_status s) l (c_rob s) (c_youngest s) (c_lastCommitted s) (c_priority s)
    (c_trapSquash s) (c_tcSquash s) (c_squashAfterInst s) (c_changed s) (c_ver s).

(** The constructor, with [numThreads] threads of the buffers' capacity [width]. *)
Definition Commit_new (width : nat) : res State :=
  let n := rob_threads p in
  let! r := ROB_new p in
  Ok (mkCommit (replicate n Idle) (replicate n (cb_new width)) r (replicate n 0%Z)
        (replicate n 0%Z)
        (match policy with RoundRobin => map Z.of_nat (seq 0 n) | OldestReady => [] end)
        (replicate n false) (replicate n false) (replicate n None) (replicate n false) 0).

(** ** Squashes *)

Definition mark_squashed (x : RobInst) : RobInst :=
  mkRobInst (setSquashed (ri x)) (ri_canCommit x) (ri_executed x) (ri_inROB x)
    (ri_committed x) (ri_serializeBefore x).

(** [Commit::squashInflightAndUpdateVersion]: every instruction that arrives from
    rename this cycle is marked, whatever its thread. *)
Definition squashInflightAndUpdateVersion (s : State) (inflight : list RobInst) (tid : Z)
    : res (State * list RobInst) :=
  let! fb := nth_res (c_fixed s) tid in
  let! fixed := set_nth (c_fixed s) tid (cb_clear fb) in
  Ok (mkCommit (c_status s) fixed (c_rob s) (c_youngest s) (c_lastCommitted s) (c_priority s)
        (c_trapSquash s) (c_tcSquash s) (c_squashAfterInst s) (c_changed s)
        (nextVersion (c_ver s)),
      map mark_squashed inflight).

(** [Commit::squashAll] *)
Definition squashAll (s : State) (inflight : list RobInst) (tid : Z)
    : res (State * list RobInst * SquashSignal) :=
  let! lastc := nth_res (c_lastCommitted s) tid in
  let! empty := isEmpty_thread (c_rob s) tid in
  let! squashed_inst :=
    if empty then Ok lastc
    else
      let! h := readHeadInst (c_rob s) tid in
      let! h := get_at h "readHeadInst" in
      Ok (u64 (ri_seq h - 1)) in
  let! ys := set_nth (c_youngest s) tid lastc in
  let! r := squash p (c_rob s) squashed_inst tid in
  let! ch := set_nth (c_changed s) tid true in
  let s := with_changed (with_rob (with_youngest s ys) r) ch in
  let! si := squashInflightAndUpdateVersion s inflight tid in
  let '(s, inflight) := si in
  Ok (s, inflight, mkSignal tid squashed_inst (c_ver s)).

(** [squashFromTrap], [squashFromTC] and [squashFromSquashAfter]. *)
Definition squashFromTrap (s : State) (inflight : list RobInst) (tid : Z)
    : res (State * list RobInst * SquashSignal) :=
  let! r := squashAll s inflight tid in
  let '(s, inflight, sg) := r in
  let! ts := set_nth (c_trapSquash s) tid false in
  let! s := set_status s tid ROBSquashing in
  Ok (mkCommit (c_status s) (c_fixed s) (c_rob s) (c_youngest s) (c_lastCommitted s)
        (c_priority s) ts (c_tcSquash s) (c_squashAfterInst s) (c_changed s) (c_ver s),
      inflight, sg).

Definition squashFromTC (s : State) (inflight : list RobInst) (tid : Z)
    : res (State * list RobInst * SquashSignal) :=
  let! r := squashAll s inflight tid in
  let '(s, inflight, sg) := r in
  let! s := set_status s tid ROBSquashing in
  let! ts := set_nth (c_tcSquash s) tid false in
  Ok (mkCommit (c_status s) (c_fixed s) (c_rob s) (c_youngest s) (c_lastCommitted s)
        (c_priority s) (c_trapSquash s) ts (c_squashAfterInst s) (c_changed s) (c_ver s),
      inflight, sg).

Definition squashFromSquashAfter (s : State) (inflight : list RobInst) (tid : Z)
    : res (State * list RobInst * SquashSignal) :=
  let! r := squashAll s inflight tid in
  let '(s, inflight, sg) := r in
  let! sa := set_nth (c_squashAfterInst s) tid None in
  let! s := set_status s tid ROBSquashing in
  Ok (mkCommit (c_status s) (c_fixed s) (c_rob s) (c_youngest s) (c_lastCommitted s)
        (c_priority s) (c_trapSquash s) (c_tcSquash s) sa (c_changed s) (c_ver s),
      inflight, sg).

(** The squash that IEW requests, in the loop of [Commit::commit]. *)
Definition squashFromIEW (s : State) (inflight : list RobInst) (tid : Z) (i : IewSquash)
    : res (State * list RobInst * SquashSignal) :=
  let! s := set_status s tid ROBSquashing in
  let squashed_inst := if is_include i then u64 (is_seqNum i - 1) else is_seqNum i in
  let! ys := set_nth (c_youngest s) tid squashed_inst in
  let! r := squash p (c_rob s) squashed_inst tid in
  let! ch := set_nth (c_changed s) tid true in
  let s := with_changed (with_rob (with_youngest s ys) r) ch in
  let! si := squashInflightAndUpdateVersion s inflight tid in
  let '(s, inflight) := si in
  Ok (s, inflight, mkSignal tid squashed_inst (c_ver s)).

(** One pass through the first loop of [Commit::commit]. *)
Definition commit_squash (iew : list IewSquash)
    (acc : State * list RobInst * list SquashSignal) (tid : Z)
    : res (State * list RobInst * list SquashSignal) :=
  let '(s, inflight, sgs) := acc in
  let! trap := nth_res (c_trapSquash s) tid in
  let! tc := nth_res (c_tcSquash s) tid in
  let! st := nth_res (c_status s) tid in
  let! acc :=
    if (trap : bool) then
      do! assert_ (negb tc) "!tcSquash[tid]" in
      let! r := squashFromTrap s inflight tid in
      let '(s, inflight, sg) := r in Ok (s, inflight, sgs ++ [sg])
    else if (tc : bool) then
      do! assert_ (negb (bool_decide (st = TrapPending))) "commitStatus[tid] != TrapPending" in
      let! r := squashFromTC s inflight tid in
      let '(s, inflight, sg) := r in Ok (s, inflight, sgs ++ [sg])
    else if bool_decide (st = SquashAfterPending) then
      let! r := squashFromSquashAfter s inflight tid in
      let '(s, inflight, sg) := r in Ok (s, inflight, sgs ++ [sg])
    else Ok acc in
  let '(s, inflight, sgs) := acc in
  let! i := nth_res iew tid in
  let! st := nth_res (c_status s) tid in
  let! y := nth_res (c_youngest s) tid in
  if is_squash i && negb (bool_decide (st = TrapPending)) && (is_seqNum i <=? y)%Z then
    let! r := squashFromIEW s inflight tid i in
    let '(s, inflight, sg) := r in Ok (s, inflight, sgs ++ [sg])
  else Ok (s, inflight, sgs).

(** The walk of a squash in [Commit::tick]. *)
Definition walk_squash (active : list Z) (exiting : Z → bool)
    (acc : State * list RobInst) (tid : Z) : res (State * list RobInst) :=
  let '(s, out) := acc in
  let! st := nth_res (c_status s) tid in
  if bool_decide (st = ROBSquashing) then
    let! done := nth_res (doneSquashing (c_rob s)) tid in
    if (done : bool) then
      let! s := set_status s tid Running in Ok (s, out)
    else
      let! ro := doSquash p (c_rob s) tid active (exiting tid) in
      let '(r, o) := ro in
      let! ch := set_nth (c_changed s) tid true in
      Ok (with_changed (with_rob s r) ch, out ++ o)
  else Ok (s, out).

(** ** Intake from rename *)

(** The signals of one thread and the choice of the thread to take in. *)
Definition pick_thread (s : State) (robStall : list StallReason)
    (acc : option Z * StallSignals) (i : nat) : res (option Z * StallSignals) :=
  let '(tid, sg) := acc in
  let i := Z.of_nat i in
  let! st := nth_res (c_status s) i in
  let robblock := bool_decide (st = ROBSquashing) || bool_decide (st = TrapPending) in
  let! m := nth_res (maxEntries (c_rob s)) i in
  let! n := getThreadEntries (c_rob s) i in
  let! fb := nth_res (c_fixed s) i in
  let block := (u32 (m - n) <? Z.of_nat (length (cb_elems fb)))%Z || robblock in
  let active := negb block && negb (cb_empty fb) in
  let! reason :=
    if robblock then Ok CommitSquash
    else if block then
      let! r := nth_res robStall i in
      Ok (if bool_decide (r = NoStall) then ROBFull else r)
    else Ok NoStall in
  let! bs := set_nth (blockIEW sg) i block in
  let! rs := set_nth (iewBlockReason sg) i (if block then reason else NoStall) in
  let put bs := mkStall (blockFetch sg) (blockDecode sg) (blockRename sg) bs
    (fetchBlockReason sg) (decodeBlockReason sg) (renameBlockReason sg) rs in
  if active then
    match tid with
    | None => Ok (Some i, put bs)
    | Some t =>
        let! bs := set_nth bs t true in
        let! bs := set_nth bs i true in
        Ok (tid, put bs)
    end
  else Ok (tid, put bs).

(** One instruction of the buffer, into the reorder buffer. *)
Definition insert_one (tid now : Z) (s : State) (x : RobInst) : res State :=
  let! st := nth_res (c_status s) tid in
  if negb (squashed (ri x)) && negb (bool_decide (st = ROBSquashing)) &&
     negb (bool_decide (st = TrapPending))
  then
    let! ch := set_nth (c_changed s) tid true in
    let! r := insertInst p (c_rob s) x now in
    let! n := getThreadEntries r tid in
    let! m := nth_res (maxEntries r) tid in
    do! assert_ (n <=? m)%Z "getThreadEntries(tid) <= getMaxEntries(tid)" in
    let! ys := set_nth (c_youngest s) tid (ri_seq x) in
    Ok (with_youngest (with_rob (with_changed s ch) r) ys)
  else Ok s.

(** The first part of [Commit::moveInstsToBuffer]. *)
Definition take_in (s : State) (inflight : list RobInst) : res State :=
  match inflight with
  | [] => Ok s
  | first :: _ =>
      let tid := threadNumber (ri first) in
      let! fb := nth_res (c_fixed s) tid in
      do! assert_ (cb_empty fb) "fixedbuffer[tid].empty()" in
      let! fb := res_fold (λ fb x,
        do! assert_ (threadNumber (ri x) =? tid)%Z "inst->threadNumber == tid" in
        Ok (if squashed (ri x) then fb else cb_push_back fb x)) fb inflight in
      let! fixed := set_nth (c_fixed s) tid fb in
      Ok (with_fixed s fixed)
  end.

(** [Commit::moveInstsToBuffer]: the loop takes every instruction of the buffer of
    the thread it picks. *)
Definition moveInstsToBuffer (s : State) (inflight : list RobInst) (sg : StallSignals)
    (robStall : list StallReason) (now : Z) : res (State * StallSignals) :=
  let! s := take_in s inflight in
  let! pk := res_fold (pick_thread s robStall) (None, sg) (seq 0 (rob_threads p)) in
  let '(tid, sg) := pk in
  match tid with
  | None => Ok (s, sg)
  | Some tid =>
      let! fb := nth_res (c_fixed s) tid in
      let! s := res_fold (insert_one tid now) s (cb_elems fb) in
      let! fixed := set_nth (c_fixed s) tid
        (Nat.iter (length (cb_elems fb)) cb_pop_front fb) in
      Ok (with_fixed s fixed, sg)
  end.

(** What [Commit::commit] does before it retires instructions: the squashes of the
    active threads, each of which marks what is in flight, then the intake. *)
Definition commit_intake (iew : list IewSquash) (active : list Z) (s : State)
    (inflight : list RobInst) (sg : StallSignals) (robStall : list StallReason) (now : Z)
    : res (State * StallSignals * list SquashSignal) :=
  let! acc := res_fold (commit_squash iew) (s, inflight, []) active in
  let '(s, inflight, sgs) := acc in
  let! m := moveInstsToBuffer s inflight sg robStall now in
  let '(s, sg) := m in
  Ok (s, sg, sgs).

(** ** Retirement *)

Definition can_commit (st : ThreadStatus) : bool :=
  match st with Running | Idle | FetchTrapPending => true | _ => false end.

(** [Commit::roundRobin]: the threads of the priority list in turn. *)
Fixpoint roundRobin (s : State) (done todo : list Z) : res (option Z * list Z) :=
  match todo with
  | [] => Ok (None, done)
  | t :: rest =>
      let! st := nth_res (c_status s) t in
      if can_commit st then
        let! ready := isHeadGroupReady (c_rob s) t in
        if (ready : bool) then Ok (Some t, done ++ rest ++ [t])
        else roundRobin s (done ++ [t]) rest
      else roundRobin s (done ++ [t]) rest
  end.

(** [Commit::oldestReady]; [oldest_seq_num] is an [unsigned]. *)
Definition oldestReady (s : State) (active : list Z) : res (option Z) :=
  let! best := res_fold (λ (best : option (Z * Z)) t,
    let! empty := isEmpty_thread (c_rob s) t in
    let! st := nth_res (c_status s) t in
    if negb empty && can_commit st then
      let! ready := isHeadGroupReady (c_rob s) t in
      if (ready : bool) then
        let! h := readHeadInst (c_rob s) t in
        let! h := get_at h "readHeadInst" in
        match best with
        | None => Ok (Some (t, u32 (ri_seq h)))
        | Some (_, n) => Ok (if (ri_seq h <? n)%Z then Some (t, u32 (ri_seq h)) else best)
        end
      else Ok best
    else Ok best) None active in
  Ok (option_map fst best).

Definition getCommittingThread (s : State) (active : list Z) : res (option Z * list Z) :=
  if (1 <? rob_threads p)%nat then
    match policy with
    | RoundRobin => roundRobin s [] (c_priority s)
    | OldestReady => let! t := oldestReady s active in Ok (t, c_priority s)
    end
  else
    let! t := get_at (hd_error active) "!activeThreads->empty()" in
    let! st := nth_res (c_status s) t in
    Ok (if can_commit st then Some t else None, c_priority s).

(** One pass through the loop of [Commit::commitInsts] on the head of the thread,
    [decide] standing for [commitHead]: the retired instruction, if there is one. *)
Definition commit_one (decide_head : RobInst → HeadOutcome) (s : State) (active : list Z)
    : res (State * option RobInst) :=
  let! tp := getCommittingThread s active in
  let '(tid, prio) := tp in
  let s := mkCommit (c_status s) (c_fixed s) (c_rob s) (c_youngest s) (c_lastCommitted s) prio
    (c_trapSquash s) (c_tcSquash s) (c_squashAfterInst s) (c_changed s) (c_ver s) in
  match tid with
  | None => Ok (s, None)
  | Some tid =>
      let! ready := isHeadGroupReady (c_rob s) tid in
      if negb ready then Ok (s, None)
      else
        let! h := readHeadInst (c_rob s) tid in
        let! h := get_at h "readHeadInst" in
        do! assert_ (threadNumber (ri h) =? tid)%Z "tid == commit_thread" in
        if squashed (ri h) then
          let! rx := retireHead (c_rob s) tid active in
          let '(r, x) := rx in
          let! ch := set_nth (c_changed s) tid true in
          Ok (with_changed (with_rob s r) ch, Some x)
        else
        match decide_head h with
        | Waits => Ok (s, None)
        | Traps => let! s := set_status s tid TrapPending in Ok (s, None)
        | Commits after =>
            let! rx := retireHead (c_rob s) tid active in
            let '(r, x) := rx in
            let! ch := set_nth (c_changed s) tid true in
            let! lc := set_nth (c_lastCommitted s) tid (ri_seq x) in
            let s := with_changed (with_rob s r) ch in
            let s := mkCommit (c_status s) (c_fixed s) (c_rob s) (c_youngest s) lc
              (c_priority s) (c_trapSquash s) (c_tcSquash s) (c_squashAfterInst s)
              (c_changed s) (c_ver s) in
            if (after : bool) then
              let! cur := nth_res (c_squashAfterInst s) tid in
              do! assert_ (match cur with Some y => ri_seq y =? ri_seq x | None => true end)%Z
                    "!squashAfterInst[tid] || squashAfterInst[tid] == head_inst" in
              let! sa := set_nth (c_squashAfterInst s) tid (Some x) in
              let! s := set_status s tid SquashAfterPending in
              Ok (mkCommit (c_status s) (c_fixed s) (c_rob s) (c_youngest s)
                    (c_lastCommitted s) (c_priority s) (c_trapSquash s) (c_tcSquash s) sa
                    (c_changed s) (c_ver s), Some x)
            else Ok (s, Some x)
        end
  end.

End Stage.
End Commit.
