(* ===== verification/CommitProps.v ===== *)
(** The operations of the commit stage keep to the protocol of the reorder buffer.

    Every operation of the stage takes the reorder buffer from a state of
    [RobTrace.reachable] to another one, with the status of the threads that are
    being squashed. *)
From Stdlib Require Import Sorted.
From S2P Require Import Prelude Double RegFile Inst Comm CircularBuffer.
From S2P Require Import Rob RobInv RobProps RobTrace Commit.
Import Rob RobInv RobProps RobTrace Commit.

Module CommitProps.

(** ** What the operations of the buffer do to [doneSquashing] *)

Lemma insertInst_done p r x now r' :
  insertInst p r x now = Ok r' → doneSquashing r' = doneSquashing r.
Proof. intros Hi. unfold insertInst in Hi. by repeat (apply res_bind_Ok in Hi as (? & _ & Hi)); injection Hi as <-. Qed.

Lemma retireHead_done r t active r' x :
  retireHead r t active = Ok (r', x) → doneSquashing r' = doneSquashing r.
Proof.
  intros Hr. unfold retireHead in Hr. apply res_bind_Ok in Hr as ([] & _ & Hr).
  apply res_bind_Ok in Hr as (l & _ & Hr). destruct l as [|y l]; [done|].
  repeat (apply res_bind_Ok in Hr as (? & _ & Hr)). by injection Hr as <- _.
Qed.

Lemma squash_done p r n t r' :
  squash p r n t = Ok r' →
  doneSquashing r' = doneSquashing r ∨ doneSquashing r' = <[Z.to_nat t := false]> (doneSquashing r).
Proof.
  intros Hs. unfold squash in Hs. apply res_bind_Ok in Hs as (e & _ & Hs).
  destruct e; [injection Hs as <-; by left|]. right.
  apply res_bind_Ok in Hs as (l & _ & Hs). apply res_bind_Ok in Hs as (st & _ & Hs).
  apply res_bind_Ok in Hs as (ds & Hd & Hs). apply res_bind_Ok in Hs as (sq & _ & Hs).
  apply res_bind_Ok in Hs as (its & _ & Hs). injection Hs as <-. simpl.
  unfold set_nth in Hd. destruct (_ && _); [|done]. by injection Hd as <-.
Qed.

Lemma with_walk_done r t w it d r' :
  with_walk r t w it d = Ok r' → doneSquashing r' = <[Z.to_nat t := d]> (doneSquashing r).
Proof.
  intros Hw. unfold with_walk in Hw. apply res_bind_Ok in Hw as (gs & _ & Hw).
  apply res_bind_Ok in Hw as (ls & _ & Hw). apply res_bind_Ok in Hw as (its & _ & Hw).
  apply res_bind_Ok in Hw as (ds & Hd & Hw). injection Hw as <-. simpl.
  unfold set_nth in Hd. destruct (_ && _); [|done]. by injection Hd as <-.
Qed.

Lemma doSquash_done p r t active ex r' out :
  doSquash p r t active ex = Ok (r', out) →
  ∃ d, doneSquashing r' = <[Z.to_nat t := d]> (doneSquashing r).
Proof.
  intros Hs. unfold doSquash in Hs. do 6 (apply res_bind_Ok in Hs as (? & _ & Hs)).
  destruct (_ <? _)%Z.
  { apply res_bind_Ok in Hs as (r1 & Hw & Hs). injection Hs as <- _.
    eexists. by eapply with_walk_done. }
  apply res_bind_Ok in Hs as ([] & _ & Hs). apply res_bind_Ok in Hs as ([w ah] & _ & Hs).
  destruct ah.
  { apply res_bind_Ok in Hs as (r1 & Hw & Hs). injection Hs as <- _.
    eexists. by eapply with_walk_done. }
  apply res_bind_Ok in Hs as (ix & _ & Hs). apply res_bind_Ok in Hs as (r1 & Hw & Hs).
  apply res_bind_Ok in Hs as (ta & _ & Hs). injection Hs as <- _.
  eexists. simpl. by eapply with_walk_done.
Qed.

(** ** The operations of the stage *)

Section Stage.

Context (p : RobParams) (policy : CommitPolicy).
Context {C : Type} `{CB : CircularBuffer C RobInst}.
Abbreviation State := (CommitState C).

(** An instruction of the thread, younger than all that were inserted. *)
Definition fresh (H : nat → Hist) (t : Z) (x : RobInst) : Prop :=
  threadNumber (ri x) = t ∧ ∀ s, s ∈ h_in (H (Z.to_nat t)) → (s < ri_seq x)%Z.

Context (Hp : params_ok p).

Lemma reachable_done r H t :
  reachable p r H → thread t → ∃ d, doneSquashing r !! Z.to_nat t = Some d.
Proof.
  intros [Hr _]%rob_reachable_inv [_ Ht]; [|done]. apply lookup_lt_is_Some_2.
  by rewrite (rv_done _ _ Hr).
Qed.

(** The thread whose squash is not finished is in status [ROBSquashing]. *)
Definition walking_status (st : list ThreadStatus) (ds : list bool) : Prop :=
  ∀ t, ds !! t = Some false → st !! t = Some ROBSquashing.

Definition stage_inv (s : State) (H : nat → Hist) : Prop :=
  reachable p (c_rob s) H ∧ walking_status (c_status s) (doneSquashing (c_rob s)).

Lemma walking_keep st ds t d :
  walking_status st ds → (d = false → st !! t = Some ROBSquashing) →
  walking_status st (<[t := d]> ds).
Proof.
  intros Hw Hd u Hu. apply list_lookup_insert_Some in Hu as [(<- & -> & _)|[_ Hu]]; [by apply Hd|].
  by apply Hw.
Qed.

(** A thread in another status is done. *)
Lemma walking_done st ds t x d :
  walking_status st ds → st !! t = Some x → x ≠ ROBSquashing → ds !! t = Some d → d = true.
Proof. intros Hw Hs Hx Hd. destruct d; [done|]. apply Hw in Hd. congruence. Qed.

(** Setting the status of a thread that is done. *)
Lemma walking_set st ds t x st' :
  walking_status st ds → set_nth st t x = Ok st' →
  (x = ROBSquashing ∨ ds !! Z.to_nat t = Some true ∨ ds !! Z.to_nat t = None) →
  walking_status st' ds.
Proof.
  intros Hw Hs Hx u Hu. unfold set_nth in Hs. destruct (_ && _) eqn:E; [|done]. injection Hs as <-.
  apply andb_true_iff in E as [_ Hlt%Z.ltb_lt].
  destruct (decide (Z.to_nat t = u)) as [<-|Hne].
  - destruct Hx as [->|[?|?]]; [|congruence|congruence]. rewrite list_lookup_insert_eq; [done|].
    assert (Z.to_nat t < length ds) by (by eapply lookup_lt_Some).
    apply Hw in Hu. by eapply lookup_lt_Some.
  - rewrite list_lookup_insert_ne by done. by apply Hw.
Qed.

Lemma squashInflight_keep (s s' : State) fl t fl' :
  squashInflightAndUpdateVersion s fl t = Ok (s', fl') →
  c_status s' = c_status s ∧ c_rob s' = c_rob s ∧ fl' = map mark_squashed fl ∧
  ∃ fb, nth_res (c_fixed s) t = Ok fb ∧ c_fixed s' = <[Z.to_nat t := cb_clear fb]> (c_fixed s).
Proof.
  unfold squashInflightAndUpdateVersion. intros Hs. apply res_bind_Ok in Hs as (fb & Hfb & Hs).
  apply res_bind_Ok in Hs as (fx & Hfx & Hs). injection Hs as <- <-. repeat split; try done.
  exists fb. split; [done|]. unfold set_nth in Hfx. destruct (_ && _); [|done]. by injection Hfx as <-.
Qed.

Lemma squashAll_rob (s s' : State) fl t fl' sg :
  squashAll p s fl t = Ok (s', fl', sg) →
  c_status s' = c_status s ∧ (∃ n, squash p (c_rob s) n t = Ok (c_rob s')) ∧
  fl' = map mark_squashed fl ∧ sg_tid sg = t ∧
  ∃ fb, nth_res (c_fixed s) t = Ok fb ∧ c_fixed s' = <[Z.to_nat t := cb_clear fb]> (c_fixed s).
Proof.
  intros Hs. unfold squashAll in Hs. apply res_bind_Ok in Hs as (lc & _ & Hs).
  apply res_bind_Ok in Hs as (e & _ & Hs). apply res_bind_Ok in Hs as (n & _ & Hs).
  apply res_bind_Ok in Hs as (ys & _ & Hs). apply res_bind_Ok in Hs as (r & Hr & Hs).
  apply res_bind_Ok in Hs as (ch & _ & Hs). apply res_bind_Ok in Hs as ([s1 fl1] & Hi & Hs).
  injection Hs as <- <- <-. apply squashInflight_keep in Hi as (E1 & E2 & Efl & Hfb).
  rewrite E1, E2. split; [done|]. split; [by exists n|done].
Qed.

(** What a pass through the first loop of [Commit::commit] works on. *)
Abbreviation Loop := (State * list RobInst * list SquashSignal)%type.

(** A squash of the thread: the status is [ROBSquashing], the buffer of the thread is
    cleared, and every instruction in flight is marked. *)
Definition squashes (t : Z) (a a' : Loop) : Prop :=
  let '(s, fl, sgs) := a in
  let '(s', fl', sgs') := a' in
  set_nth (c_status s) t ROBSquashing = Ok (c_status s') ∧
  (∃ n, squash p (c_rob s) n t = Ok (c_rob s')) ∧
  fl' = map mark_squashed fl ∧
  (∃ sg, sg_tid sg = t ∧ sgs' = sgs ++ [sg]) ∧
  ∃ fb, nth_res (c_fixed s) t = Ok fb ∧
    c_fixed s' = <[Z.to_nat t := cb_clear fb]> (c_fixed s).

Lemma squashes_inv t (a a' : Loop) H :
  thread t → squashes t a a' → stage_inv a.1.1 H → stage_inv a'.1.1 H.
Proof.
  destruct a as [[s fl] sgs], a' as [[s' fl'] sgs'].
  intros Ht (Hst & [n Hs] & _) [Hr Hw]. split; [by eapply rc_squash|]. simpl in *.
  assert (c_status s' !! Z.to_nat t = Some ROBSquashing) as Hat.
  { unfold set_nth in Hst. destruct (_ && _) eqn:E'; [|done]. injection Hst as <-.
    apply andb_true_iff in E' as [E1%Z.leb_le E2%Z.ltb_lt].
    rewrite list_lookup_insert_eq; [done|]. lia. }
  pose proof (walking_set _ _ _ _ _ Hw Hst (or_introl eq_refl)) as Hw'.
  destruct (squash_done _ _ _ _ _ Hs) as [->| ->]; [done|]. by apply walking_keep.
Qed.

Lemma squash_from_squashes (f : State → list RobInst → Z → res (State * list RobInst * SquashSignal))
    (s s' : State) fl t fl' sg sgs :
  (f = squashFromTrap p ∨ f = squashFromTC p ∨ f = squashFromSquashAfter p) →
  f s fl t = Ok (s', fl', sg) → squashes t (s, fl, sgs) (s', fl', sgs ++ [sg]).
Proof.
  intros Hf Hs.
  assert (∃ s1 st', squashAll p s fl t = Ok (s1, fl', sg) ∧
    set_nth (c_status s1) t ROBSquashing = Ok st' ∧ c_status s' = st' ∧ c_rob s' = c_rob s1 ∧
    c_fixed s' = c_fixed s1) as (s1 & st' & Ha & Hst & E1 & E2 & E3).
  { destruct Hf as [->|[->| ->]]; cbv [squashFromTrap squashFromTC squashFromSquashAfter set_status] in Hs;
      apply res_bind_Ok in Hs as ([[s1 fl1] sg1] & Ha & Hs);
      apply res_bind_Ok in Hs as (a & H1 & Hs); apply res_bind_Ok in Hs as (b & H2 & Hs);
      injection Hs as <- <- <-; rewrite Ha.
    - apply res_bind_Ok in H2 as (st' & Hst & H2). injection H2 as <-. by exists s1, st'.
    - apply res_bind_Ok in H1 as (st' & Hst & H1). injection H1 as <-. by exists s1, st'.
    - apply res_bind_Ok in H2 as (st' & Hst & H2). injection H2 as <-. by exists s1, st'. }
  apply squashAll_rob in Ha as (Est & Hsq & Efl & Esg & Hfb). rewrite Est in Hst.
  unfold squashes. rewrite E1, E2, E3. repeat split; try done. by exists sg.
Qed.

Lemma squashFromIEW_squashes (s s' : State) fl t i fl' sg sgs :
  squashFromIEW p s fl t i = Ok (s', fl', sg) → squashes t (s, fl, sgs) (s', fl', sgs ++ [sg]).
Proof.
  intros Hs. unfold squashFromIEW, set_status in Hs.
  apply res_bind_Ok in Hs as (s1 & H1 & Hs). apply res_bind_Ok in H1 as (st' & Hst & H1).
  injection H1 as <-. apply res_bind_Ok in Hs as (ys & _ & Hs).
  apply res_bind_Ok in Hs as (r & Hr & Hs). apply res_bind_Ok in Hs as (ch & _ & Hs).
  apply res_bind_Ok in Hs as ([s2 fl2] & Hf & Hs). injection Hs as <- <- <-.
  apply squashInflight_keep in Hf as (E1 & E2 & Efl & Hfb). unfold squashes. rewrite E1, E2.
  split; [done|]. split; [by eexists|]. split; [done|]. split; [eexists; split; [|reflexivity]; done|exact Hfb].
Qed.

Lemma commit_squash_squashes iew (a a' : Loop) t :
  commit_squash p iew a t = Ok a' → rtc (squashes t) a a'.
Proof.
  destruct a as [[s fl] sgs], a' as [[s' fl'] sgs'].
  intros Hs. unfold commit_squash in Hs. apply res_bind_Ok in Hs as (trap & _ & Hs).
  apply res_bind_Ok in Hs as (tc & _ & Hs). apply res_bind_Ok in Hs as (st & _ & Hs).
  apply res_bind_Ok in Hs as ([[s1 fl1] sgs1] & H1 & Hs). trans (s1, fl1, sgs1).
  { destruct trap; [|destruct tc; [|case_bool_decide; [|by injection H1 as <- <- <-]]].
    - apply res_bind_Ok in H1 as ([] & _ & H1).
      apply res_bind_Ok in H1 as ([[s2 fl2] sg2] & H2 & H1). injection H1 as <- <- <-.
      eapply rtc_once, (squash_from_squashes (squashFromTrap p)); [by left|exact H2].
    - apply res_bind_Ok in H1 as ([] & _ & H1).
      apply res_bind_Ok in H1 as ([[s2 fl2] sg2] & H2 & H1). injection H1 as <- <- <-.
      eapply rtc_once, (squash_from_squashes (squashFromTC p)); [by right; left|exact H2].
    - apply res_bind_Ok in H1 as ([[s2 fl2] sg2] & H2 & H1). injection H1 as <- <- <-.
      eapply rtc_once, (squash_from_squashes (squashFromSquashAfter p)); [by right; right|exact H2]. }
  apply res_bind_Ok in Hs as (i & _ & Hs). apply res_bind_Ok in Hs as (st1 & _ & Hs).
  apply res_bind_Ok in Hs as (y & _ & Hs). destruct (_ && _) in Hs; [|by injection Hs as <- <- <-].
  apply res_bind_Ok in Hs as ([[s2 fl2] sg2] & H2 & Hs). injection Hs as <- <- <-.
  by eapply rtc_once, squashFromIEW_squashes.
Qed.

(** What every squash of an active thread preserves, the loop preserves. *)
Lemma squash_loop_keep (P : Loop → Prop) iew active a a' :
  active_ok active → P a → (∀ t b b', thread t → squashes t b b' → P b → P b') →
  res_fold (commit_squash p iew) a active = Ok a' → P a'.
Proof.
  intros Ha H0 Hst. apply res_fold_keep; [done|]. intros b t b' Ht Hb Hs.
  apply commit_squash_squashes in Hs. induction Hs as [|b1 b2 b3 H12 _ IH]; [done|].
  apply IH. eapply Hst; [|exact H12|done]. unfold active_ok in Ha. rewrite Forall_forall in Ha.
  by apply Ha.
Qed.

Lemma walk_squash_idle (s s' : State) H active exiting t out :
  stage_inv s H → doneSquashing (c_rob s) !! Z.to_nat t ≠ Some false →
  walk_squash p active exiting (s, []) t = Ok (s', out) → stage_inv s' H.
Proof.
  intros [Hr Hw] Hn Hs. unfold walk_squash in Hs.
  apply res_bind_Ok in Hs as (st & _ & Hs). case_bool_decide; [|by injection Hs as <- _].
  apply res_bind_Ok in Hs as (d & [_ Hd]%nth_res_Ok & Hs). destruct d; [|done].
  apply res_bind_Ok in Hs as (s1 & H1 & Hs). injection Hs as <- _.
  unfold set_status in H1. apply res_bind_Ok in H1 as (st' & Hst' & H1). injection H1 as <-.
  split; [done|]. eapply walking_set; [exact Hw|exact Hst'|]. by right; left.
Qed.

Lemma walk_squash_inv (s s' : State) H active exiting t out :
  stage_inv s H → thread t → active_ok active →
  doneSquashing (c_rob s) !! Z.to_nat t = Some false →
  walk_squash p active exiting (s, []) t = Ok (s', out) →
  stage_inv s' (upd H (Z.to_nat t) (mkHist (h_in (H (Z.to_nat t))) (h_ret (H (Z.to_nat t)))
    (h_sq (H (Z.to_nat t)) ++ map ri_seq out))).
Proof.
  intros [Hr Hw] Ht Ha Hd Hs. unfold walk_squash in Hs. pose proof (Hw _ Hd) as Hst.
  rewrite (proj2 (nth_res_Ok _ _ _) (conj (proj1 Ht) Hst)) in Hs. cbn [res_bind] in Hs.
  rewrite bool_decide_true in Hs by done.
  rewrite (proj2 (nth_res_Ok _ _ _) (conj (proj1 Ht) Hd)) in Hs. cbn [res_bind] in Hs.
  apply res_bind_Ok in Hs as ([r o] & Hdo & Hs). apply res_bind_Ok in Hs as (ch & _ & Hs).
  injection Hs as <- <-. split; [by eapply rc_walk|].
  destruct (doSquash_done _ _ _ _ _ _ _ Hdo) as [d' Ed]. simpl. rewrite Ed.
  by apply walking_keep.
Qed.

Lemma take_in_keep (s s' : State) fl :
  take_in s fl = Ok s' → c_status s' = c_status s ∧ c_rob s' = c_rob s.
Proof.
  intros Hs. unfold take_in in Hs. destruct fl as [|x fl]; [by injection Hs as <-|].
  apply res_bind_Ok in Hs as (fb & _ & Hs). apply res_bind_Ok in Hs as ([] & _ & Hs).
  apply res_bind_Ok in Hs as (fb' & _ & Hs). apply res_bind_Ok in Hs as (fx & _ & Hs).
  by injection Hs as <-.
Qed.

Lemma insert_one_inv (s s' : State) H t now x st :
  stage_inv s H → thread t → nth_res (c_status s) t = Ok st → squashed (ri x) = false →
  st ≠ ROBSquashing → st ≠ TrapPending → fresh H t x → insert_one p t now s x = Ok s' →
  stage_inv s' (upd H (Z.to_nat t) (mkHist (h_in (H (Z.to_nat t)) ++ [ri_seq x])
    (h_ret (H (Z.to_nat t))) (h_sq (H (Z.to_nat t))))).
Proof.
  intros [Hr Hw] Ht Hst Hsq Hn1 Hn2 [Hxt Hfr] Hs. unfold insert_one in Hs.
  rewrite Hst, Hsq in Hs. cbn [res_bind] in Hs.
  rewrite !bool_decide_false in Hs by done. cbn [negb andb] in Hs.
  apply res_bind_Ok in Hs as (ch & _ & Hs). apply res_bind_Ok in Hs as (r & Hi & Hs).
  apply res_bind_Ok in Hs as (n & _ & Hs). apply res_bind_Ok in Hs as (m & _ & Hs).
  apply res_bind_Ok in Hs as ([] & _ & Hs). apply res_bind_Ok in Hs as (ys & _ & Hs).
  injection Hs as <-. apply nth_res_Ok in Hst as [_ Hst]. split; simpl.
  - destruct (reachable_done (c_rob s) H t Hr Ht) as [d Hd].
    rewrite (walking_done _ _ _ _ _ Hw Hst Hn1 Hd) in Hd. by eapply rc_insert.
  - by rewrite (insertInst_done _ _ _ _ _ Hi).
Qed.

Lemma skip_one (s s' : State) t now x st :
  nth_res (c_status s) t = Ok st →
  squashed (ri x) = true ∨ st = ROBSquashing ∨ st = TrapPending →
  insert_one p t now s x = Ok s' → s' = s.
Proof.
  intros Hst Hx Hs. unfold insert_one in Hs. rewrite Hst in Hs. cbn [res_bind] in Hs.
  assert (negb (squashed (ri x)) && negb (bool_decide (st = ROBSquashing)) &&
    negb (bool_decide (st = TrapPending)) = false) as E.
  { destruct Hx as [->|[->| ->]]; simpl; by rewrite ?andb_false_r. }
  rewrite E in Hs. by injection Hs as <-.
Qed.

(** The thread that commits is in a status in which its squash is finished. *)
Lemma roundRobin_status (s : State) todo : ∀ seen t prio,
  roundRobin s seen todo = Ok (Some t, prio) →
  ∃ st, nth_res (c_status s) t = Ok st ∧ can_commit st = true.
Proof.
  induction todo as [|u todo IH]; intros seen t prio Hr; [done|]. simpl in Hr.
  apply res_bind_Ok in Hr as (st & Hst & Hr). destruct (can_commit st) eqn:Ec; [|by eapply IH].
  apply res_bind_Ok in Hr as (ready & _ & Hr). destruct ready; [|by eapply IH].
  injection Hr as <- _. by exists st.
Qed.

Lemma oldestReady_status (s : State) active t :
  oldestReady s active = Ok (Some t) →
  ∃ st, nth_res (c_status s) t = Ok st ∧ can_commit st = true.
Proof.
  intros Ho. unfold oldestReady in Ho. apply res_bind_Ok in Ho as (best & Hf & Ho).
  injection Ho as Eb.
  assert (∀ u k, best = Some (u, k) → ∃ st, nth_res (c_status s) u = Ok st ∧ can_commit st = true)
    as Hb.
  2: { destruct best as [[u k]|]; [|by simpl in Eb]. injection Eb as <-. by eapply Hb. }
  clear Eb. eapply (res_fold_keep _ (λ best : option (Z * Z), ∀ u k, best = Some (u, k) →
    ∃ st, nth_res (c_status s) u = Ok st ∧ can_commit st = true)); [| |exact Hf]; [done|].
  intros b a b' _ Hb Hs. cbn beta in Hs. apply res_bind_Ok in Hs as (e & _ & Hs).
  apply res_bind_Ok in Hs as (st & Hst & Hs).
  destruct (negb e && can_commit st) eqn:Ec; [|by injection Hs as <-].
  apply andb_true_iff in Ec as [_ Ec].
  apply res_bind_Ok in Hs as (ready & _ & Hs). destruct ready; [|by injection Hs as <-].
  apply res_bind_Ok in Hs as (h & _ & Hs). apply res_bind_Ok in Hs as (h' & _ & Hs).
  intros u k Hu. destruct b as [[v n]|]; [destruct (_ <? _)%Z|]; injection Hs as <-;
    [|by eapply Hb|]; injection Hu as <- _; by exists st.
Qed.

Lemma committing_status (s : State) active t prio :
  getCommittingThread p policy s active = Ok (Some t, prio) →
  ∃ st, nth_res (c_status s) t = Ok st ∧ can_commit st = true.
Proof.
  intros Hg. unfold getCommittingThread in Hg. destruct (_ <? _)%nat.
  - destruct policy; [by eapply roundRobin_status|].
    apply res_bind_Ok in Hg as (t' & Ho & Hg). injection Hg as -> _. by eapply oldestReady_status.
  - apply res_bind_Ok in Hg as (u & _ & Hg). apply res_bind_Ok in Hg as (st & Hst & Hg).
    destruct (can_commit st) eqn:Ec; [|done]. injection Hg as -> _. by exists st.
Qed.

(** A head that retires: the buffer steps, the status changes at most to
    [SquashAfterPending], and the thread is the instruction's. *)
Lemma retire_inv (s s' : State) H t active r y st :
  stage_inv s H → thread t → nth_res (c_status s) t = Ok st → st ≠ ROBSquashing →
  retireHead (c_rob s) t active = Ok (r, y) → c_rob s' = r →
  (c_status s' = c_status s ∨ set_nth (c_status s) t SquashAfterPending = Ok (c_status s')) →
  stage_inv s' (upd H (Z.to_nat t) (mkHist (h_in (H (Z.to_nat t)))
    (h_ret (H (Z.to_nat t)) ++ [ri_seq y]) (h_sq (H (Z.to_nat t))))).
Proof.
  intros [Hr Hw] Ht [_ Hst]%nth_res_Ok Hne Hret Er Es.
  destruct (reachable_done (c_rob s) H t Hr Ht) as [d Hd].
  rewrite (walking_done _ _ _ _ _ Hw Hst Hne Hd) in Hd.
  split; rewrite Er; [by eapply rc_retire|]. rewrite (retireHead_done _ _ _ _ _ Hret).
  destruct Es as [->|Es]; [done|]. eapply walking_set; [exact Hw|exact Es|]. by right; left.
Qed.

Lemma can_commit_not st : can_commit st = true → st ≠ ROBSquashing.
Proof. by destruct st. Qed.

(** The head that retires is the one the buffer shows. *)
Lemma retireHead_head r t active r' y h :
  readHeadInst r t = Ok (Some h) → retireHead r t active = Ok (r', y) → y = retired h.
Proof.
  intros Hh Hr. unfold readHeadInst in Hh. apply res_bind_Ok in Hh as (gs & _ & Hh).
  destruct gs as [|n gs]; [done|]. destruct (n =? 0)%Z; [done|].
  apply res_bind_Ok in Hh as (l & Hl & Hh). apply res_bind_Ok in Hh as (x & Hx & Hh).
  apply res_bind_Ok in Hh as ([] & _ & Hh). injection Hh as <-.
  unfold retireHead in Hr. apply res_bind_Ok in Hr as ([] & _ & Hr). rewrite Hl in Hr.
  cbn [res_bind] in Hr. destruct l as [|z l]; [done|]. simpl in Hx. injection Hx as <-.
  repeat (apply res_bind_Ok in Hr as (? & _ & Hr)). by injection Hr as _ <-.
Qed.

Lemma retire_thread r H t active r' y :
  reachable p r H → retireHead r t active = Ok (r', y) → thread t.
Proof.
  intros [Hr _]%rob_reachable_inv Hret; [|done]. unfold retireHead in Hret.
  apply res_bind_Ok in Hret as ([] & _ & Hret). apply res_bind_Ok in Hret as (l & Hl & _).
  apply nth_res_Ok in Hl as [H0 Hl%lookup_lt_Some]. split; [done|].
  by rewrite <- (rv_insts _ _ Hr).
Qed.

Lemma commit_one_inv (s s' : State) H dh active o :
  stage_inv s H → commit_one p policy dh s active = Ok (s', o) →
  match o with
  | None => stage_inv s' H
  | Some y => let t := Z.to_nat (threadNumber (ri y)) in
      stage_inv s' (upd H t (mkHist (h_in (H t)) (h_ret (H t) ++ [ri_seq y]) (h_sq (H t))))
  end.
Proof.
  intros Hi Hs. unfold commit_one in Hs. apply res_bind_Ok in Hs as ([tid prio] & Hg & Hs).
  destruct tid as [t|]; [|by injection Hs as <- <-].
  destruct (committing_status _ _ _ _ Hg) as (st & Hst & Hc%can_commit_not).
  apply res_bind_Ok in Hs as (ready & _ & Hs). destruct ready; cbn [negb] in Hs; [|by injection Hs as <- <-].
  apply res_bind_Ok in Hs as (ho & Hh & Hs). apply res_bind_Ok in Hs as (h & Eh & Hs).
  destruct ho; [|done]. injection Eh as ->. cbn [c_rob] in Hh.
  apply res_bind_Ok in Hs as ([] & Ht & Hs). unfold assert_ in Ht.
  destruct (Z.eqb_spec (threadNumber (ri h)) t) as [Et|]; [|done].
  assert (∀ r y, retireHead (c_rob s) t active = Ok (r, y) → threadNumber (ri y) = t ∧ thread t) as Hy.
  { intros r y Hr. rewrite (retireHead_head _ _ _ _ _ _ Hh Hr). split; [done|].
    by eapply retire_thread; [apply Hi|]. }
  destruct (squashed (ri h)); [|destruct (dh h) as [after| |]].
  - apply res_bind_Ok in Hs as ([r y] & Hr & Hs). apply res_bind_Ok in Hs as (ch & _ & Hs).
    injection Hs as <- <-. destruct (Hy r y Hr) as [Ey Hth]. cbv zeta. rewrite Ey.
    eapply (retire_inv s); try done. by left.
  - apply res_bind_Ok in Hs as ([r y] & Hr & Hs). apply res_bind_Ok in Hs as (ch & _ & Hs).
    apply res_bind_Ok in Hs as (lc & _ & Hs). destruct (Hy r y Hr) as [Ey Hth]. destruct after.
    + apply res_bind_Ok in Hs as (cur & _ & Hs). apply res_bind_Ok in Hs as ([] & _ & Hs).
      apply res_bind_Ok in Hs as (sa & _ & Hs). apply res_bind_Ok in Hs as (s1 & H1 & Hs).
      injection Hs as <- <-. cbv zeta. rewrite Ey. unfold set_status in H1.
      apply res_bind_Ok in H1 as (st' & Hst' & H1). injection H1 as <-.
      eapply (retire_inv s); try done. by right.
    + injection Hs as <- <-. cbv zeta. rewrite Ey. eapply (retire_inv s); try done. by left.
  - apply res_bind_Ok in Hs as (s1 & H1 & Hs). injection Hs as <- <-. unfold set_status in H1.
    apply res_bind_Ok in H1 as (st' & Hst' & H1). injection H1 as <-. destruct Hi as [Hr Hw].
    split; [done|]. eapply walking_set; [exact Hw|exact Hst'|]. right. cbn [c_rob].
    apply nth_res_Ok in Hst as [_ Hst]. destruct (doneSquashing (c_rob s) !! Z.to_nat t) eqn:Ed; [|by right].
    left. rewrite (walking_done _ _ _ _ _ Hw Hst Hc Ed) in Ed. exact Ed.
  - by injection Hs as <- <-.
Qed.

Lemma Commit_new_inv width (s : State) :
  Commit_new p policy width = Ok s → stage_inv s (λ _, mkHist [] [] []).
Proof.
  intros Hn. unfold Commit_new in Hn. apply res_bind_Ok in Hn as (r & Hr & Hn). injection Hn as <-.
  split; simpl; [by apply rc_new|]. intros t Ht. unfold ROB_new in Hr.
  apply res_bind_Ok in Hr as ([] & _ & Hr). apply res_bind_Ok in Hr as ([] & _ & Hr).
  injection Hr as <-. unfold resetState in Ht. cbn [doneSquashing] in Ht.
  by apply (lookup_replicate_1 MaxThreads) in Ht as [? _].
Qed.

End Stage.
End CommitProps.
