(* ===== verification/CommitIntake.v ===== *)
(** The intake from rename: what it needs of the reorder buffer.

    The stage lets a thread in when the free entries of the thread, counted in
    groups, are no fewer than the instructions waiting; the lemmas show that no
    assertion of an insertion can then fail.  [CommitRun] uses them for runs. *)
From Stdlib Require Import Sorted.
From S2P Require Import Prelude Double RegFile Inst Comm CircularBuffer.
From S2P Require Import Rob RobInv RobProps RobTrace Commit CommitProps.
Import Rob RobInv RobProps RobTrace Commit CommitProps.

Module CommitIntake.

(** ** Groups never grow but by insertion *)

Definition shrinks (r r' : ROB) : Prop :=
  maxEntries r' = maxEntries r ∧
  ∀ t gs', threadGroups r' !! t = Some gs' →
    ∃ gs, threadGroups r !! t = Some gs ∧ length gs' ≤ length gs.

Lemma shrinks_refl r r' :
  maxEntries r' = maxEntries r → threadGroups r' = threadGroups r → shrinks r r'.
Proof. intros E1 E2. split; [done|]. intros t gs Hg. rewrite E2 in Hg. by exists gs. Qed.

Lemma shrinks_set r r' t gs gs' l :
  maxEntries r' = maxEntries r → nth_res (threadGroups r) t = Ok gs →
  set_nth (threadGroups r) t gs' = Ok l → threadGroups r' = l → length gs' ≤ length gs →
  shrinks r r'.
Proof.
  intros E1 [_ Hg]%nth_res_Ok Hs E2 Hle. split; [done|]. intros u gs0 H0. rewrite E2 in H0.
  unfold set_nth in Hs. destruct (_ && _); [|done]. injection Hs as <-.
  apply list_lookup_insert_Some in H0 as [(<- & <- & _)|[_ H0]]; [by exists gs|by exists gs0].
Qed.

Lemma commitGroup_length gs gs' : commitGroup gs = Ok gs' → length gs' ≤ length gs.
Proof.
  destruct gs as [|n gs]; [done|]. simpl. intros [= <-].
  destruct (_ =? _)%Z; simpl; lia.
Qed.

Lemma squashGroup_length gs gs' : squashGroup gs = Ok gs' → length gs' ≤ length gs.
Proof.
  unfold squashGroup. intros Hs. destruct gs as [|n gs _] using rev_ind; [done|].
  rewrite last_snoc, removelast_last in Hs. injection Hs as <-.
  destruct (_ =? _)%Z; rewrite ?length_app; simpl; lia.
Qed.

Lemma retireHead_shrinks r t active r' y : retireHead r t active = Ok (r', y) → shrinks r r'.
Proof.
  intros Hr. unfold retireHead in Hr. apply res_bind_Ok in Hr as ([] & _ & Hr).
  apply res_bind_Ok in Hr as (l & _ & Hr). destruct l as [|x l]; [done|].
  apply res_bind_Ok in Hr as ([] & _ & Hr). apply res_bind_Ok in Hr as ([] & _ & Hr).
  apply res_bind_Ok in Hr as (gs & Hg & Hr). apply res_bind_Ok in Hr as (gs' & Hc & Hr).
  apply res_bind_Ok in Hr as (tg & Ht & Hr). apply res_bind_Ok in Hr as (ls & _ & Hr).
  apply res_bind_Ok in Hr as (h & _ & Hr). injection Hr as <- _.
  eapply shrinks_set; [done|exact Hg|exact Ht|done|]. by apply commitGroup_length.
Qed.

Lemma squash_shrinks p r n t r' : squash p r n t = Ok r' → shrinks r r'.
Proof.
  intros Hs. unfold squash in Hs. apply res_bind_Ok in Hs as (e & _ & Hs).
  destruct e; [injection Hs as <-; by apply shrinks_refl|].
  do 5 (apply res_bind_Ok in Hs as (? & _ & Hs)). injection Hs as <-. by apply shrinks_refl.
Qed.

Lemma squash_loop_length n sq : ∀ w w' b,
  squash_loop n sq w = Ok (w', b) → length (w_groups w') ≤ length (w_groups w).
Proof.
  induction n as [|n IH]; intros w w' b Hs; simpl in Hs; [by injection Hs as <- _|].
  apply res_bind_Ok in Hs as ([i x] & _ & Hs). destruct (_ <? _)%Z; [|by injection Hs as <- _].
  apply res_bind_Ok in Hs as (gs & Hg%squashGroup_length & Hs). destruct i as [|j].
  - by injection Hs as <- _.
  - apply res_bind_Ok in Hs as (pv & _ & Hs). apply IH in Hs. simpl in Hs. lia.
Qed.

Lemma with_walk_shrinks r t w it d r' gs :
  with_walk r t w it d = Ok r' → nth_res (threadGroups r) t = Ok gs →
  length (w_groups w) ≤ length gs → shrinks r r'.
Proof.
  intros Hw Hg Hle. unfold with_walk in Hw. apply res_bind_Ok in Hw as (tg & Ht & Hw).
  do 3 (apply res_bind_Ok in Hw as (? & _ & Hw)). injection Hw as <-.
  by eapply shrinks_set.
Qed.

Lemma doSquash_shrinks p r t active ex r' out :
  doSquash p r t active ex = Ok (r', out) → shrinks r r'.
Proof.
  intros Hs. unfold doSquash in Hs. do 3 (apply res_bind_Ok in Hs as (? & _ & Hs)).
  apply res_bind_Ok in Hs as (gs & Hg & Hs). do 2 (apply res_bind_Ok in Hs as (? & _ & Hs)).
  destruct (_ <? _)%Z.
  { apply res_bind_Ok in Hs as (r1 & Hw & Hs). injection Hs as <- _. by eapply with_walk_shrinks. }
  apply res_bind_Ok in Hs as ([] & _ & Hs).
  apply res_bind_Ok in Hs as ([w ah] & Hl%squash_loop_length & Hs). destruct ah.
  { apply res_bind_Ok in Hs as (r1 & Hw & Hs). injection Hs as <- _. by eapply with_walk_shrinks. }
  apply res_bind_Ok in Hs as (ix & _ & Hs). apply res_bind_Ok in Hs as (r1 & Hw & Hs).
  apply res_bind_Ok in Hs as (ta & _ & Hs). injection Hs as <- _.
  destruct (with_walk_shrinks _ _ _ _ _ _ _ Hw Hg Hl) as [E H]. by split.
Qed.

Lemma insertInst_other p r x now r' :
  insertInst p r x now = Ok r' → maxEntries r' = maxEntries r ∧
  ∀ u, u ≠ Z.to_nat (threadNumber (ri x)) → threadGroups r' !! u = threadGroups r !! u.
Proof.
  intros Hi. unfold insertInst in Hi. do 6 (apply res_bind_Ok in Hi as (? & _ & Hi)).
  apply res_bind_Ok in Hi as (tg & Ht & Hi). apply res_bind_Ok in Hi as (ls & _ & Hi).
  injection Hi as <-. split; [done|]. intros u Hu. simpl. unfold set_nth in Ht.
  destruct (_ && _); [|done]. injection Ht as <-. by rewrite list_lookup_insert_ne.
Qed.

(** Follows one operation to its end, with the lengths of the updated arrays. *)
Ltac shape_run Hs :=
  repeat first
    [ match type of Hs with
      | res_bind ?e _ = Ok _ => apply res_bind_Ok in Hs as (? & ? & Hs)
      | Ok _ = Ok _ => injection Hs as ?; subst
      | context [let '(_, _) := ?x in _] => destruct x
      | context [match ?b with _ => _ end] => destruct b
      | Panic _ = Ok _ => discriminate Hs
      end
    | match goal with
      | E : set_nth _ _ _ = Ok _ |- _ => apply set_nth_length in E
      | E : set_status _ _ _ = Ok _ |- _ =>
          unfold set_status in E; apply res_bind_Ok in E as (? & ? & E); injection E as E; subst
      end ].

(** ** The stage *)

Section Stage.

Context (p : RobParams) (policy : CommitPolicy).
Context {C : Type} `{CB : CircularBuffer C RobInst}.
Abbreviation State := (CommitState C).

Lemma commit_one_rob dh (s s' : State) active o :
  commit_one p policy dh s active = Ok (s', o) → shrinks (c_rob s) (c_rob s').
Proof.
  intros Hs. unfold commit_one in Hs. apply res_bind_Ok in Hs as ([tid prio] & _ & Hs).
  destruct tid as [t|]; [|injection Hs as <- _; by apply shrinks_refl].
  apply res_bind_Ok in Hs as (ready & _ & Hs).
  destruct ready; cbn [negb] in Hs; [|injection Hs as <- _; by apply shrinks_refl].
  apply res_bind_Ok in Hs as (ho & _ & Hs). apply res_bind_Ok in Hs as (h & _ & Hs).
  apply res_bind_Ok in Hs as ([] & _ & Hs).
  destruct (squashed (ri h)); [|destruct (dh h) as [after| |]].
  - apply res_bind_Ok in Hs as ([r y] & Hr & Hs). apply res_bind_Ok in Hs as (ch & _ & Hs).
    injection Hs as <- _. by eapply retireHead_shrinks.
  - apply res_bind_Ok in Hs as ([r y] & Hr%retireHead_shrinks & Hs).
    do 2 (apply res_bind_Ok in Hs as (? & _ & Hs)). destruct after; [|by injection Hs as <- _].
    do 3 (apply res_bind_Ok in Hs as (? & _ & Hs)). apply res_bind_Ok in Hs as (s1 & H1 & Hs).
    unfold set_status in H1. apply res_bind_Ok in H1 as (st & _ & H1). injection H1 as <-.
    by injection Hs as <- _.
  - apply res_bind_Ok in Hs as (s1 & H1 & Hs). unfold set_status in H1.
    apply res_bind_Ok in H1 as (st & _ & H1). injection H1 as <-. injection Hs as <- _.
    by apply shrinks_refl.
  - injection Hs as <- _. by apply shrinks_refl.
Qed.

Lemma walk_squash_rob (s s' : State) active exiting t out :
  walk_squash p active exiting (s, []) t = Ok (s', out) → shrinks (c_rob s) (c_rob s').
Proof.
  intros Hs. unfold walk_squash in Hs. apply res_bind_Ok in Hs as (st & _ & Hs).
  case_bool_decide; [|injection Hs as <- _; by apply shrinks_refl].
  apply res_bind_Ok in Hs as (d & _ & Hs). destruct d.
  - apply res_bind_Ok in Hs as (s1 & H1 & Hs). unfold set_status in H1.
    apply res_bind_Ok in H1 as (st' & _ & H1). injection H1 as <-. injection Hs as <- _.
    by apply shrinks_refl.
  - apply res_bind_Ok in Hs as ([r o] & Hd & Hs). apply res_bind_Ok in Hs as (ch & _ & Hs).
    injection Hs as <- _. by eapply doSquash_shrinks.
Qed.

(** No thread uses more groups than it may, which never changes. *)
Definition max0 : list Z :=
  replicate (rob_threads p) (initial_max p) ++ replicate (MaxThreads - rob_threads p) 0%Z.

Definition caps (r : ROB) : Prop :=
  maxEntries r = max0 ∧
  ∀ t gs m, threadGroups r !! t = Some gs → max0 !! t = Some m → (Z.of_nat (length gs) ≤ m)%Z.

Lemma caps_shrinks r r' : shrinks r r' → caps r → caps r'.
Proof.
  intros [E Hs] [E' Hc]. split; [by rewrite E|]. intros t gs' m Hg Hm.
  destruct (Hs t gs' Hg) as (gs & Hg' & Hle). specialize (Hc t gs m Hg' Hm). lia.
Qed.

Lemma insert_one_caps (s s' : State) t now x st :
  nth_res (c_status s) t = Ok st → squashed (ri x) = false → st ≠ ROBSquashing →
  st ≠ TrapPending → threadNumber (ri x) = t →
  insert_one p t now s x = Ok s' → caps (c_rob s) → caps (c_rob s').
Proof.
  intros Hst Hsq Hn1 Hn2 Hxt Hs [E Hc]. unfold insert_one in Hs.
  rewrite Hst, Hsq in Hs. cbn [res_bind] in Hs.
  rewrite !bool_decide_false in Hs by done. cbn [negb andb] in Hs.
  apply res_bind_Ok in Hs as (ch & _ & Hs). apply res_bind_Ok in Hs as (r & Hi & Hs).
  apply res_bind_Ok in Hs as (n & Hn & Hs). apply res_bind_Ok in Hs as (m & Hm & Hs).
  apply res_bind_Ok in Hs as ([] & Ha & Hs). apply res_bind_Ok in Hs as (ys & _ & Hs).
  injection Hs as <-. simpl. destruct (insertInst_other _ _ _ _ _ Hi) as [E1 E2].
  split; [by rewrite E1|]. intros u gs m' Hg Hm'. destruct (decide (u = Z.to_nat t)) as [->|Hne].
  - unfold getThreadEntries in Hn. apply res_bind_Ok in Hn as (gs' & [_ Hg']%nth_res_Ok & Hn).
    injection Hn as <-. apply nth_res_Ok in Hm as [_ Hm]. unfold assert_ in Ha.
    destruct (Z.leb_spec (Z.of_nat (length gs')) m); [|done].
    rewrite Hg' in Hg. injection Hg as <-. rewrite E1, E, Hm' in Hm. by injection Hm as <-.
  - rewrite E2 in Hg by congruence. by eapply Hc.
Qed.

Lemma Commit_new_caps width (s : State) :
  (0 ≤ initial_max p)%Z → Commit_new p policy width = Ok s → caps (c_rob s).
Proof.
  intros H0 Hn. unfold Commit_new, ROB_new in Hn. apply res_bind_Ok in Hn as (r & Hr & Hn).
  injection Hn as <-. apply res_bind_Ok in Hr as ([] & _ & Hr).
  apply res_bind_Ok in Hr as ([] & _ & Hr). injection Hr as <-. split; [done|]. intros t gs m Hg Hm.
  unfold resetState in Hg. cbn [c_rob threadGroups] in Hg.
  apply (lookup_replicate_1 MaxThreads) in Hg as [-> _]. simpl.
  apply lookup_app_Some in Hm as [Hm|[_ Hm]]; apply lookup_replicate_1 in Hm as [-> _]; lia.
Qed.

Lemma squashes_caps t a a' : squashes p t a a' → caps (c_rob a.1.1) → caps (c_rob a'.1.1).
Proof.
  destruct a as [[s fl] sgs], a' as [[s' fl'] sgs']. intros (_ & [n Hn] & _).
  by apply caps_shrinks; eapply squash_shrinks.
Qed.

(** ** The arrays have one entry per thread *)

Definition shape (s : State) : Prop :=
  length (c_status s) = rob_threads p ∧ length (c_fixed s) = rob_threads p ∧
  length (c_youngest s) = rob_threads p ∧ length (c_changed s) = rob_threads p.

Lemma squashInflight_shape (s s' : State) fl t fl' :
  squashInflightAndUpdateVersion s fl t = Ok (s', fl') → shape s → shape s'.
Proof.
  intros Hs (H1 & H2 & H3 & H4). unfold squashInflightAndUpdateVersion in Hs. shape_run Hs.
  unfold shape; simpl in *; repeat split; congruence.
Qed.

Lemma squashAll_shape (s s' : State) fl t fl' sg :
  squashAll p s fl t = Ok (s', fl', sg) → shape s → shape s'.
Proof.
  intros Hs (H1 & H2 & H3 & H4). unfold squashAll in Hs.
  do 3 (apply res_bind_Ok in Hs as (? & _ & Hs)). shape_run Hs.
  eapply squashInflight_shape; [eassumption|].
  unfold shape; simpl in *; repeat split; congruence.
Qed.

Lemma commit_squash_shape (s s' : State) iew fl sgs t fl' sgs' :
  commit_squash p iew (s, fl, sgs) t = Ok (s', fl', sgs') → shape s → shape s'.
Proof.
  intros Hs H0. unfold commit_squash in Hs.
  do 3 (apply res_bind_Ok in Hs as (? & _ & Hs)).
  apply res_bind_Ok in Hs as ([[s1 fl1] sgs1] & H1 & Hs). assert (shape s1) as (E1 & E2 & E3 & E4).
  { clear Hs. cbv [squashFromTrap squashFromTC squashFromSquashAfter] in H1.
    assert (∀ s1 fl1 sg1, squashAll p s fl t = Ok (s1, fl1, sg1) → shape s1) as Ha
      by (intros; by eapply squashAll_shape).
    shape_run H1; try done;
      match goal with E : res_bind _ _ = Ok _ |- _ => shape_run E end;
      match goal with E : _ = Ok (_, _, _) |- _ => apply Ha in E as (? & ? & ? & ?) end;
      unfold shape; simpl in *; repeat split; congruence. }
  unfold squashFromIEW in Hs. shape_run Hs; try done.
  match goal with E : res_bind _ _ = Ok _ |- _ => shape_run E end.
  eapply squashInflight_shape; [eassumption|].
  unfold shape; simpl in *; repeat split; congruence.
Qed.

Lemma walk_squash_shape (s s' : State) active exiting t out :
  walk_squash p active exiting (s, []) t = Ok (s', out) → shape s → shape s'.
Proof.
  intros Hs (H1 & H2 & H3 & H4). unfold walk_squash in Hs. shape_run Hs;
    unfold shape; simpl in *; repeat split; congruence.
Qed.

Lemma take_in_shape (s s' : State) fl : take_in s fl = Ok s' → shape s → shape s'.
Proof.
  intros Hs (H1 & H2 & H3 & H4). unfold take_in in Hs. destruct fl as [|x fl]; [by injection Hs as <-|].
  do 3 (apply res_bind_Ok in Hs as (? & _ & Hs)). shape_run Hs.
  unfold shape; simpl in *; repeat split; congruence.
Qed.

Lemma insert_one_shape (s s' : State) t now x :
  insert_one p t now s x = Ok s' → shape s → shape s'.
Proof.
  intros Hs (H1 & H2 & H3 & H4). unfold insert_one in Hs. apply res_bind_Ok in Hs as (st & _ & Hs).
  destruct (_ && _ && _); [|by injection Hs as <-]. shape_run Hs.
  unfold shape; simpl in *; repeat split; congruence.
Qed.

Lemma commit_one_shape dh (s s' : State) active o :
  commit_one p policy dh s active = Ok (s', o) → shape s → shape s'.
Proof.
  intros Hs (H1 & H2 & H3 & H4). unfold commit_one in Hs.
  apply res_bind_Ok in Hs as ([tid prio] & _ & Hs).
  shape_run Hs; unfold shape; simpl in *; repeat split; congruence.
Qed.

Lemma Commit_new_shape width (s : State) : Commit_new p policy width = Ok s → shape s.
Proof.
  intros Hn. unfold Commit_new in Hn. apply res_bind_Ok in Hn as (r & Hr & Hn). injection Hn as <-.
  unfold shape. simpl. by rewrite !length_replicate.
Qed.

Lemma nth_nat {A} (k : list A) t a :
  k !! t = Some a → nth_res k (Z.of_nat t) = Ok a ∧
  ∀ b, set_nth k (Z.of_nat t) b = Ok (<[t := b]> k).
Proof.
  intros Hk. rewrite <- (Nat2Z.id t) in Hk.
  destruct (nth_view k (Z.of_nat t) a ltac:(lia) Hk) as [E1 E2]. split; [done|].
  intros b. rewrite E2. by rewrite Nat2Z.id.
Qed.

(** ** What arrives *)

Context {CL : CircularBufferLaws C RobInst}.

(** The instructions of a thread that wait, with those arriving. *)
Definition waiting (fl : list RobInst) (t : nat) (fb : C) : list RobInst :=
  cb_elems fb ++ filter (λ x, squashed (ri x) = false ∧ threadNumber (ri x) = Z.of_nat t) fl.

Lemma take_in_ok (s : State) fl :
  (fl = [] ∨ ∃ u fb, c_fixed s !! u = Some fb ∧ cb_elems fb = [] ∧
    length fl ≤ cb_capacity fb ∧ Forall (λ x, threadNumber (ri x) = Z.of_nat u) fl) →
  ∃ s', take_in s fl = Ok s' ∧ c_rob s' = c_rob s ∧ c_status s' = c_status s ∧
    ∀ t fb, c_fixed s !! t = Some fb → ∃ fb', c_fixed s' !! t = Some fb' ∧
      cb_elems fb' = waiting fl t fb ∧ cb_capacity fb' = cb_capacity fb.
Proof.
  intros [->|(u & fb & Hu & Hem & Hcap & Hall)].
  { exists s. repeat split; try done. intros t fb Hf. exists fb. unfold waiting.
    by rewrite filter_nil, app_nil_r. }
  destruct fl as [|x fl].
  { exists s. repeat split; try done. intros t fb' Hf. exists fb'. unfold waiting.
    by rewrite filter_nil, app_nil_r. }
  pose proof Hall as [Hx _]%Forall_cons. unfold take_in. rewrite Hx, (proj1 (nth_nat _ _ _ Hu)).
  cbn [res_bind]. unfold cb_empty. rewrite bool_decide_true by done. cbn [assert_ res_bind].
  assert (∀ k c, Forall (λ x, threadNumber (ri x) = Z.of_nat u) k →
    res_fold (λ fb x, do! assert_ (threadNumber (ri x) =? Z.of_nat u)%Z "inst->threadNumber == tid" in
      Ok (if squashed (ri x) then fb else cb_push_back fb x)) c k =
    Ok (foldl (λ c x, if squashed (ri x) then c else cb_push_back c x) c k)) as Hfold.
  { induction k as [|y k IH]; intros c Hk; [done|]. apply Forall_cons in Hk as [Hy Hk].
    cbn [res_fold foldl]. rewrite Hy, Z.eqb_refl. cbn [assert_ res_bind]. by apply IH. }
  rewrite Hfold by done. cbn [res_bind].
  rewrite (proj2 (nth_nat _ _ _ Hu)). cbn [res_bind]. eexists. split; [done|].
  split; [done|]. split; [done|]. intros t fb' Hf. cbn [with_fixed c_fixed].
  destruct (decide (u = t)) as [<-|Hne].
  - rewrite Hu in Hf. injection Hf as <-. eexists.
    split; [apply list_lookup_insert_eq; by eapply lookup_lt_Some|].
    split; [|apply (cb_push_filter_cap (λ x, squashed (ri x)))].
    rewrite (cb_push_filter (λ x, squashed (ri x))), Hem by (rewrite Hem; simpl in *; lia).
    unfold waiting. rewrite Hem. simpl app. clear -Hall.
    induction Hall as [|y k Hy _ IH]; [done|]. rewrite !filter_cons, IH.
    destruct (decide (squashed (ri y) = false)) as [E|E].
    + by rewrite decide_True.
    + by rewrite decide_False by tauto.
  - exists fb'. rewrite list_lookup_insert_ne by done. split; [done|]. unfold waiting.
    split; [|done]. rewrite (filter_none _ (x :: fl)), app_nil_r; [done|].
    eapply Forall_impl; [exact Hall|]. simpl. lia.
Qed.

(** ** Capacity *)

(** The entries the threads may use add up to no more than the buffer has. *)
Definition shares_fit : Prop :=
  (0 ≤ initial_max p)%Z ∧ (Z.of_nat (rob_threads p) * initial_max p ≤ numEntries p)%Z.

(** They do when the entries are partitioned, or used by one thread; under the
    dynamic policy with two threads, or a large threshold, they do not. *)
Lemma shares_fit_policy :
  (0 ≤ numEntries p)%Z →
  robPolicy p = Partitioned ∧ 1 ≤ rob_threads p ∨ robPolicy p = Dynamic ∧ rob_threads p = 1 →
  shares_fit.
Proof.
  intros H0 Hshare. unfold shares_fit, initial_max. destruct Hshare as [[-> H1]|[-> ->]]; [|lia].
  pose proof (Z.mul_div_le (numEntries p) (Z.of_nat (rob_threads p)) ltac:(lia)).
  pose proof (Z.div_pos (numEntries p) (Z.of_nat (rob_threads p)) H0 ltac:(lia)). lia.
Qed.

Context (Hp : params_ok p) (Hn : rob_threads p ≤ MaxThreads).
(** The shares of the threads fit the buffer. *)
Context (Hshare : shares_fit).
Context (Hwide : (numEntries p * instsPerGroup p < 2 ^ 32)%Z).

Lemma share_sum : (0 ≤ initial_max p)%Z ∧ (sumZ id max0 ≤ numEntries p)%Z.
Proof.
  unfold max0. rewrite sumZ_app, !sumZ_replicate. unfold id. destruct Hshare as [H1 H2]. lia.
Qed.

Lemma max0_nonneg t m : max0 !! t = Some m → (0 ≤ m ≤ numEntries p)%Z.
Proof.
  destruct share_sum as [H0 Hs]. intros Hm.
  assert (Forall (λ m, 0 ≤ m)%Z max0) as Hall.
  { apply Forall_app. split; by apply Forall_replicate. }
  split; [by eapply (Forall_lookup_1 _ _ _ _ Hall)|].
  assert (sumZ id (take t max0 ++ m :: drop (S t) max0) = sumZ id max0) as E
    by (f_equal; by apply take_drop_middle).
  rewrite sumZ_app, sumZ_cons in E.
  assert (∀ l, Forall (λ m, 0 ≤ m)%Z l → (0 ≤ sumZ id l)%Z) as Hnn.
  { intros l Hl. induction Hl; [done|]. rewrite sumZ_cons. unfold id in *. lia. }
  pose proof (Hnn _ (Forall_take _ t _ Hall)). pose proof (Hnn _ (Forall_drop _ (S t) _ Hall)).
  unfold id in *. lia.
Qed.

(** The groups bound the instructions. *)
Lemma caps_total r :
  rob_inv p r → caps r → (0 ≤ numInstsInROB r ≤ numEntries p * instsPerGroup p)%Z.
Proof.
  intros Hr [_ Hc]. rewrite (rv_num _ _ Hr). pose proof (po_group _ Hp) as Hg.
  assert (total (instList r) ≤ sumZ (λ m, m * instsPerGroup p) max0)%Z as Hle.
  { apply sumZ_pointwise.
    - intros t l Hl. assert (t < MaxThreads) as Ht
        by (rewrite <- (rv_insts _ _ Hr); by eapply lookup_lt_Some).
      destruct (view_exists p r t Hr Ht) as (gs & l' & it & sq & d & [V1 V2 _ _ _] & Hok).
      assert (l' = l) as -> by congruence.
      destruct (lookup_lt_is_Some_2 max0 t) as [m Hm].
      { unfold max0. rewrite length_app, !length_replicate. lia. }
      exists m. split; [done|]. specialize (Hc t gs m V1 Hm).
      pose proof (cut_length p gs l (th_cut _ _ _ _ _ Hok)) as [_ Hl2]. nia.
    - apply Forall_lookup_2. intros t m Hm%max0_nonneg. nia. }
  assert (∀ l, sumZ (λ m, m * instsPerGroup p) l = sumZ id l * instsPerGroup p)%Z as E.
  { induction l as [|a l IH]; [done|]. rewrite !sumZ_cons, IH. unfold id. lia. }
  rewrite E in Hle. pose proof (proj2 share_sum).
  split; [apply sumZ_nonneg; lia|]. nia.
Qed.

Lemma insertInst_groups r x now r' gs :
  insertInst p r x now = Ok r' →
  threadGroups r !! Z.to_nat (threadNumber (ri x)) = Some gs →
  ∃ gs', threadGroups r' !! Z.to_nat (threadNumber (ri x)) = Some gs' ∧
    length gs' ≤ S (length gs).
Proof.
  intros Hi Hg. unfold insertInst in Hi. apply res_bind_Ok in Hi as ([] & _ & Hi).
  apply res_bind_Ok in Hi as (gs0 & [H0 Hg0]%nth_res_Ok & Hi). rewrite Hg in Hg0. injection Hg0 as <-.
  apply res_bind_Ok in Hi as (l & _ & Hi). apply res_bind_Ok in Hi as (alloc & _ & Hi).
  apply res_bind_Ok in Hi as (gs' & Hgs & Hi). apply res_bind_Ok in Hi as (h & _ & Hi).
  apply res_bind_Ok in Hi as (tg & Ht & Hi). apply res_bind_Ok in Hi as (ls & _ & Hi).
  injection Hi as <-. exists gs'. simpl. rewrite (proj2 (nth_view _ _ _ H0 Hg)) in Ht.
  injection Ht as <-. split; [apply list_lookup_insert_eq; by eapply lookup_lt_Some|].
  destruct alloc; [injection Hgs as <-; rewrite length_app; simpl; lia|].
  destruct gs as [|n gs _] using rev_ind; [done|]. rewrite last_snoc, removelast_last in Hgs.
  apply res_bind_Ok in Hgs as ([] & _ & Hgs). injection Hgs as <-. rewrite !length_app. simpl. lia.
Qed.

(** ** The instructions of one buffer *)

(** Instructions of a thread in program order, after all that came before. *)
Record incoming (H : nat → Hist) (t : nat) (l : list RobInst) : Prop := {
  in_thread : Forall (λ x, threadNumber (ri x) = Z.of_nat t ∧ squashed (ri x) = false) l;
  in_after : ∀ s x, s ∈ h_in (H t) → x ∈ l → (s < ri_seq x)%Z;
  in_sorted : sorted l
}.

Definition open_status (st : ThreadStatus) : Prop := st ≠ ROBSquashing ∧ st ≠ TrapPending.

Lemma incoming_cons H t x l h :
  incoming H t (x :: l) → h_in h = h_in (H t) ++ [ri_seq x] → incoming (upd H t h) t l.
Proof.
  intros [[_ H1]%Forall_cons H2 H3] E. split; [done| |].
  - intros s y Hs Hy. unfold upd in Hs. rewrite decide_True, E in Hs by done.
    apply elem_of_app in Hs as [Hs| ->%list_elem_of_singleton].
    + apply H2; [done|by right].
    + apply (sorted_app [x] l) in H3 as (_ & _ & Hlt). apply Hlt; [by left|done].
  - by apply (sorted_app [x] l) in H3 as (_ & H3 & _).
Qed.

Lemma insert_one_fits (s : State) H t now x l gs m st :
  stage_inv p s H → caps (c_rob s) → shape s → t < rob_threads p →
  c_status s !! t = Some st → open_status st → incoming H t (x :: l) →
  threadGroups (c_rob s) !! t = Some gs → max0 !! t = Some m →
  (Z.of_nat (length gs) < m)%Z →
  ∃ s' gs' l0, insert_one p (Z.of_nat t) now s x = Ok s' ∧
    c_status s' = c_status s ∧ c_fixed s' = c_fixed s ∧
    threadGroups (c_rob s') !! t = Some gs' ∧ length gs' ≤ S (length gs) ∧
    instList (c_rob s) !! t = Some l0 ∧
    instList (c_rob s') = <[t := l0 ++ [setInROB x]]> (instList (c_rob s)).
Proof.
  intros [Hr Hw] Hc (S1 & S2 & S3 & S4) Ht Hst [Hn1 Hn2] [[[Hxt Hsq] _]%Forall_cons _ _] Hg Hm Hlt.
  pose proof (rob_reachable_inv p Hp _ _ Hr) as [Hri _].
  destruct (view_exists p (c_rob s) t Hri) as (gs0 & l0 & it & sq & d & V & _); [lia|].
  pose proof V as [V1 V2 _ _ _].
  destruct (insertInst_eq p (po_group _ Hp) (c_rob s) x now gs0 l0 it sq d Hri) as (gs1 & h & _ & Ei);
    [lia|by rewrite Hxt, Nat2Z.id|].
  pose proof (caps_total _ Hri Hc) as [B1 B2].
  rewrite (proj2 (Z.leb_le _ _)) in Ei.
  2: { unfold u32. rewrite !wrapu_small by (unfold in_u; lia). done. }
  cbn [assert_ res_bind] in Ei. rewrite Hxt, Nat2Z.id in Ei.
  assert (∃ gs', threadGroups (c_rob s) !! t = Some gs ∧ gs' = gs1 ∧ length gs' ≤ S (length gs))
    as (gs' & _ & -> & Hlen).
  { destruct (insertInst_groups _ _ _ _ gs Ei) as (gs' & Hg' & Hl); [by rewrite Hxt, Nat2Z.id|].
    exists gs'. split; [done|]. split; [|done]. rewrite Hxt, Nat2Z.id in Hg'. simpl in Hg'.
    rewrite list_lookup_insert_eq in Hg' by (by eapply lookup_lt_Some). congruence. }
  destruct (lookup_lt_is_Some_2 (c_changed s) t) as [ch0 Hch]; [lia|].
  destruct (lookup_lt_is_Some_2 (c_youngest s) t) as [y0 Hy]; [lia|].
  unfold insert_one. rewrite (proj1 (nth_nat _ _ _ Hst)). cbn [res_bind].
  rewrite Hsq, !bool_decide_false by done. cbn [negb andb]. rewrite (proj2 (nth_nat _ _ _ Hch)). cbn [res_bind].
  rewrite Ei. cbn [res_bind]. unfold getThreadEntries. cbn [threadGroups maxEntries].
  rewrite (proj1 (nth_nat (<[t:=gs1]> (threadGroups (c_rob s))) t gs1
    (list_lookup_insert_eq _ _ _ (lookup_lt_Some _ _ _ Hg)))).
  cbn [res_bind]. rewrite (proj1 Hc), (proj1 (nth_nat _ _ _ Hm)). cbn [res_bind].
  rewrite (proj2 (Z.leb_le _ _)) by lia. cbn [assert_ res_bind].
  rewrite (proj2 (nth_nat _ _ _ Hy)). cbn [res_bind].
  eexists _, gs1, l0. split; [done|]. simpl. repeat split; try done.
  apply list_lookup_insert_eq. by eapply lookup_lt_Some.
Qed.

Lemma insert_all_fits now t m st l : ∀ (s : State) H gs l0,
  stage_inv p s H → caps (c_rob s) → shape s → t < rob_threads p →
  c_status s !! t = Some st → open_status st → incoming H t l →
  threadGroups (c_rob s) !! t = Some gs → instList (c_rob s) !! t = Some l0 →
  max0 !! t = Some m → (Z.of_nat (length gs + length l) ≤ m)%Z →
  ∃ s', res_fold (insert_one p (Z.of_nat t) now) s l = Ok s' ∧
    c_fixed s' = c_fixed s ∧ caps (c_rob s') ∧ rob_inv p (c_rob s') ∧ shape s' ∧
    instList (c_rob s') = <[t := l0 ++ map setInROB l]> (instList (c_rob s)).
Proof.
  induction l as [|x l IH]; intros s H gs l0 Hi Hc Hsh Ht Hst Hop Hin Hg Hl Hm Hle.
  - exists s. simpl. rewrite app_nil_r, list_insert_id by done. split; [done|].
    split; [done|]. split; [done|]. split; [|done]. apply (rob_reachable_inv p Hp _ _ (proj1 Hi)).
  - destruct (insert_one_fits s H t now x l gs m st) as
      (s1 & gs1 & l1 & Hs1 & E1 & E2 & Hg1 & Hlen & Hl1 & El); try done.
    { simpl in Hle. lia. }
    rewrite Hl in Hl1. injection Hl1 as <-. cbn [res_fold]. rewrite Hs1. cbn [res_bind].
    pose proof Hin as [[[Hxt Hsq] _]%Forall_cons Haf _].
    pose proof Hst as [Hst' _]%nth_nat.
    assert (thread (Z.of_nat t)) as Hth by (unfold thread; lia).
    assert (fresh H (Z.of_nat t) x) as Hf.
    { split; [done|]. rewrite Nat2Z.id. intros s0 Hs0. apply Haf; [done|by left]. }
    pose proof (insert_one_inv p Hp s s1 H _ now x st Hi Hth Hst' Hsq (proj1 Hop) (proj2 Hop) Hf Hs1)
      as Hi1. rewrite Nat2Z.id in Hi1.
    edestruct (IH s1 _ gs1 (l0 ++ [setInROB x]) Hi1) as (s' & Hs' & F1 & F2 & F3 & F4 & F5).
    + by eapply insert_one_caps; [exact Hst'|exact Hsq|apply Hop|apply Hop|exact Hxt|exact Hs1|].
    + by eapply insert_one_shape.
    + done.
    + by rewrite E1.
    + done.
    + by eapply incoming_cons.
    + done.
    + rewrite El. apply list_lookup_insert_eq. by eapply lookup_lt_Some.
    + done.
    + simpl in Hle. lia.
    + exists s'. split; [done|]. rewrite F5, El, list_insert_insert_eq, <- app_assoc. simpl.
      by rewrite F1, E2.
Qed.

(** ** The choice of the thread *)

Definition signals_ok (sg : StallSignals) : Prop :=
  length (blockIEW sg) = MaxThreads ∧ length (iewBlockReason sg) = MaxThreads.

(** A thread may go in. *)
Definition admits (s : State) (t : nat) : Prop :=
  t < rob_threads p ∧ ∃ st m gs fb,
    c_status s !! t = Some st ∧ open_status st ∧ max0 !! t = Some m ∧
    threadGroups (c_rob s) !! t = Some gs ∧ c_fixed s !! t = Some fb ∧
    (Z.of_nat (length gs + length (cb_elems fb)) ≤ m)%Z.

Lemma pick_thread_ok (s : State) robStall tid sg i :
  caps (c_rob s) → rob_inv p (c_rob s) → shape s → length robStall = MaxThreads →
  i < rob_threads p → signals_ok sg →
  (∀ t, tid = Some t → ∃ u, t = Z.of_nat u ∧ admits s u) →
  ∃ tid' sg', pick_thread s robStall (tid, sg) i = Ok (tid', sg') ∧ signals_ok sg' ∧
    ∀ t, tid' = Some t → ∃ u, t = Z.of_nat u ∧ admits s u.
Proof.
  intros Hc Hri (S1 & S2 & S3 & S4) Hrs Hi [G1 G2] Hadm.
  destruct (lookup_lt_is_Some_2 (c_status s) i) as [st Hst]; [lia|].
  destruct (lookup_lt_is_Some_2 (c_fixed s) i) as [fb Hfb]; [lia|].
  destruct (lookup_lt_is_Some_2 max0 i) as [m Hm].
  { unfold max0. rewrite length_app, !length_replicate. lia. }
  destruct (lookup_lt_is_Some_2 (threadGroups (c_rob s)) i) as [gs Hg]; [rewrite (rv_groups _ _ Hri); lia|].
  destruct (lookup_lt_is_Some_2 robStall i) as [rs Hr]; [lia|].
  destruct (lookup_lt_is_Some_2 (blockIEW sg) i) as [b Hb]; [lia|].
  destruct (lookup_lt_is_Some_2 (iewBlockReason sg) i) as [br Hbr]; [lia|].
  unfold pick_thread. rewrite (proj1 (nth_nat _ _ _ Hst)). cbn [res_bind].
  rewrite (proj1 Hc), (proj1 (nth_nat _ _ _ Hm)). cbn [res_bind].
  unfold getThreadEntries. rewrite (proj1 (nth_nat _ _ _ Hg)). cbn [res_bind].
  rewrite (proj1 (nth_nat _ _ _ Hfb)). cbn [res_bind].
  set (robblock := bool_decide _ || bool_decide _).
  set (block := (_ <? _)%Z || robblock). set (active := negb block && _).
  rewrite (proj1 (nth_nat _ _ _ Hr)).
  destruct (if robblock then _ else _) as [reason|] eqn:Er;
    [|by destruct robblock, block]. cbn [res_bind].
  rewrite (proj2 (nth_nat _ _ _ Hb)), (proj2 (nth_nat _ _ _ Hbr)). cbn [res_bind].
  destruct active eqn:Ea.
  2: { eexists _, _. split; [done|]. split; [by split; simpl; rewrite length_insert|done]. }
  destruct tid as [t|].
  - destruct (Hadm t eq_refl) as (u & -> & Hu & Hadm').
    destruct (lookup_lt_is_Some_2 (<[i:=block]> (blockIEW sg)) u) as [b1 Hb1];
      [rewrite length_insert; lia|]. rewrite (proj2 (nth_nat _ _ _ Hb1)). cbn [res_bind].
    destruct (lookup_lt_is_Some_2 (<[u:=true]> (<[i:=block]> (blockIEW sg))) i) as [b2 Hb2];
      [rewrite !length_insert; lia|]. rewrite (proj2 (nth_nat _ _ _ Hb2)). cbn [res_bind].
    eexists _, _. split; [done|]. split; [by split; simpl; rewrite !length_insert|].
    intros t [= <-]. by exists u.
  - eexists _, _. split; [done|]. split; [by split; simpl; rewrite length_insert|].
    intros t [= <-]. exists i. split; [done|]. split; [done|]. exists st, m, gs, fb.
    unfold active, block, robblock in Ea. apply andb_true_iff in Ea as [Ea _].
    apply negb_true_iff, orb_false_iff in Ea as [Ea1%Z.ltb_ge [Ea2 Ea3]%orb_false_iff].
    apply bool_decide_eq_false in Ea2, Ea3. pose proof (max0_nonneg _ _ Hm).
    pose proof (proj2 Hc i gs m Hg Hm). pose proof (po_group _ Hp).
    unfold u32 in Ea1. rewrite wrapu_small in Ea1 by (unfold in_u; nia).
    repeat split; try done. lia.
Qed.

End Stage.
End CommitIntake.
