(* ===== verification/CommitRun.v ===== *)
(** Runs of the commit stage, from the arrival of an instruction to its end.

    [crun] are the runs in which rename sends instructions as the stall signals of
    the stage allow; a log of each thread says which instructions arrived, retired,
    were squashed in the reorder buffer or dropped before they were in it. *)
From Stdlib Require Import Sorted.
From S2P Require Import Prelude Double RegFile Inst Comm CircularBuffer.
From S2P Require Import Rob RobInv RobProps RobTrace Commit CommitProps CommitIntake.
Import Rob RobInv RobProps RobTrace Commit CommitProps CommitIntake.

Module CommitRun.

(** ** Logs *)

Record Log := mkLog {
  l_arr : list Z;     (** arrived from rename, not squashed *)
  l_drop : list Z;    (** dropped by a squash before insertion *)
  l_ret : list Z;     (** retired *)
  l_sq : list Z       (** squashed in the reorder buffer *)
}.

Section Run.

Context (p : RobParams) (policy : CommitPolicy) (width : nat).
Context {C : Type} `{CB : CircularBuffer C RobInst}.
Abbreviation State := (CommitState C).
Abbreviation Loop := (State * list RobInst * list SquashSignal)%type.

Definition seqs (l : list RobInst) : list Z := map ri_seq l.

(** The instructions of a thread among those rename sends. *)
Definition sent (t : nat) (fl : list RobInst) : list RobInst :=
  filter (λ x, squashed (ri x) = false ∧ threadNumber (ri x) = Z.of_nat t) fl.

Definition squashed_tids (sgs : list SquashSignal) : list nat :=
  map (λ g, Z.to_nat (sg_tid g)) sgs.

Definition buffered (s : State) (t : nat) : list RobInst :=
  match c_fixed s !! t with Some fb => cb_elems fb | None => [] end.

(** A cycle takes in what is sent.  A squash of the thread drops what waited in its
    buffer; a squash of any thread drops all that arrives in the cycle. *)
Definition log_cycle (s : State) (fl : list RobInst) (sgs : list SquashSignal) (L : nat → Log)
    : nat → Log := λ t,
  mkLog (l_arr (L t) ++ seqs (sent t fl))
    (l_drop (L t) ++
     (if bool_decide (t ∈ squashed_tids sgs) then seqs (buffered s t) else []) ++
     (if bool_decide (sgs = []) then [] else seqs (sent t fl)))
    (l_ret (L t)) (l_sq (L t)).

Definition log_walk (tid : Z) (out : list RobInst) (L : nat → Log) : nat → Log := λ t,
  mkLog (l_arr (L t)) (l_drop (L t)) (l_ret (L t))
    (l_sq (L t) ++ (if decide (t = Z.to_nat tid) then seqs out else [])).

Definition log_commit (o : option RobInst) (L : nat → Log) : nat → Log := λ t,
  mkLog (l_arr (L t)) (l_drop (L t))
    (l_ret (L t) ++ match o with
                    | Some y => if decide (t = Z.to_nat (threadNumber (ri y))) then [ri_seq y] else []
                    | None => []
                    end)
    (l_sq (L t)).

(** What rename sends in a cycle: at most [width] instructions of one thread, in
    program order, and only when the stage did not block the thread in the cycle
    before ([blockIEW], which IEW hands on to rename in the same cycle). *)
Definition sends (sg : StallSignals) (L : nat → Log) (fl : list RobInst) : Prop :=
  fl = [] ∨ ∃ u, u < rob_threads p ∧ blockIEW sg !! u = Some false ∧ length fl ≤ width ∧
    Forall (λ x, threadNumber (ri x) = Z.of_nat u) fl ∧ sorted fl ∧
    ∀ n x, n ∈ l_arr (L u) → x ∈ fl → (n < ri_seq x)%Z.

(** The stage with its stall signals and the log.  The steps of [Commit::tick] are
    taken in any order; a trap or a write through a thread context sets the squash
    flags, and execution changes the status of instructions. *)
Inductive crun : State → StallSignals → (nat → Log) → Prop :=
  | run_new s : Commit_new p policy width = Ok s →
      crun s StallSignals_new (λ _, mkLog [] [] [] [])
  | run_walk s sg L active exiting tid s' out :
      crun s sg L → thread tid → active_ok active →
      walk_squash p active exiting (s, []) tid = Ok (s', out) → crun s' sg (log_walk tid out L)
  | run_cycle s sg L iew active fl robStall now s' sg' sgs :
      crun s sg L → active_ok active → sends sg L fl →
      commit_intake p iew active s fl sg robStall now = Ok (s', sg', sgs) →
      crun s' sg' (log_cycle s fl sgs L)
  | run_commit s sg L dh active s' o :
      crun s sg L → commit_one p policy dh s active = Ok (s', o) → crun s' sg (log_commit o L)
  | run_status s sg L t l l' :
      crun s sg L → instList (c_rob s) !! t = Some l → Forall2 same_inst l l' →
      crun (with_rob s (set_insts (c_rob s) t l')) sg L
  | run_events s sg L trap tc :
      crun s sg L →
      crun (mkCommit (c_status s) (c_fixed s) (c_rob s) (c_youngest s) (c_lastCommitted s)
        (c_priority s) trap tc (c_squashAfterInst s) (c_changed s) (c_ver s)) sg L.

Context (Hp : params_ok p) (Hn : rob_threads p ≤ MaxThreads).
Context {CL : CircularBufferLaws C RobInst}.

(** ** Accounts *)

(** The instructions of a thread: what arrived is inserted, dropped or waiting. *)
Record accounts (h : Hist) (l : Log) (wait : list RobInst) : Prop := {
  ac_ret : h_ret h = l_ret l;
  ac_sq : h_sq h = l_sq l;
  ac_all : l_arr l ≡ₚ h_in h ++ l_drop l ++ seqs wait;
  ac_order : (h_in h ++ seqs wait) `sublist_of` l_arr l;
  ac_sorted : StronglySorted Z.lt (l_arr l)
}.

Definition of_thread (t : nat) (l : list RobInst) : Prop :=
  Forall (λ x, threadNumber (ri x) = Z.of_nat t ∧ squashed (ri x) = false) l.

Record held (s : State) (L : nat → Log) : Prop := {
  hd_stage : ∃ H, stage_inv p s H ∧
    ∀ t fb, c_fixed s !! t = Some fb → accounts (H t) (L t) (cb_elems fb);
  hd_buf : ∀ t fb, c_fixed s !! t = Some fb →
    of_thread t (cb_elems fb) ∧ cb_capacity fb = width;
  hd_shape : shape p s;
  hd_caps : (0 ≤ initial_max p)%Z → caps p (c_rob s)
}.

(** A thread that is not blocked has nothing waiting. *)
Record run_inv (s : State) (sg : StallSignals) (L : nat → Log) : Prop := {
  ri_held : held s L;
  ri_sig : signals_ok sg;
  ri_open : ∀ t fb, c_fixed s !! t = Some fb → blockIEW sg !! t = Some false → cb_elems fb = []
}.

Lemma sorted_sublist (k l : list Z) : k `sublist_of` l → StronglySorted Z.lt l → StronglySorted Z.lt k.
Proof.
  induction 1 as [|x k l Hs IH|x k l Hs IH]; intros Hl; [done| |].
  - apply StronglySorted_inv in Hl as [Hl Hx]. constructor; [by apply IH|].
    rewrite Forall_forall in *. intros y Hy. apply Hx. by eapply elem_of_sublist.
  - apply StronglySorted_inv in Hl as [Hl _]. by apply IH.
Qed.

Lemma sorted_concat (k l : list Z) :
  StronglySorted Z.lt k → StronglySorted Z.lt l → (∀ a b, a ∈ k → b ∈ l → (a < b)%Z) →
  StronglySorted Z.lt (k ++ l).
Proof.
  intros Hk Hl Hlt. induction Hk as [|a k Hk IH Ha]; [done|]. simpl. constructor.
  - apply IH. intros. apply Hlt; [by right|done].
  - apply Forall_app. split; [done|]. apply Forall_forall. intros b Hb. apply Hlt; [by left|done].
Qed.

Lemma sorted_app_lt (k l : list Z) a b :
  StronglySorted Z.lt (k ++ l) → a ∈ k → b ∈ l → (a < b)%Z.
Proof.
  induction k as [|c k IH]; intros Hs Ha Hb; [by apply elem_of_nil in Ha|].
  simpl in Hs. apply StronglySorted_inv in Hs as [Hs Hc]. apply elem_of_cons in Ha as [->|Ha].
  - rewrite Forall_forall in Hc. apply Hc, elem_of_app. by right.
  - by apply IH.
Qed.

(** What waits may be inserted: program order at arrival is program order at
    insertion. *)
Lemma accounts_incoming H L t wait :
  accounts (H t) (L t) wait → of_thread t wait → incoming H t wait.
Proof.
  intros [_ _ _ Ho Hs] Hw. pose proof (sorted_sublist _ _ Ho Hs) as Hs'.
  split; [done| |].
  - intros n x Hn' Hx. eapply sorted_app_lt; [exact Hs'|done|]. apply list_elem_of_fmap. by exists x.
  - eapply sorted_sublist; [|exact Hs']. by apply sublist_inserts_l.
Qed.

(** ** Squashes *)

(** After the squash loop: the buffers of squashed threads are empty, and what
    arrives is marked when there was a squash. *)
Definition cleared (s0 : State) (fl0 : list RobInst) (a : Loop) : Prop :=
  let '(s, fl, sgs) := a in
  (∀ t fb0, c_fixed s0 !! t = Some fb0 → ∃ fb, c_fixed s !! t = Some fb ∧
     cb_capacity fb = cb_capacity fb0 ∧
     cb_elems fb = if bool_decide (t ∈ squashed_tids sgs) then [] else cb_elems fb0) ∧
  fl = if bool_decide (sgs = []) then fl0 else map mark_squashed fl0.

Lemma mark_idem (l : list RobInst) : map mark_squashed (map mark_squashed l) = map mark_squashed l.
Proof. rewrite map_map. by apply map_ext. Qed.

Lemma cleared_step s0 fl0 t a a' : squashes p t a a' → cleared s0 fl0 a → cleared s0 fl0 a'.
Proof.
  destruct a as [[s fl] sgs], a' as [[s' fl'] sgs'].
  intros (_ & _ & Efl & (sg & Esg & ->) & fb & [Ht Hfb]%nth_res_Ok & Efx) [Hb Hfl]. split.
  - intros u fb0 Hu. destruct (Hb u fb0 Hu) as (fb1 & Hu1 & Ec & Ee). rewrite Efx.
    unfold squashed_tids in *. rewrite map_app. simpl. rewrite Esg.
    destruct (decide (Z.to_nat t = u)) as [<-|Hne].
    + rewrite Hfb in Hu1. injection Hu1 as <-. exists (cb_clear fb).
      rewrite list_lookup_insert_eq by (by eapply lookup_lt_Some).
      rewrite cb_cap_clear, cb_elems_clear, bool_decide_true by set_solver. done.
    + exists fb1. rewrite list_lookup_insert_ne by done. split; [done|]. split; [done|].
      rewrite Ee, (bool_decide_ext _ (u ∈ map (λ g, Z.to_nat (sg_tid g)) sgs ++ [Z.to_nat t])); [done|].
      set_solver.
  - rewrite Efl, Hfl. rewrite (bool_decide_false (sgs ++ [sg] = [])) by (by destruct sgs).
    case_bool_decide; [done|]. apply mark_idem.
Qed.

Lemma squash_loop_cleared iew active (s : State) fl a :
  active_ok active → res_fold (commit_squash p iew) (s, fl, []) active = Ok a → cleared s fl a.
Proof.
  intros Ha. apply squash_loop_keep; [done| |].
  - split; [|by rewrite bool_decide_true]. intros t fb Hfb. exists fb.
    rewrite bool_decide_false by (unfold squashed_tids; set_solver). done.
  - intros t b b' _. apply cleared_step.
Qed.

Lemma sent_marked t fl : sent t (map mark_squashed fl) = [].
Proof. unfold sent. apply filter_none, Forall_map, Forall_true. intros x [Hx _]. done. Qed.

(** ** What arrives *)

(** The buffer of a thread after the squashes and the arrivals of a cycle. *)
Definition taken (t : nat) (fl : list RobInst) (sgs : list SquashSignal) (wait : list RobInst)
    : list RobInst :=
  (if bool_decide (t ∈ squashed_tids sgs) then [] else wait) ++
  (if bool_decide (sgs = []) then sent t fl else []).

Lemma sent_thread t fl : of_thread t (sent t fl).
Proof. apply Forall_forall. intros x [[Hs Ht] _]%list_elem_of_filter. done. Qed.

Lemma sent_sublist t fl : seqs (sent t fl) `sublist_of` seqs fl.
Proof.
  unfold seqs, sent. induction fl as [|x fl IH]; [done|]. rewrite filter_cons.
  case_decide; simpl; [by constructor|by apply sublist_cons].
Qed.

Lemma sends_order sg L fl t :
  sends sg L fl → StronglySorted Z.lt (l_arr (L t)) →
  StronglySorted Z.lt (l_arr (L t) ++ seqs (sent t fl)).
Proof.
  intros [->|(u & _ & _ & _ & Hall & Hs & Hlt)] Hl.
  { unfold sent. rewrite filter_nil. simpl. by rewrite app_nil_r. }
  apply sorted_concat; [done|by eapply sorted_sublist; [apply sent_sublist|]|].
  intros a b Ha (x & -> & [[_ Hx] Hin]%list_elem_of_filter)%list_elem_of_fmap.
  rewrite Forall_forall in Hall. rewrite (Hall x Hin) in Hx. apply Nat2Z.inj in Hx as <-.
  by apply Hlt.
Qed.

Lemma accounts_taken h (s : State) sg L fl sgs t fb :
  sends sg L fl → c_fixed s !! t = Some fb → accounts h (L t) (cb_elems fb) →
  accounts h (log_cycle s fl sgs L t) (taken t fl sgs (cb_elems fb)).
Proof.
  intros Hf Hfb [H1 H2 H3 H4 H5]. unfold log_cycle, taken, buffered. rewrite Hfb.
  split; simpl; try done; [| |by eapply sends_order].
  - rewrite H3. unfold seqs. rewrite map_app. repeat case_bool_decide; simpl;
      rewrite ?app_nil_r; solve_Permutation.
  - unfold seqs. rewrite map_app, app_assoc. apply sublist_app.
    + etrans; [|exact H4]. apply sublist_app; [done|]. case_bool_decide; [|done].
      apply sublist_nil_l.
    + case_bool_decide; [done|]. apply sublist_nil_l.
Qed.

Lemma take_cycle (s s1 : State) sg L fl fl1 sgs :
  run_inv s sg L → sends sg L fl → cleared s fl (s1, fl1, sgs) →
  ∃ s2, take_in s1 fl1 = Ok s2 ∧ c_rob s2 = c_rob s1 ∧ c_status s2 = c_status s1 ∧
    ∀ t fb, c_fixed s !! t = Some fb → ∃ fb2, c_fixed s2 !! t = Some fb2 ∧
      cb_elems fb2 = taken t fl sgs (cb_elems fb) ∧ cb_capacity fb2 = width.
Proof.
  intros [[_ Hb Hsh _] _ Ho] Hf [Hc Hfl].
  destruct (take_in_ok s1 fl1) as (s2 & H2 & E1 & E2 & Hw).
  { destruct Hf as [->|(u & Hu & Hg & Hlen & Hall & _)].
    - left. rewrite Hfl. by case_bool_decide.
    - right. destruct (lookup_lt_is_Some_2 (c_fixed s) u) as [fb0 Hfb0]; [destruct Hsh; lia|].
      destruct (Hc u fb0 Hfb0) as (fb1 & Hfb1 & Ec & Ee). exists u, fb1.
      split; [done|]. split; [|split].
      + rewrite Ee, (Ho u fb0 Hfb0 Hg). by case_bool_decide.
      + rewrite Ec, (proj2 (Hb u fb0 Hfb0)), Hfl.
        destruct (bool_decide (sgs = [])); [done|by rewrite length_map].
      + rewrite Hfl. destruct (bool_decide (sgs = [])); [done|]. by apply Forall_map. }
  exists s2. split; [done|]. split; [done|]. split; [done|]. intros t fb Hfb.
  destruct (Hc t fb Hfb) as (fb1 & Hfb1 & Ec & Ee).
  destruct (Hw t fb1 Hfb1) as (fb2 & Hfb2 & Ew & Ec2). exists fb2. split; [done|].
  rewrite Ec2, Ec. split; [|apply (Hb t fb Hfb)]. rewrite Ew. unfold waiting, taken. rewrite Ee, Hfl.
  f_equal. destruct (bool_decide (sgs = [])); [done|]. apply sent_marked.
Qed.

(** ** The choice of the thread *)

(** A thread the stage does not block has an empty buffer, or is the one picked. *)
Definition open_empty (s : State) (todo : list nat) (acc : option Z * StallSignals) : Prop :=
  signals_ok acc.2 ∧
  (∀ i fb, i < rob_threads p → i ∉ todo → c_fixed s !! i = Some fb →
     blockIEW acc.2 !! i = Some false → cb_elems fb = [] ∨ acc.1 = Some (Z.of_nat i)) ∧
  (∀ t, acc.1 = Some t → ∃ u st, t = Z.of_nat u ∧ u < rob_threads p ∧
     c_status s !! u = Some st ∧ open_status st).

Lemma set_nat {A} (k k' : list A) i b :
  set_nth k (Z.of_nat i) b = Ok k' → i < length k ∧ k' = <[i := b]> k.
Proof.
  intros Hs. unfold set_nth in Hs. destruct (_ && _) eqn:E; [|done]. injection Hs as <-.
  apply andb_true_iff in E as [_ E%Z.ltb_lt]. rewrite Nat2Z.id. split; [lia|done].
Qed.

Lemma pick_open (s : State) robStall i todo acc acc' :
  open_empty s (i :: todo) acc → i < rob_threads p →
  pick_thread s robStall acc i = Ok acc' → open_empty s todo acc'.
Proof.
  destruct acc as [tid sg]. intros ([G1 G2] & Ho & Ht) Hi Hs. unfold pick_thread in Hs.
  apply res_bind_Ok in Hs as (st & [_ Hst]%nth_res_Ok & Hs). rewrite Nat2Z.id in Hst.
  apply res_bind_Ok in Hs as (m & _ & Hs). apply res_bind_Ok in Hs as (n & _ & Hs).
  apply res_bind_Ok in Hs as (fb & [_ Hfb]%nth_res_Ok & Hs). rewrite Nat2Z.id in Hfb.
  set (block := (_ <? _)%Z || _) in Hs. set (active := negb block && _) in Hs.
  apply res_bind_Ok in Hs as (reason & _ & Hs).
  apply res_bind_Ok in Hs as (bs & [L1 ->]%set_nat & Hs).
  apply res_bind_Ok in Hs as (rs & [L2 ->]%set_nat & Hs).
  assert (∀ b j fb' : _, j < rob_threads p → j ∉ todo → c_fixed s !! j = Some fb' →
    <[i := b]> (blockIEW sg) !! j = Some false → (b = false → cb_elems fb = [] ∨ tid = None ∧ active) →
    cb_elems fb' = [] ∨ tid = Some (Z.of_nat j) ∨ i = j ∧ tid = None ∧ active) as Hstep.
  { intros b j fb' Hj Hnt Hfb' Hbl Hb. destruct (decide (i = j)) as [<-|Hne].
    - rewrite list_lookup_insert_eq in Hbl by done. injection Hbl as ->.
      rewrite Hfb in Hfb'. injection Hfb' as <-. destruct (Hb eq_refl) as [?|[? ?]]; [by left|].
      by right; right.
    - rewrite list_lookup_insert_ne in Hbl by done.
      destruct (Ho j fb' Hj ltac:(set_solver) Hfb' Hbl); [by left|by right; left]. }
  destruct active eqn:Ea.
  - destruct tid as [t|].
    + destruct (Ht t eq_refl) as (u & st' & -> & Hu & Hst').
      apply res_bind_Ok in Hs as (b1 & [L3 ->]%set_nat & Hs).
      apply res_bind_Ok in Hs as (b2 & [L4 ->]%set_nat & Hs). injection Hs as <-.
      split; [by split; simpl; rewrite ?length_insert|]. split; [|done]. simpl.
      intros j fb' Hj Hnt Hfb' Hbl. apply list_lookup_insert_Some in Hbl as [(_ & ? & _)|[Hne Hbl]]; [done|].
      apply list_lookup_insert_Some in Hbl as [(_ & ? & _)|[_ Hbl]]; [done|].
      rewrite list_lookup_insert_ne in Hbl by done.
      apply (Ho j fb' Hj ltac:(set_solver) Hfb' Hbl).
    + injection Hs as <-. split; [by split; simpl; rewrite ?length_insert|]. split; simpl.
      * intros j fb' Hj Hnt Hfb' Hbl. destruct (Hstep block j fb' Hj Hnt Hfb' Hbl) as [?|[?|[-> _]]];
          [by right|by left|done|by right].
      * intros t [= <-]. exists i, st. split; [done|]. split; [done|]. split; [done|].
        unfold active, block in Ea. apply andb_true_iff in Ea as [Ea _].
        apply negb_true_iff, orb_false_iff in Ea as [_ [E1 E2]%orb_false_iff].
        by apply bool_decide_eq_false in E1, E2.
  - injection Hs as <-. split; [by split; simpl; rewrite ?length_insert|]. split; [|done]. simpl.
    intros j fb' Hj Hnt Hfb' Hbl. destruct (Hstep block j fb' Hj Hnt Hfb' Hbl) as [?|[?|(_ & _ & ?)]];
      [|by left|by right|done].
    intros Eb. left. unfold active in Ea. rewrite Eb in Ea. simpl in Ea.
    apply negb_false_iff, bool_decide_eq_true in Ea. done.
Qed.

Lemma pick_all_open (s : State) robStall todo : ∀ acc acc',
  open_empty s todo acc → Forall (λ i, i < rob_threads p) todo →
  res_fold (pick_thread s robStall) acc todo = Ok acc' → open_empty s [] acc'.
Proof.
  induction todo as [|i todo IH]; intros acc acc' Ho Hall Hs; [by injection Hs as <-|].
  apply Forall_cons in Hall as [Hi Hall]. simpl in Hs. apply res_bind_Ok in Hs as (acc1 & H1 & Hs).
  eapply IH; [|done|exact Hs]. by eapply pick_open.
Qed.

(** ** Insertion *)

Lemma insert_all_inv now t st l : ∀ (s s' : State) H,
  t < rob_threads p → stage_inv p s H → c_status s !! t = Some st → open_status st →
  incoming H t l → res_fold (insert_one p (Z.of_nat t) now) s l = Ok s' →
  ∃ H', stage_inv p s' H' ∧ c_fixed s' = c_fixed s ∧ (caps p (c_rob s) → caps p (c_rob s')) ∧
    H' t = mkHist (h_in (H t) ++ seqs l) (h_ret (H t)) (h_sq (H t)) ∧
    ∀ u, u ≠ t → H' u = H u.
Proof.
  induction l as [|x l IH]; intros s s' H Ht Hi Hst Hop Hin Hs.
  - injection Hs as <-. exists H. simpl. rewrite app_nil_r. by destruct (H t).
  - simpl in Hs. apply res_bind_Ok in Hs as (s1 & H1 & Hs).
    pose proof Hin as [[[Hxt Hsq] _]%Forall_cons Haf _]. pose proof Hst as [Hst' _]%nth_nat.
    assert (fresh H (Z.of_nat t) x) as Hf.
    { split; [done|]. rewrite Nat2Z.id. intros n Hn'. apply Haf; [done|by left]. }
    pose proof (insert_one_inv p Hp s s1 H (Z.of_nat t) now x st Hi ltac:(unfold thread; lia) Hst' Hsq
      (proj1 Hop) (proj2 Hop) Hf H1) as Hi1. rewrite Nat2Z.id in Hi1.
    assert (c_status s1 = c_status s ∧ c_fixed s1 = c_fixed s) as [Es Ef].
    { unfold insert_one in H1. apply res_bind_Ok in H1 as (st1 & _ & H1).
      destruct (_ && _ && _); [|by injection H1 as <-].
      repeat (apply res_bind_Ok in H1 as (? & _ & H1)). by injection H1 as <-. }
    edestruct (IH s1 s' _ Ht Hi1) as (H' & F1 & F2 & F3 & F4 & F5); [by rewrite Es|done| |exact Hs|].
    { by eapply incoming_cons. }
    exists H'. split; [done|]. split; [congruence|]. split; [|split].
    + intros Hc. apply F3. by eapply insert_one_caps; [exact Hst'|exact Hsq|apply Hop..|exact Hxt|exact H1|].
    + rewrite F4. unfold upd. rewrite decide_True by done. simpl. by rewrite <- app_assoc.
    + intros u Hu. rewrite F5 by done. unfold upd. by rewrite decide_False.
Qed.

(** ** The cycle *)

Lemma squash_loop_shape iew active (a a' : Loop) :
  res_fold (commit_squash p iew) a active = Ok a' → shape p a.1.1 → shape p a'.1.1.
Proof.
  intros Hs H0. eapply (res_fold_keep _ (λ b : Loop, shape p b.1.1)); [exact H0| |exact Hs].
  intros [[b fl] sgs] t [[b' fl'] sgs'] _ Hb Ht. by eapply commit_squash_shape.
Qed.

(** After the squashes and the arrivals, before the insertion. *)
Lemma cycle_taken iew active (s s1 : State) sg L fl fl1 sgs :
  run_inv s sg L → active_ok active → sends sg L fl →
  res_fold (commit_squash p iew) (s, fl, []) active = Ok (s1, fl1, sgs) →
  ∃ s2, take_in s1 fl1 = Ok s2 ∧ c_rob s2 = c_rob s1 ∧ held s2 (log_cycle s fl sgs L) ∧
    ∀ t fb, c_fixed s !! t = Some fb → ∃ fb2, c_fixed s2 !! t = Some fb2 ∧
      cb_elems fb2 = taken t fl sgs (cb_elems fb).
Proof.
  intros Hr Ha Hf Hl. pose proof (squash_loop_cleared _ _ _ _ _ Ha Hl) as Hc.
  destruct (take_cycle _ _ _ _ _ _ _ Hr Hf Hc) as (s2 & H2 & E1 & E2 & Hw).
  exists s2. split; [done|]. split; [done|].
  destruct Hr as [[(H & Hi & Hacc) Hb Hsh Hcap] _ _].
  assert (shape p s2) as Hsh2
    by (eapply take_in_shape; [exact H2|exact (squash_loop_shape _ _ _ _ Hl Hsh)]).
  assert (∀ t fb2, c_fixed s2 !! t = Some fb2 → ∃ fb, c_fixed s !! t = Some fb ∧
    cb_elems fb2 = taken t fl sgs (cb_elems fb) ∧ cb_capacity fb2 = width) as Hback.
  { intros t fb2 Hfb2. destruct (lookup_lt_is_Some_2 (c_fixed s) t) as [fb Hfb].
    { apply lookup_lt_Some in Hfb2. destruct Hsh as (_ & E & _), Hsh2 as (_ & E' & _). lia. }
    destruct (Hw t fb Hfb) as (fb' & Hfb' & Ee & Ec). rewrite Hfb2 in Hfb'. injection Hfb' as <-.
    by exists fb. }
  split; [split|].
  - exists H. split.
    + assert (stage_inv p s1 H) as [Hs1 Hw1].
      { apply (squash_loop_keep p (λ a, stage_inv p a.1.1 H) iew active (s, fl, []) (s1, fl1, sgs));
          [done|done| |done]. intros t b b' Ht Hb'. by eapply squashes_inv. }
      unfold stage_inv. by rewrite E1, E2.
    + intros t fb2 (fb & Hfb & -> & _)%Hback. eapply accounts_taken; [exact Hf|exact Hfb|].
      by apply Hacc.
  - intros t fb2 (fb & Hfb & -> & Ec)%Hback. split; [|done]. unfold taken. apply Forall_app.
    split; [|case_bool_decide; [apply sent_thread|constructor]].
    case_bool_decide; [constructor|]. by apply (Hb t fb).
  - done.
  - intros H0. rewrite E1.
    apply (squash_loop_keep p (λ a, caps p (c_rob a.1.1)) iew active (s, fl, []) (s1, fl1, sgs));
      [done|by apply Hcap| |done]. intros t b b' _. by eapply squashes_caps.
  - intros t fb Hfb. destruct (Hw t fb Hfb) as (fb2 & Hfb2 & Ee & _). by exists fb2.
Qed.

Lemma accounts_inserted h l wait :
  accounts h l wait →
  accounts (mkHist (h_in h ++ seqs wait) (h_ret h) (h_sq h)) l [].
Proof.
  intros [H1 H2 H3 H4 H5]. split; simpl; try done.
  - rewrite H3, app_nil_r. solve_Permutation.
  - by rewrite app_nil_r.
Qed.

Lemma pop_all_cap (c : C) n : cb_capacity (Nat.iter n cb_pop_front c) = cb_capacity c.
Proof. induction n as [|n IH]; [done|]. simpl. by rewrite cb_cap_pop. Qed.

Lemma move_inv (s2 : State) L sg robStall now s' sg' :
  held s2 L → signals_ok sg → 
  moveInstsToBuffer p s2 [] sg robStall now = Ok (s', sg') → run_inv s' sg' L.
Proof.
  intros [(H & Hi & Hacc) Hb Hsh Hcap] Hsg Hs. unfold moveInstsToBuffer in Hs.
  cbn [take_in res_bind] in Hs. apply res_bind_Ok in Hs as ([tid sg1] & Hpk & Hs).
  apply pick_all_open in Hpk as (Hsg1 & Ho & Ht); simpl in *.
  2: { split; [done|]. split; [|done]. intros i fb Hi' Hni. exfalso. apply Hni, elem_of_seq. lia. }
  2: { apply Forall_forall. intros i Hi'%elem_of_seq. lia. }
  assert (∀ t fb, c_fixed s2 !! t = Some fb → t < rob_threads p) as Hlt.
  { intros t fb Hfb%lookup_lt_Some. destruct Hsh as (_ & <- & _). done. }
  destruct tid as [t|].
  2: { injection Hs as <- <-. split; [by split; [exists H|..]|done|]. intros t fb Hfb Hbl.
       destruct (Ho t fb (Hlt t fb Hfb) ltac:(set_solver) Hfb Hbl); done. }
  destruct (Ht t eq_refl) as (u & st & -> & Hu & Hst & Hop).
  apply res_bind_Ok in Hs as (fb & [_ Hfb]%nth_res_Ok & Hs). rewrite Nat2Z.id in Hfb.
  apply res_bind_Ok in Hs as (s3 & H3 & Hs). apply res_bind_Ok in Hs as (fx & [_ ->]%set_nat & Hs).
  injection Hs as <- <-.
  assert (shape p s3) as Hsh3.
  { eapply (res_fold_keep _ (shape p)); [exact Hsh| |exact H3]. intros. by eapply insert_one_shape. }
  edestruct (insert_all_inv now u st (cb_elems fb) s2 s3 H) as (H' & Hi' & Ef & Hcap' & E1 & E2);
    [done|done|done|done| |exact H3|].
  { apply (accounts_incoming H L); [by apply Hacc|by apply (Hb u fb)]. }
  assert (cb_elems (Nat.iter (length (cb_elems fb)) cb_pop_front fb) = []) as Epop
    by (by apply cb_pop_all).
  assert (∀ v c, c_fixed (with_fixed s3 (<[u:=Nat.iter (length (cb_elems fb)) cb_pop_front fb]>
    (c_fixed s3))) !! v = Some c → v = u ∧ cb_elems c = [] ∧ cb_capacity c = cb_capacity fb ∨
      v ≠ u ∧ c_fixed s2 !! v = Some c) as Hc.
  { intros v c Hv. simpl in Hv. rewrite Ef in Hv.
    apply list_lookup_insert_Some in Hv as [(<- & <- & _)|[Hne Hv]].
    - left. by rewrite pop_all_cap.
    - right. done. }
  split; [split| |].
  - exists H'. split; [done|]. intros v c [(-> & -> & _)|[Hne Hv]]%Hc.
    + rewrite E1. by apply accounts_inserted, Hacc.
    + rewrite E2 by done. by apply Hacc.
  - intros v c [(-> & -> & ->)|[Hne Hv]]%Hc; [|by apply Hb].
    split; [constructor|]. by apply (Hb u fb).
  - destruct Hsh3 as (S1 & S2 & S3 & S4). unfold shape. simpl. by rewrite length_insert.
  - intros H0. by apply Hcap', Hcap.
  - done.
  - intros v c [(-> & ? & _)|[Hne Hv]]%Hc Hbl; [done|].
    destruct (Ho v c (Hlt v c Hv) ltac:(set_solver) Hv Hbl) as [?|E]; [done|].
    injection E as E%Nat2Z.inj. done.
Qed.

Lemma move_taken (s1 s2 : State) fl sg robStall now :
  take_in s1 fl = Ok s2 →
  moveInstsToBuffer p s1 fl sg robStall now = moveInstsToBuffer p s2 [] sg robStall now.
Proof. intros Ht. unfold moveInstsToBuffer. by rewrite Ht. Qed.

Lemma cycle_inv iew active (s s' : State) sg sg' L fl robStall now sgs :
  run_inv s sg L → active_ok active → sends sg L fl →
  commit_intake p iew active s fl sg robStall now = Ok (s', sg', sgs) →
  run_inv s' sg' (log_cycle s fl sgs L).
Proof.
  intros Hr Ha Hf Hs. unfold commit_intake in Hs.
  apply res_bind_Ok in Hs as ([[s1 fl1] sgs1] & Hl & Hs). apply res_bind_Ok in Hs as ([s3 sg3] & Hm & Hs).
  injection Hs as <- <- <-.
  destruct (cycle_taken _ _ _ _ _ _ _ _ _ Hr Ha Hf Hl) as (s2 & H2 & _ & Hh & _).
  rewrite (move_taken _ _ _ _ _ _ H2) in Hm. eapply move_inv; [exact Hh| |exact Hm]. apply Hr.
Qed.

(** ** The other steps *)

Lemma walk_inv active exiting (s s' : State) sg L tid out :
  run_inv s sg L → thread tid → active_ok active →
  walk_squash p active exiting (s, []) tid = Ok (s', out) → run_inv s' sg (log_walk tid out L).
Proof.
  intros [[(H & Hi & Hacc) Hb Hsh Hcap] Hsg Ho] Ht Ha Hs.
  assert (c_fixed s' = c_fixed s) as Ef.
  { unfold walk_squash in Hs. apply res_bind_Ok in Hs as (st & _ & Hs).
    case_bool_decide; [|by injection Hs as <- _]. apply res_bind_Ok in Hs as (d & _ & Hs). destruct d.
    - apply res_bind_Ok in Hs as (s1 & H1 & Hs). unfold set_status in H1.
      apply res_bind_Ok in H1 as (l & _ & H1). injection H1 as <-. by injection Hs as <- _.
    - apply res_bind_Ok in Hs as ([r o] & _ & Hs). apply res_bind_Ok in Hs as (ch & _ & Hs).
      by injection Hs as <- _. }
  split; [split|done|by rewrite Ef].
  - destruct (reachable_done p Hp _ _ _ (proj1 Hi) Ht) as [[] Hd].
    + assert (out = []) as ->.
      { unfold walk_squash in Hs. apply res_bind_Ok in Hs as (st & _ & Hs).
        case_bool_decide; [|by injection Hs as _ <-].
        rewrite (proj2 (nth_res_Ok _ _ _) (conj (proj1 Ht) Hd)) in Hs. cbn [res_bind] in Hs.
        apply res_bind_Ok in Hs as (s1 & _ & Hs). by injection Hs as _ <-. }
      exists H. split; [eapply walk_squash_idle; [exact Hi| |exact Hs]; congruence|].
      rewrite Ef. intros t fb Hfb. destruct (Hacc t fb Hfb) as [H1 H2 H3 H4 H5].
      split; simpl; try done. rewrite H2. case_decide; by rewrite app_nil_r.
    + eexists. split; [eapply walk_squash_inv; [exact Hi|exact Ht|exact Ha|exact Hd|exact Hs]|].
      rewrite Ef. intros t fb Hfb. destruct (Hacc t fb Hfb) as [H1 H2 H3 H4 H5].
      unfold upd, log_walk. case_decide as E; [subst t|]; split; simpl; try done.
      * by rewrite H2.
      * by rewrite app_nil_r.
  - by rewrite Ef.
  - by eapply walk_squash_shape.
  - intros H0. by eapply caps_shrinks; [eapply walk_squash_rob|apply Hcap].
Qed.

Lemma commit_inv dh active (s s' : State) sg L o :
  run_inv s sg L → commit_one p policy dh s active = Ok (s', o) → run_inv s' sg (log_commit o L).
Proof.
  intros [[(H & Hi & Hacc) Hb Hsh Hcap] Hsg Ho] Hs.
  assert (c_fixed s' = c_fixed s) as Ef.
  { clear -Hs. unfold commit_one in Hs. apply res_bind_Ok in Hs as ([tid prio] & _ & Hs).
    shape_run Hs; done. }
  pose proof (commit_one_inv p policy Hp _ _ _ _ _ _ Hi Hs) as Hi'.
  split; [split|done|by rewrite Ef].
  - destruct o as [y|].
    + eexists. split; [exact Hi'|]. rewrite Ef. intros t fb Hfb.
      destruct (Hacc t fb Hfb) as [H1 H2 H3 H4 H5]. unfold upd, log_commit.
      case_decide as E; [subst t|]; split; simpl; try done.
      * by rewrite H1.
      * by rewrite app_nil_r.
    + exists H. split; [done|]. rewrite Ef. intros t fb Hfb.
      destruct (Hacc t fb Hfb) as [H1 H2 H3 H4 H5]. split; simpl; try done. by rewrite app_nil_r.
  - by rewrite Ef.
  - by eapply commit_one_shape.
  - intros H0. by eapply caps_shrinks; [eapply commit_one_rob|apply Hcap].
Qed.

Lemma run_new_inv (s : State) :
  Commit_new p policy width = Ok s → run_inv s StallSignals_new (λ _, mkLog [] [] [] []).
Proof.
  intros Hs. assert (c_fixed s = replicate (rob_threads p) (cb_new width)) as Ef.
  { unfold Commit_new in Hs. apply res_bind_Ok in Hs as (r & _ & Hs). by injection Hs as <-. }
  assert (∀ t fb, c_fixed s !! t = Some fb → cb_elems fb = [] ∧ cb_capacity fb = width) as Hb.
  { rewrite Ef. intros t fb [-> _]%lookup_replicate_1. by rewrite cb_elems_new, cb_cap_new. }
  split; [split|by split|].
  - eexists. split; [by eapply Commit_new_inv|]. intros t fb [-> _]%Hb. split; simpl; constructor.
  - intros t fb [-> ->]%Hb. split; [constructor|done].
  - by eapply Commit_new_shape.
  - intros H0. by eapply Commit_new_caps.
  - intros t fb [-> _]%Hb. done.
Qed.

Lemma crun_inv (s : State) sg L : crun s sg L → run_inv s sg L.
Proof.
  induction 1 as [s Hs|s sg L active ex tid s' out _ IH Ht Ha Hs
    |s sg L iew active fl rs now s' sg' sgs _ IH Ha Hf Hs|s sg L dh active s' o _ IH Hs
    |s sg L t l l' _ IH Hl Hf|s sg L trap tc _ IH].
  - by apply run_new_inv.
  - by eapply walk_inv.
  - by eapply cycle_inv.
  - by eapply commit_inv.
  - destruct IH as [[(H & [Hr Hw] & Hacc) Hb Hsh Hcap] Hsg Ho]. split; [split|done|done]; try done.
    exists H. split; [|done]. split; [by eapply rc_update|done].
  - destruct IH as [[(H & Hi & Hacc) Hb Hsh Hcap] Hsg Ho]. split; [split|done|done]; try done.
    by exists H.
Qed.

(** C22: In every run of the commit stage every instruction that arrives from rename
    is accounted for, once: it retired, it was squashed in the reorder buffer, it was
    dropped before insertion, or it is in the reorder buffer or waiting for it.  Only
    a squash drops: [log_cycle] records exactly the instructions that waited in the
    buffer of a squashed thread and all that arrived in a cycle with a squash,
    whatever their thread.  What retired, what is in the reorder buffer and what
    waits follow each other in program order; the reorder buffer is in a state its
    interface allows, and a thread whose squash is not finished is in status
    [ROBSquashing].  Of rename the run assumes that it sends a thread's instructions
    in program order, one thread at a time, at most [width], and none to a thread
    that was blocked in the cycle before. *)
Theorem commit_drives_rob (s : State) sg L t l fb :
  crun s sg L → instList (c_rob s) !! t = Some l → c_fixed s !! t = Some fb →
  (∃ H, reachable p (c_rob s) H) ∧
  (doneSquashing (c_rob s) !! t = Some false → c_status s !! t = Some ROBSquashing) ∧
  l_arr (L t) ≡ₚ l_ret (L t) ++ l_sq (L t) ++ l_drop (L t) ++ seqs l ++ seqs (cb_elems fb) ∧
  StronglySorted Z.lt (l_arr (L t)) ∧
  (l_ret (L t) ++ seqs l ++ seqs (cb_elems fb)) `sublist_of` l_arr (L t).
Proof.
  intros [[(H & [Hr Hw] & Hacc) _ _ _] _ _]%crun_inv Hl Hfb.
  destruct (Hacc t fb Hfb) as [H1 H2 H3 H4 H5].
  destruct (run_hist p Hp _ _ _ _ Hr Hl) as (Hperm & _ & Hsub).
  split; [by exists H|]. split; [apply Hw|]. rewrite <- H1, <- H2. split; [|split; [done|]].
  - rewrite H3, Hperm. unfold seqs. solve_Permutation.
  - etrans; [|exact H4]. rewrite app_assoc. by apply sublist_app.
Qed.

(** ** The intake fits *)

Context (Hshare : shares_fit p).
Context (Hwide : (numEntries p * instsPerGroup p < 2 ^ 32)%Z).

(** The thread that is picked, and the entries it may use. *)
Lemma pick_fits (s : State) L sg robStall :
  held s L → signals_ok sg → length robStall = MaxThreads →
  ∃ tid sg', res_fold (pick_thread s robStall) (None, sg) (seq 0 (rob_threads p)) = Ok (tid, sg') ∧
    ∀ t, tid = Some t → ∃ u, t = Z.of_nat u ∧ admits p s u.
Proof.
  intros [(H & Hi & _) _ Hsh Hcap] Hsg Hrs. pose proof (Hcap (proj1 Hshare)) as Hc.
  pose proof (rob_reachable_inv p Hp _ _ (proj1 Hi)) as [Hri _].
  destruct (res_fold_inv (pick_thread s robStall) (λ a, signals_ok a.2 ∧
    ∀ t, a.1 = Some t → ∃ u, t = Z.of_nat u ∧ admits p s u) (seq 0 (rob_threads p)) (None, sg))
    as ([tid sg'] & Hpk & _ & Hadm).
  { split; [done|]. simpl. intros t Hd. discriminate Hd. }
  { intros [tid sg0] i Hin%elem_of_seq [G1 G2].
    destruct (pick_thread_ok p Hp Hn Hshare Hwide s robStall tid sg0 i) as (tid' & sg'' & Hp' & G3 & G4);
      try done; [lia|]. by exists (tid', sg''). }
  by exists tid, sg'.
Qed.

Lemma move_fits (s : State) L sg robStall now :
  held s L → signals_ok sg → length robStall = MaxThreads →
  ∃ s' sg', moveInstsToBuffer p s [] sg robStall now = Ok (s', sg') ∧
    ∀ t l fb, instList (c_rob s) !! t = Some l → c_fixed s !! t = Some fb →
      ∃ l' fb', instList (c_rob s') !! t = Some l' ∧ c_fixed s' !! t = Some fb' ∧
        (l' = l ∧ cb_elems fb' = cb_elems fb ∨
         l' = l ++ map setInROB (cb_elems fb) ∧ cb_elems fb' = []).
Proof.
  intros Hh Hsg Hrs. destruct (pick_fits _ _ _ _ Hh Hsg Hrs) as (tid & sg' & Hpk & Hadm).
  pose proof Hh as [(H & Hi & Hacc) Hb Hsh Hcap].
  pose proof (rob_reachable_inv p Hp _ _ (proj1 Hi)) as [Hri _].
  unfold moveInstsToBuffer. cbn [take_in res_bind]. rewrite Hpk. cbn [res_bind].
  destruct tid as [t|].
  2: { eexists _, _. split; [done|]. intros t l fb Hl Hf. exists l, fb. by eauto. }
  destruct (Hadm t eq_refl) as (u & -> & Hu & st & m & gs & fb & Hst & Hop & Hm & Hg & Hfb & Hle).
  rewrite (proj1 (nth_nat _ _ _ Hfb)). cbn [res_bind].
  destruct (lookup_lt_is_Some_2 (instList (c_rob s)) u) as [l0 Hl0]; [rewrite (rv_insts _ _ Hri); lia|].
  destruct (insert_all_fits p Hp Hn Hshare Hwide now u m st (cb_elems fb) s H gs l0) as
    (s2 & -> & F1 & F2 & F3 & F4 & F5); try done.
  { by apply Hcap, Hshare. }
  { apply (accounts_incoming H L); [by apply Hacc|by apply (Hb u fb)]. }
  cbn [res_bind]. rewrite F1, (proj2 (nth_nat _ _ _ Hfb)). cbn [res_bind].
  eexists _, _. split; [done|]. simpl. intros t l fb' Hl Hf'. rewrite F5.
  destruct (decide (u = t)) as [<-|Hne].
  - exists (l0 ++ map setInROB (cb_elems fb)). eexists.
    rewrite !list_lookup_insert_eq by (by eapply lookup_lt_Some). split; [done|]. split; [done|].
    right. rewrite cb_pop_all by done. rewrite Hl in Hl0. injection Hl0 as ->.
    rewrite Hf' in Hfb. by injection Hfb as ->.
  - exists l, fb'. rewrite !list_lookup_insert_ne by done. eauto.
Qed.

(** C25: When the shares of the threads add up to no more than the entries of the
    reorder buffer, and rename sends as the stall signals allow (see [sends]), the
    intake of every cycle of a run goes through: after the squashes of the cycle no
    assertion of [moveInstsToBuffer] and of [ROB::insertInst] fails - the buffer
    that arriving instructions go to is empty -, no thread uses more groups than
    [getMaxEntries] and the reorder buffer holds at most
    [numEntries * instsPerGroup] instructions.  For every thread the instructions
    that the squashes left are either all put into the reorder buffer, in order, or
    all still waiting, and a thread that is told to go on has nothing waiting. *)
Theorem intake_fits iew active (s s1 : State) sg L fl fl1 sgs robStall now :
  crun s sg L → active_ok active → sends sg L fl → length robStall = MaxThreads →
  res_fold (commit_squash p iew) (s, fl, []) active = Ok (s1, fl1, sgs) →
  ∃ s' sg', moveInstsToBuffer p s1 fl1 sg robStall now = Ok (s', sg') ∧
    (0 ≤ numInstsInROB (c_rob s') ≤ numEntries p * instsPerGroup p)%Z ∧
    (∀ t gs m, threadGroups (c_rob s') !! t = Some gs → maxEntries (c_rob s') !! t = Some m →
       (Z.of_nat (length gs) ≤ m)%Z) ∧
    ∀ t l fb, instList (c_rob s1) !! t = Some l → c_fixed s !! t = Some fb →
      ∃ l' fb', instList (c_rob s') !! t = Some l' ∧ c_fixed s' !! t = Some fb' ∧
        (l' = l ∧ cb_elems fb' = taken t fl sgs (cb_elems fb) ∨
         l' = l ++ map setInROB (taken t fl sgs (cb_elems fb)) ∧ cb_elems fb' = []) ∧
        (blockIEW sg' !! t = Some false → cb_elems fb' = []).
Proof.
  intros Hr%crun_inv Ha Hf Hrs Hl.
  destruct (cycle_taken _ _ _ _ _ _ _ _ _ Hr Ha Hf Hl) as (s2 & H2 & E2 & Hh & Hw).
  destruct (move_fits s2 _ sg robStall now Hh (ri_sig _ _ _ Hr) Hrs) as (s' & sg' & Hm & Hput).
  pose proof (move_inv _ _ _ _ _ _ _ Hh (ri_sig _ _ _ Hr) Hm) as [[(H & Hi & _) _ _ Hcap] _ Ho].
  pose proof (Hcap (proj1 Hshare)) as Hc.
  pose proof (rob_reachable_inv p Hp _ _ (proj1 Hi)) as [Hri _].
  rewrite (move_taken _ _ _ _ _ _ H2). exists s', sg'. split; [done|].
  split; [by apply caps_total|].
  split; [intros t gs' m' Hgs' Hm'; rewrite (proj1 Hc) in Hm'; by eapply (proj2 Hc)|].
  intros t l fb Hlt Hfb. destruct (Hw t fb Hfb) as (fb2 & Hfb2 & Ee). rewrite <- E2 in Hlt.
  destruct (Hput t l fb2 Hlt Hfb2) as (l' & fb' & Hl' & Hfb' & Hcase). exists l', fb'.
  rewrite <- Ee. split; [done|]. split; [done|]. split; [done|]. by apply Ho.
Qed.

End Run.
End CommitRun.
