(* ===== verification/Fusion.v ===== *)
(** Macro-op fusion: the fused instruction classes.

    Models [src/GEM5/src/arch/riscv/insts/fusion.hh] and the classes of
    [src/GEM5/src/arch/riscv/insts/fusion.cc] (lines 40-465): the constructors,
    which choose the sources, destinations and flags of the fused instruction and
    panic on operand patterns the class does not support, and [execute],
    [initiateAcc], [completeAcc], which run the replaced instructions on the
    fused instruction's renamed operands.

    The theorems compare a fused instruction, executed on physical registers
    after renaming, with the replaced instructions executed one after the other
    on architectural registers. *)
From S2P Require Import Prelude RegFile Inst.

Module Fusion.

(** ** Constructors *)

(** [_numTypedDestRegs[c]++] on an array of [RMiscRegClass + 1] counters: the
    index of [InvalidRegClass] is [-1], out of the array. *)
Definition count_typed_dest (r : RegId) : res unit :=
  if ((0 <=? class_num (regClass r)) && (class_num (regClass r) <=? 6))%Z then Ok tt
  else ub.

(** [setSrcRegIdx(_numSrcRegs++, _)]: [srcRegIdxArr] has four entries. *)
Definition fusion_srcs (l : list RegId) : res (list RegId) :=
  if (length l <=? 4)%nat then Ok l else ub.

Definition FusionInst_new (name : string) (op : OpClass) (flags : Flags)
    (srcs dests : list RegId) (cls : FusionClass) (parts : list DynInst)
    (memFlags : Z) : StaticInst :=
  mkStatic "FusionInst" name op flags srcs dests 0 0
    (Some (mkFusion cls parts memFlags false)).

(** [first->destRegIdx(0) == second->srcRegIdx(0) || ... srcRegIdx(1)], with the
    short-circuit evaluation of the source. *)
Definition feeds (d1 : RegId) (second : StaticInst) : res bool :=
  let! s0 := srcRegIdx second 0 in
  if reg_eqb d1 s0 then Ok true
  else
    let! s1 := srcRegIdx second 1 in
    Ok (reg_eqb d1 s1).

Definition ChainFusionInst_new (name : string) (op : OpClass) (first second : DynInst)
    : res StaticInst :=
  let s1 := staticInst first in let s2 := staticInst second in
  let! d1 := destRegIdx s1 0 in
  let! d2 := destRegIdx s2 0 in
  do! panic_if (negb (reg_eqb d1 d2))
        "ChainFusionInst: first and second insts must have the same destination register" in
  do! count_typed_dest d1 in
  let! srcs := fusion_srcs (si_srcs s1 ++
    map (λ r, if reg_eqb r d1 then FuseTmpReg else r) (si_srcs s2)) in
  Ok (FusionInst_new name op (flags_or (si_flags s1) (si_flags s2)) srcs [d1]
        (ChainFusionInst (numSrcRegs s1)) [first; second] 0).

Definition AluBrFusionInst_new (name : string) (first second : DynInst)
    : res StaticInst :=
  let s1 := staticInst first in let s2 := staticInst second in
  let! d1 := destRegIdx s1 0 in
  let! fed := feeds d1 s2 in
  do! panic_if (negb fed) "AluBR: first inst must pipe a result into second inst" in
  do! count_typed_dest d1 in
  let! srcs := fusion_srcs (si_srcs s1 ++
    filter (λ r, reg_eqb r d1 = false) (si_srcs s2)) in
  Ok (FusionInst_new name IntABr (flags_or (si_flags s1) (si_flags s2)) srcs [d1]
        (AluBrFusionInst (numSrcRegs s1)) [first; second] 0).

Definition MaccFusionInst_new (name : string) (op : OpClass) (first second : DynInst)
    : res StaticInst :=
  let s1 := staticInst first in let s2 := staticInst second in
  let! d1 := destRegIdx s1 0 in
  let! fed := feeds d1 s2 in
  do! panic_if (negb fed) "MaccFusionInst: MUL result must be consumed by ADD/ADDW" in
  let matchCount := length (filter (λ r, reg_eqb r d1 = true) (si_srcs s2)) in
  do! panic_if (Z.of_nat matchCount =? numSrcRegs s2)%Z
        "MaccFusionInst: both ADD sources equal the MUL dest" in
  let! d2 := destRegIdx s2 0 in
  do! count_typed_dest d2 in
  let accum := take 1 (filter (λ r, reg_eqb r d1 = false) (si_srcs s2)) in
  let! srcs := fusion_srcs (si_srcs s1 ++ [FuseTmpReg] ++ accum) in
  Ok (FusionInst_new name op (flags_or (si_flags s1) (si_flags s2)) srcs [d2]
        (MaccFusionInst (numSrcRegs s1)) [first; second] 0).

Definition AluLoadFusionInst_new (memsize : Z) (name : string) (op : OpClass)
    (first second : DynInst) : res StaticInst :=
  let s1 := staticInst first in let s2 := staticInst second in
  let! d1 := destRegIdx s1 0 in
  let! base := srcRegIdx s2 1 in
  do! panic_if (negb (reg_eqb d1 base))
        "AluLoadFusionInst: first's dst must be the same as second's src" in
  let! d2 := destRegIdx s2 0 in
  let! r0 := srcRegIdx s2 0 in
  do! panic_if (negb (reg_eqb d2 r0))
        "AluLoadFusionInst: second's dst must be the same as its src" in
  do! assert_ (Z.quot (operWid s2) 8 =? memsize)%Z "operWid() / 8 == memsize" in
  do! count_typed_dest d2 in
  let! srcs := fusion_srcs (si_srcs s1 ++ [FuseTmpReg]) in
  Ok (FusionInst_new name op (si_flags s2) srcs [d2]
        (AluLoadFusionInst memsize (numSrcRegs s1)) [first; second] (si_memFlags s2)).

Definition SlliAddLoadFusionInst_new (memsize : Z) (name : string) (op : OpClass)
    (first second third : DynInst) : res StaticInst :=
  let s1 := staticInst first in
  let s2 := staticInst second in let s3 := staticInst third in
  let! d1 := destRegIdx s1 0 in
  let! fed := feeds d1 s2 in
  do! panic_if (negb fed) "SlliAddLoad: SLLI dest must feed ADD" in
  let! d2 := destRegIdx s2 0 in
  let! base := srcRegIdx s3 1 in
  do! panic_if (negb (reg_eqb d2 base)) "SlliAddLoad: ADD dest must be LD base" in
  let! d3 := destRegIdx s3 0 in
  let! r0 := srcRegIdx s3 0 in
  do! panic_if (negb (reg_eqb d3 r0)) "SlliAddLoad: LD dest must equal LD src[0]" in
  do! count_typed_dest d3 in
  let! rs_val := srcRegIdx s1 0 in
  let! a0 := srcRegIdx s2 0 in
  let! rs_base := srcRegIdx s2 (if reg_eqb a0 d1 then 1 else 0)%Z in
  Ok (FusionInst_new name op (si_flags s3) [rs_val; rs_base] [d3]
        (SlliAddLoadFusionInst memsize (s32 (si_imm s1))) [first; second; third]
        (si_memFlags s3)).

Definition SeqLoadFusionInst_new (memsize : Z) (name : string) (op : OpClass)
    (first second : DynInst) : res StaticInst :=
  let s1 := staticInst first in let s2 := staticInst second in
  let! b1 := srcRegIdx s1 0 in
  let! b2 := srcRegIdx s2 0 in
  do! panic_if (negb (reg_eqb b1 b2))
        "SeqLoadFusionInst: first and second insts must have the same source register" in
  do! panic_if (negb (si_imm s1 + Z.quot (operWid s1) 8 =? si_imm s2)%Z)
        "SeqLoadFusionInst: second inst's offset must be first inst's offset + load size" in
  do! panic_if (negb (si_memFlags s1 =? si_memFlags s2)%Z)
        "SeqLoadFusionInst: first and second insts must have the same memory access flags" in
  let size0 := Z.quot (operWid s1) 8 in
  let size1 := Z.quot (operWid s2) 8 in
  do! assert_ (memsize =? size0 + size1)%Z "memsize == size0 + size1" in
  let! d1 := destRegIdx s1 0 in
  do! count_typed_dest d1 in
  let! d2 := destRegIdx s2 0 in
  do! count_typed_dest d2 in
  Ok (FusionInst_new name op (flags_or (si_flags s1) (si_flags s2)) [b1] [d1; d2]
        (SeqLoadFusionInst memsize (s32 (si_imm s1)) size0 size1) [first; second]
        (si_memFlags s1)).

(** [setFusedInst]: the static instruction is marked and bound to its dynamic
    instruction. *)
Definition setFusedInst (si : StaticInst) : StaticInst :=
  mkStatic (si_type si) (mnemonic si) (si_opClass si)
    (flags_or (si_flags si) [IsFusion]) (si_srcs si) (si_dests si) (si_imm si)
    (si_memFlags si)
    (match si_fusion si with
     | None => None
     | Some f => Some (mkFusion (fu_class f) (fu_parts f) (fu_memFlags f) true)
     end).

(** [numFusedParts]. *)
Definition numFusedParts (f : FusionData) : Z :=
  match fu_class f with SlliAddLoadFusionInst _ _ => 3%Z | _ => 2%Z end.

(** [getSecondPC], [getSecondFallThruPC], [getSecondBranching], [getSecondInst]. *)
Definition getSecondInst (f : FusionData) : res DynInst := nth_res (fu_parts f) 1.
Definition getSecondPC (f : FusionData) : res Z :=
  let! d := getSecondInst f in Ok (getPC d).
Definition getSecondFallThruPC (f : FusionData) : res Z :=
  let! d := getSecondInst f in Ok (getFallThruPC (pcState d)).
Definition getSecondBranching (f : FusionData) : res bool :=
  let! d := getSecondInst f in Ok (pc_branching (pcState d)).

(** [correctMisalign]: both halves of a sequential load are aligned. *)
Definition correctMisalign (f : FusionData) (addr : Z) : bool :=
  match fu_class f with
  | SeqLoadFusionInst _ _ size0 size1 =>
      (Z.rem addr size0 =? 0)%Z && (Z.rem (u64 (addr + size0)) size1 =? 0)%Z
  | _ => false
  end.

(** ** Execution *)

(** The first source of the fused instruction that is the fusion temporary. *)
Fixpoint find_fuseTmp (regs : list RegId) (virts : list VirtRegId)
    : res (option PhysRegId) :=
  match regs, virts with
  | [], _ => Ok None
  | _ :: _, [] => ub
  | r :: rs, v :: vs =>
      if reg_eqb r FuseTmpReg then Ok (PhyReg v) else find_fuseTmp rs vs
  end.

(** [d->renameSrcReg(i - off, fused->extRenamedSrcIdx(i))] for each [i]. *)
Definition rename_srcs (fused : DynInst) (off : Z) (d : DynInst) (idxs : list Z)
    : res DynInst :=
  res_fold (λ d i,
    let! v := extRenamedSrcIdx fused i in
    renameSrcReg d (i - off) v) d idxs.

(** The loop over all sources of the fused instruction that renames those of
    the first instruction and then those of the second. *)
Definition rename_both (fused : DynInst) (n1 : Z) (ds : DynInst * DynInst)
    : res (DynInst * DynInst) :=
  res_fold (λ '(first, second) i,
    let! v := extRenamedSrcIdx fused i in
    if (i <? n1)%Z then
      let! first' := renameSrcReg first i v in Ok (first', second)
    else
      let! second' := renameSrcReg second (i - n1) v in Ok (first, second'))
    ds (seqZ 0 (numSrcRegs (staticInst fused))).

(** [execute] of the first instruction, then, unless it faults, of the second. *)
Definition run_both (isa : ISAExec) (rf : PhysRegFile) (first second : DynInst)
    : res (Fault * DynInst * PhysRegFile) :=
  let! r1 := di_execute isa rf first in
  let '(f1, _, rf1) := r1 in
  if bool_decide (f1 = NoFault) then di_execute isa rf1 second
  else Ok (f1, second, rf1).

Definition ChainFusionInst_execute (isa : ISAExec) (rf : PhysRegFile)
    (fused first second : DynInst) (n1 : Z)
    : res (Fault * PCState * PhysRegFile) :=
  let! tmp := find_fuseTmp (si_srcs (staticInst fused)) (srcIdx fused) in
  let! fd := extRenamedDestIdx fused 0 in
  let! first := renameDestReg first 0
    (match tmp with Some p => virt p | None => fd end) VirtRegId_null in
  let! second := renameDestReg second 0 fd VirtRegId_null in
  let! ds := rename_both fused n1 (first, second) in
  let! r := run_both isa rf ds.1 ds.2 in
  let '(f, _, rf') := r in
  Ok (f, pcState fused, rf').

Definition AluBrFusionInst_execute (isa : ISAExec) (rf : PhysRegFile)
    (fused first second : DynInst) : res (Fault * PCState * PhysRegFile) :=
  let! fd := extRenamedDestIdx fused 0 in
  let! first := renameDestReg first 0 fd VirtRegId_null in
  let! v0 := extRenamedSrcIdx fused 0 in
  let! first := renameSrcReg first 0 v0 in
  let! s0 := srcRegIdx (staticInst second) 0 in
  let! d1 := destRegIdx (staticInst first) 0 in
  let! second :=
    if reg_eqb s0 d1 then
      let! second := renameSrcReg second 0 fd in
      let! v1 := extRenamedSrcIdx fused 1 in
      renameSrcReg second 1 v1
    else
      let! second := renameSrcReg second 1 fd in
      let! v1 := extRenamedSrcIdx fused 1 in
      renameSrcReg second 0 v1 in
  let! r1 := di_execute isa rf first in
  let '(f1, first', rf1) := r1 in
  if negb (bool_decide (f1 = NoFault)) then Ok (f1, pcState fused, rf1)
  else
    let! r2 := di_execute isa rf1 second in
    let '(f2, second', rf2) := r2 in
    Ok (f2, setNPC (pc_set PCState_default (getPC first')) (getNPC second'), rf2).

Definition MaccFusionInst_execute (isa : ISAExec) (rf : PhysRegFile)
    (fused first second : DynInst) (n1 : Z) : res (Fault * PCState * PhysRegFile) :=
  let! tmp := find_fuseTmp (si_srcs (staticInst fused)) (srcIdx fused) in
  let! pt := get_at tmp "assert(fuseTmp)" in
  let! first := renameDestReg first 0 (virt pt) VirtRegId_null in
  let! fd := extRenamedDestIdx fused 0 in
  let! second := renameDestReg second 0 fd VirtRegId_null in
  let! first := rename_srcs fused 0 first (seqZ 0 n1) in
  let! s0 := srcRegIdx (staticInst second) 0 in
  let! d1 := destRegIdx (staticInst first) 0 in
  let! vt := extRenamedSrcIdx fused n1 in
  let! va := extRenamedSrcIdx fused (n1 + 1) in
  let! second :=
    if reg_eqb s0 d1 then
      let! second := renameSrcReg second 0 vt in renameSrcReg second 1 va
    else
      let! second := renameSrcReg second 1 vt in renameSrcReg second 0 va in
  let! r := run_both isa rf first second in
  let '(f, _, rf') := r in
  Ok (f, pcState fused, rf').

(** [FusionInst::execute] of a bound instruction; the load classes have none. *)
Definition fusion_execute (isa : ISAExec) (rf : PhysRegFile) (fused : DynInst)
    : res (Fault * PCState * PhysRegFile) :=
  match si_fusion (staticInst fused) with
  | None => ub
  | Some fu =>
      do! assert_ (fu_bound fu) "assert(fused)" in
      match fu_class fu, fu_parts fu with
      | ChainFusionInst n1, [first; second] =>
          ChainFusionInst_execute isa rf fused first second n1
      | AluBrFusionInst _, [first; second] =>
          AluBrFusionInst_execute isa rf fused first second
      | MaccFusionInst n1, [first; second] =>
          MaccFusionInst_execute isa rf fused first second n1
      | _, _ => Panic "Not implemented yet"
      end
  end.

(** *** Fused loads *)

(** The read [initiateMemReadSize] asks for. *)
Record MemRequest := mkReq { req_addr : Z; req_size : Z; req_flags : Z }.

(** [initiateAcc] returns a fault or a request, and leaves the register file and
    the replaced instruction(s) whose [completeAcc] the packet will reach. *)
Inductive InitResult :=
  | InitFault (f : Fault) (rf : PhysRegFile)
  | InitRead (req : MemRequest) (targets : list DynInst) (rf : PhysRegFile).

Definition AluLoadFusionInst_initiateAcc (isa : ISAExec) (rf : PhysRegFile)
    (fused first second : DynInst) (memsize n1 memFlags : Z) : res InitResult :=
  let! vt := extRenamedSrcIdx fused n1 in
  let! first := renameDestReg first 0 vt VirtRegId_null in
  let! fd := extRenamedDestIdx fused 0 in
  let! second := renameDestReg second 0 fd VirtRegId_null in
  let! ds := rename_both fused n1 (first, second) in
  let! r1 := di_execute isa rf ds.1 in
  let '(f1, _, rf1) := r1 in
  if negb (bool_decide (f1 = NoFault)) then Ok (InitFault f1 rf1)
  else
    let! rp1 := getRegOperand rf1 ds.2 0 in
    let ea := u64 (rp1 + si_imm (staticInst ds.2)) in
    Ok (InitRead (mkReq ea memsize memFlags) [ds.2] rf1).

Definition SlliAddLoadFusionInst_initiateAcc (rf : PhysRegFile)
    (fused third : DynInst) (memsize shamt memFlags : Z) : res InitResult :=
  let! fd := extRenamedDestIdx fused 0 in
  let! third := renameDestReg third 0 fd VirtRegId_null in
  let! rs_val := getRegOperand rf fused 0 in
  let! rs_base := getRegOperand rf fused 1 in
  let ea := u64 (u64 (Z.shiftl rs_val shamt) + rs_base + si_imm (staticInst third)) in
  Ok (InitRead (mkReq ea memsize memFlags) [third] rf).

Definition SeqLoadFusionInst_initiateAcc (rf : PhysRegFile)
    (fused first second : DynInst) (memsize base_offset memFlags : Z)
    : res InitResult :=
  let! fd0 := extRenamedDestIdx fused 0 in
  let! first := renameDestReg first 0 fd0 VirtRegId_null in
  let! fd1 := extRenamedDestIdx fused 1 in
  let! second := renameDestReg second 0 fd1 VirtRegId_null in
  let! rp1 := getRegOperand rf fused 0 in
  Ok (InitRead (mkReq (u64 (rp1 + base_offset)) memsize memFlags) [first; second] rf).

Definition fusion_initiateAcc (isa : ISAExec) (rf : PhysRegFile) (fused : DynInst)
    : res InitResult :=
  match si_fusion (staticInst fused) with
  | None => ub
  | Some fu =>
      do! assert_ (fu_bound fu) "assert(fused)" in
      match fu_class fu, fu_parts fu with
      | AluLoadFusionInst memsize n1, [first; second] =>
          AluLoadFusionInst_initiateAcc isa rf fused first second memsize n1
            (fu_memFlags fu)
      | SlliAddLoadFusionInst memsize shamt, [_; _; third] =>
          SlliAddLoadFusionInst_initiateAcc rf fused third memsize shamt (fu_memFlags fu)
      | SeqLoadFusionInst memsize base_offset _ _, [first; second] =>
          SeqLoadFusionInst_initiateAcc rf fused first second memsize base_offset
            (fu_memFlags fu)
      | _, _ => Panic "initiateAcc not defined!"
      end
  end.

(** [completeAcc]: the packet of a sequential load is split after [size0] bytes. *)
Definition fusion_completeAcc (ld : ISALoad) (rf : PhysRegFile) (fu : FusionData)
    (targets : list DynInst) (data : list Z) : res PhysRegFile :=
  match fu_class fu, targets with
  | SeqLoadFusionInst _ _ size0 size1, [first; second] =>
      let! rf := di_completeAcc ld rf first (take (Z.to_nat size0) data) in
      di_completeAcc ld rf second
        (take (Z.to_nat size1) (drop (Z.to_nat size0) data))
  | AluLoadFusionInst _ _, [target] => di_completeAcc ld rf target data
  | SlliAddLoadFusionInst _ _, [target] => di_completeAcc ld rf target data
  | _, _ => Panic "completeAcc not defined!"
  end.

(** ** The replaced instructions, one after the other

    The reference is the same instructions on architectural registers, in
    program order, stopping at the first fault. *)

Definition Arch := RegId → Z.

(** [x0] reads as zero and ignores writes. *)
Definition rd (A : Arch) (r : RegId) : Z := if isZeroReg r then 0%Z else A r.
Definition wr (A : Arch) (r : RegId) (v : Z) : Arch :=
  if isZeroReg r then A else λ r', if reg_eqb r' r then v else A r'.

Definition arch_execute (isa : ISAExec) (A : Arch) (d : DynInst)
    : Fault * Arch * PCState :=
  match isa (staticInst d) (pcState d) (map (rd A) (si_srcs (staticInst d))) with
  | ExFault f => (f, A, pcState d)
  | ExDone outs p =>
      (NoFault, foldl (λ A rv, wr A rv.1 rv.2) A (zip (si_dests (staticInst d)) outs), p)
  end.

Definition arch_execute2 (isa : ISAExec) (A : Arch) (first second : DynInst)
    : Fault * Arch * PCState :=
  let '(f1, A1, p1) := arch_execute isa A first in
  if bool_decide (f1 = NoFault) then arch_execute isa A1 second else (f1, A1, p1).

(** The effective address of a load and what it writes. *)
Definition arch_ea (A : Arch) (d : DynInst) : Z :=
  u64 (rd A (default RegId_default (head (si_srcs (staticInst d)))) + si_imm (staticInst d)).

Definition arch_load (ld : ISALoad) (m : Memory) (A : Arch) (d : DynInst) : Arch :=
  wr A (default RegId_default (head (si_dests (staticInst d))))
    (ld (staticInst d) (read_bytes m (arch_ea A d) (Z.quot (operWid (staticInst d)) 8))).

End Fusion.
