(* ===== verification/FusionCorrect.v ===== *)
(** Fused instructions compute what the instructions they replace compute.

    The fused instruction runs on the physical register file, through the
    renaming the rename stage gave it; the reference runs the replaced
    instructions in program order on architectural registers. *)
From S2P Require Import Prelude RegFile Inst Fusion.
Import Fusion.

(** What the generated instruction classes promise: one value per destination,
    and a fault that is one. *)
Class ISASem (isa : ISAExec) := {
  isa_dests si p vs outs p' :
    isa si p vs = ExDone outs p' → length outs = length (si_dests si);
  isa_faults si p vs f : isa si p vs = ExFault f → f ≠ NoFault
}.

(** The state [A'] in which register [d] has the value it has in [A], unless it is [d']. *)
Definition keep_reg (d d' : RegId) (A A' : Arch) : Arch :=
  λ r, if reg_eqb r d && negb (reg_eqb d d') then A r else A' r.

Lemma rd_keep d d' A A' r :
  rd (keep_reg d d' A A') r = if reg_eqb r d && negb (reg_eqb d d') then rd A r else rd A' r.
Proof. unfold rd, keep_reg. destruct (isZeroReg r), (_ && _); done. Qed.

(** ** Registers that can be written *)

Definition live (rf : PhysRegFile) (p : PhysRegId) : Prop :=
  scalar_class (p_class p) = true ∧ is_Some (rf !! p).

Lemma live_not_invalid rf p : live rf p → p_class p ≠ InvalidRegClass.
Proof. intros [Hs _] E. by rewrite E in Hs. Qed.

Lemma live_insert rf p q v : live rf p → live (<[q := v]> rf) p.
Proof. intros [? ?]. split; [done|]. rewrite lookup_insert_is_Some'. by right. Qed.

Lemma getReg_insert_ne rf p v w :
  PhyReg w ≠ Some p → getReg (<[p := v]> rf) w = getReg rf w.
Proof.
  intros Hne. unfold getReg. destruct (PhyReg w) as [q|]; [|done]. simpl.
  unfold getReg_phys. by rewrite lookup_insert_ne by congruence.
Qed.

Lemma getReg_insert_eq rf p v : live rf p → getReg (<[p := v]> rf) (virt p) = Ok v.
Proof.
  intros [Hs _]. unfold getReg, getReg_phys. simpl.
  by rewrite Hs, lookup_insert_eq.
Qed.

Lemma setRegOperand_live rf d i p v :
  extRenamedDestIdx d i = Ok (virt p) → live rf p →
  setRegOperand rf d i v = Ok (<[p := v]> rf).
Proof.
  intros Hd Hl. unfold setRegOperand. rewrite Hd. simpl.
  pose proof (live_not_invalid _ _ Hl) as Hni. rewrite bool_decide_false by done.
  destruct Hl as [Hs [x Hx]]. unfold setReg.
  by rewrite bool_decide_false, Hs, Hx by done.
Qed.

(** ** Reading and writing the operands of a renamed instruction *)

Lemma nth_res_lookup {A} (l : list A) i a :
  l !! i = Some a → nth_res l (Z.of_nat i) = Ok a.
Proof. intros H. apply nth_res_Ok. rewrite Nat2Z.id. split; [lia|done]. Qed.

Lemma get_operands rf d vals :
  Forall2 (λ v x, getReg rf v = Ok x) (srcIdx d) vals →
  res_mapM (getRegOperand rf d) (seqZ 0 (Z.of_nat (length (srcIdx d)))) = Ok vals.
Proof.
  intros Hv.
  assert (∀ k (vs : list VirtRegId) xs, drop k (srcIdx d) = vs →
    Forall2 (λ v x, getReg rf v = Ok x) vs xs →
    res_mapM (getRegOperand rf d) (seqZ (Z.of_nat k) (Z.of_nat (length vs))) = Ok xs)
    as Hgen; [|by apply (Hgen 0%nat (srcIdx d) vals)].
  intros k vs xs Hk Hf. revert k Hk.
  induction Hf as [|v x vs xs Hx Hf IH]; intros k Hk; [done|].
  change (length (v :: vs)) with (S (length vs)).
  rewrite seqZ_cons by lia. cbn [res_mapM].
  assert (srcIdx d !! k = Some v) as Hl
    by (rewrite <- (Nat.add_0_r k), <- lookup_drop, Hk; done).
  unfold getRegOperand at 1, extRenamedSrcIdx.
  rewrite (nth_res_lookup _ _ _ Hl). cbn [res_bind]. rewrite Hx. cbn [res_bind].
  replace (Z.succ (Z.of_nat k)) with (Z.of_nat (S k)) by lia.
  replace (Z.pred (Z.of_nat (S (length vs)))) with (Z.of_nat (length vs)) by lia.
  rewrite (IH (S k)); [done|].
  by rewrite <- Nat.add_1_r, <- drop_drop, Hk.
Qed.

(** [execute] on sources that read as [vals]. *)
Lemma di_execute_vals isa rf d vals :
  length (srcIdx d) = length (si_srcs (staticInst d)) →
  Forall2 (λ v x, getReg rf v = Ok x) (srcIdx d) vals →
  di_execute isa rf d =
    match isa (staticInst d) (pcState d) vals with
    | ExFault f => Ok (f, set_outcome d f (pcState d), rf)
    | ExDone outs p =>
        let! rf' := write_dests rf d 0 outs in
        Ok (NoFault, set_outcome d NoFault p, rf')
    end.
Proof.
  intros Hlen Hv. unfold di_execute, numSrcRegs.
  by rewrite <- Hlen, (get_operands rf d vals Hv).
Qed.

Lemma write_one rf d p o :
  destIdx d = [virt p] → live rf p → write_dests rf d 0 [o] = Ok (<[p := o]> rf).
Proof.
  intros Hd Hl. cbn [write_dests]. rewrite (setRegOperand_live rf d 0 p o); [done| |done].
  unfold extRenamedDestIdx. by rewrite Hd.
Qed.

(** ** The rename loops of [execute] *)

Lemma set_nth_app {A} (l1 l2 : list A) x y :
  set_nth (l1 ++ x :: l2) (Z.of_nat (length l1)) y = Ok (l1 ++ y :: l2).
Proof.
  unfold set_nth. rewrite length_app. simpl.
  destruct (Z.leb_spec 0 (Z.of_nat (length l1))); [|lia].
  destruct (Z.ltb_spec (Z.of_nat (length l1)) (Z.of_nat (length l1 + S (length l2))));
    [|lia].
  simpl. rewrite Nat2Z.id, insert_app_r_alt, Nat.sub_diag by lia. done.
Qed.

Lemma rename_srcs_prefix fused off d (k : nat) :
  k ≤ length (srcIdx d) → off + length (srcIdx d) ≤ length (srcIdx fused) →
  rename_srcs fused (Z.of_nat off) d (seqZ (Z.of_nat off) (Z.of_nat k)) =
    Ok (set_renames d (take k (drop off (srcIdx fused)) ++ drop k (srcIdx d))
          (destIdx d) (prevDestIdx d)).
Proof.
  intros Hk Hlen. induction k as [|k IH].
  { simpl. rewrite drop_0. by destruct d. }
  rewrite seqZ_S. unfold rename_srcs in *. rewrite res_fold_app, IH by lia. simpl.
  destruct (lookup_lt_is_Some_2 (srcIdx fused) (off + k)) as [v Hv]; [lia|].
  destruct (lookup_lt_is_Some_2 (srcIdx d) k) as [w Hw]; [lia|].
  unfold extRenamedSrcIdx. rewrite <- Nat2Z.inj_add, (nth_res_lookup _ _ _ Hv). simpl.
  unfold renameSrcReg. simpl.
  replace (Z.of_nat (off + k) - Z.of_nat off)%Z
    with (Z.of_nat (length (take k (drop off (srcIdx fused)))))
    by (rewrite length_take, length_drop; lia).
  rewrite (drop_S _ w k Hw), set_nth_app. simpl.
  rewrite (take_S_r _ k v) by by rewrite lookup_drop.
  by rewrite <- app_assoc.
Qed.

Lemma rename_srcs_all fused off d :
  off + length (srcIdx d) ≤ length (srcIdx fused) →
  rename_srcs fused (Z.of_nat off) d
    (seqZ (Z.of_nat off) (Z.of_nat (length (srcIdx d)))) =
    Ok (set_renames d (take (length (srcIdx d)) (drop off (srcIdx fused)))
          (destIdx d) (prevDestIdx d)).
Proof.
  intros Hlen. rewrite rename_srcs_prefix by lia.
  by rewrite drop_all, app_nil_r.
Qed.

Lemma rename_both_split fused d1 d2 n1 n2 :
  (0 ≤ n1)%Z → (0 ≤ n2)%Z → numSrcRegs (staticInst fused) = (n1 + n2)%Z →
  rename_both fused n1 (d1, d2) =
    let! d1' := rename_srcs fused 0 d1 (seqZ 0 n1) in
    let! d2' := rename_srcs fused n1 d2 (seqZ n1 n2) in
    Ok (d1', d2').
Proof.
  intros H1 H2 Hn. unfold rename_both. rewrite Hn, seqZ_app, res_fold_app by lia.
  rewrite Z.add_0_l.
  assert (∀ l d, Forall (λ i, i < n1)%Z l →
    res_fold (λ '(first, second) i,
      let! v := extRenamedSrcIdx fused i in
      if (i <? n1)%Z then let! first' := renameSrcReg first i v in Ok (first', second)
      else let! second' := renameSrcReg second (i - n1) v in Ok (first, second'))
      (d, d2) l = let! d' := rename_srcs fused 0 d l in Ok (d', d2)) as Hfst.
  { intros l. induction l as [|i l IH]; intros d Hl; [done|].
    inversion_clear Hl. unfold rename_srcs in *. simpl.
    destruct (extRenamedSrcIdx fused i); simpl; [|done].
    destruct (Z.ltb_spec i n1); [|lia]. rewrite Z.sub_0_r.
    destruct (renameSrcReg d i a); simpl; [by apply IH|done]. }
  rewrite Hfst by (apply Forall_forall; intros i Hi; apply elem_of_seqZ in Hi; lia).
  destruct (rename_srcs fused 0 d1 (seqZ 0 n1)) as [d1'|]; simpl; [|done].
  assert (∀ l d, Forall (λ i, n1 ≤ i)%Z l →
    res_fold (λ '(first, second) i,
      let! v := extRenamedSrcIdx fused i in
      if (i <? n1)%Z then let! first' := renameSrcReg first i v in Ok (first', second)
      else let! second' := renameSrcReg second (i - n1) v in Ok (first, second'))
      (d1', d) l = let! d' := rename_srcs fused n1 d l in Ok (d1', d')) as Hsnd.
  { intros l. induction l as [|i l IH]; intros d Hl; [done|].
    inversion_clear Hl. unfold rename_srcs in *. simpl.
    destruct (extRenamedSrcIdx fused i); simpl; [|done].
    destruct (Z.ltb_spec i n1); [lia|].
    destruct (renameSrcReg d (i - n1) a); simpl; [by apply IH|done]. }
  rewrite Hsnd; [done|].
  apply Forall_forall; intros i Hi; apply elem_of_seqZ in Hi; lia.
Qed.

Lemma rename_both_app fused d1 d2 l1 l2 :
  srcIdx fused = l1 ++ l2 →
  length (srcIdx fused) = length (si_srcs (staticInst fused)) →
  length (srcIdx d1) = length l1 → length (srcIdx d2) = length l2 →
  rename_both fused (Z.of_nat (length l1)) (d1, d2) =
    Ok (set_renames d1 l1 (destIdx d1) (prevDestIdx d1),
        set_renames d2 l2 (destIdx d2) (prevDestIdx d2)).
Proof.
  intros Hs Hn H1 H2.
  rewrite (rename_both_split fused d1 d2 _ (Z.of_nat (length l2))); [|lia|lia|].
  2:{ unfold numSrcRegs. rewrite <- Hn, Hs, length_app. lia. }
  assert (length (srcIdx fused) = length l1 + length l2)%nat as Hl
    by by rewrite Hs, length_app.
  pose proof (rename_srcs_all fused 0 d1) as R1.
  pose proof (rename_srcs_all fused (length l1) d2) as R2.
  rewrite H1, Hs, drop_0, take_app_length in R1.
  rewrite H2, Hs, drop_app_length, take_ge in R2 by lia.
  change (Z.of_nat 0) with 0%Z in R1.
  by rewrite R1, R2 by (rewrite length_app; lia).
Qed.

Lemma reg_eqb_spec a b : reflect (a = b) (reg_eqb a b).
Proof. unfold reg_eqb. case_bool_decide; by constructor. Qed.

Lemma reg_eqb_refl a : reg_eqb a a = true.
Proof. by destruct (reg_eqb_spec a a). Qed.

Lemma reg_eqb_sym a b : reg_eqb a b = reg_eqb b a.
Proof. destruct (reg_eqb_spec a b), (reg_eqb_spec b a); congruence. Qed.

Lemma reg_eqb_ne a b : a ≠ b → reg_eqb a b = false.
Proof. by destruct (reg_eqb_spec a b). Qed.

Lemma find_fuseTmp_map ρ srcs :
  find_fuseTmp srcs (map ρ srcs) =
    Ok (if bool_decide (FuseTmpReg ∈ srcs) then PhyReg (ρ FuseTmpReg) else None).
Proof.
  induction srcs as [|r srcs IH]; simpl; [done|].
  destruct (reg_eqb_spec r FuseTmpReg) as [->|Hne].
  - rewrite bool_decide_true by set_solver. done.
  - rewrite IH. f_equal.
    by rewrite (bool_decide_ext (FuseTmpReg ∈ r :: srcs) (FuseTmpReg ∈ srcs))
      by (rewrite elem_of_cons; split; [intros [<-|]; done|by right]).
Qed.

(** The source the constructor gives the fused instruction for a source [r] of
    the second instruction of a chain. *)
Definition chain_src (d1 r : RegId) : RegId := if reg_eqb r d1 then FuseTmpReg else r.

Lemma count_typed_dest_nonzero r u : count_typed_dest r = Ok u → isZeroReg r = false.
Proof. unfold count_typed_dest, isZeroReg. by destruct r as [[] ?]. Qed.

(** ** Renamings and what they represent *)

Section Renaming.

Context (D : RegId → Prop).

(** The registers of [D], read through [ρ], hold the architectural state. *)
Definition rep (ρ : RegId → VirtRegId) (rf : PhysRegFile) (A : Arch) : Prop :=
  ∀ r, D r → getReg rf (ρ r) = Ok (rd A r).

(** No register of [D] is mapped to [p]. *)
Definition private (ρ : RegId → VirtRegId) (p : PhysRegId) : Prop :=
  ∀ r, D r → PhyReg (ρ r) ≠ Some p.

(** The mapping after the destination [d] is renamed to [p]. *)
Definition bind_reg (ρ : RegId → VirtRegId) (d : RegId) (p : PhysRegId)
    : RegId → VirtRegId :=
  λ r, if reg_eqb r d then virt p else ρ r.

Lemma rd_wr A d v r :
  isZeroReg d = false → rd (wr A d v) r = if reg_eqb r d then v else rd A r.
Proof.
  intros Hd. unfold wr, rd. rewrite Hd.
  destruct (reg_eqb_spec r d) as [->|]; [by rewrite Hd|done].
Qed.

Lemma rep_insert ρ rf A p v : rep ρ rf A → private ρ p → rep ρ (<[p := v]> rf) A.
Proof. intros Hr Hp r Dr. rewrite getReg_insert_ne; auto. Qed.

Lemma rep_bind ρ rf A d p v :
  rep ρ rf A → private ρ p → live rf p → isZeroReg d = false →
  rep (bind_reg ρ d p) (<[p := v]> rf) (wr A d v).
Proof.
  intros Hr Hp Hl Hd r Dr. rewrite rd_wr by done. unfold bind_reg.
  destruct (reg_eqb_spec r d) as [->|Hne]; [by apply getReg_insert_eq|].
  rewrite getReg_insert_ne; auto.
Qed.

Lemma rep_overwrite ρ rf A d o v :
  rep ρ rf (wr A d v) → isZeroReg d = false → rep ρ rf (wr (wr A d o) d v).
Proof.
  intros Hr Hz r Dr. rewrite Hr, !rd_wr by done. by destruct (reg_eqb r d).
Qed.

Lemma private_bind ρ d p q : private ρ q → p ≠ q → private (bind_reg ρ d p) q.
Proof.
  intros Hp Hne r Dr. unfold bind_reg. destruct (reg_eqb_spec r d); [|by apply Hp].
  simpl. congruence.
Qed.

(** Sources inside [D] read as their architectural values. *)
Lemma srcs_read ρ rf A srcs :
  rep ρ rf A → Forall D srcs →
  Forall2 (λ v x, getReg rf v = Ok x) (map ρ srcs) (map (rd A) srcs).
Proof. intros Hr. induction 1; simpl; constructor; auto. Qed.

(** The fusion temporary has a register of its own. *)
Record renaming (ρ : RegId → VirtRegId) (rf : PhysRegFile) (A : Arch)
    (pt : PhysRegId) : Prop := {
  rn_rep : rep ρ rf A;
  rn_no_tmp : ¬ D FuseTmpReg;
  rn_tmp : ρ FuseTmpReg = virt pt;
  rn_tmp_live : live rf pt;
  rn_tmp_private : private ρ pt
}.

(** A register the free list can hand out. *)
Record fresh (ρ : RegId → VirtRegId) (rf : PhysRegFile) (pt p : PhysRegId) : Prop := {
  fr_live : live rf p;
  fr_tmp : p ≠ pt;
  fr_private : private ρ p
}.

(** An instruction of a generated class, with its operand arrays allocated. *)
Record plain (d : DynInst) : Prop := {
  pl_fusion : si_fusion (staticInst d) = None;
  pl_srcs : length (srcIdx d) = length (si_srcs (staticInst d));
  pl_dests : length (destIdx d) = length (si_dests (staticInst d));
  pl_prevs : length (prevDestIdx d) = length (si_dests (staticInst d));
  pl_dom : Forall D (si_srcs (staticInst d))
}.

(** A fused instruction after rename. *)
Record fused_as (ρ : RegId → VirtRegId) (si : StaticInst) (pds : list PhysRegId)
    (fused : DynInst) : Prop := {
  fa_static : staticInst fused = setFusedInst si;
  fa_srcs : srcIdx fused = map ρ (si_srcs si);
  fa_dests : destIdx fused = map virt pds
}.

(** *** One instruction, on physical and on architectural registers *)

Lemma exec_one isa `{!ISASem isa} rf A d dr q :
  si_dests (staticInst d) = [dr] → destIdx d = [virt q] → live rf q →
  length (srcIdx d) = length (si_srcs (staticInst d)) →
  Forall2 (λ v x, getReg rf v = Ok x) (srcIdx d)
    (map (rd A) (si_srcs (staticInst d))) →
  (∃ f, f ≠ NoFault ∧ di_execute isa rf d = Ok (f, set_outcome d f (pcState d), rf) ∧
        arch_execute isa A d = (f, A, pcState d)) ∨
  (∃ o p, di_execute isa rf d = Ok (NoFault, set_outcome d NoFault p, <[q := o]> rf) ∧
        arch_execute isa A d = (NoFault, wr A dr o, p)).
Proof.
  intros Hdr Hq Hl Hlen Hv. rewrite (di_execute_vals isa rf d _ Hlen Hv).
  unfold arch_execute. rewrite Hdr.
  destruct (isa _ _ _) as [f|outs p] eqn:E.
  - left. exists f. split; [by eapply isa_faults|done].
  - right. apply isa_dests in E. rewrite Hdr in E.
    destruct outs as [|o []]; try discriminate. exists o, p.
    by rewrite (write_one rf d q o Hq Hl).
Qed.

Lemma exec_none isa `{!ISASem isa} rf A d :
  si_dests (staticInst d) = [] →
  length (srcIdx d) = length (si_srcs (staticInst d)) →
  Forall2 (λ v x, getReg rf v = Ok x) (srcIdx d)
    (map (rd A) (si_srcs (staticInst d))) →
  (∃ f, f ≠ NoFault ∧ di_execute isa rf d = Ok (f, set_outcome d f (pcState d), rf) ∧
        arch_execute isa A d = (f, A, pcState d)) ∨
  (∃ p, di_execute isa rf d = Ok (NoFault, set_outcome d NoFault p, rf) ∧
        arch_execute isa A d = (NoFault, A, p)).
Proof.
  intros Hdr Hlen Hv. rewrite (di_execute_vals isa rf d _ Hlen Hv).
  unfold arch_execute. rewrite Hdr.
  destruct (isa _ _ _) as [f|outs p] eqn:E.
  - left. exists f. split; [by eapply isa_faults|done].
  - right. apply isa_dests in E. rewrite Hdr in E. destruct outs; [|done]. by exists p.
Qed.

(** What a fused instruction has to leave: without a fault the new mapping
    represents the state after the replaced instructions, with a fault the old
    mapping still represents the state before them. *)
Definition outcome (ρ ρ' : RegId → VirtRegId) (rf' : PhysRegFile) (A A' : Arch)
    (f : Fault) : Prop :=
  (f = NoFault → rep ρ' rf' A') ∧ (f ≠ NoFault → rep ρ rf' A).

Lemma renameDestReg_one d v prev p :
  length (destIdx d) = 1 → length (prevDestIdx d) = 1 → PhyReg v = Some p →
  renameDestReg d 0 v prev = Ok (set_renames d (srcIdx d) [v] [prev]).
Proof.
  intros Hd Hp Hv. unfold renameDestReg.
  destruct (destIdx d) as [|? []], (prevDestIdx d) as [|? []]; try done.
  simpl. by rewrite Hv.
Qed.

Lemma plain_dest d r :
  plain d → si_dests (staticInst d) = [r] → destRegIdx (staticInst d) 0 = Ok r.
Proof. intros [Hf _ _ _ _] Hd. unfold destRegIdx. by rewrite Hf, Hd. Qed.

Lemma no_tmp_srcs d : ¬ D FuseTmpReg → plain d → FuseTmpReg ∉ si_srcs (staticInst d).
Proof. intros Ht [_ _ _ _ Hdom] Hin. by eapply Forall_forall in Hdom. Qed.

(** *** Two instructions, the first feeding the second through [q] *)

Lemma run_both_refines isa `{!ISASem isa} rf A first second d1 d2 q pd :
  si_dests (staticInst first) = [d1] → si_dests (staticInst second) = [d2] →
  destIdx first = [virt q] → destIdx second = [virt pd] → live rf q → live rf pd →
  length (srcIdx first) = length (si_srcs (staticInst first)) →
  length (srcIdx second) = length (si_srcs (staticInst second)) →
  Forall2 (λ v x, getReg rf v = Ok x) (srcIdx first)
    (map (rd A) (si_srcs (staticInst first))) →
  (∀ o, Forall2 (λ v x, getReg (<[q := o]> rf) v = Ok x) (srcIdx second)
    (map (rd (wr A d1 o)) (si_srcs (staticInst second)))) →
  (∃ f d rf' A' p, f ≠ NoFault ∧ run_both isa rf first second = Ok (f, d, rf') ∧
     arch_execute2 isa A first second = (f, A', p) ∧
     (rf' = rf ∨ ∃ o, rf' = <[q := o]> rf)) ∨
  (∃ o1 o2 d p,
     run_both isa rf first second = Ok (NoFault, d, <[pd := o2]> (<[q := o1]> rf)) ∧
     arch_execute2 isa A first second = (NoFault, wr (wr A d1 o1) d2 o2, p)).
Proof.
  intros Hd1 Hd2 Hq Hpd Hlq Hlpd Hn1 Hn2 Hv1 Hv2. unfold run_both, arch_execute2.
  destruct (exec_one isa rf A first d1 q) as [(f & Hf & -> & ->)|(o & p & -> & ->)];
    try done; cbn [res_bind].
  { left. rewrite bool_decide_false by done.
    exists f, second, rf, A, (pcState first). repeat split; try done. by left. }
  rewrite !bool_decide_true by done.
  destruct (exec_one isa (<[q := o]> rf) (wr A d1 o) second d2 pd)
    as [(f & Hf & -> & ->)|(o2 & p2 & -> & ->)]; try done.
  - by apply live_insert.
  - left. exists f, (set_outcome second f (pcState second)), (<[q := o]> rf),
      (wr A d1 o), (pcState second).
    repeat split; try done. right. by exists o.
  - right. by exists o, o2, (set_outcome second NoFault p2), p2.
Qed.

(** A private register may hold anything. *)
Lemma rep_scratch ρ rf rf' A q :
  rep ρ rf A → private ρ q → (rf' = rf ∨ ∃ o, rf' = <[q := o]> rf) → rep ρ rf' A.
Proof. intros Hr Hp [->|[o ->]]; [done|by apply rep_insert]. Qed.

(** The operands of the second instruction, after the first has written. *)
Lemma chain_srcs_read ρ rf A pt q d1 o srcs :
  renaming ρ rf A pt → Forall D srcs → isZeroReg d1 = false →
  private ρ q → (d1 ∈ srcs → q = pt) →
  Forall2 (λ v x, getReg (<[q := o]> rf) v = Ok x)
    (map ρ (map (chain_src d1) srcs)) (map (rd (wr A d1 o)) srcs).
Proof.
  intros Hrn Hdom Hz Hq Hin. rewrite map_map. 
  induction Hdom as [|r srcs Dr Hdom IH]; simpl; constructor.
  - unfold chain_src. rewrite rd_wr by done. destruct (reg_eqb_spec r d1) as [->|Hne].
    + rewrite Hin by set_solver. rewrite (rn_tmp _ _ _ _ Hrn).
      apply getReg_insert_eq, Hrn.
    + rewrite getReg_insert_ne by auto. by apply Hrn.
  - apply IH. set_solver.
Qed.

End Renaming.

(** ** Chain fusion *)

Section Chain.

Context (isa : ISAExec) `{!ISASem isa} (D : RegId → Prop).

Lemma ChainFusionInst_new_inv name op first second si d1 d2 :
  plain D first → plain D second →
  si_dests (staticInst first) = [d1] → si_dests (staticInst second) = [d2] →
  ChainFusionInst_new name op first second = Ok si →
  d2 = d1 ∧ isZeroReg d1 = false ∧
  si_srcs si = si_srcs (staticInst first) ++
    map (chain_src d1) (si_srcs (staticInst second)) ∧ si_dests si = [d1] ∧
  si_fusion si = Some (mkFusion (ChainFusionInst (numSrcRegs (staticInst first)))
                         [first; second] 0 false).
Proof.
  intros Hp1 Hp2 Hd1 Hd2 Hnew. unfold ChainFusionInst_new in Hnew.
  rewrite (plain_dest D first d1), (plain_dest D second d2) in Hnew by done.
  cbn [res_bind] in Hnew. res_inv.
  match goal with H : count_typed_dest _ = Ok _ |- _ => rename H into Hc end.
  match goal with H : fusion_srcs _ = Ok _ |- _ => rename H into Hs end.
  unfold fusion_srcs in Hs. destruct (_ <=? 4)%nat; [|done]. injection Hs as <-.
  destruct (reg_eqb_spec d1 d2) as [<-|]; [|done].
  split; [done|]. split; [|done]. by eapply count_typed_dest_nonzero.
Qed.

Lemma chain_renamed name op first second si fused ρ rf A pt d1 d2 pd rf0 :
  plain D first → plain D second →
  si_dests (staticInst first) = [d1] → si_dests (staticInst second) = [d2] →
  ChainFusionInst_new name op first second = Ok si →
  renaming D ρ rf A pt → fused_as ρ si [pd] fused →
  fusion_execute isa rf0 fused =
    let q := if bool_decide (d1 ∈ si_srcs (staticInst second)) then pt else pd in
    let! r := run_both isa rf0
      (set_renames first (map ρ (si_srcs (staticInst first))) [virt q] [VirtRegId_null])
      (set_renames second (map ρ (map (chain_src d1) (si_srcs (staticInst second))))
         [virt pd] [VirtRegId_null]) in
    Ok (r.1.1, pcState fused, r.2).
Proof.
  intros Hp1 Hp2 Hd1 Hd2 Hnew Hrn [Hst Hsrc Hdst].
  destruct (ChainFusionInst_new_inv _ _ _ _ _ _ _ Hp1 Hp2 Hd1 Hd2 Hnew)
    as (-> & Hz & Hsrcs & _ & Hsi).
  unfold fusion_execute, ChainFusionInst_execute, extRenamedDestIdx.
  rewrite Hst, Hsrc, Hdst. simpl. rewrite Hsi. simpl.
  rewrite find_fuseTmp_map, Hsrcs. simpl.
  assert (FuseTmpReg ∈ si_srcs (staticInst first) ++
            map (chain_src d1) (si_srcs (staticInst second)) ↔
          d1 ∈ si_srcs (staticInst second)) as Hiff.
  { rewrite elem_of_app, list_elem_of_fmap.
    pose proof (no_tmp_srcs D first (rn_no_tmp _ _ _ _ _ Hrn) Hp1).
    pose proof (no_tmp_srcs D second (rn_no_tmp _ _ _ _ _ Hrn) Hp2). split.
    - intros [|(r & Hr & Hin)]; [done|]. unfold chain_src in Hr.
      by destruct (reg_eqb_spec r d1); subst.
    - intros Hin. right. exists d1. unfold chain_src. by rewrite reg_eqb_refl. }
  rewrite (bool_decide_ext _ _ Hiff), (rn_tmp _ _ _ _ _ Hrn). simpl.
  set (q := if bool_decide (d1 ∈ si_srcs (staticInst second)) then pt else pd).
  replace (match (if bool_decide (d1 ∈ si_srcs (staticInst second)) then Some pt else None)
           with Some p => virt p | None => virt pd end) with (virt q)
    by (unfold q; by case_bool_decide).
  pose proof (pl_dests D first Hp1) as L1. pose proof (pl_prevs D first Hp1) as L2.
  pose proof (pl_dests D second Hp2) as L3. pose proof (pl_prevs D second Hp2) as L4.
  rewrite Hd1 in L1, L2. rewrite Hd2 in L3, L4.
  rewrite (renameDestReg_one first _ _ q), (renameDestReg_one second _ _ pd) by done.
  cbn [res_bind].
  unfold numSrcRegs. rewrite <- (length_map ρ (si_srcs (staticInst first))).
  rewrite (rename_both_app fused _ _ _
    (map ρ (map (chain_src d1) (si_srcs (staticInst second))))).
  - cbn [res_bind fst snd]. destruct (run_both _ _ _ _) as [[[f d] rf']|]; done.
  - by rewrite Hsrc, Hsrcs, map_app.
  - by rewrite Hsrc, Hst, length_map.
  - rewrite length_map. apply Hp1.
  - rewrite !length_map. apply Hp2.
Qed.

Lemma chain_execute_refines name op first second si fused ρ rf A pt d1 d2 pd :
  plain D first → plain D second →
  si_dests (staticInst first) = [d1] → si_dests (staticInst second) = [d2] →
  ChainFusionInst_new name op first second = Ok si →
  renaming D ρ rf A pt → fresh D ρ rf pt pd → fused_as ρ si [pd] fused →
  ∃ rf', fusion_execute isa rf fused =
           Ok ((arch_execute2 isa A first second).1.1, pcState fused, rf') ∧
    outcome D ρ (bind_reg ρ d1 pd) rf' A (arch_execute2 isa A first second).1.2
      (arch_execute2 isa A first second).1.1.
Proof.
  intros Hp1 Hp2 Hd1 Hd2 Hnew Hrn Hfr Hfu.
  rewrite (chain_renamed _ _ _ _ _ _ _ _ _ _ _ _ _ rf Hp1 Hp2 Hd1 Hd2 Hnew Hrn Hfu).
  destruct (ChainFusionInst_new_inv _ _ _ _ _ _ _ Hp1 Hp2 Hd1 Hd2 Hnew)
    as (-> & Hz & _ & _).
  set (q := if bool_decide (d1 ∈ si_srcs (staticInst second)) then pt else pd).
  assert (live rf q ∧ private D ρ q ∧ (d1 ∈ si_srcs (staticInst second) → q = pt))
    as (Hlq & Hpq & Hin).
  { unfold q. case_bool_decide; (split; [|split; [|done]]); apply Hrn || apply Hfr. }
  cbn zeta.
  match goal with |- context [run_both _ _ ?a ?b] =>
    set (first' := a); set (second' := b) end.
  change (arch_execute2 isa A first second) with (arch_execute2 isa A first' second').
  destruct (run_both_refines isa rf A first' second' d1 d1 q pd)
    as [(f & d & rf' & A' & p & Hf & Hr & -> & Hrf')|(o1 & o2 & d & p & Hr & ->)];
    try done.
  - apply Hfr.
  - simpl. by rewrite length_map.
  - simpl. by rewrite !length_map.
  - apply (srcs_read D); [apply Hrn|apply Hp1].
  - intros o. apply (chain_srcs_read D ρ rf A pt); auto; apply Hp2.
  - rewrite Hr. simpl. exists rf'. split; [done|]. split; [done|]. intros _.
    eapply rep_scratch; [apply Hrn|done|done].
  - rewrite Hr. simpl. eexists. split; [done|]. split; [|done]. intros _.
    apply rep_overwrite; [|done]. apply rep_bind; [|apply Hfr| |done].
    + apply rep_insert; [apply Hrn|done].
    + apply live_insert, Hfr.
Qed.
End Chain.

(** ** ALU and branch *)

Section AluBr.

Context (isa : ISAExec) `{!ISASem isa} (D : RegId → Prop).

(** The branch reads the ALU result through exactly one of its sources. *)
Definition one_source (d1 a b other : RegId) : Prop :=
  (a = d1 ∧ b = other ∧ b ≠ d1) ∨ (b = d1 ∧ a = other ∧ a ≠ d1).

Lemma AluBrFusionInst_new_inv name first second si s d1 a b other :
  plain D first → plain D second →
  si_srcs (staticInst first) = [s] → si_dests (staticInst first) = [d1] →
  si_srcs (staticInst second) = [a; b] → one_source d1 a b other →
  AluBrFusionInst_new name first second = Ok si →
  isZeroReg d1 = false ∧ si_srcs si = [s; other] ∧ si_dests si = [d1] ∧
  si_fusion si = Some (mkFusion (AluBrFusionInst 1) [first; second] 0 false).
Proof.
  intros Hp1 Hp2 Hs1 Hd1 Hs2 Hone Hnew. unfold AluBrFusionInst_new in Hnew.
  rewrite (plain_dest D first d1) in Hnew by done. cbn [res_bind] in Hnew. res_inv.
  match goal with H : count_typed_dest _ = Ok _ |- _ => rename H into Hc end.
  match goal with H : fusion_srcs _ = Ok _ |- _ => rename H into Hs end.
  split; [by eapply count_typed_dest_nonzero|].
  unfold fusion_srcs in Hs. destruct (_ <=? 4)%nat; [|done]. injection Hs as <-.
  unfold numSrcRegs. rewrite Hs1, Hs2. split; [|by split]. simpl.
  destruct Hone as [(-> & -> & Hne)|(-> & -> & Hne)];
    rewrite !filter_cons, reg_eqb_refl, (reg_eqb_ne _ _ Hne); done.
Qed.

(** The renamed operands of the branch. *)
Definition br_srcs (ρ : RegId → VirtRegId) (d1 a b : RegId) (pd : PhysRegId) :=
  map (λ r, if reg_eqb r d1 then virt pd else ρ r) [a; b].

Lemma br_srcs_read ρ rf A d1 a b pd o :
  rep D ρ rf A → private D ρ pd → live rf pd → D a → D b → isZeroReg d1 = false →
  Forall2 (λ v x, getReg (<[pd := o]> rf) v = Ok x)
    (br_srcs ρ d1 a b pd) (map (rd (wr A d1 o)) [a; b]).
Proof.
  intros Hr Hp Hl Da Db Hz.
  assert (rep D (bind_reg ρ d1 pd) (<[pd := o]> rf) (wr A d1 o)) as Hr'
    by by apply rep_bind.
  by apply (srcs_read D); [|repeat constructor].
Qed.

Lemma AluBr_renamed name first second si fused ρ rf0 s d1 a b other pd :
  plain D first → plain D second →
  si_srcs (staticInst first) = [s] → si_dests (staticInst first) = [d1] →
  si_srcs (staticInst second) = [a; b] → one_source d1 a b other →
  AluBrFusionInst_new name first second = Ok si → fused_as ρ si [pd] fused →
  fusion_execute isa rf0 fused =
    let! r1 := di_execute isa rf0
      (set_renames first [ρ s] [virt pd] [VirtRegId_null]) in
    let '(f1, first', rf1) := r1 in
    if negb (bool_decide (f1 = NoFault)) then Ok (f1, pcState fused, rf1)
    else
      let! r2 := di_execute isa rf1
        (set_renames second (br_srcs ρ d1 a b pd) (destIdx second) (prevDestIdx second)) in
      let '(f2, second', rf2) := r2 in
      Ok (f2, setNPC (pc_set PCState_default (getPC first')) (getNPC second'), rf2).
Proof.
  intros Hp1 Hp2 Hs1 Hd1 Hs2 Hone Hnew [Hst Hsrc Hdst].
  destruct (AluBrFusionInst_new_inv _ _ _ _ _ _ _ _ _ Hp1 Hp2 Hs1 Hd1 Hs2 Hone Hnew)
    as (Hz & Hsrcs & _ & Hsi).
  unfold fusion_execute, AluBrFusionInst_execute, extRenamedDestIdx, extRenamedSrcIdx.
  rewrite Hst, Hsrc, Hdst, Hsrcs. simpl. rewrite Hsi. simpl.
  pose proof (pl_dests D first Hp1) as L1. pose proof (pl_prevs D first Hp1) as L2.
  pose proof (pl_srcs D first Hp1) as L3. pose proof (pl_srcs D second Hp2) as L4.
  rewrite Hd1 in L1, L2. rewrite Hs1 in L3. rewrite Hs2 in L4.
  rewrite (renameDestReg_one first _ _ pd) by done. cbn [res_bind].
  unfold renameSrcReg at 1. simpl.
  destruct (srcIdx first) as [|? []]; try done. simpl.
  unfold srcRegIdx, destRegIdx. simpl.
  rewrite (pl_fusion D second Hp2), (pl_fusion D first Hp1), Hs2, Hd1. simpl.
  unfold renameSrcReg, br_srcs.
  destruct (srcIdx second) as [|v0 [|v1 []]]; try done.
  destruct Hone as [(-> & -> & Hne)|(-> & -> & Hne)]; simpl;
    rewrite reg_eqb_refl, (reg_eqb_ne _ _ Hne); done.
Qed.

Lemma alubr_execute_refines name first second si fused ρ rf A pt s d1 a b other pd :
  plain D first → plain D second →
  si_srcs (staticInst first) = [s] → si_dests (staticInst first) = [d1] →
  si_srcs (staticInst second) = [a; b] → si_dests (staticInst second) = [] →
  one_source d1 a b other → AluBrFusionInst_new name first second = Ok si →
  renaming D ρ rf A pt → fresh D ρ rf pt pd → fused_as ρ si [pd] fused →
  ∃ rf' p', fusion_execute isa rf fused =
           Ok ((arch_execute2 isa A first second).1.1, p', rf') ∧
    outcome D ρ (bind_reg ρ d1 pd) rf' A (arch_execute2 isa A first second).1.2
      (arch_execute2 isa A first second).1.1 ∧
    ((arch_execute2 isa A first second).1.1 = NoFault →
       npc p' = npc (arch_execute2 isa A first second).2).
Proof.
  intros Hp1 Hp2 Hs1 Hd1 Hs2 Hd2 Hone Hnew Hrn Hfr Hfu.
  rewrite (AluBr_renamed _ _ _ _ _ _ rf _ _ _ _ _ _ Hp1 Hp2 Hs1 Hd1 Hs2 Hone Hnew Hfu).
  destruct (AluBrFusionInst_new_inv _ _ _ _ _ _ _ _ _ Hp1 Hp2 Hs1 Hd1 Hs2 Hone Hnew)
    as (Hz & _ & _).
  set (first' := set_renames first _ _ _). set (second' := set_renames second _ _ _).
  change (arch_execute2 isa A first second) with (arch_execute2 isa A first' second').
  pose proof (pl_dom D first Hp1) as Dom1. rewrite Hs1 in Dom1.
  pose proof (pl_dom D second Hp2) as Dom2. rewrite Hs2 in Dom2.
  inversion_clear Dom2 as [|? ? Da Dom3]. inversion_clear Dom3 as [|? ? Db _].
  unfold arch_execute2.
  destruct (exec_one isa rf A first' d1 pd)
    as [(f & Hf & -> & ->)|(o & p & -> & ->)]; try done; cbn [res_bind].
  { apply Hfr. }
  { simpl. by rewrite Hs1. }
  { simpl. rewrite Hs1. apply (srcs_read D ρ rf A [s]); [apply Hrn|done]. }
  { rewrite !bool_decide_false by done. simpl. do 2 eexists. split; [done|].
    split; [|done]. split; [done|]. intros _. apply Hrn. }
  rewrite !bool_decide_true by done. cbn [negb].
  destruct (exec_none isa (<[pd := o]> rf) (wr A d1 o) second')
    as [(f & Hf & -> & ->)|(p2 & -> & ->)]; try done; cbn [res_bind].
  { simpl. by rewrite Hs2. }
  { simpl. rewrite Hs2. apply br_srcs_read; try done; apply Hrn || apply Hfr. }
  - do 2 eexists. split; [done|]. split; [|done]. split; [done|]. intros _.
    apply rep_insert; [apply Hrn|apply Hfr].
  - do 2 eexists. split; [done|]. split; [|done]. split; [|done]. intros _.
    apply rep_bind; try done; apply Hrn || apply Hfr.
Qed.

(** A branch that reads the ALU result twice leaves the fused instruction one source
    short, and [execute] reads past its sources. *)
Lemma alubr_twice_fails name first second si fused ρ rf s d1 pd :
  plain D first → plain D second →
  si_srcs (staticInst first) = [s] → si_dests (staticInst first) = [d1] →
  si_srcs (staticInst second) = [d1; d1] →
  AluBrFusionInst_new name first second = Ok si → fused_as ρ si [pd] fused →
  fusion_execute isa rf fused = ub.
Proof.
  intros Hp1 Hp2 Hs1 Hd1 Hs2 Hnew [Hst Hsrc Hdst].
  assert (si_srcs si = [s] ∧ si_fusion si = Some (mkFusion (AluBrFusionInst 1) [first; second] 0 false))
    as [Hsrcs Hsi].
  { unfold AluBrFusionInst_new in Hnew.
    rewrite (plain_dest D first d1) in Hnew by done. cbn [res_bind] in Hnew. res_inv.
    match goal with H : fusion_srcs _ = Ok _ |- _ => rename H into Hs end.
    unfold fusion_srcs in Hs. destruct (_ <=? 4)%nat; [|done]. injection Hs as <-.
    unfold numSrcRegs. rewrite Hs1, Hs2. simpl. by rewrite !filter_cons, reg_eqb_refl. }
  unfold fusion_execute, AluBrFusionInst_execute, extRenamedDestIdx, extRenamedSrcIdx.
  rewrite Hst, Hsrc, Hdst, Hsrcs. simpl. rewrite Hsi. simpl.
  pose proof (pl_dests D first Hp1) as L1. pose proof (pl_prevs D first Hp1) as L2.
  pose proof (pl_srcs D first Hp1) as L3. pose proof (pl_srcs D second Hp2) as L4.
  rewrite Hd1 in L1, L2. rewrite Hs1 in L3. rewrite Hs2 in L4.
  rewrite (renameDestReg_one first _ _ pd) by done. cbn [res_bind].
  unfold renameSrcReg at 1. simpl.
  destruct (srcIdx first) as [|? []]; try done. simpl.
  unfold srcRegIdx, destRegIdx. simpl.
  rewrite (pl_fusion D second Hp2), (pl_fusion D first Hp1), Hs2, Hd1. simpl.
  rewrite reg_eqb_refl. unfold renameSrcReg.
  by destruct (srcIdx second) as [|v0 [|v1 []]].
Qed.

End AluBr.

(** ** Multiply and accumulate *)

Section Macc.

Context (isa : ISAExec) `{!ISASem isa} (D : RegId → Prop).

Lemma feeds_plain d1 second a b :
  plain D second → si_srcs (staticInst second) = [a; b] →
  feeds d1 (staticInst second) = Ok (reg_eqb d1 a || reg_eqb d1 b).
Proof.
  intros Hp Hs. unfold feeds, srcRegIdx. rewrite (pl_fusion D second Hp), Hs. simpl.
  by destruct (reg_eqb d1 a).
Qed.

Lemma MaccFusionInst_new_inv name op first second si d1 d2 a b :
  plain D first → plain D second →
  si_dests (staticInst first) = [d1] → si_dests (staticInst second) = [d2] →
  si_srcs (staticInst second) = [a; b] →
  MaccFusionInst_new name op first second = Ok si →
  ∃ other, one_source d1 a b other ∧ isZeroReg d2 = false ∧
  si_srcs si = si_srcs (staticInst first) ++ [FuseTmpReg; other] ∧
  si_dests si = [d2] ∧ si_fusion si = Some (mkFusion (MaccFusionInst (numSrcRegs (staticInst first)))
                         [first; second] 0 false).
Proof.
  intros Hp1 Hp2 Hd1 Hd2 Hs2 Hnew. unfold MaccFusionInst_new in Hnew.
  rewrite (plain_dest D first d1) in Hnew by done. cbn [res_bind] in Hnew.
  rewrite (feeds_plain d1 second a b) in Hnew by done. cbn [res_bind] in Hnew.
  unfold numSrcRegs at 1 in Hnew. rewrite Hs2, (plain_dest D second d2) in Hnew by done.
  assert (∃ other, one_source d1 a b other ∧
    take 1 (filter (λ r, reg_eqb r d1 = false) [a; b]) = [other]) as (other & Hone & Hacc).
  { unfold one_source. rewrite !filter_cons in Hnew |- *.
    destruct (reg_eqb_spec d1 a) as [<-|Ha], (reg_eqb_spec d1 b) as [<-|Hb];
      rewrite ?reg_eqb_refl, ?(reg_eqb_ne a d1), ?(reg_eqb_ne b d1) in Hnew |- *
        by congruence; simpl in *; try discriminate.
    - exists b. split; [left; by auto|done].
    - exists a. split; [right; by auto|done]. }
  rewrite Hacc in Hnew. exists other. split; [done|]. res_inv.
  match goal with H : count_typed_dest _ = Ok _ |- _ => rename H into Hc end.
  match goal with H : fusion_srcs _ = Ok _ |- _ => rename H into Hs end.
  split; [by eapply count_typed_dest_nonzero|].
  unfold fusion_srcs in Hs. destruct (_ <=? 4)%nat; [|done]. by injection Hs as <-.
Qed.

Lemma chain_srcs_one ρ pt d1 a b other :
  ρ FuseTmpReg = virt pt → one_source d1 a b other →
  map ρ (map (chain_src d1) [a; b]) =
    (if reg_eqb a d1 then [virt pt; ρ other] else [ρ other; virt pt]).
Proof.
  intros Ht [(-> & -> & Hne)|(-> & -> & Hne)]; simpl; unfold chain_src;
    by rewrite reg_eqb_refl, (reg_eqb_ne _ _ Hne), Ht.
Qed.

Lemma Macc_renamed name op first second si fused ρ rf A pt d1 d2 a b pd rf0 :
  plain D first → plain D second →
  si_dests (staticInst first) = [d1] → si_dests (staticInst second) = [d2] →
  si_srcs (staticInst second) = [a; b] →
  MaccFusionInst_new name op first second = Ok si →
  renaming D ρ rf A pt → fused_as ρ si [pd] fused →
  fusion_execute isa rf0 fused =
    let! r := run_both isa rf0
      (set_renames first (map ρ (si_srcs (staticInst first))) [virt pt] [VirtRegId_null])
      (set_renames second (map ρ (map (chain_src d1) [a; b])) [virt pd] [VirtRegId_null]) in
    Ok (r.1.1, pcState fused, r.2).
Proof.
  intros Hp1 Hp2 Hd1 Hd2 Hs2 Hnew Hrn [Hst Hsrc Hdst].
  destruct (MaccFusionInst_new_inv _ _ _ _ _ _ _ _ _ Hp1 Hp2 Hd1 Hd2 Hs2 Hnew)
    as (other & Hone & Hz & Hsrcs & _ & Hsi).
  pose proof (rn_tmp _ _ _ _ _ Hrn) as Ht.
  rewrite (chain_srcs_one ρ pt d1 a b other Ht Hone).
  unfold fusion_execute, MaccFusionInst_execute, extRenamedDestIdx.
  rewrite Hst, Hsrc, Hdst. simpl. rewrite Hsi. simpl.
  rewrite find_fuseTmp_map, bool_decide_true by (rewrite Hsrcs; set_solver).
  rewrite Ht. cbn [res_bind get_at PhyReg virt].
  pose proof (pl_dests D first Hp1) as L1. pose proof (pl_prevs D first Hp1) as L2.
  pose proof (pl_dests D second Hp2) as L3. pose proof (pl_prevs D second Hp2) as L4.
  pose proof (pl_srcs D first Hp1) as L5. pose proof (pl_srcs D second Hp2) as L6.
  rewrite Hd1 in L1, L2. rewrite Hd2 in L3, L4. rewrite Hs2 in L6.
  rewrite (renameDestReg_one first _ _ pt) by done. cbn [res_bind nth_res].
  simpl. rewrite (renameDestReg_one second _ _ pd) by done. cbn [res_bind].
  set (first' := set_renames first _ _ _). set (second' := set_renames second _ _ _).
  pose proof (rename_srcs_all fused 0 first') as R. simpl in R.
  rewrite Hsrc, Hsrcs, map_app, L5, drop_0 in R.
  rewrite <- (length_map ρ (si_srcs (staticInst first))), take_app_length in R.
  unfold numSrcRegs. rewrite <- (length_map ρ (si_srcs (staticInst first))).
  change 0%Z with (Z.of_nat 0). rewrite R by (rewrite length_app; lia). cbn [res_bind].
  unfold extRenamedSrcIdx. rewrite Hsrc, Hsrcs, map_app. simpl.
  rewrite (nth_res_lookup _ (length (map ρ (si_srcs (staticInst first)))) (virt pt))
    by (by rewrite list_lookup_middle, Ht).
  cbn [res_bind].
  replace (Z.of_nat (length (map ρ (si_srcs (staticInst first)))) + 1)%Z
    with (Z.of_nat (S (length (map ρ (si_srcs (staticInst first)))))) by lia.
  rewrite (nth_res_lookup _ (S (length (map ρ (si_srcs (staticInst first))))) (ρ other))
    by (rewrite lookup_app_r by lia; by replace (S _ - _)%nat with 1%nat by lia).
  cbn [res_bind]. unfold srcRegIdx, destRegIdx.
  change (staticInst second') with (staticInst second).
  simpl. rewrite (pl_fusion D second Hp2), (pl_fusion D first Hp1), Hs2, Hd1. simpl.
  unfold renameSrcReg. simpl.
  destruct (srcIdx second) as [|v0 [|v1 []]]; try done. simpl.
  destruct (reg_eqb a d1); simpl; by destruct (run_both _ _ _ _) as [[[] ?]|].
Qed.

Lemma macc_execute_refines name op first second si fused ρ rf A pt d1 d2 a b pd :
  plain D first → plain D second →
  si_dests (staticInst first) = [d1] → si_dests (staticInst second) = [d2] →
  si_srcs (staticInst second) = [a; b] → isZeroReg d1 = false →
  MaccFusionInst_new name op first second = Ok si →
  renaming D ρ rf A pt → fresh D ρ rf pt pd → fused_as ρ si [pd] fused →
  ∃ rf', fusion_execute isa rf fused =
           Ok ((arch_execute2 isa A first second).1.1, pcState fused, rf') ∧
    outcome D ρ (bind_reg ρ d2 pd) rf' A
      (keep_reg d1 d2 A (arch_execute2 isa A first second).1.2)
      (arch_execute2 isa A first second).1.1 ∧
    (d1 ≠ d2 → D d1 → getReg rf' (bind_reg ρ d2 pd d1) = Ok (rd A d1)).
Proof.
  intros Hp1 Hp2 Hd1 Hd2 Hs2 Hz1 Hnew Hrn Hfr Hfu.
  rewrite (Macc_renamed _ _ _ _ _ _ _ _ _ _ _ _ _ _ _ rf Hp1 Hp2 Hd1 Hd2 Hs2 Hnew Hrn Hfu).
  destruct (MaccFusionInst_new_inv _ _ _ _ _ _ _ _ _ Hp1 Hp2 Hd1 Hd2 Hs2 Hnew)
    as (other & Hone & Hz & _ & _).
  match goal with |- context [run_both _ _ ?u ?v] =>
    set (first' := u); set (second' := v) end.
  change (arch_execute2 isa A first second) with (arch_execute2 isa A first' second').
  assert (∀ rf', (rf' = rf ∨ ∃ o, rf' = <[pt := o]> rf) → rep D ρ rf' A) as Hold
    by (intros rf'; eapply rep_scratch; apply Hrn).
  destruct (run_both_refines isa rf A first' second' d1 d2 pt pd)
    as [(f & d & rf' & A' & p & Hf & Hr & -> & Hrf')|(o1 & o2 & d & p & Hr & ->)];
    try done.
  - apply Hrn.
  - apply Hfr.
  - simpl. by rewrite length_map.
  - simpl. by rewrite Hs2.
  - apply (srcs_read D); [apply Hrn|apply Hp1].
  - intros o. simpl. rewrite Hs2.
    apply (chain_srcs_read D ρ rf A pt pt d1 o [a; b]); try done.
    + rewrite <- Hs2. apply Hp2.
    + apply Hrn.
  - rewrite Hr. simpl. exists rf'. split; [done|]. specialize (Hold rf' Hrf').
    split; [split; [done|]|].
    + intros _ r Dr. by apply Hold.
    + intros Hne Dd. unfold bind_reg. rewrite reg_eqb_ne by done. by apply Hold.
  - rewrite Hr. simpl. eexists. split; [done|].
    assert (rep D (bind_reg ρ d2 pd) (<[pd := o2]> (<[pt := o1]> rf)) (wr A d2 o2)) as Hnew'.
    { apply rep_bind; [|apply Hfr|apply live_insert, Hfr|done]. apply Hold. right. by exists o1. }
    split; [split; [|done]|].
    + intros _ r Dr. rewrite (Hnew' r Dr), rd_keep, !rd_wr by done.
      destruct (reg_eqb_spec r d2) as [->|Hr2].
      * by rewrite (reg_eqb_sym d2 d1), andb_negb_r.
      * destruct (reg_eqb_spec r d1) as [->|]; [|done]. by rewrite reg_eqb_ne by done.
    + intros Hne Dd. rewrite (Hnew' d1 Dd), rd_wr by done. by rewrite reg_eqb_ne.
Qed.

End Macc.
