(* ===== verification/FusionLoads.v ===== *)
(** Fused loads read the addresses and write the values of the instructions they
    replace.

    The fused load is compared with the replaced instructions when no access
    faults: [initiateAcc] asks for one read, and [completeAcc] on the bytes of
    that read leaves the registers the replaced instructions leave. *)
From S2P Require Import Prelude RegFile Inst Fusion FusionCorrect.
Import Fusion.

(** ** Memory *)

Lemma read_bytes_split m a n0 n1 :
  (0 ≤ n0)%Z → (0 ≤ n1)%Z →
  read_bytes m (u64 a) (n0 + n1) =
    read_bytes m (u64 a) n0 ++ read_bytes m (u64 (a + n0)) n1.
Proof.
  intros H0 H1. unfold read_bytes. rewrite seqZ_app, map_app by done.
  apply (f_equal2 (@app Z)); [done|].
  rewrite (Z.add_comm 0 n0), <- (fmap_add_seqZ n0 0 n1).
  change (Z.add n0 <$> seqZ 0 n1) with (map (Z.add n0) (seqZ 0 n1)).
  rewrite map_map. apply map_ext. intros i. by rewrite !u64_add_l, Z.add_assoc.
Qed.

Lemma length_read_bytes m a n : length (read_bytes m a n) = Z.to_nat n.
Proof. unfold read_bytes. by rewrite length_map, length_seqZ. Qed.

Lemma completeAcc_live ld rf d p data :
  destIdx d = [virt p] → live rf p →
  di_completeAcc ld rf d data = Ok (<[p := ld (staticInst d) data]> rf).
Proof.
  intros Hd Hl. unfold di_completeAcc. apply setRegOperand_live; [|done].
  unfold extRenamedDestIdx. by rewrite Hd.
Qed.

(** A load of a generated class: one source, one destination. *)
Record plain_load (D : RegId → Prop) (d : DynInst) (base rd : RegId) : Prop := {
  ld_plain : plain D d;
  ld_srcs : si_srcs (staticInst d) = [base];
  ld_dests : si_dests (staticInst d) = [rd]
}.

Section Loads.

Context (isa : ISAExec) `{!ISASem isa} (ld : ISALoad) (m : Memory)
        (D : RegId → Prop).

(** What a fused load does: it asks for the bytes at [ea], leaves the old
    mapping intact while it waits, and the bytes give the state [A']. *)
Definition load_done (ρ ρ' : RegId → VirtRegId) (A A' : Arch) (D' : RegId → Prop)
    (rf : PhysRegFile) (fused : DynInst) (ea size flags : Z) : Prop :=
  ∃ targets rf1 fu rf2,
    fusion_initiateAcc isa rf fused = Ok (InitRead (mkReq ea size flags) targets rf1) ∧
    rep D ρ rf1 A ∧ si_fusion (staticInst fused) = Some fu ∧
    fusion_completeAcc ld rf1 fu targets (read_bytes m ea size) = Ok rf2 ∧
    rep D' ρ' rf2 A'.

Lemma arch_load_eq A d base r :
  plain_load D d base r →
  arch_load ld m A d =
    wr A r (ld (staticInst d) (read_bytes m (u64 (rd A base + si_imm (staticInst d)))
                                 (Z.quot (operWid (staticInst d)) 8))).
Proof. intros [_ Hs Hd]. unfold arch_load, arch_ea. by rewrite Hs, Hd. Qed.

(** *** ALU and load *)

Lemma AluLoadFusionInst_new_inv memsize name op first second si d1 base d2 :
  plain D first → plain_load D second base d2 → si_dests (staticInst first) = [d1] →
  AluLoadFusionInst_new memsize name op first second = Ok si →
  d1 = d2 ∧ base = d2 ∧ isZeroReg d2 = false ∧
  memsize = Z.quot (operWid (staticInst second)) 8 ∧
  si_srcs si = si_srcs (staticInst first) ++ [FuseTmpReg] ∧ si_dests si = [d2] ∧
  si_fusion si = Some (mkFusion (AluLoadFusionInst memsize (numSrcRegs (staticInst first)))
                         [first; second] (si_memFlags (staticInst second)) false).
Proof.
  intros Hp1 [Hp2 Hs2 Hd2] Hd1 Hnew. unfold AluLoadFusionInst_new in Hnew.
  rewrite (plain_dest D first d1), (plain_dest D second d2) in Hnew by done.
  unfold srcRegIdx in Hnew. rewrite (pl_fusion D second Hp2), Hs2, Hd2 in Hnew.
  cbn [res_bind app] in Hnew. change (nth_res [base; d2] 1) with (Ok d2) in Hnew.
  change (nth_res [base; d2] 0) with (Ok base) in Hnew. cbn [res_bind] in Hnew.
  destruct (reg_eqb_spec d1 d2) as [->|]; [|done].
  destruct (reg_eqb_spec d2 base) as [<-|]; [|done]. cbn [res_bind negb panic_if] in Hnew.
  res_inv.
  match goal with H : (_ =? _)%Z = true |- _ => apply Z.eqb_eq in H; rename H into Hw end.
  match goal with H : fusion_srcs _ = Ok _ |- _ => rename H into Hs end.
  unfold fusion_srcs in Hs. destruct (_ <=? 4)%nat; [|done]. injection Hs as <-.
  repeat split; try done. by eapply count_typed_dest_nonzero.
Qed.

Lemma AluLoad_renamed memsize name op first second si fused ρ rf A pt d1 base d2 pd rf0 :
  plain D first → plain_load D second base d2 → si_dests (staticInst first) = [d1] →
  AluLoadFusionInst_new memsize name op first second = Ok si →
  renaming D ρ rf A pt → fused_as ρ si [pd] fused →
  fusion_initiateAcc isa rf0 fused =
    let second' := set_renames second [virt pt] [virt pd] [VirtRegId_null] in
    let! r1 := di_execute isa rf0
      (set_renames first (map ρ (si_srcs (staticInst first))) [virt pt] [VirtRegId_null]) in
    let '(f1, _, rf1) := r1 in
    if negb (bool_decide (f1 = NoFault)) then Ok (InitFault f1 rf1)
    else
      let! rp1 := getRegOperand rf1 second' 0 in
      Ok (InitRead (mkReq (u64 (rp1 + si_imm (staticInst second))) memsize
                      (si_memFlags (staticInst second))) [second'] rf1).
Proof.
  intros Hp1 Hl2 Hd1 Hnew Hrn [Hst Hsrc Hdst].
  destruct (AluLoadFusionInst_new_inv _ _ _ _ _ _ _ _ _ Hp1 Hl2 Hd1 Hnew)
    as (-> & -> & Hz & Hms & Hsrcs & _ & Hsi).
  destruct Hl2 as [Hp2 Hs2 Hd2]. pose proof (rn_tmp _ _ _ _ _ Hrn) as Ht.
  unfold fusion_initiateAcc, AluLoadFusionInst_initiateAcc, extRenamedDestIdx,
    extRenamedSrcIdx.
  rewrite Hst, Hsrc, Hdst. simpl. rewrite Hsi. simpl.
  rewrite Hsrcs, map_app. simpl. rewrite Ht. unfold numSrcRegs.
  rewrite <- (length_map ρ (si_srcs (staticInst first))).
  rewrite (nth_res_lookup _ _ (virt pt)) by by rewrite list_lookup_middle.
  cbn [res_bind].
  pose proof (pl_dests D first Hp1) as L1. pose proof (pl_prevs D first Hp1) as L2.
  pose proof (pl_dests D second Hp2) as L3. pose proof (pl_prevs D second Hp2) as L4.
  pose proof (pl_srcs D second Hp2) as L5.
  rewrite Hd1 in L1, L2. rewrite Hd2 in L3, L4. rewrite Hs2 in L5.
  rewrite (renameDestReg_one first _ _ pt) by done. cbn [res_bind nth_res].
  simpl. rewrite (renameDestReg_one second _ _ pd) by done. cbn [res_bind].
  rewrite (rename_both_app fused _ _ _ [virt pt]).
  - done.
  - by rewrite Hsrc, Hsrcs, map_app, <- Ht.
  - by rewrite Hsrc, Hst, length_map.
  - rewrite length_map. apply Hp1.
  - done.
Qed.

Lemma aluload_refines memsize name op first second si fused ρ rf A pt d1 base d2 pd :
  plain D first → plain_load D second base d2 → si_dests (staticInst first) = [d1] →
  AluLoadFusionInst_new memsize name op first second = Ok si →
  renaming D ρ rf A pt → fresh D ρ rf pt pd → fused_as ρ si [pd] fused →
  let '(f1, A1, _) := arch_execute isa A first in
  if bool_decide (f1 = NoFault) then
    load_done ρ (bind_reg ρ d2 pd) A (arch_load ld m A1 second) D rf fused
      (arch_ea A1 second) (Z.quot (operWid (staticInst second)) 8)
      (si_memFlags (staticInst second))
  else ∃ rf1, fusion_initiateAcc isa rf fused = Ok (InitFault f1 rf1) ∧ rep D ρ rf1 A.
Proof.
  intros Hp1 Hl2 Hd1 Hnew Hrn Hfr Hfu. unfold load_done.
  rewrite (AluLoad_renamed _ _ _ _ _ _ _ _ _ _ _ _ _ _ _ rf Hp1 Hl2 Hd1 Hnew Hrn Hfu).
  destruct (AluLoadFusionInst_new_inv _ _ _ _ _ _ _ _ _ Hp1 Hl2 Hd1 Hnew)
    as (-> & -> & Hz & Hms & Hsrcs & _ & Hsi).
  rewrite (fa_static _ _ _ _ Hfu). simpl. rewrite Hsi, <- Hms.
  set (first' := set_renames first _ _ _).
  change (arch_execute isa A first) with (arch_execute isa A first').
  destruct (exec_one isa rf A first' d2 pt)
    as [(f & Hf & -> & ->)|(o & p & -> & ->)]; try done; cbn [res_bind].
  { apply Hrn. }
  { simpl. by rewrite length_map. }
  { apply (srcs_read D); [apply Hrn|apply Hp1]. }
  { rewrite !bool_decide_false by done. simpl. exists rf. split; [done|apply Hrn]. }
  rewrite !bool_decide_true by done. simpl.
  unfold getRegOperand, extRenamedSrcIdx. simpl.
  rewrite getReg_insert_eq by apply Hrn. cbn [res_bind].
  assert (arch_ea (wr A d2 o) second = u64 (o + si_imm (staticInst second))) as Hea.
  { unfold arch_ea. rewrite (ld_srcs _ _ _ _ Hl2). simpl.
    by rewrite rd_wr, reg_eqb_refl by done. }
  rewrite Hea. do 4 eexists. split; [done|].
  assert (rep D ρ (<[pt := o]> rf) A) as Hold by (apply rep_insert; apply Hrn).
  split; [done|]. split; [done|]. unfold fusion_completeAcc. simpl.
  rewrite (completeAcc_live ld _ _ pd) by (try done; apply live_insert, Hfr).
  split; [done|]. rewrite (arch_load_eq _ _ _ _ Hl2), rd_wr, reg_eqb_refl, <- Hms by done.
  apply rep_overwrite; [|done]. apply rep_bind; [done|apply Hfr| |done].
  apply live_insert, Hfr.
Qed.

(** *** Shift, add and load *)

(** The shift and the add compute what their mnemonics say. *)
Definition isa_slli (d : DynInst) : Prop :=
  ∀ x, ∃ p, isa (staticInst d) (pcState d) [x] =
              ExDone [u64 (Z.shiftl x (si_imm (staticInst d)))] p.
Definition isa_add (d : DynInst) : Prop :=
  ∀ x y, ∃ p, isa (staticInst d) (pcState d) [x; y] = ExDone [u64 (x + y)] p.

Lemma SlliAddLoad_new_inv memsize name op first second third si v d1 a b other d2 base d3 :
  plain D first → plain D second → plain_load D third base d3 →
  si_srcs (staticInst first) = [v] → si_dests (staticInst first) = [d1] →
  si_srcs (staticInst second) = [a; b] → si_dests (staticInst second) = [d2] →
  one_source d1 a b other →
  SlliAddLoadFusionInst_new memsize name op first second third = Ok si →
  d2 = d3 ∧ base = d3 ∧ isZeroReg d3 = false ∧ si_srcs si = [v; other] ∧
  si_fusion si =
    Some (mkFusion (SlliAddLoadFusionInst memsize (s32 (si_imm (staticInst first))))
            [first; second; third] (si_memFlags (staticInst third)) false).
Proof.
  intros Hp1 Hp2 [Hp3 Hs3 Hd3] Hs1 Hd1 Hs2 Hd2 Hone Hnew.
  unfold SlliAddLoadFusionInst_new in Hnew.
  rewrite (plain_dest D first d1) in Hnew by done. cbn [res_bind] in Hnew.
  rewrite (feeds_plain D d1 second a b) in Hnew by done. cbn [res_bind] in Hnew.
  rewrite (plain_dest D second d2), (plain_dest D third d3) in Hnew by done.
  unfold srcRegIdx in Hnew.
  rewrite (pl_fusion D _ Hp1), (pl_fusion D _ Hp2), (pl_fusion D _ Hp3), Hs1, Hs2, Hs3,
    Hd1, Hd2, Hd3 in Hnew.
  cbn [res_bind app] in Hnew. change (nth_res [base; d3] 1) with (Ok d3) in Hnew.
  change (nth_res [base; d3] 0) with (Ok base) in Hnew.
  change (nth_res [v; d1] 0) with (Ok v) in Hnew.
  change (nth_res [a; b; d2] 0) with (Ok a) in Hnew. cbn [res_bind] in Hnew.
  destruct (reg_eqb_spec d2 d3) as [->|]; [|by res_inv].
  destruct (reg_eqb_spec d3 base) as [<-|]; [|by res_inv]. res_inv.
  match goal with H : nth_res _ _ = Ok ?x |- _ => rename H into Hb; rename x into rs end.
  assert (rs = other) as ->.
  { destruct Hone as [(-> & -> & Hne)|(-> & -> & Hne)].
    - rewrite reg_eqb_refl in Hb. by injection Hb.
    - rewrite (reg_eqb_ne _ _ Hne) in Hb. by injection Hb. }
  repeat split; try done. by eapply count_typed_dest_nonzero.
Qed.

(** The address of the fused load is the address of the replaced one. *)
Lemma slliadd_ea first second third A v d1 a b other d3 :
  isa_slli first → isa_add second →
  si_srcs (staticInst first) = [v] → si_dests (staticInst first) = [d1] →
  si_srcs (staticInst second) = [a; b] → si_dests (staticInst second) = [d3] →
  si_srcs (staticInst third) = [d3] → one_source d1 a b other →
  isZeroReg d1 = false → isZeroReg d3 = false →
  let x := u64 (Z.shiftl (rd A v) (si_imm (staticInst first))) in
  let y := u64 (x + rd A other) in
  (∃ p, arch_execute2 isa A first second = (NoFault, wr (wr A d1 x) d3 y, p)) ∧
  arch_ea (wr (wr A d1 x) d3 y) third =
    u64 (x + rd A other + si_imm (staticInst third)).
Proof.
  intros Hi1 Hi2 Hs1 Hd1 Hs2 Hd2 Hs3 Hone Hz1 Hz3 x y. split.
  - unfold arch_execute2, arch_execute. rewrite Hs1, Hd1, Hs2, Hd2. simpl.
    destruct (Hi1 (rd A v)) as [p ->]. rewrite bool_decide_true by done. simpl.
    destruct (Hi2 (rd (wr A d1 x) a) (rd (wr A d1 x) b)) as [p' Hp']. fold x.
    rewrite Hp'. exists p'. simpl. do 3 f_equal. unfold y. rewrite !rd_wr by done.
    destruct Hone as [(-> & -> & Hne)|(-> & -> & Hne)];
      rewrite reg_eqb_refl, (reg_eqb_ne _ _ Hne); [done|]. by rewrite Z.add_comm.
  - unfold arch_ea. rewrite Hs3. simpl. rewrite rd_wr, reg_eqb_refl by done. unfold y.
    by rewrite u64_add_l.
Qed.

Lemma slliadd_refines memsize name op first second third si fused ρ rf A pt
    v d1 a b other d2 base d3 pd :
  plain D first → plain D second → plain_load D third base d3 →
  isa_slli first → isa_add second →
  si_srcs (staticInst first) = [v] → si_dests (staticInst first) = [d1] →
  si_srcs (staticInst second) = [a; b] → si_dests (staticInst second) = [d2] →
  one_source d1 a b other → isZeroReg d1 = false → D v → D other →
  in_s 32 (si_imm (staticInst first)) →
  memsize = Z.quot (operWid (staticInst third)) 8 →
  SlliAddLoadFusionInst_new memsize name op first second third = Ok si →
  renaming D ρ rf A pt → fresh D ρ rf pt pd → fused_as ρ si [pd] fused →
  let '(f, A2, _) := arch_execute2 isa A first second in
  f = NoFault ∧
  load_done ρ (bind_reg ρ d3 pd) A (keep_reg d1 d3 A (arch_load ld m A2 third))
    D rf fused (arch_ea A2 third) memsize (si_memFlags (staticInst third)).
Proof.
  intros Hp1 Hp2 Hl3 Hi1 Hi2 Hs1 Hd1 Hs2 Hd2 Hone Hz1 Dv Do Him Hms Hnew Hrn Hfr Hfu.
  destruct (SlliAddLoad_new_inv _ _ _ _ _ _ _ _ _ _ _ _ _ _ _
    Hp1 Hp2 Hl3 Hs1 Hd1 Hs2 Hd2 Hone Hnew) as (-> & -> & Hz3 & Hsrcs & Hsi).
  destruct (slliadd_ea first second third A v d1 a b other d3) as [[p ->] Hea];
    try done; [apply Hl3|].
  set (x := u64 (Z.shiftl (rd A v) (si_imm (staticInst first)))) in *.
  set (A2 := wr (wr A d1 x) d3 (u64 (x + rd A other))) in *.
  split; [done|]. rewrite Hea. unfold load_done.
  pose proof Hl3 as [Hp3 Hs3 Hd3]. destruct Hfu as [Hst Hsrc Hdst].
  pose proof (pl_dests D _ Hp3) as L1. pose proof (pl_prevs D _ Hp3) as L2.
  rewrite Hd3 in L1, L2.
  unfold fusion_initiateAcc, SlliAddLoadFusionInst_initiateAcc, extRenamedDestIdx.
  rewrite Hst. simpl. rewrite Hsi. simpl. rewrite Hdst. simpl.
  rewrite (renameDestReg_one third _ _ pd) by done. cbn [res_bind].
  unfold getRegOperand, extRenamedSrcIdx. rewrite Hsrc, Hsrcs. simpl.
  rewrite !(rn_rep _ _ _ _ _ Hrn) by done. cbn [res_bind].
  unfold s32 in *. rewrite wraps_small by done. fold x.
  do 4 eexists. split; [done|]. split; [apply Hrn|]. split; [done|].
  unfold fusion_completeAcc. simpl.
  rewrite (completeAcc_live ld _ _ pd) by (try done; apply Hfr). split; [done|].
  rewrite (arch_load_eq _ _ _ _ Hl3), <- Hms.
  replace (u64 (rd A2 d3 + si_imm (staticInst third)))
    with (u64 (x + rd A other + si_imm (staticInst third)))
    by (unfold A2; by rewrite rd_wr, reg_eqb_refl, u64_add_l by done).
  intros r Dr. simpl. rewrite rd_keep, rd_wr by done. unfold bind_reg.
  destruct (reg_eqb_spec r d3) as [->|Hne].
  { rewrite (reg_eqb_sym d3 d1), andb_negb_r. apply getReg_insert_eq, Hfr. }
  rewrite getReg_insert_ne by by apply Hfr. unfold A2.
  rewrite !rd_wr, (reg_eqb_ne r d3) by done.
  destruct (reg_eqb_spec r d1) as [->|]; [rewrite (reg_eqb_ne d1 d3) by done|]; by apply Hrn.
Qed.

(** *** Two loads of adjacent addresses *)

Lemma SeqLoadFusionInst_new_inv memsize name op first second si b1 d1 b2 d2 :
  plain_load D first b1 d1 → plain_load D second b2 d2 →
  SeqLoadFusionInst_new memsize name op first second = Ok si →
  let size0 := Z.quot (operWid (staticInst first)) 8 in
  let size1 := Z.quot (operWid (staticInst second)) 8 in
  b2 = b1 ∧ isZeroReg d1 = false ∧ isZeroReg d2 = false ∧
  si_imm (staticInst second) = (si_imm (staticInst first) + size0)%Z ∧
  memsize = (size0 + size1)%Z ∧ si_srcs si = [b1] ∧ si_dests si = [d1; d2] ∧
  si_fusion si =
    Some (mkFusion (SeqLoadFusionInst memsize (s32 (si_imm (staticInst first))) size0 size1)
            [first; second] (si_memFlags (staticInst first)) false).
Proof.
  intros [Hp1 Hs1 Hd1] [Hp2 Hs2 Hd2] Hnew size0 size1. unfold SeqLoadFusionInst_new in Hnew.
  rewrite (plain_dest D first d1), (plain_dest D second d2) in Hnew by done.
  unfold srcRegIdx in Hnew.
  rewrite (pl_fusion D _ Hp1), (pl_fusion D _ Hp2), Hs1, Hs2, Hd1, Hd2 in Hnew.
  cbn [res_bind app] in Hnew. change (nth_res [b1; d1] 0) with (Ok b1) in Hnew.
  change (nth_res [b2; d2] 0) with (Ok b2) in Hnew. cbn [res_bind] in Hnew.
  destruct (reg_eqb_spec b1 b2) as [<-|]; [|by res_inv]. res_inv.
  repeat match goal with
  | H : negb (_ =? _)%Z = false |- _ => apply negb_false_iff, Z.eqb_eq in H
  | H : (_ =? _)%Z = true |- _ => apply Z.eqb_eq in H
  end.
  repeat split; try done; by eapply count_typed_dest_nonzero.
Qed.

Lemma seqload_refines memsize name op first second si fused ρ rf A pt b1 d1 b2 d2 p1 p2 :
  plain_load D first b1 d1 → plain_load D second b2 d2 →
  d1 ≠ b1 → d1 ≠ d2 → D b1 → in_s 32 (si_imm (staticInst first)) →
  (0 < operWid (staticInst first))%Z → (0 < operWid (staticInst second))%Z →
  SeqLoadFusionInst_new memsize name op first second = Ok si →
  renaming D ρ rf A pt → fresh D ρ rf pt p1 → fresh D ρ rf pt p2 → p1 ≠ p2 →
  fused_as ρ si [p1; p2] fused →
  load_done ρ (bind_reg (bind_reg ρ d1 p1) d2 p2) A
    (arch_load ld m (arch_load ld m A first) second) D rf fused
    (arch_ea A first) memsize (si_memFlags (staticInst first)).
Proof.
  intros Hl1 Hl2 Hdb Hdd Db Him Hw0 Hw1 Hnew Hrn Hf1 Hf2 Hpp [Hst Hsrc Hdst].
  destruct (SeqLoadFusionInst_new_inv _ _ _ _ _ _ _ _ _ _ Hl1 Hl2 Hnew)
    as (-> & Hz1 & Hz2 & Himm & Hms & Hsrcs & _ & Hsi).
  set (size0 := Z.quot (operWid (staticInst first)) 8) in *.
  set (size1 := Z.quot (operWid (staticInst second)) 8) in *.
  assert (0 ≤ size0)%Z as Hp0 by (apply Z.quot_pos; lia).
  assert (0 ≤ size1)%Z as Hp1' by (apply Z.quot_pos; lia).
  rewrite (arch_load_eq _ _ _ _ Hl1), (arch_load_eq _ _ _ _ Hl2).
  pose proof Hl1 as [Hp1 Hs1 Hd1]. pose proof Hl2 as [Hp2 Hs2 Hd2].
  unfold load_done, fusion_initiateAcc, SeqLoadFusionInst_initiateAcc, extRenamedDestIdx.
  pose proof (pl_dests D _ Hp1) as L1. pose proof (pl_prevs D _ Hp1) as L2.
  pose proof (pl_dests D _ Hp2) as L3. pose proof (pl_prevs D _ Hp2) as L4.
  rewrite Hd1 in L1, L2. rewrite Hd2 in L3, L4.
  rewrite Hst. simpl. rewrite Hsi. simpl. rewrite Hdst. simpl.
  rewrite (renameDestReg_one first _ _ p1) by done. cbn [res_bind].
  change (nth_res [virt p1; virt p2] 1) with (Ok (virt p2)). cbn [res_bind].
  rewrite (renameDestReg_one second _ _ p2) by done. cbn [res_bind].
  unfold getRegOperand, extRenamedSrcIdx. rewrite Hsrc, Hsrcs. simpl.
  rewrite (rn_rep _ _ _ _ _ Hrn) by done. cbn [res_bind].
  unfold s32. rewrite wraps_small by done.
  unfold arch_ea. rewrite Hs1. simpl.
  do 4 eexists. split; [done|]. split; [apply Hrn|]. split; [done|].
  unfold fusion_completeAcc. simpl. rewrite Hms, read_bytes_split by done.
  rewrite take_app_length', drop_app_length' by by rewrite length_read_bytes.
  rewrite (take_ge (read_bytes _ _ size1)) by (rewrite length_read_bytes; lia).
  rewrite (completeAcc_live ld _ _ p1) by (try done; apply Hf1). cbn [res_bind].
  rewrite (completeAcc_live ld _ _ p2) by (try done; apply live_insert, Hf2).
  split; [done|]. simpl.
  rewrite rd_wr, (reg_eqb_ne b1 d1) by done. rewrite Himm, Z.add_assoc.
  apply rep_bind; [|apply private_bind; [apply Hf2|done]|apply live_insert, Hf2|done].
  apply rep_bind; try done; apply Hrn || apply Hf1.
Qed.

End Loads.
