(* ===== verification/FusionMap.v ===== *)
(** The fusion tables.

    Models the second half of [src/GEM5/src/arch/riscv/insts/fusion.cc]
    (lines 467-850) and [FusionKey], [FusionTag] of
    [src/GEM5/src/arch/riscv/insts/fusion.hh]: which pairs and triples of
    instructions may be fused, under which operand checks, into which class.

    The source builds each table entry from macros that expand to a lambda; here
    an entry is a [FuseCreator], the data the macro is given, and [create] is the
    code the lambda runs.  A [FusionTag] is an [unordered_map]: the entries are a
    list here, and [tag_disjoint] with [find_permutation] shows that no query
    matches two of them, so that the order does not matter. *)
From S2P Require Import Prelude RegFile Inst Fusion FusionCorrect.
Import Fusion.

Module FusionMap.

(** ** Operand checks *)

Inductive Check :=
  | FirstDest0EqualSecond (a b : Z)
  | Dest0EqualSrc0 (x : Z)
  | Dest0EqualSrc0or1 (x : Z)
  | Dest0EqualSecondSrc0or1 (x y : Z)
  | ImmIs (a i : Z)
  | ImmIsPlus (a b k : Z)      (** [ImmIs(vec[a], vec[b]->getImm() + k)] *)
  | SeqLoadCheck
  | SlliAddLdCheck.

Definition eqb_res (a b : res RegId) : res bool :=
  let! x := a in
  let! y := b in
  Ok (reg_eqb x y).

(** [&&] and [||], with short-circuit evaluation. *)
Definition and_then (a b : res bool) : res bool :=
  let! x := a in if x then b else Ok false.
Definition or_else (a b : res bool) : res bool :=
  let! x := a in if x then Ok true else b.

Definition dest0 (vec : list DynInst) (i : Z) : res RegId :=
  let! d := nth_res vec i in destRegIdx (staticInst d) 0.
Definition src (vec : list DynInst) (i k : Z) : res RegId :=
  let! d := nth_res vec i in srcRegIdx (staticInst d) k.
Definition imm (vec : list DynInst) (i : Z) : res Z :=
  let! d := nth_res vec i in Ok (si_imm (staticInst d)).

Definition eval_check (vec : list DynInst) (c : Check) : res bool :=
  match c with
  | FirstDest0EqualSecond a b => eqb_res (dest0 vec a) (dest0 vec b)
  | Dest0EqualSrc0 x => eqb_res (dest0 vec x) (src vec x 0)
  | Dest0EqualSrc0or1 x =>
      or_else (eqb_res (dest0 vec x) (src vec x 0)) (eqb_res (dest0 vec x) (src vec x 1))
  | Dest0EqualSecondSrc0or1 x y =>
      or_else (eqb_res (dest0 vec x) (src vec y 0)) (eqb_res (dest0 vec x) (src vec y 1))
  | ImmIs a i => let! v := imm vec a in Ok (v =? i)%Z
  | ImmIsPlus a b k =>
      let! v := imm vec a in
      let! w := imm vec b in
      Ok (v =? w + k)%Z
  | SeqLoadCheck =>
      and_then (eqb_res (src vec 0 0) (src vec 1 0))
        (and_then (let! e := eqb_res (dest0 vec 0) (src vec 0 0) in Ok (negb e))
           (let! e := eqb_res (dest0 vec 0) (dest0 vec 1) in Ok (negb e)))
  | SlliAddLdCheck =>
      and_then (or_else (eqb_res (dest0 vec 0) (src vec 1 0))
                  (eqb_res (dest0 vec 0) (src vec 1 1)))
        (and_then (eqb_res (dest0 vec 1) (src vec 2 1))
           (eqb_res (dest0 vec 2) (src vec 2 0)))
  end.

(** A checker is a conjunction. *)
Fixpoint eval_checks (vec : list DynInst) (cs : list Check) : res bool :=
  match cs with
  | [] => Ok true
  | c :: rest => and_then (eval_check vec c) (eval_checks vec rest)
  end.

(** ** Creators *)

Inductive FuseCreator :=
  | ChainCreator (n : string) (chk : list Check)
  | AluBrCreator (n : string) (chk : list Check)
  | MaccCreator (n : string) (chk : list Check)
  | AluLdCreator (n : string) (s : Z) (chk : list Check)
  | SeqLdCreator (n : string) (s : Z) (chk : list Check)
  | SlliAddLdCreator (n : string) (s : Z) (chk : list Check).

(** [if (!checker(vec)) return nullptr; return new ...] *)
Definition checked (vec : list DynInst) (chk : list Check) (k : res StaticInst)
    : res (option StaticInst) :=
  let! ok := eval_checks vec chk in
  if ok then let! si := k in Ok (Some si) else Ok None.

Definition chainFuseInsts (name : string) (vec : list DynInst) (chk : list Check) :=
  checked vec chk
    (let! a := nth_res vec 0 in
     let! b := nth_res vec 1 in
     ChainFusionInst_new name (si_opClass (staticInst b)) a b).

Definition alubrFuseInsts (name : string) (vec : list DynInst) (chk : list Check) :=
  checked vec chk
    (let! a := nth_res vec 0 in
     let! b := nth_res vec 1 in
     AluBrFusionInst_new name a b).

Definition maccFuseInsts (name : string) (vec : list DynInst) (chk : list Check) :=
  checked vec chk
    (let! a := nth_res vec 0 in
     let! b := nth_res vec 1 in
     MaccFusionInst_new name IntMultOp a b).

Definition aluLoadFuseInsts (memsize : Z) (name : string) (vec : list DynInst)
    (chk : list Check) :=
  checked vec chk
    (let! a := nth_res vec 0 in
     let! b := nth_res vec 1 in
     AluLoadFusionInst_new memsize name (si_opClass (staticInst b)) a b).

Definition slliAddLoadFuseInsts (memsize : Z) (name : string) (vec : list DynInst)
    (chk : list Check) :=
  checked vec chk
    (let! a := nth_res vec 0 in
     let! b := nth_res vec 1 in
     let! c := nth_res vec 2 in
     SlliAddLoadFusionInst_new memsize name (si_opClass (staticInst c)) a b c).

Definition seqLoadFuseInsts (memsize : Z) (name : string) (vec : list DynInst)
    (chk : list Check) :=
  checked vec chk
    (let! a := nth_res vec 0 in
     let! b := nth_res vec 1 in
     SeqLoadFusionInst_new memsize name (si_opClass (staticInst b)) a b).

(** What the lambda of a table entry runs. *)
Definition create (c : FuseCreator) (vec : list DynInst) : res (option StaticInst) :=
  match c with
  | ChainCreator n chk => chainFuseInsts n vec chk
  | AluBrCreator n chk => alubrFuseInsts n vec chk
  | MaccCreator n chk => maccFuseInsts n vec chk
  | AluLdCreator n s chk => aluLoadFuseInsts s n vec chk
  | SeqLdCreator n s chk => seqLoadFuseInsts s n vec chk
  | SlliAddLdCreator n s chk => slliAddLoadFuseInsts s n vec chk
  end.

(** ** Keys and tables *)

Record FusionKey := mkKey { key_type : string; ignore_imm : bool; key_imm : Z }.

(** The constructors: the immediate is an [int]. *)
Definition AnyImmKey (t : string) : FusionKey := mkKey t true 0.
Definition ImmKey (t : string) (i : Z) : FusionKey := mkKey t false (s32 i).

(** [operator==]; the second argument is the key in the map. *)
Definition key_eqb (k other : FusionKey) : bool :=
  String.eqb (key_type k) (key_type other) &&
  ((key_imm k =? key_imm other)%Z || ignore_imm other).

(** [FusionVal] is [std::variant<FuseCreator, FusionTag*>]. *)
Inductive FusionTag :=
  | Tag (entries : list (FusionKey * FusionVal))
with FusionVal :=
  | Creator (c : FuseCreator)
  | SubTag (t : FusionTag).

Definition tag_entries (t : FusionTag) : list (FusionKey * FusionVal) :=
  match t with Tag es => es end.

Fixpoint find_entry (es : list (FusionKey * FusionVal)) (k : FusionKey)
    : option FusionVal :=
  match es with
  | [] => None
  | (k', v) :: rest => if key_eqb k k' then Some v else find_entry rest k
  end.

Definition tag_find (t : FusionTag) (k : FusionKey) : option FusionVal :=
  find_entry (tag_entries t) k.

Definition deCompressMap : list (string * string) := [
  ("C_slli", "Slli");
  ("C_srli", "Srli");
  ("C_addi", "Addi");
  ("C_addiw", "Addiw");
  ("C_add", "Add");
  ("C_addw", "Addw");
  ("C_and", "And");
  ("C_andi", "Andi");
  ("C_or", "Or");
  ("C_xor", "Xor");
  ("C_mul", "Mul");
  ("C_zext_h", "Zext_h");
  ("C_sext_h", "Sext_h");
  ("C_lui", "Lui");
  ("C_ld", "Ld");
  ("C_ldsp", "Ld");
  ("C_lw", "Lw");
  ("C_lwsp", "Lw");
  ("C_lh", "Lh");
  ("Lwu", "Lw");
  ("Lhu", "Lh");
  ("Lbu", "Lb");
  ("C_lhu", "Lh");
  ("C_lbu", "Lb")
].

Fixpoint assoc (l : list (string * string)) (t : string) : option string :=
  match l with
  | [] => None
  | (a, b) :: rest => if String.eqb a t then Some b else assoc rest t
  end.

(** The type under which an instruction is looked up. *)
Definition decompressed (t : string) : string := default t (assoc deCompressMap t).

Definition fusionMap_shift : list (FusionKey * FusionVal) := [
    (ImmKey "Slli" 32, SubTag (Tag [
       (ImmKey "Srli" 32, Creator (ChainCreator "low32" [FirstDest0EqualSecond 0 1; Dest0EqualSrc0 1]));
       (ImmKey "Srli" 31, Creator (ChainCreator "sll1zext" [FirstDest0EqualSecond 0 1; Dest0EqualSrc0 1]));
       (ImmKey "Srli" 30, Creator (ChainCreator "sll2zext" [FirstDest0EqualSecond 0 1; Dest0EqualSrc0 1]));
       (ImmKey "Srli" 29, Creator (ChainCreator "sll3zext" [FirstDest0EqualSecond 0 1; Dest0EqualSrc0 1]))]));
    (ImmKey "Slli" 48, SubTag (Tag [
       (ImmKey "Srli" 48, Creator (ChainCreator "low16" [FirstDest0EqualSecond 0 1; Dest0EqualSrc0 1]))]));
    (ImmKey "Slliw" 16, SubTag (Tag [
       (ImmKey "Srliw" 16, Creator (ChainCreator "low16w" [FirstDest0EqualSecond 0 1; Dest0EqualSrc0 1]));
       (ImmKey "Sraiw" 16, Creator (ChainCreator "sext16w" [FirstDest0EqualSecond 0 1; Dest0EqualSrc0 1]))]));
    (ImmKey "Slli" 1, SubTag (Tag [
       (AnyImmKey "Add", Creator (ChainCreator "sll1add" [FirstDest0EqualSecond 0 1; Dest0EqualSrc0or1 1]))]));
    (ImmKey "Slli" 2, SubTag (Tag [
       (AnyImmKey "Add", Creator (ChainCreator "sll2add" [FirstDest0EqualSecond 0 1; Dest0EqualSrc0or1 1]))]));
    (ImmKey "Slli" 3, SubTag (Tag [
       (AnyImmKey "Add", Creator (ChainCreator "sll3add" [FirstDest0EqualSecond 0 1; Dest0EqualSrc0or1 1]))]));
    (ImmKey "Slli" 4, SubTag (Tag [
       (AnyImmKey "Add", Creator (ChainCreator "sll4add" [FirstDest0EqualSecond 0 1; Dest0EqualSrc0or1 1]))]));
    (ImmKey "Srli" 29, SubTag (Tag [
       (AnyImmKey "Add", Creator (ChainCreator "srl29add" [FirstDest0EqualSecond 0 1; Dest0EqualSrc0or1 1]))]));
    (ImmKey "Srli" 30, SubTag (Tag [
       (AnyImmKey "Add", Creator (ChainCreator "srl30add" [FirstDest0EqualSecond 0 1; Dest0EqualSrc0or1 1]))]));
    (ImmKey "Srli" 31, SubTag (Tag [
       (AnyImmKey "Add", Creator (ChainCreator "srl31add" [FirstDest0EqualSecond 0 1; Dest0EqualSrc0or1 1]))]));
    (ImmKey "Srli" 32, SubTag (Tag [
       (AnyImmKey "Add", Creator (ChainCreator "srl32add" [FirstDest0EqualSecond 0 1; Dest0EqualSrc0or1 1]))]));
    (ImmKey "Srli" 8, SubTag (Tag [
       (ImmKey "Andi" 255, Creator (ChainCreator "byte2" [FirstDest0EqualSecond 0 1; Dest0EqualSrc0 1]))]))
]%Z.

Definition fusionMap_add : list (FusionKey * FusionVal) := [
    (AnyImmKey "Add", SubTag (Tag [
       (AnyImmKey "Ld", Creator (AluLdCreator "farld" 8 [FirstDest0EqualSecond 0 1; Dest0EqualSrc0 1]));
       (AnyImmKey "Lw", Creator (AluLdCreator "farlw" 4 [FirstDest0EqualSecond 0 1; Dest0EqualSrc0 1]));
       (AnyImmKey "Lh", Creator (AluLdCreator "farlh" 2 [FirstDest0EqualSecond 0 1; Dest0EqualSrc0 1]));
       (AnyImmKey "Lb", Creator (AluLdCreator "farlb" 1 [FirstDest0EqualSecond 0 1; Dest0EqualSrc0 1]))]));
    (AnyImmKey "Addw", SubTag (Tag [
       (ImmKey "Andi" 255, Creator (ChainCreator "addwbyte" [FirstDest0EqualSecond 0 1; Dest0EqualSrc0 1]));
       (ImmKey "Andi" 1, Creator (ChainCreator "addwbit" [FirstDest0EqualSecond 0 1; Dest0EqualSrc0 1]));
       (AnyImmKey "Zext_h", Creator (ChainCreator "addwzexth" [FirstDest0EqualSecond 0 1; Dest0EqualSrc0 1]));
       (AnyImmKey "Sext_h", Creator (ChainCreator "addwsexth" [FirstDest0EqualSecond 0 1; Dest0EqualSrc0 1]))]));
    (AnyImmKey "Addi", SubTag (Tag [
       (AnyImmKey "Ld", Creator (AluLdCreator "farld" 8 [FirstDest0EqualSecond 0 1; Dest0EqualSrc0 1]));
       (AnyImmKey "Lw", Creator (AluLdCreator "farlw" 4 [FirstDest0EqualSecond 0 1; Dest0EqualSrc0 1]));
       (AnyImmKey "Lh", Creator (AluLdCreator "farlh" 2 [FirstDest0EqualSecond 0 1; Dest0EqualSrc0 1]));
       (AnyImmKey "Lb", Creator (AluLdCreator "farlb" 1 [FirstDest0EqualSecond 0 1; Dest0EqualSrc0 1]));
       (AnyImmKey "Beq", Creator (AluBrCreator "addibeq" [Dest0EqualSecondSrc0or1 0 1]));
       (AnyImmKey "Bne", Creator (AluBrCreator "addibne" [Dest0EqualSecondSrc0or1 0 1]));
       (AnyImmKey "Blt", Creator (AluBrCreator "addiblt" [Dest0EqualSecondSrc0or1 0 1]));
       (AnyImmKey "Bge", Creator (AluBrCreator "addibge" [Dest0EqualSecondSrc0or1 0 1]));
       (AnyImmKey "Bltu", Creator (AluBrCreator "addibltu" [Dest0EqualSecondSrc0or1 0 1]));
       (AnyImmKey "Bgeu", Creator (AluBrCreator "addibgeu" [Dest0EqualSecondSrc0or1 0 1]))]));
    (AnyImmKey "Lui", SubTag (Tag [
       (AnyImmKey "Addi", Creator (ChainCreator "lui32" [FirstDest0EqualSecond 0 1; Dest0EqualSrc0 1]));
       (AnyImmKey "Addiw", Creator (ChainCreator "luiw32" [FirstDest0EqualSecond 0 1; Dest0EqualSrc0 1]))]));
    (AnyImmKey "Auipc", SubTag (Tag [
       (AnyImmKey "Ld", Creator (AluLdCreator "farld" 8 [FirstDest0EqualSecond 0 1; Dest0EqualSrc0 1]));
       (AnyImmKey "Lw", Creator (AluLdCreator "farlw" 4 [FirstDest0EqualSecond 0 1; Dest0EqualSrc0 1]));
       (AnyImmKey "Lh", Creator (AluLdCreator "farlh" 2 [FirstDest0EqualSecond 0 1; Dest0EqualSrc0 1]));
       (AnyImmKey "Lb", Creator (AluLdCreator "farlb" 1 [FirstDest0EqualSecond 0 1; Dest0EqualSrc0 1]))]))
]%Z.

Definition fusionMap_macc : list (FusionKey * FusionVal) := [
    (AnyImmKey "Mul", SubTag (Tag [
       (AnyImmKey "Add", Creator (MaccCreator "muladd" [Dest0EqualSecondSrc0or1 0 1]));
       (AnyImmKey "Addw", Creator (MaccCreator "muladdw" [Dest0EqualSecondSrc0or1 0 1]))]));
    (AnyImmKey "Mulw", SubTag (Tag [
       (AnyImmKey "Add", Creator (MaccCreator "mulwadd" [Dest0EqualSecondSrc0or1 0 1]));
       (AnyImmKey "Addw", Creator (MaccCreator "mulwaddw" [Dest0EqualSecondSrc0or1 0 1]))]))
]%Z.

Definition fusionMap_logic : list (FusionKey * FusionVal) := [
    (AnyImmKey "Andi", SubTag (Tag [
       (AnyImmKey "Add", Creator (ChainCreator "oddadd" [ImmIs 0 1; FirstDest0EqualSecond 0 1; Dest0EqualSrc0or1 1]));
       (AnyImmKey "Addw", Creator (ChainCreator "oddaddw" [ImmIs 0 1; FirstDest0EqualSecond 0 1; Dest0EqualSrc0or1 1]));
       (AnyImmKey "Or", Creator (ChainCreator "orh48" [ImmIs 0 (-256); FirstDest0EqualSecond 0 1; Dest0EqualSrc0or1 1]));
       (AnyImmKey "Mulw", Creator (ChainCreator "mulw7" [ImmIs 0 127; FirstDest0EqualSecond 0 1; Dest0EqualSrc0or1 1]));
       (ImmKey "Andi" 1, Creator (ChainCreator "andi1" [FirstDest0EqualSecond 0 1; Dest0EqualSrc0 1]));
       (AnyImmKey "Zext_h", Creator (ChainCreator "andi16" [FirstDest0EqualSecond 0 1; Dest0EqualSrc0 1]));
       (AnyImmKey "Beq", Creator (AluBrCreator "andibeq" [Dest0EqualSecondSrc0or1 0 1]));
       (AnyImmKey "Bne", Creator (AluBrCreator "andibne" [Dest0EqualSecondSrc0or1 0 1]));
       (AnyImmKey "Blt", Creator (AluBrCreator "andiblt" [Dest0EqualSecondSrc0or1 0 1]));
       (AnyImmKey "Bge", Creator (AluBrCreator "andibge" [Dest0EqualSecondSrc0or1 0 1]));
       (AnyImmKey "Bltu", Creator (AluBrCreator "andibltu" [Dest0EqualSecondSrc0or1 0 1]));
       (AnyImmKey "Bgeu", Creator (AluBrCreator "andibgeu" [Dest0EqualSecondSrc0or1 0 1]))]));
    (AnyImmKey "And", SubTag (Tag [
       (ImmKey "Andi" 1, Creator (ChainCreator "and1" [FirstDest0EqualSecond 0 1; Dest0EqualSrc0 1]));
       (AnyImmKey "Zext_h", Creator (ChainCreator "and16" [FirstDest0EqualSecond 0 1; Dest0EqualSrc0 1]))]));
    (AnyImmKey "Ori", SubTag (Tag [
       (ImmKey "Andi" 1, Creator (ChainCreator "ori1" [FirstDest0EqualSecond 0 1; Dest0EqualSrc0 1]));
       (AnyImmKey "Zext_h", Creator (ChainCreator "ori16" [FirstDest0EqualSecond 0 1; Dest0EqualSrc0 1]))]));
    (AnyImmKey "Or", SubTag (Tag [
       (ImmKey "Andi" 1, Creator (ChainCreator "or1" [FirstDest0EqualSecond 0 1; Dest0EqualSrc0 1]));
       (AnyImmKey "Zext_h", Creator (ChainCreator "or16" [FirstDest0EqualSecond 0 1; Dest0EqualSrc0 1]))]));
    (AnyImmKey "Xori", SubTag (Tag [
       (ImmKey "Andi" 1, Creator (ChainCreator "xori1" [FirstDest0EqualSecond 0 1; Dest0EqualSrc0 1]));
       (AnyImmKey "Zext_h", Creator (ChainCreator "xori16" [FirstDest0EqualSecond 0 1; Dest0EqualSrc0 1]))]));
    (AnyImmKey "Xor", SubTag (Tag [
       (ImmKey "Andi" 1, Creator (ChainCreator "xor1" [FirstDest0EqualSecond 0 1; Dest0EqualSrc0 1]));
       (AnyImmKey "Zext_h", Creator (ChainCreator "xor16" [FirstDest0EqualSecond 0 1; Dest0EqualSrc0 1]))]));
    (AnyImmKey "Orc_b", SubTag (Tag [
       (ImmKey "Andi" 1, Creator (ChainCreator "orcb1" [FirstDest0EqualSecond 0 1; Dest0EqualSrc0 1]));
       (AnyImmKey "Zext_h", Creator (ChainCreator "orcb16" [FirstDest0EqualSecond 0 1; Dest0EqualSrc0 1]))]))
]%Z.

Definition fusionMap_alubr : list (FusionKey * FusionVal) := [
    (AnyImmKey "Srai", SubTag (Tag [
       (AnyImmKey "Beq", Creator (AluBrCreator "sraibeq" [Dest0EqualSecondSrc0or1 0 1]));
       (AnyImmKey "Bne", Creator (AluBrCreator "sraibne" [Dest0EqualSecondSrc0or1 0 1]));
       (AnyImmKey "Blt", Creator (AluBrCreator "sraiblt" [Dest0EqualSecondSrc0or1 0 1]));
       (AnyImmKey "Bge", Creator (AluBrCreator "sraibge" [Dest0EqualSecondSrc0or1 0 1]));
       (AnyImmKey "Bltu", Creator (AluBrCreator "sraibltu" [Dest0EqualSecondSrc0or1 0 1]));
       (AnyImmKey "Bgeu", Creator (AluBrCreator "sraibgeu" [Dest0EqualSecondSrc0or1 0 1]))]));
    (AnyImmKey "Slti", SubTag (Tag [
       (AnyImmKey "Beq", Creator (AluBrCreator "sltibeq" [Dest0EqualSecondSrc0or1 0 1]));
       (AnyImmKey "Bne", Creator (AluBrCreator "sltibne" [Dest0EqualSecondSrc0or1 0 1]));
       (AnyImmKey "Blt", Creator (AluBrCreator "sltiblt" [Dest0EqualSecondSrc0or1 0 1]));
       (AnyImmKey "Bge", Creator (AluBrCreator "sltibge" [Dest0EqualSecondSrc0or1 0 1]));
       (AnyImmKey "Bltu", Creator (AluBrCreator "sltibltu" [Dest0EqualSecondSrc0or1 0 1]));
       (AnyImmKey "Bgeu", Creator (AluBrCreator "sltibgeu" [Dest0EqualSecondSrc0or1 0 1]))]))
]%Z.

Definition fusionMap_load : list (FusionKey * FusionVal) := [
    (AnyImmKey "Ld", SubTag (Tag [
       (AnyImmKey "Ld", Creator (SeqLdCreator "ldld" 16 [SeqLoadCheck; ImmIsPlus 1 0 8]));
       (AnyImmKey "Lw", Creator (SeqLdCreator "ldlw" 12 [SeqLoadCheck; ImmIsPlus 1 0 8]));
       (AnyImmKey "Lh", Creator (SeqLdCreator "ldlh" 10 [SeqLoadCheck; ImmIsPlus 1 0 8]));
       (AnyImmKey "Lb", Creator (SeqLdCreator "ldlb" 9 [SeqLoadCheck; ImmIsPlus 1 0 8]))]));
    (AnyImmKey "Lw", SubTag (Tag [
       (AnyImmKey "Ld", Creator (SeqLdCreator "lwld" 12 [SeqLoadCheck; ImmIsPlus 1 0 4]));
       (AnyImmKey "Lw", Creator (SeqLdCreator "lwlw" 8 [SeqLoadCheck; ImmIsPlus 1 0 4]));
       (AnyImmKey "Lh", Creator (SeqLdCreator "lwlh" 6 [SeqLoadCheck; ImmIsPlus 1 0 4]));
       (AnyImmKey "Lb", Creator (SeqLdCreator "lwlb" 5 [SeqLoadCheck; ImmIsPlus 1 0 4]))]));
    (AnyImmKey "Lh", SubTag (Tag [
       (AnyImmKey "Ld", Creator (SeqLdCreator "lhld" 10 [SeqLoadCheck; ImmIsPlus 1 0 2]));
       (AnyImmKey "Lw", Creator (SeqLdCreator "lhlw" 6 [SeqLoadCheck; ImmIsPlus 1 0 2]));
       (AnyImmKey "Lh", Creator (SeqLdCreator "lhlh" 4 [SeqLoadCheck; ImmIsPlus 1 0 2]));
       (AnyImmKey "Lb", Creator (SeqLdCreator "lhlb" 3 [SeqLoadCheck; ImmIsPlus 1 0 2]))]));
    (AnyImmKey "Lb", SubTag (Tag [
       (AnyImmKey "Ld", Creator (SeqLdCreator "lbld" 9 [SeqLoadCheck; ImmIsPlus 1 0 1]));
       (AnyImmKey "Lw", Creator (SeqLdCreator "lblw" 5 [SeqLoadCheck; ImmIsPlus 1 0 1]));
       (AnyImmKey "Lh", Creator (SeqLdCreator "lblh" 3 [SeqLoadCheck; ImmIsPlus 1 0 1]));
       (AnyImmKey "Lb", Creator (SeqLdCreator "lblb" 2 [SeqLoadCheck; ImmIsPlus 1 0 1]))]))
]%Z.

Definition fusionMap : FusionTag :=
  Tag (fusionMap_shift ++ fusionMap_add ++ fusionMap_macc ++ fusionMap_logic ++
       fusionMap_alubr ++ fusionMap_load).

(** [SlliAddLdEntry(shamt)]; [s] is the shift amount as the mnemonic spells it. *)
Definition SlliAddLdEntry (shamt : Z) (s : string) : FusionKey * FusionVal :=
  (ImmKey "Slli" shamt, SubTag (Tag [
     (AnyImmKey "Add", SubTag (Tag [
        (AnyImmKey "Ld", Creator (SlliAddLdCreator ("sll" +:+ s +:+ "addld") 8 [SlliAddLdCheck]));
        (AnyImmKey "Lw", Creator (SlliAddLdCreator ("sll" +:+ s +:+ "addlw") 4 [SlliAddLdCheck]));
        (AnyImmKey "Lh", Creator (SlliAddLdCreator ("sll" +:+ s +:+ "addlh") 2 [SlliAddLdCheck]));
        (AnyImmKey "Lb", Creator (SlliAddLdCreator ("sll" +:+ s +:+ "addlb") 1 [SlliAddLdCheck]))
     ]))
   ]))%Z.

Definition fusionMap3 : FusionTag :=
  Tag [SlliAddLdEntry 1 "1"; SlliAddLdEntry 2 "2"; SlliAddLdEntry 3 "3";
       SlliAddLdEntry 4 "4"; SlliAddLdEntry 5 "5"; SlliAddLdEntry 6 "6";
       SlliAddLdEntry 7 "7"; SlliAddLdEntry 8 "8"]%Z.

(** The key decode builds for an instruction. *)
Definition inst_key (d : DynInst) : FusionKey :=
  ImmKey (decompressed (si_type (staticInst d))) (si_imm (staticInst d)).

(** The two-level lookup of [Decode::checkAndFuseInsts]; the source asserts that
    the first level holds tables and the second creators. *)
Definition lookup2 (t : FusionTag) (first second : DynInst) : res (option FuseCreator) :=
  match tag_find t (inst_key first) with
  | None => Ok None
  | Some (Creator _) => Panic "finder->second.index() == 1"
  | Some (SubTag t2) =>
      match tag_find t2 (inst_key second) with
      | None => Ok None
      | Some (SubTag _) => Panic "finder->second.index() == 0"
      | Some (Creator c) => Ok (Some c)
      end
  end.

(** The three-level lookup of [Decode::checkAndFuseTriple]. *)
Definition lookup3 (t : FusionTag) (first second third : DynInst)
    : res (option FuseCreator) :=
  match tag_find t (inst_key first) with
  | None => Ok None
  | Some (Creator _) => Panic "f1->second.index() == 1"
  | Some (SubTag t2) =>
      match tag_find t2 (inst_key second) with
      | None => Ok None
      | Some (Creator _) => Panic "f2->second.index() == 1"
      | Some (SubTag t3) =>
          match tag_find t3 (inst_key third) with
          | None => Ok None
          | Some (SubTag _) => Panic "f3->second.index() == 0"
          | Some (Creator c) => Ok (Some c)
          end
      end
  end.

(** ** No query matches two entries *)

Definition overlap (k k' : FusionKey) : bool :=
  String.eqb (key_type k) (key_type k') &&
  (ignore_imm k || ignore_imm k' || (key_imm k =? key_imm k')%Z).

Fixpoint entries_disjoint (es : list (FusionKey * FusionVal)) : bool :=
  match es with
  | [] => true
  | (k, _) :: rest => forallb (λ e, negb (overlap k e.1)) rest && entries_disjoint rest
  end.

Fixpoint tag_disjoint (t : FusionTag) : bool :=
  match t with
  | Tag es =>
      entries_disjoint es &&
      (fix go es := match es with
                    | [] => true
                    | (_, Creator _) :: rest => go rest
                    | (_, SubTag t') :: rest => tag_disjoint t' && go rest
                    end) es
  end.

(** [t] is a table reachable from [T]. *)
Inductive subtag : FusionTag → FusionTag → Prop :=
  | subtag_refl t : subtag t t
  | subtag_step t k t' T : subtag t t' → (k, SubTag t') ∈ tag_entries T → subtag t T.

Lemma tag_disjoint_entries t : tag_disjoint t = true → entries_disjoint (tag_entries t) = true.
Proof. destruct t as [es]. simpl. by intros [? _]%andb_true_iff. Qed.

Lemma tag_disjoint_sub t k T :
  tag_disjoint T = true → (k, SubTag t) ∈ tag_entries T → tag_disjoint t = true.
Proof.
  destruct T as [es]. simpl. intros [_ H]%andb_true_iff Hin. revert H.
  induction es as [|[k' []] es IH]; simpl; [by apply elem_of_nil in Hin| |].
  - apply elem_of_cons in Hin as [[= ]|Hin]. by auto.
  - intros [Ht Hes]%andb_true_iff. apply elem_of_cons in Hin as [[= -> ->]|Hin]; auto.
Qed.

Lemma subtag_disjoint t T : subtag t T → tag_disjoint T = true → tag_disjoint t = true.
Proof. induction 1; eauto using tag_disjoint_sub. Qed.

Lemma key_eqb_overlap k k1 k2 :
  key_eqb k k1 = true → key_eqb k k2 = true → overlap k1 k2 = true.
Proof.
  unfold key_eqb, overlap. intros [T1 M1]%andb_true_iff [T2 M2]%andb_true_iff.
  apply String.eqb_eq in T1, T2. rewrite <- T1, <- T2, String.eqb_refl. simpl.
  destruct (ignore_imm k1), (ignore_imm k2); try done. simpl.
  rewrite orb_false_r in M1, M2. apply Z.eqb_eq in M1, M2. apply Z.eqb_eq. congruence.
Qed.

Lemma find_entry_Some es k v :
  find_entry es k = Some v → ∃ k', (k', v) ∈ es ∧ key_eqb k k' = true.
Proof.
  induction es as [|[k' v'] es IH]; simpl; [done|].
  destruct (key_eqb k k') eqn:E.
  - intros [= <-]. exists k'. split; [set_solver|done].
  - intros (k'' & ? & ?)%IH. exists k''. split; [set_solver|done].
Qed.

Lemma find_entry_unique es k k' v :
  entries_disjoint es = true → (k', v) ∈ es → key_eqb k k' = true →
  find_entry es k = Some v.
Proof.
  induction es as [|[k1 v1] es IH]; simpl; [by intros _ ?%elem_of_nil|].
  intros [Hd Hes]%andb_true_iff Hin Hk. apply elem_of_cons in Hin as [[= -> ->]|Hin].
  { by rewrite Hk. }
  destruct (key_eqb k k1) eqn:E; [|by apply IH].
  rewrite forallb_forall in Hd. specialize (Hd (k', v)). simpl in Hd.
  rewrite (key_eqb_overlap k k1 k') in Hd by done.
  by specialize (Hd (proj1 (list_elem_of_In _ _) Hin)).
Qed.

Lemma find_permutation es es' k :
  entries_disjoint es = true → es ≡ₚ es' → find_entry es' k = find_entry es k.
Proof.
  intros Hd Hp. destruct (find_entry es' k) as [v|] eqn:E.
  - apply find_entry_Some in E as (k' & Hin & Hk). rewrite <- Hp in Hin.
    symmetry. by eapply find_entry_unique.
  - destruct (find_entry es k) as [v|] eqn:E'; [|done]. exfalso.
    apply find_entry_Some in E' as (k' & Hin & Hk). rewrite Hp in Hin.
    clear Hd Hp. induction es' as [|[k1 v1] es' IH]; simpl in E; [by apply elem_of_nil in Hin|].
    destruct (key_eqb k k1) eqn:Ek; [done|].
    apply elem_of_cons in Hin as [[= -> ->]|Hin]; [congruence|by apply IH].
Qed.

(** C36: looking an instruction up in a fusion table does not depend on the
    iteration order of the [unordered_map]: in [fusionMap], [fusionMap3] and every
    table nested in them, a query finds the same entry in every order. *)
Theorem fusion_tables_unambiguous t es k :
  subtag t fusionMap ∨ subtag t fusionMap3 → es ≡ₚ tag_entries t →
  find_entry es k = tag_find t k.
Proof.
  intros Ht Hp. symmetry in Hp. apply find_permutation; [|done].
  apply tag_disjoint_entries. destruct Ht as [Ht|Ht]; eapply subtag_disjoint; try done;
    vm_compute; reflexivity.
Qed.

(** ** The table against the instruction set

    What the decoder produces for the instructions the tables name: numbers of
    source and destination operands, and the width of a load. *)

Definition type_shape (t : string) : option (nat * nat) :=
  if bool_decide (t ∈ ["Add"; "Addw"; "And"; "Or"; "Xor"; "Mul"; "Mulw"])
  then Some (2, 1)%nat
  else if bool_decide (t ∈ ["Slli"; "Srli"; "Slliw"; "Srliw"; "Sraiw"; "Srai"; "Slti";
            "Addi"; "Addiw"; "Andi"; "Ori"; "Xori"; "Zext_h"; "Sext_h"; "Orc_b"])
  then Some (1, 1)%nat
  else if bool_decide (t ∈ ["Lui"; "Auipc"]) then Some (0, 1)%nat
  else if bool_decide (t ∈ ["Ld"; "Lw"; "Lh"; "Lb"]) then Some (1, 1)%nat
  else if bool_decide (t ∈ ["Beq"; "Bne"; "Blt"; "Bge"; "Bltu"; "Bgeu"])
  then Some (2, 0)%nat
  else None.

Definition load_width (t : string) : option Z :=
  if String.eqb t "Ld" then Some 64%Z
  else if String.eqb t "Lw" then Some 32%Z
  else if String.eqb t "Lh" then Some 16%Z
  else if String.eqb t "Lb" then Some 8%Z
  else None.

(** An instruction as the decoder makes it. *)
Record decoded (D : RegId → Prop) (d : DynInst) : Prop := {
  dc_plain : plain D d;
  dc_shape ns nd : type_shape (decompressed (si_type (staticInst d))) = Some (ns, nd) →
    length (si_srcs (staticInst d)) = ns ∧ length (si_dests (staticInst d)) = nd;
  dc_width w : load_width (decompressed (si_type (staticInst d))) = Some w →
    operWid (staticInst d) = w
}.

End FusionMap.
