(* ===== verification/FusionSound.v ===== *)
(** Every pair of instructions the fusion tables accept is fused soundly.

    The table of [fusion.cc] is checked against the instruction shapes once, by
    evaluation ([table_ok]); the theorems then hold for every pair of decoded
    instructions that decode can look up in it. *)
From S2P Require Import Prelude RegFile Inst Fusion FusionCorrect FusionLoads FusionMap.
Import Fusion FusionMap.

Module FusionSound.

#[export] Instance Check_eq_dec : EqDecision Check.
Proof. solve_decision. Defined.

(** ** The table, entry by entry *)

(** The checks of chain entries, which read operands the instructions have. *)
Definition chain_check (c : Check) : bool :=
  match c with
  | FirstDest0EqualSecond 0 1 | Dest0EqualSrc0 1 | Dest0EqualSrc0or1 1 | ImmIs 0 _ => true
  | _ => false
  end%Z.

(** What an entry of the pair table has to satisfy for the instruction types of
    its two keys. *)
Definition entry_ok (t1 t2 : string) (c : FuseCreator) : bool :=
  match c, type_shape t1, type_shape t2 with
  | ChainCreator _ chk, Some (n1, 1), Some (n2, 1) =>
      (n1 + n2 <=? 4) && (1 <=? n2) && forallb chain_check chk &&
      bool_decide (FirstDest0EqualSecond 0 1 ∈ chk)
  | AluBrCreator _ chk, Some (1, 1), Some (2, 0) =>
      bool_decide (chk = [Dest0EqualSecondSrc0or1 0 1])
  | MaccCreator _ chk, Some (2, 1), Some (2, 1) =>
      bool_decide (t1 ∈ ["Mul"; "Mulw"]) &&
      bool_decide (chk = [Dest0EqualSecondSrc0or1 0 1])
  | AluLdCreator _ s chk, Some (n1, 1), Some (1, 1) =>
      (n1 <=? 3) && bool_decide (load_width t2 = Some (8 * s)%Z) && (0 <? s)%Z &&
      bool_decide (chk = [FirstDest0EqualSecond 0 1; Dest0EqualSrc0 1])
  | SeqLdCreator _ s chk, Some (1, 1), Some (1, 1) =>
      match load_width t1, load_width t2 with
      | Some w1, Some w2 =>
          (s =? Z.quot w1 8 + Z.quot w2 8)%Z && (0 <? w1)%Z && (0 <? w2)%Z &&
          bool_decide (chk = [SeqLoadCheck; ImmIsPlus 1 0 (Z.quot w1 8)])
      | _, _ => false
      end
  | _, _, _ => false
  end%nat.

Definition table_ok (t : FusionTag) : bool :=
  forallb (λ '(k1, v1),
    match v1 with
    | Creator _ => false
    | SubTag t2 =>
        forallb (λ '(k2, v2),
          match v2 with
          | Creator c => entry_ok (key_type k1) (key_type k2) c
          | SubTag _ => false
          end) (tag_entries t2)
    end) (tag_entries t).

Lemma fusionMap_ok : table_ok fusionMap = true.
Proof. vm_compute. reflexivity. Qed.

Lemma forallb_elem {A} (f : A → bool) l x : forallb f l = true → x ∈ l → f x = true.
Proof. rewrite forallb_forall. intros H Hin. apply H. by apply list_elem_of_In. Qed.

Lemma key_eqb_type k k' : key_eqb k k' = true → key_type k = key_type k'.
Proof. unfold key_eqb. intros [H _]%andb_true_iff. by apply String.eqb_eq. Qed.

(** Looking a pair up never fails an assertion, and what it finds fits the
    instructions. *)
Lemma lookup2_ok first second :
  ∃ o, lookup2 fusionMap first second = Ok o ∧
    ∀ c, o = Some c →
      entry_ok (decompressed (si_type (staticInst first)))
               (decompressed (si_type (staticInst second))) c = true.
Proof.
  unfold lookup2, tag_find.
  destruct (find_entry (tag_entries fusionMap) (inst_key first)) as [v1|] eqn:E1;
    [|by exists None].
  apply find_entry_Some in E1 as (k1 & Hin1 & Hk1). apply key_eqb_type in Hk1.
  pose proof (forallb_elem _ _ _ fusionMap_ok Hin1) as H1. cbn beta iota in H1.
  destruct v1 as [c|t2]; [done|].
  destruct (find_entry (tag_entries t2) (inst_key second)) as [v2|] eqn:E2;
    [|by exists None].
  apply find_entry_Some in E2 as (k2 & Hin2 & Hk2). apply key_eqb_type in Hk2.
  pose proof (forallb_elem _ _ _ H1 Hin2) as H2. cbn beta iota in H2.
  destruct v2 as [c|]; [|done]. exists (Some c). split; [done|].
  intros ? [= <-]. by rewrite <- Hk1, <- Hk2 in H2.
Qed.

Lemma lookup2_entry first second c :
  lookup2 fusionMap first second = Ok (Some c) →
  entry_ok (decompressed (si_type (staticInst first)))
           (decompressed (si_type (staticInst second))) c = true.
Proof.
  intros H. destruct (lookup2_ok first second) as (o & Ho & Hc).
  rewrite Ho in H. injection H as ->. by apply Hc.
Qed.

(** ** Evaluating the checks *)

Lemma and_then_true a b : and_then a b = Ok true ↔ a = Ok true ∧ b = Ok true.
Proof.
  unfold and_then. destruct a as [[]|]; simpl; split; try done; by intros [? ?].
Qed.

Lemma eval_checks_true vec cs c :
  eval_checks vec cs = Ok true → c ∈ cs → eval_check vec c = Ok true.
Proof.
  induction cs as [|c' cs IH]; simpl; [by intros _ ?%elem_of_nil|].
  intros [H1 H2]%and_then_true [->|Hin]%elem_of_cons; auto.
Qed.

Lemma checked_Some vec chk k si :
  checked vec chk k = Ok (Some si) → eval_checks vec chk = Ok true ∧ k = Ok si.
Proof.
  unfold checked. intros H. apply res_bind_Ok in H as ([] & He & H); [|done].
  apply res_bind_Ok in H as (si' & Hk & H). injection H as <-. done.
Qed.

Lemma length_1 {A} (l : list A) : length l = 1%nat → ∃ x, l = [x].
Proof. destruct l as [|x []]; try done. by exists x. Qed.

Lemma length_2 {A} (l : list A) : length l = 2%nat → ∃ x y, l = [x; y].
Proof. destruct l as [|x [|y []]]; try done. by exists x, y. Qed.

(** The shapes an accepted entry implies. *)
Lemma decoded_shape D d ns nd :
  decoded D d → type_shape (decompressed (si_type (staticInst d))) = Some (ns, nd) →
  length (si_srcs (staticInst d)) = ns ∧ length (si_dests (staticInst d)) = nd.
Proof. intros Hd. apply Hd. Qed.

(** Destructs the shapes of an accepted entry. *)
Ltac entry_cases H :=
  repeat match type of H with
  | context [match type_shape ?t with _ => _ end] =>
      destruct (type_shape t) as [[? ?]|] eqn:?; try discriminate H
  | context [match ?n with O => _ | S _ => _ end] =>
      is_var n; destruct n; try discriminate H
  end.

Tactic Notation "shape" constr(Hd) "as" simple_intropattern(p) :=
  match type of Hd with
  | decoded _ ?d =>
      match goal with
      | H : type_shape (decompressed (si_type (staticInst d))) = Some _ |- _ =>
          destruct (decoded_shape _ _ _ _ Hd H) as p
      end
  end.

(** ** Fused pairs without memory accesses *)

Definition exec_creator (c : FuseCreator) : bool :=
  match c with ChainCreator _ _ | AluBrCreator _ _ | MaccCreator _ _ => true | _ => false end.

(** A branch both of whose sources are the ALU result. *)
Definition reads_twice (c : FuseCreator) (first second : DynInst) : bool :=
  match c, si_dests (staticInst first) with
  | AluBrCreator _ _, [d1] => bool_decide (si_srcs (staticInst second) = [d1; d1])
  | _, _ => false
  end.

(** The product of a multiply-accumulate goes to a register, not to [x0]. *)
Definition keeps_product (c : FuseCreator) (first : DynInst) : Prop :=
  match c, si_dests (staticInst first) with
  | MaccCreator _ _, [d1] => isZeroReg d1 = false
  | _, _ => True
  end.

(** The state a fused pair leaves, [A'] being that of the pair in sequence: a
    multiply-accumulate does not write the product register, which keeps its value
    unless the sum goes there. *)
Definition pair_state (c : FuseCreator) (first second : DynInst) (A A' : Arch) : Arch :=
  match c, si_dests (staticInst first), si_dests (staticInst second) with
  | MaccCreator _ _, [d1], [d2] => keep_reg d1 d2 A A'
  | _, _, _ => A'
  end.

(** The fused pair ends as the pair in sequence does, in [pair_state]. *)
Definition pair_refined isa (D : RegId → Prop) c first second si ρ rf A fused pd : Prop :=
  let '(f, A', p) := arch_execute2 isa A first second in
  ∃ rf' p' d, si_dests si = [d] ∧
    fusion_execute isa rf fused = Ok (f, p', rf') ∧
    outcome D ρ (bind_reg ρ d pd) rf' A (pair_state c first second A A') f ∧
    (f = NoFault → isControl second = true → npc p' = npc p).

Lemma one_source_exists d1 a b :
  reg_eqb d1 a || reg_eqb d1 b = true → [a; b] ≠ [d1; d1] → ∃ other, one_source d1 a b other.
Proof.
  unfold one_source. intros Hf Hne.
  destruct (reg_eqb_spec d1 a) as [E1|N1], (reg_eqb_spec d1 b) as [E2|N2].
  - by rewrite <- E1, <- E2 in Hne.
  - exists b. left. by auto.
  - exists a. right. by auto.
  - done.
Qed.

Lemma chain_pair isa `{!ISASem isa} D n chk first second si fused ρ rf A pt pd :
  decoded D first → decoded D second → isControl second = false →
  entry_ok (decompressed (si_type (staticInst first)))
    (decompressed (si_type (staticInst second))) (ChainCreator n chk) = true →
  create (ChainCreator n chk) [first; second] = Ok (Some si) →
  renaming D ρ rf A pt → fresh D ρ rf pt pd → fused_as ρ si [pd] fused →
  pair_refined isa D (ChainCreator n chk) first second si ρ rf A fused pd.
Proof.
  intros Hd1 Hd2 Hctl He Hc Hrn Hfr Hfu. unfold entry_ok in He. entry_cases He.
  shape Hd1 as [_ (d1 & E1)%length_1].
  shape Hd2 as [_ (d2 & E2)%length_1].
  apply checked_Some in Hc as [_ Hnew]. simpl in Hnew.
  pose proof (dc_plain _ _ Hd1) as P1. pose proof (dc_plain _ _ Hd2) as P2.
  destruct (ChainFusionInst_new_inv D _ _ _ _ _ _ _ P1 P2 E1 E2 Hnew)
    as (-> & _ & _ & Hds & _).
  destruct (chain_execute_refines isa D _ _ _ _ _ _ _ _ _ _ _ _ _ P1 P2 E1 E2 Hnew Hrn Hfr Hfu)
    as (rf' & Hx & Ho).
  unfold pair_refined. destruct (arch_execute2 isa A first second) as [[f A'] p].
  exists rf', (pcState fused), d1. split; [done|]. split; [done|].
  split; [done|congruence].
Qed.

Lemma alubr_pair isa `{!ISASem isa} D n chk first second si fused ρ rf A pt pd :
  decoded D first → decoded D second →
  entry_ok (decompressed (si_type (staticInst first)))
    (decompressed (si_type (staticInst second))) (AluBrCreator n chk) = true →
  create (AluBrCreator n chk) [first; second] = Ok (Some si) →
  renaming D ρ rf A pt → fresh D ρ rf pt pd → fused_as ρ si [pd] fused →
  if reads_twice (AluBrCreator n chk) first second then fusion_execute isa rf fused = ub
  else pair_refined isa D (AluBrCreator n chk) first second si ρ rf A fused pd.
Proof.
  intros Hd1 Hd2 He Hc Hrn Hfr Hfu. unfold entry_ok in He. entry_cases He.
  shape Hd1 as [(s & S1)%length_1 (d1 & E1)%length_1].
  shape Hd2 as [(a & b & S2)%length_2 E2%nil_length_inv].
  apply checked_Some in Hc as [_ Hnew]. simpl in Hnew.
  pose proof (dc_plain _ _ Hd1) as P1. pose proof (dc_plain _ _ Hd2) as P2.
  clear He. unfold reads_twice. rewrite E1. case_bool_decide as Hsup.
  { exact (alubr_twice_fails isa D _ _ _ _ _ _ _ _ _ _ P1 P2 S1 E1 Hsup Hnew Hfu). }
  rewrite S2 in Hsup.
  assert (∃ other, one_source d1 a b other) as [other Hone].
  { apply one_source_exists; [|done]. pose proof Hnew as H. unfold AluBrFusionInst_new in H.
    rewrite (plain_dest D first d1) in H by done. cbn [res_bind] in H.
    rewrite (feeds_plain D d1 second a b) in H by done. cbn [res_bind] in H.
    by destruct (reg_eqb d1 a || reg_eqb d1 b). }
  destruct (AluBrFusionInst_new_inv D _ _ _ _ _ _ _ _ _ P1 P2 S1 E1 S2 Hone Hnew)
    as (_ & _ & Hds & _).
  destruct (alubr_execute_refines isa D _ _ _ _ _ _ _ _ _ _ _ _ _ _ _
    P1 P2 S1 E1 S2 E2 Hone Hnew Hrn Hfr Hfu) as (rf' & p' & Hx & Ho & Hn).
  unfold pair_refined. destruct (arch_execute2 isa A first second) as [[f A'] p].
  exists rf', p', d1. split; [done|]. split; [done|].
  split; [done|by auto].
Qed.

Lemma macc_pair isa `{!ISASem isa} D n chk first second si fused ρ rf A pt pd :
  decoded D first → decoded D second → keeps_product (MaccCreator n chk) first →
  isControl second = false →
  entry_ok (decompressed (si_type (staticInst first)))
    (decompressed (si_type (staticInst second))) (MaccCreator n chk) = true →
  create (MaccCreator n chk) [first; second] = Ok (Some si) →
  renaming D ρ rf A pt → fresh D ρ rf pt pd → fused_as ρ si [pd] fused →
  pair_refined isa D (MaccCreator n chk) first second si ρ rf A fused pd.
Proof.
  intros Hd1 Hd2 Hsup Hctl He Hc Hrn Hfr Hfu. unfold entry_ok in He. entry_cases He.
  shape Hd1 as [_ (d1 & E1)%length_1].
  shape Hd2 as [(a & b & S2)%length_2 (d2 & E2)%length_1].
  apply checked_Some in Hc as [_ Hnew]. simpl in Hnew.
  pose proof (dc_plain _ _ Hd1) as P1. pose proof (dc_plain _ _ Hd2) as P2.
  unfold keeps_product in Hsup. rewrite E1 in Hsup.
  destruct (MaccFusionInst_new_inv D _ _ _ _ _ _ _ _ _ P1 P2 E1 E2 S2 Hnew)
    as (other & _ & _ & _ & Hds & _).
  destruct (macc_execute_refines isa D _ _ _ _ _ _ _ _ _ _ _ _ _ _ _
    P1 P2 E1 E2 S2 Hsup Hnew Hrn Hfr Hfu) as (rf' & Hx & Ho & _).
  unfold pair_refined. destruct (arch_execute2 isa A first second) as [[f A'] p].
  exists rf', (pcState fused), d2. split; [done|]. split; [done|].
  split; [|congruence]. unfold pair_state. by rewrite E1, E2.
Qed.

(** A branch is the second half of ALU-and-branch fusion only. *)
Definition control_ok (second : DynInst) : Prop :=
  isControl second = true →
  decompressed (si_type (staticInst second)) ∈ ["Beq"; "Bne"; "Blt"; "Bge"; "Bltu"; "Bgeu"].

Lemma control_types t :
  t ∈ ["Beq"; "Bne"; "Blt"; "Bge"; "Bltu"; "Bgeu"] → type_shape t = Some (2, 0)%nat.
Proof. intros H. repeat (apply elem_of_cons in H as [->|H]; [done|]). by apply elem_of_nil in H. Qed.

(** ** Creators do not panic *)

(** A destination the typed destination counters can count. *)
Definition counted (r : RegId) : Prop := count_typed_dest r = Ok tt.

Lemma dest0_plain D vec i d r :
  nth_res vec i = Ok d → plain D d → si_dests (staticInst d) = [r] →
  dest0 vec i = Ok r.
Proof. intros Hn Hp Hd. unfold dest0. rewrite Hn. simpl. by eapply plain_dest. Qed.

Lemma src_plain D vec i d k r :
  nth_res vec i = Ok d → plain D d →
  nth_res (si_srcs (staticInst d) ++ si_dests (staticInst d)) k = Ok r →
  src vec i k = Ok r.
Proof.
  intros Hn Hp Hk. unfold src. rewrite Hn. simpl. unfold srcRegIdx.
  by rewrite (pl_fusion _ _ Hp).
Qed.

Lemma chain_check_total D first second d1 d2 s0 srcs c :
  plain D first → plain D second →
  si_dests (staticInst first) = [d1] → si_dests (staticInst second) = [d2] →
  si_srcs (staticInst second) = s0 :: srcs → chain_check c = true →
  ∃ b, eval_check [first; second] c = Ok b.
Proof.
  intros P1 P2 E1 E2 S2 Hc.
  assert (dest0 [first; second] 0 = Ok d1) as D1 by by eapply dest0_plain.
  assert (dest0 [first; second] 1 = Ok d2) as D2 by by eapply dest0_plain.
  assert (src [first; second] 1 0 = Ok s0) as R0
    by (eapply (src_plain D); [done|done|by rewrite S2]).
  assert (∃ s1, src [first; second] 1 1 = Ok s1) as [s1 R1].
  { destruct srcs as [|s1 srcs].
    - exists d2. eapply (src_plain D); [done|done|by rewrite S2, E2].
    - exists s1. eapply (src_plain D); [done|done|by rewrite S2]. }
  unfold chain_check in Hc. repeat case_match; try discriminate Hc; unfold eval_check.
  - rewrite D1, D2. by eexists.
  - rewrite D2, R0. by eexists.
  - rewrite D2, R0, R1. simpl. destruct (reg_eqb d2 s0); by eexists.
  - simpl. by eexists.
Qed.

Lemma eval_checks_total vec cs :
  (∀ c, c ∈ cs → ∃ b, eval_check vec c = Ok b) → ∃ b, eval_checks vec cs = Ok b.
Proof.
  induction cs as [|c cs IH]; intros H; simpl; [by eexists|].
  destruct (H c) as [b ->]; [set_solver|]. unfold and_then. simpl.
  destruct b; [apply IH; set_solver|by eexists].
Qed.

Lemma checked_total vec chk k b :
  eval_checks vec chk = Ok b → (b = true → ∃ si, k = Ok si) →
  ∃ o, checked vec chk k = Ok o.
Proof.
  intros He Hk. unfold checked. rewrite He. simpl. destruct b; [|by eexists].
  destruct Hk as [si ->]; [done|]. by eexists.
Qed.

Lemma chain_total D n chk first second :
  decoded D first → decoded D second →
  entry_ok (decompressed (si_type (staticInst first)))
    (decompressed (si_type (staticInst second))) (ChainCreator n chk) = true →
  Forall counted (si_dests (staticInst first)) →
  ∃ o, create (ChainCreator n chk) [first; second] = Ok o.
Proof.
  intros Hd1 Hd2 He Hcnt. unfold entry_ok in He. entry_cases He.
  repeat (apply andb_true_iff in He as [He ?]).
  shape Hd1 as [S1 (d1 & E1)%length_1]. shape Hd2 as [S2 (d2 & E2)%length_1].
  pose proof (dc_plain _ _ Hd1) as P1. pose proof (dc_plain _ _ Hd2) as P2.
  destruct (si_srcs (staticInst second)) as [|s0 srcs] eqn:Es; [simpl in S2; by subst|].
  assert (∃ b, eval_checks [first; second] chk = Ok b) as [b Hb].
  { apply eval_checks_total. intros c Hc. eapply (chain_check_total D); eauto.
    by eapply forallb_elem. }
  simpl. unfold chainFuseInsts. apply (checked_total _ _ _ b Hb). intros ->.
  assert (d1 = d2) as <-.
  { assert (eval_check [first; second] (FirstDest0EqualSecond 0 1) = Ok true) as Hq
      by (eapply eval_checks_true; [done|by eapply bool_decide_eq_true_1]).
    simpl in Hq. rewrite (dest0_plain D _ _ first d1), (dest0_plain D _ _ second d2) in Hq
      by done. simpl in Hq. by destruct (reg_eqb_spec d1 d2). }
  simpl. unfold ChainFusionInst_new.
  rewrite (plain_dest D first d1), (plain_dest D second d1) by done. simpl.
  rewrite reg_eqb_refl. simpl. rewrite E1 in Hcnt. inversion_clear Hcnt as [|? ? Hc1 _].
  rewrite Hc1. simpl. unfold fusion_srcs. rewrite Es, length_app, length_map.
  rewrite S1, S2, He. by eexists.
Qed.

Lemma src0or1_check D first second d1 a b :
  plain D first → plain D second → si_dests (staticInst first) = [d1] →
  si_srcs (staticInst second) = [a; b] →
  eval_checks [first; second] [Dest0EqualSecondSrc0or1 0 1] =
    Ok (reg_eqb d1 a || reg_eqb d1 b).
Proof.
  intros P1 P2 E1 S2. simpl. unfold or_else.
  rewrite (dest0_plain D _ 0 first d1), (src_plain D _ 1 second 0 a),
    (src_plain D _ 1 second 1 b) by (try done; by rewrite S2).
  simpl. destruct (reg_eqb d1 a), (reg_eqb d1 b); done.
Qed.

Lemma alubr_total D n chk first second :
  decoded D first → decoded D second →
  entry_ok (decompressed (si_type (staticInst first)))
    (decompressed (si_type (staticInst second))) (AluBrCreator n chk) = true →
  Forall counted (si_dests (staticInst first)) →
  ∃ o, create (AluBrCreator n chk) [first; second] = Ok o.
Proof.
  intros Hd1 Hd2 He Hcnt. unfold entry_ok in He. entry_cases He.
  apply bool_decide_eq_true_1 in He as ->.
  shape Hd1 as [(s & S1)%length_1 (d1 & E1)%length_1].
  shape Hd2 as [(a & b & S2)%length_2 _].
  pose proof (dc_plain _ _ Hd1) as P1. pose proof (dc_plain _ _ Hd2) as P2.
  eapply checked_total; [by apply (src0or1_check D)|]. intros Hf. simpl.
  unfold AluBrFusionInst_new. rewrite (plain_dest D first d1) by done. simpl.
  rewrite (feeds_plain D d1 second a b) by done. simpl. rewrite Hf. simpl.
  rewrite E1 in Hcnt. inversion_clear Hcnt as [|? ? Hc1 _]. rewrite Hc1. simpl.
  unfold fusion_srcs. rewrite S1, S2, length_app.
  pose proof (length_filter (λ r, reg_eqb r d1 = false) [a; b]) as Hle. simpl in *.
  destruct (Nat.leb_spec (length (filter (λ r, reg_eqb r d1 = false) [a; b])) 3);
    [by eexists|lia].
Qed.

Lemma macc_total D n chk first second :
  decoded D first → decoded D second →
  entry_ok (decompressed (si_type (staticInst first)))
    (decompressed (si_type (staticInst second))) (MaccCreator n chk) = true →
  Forall counted (si_dests (staticInst second)) →
  (∀ d1, si_dests (staticInst first) = [d1] → si_srcs (staticInst second) ≠ [d1; d1]) →
  ∃ o, create (MaccCreator n chk) [first; second] = Ok o.
Proof.
  intros Hd1 Hd2 He Hcnt Hne. unfold entry_ok in He. entry_cases He.
  apply andb_true_iff in He as [_ ->%bool_decide_eq_true_1].
  shape Hd1 as [S1 (d1 & E1)%length_1].
  shape Hd2 as [(a & b & S2)%length_2 (d2 & E2)%length_1]. specialize (Hne d1 E1).
  pose proof (dc_plain _ _ Hd1) as P1. pose proof (dc_plain _ _ Hd2) as P2.
  eapply checked_total; [by apply (src0or1_check D)|]. intros Hf. simpl.
  unfold MaccFusionInst_new. rewrite (plain_dest D first d1) by done. simpl.
  rewrite (feeds_plain D d1 second a b) by done. simpl. rewrite Hf. simpl.
  unfold numSrcRegs at 1. rewrite S2.
  rewrite E2 in Hcnt. inversion_clear Hcnt as [|? ? Hc1 _].
  rewrite (plain_dest D second d2) by done. rewrite !filter_cons.
  destruct (reg_eqb_spec d1 a) as [<-|Ha], (reg_eqb_spec d1 b) as [<-|Hb]; try done;
    rewrite ?reg_eqb_refl, ?(reg_eqb_ne a d1), ?(reg_eqb_ne b d1) by congruence; simpl;
    rewrite Hc1; simpl; unfold fusion_srcs; rewrite length_app, S1; by eexists.
Qed.

Lemma aluload_checks D first second d1 base d2 :
  plain D first → plain D second → si_dests (staticInst first) = [d1] →
  si_srcs (staticInst second) = [base] → si_dests (staticInst second) = [d2] →
  eval_checks [first; second] [FirstDest0EqualSecond 0 1; Dest0EqualSrc0 1] =
    Ok (reg_eqb d1 d2 && reg_eqb d2 base).
Proof.
  intros P1 P2 E1 S2 E2. simpl. rewrite (dest0_plain D _ 0 first d1), (dest0_plain D _ 1 second d2),
    (src_plain D _ 1 second 0 base) by (try done; by rewrite S2).
  unfold and_then. simpl. destruct (reg_eqb d1 d2), (reg_eqb d2 base); done.
Qed.

Lemma aluld_total D n s chk first second :
  decoded D first → decoded D second →
  entry_ok (decompressed (si_type (staticInst first)))
    (decompressed (si_type (staticInst second))) (AluLdCreator n s chk) = true →
  Forall counted (si_dests (staticInst second)) →
  ∃ o, create (AluLdCreator n s chk) [first; second] = Ok o.
Proof.
  intros Hd1 Hd2 He Hcnt. unfold entry_ok in He. entry_cases He.
  apply andb_true_iff in He as [He Hchk]. apply andb_true_iff in He as [He Hs].
  apply andb_true_iff in He as [He Hw].
  apply bool_decide_eq_true_1 in Hw. apply bool_decide_eq_true_1 in Hchk as ->.
  shape Hd1 as [S1 (d1 & E1)%length_1].
  shape Hd2 as [(base & S2)%length_1 (d2 & E2)%length_1].
  pose proof (dc_plain _ _ Hd1) as P1. pose proof (dc_plain _ _ Hd2) as P2.
  eapply checked_total; [by apply (aluload_checks D)|].
  intros [H1 H2]%andb_true_iff. simpl. unfold AluLoadFusionInst_new.
  rewrite (plain_dest D first d1), (plain_dest D second d2) by done. unfold srcRegIdx.
  rewrite (pl_fusion _ _ P2), S2, E2. simpl.
  change (nth_res [base; d2] 1) with (Ok d2). simpl. rewrite H1. simpl. rewrite H2. simpl.
  rewrite (dc_width _ _ Hd2 _ Hw). rewrite Z.mul_comm, Z.quot_mul, Z.eqb_refl by done.
  simpl. rewrite E2 in Hcnt. inversion_clear Hcnt as [|? ? Hc1 _]. rewrite Hc1. simpl.
  unfold fusion_srcs. rewrite length_app, S1. simpl.
  apply Nat.leb_le in He. destruct (Nat.leb_spec (n0 + 1) 4); [by eexists|lia].
Qed.

Lemma seqload_checks D first second b1 d1 b2 d2 k :
  plain_load D first b1 d1 → plain_load D second b2 d2 →
  eval_checks [first; second] [SeqLoadCheck; ImmIsPlus 1 0 k] =
    Ok (reg_eqb b1 b2 && negb (reg_eqb d1 b1) && negb (reg_eqb d1 d2) &&
        (si_imm (staticInst second) =? si_imm (staticInst first) + k)%Z).
Proof.
  intros [P1 S1 E1] [P2 S2 E2]. cbn [eval_checks eval_check].
  rewrite (dest0_plain D _ 0 first d1), (dest0_plain D _ 1 second d2),
    (src_plain D _ 0 first 0 b1), (src_plain D _ 1 second 0 b2)
    by (try done; by rewrite ?S1, ?S2).
  simpl. unfold imm. simpl.
  destruct (reg_eqb b1 b2), (reg_eqb d1 b1), (reg_eqb d1 d2),
    (si_imm (staticInst second) =? si_imm (staticInst first) + k)%Z; done.
Qed.

Lemma seqld_shape D n s chk first second :
  decoded D first → decoded D second →
  entry_ok (decompressed (si_type (staticInst first)))
    (decompressed (si_type (staticInst second))) (SeqLdCreator n s chk) = true →
  ∃ b1 d1 b2 d2, plain_load D first b1 d1 ∧ plain_load D second b2 d2 ∧
    (0 < operWid (staticInst first))%Z ∧ (0 < operWid (staticInst second))%Z ∧
    s = (Z.quot (operWid (staticInst first)) 8 + Z.quot (operWid (staticInst second)) 8)%Z ∧
    chk = [SeqLoadCheck; ImmIsPlus 1 0 (Z.quot (operWid (staticInst first)) 8)].
Proof.
  intros Hd1 Hd2 He. unfold entry_ok in He. entry_cases He.
  destruct (load_width _) as [w1|] eqn:W1; [|done].
  destruct (load_width (decompressed (si_type (staticInst second)))) as [w2|] eqn:W2; [|done].
  apply andb_true_iff in He as [He Hchk]. apply andb_true_iff in He as [He Hw2].
  apply andb_true_iff in He as [He Hw1].
  apply bool_decide_eq_true_1 in Hchk. apply Z.eqb_eq in He. apply Z.ltb_lt in Hw1, Hw2.
  shape Hd1 as [(b1 & S1)%length_1 (d1 & E1)%length_1].
  shape Hd2 as [(b2 & S2)%length_1 (d2 & E2)%length_1].
  rewrite (dc_width _ _ Hd1 _ W1), (dc_width _ _ Hd2 _ W2).
  exists b1, d1, b2, d2. split; [by split; [apply Hd1|..]|]. by split; [split; [apply Hd2|..]|].
Qed.

Lemma seqld_total D n s chk first second :
  decoded D first → decoded D second →
  entry_ok (decompressed (si_type (staticInst first)))
    (decompressed (si_type (staticInst second))) (SeqLdCreator n s chk) = true →
  Forall counted (si_dests (staticInst first)) →
  Forall counted (si_dests (staticInst second)) →
  si_memFlags (staticInst first) = si_memFlags (staticInst second) →
  ∃ o, create (SeqLdCreator n s chk) [first; second] = Ok o.
Proof.
  intros Hd1 Hd2 He Hc1 Hc2 Hfl.
  destruct (seqld_shape D n s chk first second Hd1 Hd2 He)
    as (b1 & d1 & b2 & d2 & L1 & L2 & W1 & W2 & -> & ->).
  eapply checked_total; [by apply (seqload_checks D)|].
  pose proof L1 as [P1 S1 E1]. pose proof L2 as [P2 S2 E2].
  intros [[[Hb _]%andb_true_iff _]%andb_true_iff Hi]%andb_true_iff. simpl.
  unfold SeqLoadFusionInst_new. rewrite (plain_dest D first d1), (plain_dest D second d2)
    by done. unfold srcRegIdx.
  rewrite (pl_fusion _ _ P1), (pl_fusion _ _ P2), S1, S2. simpl. rewrite Hb. simpl.
  rewrite Z.eqb_sym in Hi. rewrite Hi. simpl. rewrite Hfl, !Z.eqb_refl. simpl.
  rewrite E1 in Hc1. rewrite E2 in Hc2. inversion_clear Hc1 as [|? ? Hx _].
  inversion_clear Hc2 as [|? ? Hy _]. rewrite Hx, Hy. by eexists.
Qed.

(** *** Triples *)

Definition triple_ok (t1 t2 t3 : string) (c : FuseCreator) : bool :=
  match c with
  | SlliAddLdCreator _ s chk =>
      String.eqb t1 "Slli" && String.eqb t2 "Add" &&
      bool_decide (load_width t3 = Some (8 * s)%Z) &&
      bool_decide (chk = [SlliAddLdCheck])
  | _ => false
  end.

Definition table3_ok (t : FusionTag) : bool :=
  forallb (λ '(k1, v1),
    match v1 with
    | Creator _ => false
    | SubTag t2 =>
        forallb (λ '(k2, v2),
          match v2 with
          | Creator _ => false
          | SubTag t3 =>
              forallb (λ '(k3, v3),
                match v3 with
                | Creator c => triple_ok (key_type k1) (key_type k2) (key_type k3) c
                | SubTag _ => false
                end) (tag_entries t3)
          end) (tag_entries t2)
    end) (tag_entries t).

Lemma fusionMap3_ok : table3_ok fusionMap3 = true.
Proof. vm_compute. reflexivity. Qed.

Lemma lookup3_ok first second third :
  ∃ o, lookup3 fusionMap3 first second third = Ok o ∧
    ∀ c, o = Some c →
      triple_ok (decompressed (si_type (staticInst first)))
        (decompressed (si_type (staticInst second)))
        (decompressed (si_type (staticInst third))) c = true.
Proof.
  unfold lookup3, tag_find.
  destruct (find_entry (tag_entries fusionMap3) (inst_key first)) as [v1|] eqn:E1;
    [|by exists None].
  apply find_entry_Some in E1 as (k1 & Hin1 & Hk1). apply key_eqb_type in Hk1.
  pose proof (forallb_elem _ _ _ fusionMap3_ok Hin1) as H1. cbn beta iota in H1.
  destruct v1 as [c|t2]; [done|].
  destruct (find_entry (tag_entries t2) (inst_key second)) as [v2|] eqn:E2;
    [|by exists None].
  apply find_entry_Some in E2 as (k2 & Hin2 & Hk2). apply key_eqb_type in Hk2.
  pose proof (forallb_elem _ _ _ H1 Hin2) as H2. cbn beta iota in H2.
  destruct v2 as [c|t3]; [done|].
  destruct (find_entry (tag_entries t3) (inst_key third)) as [v3|] eqn:E3;
    [|by exists None].
  apply find_entry_Some in E3 as (k3 & Hin3 & Hk3). apply key_eqb_type in Hk3.
  pose proof (forallb_elem _ _ _ H2 Hin3) as H3. cbn beta iota in H3.
  destruct v3 as [c|]; [|done]. exists (Some c). split; [done|].
  intros ? [= <-]. by rewrite <- Hk1, <- Hk2, <- Hk3 in H3.
Qed.

(** *** The creators do not panic *)

Definition creator_checks (c : FuseCreator) : list Check :=
  match c with
  | ChainCreator _ chk | AluBrCreator _ chk | MaccCreator _ chk
  | AluLdCreator _ _ chk | SeqLdCreator _ _ chk | SlliAddLdCreator _ _ chk => chk
  end.

(** What the constructors need of a pair that passed the checks: destinations other
    than [x0] where the class counts them, for a multiply-accumulate an addend other than
    the product, and for two loads the same memory flags. *)
Definition fusable (c : FuseCreator) (first second : DynInst) : Prop :=
  let ds1 := si_dests (staticInst first) in
  let ds2 := si_dests (staticInst second) in
  match c with
  | ChainCreator _ _ | AluBrCreator _ _ => Forall counted ds1
  | MaccCreator _ _ =>
      Forall counted ds2 ∧ ∀ d1, ds1 = [d1] → si_srcs (staticInst second) ≠ [d1; d1]
  | AluLdCreator _ _ _ => Forall counted ds2
  | SeqLdCreator _ _ _ =>
      Forall counted ds1 ∧ Forall counted ds2 ∧
      si_memFlags (staticInst first) = si_memFlags (staticInst second)
  | SlliAddLdCreator _ _ _ => True
  end.

Lemma create_rejects c vec : eval_checks vec (creator_checks c) = Ok false → create c vec = Ok None.
Proof.
  destruct c; simpl; unfold chainFuseInsts, alubrFuseInsts, maccFuseInsts, aluLoadFuseInsts,
    seqLoadFuseInsts, slliAddLoadFuseInsts, checked; intros ->; done.
Qed.

Lemma pair_checks_total D first second c :
  decoded D first → decoded D second →
  entry_ok (decompressed (si_type (staticInst first)))
    (decompressed (si_type (staticInst second))) c = true →
  ∃ b, eval_checks [first; second] (creator_checks c) = Ok b.
Proof.
  intros Hd1 Hd2 He. pose proof (dc_plain _ _ Hd1) as P1. pose proof (dc_plain _ _ Hd2) as P2.
  destruct c as [n chk|n chk|n chk|n s chk|n s chk|n s chk].
  - unfold entry_ok in He. entry_cases He. repeat (apply andb_true_iff in He as [He ?]).
    shape Hd1 as [S1 (d1 & E1)%length_1]. shape Hd2 as [S2 (d2 & E2)%length_1].
    destruct (si_srcs (staticInst second)) as [|s0 srcs] eqn:Es; [simpl in S2; by subst|].
    apply eval_checks_total. intros c Hc. eapply (chain_check_total D); eauto.
    by eapply forallb_elem.
  - unfold entry_ok in He. entry_cases He. apply bool_decide_eq_true_1 in He as ->.
    shape Hd1 as [_ (d1 & E1)%length_1]. shape Hd2 as [(a & b & S2)%length_2 _].
    eexists. by apply (src0or1_check D).
  - unfold entry_ok in He. entry_cases He. apply andb_true_iff in He as [_ ->%bool_decide_eq_true_1].
    shape Hd1 as [_ (d1 & E1)%length_1]. shape Hd2 as [(a & b & S2)%length_2 _].
    eexists. by apply (src0or1_check D).
  - unfold entry_ok in He. entry_cases He. apply andb_true_iff in He as [_ ->%bool_decide_eq_true_1].
    shape Hd1 as [_ (d1 & E1)%length_1]. shape Hd2 as [(base & S2)%length_1 (d2 & E2)%length_1].
    eexists. by apply (aluload_checks D).
  - destruct (seqld_shape D n s chk first second Hd1 Hd2 He)
      as (b1 & d1 & b2 & d2 & L1 & L2 & _ & _ & _ & ->).
    eexists. by apply (seqload_checks D).
  - discriminate He.
Qed.

(** The creator found for a pair of decoded instructions returns a fused instruction or
    none, when a pair that passes its checks is one the constructor accepts. *)
Lemma pair_creators_total D first second c :
  decoded D first → decoded D second →
  lookup2 fusionMap first second = Ok (Some c) →
  (eval_checks [first; second] (creator_checks c) = Ok true → fusable c first second) →
  ∃ o, create c [first; second] = Ok o.
Proof.
  intros Hd1 Hd2 Hl Hf. apply lookup2_entry in Hl as He.
  destruct (pair_checks_total D first second c Hd1 Hd2 He) as [[] Hb];
    [|exists None; by apply create_rejects].
  specialize (Hf Hb). clear Hb. destruct c; simpl in Hf.
  - by eapply chain_total.
  - by eapply alubr_total.
  - destruct Hf. eapply macc_total; eauto.
  - by eapply aluld_total.
  - destruct Hf as (? & ? & ?). by eapply seqld_total.
  - discriminate He.
Qed.

Lemma load_width_shape t w : load_width t = Some w → type_shape t = Some (1, 1)%nat.
Proof.
  unfold load_width.
  repeat match goal with
  | |- context [String.eqb t ?u] => destruct (String.eqb_spec t u) as [->|]; [done|]
  end. done.
Qed.

Lemma triple_shape D n s chk first second third :
  decoded D first → decoded D second → decoded D third →
  lookup3 fusionMap3 first second third = Ok (Some (SlliAddLdCreator n s chk)) →
  ∃ v d1 a b d2 base d3,
    si_srcs (staticInst first) = [v] ∧ si_dests (staticInst first) = [d1] ∧
    si_srcs (staticInst second) = [a; b] ∧ si_dests (staticInst second) = [d2] ∧
    plain_load D third base d3 ∧ s = Z.quot (operWid (staticInst third)) 8.
Proof.
  intros Hd1 Hd2 Hd3 Hl. destruct (lookup3_ok first second third) as (o & Ho & Hc).
  rewrite Ho in Hl. injection Hl as ->. specialize (Hc _ eq_refl). simpl in Hc.
  apply andb_true_iff in Hc as [Hc _]. apply andb_true_iff in Hc as [Hc Hw].
  apply andb_true_iff in Hc as [Ht1 Ht2].
  apply String.eqb_eq in Ht1, Ht2. apply bool_decide_eq_true_1 in Hw.
  destruct (dc_shape _ _ Hd1 1 1)%nat as [(v & S1)%length_1 (d1 & E1)%length_1];
    [by rewrite Ht1|].
  destruct (dc_shape _ _ Hd2 2 1)%nat as [(a & b & S2)%length_2 (d2 & E2)%length_1];
    [by rewrite Ht2|].
  destruct (dc_shape _ _ Hd3 1 1)%nat as [(base & S3)%length_1 (d3 & E3)%length_1];
    [by eapply load_width_shape|].
  exists v, d1, a, b, d2, base, d3. repeat (split; [done|]).
  split; [by split; [apply Hd3|..]|].
  rewrite (dc_width _ _ Hd3 _ Hw), Z.mul_comm, Z.quot_mul; done.
Qed.

(** The same for the triple table. *)
Lemma triple_creators_total D first second third c :
  decoded D first → decoded D second → decoded D third →
  lookup3 fusionMap3 first second third = Ok (Some c) →
  (eval_checks [first; second; third] (creator_checks c) = Ok true →
   Forall counted (si_dests (staticInst third))) →
  ∃ o, create c [first; second; third] = Ok o.
Proof.
  intros Hd1 Hd2 Hd3 Hl Hc. pose proof Hl as Hl'.
  destruct (lookup3_ok first second third) as (o & Ho & Hok).
  rewrite Ho in Hl'. injection Hl' as ->. specialize (Hok _ eq_refl).
  destruct c as [| | | | |n s chk]; try done.
  destruct (triple_shape D n s chk first second third Hd1 Hd2 Hd3 Hl)
    as (v & d1 & a & b & d2 & base & d3 & S1 & E1 & S2 & E2 & [P3 S3 E3] & _).
  simpl in Hok. apply andb_true_iff in Hok as [_ ->%bool_decide_eq_true_1].
  pose proof (pl_fusion _ _ (dc_plain _ _ Hd1)) as F1.
  pose proof (pl_fusion _ _ (dc_plain _ _ Hd2)) as F2. pose proof (pl_fusion _ _ P3) as F3.
  rewrite E3 in Hc. simpl in Hc.
  unfold dest0, src, destRegIdx, srcRegIdx in Hc. simpl in Hc.
  rewrite F1, F2, F3, E1, S2, E2, S3, E3 in Hc. unfold eqb_res, and_then, or_else in Hc. simpl in Hc.
  simpl. unfold slliAddLoadFuseInsts, checked. simpl.
  unfold dest0, src. simpl. unfold SlliAddLoadFusionInst_new, feeds, destRegIdx, srcRegIdx.
  rewrite F1, F2, F3, S1, E1, S2, E2, S3, E3. simpl.
  unfold eqb_res, and_then, or_else. simpl.
  destruct (reg_eqb d1 a); simpl; [|destruct (reg_eqb d1 b); simpl; [|by eexists]];
    (destruct (reg_eqb d2 d3); simpl; [|by eexists]);
    (destruct (reg_eqb d3 base); simpl; [|by eexists]);
    specialize (Hc eq_refl); inversion_clear Hc as [|? ? Hc3 _];
    rewrite Hc3; simpl; destruct (reg_eqb a d1); by eexists.
Qed.

(** ** Properties *)

Section Properties.

Context (isa : ISAExec) `{!ISASem isa} (D : RegId → Prop).

(** C1: what a fused ALU pair, ALU-and-branch pair or multiply-accumulate does that
    decode makes from the table, when the product of a multiply-accumulate does not go to
    [x0].  It ends with the fault of its two instructions in sequence.  Without a fault the
    registers, read through the new mapping, are those of the two instructions in
    sequence, except that the product register of a multiply-accumulate keeps its old
    value unless the sum goes there too; a branch has the same next PC.  With a fault the
    old mapping still reads as before the pair.  The one other case is a branch both of
    whose sources are the ALU result: its execution reads past the sources of the fused
    instruction. *)
Theorem fused_pair_refines first second c si fused ρ rf A pt pd :
  decoded D first → decoded D second → control_ok second →
  lookup2 fusionMap first second = Ok (Some c) →
  create c [first; second] = Ok (Some si) →
  exec_creator c = true → keeps_product c first →
  renaming D ρ rf A pt → fresh D ρ rf pt pd → fused_as ρ si [pd] fused →
  if reads_twice c first second then fusion_execute isa rf fused = ub
  else pair_refined isa D c first second si ρ rf A fused pd.
Proof.
  intros Hd1 Hd2 Hctl Hl Hc Hx Hsup Hrn Hfr Hfu. apply lookup2_entry in Hl as He.
  assert (isControl second = true →
    type_shape (decompressed (si_type (staticInst second))) = Some (2, 0)%nat) as Hct
    by (intros H; by apply control_types, Hctl).
  destruct c; try discriminate Hx.
  - eapply chain_pair; eauto. destruct (isControl second); [|done].
    unfold entry_ok in He. rewrite Hct in He by done. by entry_cases He.
  - eapply alubr_pair; eauto.
  - eapply macc_pair; eauto. destruct (isControl second); [|done].
    unfold entry_ok in He. rewrite Hct in He by done. by entry_cases He.
Qed.

(** C10: a fused address computation and load from the table: [initiateAcc] asks
    for the bytes at the address the replaced load uses, keeps the old mapping
    intact meanwhile, and [completeAcc] writes the value the replaced load
    writes; a fault of the address computation is reported as it is. *)
Theorem fused_alu_load_refines ld m first second n s chk si fused ρ rf A pt pd :
  decoded D first → decoded D second →
  lookup2 fusionMap first second = Ok (Some (AluLdCreator n s chk)) →
  create (AluLdCreator n s chk) [first; second] = Ok (Some si) →
  renaming D ρ rf A pt → fresh D ρ rf pt pd → fused_as ρ si [pd] fused →
  let '(f1, A1, _) := arch_execute isa A first in
  ∃ d, si_dests si = [d] ∧
  if bool_decide (f1 = NoFault) then
    load_done isa ld m D ρ (bind_reg ρ d pd) A (arch_load ld m A1 second) D rf fused
      (arch_ea A1 second) (Z.quot (operWid (staticInst second)) 8)
      (si_memFlags (staticInst second))
  else ∃ rf1, fusion_initiateAcc isa rf fused = Ok (InitFault f1 rf1) ∧ rep D ρ rf1 A.
Proof.
  intros Hd1 Hd2 Hl Hc Hrn Hfr Hfu. apply lookup2_entry in Hl as He.
  unfold entry_ok in He. entry_cases He.
  shape Hd1 as [S1 (d1 & E1)%length_1].
  shape Hd2 as [(base & S2)%length_1 (d2 & E2)%length_1].
  apply checked_Some in Hc as [_ Hnew]. simpl in Hnew.
  pose proof (dc_plain _ _ Hd1) as P1.
  assert (plain_load D second base d2) as L2 by (split; [apply Hd2|done|done]).
  destruct (AluLoadFusionInst_new_inv D _ _ _ _ _ _ _ _ _ P1 L2 E1 Hnew)
    as (_ & _ & _ & _ & _ & Hds & _).
  pose proof (aluload_refines isa ld m D _ _ _ _ _ _ _ _ _ _ _ _ _ _ _
    P1 L2 E1 Hnew Hrn Hfr Hfu) as H.
  destruct (arch_execute isa A first) as [[f1 A1] p]. by exists d2.
Qed.

(** C6: two adjacent loads fused by the table read, in one access, the bytes the
    two loads read one after the other, and write the same two values. *)
Theorem fused_seq_load_refines ld m first second n s chk si fused ρ rf A pt p1 p2 :
  decoded D first → decoded D second →
  lookup2 fusionMap first second = Ok (Some (SeqLdCreator n s chk)) →
  create (SeqLdCreator n s chk) [first; second] = Ok (Some si) →
  in_s 12 (si_imm (staticInst first)) →
  renaming D ρ rf A pt → fresh D ρ rf pt p1 → fresh D ρ rf pt p2 → p1 ≠ p2 →
  fused_as ρ si [p1; p2] fused →
  ∃ d1 d2, si_dests si = [d1; d2] ∧
    load_done isa ld m D ρ (bind_reg (bind_reg ρ d1 p1) d2 p2) A
      (arch_load ld m (arch_load ld m A first) second) D rf fused
      (arch_ea A first) s (si_memFlags (staticInst first)).
Proof.
  intros Hd1 Hd2 Hl Hc Him Hrn Hf1 Hf2 Hpp Hfu. apply lookup2_entry in Hl as He.
  destruct (seqld_shape D n s chk first second Hd1 Hd2 He)
    as (b1 & d1 & b2 & d2 & L1 & L2 & W1 & W2 & Hs & ->).
  apply checked_Some in Hc as [Hchk Hnew]. rewrite (seqload_checks D _ _ _ _ _ _ _ L1 L2) in Hchk.
  simpl in Hnew. injection Hchk as Hchk.
  apply andb_true_iff in Hchk as [Hchk _]. apply andb_true_iff in Hchk as [Hchk Hdd].
  apply andb_true_iff in Hchk as [_ Hdb].
  destruct (SeqLoadFusionInst_new_inv D _ _ _ _ _ _ _ _ _ _ L1 L2 Hnew)
    as (_ & _ & _ & _ & _ & _ & Hds & _).
  exists d1, d2. split; [done|]. pose proof L1 as [P1 S1 E1].
  eapply (seqload_refines isa ld m D); eauto.
  - by destruct (reg_eqb_spec d1 b1).
  - by destruct (reg_eqb_spec d1 d2).
  - pose proof (pl_dom _ _ P1) as Hdom. rewrite S1 in Hdom. by inversion Hdom.
  - unfold in_s in *. simpl in *. lia.
Qed.

(** C15: the fused shift, add and load of the triple table, for a shift whose destination
    is not [x0] and an add that reads the shifted value once.  [slli] and [add] do not
    fault, the one access is at the address the three instructions compute in sequence, and
    after it the registers are those of the three instructions in sequence, except that
    the destination of the shift keeps its old value unless the load goes there. *)
Theorem fused_triple_refines ld m first second third n s chk si fused ρ rf A pt pd d1 :
  decoded D first → decoded D second → decoded D third →
  lookup3 fusionMap3 first second third = Ok (Some (SlliAddLdCreator n s chk)) →
  create (SlliAddLdCreator n s chk) [first; second; third] = Ok (Some si) →
  isa_slli isa first → isa_add isa second → in_s 12 (si_imm (staticInst first)) →
  si_dests (staticInst first) = [d1] → isZeroReg d1 = false →
  si_srcs (staticInst second) ≠ [d1; d1] →
  renaming D ρ rf A pt → fresh D ρ rf pt pd → fused_as ρ si [pd] fused →
  let '(f, A2, _) := arch_execute2 isa A first second in
  f = NoFault ∧
  ∃ d3, si_dests (staticInst third) = [d3] ∧
  load_done isa ld m D ρ (bind_reg ρ d3 pd) A (keep_reg d1 d3 A (arch_load ld m A2 third))
    D rf fused (arch_ea A2 third) s (si_memFlags (staticInst third)).
Proof.
  intros Hd1 Hd2 Hd3 Hl Hc Hi1 Hi2 Him E1 Hz Hne Hrn Hfr Hfu.
  destruct (triple_shape _ _ _ _ _ _ _ Hd1 Hd2 Hd3 Hl)
    as (v & d1' & a & b & d2 & base & d3 & S1 & E1' & S2 & E2 & L3 & Hs).
  rewrite E1 in E1'. injection E1' as <-. rewrite S2 in Hne.
  apply checked_Some in Hc as [_ Hnew]. simpl in Hnew.
  change (nth_res [first; second; third] 2) with (Ok third) in Hnew. simpl in Hnew.
  pose proof (dc_plain _ _ Hd1) as P1. pose proof (dc_plain _ _ Hd2) as P2.
  assert (∃ other, one_source d1 a b other) as [other Hone].
  { apply one_source_exists; [|done]. pose proof Hnew as H. unfold SlliAddLoadFusionInst_new in H.
    rewrite (plain_dest D first d1) in H by done. cbn [res_bind] in H.
    rewrite (feeds_plain D d1 second a b) in H by done. cbn [res_bind] in H.
    by destruct (reg_eqb d1 a || reg_eqb d1 b). }
  pose proof (pl_dom _ _ P1) as Dm1. rewrite S1 in Dm1. inversion_clear Dm1 as [|? ? Dv _].
  pose proof (pl_dom _ _ P2) as Dm2. rewrite S2 in Dm2.
  assert (D other) as Do.
  { inversion_clear Dm2 as [|? ? Da Dm3]. inversion_clear Dm3 as [|? ? Db _].
    by destruct Hone as [(_ & <- & _)|(_ & <- & _)]. }
  assert (in_s 32 (si_imm (staticInst first))) as Him'
    by (unfold in_s in *; simpl in *; lia).
  pose proof (slliadd_refines isa ld m D _ _ _ _ _ _ _ _ _ _ _ _ _ _ _ _ _ _ _ _ _
    P1 P2 L3 Hi1 Hi2 S1 E1 S2 E2 Hone Hz Dv Do Him' Hs Hnew Hrn Hfr Hfu) as H.
  destruct (arch_execute2 isa A first second) as [[f A2] p]. destruct H as [Hf Hld].
  split; [done|]. exists d3. split; [apply L3|done].
Qed.

(** A fused multiply-accumulate whose sum goes to another register than the
    product drops the product: after it, the product register still reads as it
    did before the multiplication. *)
Theorem fused_macc_drops_product first second n chk si fused ρ rf A pt pd d1 d2 :
  decoded D first → decoded D second →
  lookup2 fusionMap first second = Ok (Some (MaccCreator n chk)) →
  create (MaccCreator n chk) [first; second] = Ok (Some si) →
  si_dests (staticInst first) = [d1] → si_dests (staticInst second) = [d2] →
  d1 ≠ d2 → isZeroReg d1 = false → D d1 →
  renaming D ρ rf A pt → fresh D ρ rf pt pd → fused_as ρ si [pd] fused →
  ∃ f p rf', fusion_execute isa rf fused = Ok (f, p, rf') ∧
    getReg rf' (bind_reg ρ d2 pd d1) = Ok (rd A d1).
Proof.
  intros Hd1 Hd2 Hl Hc E1 E2 Hne Hz Dd Hrn Hfr Hfu. apply lookup2_entry in Hl as He.
  unfold entry_ok in He. entry_cases He. shape Hd2 as [(a & b & S2)%length_2 _].
  apply checked_Some in Hc as [_ Hnew]. simpl in Hnew.
  destruct (macc_execute_refines isa D _ _ _ _ _ _ _ _ _ _ _ _ _ _ _
    (dc_plain _ _ Hd1) (dc_plain _ _ Hd2) E1 E2 S2 Hz Hnew Hrn Hfr Hfu)
    as (rf' & Hx & _ & Hold).
  exists (arch_execute2 isa A first second).1.1, (pcState fused), rf'.
  split; [done|]. by apply Hold.
Qed.

End Properties.

(** ** Examples

    A small instruction set on which the hypotheses above hold. *)

Definition x (n : Z) : RegId := mkRegId IntRegClass n.
Definition P (n : Z) : PhysRegId := mkPhys IntRegClass n.
Definition tmpP : PhysRegId := mkPhys RMiscRegClass 2.

Definition mk (t : string) (fl : Flags) (srcs dests : list RegId) (i : Z) : DynInst :=
  mkDyn (mkStatic t t IntAluOp fl srcs dests i 0 None) (pc_set PCState_default 4096)
    PCState_default false 1 0 0 0 0 0 NoFault false false
    (replicate (length srcs) VirtRegId_null) (replicate (length dests) VirtRegId_null)
    (replicate (length dests) VirtRegId_null).

Definition demo_alu (t : string) (i : Z) (vs : list Z) : Z :=
  match vs with
  | [a; b] => if String.eqb t "Mul" then u64 (a * b) else u64 (a + b)
  | [a] => if String.eqb t "Slli" then u64 (Z.shiftl a i)
           else if String.eqb t "Srli" then Z.shiftr a i else u64 (a + i)
  | _ => u64 i
  end.

Definition demo_isa : ISAExec := λ si p vs,
  match si_dests si with
  | [] =>
      let taken := match vs with [a; b] => (a =? b)%Z | _ => false end in
      ExDone [] (setNPC p (pc p + (if taken then si_imm si else 4)))
  | ds => ExDone (map (λ _, demo_alu (si_type si) (si_imm si) vs) ds) p
  end.

#[export] Instance demo_sem : ISASem demo_isa.
Proof.
  split; unfold demo_isa.
  - intros si p vs outs p'. destruct (si_dests si); intros [= <- <-]; [done|].
    simpl. by rewrite length_map.
  - intros si p vs f. by destruct (si_dests si).
Qed.

Definition D0 (r : RegId) : Prop := r ∈ [x 1; x 2; x 3; x 4; x 5].
Definition ρ0 (r : RegId) : VirtRegId :=
  if reg_eqb r FuseTmpReg then virt tmpP
  else if bool_decide (regClass r = IntRegClass) then virt (P (regIdx r))
  else invalidReg.
Definition rf0 : PhysRegFile :=
  list_to_map [(P 1, 100); (P 2, 7); (P 3, 9); (P 4, 1000); (P 5, 3);
               (P 40, 0); (P 41, 0); (tmpP, 0)]%Z.
Definition A0 (r : RegId) : Z := default 0%Z (rf0 !! P (regIdx r)).

Definition fuse_dyn (si : StaticInst) (pds : list PhysRegId) : DynInst :=
  mkDyn (setFusedInst si) PCState_default PCState_default false 1 0 0 0 0 0 NoFault
    false false (map ρ0 (si_srcs si)) (map virt pds) (map (λ _, VirtRegId_null) pds).

(** The fused instruction a creator returns. *)
Definition created (c : FuseCreator) (vec : list DynInst) : StaticInst :=
  match create c vec with
  | Ok (Some si) => si
  | _ => staticInst (mk "none" [] [] [] 0)
  end.

Ltac each_reg H := repeat (apply elem_of_cons in H as [->|H]; [vm_compute; done|]);
                   by apply elem_of_nil in H.

Lemma renaming0 : renaming D0 ρ0 rf0 A0 tmpP.
Proof.
  split.
  - intros r Hr. each_reg Hr.
  - intros Hr. unfold D0 in Hr. repeat (apply elem_of_cons in Hr as [Hr|Hr]; [discriminate Hr|]).
    by apply elem_of_nil in Hr.
  - done.
  - split; [done|]. by exists 0%Z.
  - intros r Hr. each_reg Hr.
Qed.

Lemma fresh0 n : n ∈ [40; 41]%Z → fresh D0 ρ0 rf0 tmpP (P n).
Proof.
  intros Hn. split.
  - split; [done|]. exists 0%Z.
    repeat (apply elem_of_cons in Hn as [->|Hn]; [done|]). by apply elem_of_nil in Hn.
  - done.
  - intros r Hr. repeat (apply elem_of_cons in Hn as [->|Hn]; [each_reg Hr|]).
    by apply elem_of_nil in Hn.
Qed.

Lemma fused0 si pds : fused_as ρ0 si pds (fuse_dyn si pds).
Proof. done. Qed.

Lemma decoded0 t fl srcs dests i ns nd w :
  Forall D0 srcs → type_shape (decompressed t) = Some (ns, nd) →
  length srcs = ns → length dests = nd →
  load_width (decompressed t) = w →
  (∀ v, w = Some v → operWid (staticInst (mk t fl srcs dests i)) = v) →
  decoded D0 (mk t fl srcs dests i).
Proof.
  intros Hs Ht Hns Hnd Hw Hwid. split.
  - split; simpl; rewrite ?length_replicate; done.
  - simpl. intros a b. rewrite Ht. intros [= <- <-]. done.
  - simpl. intros v Hv. apply Hwid. congruence.
Qed.

Ltac decoded0 :=
  eapply decoded0; [repeat constructor; unfold D0; set_solver|reflexivity|reflexivity|
    reflexivity|reflexivity|intros ? [=]; subst; done].

Definition slli1 := mk "Slli" [] [x 2] [x 1] 3.
Definition add1 := mk "Add" [] [x 3; x 1] [x 1] 0.
Definition mul1 := mk "Mul" [] [x 2; x 3] [x 1] 0.
Definition add5 := mk "Add" [] [x 1; x 4] [x 5] 0.
Definition addi1 := mk "Addi" [] [x 4] [x 1] 16.
Definition ld1 := mk "Ld" [IsLoad; IsOper64] [x 1] [x 1] 8.
Definition ld2 := mk "C_ld" [IsLoad; IsOper64] [x 4] [x 2] 8.
Definition lw3 := mk "Lwu" [IsLoad; IsOper32] [x 4] [x 3] 16.

Definition demo_load : ISALoad := λ _ data, fold_right (λ b acc, b + 256 * acc)%Z 0%Z data.
Definition demo_mem : Memory := λ a, (a `mod` 251)%Z.

Definition muladd := MaccCreator "muladd" [Dest0EqualSecondSrc0or1 0 1].
Definition farld := AluLdCreator "farld" 8 [FirstDest0EqualSecond 0 1; Dest0EqualSrc0 1].
Definition ldlw := SeqLdCreator "ldlw" 12 [SeqLoadCheck; ImmIsPlus 1 0 8].
Definition sll3addld := SlliAddLdCreator "sll3addld" 8 [SlliAddLdCheck].

Lemma fusion_tables_unambiguous_witness :
  find_entry (reverse (tag_entries fusionMap)) (inst_key slli1) =
    tag_find fusionMap (inst_key slli1).
Proof.
  apply (fusion_tables_unambiguous fusionMap); [left; constructor|].
  apply reverse_Permutation.
Defined.

Lemma fused_pair_refines_witness :
  pair_refined demo_isa D0 muladd mul1 add5 (created muladd [mul1; add5]) ρ0 rf0 A0
    (fuse_dyn (created muladd [mul1; add5]) [P 40]) (P 40).
Proof.
  refine (fused_pair_refines demo_isa D0 mul1 add5 muladd (created muladd [mul1; add5])
    (fuse_dyn (created muladd [mul1; add5]) [P 40]) ρ0 rf0 A0 tmpP (P 40) _ _ _ _ _ _ _ _ _ _).
  - decoded0.
  - decoded0.
  - intros H. discriminate H.
  - vm_compute. reflexivity.
  - vm_compute. reflexivity.
  - reflexivity.
  - reflexivity.
  - apply renaming0.
  - apply fresh0. set_solver.
  - apply fused0.
Defined.

Lemma fused_alu_load_refines_witness :
  ∃ d, si_dests (created farld [addi1; ld1]) = [d] ∧
    load_done demo_isa demo_load demo_mem D0 ρ0 (bind_reg ρ0 d (P 40)) A0
      (arch_load demo_load demo_mem (arch_execute demo_isa A0 addi1).1.2 ld1) D0 rf0
      (fuse_dyn (created farld [addi1; ld1]) [P 40]) 1024 8 0.
Proof.
  pose proof (fused_alu_load_refines demo_isa D0 demo_load demo_mem addi1 ld1 "farld" 8
    [FirstDest0EqualSecond 0 1; Dest0EqualSrc0 1] (created farld [addi1; ld1])
    (fuse_dyn (created farld [addi1; ld1]) [P 40]) ρ0 rf0 A0 tmpP (P 40)) as H.
  apply H.
  - decoded0.
  - decoded0.
  - vm_compute. reflexivity.
  - vm_compute. reflexivity.
  - apply renaming0.
  - apply fresh0. set_solver.
  - apply fused0.
Defined.

Lemma fused_seq_load_refines_witness :
  ∃ d1 d2, si_dests (created ldlw [ld2; lw3]) = [d1; d2] ∧
    load_done demo_isa demo_load demo_mem D0 ρ0 (bind_reg (bind_reg ρ0 d1 (P 40)) d2 (P 41)) A0
      (arch_load demo_load demo_mem (arch_load demo_load demo_mem A0 ld2) lw3) D0 rf0
      (fuse_dyn (created ldlw [ld2; lw3]) [P 40; P 41]) 1008 12 0.
Proof.
  apply (fused_seq_load_refines demo_isa D0 demo_load demo_mem ld2 lw3 "ldlw" 12
    [SeqLoadCheck; ImmIsPlus 1 0 8]) with (pt := tmpP).
  - decoded0.
  - decoded0.
  - vm_compute. reflexivity.
  - vm_compute. reflexivity.
  - split; vm_compute; (discriminate || reflexivity).
  - apply renaming0.
  - apply fresh0. set_solver.
  - apply fresh0. set_solver.
  - discriminate.
  - apply fused0.
Defined.

Lemma fused_triple_refines_witness :
  ∃ d3, si_dests (staticInst ld1) = [d3] ∧
    load_done demo_isa demo_load demo_mem D0 ρ0 (bind_reg ρ0 d3 (P 40)) A0
      (keep_reg (x 1) d3 A0 (arch_load demo_load demo_mem (arch_execute2 demo_isa A0 slli1 add1).1.2 ld1))
      D0 rf0
      (fuse_dyn (created sll3addld [slli1; add1; ld1]) [P 40]) 73 8 0.
Proof.
  pose proof (fused_triple_refines demo_isa D0 demo_load demo_mem slli1 add1 ld1
    "sll3addld" 8 [SlliAddLdCheck] (created sll3addld [slli1; add1; ld1])
    (fuse_dyn (created sll3addld [slli1; add1; ld1]) [P 40]) ρ0 rf0 A0 tmpP (P 40) (x 1)) as H.
  apply H.
  - decoded0.
  - decoded0.
  - decoded0.
  - vm_compute. reflexivity.
  - vm_compute. reflexivity.
  - intros v. by eexists.
  - intros v w. by eexists.
  - split; vm_compute; (discriminate || reflexivity).
  - reflexivity.
  - reflexivity.
  - discriminate.
  - apply renaming0.
  - apply fresh0. set_solver.
  - apply fused0.
Defined.

Lemma fused_macc_drops_product_witness :
  ∃ f p rf', fusion_execute demo_isa rf0 (fuse_dyn (created muladd [mul1; add5]) [P 40]) =
      Ok (f, p, rf') ∧
    getReg rf' (bind_reg ρ0 (x 5) (P 40) (x 1)) = Ok 100%Z ∧
    rd (arch_execute2 demo_isa A0 mul1 add5).1.2 (x 1) = 63%Z.
Proof.
  destruct (fused_macc_drops_product demo_isa D0 mul1 add5 "muladd"
    [Dest0EqualSecondSrc0or1 0 1] (created muladd [mul1; add5])
    (fuse_dyn (created muladd [mul1; add5]) [P 40]) ρ0 rf0 A0 tmpP (P 40) (x 1) (x 5))
    as (f & p & rf' & Hx & Hr).
  - decoded0.
  - decoded0.
  - vm_compute. reflexivity.
  - vm_compute. reflexivity.
  - reflexivity.
  - reflexivity.
  - discriminate.
  - reflexivity.
  - unfold D0. set_solver.
  - apply renaming0.
  - apply fresh0. set_solver.
  - apply fused0.
  - exists f, p, rf'. split; [exact Hx|]. split; [exact Hr|]. vm_compute. reflexivity.
Defined.

(** *** Pairs and triples that go wrong *)

Definition add_zero := mk "Add" [] [RegId_default; x 4] [x 5] 0.
Definition mul_zero := mk "Mul" [] [x 2; x 3] [RegId_default] 0.

(** A multiplication into [x0] and an add of [x0]: both registers are [RegId()], so the
    table fuses them and the add gets the product instead of zero. *)
Theorem macc_forwards_zero_product :
  lookup2 fusionMap mul_zero add_zero = Ok (Some muladd) ∧
  create muladd [mul_zero; add_zero] = Ok (Some (created muladd [mul_zero; add_zero])) ∧
  rd (arch_execute2 demo_isa A0 mul_zero add_zero).1.2 (x 5) = 1000%Z ∧
  ∃ p rf', fusion_execute demo_isa rf0 (fuse_dyn (created muladd [mul_zero; add_zero]) [P 40]) =
      Ok (NoFault, p, rf') ∧ rf' !! P 40 = Some 1063%Z.
Proof.
  split; [vm_compute; reflexivity|]. split; [vm_compute; reflexivity|].
  split; [vm_compute; reflexivity|]. do 2 eexists. split; vm_compute; reflexivity.
Qed.

(** A branch that compares the ALU result with itself. *)
Theorem branch_reads_past_sources :
  let addi := mk "Addi" [] [x 4] [x 1] 16 in
  let beq := mk "Beq" [IsControl] [x 1; x 1] [] 64 in
  let c := AluBrCreator "addibeq" [Dest0EqualSecondSrc0or1 0 1] in
  lookup2 fusionMap addi beq = Ok (Some c) ∧
  create c [addi; beq] = Ok (Some (created c [addi; beq])) ∧
  fusion_execute demo_isa rf0 (fuse_dyn (created c [addi; beq]) [P 40]) = ub.
Proof. split; [|split]; vm_compute; reflexivity. Qed.

(** A shift whose result the add reads twice: the access is at the shifted value plus the
    old value of the register, not at twice the shifted value. *)
Theorem triple_uses_stale_base :
  let add := mk "Add" [] [x 1; x 1] [x 1] 0 in
  lookup3 fusionMap3 slli1 add ld1 = Ok (Some sll3addld) ∧
  create sll3addld [slli1; add; ld1] = Ok (Some (created sll3addld [slli1; add; ld1])) ∧
  arch_ea (arch_execute2 demo_isa A0 slli1 add).1.2 ld1 = 120%Z ∧
  ∃ l rf', fusion_initiateAcc demo_isa rf0 (fuse_dyn (created sll3addld [slli1; add; ld1]) [P 40]) =
      Ok (InitRead (mkReq 164 8 0) l rf').
Proof.
  split; [vm_compute; reflexivity|]. split; [vm_compute; reflexivity|].
  split; [vm_compute; reflexivity|]. do 2 eexists. vm_compute. reflexivity.
Qed.

(** The checks of the multiply-accumulate entries accept an add that reads
    the product twice, and the constructor then panics. *)
Theorem macc_self_add_panics :
  lookup2 fusionMap mul1 (mk "Add" [] [x 1; x 1] [x 5] 0) = Ok (Some muladd) ∧
  eval_checks [mul1; mk "Add" [] [x 1; x 1] [x 5] 0] [Dest0EqualSecondSrc0or1 0 1] = Ok true ∧
  create muladd [mul1; mk "Add" [] [x 1; x 1] [x 5] 0] =
    Panic "MaccFusionInst: both ADD sources equal the MUL dest".
Proof. split; [|split]; vm_compute; reflexivity. Qed.

(** A no-op before a branch on [x0] is accepted for fusion, and counting the
    destination of the no-op indexes the typed counters with [-1]. *)
Theorem nop_branch_counts_out_of_range :
  let nop := mk "C_addi" [] [RegId_default] [RegId_default] 0 in
  let beqz := mk "Beq" [IsControl] [x 1; RegId_default] [] 64 in
  lookup2 fusionMap nop beqz = Ok (Some (AluBrCreator "addibeq" [Dest0EqualSecondSrc0or1 0 1])) ∧
  create (AluBrCreator "addibeq" [Dest0EqualSecondSrc0or1 0 1]) [nop; beqz] = ub.
Proof. split; vm_compute; reflexivity. Qed.

End FusionSound.
