(* ===== verification/RenameMap.v ===== *)
(** Free lists, rename maps and the scoreboard.

    Models [src/GEM5/src/cpu/o3/free_list.hh], [rename_map.hh], [rename_map.cc],
    [scoreboard.hh] and the reference counters of [PhysRegId] in
    [src/GEM5/src/cpu/reg_class.hh].

    A [PhysRegId] is a shared object with counters; its identity is its class and
    index, and the counters live in [RegState].  The maps and free lists are
    arrays indexed by register class. *)
From S2P Require Import Prelude RegFile.

Module RenameMap.

(** ** Counters of physical registers *)

Record PhysInfo := mkInfo {
  numRef : Z;
  numPinnedWrites : Z;
  numPinnedWritesToComplete : Z
}.

Definition PhysInfo_default : PhysInfo := mkInfo 0 0 0.

Record RegState := mkRegs {
  freeLists : list (list PhysRegId);     (** one queue per class *)
  phys : gmap PhysRegId PhysInfo
}.

Definition info (rg : RegState) (p : PhysRegId) : PhysInfo := default PhysInfo_default (phys rg !! p).
Definition getRef (rg : RegState) (p : PhysRegId) : Z := numRef (info rg p).
Definition getNumPinnedWrites (rg : RegState) (p : PhysRegId) : Z := numPinnedWrites (info rg p).

Definition set_info (rg : RegState) (p : PhysRegId) (i : PhysInfo) : RegState :=
  mkRegs (freeLists rg) (<[p := i]> (phys rg)).

Definition set_ref (rg : RegState) (p : PhysRegId) (n : Z) : RegState :=
  set_info rg p (mkInfo n (numPinnedWrites (info rg p)) (numPinnedWritesToComplete (info rg p))).

Definition incRef (rg : RegState) (p : PhysRegId) : RegState := set_ref rg p (getRef rg p + 1).
Definition decRef (rg : RegState) (p : PhysRegId) : RegState :=
  set_ref rg p (if (getRef rg p =? 0)%Z then 0 else getRef rg p - 1)%Z.
Definition decrNumPinnedWrites (rg : RegState) (p : PhysRegId) : RegState :=
  set_info rg p (mkInfo (getRef rg p) (getNumPinnedWrites rg p - 1)
                   (numPinnedWritesToComplete (info rg p))).
Definition setPinned (rg : RegState) (p : PhysRegId) (n toComplete : Z) : RegState :=
  set_info rg p (mkInfo (getRef rg p) n toComplete).

(** ** Free lists *)

Definition numFreeRegs (rg : RegState) (c : RegClassType) : res Z :=
  let! l := nth_res (freeLists rg) (class_num c) in Ok (Z.of_nat (length l)).

(** [UnifiedFreeList::getReg] *)
Definition free_getReg (rg : RegState) (c : RegClassType) : res (PhysRegId * RegState) :=
  let! l := nth_res (freeLists rg) (class_num c) in
  match l with
  | [] => Panic "!freeRegs.empty()"
  | p :: rest =>
      let! ls := set_nth (freeLists rg) (class_num c) rest in
      Ok (p, incRef (mkRegs ls (phys rg)) p)
  end.

(** [UnifiedFreeList::addReg] *)
Definition addReg (rg : RegState) (p : PhysRegId) : res RegState :=
  let! l := nth_res (freeLists rg) (class_num (p_class p)) in
  let! ls := set_nth (freeLists rg) (class_num (p_class p)) (l ++ [p]) in
  Ok (mkRegs ls (phys rg)).

(** ** Rename maps *)

(** One vector of virtual registers per class. *)
Abbreviation UnifiedRenameMap := (list (list VirtRegId)).

(** [SimpleRenameMap::lookup] of the class's map.  The assertion allows an index
    one past the end. *)
Definition map_lookup (m : UnifiedRenameMap) (a : RegId) : res VirtRegId :=
  let! l := nth_res m (class_num (regClass a)) in
  do! assert_ (regIdx a <=? Z.of_nat (length l))%Z "arch_reg.index() <= map.size()" in
  nth_res l (regIdx a).

(** [SimpleRenameMap::setEntry] *)
Definition map_setEntry (m : UnifiedRenameMap) (a : RegId) (v : VirtRegId)
    : res UnifiedRenameMap :=
  let! l := nth_res m (class_num (regClass a)) in
  do! assert_ (regIdx a <=? Z.of_nat (length l))%Z "arch_reg.index() <= map.size()" in
  let! l' := set_nth l (regIdx a) v in
  set_nth m (class_num (regClass a)) l'.

(** [UnifiedRenameMap::lookup] *)
Definition lookup (m : UnifiedRenameMap) (a : RegId) : res VirtRegId :=
  match regClass a with
  | InvalidRegClass => Ok invalidReg
  | MiscRegClass => Ok (virt (mkPhys MiscRegClass (regIdx a)))
  | _ => map_lookup m a
  end.

(** [UnifiedRenameMap::setEntry] *)
Definition setEntry (m : UnifiedRenameMap) (a : RegId) (v : VirtRegId)
    : res UnifiedRenameMap :=
  let! p := get_at (PhyReg v) "null" in
  do! assert_ (bool_decide (p_class p = regClass a) ||
               bool_decide (p_class p = InvalidRegClass)) "virt_reg.PhyReg()->is" in
  if negb (isRenameable a) then
    let! cur := lookup m a in
    do! assert_ (bool_decide (v = cur)) "virt_reg == lookup(arch_reg)" in
    Ok m
  else map_setEntry m a v.

Definition RenameInfo : Type := VirtRegId * VirtRegId.

(** [SimpleRenameMap::rename]; [pins] is the pinned-write count of [arch_reg].
    The first branch of the source, for an invalid class, is not reached. *)
Definition simple_rename (rg : RegState) (m : UnifiedRenameMap) (a : RegId) (pins : Z)
    (bypass : VirtRegId) : res (RenameInfo * UnifiedRenameMap * RegState) :=
  let! l := nth_res m (class_num (regClass a)) in
  let! prev := nth_res l (regIdx a) in
  let put v := let! l' := set_nth l (regIdx a) v in set_nth m (class_num (regClass a)) l' in
  match PhyReg bypass with
  | Some b =>
      let! m' := put bypass in
      let rg' := if bool_decide (PhyReg prev = Some b) then rg else incRef rg b in
      Ok ((bypass, prev), m', rg')
  | None =>
      let! q := get_at (PhyReg prev) "null" in
      if (0 <? getNumPinnedWrites rg q)%Z then
        do! assert_ (pins =? 0)%Z "arch_reg.getNumPinnedWrites() == 0" in
        Ok ((prev, prev), m, decrNumPinnedWrites rg q)
      else
        let! r := free_getReg rg (regClass a) in
        let '(p, rg') := r in
        let! m' := put (virt p) in
        Ok ((virt p, prev), m', setPinned rg' p pins (pins + 1))
  end.

(** [UnifiedRenameMap::rename] *)
Definition rename (rg : RegState) (m : UnifiedRenameMap) (a : RegId) (pins : Z)
    (bypass : VirtRegId) : res (RenameInfo * UnifiedRenameMap * RegState) :=
  if negb (isRenameable a) then
    let! v := lookup m a in
    Ok ((v, v), m, rg)
  else simple_rename rg m a pins bypass.

(** The register classes with a rename map, in order. *)
Definition renameClasses : list RegClassType :=
  [IntRegClass; FloatRegClass; VecRegClass; VecElemClass; VecPredRegClass; CCRegClass;
   RMiscRegClass].

(** ** Scoreboard *)

(** The registers that are ready. *)
Abbreviation Scoreboard := (gset PhysRegId).

(** [PhysRegId::isFixedMapping] *)
Definition isFixedMapping (p : PhysRegId) : bool :=
  bool_decide (p_class p = MiscRegClass) || bool_decide (p_class p = InvalidRegClass).

Definition sb_getReg (s : Scoreboard) (p : PhysRegId) : bool :=
  isFixedMapping p || bool_decide (p ∈ s).
Definition sb_setReg (s : Scoreboard) (p : PhysRegId) : Scoreboard :=
  if isFixedMapping p then s else {[p]} ∪ s.
Definition sb_unsetReg (s : Scoreboard) (p : PhysRegId) : Scoreboard :=
  if isFixedMapping p then s else s ∖ {[p]}.

End RenameMap.
