(* ===== verification/Rename.v ===== *)
(** The rename stage.

    Models [src/GEM5/src/cpu/o3/rename.hh] and [rename.cc].  A history buffer is a
    list, newest entry first, as the source pushes at the front.  [flattenRegId] is
    the identity on RISC-V, and no RISC-V register has pinned writes.  Marks the
    stage puts on an instruction that the later stages read (eliminated move,
    folded constant, value prediction) are recorded as [RenameMark]s. *)
From S2P Require Import Prelude RegFile Inst Comm CircularBuffer RenameMap.
Import RenameMap.

Module Rename.

Record RenameParams := {
  renameWidth : Z;
  releaseWidth : Z;
  numThreads : nat;
  enableMoveElimination : bool;
  enableConstantFolding : bool;
  enableMovImmElimination : bool;
  valuePred : bool;
  enableSelectiveVPFlush : bool
}.

(** The value predictor's answer for an instruction: the predicted value when it
    is speculative. *)
Definition ValuePredictor := DynInst → option Z.

Inductive RenameMark :=
  | EmptyMov (seq : Z)
  | ConstantFolded (seq : Z)
  | VpUnsupported (seq : Z)
  | VpSupported (seq : Z)
  | VpWrite (seq value : Z).             (** [setRegOperand] of destination 0 *)

Record RenameHistory := mkHist {
  instSeqNum : Z;
  archReg : RegId;
  newPhysReg : VirtRegId;
  prevPhysReg : VirtRegId
}.

Definition canLVP (d : DynInst) : bool :=
  isLoad d && negb (isVector d) && negb (di_has d IsLoadReserved).

Section WithParams.

Context (p : RenameParams).

(** ** Sources *)

(** [DynInst::markSrcRegReady]: with [n] sources ready before. *)
Definition markSrcRegReady (d : DynInst) (n : Z) : DynInst :=
  if (n + 1 =? numSrcRegs (staticInst d))%Z then setCanIssue d else d.

Fixpoint rename_src_loop (m : UnifiedRenameMap) (sb : Scoreboard) (d : DynInst)
    (idxs : list Z) (ready : Z) : res DynInst :=
  match idxs with
  | [] => Ok d
  | i :: rest =>
      let! r := srcRegIdx (staticInst d) i in
      let! v := lookup m r in
      let! d' := renameSrcReg d i v in
      let! q := get_at (PhyReg v) "null" in
      if sb_getReg sb q
      then rename_src_loop m sb (markSrcRegReady d' ready) rest (ready + 1)
      else rename_src_loop m sb d' rest ready
  end.

(** [Rename::renameSrcRegs] *)
Definition renameSrcRegs (m : UnifiedRenameMap) (sb : Scoreboard) (d : DynInst)
    : res DynInst :=
  rename_src_loop m sb d (seqZ 0 (numSrcRegs (staticInst d))) 0.

(** ** Destinations *)

(** What a destination is bypassed to: the register of the source of an
    eliminated move, or that register with a pending addition.  The boolean is
    [inc_ref_of_last_dest_phy_reg]. *)
Definition bypass_reg (m : UnifiedRenameMap) (d : DynInst)
    : res (VirtRegId * bool * list RenameMark) :=
  if enableMoveElimination p && isMov d then
    let! s := srcRegIdx (staticInst d) 0 in
    let! b := lookup m s in
    Ok (b, true, [EmptyMov (seqNum d)])
  else
    let! folds :=
      if negb (isAddImm d) then Ok false
      else if enableConstantFolding p then Ok true
      else if enableMovImmElimination p then
        let! s := srcRegIdx (staticInst d) 0 in Ok (isZeroReg s)
      else Ok false in
    if folds then
      let! s := srcRegIdx (staticInst d) 0 in
      let! b := lookup m s in
      match IEOper b with
      | None =>
          let! op := IEOperand_new IE_ADD (si_imm (staticInst d)) in
          Ok (mkVirt (PhyReg b) (Some op), true, [ConstantFolded (seqNum d)])
      | Some o =>
          if bool_decide (ie_type o = IE_ADD) then
            let! op := IEOperand_new IE_ADD (ie_imm o + si_imm (staticInst d)) in
            Ok (mkVirt (PhyReg b) (Some op), true, [ConstantFolded (seqNum d)])
          else Ok (b, false, [])
      end
    else Ok (VirtRegId_null, false, []).

(** The value prediction of a renamed destination. *)
Definition predict_value (vp : ValuePredictor) (d : DynInst) (sb : Scoreboard)
    (q : PhysRegId) : Scoreboard * list RenameMark :=
  if valuePred p then
    if negb (numDestRegs (staticInst d) =? 1)%Z || negb (canLVP d)
    then (sb, [VpUnsupported (seqNum d)])
    else
      match vp d with
      | Some value =>
          (if enableSelectiveVPFlush p then sb else sb_setReg sb q,
           [VpSupported (seqNum d); VpWrite (seqNum d) value])
      | None => (sb, [VpSupported (seqNum d)])
      end
  else (sb, []).

(** What renaming one thread's destinations changes. *)
Record ThreadRename := mkTR {
  t_map : UnifiedRenameMap;
  t_hist : list RenameHistory;
  t_regs : RegState;
  t_sb : Scoreboard;
  t_marks : list RenameMark
}.

(** One destination; the body of the loop of [Rename::renameDestRegs]. *)
Definition rename_dest (vp : ValuePredictor) (t : ThreadRename) (d : DynInst) (i : Z)
    : res (ThreadRename * DynInst) :=
  let! a := destRegIdx (staticInst d) i in
  let! b := bypass_reg (t_map t) d in
  let '(bypass, inc_ref, marks) := b in
  let! r := rename (t_regs t) (t_map t) a 0 bypass in
  let '((new, prev), m', rg') := r in
  let! q := get_at (PhyReg new) "null" in
  let sb' := if inc_ref then t_sb t else sb_unsetReg (t_sb t) q in
  let! d' := renameDestReg d i new prev in
  let '(sb'', vmarks) := predict_value vp d sb' q in
  Ok (mkTR m' (mkHist (seqNum d) a new prev :: t_hist t) rg' sb''
        (t_marks t ++ marks ++ vmarks), d').

Fixpoint rename_dest_loop (vp : ValuePredictor) (t : ThreadRename) (d : DynInst)
    (idxs : list Z) : res (ThreadRename * DynInst) :=
  match idxs with
  | [] => Ok (t, d)
  | i :: rest =>
      let! r := rename_dest vp t d i in
      let '(t', d') := r in
      rename_dest_loop vp t' d' rest
  end.

(** [Rename::renameDestRegs] *)
Definition renameDestRegs (vp : ValuePredictor) (t : ThreadRename) (d : DynInst)
    : res (ThreadRename * DynInst) :=
  rename_dest_loop vp t d (seqZ 0 (numDestRegs (staticInst d))).

(** [UnifiedRenameMap::canRename] *)
Definition canRenameInst (rg : RegState) (d : DynInst) : res bool :=
  res_fold (λ ok c,
    let! free := numFreeRegs rg c in
    Ok (ok && (numTypedDestRegs (staticInst d) c <=? free)%Z)) true renameClasses.

(** ** Undoing and releasing renames *)

(** [Rename::tryFreePReg] *)
Definition tryFreePReg (rg : RegState) (q : PhysRegId) : res RegState :=
  if (getRef rg q =? 0)%Z || bool_decide (p_class q = InvalidRegClass) then Ok rg
  else
    let rg' := decRef rg q in
    if (getRef rg' q =? 0)%Z then addReg rg' q else Ok rg'.

(** [Rename::doSquash]: the newest entries first. *)
Fixpoint doSquash (squashed : Z) (m : UnifiedRenameMap) (rg : RegState)
    (h : list RenameHistory) : res (UnifiedRenameMap * RegState * list RenameHistory) :=
  match h with
  | [] => Ok (m, rg, [])
  | e :: rest =>
      if (squashed <? instSeqNum e)%Z then
        if bool_decide (newPhysReg e = prevPhysReg e) then doSquash squashed m rg rest
        else
          let! m' := setEntry m (archReg e) (prevPhysReg e) in
          if bool_decide (PhyReg (newPhysReg e) = PhyReg (prevPhysReg e))
          then doSquash squashed m' rg rest
          else
            let! q := get_at (PhyReg (newPhysReg e)) "null" in
            let! rg' := tryFreePReg rg q in
            doSquash squashed m' rg' rest
      else Ok (m, rg, h)
  end.

(** The loop of [Rename::removeFromHistory], on the entries oldest first. *)
Fixpoint release_oldest (seq : Z) (rg : RegState) (h : list RenameHistory)
    : res (RegState * list RenameHistory) :=
  match h with
  | [] => Ok (rg, [])
  | e :: rest =>
      if (instSeqNum e <=? seq)%Z then
        if bool_decide (PhyReg (newPhysReg e) = PhyReg (prevPhysReg e))
        then release_oldest seq rg rest
        else
          let! q := get_at (PhyReg (prevPhysReg e)) "null" in
          let! rg' := tryFreePReg rg q in
          release_oldest seq rg' rest
      else Ok (rg, h)
  end.

(** [Rename::removeFromHistory] *)
Definition removeFromHistory (seq : Z) (rg : RegState) (h : list RenameHistory)
    : res (RegState * list RenameHistory) :=
  let! r := release_oldest seq rg (rev h) in
  let '(rg', rest) := r in
  Ok (rg', rev rest).

(** ** The initial mapping *)

(** [PhysRegFile::initFreeList] with [n c] registers of class [c]. *)
Definition initFreeList (n : RegClassType → nat) : RegState :=
  mkRegs (map (λ c, map (λ i, mkPhys c (Z.of_nat i)) (seq 0 (n c))) renameClasses) ∅.

(** [SimpleRenameMap::init] of every class with [k c] registers of class [c]. *)
Definition map_init (k : RegClassType → nat) : UnifiedRenameMap :=
  map (λ c, replicate (k c) VirtRegId_null) renameClasses.

Definition arch_regs (k : RegClassType → nat) : list RegId :=
  concat (map (λ c, map (λ i, mkRegId c (Z.of_nat i)) (seq 0 (k c))) renameClasses).

(** The assignment of physical registers to a thread in the constructor of the
    CPU. *)
Definition init_thread (k : RegClassType → nat) (rg : RegState)
    : res (UnifiedRenameMap * RegState) :=
  res_fold (λ mr a,
    let '(m, rg) := mr in
    let! r := free_getReg rg (regClass a) in
    let '(q, rg') := r in
    let! m' := setEntry m a (virt q) in
    Ok (m', rg')) (map_init k, rg) (arch_regs k).

Fixpoint init_threads (k : RegClassType → nat) (threads : nat) (rg : RegState)
    : res (list UnifiedRenameMap * RegState) :=
  match threads with
  | O => Ok ([], rg)
  | S n =>
      let! r := init_thread k rg in
      let '(m, rg1) := r in
      let! rest := init_threads k n rg1 in
      let '(ms, rg2) := rest in
      Ok (m :: ms, rg2)
  end.

(** ** The stage *)

Inductive RenameStatus := Active | Inactive.

Record RenameState (C : Type) := mkRename {
  rs_status : RenameStatus;
  rs_maps : list UnifiedRenameMap;       (** one per thread *)
  rs_hist : list (list RenameHistory);
  rs_regs : RegState;
  rs_sb : Scoreboard;
  rs_fixed : list C;
  rs_ver : Z;
  rs_finalCommitSeq : Z;
  rs_releaseSeq : Z;
  rs_stalls : list StallReason;          (** [renameStalls] *)
  rs_blockReason : StallReason
}.
#[global] Arguments mkRename {C} _ _ _ _ _ _ _ _ _ _ _.
#[global] Arguments rs_status {C} _.
#[global] Arguments rs_maps {C} _.
#[global] Arguments rs_hist {C} _.
#[global] Arguments rs_regs {C} _.
#[global] Arguments rs_sb {C} _.
#[global] Arguments rs_fixed {C} _.
#[global] Arguments rs_ver {C} _.
#[global] Arguments rs_finalCommitSeq {C} _.
#[global] Arguments rs_releaseSeq {C} _.
#[global] Arguments rs_stalls {C} _.
#[global] Arguments rs_blockReason {C} _.

(** From commit, per thread: [squash], [squashVersion] and [doneSeqNum]. *)
Record CommitInfo := mkCommit { ci_squash : bool; ci_version : Z; ci_doneSeqNum : Z }.

(** From IEW, per thread. *)
Record IEWInfo := mkIEW {
  robHeadStallReason : StallReason;
  lqHeadStallReason : StallReason;
  sqHeadStallReason : StallReason
}.

Inductive CpuCall := ActivateStage | ActivityThisCycle.

Section Stage.

Context {C : Type} `{CircularBuffer C DynInst} (vp : ValuePredictor).
Abbreviation State := (RenameState C).

(** The constructor of the stage, with the register state the CPU sets up for
    [threads] threads. *)
Definition Rename_new (k n : RegClassType → nat) (threads : nat) : res State :=
  do! panic_if (32 <? renameWidth p)%Z "renameWidth" in
  let! r := init_threads k threads (initFreeList n) in
  let '(maps, rg) := r in
  let w := Z.to_nat (renameWidth p) in
  Ok (mkRename Inactive maps (replicate threads []) rg
        (list_to_set (concat (freeLists (initFreeList n))))
        (replicate MaxThreads (cb_new w)) 0 0 0 (replicate w NoStall) NoStall).

Definition with_fixed (s : State) (fixed : list C) : State :=
  mkRename (rs_status s) (rs_maps s) (rs_hist s) (rs_regs s) (rs_sb s) fixed (rs_ver s)
    (rs_finalCommitSeq s) (rs_releaseSeq s) (rs_stalls s) (rs_blockReason s).

Definition with_thread (s : State) (maps : list UnifiedRenameMap)
    (hist : list (list RenameHistory)) (rg : RegState) (sb : Scoreboard) : State :=
  mkRename (rs_status s) maps hist rg sb (rs_fixed s) (rs_ver s)
    (rs_finalCommitSeq s) (rs_releaseSeq s) (rs_stalls s) (rs_blockReason s).

Definition with_stalls (s : State) (stalls : list StallReason) (r : StallReason) : State :=
  mkRename (rs_status s) (rs_maps s) (rs_hist s) (rs_regs s) (rs_sb s) (rs_fixed s)
    (rs_ver s) (rs_finalCommitSeq s) (rs_releaseSeq s) stalls r.

Definition with_commit (s : State) (final release : Z) : State :=
  mkRename (rs_status s) (rs_maps s) (rs_hist s) (rs_regs s) (rs_sb s) (rs_fixed s)
    (rs_ver s) final release (rs_stalls s) (rs_blockReason s).

Definition setAllStalls (s : State) (r : StallReason) : State :=
  with_stalls s (map (λ _, r) (rs_stalls s)) (rs_blockReason s).

Definition isDrained (s : State) : bool :=
  forallb (λ i, match rs_hist s !! i, rs_fixed s !! i with
                | Some h, Some fb => bool_decide (h = []) && cb_empty fb
                | _, _ => false
                end) (seq 0 (numThreads p)).

(** [Rename::moveInstsToBuffer] *)
Definition moveInstsToBuffer (s : State) (insts : list DynInst) : res State :=
  match insts with
  | [] => Ok s
  | first :: _ =>
      let tid := threadNumber first in
      let! fb := nth_res (rs_fixed s) tid in
      let! fb' := res_fold (λ fb inst,
        do! assert_ (threadNumber inst =? tid)%Z "inst->threadNumber == tid" in
        let! old := largerThan (rs_ver s) (version inst) in
        if old then Ok fb
        else
          do! assert_ (negb (cb_full fb)) "!fixedbuffer[tid].full()" in
          Ok (cb_push_back fb inst)) fb insts in
      let! fixed := set_nth (rs_fixed s) tid fb' in
      Ok (with_fixed s fixed)
  end.

(** [Rename::squash] *)
Definition squash (s : State) (seq tid : Z) : res State :=
  let! fb := nth_res (rs_fixed s) tid in
  let! fixed := set_nth (rs_fixed s) tid (cb_clear fb) in
  let s := with_fixed s fixed in
  let! m := nth_res (rs_maps s) tid in
  let! h := nth_res (rs_hist s) tid in
  let! r := doSquash seq m (rs_regs s) h in
  let '(m', rg', h') := r in
  let! maps := set_nth (rs_maps s) tid m' in
  let! hist := set_nth (rs_hist s) tid h' in
  Ok (with_thread s maps hist rg' (rs_sb s)).

(** [Rename::checkSquash] *)
Definition checkSquash (s : State) (commit : list CommitInfo) : res State :=
  res_fold (λ s i,
    let! c := nth_res commit (Z.of_nat i) in
    if ci_squash c then
      let! s := squash s (ci_doneSeqNum c) (Z.of_nat i) in
      Ok (mkRename (rs_status s) (rs_maps s) (rs_hist s) (rs_regs s) (rs_sb s) (rs_fixed s)
            (ci_version c) (rs_finalCommitSeq s) (rs_releaseSeq s) (rs_stalls s)
            (rs_blockReason s))
    else Ok s) s (seq 0 (numThreads p)).

(** [Rename::releasePhysRegs]; the sequence numbers are unsigned. *)
Definition release_thread (commit : list CommitInfo) (s : State) (tid : Z) : res State :=
  let! h := nth_res (rs_hist s) tid in
  let! r := removeFromHistory (rs_releaseSeq s) (rs_regs s) h in
  let '(rg', h') := r in
  let! hist := set_nth (rs_hist s) tid h' in
  let s := with_thread s (rs_maps s) hist rg' (rs_sb s) in
  let! c := nth_res commit tid in
  if negb (ci_doneSeqNum c =? 0)%Z && negb (ci_squash c) then
    let! h0 := nth_res (rs_hist s) 0 in
    let! ht := nth_res (rs_hist s) tid in
    let! release :=
      if bool_decide (h0 = []) then Ok 0%Z
      else match last ht with Some e => Ok (instSeqNum e) | None => ub end in
    Ok (with_commit s (ci_doneSeqNum c) release)
  else Ok s.

Definition releasePhysRegs (s : State) (commit : list CommitInfo) (active : list Z)
    : res State :=
  let next := u64 (rs_releaseSeq s + releaseWidth p) in
  let s := with_commit s (rs_finalCommitSeq s)
    (if (next <? rs_finalCommitSeq s)%Z then next else rs_finalCommitSeq s) in
  res_fold (release_thread commit) s active.

(** The registers of class [c] a group needs. *)
Definition demand (insts : list DynInst) (c : RegClassType) : Z :=
  sumZ (λ d, if squashed d then 0%Z else numTypedDestRegs (staticInst d) c) insts.

(** [Rename::canRename] *)
Definition canRename (s : State) (tid : Z) : res bool :=
  let! fb := nth_res (rs_fixed s) tid in
  res_fold (λ ok c,
    let need := demand (cb_elems fb) c in
    let need :=
      match c with
      | IntRegClass | FloatRegClass | VecRegClass | RMiscRegClass => Z.max need (renameWidth p)
      | _ => need
      end in
    let! free := numFreeRegs (rs_regs s) c in
    Ok (ok && (need <=? free)%Z)) true renameClasses.

Definition checkRenameStallFromIEW (iew : list IEWInfo) (tid : Z) : res StallReason :=
  let! i := nth_res iew tid in
  Ok (if negb (bool_decide (robHeadStallReason i = NoStall)) then robHeadStallReason i
      else if negb (bool_decide (lqHeadStallReason i = NoStall)) then lqHeadStallReason i
      else sqHeadStallReason i).

(** The loop of [Rename::renameInsts] on the buffered instructions: the thread's
    new state, the instructions for IEW and the stall reasons.  The instructions
    of a thread's buffer are of that thread ([moveInstsToBuffer] asserts it). *)
Fixpoint rename_loop (t : ThreadRename) (insts : list DynInst)
    : res (ThreadRename * list DynInst * list StallReason) :=
  match insts with
  | [] => Ok (t, [], [])
  | inst :: rest =>
      if squashed inst then
        let! r := rename_loop t rest in
        let '(t', out, stalls) := r in
        Ok (t', out, InstSquashed :: stalls)
      else
        let! can := canRenameInst (t_regs t) inst in
        do! assert_ can "renameMap[tid]->canRename(inst)" in
        let! inst1 := renameSrcRegs (t_map t) (t_sb t) inst in
        let! r := renameDestRegs vp t inst1 in
        let '(t1, inst2) := r in
        let! r := rename_loop t1 rest in
        let '(t', out, stalls) := r in
        Ok (t', inst2 :: out, stalls)
  end.

Record Outputs := mkOut {
  o_toIEW : list DynInst;
  o_marks : list RenameMark;
  o_sig : StallSignals;
  o_renameInfo : list StallReason;       (** [renameInfo[i].blockReason] *)
  o_calls : list CpuCall
}.

(** [Rename::renameInsts]: the loop takes every instruction of the buffer, so
    nothing is left to block for. *)
Definition renameInsts (s : State) (tid : Z) (out : Outputs) : res (State * Outputs) :=
  let! fb := nth_res (rs_fixed s) tid in
  let! m := nth_res (rs_maps s) tid in
  let! h := nth_res (rs_hist s) tid in
  let! r := rename_loop (mkTR m h (rs_regs s) (rs_sb s) []) (cb_elems fb) in
  let '(t, insts, stalls) := r in
  let! maps := set_nth (rs_maps s) tid (t_map t) in
  let! hist := set_nth (rs_hist s) tid (t_hist t) in
  let! fixed := set_nth (rs_fixed s) tid (Nat.iter (length (cb_elems fb)) cb_pop_front fb) in
  let s := with_fixed (with_thread s maps hist (t_regs t) (t_sb t)) fixed in
  let s := match stalls with r :: _ => setAllStalls s r | [] => s end in
  Ok (s, mkOut (o_toIEW out ++ insts) (o_marks out ++ t_marks t) (o_sig out)
           (o_renameInfo out) (o_calls out)).

Definition updateActivate (s : State) : State * list CpuCall :=
  match rs_status s with
  | Inactive =>
      (mkRename Active (rs_maps s) (rs_hist s) (rs_regs s) (rs_sb s) (rs_fixed s) (rs_ver s)
         (rs_finalCommitSeq s) (rs_releaseSeq s) (rs_stalls s) (rs_blockReason s),
       [ActivateStage])
  | Active => (s, [])
  end.

Definition set_blockDecode (sg : StallSignals) (tid : Z) (b : bool) : res StallSignals :=
  let! l := set_nth (blockDecode sg) tid b in
  Ok (mkStall (blockFetch sg) l (blockRename sg) (blockIEW sg) (fetchBlockReason sg)
        (decodeBlockReason sg) (renameBlockReason sg) (iewBlockReason sg)).

Definition set_decodeBlockReason (sg : StallSignals) (tid : Z) (r : StallReason)
    : res StallSignals :=
  let! l := set_nth (decodeBlockReason sg) tid r in
  Ok (mkStall (blockFetch sg) (blockDecode sg) (blockRename sg) (blockIEW sg)
        (fetchBlockReason sg) l (renameBlockReason sg) (iewBlockReason sg)).

(** The choice of the thread to rename. *)
Record Pick := mkPick {
  pk_tid : option Z;
  pk_blocked : option Z;
  pk_sig : StallSignals;
  pk_info : list StallReason
}.

Definition pick_thread (s : State) (iew : list IEWInfo) (pk : Pick) (i : nat) : res Pick :=
  let i := Z.of_nat i in
  let sg := pk_sig pk in
  let! can := canRename s i in
  let! br := nth_res (blockRename sg) i in
  let! fb := nth_res (rs_fixed s) i in
  let block := br || negb can in
  let active := negb block && negb (cb_empty fb) in
  let! reason :=
    if br then nth_res (renameBlockReason sg) i
    else if negb can then
      let! r := checkRenameStallFromIEW iew i in
      Ok (if bool_decide (r = NoStall) then RegFull else r)
    else Ok NoStall in
  let bd := block && negb (cb_empty fb) in
  let! sg := set_blockDecode sg i bd in
  let r := if bd then reason else NoStall in
  let! sg := set_decodeBlockReason sg i r in
  let! info := set_nth (pk_info pk) i r in
  if active then
    match pk_tid pk with
    | None => Ok (mkPick (Some i) (pk_blocked pk) sg info)
    | Some t =>
        let! sg := set_blockDecode sg t true in
        let! sg := set_blockDecode sg i true in
        Ok (mkPick (pk_tid pk) (pk_blocked pk) sg info)
    end
  else if bd && bool_decide (pk_blocked pk = None) then
    Ok (mkPick (pk_tid pk) (Some i) sg info)
  else Ok (mkPick (pk_tid pk) (pk_blocked pk) sg info).

Record TickIn := {
  in_insts : list DynInst;               (** from decode *)
  in_decodeStalls : list StallReason;
  in_commit : list CommitInfo;
  in_iew : list IEWInfo;
  in_active : list Z;
  in_sig : StallSignals
}.

Fixpoint merge_stalls (i n : Z) (stalls decodeStalls : list StallReason)
    : res (list StallReason) :=
  match stalls with
  | [] => Ok []
  | _ :: rest =>
      let! r := if (i <? n)%Z then Ok NoStall
                else get_at (decodeStalls !! Z.to_nat i) "out_of_range" in
      let! rs := merge_stalls (i + 1) n rest decodeStalls in
      Ok (r :: rs)
  end.

(** The part of [tick] after [renameInsts]. *)
Definition finish_tick (s : State) (tid : Z) (ti : TickIn) (out : Outputs)
    : res (State * Outputs) :=
  let n := Z.of_nat (length (o_toIEW out)) in
  let! blocked := nth_res (blockRename (o_sig out)) tid in
  let! s :=
    if blocked then
      let! r := nth_res (renameBlockReason (o_sig out)) tid in Ok (setAllStalls s r)
    else if (0 <? n)%Z then
      let! r0 := nth_res (rs_stalls s) 0 in
      if bool_decide (r0 = NoStall) then
        let! l := merge_stalls 0 n (rs_stalls s) (in_decodeStalls ti) in
        Ok (with_stalls s l (rs_blockReason s))
      else Ok s
    else Ok s in
  let! bd := nth_res (blockDecode (o_sig out)) tid in
  let r := if bd then rs_blockReason s else NoStall in
  let! sg := set_decodeBlockReason (o_sig out) tid r in
  let! info := set_nth (o_renameInfo out) tid r in
  let '(s, calls) := updateActivate s in
  let activity := if (0 <? n)%Z || (rs_releaseSeq s <? rs_finalCommitSeq s)%Z
                  then [ActivityThisCycle] else [] in
  Ok (s, mkOut (o_toIEW out) (o_marks out) sg info (o_calls out ++ calls ++ activity)).

(** [Rename::tick]; the stall reasons for IEW are [rs_stalls] of the result. *)
Definition tick (s : State) (ti : TickIn) : res (State * Outputs) :=
  let s := with_stalls s (map (λ _, NoStall) (rs_stalls s)) NoStall in
  let! s := moveInstsToBuffer s (in_insts ti) in
  let! s := checkSquash s (in_commit ti) in
  let! s := releasePhysRegs s (in_commit ti) (in_active ti) in
  let! pk := res_fold (pick_thread s (in_iew ti))
    (mkPick None None (in_sig ti) (replicate MaxThreads NoStall)) (seq 0 (numThreads p)) in
  match pk_tid pk with
  | None =>
      let! s :=
        match pk_blocked pk with
        | None => Ok s
        | Some b =>
            let! r := nth_res (decodeBlockReason (pk_sig pk)) b in
            Ok (with_stalls s (map (λ _, r) (rs_stalls s)) r)
        end in
      let '(s, calls) := updateActivate s in
      Ok (s, mkOut [] [] (pk_sig pk) (pk_info pk) calls)
  | Some tid =>
      let! r := renameInsts s tid (mkOut [] [] (pk_sig pk) (pk_info pk) []) in
      let '(s, out) := r in
      finish_tick s tid ti out
  end.

End Stage.
End WithParams.
End Rename.
