(* ===== verification/RenameRefs.v ===== *)
(** Reference counts, free lists and rename maps.

    The accounting behind renaming: the reference count of a physical register is
    the number of places that name it, and the free lists hold exactly the
    registers nothing names. *)
From S2P Require Import Prelude RegFile Inst CircularBuffer RenameMap Rename.
Import RenameMap Rename.

Module RenameRefs.

(** ** Maps as functions of the architectural register *)

Definition map_at (m : UnifiedRenameMap) (a : RegId) : res VirtRegId :=
  let! l := nth_res m (class_num (regClass a)) in nth_res l (regIdx a).

Definition map_put (m : UnifiedRenameMap) (a : RegId) (v : VirtRegId)
    : res UnifiedRenameMap :=
  let! l := nth_res m (class_num (regClass a)) in
  let! l' := set_nth l (regIdx a) v in
  set_nth m (class_num (regClass a)) l'.

Lemma class_num_inj c d : class_num c = class_num d → c = d.
Proof. by destruct c, d. Qed.

Lemma set_nth_inv {A} (l : list A) i a l' :
  set_nth l i a = Ok l' →
  (0 ≤ i)%Z ∧ Z.to_nat i < length l ∧ l' = <[Z.to_nat i := a]> l.
Proof.
  unfold set_nth. destruct (_ && _) eqn:E; [|done]. intros [= <-].
  apply andb_true_iff in E as [?%Z.leb_le ?%Z.ltb_lt]. split; [done|]. split; [lia|done].
Qed.

Lemma set_nth_total {A} (l : list A) i a b :
  nth_res l i = Ok b → set_nth l i a = Ok (<[Z.to_nat i := a]> l).
Proof.
  intros [Hi Hl]%nth_res_Ok. apply lookup_lt_Some in Hl. unfold set_nth.
  by rewrite (proj2 (Z.leb_le 0 i)), (proj2 (Z.ltb_lt i _)) by lia.
Qed.

Lemma map_at_inv m a v :
  map_at m a = Ok v →
  ∃ l, (0 ≤ class_num (regClass a))%Z ∧ m !! Z.to_nat (class_num (regClass a)) = Some l ∧
    (0 ≤ regIdx a)%Z ∧ l !! Z.to_nat (regIdx a) = Some v.
Proof.
  unfold map_at. intros H. apply res_bind_Ok in H as (l & [Hc Hl]%nth_res_Ok & [Hi Hv]%nth_res_Ok).
  by exists l.
Qed.

Lemma map_put_inv m a v m' :
  map_put m a v = Ok m' →
  ∃ l, (0 ≤ class_num (regClass a))%Z ∧ m !! Z.to_nat (class_num (regClass a)) = Some l ∧
    (0 ≤ regIdx a)%Z ∧ Z.to_nat (regIdx a) < length l ∧
    m' = <[Z.to_nat (class_num (regClass a)) := <[Z.to_nat (regIdx a) := v]> l]> m.
Proof.
  unfold map_put. intros H. apply res_bind_Ok in H as (l & [Hc Hl]%nth_res_Ok & H).
  apply res_bind_Ok in H as (l' & (Hi & Hlt & ->)%set_nth_inv & (_ & _ & ->)%set_nth_inv).
  by exists l.
Qed.

Lemma map_put_total m a v old : map_at m a = Ok old → ∃ m', map_put m a v = Ok m'.
Proof.
  unfold map_at, map_put. intros H. apply res_bind_Ok in H as (l & Hl & Hv).
  rewrite Hl. cbn [res_bind]. rewrite (set_nth_total l _ _ _ Hv). cbn [res_bind].
  rewrite (set_nth_total m _ _ _ Hl). by eexists.
Qed.

Lemma map_put_at m a v m' : map_put m a v = Ok m' → map_at m' a = Ok v.
Proof.
  intros (l & Hc & Hl & Hi & Hlt & ->)%map_put_inv. unfold map_at.
  apply lookup_lt_Some in Hl as Hlm.
  rewrite (proj2 (nth_res_Ok _ _ (<[Z.to_nat (regIdx a):=v]> l)))
    by (by rewrite list_lookup_insert_eq).
  cbn [res_bind]. apply nth_res_Ok. by rewrite list_lookup_insert_eq.
Qed.

Lemma map_put_at_ne m a b v m' : map_put m a v = Ok m' → a ≠ b → map_at m' b = map_at m b.
Proof.
  intros (l & Hc & Hl & Hi & Hlt & ->)%map_put_inv Hne. unfold map_at, nth_res at 1 3.
  destruct (Z.ltb_spec (class_num (regClass b)) 0) as [|Hb]; [done|].
  destruct (decide (regClass a = regClass b)) as [E|E].
  - rewrite <- E, list_lookup_insert_eq, Hl by by eapply lookup_lt_Some.
    cbn [res_bind]. unfold nth_res. destruct (Z.ltb_spec (regIdx b) 0); [done|].
    rewrite list_lookup_insert_ne; [done|]. intros E2. apply Hne.
    destruct a, b. simpl in *. f_equal; [done|lia].
  - rewrite list_lookup_insert_ne; [done|]. intros E2. apply E, class_num_inj. lia.
Qed.

(** Putting the old entry back restores the map. *)
Lemma map_put_back m a v m' old :
  map_put m a v = Ok m' → map_at m a = Ok old → map_put m' a old = Ok m.
Proof.
  intros Hp Ha. destruct (map_put_total m' a old v) as [m2 Hm2]; [by eapply map_put_at|].
  rewrite Hm2. f_equal. apply map_put_inv in Hp as (l & _ & Hl & _ & Hlt & ->).
  apply map_put_inv in Hm2 as (l2 & _ & Hl2 & _ & _ & ->).
  apply map_at_inv in Ha as (l3 & _ & Hl3 & _ & Hv). rewrite Hl in Hl3. injection Hl3 as <-.
  apply lookup_lt_Some in Hl as Hlm. rewrite list_lookup_insert_eq in Hl2 by done.
  injection Hl2 as <-. rewrite !list_insert_insert_eq.
  rewrite (list_insert_id l _ old Hv). by apply list_insert_id.
Qed.

(** The accessors of the source agree with these. *)
Lemma map_lookup_at m a v : map_lookup m a = Ok v ↔ map_at m a = Ok v.
Proof.
  unfold map_lookup, map_at. split; intros H; apply res_bind_Ok in H as (l & Hl & H);
    rewrite Hl; cbn [res_bind].
  - by apply res_bind_Ok in H as ([] & _ & H).
  - apply nth_res_Ok in H as Hv. destruct Hv as [Hi Hv%lookup_lt_Some].
    by rewrite (proj2 (Z.leb_le _ _)) by lia.
Qed.

Lemma map_setEntry_put m a v m' : map_put m a v = Ok m' → map_setEntry m a v = Ok m'.
Proof.
  intros Hp. pose proof Hp as (l & _ & Hl & Hi & Hlt & _)%map_put_inv.
  unfold map_put in Hp. unfold map_setEntry.
  apply res_bind_Ok in Hp as (l' & Hl' & Hp). rewrite Hl'. cbn [res_bind].
  apply nth_res_Ok in Hl' as [_ Hl']. rewrite Hl in Hl'. injection Hl' as <-.
  by rewrite (proj2 (Z.leb_le _ _)) by lia.
Qed.

Lemma lookup_renameable m a : isRenameable a = true → lookup m a = map_lookup m a.
Proof. unfold lookup, isRenameable. by destruct (regClass a). Qed.

(** ** Counting references *)

Definition ind (q : PhysRegId) (v : VirtRegId) : Z :=
  if bool_decide (PhyReg v = Some q) then 1 else 0.

Definition map_cnt (q : PhysRegId) (m : UnifiedRenameMap) : Z := sumZ (sumZ (ind q)) m.

(** A history entry names the register it will free. *)
Definition hist_ind (q : PhysRegId) (e : RenameHistory) : Z :=
  if bool_decide (PhyReg (newPhysReg e) = PhyReg (prevPhysReg e)) then 0
  else ind q (prevPhysReg e).

Definition hist_cnt (q : PhysRegId) (h : list RenameHistory) : Z := sumZ (hist_ind q) h.

Lemma ind_range q v : (0 ≤ ind q v ≤ 1)%Z.
Proof. unfold ind. case_bool_decide; lia. Qed.

Lemma hist_ind_nonneg q e : (0 ≤ hist_ind q e)%Z.
Proof. unfold hist_ind. case_bool_decide; [lia|apply ind_range]. Qed.

Lemma map_cnt_nonneg q m : (0 ≤ map_cnt q m)%Z.
Proof. apply sumZ_nonneg. intros l. apply sumZ_nonneg. intros v. apply ind_range. Qed.

Lemma hist_cnt_nonneg q h : (0 ≤ hist_cnt q h)%Z.
Proof. apply sumZ_nonneg. apply hist_ind_nonneg. Qed.

Lemma map_cnt_put q m a v m' old :
  map_put m a v = Ok m' → map_at m a = Ok old →
  map_cnt q m' = (map_cnt q m - ind q old + ind q v)%Z.
Proof.
  intros (l & _ & Hl & _ & _ & ->)%map_put_inv (l' & _ & Hl' & _ & Hv)%map_at_inv.
  rewrite Hl in Hl'. injection Hl' as <-. unfold map_cnt.
  rewrite (sumZ_insert _ _ _ _ _ Hl), (sumZ_insert _ _ _ _ _ Hv). lia.
Qed.

Lemma map_cnt_at q m a v :
  map_at m a = Ok v → PhyReg v = Some q → (1 ≤ map_cnt q m)%Z.
Proof.
  intros (l & _ & Hl & _ & Hv)%map_at_inv Hq. unfold map_cnt.
  assert (1 ≤ sumZ (ind q) l)%Z.
  { transitivity (ind q v); [unfold ind; by rewrite bool_decide_true|].
    apply sumZ_elem; [intros ?; apply ind_range|]. by eapply list_elem_of_lookup_2. }
  transitivity (sumZ (ind q) l); [done|].
  apply sumZ_elem; [|by eapply list_elem_of_lookup_2].
  intros k. apply sumZ_nonneg. intros ?. apply ind_range.
Qed.

(** ** Free lists *)

Definition free_of (rg : RegState) (c : RegClassType) : list PhysRegId :=
  default [] (freeLists rg !! Z.to_nat (class_num c)).

(** [U] are the registers of the file. *)
Record regs_ok (U : gset PhysRegId) (rg : RegState) : Prop := {
  ro_len : length (freeLists rg) = length renameClasses;
  ro_fixed q : q ∈ U → isFixedMapping q = false;
  ro_free c q : c ∈ renameClasses → q ∈ free_of rg c ↔ q ∈ U ∧ p_class q = c ∧ getRef rg q = 0%Z;
  ro_nodup c : c ∈ renameClasses → NoDup (free_of rg c);
  ro_pins q : getNumPinnedWrites rg q = 0%Z
}.

Lemma renameClasses_fixed c : c ∈ renameClasses ↔ c ≠ MiscRegClass ∧ c ≠ InvalidRegClass.
Proof.
  split.
  - intros H. split; intros ->; revert H; by apply (bool_decide_unpack (_ ∉ _)).
  - intros [? ?]. destruct c; try done; by apply (bool_decide_unpack (_ ∈ _)).
Qed.

Lemma fixed_class q : isFixedMapping q = false ↔ p_class q ∈ renameClasses.
Proof.
  rewrite renameClasses_fixed. unfold isFixedMapping. rewrite orb_false_iff.
  by rewrite !bool_decide_eq_false.
Qed.

Lemma renameable_class a : isRenameable a = true ↔ regClass a ∈ renameClasses.
Proof.
  rewrite renameClasses_fixed. unfold isRenameable.
  rewrite andb_true_iff, !negb_true_iff, !bool_decide_eq_false. done.
Qed.

Lemma renameClasses_num c : c ∈ renameClasses → (0 ≤ class_num c)%Z ∧ Z.to_nat (class_num c) < 7.
Proof. intros [? ?]%renameClasses_fixed. destruct c; simpl; try done; lia. Qed.

Lemma free_nth U rg c :
  regs_ok U rg → c ∈ renameClasses → nth_res (freeLists rg) (class_num c) = Ok (free_of rg c).
Proof.
  intros Hok Hc. apply renameClasses_num in Hc as [? ?]. apply nth_res_Ok. split; [done|].
  unfold free_of. destruct (lookup_lt_is_Some_2 (freeLists rg) (Z.to_nat (class_num c)))
    as [l Hl]; [rewrite (ro_len _ _ Hok); simpl; lia|]. by rewrite Hl.
Qed.

Lemma getRef_set rg q n q' :
  getRef (set_ref rg q n) q' = if bool_decide (q' = q) then n else getRef rg q'.
Proof.
  unfold getRef, set_ref, set_info, info. simpl. case_bool_decide as E.
  - subst. by rewrite lookup_insert_eq.
  - by rewrite lookup_insert_ne by congruence.
Qed.

Lemma pins_set rg q n q' : getNumPinnedWrites (set_ref rg q n) q' = getNumPinnedWrites rg q'.
Proof.
  unfold getNumPinnedWrites, set_ref, set_info, info. simpl. destruct (decide (q' = q)) as [->|].
  - by rewrite lookup_insert_eq.
  - by rewrite lookup_insert_ne by congruence.
Qed.

(** The free list of one class replaced. *)
Lemma free_of_insert rg c l ph d :
  c ∈ renameClasses → d ∈ renameClasses → length (freeLists rg) = length renameClasses →
  free_of (mkRegs (<[Z.to_nat (class_num c) := l]> (freeLists rg)) ph) d =
  if bool_decide (d = c) then l else free_of rg d.
Proof.
  intros Hc Hd Hl. pose proof (renameClasses_num _ Hc) as [Hc0 Hc7].
  pose proof (renameClasses_num _ Hd) as [Hd0 Hd7].
  unfold free_of. simpl. case_bool_decide as E.
  - subst d. by rewrite list_lookup_insert_eq by (rewrite Hl; simpl; lia).
  - rewrite list_lookup_insert_ne; [done|]. intros E2. apply E, class_num_inj. lia.
Qed.

(** A count that stays positive changes nothing else. *)
Lemma set_ref_ok U rg q n :
  regs_ok U rg → (q ∈ U → getRef rg q ≠ 0%Z ∧ n ≠ 0%Z) → regs_ok U (set_ref rg q n).
Proof.
  intros [H1 H2 H3 H4 H5] Hq. split; try done.
  - intros c q' Hc. rewrite getRef_set. change (free_of (set_ref rg q n) c) with (free_of rg c).
    rewrite H3 by done. case_bool_decide as E; [subst q'|done].
    split; intros (HU & Hcl & Hz); destruct (Hq HU); done.
  - intros q'. by rewrite pins_set.
Qed.

(** *** Allocation *)
Lemma free_getReg_spec U rg c q rest :
  regs_ok U rg → c ∈ renameClasses → free_of rg c = q :: rest →
  ∃ rg', free_getReg rg c = Ok (q, rg') ∧ regs_ok U rg' ∧
    q ∈ U ∧ p_class q = c ∧ getRef rg q = 0%Z ∧
    (∀ q', getRef rg' q' = getRef rg q' + if bool_decide (q' = q) then 1 else 0)%Z ∧
    free_of rg' c = rest ∧
    (∀ d, d ∈ renameClasses → d ≠ c → free_of rg' d = free_of rg d).
Proof.
  intros Hok Hc Hf. pose proof Hok as [H1 H2 H3 H4 H5].
  assert (q ∈ U ∧ p_class q = c ∧ getRef rg q = 0%Z) as (HU & Hcl & Hz)
    by (apply H3; [done|]; rewrite Hf; apply list_elem_of_here).
  assert (nth_res (freeLists rg) (class_num c) = Ok (q :: rest)) as Hn
    by (rewrite (free_nth U), Hf; done).
  unfold free_getReg. rewrite Hn. cbn [res_bind].
  rewrite (set_nth_total _ _ rest _ Hn). cbn [res_bind].
  eexists. split; [done|].
  assert (∀ q', getRef (incRef (mkRegs (<[Z.to_nat (class_num c):=rest]> (freeLists rg)) (phys rg)) q) q'
    = (getRef rg q' + if bool_decide (q' = q) then 1 else 0))%Z as Href.
  { intros q'. unfold incRef. rewrite getRef_set.
    change (getRef (mkRegs _ (phys rg))) with (getRef rg). case_bool_decide; [by subst|lia]. }
  assert (∀ d, d ∈ renameClasses →
    free_of (incRef (mkRegs (<[Z.to_nat (class_num c):=rest]> (freeLists rg)) (phys rg)) q) d
    = if bool_decide (d = c) then rest else free_of rg d) as Hfo
    by (intros d Hd; by apply (free_of_insert rg)).
  pose proof (H4 c Hc) as Hnd. rewrite Hf in Hnd. apply NoDup_cons in Hnd as [Hnin Hnd].
  split; [|split; [done|split; [done|split; [done|split; [done|split]]]]].
  - split; try done.
    + simpl. by rewrite length_insert.
    + intros d q' Hd. rewrite Href, Hfo by done. case_bool_decide as E; [subst d|].
      * pose proof (H3 c q' Hc) as Hq'. rewrite Hf, elem_of_cons in Hq'.
        case_bool_decide as E2; [subst q'|].
        { split; [done|]. intros (_ & _ & ?). lia. }
        rewrite Z.add_0_r, <- Hq'. split; [by right|by intros [?|?]].
      * rewrite (H3 d q') by done. case_bool_decide as E2; [subst q'|by rewrite Z.add_0_r].
        split; intros (_ & ? & _); congruence.
    + intros d Hd. rewrite Hfo by done. case_bool_decide; [done|by apply H4].
    + intros q'. etrans; [|apply (H5 q')]. apply (pins_set (mkRegs _ (phys rg)) q).
  - rewrite Hfo by done. by rewrite bool_decide_true.
  - intros d Hd Hne. rewrite Hfo by done. by rewrite bool_decide_false.
Qed.

(** *** Release *)
Lemma tryFree_spec U rg q :
  regs_ok U rg → p_class q = InvalidRegClass ∨ q ∈ U ∧ (1 ≤ getRef rg q)%Z →
  ∃ rg', tryFreePReg rg q = Ok rg' ∧ regs_ok U rg' ∧
    (∀ q', isFixedMapping q' = false →
       getRef rg' q' = getRef rg q' - if bool_decide (q' = q) then 1 else 0)%Z ∧
    (∀ d, d ∈ renameClasses → length (free_of rg d) ≤ length (free_of rg' d)).
Proof.
  intros Hok [Hinv|[HU Hge]]; unfold tryFreePReg.
  { rewrite (bool_decide_true (p_class q = InvalidRegClass)), orb_true_r by done.
    exists rg. split; [done|]. split; [done|]. split; [|done]. intros q' Hq'.
    rewrite bool_decide_false; [lia|]. intros ->. apply fixed_class, renameClasses_fixed in Hq'.
    by destruct Hq'. }
  pose proof Hok as [H1 H2 H3 H4 H5]. pose proof (H2 q HU) as Hfx. apply fixed_class in Hfx as Hcl.
  apply renameClasses_fixed in Hcl as [_ Hcl].
  rewrite (proj2 (Z.eqb_neq _ _)) by lia. rewrite bool_decide_false by done. cbn [orb].
  assert (∀ q', getRef (decRef rg q) q' = (getRef rg q' - if bool_decide (q' = q) then 1 else 0))%Z
    as Href.
  { intros q'. unfold decRef. rewrite getRef_set, (proj2 (Z.eqb_neq (getRef rg q) 0)) by lia.
    case_bool_decide; [by subst|lia]. }
  rewrite Href, bool_decide_true by done. destruct (Z.eqb_spec (getRef rg q - 1) 0) as [Hz|Hnz].
  2: { exists (decRef rg q). split; [done|]. split; [|split; [by intros q' _|done]].
       apply set_ref_ok; [done|]. intros _. rewrite (proj2 (Z.eqb_neq _ _)); lia. }
  apply fixed_class in Hfx. unfold addReg.
  assert (nth_res (freeLists rg) (class_num (p_class q)) = Ok (free_of rg (p_class q))) as Hn
    by by apply (free_nth U).
  change (freeLists (decRef rg q)) with (freeLists rg). rewrite Hn. cbn [res_bind].
  rewrite (set_nth_total _ _ _ _ Hn). cbn [res_bind]. eexists. split; [done|].
  assert (∀ d, d ∈ renameClasses →
    free_of (mkRegs (<[Z.to_nat (class_num (p_class q)) := free_of rg (p_class q) ++ [q]]>
                       (freeLists rg)) (phys (decRef rg q))) d =
    if bool_decide (d = p_class q) then free_of rg d ++ [q] else free_of rg d) as Hfo.
  { intros d Hd. rewrite free_of_insert by done. case_bool_decide; [by subst|done]. }
  assert (q ∉ free_of rg (p_class q)) as Hnin
    by (rewrite (H3 _ _ Hfx); intros (_ & _ & ?); lia).
  split; [|split; [by intros q' _; rewrite <- Href|]].
  - split; try done.
    + simpl. by rewrite length_insert.
    + intros d q' Hd. change (getRef (mkRegs _ (phys (decRef rg q))) q')
        with (getRef (decRef rg q) q'). rewrite Href, Hfo by done.
      case_bool_decide as E; case_bool_decide as E2; subst;
        rewrite ?elem_of_app, ?list_elem_of_singleton, ?(H3 _ _ Hd), ?Z.sub_0_r;
        [naive_solver lia|naive_solver|naive_solver congruence|done].
    + intros d Hd. rewrite Hfo by done. case_bool_decide; [subst d|by apply H4].
      apply NoDup_app. split; [by apply H4|]. split; [|apply NoDup_singleton].
      intros q' Hq' ->%list_elem_of_singleton. done.
    + intros q'. etrans; [|apply (H5 q')]. unfold decRef. apply (pins_set rg q).
  - intros d Hd. rewrite Hfo by done. case_bool_decide; [rewrite length_app|]; lia.
Qed.

End RenameRefs.
