(* ===== verification/RenameInv.v ===== *)
(** The invariant of renaming, for one thread at a time.

    [extra] is what the other threads contribute to the reference counts, so that
    the lemmas about a thread's operations combine to the whole stage. *)
From S2P Require Import Prelude RegFile Inst CircularBuffer RenameMap Rename RenameRefs.
Import RenameMap Rename RenameRefs.

Module RenameInv.

(** ** The invariant *)

(** An entry for a register of class [c]. *)
Definition entry_ok (U : gset PhysRegId) (c : RegClassType) (v : VirtRegId) : Prop :=
  ∃ q, PhyReg v = Some q ∧ (p_class q = InvalidRegClass ∨ q ∈ U ∧ p_class q = c).

Definition map_ok (U : gset PhysRegId) (m : UnifiedRenameMap) : Prop :=
  ∀ a v, isRenameable a = true → map_at m a = Ok v → entry_ok U (regClass a) v.

(** Undoing one entry. *)
Definition undo1 (m : UnifiedRenameMap) (e : RenameHistory) : res UnifiedRenameMap :=
  if bool_decide (newPhysReg e = prevPhysReg e) then Ok m
  else map_put m (archReg e) (prevPhysReg e).

(** Undoing entries, newest first. *)
Fixpoint undo (m : UnifiedRenameMap) (h : list RenameHistory) : res UnifiedRenameMap :=
  match h with
  | [] => Ok m
  | e :: rest => let! m' := undo1 m e in undo m' rest
  end.

(** The newest entry of a changed register is its mapping, and so on back in
    time. *)
Fixpoint hist_ok (U : gset PhysRegId) (m : UnifiedRenameMap) (h : list RenameHistory) : Prop :=
  match h with
  | [] => True
  | e :: rest =>
      (newPhysReg e ≠ prevPhysReg e →
         isRenameable (archReg e) = true ∧ map_at m (archReg e) = Ok (newPhysReg e) ∧
         entry_ok U (regClass (archReg e)) (prevPhysReg e)) ∧
      ∃ m', undo1 m e = Ok m' ∧ hist_ok U m' rest
  end.

Record tinv (U : gset PhysRegId) (extra : PhysRegId → Z) (m : UnifiedRenameMap)
    (h : list RenameHistory) (rg : RegState) : Prop := {
  ti_ref q : isFixedMapping q = false →
    getRef rg q = (extra q + map_cnt q m + hist_cnt q h)%Z;
  ti_extra q : (0 ≤ extra q)%Z;
  ti_regs : regs_ok U rg;
  ti_map : map_ok U m;
  ti_hist : hist_ok U m h
}.

Lemma entry_class_ok U c v q :
  entry_ok U c v → PhyReg v = Some q → p_class q = InvalidRegClass ∨ q ∈ U ∧ p_class q = c.
Proof. intros (q' & Hq & H) E. congruence. Qed.

Lemma map_ok_put U m a v m' :
  map_ok U m → entry_ok U (regClass a) v → map_put m a v = Ok m' → map_ok U m'.
Proof.
  intros Hm Hv Hp b w Hb Hw. destruct (decide (a = b)) as [->|Hne].
  - rewrite (map_put_at _ _ _ _ Hp) in Hw. by injection Hw as <-.
  - rewrite (map_put_at_ne _ _ _ _ _ Hp Hne) in Hw. by apply Hm.
Qed.

(** A mapped register has a positive count. *)
Lemma mapped_ref U extra m h rg a v q :
  tinv U extra m h rg → map_at m a = Ok v → PhyReg v = Some q → isFixedMapping q = false →
  (1 ≤ getRef rg q)%Z.
Proof.
  intros Hinv Ha Hq Hf. rewrite (ti_ref _ _ _ _ _ Hinv q Hf).
  pose proof (map_cnt_at q m a v Ha Hq). pose proof (ti_extra _ _ _ _ _ Hinv q).
  pose proof (hist_cnt_nonneg q h). lia.
Qed.

Lemma hist_cnt_cons q e h : hist_cnt q (e :: h) = (hist_ind q e + hist_cnt q h)%Z.
Proof. apply sumZ_cons. Qed.

(** ** Squashing one entry *)

Lemma squash_entry U extra m rg e h :
  tinv U extra m (e :: h) rg →
  ∃ m' rg', undo1 m e = Ok m' ∧ tinv U extra m' h rg' ∧
    (∀ s rest, (s < instSeqNum e)%Z → doSquash s m rg (e :: rest) = doSquash s m' rg' rest).
Proof.
  intros [Href Hex Hregs Hmap [Hne (m' & Hu & Hh)]]. exists m'.
  unfold undo1 in Hu. destruct (decide (newPhysReg e = prevPhysReg e)) as [E|E].
  { exists rg. rewrite bool_decide_true in Hu by done. injection Hu as <-.
    split; [unfold undo1; by rewrite bool_decide_true|]. split.
    - split; try done. intros q Hq. rewrite (Href q Hq), hist_cnt_cons. unfold hist_ind.
      rewrite bool_decide_true by congruence. lia.
    - intros s rest Hs. simpl. rewrite (proj2 (Z.ltb_lt _ _) Hs). by rewrite bool_decide_true. }
  destruct (Hne E) as (Hra & Hat & Hok). rewrite bool_decide_false in Hu by done.
  pose proof Hok as (pq & Hpq & Hpc).
  assert (∃ nq, PhyReg (newPhysReg e) = Some nq ∧
    (p_class nq = InvalidRegClass ∨ nq ∈ U ∧ p_class nq = regClass (archReg e))) as (nq & Hnq & Hnc)
    by by apply Hmap.
  assert (∀ rg', (∀ q, isFixedMapping q = false → getRef rg' q = getRef rg q - ind q (newPhysReg e)
      + ind q (prevPhysReg e) - hist_ind q e)%Z → regs_ok U rg' → tinv U extra m' h rg') as Hfin.
  { intros rg' Hr Hok'. split; try done; [|by eapply map_ok_put].
    intros q Hq. rewrite (Hr q Hq), (Href q Hq), hist_cnt_cons.
    rewrite (map_cnt_put q _ _ _ _ _ Hu Hat). lia. }
  assert (∀ s rest, (s < instSeqNum e)%Z → doSquash s m rg (e :: rest) =
    if bool_decide (PhyReg (newPhysReg e) = PhyReg (prevPhysReg e)) then doSquash s m' rg rest
    else let! rg' := tryFreePReg rg nq in doSquash s m' rg' rest) as Hrun.
  { intros s rest Hs. cbn [doSquash]. rewrite (proj2 (Z.ltb_lt _ _) Hs).
    rewrite (bool_decide_false _ E). unfold setEntry. rewrite Hpq. cbn [get_at res_bind].
    assert (bool_decide (p_class pq = regClass (archReg e)) ||
            bool_decide (p_class pq = InvalidRegClass) = true) as ->.
    { apply orb_true_iff. destruct Hpc as [?|[_ ?]]; [right|left]; by apply bool_decide_eq_true. }
    cbn [assert_ res_bind]. rewrite Hra. cbn [negb].
    rewrite (map_setEntry_put _ _ _ _ Hu). cbn [res_bind]. rewrite Hnq. done. }
  destruct (decide (PhyReg (newPhysReg e) = PhyReg (prevPhysReg e))) as [Ep|Ep].
  - exists rg. split; [unfold undo1; by rewrite bool_decide_false|]. split.
    + apply Hfin; [|done]. intros q Hq. unfold hist_ind, ind.
      rewrite Ep, (bool_decide_true (PhyReg (prevPhysReg e) = PhyReg (prevPhysReg e))) by done.
      lia.
    + intros s rest Hs. rewrite Hrun by done. by rewrite bool_decide_true.
  - destruct (tryFree_spec U rg nq Hregs) as (rg' & Hf & Hok' & Hr & _).
    { destruct Hnc as [?|[HU _]]; [by left|]. right. split; [done|].
      rewrite (Href nq) by (by apply (ro_fixed _ _ Hregs)).
      pose proof (map_cnt_at nq m _ _ Hat Hnq). pose proof (Hex nq).
      pose proof (hist_cnt_nonneg nq (e :: h)). lia. }
    exists rg'. split; [unfold undo1; by rewrite bool_decide_false|]. split.
    + apply Hfin; [|done]. intros q Hq. rewrite (Hr q Hq). unfold hist_ind.
      rewrite (bool_decide_false _ Ep). unfold ind at 1. rewrite Hnq.
      replace (bool_decide (Some nq = Some q)) with (bool_decide (q = nq))
        by (apply bool_decide_ext; naive_solver). lia.
    + intros s rest Hs. rewrite Hrun, Hf by done. by rewrite bool_decide_false.
Qed.

(** Squashing: the entries younger than [s] are undone, in order. *)
Lemma doSquash_spec U extra s new h m rg :
  tinv U extra m (new ++ h) rg → Forall (λ e, (s < instSeqNum e)%Z) new →
  (∀ e, head h = Some e → (instSeqNum e ≤ s)%Z) →
  ∃ m' rg', doSquash s m rg (new ++ h) = Ok (m', rg', h) ∧ undo m new = Ok m' ∧
    tinv U extra m' h rg'.
Proof.
  intros Hinv Hnew Hold. revert m rg Hinv.
  induction Hnew as [|e new He Hnew IH]; intros m rg Hinv; simpl app in *.
  - exists m, rg. split; [|done]. destruct h as [|e h]; [done|]. simpl.
    by rewrite (proj2 (Z.ltb_ge _ _)) by by apply Hold.
  - apply squash_entry in Hinv as (m1 & rg1 & Hu & Hinv & Hrun).
    destruct (IH m1 rg1 Hinv) as (m' & rg' & Hd & Hun & Hinv').
    exists m', rg'. rewrite (Hrun s _ He). split; [done|]. split; [|done].
    simpl. by rewrite Hu.
Qed.

(** ** Releasing the oldest entries *)

Lemma hist_ok_drop_last U m h e : hist_ok U m (h ++ [e]) → hist_ok U m h.
Proof.
  revert m. induction h as [|e' h IH]; intros m; simpl; [done|].
  intros (Hne & m' & Hu & Hh). split; [done|]. exists m'. split; [done|]. by apply IH.
Qed.

(** Every entry's previous register is a register of the file. *)
Lemma hist_ok_prev U m h e :
  hist_ok U m h → e ∈ h → newPhysReg e ≠ prevPhysReg e →
  ∃ q, PhyReg (prevPhysReg e) = Some q ∧ (p_class q = InvalidRegClass ∨ q ∈ U).
Proof.
  revert m. induction h as [|e' h IH]; intros m; simpl; [by intros _ ?%elem_of_nil|].
  intros (Hne & m' & Hu & Hh) [->|Hin]%elem_of_cons Hd.
  - destruct (Hne Hd) as (_ & _ & q & Hq & Hc). exists q. naive_solver.
  - by eapply IH.
Qed.

Lemma release_entry U extra m h rg e :
  tinv U extra m (h ++ [e]) rg →
  ∃ rg', tinv U extra m h rg' ∧
    (∀ s rest, (instSeqNum e ≤ s)%Z → release_oldest s rg (e :: rest) = release_oldest s rg' rest).
Proof.
  intros [Href Hex Hregs Hmap Hh]. pose proof (hist_ok_drop_last _ _ _ _ Hh) as Hh'.
  assert (∀ q, hist_cnt q (h ++ [e]) = hist_cnt q h + hist_ind q e)%Z as Hcnt.
  { intros q. unfold hist_cnt. rewrite sumZ_app. unfold sumZ at 2. simpl. lia. }
  destruct (decide (PhyReg (newPhysReg e) = PhyReg (prevPhysReg e))) as [E|E].
  { exists rg. split.
    - split; try done. intros q Hq. rewrite (Href q Hq), Hcnt. unfold hist_ind.
      rewrite bool_decide_true by done. lia.
    - intros s rest Hs. simpl. rewrite (proj2 (Z.leb_le _ _) Hs). by rewrite bool_decide_true. }
  destruct (hist_ok_prev U m (h ++ [e]) e Hh) as (q0 & Hq0 & Hc).
  { set_solver. }
  { congruence. }
  destruct (tryFree_spec U rg q0 Hregs) as (rg' & Hf & Hok' & Hr & _).
  { destruct Hc as [?|HU]; [by left|]. right. split; [done|].
    rewrite (Href q0), Hcnt by (by apply (ro_fixed _ _ Hregs)).
    unfold hist_ind, ind. rewrite (bool_decide_false _ E), (bool_decide_true _ Hq0).
    pose proof (map_cnt_nonneg q0 m). pose proof (hist_cnt_nonneg q0 h).
    pose proof (Hex q0). lia. }
  exists rg'. split.
  - split; try done. intros q Hq. rewrite (Hr q Hq), (Href q Hq), Hcnt. unfold hist_ind, ind.
    rewrite (bool_decide_false _ E), Hq0.
    replace (bool_decide (Some q0 = Some q)) with (bool_decide (q = q0))
      by (apply bool_decide_ext; naive_solver). lia.
  - intros s rest Hs. simpl. rewrite (proj2 (Z.leb_le _ _) Hs), (bool_decide_false _ E), Hq0.
    simpl. by rewrite Hf.
Qed.

Lemma removeFromHistory_spec U extra s m h rg :
  tinv U extra m h rg →
  ∃ rg' h' old, removeFromHistory s rg h = Ok (rg', h') ∧ h = h' ++ old ∧
    tinv U extra m h' rg' ∧ Forall (λ e, (instSeqNum e ≤ s)%Z) old.
Proof.
  unfold removeFromHistory. revert rg. induction h as [|e h IH] using rev_ind; intros rg Hinv.
  { exists rg, [], []. done. }
  rewrite rev_app_distr. simpl app.
  destruct (Z.leb_spec (instSeqNum e) s) as [Hle|Hgt].
  - apply release_entry in Hinv as (rg1 & Hinv & Hrun). rewrite Hrun by done.
    destruct (IH rg1 Hinv) as (rg' & h' & old & Hr & -> & Hinv' & Hold).
    exists rg', h', (old ++ [e]). split; [done|]. rewrite <- app_assoc.
    split; [done|]. split; [done|]. apply Forall_app. split; [done|by constructor].
  - cbn [release_oldest]. rewrite (proj2 (Z.leb_gt _ _) Hgt). cbn [res_bind].
    exists rg, (h ++ [e]), []. simpl. rewrite rev_involutive, app_nil_r. done.
Qed.

(** ** Renaming one register *)

(** The architectural register is one of the map's. *)
Definition mapped (m : UnifiedRenameMap) (a : RegId) : Prop :=
  isRenameable a = true → ∃ v, map_at m a = Ok v.

Lemma mapped_put m a b v m' : map_put m b v = Ok m' → mapped m a → mapped m' a.
Proof.
  intros Hp Ha Hr. destruct (decide (b = a)) as [->|Hne].
  - exists v. by eapply map_put_at.
  - rewrite (map_put_at_ne _ _ _ _ _ Hp Hne). by apply Ha.
Qed.

(** A register a destination of class [c] may be bypassed to: one that is in
    the map. *)
Definition bypass_ok (U : gset PhysRegId) (m : UnifiedRenameMap) (c : RegClassType)
    (b : VirtRegId) : Prop :=
  ∀ q, PhyReg b = Some q →
    p_class q = InvalidRegClass ∨
    q ∈ U ∧ p_class q = c ∧ ∃ s v, map_at m s = Ok v ∧ PhyReg v = Some q.

(** What renaming leaves: the new entry is undone to the old map, and at most one
    register of the class is taken. *)
Record renamed (U : gset PhysRegId) (extra : PhysRegId → Z) (m : UnifiedRenameMap)
    (h : list RenameHistory) (rg : RegState) (cost : RegClassType → Z)
    (m' : UnifiedRenameMap) (new : list RenameHistory) (rg' : RegState) : Prop := {
  rn_inv : tinv U extra m' (new ++ h) rg';
  rn_undo : undo m' new = Ok m;
  rn_dom a : mapped m a → mapped m' a;
  rn_free c : c ∈ renameClasses →
    (Z.of_nat (length (free_of rg c)) - cost c ≤ Z.of_nat (length (free_of rg' c)))%Z
}.

Definition one (c : RegClassType) (d : RegClassType) : Z := if bool_decide (d = c) then 1 else 0.

(** A mapping replaced, with the count of the new register raised. *)
Lemma renamed_put U extra m h rg a new prev m' rg' seq :
  tinv U extra m h rg → isRenameable a = true → map_at m a = Ok prev →
  map_put m a new = Ok m' → entry_ok U (regClass a) new → regs_ok U rg' →
  (∀ q, isFixedMapping q = false → getRef rg' q = getRef rg q +
     if bool_decide (PhyReg new = PhyReg prev) then 0 else ind q new)%Z →
  (∀ c, c ∈ renameClasses → Z.of_nat (length (free_of rg c)) - one (regClass a) c ≤
     Z.of_nat (length (free_of rg' c)))%Z →
  renamed U extra m h rg (one (regClass a)) m' [mkHist seq a new prev] rg'.
Proof.
  intros [Href Hex Hregs Hmap Hh] Hra Hat Hput Hnew Hregs' Hr Hfr.
  assert (undo1 m' (mkHist seq a new prev) = Ok m) as Hundo.
  { unfold undo1. simpl. destruct (decide (new = prev)) as [->|E];
      [rewrite bool_decide_true by done|rewrite bool_decide_false by done; by eapply map_put_back].
    f_equal.
    apply map_put_inv in Hput as (l & _ & Hl & _ & _ & ->).
    apply map_at_inv in Hat as (l' & _ & Hl' & _ & Hv). rewrite Hl in Hl'. injection Hl' as <-.
    rewrite (list_insert_id l _ prev Hv). by apply list_insert_id. }
  split; [split|..]; try done.
  - intros q Hq. rewrite (Hr q Hq), (Href q Hq). simpl. rewrite hist_cnt_cons.
    rewrite (map_cnt_put q _ _ _ _ _ Hput Hat). unfold hist_ind. simpl.
    case_bool_decide as E; [|lia]. unfold ind. rewrite E. lia.
  - by eapply map_ok_put.
  - simpl. split; [|by exists m]. intros Hne. split; [done|].
    split; [by eapply map_put_at|]. by apply Hmap.
  - simpl. by rewrite Hundo.
  - intros b. by eapply mapped_put.
Qed.

Lemma renamed_same U extra m h rg a v seq :
  tinv U extra m h rg →
  renamed U extra m h rg (λ _, 0%Z) m [mkHist seq a v v] rg.
Proof.
  intros [Href Hex Hregs Hmap Hh].
  assert (undo1 m (mkHist seq a v v) = Ok m) as Hu
    by (unfold undo1; by rewrite bool_decide_true).
  split; [split|..]; try done.
  - intros q Hq. simpl. rewrite (Href q Hq), hist_cnt_cons. unfold hist_ind.
    rewrite bool_decide_true by done. lia.
  - simpl. split; [done|]. by exists m.
  - simpl. by rewrite Hu.
  - intros c _. lia.
Qed.

Lemma getRef_setPinned rg q a b q' : getRef (setPinned rg q a b) q' = getRef rg q'.
Proof.
  unfold getRef at 1, setPinned, set_info, info. simpl.
  destruct (decide (q' = q)) as [->|]; [by rewrite lookup_insert_eq|].
  by rewrite lookup_insert_ne by congruence.
Qed.

Lemma setPinned_ok U rg q b : regs_ok U rg → regs_ok U (setPinned rg q 0 b).
Proof.
  intros [G1 G2 G3 G4 G5]. split; try done.
  - intros c q' Hc. rewrite getRef_setPinned. by apply G3.
  - intros q'. unfold getNumPinnedWrites, setPinned, set_info, info. simpl.
    destruct (decide (q' = q)) as [->|]; [by rewrite lookup_insert_eq|].
    rewrite lookup_insert_ne by congruence. apply G5.
Qed.

(** Mapping a register to one that is in use already. *)
Lemma renamed_bypass U extra m h rg a bypass b prev m' seq :
  tinv U extra m h rg → isRenameable a = true → map_at m a = Ok prev →
  bypass_ok U m (regClass a) bypass → PhyReg bypass = Some b → map_put m a bypass = Ok m' →
  renamed U extra m h rg (one (regClass a)) m' [mkHist seq a bypass prev]
    (if bool_decide (PhyReg prev = Some b) then rg else incRef rg b).
Proof.
  intros Hinv Hra Hprev Hby Eb Hm'. pose proof (ti_regs _ _ _ _ _ Hinv) as Hregs.
  assert (entry_ok U (regClass a) bypass) as Hent.
  { exists b. split; [done|]. destruct (Hby b Eb) as [?|(? & ? & _)]; auto. }
  apply renamed_put; try done.
  - case_bool_decide as E; [done|]. apply set_ref_ok; [done|]. intros HbU.
    destruct (Hby b Eb) as [Hi|(_ & _ & s & v & Hs & Hvb)].
    { apply (ro_fixed _ _ Hregs) in HbU. apply fixed_class, renameClasses_fixed in HbU.
      by destruct HbU. }
    pose proof (mapped_ref _ _ _ _ _ s v b Hinv Hs Hvb (ro_fixed _ _ Hregs b HbU)). lia.
  - intros q Hq. rewrite Eb. case_bool_decide as E.
    + rewrite bool_decide_true by congruence. lia.
    + rewrite bool_decide_false by congruence. unfold incRef. rewrite getRef_set.
      unfold ind. rewrite Eb.
      replace (bool_decide (Some b = Some q)) with (bool_decide (q = b))
        by (apply bool_decide_ext; naive_solver).
      case_bool_decide; [by subst|lia].
  - intros c Hc. assert (free_of (if bool_decide (PhyReg prev = Some b) then rg
      else incRef rg b) c = free_of rg c) as -> by by case_bool_decide.
    unfold one. case_bool_decide; lia.
Qed.

Lemma rename_spec U extra m h rg a bypass seq :
  tinv U extra m h rg → mapped m a → (isRenameable a = true → bypass_ok U m (regClass a) bypass) →
  (isRenameable a = true → free_of rg (regClass a) ≠ []) →
  ∃ new prev m' rg' q, rename rg m a 0 bypass = Ok ((new, prev), m', rg') ∧
    PhyReg new = Some q ∧
    renamed U extra m h rg (λ c, if isRenameable a then one (regClass a) c else 0%Z)
      m' [mkHist seq a new prev] rg'.
Proof.
  intros Hinv Hat Hby Hfree. unfold rename. destruct (isRenameable a) eqn:Hra; cbn [negb].
  2: { assert (∃ v q, lookup m a = Ok v ∧ PhyReg v = Some q) as (v & q & -> & Hq).
       { unfold isRenameable in Hra. unfold lookup.
         destruct (regClass a); try done; by do 2 eexists. }
       cbn [res_bind]. exists v, v, m, rg, q. split; [done|]. split; [done|].
       by apply renamed_same. }
  destruct (Hat Hra) as [prev Hprev]. specialize (Hby eq_refl). specialize (Hfree eq_refl).
  apply renameable_class in Hra as Hcl. pose proof (ti_regs _ _ _ _ _ Hinv) as Hregs.
  destruct (ti_map _ _ _ _ _ Hinv a prev Hra Hprev) as (pq & Hpq & Hpc).
  unfold simple_rename. pose proof Hprev as Hprev'. unfold map_at in Hprev'.
  apply res_bind_Ok in Hprev' as (l & Hl & Hv). rewrite Hl. cbn [res_bind]. rewrite Hv.
  cbn [res_bind].
  assert (∀ v m', map_put m a v = Ok m' →
    (let! l' := set_nth l (regIdx a) v in set_nth m (class_num (regClass a)) l') = Ok m') as Hput'.
  { intros v m' Hm'. unfold map_put in Hm'. rewrite Hl in Hm'. done. }
  destruct (PhyReg bypass) as [b|] eqn:Eb.
  - destruct (map_put_total m a bypass prev Hprev) as [m' Hm'].
    rewrite (Hput' _ _ Hm'). cbn [res_bind]. do 5 eexists. split; [done|]. split; [done|].
    by apply renamed_bypass.
  - rewrite Hpq. cbn [get_at res_bind]. rewrite (ro_pins _ _ Hregs). cbn [Z.ltb Z.compare].
    destruct (free_of rg (regClass a)) as [|q rest] eqn:Ef; [done|].
    destruct (free_getReg_spec U rg (regClass a) q rest Hregs Hcl Ef)
      as (rg1 & Hg & Hregs1 & HqU & Hqc & Hqz & Hqr & Hf1 & Hf2).
    rewrite Hg. cbn [res_bind].
    destruct (map_put_total m a (virt q) prev Hprev) as [m' Hm'].
    rewrite (Hput' _ _ Hm'). cbn [res_bind]. do 5 eexists. split; [done|]. split; [done|].
    apply renamed_put; try done.
    + exists q. split; [done|]. by right.
    + by apply setPinned_ok.
    + intros q' Hq'. rewrite getRef_setPinned, Hqr.
      rewrite (bool_decide_false (PhyReg (virt q) = PhyReg prev)).
      * unfold ind. simpl. replace (bool_decide (Some q = Some q')) with (bool_decide (q' = q));
          [done|]. apply bool_decide_ext. naive_solver.
      * simpl. rewrite Hpq. intros [= <-]. destruct Hpc as [Hi|[_ _]].
        { apply (ro_fixed _ _ Hregs) in HqU. apply fixed_class, renameClasses_fixed in HqU.
          by destruct HqU. }
        pose proof (mapped_ref _ _ _ _ _ a prev q Hinv Hprev Hpq (ro_fixed _ _ Hregs q HqU)).
        lia.
    + intros c Hc. change (free_of (setPinned rg1 q 0 (0 + 1)) c) with (free_of rg1 c).
      unfold one. case_bool_decide as E.
      * subst c. rewrite Ef, Hf1. simpl. lia.
      * rewrite Hf2 by done. lia.
Qed.

End RenameInv.
