(* ===== verification/RenameGroup.v ===== *)
(** Renaming a group of instructions.

    With enough free registers, a group from decode is renamed completely: no
    assertion fails, every source is the mapping at that point of the program, and
    squashing the group restores the map. *)
From S2P Require Import Prelude RegFile Inst Comm CircularBuffer RenameMap Rename.
From S2P Require Import RenameRefs RenameInv.
Import RenameMap Rename RenameRefs RenameInv.

Module RenameGroup.

(** ** Instructions rename can handle *)

(** The operands are registers of the map, and a move or an addition of a
    constant has a source of the class of its destination (or [x0]). *)
Record inst_ok (m : UnifiedRenameMap) (d : DynInst) : Prop := {
  ik_srcs r : r ∈ si_srcs (staticInst d) → mapped m r;
  ik_dests r : r ∈ si_dests (staticInst d) → mapped m r;
  ik_srcIdx : length (srcIdx d) = length (si_srcs (staticInst d));
  ik_destIdx : length (destIdx d) = length (si_dests (staticInst d));
  ik_prevIdx : length (prevDestIdx d) = length (si_dests (staticInst d));
  ik_bypass : isMov d = true ∨ isAddImm d = true →
    ∃ s rest, si_srcs (staticInst d) = s :: rest ∧
      ∀ a, a ∈ si_dests (staticInst d) → isRenameable a = true →
        isZeroReg s = true ∨ regClass s = regClass a
}.

(** What renaming the operands of an instruction leaves alone. *)
Definition kept (d d' : DynInst) : Prop :=
  staticInst d' = staticInst d ∧ seqNum d' = seqNum d ∧ squashed d' = squashed d ∧
  length (srcIdx d') = length (srcIdx d) ∧ length (destIdx d') = length (destIdx d) ∧
  length (prevDestIdx d') = length (prevDestIdx d).

Lemma kept_trans a b c : kept a b → kept b c → kept a c.
Proof. unfold kept. intuition congruence. Qed.

Lemma inst_ok_kept m m' d d' :
  (∀ a, mapped m a → mapped m' a) → kept d d' → inst_ok m d → inst_ok m' d'.
Proof.
  intros Hm (Es & _ & _ & E1 & E2 & E3) []. unfold isMov, isAddImm, di_has in *.
  split; unfold isMov, isAddImm, di_has; rewrite ?Es, ?E1, ?E2, ?E3; auto.
Qed.

Lemma srcRegIdx_at si i r :
  si_srcs si !! Z.to_nat i = Some r → (0 ≤ i)%Z → srcRegIdx si i = Ok r.
Proof.
  intros Hr Hi. unfold srcRegIdx.
  case_match; apply nth_res_Ok; (split; [done|]); by apply lookup_app_l_Some.
Qed.

Lemma destRegIdx_at si i r :
  si_dests si !! Z.to_nat i = Some r → (0 ≤ i)%Z → destRegIdx si i = Ok r.
Proof.
  intros Hr Hi. unfold destRegIdx.
  case_match; apply nth_res_Ok; (split; [done|]); [by apply lookup_app_l_Some|done].
Qed.

Section Group.

Context (p : RenameParams) (vp : ValuePredictor) (U : gset PhysRegId).

Lemma lookup_phys m r :
  map_ok U m → mapped m r →
  ∃ v q, lookup m r = Ok v ∧ PhyReg v = Some q ∧
    (isRenameable r = true → map_at m r = Ok v ∧ entry_ok U (regClass r) v).
Proof.
  intros Hok Hm. destruct (isRenameable r) eqn:Hr.
  - destruct (Hm Hr) as [v Hv]. destruct (Hok r v Hr Hv) as (q & Hq & Hc).
    exists v, q. rewrite (lookup_renameable m r Hr).
    split; [by apply map_lookup_at|]. split; [done|]. intros _. split; [done|]. by exists q.
  - unfold isRenameable in Hr. unfold lookup. destruct (regClass r); try done; by do 2 eexists.
Qed.

(** ** Sources *)

Lemma rename_src_loop_spec m sb rs : ∀ d k ready,
  map_ok U m → drop k (si_srcs (staticInst d)) = rs → Forall (mapped m) rs →
  length (srcIdx d) = length (si_srcs (staticInst d)) →
  ∃ d' vs, rename_src_loop m sb d (seqZ (Z.of_nat k) (Z.of_nat (length rs))) ready = Ok d' ∧
    kept d d' ∧ srcIdx d' = take k (srcIdx d) ++ vs ∧ Forall2 (λ r v, lookup m r = Ok v) rs vs.
Proof.
  induction rs as [|r rs IH]; intros d k ready Hok Hrs Hm Hlen.
  { exists d, []. rewrite app_nil_r. split; [done|]. split; [by repeat split|].
    split; [|constructor]. symmetry. apply take_ge. rewrite Hlen.
    apply (f_equal length) in Hrs. rewrite length_drop in Hrs. simpl in Hrs. lia. }
  assert (si_srcs (staticInst d) !! k = Some r) as Hr.
  { rewrite <- (Nat.add_0_r k), <- lookup_drop, Hrs. done. }
  apply lookup_lt_Some in Hr as Hk. inversion_clear Hm as [|? ? Hmr Hms].
  rewrite seqZ_cons by (simpl; lia). cbn [rename_src_loop].
  rewrite (srcRegIdx_at _ _ r) by (rewrite ?Nat2Z.id; done || lia). cbn [res_bind].
  destruct (lookup_phys m r Hok Hmr) as (v & q & Hv & Hq & _). rewrite Hv. cbn [res_bind].
  unfold renameSrcReg.
  destruct (lookup_lt_is_Some_2 (srcIdx d) k) as [v0 Hv0]; [lia|].
  rewrite (set_nth_total _ _ v v0) by (apply nth_res_Ok; rewrite Nat2Z.id; split; [lia|done]).
  cbn [res_bind]. rewrite Hq, Nat2Z.id. cbn [get_at res_bind].
  set (d1 := set_renames d (<[k:=v]> (srcIdx d)) (destIdx d) (prevDestIdx d)).
  assert (∀ d2 ready2, staticInst d2 = staticInst d → srcIdx d2 = <[k:=v]> (srcIdx d) →
    kept d d2 → ∃ d' vs,
      rename_src_loop m sb d2 (seqZ (Z.succ (Z.of_nat k)) (Z.pred (Z.of_nat (length (r :: rs)))))
        ready2 = Ok d' ∧ kept d d' ∧ srcIdx d' = take k (srcIdx d) ++ vs ∧
      Forall2 (λ r v, lookup m r = Ok v) (r :: rs) vs) as Hgo.
  { intros d2 ready2 Es Ei Hkept.
    destruct (IH d2 (S k) ready2) as (d' & vs & Hd' & Hk' & Hi' & Hvs); try done.
    - rewrite Es. rewrite (drop_S _ _ _ Hr) in Hrs. by injection Hrs.
    - by rewrite Es, Ei, length_insert.
    - replace (Z.succ (Z.of_nat k)) with (Z.of_nat (S k)) by lia.
      replace (Z.pred (Z.of_nat (length (r :: rs)))) with (Z.of_nat (length rs)) by (simpl; lia).
      exists d', (v :: vs). split; [done|]. split; [by eapply kept_trans|].
      split; [|by constructor]. rewrite Hi', Ei.
      rewrite (take_S_r _ _ v) by (apply list_lookup_insert_eq; lia).
      rewrite take_insert_ge by lia. by rewrite <- app_assoc. }
  destruct (sb_getReg sb q); (apply Hgo; [..|repeat split]);
    unfold markSrcRegReady; try case_match; try done; simpl; by rewrite length_insert.
Qed.

Lemma renameSrcRegs_spec m sb d :
  map_ok U m → inst_ok m d →
  ∃ d', renameSrcRegs m sb d = Ok d' ∧ kept d d' ∧
    Forall2 (λ r v, lookup m r = Ok v) (si_srcs (staticInst d)) (srcIdx d').
Proof.
  intros Hok Hd. destruct (rename_src_loop_spec m sb (si_srcs (staticInst d)) d 0 0)
    as (d' & vs & Hr & Hk & Hi & Hf); try done.
  - apply Forall_forall. apply Hd.
  - apply Hd.
  - exists d'. split; [done|]. split; [done|]. by rewrite Hi.
Qed.

(** ** Destinations *)

Lemma bypass_spec m d a :
  map_ok U m → inst_ok m d → a ∈ si_dests (staticInst d) →
  ∃ b inc marks, bypass_reg p m d = Ok (b, inc, marks) ∧
    (isRenameable a = true → bypass_ok U m (regClass a) b).
Proof.
  intros Hok Hd Ha. unfold bypass_reg.
  assert (isMov d = true ∨ isAddImm d = true → ∃ s b q, srcRegIdx (staticInst d) 0 = Ok s ∧
    lookup m s = Ok b ∧ PhyReg b = Some q ∧
    (isRenameable a = true → ∀ o, bypass_ok U m (regClass a) (mkVirt (PhyReg b) o))) as Hsrc.
  { intros Hc. destruct (ik_bypass _ _ Hd Hc) as (s & rest & Es & Hcl).
    destruct (lookup_phys m s Hok) as (v & q & Hv & Hq & Hat).
    { apply Hd. rewrite Es. apply list_elem_of_here. }
    exists s, v, q. split; [apply srcRegIdx_at; [by rewrite Es|done]|].
    split; [done|]. split; [done|]. intros Hra o q' Hq'. simpl in Hq'.
    destruct (isRenameable s) eqn:Hs.
    - destruct (Hat eq_refl) as [Hm He].
      destruct (entry_class_ok _ _ _ _ He Hq') as [?|[? Hc']]; [by left|right].
      split; [done|]. split; [|by exists s, v]. rewrite Hc'.
      destruct (Hcl a Ha Hra) as [Hz|?]; [|done]. exfalso.
      unfold isZeroReg in Hz. apply bool_decide_eq_true in Hz.
      unfold isRenameable in Hs. by rewrite Hz in Hs.
    - left. destruct (Hcl a Ha Hra) as [Hz|Hc'].
      + unfold isZeroReg in Hz. apply bool_decide_eq_true in Hz. unfold lookup in Hv.
        rewrite Hz in Hv. injection Hv as <-. simpl in Hq'. by injection Hq' as <-.
      + exfalso. unfold isRenameable in Hs, Hra. by rewrite Hc', Hra in Hs. }
  destruct (enableMoveElimination p && isMov d) eqn:E1.
  { apply andb_true_iff in E1 as [_ E1]. destruct Hsrc as (s & b & q & -> & Hb & Hq & Hby); [by left|].
    cbn [res_bind]. rewrite Hb. cbn [res_bind]. do 3 eexists. split; [done|].
    intros Hra. destruct b as [pb ob]. by apply (Hby Hra ob). }
  assert (∃ f, (if negb (isAddImm d) then Ok false
    else if enableConstantFolding p then Ok true
    else if enableMovImmElimination p then
      let! s := srcRegIdx (staticInst d) 0 in Ok (isZeroReg s) else Ok false) = Ok f ∧
    (f = true → isAddImm d = true)) as (f & -> & Hf).
  { destruct (isAddImm d) eqn:Ea; cbn [negb]; [|by eexists].
    destruct Hsrc as (s & _ & _ & -> & _); [by right|].
    destruct (enableConstantFolding p), (enableMovImmElimination p); by eexists. }
  cbn [res_bind]. destruct f; [|by do 3 eexists; split; [done|]; intros _ q'].
  destruct Hsrc as (s & b & q & -> & Hb & Hq & Hby); [right; by apply Hf|].
  cbn [res_bind]. rewrite Hb. cbn [res_bind].
  destruct (IEOper b) as [o|] eqn:Eo; [destruct (bool_decide (ie_type o = IE_ADD))|];
    cbn [IEOperand_new panic_if bool_decide res_bind];
    unfold IEOperand_new; cbn [res_bind panic_if];
    do 3 eexists; (split; [done|]); intros Hra; try by apply Hby.
  destruct b as [pb ob]. by apply (Hby Hra ob).
Qed.

(** The registers of class [c] among [ds]. *)
Definition dest_cost (ds : list RegId) (c : RegClassType) : Z :=
  Z.of_nat (length (filter (λ r, regClass r = c) ds)).

Lemma dest_cost_cons a ds c : c ∈ renameClasses →
  dest_cost (a :: ds) c = ((if isRenameable a then one (regClass a) c else 0) + dest_cost ds c)%Z.
Proof.
  intros Hc. unfold dest_cost, one. destruct (decide (regClass a = c)) as [E|E].
  - rewrite filter_cons_True by done. simpl.
    assert (isRenameable a = true) as -> by (apply renameable_class; by rewrite E).
    rewrite bool_decide_true by done. lia.
  - rewrite filter_cons_False by done. rewrite bool_decide_false by congruence.
    by case_match.
Qed.

Lemma undo_app m1 h1 m2 h2 m3 :
  undo m1 h1 = Ok m2 → undo m2 h2 = Ok m3 → undo m1 (h1 ++ h2) = Ok m3.
Proof.
  revert m1. induction h1 as [|e h1 IH]; intros m1; simpl; [by intros [= ->]|].
  intros H H2. apply res_bind_Ok in H as (m' & -> & H). simpl. by apply IH.
Qed.

Lemma renamed_trans extra m0 h rg0 c1 m1 n1 rg1 c2 m2 n2 rg2 cost :
  renamed U extra m0 h rg0 c1 m1 n1 rg1 →
  renamed U extra m1 (n1 ++ h) rg1 c2 m2 n2 rg2 →
  (∀ c, c ∈ renameClasses → c1 c + c2 c ≤ cost c)%Z →
  renamed U extra m0 h rg0 cost m2 (n2 ++ n1) rg2.
Proof.
  intros [I1 U1 D1 F1] [I2 U2 D2 F2] Hc. split.
  - by rewrite <- app_assoc.
  - by eapply undo_app.
  - auto.
  - intros c Hcl. specialize (F1 c Hcl). specialize (F2 c Hcl). specialize (Hc c Hcl). lia.
Qed.

Lemma renamed_refl extra m h rg cost :
  tinv U extra m h rg → (∀ c, 0 ≤ cost c)%Z → renamed U extra m h rg cost m [] rg.
Proof. intros Hinv Hc. split; try done. intros c _. specialize (Hc c). lia. Qed.

(** The histories of one instruction carry its sequence number. *)
Definition of_seq (n : Z) (h : list RenameHistory) : Prop := Forall (λ e, instSeqNum e = n) h.

Lemma rename_dest_spec extra t d i a :
  tinv U extra (t_map t) (t_hist t) (t_regs t) → inst_ok (t_map t) d →
  si_dests (staticInst d) !! Z.to_nat i = Some a → (0 ≤ i)%Z →
  (isRenameable a = true → free_of (t_regs t) (regClass a) ≠ []) →
  ∃ t' d' new, rename_dest p vp t d i = Ok (t', d') ∧ kept d d' ∧
    t_hist t' = new ++ t_hist t ∧ of_seq (seqNum d) new ∧
    renamed U extra (t_map t) (t_hist t) (t_regs t)
      (λ c, if isRenameable a then one (regClass a) c else 0%Z) (t_map t') new (t_regs t').
Proof.
  intros Hinv Hd Ha Hi Hfree. apply list_elem_of_lookup_2 in Ha as Hin.
  unfold rename_dest. rewrite (destRegIdx_at _ _ a Ha Hi). cbn [res_bind].
  destruct (bypass_spec (t_map t) d a (ti_map _ _ _ _ _ Hinv) Hd Hin) as (b & inc & marks & -> & Hb).
  cbn [res_bind].
  destruct (rename_spec U extra (t_map t) (t_hist t) (t_regs t) a b (seqNum d) Hinv
    (ik_dests _ _ Hd a Hin) Hb Hfree) as (new & prev & m' & rg' & q & Hr & Hq & Hren).
  rewrite Hr. cbn [res_bind]. rewrite Hq. cbn [get_at res_bind].
  apply lookup_lt_Some in Ha.
  destruct (lookup_lt_is_Some_2 (destIdx d) (Z.to_nat i)) as [v0 Hv0];
    [by rewrite (ik_destIdx _ _ Hd)|].
  destruct (lookup_lt_is_Some_2 (prevDestIdx d) (Z.to_nat i)) as [v1 Hv1];
    [by rewrite (ik_prevIdx _ _ Hd)|].
  unfold renameDestReg. rewrite (set_nth_total _ _ new v0), (set_nth_total _ _ prev v1)
    by (apply nth_res_Ok; done). cbn [res_bind]. rewrite Hq. cbn [res_bind].
  destruct (predict_value _ _ _ _ _) as [sb vm].
  eexists _, _, [mkHist (seqNum d) a new prev]. split; [done|]. split; [repeat split; simpl; by rewrite ?length_insert|].
  split; [done|]. split; [by repeat constructor|done].
Qed.

Lemma rename_dest_loop_spec extra ds : ∀ t d k,
  tinv U extra (t_map t) (t_hist t) (t_regs t) → inst_ok (t_map t) d →
  drop k (si_dests (staticInst d)) = ds →
  (∀ c, c ∈ renameClasses → dest_cost ds c ≤ Z.of_nat (length (free_of (t_regs t) c)))%Z →
  ∃ t' d' new,
    rename_dest_loop p vp t d (seqZ (Z.of_nat k) (Z.of_nat (length ds))) = Ok (t', d') ∧
    kept d d' ∧ t_hist t' = new ++ t_hist t ∧ of_seq (seqNum d) new ∧
    renamed U extra (t_map t) (t_hist t) (t_regs t) (dest_cost ds) (t_map t') new (t_regs t').
Proof.
  induction ds as [|a ds IH]; intros t d k Hinv Hd Hds Hfree.
  { exists t, d, []. split; [done|]. split; [by repeat split|]. split; [done|].
    split; [constructor|]. apply renamed_refl; [done|]. unfold dest_cost. lia. }
  assert (si_dests (staticInst d) !! k = Some a) as Ha.
  { rewrite <- (Nat.add_0_r k), <- lookup_drop, Hds. done. }
  rewrite seqZ_cons by (simpl; lia). cbn [rename_dest_loop].
  destruct (rename_dest_spec extra t d (Z.of_nat k) a) as (t1 & d1 & n1 & Hr1 & Hk1 & Hh1 & Hs1 & Hn1);
    [done|done|by rewrite Nat2Z.id|lia| |].
  { intros Hra%renameable_class. specialize (Hfree _ Hra). rewrite dest_cost_cons in Hfree by done.
    apply renameable_class in Hra. rewrite Hra in Hfree. unfold one in Hfree.
    rewrite bool_decide_true in Hfree by done. intros E. rewrite E in Hfree. simpl in Hfree.
    unfold dest_cost in Hfree. lia. }
  rewrite Hr1. cbn [res_bind].
  destruct (IH t1 d1 (S k)) as (t2 & d2 & n2 & Hr2 & Hk2 & Hh2 & Hs2 & Hn2).
  - rewrite Hh1. apply Hn1.
  - eapply inst_ok_kept; [apply Hn1|done|done].
  - destruct Hk1 as (-> & _). rewrite (drop_S _ _ _ Ha) in Hds. by injection Hds.
  - intros c Hc. specialize (Hfree c Hc). rewrite dest_cost_cons in Hfree by done.
    pose proof (rn_free _ _ _ _ _ _ _ _ _ Hn1 c Hc). simpl in *. lia.
  - replace (Z.succ (Z.of_nat k)) with (Z.of_nat (S k)) by lia.
    replace (Z.pred (Z.of_nat (length (a :: ds)))) with (Z.of_nat (length ds)) by (simpl; lia).
    exists t2, d2, (n2 ++ n1). split; [done|]. split; [by eapply kept_trans|].
    split; [by rewrite Hh2, Hh1, app_assoc|].
    split. { apply Forall_app. split; [|done]. destruct Hk1 as (_ & <- & _). done. }
    rewrite Hh1 in Hn2. eapply renamed_trans; [done|done|].
    intros c Hc. rewrite dest_cost_cons by done. lia.
Qed.

(** ** Groups *)

Definition live_insts (l : list DynInst) : list DynInst := filter (λ d, squashed d = false) l.

Lemma canRenameInst_true rg d :
  regs_ok U rg →
  (∀ c, c ∈ renameClasses →
     numTypedDestRegs (staticInst d) c ≤ Z.of_nat (length (free_of rg c)))%Z →
  canRenameInst rg d = Ok true.
Proof.
  intros Hok Hc. unfold canRenameInst.
  destruct (res_fold_inv (λ ok c, let! free := numFreeRegs rg c in
      Ok (ok && (numTypedDestRegs (staticInst d) c <=? free)%Z)) (λ ok, ok = true)
      renameClasses true) as (ok & -> & ->); try done.
  intros ? c Hin ->. exists true. split; [|done]. unfold numFreeRegs.
  rewrite (free_nth U) by done. cbn [res_bind].
  by rewrite (proj2 (Z.leb_le _ _) (Hc c Hin)).
Qed.

Lemma demand_cons d insts c :
  demand (d :: insts) c =
  ((if squashed d then 0 else numTypedDestRegs (staticInst d) c) + demand insts c)%Z.
Proof. apply sumZ_cons. Qed.

Lemma demand_nonneg insts c : (0 ≤ demand insts c)%Z.
Proof. apply sumZ_nonneg. intros d. case_match; unfold numTypedDestRegs; lia. Qed.

Lemma rename_loop_spec extra insts : ∀ t,
  tinv U extra (t_map t) (t_hist t) (t_regs t) → Forall (inst_ok (t_map t)) insts →
  (∀ c, c ∈ renameClasses → demand insts c ≤ Z.of_nat (length (free_of (t_regs t) c)))%Z →
  ∃ t' out stalls new, rename_loop p vp t insts = Ok (t', out, stalls) ∧
    t_hist t' = new ++ t_hist t ∧
    Forall (λ e, instSeqNum e ∈ map seqNum (live_insts insts)) new ∧
    renamed U extra (t_map t) (t_hist t) (t_regs t) (demand insts) (t_map t') new (t_regs t') ∧
    map seqNum out = map seqNum (live_insts insts).
Proof.
  induction insts as [|d insts IH]; intros t Hinv Hins Hfree.
  { exists t, [], [], []. split; [done|]. split; [done|]. split; [constructor|].
    split; [|done]. by apply renamed_refl. }
  inversion_clear Hins as [|? ? Hd Hins']. cbn [rename_loop].
  destruct (squashed d) eqn:Hsq.
  { destruct (IH t) as (t' & out & stalls & new & Hr & Hh & Hs & Hn & Ho); [done|done| |].
    { intros c Hc. specialize (Hfree c Hc). by rewrite demand_cons, Hsq in Hfree. }
    rewrite Hr. cbn [res_bind]. unfold live_insts.
    rewrite filter_cons_False by (by rewrite Hsq).
    exists t', out, (InstSquashed :: stalls), new. repeat (split; [done|]). split; [|done].
    destruct Hn as [N1 N2 N3 N4]. split; try done. intros c Hc.
    rewrite demand_cons, Hsq. by apply N4. }
  assert (∀ c, c ∈ renameClasses → dest_cost (si_dests (staticInst d)) c ≤
    Z.of_nat (length (free_of (t_regs t) c)))%Z as Hdc.
  { intros c Hc. specialize (Hfree c Hc). rewrite demand_cons, Hsq in Hfree.
    pose proof (demand_nonneg insts c). unfold numTypedDestRegs in Hfree. unfold dest_cost. lia. }
  rewrite (canRenameInst_true (t_regs t) d (ti_regs _ _ _ _ _ Hinv) Hdc). cbn [res_bind assert_].
  destruct (renameSrcRegs_spec (t_map t) (t_sb t) d (ti_map _ _ _ _ _ Hinv) Hd)
    as (d1 & -> & Hk1 & _). cbn [res_bind].
  pose proof Hk1 as (Es1 & Eq1 & _).
  destruct (rename_dest_loop_spec extra (si_dests (staticInst d1)) t d1 0)
    as (t1 & d2 & n1 & Hr1 & Hk2 & Hh1 & Hs1 & Hn1); [done| |done|by rewrite Es1|].
  { by eapply inst_ok_kept; [|exact Hk1|exact Hd]. }
  unfold renameDestRegs, numDestRegs. change (Z.of_nat 0) with 0%Z in Hr1. rewrite Hr1. cbn [res_bind].
  destruct (IH t1) as (t' & out & stalls & new & Hr & Hh & Hs & Hn & Ho).
  { rewrite Hh1. apply Hn1. }
  { eapply Forall_impl; [done|]. intros e He. eapply inst_ok_kept; [apply Hn1| |done].
    by repeat split. }
  { intros c Hc. specialize (Hfree c Hc). rewrite demand_cons, Hsq in Hfree.
    pose proof (rn_free _ _ _ _ _ _ _ _ _ Hn1 c Hc) as Hf. rewrite Es1 in Hf.
    unfold numTypedDestRegs in Hfree. unfold dest_cost in Hf. lia. }
  rewrite Hr. cbn [res_bind]. unfold live_insts. rewrite filter_cons_True by done.
  exists t', (d2 :: out), stalls, (new ++ n1). split; [done|].
  split; [by rewrite Hh, Hh1, app_assoc|]. split; [|split].
  - apply Forall_app. split.
    + eapply Forall_impl; [done|]. intros e He. simpl. set_solver.
    + eapply Forall_impl; [done|]. intros e He. simpl in He. simpl. rewrite He, Eq1.
      apply list_elem_of_here.
  - rewrite Hh1 in Hn. eapply renamed_trans; [exact Hn1|exact Hn|].
    intros c Hc. rewrite demand_cons, Hsq, Es1. unfold dest_cost, numTypedDestRegs. lia.
  - simpl. destruct Hk2 as (_ & E2 & _). by rewrite E2, Eq1, Ho.
Qed.

End Group.
End RenameGroup.
