(* ===== verification/RenameStage.v ===== *)
(** The rename stage as a whole.

    The invariant of the reference counts over all threads, kept by every cycle,
    and the properties of renaming and squashing a group in a reachable state. *)
From S2P Require Import Prelude RegFile Inst Comm CircularBuffer RenameMap Rename.
From S2P Require Import RenameRefs RenameInv RenameGroup.
Import RenameMap Rename RenameRefs RenameInv RenameGroup.

Module RenameStage.

(** ** Instructions *)

(** An instruction whose operands are registers in [K]. *)
Record inst_static (K : RegId → Prop) (d : DynInst) : Prop := {
  is_srcs r : r ∈ si_srcs (staticInst d) → isRenameable r = true → K r;
  is_dests r : r ∈ si_dests (staticInst d) → isRenameable r = true → K r;
  is_srcIdx : length (srcIdx d) = length (si_srcs (staticInst d));
  is_destIdx : length (destIdx d) = length (si_dests (staticInst d));
  is_prevIdx : length (prevDestIdx d) = length (si_dests (staticInst d));
  is_bypass : isMov d = true ∨ isAddImm d = true →
    ∃ s rest, si_srcs (staticInst d) = s :: rest ∧
      ∀ a, a ∈ si_dests (staticInst d) → isRenameable a = true →
        isZeroReg s = true ∨ regClass s = regClass a
}.

Lemma inst_static_ok K m d :
  (∀ a, K a → mapped m a) → inst_static K d → inst_ok m d.
Proof. intros HK []. split; try done; intros r Hr Hra; by apply HK; [auto|]. Qed.

(** ** The invariant *)

Section Stage.

Context (p : RenameParams) (vp : ValuePredictor).
Context {C : Type} `{CircularBufferLaws C DynInst}.
Context (U : gset PhysRegId) (K : RegId → Prop).
Abbreviation State := (RenameState C).

Record ginv (s : State) : Prop := {
  gv_len : length (rs_maps s) = length (rs_hist s);
  gv_ref q : isFixedMapping q = false →
    getRef (rs_regs s) q = (sumZ (map_cnt q) (rs_maps s) + sumZ (hist_cnt q) (rs_hist s))%Z;
  gv_regs : regs_ok U (rs_regs s);
  gv_map m : m ∈ rs_maps s → map_ok U m;
  gv_dom m a : m ∈ rs_maps s → K a → mapped m a;
  gv_hist i m h : rs_maps s !! i = Some m → rs_hist s !! i = Some h → hist_ok U m h;
  gv_buf fb : fb ∈ rs_fixed s →
    Forall (inst_static K) (cb_elems fb) ∧ length (cb_elems fb) ≤ cb_capacity fb
}.

(** What the other threads refer to. *)
Definition others (s : State) (m : UnifiedRenameMap) (h : list RenameHistory) (q : PhysRegId) : Z :=
  if isFixedMapping q then 0%Z else (getRef (rs_regs s) q - map_cnt q m - hist_cnt q h)%Z.

Lemma thread_view s i m h :
  ginv s → rs_maps s !! i = Some m → rs_hist s !! i = Some h →
  tinv U (others s m h) m h (rs_regs s).
Proof.
  intros Hg Hm Hh. split.
  - intros q Hq. unfold others. rewrite Hq. lia.
  - intros q. unfold others. destruct (isFixedMapping q) eqn:Hq; [done|].
    rewrite (gv_ref _ Hg q Hq).
    pose proof (sumZ_elem (map_cnt q) (rs_maps s) m (map_cnt_nonneg q)
      (list_elem_of_lookup_2 _ _ _ Hm)).
    pose proof (sumZ_elem (hist_cnt q) (rs_hist s) h (hist_cnt_nonneg q)
      (list_elem_of_lookup_2 _ _ _ Hh)). lia.
  - apply Hg.
  - apply (gv_map _ Hg). by eapply list_elem_of_lookup_2.
  - by eapply (gv_hist _ Hg).
Qed.

Lemma list_insert_cases {A} (l : list A) i x y :
  y ∈ <[i := x]> l → y = x ∨ y ∈ l.
Proof.
  intros [j Hj]%list_elem_of_lookup_1.
  apply list_lookup_insert_Some in Hj as [(_ & -> & _)|[_ Hj]]; [by left|].
  right. by eapply list_elem_of_lookup_2.
Qed.

Lemma thread_update s i m h m' h' rg' sb :
  ginv s → rs_maps s !! i = Some m → rs_hist s !! i = Some h →
  tinv U (others s m h) m' h' rg' → (∀ a, mapped m a → mapped m' a) →
  ginv (with_thread s (<[i := m']> (rs_maps s)) (<[i := h']> (rs_hist s)) rg' sb).
Proof.
  intros Hg Hm Hh Ht Hdom. split; simpl.
  - rewrite !length_insert. apply Hg.
  - intros q Hq. rewrite (sumZ_insert _ _ _ _ _ Hm), (sumZ_insert _ _ _ _ _ Hh).
    rewrite (ti_ref _ _ _ _ _ Ht q Hq). unfold others. rewrite Hq, (gv_ref _ Hg q Hq). lia.
  - apply Ht.
  - intros m0 [->|Hin]%list_insert_cases; [apply Ht|by apply Hg].
  - intros m0 a [->|Hin]%list_insert_cases Ha; [|by apply Hg].
    apply Hdom, (gv_dom _ Hg); [by eapply list_elem_of_lookup_2|done].
  - intros j m0 h0 Hm0 Hh0. destruct (decide (i = j)) as [->|Hne].
    + apply list_lookup_insert_Some in Hm0 as [(_ & -> & _)|[? _]]; [|done].
      apply list_lookup_insert_Some in Hh0 as [(_ & -> & _)|[? _]]; [|done]. apply Ht.
    + rewrite list_lookup_insert_ne in Hm0 by done. rewrite list_lookup_insert_ne in Hh0 by done.
      by eapply (gv_hist _ Hg).
  - apply Hg.
Qed.

Lemma ginv_same (s s' : State) :
  rs_maps s' = rs_maps s → rs_hist s' = rs_hist s → rs_regs s' = rs_regs s →
  rs_fixed s' = rs_fixed s → ginv s → ginv s'.
Proof. intros E1 E2 E3 E4 []. split; by rewrite ?E1, ?E2, ?E3, ?E4. Qed.

Lemma ginv_fixed (s : State) i fb :
  ginv s → Forall (inst_static K) (cb_elems fb) → length (cb_elems fb) ≤ cb_capacity fb →
  ginv (with_fixed s (<[i := fb]> (rs_fixed s))).
Proof.
  intros [] H1' H2'. split; try done. simpl. intros fb' [->|Hin]%list_insert_cases; auto.
Qed.

(** ** Every operation keeps it *)

(** The youngest entries, up to the first one that is not younger than [n]. *)
Lemma squash_split n (h : list RenameHistory) :
  ∃ new old, h = new ++ old ∧ Forall (λ e, (n < instSeqNum e)%Z) new ∧
    ∀ e, head old = Some e → (instSeqNum e ≤ n)%Z.
Proof.
  induction h as [|e h IH].
  { exists [], []. split; [done|]. split; [constructor|done]. }
  destruct (Z.ltb_spec n (instSeqNum e)) as [Hlt|Hge].
  - destruct IH as (new & old & -> & Hn & Ho). exists (e :: new), old.
    split; [done|]. split; [by constructor|done].
  - exists [], (e :: h). split; [done|]. split; [constructor|]. by intros ? [= <-].
Qed.

Lemma undo_dom m h m' a : undo m h = Ok m' → mapped m a → mapped m' a.
Proof.
  revert m. induction h as [|e h IH]; intros m Hu; simpl in Hu; [by injection Hu as ->|].
  apply res_bind_Ok in Hu as (m1 & H1' & Hu). intros Ha. apply (IH m1 Hu).
  unfold undo1 in H1'. case_bool_decide; [by injection H1' as ->|]. by eapply mapped_put.
Qed.

Lemma squash_ginv (s s' : State) n tid :
  ginv s → squash s n tid = Ok s' → ginv s'.
Proof.
  intros Hg Hs. unfold squash in Hs. apply res_bind_Ok in Hs as (fb & Hfb & Hs).
  apply res_bind_Ok in Hs as (fixed & (_ & _ & ->)%set_nth_inv & Hs).
  set (s1 := with_fixed s _) in Hs.
  assert (ginv s1) as Hg1.
  { apply ginv_fixed; [done|rewrite cb_elems_clear; constructor|].
    rewrite cb_elems_clear. simpl. lia. }
  apply res_bind_Ok in Hs as (m & [_ Hm]%nth_res_Ok & Hs).
  apply res_bind_Ok in Hs as (h & [_ Hh]%nth_res_Ok & Hs).
  destruct (squash_split n h) as (new & old & -> & Hn & Ho).
  pose proof (thread_view s1 _ _ _ Hg1 Hm Hh) as Ht.
  destruct (doSquash_spec U _ n new old m _ Ht Hn Ho) as (m' & rg' & Hd & Hu & Ht').
  rewrite Hd in Hs. cbn [res_bind] in Hs.
  apply res_bind_Ok in Hs as (maps & (_ & _ & ->)%set_nth_inv & Hs).
  apply res_bind_Ok in Hs as (hist & (_ & _ & ->)%set_nth_inv & Hs).
  injection Hs as <-. eapply (thread_update s1); [done..|].
  intros a. by eapply undo_dom.
Qed.

Lemma checkSquash_ginv (s s' : State) commit :
  ginv s → checkSquash p s commit = Ok s' → ginv s'.
Proof.
  intros Hg Hs. unfold checkSquash in Hs.
  eapply (res_fold_keep _ ginv); [exact Hg| |exact Hs].
  intros s1 i s2 _ Hg1 H3. cbn beta in H3. apply res_bind_Ok in H3 as (c & _ & H3).
  destruct (ci_squash c); [|by injection H3 as <-].
  apply res_bind_Ok in H3 as (s3 & Hs3 & H3). injection H3 as <-.
  eapply ginv_same; [..|by eapply squash_ginv]; done.
Qed.

Lemma release_ginv commit (s s' : State) tid :
  ginv s → release_thread commit s tid = Ok s' → ginv s'.
Proof.
  intros Hg Hs. unfold release_thread in Hs.
  apply res_bind_Ok in Hs as (h & [_ Hh]%nth_res_Ok & Hs).
  destruct (lookup_lt_is_Some_2 (rs_maps s) (Z.to_nat tid)) as [m Hm].
  { rewrite (gv_len _ Hg). by eapply lookup_lt_Some. }
  destruct (removeFromHistory_spec U _ (rs_releaseSeq s) m h _ (thread_view s _ _ _ Hg Hm Hh))
    as (rg' & h' & old & Hr & Eh & Ht & _).
  rewrite Hr in Hs. cbn [res_bind] in Hs.
  apply res_bind_Ok in Hs as (hist & (_ & _ & ->)%set_nth_inv & Hs).
  pose proof (thread_update s _ _ _ m h' rg' (rs_sb s) Hg Hm Hh Ht (λ a Ha, Ha)) as Hg1.
  rewrite (list_insert_id _ _ _ Hm) in Hg1.
  apply res_bind_Ok in Hs as (c & _ & Hs). destruct (_ && _) in Hs; [|by injection Hs as <-].
  apply res_bind_Ok in Hs as (h0 & _ & Hs). apply res_bind_Ok in Hs as (ht & _ & Hs).
  apply res_bind_Ok in Hs as (rel & _ & Hs). injection Hs as <-.
  by eapply ginv_same; [..|exact Hg1].
Qed.

Lemma releasePhysRegs_ginv (s s' : State) commit active :
  ginv s → releasePhysRegs p s commit active = Ok s' → ginv s'.
Proof.
  intros Hg Hs. unfold releasePhysRegs in Hs.
  eapply (res_fold_keep _ ginv); [|intros; by eapply release_ginv|exact Hs].
  by eapply ginv_same; [..|exact Hg].
Qed.

Lemma moveInstsToBuffer_ginv (s s' : State) insts :
  ginv s → Forall (inst_static K) insts → moveInstsToBuffer s insts = Ok s' → ginv s'.
Proof.
  intros Hg Hi Hs. unfold moveInstsToBuffer in Hs. destruct insts as [|first rest];
    [by injection Hs as <-|].
  apply res_bind_Ok in Hs as (fb & [_ Hfb]%nth_res_Ok & Hs).
  apply res_bind_Ok in Hs as (fb' & Hf & Hs).
  apply res_bind_Ok in Hs as (fixed & (_ & _ & ->)%set_nth_inv & Hs). injection Hs as <-.
  destruct (gv_buf _ Hg fb) as [B1 B2]; [by eapply list_elem_of_lookup_2|].
  assert (Forall (inst_static K) (cb_elems fb') ∧ length (cb_elems fb') ≤ cb_capacity fb') as [].
  { eapply (res_fold_keep _ (λ fb, Forall (inst_static K) (cb_elems fb) ∧
      length (cb_elems fb) ≤ cb_capacity fb)); [by split| |exact Hf].
    intros fb1 inst fb2 Hin [F1 F2] H3. cbn beta in H3.
    apply res_bind_Ok in H3 as ([] & _ & H3). apply res_bind_Ok in H3 as (old & _ & H3).
    destruct old; [by injection H3 as <-|]. apply res_bind_Ok in H3 as ([] & Hfull & H3).
    injection H3 as <-. unfold assert_, cb_full in Hfull.
    case_bool_decide as E; [done|]. rewrite cb_cap_push, cb_elems_push by lia.
    split; [|rewrite length_app; simpl; lia]. apply Forall_app. split; [done|].
    apply Forall_singleton. rewrite Forall_forall in Hi. by apply Hi. }
  by apply ginv_fixed.
Qed.

(** ** Renaming a group *)

Lemma fold_all {A B} (f : A → res B) (g : A → B → bool) l b :
  res_fold (λ ok c, let! x := f c in Ok (ok && g c x)) b l = Ok true →
  b = true ∧ ∀ c, c ∈ l → ∃ x, f c = Ok x ∧ g c x = true.
Proof.
  revert b. induction l as [|a l IH]; intros b Hf; simpl in Hf.
  { injection Hf as ->. split; [done|]. by intros c ?%elem_of_nil. }
  apply res_bind_Ok in Hf as (b' & Hb & Hf). apply res_bind_Ok in Hb as (x & Hx & Hb).
  injection Hb as <-. apply IH in Hf as [[-> Hg]%andb_true_iff Hl]. split; [done|].
  intros c [->|Hc]%elem_of_cons; [by exists x|by apply Hl].
Qed.

Lemma canRename_demand (s : State) tid fb c :
  regs_ok U (rs_regs s) → nth_res (rs_fixed s) tid = Ok fb → canRename p s tid = Ok true →
  c ∈ renameClasses →
  (demand (cb_elems fb) c ≤ Z.of_nat (length (free_of (rs_regs s) c)))%Z.
Proof.
  intros Hok Hfb Hcan Hc. unfold canRename in Hcan. rewrite Hfb in Hcan. cbn [res_bind] in Hcan.
  apply (fold_all (numFreeRegs (rs_regs s))) in Hcan as [_ Hall].
  destruct (Hall c Hc) as (x & Hx & Hle%Z.leb_le). unfold numFreeRegs in Hx.
  rewrite (free_nth U) in Hx by done. injection Hx as <-.
  destruct c; lia.
Qed.

(** The state of the thread before and after its group. *)
Record group_renamed (s s' : State) (tid : nat) (fb : C) (m m' : UnifiedRenameMap)
    (h new : list RenameHistory) : Prop := {
  gr_maps : rs_maps s' = <[tid := m']> (rs_maps s);
  gr_hist : rs_hist s' = <[tid := new ++ h]> (rs_hist s);
  gr_renamed : renamed U (others s m h) m h (rs_regs s) (demand (cb_elems fb)) m' new (rs_regs s');
  gr_seqs : Forall (λ e, instSeqNum e ∈ map seqNum (live_insts (cb_elems fb))) new
}.

Lemma renameInsts_spec (s : State) tid fb m h out :
  ginv s → nth_res (rs_fixed s) tid = Ok fb → canRename p s tid = Ok true →
  nth_res (rs_maps s) tid = Ok m → nth_res (rs_hist s) tid = Ok h →
  ∃ s' out' m' new, renameInsts p vp s tid out = Ok (s', out') ∧ ginv s' ∧
    group_renamed s s' (Z.to_nat tid) fb m m' h new ∧
    map seqNum (o_toIEW out') =
      map seqNum (o_toIEW out) ++ map seqNum (live_insts (cb_elems fb)) ∧
    ∃ fb', rs_fixed s' = <[Z.to_nat tid := fb']> (rs_fixed s) ∧ cb_elems fb' = [].
Proof.
  intros Hg Hfb Hcan Hm Hh. pose proof Hfb as [_ Lfb]%nth_res_Ok.
  pose proof Hm as [_ Lm]%nth_res_Ok. pose proof Hh as [_ Lh]%nth_res_Ok.
  pose proof (thread_view s _ _ _ Hg Lm Lh) as Ht.
  destruct (gv_buf _ Hg fb) as [B1 B2]; [by eapply list_elem_of_lookup_2|].
  unfold renameInsts. rewrite Hfb, Hm, Hh. cbn [res_bind].
  destruct (rename_loop_spec p vp U (others s m h) (cb_elems fb)
    (mkTR m h (rs_regs s) (rs_sb s) [])) as (t' & insts & stalls & new & Hr & Hh' & Hs & Hn & Ho).
  - done.
  - eapply Forall_impl; [exact B1|]. intros d Hd. eapply inst_static_ok; [|exact Hd].
    intros a Ha. apply (gv_dom _ Hg); [by eapply list_elem_of_lookup_2|done].
  - intros c Hc. simpl. by eapply canRename_demand; [apply Hg|..].
  - rewrite Hr. cbn [res_bind]. rewrite (set_nth_total _ _ _ _ Hm). cbn [res_bind].
    rewrite (set_nth_total _ _ _ _ Hh). cbn [res_bind].
    rewrite (set_nth_total _ _ _ _ Hfb). cbn [res_bind].
    assert (cb_elems (Nat.iter (length (cb_elems fb)) cb_pop_front fb) = []) as Hempty.
    { assert (∀ n, n ≤ length (cb_elems fb) →
        cb_elems (Nat.iter n cb_pop_front fb) = drop n (cb_elems fb)) as Hd.
      { induction n as [|n IH]; intros Hle; [done|]. simpl. rewrite cb_elems_pop, IH by
          (try lia; rewrite IH by lia; intros E%(f_equal length); rewrite length_drop in E;
           simpl in E; lia).
        change (tail (drop n (cb_elems fb))) with (drop 1 (drop n (cb_elems fb))).
        rewrite drop_drop. f_equal. lia. }
      rewrite Hd by done. by apply drop_ge. }
    assert (∀ st : list StallReason, ginv (match st with
      | r :: _ => setAllStalls (with_fixed (with_thread s (<[Z.to_nat tid:=t_map t']> (rs_maps s))
          (<[Z.to_nat tid:=t_hist t']> (rs_hist s)) (t_regs t') (t_sb t'))
          (<[Z.to_nat tid:=Nat.iter (length (cb_elems fb)) cb_pop_front fb]> (rs_fixed s))) r
      | [] => with_fixed (with_thread s (<[Z.to_nat tid:=t_map t']> (rs_maps s))
          (<[Z.to_nat tid:=t_hist t']> (rs_hist s)) (t_regs t') (t_sb t'))
          (<[Z.to_nat tid:=Nat.iter (length (cb_elems fb)) cb_pop_front fb]> (rs_fixed s)) end))
      as Hginv.
    { assert (ginv (with_fixed (with_thread s (<[Z.to_nat tid:=t_map t']> (rs_maps s))
          (<[Z.to_nat tid:=t_hist t']> (rs_hist s)) (t_regs t') (t_sb t'))
          (<[Z.to_nat tid:=Nat.iter (length (cb_elems fb)) cb_pop_front fb]> (rs_fixed s)))) as Hg'.
      { apply (ginv_fixed (with_thread s _ _ _ _)); [|by rewrite Hempty|rewrite Hempty; simpl; lia].
        eapply thread_update; [done|done|done| |apply Hn]. rewrite Hh'. apply Hn. }
      intros [|r st]; [done|]. by eapply ginv_same; [..|exact Hg']. }
    do 2 eexists. exists (t_map t'), new. split; [done|]. split; [apply Hginv|].
    split; [|split; [simpl; by rewrite map_app, Ho|]].
    + simpl in Hh'. split; [by destruct stalls|destruct stalls; simpl; by rewrite Hh'| |done].
      by destruct stalls.
    + eexists. split; [by destruct stalls|done].
Qed.

(** The thread that is picked can be renamed. *)
Lemma pick_can (s : State) iew ids pk pk' :
  res_fold (pick_thread p s iew) pk ids = Ok pk' →
  (∀ t, pk_tid pk = Some t → canRename p s t = Ok true) →
  ∀ t, pk_tid pk' = Some t → canRename p s t = Ok true.
Proof.
  intros Hf H0'. eapply (res_fold_keep _ (λ pk, ∀ t, pk_tid pk = Some t → canRename p s t = Ok true));
    [exact H0'| |exact Hf].
  clear. intros pk i pk' _ Hpk Hp t Ht. unfold pick_thread in Hp. cbn zeta in Hp.
  apply res_bind_Ok in Hp as (can & Hcan & Hp). apply res_bind_Ok in Hp as (br & _ & Hp).
  apply res_bind_Ok in Hp as (fb & _ & Hp). apply res_bind_Ok in Hp as (reason & _ & Hp).
  apply res_bind_Ok in Hp as (sg & _ & Hp). apply res_bind_Ok in Hp as (sg2 & _ & Hp).
  apply res_bind_Ok in Hp as (info & _ & Hp).
  destruct (negb (br || negb can) && negb (cb_empty fb)) eqn:Ea.
  - destruct (pk_tid pk) as [t0|] eqn:Et.
    + apply res_bind_Ok in Hp as (sg3 & _ & Hp). apply res_bind_Ok in Hp as (sg4 & _ & Hp).
      injection Hp as <-. simpl in Ht. apply Hpk. congruence.
    + injection Hp as <-. simpl in Ht. injection Ht as <-.
      apply andb_true_iff in Ea as [Ea _]. apply negb_true_iff, orb_false_iff in Ea as [_ Ea].
      apply negb_false_iff in Ea. by rewrite Hcan, Ea.
  - destruct (_ && _) in Hp; injection Hp as <-; simpl in Ht; by apply Hpk.
Qed.

Lemma updateActivate_ginv (s s' : State) calls :
  ginv s → updateActivate s = (s', calls) → ginv s'.
Proof.
  intros Hg Hu. unfold updateActivate in Hu. destruct (rs_status s); injection Hu as <- _; [done|].
  by eapply ginv_same; [..|exact Hg].
Qed.

Lemma finish_tick_ginv (s s' : State) tid ti out out' :
  ginv s → finish_tick s tid ti out = Ok (s', out') → ginv s'.
Proof.
  intros Hg Hf. unfold finish_tick in Hf. apply res_bind_Ok in Hf as (b & _ & Hf).
  apply res_bind_Ok in Hf as (s1 & Hs1 & Hf). apply res_bind_Ok in Hf as (bd & _ & Hf).
  apply res_bind_Ok in Hf as (sg & _ & Hf). apply res_bind_Ok in Hf as (info & _ & Hf).
  destruct (updateActivate s1) as [s2 calls] eqn:E. injection Hf as <- _.
  eapply updateActivate_ginv; [|exact E]. eapply ginv_same; [..|exact Hg];
    repeat case_match; res_inv; repeat case_match; res_inv; done.
Qed.

Lemma tick_ginv (s s' : State) ti out :
  ginv s → Forall (inst_static K) (in_insts ti) → tick p vp s ti = Ok (s', out) → ginv s'.
Proof.
  intros Hg Hi Ht. unfold tick in Ht. cbn zeta in Ht.
  apply res_bind_Ok in Ht as (s1 & Hs1 & Ht).
  apply moveInstsToBuffer_ginv in Hs1; [|by eapply ginv_same; [..|exact Hg]|done].
  apply res_bind_Ok in Ht as (s2 & Hs2 & Ht). apply checkSquash_ginv in Hs2; [|done].
  apply res_bind_Ok in Ht as (s3 & Hs3 & Ht). apply releasePhysRegs_ginv in Hs3; [|done].
  apply res_bind_Ok in Ht as (pk & Hpk & Ht).
  assert (∀ t, pk_tid pk = Some t → canRename p s3 t = Ok true) as Hcan
    by (by eapply pick_can).
  destruct (pk_tid pk) as [tid|].
  - apply res_bind_Ok in Ht as ([s4 out4] & Hr & Ht). eapply finish_tick_ginv; [|exact Ht].
    pose proof Hr as Hr'. unfold renameInsts in Hr'.
    apply res_bind_Ok in Hr' as (fb & Hfb & Hr'). apply res_bind_Ok in Hr' as (m & Hm & Hr').
    apply res_bind_Ok in Hr' as (h & Hh & _).
    destruct (renameInsts_spec s3 tid fb m h (mkOut [] [] (pk_sig pk) (pk_info pk) []) Hs3 Hfb
      (Hcan tid eq_refl) Hm Hh) as (s5 & out5 & m5 & n5 & Hr5 & Hg5 & _). congruence.
  - apply res_bind_Ok in Ht as (s4 & Hs4 & Ht).
    destruct (updateActivate s4) as [s5 calls] eqn:E. injection Ht as <- _.
    eapply updateActivate_ginv; [|exact E].
    eapply ginv_same; [..|exact Hs3]; destruct (pk_blocked pk); res_inv; done.
Qed.

End Stage.
End RenameStage.
