(* ===== verification/RenameInit.v ===== *)
(** The invariant of renaming holds initially, and so in every reachable state. *)
From S2P Require Import Prelude RegFile Inst Comm CircularBuffer RenameMap Rename.
From S2P Require Import RenameRefs RenameInv RenameGroup RenameStage.
Import RenameMap Rename RenameRefs RenameInv RenameGroup RenameStage.

Module RenameInit.

(** ** The initial free lists *)

Definition all_regs (n : RegClassType → nat) : gset PhysRegId :=
  list_to_set (concat (freeLists (initFreeList n))).

Lemma init_free_of n c :
  c ∈ renameClasses →
  free_of (initFreeList n) c = map (λ i, mkPhys c (Z.of_nat i)) (seq 0 (n c)).
Proof. intros [? ?]%renameClasses_fixed. by destruct c. Qed.

Lemma elem_of_init n c q :
  c ∈ renameClasses → q ∈ free_of (initFreeList n) c → p_class q = c.
Proof. intros Hc. rewrite init_free_of by done. by intros (i & -> & _)%list_elem_of_fmap. Qed.

Lemma elem_of_all n q :
  q ∈ all_regs n ↔ p_class q ∈ renameClasses ∧ q ∈ free_of (initFreeList n) (p_class q).
Proof.
  unfold all_regs. rewrite elem_of_list_to_set. split.
  - intros (l & Hl & Hq)%list_elem_of_In%in_concat.
    assert (∃ c, c ∈ renameClasses ∧ l = map (λ i, mkPhys c (Z.of_nat i)) (seq 0 (n c)))
      as (c & Hc & ->).
    { apply in_map_iff in Hl as (c & <- & Hc%list_elem_of_In). by exists c. }
    apply list_elem_of_In in Hq. rewrite <- init_free_of in Hq by done.
    rewrite (elem_of_init n c q Hc Hq). done.
  - intros [Hc Hq]. apply list_elem_of_In, in_concat. rewrite init_free_of in Hq by done.
    eexists. split; [|by apply list_elem_of_In].
    apply in_map_iff. exists (p_class q). split; [done|by apply list_elem_of_In].
Qed.

Lemma init_regs_ok n : regs_ok (all_regs n) (initFreeList n).
Proof.
  split; try done.
  - intros q [Hc _]%elem_of_all. by apply fixed_class.
  - intros c q Hc. split.
    + intros Hq. pose proof (elem_of_init n c q Hc Hq) as E.
      split; [apply elem_of_all; by rewrite E|]. by split.
    + intros ([_ Hq]%elem_of_all & <- & _). done.
  - intros c Hc. rewrite init_free_of by done. apply NoDup_fmap; [|apply NoDup_seq].
    intros i j [= E]. lia.
Qed.

(** ** The initial maps *)

Lemma map_init_at k a :
  isRenameable a = true → a ∈ arch_regs k ↔ ∃ v, map_at (map_init k) a = Ok v.
Proof.
  intros Hr%renameable_class. pose proof (renameClasses_num _ Hr) as [Hn0 Hn7].
  assert (map_init k !! Z.to_nat (class_num (regClass a)) =
    Some (replicate (k (regClass a)) VirtRegId_null)) as Hl.
  { apply renameClasses_fixed in Hr as [? ?]. by destruct (regClass a). }
  assert ((∃ v, map_at (map_init k) a = Ok v) ↔
    (0 ≤ regIdx a < Z.of_nat (k (regClass a)))%Z) as ->.
  { unfold map_at. rewrite (proj2 (nth_res_Ok _ _ _)) by (split; [done|exact Hl]).
    cbn [res_bind]. split.
    - intros [v [Hi Hv%lookup_lt_Some]%nth_res_Ok]. rewrite length_replicate in Hv. lia.
    - intros [? ?]. exists VirtRegId_null. apply nth_res_Ok. split; [done|].
      apply lookup_replicate. split; [done|lia]. }
  unfold arch_regs. rewrite list_elem_of_In, in_concat. split.
  - intros (l & Hl' & Ha). apply in_map_iff in Hl' as (c & <- & _).
    apply in_map_iff in Ha as (i & <- & Hi%in_seq). simpl. lia.
  - intros [? ?]. eexists. split; [apply in_map_iff; exists (regClass a); split; [done|]|].
    + by apply list_elem_of_In.
    + apply in_map_iff. exists (Z.to_nat (regIdx a)). rewrite Z2Nat.id by done.
      split; [by destruct a|]. apply in_seq. lia.
Qed.

Lemma arch_regs_renameable k a : a ∈ arch_regs k → isRenameable a = true.
Proof.
  unfold arch_regs. rewrite list_elem_of_In, in_concat. intros (l & Hl & Ha).
  apply in_map_iff in Hl as (c & <- & Hc%list_elem_of_In).
  apply in_map_iff in Ha as (i & <- & _). by apply renameable_class.
Qed.

(** The initial map names no register. *)
Lemma map_init_cnt k q : map_cnt q (map_init k) = 0%Z.
Proof.
  assert (∀ j, sumZ (ind q) (replicate j VirtRegId_null) = 0%Z) as Hj.
  { induction j as [|j IH]; [done|]. simpl. rewrite sumZ_cons, IH. done. }
  unfold map_cnt, map_init. simpl. rewrite !sumZ_cons, !Hj. done.
Qed.

Lemma map_put_dom m a v m' b :
  map_put m a v = Ok m' → (∃ w, map_at m' b = Ok w) ↔ ∃ w, map_at m b = Ok w.
Proof.
  intros Hp. destruct (decide (a = b)) as [->|Hne]; [|by rewrite (map_put_at_ne _ _ _ _ _ Hp Hne)].
  split; intros _; [|exists v; by eapply map_put_at].
  apply map_put_inv in Hp as (l & Hc & Hl & Hi & Hlt & _).
  destruct (lookup_lt_is_Some_2 l _ Hlt) as [w Hw]. exists w. unfold map_at.
  rewrite (proj2 (nth_res_Ok _ _ l)) by done. simpl. by apply nth_res_Ok.
Qed.

(** After the registers [done] have got theirs. *)
Record filling (U : gset PhysRegId) (k : RegClassType → nat) (extra : PhysRegId → Z)
    (todo : list RegId) (m : UnifiedRenameMap) (rg : RegState) : Prop := {
  fl_regs : regs_ok U rg;
  fl_ref q : getRef rg q = (extra q + map_cnt q m)%Z;
  fl_dom a : isRenameable a = true → a ∈ arch_regs k ↔ ∃ v, map_at m a = Ok v;
  fl_done a v : a ∉ todo → isRenameable a = true → map_at m a = Ok v →
    entry_ok U (regClass a) v;
  fl_todo a : a ∈ todo → map_at m a = Ok VirtRegId_null;
  fl_nodup : NoDup todo
}.

Definition init_step (mr : UnifiedRenameMap * RegState) (a : RegId)
    : res (UnifiedRenameMap * RegState) :=
  let '(m, rg) := mr in
  let! r := free_getReg rg (regClass a) in
  let '(q, rg') := r in
  let! m' := setEntry m a (virt q) in
  Ok (m', rg').

Lemma init_step_filling U k extra a todo m rg m' rg' :
  filling U k extra (a :: todo) m rg → isRenameable a = true →
  init_step (m, rg) a = Ok (m', rg') → filling U k extra todo m' rg'.
Proof.
  intros [F1 F2 F3 F4 F5 F6] Hra Hs. unfold init_step in Hs.
  apply res_bind_Ok in Hs as ([q rg1] & Hg & Hs). apply res_bind_Ok in Hs as (m1 & Hm1 & Hs).
  injection Hs as <- <-. apply renameable_class in Hra as Hcl.
  assert (∃ rest, free_of rg (regClass a) = q :: rest) as [rest Hf].
  { unfold free_getReg in Hg. rewrite (free_nth U) in Hg by done. cbn [res_bind] in Hg.
    destruct (free_of rg (regClass a)) as [|q' rest]; [done|]. exists rest.
    apply res_bind_Ok in Hg as (ls & _ & Hg). by injection Hg as <- _. }
  destruct (free_getReg_spec U rg _ q rest F1 Hcl Hf)
    as (rg2 & Hg2 & Hok & HqU & Hqc & _ & Hqr & _ & _).
  rewrite Hg in Hg2. injection Hg2 as <-.
  assert (map_put m a (virt q) = Ok m1) as Hput.
  { unfold setEntry in Hm1. simpl in Hm1. rewrite Hra in Hm1.
    apply res_bind_Ok in Hm1 as ([] & _ & Hm1). simpl in Hm1.
    destruct (map_put_total m a (virt q) VirtRegId_null) as [m2 Hm2]; [apply F5; set_solver|].
    rewrite (map_setEntry_put _ _ _ _ Hm2) in Hm1. congruence. }
  apply NoDup_cons in F6 as [Hnin F6].
  split; try done.
  - intros q'. rewrite Hqr, F2, (map_cnt_put q' _ _ _ _ _ Hput (F5 a ltac:(set_solver))).
    unfold ind. simpl. replace (bool_decide (Some q = Some q')) with (bool_decide (q' = q))
      by (apply bool_decide_ext; naive_solver). lia.
  - intros b Hb. rewrite (F3 b Hb). symmetry. by eapply map_put_dom.
  - intros b v Hb Hrb Hv. destruct (decide (a = b)) as [->|Hne].
    + rewrite (map_put_at _ _ _ _ Hput) in Hv. injection Hv as <-. exists q. by split; [|right].
    + rewrite (map_put_at_ne _ _ _ _ _ Hput Hne) in Hv. apply F4; [|done|done]. set_solver.
  - intros b Hb. rewrite (map_put_at_ne _ _ _ _ _ Hput) by (intros ->; done).
    apply F5. set_solver.
Qed.

Lemma init_fold U k extra todo m rg m' rg' :
  filling U k extra todo m rg → Forall (λ a, isRenameable a = true) todo →
  res_fold init_step (m, rg) todo = Ok (m', rg') → filling U k extra [] m' rg'.
Proof.
  revert m rg. induction todo as [|a todo IH]; intros m rg Hf Hr Hrun; simpl in Hrun;
    [by injection Hrun as <- <-|].
  apply res_bind_Ok in Hrun as ([m1 rg1] & Hs & Hrun). inversion_clear Hr as [|? ? Ha Hr'].
  eapply (IH m1 rg1); [|done|done]. by eapply init_step_filling.
Qed.

Lemma arch_regs_nodup k : NoDup (arch_regs k).
Proof.
  unfold arch_regs. assert (NoDup renameClasses) as Hn by by apply (bool_decide_unpack _).
  induction Hn as [|c cs Hc Hcs IH]; simpl; [constructor|].
  apply NoDup_app. split; [|split; [|done]].
  - apply NoDup_fmap; [|apply NoDup_seq]. intros i j [= E]. lia.
  - intros a Ha Hb. apply list_elem_of_In, in_map_iff in Ha as (i & <- & _).
    apply list_elem_of_In, in_concat in Hb as (l & Hl & Ha).
    apply in_map_iff in Hl as (d & <- & Hd%list_elem_of_In).
    apply in_map_iff in Ha as (j & [= -> _] & _). done.
Qed.

Lemma map_init_null k a v : map_at (map_init k) a = Ok v → v = VirtRegId_null.
Proof.
  intros (l & _ & Hl & _ & Hv)%map_at_inv. unfold map_init in Hl.
  apply list_lookup_fmap_Some_1 in Hl as (c & -> & _). by apply lookup_replicate in Hv as [-> _].
Qed.

Lemma init_thread_ok U k extra rg m rg' :
  regs_ok U rg → (∀ q, getRef rg q = extra q) → init_thread k rg = Ok (m, rg') →
  regs_ok U rg' ∧ (∀ q, getRef rg' q = extra q + map_cnt q m)%Z ∧ map_ok U m ∧
  ∀ a, a ∈ arch_regs k → mapped m a.
Proof.
  intros Hok Href Hrun.
  assert (filling U k extra (arch_regs k) (map_init k) rg) as Hf.
  { split; try done.
    - intros q. rewrite map_init_cnt, Href. lia.
    - intros a Ha. by apply map_init_at.
    - intros a v Hn Hr Hv. destruct Hn. apply map_init_at; [done|by exists v].
    - intros a Ha. pose proof (arch_regs_renameable k a Ha) as Hr.
      apply (map_init_at k a Hr) in Ha as [v Hv]. by rewrite Hv, (map_init_null k a v Hv).
    - apply arch_regs_nodup. }
  apply (init_fold U k extra) in Hrun as [F1 F2 F3 F4 _ _]; [|done|].
  - split; [done|]. split; [done|]. split.
    + intros a v Hr Hv. apply F4; [set_solver|done|done].
    + intros a Ha Hr. by apply F3.
  - apply Forall_forall. intros a. apply arch_regs_renameable.
Qed.

Lemma init_threads_ok U k threads : ∀ extra rg ms rg',
  regs_ok U rg → (∀ q, getRef rg q = extra q) → init_threads k threads rg = Ok (ms, rg') →
  length ms = threads ∧ regs_ok U rg' ∧
  (∀ q, getRef rg' q = extra q + sumZ (map_cnt q) ms)%Z ∧
  ∀ m, m ∈ ms → map_ok U m ∧ ∀ a, a ∈ arch_regs k → mapped m a.
Proof.
  induction threads as [|n IH]; intros extra rg ms rg' Hok Href Hrun; simpl in Hrun.
  { injection Hrun as <- <-. split; [done|]. split; [done|].
    split; [intros q; rewrite Href; unfold sumZ; simpl; lia|]. by intros m ?%elem_of_nil. }
  apply res_bind_Ok in Hrun as ([m rg1] & Hm & Hrun).
  apply res_bind_Ok in Hrun as ([ms' rg2] & Hms & Hrun). injection Hrun as <- <-.
  destruct (init_thread_ok U k extra rg m rg1 Hok Href Hm) as (O1 & R1 & M1 & D1).
  destruct (IH (λ q, extra q + map_cnt q m)%Z rg1 ms' rg2 O1 R1 Hms) as (L & O2 & R2 & M2).
  split; [simpl; by rewrite L|]. split; [done|]. split.
  - intros q. rewrite R2, sumZ_cons. lia.
  - intros m' [->|Hin]%elem_of_cons; [done|by apply M2].
Qed.

End RenameInit.
