(* ===== verification/RenameProps.v ===== *)
(** What the rename stage guarantees.

    Reference counts and free lists in every reachable state, renaming a group,
    undoing it, and the values that eliminated moves and folded additions give. *)
From S2P Require Import Prelude RegFile Inst Comm CircularBuffer Fusion FusionCorrect.
From S2P Require Import RenameMap Rename RenameRefs RenameInv RenameGroup RenameStage RenameInit.
Import Fusion RenameMap Rename RenameRefs RenameInv RenameGroup RenameStage RenameInit.

Module RenameProps.

Section Stage.

Context (p : RenameParams) (vp : ValuePredictor).
Context {C : Type} `{CircularBufferLaws C DynInst}.
Context (k n : RegClassType → nat) (threads : nat).
Abbreviation State := (RenameState C).

(** The registers of the ISA. *)
Definition known (a : RegId) : Prop := a ∈ arch_regs k.

(** The states of the stage: decode delivers instructions on registers of the
    ISA. *)
Inductive reachable : State → Prop :=
  | reach_new s : Rename_new p k n threads = Ok s → reachable s
  | reach_tick s ti s' out :
      reachable s → Forall (inst_static known) (in_insts ti) →
      tick p vp s ti = Ok (s', out) → reachable s'.

Lemma replicate_sumZ {A} (f : A → Z) j x : f x = 0%Z → sumZ f (replicate j x) = 0%Z.
Proof. intros E. induction j as [|j IH]; [done|]. simpl. rewrite sumZ_cons, IH, E. done. Qed.

Lemma new_ginv (s : State) :
  Rename_new p k n threads = Ok s → ginv (all_regs n) known s.
Proof.
  unfold Rename_new. intros Hs. apply res_bind_Ok in Hs as ([] & _ & Hs).
  apply res_bind_Ok in Hs as ([ms rg] & Hi & Hs). injection Hs as <-.
  destruct (init_threads_ok (all_regs n) k threads (λ _, 0%Z) _ ms rg
    (init_regs_ok n) (λ _, eq_refl) Hi) as (L & Hok & Href & Hm).
  split; cbn [rs_maps rs_hist rs_regs rs_fixed].
  - by rewrite length_replicate.
  - intros q _. rewrite Href, replicate_sumZ by done. lia.
  - done.
  - intros m Hin. by apply Hm.
  - intros m a Hin Ha. by apply Hm.
  - intros i m h _ [-> _]%lookup_replicate. done.
  - intros fb Hfb. apply (elem_of_replicate MaxThreads (cb_new _)) in Hfb as [-> _]. rewrite cb_elems_new. split; [constructor|simpl; lia].
Qed.

Lemma reachable_ginv (s : State) : reachable s → ginv (all_regs n) known s.
Proof.
  induction 1 as [s Hs|s ti s' out _ IH Hi Ht]; [by apply new_ginv|].
  by eapply tick_ginv.
Qed.

(** ** The counts and the free lists *)

(** How many mappings and pending history entries use [q]. *)
Definition uses (s : State) (q : PhysRegId) : Z :=
  (sumZ (map_cnt q) (rs_maps s) + sumZ (hist_cnt q) (rs_hist s))%Z.

(** C2: In every reachable state of the rename stage the reference count of a
    physical register is the number of rename-map entries and of pending history
    entries that use it, and the free list of each class holds, without duplicates,
    exactly the registers of that class that nothing uses: no register leaks and
    none is handed out while it is live. *)
Theorem rename_refs_invariant (s : State) :
  reachable s →
  (∀ q, isFixedMapping q = false → getRef (rs_regs s) q = uses s q) ∧
  ∀ c, c ∈ renameClasses → NoDup (free_of (rs_regs s) c) ∧
    ∀ q, q ∈ free_of (rs_regs s) c ↔ q ∈ all_regs n ∧ p_class q = c ∧ uses s q = 0%Z.
Proof.
  intros Hg%reachable_ginv. pose proof (gv_ref _ _ _ Hg) as Href.
  destruct (gv_regs _ _ _ Hg) as [_ Hfix Hfree Hnd _]. split; [done|].
  intros c Hc. split; [by apply Hnd|]. intros q. rewrite (Hfree c q Hc).
  split; intros (HU & Hq & Hz); (split; [done|]); (split; [done|]);
    by rewrite <- Hz, (Href q (Hfix q HU)).
Qed.

(** ** Renaming a group *)

(** C16: When [canRename] accepts the buffered group of a thread in a reachable
    state, [renameInsts] renames it without failing an assertion: every instruction
    that is not squashed is sent to IEW once and in order, the buffer is emptied,
    and the other threads' maps and histories are untouched. *)
Theorem rename_group_complete (s : State) tid fb m h out :
  reachable s → nth_res (rs_fixed s) tid = Ok fb → nth_res (rs_maps s) tid = Ok m →
  nth_res (rs_hist s) tid = Ok h → canRename p s tid = Ok true →
  ∃ s' out', renameInsts p vp s tid out = Ok (s', out') ∧
    map seqNum (o_toIEW out') =
      map seqNum (o_toIEW out) ++ map seqNum (live_insts (cb_elems fb)) ∧
    (∃ fb', rs_fixed s' = <[Z.to_nat tid := fb']> (rs_fixed s) ∧ cb_elems fb' = []) ∧
    (∃ m', rs_maps s' = <[Z.to_nat tid := m']> (rs_maps s)) ∧
    ∃ new, rs_hist s' = <[Z.to_nat tid := new ++ h]> (rs_hist s) ∧
      Forall (λ e, instSeqNum e ∈ map seqNum (live_insts (cb_elems fb))) new.
Proof.
  intros Hg%reachable_ginv Hfb Hm Hh Hcan.
  destruct (renameInsts_spec p vp _ _ s tid fb m h out Hg Hfb Hcan Hm Hh)
    as (s' & out' & m' & new & Hr & _ & [G1 G2 _ G4] & Ho & Hfb').
  exists s', out'. split; [done|]. split; [done|]. split; [done|]. split; [by exists m'|].
  by exists new.
Qed.

(** ** Undoing a group *)

(** The register state is the same, up to the order of the free lists. *)
Definition same_regs (r1 r2 : RegState) : Prop :=
  (∀ q, isFixedMapping q = false → getRef r1 q = getRef r2 q) ∧
  ∀ c, c ∈ renameClasses → free_of r1 c ≡ₚ free_of r2 c.

Lemma tinv_same U extra m h rg1 rg2 :
  tinv U extra m h rg1 → tinv U extra m h rg2 → same_regs rg1 rg2.
Proof.
  intros [R1 _ O1 _ _] [R2 _ O2 _ _].
  assert (∀ q, isFixedMapping q = false → getRef rg1 q = getRef rg2 q) as E
    by (intros q Hq; by rewrite R1, R2).
  split; [done|]. intros c Hc. apply NoDup_Permutation; [by apply O1|by apply O2|].
  intros q. rewrite (ro_free _ _ O1 c q Hc), (ro_free _ _ O2 c q Hc).
  split; intros (HU & Hq & Hz); (split; [done|]); (split; [done|]);
    rewrite <- Hz; by rewrite (E q (ro_fixed _ _ O1 q HU)).
Qed.

Lemma squash_undoes U K (s s' : State) tid fb m m' h new seq :
  ginv U K s → group_renamed U s s' (Z.to_nat tid) fb m m' h new → (0 ≤ tid)%Z →
  rs_maps s !! Z.to_nat tid = Some m → rs_hist s !! Z.to_nat tid = Some h →
  Z.to_nat tid < length (rs_fixed s') →
  Forall (λ d, (seq < seqNum d)%Z) (live_insts (cb_elems fb)) →
  (∀ e, head h = Some e → (instSeqNum e ≤ seq)%Z) →
  ∃ s'', squash s' seq tid = Ok s'' ∧ rs_maps s'' = rs_maps s ∧ rs_hist s'' = rs_hist s ∧
    same_regs (rs_regs s'') (rs_regs s).
Proof.
  intros Hg [G1 G2 [Gt Gu _ _] G4] Htid Hm Hh Hfix Hseq Hold.
  assert (Forall (λ e, (seq < instSeqNum e)%Z) new) as Hnew.
  { eapply Forall_impl; [exact G4|]. intros e (d & -> & Hd)%list_elem_of_fmap.
    by apply (proj1 (Forall_forall _ _) Hseq). }
  destruct (doSquash_spec U _ seq new h m' _ Gt Hnew Hold) as (m1 & rg1 & Hd & Hu & Ht1).
  rewrite Gu in Hu. injection Hu as <-.
  apply lookup_lt_Some in Hm as Lm. apply lookup_lt_Some in Hh as Lh.
  destruct (lookup_lt_is_Some_2 _ _ Hfix) as [fb' Hfb'].
  unfold squash. rewrite (proj2 (nth_res_Ok _ _ fb')) by done. cbn [res_bind].
  rewrite (set_nth_total _ _ _ fb') by (by apply nth_res_Ok). cbn [res_bind].
  simpl rs_maps. simpl rs_hist. simpl rs_regs. rewrite G1, G2.
  rewrite (proj2 (nth_res_Ok _ _ m')) by (by rewrite list_lookup_insert_eq). cbn [res_bind].
  rewrite (proj2 (nth_res_Ok _ _ (new ++ h))) by (by rewrite list_lookup_insert_eq).
  cbn [res_bind]. rewrite Hd. cbn [res_bind].
  rewrite (set_nth_total _ _ m m') by (apply nth_res_Ok; by rewrite list_lookup_insert_eq).
  cbn [res_bind].
  rewrite (set_nth_total _ _ h (new ++ h))
    by (apply nth_res_Ok; by rewrite list_lookup_insert_eq).
  cbn [res_bind]. eexists. split; [done|]. simpl. rewrite !list_insert_insert_eq.
  split; [by apply list_insert_id|]. split; [by apply list_insert_id|].
  eapply tinv_same; [exact Ht1|]. by eapply thread_view.
Qed.

(** C7: Renaming a thread's group and then squashing everything younger than
    [seq], when the group is younger and the thread's earlier renames are not,
    gives back the rename maps and the history, every reference count, and the same
    free registers, whatever moves and additions were eliminated in between. *)
Theorem rename_squash_restores (s : State) tid fb m h out seq :
  reachable s → nth_res (rs_fixed s) tid = Ok fb → nth_res (rs_maps s) tid = Ok m →
  nth_res (rs_hist s) tid = Ok h → canRename p s tid = Ok true →
  Forall (λ d, (seq < seqNum d)%Z) (live_insts (cb_elems fb)) →
  (∀ e, head h = Some e → (instSeqNum e ≤ seq)%Z) →
  ∃ s' out' s'', renameInsts p vp s tid out = Ok (s', out') ∧ squash s' seq tid = Ok s'' ∧
    rs_maps s'' = rs_maps s ∧ rs_hist s'' = rs_hist s ∧
    same_regs (rs_regs s'') (rs_regs s).
Proof.
  intros Hg%reachable_ginv Hfb Hm Hh Hcan Hseq Hold.
  destruct (renameInsts_spec p vp _ _ s tid fb m h out Hg Hfb Hcan Hm Hh)
    as (s' & out' & m' & new & Hr & _ & Hgr & _ & fb' & Efix & _).
  apply nth_res_Ok in Hm as [Htid Hm]. apply nth_res_Ok in Hh as [_ Hh].
  apply nth_res_Ok in Hfb as [_ Hfb].
  destruct (squash_undoes _ _ s s' tid fb m m' h new seq Hg Hgr Htid Hm Hh) as (s'' & Hs & E);
    [|done|done|by exists s', out', s''].
  rewrite Efix, length_insert. by eapply lookup_lt_Some.
Qed.

End Stage.

(** ** Values *)

(** The value an architectural register reads as. *)
Definition reads (rf : PhysRegFile) (m : UnifiedRenameMap) (a : RegId) : res Z :=
  let! v := lookup m a in getReg rf v.

(** The result of a bypassed instruction on the value of its source. *)
Definition bypassed_value (p : RenameParams) (d : DynInst) (x : Z) : Z :=
  if enableMoveElimination p && isMov d then x else u64 (x + si_imm (staticInst d)).

(** The immediates that add up in the map stay in an [int]. *)
Definition folded_fits (m : UnifiedRenameMap) (d : DynInst) : Prop :=
  ∀ s v, srcRegIdx (staticInst d) 0 = Ok s → lookup m s = Ok v →
    in_s 32 (from_option ie_imm 0%Z (IEOper v) + si_imm (staticInst d)).

Lemma getReg_inv rf v x :
  getReg rf v = Ok x →
  ∃ q y, PhyReg v = Some q ∧ getReg_phys rf q = Ok y ∧ correct v y = Ok x.
Proof.
  unfold getReg. destruct (PhyReg v) as [q|]; [|done]. simpl. intros Hv.
  apply res_bind_Ok in Hv as (y & Hy & Hc). by exists q, y.
Qed.

Lemma getReg_with rf v q y o :
  PhyReg v = Some q → getReg_phys rf q = Ok y →
  getReg rf (mkVirt (PhyReg v) (Some o)) = calculate o y.
Proof. intros Hq Hy. unfold getReg. simpl. rewrite Hq. simpl. by rewrite Hy. Qed.

Lemma bypass_value p m d b marks s rf x :
  bypass_reg p m d = Ok (b, true, marks) → srcRegIdx (staticInst d) 0 = Ok s →
  folded_fits m d → reads rf m s = Ok x → getReg rf b = Ok (bypassed_value p d x).
Proof.
  unfold bypass_reg, bypassed_value, reads, folded_fits. intros Hb Hs Hfit Hx.
  apply res_bind_Ok in Hx as (v & Hv & Hx). specialize (Hfit s v Hs Hv).
  rewrite Hs in Hb. cbn [res_bind] in Hb. rewrite Hv in Hb. cbn [res_bind] in Hb.
  destruct (enableMoveElimination p && isMov d); [by injection Hb as <- _|].
  apply res_bind_Ok in Hb as (folds & _ & Hb). destruct folds; [|done].
  apply getReg_inv in Hx as (q & y & Hq & Hy & Hc). unfold correct in Hc.
  destruct (IEOper v) as [[t imm]|]; simpl in *.
  - case_bool_decide as E; [|done]. subst t. injection Hb as <- _.
    rewrite (getReg_with rf v q y _ Hq Hy). unfold calculate in *. simpl in *.
    injection Hc as <-. unfold s32. rewrite wraps_small by done.
    by rewrite u64_add_l, Z.add_assoc.
  - injection Hb as <- _. injection Hc as <-. rewrite (getReg_with rf v q y _ Hq Hy).
    unfold calculate, s32. simpl. by rewrite wraps_small.
Qed.

Lemma rename_bypassed rg m a b q r m' rg' :
  isRenameable a = true → PhyReg b = Some q → rename rg m a 0 b = Ok (r, m', rg') →
  map_put m a b = Ok m' ∧ freeLists rg' = freeLists rg.
Proof.
  intros Hra Hq Hr. unfold rename in Hr. rewrite Hra in Hr. cbn [negb] in Hr.
  unfold simple_rename in Hr. apply res_bind_Ok in Hr as (l & Hl & Hr).
  apply res_bind_Ok in Hr as (prev & _ & Hr). rewrite Hq in Hr.
  apply res_bind_Ok in Hr as (m1 & Hm1 & Hr). injection Hr as _ <- <-.
  split; [unfold map_put; by rewrite Hl|]. by case_bool_decide.
Qed.

Lemma reads_put rf m a v m' b y :
  map_put m a v = Ok m' → a ≠ b → reads rf m b = Ok y → reads rf m' b = Ok y.
Proof.
  unfold reads. intros Hp Hne Hy. apply res_bind_Ok in Hy as (w & Hw & Hy).
  assert (lookup m' b = Ok w) as ->; [|done].
  destruct (isRenameable b) eqn:Hb.
  - rewrite lookup_renameable in Hw |- * by done. apply map_lookup_at in Hw.
    apply map_lookup_at. by rewrite (map_put_at_ne _ _ _ _ _ Hp Hne).
  - unfold isRenameable in Hb. unfold lookup in *. by destruct (regClass b).
Qed.

(** What the ISA says of the instructions that can be bypassed: a move copies its source,
    an addition of an immediate adds it, modulo [2^64], and neither faults. *)
Definition isa_bypassable (isa : ISAExec) (d : DynInst) : Prop :=
  ∀ v, (isMov d = true → ∃ pc, isa (staticInst d) (pcState d) [v] = ExDone [v] pc) ∧
       (isAddImm d = true → ∃ pc, isa (staticInst d) (pcState d) [v] =
                                    ExDone [u64 (v + si_imm (staticInst d))] pc).

(** The map reads as the architectural state [A] on the registers [D]. *)
Definition map_reads (D : RegId → Prop) (rf : PhysRegFile) (m : UnifiedRenameMap) (A : Arch) : Prop :=
  ∀ r, D r → reads rf m r = Ok (rd A r).

Lemma bypass_kind p m d b marks :
  bypass_reg p m d = Ok (b, true, marks) →
  (enableMoveElimination p && isMov d = true) ∨
  (enableMoveElimination p && isMov d = false ∧ isAddImm d = true).
Proof.
  unfold bypass_reg. intros Hb. destruct (enableMoveElimination p && isMov d); [by left|]. right.
  split; [done|]. destruct (isAddImm d); [done|]. cbn [negb res_bind] in Hb. done.
Qed.

Lemma bypass_executes isa p m d b marks s a A :
  isa_bypassable isa d → bypass_reg p m d = Ok (b, true, marks) →
  si_srcs (staticInst d) = [s] → si_dests (staticInst d) = [a] →
  ∃ pc, arch_execute isa A d = (NoFault, wr A a (bypassed_value p d (rd A s)), pc).
Proof.
  intros Hisa Hb Hs Ha. destruct (Hisa (rd A s)) as [H1 H2]. unfold arch_execute, bypassed_value.
  rewrite Hs, Ha. simpl.
  destruct (bypass_kind _ _ _ _ _ Hb) as [E|[E Hi]]; rewrite E.
  - apply andb_true_iff in E as [_ E]. destruct (H1 E) as [pc ->]. by exists pc.
  - destruct (H2 Hi) as [pc ->]. by exists pc.
Qed.


End RenameProps.
