(* ===== verification/Decode.v ===== *)
(** The decode stage.

    Models [src/GEM5/src/cpu/o3/decode.hh] and [decode.cc]: the buffers between
    fetch and decode, squashing, the decode loop with its branch checks, and the
    three fusion searches.

    Instructions are shared objects in the source; the model updates an
    instruction in every place that holds it.  Statistics, probes and debug output
    are left out.  What the stage asks of the CPU object is recorded as a list of
    [CpuCall]s, in order.  What it reads from other components is an argument: the
    statically known branch target (generated code), the return address fetch
    keeps, and the trace-driven mode. *)
From S2P Require Import Prelude RegFile Inst Comm CircularBuffer Fusion FusionMap.
Import Fusion FusionMap.

Module Decode.

(** ** Parameters and environment *)

Record DecodeParams := {
  decodeWidth : Z;
  numThreads : nat;
  enableLoadFusion : bool;
  enableAbrFusion : bool;
  enableMACFusion : bool;
  clockPeriod : Z
}.

Record DecodeEnv := {
  env_branchTarget : DynInst → PCState;
  env_returnAddr : DynInst → Z;               (** [Fetch::getPreservedReturnAddr] *)
  env_isTraceMode : bool;
  env_hasTraceCtrlFlowChange : DynInst → bool;
  env_traceBranch : DynInst → option Z;       (** [hasTraceBranchInfo], next PC *)
  env_curTick : Z
}.

Inductive CpuCall :=
  | RemoveInstsUntil (seq tid : Z)
  | InstListFuse (fused : Z) (parts : list Z)   (** insert before and erase *)
  | ActivateStage
  | DeactivateStage
  | ActivityThisCycle.

Definition keepIgnoreFusionCycles : Z := 10.

(** [ticksToCycles]: [divCeil] by the clock period. *)
Definition ticksToCycles (p : DecodeParams) (t : Z) : Z :=
  ((t + clockPeriod p - 1) / clockPeriod p)%Z.

(** ** Fusion *)

(** The PC range in which pairs are not fused. *)
Record IgnoreFusion := mkIgnore { ignoreFusionPC : Z; lastSetIgnoreTick : Z }.

Definition setIgnoreNextFusion (pc now : Z) : IgnoreFusion := mkIgnore pc now.

(** The dynamic instruction built for a fused static instruction from its first
    and last part. *)
Definition fused_inst (fi : StaticInst) (head last : DynInst) : DynInst :=
  mkDyn (setFusedInst fi)
    (setNPC (pc_set PCState_default (getPC head)) (getNPC last))
    (pc_update PCState_default (predPC last)) false (seqNum head) (version last)
    (threadNumber last) (ftqId last) (loopIteration last) (fallThruPC last)
    NoFault false false
    (replicate (length (si_srcs fi)) VirtRegId_null)
    (replicate (length (si_dests fi)) VirtRegId_null)
    (replicate (length (si_dests fi)) VirtRegId_null).

Section WithParams.

Context (p : DecodeParams) (env : DecodeEnv).

(** [vec.back()] *)
Definition back (vec : list DynInst) : option DynInst := last vec.

(** [Decode::checkAndFuseInsts]: the last instruction of [vec] and [cur] are
    replaced by their fusion when the table has one for them. *)
Definition checkAndFuseInsts (ig : IgnoreFusion) (vec : list DynInst) (cur : DynInst)
    : res (IgnoreFusion * list DynInst * DynInst * list CpuCall) :=
  match back vec with
  | None => Ok (ig, vec, cur, [])
  | Some first =>
      if faulted first || faulted cur then Ok (ig, vec, cur, [])
      else if negb (enableLoadFusion p) && (isLoad first || isLoad cur)
      then Ok (ig, vec, cur, [])
      else if negb (enableAbrFusion p) && isControl cur then Ok (ig, vec, cur, [])
      else if negb (enableMACFusion p) &&
              bool_decide (si_opClass (staticInst first) = IntMultOp)
      then Ok (ig, vec, cur, [])
      else if (ignoreFusionPC ig <=? getPC first)%Z &&
              (getPC first <? u64 (ignoreFusionPC ig + 8))%Z
      then
        let ig' :=
          if (keepIgnoreFusionCycles <?
              ticksToCycles p (env_curTick env - lastSetIgnoreTick ig))%Z
          then mkIgnore 0 (lastSetIgnoreTick ig) else ig in
        Ok (ig', vec, cur, [])
      else
        let! found := lookup2 fusionMap first cur in
        match found with
        | None => Ok (ig, vec, cur, [])
        | Some c =>
            let! fi := create c [first; cur] in
            match fi with
            | None => Ok (ig, vec, cur, [])
            | Some fi =>
                let inst := fused_inst fi first cur in
                Ok (ig, removelast vec, inst,
                    [InstListFuse (seqNum inst) [seqNum first; seqNum cur]])
            end
        end
  end.

(** What a gap instruction must not do: change control flow, write the base or
    the tail's destination, read the tail's destination. *)
Definition gap_blocked (d : DynInst) (base tail_dest : RegId) : bool :=
  isControl d ||
  existsb (λ r, reg_eqb r base || reg_eqb r tail_dest) (si_dests (staticInst d)) ||
  existsb (λ r, reg_eqb r tail_dest) (si_srcs (staticInst d)).

(** Whether [cand], a safe gap instruction, is a head for [cur]. *)
Definition try_head (cand cur : DynInst) (base : RegId) : res (option StaticInst) :=
  if negb (isLoad cand) then Ok None
  else
    let! cb := srcRegIdx (staticInst cand) 0 in
    if negb (reg_eqb cb base) then Ok None
    else
      let! cd := destRegIdx (staticInst cand) 0 in
      if reg_eqb cd cb then Ok None
      else
        let! found := lookup2 fusionMap cand cur in
        match found with
        | None => Ok None
        | Some c => create c [cand; cur]
        end.

(** The walk backwards from position [i - 1]: [None] for [return false]. *)
Fixpoint scan_heads (vec : list DynInst) (cur : DynInst) (base tail_dest : RegId)
    (i : nat) : res (option (nat * DynInst)) :=
  match i with
  | O => Ok None
  | S j =>
      let! cand := nth_res vec (Z.of_nat j) in
      if faulted cand then Ok None
      else if gap_blocked cand base tail_dest then Ok None
      else
        let! fi := try_head cand cur base in
        match fi with
        | Some fi => Ok (Some (j, fused_inst fi cand cur))
        | None => scan_heads vec cur base tail_dest j
        end
  end.

(** [Decode::checkAndFuseNonConsec]: [Some] when it returns true. *)
Definition checkAndFuseNonConsec (vec : list DynInst) (cur : DynInst)
    : res (option (list DynInst * nat * DynInst * list CpuCall)) :=
  if negb (enableLoadFusion p) then Ok None
  else if faulted cur || negb (isLoad cur) then Ok None
  else if (length vec <? 2)%nat then Ok None
  else
    let! tail_dest := destRegIdx (staticInst cur) 0 in
    let! base := srcRegIdx (staticInst cur) 0 in
    if reg_eqb tail_dest base then Ok None
    else
      let n := length vec in
      let! bk := nth_res vec (Z.of_nat n - 1) in
      if gap_blocked bk base tail_dest then Ok None
      else
        let! found := scan_heads vec cur base tail_dest (n - 1) in
        match found with
        | None => Ok None
        | Some (i, inst) =>
            let! head := nth_res vec (Z.of_nat i) in
            Ok (Some (<[i := inst]> vec, i, inst,
                      [InstListFuse (seqNum inst) [seqNum head; seqNum cur]]))
        end.

(** [Decode::checkAndFuseTriple]: [Some] when it returns true; [third] has then
    been taken from the pending instructions and [first] from [vec]. *)
Definition checkAndFuseTriple (vec : list DynInst) (cur : DynInst)
    (pending : list DynInst) : res (option (list DynInst * DynInst * list CpuCall)) :=
  match back vec, pending with
  | Some first, third :: _ =>
      if negb (enableLoadFusion p) then Ok None
      else if faulted first || faulted cur || faulted third then Ok None
      else
        let! found := lookup3 fusionMap3 first cur third in
        match found with
        | None => Ok None
        | Some c =>
            let! fi := create c [first; cur; third] in
            match fi with
            | None => Ok None
            | Some fi =>
                let inst := fused_inst fi first third in
                Ok (Some (removelast vec, inst,
                  [InstListFuse (seqNum inst) [seqNum first; seqNum cur; seqNum third]]))
            end
        end
  | _, _ => Ok None
  end.

(** ** The decode loop *)

(** The local variables of [Decode::decodeInsts] with the parts of the stage's
    state the loop changes.  A [selfSquash] is recorded with its thread; as the
    loop breaks right after it, the buffers it empties are emptied after the
    loop, by [decodeInsts]. *)
Record LoopState (C : Type) := mkLoop {
  l_pending : C;                       (** [fixedbuffer[tid]] *)
  l_vec : list DynInst;                (** [fusionInst] *)
  l_avail : Z;                         (** [insts_available] *)
  l_index : Z;                         (** [toRenameIndex] *)
  l_stalls : list StallReason;         (** [decode_stalls] *)
  l_break : StallReason;               (** [breakDecode] *)
  l_ignore : IgnoreFusion;
  l_squash : option (Z * DecodeComm);  (** [selfSquash]: thread and message *)
  l_calls : list CpuCall
}.
#[global] Arguments mkLoop {C} _ _ _ _ _ _ _ _ _.
#[global] Arguments l_pending {C} _.
#[global] Arguments l_vec {C} _.
#[global] Arguments l_avail {C} _.
#[global] Arguments l_index {C} _.
#[global] Arguments l_stalls {C} _.
#[global] Arguments l_break {C} _.
#[global] Arguments l_ignore {C} _.
#[global] Arguments l_squash {C} _.
#[global] Arguments l_calls {C} _.

(** The branch a squash is about: the second half of a fused pair. *)
Definition ctrl_inst (inst : DynInst) : res DynInst :=
  if isFusion inst then
    match si_fusion (staticInst inst) with
    | Some fu => getSecondInst fu
    | None => ub
    end
  else Ok inst.

(** What [Decode::selfSquash] writes for fetch. *)
Definition selfSquash_comm (inst : DynInst) : res DecodeComm :=
  let! ctrl := ctrl_inst inst in
  let next :=
    if isControl ctrl then
      if negb (isReturn ctrl) then env_branchTarget env ctrl else predPC ctrl
    else pc_set (pcState ctrl) (getFallThruPC (pcState ctrl)) in
  Ok (mkDecodeComm next (seqNum ctrl) (seqNum inst) (seqNum inst) true true true
        (predTaken inst || isUncondCtrl inst) NoStall).

(** The rest of an iteration after the instruction is in [vec] at [pos]: the
    checks of its prediction.  The result says whether the loop breaks. *)
Inductive BranchCheck :=
  | Keep (inst : DynInst)
  | Squash (comm : DecodeComm) (inst : DynInst).

(** The statically known target, unless the trace says otherwise. *)
Definition resolved_target (inst : DynInst) : PCState :=
  let target := env_branchTarget env inst in
  if env_isTraceMode env then
    match env_traceBranch env inst with
    | Some nextpc =>
        if (nextpc =? pc target)%Z then target
        else set_pc_npc target nextpc (u64 (nextpc + 4))
    | None => target
    end
  else target.

Definition check_direct (inst : DynInst) : res BranchCheck :=
  if negb (env_isTraceMode env && env_hasTraceCtrlFlowChange env inst) &&
     isDirectCtrl inst && (isUncondCtrl inst || predTaken inst)
  then
    let t := resolved_target inst in
    let inst :=
      if start_equals t (predPC inst) && negb (pc_equals t (predPC inst))
      then set_pred inst (predTaken inst) t else inst in
    if negb (pc_equals t (predPC inst)) then
      let! comm := selfSquash_comm inst in
      Ok (Squash comm (set_pred inst (predTaken inst) t))
    else Ok (Keep inst)
  else Ok (Keep inst).

Definition check_return (inst : DynInst) : res BranchCheck :=
  if isReturn inst && negb (isNonSpeculative inst) && negb (predTaken inst) then
    let inst := set_pred inst true (pc_set PCState_default (env_returnAddr env inst)) in
    let! comm := selfSquash_comm inst in
    Ok (Squash comm inst)
  else if isNonSpeculative inst && predTaken inst then
    Ok (Keep (set_pred inst false
                (pc_set (pcState inst) (getFallThruPC (pcState inst)))))
  else Ok (Keep inst).

Definition check_prediction (inst : DynInst) : res BranchCheck :=
  if predTaken inst && negb (isControl inst) then
    let! comm := selfSquash_comm inst in
    Ok (Squash comm inst)
  else
    let! r := check_direct inst in
    match r with
    | Squash _ _ => Ok r
    | Keep inst => check_return inst
    end.

(** Fusing the current instruction into [vec]: the new [vec] with the place of
    the current instruction in it, and how many pending instructions went with
    it. *)
Definition place_inst (ig : IgnoreFusion) (vec : list DynInst) (inst : DynInst)
    (pending : list DynInst)
    : res (IgnoreFusion * list DynInst * nat * DynInst * nat * list CpuCall) :=
  let! triple := checkAndFuseTriple vec inst pending in
  match triple with
  | Some (vec', inst', calls) =>
      Ok (ig, vec' ++ [inst'], length vec', inst', 1%nat, calls)
  | None =>
      let! r := checkAndFuseInsts ig vec inst in
      let '(ig', vec', inst', calls) := r in
      let! nc := if isFusion inst' then Ok None else checkAndFuseNonConsec vec' inst' in
      match nc with
      | Some (vec'', pos, inst'', calls') =>
          Ok (ig', vec'', pos, inst'', 0%nat, calls ++ calls')
      | None => Ok (ig', vec' ++ [inst'], length vec', inst', 0%nat, calls)
      end
  end.

Section Loop.

Context {C : Type} `{CircularBuffer C DynInst}.

(** One pass through the body: [inl] to go on, [inr] after [break]. *)
Definition decode_step (st : LoopState C) (inst0 : DynInst)
    : res (LoopState C + LoopState C) :=
  let pending := cb_pop_front (l_pending st) in
  if squashed inst0 then
    Ok (inl (mkLoop pending (l_vec st) (l_avail st - 1) (l_index st)
               (l_stalls st ++ [InstSquashed]) (l_break st) (l_ignore st)
               (l_squash st) (l_calls st)))
  else
    let inst0 := if (numSrcRegs (staticInst inst0) =? 0)%Z then setCanIssue inst0 else inst0 in
    let! r := place_inst (l_ignore st) (l_vec st) inst0 (cb_elems pending) in
    let '(ig, vec, pos, inst, extra, calls) := r in
    let pending := Nat.iter extra cb_pop_front pending in
    let avail := (l_avail st - Z.of_nat extra - 1)%Z in
    let! chk := check_prediction inst in
    match chk with
    | Keep inst' =>
        Ok (inl (mkLoop pending (<[pos := inst']> vec) avail (l_index st + 1)
                   (l_stalls st) (l_break st) ig (l_squash st) (l_calls st ++ calls)))
    | Squash comm inst' =>
        Ok (inr (mkLoop pending (<[pos := inst']> vec) avail (l_index st + 1)
                   (l_stalls st ++ [InstMisPred]) InstMisPred ig
                   (Some (threadNumber inst, comm))
                   (l_calls st ++ calls ++
                      [RemoveInstsUntil (seqNum inst) (threadNumber inst)])))
    end.

(** The loop; [fuel] bounds the number of iterations. *)
Fixpoint decode_loop (fuel : nat) (vec_decode_limit : bool) (st : LoopState C)
    : res (LoopState C) :=
  if (0 <? l_avail st)%Z && (l_index st <? decodeWidth p)%Z then
    match cb_elems (l_pending st) with
    | [] => Panic "assert(!insts_to_decode.empty())"
    | inst :: _ =>
        if vec_decode_limit && isVector inst then Ok st
        else
          match fuel with
          | O => Panic "out of fuel"
          | S fuel' =>
              let! r := decode_step st inst in
              match r with
              | inl st' => decode_loop fuel' vec_decode_limit st'
              | inr st' => Ok st'
              end
          end
    end
  else Ok st.

(** The loop as [Decode::decodeInsts] starts it on a non-empty buffer. *)
Definition decode_run (ig : IgnoreFusion) (buf : C) : res (LoopState C) :=
  match cb_elems buf with
  | [] => ub
  | front :: rest =>
      decode_loop (S (length rest)) (negb (isVector front))
        (mkLoop buf [] (Z.of_nat (S (length rest))) 0 [] NoStall ig None [])
  end.

End Loop.

(** ** The stage *)

Inductive DecodeStatus := Active | Inactive.

(** [C] holds instructions, [CI] holds group sizes. *)
Record DecodeState (C CI : Type) := mkDecode {
  d_status : DecodeStatus;
  d_fixed : list C;                    (** [fixedbuffer], one per thread *)
  d_stall : C;                         (** [stallBuffer] *)
  d_sizes : CI;                        (** [eachstallSize] *)
  d_ver : Z;                           (** [localSquashVer] *)
  d_ignore : IgnoreFusion;
  d_stalls : list StallReason;         (** [decodeStalls] *)
  d_blockReason : StallReason
}.
#[global] Arguments mkDecode {C CI} _ _ _ _ _ _ _ _.
#[global] Arguments d_status {C CI} _.
#[global] Arguments d_fixed {C CI} _.
#[global] Arguments d_stall {C CI} _.
#[global] Arguments d_sizes {C CI} _.
#[global] Arguments d_ver {C CI} _.
#[global] Arguments d_ignore {C CI} _.
#[global] Arguments d_stalls {C CI} _.
#[global] Arguments d_blockReason {C CI} _.

Section Stage.

Context {C CI : Type} `{CircularBuffer C DynInst} `{CircularBuffer CI Z}.
Abbreviation State := (DecodeState C CI).

Definition with_buffers (d : State) (fixed : list C) (stall : C) (sizes : CI) : State :=
  mkDecode (d_status d) fixed stall sizes (d_ver d) (d_ignore d) (d_stalls d)
    (d_blockReason d).

Definition MaxWidth : Z := 32.

(** The constructor. *)
Definition Decode_new (fetchToDecodeDelay : nat) : res State :=
  do! panic_if (MaxWidth <? decodeWidth p)%Z "decodeWidth" in
  let w := Z.to_nat (decodeWidth p) in
  Ok (mkDecode Inactive
        (replicate (numThreads p) (cb_new w) ++
         replicate (MaxThreads - numThreads p) (cb_new 0))
        (cb_new (w * (fetchToDecodeDelay + 1))) (cb_new (fetchToDecodeDelay + 1))
        0 (mkIgnore 0 0) (replicate w NoStall) NoStall).

Definition setAllStalls (d : State) (r : StallReason) : State :=
  mkDecode (d_status d) (d_fixed d) (d_stall d) (d_sizes d) (d_ver d) (d_ignore d)
    (map (λ _, r) (d_stalls d)) (d_blockReason d).

Definition isDrained (d : State) : bool :=
  forallb cb_empty (take (numThreads p) (d_fixed d)).

Definition drainSanityCheck (d : State) : res unit :=
  assert_ (forallb cb_empty (take (numThreads p) (d_fixed d))) "fixedbuffer".

(** The removal of a thread's groups from the stall buffer: [sizes] is what is
    left of [eachstallSize] from its iterator at position [j], and [i] is the
    position of [delIt]. *)
Fixpoint drop_groups (tid : Z) (sizes : list Z) (i : Z) (j : nat) (buf : C) (szs : CI)
    : res (C * CI) :=
  match sizes with
  | [] => Ok (buf, szs)
  | size :: rest =>
      let! front := nth_res (cb_elems buf) i in
      let e := (i + size)%Z in
      if (Z.of_nat (length (cb_elems buf)) <? e)%Z then ub
      else if (threadNumber front =? tid)%Z then
        drop_groups tid rest i j
          (cb_erase buf (Z.to_nat i) (Z.to_nat e)) (cb_erase szs j (j + 1)%nat)
      else drop_groups tid rest e (S j) buf szs
  end.

(** [Decode::squash]; [selfSquash] empties the same buffers. *)
Definition squash (d : State) (tid : Z) : res State :=
  let! fb := nth_res (d_fixed d) tid in
  let! fixed := set_nth (d_fixed d) tid (cb_clear fb) in
  let! r := drop_groups tid (cb_elems (d_sizes d)) 0 0 (d_stall d) (d_sizes d) in
  let '(stall, sizes) := r in
  Ok (with_buffers d fixed stall sizes).

(** The loop of [moveInstsToBuffer] that moves one group of [n] instructions. *)
Fixpoint move_group (n : nat) (tid ver : Z) (stall fb : C) : res (C * C) :=
  match n with
  | O => Ok (stall, fb)
  | S n' =>
      match cb_elems stall with
      | [] => ub
      | inst :: _ =>
          do! assert_ (tid =? threadNumber inst)%Z "tid == inst->threadNumber" in
          let! old := largerThan ver (version inst) in
          let inst' := if old then setSquashed inst else inst in
          do! assert_ (negb (cb_full fb)) "!fixedbuffer.full()" in
          move_group n' tid ver (cb_pop_front stall) (cb_push_back fb inst')
      end
  end.

(** [Decode::moveInstsToBuffer] *)
Definition moveInstsToBuffer (d : State) (fromFetch : list DynInst) : res State :=
  let! b :=
    match fromFetch with
    | [] => Ok (d_stall d, d_sizes d)
    | _ =>
        do! panic_if (cb_full (d_sizes d)) "Decode stallbuffer overflow" in
        Ok (cb_push_all (d_stall d) fromFetch,
            cb_push_back (d_sizes d) (Z.of_nat (length fromFetch)))
    end in
  let '(stall, sizes) := b in
  match cb_elems stall with
  | [] => Ok (with_buffers d (d_fixed d) stall sizes)
  | front :: _ =>
      let tid := threadNumber front in
      let! fb := nth_res (d_fixed d) tid in
      if negb (cb_empty fb) then Ok (with_buffers d (d_fixed d) stall sizes)
      else
        match cb_elems sizes with
        | [] => ub
        | n :: _ =>
            let! r := move_group (Z.to_nat n) tid (d_ver d) stall fb in
            let '(stall', fb') := r in
            let! fixed := set_nth (d_fixed d) tid fb' in
            Ok (with_buffers d fixed stall' (cb_pop_front sizes))
        end
  end.

(** [Decode::checkSquash]; [commit] holds the squash version of each squashing
    thread. *)
Definition checkSquash (d : State) (commit : list (option Z)) : res State :=
  res_fold (λ d i,
    let! c := nth_res commit (Z.of_nat i) in
    match c with
    | None => Ok d
    | Some v =>
        let! d' := squash d (Z.of_nat i) in
        Ok (mkDecode (d_status d') (d_fixed d') (d_stall d') (d_sizes d') v
              (d_ignore d') (d_stalls d') (d_blockReason d'))
    end) d (seq 0 (numThreads p)).

(** What one cycle writes. *)
Record Outputs := mkOut {
  o_toRename : list DynInst;
  o_decodeInfo : list DecodeComm;
  o_sig : StallSignals;
  o_calls : list CpuCall;
  o_index : Z                          (** [toRenameIndex] *)
}.

Definition set_blockFetch (sg : StallSignals) (tid : Z) (b : bool) : res StallSignals :=
  let! l := set_nth (blockFetch sg) tid b in
  Ok (mkStall l (blockDecode sg) (blockRename sg) (blockIEW sg) (fetchBlockReason sg)
        (decodeBlockReason sg) (renameBlockReason sg) (iewBlockReason sg)).

Definition set_fetchBlockReason (sg : StallSignals) (tid : Z) (r : StallReason)
    : res StallSignals :=
  let! l := set_nth (fetchBlockReason sg) tid r in
  Ok (mkStall (blockFetch sg) (blockDecode sg) (blockRename sg) (blockIEW sg) l
        (decodeBlockReason sg) (renameBlockReason sg) (iewBlockReason sg)).

Definition set_blockReason (info : list DecodeComm) (tid : Z) (r : StallReason)
    : res (list DecodeComm) :=
  let! c := nth_res info tid in
  set_nth info tid
    (mkDecodeComm (dc_nextPC c) (dc_mispredictInst c) (dc_squashInst c) (dc_doneSeqNum c)
       (dc_squash c) (dc_predIncorrect c) (dc_branchMispredict c) (dc_branchTaken c) r).

(** [Decode::updateActivate] *)
Definition updateActivate (d : State) (sg : StallSignals) (activeThreads : list Z)
    : State * list CpuCall :=
  let any_unblocking :=
    existsb (λ tid, negb (default false (blockDecode sg !! Z.to_nat tid))) activeThreads in
  let with_status st :=
    mkDecode st (d_fixed d) (d_stall d) (d_sizes d) (d_ver d) (d_ignore d) (d_stalls d)
      (d_blockReason d) in
  match any_unblocking, d_status d with
  | true, Inactive => (with_status Active, [ActivateStage])
  | false, Active => (with_status Inactive, [DeactivateStage])
  | _, _ => (d, [])
  end.

(** [Decode::selfSquash], the part outside the loop. *)
Definition selfSquash (d : State) (out : Outputs) (tid : Z) (comm : DecodeComm)
    : res (State * Outputs) :=
  let! info := set_nth (o_decodeInfo out) tid comm in
  let! sg := set_blockFetch (o_sig out) tid true in
  let! d' := squash d tid in
  Ok (d', mkOut (o_toRename out) info sg (o_calls out) (o_index out)).

(** What [decodeInsts] does after its loop. *)
Definition finish_decode (d : State) (tid : Z) (out : Outputs) (st : LoopState C)
    : res (State * Outputs) :=
  let! sg := if negb (l_avail st =? 0)%Z then set_blockFetch (o_sig out) tid true
             else Ok (o_sig out) in
  let breakDecode :=
    if negb (l_avail st =? 0)%Z && bool_decide (l_break st = NoStall)
    then OtherFragStall else l_break st in
  let d :=
    match l_stalls st with
    | r :: _ => setAllStalls d r
    | [] => if bool_decide (breakDecode = NoStall) then d else setAllStalls d breakDecode
    end in
  let! fb := nth_res (d_fixed d) tid in
  let reason := if cb_empty fb then d_blockReason d else breakDecode in
  Ok (mkDecode (d_status d) (d_fixed d) (d_stall d) (d_sizes d) (d_ver d) (l_ignore st)
        (d_stalls d) reason,
      mkOut (o_toRename out ++ l_vec st) (o_decodeInfo out) sg (o_calls out ++ l_calls st)
        (l_index st)).

(** [Decode::decodeInsts] *)
Definition decodeInsts (d : State) (tid : Z) (fetchStalls : list StallReason)
    (out : Outputs) : res (State * Outputs) :=
  let! buf := nth_res (d_fixed d) tid in
  if cb_empty buf then
    let stall := default NoStall (find (λ r, negb (bool_decide (r = NoStall))) fetchStalls) in
    Ok (setAllStalls d stall, out)
  else
    let! st := decode_run (d_ignore d) buf in
    let! fixed := set_nth (d_fixed d) tid (l_pending st) in
    let d := with_buffers d fixed (d_stall d) (d_sizes d) in
    let! r :=
      match l_squash st with
      | Some (t, comm) => selfSquash d out t comm
      | None => Ok (d, out)
      end in
    let '(d, out) := r in
    finish_decode d tid out st.

(** The choice of the thread to decode: [tid], [blocked_tid] and the signals. *)
Record Pick := mkPick {
  pk_tid : option Z;
  pk_blocked : option Z;
  pk_sig : StallSignals;
  pk_info : list DecodeComm
}.

Definition pick_thread (d : State) (pk : Pick) (i : nat) : res Pick :=
  let i := Z.of_nat i in
  let! block := nth_res (blockDecode (pk_sig pk)) i in
  let! fb := nth_res (d_fixed d) i in
  let active := negb block && negb (cb_empty fb) in
  let! sg := set_blockFetch (pk_sig pk) i block in
  let! reason := nth_res (decodeBlockReason sg) i in
  let r := if block then reason else NoStall in
  let! sg := set_fetchBlockReason sg i r in
  let! info := set_blockReason (pk_info pk) i r in
  if active then
    match pk_tid pk with
    | None => Ok (mkPick (Some i) (pk_blocked pk) sg info)
    | Some t =>
        let! sg := set_blockFetch sg t true in
        let! sg := set_blockFetch sg i true in
        Ok (mkPick (pk_tid pk) (pk_blocked pk) sg info)
    end
  else if block && bool_decide (pk_blocked pk = None) then
    Ok (mkPick (pk_tid pk) (Some i) sg info)
  else Ok (mkPick (pk_tid pk) (pk_blocked pk) sg info).

(** The stall reasons passed to rename when some instructions were decoded. *)
Fixpoint merge_stalls (i : Z) (index : Z) (stalls fetchStalls : list StallReason)
    : res (list StallReason) :=
  match stalls with
  | [] => Ok []
  | _ :: rest =>
      let! r := if (i <? index)%Z then Ok NoStall
                else get_at (fetchStalls !! Z.to_nat i) "out_of_range" in
      let! rs := merge_stalls (i + 1) index rest fetchStalls in
      Ok (r :: rs)
  end.

Record TickIn := {
  in_fetch : list DynInst;             (** [fromFetch->insts] up to its size *)
  in_fetchStalls : list StallReason;
  in_commit : list (option Z);         (** squash versions from commit *)
  in_active : list Z;
  in_sig : StallSignals
}.

(** The part of [tick] after [decodeInsts]. *)
Definition finish_tick (d : State) (tid : Z) (ti : TickIn) (out : Outputs)
    : res (State * Outputs) :=
  let! blocked := nth_res (blockDecode (o_sig out)) tid in
  let! d :=
    if blocked then
      let! r := nth_res (decodeBlockReason (o_sig out)) tid in
      Ok (setAllStalls d r)
    else if (0 <? o_index out)%Z then
      let! r0 := nth_res (d_stalls d) 0 in
      if bool_decide (r0 = NoStall) then
        let! l := merge_stalls 0 (o_index out) (d_stalls d) (in_fetchStalls ti) in
        Ok (mkDecode (d_status d) (d_fixed d) (d_stall d) (d_sizes d) (d_ver d)
              (d_ignore d) l (d_blockReason d))
      else Ok d
    else Ok d in
  let! bf := nth_res (blockFetch (o_sig out)) tid in
  let r := if bf then d_blockReason d else NoStall in
  let! sg := set_fetchBlockReason (o_sig out) tid r in
  let! info := set_blockReason (o_decodeInfo out) tid r in
  let '(d, calls) := updateActivate d sg (in_active ti) in
  let calls := calls ++ if (o_index out =? 0)%Z then [] else [ActivityThisCycle] in
  Ok (d, mkOut (o_toRename out) info sg (o_calls out ++ calls) (o_index out)).

(** [Decode::tick]; the stall reasons for rename are [d_stalls] of the result. *)
Definition tick (d : State) (ti : TickIn) : res (State * Outputs) :=
  let d := setAllStalls
    (mkDecode (d_status d) (d_fixed d) (d_stall d) (d_sizes d) (d_ver d) (d_ignore d)
       (d_stalls d) NoStall) NoStall in
  let! d := moveInstsToBuffer d (in_fetch ti) in
  let! d := checkSquash d (in_commit ti) in
  let! pk := res_fold (pick_thread d)
    (mkPick None None (in_sig ti) (replicate MaxThreads DecodeComm_empty))
    (seq 0 (numThreads p)) in
  match pk_tid pk with
  | None =>
      let! d :=
        match pk_blocked pk with
        | None => Ok d
        | Some b =>
            let! r := nth_res (fetchBlockReason (pk_sig pk)) b in
            let d := setAllStalls d r in
            Ok (mkDecode (d_status d) (d_fixed d) (d_stall d) (d_sizes d) (d_ver d)
                  (d_ignore d) (d_stalls d) r)
        end in
      let '(d, calls) := updateActivate d (pk_sig pk) (in_active ti) in
      Ok (d, mkOut [] (pk_info pk) (pk_sig pk) calls 0)
  | Some tid =>
      let! r := decodeInsts d tid (in_fetchStalls ti) (mkOut [] (pk_info pk) (pk_sig pk) [] 0) in
      let '(d, out) := r in
      finish_tick d tid ti out
  end.

End Stage.
End WithParams.
End Decode.
