(* ===== verification/DecodeLoop.v ===== *)
(** Properties of the decode loop.

    What leaves decode for rename is what entered it, in program order: fusion
    and squashing lose no instruction, the loop ends, and for decoded instructions it
    panics only where two or three of them pass the checks of a fusion entry whose
    constructor does not accept them. *)
From S2P Require Import Prelude RegFile Inst Comm CircularBuffer Fusion FusionCorrect.
From S2P Require Import FusionLoads FusionMap FusionSound Decode.
Import Fusion FusionMap FusionSound Decode.

Module DecodeLoop.

(** ** Fused instructions and their parts *)

(** The fetched instructions an instruction stands for, by sequence number. *)
Definition part_seqs (d : DynInst) : list Z :=
  if isFusion d then
    match si_fusion (staticInst d) with
    | Some fu => map seqNum (fu_parts fu)
    | None => []
    end
  else [seqNum d].

(** A fused instruction has a type of its own and is ordered by its first part. *)
Record fused_ok (d : DynInst) : Prop := {
  fk_type : si_type (staticInst d) = "FusionInst";
  fk_flag : isFusion d = true;
  fk_parts : ∃ fu a b rest, si_fusion (staticInst d) = Some fu ∧
    fu_parts fu = a :: b :: rest ∧ seqNum d = seqNum a
}.

Lemma lookup2_not_fused a b c :
  lookup2 fusionMap a b = Ok (Some c) →
  si_type (staticInst a) ≠ "FusionInst" ∧ si_type (staticInst b) ≠ "FusionInst".
Proof.
  intros H%lookup2_entry. unfold entry_ok in H.
  split; intros E; rewrite E in H; destruct c; simpl in H; repeat case_match; done.
Qed.

Lemma lookup3_not_fused a b d c :
  lookup3 fusionMap3 a b d = Ok (Some c) →
  si_type (staticInst a) ≠ "FusionInst" ∧ ∃ n s chk, c = SlliAddLdCreator n s chk.
Proof.
  intros H. destruct (lookup3_ok a b d) as (o & Ho & Hc).
  rewrite Ho in H. injection H as ->. specialize (Hc _ eq_refl).
  destruct c; try done. split; [|by repeat eexists].
  intros E. rewrite E in Hc. done.
Qed.

(** What a creator makes of a list of instructions. *)
Definition made_of (si : StaticInst) (parts : list DynInst) : Prop :=
  si_type si = "FusionInst" ∧ ∃ cls fl, si_fusion si = Some (mkFusion cls parts fl false).

Lemma new_parts2 c a b si :
  create c [a; b] = Ok (Some si) → made_of si [a; b].
Proof.
  destruct c; simpl; intros [_ H]%checked_Some;
    change (nth_res [a; b] 0) with (Ok a) in H; change (nth_res [a; b] 1) with (Ok b) in H;
    try change (nth_res [a; b] 2) with (@ub DynInst) in H; cbn [res_bind] in H;
    unfold ChainFusionInst_new, AluBrFusionInst_new, MaccFusionInst_new,
      AluLoadFusionInst_new, SeqLoadFusionInst_new in H; res_inv;
    unfold made_of; (split; [done|]); by do 2 eexists.
Qed.

Lemma new_parts3 n s chk a b d si :
  create (SlliAddLdCreator n s chk) [a; b; d] = Ok (Some si) → made_of si [a; b; d].
Proof.
  simpl; intros [_ H]%checked_Some.
  change (nth_res [a; b; d] 0) with (Ok a) in H.
  change (nth_res [a; b; d] 1) with (Ok b) in H.
  change (nth_res [a; b; d] 2) with (Ok d) in H.
  cbn [res_bind] in H. unfold SlliAddLoadFusionInst_new in H. res_inv.
  split; [done|]. by do 2 eexists.
Qed.

Lemma fused_inst_ok si a last parts :
  made_of si (a :: parts) → parts ≠ [] → fused_ok (fused_inst si a last).
Proof.
  intros (Ht & cls & fl & Hf) Hp. destruct parts as [|b rest]; [done|]. split; simpl.
  - done.
  - unfold isFusion, di_has. simpl. rewrite has_or. by apply orb_true_r.
  - rewrite Hf. simpl. by do 4 eexists.
Qed.

Lemma fused_inst_seqs si a last parts :
  made_of si (a :: parts) → part_seqs (fused_inst si a last) = map seqNum (a :: parts).
Proof.
  intros (Ht & cls & fl & Hf). unfold part_seqs, isFusion, di_has. simpl.
  by rewrite has_or, orb_true_r, Hf.
Qed.

(** ** Placing one instruction *)

Abbreviation all_seqs vec := (concat (map part_seqs vec)).

(** A property of fetched instructions that depends on their operands only. *)
Class FetchedProp (P : DynInst → Prop) : Prop := {
  fp_fetched d : P d → isFusion d = false;
  fp_same d d' :
    staticInst d' = staticInst d → srcIdx d' = srcIdx d → destIdx d' = destIdx d →
    prevDestIdx d' = prevDestIdx d → P d → P d'
}.

#[export] Instance not_fusion_fetched : FetchedProp (λ d, isFusion d = false).
Proof. split; [done|]. intros d d' E _ _ _. unfold isFusion, di_has. by rewrite E. Qed.

Section Placed.

Context (P : DynInst → Prop) `{!FetchedProp P}.

Definition vec_ok (d : DynInst) : Prop := P d ∨ fused_ok d.

Lemma vec_ok_parts d :
  vec_ok d → si_type (staticInst d) ≠ "FusionInst" → part_seqs d = [seqNum d].
Proof.
  intros [H%fp_fetched|H] Ht; [by unfold part_seqs; rewrite H|].
  by destruct (Ht (fk_type _ H)).
Qed.

(** [vec'] with [inst'] at [pos] holds what [vec] held and the instructions with
    sequence numbers [new]. *)
Record placed (vec : list DynInst) (seq : Z) (new : list Z) (vec' : list DynInst)
    (pos : nat) (inst' : DynInst) : Prop := {
  pl_pos : vec' !! pos = Some inst';
  pl_ok : Forall vec_ok vec';
  pl_seqs : all_seqs vec' ≡ₚ all_seqs vec ++ new;
  pl_order : sublist (map seqNum vec') (map seqNum vec ++ [seq]);
  pl_len : length vec' ≤ S (length vec)
}.

(** The last instruction of [vec] is fused with what follows it. *)
Lemma placed_fused vec first si last parts seq :
  Forall vec_ok vec → back vec = Some first → si_type (staticInst first) ≠ "FusionInst" →
  made_of si (first :: parts) → parts ≠ [] →
  placed vec seq (map seqNum parts) (removelast vec ++ [fused_inst si first last])
    (length (removelast vec)) (fused_inst si first last).
Proof.
  intros Hok Hb Ht Hm Hp. apply last_Some in Hb as [v ->].
  rewrite removelast_last. apply Forall_app in Hok as [Hv Hf].
  rewrite Forall_singleton in Hf. split.
  - by rewrite list_lookup_middle.
  - apply Forall_app. split; [done|]. apply Forall_singleton. right. by eapply fused_inst_ok.
  - rewrite !map_app, !concat_app. simpl. rewrite (fused_inst_seqs _ _ _ _ Hm).
    rewrite (vec_ok_parts first) by done. simpl. by rewrite app_nil_r, <- app_assoc.
  - rewrite !map_app. simpl. by apply sublist_inserts_r.
  - rewrite !length_app. simpl. lia.
Qed.

(** A head inside [vec] is fused with the current instruction. *)
Lemma placed_head vec i head cur si :
  Forall vec_ok vec → vec !! i = Some head → si_type (staticInst head) ≠ "FusionInst" →
  made_of si [head; cur] →
  placed vec (seqNum cur) [seqNum cur] (<[i := fused_inst si head cur]> vec) i
    (fused_inst si head cur).
Proof.
  intros Hok Hi Ht Hm. pose proof (lookup_lt_Some _ _ _ Hi) as Hlt. split.
  - by apply list_lookup_insert_eq.
  - apply Forall_insert; [done|]. right. by eapply fused_inst_ok.
  - assert (all_seqs vec = all_seqs (take i vec) ++ seqNum head :: all_seqs (drop (S i) vec))
      as ->.
    { rewrite <- (take_drop_middle vec i head Hi) at 1. rewrite map_app, concat_app. simpl.
      rewrite (vec_ok_parts head) by (done || by eapply Forall_lookup). done. }
    rewrite insert_take_drop by done. rewrite map_app, concat_app. simpl.
    rewrite (fused_inst_seqs _ _ _ _ Hm), <- app_assoc. simpl.
    apply Permutation_app_head, perm_skip. by rewrite Permutation_cons_append.
  - rewrite list_fmap_insert. simpl. rewrite list_insert_id; [by apply sublist_inserts_r|].
    by rewrite list_lookup_fmap, Hi.
  - rewrite length_insert. lia.
Qed.

(** The current instruction is appended. *)
Lemma placed_push vec cur :
  Forall vec_ok vec → P cur →
  placed vec (seqNum cur) [seqNum cur] (vec ++ [cur]) (length vec) cur.
Proof.
  intros Hok Hc. split.
  - by rewrite list_lookup_middle.
  - apply Forall_app. split; [done|]. apply Forall_singleton. by left.
  - rewrite map_app, concat_app. simpl. unfold part_seqs at 2. by rewrite (fp_fetched _ Hc).
  - by rewrite map_app.
  - rewrite length_app. simpl. lia.
Qed.

End Placed.

(** ** The searches *)

Section Searches.

Context (p : DecodeParams) (env : DecodeEnv).

(** [head] and [cur] are fused by an entry of the pair table. *)
Definition pair_fused (head cur : DynInst) (inst : DynInst) : Prop :=
  ∃ c si, lookup2 fusionMap head cur = Ok (Some c) ∧
    create c [head; cur] = Ok (Some si) ∧ inst = fused_inst si head cur.

Lemma checkAndFuseInsts_inv ig vec cur ig' vec' cur' calls :
  checkAndFuseInsts p env ig vec cur = Ok (ig', vec', cur', calls) →
  (vec' = vec ∧ cur' = cur) ∨
  ∃ first, back vec = Some first ∧ pair_fused first cur cur' ∧ vec' = removelast vec.
Proof.
  unfold checkAndFuseInsts. intros H.
  destruct (back vec) as [first|] eqn:Hb; [|left; by inversion H].
  repeat match type of H with
  | (if ?b then _ else _) = _ => destruct b; [left; by inversion H|]
  end.
  apply res_bind_Ok in H as ([c|] & Hl & H); [|left; by inversion H].
  apply res_bind_Ok in H as ([si|] & Hc & H); [|left; by inversion H].
  right. exists first. inversion H; subst. split; [done|]. split; [|done].
  by exists c, si.
Qed.

Lemma try_head_inv cand cur base si :
  try_head cand cur base = Ok (Some si) →
  isLoad cand = true ∧ srcRegIdx (staticInst cand) 0 = Ok base ∧
  pair_fused cand cur (fused_inst si cand cur).
Proof.
  unfold try_head. intros H. destruct (isLoad cand); [simpl in H|done].
  apply res_bind_Ok in H as (cb & Hcb & H).
  destruct (reg_eqb_spec cb base) as [->|]; [simpl in H|done].
  apply res_bind_Ok in H as (cd & Hcd & H). destruct (reg_eqb cd base); [done|].
  apply res_bind_Ok in H as ([c|] & Hl & H); [|done]. split; [done|]. split; [done|].
  by exists c, si.
Qed.

(** The scan finds a head with only safe instructions from it on. *)
Lemma scan_heads_inv vec cur base td n i inst :
  scan_heads vec cur base td n = Ok (Some (i, inst)) →
  i < n ∧
  (∃ head, vec !! i = Some head ∧ isLoad head = true ∧
     srcRegIdx (staticInst head) 0 = Ok base ∧ pair_fused head cur inst) ∧
  ∀ j d, i ≤ j < n → vec !! j = Some d → faulted d = false ∧ gap_blocked d base td = false.
Proof.
  induction n as [|n IH]; [done|]. cbn [scan_heads]. intros H.
  apply res_bind_Ok in H as (cand & Hn & H). apply nth_res_Ok in Hn as [_ Hn].
  rewrite Nat2Z.id in Hn. destruct (faulted cand) eqn:Hf; [done|].
  destruct (gap_blocked cand base td) eqn:Hg; [done|].
  apply res_bind_Ok in H as ([si|] & Ht & H).
  - inversion H; subst. apply try_head_inv in Ht as (? & ? & ?).
    split; [lia|]. split; [by exists cand|]. intros j d Hj Hd.
    assert (j = i) as -> by lia. rewrite Hn in Hd. by inversion Hd; subst.
  - apply IH in H as (Hi & Hh & Hgap). split; [lia|]. split; [done|].
    intros j d Hj Hd. destruct (decide (j = n)) as [->|]; [|apply (Hgap j); [lia|done]].
    rewrite Hn in Hd. by inversion Hd; subst.
Qed.

Lemma checkAndFuseNonConsec_inv vec cur vec' i inst calls :
  checkAndFuseNonConsec p vec cur = Ok (Some (vec', i, inst, calls)) →
  ∃ td base head,
    destRegIdx (staticInst cur) 0 = Ok td ∧ srcRegIdx (staticInst cur) 0 = Ok base ∧
    td ≠ base ∧ isLoad cur = true ∧ i + 1 < length vec ∧ vec !! i = Some head ∧
    isLoad head = true ∧ srcRegIdx (staticInst head) 0 = Ok base ∧
    pair_fused head cur inst ∧ vec' = <[i := inst]> vec ∧
    (∀ j d, i ≤ j → vec !! j = Some d → gap_blocked d base td = false).
Proof.
  unfold checkAndFuseNonConsec. intros H. destruct (enableLoadFusion p); [simpl in H|done].
  destruct (faulted cur || negb (isLoad cur)) eqn:Hl; [done|].
  apply orb_false_iff in Hl as [_ Hl%negb_false_iff].
  destruct (Nat.ltb_spec (length vec) 2); [done|].
  apply res_bind_Ok in H as (td & Htd & H). apply res_bind_Ok in H as (base & Hbase & H).
  destruct (reg_eqb_spec td base); [done|].
  apply res_bind_Ok in H as (bk & Hbk & H). apply nth_res_Ok in Hbk as [_ Hbk].
  replace (Z.to_nat (Z.of_nat (length vec) - 1)) with (length vec - 1) in Hbk by lia.
  destruct (gap_blocked bk base td) eqn:Hg; [done|].
  apply res_bind_Ok in H as ([[i' inst']|] & Hs & H); [|done].
  apply res_bind_Ok in H as (hd & _ & H). inversion H; subst.
  apply scan_heads_inv in Hs as (Hi & (head & Hh & Hhl & Hhb & Hp) & Hgap).
  exists td, base, head. repeat (split; [done || lia|]). intros j d Hj Hd.
  destruct (decide (j = length vec - 1)) as [->|].
  - rewrite Hbk in Hd. by inversion Hd; subst.
  - apply lookup_lt_Some in Hd as Hlt. apply (Hgap j); [lia|done].
Qed.

Lemma checkAndFuseTriple_inv vec cur pending vec' inst calls :
  checkAndFuseTriple p vec cur pending = Ok (Some (vec', inst, calls)) →
  ∃ first third rest c si, back vec = Some first ∧ pending = third :: rest ∧
    lookup3 fusionMap3 first cur third = Ok (Some c) ∧
    create c [first; cur; third] = Ok (Some si) ∧
    vec' = removelast vec ∧ inst = fused_inst si first third.
Proof.
  unfold checkAndFuseTriple. intros H.
  destruct (back vec) as [first|] eqn:Hb; [|done]. destruct pending as [|third rest]; [done|].
  destruct (negb (enableLoadFusion p)); [done|].
  destruct (faulted first || faulted cur || faulted third); [done|].
  apply res_bind_Ok in H as ([c|] & Hl & H); [|done].
  apply res_bind_Ok in H as ([si|] & Hc & H); [|done]. inversion H; subst.
  by exists first, third, rest, c, si.
Qed.

(** Placing an instruction loses none and keeps the order. *)
Lemma place_inst_placed P `{!FetchedProp P} ig vec inst pending ig' vec' pos inst' extra calls :
  Forall (vec_ok P) vec → P inst →
  place_inst p env ig vec inst pending = Ok (ig', vec', pos, inst', extra, calls) →
  extra ≤ 1 ∧ extra ≤ length pending ∧
  placed P vec (seqNum inst) (seqNum inst :: map seqNum (take extra pending)) vec' pos inst'.
Proof.
  intros Hok Hf H. unfold place_inst in H.
  apply res_bind_Ok in H as ([[[v i] cs]|] & Ht & H).
  { inversion H; subst. apply checkAndFuseTriple_inv in Ht
      as (first & third & rest & c & si & Hb & -> & Hl & Hc & -> & ->).
    apply lookup3_not_fused in Hl as (Ht & n & s & chk & ->). apply new_parts3 in Hc.
    split; [lia|]. split; [simpl; lia|].
    by apply (placed_fused P vec first si third [inst; third]). }
  apply res_bind_Ok in H as ([[[ig1 v] i] cs] & Hp & H).
  apply checkAndFuseInsts_inv in Hp as [[-> ->]|(first & Hb & (c & si & Hl & Hc & ->) & ->)].
  - rewrite (fp_fetched _ Hf) in H. apply res_bind_Ok in H as ([[[[v' k] i'] cs']|] & Hn & H);
      inversion H; subst; simpl; (split; [lia|]; split; [lia|]).
    + apply checkAndFuseNonConsec_inv in Hn as (td & base & head & _ & _ & _ & _ & _ &
        Hh & _ & _ & (c & si & Hl & Hc & ->) & -> & _).
      apply lookup2_not_fused in Hl as [Hl _]. apply new_parts2 in Hc.
      by apply placed_head.
    + by apply placed_push.
  - apply lookup2_not_fused in Hl as [Hl _]. apply new_parts2 in Hc.
    pose proof (fk_flag _ (fused_inst_ok si first inst _ Hc ltac:(done))) as Hfl.
    rewrite Hfl in H. inversion H; subst. split; [lia|]. split; [lia|].
    by apply (placed_fused P vec first si inst [inst]).
Qed.

(** *** The prediction checks change the prediction only *)

Definition same_inst (d d' : DynInst) : Prop :=
  staticInst d' = staticInst d ∧ srcIdx d' = srcIdx d ∧ destIdx d' = destIdx d ∧
  prevDestIdx d' = prevDestIdx d ∧ seqNum d' = seqNum d ∧ threadNumber d' = threadNumber d.

Definition checked_inst (r : BranchCheck) : DynInst :=
  match r with Keep d => d | Squash _ d => d end.

Lemma same_pred d b q : same_inst d (set_pred d b q).
Proof. by repeat split. Qed.

Lemma same_trans a b c : same_inst a b → same_inst b c → same_inst a c.
Proof. unfold same_inst. intuition congruence. Qed.

Lemma check_direct_same d r : check_direct env d = Ok r → same_inst d (checked_inst r).
Proof.
  unfold check_direct. cbn zeta. intros H. repeat case_match; res_inv;
    try apply same_pred; try done; apply (same_trans _ _ _ (same_pred _ _ _)), same_pred.
Qed.

Lemma check_return_same d r : check_return env d = Ok r → same_inst d (checked_inst r).
Proof.
  unfold check_return. intros H. repeat case_match; res_inv; try apply same_pred; done.
Qed.

Lemma check_prediction_same d r :
  check_prediction env d = Ok r → same_inst d (checked_inst r).
Proof.
  unfold check_prediction. intros H. case_match; [by res_inv|].
  apply res_bind_Ok in H as (r' & Hd%check_direct_same & H).
  destruct r'; simpl in *; [|by inversion H; subst].
  apply check_return_same in H. by eapply same_trans.
Qed.

End Searches.

Lemma same_part_seqs d d' : same_inst d d' → part_seqs d' = part_seqs d.
Proof.
  intros (Es & _ & _ & _ & Eq & _). unfold part_seqs, isFusion, di_has. by rewrite Es, Eq.
Qed.

Lemma same_vec_ok P `{!FetchedProp P} d d' : same_inst d d' → vec_ok P d → vec_ok P d'.
Proof.
  intros (Es & E1 & E2 & E3 & Eq & _) [H|[Ht Hf Hp]]; [left; by eapply fp_same|right].
  split; unfold isFusion, di_has in *; by rewrite ?Es, ?Eq.
Qed.

(** Changing the prediction of the instruction in place. *)
Lemma placed_same P `{!FetchedProp P} vec seq new vec' pos d d' :
  placed P vec seq new vec' pos d → same_inst d d' →
  placed P vec seq new (<[pos := d']> vec') pos d'.
Proof.
  intros [Hpos Hok Hs Ho Hl] Hd. apply lookup_lt_Some in Hpos as Hlt. split.
  - by apply list_lookup_insert_eq.
  - apply Forall_insert; [done|]. apply (same_vec_ok P d); [done|]. by eapply Forall_lookup_1.
  - rewrite list_fmap_insert, (same_part_seqs _ _ Hd), list_insert_id; [done|].
    by rewrite list_lookup_fmap, Hpos.
  - rewrite list_fmap_insert, list_insert_id; [done|]. destruct Hd as (_ & _ & _ & _ & -> & _).
    by rewrite list_lookup_fmap, Hpos.
  - by rewrite length_insert.
Qed.

(** ** The loop *)

(** The instructions of a group that decode passes on. *)
Definition live_insts (l : list DynInst) : list DynInst := filter (λ d, squashed d = false) l.

(** Squashed instructions come first: a squash marks the instructions of the old
    versions. *)
Definition squashed_first (l : list DynInst) : Prop :=
  ∀ i j d e, i < j → l !! i = Some d → l !! j = Some e →
    squashed e = true → squashed d = true.

Section Loop.

Context (p : DecodeParams) (env : DecodeEnv).
Context {C : Type} `{CircularBufferLaws C DynInst}.
Context (P : DynInst → Prop) `{!FetchedProp P}.

(** After [k] instructions of the group. *)
Record loop_inv (group : list DynInst) (k : nat) (st : LoopState C) : Prop := {
  li_k : k ≤ length group;
  li_pending : cb_elems (l_pending st) = drop k group;
  li_avail : l_avail st = Z.of_nat (length group - k);
  li_ok : Forall (vec_ok P) (l_vec st);
  li_seqs : all_seqs (l_vec st) ≡ₚ map seqNum (live_insts (take k group));
  li_order : sublist (map seqNum (l_vec st)) (map seqNum (take k group));
  li_len : (Z.of_nat (length (l_vec st)) ≤ l_index st)%Z
}.

Lemma pop_front_drop (c : C) group k n :
  cb_elems c = drop k group → k + n ≤ length group →
  cb_elems (Nat.iter n cb_pop_front c) = drop (k + n) group.
Proof.
  revert c k. induction n as [|n IH]; intros c k Hc Hn; simpl; [by rewrite Nat.add_0_r|].
  assert (cb_elems (Nat.iter n cb_pop_front c) = drop (k + n) group) as E by (apply IH; [done|lia]).
  rewrite cb_elems_pop, E.
  - change (tail (drop (k + n) group)) with (drop 1 (drop (k + n) group)).
    rewrite drop_drop. f_equal. lia.
  - rewrite E. intros Hnil. apply (f_equal length) in Hnil. rewrite length_drop in Hnil.
    simpl in Hnil. lia.
Qed.

(** The effect of an iteration on the invariant, when the instruction and
    [extra] more have been placed. *)
Lemma loop_inv_placed group k st inst extra vec pos inst' pending idx stalls brk ig sq calls :
  squashed_first group → loop_inv group k st → group !! k = Some inst →
  squashed inst = false → extra ≤ 1 → extra ≤ length (drop (S k) group) →
  placed P (l_vec st) (seqNum inst)
    (seqNum inst :: map seqNum (take extra (drop (S k) group))) vec pos inst' →
  cb_elems pending = drop (S k + extra) group → idx = (l_index st + 1)%Z →
  loop_inv group (S k + extra)
    (mkLoop pending vec (l_avail st - Z.of_nat extra - 1) idx stalls brk ig sq calls).
Proof.
  intros Hsq [Hk Hpen Hav Hok Hseqs Hord Hlen] Hi Hns He Hel [_ Hok' Hseqs' Hord' Hlen'] Hpd ->.
  rewrite length_drop in Hel. apply lookup_lt_Some in Hi as Hlt.
  assert (take (S k + extra) group = take k group ++ inst :: take extra (drop (S k) group))
    as Htk by (rewrite <- take_take_drop, (take_S_r _ _ _ Hi), <- app_assoc; done).
  split; cbn [l_pending l_vec l_avail l_index]; try done; [lia|lia| | |lia].
  - rewrite Htk, Hseqs', Hseqs. unfold live_insts.
    rewrite filter_app, map_app, filter_cons_True by done. simpl. do 2 f_equiv.
    apply reflexive_eq. f_equal. symmetry. apply filter_all.
    destruct extra as [|[|]]; [by constructor| |lia].
    destruct (drop (S k) group) as [|third rest] eqn:Ed; [by constructor|].
    simpl. constructor; [|by constructor].
    destruct (squashed third) eqn:Et; [|done]. rewrite <- Hns. symmetry.
    eapply (Hsq k (S k)); [lia|done| |done].
    by rewrite <- (Nat.add_0_r (S k)), <- lookup_drop, Ed.
  - rewrite Htk, map_app. simpl. etrans; [exact Hord'|].
    apply sublist_app; [done|]. apply sublist_skip. apply sublist_nil_l.
Qed.

Lemma decode_step_inv group k st inst r :
  squashed_first group → Forall P group → loop_inv group k st →
  group !! k = Some inst → decode_step p env st inst = Ok r →
  ∃ k' st', (r = inl st' ∨ r = inr st') ∧ k < k' ∧ loop_inv group k' st' ∧
    (l_index st' ≤ l_index st + 1)%Z.
Proof.
  intros Hsq Hall Hinv Hi Hstep. pose proof Hinv as [Hk Hpen Hav Hok Hseqs Hord Hlen].
  apply lookup_lt_Some in Hi as Hlt. unfold decode_step in Hstep.
  assert (cb_elems (cb_pop_front (l_pending st)) = drop (S k) group) as Hpop.
  { pose proof (pop_front_drop (l_pending st) group k 1 Hpen) as E. simpl in E.
    rewrite E, Nat.add_1_r by lia. done. }
  destruct (squashed inst) eqn:Hs.
  { inversion Hstep; subst. do 2 eexists. split; [by left|]. split; [by apply Nat.lt_succ_diag_r|].
    split; [|simpl; lia]. split; cbn [l_pending l_vec l_avail l_index]; try done; try lia.
    - rewrite (take_S_r _ _ _ Hi). unfold live_insts.
      rewrite filter_app, filter_cons_False, filter_nil, app_nil_r by (rewrite Hs; done). done.
    - rewrite (take_S_r _ _ _ Hi), map_app. by apply sublist_inserts_r. }
  apply res_bind_Ok in Hstep as ([[[[[ig vec] pos] inst1] extra] calls] & Hplace & Hstep).
  rewrite Hpop in Hplace.
  set (inst0 := if (numSrcRegs (staticInst inst) =? 0)%Z then setCanIssue inst else inst) in *.
  assert (seqNum inst0 = seqNum inst) as Hseq0 by (unfold inst0; by case_match).
  assert (P inst0) as HP0.
  { pose proof (Forall_lookup_1 _ _ _ _ Hall Hi). unfold inst0. case_match; [|done].
    by apply (fp_same inst). }
  apply (place_inst_placed p env P) in Hplace as (He & Hel & Hpl); [|done..].
  rewrite Hseq0 in Hpl.
  assert (cb_elems (Nat.iter extra cb_pop_front (cb_pop_front (l_pending st))) =
          drop (S k + extra) group) as Hpd.
  { apply pop_front_drop; [done|]. rewrite length_drop in Hel. lia. }
  apply res_bind_Ok in Hstep as (chk & Hchk & Hstep). apply check_prediction_same in Hchk.
  exists (S k + extra).
  destruct chk as [i'|comm i']; simpl in Hchk; inversion Hstep; subst; eexists;
    (split; [by eauto|]); (split; [lia|]); (split; [|simpl; lia]);
    eapply loop_inv_placed; eauto using placed_same.
Qed.

Lemma decode_loop_inv fuel lim group k st st' :
  squashed_first group → Forall P group → loop_inv group k st →
  (l_index st ≤ decodeWidth p)%Z → decode_loop p env fuel lim st = Ok st' →
  ∃ k', loop_inv group k' st' ∧ (l_index st' ≤ decodeWidth p)%Z.
Proof.
  revert k st. induction fuel as [|fuel IH]; intros k st Hsq Hall Hinv Hix Hrun;
    cbn [decode_loop] in Hrun;
    (destruct ((0 <? l_avail st) && (l_index st <? decodeWidth p))%Z eqn:Hc;
      [|inversion Hrun; subst; by eauto]);
    (destruct (cb_elems (l_pending st)) as [|inst rest] eqn:Hp; [done|]);
    (destruct (lim && isVector inst); [inversion Hrun; subst; by eauto|]); [done|].
  apply andb_true_iff in Hc as [_ Hw%Z.ltb_lt].
  apply res_bind_Ok in Hrun as (r & Hstep & Hrun).
  assert (group !! k = Some inst) as Hi.
  { rewrite (li_pending _ _ _ Hinv) in Hp.
    by rewrite <- (Nat.add_0_r k), <- lookup_drop, Hp. }
  destruct (decode_step_inv _ _ _ _ _ Hsq Hall Hinv Hi Hstep)
    as (k' & st1 & [-> | ->] & _ & Hinv' & Hix').
  - eapply (IH k'); eauto. lia.
  - inversion Hrun; subst. exists k'. split; [done|lia].
Qed.

End Loop.

(** ** The loop does not panic

    What the loop relies on of the decoder: instructions of the types the tables name
    have the operands of those types, a load has a source and a destination, and a
    multiplication has the operation class of one and is no load. *)
Record from_decoder (D : RegId → Prop) (d : DynInst) : Prop := {
  fd_decoded : decoded D d;
  fd_fetched : isFusion d = false;
  fd_load : isLoad d = true →
    si_srcs (staticInst d) ≠ [] ∧ si_dests (staticInst d) ≠ [];
  fd_mul : decompressed (si_type (staticInst d)) ∈ ["Mul"; "Mulw"] →
    si_opClass (staticInst d) = IntMultOp ∧ isLoad d = false
}.

#[export] Instance from_decoder_fetched D : FetchedProp (from_decoder D).
Proof.
  split; [by intros d []|]. intros d d' Es E1 E2 E3 [[[]] ]. unfold isFusion, isLoad, di_has in *.
  split; [split; [split|..]|..]; unfold isFusion, isLoad, di_has; rewrite ?Es, ?E1, ?E2, ?E3; done.
Qed.

(** Whether the parameters allow the entry. *)
Definition creator_enabled (p : DecodeParams) (c : FuseCreator) : bool :=
  match c with MaccCreator _ _ => enableMACFusion p | _ => true end.

(** Instructions [a] and [b] that an entry of the pair table accepts are ones its
    constructor accepts; the same for the triple table, whose constructor only needs the
    destination of the load not to be [x0]. *)
Definition pair_safe (p : DecodeParams) (a b : DynInst) : Prop :=
  ∀ c, lookup2 fusionMap a b = Ok (Some c) → creator_enabled p c = true →
    eval_checks [a; b] (creator_checks c) = Ok true → fusable c a b.
Definition triple_safe (a b d : DynInst) : Prop :=
  ∀ c, lookup3 fusionMap3 a b d = Ok (Some c) →
    eval_checks [a; b; d] (creator_checks c) = Ok true → Forall counted (si_dests (staticInst d)).

Record group_safe (p : DecodeParams) (group : list DynInst) : Prop := {
  gs_pairs a b : a ∈ group → b ∈ group → pair_safe p a b;
  gs_triples a b d : a ∈ group → b ∈ group → d ∈ group → triple_safe a b d
}.

(** The checks read the decoded instructions only. *)
Lemma nth_static (vec vec' : list DynInst) i {A} (f : StaticInst → res A) :
  map staticInst vec = map staticInst vec' →
  (let! d := nth_res vec i in f (staticInst d)) = (let! d := nth_res vec' i in f (staticInst d)).
Proof.
  intros E. assert (∀ v, (let! d := nth_res v i in f (staticInst d)) =
    let! s := nth_res (map staticInst v) i in f s) as Hmap; [|by rewrite !Hmap, E].
  intros v. unfold nth_res. destruct (i <? 0)%Z; [done|]. rewrite list_lookup_fmap.
  by destruct (v !! Z.to_nat i).
Qed.

Lemma eval_checks_static vec vec' cs :
  map staticInst vec = map staticInst vec' → eval_checks vec cs = eval_checks vec' cs.
Proof.
  intros E. induction cs as [|c cs IH]; simpl; [done|]. rewrite IH. f_equal.
  assert (∀ i, dest0 vec i = dest0 vec' i) as H1 by (intros i; apply (nth_static _ _ i (λ s, destRegIdx s 0) E)).
  assert (∀ i k, src vec i k = src vec' i k) as H2 by (intros i k; apply (nth_static _ _ i (λ s, srcRegIdx s k) E)).
  assert (∀ i, imm vec i = imm vec' i) as H3 by (intros i; apply (nth_static _ _ i (λ s, Ok (si_imm s)) E)).
  destruct c; simpl; by rewrite ?H1, ?H2, ?H3.
Qed.

Section Total.

Context (p : DecodeParams) (env : DecodeEnv) (D : RegId → Prop).
Context (all : list DynInst) (Hsafe : group_safe p all).

(** An instruction of the group, perhaps marked since. *)
Definition of_group (d : DynInst) : Prop :=
  from_decoder D d ∧ ∃ g, g ∈ all ∧ staticInst d = staticInst g.

#[local] Instance of_group_fetched : FetchedProp of_group.
Proof.
  split; [by intros d [[] _]|]. intros d d' Es E1 E2 E3 [Hd (g & Hg & Eg)].
  split; [by apply (fp_same d)|]. exists g. split; [done|congruence].
Qed.

Abbreviation fetched := of_group.
Abbreviation ok := (vec_ok fetched).

Lemma ok_fetched d : ok d → si_type (staticInst d) ≠ "FusionInst" → fetched d.
Proof. intros [|[]]; done. Qed.

Lemma fused_not_mul d :
  fused_ok d → decompressed (si_type (staticInst d)) ∈ ["Mul"; "Mulw"] → False.
Proof. intros [-> _ _]. by apply (bool_decide_unpack (_ ∉ _)). Qed.

Lemma pair_total a b :
  ok a → fetched b →
  (decompressed (si_type (staticInst a)) ∈ ["Mul"; "Mulw"] → enableMACFusion p = true) →
  ∃ o, lookup2 fusionMap a b = Ok o ∧
    ∀ c, o = Some c → ∃ si, create c [a; b] = Ok si.
Proof.
  intros Ha [Hb (gb & Gb & Eb)] Hmul. destruct (lookup2_ok a b) as (o & Ho & Hc). exists o.
  split; [done|]. intros c ->. specialize (Hc _ eq_refl).
  destruct (lookup2_not_fused a b c Ho) as [Ht _].
  apply ok_fetched in Ha as [Ha (ga & Ga & Ea)]; [|done].
  eapply pair_creators_total; try done; try apply Ha; try apply Hb. intros Hchk.
  assert (lookup2 fusionMap ga gb = Ok (Some c)) as Hl.
  { rewrite <- Ho. unfold lookup2, inst_key. by rewrite Ea, Eb. }
  assert (fusable c ga gb) as Hf; [|unfold fusable in *; by rewrite Ea, Eb].
  apply (gs_pairs _ _ Hsafe ga gb Ga Gb c Hl).
  - destruct c; try done. simpl. apply Hmul. unfold entry_ok in Hc. entry_cases Hc.
    by apply andb_true_iff in Hc as [?%bool_decide_eq_true_1 _].
  - rewrite <- Hchk. apply eval_checks_static. simpl. by rewrite Ea, Eb.
Qed.

Lemma checkAndFuseInsts_total ig vec cur :
  Forall ok vec → fetched cur → ∃ r, checkAndFuseInsts p env ig vec cur = Ok r.
Proof.
  intros Hv Hc. unfold checkAndFuseInsts.
  destruct (back vec) as [first|] eqn:Hb; [|by eexists].
  assert (ok first) as Hf.
  { apply last_Some in Hb as [v ->]. apply Forall_app in Hv as [_ Hv]. by inversion Hv. }
  do 3 (match goal with |- ∃ _, (if ?b then _ else _) = _ => destruct b; [by eexists|] end).
  destruct (negb (enableMACFusion p) && _) eqn:Hm; [by eexists|].
  match goal with |- ∃ _, (if ?b then _ else _) = _ => destruct b; [by eexists|] end.
  destruct (pair_total first cur Hf Hc) as (o & -> & Ho).
  { intros Ht. destruct Hf as [Hf|Hf]; [|by destruct (fused_not_mul _ Hf Ht)].
    destruct (fd_mul _ _ (proj1 Hf) Ht) as (Hop & _).
    rewrite Hop, bool_decide_true, andb_true_r in Hm by done. by apply negb_false_iff. }
  cbn [res_bind]. destruct o as [c|]; [|by eexists].
  destruct (Ho c eq_refl) as [[si|] ->]; cbn [res_bind]; by eexists.
Qed.

Lemma nth_res_0 {A} (l : list A) : l ≠ [] → ∃ a, nth_res l 0 = Ok a.
Proof. destruct l as [|a l]; [done|]. by exists a. Qed.

Lemma operands_total d :
  ok d → isLoad d = true →
  (∃ r, srcRegIdx (staticInst d) 0 = Ok r) ∧ ∃ r, destRegIdx (staticInst d) 0 = Ok r.
Proof.
  unfold srcRegIdx, destRegIdx. intros [Hf|[_ _ (fu & a & b & rest & -> & _)]] Hl.
  - rewrite (pl_fusion _ _ (dc_plain _ _ (fd_decoded _ _ (proj1 Hf)))).
    destruct (fd_load _ _ (proj1 Hf) Hl) as [H1 H2].
    split; apply nth_res_0; [|done]. by destruct (si_srcs (staticInst d)).
  - split; apply nth_res_0; by destruct (si_srcs (staticInst d)), (si_dests (staticInst d)).
Qed.

Lemma try_head_total cand cur base :
  ok cand → fetched cur → ∃ o, try_head cand cur base = Ok o.
Proof.
  intros Ha Hc. unfold try_head. destruct (isLoad cand) eqn:Hl; [|by eexists]. cbn [negb].
  destruct (operands_total cand Ha Hl) as [[r ->] [r' ->]]. cbn [res_bind].
  destruct (reg_eqb r base); [|by eexists]. cbn [negb].
  destruct (reg_eqb r' r); [by eexists|].
  destruct (pair_total cand cur Ha Hc) as (o & -> & Ho).
  { intros Ht. destruct Ha as [Ha|Ha]; [|by destruct (fused_not_mul _ Ha Ht)].
    destruct (fd_mul _ _ (proj1 Ha) Ht) as (_ & Hnl). congruence. }
  cbn [res_bind]. destruct o as [c|]; [|by eexists]. apply (Ho c eq_refl).
Qed.

Lemma scan_heads_total vec cur base td n :
  Forall ok vec → fetched cur → n ≤ length vec →
  ∃ o, scan_heads vec cur base td n = Ok o.
Proof.
  intros Hv Hc. induction n as [|n IH]; intros Hn; cbn [scan_heads]; [by eexists|].
  destruct (lookup_lt_is_Some_2 vec n) as [cand Hcand]; [lia|].
  rewrite (proj2 (nth_res_Ok vec (Z.of_nat n) cand)) by (rewrite Nat2Z.id; split; [lia|done]).
  cbn [res_bind]. destruct (faulted cand); [by eexists|].
  destruct (gap_blocked cand base td); [by eexists|].
  destruct (try_head_total cand cur base) as [[si|] ->]; [by eapply Forall_lookup_1|done|..];
    cbn [res_bind]; [by eexists|]. apply IH. lia.
Qed.

Lemma checkAndFuseNonConsec_total vec cur :
  Forall ok vec → fetched cur → ∃ o, checkAndFuseNonConsec p vec cur = Ok o.
Proof.
  intros Hv Hc. unfold checkAndFuseNonConsec. destruct (negb _); [by eexists|].
  destruct (isLoad cur) eqn:Hl; [|rewrite orb_true_r; by eexists].
  destruct (faulted cur || negb true); [by eexists|].
  destruct (Nat.ltb_spec (length vec) 2); [by eexists|].
  destruct (operands_total cur (or_introl Hc) Hl) as [[base ->] [td ->]]. cbn [res_bind].
  destruct (reg_eqb td base); [by eexists|].
  destruct (lookup_lt_is_Some_2 vec (length vec - 1)) as [bk Hbk]; [lia|].
  rewrite (proj2 (nth_res_Ok vec (Z.of_nat (length vec) - 1) bk))
    by (split; [lia|by replace (Z.to_nat _) with (length vec - 1) by lia]).
  cbn [res_bind]. destruct (gap_blocked bk base td); [by eexists|].
  destruct (scan_heads_total vec cur base td (length vec - 1)) as [[[i inst]|] E];
    [done|done|lia|..]; rewrite E; cbn [res_bind]; [|by eexists].
  apply scan_heads_inv in E as (_ & (head & Hh & _) & _).
  rewrite (proj2 (nth_res_Ok vec (Z.of_nat i) head)) by (rewrite Nat2Z.id; split; [lia|done]).
  by eexists.
Qed.

Lemma checkAndFuseTriple_total vec cur pending :
  Forall ok vec → fetched cur → Forall fetched pending →
  ∃ o, checkAndFuseTriple p vec cur pending = Ok o.
Proof.
  intros Hv Hc Hp. unfold checkAndFuseTriple.
  destruct (back vec) as [first|] eqn:Hb; [|by eexists].
  assert (ok first) as Hf.
  { apply last_Some in Hb as [v ->]. apply Forall_app in Hv as [_ Hv]. by inversion Hv. }
  destruct pending as [|third rest]; [by eexists|]. inversion_clear Hp as [|? ? Ht _].
  destruct (negb _); [by eexists|]. destruct (_ || _); [by eexists|].
  destruct (lookup3_ok first cur third) as ([c|] & Hl & _); rewrite Hl; cbn [res_bind];
    [|by eexists].
  destruct (lookup3_not_fused _ _ _ _ Hl) as [Hft _].
  apply ok_fetched in Hf as [Hf (gf & Gf & Ef)]; [|done].
  destruct Hc as [Hc (gc & Gc & Ec)], Ht as [Ht (gt & Gt & Et)].
  destruct (triple_creators_total D first cur third c) as [[si|] ->];
    try apply Hf; try apply Hc; try apply Ht; try done; cbn [res_bind]; [|by eexists..].
  intros Hchk. rewrite Et. apply (gs_triples _ _ Hsafe gf gc gt Gf Gc Gt c).
  - rewrite <- Hl. unfold lookup3, inst_key. by rewrite Ef, Ec, Et.
  - rewrite <- Hchk. apply eval_checks_static. simpl. by rewrite Ef, Ec, Et.
Qed.

Lemma place_inst_total ig vec inst pending :
  Forall ok vec → fetched inst → Forall fetched pending →
  ∃ r, place_inst p env ig vec inst pending = Ok r.
Proof.
  intros Hv Hi Hp. unfold place_inst.
  destruct (checkAndFuseTriple_total vec inst pending) as [[[[v' i'] cs]|] ->];
    [done..| |]; cbn [res_bind]; [by eexists|].
  destruct (checkAndFuseInsts_total ig vec inst) as [[[[ig' v'] i'] cs] E]; [done..|].
  rewrite E. cbn [res_bind].
  apply checkAndFuseInsts_inv in E as [[-> ->]|(first & _ & (c & si & _ & Hc & ->) & _)].
  - rewrite (fp_fetched _ Hi).
    destruct (checkAndFuseNonConsec_total vec inst) as [[[[[? ?] ?] ?]|] ->]; [done..| |];
      cbn [res_bind]; by eexists.
  - apply new_parts2 in Hc.
    rewrite (fk_flag _ (fused_inst_ok si first inst _ Hc ltac:(done))). by eexists.
Qed.

Lemma check_prediction_total d : ok d → ∃ r, check_prediction env d = Ok r.
Proof.
  intros Hd.
  assert (∀ d', same_inst d d' → ∃ comm, selfSquash_comm env d' = Ok comm) as Hs.
  { intros d' Hsame. apply (same_vec_ok fetched) in Hsame as Hd'; [|done].
    unfold selfSquash_comm, ctrl_inst.
    destruct Hd' as [Hf|[_ -> (fu & a & b & rest & -> & Hparts & _)]].
    - rewrite (fp_fetched _ Hf). by eexists.
    - unfold getSecondInst. rewrite Hparts. by eexists. }
  unfold check_prediction. destruct (predTaken d && negb (isControl d)).
  { destruct (Hs d) as [comm ->]; [done|]. by eexists. }
  destruct (check_direct env d) as [r|] eqn:Hr.
  - cbn [res_bind]. destruct r as [d'|]; [|by eexists]. apply check_direct_same in Hr.
    simpl in Hr. unfold check_return. destruct (_ && _ && _).
    + destruct (Hs (set_pred d' true (pc_set PCState_default (env_returnAddr env d'))))
        as [comm ->]; [eapply same_trans; [done|apply same_pred]|]. by eexists.
    + destruct (_ && _); by eexists.
  - exfalso. revert Hr. unfold check_direct. cbn zeta. case_match; [|done].
    match goal with |- context [selfSquash_comm env ?d'] =>
      destruct (Hs d') as [comm Hcomm]; [by case_match; [apply same_pred|]|];
      rewrite Hcomm; generalize d' end.
    intros d'. by destruct (pc_equals _ (predPC d')).
Qed.

Context {C : Type} `{CircularBufferLaws C DynInst}.

Lemma decode_step_total group k (st : LoopState C) inst :
  Forall fetched group → loop_inv fetched group k st → group !! k = Some inst →
  ∃ r, decode_step p env st inst = Ok r.
Proof.
  intros Hall [Hk Hpen Hav Hok _ _ _] Hi. apply lookup_lt_Some in Hi as Hlt.
  unfold decode_step. destruct (squashed inst); [by eexists|].
  assert (cb_elems (cb_pop_front (l_pending st)) = drop (S k) group) as Hpop.
  { pose proof (pop_front_drop (l_pending st) group k 1 Hpen) as E. simpl in E.
    rewrite E, Nat.add_1_r by lia. done. }
  rewrite Hpop.
  set (inst0 := if (numSrcRegs (staticInst inst) =? 0)%Z then setCanIssue inst else inst).
  assert (fetched inst0) as Hi0.
  { pose proof (Forall_lookup_1 _ _ _ _ Hall Hi). unfold inst0. case_match; [|done].
    by apply (fp_same inst). }
  destruct (place_inst_total (l_ignore st) (l_vec st) inst0 (drop (S k) group))
    as [[[[[[ig vec] pos] inst1] extra] calls] E]; [done|done|by apply Forall_drop|].
  rewrite E. cbn [res_bind].
  apply (place_inst_placed p env fetched) in E as (_ & _ & [Hpos Hok' _ _ _]); [|done..].
  destruct (check_prediction_total inst1) as [chk ->]; [by eapply Forall_lookup_1|].
  cbn [res_bind]. destruct chk; by eexists.
Qed.

Lemma decode_loop_total fuel lim group k (st : LoopState C) :
  squashed_first group → Forall fetched group → loop_inv fetched group k st →
  length group - k ≤ fuel → ∃ st', decode_loop p env fuel lim st = Ok st'.
Proof.
  revert k st. induction fuel as [|fuel IH]; intros k st Hsq Hall Hinv Hf;
    cbn [decode_loop]; pose proof Hinv as [Hk Hpen Hav _ _ _ _];
    (destruct (Z.ltb_spec 0 (l_avail st)); [|by eexists]); [lia|]. cbn [andb].
  destruct (l_index st <? decodeWidth p)%Z; [|by eexists].
  destruct (lookup_lt_is_Some_2 group k) as [inst Hi]; [lia|].
  rewrite Hpen, (drop_S _ _ _ Hi). destruct (lim && isVector inst); [by eexists|].
  destruct (decode_step_total group k st inst) as [r Hr]; [done..|]. rewrite Hr.
  cbn [res_bind]. destruct r as [st1|st1]; [|by eexists].
  destruct (decode_step_inv p env fetched _ _ _ _ _ Hsq Hall Hinv Hi Hr)
    as (k' & st2 & [[= <-]|[=]] & Hk' & Hinv' & _).
  apply (IH k'); [done..|lia].
Qed.

End Total.

(** ** Moving a load before a gap *)

(** No instruction after the head changes control flow, writes the base or the
    destination of the load, or reads the destination of the load. *)
Lemma nonconsec_gap_safe p vec cur vec' i inst calls :
  checkAndFuseNonConsec p vec cur = Ok (Some (vec', i, inst, calls)) →
  ∃ td base, destRegIdx (staticInst cur) 0 = Ok td ∧ srcRegIdx (staticInst cur) 0 = Ok base ∧
    vec' = <[i := inst]> vec ∧ i + 1 < length vec ∧
    ∀ j d, i < j → vec !! j = Some d →
      isControl d = false ∧ (base ∉ si_dests (staticInst d)) ∧
      (td ∉ si_dests (staticInst d)) ∧ (td ∉ si_srcs (staticInst d)).
Proof.
  intros H1. apply checkAndFuseNonConsec_inv in H1 as (td & base & head & Htd & Hb & _ & _ &
    Hi & _ & _ & _ & _ & Hv & Hgap).
  exists td, base. repeat (split; [done|]). intros j d Hj Hd.
  specialize (Hgap j d ltac:(lia) Hd). unfold gap_blocked in Hgap.
  apply orb_false_iff in Hgap as [[Hc Hds]%orb_false_iff Hss]. split; [done|].
  assert (∀ (f : RegId → bool) l r, existsb f l = false → f r = true → r ∉ l) as Hex.
  { intros f l r Hf Hr Hin. apply not_true_iff_false in Hf. apply Hf, existsb_exists.
    exists r. split; [by apply list_elem_of_In|done]. }
  split; [|split]; (eapply Hex; [done|]); cbn beta; by rewrite ?reg_eqb_refl, ?orb_true_r.
Qed.

(** The register state after the instructions [ds]. *)
Definition arch_run (isa : ISAExec) (A : Arch) (ds : list DynInst) : Arch :=
  foldl (λ A d, (arch_execute isa A d).1.2) A ds.

Lemma rd_wr_ne A td v r : r ≠ td → rd (wr A td v) r = rd A r.
Proof.
  intros Hne. unfold rd, wr. destruct (isZeroReg r), (isZeroReg td); try done.
  by rewrite (reg_eqb_ne r td).
Qed.

Lemma rd_ext A B r : A r = B r → rd A r = rd B r.
Proof. unfold rd. by intros ->. Qed.

(** Writes to other registers commute with a write of [td]. *)
Lemma writes_wr A B td v l :
  (∀ r, B r = wr A td v r) → (∀ rv, rv ∈ l → rv.1 ≠ td) →
  ∀ r, foldl (λ A rv, wr A rv.1 rv.2) B l r =
       wr (foldl (λ A rv, wr A rv.1 rv.2) A l) td v r.
Proof.
  revert A B. induction l as [|[q w] l IH]; intros A B HB Hl r; simpl; [done|].
  apply IH; [|intros; apply Hl; by apply list_elem_of_further].
  assert (q ≠ td) as Hq by (apply (Hl (q, w)); apply list_elem_of_here).
  clear r. intros r. specialize (HB r). unfold wr in *.
  destruct (isZeroReg q), (isZeroReg td); try done;
    destruct (reg_eqb_spec r q), (reg_eqb_spec r td); subst; congruence.
Qed.

Lemma zip_fst_elem {A B} (l : list A) (k : list B) x : x ∈ zip l k → x.1 ∈ l.
Proof.
  revert k. induction l as [|a l IH]; intros [|b k]; simpl; try by intros ?%elem_of_nil.
  intros [->|Hx]%elem_of_cons; [apply list_elem_of_here|].
  apply list_elem_of_further. by eapply IH.
Qed.

Lemma execute_wr isa A B d td v :
  (∀ r, B r = wr A td v r) → (td ∉ si_srcs (staticInst d)) → (td ∉ si_dests (staticInst d)) →
  ∀ r, (arch_execute isa B d).1.2 r = wr ((arch_execute isa A d).1.2) td v r.
Proof.
  intros HB Hs Hd. unfold arch_execute.
  assert (map (rd B) (si_srcs (staticInst d)) = map (rd A) (si_srcs (staticInst d))) as ->.
  { apply map_ext_in. intros r Hr%list_elem_of_In. rewrite (rd_ext B _ r (HB r)).
    apply rd_wr_ne. by intros ->. }
  destruct (isa _ _ _); simpl; [done|]. apply writes_wr; [done|].
  intros rv Hrv%zip_fst_elem. by intros <-.
Qed.

Lemma execute_other isa A d base :
  (base ∉ si_dests (staticInst d)) → rd ((arch_execute isa A d).1.2) base = rd A base.
Proof.
  intros Hd. unfold arch_execute. destruct (isa _ _ _) as [|outs q]; simpl; [done|].
  assert (∀ rv, rv ∈ zip (si_dests (staticInst d)) outs → rv.1 ≠ base) as Hne
    by (intros rv Hrv%zip_fst_elem <-; done).
  revert A Hne. generalize (zip (si_dests (staticInst d)) outs) as l.
  induction l as [|[q' w] l IH]; intros A Hne; simpl; [done|].
  rewrite IH by (intros; apply Hne; by apply list_elem_of_further).
  apply rd_wr_ne. intros ->. apply (Hne (q', w)); [apply list_elem_of_here|done].
Qed.

Lemma arch_run_wr isa td v ds A B :
  (∀ r, B r = wr A td v r) →
  Forall (λ d, (td ∉ si_srcs (staticInst d)) ∧ (td ∉ si_dests (staticInst d))) ds →
  ∀ r, arch_run isa B ds r = wr (arch_run isa A ds) td v r.
Proof.
  intros HB Hds. revert A B HB. induction Hds as [|d ds [Hs Hd] _ IH]; intros A B HB r; simpl;
    [done|]. apply IH. by apply execute_wr.
Qed.

Lemma arch_run_other isa base ds A :
  Forall (λ d, base ∉ si_dests (staticInst d)) ds → rd (arch_run isa A ds) base = rd A base.
Proof.
  intros Hds. revert A. induction Hds as [|d ds Hd _ IH]; intros A; simpl; [done|].
  rewrite IH. by apply execute_other.
Qed.

(** ** Properties *)

Section Properties.

Context (p : DecodeParams) (env : DecodeEnv).
Context {C : Type} `{CircularBufferLaws C DynInst}.

(** C4: decoding a group of instructions from the decoder.  Suppose that whenever two or
    three instructions of the group match an enabled entry of the fusion tables and pass
    its checks, the constructor of the entry accepts them: the destinations it counts are
    not [x0], the addend of a product is another register, two loads have the same memory
    flags.  Then [decodeInsts] ends without a panic, takes a prefix of the group, and hands
    to rename at most [decodeWidth] instructions, in program order, which stand for exactly
    the instructions taken that were not squashed: fusion neither loses nor duplicates an
    instruction. *)
Theorem decode_run_correct (D : RegId → Prop) ig (buf : C) :
  cb_elems buf ≠ [] → squashed_first (cb_elems buf) →
  Forall (from_decoder D) (cb_elems buf) → group_safe p (cb_elems buf) → (0 ≤ decodeWidth p)%Z →
  ∃ st k, decode_run p env ig buf = Ok st ∧
    cb_elems (l_pending st) = drop k (cb_elems buf) ∧
    all_seqs (l_vec st) ≡ₚ map seqNum (live_insts (take k (cb_elems buf))) ∧
    map seqNum (l_vec st) `sublist_of` map seqNum (take k (cb_elems buf)) ∧
    (Z.of_nat (length (l_vec st)) ≤ decodeWidth p)%Z.
Proof.
  intros Hne Hsq Hall0 Hsafe Hw. unfold decode_run.
  assert (Forall (of_group D (cb_elems buf)) (cb_elems buf)) as Hall.
  { rewrite Forall_forall in Hall0 |- *. intros d Hd. split; [by apply Hall0|]. by exists d. }
  pose proof (of_group_fetched D (cb_elems buf)) as Hfp.
  destruct (cb_elems buf) as [|front rest] eqn:Hbuf; [done|].
  match goal with |- context [decode_loop p env ?f ?l ?s] =>
    assert (loop_inv (of_group D (front :: rest)) (front :: rest) 0 s) as Hinv
      by (split; simpl; try done; lia);
    destruct (decode_loop_total p env D (front :: rest) Hsafe f l (front :: rest) 0 s) as [st Hst];
      [done..|simpl; lia|]
  end.
  destruct (decode_loop_inv p env (of_group D (front :: rest)) _ _ _ _ _ _ Hsq Hall Hinv Hw Hst)
    as (k & [Hk Hp _ _ Hs Ho Hl] & Hi).
  exists st, k. repeat (split; [done|]). lia.
Qed.


(** C24: when decode fuses a load with a load before it that is not adjacent, the
    load may run before the instructions in between: for instructions that only
    compute on registers, running them after the load leaves the registers as
    running them before it, and none of them changes control flow. *)
Theorem nonconsec_reorder isa ld m vec cur vec' i inst calls A :
  checkAndFuseNonConsec p vec cur = Ok (Some (vec', i, inst, calls)) →
  si_fusion (staticInst cur) = None → si_srcs (staticInst cur) ≠ [] →
  vec' = <[i := inst]> vec ∧
  Forall (λ d, isControl d = false) (drop (S i) vec) ∧
  ∀ r, arch_run isa (arch_load ld m A cur) (drop (S i) vec) r =
       arch_load ld m (arch_run isa A (drop (S i) vec)) cur r.
Proof.
  intros Hnc Hf Hs. apply nonconsec_gap_safe in Hnc as (td & base & Htd & Hb & -> & _ & Hgap).
  split; [done|].
  assert (∀ d, d ∈ drop (S i) vec → isControl d = false ∧ (base ∉ si_dests (staticInst d)) ∧
      (td ∉ si_dests (staticInst d)) ∧ (td ∉ si_srcs (staticInst d))) as Hall.
  { intros d [j Hj]%list_elem_of_lookup_1. rewrite lookup_drop in Hj.
    apply (Hgap (S i + j)); [lia|done]. }
  split; [apply Forall_forall; intros d Hd; by apply Hall|].
  unfold destRegIdx, srcRegIdx in *. rewrite Hf in *.
  apply nth_res_Ok in Htd as [_ Htd], Hb as [_ Hb].
  destruct (si_srcs (staticInst cur)) as [|b srcs] eqn:Es; [done|].
  destruct (si_dests (staticInst cur)) as [|t dests] eqn:Ed; [done|].
  simpl in Htd, Hb. injection Htd as ->. injection Hb as ->.
  unfold arch_load. rewrite Ed. simpl.
  assert (arch_ea (arch_run isa A (drop (S i) vec)) cur = arch_ea A cur) as ->.
  { unfold arch_ea. rewrite Es. simpl. do 2 f_equal. apply arch_run_other.
    apply Forall_forall. intros d Hd. by apply Hall. }
  apply arch_run_wr; [done|]. apply Forall_forall. intros d Hd. by destruct (Hall d Hd) as (_ & _ & ? & ?).
Qed.

End Properties.

End DecodeLoop.
