(* ===== verification/DecodeStage.v ===== *)
(** The buffers of the decode stage.

    [stallBuffer] holds whole fetch groups, [eachstallSize] their sizes, and a
    thread's [fixedbuffer] the group being decoded.  The invariant below ties
    them together; every operation of the stage keeps it. *)
From S2P Require Import Prelude RegFile Inst Comm CircularBuffer Fusion FusionMap Decode.
From S2P Require Import DecodeLoop.
Import Fusion FusionMap Decode DecodeLoop.

Module DecodeStage.

(** ** Groups *)

Definition of_thread (t : Z) (g : list DynInst) : Prop := Forall (λ d, threadNumber d = t) g.

Definition group_sizes (gs : list (list DynInst)) : list Z := map (λ g, Z.of_nat (length g)) gs.

(** A fetch group: at least one and at most [w] instructions of one thread. *)
Definition fetch_group (w : nat) (g : list DynInst) : Prop :=
  g ≠ [] ∧ length g ≤ w ∧ ∃ t, of_thread t g.

(** The groups that are not of thread [tid]. *)
Definition others (tid : Z) (gs : list (list DynInst)) : list (list DynInst) :=
  filter (λ g, threadNumber <$> head g ≠ Some tid) gs.

Lemma others_concat tid w gs :
  Forall (fetch_group w) gs →
  concat (others tid gs) = filter (λ d, threadNumber d ≠ tid) (concat gs).
Proof.
  induction 1 as [|g gs (Hne & _ & t & Ht) _ IH]; [done|]. simpl. rewrite filter_app, <- IH.
  unfold others. destruct g as [|d g]; [done|]. inversion_clear Ht as [|? ? Hd Hg].
  destruct (decide (threadNumber d = tid)) as [E|E].
  - rewrite filter_cons_False by (simpl; rewrite E; tauto).
    rewrite (filter_cons_False _ d) by tauto.
    rewrite (filter_none _ g); [done|]. eapply Forall_impl; [done|].
    intros e He Hn. apply Hn. congruence.
  - rewrite filter_cons_True by (simpl; congruence). simpl.
    rewrite (filter_cons_True _ d) by done.
    simpl. f_equal. f_equal. symmetry. apply filter_all.
    eapply Forall_impl; [done|]. intros e He. simpl in He. congruence.
Qed.

Lemma length_concat_le w gs :
  Forall (fetch_group w) gs → length (concat gs) ≤ w * length gs.
Proof.
  induction 1 as [|g gs (_ & Hl & _) _ IH]; simpl; [lia|]. rewrite length_app. lia.
Qed.

Section Stage.

Context {C CI : Type} `{CircularBufferLaws C DynInst} `{CircularBufferLaws CI Z}.
Abbreviation State := (DecodeState C CI).

(** [drop_groups] on groups [gs] after groups [pre] that were kept. *)
Lemma drop_groups_spec tid w gs pre (buf : C) (szs : CI) :
  Forall (fetch_group w) gs →
  cb_elems buf = concat pre ++ concat gs →
  cb_elems szs = group_sizes pre ++ group_sizes gs →
  ∃ buf' szs',
    drop_groups tid (group_sizes gs) (Z.of_nat (length (concat pre))) (length pre) buf szs =
      Ok (buf', szs') ∧
    cb_elems buf' = concat pre ++ concat (others tid gs) ∧
    cb_elems szs' = group_sizes pre ++ group_sizes (others tid gs) ∧
    cb_capacity buf' = cb_capacity buf ∧ cb_capacity szs' = cb_capacity szs.
Proof.
  intros Hgs. revert pre buf szs. induction Hgs as [|g gs (Hne & _ & _) _ IH];
    intros pre buf szs Hb Hs; simpl.
  { exists buf, szs. done. }
  destruct g as [|d g]; [done|].
  rewrite (proj2 (nth_res_Ok (cb_elems buf) (Z.of_nat (length (concat pre))) d)).
  2: { split; [lia|]. rewrite Nat2Z.id, Hb, lookup_app_r, Nat.sub_diag by lia. done. }
  cbn [res_bind]. rewrite Hb, length_app. simpl. rewrite length_app.
  destruct (Z.ltb_spec (Z.of_nat (length (concat pre) + S (length g + length (concat gs))))
    (Z.of_nat (length (concat pre)) + Z.of_nat (S (length g)))); [lia|].
  destruct (Z.eqb_spec (threadNumber d) tid) as [E|E].
  - unfold others. rewrite filter_cons_False by (simpl; rewrite E; tauto).
    destruct (IH pre (cb_erase buf (length (concat pre)) (length (concat pre) + S (length g)))
                 (cb_erase szs (length pre) (length pre + 1)))
      as (buf' & szs' & Hd & Hb' & Hs' & Hc1 & Hc2).
    + rewrite cb_elems_erase, Hb by (rewrite Hb, !length_app; simpl; rewrite length_app; lia).
      rewrite take_app_length, drop_app_ge by lia.
      replace (_ + _ - _) with (length (d :: g)) by (simpl; lia).
      change (concat ((d :: g) :: gs)) with ((d :: g) ++ concat gs).
      by rewrite drop_app_length.
    + unfold group_sizes in *.
      rewrite cb_elems_erase, Hs by (rewrite Hs, length_app, !length_map; simpl; lia).
      rewrite take_app_le, take_ge, drop_app_ge by (rewrite ?length_map; lia).
      rewrite length_map. by replace (_ + _ - _) with 1 by lia.
    + exists buf', szs'. rewrite cb_cap_erase in Hc1. rewrite cb_cap_erase in Hc2.
      repeat split; try done.
      rewrite <- Hd. f_equal; f_equal; lia.
  - unfold others. rewrite filter_cons_True by (simpl; congruence).
    destruct (IH (pre ++ [d :: g]) buf szs) as (buf' & szs' & Hd & Hb' & Hs' & Hc1 & Hc2).
    + rewrite Hb, concat_app. simpl. by rewrite app_nil_r, <- app_assoc.
    + rewrite Hs. unfold group_sizes. rewrite map_app. simpl. by rewrite <- app_assoc.
    + exists buf', szs'. split; [|repeat split; try done].
      * rewrite <- Hd, concat_app, !length_app. simpl. rewrite app_nil_r. f_equal; simpl; lia.
      * rewrite Hb', concat_app. simpl. by rewrite app_nil_r, <- app_assoc.
      * rewrite Hs'. unfold group_sizes. rewrite map_app. simpl. by rewrite <- app_assoc.
Qed.

(** ** The invariant *)

Definition buffer_ok (t : Z) (fb : C) : Prop :=
  of_thread t (cb_elems fb) ∧ length (cb_elems fb) ≤ cb_capacity fb.

Record stage_inv (w delay : nat) (d : State) : Prop := {
  sv_groups : ∃ gs, Forall (fetch_group w) gs ∧ length gs ≤ delay + 1 ∧
    cb_elems (d_stall d) = concat gs ∧ cb_elems (d_sizes d) = group_sizes gs;
  sv_stall : cb_capacity (d_stall d) = w * (delay + 1);
  sv_sizes : cb_capacity (d_sizes d) = delay + 1;
  sv_fixed i fb : d_fixed d !! i = Some fb → buffer_ok (Z.of_nat i) fb
}.

(** The invariant reads the buffers only. *)
Lemma stage_inv_same w delay (d d' : State) :
  d_fixed d' = d_fixed d → d_stall d' = d_stall d → d_sizes d' = d_sizes d →
  stage_inv w delay d → stage_inv w delay d'.
Proof. intros E1 E2 E3 []. split; by rewrite ?E1, ?E2, ?E3. Qed.

Lemma set_nth_Ok {A} (l : list A) i a l' :
  set_nth l i a = Ok l' → (0 ≤ i)%Z ∧ Z.to_nat i < length l ∧ l' = <[Z.to_nat i := a]> l.
Proof.
  unfold set_nth. destruct (_ && _) eqn:E; [|done]. intros [= <-].
  apply andb_true_iff in E as [?%Z.leb_le ?%Z.ltb_lt]. split; [done|]. split; [lia|done].
Qed.

Lemma fixed_insert w delay (d : State) t fb :
  (0 ≤ t)%Z → stage_inv w delay d → buffer_ok t fb →
  stage_inv w delay (with_buffers d (<[Z.to_nat t := fb]> (d_fixed d)) (d_stall d) (d_sizes d)).
Proof.
  intros Ht [Hg H1' H2' Hf] Hfb. split; try done. simpl. intros i fb' Hi.
  destruct (decide (i = Z.to_nat t)) as [->|Hne].
  - apply list_lookup_insert_Some in Hi as [(_ & -> & _)|[? _]]; [|done].
    by rewrite Z2Nat.id.
  - rewrite list_lookup_insert_ne in Hi by done. by apply Hf.
Qed.

(** What [squash] leaves. *)
Lemma squash_spec w delay (d : State) tid :
  stage_inv w delay d → (0 ≤ tid)%Z → Z.to_nat tid < length (d_fixed d) →
  ∃ d', squash d tid = Ok d' ∧ stage_inv w delay d' ∧
    cb_elems (d_stall d') = filter (λ i, threadNumber i ≠ tid) (cb_elems (d_stall d)) ∧
    ∃ fb, d_fixed d' = <[Z.to_nat tid := fb]> (d_fixed d) ∧ cb_elems fb = [].
Proof.
  intros Hinv Ht Hlen. pose proof Hinv as [(gs & Hgs & Hl & Hst & Hsz) Hc1 Hc2 Hf].
  unfold squash. destruct (lookup_lt_is_Some_2 _ _ Hlen) as [fb Hfb].
  rewrite (proj2 (nth_res_Ok (d_fixed d) tid fb)) by done. cbn [res_bind].
  unfold set_nth. rewrite (proj2 (Z.leb_le 0 tid)), (proj2 (Z.ltb_lt tid _)) by lia.
  cbn [res_bind andb].
  destruct (drop_groups_spec tid w gs [] (d_stall d) (d_sizes d))
    as (b & z & Hd & Hb & Hz & E1 & E2); [done..|].
  change (Z.of_nat (length (concat []))) with 0%Z in Hd. cbn [length] in Hd.
  rewrite Hsz, Hd. cbn [res_bind].
  eexists. split; [done|]. split; [|split].
  - assert (buffer_ok tid (cb_clear fb)) as Hbk
      by (split; rewrite cb_elems_clear; [constructor|simpl; lia]).
    destruct (fixed_insert w delay d tid (cb_clear fb) Ht Hinv Hbk) as [_ _ _ Hf'].
    split; simpl; [|congruence|congruence|done].
    exists (others tid gs). split; [|split; [|done]].
    { rewrite Forall_forall in *. intros g [_ Hg]%list_elem_of_filter. by apply Hgs. }
    etrans; [apply length_filter|done].
  - simpl. by rewrite Hb, Hst, <- (others_concat tid w).
  - exists (cb_clear fb). split; [done|]. apply cb_elems_clear.
Qed.

Lemma move_group_spec n tid ver (stall fb stall' fb' : C) :
  move_group n tid ver stall fb = Ok (stall', fb') → buffer_ok tid fb →
  cb_elems stall' = drop n (cb_elems stall) ∧ cb_capacity stall' = cb_capacity stall ∧
  buffer_ok tid fb'.
Proof.
  revert stall fb. induction n as [|n IH]; intros stall fb Hm Hfb; simpl in Hm.
  { by inversion Hm; subst. }
  destruct (cb_elems stall) as [|inst rest] eqn:Hs; [done|].
  apply res_bind_Ok in Hm as ([] & Ht & Hm). apply res_bind_Ok in Hm as (old & _ & Hm).
  apply res_bind_Ok in Hm as ([] & Hfull & Hm).
  unfold assert_ in Ht, Hfull. destruct (Z.eqb_spec tid (threadNumber inst)) as [->|]; [|done].
  unfold cb_full in Hfull. destruct Hfb as [Hth Hle]. case_bool_decide; [done|].
  apply IH in Hm as (E1 & E2 & E3).
  - rewrite E1, E2, cb_cap_pop, cb_elems_pop, Hs; [done|]. by rewrite Hs.
  - assert (length (cb_elems fb) < cb_capacity fb) as Hlt by lia.
    split; [|rewrite cb_cap_push]; rewrite cb_elems_push by done.
    + apply Forall_app. split; [done|]. apply Forall_singleton. by destruct old.
    + rewrite length_app. simpl. lia.
Qed.

(** A new group at the end of the stall buffer. *)
Lemma push_group_inv w delay (d : State) g :
  stage_inv w delay d → fetch_group w g → cb_full (d_sizes d) = false →
  stage_inv w delay (with_buffers d (d_fixed d) (cb_push_all (d_stall d) g)
    (cb_push_back (d_sizes d) (Z.of_nat (length g)))).
Proof.
  intros [(gs & Hgs & Hl & Hst & Hsz) Hc1 Hc2 Hf] Hg Hfull.
  unfold cb_full in Hfull. apply bool_decide_eq_false_1 in Hfull.
  assert (length gs < delay + 1) as Hlt.
  { rewrite Hsz, Hc2 in Hfull. unfold group_sizes in Hfull. rewrite length_map in Hfull. lia. }
  pose proof (length_concat_le w gs Hgs) as Hcat. destruct Hg as (Hne & Hgl & Hth).
  destruct (cb_push_all_elems (d_stall d) g) as [E1 E2].
  { rewrite Hst, Hc1. nia. }
  split; simpl; [|congruence|by rewrite cb_cap_push|done].
  exists (gs ++ [g]). split; [apply Forall_app; split; [done|by repeat constructor]|].
  rewrite length_app. simpl. split; [lia|]. rewrite E1, Hst, concat_app. simpl.
  rewrite app_nil_r. split; [done|].
  rewrite cb_elems_push, Hsz by (rewrite Hsz, Hc2; unfold group_sizes; rewrite length_map; lia).
  unfold group_sizes. by rewrite map_app.
Qed.

(** The first group moves to the fixed buffer of its thread. *)
Lemma pop_group_inv w delay (d : State) tid fb n rest stall' fb' fixed :
  stage_inv w delay d → nth_res (d_fixed d) tid = Ok fb →
  cb_elems (d_sizes d) = n :: rest →
  move_group (Z.to_nat n) tid (d_ver d) (d_stall d) fb = Ok (stall', fb') →
  set_nth (d_fixed d) tid fb' = Ok fixed →
  stage_inv w delay (with_buffers d fixed stall' (cb_pop_front (d_sizes d))).
Proof.
  intros Hinv Hfb Hn Hm Hset. apply nth_res_Ok in Hfb as [Ht Hfb].
  apply set_nth_Ok in Hset as (_ & _ & ->).
  pose proof Hinv as [(gs & Hgs & Hl & Hst & Hsz) Hc1 Hc2 Hf].
  apply move_group_spec in Hm as (E1 & E2 & E3).
  2: { rewrite <- (Z2Nat.id tid) by done. by apply Hf. }
  destruct (fixed_insert w delay d tid fb' Ht Hinv E3) as [_ _ _ Hf'].
  rewrite Hsz in Hn. destruct gs as [|g gs]; [done|]. simpl in Hn. injection Hn as <- <-.
  inversion_clear Hgs as [|? ? _ Hgs']. simpl in Hl.
  split; simpl; [|congruence|by rewrite cb_cap_pop|done].
  exists gs. split; [done|]. split; [lia|].
  rewrite E1, Hst, Nat2Z.id, cb_elems_pop, Hsz by (rewrite Hsz; done).
  split; [|done]. simpl. by rewrite drop_app_length.
Qed.

Lemma moveInstsToBuffer_inv w delay (d d' : State) g :
  stage_inv w delay d → (g ≠ [] → fetch_group w g) →
  moveInstsToBuffer d g = Ok d' → stage_inv w delay d'.
Proof.
  intros Hinv Hg H5. unfold moveInstsToBuffer in H5.
  apply res_bind_Ok in H5 as ([stall sizes] & Hb & H5).
  assert (stage_inv w delay (with_buffers d (d_fixed d) stall sizes)) as Hinv'.
  { destruct g as [|i g].
    - inversion Hb; subst. by eapply stage_inv_same; [..|exact Hinv].
    - apply res_bind_Ok in Hb as ([] & Hfull & Hb).
      unfold panic_if in Hfull. destruct (cb_full (d_sizes d)) eqn:E; [done|].
      inversion Hb; subst. apply (push_group_inv w delay d (i :: g)); [done|by apply Hg|done]. }
  clear Hb. destruct (cb_elems stall) as [|front ?]; [by inversion H5; subst|].
  apply res_bind_Ok in H5 as (fb & Hfb & H5).
  destruct (negb (cb_empty fb)); [by inversion H5; subst|].
  destruct (cb_elems sizes) as [|n rest] eqn:Hn; [done|].
  apply res_bind_Ok in H5 as ([stall' fb'] & Hm & H5).
  apply res_bind_Ok in H5 as (fixed & Hset & H5). inversion H5; subst.
  by eapply (pop_group_inv w delay _ _ fb n rest stall' fb' fixed) in Hinv'.
Qed.

Lemma squash_inv w delay (d d' : State) tid :
  stage_inv w delay d → squash d tid = Ok d' → stage_inv w delay d'.
Proof.
  intros Hinv Hsq. pose proof Hsq as Hsq'. unfold squash in Hsq'.
  apply res_bind_Ok in Hsq' as (fb & [Ht Hfb]%nth_res_Ok & _).
  apply lookup_lt_Some in Hfb.
  destruct (squash_spec w delay d tid Hinv Ht Hfb) as (d1 & E & Hinv' & _). congruence.
Qed.

Lemma checkSquash_inv p w delay (d d' : State) commit :
  stage_inv w delay d → checkSquash p d commit = Ok d' → stage_inv w delay d'.
Proof.
  intros Hinv Hrun. unfold checkSquash in Hrun.
  eapply (res_fold_keep _ (stage_inv w delay)); [exact Hinv| |exact Hrun].
  intros d1 i d2 _ Hd1 H6. cbn beta in H6. apply res_bind_Ok in H6 as (c & _ & H6).
  destruct c as [v|]; [|by inversion H6; subst].
  apply res_bind_Ok in H6 as (d3 & Hs & H6). inversion H6; subst.
  eapply stage_inv_same; [..|by eapply squash_inv]; done.
Qed.

(** ** Decoding takes instructions from the front of the buffer only *)

Definition taken_from (c c' : C) : Prop :=
  (cb_elems c' `suffix_of` cb_elems c) ∧ cb_capacity c' = cb_capacity c.

Lemma taken_from_trans a b c : taken_from a b → taken_from b c → taken_from a c.
Proof. intros [H3 H4] [H5 H6]. split; [by etrans|congruence]. Qed.

Lemma taken_pop c : cb_elems c ≠ [] → taken_from c (cb_pop_front c).
Proof.
  intros Hne. split; [|by rewrite cb_cap_pop]. rewrite cb_elems_pop by done.
  destruct (cb_elems c) as [|a l]; [done|]. by exists [a].
Qed.

Lemma place_inst_extra p env ig vec inst pending ig' vec' pos inst' extra calls :
  place_inst p env ig vec inst pending = Ok (ig', vec', pos, inst', extra, calls) →
  extra = 0 ∨ extra = 1 ∧ pending ≠ [].
Proof.
  unfold place_inst. intros H3. apply res_bind_Ok in H3 as ([[[v i] cs]|] & Ht & H3).
  - apply checkAndFuseTriple_inv in Ht as (? & ? & ? & ? & ? & _ & -> & _).
    inversion H3; subst. by right.
  - left. apply res_bind_Ok in H3 as ([[[ig1 v] i] cs] & _ & H3).
    apply res_bind_Ok in H3 as ([[[[? ?] ?] ?]|] & _ & H3); by inversion H3.
Qed.

Lemma decode_step_taken p env (st : LoopState C) inst r :
  cb_elems (l_pending st) ≠ [] → decode_step p env st inst = Ok r →
  ∃ st', (r = inl st' ∨ r = inr st') ∧ taken_from (l_pending st) (l_pending st').
Proof.
  intros Hne Hs. unfold decode_step in Hs. pose proof (taken_pop _ Hne) as Hpop.
  destruct (squashed inst).
  { inversion Hs; subst. eexists. split; [by left|done]. }
  apply res_bind_Ok in Hs as ([[[[[ig vec] pos] inst1] extra] calls] & Hp & Hs).
  assert (taken_from (l_pending st)
    (Nat.iter extra cb_pop_front (cb_pop_front (l_pending st)))) as Ht.
  { apply place_inst_extra in Hp as [->|[-> Hne']]; simpl; [done|].
    eapply taken_from_trans; [done|]. by apply taken_pop. }
  apply res_bind_Ok in Hs as ([i'|comm i'] & _ & Hs); inversion Hs; subst;
    eexists; (split; [by eauto|done]).
Qed.

Lemma decode_loop_taken p env fuel lim (st st' : LoopState C) :
  decode_loop p env fuel lim st = Ok st' → taken_from (l_pending st) (l_pending st').
Proof.
  revert st. induction fuel as [|fuel IH]; intros st H3; cbn [decode_loop] in H3;
    (destruct (_ && _)%bool in H3; [|by inversion H3; subst]);
    (destruct (cb_elems (l_pending st)) as [|inst rest] eqn:E; [done|]);
    (destruct (lim && isVector inst); [by inversion H3; subst|]); [done|].
  apply res_bind_Ok in H3 as (r & Hr & H3).
  apply decode_step_taken in Hr as (st1 & [-> | ->] & Ht); [..|by rewrite E].
  - eapply taken_from_trans; [done|]. by apply IH.
  - by inversion H3; subst.
Qed.

Lemma taken_ok t c c' : buffer_ok t c → taken_from c c' → buffer_ok t c'.
Proof.
  intros [Ht Hl] [[k Hk] Hc]. unfold of_thread in *. rewrite Hk in Ht, Hl.
  apply Forall_app in Ht as [_ Ht]. rewrite length_app in Hl. split; [done|]. rewrite Hc. lia.
Qed.

Lemma finish_decode_inv w delay (d d' : State) tid out out' st :
  stage_inv w delay d → finish_decode d tid out st = Ok (d', out') → stage_inv w delay d'.
Proof.
  intros Hinv H3. unfold finish_decode in H3. apply res_bind_Ok in H3 as (sg & _ & H3).
  apply res_bind_Ok in H3 as (fb & _ & H3). inversion H3; subst.
  eapply stage_inv_same; [..|exact Hinv]; simpl; by repeat case_match.
Qed.

Lemma decodeInsts_inv p env w delay (d d' : State) tid stalls out out' :
  stage_inv w delay d → decodeInsts p env d tid stalls out = Ok (d', out') →
  stage_inv w delay d'.
Proof.
  intros Hinv H3. unfold decodeInsts in H3. apply res_bind_Ok in H3 as (buf & Hb & H3).
  apply nth_res_Ok in Hb as [Ht Hb].
  destruct (cb_empty buf).
  { inversion H3; subst. by eapply stage_inv_same; [..|exact Hinv]. }
  apply res_bind_Ok in H3 as (st & Hrun & H3).
  apply res_bind_Ok in H3 as (fixed & Hset & H3). apply set_nth_Ok in Hset as (_ & _ & ->).
  assert (buffer_ok tid (l_pending st)) as Hbk.
  { apply (taken_ok tid buf).
    - rewrite <- (Z2Nat.id tid) by done. by apply (sv_fixed _ _ _ Hinv).
    - unfold decode_run in Hrun. destruct (cb_elems buf); [done|].
      by apply decode_loop_taken in Hrun. }
  apply (fixed_insert w delay d tid _ Ht Hinv) in Hbk.
  apply res_bind_Ok in H3 as ([d1 out1] & Hsq & H3).
  eapply finish_decode_inv; [|exact H3].
  destruct (l_squash st) as [[t comm]|]; [|by inversion Hsq; subst].
  unfold selfSquash in Hsq. apply res_bind_Ok in Hsq as (info & _ & Hsq).
  apply res_bind_Ok in Hsq as (sg & _ & Hsq). apply res_bind_Ok in Hsq as (d2 & Hd2 & Hsq).
  inversion Hsq; subst. by eapply squash_inv.
Qed.

Lemma updateActivate_inv w delay (d d' : State) sg act calls :
  stage_inv w delay d → updateActivate d sg act = (d', calls) → stage_inv w delay d'.
Proof.
  intros Hinv H3. eapply stage_inv_same; [..|exact Hinv];
    unfold updateActivate in H3; repeat case_match; by inversion H3; subst.
Qed.

Lemma finish_tick_inv w delay (d d' : State) tid ti out out' :
  stage_inv w delay d → finish_tick d tid ti out = Ok (d', out') → stage_inv w delay d'.
Proof.
  intros Hinv H3. unfold finish_tick in H3. apply res_bind_Ok in H3 as (b & _ & H3).
  apply res_bind_Ok in H3 as (d1 & Hd1 & H3).
  apply res_bind_Ok in H3 as (bf & _ & H3). apply res_bind_Ok in H3 as (sg & _ & H3).
  apply res_bind_Ok in H3 as (info & _ & H3).
  destruct (updateActivate d1 sg (in_active ti)) as [d2 calls] eqn:E. inversion H3; subst.
  eapply updateActivate_inv; [|exact E]. eapply stage_inv_same; [..|exact Hinv];
    repeat case_match; res_inv; repeat case_match; res_inv; done.
Qed.

Lemma tick_inv p env w delay (d d' : State) ti out :
  stage_inv w delay d → (in_fetch ti ≠ [] → fetch_group w (in_fetch ti)) →
  tick p env d ti = Ok (d', out) → stage_inv w delay d'.
Proof.
  intros Hinv Hg H3. unfold tick in H3. cbn zeta in H3.
  apply res_bind_Ok in H3 as (d1 & Hm & H3).
  apply (moveInstsToBuffer_inv w delay) in Hm;
    [|by eapply stage_inv_same; [..|exact Hinv]|done].
  apply res_bind_Ok in H3 as (d2 & Hs & H3). apply (checkSquash_inv p w delay) in Hs; [|done].
  apply res_bind_Ok in H3 as (pk & _ & H3). destruct (pk_tid pk) as [tid|].
  - apply res_bind_Ok in H3 as ([d3 out3] & Hd & H3).
    eapply finish_tick_inv; [|exact H3]. by eapply decodeInsts_inv.
  - apply res_bind_Ok in H3 as (d3 & Hd & H3).
    destruct (updateActivate d3 (pk_sig pk) (in_active ti)) as [d4 calls] eqn:E.
    inversion H3; subst. eapply updateActivate_inv; [|exact E].
    eapply stage_inv_same; [..|exact Hs]; destruct (pk_blocked pk); res_inv; done.
Qed.

(** The states a stage reaches from its constructor, given fetch groups of one
    thread and at most [decodeWidth] instructions. *)
Inductive reachable (p : DecodeParams) (env : DecodeEnv) (delay : nat) : State → Prop :=
  | reach_new d : Decode_new p delay = Ok d → reachable p env delay d
  | reach_tick d ti d' out :
      reachable p env delay d →
      (in_fetch ti ≠ [] → fetch_group (Z.to_nat (decodeWidth p)) (in_fetch ti)) →
      tick p env d ti = Ok (d', out) → reachable p env delay d'.

Lemma new_inv p delay (d : State) :
  Decode_new p delay = Ok d → stage_inv (Z.to_nat (decodeWidth p)) delay d.
Proof.
  unfold Decode_new. intros H3. apply res_bind_Ok in H3 as ([] & _ & H3). inversion H3; subst.
  split; simpl; rewrite ?cb_cap_new; try done.
  - exists []. rewrite !cb_elems_new. repeat split; [constructor|simpl; lia].
  - intros i fb Hi. apply list_elem_of_lookup_2 in Hi.
    apply elem_of_app in Hi as [Hi|Hi]; apply elem_of_replicate in Hi as [-> _];
      split; rewrite cb_elems_new; by constructor || (simpl; lia).
Qed.

Lemma reachable_inv p env delay (d : State) :
  reachable p env delay d → stage_inv (Z.to_nat (decodeWidth p)) delay d.
Proof. induction 1; [by apply new_inv|by eapply tick_inv]. Qed.

(** ** Properties *)

(** C21: in every reachable state of the decode stage the stall buffer is the
    concatenation of whole fetch groups whose sizes are [eachstallSize], each of
    one thread and within the buffers' capacities, and every fixed buffer holds
    instructions of its own thread only. *)
Theorem decode_buffers_invariant p env delay (d : State) :
  reachable p env delay d → stage_inv (Z.to_nat (decodeWidth p)) delay d.
Proof. apply reachable_inv. Qed.

(** C27: squashing a thread in a reachable state succeeds, removes exactly that
    thread's instructions from the stall buffer, empties its fixed buffer and
    leaves the others as they are, and keeps the buffers consistent. *)
Theorem decode_squash_exact p env delay (d : State) tid :
  reachable p env delay d → (0 ≤ tid)%Z → Z.to_nat tid < length (d_fixed d) →
  ∃ d', squash d tid = Ok d' ∧
    cb_elems (d_stall d') = filter (λ i, threadNumber i ≠ tid) (cb_elems (d_stall d)) ∧
    stage_inv (Z.to_nat (decodeWidth p)) delay d' ∧
    ∃ fb, d_fixed d' = <[Z.to_nat tid := fb]> (d_fixed d) ∧ cb_elems fb = [].
Proof.
  intros Hr Ht Hl.
  destruct (squash_spec _ _ _ _ (reachable_inv _ _ _ _ Hr) Ht Hl) as (d' & E1 & E2 & E3 & E4).
  by exists d'.
Qed.

End Stage.
End DecodeStage.
