(* ===== verification/DecodeExamples.v ===== *)
(** The decode stage on concrete instructions.

    Groups of instructions on which the hypotheses of the theorems hold, and what
    decode does with a store between two loads it fuses. *)
From S2P Require Import Prelude RegFile Inst Comm CircularBuffer Fusion FusionCorrect.
From S2P Require Import FusionLoads FusionMap FusionSound Decode DecodeLoop DecodeStage.
Import Fusion FusionMap FusionSound Decode DecodeLoop DecodeStage.

Module DecodeExamples.

Definition params : DecodeParams :=
  {| decodeWidth := 8; numThreads := 1; enableLoadFusion := true; enableAbrFusion := true;
     enableMACFusion := true; clockPeriod := 333 |}.

Definition environment : DecodeEnv :=
  {| env_branchTarget := pcState; env_returnAddr := λ _, 0%Z; env_isTraceMode := false;
     env_hasTraceCtrlFlowChange := λ _, false; env_traceBranch := λ _, None;
     env_curTick := 0 |}.

(** An instruction with a sequence number. *)
Definition numbered (n : Z) (d : DynInst) : DynInst :=
  mkDyn (staticInst d) (pc_set PCState_default (4096 + 4 * n)) (predPC d) false n 0 0 0 0 0
    NoFault false false (srcIdx d) (destIdx d) (prevDestIdx d).

Definition load8 := numbered 1 (mk "Ld" [IsLoad; IsOper64] [x 4] [x 2] 8).
Definition shift := numbered 2 (mk "Slli" [] [x 3] [x 1] 3).
Definition addto := numbered 3 (mk "Add" [] [x 1; x 3] [x 1] 0).
Definition load16 := numbered 4 (mk "Ld" [IsLoad; IsOper64] [x 4] [x 5] 16).
Definition store16 := numbered 2 (mk "Sd" [IsStore; IsOper64] [x 4; x 3] [] 16).

(** A load, a shift and add that fuse, and a load that fuses with the first. *)
Definition group : list DynInst := [load8; shift; addto; load16].
Definition group_buffer : lbuf DynInst := LBuf 8 group.

(** A group with a return, a no-op and a multiply-accumulate. *)
Definition multiply : DynInst :=
  mkDyn (mkStatic "mul" "Mul" IntMultOp [] [x 2; x 3] [x 1] 0 0 None) (pc_set PCState_default 4096)
    PCState_default false 0 0 0 0 0 0 NoFault false false
    (replicate 2 VirtRegId_null) (replicate 1 VirtRegId_null) (replicate 1 VirtRegId_null).
Definition mac_group : list DynInst :=
  imap (λ n d, numbered (Z.of_nat n) d)
    [multiply; mk "Add" [] [x 1; x 4] [x 5] 0; load8; mk "Slli" [] [x 3] [x 1] 3;
     mk "Add" [] [x 1; x 3] [x 1] 0; mk "Ld" [IsLoad; IsOper64] [x 4] [x 5] 16;
     mk "Addi" [] [RegId_default] [RegId_default] 0; mk "Jalr" [IsControl] [x 1] [RegId_default] 0].
Definition mac_buffer : lbuf DynInst := LBuf 8 mac_group.

Definition any (r : RegId) : Prop := True.

(** The conditions of [decode_run_correct], evaluated. *)
Definition countedb (r : RegId) : bool := match count_typed_dest r with Ok _ => true | _ => false end.
Definition accepts (l : res (option FuseCreator)) (vec : list DynInst) (f : FuseCreator → bool) : bool :=
  match l with
  | Ok (Some c) => match eval_checks vec (creator_checks c) with Ok true => f c | _ => true end
  | _ => true
  end.
Definition fusableb (p : DecodeParams) (a b : DynInst) (c : FuseCreator) : bool :=
  let ds1 := forallb countedb (si_dests (staticInst a)) in
  let ds2 := forallb countedb (si_dests (staticInst b)) in
  negb (creator_enabled p c) ||
  match c with
  | ChainCreator _ _ | AluBrCreator _ _ => ds1
  | MaccCreator _ _ =>
      ds2 && match si_dests (staticInst a) with
             | [d1] => negb (bool_decide (si_srcs (staticInst b) = [d1; d1]))
             | _ => true
             end
  | AluLdCreator _ _ _ => ds2
  | SeqLdCreator _ _ _ =>
      ds1 && ds2 && (si_memFlags (staticInst a) =? si_memFlags (staticInst b))%Z
  | SlliAddLdCreator _ _ _ => true
  end.
Definition group_safeb (p : DecodeParams) (l : list DynInst) : bool :=
  forallb (λ a, forallb (λ b, accepts (lookup2 fusionMap a b) [a; b] (fusableb p a b)) l) l &&
  forallb (λ a, forallb (λ b, forallb (λ d, accepts (lookup3 fusionMap3 a b d) [a; b; d]
    (λ _, forallb countedb (si_dests (staticInst d)))) l) l) l.

Lemma countedb_all l : forallb countedb l = true → Forall counted l.
Proof.
  intros H. apply Forall_forall. intros r Hr. pose proof (forallb_elem _ _ _ H Hr) as Hc.
  unfold countedb, counted in *. by destruct (count_typed_dest r) as [[]|].
Qed.

Lemma fusableb_ok p a b c : fusableb p a b c = true → creator_enabled p c = true → fusable c a b.
Proof.
  intros H He. unfold fusableb in H. rewrite He in H. simpl in H. destruct c; simpl.
  - by apply countedb_all.
  - by apply countedb_all.
  - apply andb_true_iff in H as [H1 H2]. split; [by apply countedb_all|]. intros d1 E.
    rewrite E in H2. by apply negb_true_iff, bool_decide_eq_false_1 in H2.
  - by apply countedb_all.
  - apply andb_true_iff in H as [[H1 H2]%andb_true_iff H3%Z.eqb_eq].
    split; [|split]; [by apply countedb_all..|done].
  - done.
Qed.

Lemma group_safeb_ok p l : group_safeb p l = true → group_safe p l.
Proof.
  intros [H2 H3]%andb_true_iff. split.
  - intros a b Ha Hb c Hl He Hchk. pose proof (forallb_elem _ _ _ H2 Ha) as H.
    apply (forallb_elem _ _ b) in H; [|done]. unfold accepts in H. rewrite Hl, Hchk in H.
    by apply (fusableb_ok p).
  - intros a b d Ha Hb Hd c Hl Hchk. pose proof (forallb_elem _ _ _ H3 Ha) as H.
    apply (forallb_elem _ _ b) in H; [|done]. apply (forallb_elem _ _ d) in H; [|done].
    unfold accepts in H. rewrite Hl, Hchk in H. by apply countedb_all.
Qed.

Definition widthb (d : DynInst) : bool :=
  match load_width (decompressed (si_type (staticInst d))) with
  | Some w => (operWid (staticInst d) =? w)%Z | None => true end.
Definition shapeb (d : DynInst) : bool :=
  match type_shape (decompressed (si_type (staticInst d))) with
  | Some (ns, nd) => (length (si_srcs (staticInst d)) =? ns)%nat && (length (si_dests (staticInst d)) =? nd)%nat
  | None => true end.
Definition decoderb (d : DynInst) : bool :=
  bool_decide (si_fusion (staticInst d) = None) &&
  (length (srcIdx d) =? length (si_srcs (staticInst d)))%nat &&
  (length (destIdx d) =? length (si_dests (staticInst d)))%nat &&
  (length (prevDestIdx d) =? length (si_dests (staticInst d)))%nat && widthb d && shapeb d &&
  negb (isFusion d) &&
  (negb (isLoad d) || (0 <? length (si_srcs (staticInst d)))%nat && (0 <? length (si_dests (staticInst d)))%nat) &&
  (negb (bool_decide (decompressed (si_type (staticInst d)) ∈ ["Mul"; "Mulw"])) ||
   bool_decide (si_opClass (staticInst d) = IntMultOp) && negb (isLoad d)).

Lemma decoderb_ok d : decoderb d = true → from_decoder any d.
Proof.
  unfold decoderb, widthb, shapeb. intros H. repeat (apply andb_true_iff in H as [H ?]).
  repeat match goal with
  | E : (_ =? _)%nat = true |- _ => apply Nat.eqb_eq in E
  | E : bool_decide _ = true |- _ => apply bool_decide_eq_true_1 in E
  end.
  split; [split; [split; [done..|by apply Forall_true]| |]|by apply negb_true_iff| |].
  - intros ns nd E. match goal with K : context [type_shape] |- _ => rewrite E in K;
      apply andb_true_iff in K as [?%Nat.eqb_eq ?%Nat.eqb_eq] end. done.
  - intros w E. match goal with K : context [load_width] |- _ => rewrite E in K; by apply Z.eqb_eq end.
  - intros E. match goal with K : context [0 <? _] |- _ => rewrite E in K; simpl in K;
      apply andb_true_iff in K as [?%Nat.ltb_lt ?%Nat.ltb_lt] end.
    by split; intros Enil; rewrite Enil in *; simpl in *; lia.
  - intros E. match goal with K : context [IntMultOp] |- _ => rewrite bool_decide_true in K by done;
      apply andb_true_iff in K as [?%bool_decide_eq_true_1 ?%negb_true_iff] end. done.
Qed.

Lemma decoder_all l : forallb decoderb l = true → Forall (from_decoder any) l.
Proof. intros H. apply Forall_forall. intros d Hd. apply decoderb_ok. by eapply forallb_elem. Qed.

Lemma no_squash l : forallb (λ d, negb (squashed d)) l = true → squashed_first l.
Proof.
  intros H i j d e _ _ He Hs. apply list_elem_of_lookup_2 in He.
  apply (forallb_elem _ _ _ H) in He. by rewrite Hs in He.
Qed.

Lemma decode_run_correct_witness :
  ∃ st k, decode_run params environment (mkIgnore 0 0) mac_buffer = Ok st ∧
    cb_elems (l_pending st) = drop k (cb_elems mac_buffer) ∧
    concat (map part_seqs (l_vec st)) ≡ₚ
      map seqNum (live_insts (take k (cb_elems mac_buffer))) ∧
    (map seqNum (l_vec st) `sublist_of` map seqNum (take k (cb_elems mac_buffer))) ∧
    (Z.of_nat (length (l_vec st)) ≤ decodeWidth params)%Z.
Proof.
  apply (decode_run_correct params environment any (mkIgnore 0 0) mac_buffer).
  - done.
  - apply no_squash. vm_compute. reflexivity.
  - apply decoder_all. vm_compute. reflexivity.
  - apply group_safeb_ok. vm_compute. reflexivity.
  - simpl. lia.
Defined.

Lemma nonconsec_reorder_witness :
  ∃ vec' inst calls,
    checkAndFuseNonConsec params [load8; shift] load16 = Ok (Some (vec', 0%nat, inst, calls)) ∧
    ∀ r, arch_run demo_isa (arch_load demo_load demo_mem A0 load16) [shift] r =
         arch_load demo_load demo_mem (arch_run demo_isa A0 [shift]) load16 r.
Proof.
  do 3 eexists. split; [reflexivity|].
  eapply (nonconsec_reorder params demo_isa demo_load demo_mem [load8; shift] load16 _ 0);
    [reflexivity|reflexivity|discriminate].
Defined.

(** The search for a load to fuse with does not look at stores: a load is
    fused with an earlier load across a store to the address it reads, and so
    reads memory before that store. *)
Theorem nonconsec_crosses_store :
  isStore store16 = true ∧ (∀ A, arch_ea A store16 = arch_ea A load16) ∧
  ∃ inst calls,
    checkAndFuseNonConsec params [load8; store16] load16 =
      Ok (Some ([inst; store16], 0%nat, inst, calls)) ∧
    part_seqs inst = [seqNum load8; seqNum load16].
Proof.
  split; [reflexivity|]. split; [reflexivity|].
  do 2 eexists. split; reflexivity.
Qed.

(** ** Two cycles with rename blocked: one group waits in each buffer *)

Abbreviation Stage := (DecodeState (lbuf DynInst) (lbuf Z)).

Definition blocked : StallSignals :=
  let f := replicate MaxThreads false in
  let r := replicate MaxThreads NoStall in
  mkStall f (replicate MaxThreads true) f f r r r r.

Definition inputs (g : list DynInst) : TickIn :=
  {| in_fetch := g; in_fetchStalls := replicate 8 NoStall;
     in_commit := replicate MaxThreads None; in_active := [0%Z]; in_sig := blocked |}.

Definition stage0 : Stage :=
  match Decode_new params 2 with Ok d => d | Panic _ => mkDecode Inactive [] (LBuf 0 []) (LBuf 0 []) 0 (mkIgnore 0 0) [] NoStall end.
Definition after (d : Stage) (ti : TickIn) : Stage :=
  match tick params environment d ti with Ok (d', _) => d' | Panic _ => d end.
Definition stage2 : Stage := after (after stage0 (inputs group)) (inputs [load8; shift]).

Lemma group_ok g :
  g ≠ [] → length g ≤ 8 → forallb (λ d, threadNumber d =? 0)%Z g = true → fetch_group 8 g.
Proof.
  intros Hne Hl Ht. split; [done|]. split; [done|]. exists 0%Z. apply Forall_forall.
  intros d Hd%list_elem_of_In. rewrite forallb_forall in Ht. by apply Z.eqb_eq, Ht.
Qed.

Definition returns (d : Stage) (ti : TickIn) : bool :=
  match tick params environment d ti with Ok _ => true | Panic _ => false end.

Lemma reach_after d ti :
  reachable params environment 2 d → fetch_group 8 (in_fetch ti) → returns d ti = true →
  reachable params environment 2 (after d ti).
Proof.
  unfold returns, after. destruct (tick params environment d ti) as [[d' out]|] eqn:E; [|done].
  intros Hd Hg _. by eapply reach_tick.
Qed.

Lemma stage2_reachable : reachable params environment 2 stage2.
Proof.
  unfold stage2. apply reach_after; [apply reach_after; [by constructor| |]| |];
    try (vm_compute; reflexivity); (apply group_ok; [done|simpl; lia|done]).
Qed.

Lemma decode_buffers_invariant_witness : stage_inv 8 2 stage2 ∧ d_stall stage2 = LBuf 24 [load8; shift].
Proof.
  split; [|vm_compute; reflexivity].
  apply (decode_buffers_invariant params environment 2 stage2 stage2_reachable).
Defined.

Lemma decode_squash_exact_witness :
  ∃ d', squash stage2 0 = Ok d' ∧
    cb_elems (d_stall d') = filter (λ i, threadNumber i ≠ 0%Z) (cb_elems (d_stall stage2)) ∧
    stage_inv 8 2 d' ∧
    ∃ fb, d_fixed d' = <[Z.to_nat 0 := fb]> (d_fixed stage2) ∧ cb_elems fb = [].
Proof.
  apply (decode_squash_exact params environment 2 stage2 0 stage2_reachable);
    [lia|vm_compute; lia].
Defined.

End DecodeExamples.
