(* ===== verification/RenameExamples.v ===== *)
(** The rename stage on concrete instructions.

    A reachable state in which a group with a move and an addition waits, the
    theorems of the stage there, and a fused instruction that is folded by
    mistake. *)
From S2P Require Import Prelude RegFile Inst Comm CircularBuffer Fusion FusionCorrect.
From S2P Require Import FusionMap FusionSound Decode DecodeExamples.
From S2P Require Import RenameMap Rename RenameRefs RenameInv RenameGroup RenameStage.
From S2P Require Import RenameInit RenameProps.
Import RenameMap Rename RenameRefs RenameInv RenameGroup RenameStage RenameInit RenameProps.
Import Fusion FusionMap FusionSound Decode(checkAndFuseInsts, mkIgnore, InstListFuse).

Module RenameExamples.

Abbreviation Stage := (RenameState (lbuf DynInst)).

Definition rparams : RenameParams :=
  {| renameWidth := 4; releaseWidth := 4; numThreads := 1; enableMoveElimination := true;
     enableConstantFolding := true; enableMovImmElimination := true; valuePred := false;
     enableSelectiveVPFlush := false |}.
Definition no_vp : ValuePredictor := λ _, None.

Definition isa_regs (c : RegClassType) : nat :=
  match c with IntRegClass => 6 | RMiscRegClass => 3 | _ => 0 end.
Definition file_regs (c : RegClassType) : nat :=
  match c with
  | IntRegClass => 16 | RMiscRegClass => 8 | FloatRegClass | VecRegClass => 4 | _ => 0
  end.

Definition sum := DecodeExamples.numbered 1 (mk "Add" [] [x 1; x 3] [x 1] 0).
Definition move := DecodeExamples.numbered 2 (mk "Mv" [IsMov] [x 1] [x 2] 0).
Definition incr := DecodeExamples.numbered 3 (mk "Addi" [IsAddImm] [x 2] [x 2] 5).

Definition signals (block : bool) : StallSignals :=
  let f := replicate MaxThreads false in
  let r := replicate MaxThreads NoStall in
  mkStall f f (replicate MaxThreads block) f r r r r.

Definition cycle (insts : list DynInst) (block : bool) : TickIn :=
  {| in_insts := insts; in_decodeStalls := replicate 4 NoStall;
     in_commit := replicate MaxThreads (mkCommit false 0 0);
     in_iew := replicate MaxThreads (mkIEW NoStall NoStall NoStall);
     in_active := [0%Z]; in_sig := signals block |}.

Definition stage0 : Stage :=
  match Rename_new rparams isa_regs file_regs 1 with
  | Ok s => s
  | Panic _ => mkRename Inactive [] [] (mkRegs [] ∅) ∅ [] 0 0 0 [] NoStall
  end.
Definition after (s : Stage) (ti : TickIn) : Stage :=
  match tick rparams no_vp s ti with Ok (s', _) => s' | Panic _ => s end.
Definition returns (s : Stage) (ti : TickIn) : bool :=
  match tick rparams no_vp s ti with Ok _ => true | Panic _ => false end.

(** [sum] is renamed; [move] and [incr] then wait for IEW. *)
Definition stage2 : Stage := after (after stage0 (cycle [sum] false)) (cycle [move; incr] true).

Abbreviation reach := (reachable rparams no_vp isa_regs file_regs 1).

Lemma rename_reach_after s ti :
  reach s → Forall (inst_static (known isa_regs)) (in_insts ti) → returns s ti = true →
  reach (after s ti).
Proof.
  unfold returns, after. destruct (tick rparams no_vp s ti) as [[s' out]|] eqn:E; [|done].
  intros Hs Hi _. by eapply reach_tick.
Qed.

Lemma reach_stage0 : reach stage0.
Proof.
  constructor. unfold stage0.
  assert (match Rename_new (C := lbuf DynInst) rparams isa_regs file_regs 1 with
          | Ok _ => true | Panic _ => false end = true) as E by (vm_compute; reflexivity).
  revert E. by destruct (Rename_new rparams isa_regs file_regs 1).
Qed.

(** Operands in the ISA, and a move or addition within one class. *)
Definition static_ok (d : DynInst) : bool :=
  let si := staticInst d in
  forallb (λ r, bool_decide (r ∈ arch_regs isa_regs)) (si_srcs si ++ si_dests si) &&
  bool_decide (length (srcIdx d) = length (si_srcs si)) &&
  bool_decide (length (destIdx d) = length (si_dests si)) &&
  bool_decide (length (prevDestIdx d) = length (si_dests si)) &&
  match si_srcs si with
  | [] => false
  | s :: _ => forallb (λ a, bool_decide (regClass s = regClass a)) (si_dests si)
  end.

Lemma static_ok_sound d : static_ok d = true → inst_static (known isa_regs) d.
Proof.
  unfold static_ok. rewrite !andb_true_iff, !bool_decide_eq_true, forallb_app, andb_true_iff,
    !forallb_forall.
  intros [[[[[Hs Hd] H1] H2] H3] Hc]. split; try done.
  - intros r Hr%list_elem_of_In _. by apply Hs in Hr as ?%bool_decide_eq_true.
  - intros r Hr%list_elem_of_In _. by apply Hd in Hr as ?%bool_decide_eq_true.
  - intros _. destruct (si_srcs (staticInst d)) as [|s rest]; [done|]. exists s, rest.
    split; [done|]. intros a Ha%list_elem_of_In _. right. rewrite forallb_forall in Hc.
    by apply Hc in Ha as ?%bool_decide_eq_true.
Qed.

Lemma reach_stage2 : reach stage2.
Proof.
  unfold stage2. apply rename_reach_after; [apply rename_reach_after; [exact reach_stage0| |]| |];
    try (vm_compute; reflexivity);
    repeat (apply Forall_cons_2; [apply static_ok_sound; vm_compute; reflexivity|]);
    apply Forall_nil_2.
Qed.

(** The new register of [sum]. *)
Definition q6 : PhysRegId := mkPhys IntRegClass 6.

Lemma rename_refs_invariant_witness :
  getRef (rs_regs stage2) q6 = uses stage2 q6 ∧ getRef (rs_regs stage2) q6 = 1%Z ∧
  ∀ c, c ∈ renameClasses → NoDup (free_of (rs_regs stage2) c) ∧
    ∀ q, q ∈ free_of (rs_regs stage2) c ↔
      q ∈ all_regs file_regs ∧ p_class q = c ∧ uses stage2 q = 0%Z.
Proof.
  destruct (rename_refs_invariant rparams no_vp isa_regs file_regs 1 stage2 reach_stage2)
    as [Href Hfree].
  split; [apply Href; reflexivity|]. split; [vm_compute; reflexivity|exact Hfree].
Defined.

Definition map2 : UnifiedRenameMap := default [] (head (rs_maps stage2)).
Definition hist2 : list RenameHistory := default [] (head (rs_hist stage2)).
Definition no_out : Outputs := mkOut [] [] (signals false) [] [].

Lemma rename_group_complete_witness :
  ∃ s' out', renameInsts rparams no_vp stage2 0 no_out = Ok (s', out') ∧
    map seqNum (o_toIEW out') = [2%Z; 3%Z].
Proof.
  destruct (rename_group_complete rparams no_vp isa_regs file_regs 1 stage2 0
    (LBuf 4 [move; incr]) map2 hist2 no_out reach_stage2)
    as (s' & out' & Hr & Ho & _); try (vm_compute; reflexivity).
  exists s', out'. split; [exact Hr|exact Ho].
Defined.

Lemma rename_squash_restores_witness :
  ∃ s' out' s'', renameInsts rparams no_vp stage2 0 no_out = Ok (s', out') ∧
    squash s' 1 0 = Ok s'' ∧ rs_maps s'' = rs_maps stage2 ∧ rs_hist s'' = rs_hist stage2 ∧
    same_regs (rs_regs s'') (rs_regs stage2).
Proof.
  apply (rename_squash_restores rparams no_vp isa_regs file_regs 1 stage2 0
    (LBuf 4 [move; incr]) map2 hist2 no_out 1 reach_stage2); try (vm_compute; reflexivity).
  - apply Forall_cons_2; [reflexivity|]. apply Forall_cons_2; [reflexivity|apply Forall_nil_2].
  - assert (head hist2 = Some (mkHist 1 (x 1) (virt q6) (virt (mkPhys IntRegClass 1)))) as ->
      by (vm_compute; reflexivity).
    intros e [= <-]. simpl. lia.
Defined.

(** ** Values *)

Definition thread2 : ThreadRename := mkTR map2 hist2 (rs_regs stage2) (rs_sb stage2) [].
Definition rf2 : PhysRegFile :=
  list_to_map [(mkPhys IntRegClass 2, 40); (q6, 11); (mkPhys RMiscRegClass 2, 3)]%Z.

(** The result of renaming the first destination of [d] in [stage2]. *)
Definition renamed_first (d : DynInst) : ThreadRename * DynInst :=
  match rename_dest rparams no_vp thread2 d 0 with Ok r => r | Panic _ => (thread2, d) end.
Definition renames_first (d : DynInst) : bool :=
  match rename_dest rparams no_vp thread2 d 0 with Ok _ => true | Panic _ => false end.

Lemma renamed_first_ok d :
  renames_first d = true →
  rename_dest rparams no_vp thread2 d 0 = Ok ((renamed_first d).1, (renamed_first d).2).
Proof.
  unfold renames_first, renamed_first.
  by destruct (rename_dest rparams no_vp thread2 d 0) as [[]|].
Qed.

Lemma incr_fits : folded_fits map2 incr.
Proof.
  intros s v [= <-] Hv. assert (v = virt (mkPhys IntRegClass 2)) as ->.
  { assert (lookup map2 (x 2) = Ok (virt (mkPhys IntRegClass 2))) as E by (vm_compute; reflexivity).
    congruence. }
  vm_compute. split; [discriminate|reflexivity].
Qed.

Definition A2 (r : RegId) : Z := if reg_eqb r (x 2) then 40%Z else 0%Z.


(** ** A fused instruction taken for an addition *)

Definition lui := DecodeExamples.numbered 4 (mk "Lui" [] [] [x 1] 4096).
Definition addi := DecodeExamples.numbered 5 (mk "Addi" [IsAddImm] [x 1] [x 1] 5).

Definition fused_li : DynInst :=
  match checkAndFuseInsts DecodeExamples.params DecodeExamples.environment (mkIgnore 0 0)
          [lui] addi with
  | Ok (_, _, inst, _) => inst
  | Panic _ => addi
  end.

(** A fused [lui]/[addi] still carries the flag of an addition of an immediate,
    with immediate 0 and the fusion temporary as its first source.  With constant
    folding enabled rename eliminates it: the destination is mapped to the physical
    register of the temporary instead of receiving the constant. *)
Theorem fused_addi_folded :
  checkAndFuseInsts DecodeExamples.params DecodeExamples.environment (mkIgnore 0 0)
    [lui] addi = Ok (mkIgnore 0 0, [], fused_li, [InstListFuse 4 [4%Z; 5%Z]]) ∧
  rename_dest rparams no_vp thread2 fused_li 0 =
    Ok ((renamed_first fused_li).1, (renamed_first fused_li).2) ∧
  t_marks (renamed_first fused_li).1 = [ConstantFolded (seqNum fused_li)] ∧
  reads rf2 (t_map (renamed_first fused_li).1) (x 1) = reads rf2 (t_map thread2) FuseTmpReg ∧
  reads rf2 (t_map thread2) FuseTmpReg = Ok 3%Z.
Proof.
  split; [vm_compute; reflexivity|].
  split; [apply renamed_first_ok; vm_compute; reflexivity|].
  split; [vm_compute; reflexivity|]. split; vm_compute; reflexivity.
Qed.

End RenameExamples.
