(* ===== verification/RobExamples.v ===== *)
(** The reorder buffer and the commit stage on concrete instructions.

    The theorems of the two components at concrete states, and runs in which the
    code does not do what it means to. *)
From Stdlib Require Import Sorted.
From S2P Require Import Prelude Double RegFile Inst Comm CircularBuffer.
From S2P Require Import Rob RobInv RobProps RobTrace Commit CommitProps CommitIntake CommitRun.
Import Rob RobInv RobProps RobTrace Commit CommitProps CommitIntake CommitRun.

Module RobExamples.

(** Two threads share eight entries; a squash takes two cycles. *)
Definition rp : RobParams :=
  {| robPolicy := Partitioned; robWalkPolicy := ConstCycle; robCompress := kmhv2;
     numEntries := 8; CROB_instPerGroup := 4; squashWidth := 1; constSquashCycle := 2;
     rob_threads := 2; smtROBThreshold := 0 |}.

Definition inst (fl : Flags) (n t : Z) : RobInst :=
  mkRobInst (mkDyn (mkStatic "Add" "add" IntAluOp fl [] [] 0 0 None) PCState_default
    PCState_default false n 0 t 0 0 0 NoFault false false [] [] []) false false false false false.
(** The instruction when it can commit. *)
Definition ready (x : RobInst) : RobInst :=
  mkRobInst (ri x) true true (ri_inROB x) (ri_committed x) (ri_serializeBefore x).

Abbreviation State := (CommitState (lbuf RobInst)).

Definition state0 : State :=
  match Commit_new rp RoundRobin 4 with
  | Ok s => s
  | Panic _ => mkCommit [] [] (mkROB [] [] [] 0 0 [] [] [] 0 [] None None) [] [] [] [] [] [] [] 0
  end.

(** Three instructions of thread 0, the last one a load. *)
Definition three : list RobInst := [inst [] 1 0; inst [] 2 0; inst [IsLoad] 3 0].

Definition put (s : State) (x : RobInst) : State :=
  match insert_one rp (threadNumber (ri x)) 7 s x with Ok s' => s' | Panic _ => s end.
Definition puts (s : State) (x : RobInst) : bool :=
  match insert_one rp (threadNumber (ri x)) 7 s x with Ok _ => true | Panic _ => false end.

Definition state3 : State := foldl put state0 three.
Definition log (H : nat → Hist) (x : RobInst) : nat → Hist :=
  let t := Z.to_nat (threadNumber (ri x)) in
  upd H t (mkHist (h_in (H t) ++ [ri_seq x]) (h_ret (H t)) (h_sq (H t))).
Definition hist3 : nat → Hist := foldl log (λ _, mkHist [] [] []) three.

Lemma rp_ok : params_ok rp.
Proof. split; [by vm_compute|done|by right; right]. Qed.

Lemma stage_put s H x st :
  stage_inv rp s H → nth_res (c_status s) (threadNumber (ri x)) = Ok st →
  squashed (ri x) = false → open_status st → thread (threadNumber (ri x)) →
  (∀ n, n ∈ h_in (H (Z.to_nat (threadNumber (ri x)))) → (n < ri_seq x)%Z) → puts s x = true →
  stage_inv rp (put s x) (log H x).
Proof.
  intros Hc Hst Hsq [H1 H2] Ht Hlt. unfold puts, put.
  destruct (insert_one _ _ _ _ _) as [s'|] eqn:E; [|done]. intros _.
  by eapply (insert_one_inv rp rp_ok).
Qed.

Lemma stage_state3 : stage_inv rp state3 hist3.
Proof.
  unfold state3, hist3, three. cbn [foldl].
  eapply stage_put with (st := Idle);
    [eapply stage_put with (st := Idle);
      [eapply stage_put with (st := Idle);
        [apply (Commit_new_inv rp RoundRobin 4); reflexivity|..]|..]|..];
    try reflexivity; try done; try (split; [done|vm_compute; lia]); simpl; intros n Hn.
  - by apply elem_of_nil in Hn.
  - by apply list_elem_of_singleton in Hn as ->.
  - apply elem_of_cons in Hn as [->| ->%list_elem_of_singleton]; reflexivity.
Qed.

Lemma reachable3 : reachable rp (c_rob state3) hist3.
Proof. exact (proj1 stage_state3). Qed.

Definition insts3 : list RobInst := map setInROB three.

Lemma thread0 : thread 0.
Proof. split; [done|]. vm_compute. lia. Qed.
Lemma active01 : active_ok [0; 1]%Z.
Proof. do 2 (apply Forall_cons; split; [split; [done|vm_compute; lia]|]). constructor. Qed.

(** ** The theorems at this state *)

Lemma rob_conservation_witness :
  h_in (hist3 0) = [1; 2; 3]%Z ∧
  h_in (hist3 0) ≡ₚ h_ret (hist3 0) ++ h_sq (hist3 0) ++ map ri_seq insts3 ∧
  StronglySorted Z.lt (h_in (hist3 0)) ∧
  (h_ret (hist3 0) ++ map ri_seq insts3) `sublist_of` h_in (hist3 0).
Proof.
  split; [reflexivity|]. apply (rob_conservation rp rp_ok (c_rob state3) hist3 0 insts3).
  - apply reachable3.
  - reflexivity.
Defined.

Lemma rob_groups_by_policy_witness :
  threadGroups (c_rob state3) !! 0 = Some [2; 1]%Z ∧
  (∃ ss, insts3 = concat ss ∧ [2; 1]%Z = map (λ s, Z.of_nat (length s)) ss ∧
     Forall (seg_ok rp) ss) ∧ Forall live insts3.
Proof.
  split; [reflexivity|].
  apply (rob_groups_by_policy rp rp_ok (c_rob state3) hist3 reachable3) with (t := 0); reflexivity.
Defined.

Lemma rob_squash_exact_witness :
  ∃ r0 r' out, squash rp (c_rob state3) 1 0 = Ok r0 ∧ finish_squash rp 2 r0 0 [0; 1]%Z = Ok (r', out) ∧
    instList r' = <[0 := [setInROB (inst [] 1 0)]]> (instList (c_rob state3)) ∧
    map ri_seq out = [3; 2]%Z.
Proof.
  destruct (rob_squash_exact rp rp_ok (c_rob state3) hist3 0 1 insts3 [0; 1]%Z 2
    reachable3 thread0 eq_refl active01) as (r0 & Hs & Hf).
  assert (r0 = match squash rp (c_rob state3) 1 0 with Ok r => r | Panic _ => r0 end) as E
    by (by rewrite Hs).
  destruct Hf as (r' & out & Hf & _ & Hl & Ho); [lia|rewrite E; vm_compute; discriminate|].
  exists r0, r', out. split; [done|]. split; [done|]. split; [rewrite Hl; reflexivity|].
  rewrite Ho. reflexivity.
Defined.

Lemma rob_const_cycle_witness :
  ∃ r0 r' out, squash rp (c_rob state3) 0 0 = Ok r0 ∧
    finish_squash rp (Z.to_nat (constSquashCycle rp)) r0 0 [0; 1]%Z = Ok (r', out) ∧
    doneSquashing r' !! 0 = Some true.
Proof.
  apply (rob_const_cycle rp rp_ok (c_rob state3) hist3 0 0 insts3 [0; 1]%Z
    reachable3 thread0 eq_refl active01); done.
Defined.

(** ** A run of the stage *)

(** The instructions of thread 0 arrive; then IEW squashes thread 0 after its first
    instruction, in the cycle in which two instructions of thread 1 arrive, and the
    squash takes two cycles. *)
Definition two : list RobInst := [inst [] 4 1; inst [IsStore] 5 1].

Definition no_squash : list IewSquash := replicate 2 (mkIewSquash false 0 false).
Definition squash0 : list IewSquash := [mkIewSquash true 1 false; mkIewSquash false 0 false].

Definition cycle (iew : list IewSquash) (s : State) (sg : StallSignals) (fl : list RobInst)
    : State * StallSignals * list SquashSignal :=
  match commit_intake rp iew [0; 1]%Z s fl sg (replicate MaxThreads NoStall) 7 with
  | Ok r => r
  | Panic _ => (s, sg, [])
  end.
Definition walk0 (s : State) : State * list RobInst :=
  match walk_squash rp [0; 1]%Z (λ _, false) (s, []) 0 with Ok r => r | Panic _ => (s, []) end.

Definition run0 : nat → Log := λ _, mkLog [] [] [] [].
Definition cyc1 : State * StallSignals * list SquashSignal := cycle no_squash state0 StallSignals_new three.
Definition cyc2 : State * StallSignals * list SquashSignal := cycle squash0 cyc1.1.1 cyc1.1.2 two.
Definition walk1 : State * list RobInst := walk0 cyc2.1.1.
Definition walk2 : State * list RobInst := walk0 walk1.1.

Definition log1 : nat → Log := log_cycle state0 three cyc1.2 run0.
Definition log2 : nat → Log := log_cycle cyc1.1.1 two cyc2.2 log1.
Definition log4 : nat → Log := log_walk 0 walk2.2 (log_walk 0 walk1.2 log2).

Lemma crun1 : crun rp RoundRobin 4 cyc1.1.1 cyc1.1.2 log1.
Proof.
  apply (run_cycle rp RoundRobin 4 state0 StallSignals_new run0 no_squash [0; 1]%Z three
    (replicate MaxThreads NoStall) 7); [apply run_new; reflexivity|apply active01| |vm_compute; reflexivity].
  right. exists 0. split; [vm_compute; lia|]. split; [reflexivity|]. split; [simpl; lia|].
  split; [by repeat constructor|]. split; [by repeat constructor|]. intros n x Hn. by apply elem_of_nil in Hn.
Qed.

Lemma sends_two : sends rp 4 cyc1.1.2 log1 two.
Proof.
  right. exists 1. split; [vm_compute; lia|]. split; [reflexivity|]. split; [simpl; lia|].
  split; [by repeat constructor|]. split; [by repeat constructor|]. intros n x Hn. by apply elem_of_nil in Hn.
Qed.

Lemma crun4 : crun rp RoundRobin 4 walk2.1 cyc2.1.2 log4.
Proof.
  apply (run_walk rp RoundRobin 4 walk1.1 cyc2.1.2 _ [0; 1]%Z (λ _, false) 0);
    [|apply thread0|apply active01|vm_compute; reflexivity].
  apply (run_walk rp RoundRobin 4 cyc2.1.1 cyc2.1.2 _ [0; 1]%Z (λ _, false) 0);
    [|apply thread0|apply active01|vm_compute; reflexivity].
  apply (run_cycle rp RoundRobin 4 cyc1.1.1 cyc1.1.2 log1 squash0 [0; 1]%Z two
    (replicate MaxThreads NoStall) 7); [apply crun1|apply active01|apply sends_two|vm_compute; reflexivity].
Qed.

Lemma commit_drives_rob_witness :
  log4 0 = mkLog [1; 2; 3]%Z [] [] [3; 2]%Z ∧ log4 1 = mkLog [4; 5]%Z [4; 5]%Z [] [] ∧
  (∃ H, reachable rp (c_rob walk2.1) H) ∧
  (doneSquashing (c_rob walk2.1) !! 0 = Some false → c_status walk2.1 !! 0 = Some ROBSquashing) ∧
  l_arr (log4 0) ≡ₚ l_ret (log4 0) ++ l_sq (log4 0) ++ l_drop (log4 0) ++ [1]%Z ++ [] ∧
  StronglySorted Z.lt (l_arr (log4 0)) ∧
  (l_ret (log4 0) ++ [1]%Z ++ []) `sublist_of` l_arr (log4 0).
Proof.
  split; [vm_compute; reflexivity|]. split; [vm_compute; reflexivity|].
  apply (commit_drives_rob rp RoundRobin 4 rp_ok ltac:(vm_compute; lia) walk2.1 cyc2.1.2 log4 0
    [setInROB (inst [] 1 0)] (LBuf 4 []) crun4); vm_compute; reflexivity.
Defined.

Lemma intake_fits_witness :
  ∃ s' sg', moveInstsToBuffer rp cyc1.1.1 two cyc1.1.2 (replicate MaxThreads NoStall) 9 =
      Ok (s', sg') ∧
    (0 ≤ numInstsInROB (c_rob s') ≤ 32)%Z ∧
    ∃ l' fb', instList (c_rob s') !! 1 = Some l' ∧ c_fixed s' !! 1 = Some fb' ∧
      (l' = [] ∧ lb_elems fb' = two ∨ l' = map setInROB two ∧ lb_elems fb' = []) ∧
      (blockIEW sg' !! 1 = Some false → lb_elems fb' = []).
Proof.
  destruct (intake_fits rp RoundRobin 4 rp_ok ltac:(vm_compute; lia)
    ltac:(apply shares_fit_policy; [done|left; vm_compute; split; [done|lia]]) ltac:(done)
    no_squash [0; 1]%Z cyc1.1.1 cyc1.1.1 cyc1.1.2 log1 two two [] (replicate MaxThreads NoStall) 9
    crun1 active01 sends_two ltac:(done) ltac:(vm_compute; reflexivity)) as (s' & sg' & Hm & Hb & _ & Hl).
  exists s', sg'. split; [done|]. split; [done|].
  exact (Hl 1 [] (LBuf 4 []) ltac:(vm_compute; reflexivity) ltac:(vm_compute; reflexivity)).
Defined.

(** ** Where the stage departs from its intent *)

(** Two threads that may each use both entries. *)
Definition rp_dynamic : RobParams :=
  {| robPolicy := Dynamic; robWalkPolicy := Rollback; robCompress := none;
     numEntries := 2; CROB_instPerGroup := 1; squashWidth := 1; constSquashCycle := 1;
     rob_threads := 2; smtROBThreshold := 0 |}.

Definition intake (p : RobParams) (s : State) (fl : list RobInst) : res State :=
  let! r := moveInstsToBuffer p s fl StallSignals_new (replicate MaxThreads NoStall) 7 in
  Ok r.1.

Definition two_groups (p : RobParams) : res State :=
  let! s := Commit_new p RoundRobin 4 in
  let! s := intake p s [inst [] 1 0; inst [] 2 0] in
  intake p s [inst [] 3 1; inst [] 4 1].

(** Under the dynamic policy every thread may use all entries, so two threads
    that each stay within [getMaxEntries] fill the buffer twice over: the intake of
    two instructions of a second thread fails the assertion of [ROB::insertInst],
    while the same run goes through when the entries are partitioned. *)
Theorem dynamic_shares_overflow :
  two_groups rp_dynamic = Panic "numInstsInROB <= numEntries * instsPerGroup" ∧
  maxEntries (match ROB_new rp_dynamic with Ok r => r | Panic _ => c_rob state0 end) =
    [2; 2; 0; 0]%Z ∧
  ∃ s, two_groups rp = Ok s ∧ numInstsInROB (c_rob s) = 4%Z.
Proof.
  split; [vm_compute; reflexivity|]. split; [vm_compute; reflexivity|].
  destruct (two_groups rp) as [s|] eqn:E; [|by vm_compute in E].
  exists s. split; [done|].
  assert (match two_groups rp with Ok s => numInstsInROB (c_rob s) | Panic _ => 0%Z end = 4%Z) as E'
    by (vm_compute; reflexivity).
  by rewrite E in E'.
Qed.

(** A squash of one thread drops what rename delivers for another in the same
    cycle: [squashInflightAndUpdateVersion] marks every instruction in flight, and
    after it the intake leaves the buffers of all threads as they are. *)
Theorem squash_drops_other_threads (s s' s'' : State) fl fl' tid :
  squashInflightAndUpdateVersion s fl tid = Ok (s', fl') → take_in s' fl' = Ok s'' →
  c_fixed s'' = c_fixed s' ∧ Forall (λ x, squashed (ri x) = true) fl'.
Proof.
  intros Hq Ht. unfold squashInflightAndUpdateVersion in Hq.
  apply res_bind_Ok in Hq as (fb & _ & Hq). apply res_bind_Ok in Hq as (fx & _ & Hq).
  injection Hq as <- <-.
  assert (Forall (λ x, squashed (ri x) = true) (map mark_squashed fl)) as Hall
    by (apply Forall_map, Forall_true; done).
  split; [|done]. destruct (map mark_squashed fl) as [|x k] eqn:Ek; [by injection Ht as <-|].
  unfold take_in in Ht. apply res_bind_Ok in Ht as (c & [H0 Hc]%nth_res_Ok & Ht).
  apply res_bind_Ok in Ht as ([] & _ & Ht). apply res_bind_Ok in Ht as (c' & Hf & Ht).
  apply res_bind_Ok in Ht as (fx' & Hs & Ht). injection Ht as <-. cbn [with_fixed c_fixed].
  assert (c' = c) as ->.
  { revert Hf. generalize (threadNumber (ri x)). clear -Hall. intros t.
    induction Hall as [|y k' Hy _ IH]; intros Hf; simpl in Hf; [by injection Hf as <-|].
    apply res_bind_Ok in Hf as (c1 & H1 & Hf). apply res_bind_Ok in H1 as ([] & _ & H1).
    rewrite Hy in H1. injection H1 as <-. by apply IH. }
  rewrite (proj2 (nth_view _ _ _ H0 Hc)) in Hs. injection Hs as <-. by apply list_insert_id.
Qed.

Definition state_two : State :=
  match squashInflightAndUpdateVersion state3 two 0 with Ok (s, _) => s | Panic _ => state3 end.

Lemma squash_drops_other_threads_witness :
  c_fixed state_two !! 1 = Some (LBuf 4 []) ∧ take_in state_two (map mark_squashed two) = Ok state_two ∧
  Forall (λ x, squashed (ri x) = true) (map mark_squashed two).
Proof.
  split; [reflexivity|]. split; [reflexivity|].
  apply (squash_drops_other_threads state3 state_two state_two two (map mark_squashed two) 0);
    reflexivity.
Defined.

(** Both threads have a head that can commit; the older one is that of thread 1. *)
Definition state_old : State :=
  let y := inst [] (2 ^ 32 + 5) 0 in
  let s := put (put state0 y) (inst [] 10 1) in
  with_rob s (set_insts (set_insts (c_rob s) 0 [ready (setInROB y)]) 1
    [ready (setInROB (inst [] 10 1))]).

(** [oldestReady] keeps the oldest sequence number in 32 bits: with heads
    [2^32 + 5] and [10] it picks the younger one. *)
Theorem oldest_ready_truncates :
  (∃ x y, readHeadInst (c_rob state_old) 0 = Ok (Some x) ∧
     readHeadInst (c_rob state_old) 1 = Ok (Some y) ∧ (ri_seq y < ri_seq x)%Z) ∧
  oldestReady state_old [0; 1]%Z = Ok (Some 0%Z).
Proof. split; [eexists _, _; repeat split|]; reflexivity. Qed.

End RobExamples.
